(* ===== verification/_CoqProject ===== *)
-Q . S2P
Prelude.v
OrdContainers.v
BigMath.v
QuorumSet.v
QuorumFacts.v
ScpTypes.v
BallotOrder.v
Federated.v
FederatedFacts.v
QuorumTheorems.v
Ballot.v
BallotFacts.v
BallotStep.v
BallotVoting.v
Nomination.v
NominationStep.v
SlotScp.v
SlotSafety.v
SlotTheorems.v
BallotTheorems.v
NodeTheorems.v
LedgerKeys.v
LedgerDelta.v
LedgerDeltaFacts.v
EntryStore.v
EntryStoreFacts.v
Signatures.v
Transaction.v
TransactionFacts.v
LedgerHeader.v
TxSet.v
TxSetFacts.v
Bucket.v
BucketFacts.v
FutureBucket.v
BucketList.v
BucketListFacts.v
LedgerClose.v
LedgerCloseFacts.v
LedgerExample.v
LedgerTheorems.v
HerderValues.v
HerderTheorems.v
HerderTxs.v
HerderTxTheorems.v
Calendar.v
Statistics.v
StatisticsTheorems.v
Work.v
WorkFacts.v
WorkProgress.v
WorkTheorems.v
Floodgate.v
ItemFetcher.v
OverlayTheorems.v
PendingEnvelopes.v
EnvelopeFacts.v
EnvelopeTheorems.v
Balance.v
Assets.v
OfferExchange.v
ExchangeFacts.v
DexStore.v
AccountManager.v
Requests.v
CreateOffer.v
Manage.v
DexFacts.v
BookFacts.v
CrossStore.v
CrossOffer.v
OfferFacts.v
Supply.v
Withdrawals.v
ManageFacts.v
MoneyOps.v
DexExample.v
MoneyTheorems.v
SupplyTheorems.v
StorageTheorems.v
