(* ===== verification/Prelude.v ===== *)
(** * Verification of the core of SwarmCore: consensus, ledger, exchange, scheduling

    SwarmCore is a replicated ledger.  Its nodes agree on the content of
    every ledger with the Stellar Consensus Protocol (SCP), a library under
    [src/src/scp] that the rest of the program drives through an interface
    of virtual functions, [SCPDriver].  A closed ledger applies a set of
    signed transactions ([src/src/transactions], [src/src/herder]) to the
    entries in the database ([src/src/ledger]); the entries it changes are
    collected in a [LedgerDelta] and stored in the [BucketList]
    ([src/src/bucket]).  Operations move money between balances, among them
    the offers of an exchange ([src/src/transactions/dex]), withdrawals and
    the issuance of assets.  The herder
    ([src/src/herder]) stands between the network ([src/src/overlay]), the
    consensus and the ledger; background work is a tree of retried tasks
    ([src/src/work]).  This development
    models these parts as they are written and proves what makes them
    correct.

    ** The program

    A node has one [SCP] object with a [LocalNode] (its identity and quorum
    set) and a map of [Slot]s, one per ledger.  A slot is the composition of
    a [NominationProtocol], which agrees on candidate values, and a
    [BallotProtocol], which commits one of them.  Both test the statements
    received from other nodes with the quorum functions of [LocalNode]
    ([isQuorumSlice], [isVBlocking], [isQuorum]) through
    [Slot::federatedAccept] and [Slot::federatedRatify].  A transition emits
    a statement of the node itself, which goes back through
    [Slot::processEnvelope] before it is handed to the driver; a confirmed
    nomination starts the ballot protocol.  The driver is told of emitted
    envelopes, timers and the externalized value.

    The agreed value names a [TxSetFrame].  [LedgerManagerImpl::closeLedger]
    notes the time of each transaction, orders the set, and applies the
    transactions one by one: [TransactionFrame] checks the source account, the
    signatures ([SignatureValidator]) and every operation, and then applies
    the operations in nested deltas and SQL transactions that are committed
    outwards or rolled back together.  The operations read and write entries
    through [EntryHelper]s, which keep a cache of the rows.  A new offer locks
    what it sells on a balance, is matched with the best offers of the other
    side of the book, balances and commission being changed at each match, and
    what is left of it stays in the book.  A withdrawal locks its amount in a
    request until a reviewer approves or rejects it; the owner of an asset
    issues it with a request that the operation approves in a nested delta; an
    asset counts what is issued, set aside and available.  Assets are created
    and changed through requests too; a pair that is taken off the market loses
    its offers, whose locks are given back.  [AccountManager] keeps fees, statistics and limits.  When the ledger closes, the entries the
    outermost delta created, modified and deleted become a bucket, a sorted
    list with tombstones for deleted entries, that enters the youngest of
    eleven levels; levels spill into older ones, where they are merged in
    the background ([FutureBucket]) without what younger levels shadow.

    [HerderImpl] is the driver.  It validates the values of the consensus,
    combines the candidates of nomination into one value, keeps the
    transactions that were received and not yet applied, and proposes a set of
    them for the next ledger.  An envelope from a peer may lack its quorum set
    or a transaction set: [PendingEnvelopes] keeps it, an [ItemFetcher] per
    type of item asks one peer after the other, and the envelope is queued for
    the consensus library when it is complete.  Messages are spread by the
    [Floodgate], which knows which peer has which message.  [Work] items run
    their children first, retry after a failure and notify their parent.
    [StatisticsFrame] adds up what an account spends per day, week, month and
    year.

    ** The files

    - [Prelude] (this file): machine integers, the state and error monad
      with its weakest preconditions, tactics, lemmas on lists.
    - [OrdContainers]: the class [Ord] of ordered keys; [std::set] and
      [std::map] as sorted lists.
    - [BigMath]: [bigDivide] and [safeSum] of [util/types.cpp].
    - [QuorumSet]: the functions of [LocalNode] on one quorum set (Module
      [LocalNode]); [QuorumFacts] proves their properties.
    - [ScpTypes]: messages, the driver, the members of [BallotProtocol],
      [NominationProtocol], [Slot] and [LocalNode] as records.
    - [BallotOrder]: [compareBallots] and [isNewerStatement].
    - [Federated]: [isQuorum], [federatedAccept], [federatedRatify],
      [isNodeInQuorum]; [FederatedFacts] relates them to abstract
      definitions of quorum and reachability.
    - [Ballot] (Module [BP]): every method of [BallotProtocol].
      [BallotFacts] has lemmas on its pure helpers, [BallotStep] the
      relation [slot_le] between the slot before and after a method,
      [BallotVoting] the agreement behind each transition and the order of
      p and p'.
    - [Nomination] (Module [NP]): every method of [NominationProtocol] and
      [Slot::processEnvelope], which ties the two protocols;
      [NominationStep] has its lemmas.
    - [SlotScp]: the operations of [Slot] (Module [SlotOps]) and of [SCP]
      (Module [SCP]).
    - [SlotSafety]: the entry points of a slot as actions, the reachable
      slots by rule induction, and that each action keeps the invariants;
      then concrete networks and histories.
    - [QuorumTheorems], [SlotTheorems], [BallotTheorems], [NodeTheorems]:
      the properties, with instances on the scenarios.
    - [LedgerKeys]: [LedgerEntryIdCmp] of [bucket/LedgerCmp.h].
    - [LedgerDelta] (Module [LD]) and [LedgerDeltaFacts]: a delta and the
      change of the ledger it stands for.
    - [Bucket] and [BucketFacts]: writing and merging buckets.
    - [FutureBucket] (Module [FB]): merges in progress, saving and
      restarting them; the class [BucketServicesOk] states what they rely on.
    - [BucketList] (Module [BL]): levels, schedule, [addBatch].
      [BucketListFacts] has the schedule as divisibility, the argument
      for one key, the buckets after one ledger, and the ledger a bucket list
      stands for.
    - [EntryStore] (Modules [LruCache] and [ES]): rows, cache and delta, with
      the class [EntryHelper] for what differs between entry types;
      [EntryStoreFacts] keeps the cache equal to the rows and relates the
      store to a map.
    - [Signatures] (Module [SV]): [SignatureValidator].
    - [Transaction] (Module [TF]) and [TransactionFacts]: [TransactionFrame]
      and [OperationFrame]; an operation is the record of its virtual methods.
    - [LedgerHeader] (Module [LH]): headers, generated identifiers, skip list.
    - [TxSet] (Module [TS]) and [TxSetFacts]: [TxSetFrame].
    - [LedgerClose] (Module [LC]) and [LedgerCloseFacts]: [closeLedger], the
      tables of transactions and headers, histories of ledgers with failed
      closes; [LedgerExample] is a small ledger.
    - [LedgerTheorems]: the properties of the store, of signatures,
      transactions, transaction sets and closed ledgers.
    - [HerderValues] (Module [HV]): the values of the consensus in
      [HerderImpl]; [HerderTheorems] has its lemmas and properties.
    - [HerderTxs] (Module [PT]): pending transactions and the proposed set;
      [HerderTxTheorems].
    - [Calendar] (Module [VC]): dates of [util/Timer.cpp], with [gmtime] and
      [timegm] of the C library; [Statistics] (Module [SF]):
      [StatisticsFrame], and its abstract sums; [StatisticsTheorems].
    - [Work] (Module [WK]): works, their parents and the manager.
      [WorkFacts] has the methods, [WorkProgress] the invariant, the measure
      that decreases and the worlds that can be reached; [WorkTheorems].
    - [Floodgate] (Module [FG]) and [ItemFetcher] (Modules [TR], [IF]): who has
      been told what, and the search for missing items; [OverlayTheorems].
    - [PendingEnvelopes] (Module [PE]): envelopes on their way to the
      consensus, with both fetchers and the parts of [HerderImpl] that feed
      the queue.  [EnvelopeFacts] splits every handler into small steps and
      has what the steps keep; [EnvelopeTheorems].
    - [Balance] (Module [BF]): [BalanceFrame].
    - [Assets] (Modules [AF], [RQ]): [AssetFrame] and
      [ReviewableRequestFrame].
    - [OfferExchange] (Modules [OF], [OM], [OE]) and [ExchangeFacts]: offers
      and the arithmetic of matching two of them.
    - [DexStore] (Modules [AP], [DS]): asset pairs, and the queries of the
      exchange on the store.
    - [AccountManager] (Module [AM]): [AccountManager], with the loads of
      limits, statistics and requests.
    - [Requests]: [CreateWithdrawalRequestOpFrame] (Module [WR]),
      [ReviewRequestOpFrame] and its handlers for withdrawals, issuance and
      assets with [ReviewRequestHelper] (Module [RR]),
      [CreateIssuanceRequestOpFrame]
      (Module [IR]) and [CreatePreIssuanceRequestOpFrame] (Module [PR]).
    - [CreateOffer] (Module [CO]): crossing offers, creating and deleting
      them.  [DexFacts] has the invariant of the order book, [BookFacts] the
      steps that keep it, [CrossStore] and [CrossOffer] one crossing and the
      loop over the book, [OfferFacts] the operations; [DexExample] is a small
      exchange.
    - [Manage]: [ManageBalanceOpFrame] (Module [MB]),
      [ManageAssetPairOpFrame] (Module [MP]) and the operations of
      [transactions/manage_asset] (Module [MA]).
    - [Supply] has the invariant of the money supply and the writes that keep
      it, [Withdrawals] what the operations on withdrawals and the approval of
      issuances do to it, [ManageFacts] the same of balances, pairs and the
      reviews of assets, [MoneyOps] of reviews as a whole and of the operations
      that ask for an issuance or an asset, also in a nested delta.
    - [MoneyTheorems]: the properties of balances and of the exchange;
      [SupplyTheorems]: those of withdrawals, issuance and the money supply.
    - [StorageTheorems]: the properties of deltas and buckets.

    ** How the code is modelled

    A method is a computation [M Slot A]: it takes the slot, and returns a
    value and the new slot ([Ret]) or an error and the slot as it was when
    the error was thrown ([Throw]).  Errors are the exceptions of the source
    with their text (thrown by value, or by pointer with [throw new]), [Aborted] for [abort()] and a failed [dbgAssert]
    (compiled in when [debugBuild] holds), and [NullDeref] for reading
    through a null pointer.  Calls to the driver that only inform it are
    appended to [mDriverCalls], its queries are the fields of the record
    [SCPDriver]: the theorems hold for every driver.  Counters are 32-bit and
    weights 64-bit integers with their wrap-around.  Hashes and node
    identifiers are opaque, totally ordered keys ([Z]); values are byte
    strings in the order of the source.  A [std::set] or [std::map] is the
    sorted list of its elements, so that loops visit them in the order of
    the code.  In the bucket code a failed [assert] is [None]; the theorems
    show that none fails.  Ledger keys and entries are parameters there (the
    protocol files that define them are not in the tree), ordered by the
    class [Ord]; [LedgerEntryIdCmp] is shown to be a strict weak order, in
    which only references that differ in the sender are tied.  [std::sort] is
    any function of the class [StdSort], or [SortOk] for other comparisons.

    The database is the list of the rows of its tables; [samePK], [whereKey]
    and [updateRow] say how the statements of a helper find and change rows,
    and [EntryHelperOk] that they identify rows as ledger keys do; [deletion]
    says whether a helper deletes rows at all.  A failed
    operation or close restores the rows that the SQL transaction saved.  A
    history of ledgers is a list of events; a close that throws is followed by
    a start from the database ([LC.loadLastKnownLedger]): the header of the last
    closed ledger and the bucket list of the archive state saved with it, whose
    merges are started again with whatever the uninitialized flag
    [mKeepDeadEntries] holds.  A frame ([Frame]) that the exchange keeps in
    memory is a value of the record [Taker] until it is stored, so that the
    rows and the frames can differ as they do in the code.  The amounts of a
    balance are 64-bit numbers of a sign that the protocol files fix
    ([AmountType]); what is proved holds for both.  The bodies of requests
    for sales and limits are opaque, with their validity and their review
    handlers as parameters; JSON is a parameter too.  Signature verification,
    hashes, the numbers of enumerators and the XDR encodings are parameters.

    What the herder reads of the node is the record [HerderView]; the
    consensus library and the ledger manager that [PendingEnvelopes] calls are
    the record [HerderHost] over an arbitrary state, and the ways in which
    [valueExternalized] ends the process are the type [Crash].  Works, peers and
    transactions are numbers (pointers).  Closures given to the event loop,
    processes and timers are lists of what may happen next; a history is any
    sequence of them with the inputs of the component.  Components that
    talk to others also write a log of the calls, which no definition
    reads and properties are stated on.

    ** What the theorems show

    - [SlotTheorems] is about every history of a slot, whatever envelopes it
      receives: at most one value is externalized, and it is final; emitted
      ballot statements are ever newer; phases, recorded statements and
      nomination sets only advance; p never goes down and stays above p'; every
      entry point ends; nominations never
      reach the "bad state" error; candidates are accepted, accepted values
      are voted for and valid.
    - [BallotTheorems]: the verdict on an envelope, the quorum or v-blocking
      set behind accepting and externalizing, the interval and counter
      searches, the order of p and p', what is left of a state that is restored
      from its statement; and three behaviours that differ from what the
      source documents.
    - [QuorumTheorems]: v-blocking sets as complements of slices, the
      iterative [isQuorum] against the definition of a quorum, federated
      acceptance, normalization, sanity, weights, closest v-blocking sets,
      transitive membership, the order of statements, 128-bit division.
    - [NodeTheorems]: leader election, the growth order of nominations,
      independence of slots, purging.
    - [LedgerTheorems]: the store refines a map; a signature check succeeds
      only with enough weight; a failed transaction has no effect; closing a
      ledger happens completely or not at all and keeps tables, cache, bucket
      list and headers consistent over any history, restarts included if they
      find what the node had stored; no transaction succeeds twice; the order of application, validity and trimming of transaction
      sets; two behaviours that make nodes fail.
    - [MoneyTheorems]: a match is the largest one both offers can pay;
      creating and deleting offers keep every balance above the locks of its
      offers and the funds of every asset constant, without a failed
      assertion; locking and unlocking are inverse; an offer that is cancelled
      for its price keeps its money locked, and a match of the smallest amount
      throws.
    - [SupplyTheorems]: over any sequence of successful operations on offers,
      withdrawals, issuances, reviews, balances, pairs and assets the funds in
      every asset are what was issued of it, within its maximum, if no asset is
      created with a maximum above 63 bits; taking a pair
      off the market gives back what its offers had locked; asking for a withdrawal locks it
      within the limits of the account, rejecting it gives everything back,
      approving it cannot fail if the fee can be paid; an issuance gives the
      receiver the amount less the fee or only leaves a request.
    - [HerderTheorems]: combined candidates are a value that every synced node
      can vote on; what is extracted of an invalid value.
    - [HerderTxTheorems]: pending transactions refine a pool with ages; the
      proposed set is valid.
    - [StatisticsTheorems]: the sums are those of the log of outcomes, with
      the exceptions of the calendar code; reverting.
    - [WorkTheorems]: works come to an end whatever fails, run after their
      children, and succeed only with all of them.
    - [OverlayTheorems]: no peer is told twice; a forced or new message
      reaches every authenticated peer that does not know it; a round of
      requests asks every peer.
    - [EnvelopeTheorems]: the consensus library gets complete envelopes, once
      each; missing items are searched for; the queue is drained unless the
      process crashes for a stated reason.
    - [StorageTheorems]: operations on a delta, its change lists and nested
      commits have the effect of the operations on the ledger; after any
      history the bucket list stands for the ledger, through spills, shadows
      and dropped tombstones; merging, the spill schedule, the order of
      keys; restarted merges, and how an uninitialized member can change
      what they compute.

    ** Bounds

    Recursion that is not structural has fuel, and running out of it is the
    error [OutOfFuel], which [slot_terminates] excludes.
    [RECURSION_FUEL] is 51, one more than [MAX_ADVANCE_SLOT_RECURSION], at
    which [advanceSlot] throws.  The bump loop has three times as many
    iterations as there can be counters above the current one.  The
    recursion of the nomination protocol has fuel linear in the number of
    values: [closedU] assumes a finite list of values closed under the
    driver's [extractValidValue], each processed nomination growing one of the
    three sets of values.  The loops of [isQuorum] and [isNodeInQuorum] have
    one iteration per node and one to stop.  The bucket list is followed
    while ledger numbers plus half the size of level 9 (524288) fit in 32
    bits, so that the ledger of the next spill does not wrap around.  The
    signers of a system account are looked up once, at the master account.
    Signature weights are summed without wrap-around for at most twenty
    signatures, which the protocol allows, of weights up to 10^8.  The loop
    that matches an offer has more rounds than there are rows: a round that
    goes on has removed the offers it loaded.  [advance] of a work recurses at
    most as deep as there are works.  Delivering an item to waiting envelopes
    takes as many rounds as there are envelopes waiting for it, and processing
    the queue, with the nested processing that externalizing starts, as many
    as there are envelopes queued.  The caches of transaction sets and quorum
    sets hold 10000 items; what is said about missing items is for histories
    in which nothing was evicted.  Times are Unix times from 1970 on.

    ** Not modelled

    The JSON and string output of the consensus library, statement
    timestamps, the default hash functions of the driver and the hashes of
    buckets (parameters), bucket files, the SQL engine and its columns,
    metrics and meta data, and the rest of the program: signing, persistence
    and timers of the herder, peers and connections, history and catch-up,
    configuration: network, file and database I/O.  Of the operations,
    payments, invoices, sales with the participation in them, and the
    management of accounts, signers, fees and limits are not modelled: they work on the same store with the same
    helpers.  No account type may be the source of a payment in this version
    of the program, so that the operation is never applied. *)

From stdpp Require Export prelude list strings.
From Stdlib Require Export ZArith Lia.
#[export] Set Default Goal Selector "1".
Global Open Scope Z_scope.

(** ** Machine integers

    A w-bit unsigned integer is a [Z] in [0, 2^w); the wrap-around is
    written out where the source can wrap. *)

Definition UINT32_MAX : Z := 4294967295.
Definition UINT64_MAX : Z := 18446744073709551615.
Definition INT64_MAX : Z := 9223372036854775807.
Definition INT64_MIN : Z := -9223372036854775808.

Definition u32 (z : Z) : Z := z mod 4294967296.
Definition u64 (z : Z) : Z := z mod 18446744073709551616.
Definition u128 (z : Z) : Z := z mod 340282366920938463463374607431768211456.
(** Conversion to a signed integer, as the compilers the project targets do it. *)
Definition i32 (z : Z) : Z := (z + 2147483648) mod 4294967296 - 2147483648.
Definition i64 (z : Z) : Z :=
  (z + 9223372036854775808) mod 18446744073709551616 - 9223372036854775808.

Definition is_u32 (z : Z) : Prop := 0 <= z <= UINT32_MAX.
Definition is_u64 (z : Z) : Prop := 0 <= z <= UINT64_MAX.
Definition is_i64 (z : Z) : Prop := INT64_MIN <= z <= INT64_MAX.

(** ** Tactics *)

(** Case analysis on the scrutinee of every [if]/[match] of the goal, with
    boolean comparisons on [Z] turned into propositions. *)
Ltac zify_bool :=
  repeat match goal with
  | H : (_ && _) = true |- _ => apply andb_true_iff in H; destruct H
  | H : (_ && _) = false |- _ => apply andb_false_iff in H
  | H : (_ || _) = true |- _ => apply orb_true_iff in H
  | H : (_ || _) = false |- _ => apply orb_false_iff in H; destruct H
  | H : negb _ = true |- _ => apply negb_true_iff in H
  | H : negb _ = false |- _ => apply negb_false_iff in H
  | H : (_ =? _) = true |- _ => apply Z.eqb_eq in H
  | H : (_ =? _) = false |- _ => apply Z.eqb_neq in H
  | H : (_ <? _) = true |- _ => apply Z.ltb_lt in H
  | H : (_ <? _) = false |- _ => apply Z.ltb_ge in H
  | H : (_ <=? _) = true |- _ => apply Z.leb_le in H
  | H : (_ <=? _) = false |- _ => apply Z.leb_gt in H
  | H : (_ >? _) = true |- _ => rewrite Z.gtb_ltb in H
  | H : (_ >? _) = false |- _ => rewrite Z.gtb_ltb in H
  | H : (_ >=? _) = true |- _ => rewrite Z.geb_leb in H
  | H : (_ >=? _) = false |- _ => rewrite Z.geb_leb in H
  end.

Ltac case_ifs :=
  repeat match goal with
  | |- context [if ?b then _ else _] =>
      let E := fresh "E" in destruct b eqn:E
  end.

(** Split every conjunction and disjunction of the context. *)
Ltac break :=
  repeat match goal with
  | H : _ /\ _ |- _ => destruct H
  | H : _ \/ _ |- _ => destruct H
  end.

(** Unfold the machine-integer definitions and call [lia]. *)
Ltac word_lia :=
  unfold is_u32, is_u64, is_i64, UINT32_MAX, UINT64_MAX, INT64_MAX, INT64_MIN,
    u32, u64, u128, i32, i64 in *;
  Z.to_euclidean_division_equations; lia.

Lemma u32_range z : is_u32 (u32 z).
Proof. word_lia. Qed.

Lemma u64_range z : is_u64 (u64 z).
Proof. word_lia. Qed.

Lemma u32_small z : is_u32 z -> u32 z = z.
Proof. unfold is_u32, u32, UINT32_MAX; intros; apply Z.mod_small; lia. Qed.

Lemma u64_small z : is_u64 z -> u64 z = z.
Proof. unfold is_u64, u64, UINT64_MAX; intros; apply Z.mod_small; lia. Qed.

Lemma i32_small z : -2147483648 <= z < 2147483648 -> i32 z = z.
Proof. unfold i32; intros; rewrite Z.mod_small; lia. Qed.

Lemma i64_small z : is_i64 z -> i64 z = z.
Proof.
  unfold is_i64, i64, INT64_MIN, INT64_MAX; intros; rewrite Z.mod_small; lia.
Qed.

(** ** Counting the elements of a list that satisfy a test *)

Definition count {A} (f : A -> bool) (l : list A) : Z :=
  Z.of_nat (length (List.filter f l)).

Section Count.
Context {A : Type}.
Implicit Types (f g : A -> bool) (l : list A).

Lemma count_nil f : count f [] = 0.
Proof. reflexivity. Qed.

Lemma count_cons f x l : count f (x :: l) = (if f x then 1 else 0) + count f l.
Proof. unfold count; simpl; destruct (f x); simpl; lia. Qed.

Lemma count_app f l1 l2 : count f (l1 ++ l2) = count f l1 + count f l2.
Proof. induction l1 as [|x l1 IH]; simpl; rewrite ?count_cons, ?count_nil; lia. Qed.

Lemma count_nonneg f l : 0 <= count f l.
Proof. unfold count; lia. Qed.

Lemma count_le_length f l : count f l <= Z.of_nat (length l).
Proof.
  induction l as [|x l IH]; simpl; rewrite ?count_cons, ?count_nil;
    [lia|destruct (f x); lia].
Qed.

Lemma count_ext f g l : (forall x, x ∈ l -> f x = g x) -> count f l = count g l.
Proof.
  induction l as [|x l IH]; intros H; [reflexivity|].
  rewrite !count_cons, (H x), IH; [reflexivity| |set_solver].
  intros y Hy; apply H; set_solver.
Qed.

Lemma count_mono f g l :
  (forall x, x ∈ l -> f x = true -> g x = true) -> count f l <= count g l.
Proof.
  induction l as [|x l IH]; intros H; [reflexivity|].
  rewrite !count_cons. specialize (H x) as Hx.
  assert (count f l <= count g l) by (apply IH; set_solver).
  destruct (f x); [rewrite Hx by set_solver|destruct (g x)]; lia.
Qed.

(** A test and its complement split the list. *)
Lemma count_compl f g l :
  (forall x, x ∈ l -> g x = negb (f x)) ->
  count f l + count g l = Z.of_nat (length l).
Proof.
  induction l as [|x l IH]; intros H; [reflexivity|].
  rewrite !count_cons, (H x) by set_solver.
  assert (count f l + count g l = Z.of_nat (length l)) by (apply IH; set_solver).
  simpl length; destruct (f x); simpl; lia.
Qed.

Lemma count_perm f l1 l2 : l1 ≡ₚ l2 -> count f l1 = count f l2.
Proof.
  induction 1; rewrite ?count_cons; lia.
Qed.

End Count.

Create Rewrite HintDb count.
#[export] Hint Rewrite @count_nil @count_cons @count_app : count.

(** ** Lists *)

(** Where an element of a concatenation is. *)
Lemma app_cons_cases {A} (h lh h1 h2 : list A) e : h ++ lh = h1 ++ e :: h2 ->
  (exists h3, h = h1 ++ e :: h3) \/ exists h3, h1 = h ++ h3 /\ e ∈ lh.
Proof.
  revert h1. induction h as [|a h IH]; intros h1 E.
  - right. exists h1. split; [done|]. cbn in E. rewrite E. apply elem_of_app. right. by left.
  - destruct h1 as [|b h1]; cbn in E; injection E as -> E.
    + left. by exists h.
    + destruct (IH h1 E) as [[h3 ->]|(h3 & -> & ?)]; [left; by exists h3|right; by exists h3].
Qed.

(** ** A state and exception monad

    The handlers of the program mutate one object and may throw; the
    object keeps its value when an exception passes through it, so the
    outcome carries a state in both cases. *)

Inductive Exn :=
| RuntimeError (msg : string)   (** a thrown [std::runtime_error] *)
| RuntimeErrorPtr (msg : string) (** a thrown pointer to one, of [throw new std::runtime_error] *)
| Aborted                       (** [abort()], reached through [dbgAssert] or [dbgAbort] *)
| NullDeref                     (** dereference of a null smart pointer *)
| OutOfFuel.                    (** the bound of a modelled loop was reached *)

Inductive outcome (S A : Type) :=
| Ret (a : A) (s : S)
| Throw (e : Exn) (s : S).
Arguments Ret {S A} a s.
Arguments Throw {S A} e s.

Definition M (S A : Type) : Type := S -> outcome S A.

Global Instance M_ret S : MRet (M S) := fun A a s => Ret a s.
Global Instance M_bind S : MBind (M S) := fun A B f m s =>
  match m s with
  | Ret a s' => f a s'
  | Throw e s' => Throw e s'
  end.

Definition get {S} : M S S := fun s => Ret s s.
Definition modify {S} (f : S -> S) : M S unit := fun s => Ret tt (f s).
Definition throw {S A} (e : Exn) : M S A := fun s => Throw e s.
Definition deref {S A} (o : option A) : M S A :=
  match o with Some a => mret a | None => throw NullDeref end.
Definition when {S} (b : bool) (m : M S unit) : M S unit :=
  if b then m else mret tt.

(** Predicate transformer: [wp m Q E s] says that running [m] from [s]
    either returns in a state satisfying [Q] or throws in one satisfying [E]. *)
Definition wp {S A} (m : M S A) (Q : A -> S -> Prop) (E : Exn -> S -> Prop)
    (s : S) : Prop :=
  match m s with
  | Ret a s' => Q a s'
  | Throw e s' => E e s'
  end.

Section WP.
Context {S : Type}.

Lemma wp_ret {A} (a : A) Q E (s : S) : Q a s -> wp (mret a) Q E s.
Proof. auto. Qed.

Lemma wp_throw {A} e Q E (s : S) : E e s -> wp (@throw S A e) Q E s.
Proof. auto. Qed.

Lemma wp_get Q E (s : S) : Q s s -> wp get Q E s.
Proof. auto. Qed.

Lemma wp_modify f Q E (s : S) : Q tt (f s) -> wp (modify f) Q E s.
Proof. auto. Qed.

Lemma wp_bind {A B} (m : M S A) (f : A -> M S B) Q E (s : S) :
  wp m (fun a s' => wp (f a) Q E s') E s -> wp (m ≫= f) Q E s.
Proof. unfold wp, mbind, M_bind; destruct (m s); auto. Qed.

Lemma wp_mono {A} (m : M S A) (Q Q' : A -> S -> Prop) (E E' : Exn -> S -> Prop) s :
  wp m Q E s ->
  (forall a s', Q a s' -> Q' a s') -> (forall e s', E e s' -> E' e s') ->
  wp m Q' E' s.
Proof. unfold wp; destruct (m s); auto. Qed.

Lemma wp_deref {A} (o : option A) Q E (s : S) :
  (forall a, o = Some a -> Q a s) -> (o = None -> E NullDeref s) ->
  wp (deref o) Q E s.
Proof. destruct o; cbn; auto. Qed.

Lemma wp_when b (m : M S unit) Q E (s : S) :
  (b = true -> wp m Q E s) -> (b = false -> Q tt s) -> wp (when b m) Q E s.
Proof. destruct b; cbn; auto. Qed.

Lemma wp_if {A} (b : bool) (m1 m2 : M S A) Q E (s : S) :
  (b = true -> wp m1 Q E s) -> (b = false -> wp m2 Q E s) ->
  wp (if b then m1 else m2) Q E s.
Proof. destruct b; auto. Qed.

End WP.
