(* ===== verification/OrdContainers.v ===== *)
(** * Ordered containers

    [std::set<T>] and [std::map<K,V>] iterate in the order of [operator<],
    and the consensus code depends on it (it walks candidates from the
    highest ballot down).  A set is modelled as the list of its elements in
    iteration order, a map as the list of its pairs in key order. *)

From S2P Require Import Prelude.

(** The strict order the C++ containers are instantiated with. *)
Class Ord (A : Type) := {
  ltb : A -> A -> bool;
  ltb_irrefl : forall a, ltb a a = false;
  ltb_trans : forall a b c, ltb a b = true -> ltb b c = true -> ltb a c = true;
  ltb_total : forall a b, ltb a b = false -> ltb b a = false -> a = b;
}.

Section OrdFacts.
Context `{Ord A}.
Implicit Types a b c : A.

Lemma ltb_asym a b : ltb a b = true -> ltb b a = false.
Proof.
  intros Hab. destruct (ltb b a) eqn:Hba; [|done].
  pose proof (ltb_trans a b a Hab Hba) as Haa. by rewrite ltb_irrefl in Haa.
Qed.

Lemma ltb_neq a b : ltb a b = true -> a <> b.
Proof. intros Hab ->. by rewrite ltb_irrefl in Hab. Qed.

(** Equality as the containers see it: neither element is less. *)
Definition eqvb a b : bool := negb (ltb a b) && negb (ltb b a).

Lemma eqvb_eq a b : eqvb a b = true <-> a = b.
Proof.
  unfold eqvb. split.
  - intros Hab. zify_bool. by apply ltb_total.
  - intros ->. by rewrite ltb_irrefl.
Qed.

Lemma eqvb_refl a : eqvb a a = true.
Proof. by apply eqvb_eq. Qed.

Lemma ltb_cases a b : {ltb a b = true} + {a = b} + {ltb b a = true}.
Proof.
  destruct (ltb a b) eqn:E1; [by left; left|].
  destruct (ltb b a) eqn:E2; [by right|]. left; right. by apply ltb_total.
Qed.

Lemma leb_ltb_trans a b c : ltb b a = false -> ltb b c = true -> ltb a c = true.
Proof.
  intros Hba Hbc. destruct (ltb_cases a b) as [[Hab| ->]|Hba']; [|done|congruence].
  by eapply ltb_trans.
Qed.

Lemma ltb_leb_trans a b c : ltb a b = true -> ltb c b = false -> ltb a c = true.
Proof.
  intros Hab Hcb. destruct (ltb_cases b c) as [[Hbc| <-]|Hcb']; [|done|congruence].
  by eapply ltb_trans.
Qed.

End OrdFacts.

Global Program Instance Z_Ord : Ord Z := { ltb := Z.ltb }.
Next Obligation. intros; apply Z.ltb_irrefl. Qed.
Next Obligation. intros *; rewrite !Z.ltb_lt; lia. Qed.
Next Obligation. intros *; rewrite !Z.ltb_ge; lia. Qed.

(** Lexicographic order, as [std::lexicographical_compare] on vectors. *)
Section ListOrd.
Context `{Ord A}.

Fixpoint lex_ltb (l1 l2 : list A) : bool :=
  match l1, l2 with
  | _, [] => false
  | [], _ :: _ => true
  | a :: l1', b :: l2' =>
      if ltb a b then true else if ltb b a then false else lex_ltb l1' l2'
  end.

Lemma lex_ltb_irrefl l : lex_ltb l l = false.
Proof. induction l; simpl; [done|]. by rewrite ltb_irrefl. Qed.

Lemma lex_ltb_trans l1 l2 l3 :
  lex_ltb l1 l2 = true -> lex_ltb l2 l3 = true -> lex_ltb l1 l3 = true.
Proof.
  revert l2 l3; induction l1 as [|a l1 IH]; intros [|b l2] [|c l3]; simpl; try done.
  destruct (ltb_cases a b) as [[Hab| ->]|Hab]; destruct (ltb_cases b c) as [[Hbc|<-]|Hbc];
    try (rewrite Hab); try (rewrite Hbc);
    rewrite ?ltb_irrefl, ?(ltb_asym _ _ Hab), ?(ltb_asym _ _ Hbc); try done; eauto.
  by rewrite (ltb_trans _ _ _ Hab Hbc).
Qed.

Lemma lex_ltb_total l1 l2 : lex_ltb l1 l2 = false -> lex_ltb l2 l1 = false -> l1 = l2.
Proof.
  revert l2; induction l1 as [|a l1 IH]; intros [|b l2]; simpl; try done.
  destruct (ltb_cases a b) as [[Hab| ->]|Hab];
    rewrite ?Hab, ?(ltb_asym _ _ Hab), ?ltb_irrefl; try done.
  intros; f_equal; auto.
Qed.

Global Instance list_Ord : Ord (list A) :=
  { ltb := lex_ltb; ltb_irrefl := lex_ltb_irrefl; ltb_trans := lex_ltb_trans;
    ltb_total := lex_ltb_total }.

End ListOrd.

(** ** Sets *)
Section OrdSet.
Context `{Ord A}.
Implicit Types (x y : A) (l : list A).

Fixpoint os_insert x l : list A :=
  match l with
  | [] => [x]
  | y :: r => if ltb x y then x :: l else if ltb y x then y :: os_insert x r else l
  end.

Definition os_mem x l : bool := existsb (eqvb x) l.

Definition os_of_list l : list A := fold_left (fun acc x => os_insert x acc) l [].

Fixpoint os_sorted l : Prop :=
  match l with
  | [] => True
  | x :: r => (forall y, y ∈ r -> ltb x y = true) /\ os_sorted r
  end.

Lemma elem_of_os_insert x y l : y ∈ os_insert x l <-> y = x \/ y ∈ l.
Proof.
  induction l as [|z l IH]; simpl; [set_solver|].
  destruct (ltb x z) eqn:E1; [set_solver|].
  destruct (ltb z x) eqn:E2; [set_solver|].
  rewrite (ltb_total _ _ E1 E2). set_solver.
Qed.

Lemma os_mem_elem x l : os_mem x l = true <-> x ∈ l.
Proof.
  unfold os_mem. rewrite existsb_exists.
  setoid_rewrite eqvb_eq. setoid_rewrite <- list_elem_of_In. naive_solver.
Qed.

Lemma os_mem_false x l : os_mem x l = false <-> x ∉ l.
Proof. rewrite <- os_mem_elem. destruct (os_mem x l); naive_solver. Qed.

Lemma os_insert_sorted x l : os_sorted l -> os_sorted (os_insert x l).
Proof.
  induction l as [|z l IH]; simpl; [set_solver|]. intros [Hz Hl].
  destruct (ltb x z) eqn:E1.
  - split; [|done]. intros y Hy. apply elem_of_cons in Hy as [->|Hy]; [done|].
    eapply ltb_trans; eauto.
  - destruct (ltb z x) eqn:E2; [|done]. split; [|auto].
    intros y Hy. apply elem_of_os_insert in Hy as [->|Hy]; auto.
Qed.

Lemma os_insert_id x l : x ∈ l -> os_sorted l -> os_insert x l = l.
Proof.
  induction l as [|z l IH]; simpl; [set_solver|]. intros Hx [Hz Hl].
  apply elem_of_cons in Hx as [->|Hx]; [by rewrite ltb_irrefl|].
  rewrite (ltb_asym z x) by auto. rewrite (Hz x Hx). f_equal; auto.
Qed.

Lemma fold_os_insert_elem l acc x :
  x ∈ fold_left (fun acc x => os_insert x acc) l acc <-> x ∈ acc \/ x ∈ l.
Proof.
  revert acc; induction l as [|y l IH]; intros acc; simpl; [set_solver|].
  rewrite IH, elem_of_os_insert. set_solver.
Qed.

Lemma fold_os_insert_sorted l acc :
  os_sorted acc -> os_sorted (fold_left (fun acc x => os_insert x acc) l acc).
Proof.
  revert acc; induction l as [|y l IH]; intros acc; simpl; auto using os_insert_sorted.
Qed.

Lemma elem_of_os_of_list x l : x ∈ os_of_list l <-> x ∈ l.
Proof. unfold os_of_list. rewrite fold_os_insert_elem. set_solver. Qed.

Lemma os_of_list_sorted l : os_sorted (os_of_list l).
Proof. by apply fold_os_insert_sorted. Qed.

Lemma os_sorted_NoDup l : os_sorted l -> NoDup l.
Proof.
  induction l as [|x l IH]; simpl; [constructor|]. intros [Hx Hl].
  constructor; [|auto]. intros Hin. by apply Hx, ltb_neq in Hin.
Qed.

Lemma length_os_insert x l : os_sorted l -> x ∉ l ->
  length (os_insert x l) = S (length l).
Proof.
  induction l as [|z l IH]; simpl; [done|]. intros [_ Hl] Hx.
  destruct (ltb x z) eqn:E1; [done|]. destruct (ltb z x) eqn:E2; simpl.
  - rewrite IH; [done|done|set_solver].
  - rewrite (ltb_total _ _ E1 E2) in Hx. set_solver.
Qed.

(** [s.erase(x)] *)
Definition os_erase x l : list A := List.filter (fun y => negb (eqvb x y)) l.

Lemma elem_of_os_erase x y l : y ∈ os_erase x l <-> y ∈ l /\ y <> x.
Proof.
  unfold os_erase. rewrite !list_elem_of_In, filter_In, negb_true_iff. split; intros [Hy Hx]; (split; [done|]).
  - intros ->. by rewrite (proj2 (eqvb_eq x x) eq_refl) in Hx.
  - destruct (eqvb x y) eqn:E; [|done]. by apply eqvb_eq in E.
Qed.

Lemma os_erase_sorted x l : os_sorted l -> os_sorted (os_erase x l).
Proof.
  induction l as [|y l IH]; simpl; [done|]. intros [Hy Hl]. unfold os_erase. cbn [List.filter].
  destruct (negb (eqvb x y)); [|by apply IH]. split; [|by apply IH].
  intros z Hz. apply Hy. by apply (elem_of_os_erase x z l) in Hz as [? _].
Qed.

End OrdSet.

(** ** Maps *)
Section OrdMap.
Context `{Ord K} {V : Type}.
Implicit Types (k : K) (v : V) (m : list (K * V)).

Fixpoint om_find k m : option V :=
  match m with
  | [] => None
  | (k', v) :: r => if eqvb k k' then Some v else om_find k r
  end.

(** [m\[k\] = v]: overwrite the pair of [k], or insert it in order. *)
Fixpoint om_set k v m : list (K * V) :=
  match m with
  | [] => [(k, v)]
  | (k', v') :: r =>
      if ltb k k' then (k, v) :: m
      else if ltb k' k then (k', v') :: om_set k v r
      else (k, v) :: r
  end.

Definition om_sorted m : Prop := os_sorted (m.*1).

Lemma om_find_set_eq k v m : om_find k (om_set k v m) = Some v.
Proof.
  induction m as [|[k' v'] m IH]; simpl.
  - by rewrite (proj2 (eqvb_eq k k) eq_refl).
  - destruct (ltb k k') eqn:E1; simpl; [by rewrite (proj2 (eqvb_eq k k) eq_refl)|].
    destruct (ltb k' k) eqn:E2; simpl.
    + unfold eqvb at 1. by rewrite E1, E2.
    + by rewrite (proj2 (eqvb_eq k k) eq_refl).
Qed.

Lemma eqvb_neq k k' : k <> k' -> eqvb k k' = false.
Proof. intros Hk. destruct (eqvb k k') eqn:E; [|done]. by apply eqvb_eq in E. Qed.

Lemma om_set_set k v u m : om_set k v (om_set k u m) = om_set k v m.
Proof.
  induction m as [|[k' v'] m IH]; cbn.
  - by rewrite ltb_irrefl.
  - destruct (ltb k k') eqn:E1; cbn; [by rewrite ltb_irrefl|]. destruct (ltb k' k) eqn:E2; cbn; [by rewrite E1, E2, IH|by rewrite ltb_irrefl].
Qed.

Lemma om_find_set_ne k k' v m : k <> k' -> om_find k' (om_set k v m) = om_find k' m.
Proof.
  intros Hk. assert (eqvb k' k = false) as Hf by (apply eqvb_neq; congruence).
  induction m as [|[k1 v1] m IH]; simpl.
  - by rewrite Hf.
  - destruct (ltb k k1) eqn:E1; simpl; [by rewrite Hf|].
    destruct (ltb k1 k) eqn:E2; simpl; [by rewrite IH|].
    rewrite Hf. by rewrite <- (ltb_total _ _ E1 E2), Hf.
Qed.

Lemma om_find_set k k' v m : om_find k' (om_set k v m) = if eqvb k k' then Some v else om_find k' m.
Proof.
  destruct (eqvb k k') eqn:E; [apply eqvb_eq in E as ->; apply om_find_set_eq|].
  apply om_find_set_ne. intros ->. by rewrite eqvb_refl in E.
Qed.

Lemma om_set_new_perm k v m : om_find k m = None -> om_set k v m ≡ₚ (k, v) :: m.
Proof.
  induction m as [|[k1 v1] m IH]; [done|]. cbn. destruct (eqvb k k1) eqn:E; [done|]. intros Hn.
  destruct (ltb k k1) eqn:E1; [done|]. unfold eqvb in E. rewrite E1 in E. destruct (ltb k1 k); [|done].
  rewrite IH by done. apply Permutation_swap.
Qed.

Lemma om_find_elem k v m : om_find k m = Some v -> (k, v) ∈ m.
Proof.
  induction m as [|[k' v'] m IH]; simpl; [done|].
  destruct (eqvb k k') eqn:E; [|set_solver].
  apply eqvb_eq in E as ->. intros [= ->]. set_solver.
Qed.

Lemma elem_om_find k v m : om_sorted m -> (k, v) ∈ m -> om_find k m = Some v.
Proof.
  unfold om_sorted. induction m as [|[k' v'] m IH]; simpl; [set_solver|].
  intros [Hk' Hm] Hin. apply elem_of_cons in Hin as [[= -> ->]|Hin].
  - by rewrite (proj2 (eqvb_eq k' k') eq_refl).
  - assert (k ∈ m.*1) as Hk by (apply list_elem_of_fmap; by exists (k, v)).
    rewrite eqvb_neq; [auto|]. apply Hk', ltb_neq in Hk. congruence.
Qed.

Lemma om_find_None k m : om_find k m = None <-> k ∉ m.*1.
Proof.
  induction m as [|[k' v'] m IH]; simpl; [set_solver|].
  destruct (eqvb k k') eqn:E.
  - apply eqvb_eq in E as ->. set_solver.
  - assert (k <> k') by (intros ->; by rewrite (proj2 (eqvb_eq k' k') eq_refl) in E).
    rewrite IH. set_solver.
Qed.

Lemma om_find_Some_key k m : is_Some (om_find k m) <-> k ∈ m.*1.
Proof.
  destruct (om_find k m) as [v|] eqn:E.
  - apply om_find_elem in E. split; [|by eauto]. intros _.
    apply list_elem_of_fmap. by exists (k, v).
  - apply om_find_None in E. split; [by intros []|done].
Qed.

Lemma elem_of_om_set_keys k k' v m : k' ∈ (om_set k v m).*1 <-> k' = k \/ k' ∈ m.*1.
Proof.
  rewrite <- !om_find_Some_key. destruct (ltb_cases k k') as [[Hlt| ->]|Hlt].
  - rewrite om_find_set_ne by (by apply ltb_neq). apply ltb_neq in Hlt. naive_solver.
  - rewrite om_find_set_eq. naive_solver.
  - rewrite om_find_set_ne by (by apply ltb_neq in Hlt). apply ltb_neq in Hlt. naive_solver.
Qed.

Lemma om_set_sorted k v m : om_sorted m -> om_sorted (om_set k v m).
Proof.
  unfold om_sorted. induction m as [|[k' v'] m IH]; simpl; [set_solver|].
  intros [Hk' Hm]. destruct (ltb k k') eqn:E1; simpl.
  - split; [|done]. intros y Hy. apply elem_of_cons in Hy as [->|Hy]; [done|].
    eapply ltb_trans; eauto.
  - destruct (ltb k' k) eqn:E2; simpl.
    + split; [|auto]. intros y Hy. apply elem_of_om_set_keys in Hy as [->|Hy]; auto.
    + by rewrite (ltb_total _ _ E1 E2).
Qed.

Lemma elem_of_om_set k v m p : om_sorted m ->
  p ∈ om_set k v m <-> p = (k, v) \/ (p ∈ m /\ p.1 <> k).
Proof.
  intros Hm. pose proof (om_set_sorted k v m Hm) as Hm'. destruct p as [k' v']. split.
  - intros Hp. apply elem_om_find in Hp; [|done].
    destruct (ltb_cases k k') as [[Hlt| <-]|Hlt].
    2: { rewrite om_find_set_eq in Hp. left; congruence. }
    all: apply ltb_neq in Hlt; rewrite om_find_set_ne in Hp by congruence;
      apply om_find_elem in Hp; right; simpl; auto.
  - intros [[= -> ->]|[Hp Hk]].
    + apply om_find_elem, om_find_set_eq.
    + apply om_find_elem. rewrite om_find_set_ne by (simpl in Hk; congruence).
      by apply elem_om_find.
Qed.

(** [m.erase(k)] *)
Definition om_erase k m : list (K * V) := List.filter (fun p => negb (eqvb k p.1)) m.

Lemma om_find_erase k k' m : om_find k' (om_erase k m) = if eqvb k k' then None else om_find k' m.
Proof.
  induction m as [|[k1 v1] m IH]; [by destruct (eqvb k k')|]. unfold om_erase in *. cbn [List.filter fst].
  destruct (eqvb k k1) eqn:E1; cbn [negb om_find]; rewrite IH.
  - apply eqvb_eq in E1 as ->. destruct (eqvb k1 k') eqn:E2; [done|].
    assert (eqvb k' k1 = false) as ->; [|done]. apply eqvb_neq. intros ->.
    by rewrite (proj2 (eqvb_eq k1 k1) eq_refl) in E2.
  - destruct (eqvb k' k1) eqn:E2; [|done]. apply eqvb_eq in E2 as ->. by rewrite E1.
Qed.

Lemma om_erase_keys k m : (om_erase k m).*1 = os_erase k (m.*1).
Proof.
  unfold om_erase, os_erase. induction m as [|[k1 v1] m IH]; [done|]. cbn [List.filter fst fmap list_fmap].
  destruct (negb (eqvb k k1)); cbn; by rewrite IH.
Qed.

Lemma om_erase_sorted k m : om_sorted m -> om_sorted (om_erase k m).
Proof. unfold om_sorted. rewrite om_erase_keys. apply os_erase_sorted. Qed.

End OrdMap.

Create HintDb ordc.
#[export] Hint Resolve os_insert_sorted os_of_list_sorted om_set_sorted os_erase_sorted om_erase_sorted : ordc.
