(* ===== verification/BigMath.v ===== *)
(** * Overflow-aware arithmetic of [util/types.cpp]

    [bigDivide] and [safeSum] are the two primitives every amount in the
    ledger goes through.  The intermediate product is a [uint128_t], whose
    wrap-around is written out with [u128]. *)

From S2P Require Import Prelude.

Inductive Rounding := ROUND_DOWN | ROUND_UP.

(** [bool bigDivide(uint64_t& result, uint64_t A, uint64_t B, uint64_t C, Rounding)]:
    the flag and the value left in [result]; [None] is the exception the
    128-bit division throws on a zero divisor. *)
Definition bigDivide_u64 (A B C : Z) (rounding : Rounding) : option (bool * Z) :=
  if C =? 0 then None else
  let x := match rounding with
           | ROUND_DOWN => u128 (A * B) / C
           | ROUND_UP => u128 (u128 (u128 (A * B) + C) - 1) / C
           end in
  Some (x <=? UINT64_MAX, u64 x).

(** [bool bigDivide(int64_t& result, int64_t A, int64_t B, int64_t C, Rounding)]:
    [None] when the leading [assert] fails. [old] is the value of [result]
    before the call, which a failing call leaves in place. *)
Definition bigDivide_i64 (old A B C : Z) (rounding : Rounding) : option (bool * Z) :=
  if (A >=? 0) && (B >=? 0) && (C >? 0) then
    match bigDivide_u64 (u64 A) (u64 B) (u64 C) rounding with
    | Some (true, r2) => Some (r2 <=? INT64_MAX, i64 r2)
    | Some (false, _) => Some (false, old)
    | None => None
    end
  else None.

(** [int64_t bigDivide(int64_t A, int64_t B, int64_t C, Rounding)] *)
Definition bigDivide_throw {S} (A B C : Z) (rounding : Rounding) : M S Z :=
  match bigDivide_i64 0 A B C rounding with
  | Some (true, r) => mret r
  | Some (false, _) => throw (RuntimeError "overflow while performing bigDivide")
  | None => throw Aborted
  end.

(** [bool safeSum(uint64_t a, uint64_t b, uint64_t& result)] *)
Definition safeSum (a b : Z) : bool * Z :=
  let result := u64 (a + b) in
  ((result >=? a) && (result >=? b), result).

(** [bool safeSum(uint64_t& result, std::vector<uint64_t> params)] *)
Fixpoint safeSum_loop (result : Z) (params : list Z) : bool * Z :=
  match params with
  | [] => (true, result)
  | a :: rest =>
      let '(ok, r) := safeSum a result in
      if ok then safeSum_loop r rest else (false, r)
  end.
Definition safeSum_all (params : list Z) : bool * Z := safeSum_loop 0 params.

(** ** Specification: exact division, rounded *)

Definition div_round (r : Rounding) (n d : Z) : Z :=
  match r with ROUND_DOWN => n / d | ROUND_UP => (n + d - 1) / d end.

Lemma mul_u64_bound A B : is_u64 A -> is_u64 B ->
  0 <= A * B <= 340282366920938463426481119284349108225.
Proof. unfold is_u64, UINT64_MAX. nia. Qed.

Lemma u128_small z : 0 <= z < 340282366920938463463374607431768211456 -> u128 z = z.
Proof. unfold u128; intros; by apply Z.mod_small. Qed.

Lemma div_round_nonneg r n d : 0 <= n -> 0 < d -> 0 <= div_round r n d.
Proof. intros. destruct r; simpl; apply Z.div_pos; lia. Qed.

(** The 128-bit intermediate value never wraps, so the unsigned routine
    computes the exact rounded quotient. *)
Lemma bigDivide_u64_exact A B C r : is_u64 A -> is_u64 B -> is_u64 C -> C <> 0 ->
  bigDivide_u64 A B C r =
  Some (div_round r (A * B) C <=? UINT64_MAX, u64 (div_round r (A * B) C)).
Proof.
  intros HA HB HC HC0. pose proof (mul_u64_bound A B HA HB) as Hm.
  unfold bigDivide_u64. rewrite (proj2 (Z.eqb_neq C 0) HC0).
  unfold is_u64, UINT64_MAX in HC.
  rewrite (u128_small (A * B)) by lia. destruct r; simpl; [done|].
  rewrite (u128_small (A * B + C)), u128_small by lia. done.
Qed.

(** The signed routine returns the exact rounded quotient when it fits, and
    reports failure exactly when it does not. *)
Lemma bigDivide_i64_exact old A B C r :
  0 <= A <= INT64_MAX -> 0 <= B <= INT64_MAX -> 0 < C <= INT64_MAX ->
  let q := div_round r (A * B) C in
  (q <= INT64_MAX -> bigDivide_i64 old A B C r = Some (true, q)) /\
  (INT64_MAX < q -> exists v, bigDivide_i64 old A B C r = Some (false, v)).
Proof.
  intros HA HB HC q. unfold bigDivide_i64.
  rewrite !u64_small by word_lia.
  rewrite bigDivide_u64_exact by word_lia. fold q.
  rewrite !Z.geb_leb, Z.gtb_ltb.
  rewrite (proj2 (Z.leb_le 0 A)), (proj2 (Z.leb_le 0 B)), (proj2 (Z.ltb_lt 0 C)) by lia.
  assert (0 <= q) by (apply div_round_nonneg; nia). simpl.
  destruct (q <=? UINT64_MAX) eqn:E; zify_bool.
  - rewrite u64_small by (unfold is_u64; lia). split; intros Hq.
    + rewrite (proj2 (Z.leb_le q INT64_MAX)) by done.
      rewrite i64_small; [done|]. unfold is_i64, INT64_MIN; lia.
    + eexists. by rewrite (proj2 (Z.leb_gt q INT64_MAX)).
  - unfold UINT64_MAX, INT64_MAX in *. split; intros; [lia|eauto].
Qed.

(** [safeSum] reports overflow exactly when the mathematical sum does not fit. *)
Lemma safeSum_spec a b : is_u64 a -> is_u64 b ->
  safeSum a b = (a + b <=? UINT64_MAX, u64 (a + b)).
Proof.
  intros Ha Hb. unfold safeSum. f_equal. rewrite !Z.geb_leb.
  destruct (a + b <=? UINT64_MAX) eqn:E; zify_bool.
  - rewrite u64_small by (unfold is_u64 in *; lia).
    rewrite !(proj2 (Z.leb_le _ _)); word_lia.
  - rewrite (proj2 (Z.leb_gt a (u64 (a + b)))) by word_lia. done.
Qed.

(** The same of a list of summands. *)
Lemma safeSum_all_spec l : Forall is_u64 l ->
  let total := foldr Z.add 0 l in
  if total <=? UINT64_MAX then safeSum_all l = (true, total) else (safeSum_all l).1 = false.
Proof.
  cbv zeta. unfold safeSum_all. intros Hl.
  enough (forall r, is_u64 r -> if r + foldr Z.add 0 l <=? UINT64_MAX then safeSum_loop r l = (true, r + foldr Z.add 0 l) else (safeSum_loop r l).1 = false) as Hr by (apply (Hr 0); word_lia).
  induction Hl as [|a l Ha Hl IH]; intros r Hr; cbn [foldr safeSum_loop].
  - rewrite Z.add_0_r. by rewrite (proj2 (Z.leb_le _ _)) by word_lia.
  - assert (0 <= foldr Z.add 0 l) as H0 by (clear IH; induction Hl; cbn [foldr]; word_lia).
    rewrite safeSum_spec by done. destruct (Z.leb_spec (a + r) UINT64_MAX).
    + rewrite u64_small by word_lia. specialize (IH (a + r) ltac:(word_lia)). replace (r + (a + foldr Z.add 0 l)) with (a + r + foldr Z.add 0 l) by lia. exact IH.
    + by rewrite (proj2 (Z.leb_gt _ _)) by lia.
Qed.
