(* ===== verification/QuorumSet.v ===== *)
(** * Quorum sets ([scp/LocalNode.h], [scp/LocalNode.cpp])

    The static part of [LocalNode]: well-formedness and normalisation of
    quorum sets, quorum slices, v-blocking sets, node weights and the
    distance to a v-blocking set.  The loops are translated with their
    counters (an unsigned 32-bit countdown for slices, an [int] for
    v-blocking sets, a [size_t] in [findClosestVBlocking]) and early
    returns; the lemmas that follow give each loop its counting meaning. *)

From S2P Require Import Prelude OrdContainers BigMath.

(** A node is named by its public key, read as a big-endian number: the
    order of [std::map<NodeID, _>] is the numeric order. *)
Abbreviation NodeID := Z (only parsing).

#[local] Set Warnings "-register-all".

Inductive SCPQuorumSet :=
  QSet (threshold : Z) (validators : list NodeID) (innerSets : list SCPQuorumSet).

Definition threshold (q : SCPQuorumSet) : Z := let '(QSet t _ _) := q in t.
Definition validators (q : SCPQuorumSet) : list NodeID := let '(QSet _ v _) := q in v.
Definition innerSets (q : SCPQuorumSet) : list SCPQuorumSet := let '(QSet _ _ i) := q in i.

(** Induction over the nesting of inner sets. *)
Section QSetInd.
Context (P : SCPQuorumSet -> Prop).
Context (Hstep : forall t v i, Forall P i -> P (QSet t v i)).

Fixpoint qset_ind (q : SCPQuorumSet) : P q :=
  match q with
  | QSet t v i =>
      Hstep t v i ((fix go (l : list SCPQuorumSet) : Forall P l :=
        match l with
        | [] => Forall_nil_2 P
        | q' :: l' => Forall_cons_2 P q' l' (qset_ind q') (go l')
        end) i)
  end.
End QSetInd.

Definition totEntries (q : SCPQuorumSet) : Z :=
  Z.of_nat (length (validators q)) + Z.of_nat (length (innerSets q)).

Module LocalNode.

Definition buildSingletonQSet (nodeID : NodeID) : SCPQuorumSet := QSet 1 [nodeID] [].

(** ** Sanity *)

(** The loop over the validators: insert each into [knownNodes], stop at
    the first one already present. *)
Fixpoint insertValidators (v : list NodeID) (known : list NodeID) : bool * list NodeID :=
  match v with
  | [] => (true, known)
  | n :: r => if os_mem n known then (false, known)
              else insertValidators r (os_insert n known)
  end.

Section InnerLoop.
Context (rec : SCPQuorumSet -> list NodeID -> bool * list NodeID).
Fixpoint saneInner (i : list SCPQuorumSet) (known : list NodeID) : bool * list NodeID :=
  match i with
  | [] => (true, known)
  | q :: r => let '(ok, known') := rec q known in
              if ok then saneInner r known' else (false, known')
  end.
End InnerLoop.

Fixpoint isQuorumSetSaneInternal (extraChecks : bool) (qSet : SCPQuorumSet)
    (knownNodes : list NodeID) {struct qSet} : bool * list NodeID :=
  let '(QSet t v i) := qSet in
  let tot := Z.of_nat (length v) + Z.of_nat (length i) in
  let vBlockingSize := u64 (u64 (tot - t) + 1) in
  if (t >=? 1) && (t <=? tot) && (negb extraChecks || (t >=? vBlockingSize)) then
    let '(ok, known') := insertValidators v knownNodes in
    if ok then saneInner (isQuorumSetSaneInternal extraChecks) i known' else (false, known')
  else (false, knownNodes).

Definition isQuorumSetSane (qSet : SCPQuorumSet) (extraChecks : bool) : bool :=
  (isQuorumSetSaneInternal extraChecks qSet []).1.

(** ** Normalisation *)

(** [it->threshold == 1 && it->validators.size() == 1 && it->innerSets.size() == 0],
    with the node [it->validators.front()]. *)
Definition singletonNode (q : SCPQuorumSet) : option NodeID :=
  match q with
  | QSet t [x] [] => if t =? 1 then Some x else None
  | _ => None
  end.

(** The [while] loop over the inner sets: each is normalised in place; a
    singleton moves to the end of the validator list. *)
Section NormLoop.
Context (rec : SCPQuorumSet -> SCPQuorumSet).
Fixpoint normInner (i : list SCPQuorumSet) (v : list NodeID)
  : list NodeID * list SCPQuorumSet :=
  match i with
  | [] => (v, [])
  | it :: r =>
      let it' := rec it in
      match singletonNode it' with
      | Some x => normInner r (v ++ [x])
      | None => let '(v', r') := normInner r v in (v', it' :: r')
      end
  end.
End NormLoop.

Fixpoint normalizeQSet (qSet : SCPQuorumSet) : SCPQuorumSet :=
  let '(QSet t v i) := qSet in
  let '(v', i') := normInner normalizeQSet i v in
  match v', i' with
  | [], [inner] => if t =? 1 then inner else QSet t v' i'
  | _, _ => QSet t v' i'
  end.

(** ** Quorum slices and v-blocking sets *)

(** [std::find(nodeSet.begin(), nodeSet.end(), n) != nodeSet.end()] *)
Definition contains (nodeSet : list NodeID) (n : NodeID) : bool :=
  existsb (Z.eqb n) nodeSet.

(** A counting loop: each hit decrements the counter and the function
    returns ([None]) as soon as the counter is not positive; otherwise the
    counter is handed to the next loop. *)
Section Countdown.
Context {X : Type} (dec : Z -> Z) (hit : X -> bool).
Fixpoint countdown (l : list X) (todo : Z) : option Z :=
  match l with
  | [] => Some todo
  | x :: r =>
      if hit x then
        let todo' := dec todo in
        if todo' <=? 0 then None else countdown r todo'
      else countdown r todo
  end.
End Countdown.

Fixpoint isQuorumSliceInternal (nodeSet : list NodeID) (qset : SCPQuorumSet) : bool :=
  let '(QSet t v i) := qset in
  match countdown (fun z => u32 (z - 1)) (contains nodeSet) v t with
  | None => true
  | Some thresholdLeft =>
      match countdown (fun z => u32 (z - 1)) (isQuorumSliceInternal nodeSet) i
              thresholdLeft with
      | None => true
      | Some _ => false
      end
  end.

Definition isQuorumSlice (qSet : SCPQuorumSet) (nodeSet : list NodeID) : bool :=
  isQuorumSliceInternal nodeSet qSet.

Fixpoint isVBlockingInternal (nodeSet : list NodeID) (qset : SCPQuorumSet) : bool :=
  let '(QSet t v i) := qset in
  if t =? 0 then false else
  let leftTillBlock :=
    i32 (u64 (1 + Z.of_nat (length v) + Z.of_nat (length i) - t)) in
  match countdown (fun z => z - 1) (contains nodeSet) v leftTillBlock with
  | None => true
  | Some todo =>
      match countdown (fun z => z - 1) (isVBlockingInternal nodeSet) i todo with
      | None => true
      | Some _ => false
      end
  end.

Definition isVBlocking (qSet : SCPQuorumSet) (nodeSet : list NodeID) : bool :=
  isVBlockingInternal nodeSet qSet.

(** ** Node traversal and weight *)

(** The nodes [forAllNodesInternal] visits, in order. *)
Fixpoint forAllNodesInternal (qset : SCPQuorumSet) : list NodeID :=
  let '(QSet _ v i) := qset in
  v ++ concat (map forAllNodesInternal i).

(** The nodes [proc] is called on by [forAllNodes]: first visits only. *)
Fixpoint firstVisits (done_ : list NodeID) (l : list NodeID) : list NodeID :=
  match l with
  | [] => []
  | n :: r => if os_mem n done_ then firstVisits done_ r
              else n :: firstVisits (os_insert n done_) r
  end.
Definition forAllNodes (qset : SCPQuorumSet) : list NodeID :=
  firstVisits [] (forAllNodesInternal qset).

(** [bigDivide(res, a, n, d, ROUND_DOWN)] with its flag ignored; the divisor
    is the number of entries, positive wherever it is called. *)
Definition scaleWeight (a n d : Z) : Z :=
  match bigDivide_u64 a n d ROUND_DOWN with
  | Some (_, res) => res
  | None => 0
  end.

Section WeightLoop.
Context (rec : SCPQuorumSet -> Z).
Fixpoint weightInner (n d : Z) (i : list SCPQuorumSet) : Z :=
  match i with
  | [] => 0
  | q :: r => let leafW := rec q in
              if negb (leafW =? 0) then scaleWeight leafW n d else weightInner n d r
  end.
End WeightLoop.

Fixpoint getNodeWeight (nodeID : NodeID) (qset : SCPQuorumSet) : Z :=
  let '(QSet t v i) := qset in
  let d := u64 (Z.of_nat (length i) + Z.of_nat (length v)) in
  if contains v nodeID then scaleWeight UINT64_MAX t d
  else weightInner (getNodeWeight nodeID) t d i.

(** ** Distance to a v-blocking set *)

(** First loop: validators that do not agree lower the counter ([None]:
    already blocked, the empty vector is returned), the agreeing ones are
    collected. *)
Fixpoint closestValidators (nodes : list NodeID) (excluded : option NodeID)
    (v : list NodeID) (todo : Z) (res : list NodeID) : option (Z * list NodeID) :=
  match v with
  | [] => Some (todo, res)
  | validator :: r =>
      if match excluded with None => true | Some e => negb (validator =? e) end then
        if negb (os_mem validator nodes) then
          let todo' := u64 (todo - 1) in
          if todo' =? 0 then None else closestValidators nodes excluded r todo' res
        else closestValidators nodes excluded r todo (res ++ [validator])
      else closestValidators nodes excluded r todo res
  end.

(** [std::multiset] ordered by size: a new element goes after its equals. *)
Fixpoint insertBySize (v : list NodeID) (l : list (list NodeID)) : list (list NodeID) :=
  match l with
  | [] => [v]
  | w :: r => if Z.of_nat (length v) <? Z.of_nat (length w) then v :: l
              else w :: insertBySize v r
  end.

Section ClosestLoop.
Context (rec : SCPQuorumSet -> list NodeID).
Fixpoint closestInner (i : list SCPQuorumSet) (todo : Z) (resInternals : list (list NodeID))
  : option (Z * list (list NodeID)) :=
  match i with
  | [] => Some (todo, resInternals)
  | inner :: r =>
      match rec inner with
      | [] => let todo' := u64 (todo - 1) in
              if todo' =? 0 then None else closestInner r todo' resInternals
      | v => closestInner r todo (insertBySize v resInternals)
      end
  end.
End ClosestLoop.

(** The last loop: whole subsets are appended, the smallest first. *)
Fixpoint takeSubsets (todo : Z) (res : list NodeID) (subs : list (list NodeID)) : list NodeID :=
  match subs with
  | [] => res
  | v :: r => if negb (todo =? 0) then takeSubsets (u64 (todo - 1)) (res ++ v) r else res
  end.

Fixpoint findClosestVBlocking (nodes : list NodeID) (excluded : option NodeID)
    (qset : SCPQuorumSet) : list NodeID :=
  let '(QSet t v i) := qset in
  let leftTillBlock := u64 (1 + Z.of_nat (length v) + Z.of_nat (length i) - t) in
  match closestValidators nodes excluded v leftTillBlock [] with
  | None => []
  | Some (left1, res) =>
      match closestInner (findClosestVBlocking nodes excluded) i left1 [] with
      | None => []
      | Some (left2, resInternals) =>
          let res' := if Z.of_nat (length res) >? left2 then take (Z.to_nat left2) res else res in
          takeSubsets (u64 (left2 - Z.of_nat (length res'))) res' resInternals
      end
  end.

End LocalNode.
