(* ===== verification/QuorumFacts.v ===== *)
(** * Properties of quorum sets

    What the loops of [QuorumSet] compute: slices and v-blocking sets are
    thresholds on the number of satisfied entries, v-blocking is the dual
    of being a slice, normalisation changes neither, sanity is thresholds
    in range plus absence of duplicates, and the set found by
    [findClosestVBlocking] does block.  The second part is that search, and
    the weights of nodes. *)

From S2P Require Import Prelude OrdContainers BigMath QuorumSet.

Import LocalNode.

(** ** Predicates on every level of a quorum set *)

Section AllLevels.
Context (P : SCPQuorumSet -> Prop).
Fixpoint qset_all (q : SCPQuorumSet) : Prop :=
  P q /\ let '(QSet _ _ i) := q in
  (fix go (l : list SCPQuorumSet) : Prop :=
     match l with [] => True | q' :: l' => qset_all q' /\ go l' end) i.

Lemma qset_all_unfold t v i :
  qset_all (QSet t v i) <-> P (QSet t v i) /\ Forall qset_all i.
Proof.
  simpl. apply and_iff_compat_l. induction i as [|q i IH]; simpl.
  - split; [constructor|done].
  - rewrite Forall_cons, IH. done.
Qed.
End AllLevels.

Lemma qset_all_impl (P Q : SCPQuorumSet -> Prop) q :
  (forall q', P q' -> Q q') -> qset_all P q -> qset_all Q q.
Proof.
  intros HPQ. induction q as [t v i IH] using qset_ind.
  rewrite !qset_all_unfold. intros [HP Hi]. split; [auto|].
  rewrite Forall_forall in *. auto.
Qed.

(** The threshold is a [uint32]. *)
Definition qset_wf : SCPQuorumSet -> Prop := qset_all (fun q => is_u32 (threshold q)).
(** The threshold is between 1 and the number of entries. *)
Definition qset_ranged : SCPQuorumSet -> Prop :=
  qset_all (fun q => 1 <= threshold q <= totEntries q).
(** The number of entries fits the [int] counter. *)
Definition qset_small : SCPQuorumSet -> Prop :=
  qset_all (fun q => totEntries q < 2147483648).

Lemma ranged_small_wf q : qset_ranged q -> qset_small q -> qset_wf q.
Proof.
  unfold qset_ranged, qset_small, qset_wf. induction q as [t v i IH] using qset_ind.
  rewrite !qset_all_unfold. intros [Ht Hi] [Hs Hi']. split.
  - word_lia.
  - rewrite Forall_forall in *. auto.
Qed.

(** ** The counting loops *)

Definition effThreshold (t : Z) : Z := if t =? 0 then 4294967296 else t.

Lemma countdown_u32 {X} (hit : X -> bool) l t : is_u32 t ->
  countdown (fun z => u32 (z - 1)) hit l t =
  if effThreshold t <=? count hit l then None else Some (u32 (t - count hit l)).
Proof.
  revert t; induction l as [|x l IH]; intros t Ht; cbn [countdown].
  - rewrite count_nil, Z.sub_0_r, u32_small by done.
    unfold effThreshold. destruct (t =? 0) eqn:E; zify_bool; [done|].
    rewrite (proj2 (Z.leb_gt t 0)); [done|]. unfold is_u32 in Ht. lia.
  - rewrite count_cons. pose proof (count_nonneg hit l) as Hc.
    destruct (hit x) eqn:E; [|by rewrite IH].
    pose proof (u32_range (t - 1)) as Hr.
    destruct (u32 (t - 1) <=? 0) eqn:E1; zify_bool.
    + assert (effThreshold t = 1) as ->.
      { unfold effThreshold. destruct (t =? 0) eqn:E2; zify_bool; word_lia. }
      rewrite (proj2 (Z.leb_le 1 _)) by lia. done.
    + rewrite IH by done.
      assert (effThreshold (u32 (t - 1)) = effThreshold t - 1) as ->.
      { unfold effThreshold. destruct (t =? 0) eqn:E2, (u32 (t - 1) =? 0) eqn:E3;
          zify_bool; word_lia. }
      replace (effThreshold t - 1 <=? count hit l)
        with (effThreshold t <=? 1 + count hit l)
        by (destruct (Z.leb_spec (effThreshold t) (1 + count hit l)); symmetry;
            [apply Z.leb_le|apply Z.leb_gt]; lia).
      destruct (effThreshold t <=? 1 + count hit l); [done|].
      f_equal. unfold u32. rewrite Zminus_mod_idemp_l. f_equal; lia.
Qed.

Lemma countdown_int {X} (hit : X -> bool) l t :
  countdown (fun z => z - 1) hit l t =
  if Z.max 1 t <=? count hit l then None else Some (t - count hit l).
Proof.
  revert t; induction l as [|x l IH]; intros t; cbn [countdown].
  - rewrite count_nil, (proj2 (Z.leb_gt _ 0)) by lia. f_equal; lia.
  - rewrite count_cons. pose proof (count_nonneg hit l) as Hc.
    destruct (hit x) eqn:E; [|by rewrite IH].
    destruct (t - 1 <=? 0) eqn:E1; zify_bool.
    + rewrite (proj2 (Z.leb_le (Z.max 1 t) _)) by lia. done.
    + rewrite IH.
      destruct (Z.leb_spec (Z.max 1 (t - 1)) (count hit l)),
        (Z.leb_spec (Z.max 1 t) (1 + count hit l)); try lia; [done|]. f_equal; lia.
Qed.

(** A slice is a number of satisfied entries that reaches the threshold. *)
Lemma isQuorumSlice_count t v i S : is_u32 t ->
  isQuorumSlice (QSet t v i) S =
  (effThreshold t <=? count (contains S) v + count (fun q => isQuorumSlice q S) i).
Proof.
  intros Ht. unfold isQuorumSlice; simpl. rewrite countdown_u32 by done.
  pose proof (count_nonneg (contains S) v) as Hv.
  change (fun q => isQuorumSliceInternal S q) with (isQuorumSliceInternal S).
  pose proof (count_nonneg (isQuorumSliceInternal S) i) as Hi.
  destruct (Z.leb_spec (effThreshold t) (count (contains S) v)).
  - rewrite (proj2 (Z.leb_le _ _)) by lia. done.
  - rewrite countdown_u32 by apply u32_range.
    assert (effThreshold (u32 (t - count (contains S) v))
            = effThreshold t - count (contains S) v) as ->.
    { unfold effThreshold in *. destruct (t =? 0) eqn:E; zify_bool;
      destruct (u32 (t - count (contains S) v) =? 0) eqn:E'; zify_bool; word_lia. }
    destruct (Z.leb_spec (effThreshold t - count (contains S) v)
                (count (isQuorumSliceInternal S) i));
      destruct (Z.leb_spec (effThreshold t) (count (contains S) v +
                  count (isQuorumSliceInternal S) i)); done || lia.
Qed.

Lemma isVBlocking_count t v i S :
  isVBlocking (QSet t v i) S =
  if t =? 0 then false else
  Z.max 1 (i32 (u64 (1 + Z.of_nat (length v) + Z.of_nat (length i) - t))) <=?
  count (contains S) v + count (fun q => isVBlocking q S) i.
Proof.
  unfold isVBlocking; simpl. destruct (t =? 0); [done|].
  set (L := i32 _). rewrite countdown_int.
  pose proof (count_nonneg (contains S) v) as Hv.
  change (fun q => isVBlockingInternal S q) with (isVBlockingInternal S).
  pose proof (count_nonneg (isVBlockingInternal S) i) as Hi.
  destruct (Z.leb_spec (Z.max 1 L) (count (contains S) v)).
  - rewrite (proj2 (Z.leb_le _ _)) by lia. done.
  - rewrite countdown_int.
    destruct (Z.leb_spec (Z.max 1 (L - count (contains S) v)) (count (isVBlockingInternal S) i));
      destruct (Z.leb_spec (Z.max 1 L) (count (contains S) v +
                  count (isVBlockingInternal S) i)); done || lia.
Qed.

Lemma contains_true S n : contains S n = true <-> n ∈ S.
Proof.
  unfold contains. rewrite existsb_exists. setoid_rewrite <- list_elem_of_In.
  setoid_rewrite Z.eqb_eq. naive_solver.
Qed.

Lemma elem_of_forAllNodesInternal t v i n :
  n ∈ forAllNodesInternal (QSet t v i) <->
  n ∈ v \/ exists q, q ∈ i /\ n ∈ forAllNodesInternal q.
Proof.
  cbn [forAllNodesInternal]. rewrite elem_of_app. apply or_iff_compat_l.
  induction i as [|q i IH]; simpl; [set_solver|].
  rewrite elem_of_app, IH. set_solver.
Qed.

(** Larger sets satisfy more slices. *)
Lemma isQuorumSlice_mono q S S' : qset_wf q ->
  (forall n, n ∈ S -> n ∈ S') -> isQuorumSlice q S = true -> isQuorumSlice q S' = true.
Proof.
  intros Hwf HS. induction q as [t v i IH] using qset_ind.
  apply qset_all_unfold in Hwf as [Ht Hi].
  rewrite !isQuorumSlice_count by done. rewrite !Z.leb_le. intros H.
  assert (count (contains S) v <= count (contains S') v).
  { apply count_mono. intros x _. rewrite !contains_true. auto. }
  assert (count (fun q => isQuorumSlice q S) i <= count (fun q => isQuorumSlice q S') i).
  { apply count_mono. intros q Hq. rewrite Forall_forall in IH, Hi.
    apply IH; [done|]. by apply Hi. }
  lia.
Qed.

(** Entries of one level, for the induction of the duality theorem. *)
Lemma vblocking_level t v i S C :
  1 <= t <= Z.of_nat (length v) + Z.of_nat (length i) ->
  Z.of_nat (length v) + Z.of_nat (length i) < 2147483648 ->
  (forall n, n ∈ v -> contains C n = negb (contains S n)) ->
  (forall q, q ∈ i -> isQuorumSlice q C = negb (isVBlocking q S)) ->
  isVBlocking (QSet t v i) S = negb (isQuorumSlice (QSet t v i) C).
Proof.
  intros Ht Hs Hv Hi. rewrite isVBlocking_count, isQuorumSlice_count by word_lia.
  rewrite (proj2 (Z.eqb_neq t 0)) by lia.
  unfold effThreshold. rewrite (proj2 (Z.eqb_neq t 0)) by lia.
  rewrite u64_small by word_lia. rewrite i32_small by lia.
  pose proof (count_compl _ _ v Hv) as Cv.
  pose proof (count_compl _ _ i Hi) as Ci.
  destruct (Z.leb_spec t (count (contains C) v + count (fun q => isQuorumSlice q C) i));
    [apply Z.leb_gt|apply Z.leb_le]; lia.
Qed.

Lemma vblocking_dual q S C : qset_ranged q -> qset_small q ->
  (forall n, n ∈ forAllNodesInternal q -> contains C n = negb (contains S n)) ->
  isVBlocking q S = negb (isQuorumSlice q C).
Proof.
  unfold qset_ranged, qset_small. induction q as [t v i IH] using qset_ind.
  rewrite !qset_all_unfold. intros [Ht Hi] [Hs Hi'] HC.
  unfold totEntries in Ht, Hs; cbn in Ht, Hs.
  setoid_rewrite elem_of_forAllNodesInternal in HC.
  apply vblocking_level; [lia|lia|by auto|].
  intros q Hq. rewrite Forall_forall in *.
  rewrite IH; [by rewrite negb_involutive|..]; eauto.
Qed.

(** ** Normalisation *)

Lemma singletonNode_Some q x : singletonNode q = Some x -> q = QSet 1 [x] [].
Proof.
  destruct q as [t [|y [|]] [|]]; simpl; try done.
  destruct (t =? 1) eqn:E; [|done]. zify_bool. naive_solver.
Qed.

(** One entry replaced by an equivalent one: what the loop does to the
    number of satisfied entries and to the size of a level. *)
Section NormCounts.
Context (hitV : NodeID -> bool) (hitI : SCPQuorumSet -> bool).
Context (Hsingle : forall x, hitI (QSet 1 [x] []) = hitV x).

Lemma normInner_count i v v' i' :
  (forall q, q ∈ i -> hitI (normalizeQSet q) = hitI q) ->
  normInner normalizeQSet i v = (v', i') ->
  count hitV v' + count hitI i' = count hitV v + count hitI i /\
  Z.of_nat (length v') + Z.of_nat (length i')
    = Z.of_nat (length v) + Z.of_nat (length i).
Proof.
  revert v v' i'; induction i as [|q i IH]; intros v v' i' Hq; cbn [normInner].
  { intros [= -> ->]. done. }
  assert (hitI (normalizeQSet q) = hitI q) as Hq0 by (apply Hq; set_solver).
  assert (forall q', q' ∈ i -> hitI (normalizeQSet q') = hitI q') as Hq' by set_solver.
  destruct (singletonNode (normalizeQSet q)) as [x|] eqn:Es.
  - apply singletonNode_Some in Es. intros Hn. apply (IH _ _ _ Hq') in Hn.
    rewrite count_app, length_app, count_cons, count_nil in Hn.
    rewrite count_cons, <- Hq0, Es, Hsingle. simpl length in *. lia.
  - destruct (normInner normalizeQSet i v) as [w j] eqn:Ew. intros [= <- <-].
    apply (IH _ _ _ Hq') in Ew. rewrite !count_cons, Hq0. simpl length. lia.
Qed.

(** Loops whose verdict only depends on the threshold, the number of
    entries and the number of satisfied entries are unchanged. *)
Context (verdict : Z -> Z -> Z -> bool).
Context (Hverdict : forall t v i, is_u32 t ->
  hitI (QSet t v i) = verdict t (Z.of_nat (length v) + Z.of_nat (length i))
                              (count hitV v + count hitI i)).
Context (Hwrap : forall q, hitI (QSet 1 [] [q]) = hitI q).

Lemma normalize_hit q : qset_wf q -> hitI (normalizeQSet q) = hitI q.
Proof.
  induction q as [t v i IH] using qset_ind. intros Hwf.
  apply qset_all_unfold in Hwf as [Ht Hi]. cbn [normalizeQSet threshold] in *.
  destruct (normInner normalizeQSet i v) as [v' i'] eqn:En.
  assert (forall q, q ∈ i -> hitI (normalizeQSet q) = hitI q) as Hq.
  { rewrite Forall_forall in IH, Hi. intros q Hq. by apply IH, Hi. }
  destruct (normInner_count _ _ _ _ Hq En) as [Hc Hl].
  assert (hitI (QSet t v' i') = hitI (QSet t v i)) as Hsame.
  { by rewrite !Hverdict, Hc, Hl. }
  destruct v' as [|x v']; [|done]. destruct i' as [|q [|q' i']]; [done| |done].
  destruct (t =? 1) eqn:E; [|done]. zify_bool; subst t. by rewrite <- Hsame, Hwrap.
Qed.
End NormCounts.

Lemma isQuorumSlice_normalize q S : qset_wf q ->
  isQuorumSlice (normalizeQSet q) S = isQuorumSlice q S.
Proof.
  eapply (normalize_hit (contains S) (fun q => isQuorumSlice q S))
    with (verdict := fun t _ c => effThreshold t <=? c).
  - intros x. rewrite isQuorumSlice_count by word_lia.
    autorewrite with count. by destruct (contains S x).
  - intros t v i Ht. by apply isQuorumSlice_count.
  - intros q'. rewrite isQuorumSlice_count by word_lia.
    autorewrite with count. by destruct (isQuorumSlice q' S).
Qed.

Lemma isVBlocking_normalize q S : qset_wf q ->
  isVBlocking (normalizeQSet q) S = isVBlocking q S.
Proof.
  eapply (normalize_hit (contains S) (fun q => isVBlocking q S))
    with (verdict := fun t n c => if t =? 0 then false
                                  else Z.max 1 (i32 (u64 (1 + n - t))) <=? c).
  - intros x. rewrite isVBlocking_count. autorewrite with count.
    by destruct (contains S x).
  - intros t v i Ht. rewrite isVBlocking_count. by rewrite Z.add_assoc.
  - intros q'. rewrite isVBlocking_count. autorewrite with count.
    by destruct (isVBlocking q' S).
Qed.

(** ** Sanity *)

Lemma insertValidators_spec v known :
  (insertValidators v known).1 = true <-> NoDup v /\ (forall n, n ∈ v -> n ∉ known).
Proof.
  revert known; induction v as [|n v IH]; intros known; simpl.
  - split; [|done]. intros _. split; [constructor|set_solver].
  - destruct (os_mem n known) eqn:E.
    + apply os_mem_elem in E. split; [done|]. intros [_ H]. exfalso. set_solver.
    + apply os_mem_false in E. rewrite IH, NoDup_cons.
      setoid_rewrite elem_of_os_insert. set_solver.
Qed.

Lemma insertValidators_known v known : (insertValidators v known).1 = true ->
  forall n, n ∈ (insertValidators v known).2 <-> n ∈ known \/ n ∈ v.
Proof.
  revert known; induction v as [|n v IH]; intros known; simpl; [set_solver|].
  destruct (os_mem n known); [done|]. intros H x. rewrite IH by done.
  rewrite elem_of_os_insert. set_solver.
Qed.

(** What the recursive check establishes about one set, from [known]. *)
Definition sane_spec (ranged : SCPQuorumSet -> Prop) (q : SCPQuorumSet) (known : list NodeID)
    (r : bool * list NodeID) : Prop :=
  (r.1 = true <-> qset_all ranged q /\ NoDup (forAllNodesInternal q) /\
                  (forall n, n ∈ forAllNodesInternal q -> n ∉ known)) /\
  (r.1 = true -> forall n, n ∈ r.2 <-> n ∈ known \/ n ∈ forAllNodesInternal q).

Lemma saneInner_spec ranged rec i known :
  (forall q k, q ∈ i -> sane_spec ranged q k (rec q k)) ->
  let l := concat (map forAllNodesInternal i) in
  ((saneInner rec i known).1 = true <->
     Forall (qset_all ranged) i /\ NoDup l /\ (forall n, n ∈ l -> n ∉ known)) /\
  ((saneInner rec i known).1 = true ->
     forall n, n ∈ (saneInner rec i known).2 <-> n ∈ known \/ n ∈ l).
Proof.
  revert known; induction i as [|q i IH]; intros known Hrec; simpl.
  { split; [|set_solver]. split; [|done]. intros _. repeat split; [constructor|constructor|set_solver]. }
  destruct (Hrec q known) as [Hq Hk]; [set_solver|].
  destruct (rec q known) as [[|] known']; simpl in *.
  - destruct (IH known') as [IH1 IH2]; [set_solver|].
    specialize (Hk eq_refl). destruct (proj1 Hq eq_refl) as (Hr & Hn & Hd).
    rewrite IH1, Forall_cons, NoDup_app. split.
    + setoid_rewrite elem_of_app. setoid_rewrite Hk. set_solver.
    + intros H n. rewrite (IH2 (proj2 IH1 H)), Hk, elem_of_app. tauto.
  - rewrite Forall_cons, NoDup_app. split; [|done]. split; [done|].
    setoid_rewrite elem_of_app. intros. apply Hq. set_solver.
Qed.

Definition level_ok (extraChecks : bool) (q : SCPQuorumSet) : Prop :=
  1 <= threshold q <= totEntries q /\
  (extraChecks = true -> u64 (u64 (totEntries q - threshold q) + 1) <= threshold q).

Lemma level_ok_bool e t v i :
  ((t >=? 1) && (t <=? Z.of_nat (length v) + Z.of_nat (length i)) &&
   (negb e || (t >=? u64 (u64 (Z.of_nat (length v) + Z.of_nat (length i) - t) + 1)))) = true
  <-> level_ok e (QSet t v i).
Proof.
  unfold level_ok, totEntries; simpl. rewrite !Z.geb_leb, !andb_true_iff, orb_true_iff,
    negb_true_iff, !Z.leb_le.
  destruct e; intuition congruence || lia.
Qed.

Lemma isQuorumSetSaneInternal_spec e q known :
  sane_spec (level_ok e) q known (isQuorumSetSaneInternal e q known).
Proof.
  revert known; induction q as [t v i IH] using qset_ind; intros known.
  unfold sane_spec. rewrite qset_all_unfold. cbn [isQuorumSetSaneInternal forAllNodesInternal].
  pose proof (level_ok_bool e t v i) as Hl. destruct (_ && _) eqn:Eb; simpl.
  2: { split; [|done]. split; [done|]. intros [[Hok _] _]. by apply Hl in Hok. }
  assert (level_ok e (QSet t v i)) as Hok by (by apply Hl). clear Hl Eb.
  pose proof (insertValidators_spec v known) as Hv.
  pose proof (insertValidators_known v known) as Hvk.
  destruct (insertValidators v known) as [[|] known']; simpl in *.
  - rewrite Forall_forall in IH.
    destruct (saneInner_spec (level_ok e) (isQuorumSetSaneInternal e) i known') as [H1 H2].
    { intros q k Hq. by apply IH. }
    specialize (Hvk eq_refl). destruct (proj1 Hv eq_refl) as [Hn Hd].
    split; [|intros H n; rewrite (H2 H), Hvk, elem_of_app; tauto].
    rewrite H1, NoDup_app. setoid_rewrite elem_of_app. setoid_rewrite Hvk. set_solver.
  - split; [|done]. split; [done|]. intros (_ & Hnd & Hd). apply Hv.
    rewrite NoDup_app in Hnd. setoid_rewrite elem_of_app in Hd. set_solver.
Qed.

Lemma isQuorumSetSane_iff q e :
  isQuorumSetSane q e = true <-> qset_all (level_ok e) q /\ NoDup (forAllNodesInternal q).
Proof.
  unfold isQuorumSetSane. rewrite (proj1 (isQuorumSetSaneInternal_spec e q [])). set_solver.
Qed.

Lemma isQuorumSetSane_ranged q e : isQuorumSetSane q e = true -> qset_ranged q.
Proof.
  rewrite isQuorumSetSane_iff. intros [H _]. revert H. apply qset_all_impl.
  unfold level_ok. naive_solver.
Qed.

(** * [findClosestVBlocking] and node weights

    The set returned by [LocalNode::findClosestVBlocking] consists of
    agreeing nodes and, added to the nodes that do not agree, blocks the
    quorum set; the weight of a node is a fraction of [UINT64_MAX]. *)

Import LocalNode.

Definition isEmptyb {A} (l : list A) : bool := match l with [] => true | _ => false end.

Lemma insertBySize_perm v l : insertBySize v l ≡ₚ v :: l.
Proof.
  induction l as [|w l IH]; simpl; [done|]. destruct (_ <? _); [done|].
  rewrite IH. apply Permutation_swap.
Qed.

Lemma closestValidators_spec nodes v todo res : 1 <= todo <= UINT64_MAX ->
  let miss := count (fun n => negb (os_mem n nodes)) v in
  match closestValidators nodes None v todo res with
  | None => todo <= miss
  | Some (todo', res') =>
      todo' = todo - miss /\ 1 <= todo' /\
      res' = res ++ List.filter (fun n => os_mem n nodes) v
  end.
Proof.
  revert todo res; induction v as [|n v IH]; intros todo res Ht; simpl.
  { rewrite count_nil, app_nil_r. repeat split; lia. }
  rewrite count_cons. pose proof (count_nonneg (fun n => negb (os_mem n nodes)) v) as Hc.
  destruct (os_mem n nodes) eqn:E; simpl.
  - specialize (IH todo (res ++ [n]) Ht).
    destruct (closestValidators nodes None v todo (res ++ [n])) as [[todo' res']|];
      [|simpl in IH; lia].
    simpl in IH. rewrite <- app_assoc in IH. destruct IH as (-> & ? & ->). repeat split; lia.
  - rewrite u64_small by (unfold is_u64; lia).
    destruct (todo - 1 =? 0) eqn:E1; zify_bool; [lia|].
    specialize (IH (todo - 1) res ltac:(lia)).
    destruct (closestValidators nodes None v (todo - 1) res) as [[todo' res']|];
      simpl in IH; [|lia]. destruct IH as (-> & ? & ->). repeat split; lia.
Qed.

Lemma closestInner_spec rec i todo acc : 1 <= todo <= UINT64_MAX ->
  let empties := count (fun q => isEmptyb (rec q)) i in
  match closestInner rec i todo acc with
  | None => todo <= empties
  | Some (todo', subs) =>
      todo' = todo - empties /\ 1 <= todo' /\
      subs ≡ₚ acc ++ List.filter (fun w => negb (isEmptyb w)) (map rec i)
  end.
Proof.
  revert todo acc; induction i as [|q i IH]; intros todo acc Ht; simpl.
  { rewrite count_nil, app_nil_r. repeat split; try lia. done. }
  rewrite count_cons. pose proof (count_nonneg (fun q => isEmptyb (rec q)) i) as Hc.
  destruct (rec q) as [|x w] eqn:E; simpl.
  - rewrite u64_small by (unfold is_u64; lia).
    destruct (todo - 1 =? 0) eqn:E1; zify_bool; [lia|].
    specialize (IH (todo - 1) acc ltac:(lia)).
    destruct (closestInner rec i (todo - 1) acc) as [[todo' subs]|]; simpl in IH; [|lia].
    destruct IH as (-> & ? & ?). repeat split; try lia. done.
  - specialize (IH todo (insertBySize (x :: w) acc) Ht).
    destruct (closestInner rec i todo (insertBySize (x :: w) acc)) as [[todo' subs]|];
      simpl in IH; [|lia].
    destruct IH as (-> & ? & Hp). repeat split; try lia.
    rewrite Hp, insertBySize_perm. simpl. by rewrite Permutation_middle.
Qed.

Lemma takeSubsets_app todo res subs : is_u64 todo ->
  takeSubsets todo res subs = res ++ concat (take (Z.to_nat todo) subs).
Proof.
  revert todo res; induction subs as [|v subs IH]; intros todo res Ht; simpl.
  { rewrite take_nil; simpl. by rewrite app_nil_r. }
  destruct (todo =? 0) eqn:E; zify_bool; simpl.
  - subst todo; simpl. by rewrite app_nil_r.
  - rewrite u64_small, IH by word_lia.
    replace (Z.to_nat todo) with (S (Z.to_nat (todo - 1))) by word_lia.
    simpl. by rewrite app_assoc.
Qed.

(** Elements kept from a prefix of the hits are counted as hits. *)
Lemma count_prefix {A} (f g : A -> bool) (l p : list A) k :
  p = take k (List.filter g l) ->
  (forall x, x ∈ l -> g x = false -> f x = true) ->
  (forall x, x ∈ p -> f x = true) ->
  count (fun x => negb (g x)) l + Z.of_nat (length p) <= count f l.
Proof.
  intros -> Hg Hp. revert k Hg Hp; induction l as [|x l IH]; intros k Hg Hp; simpl.
  { rewrite take_nil, !count_nil. simpl; lia. }
  rewrite !count_cons. simpl in Hp. destruct (g x) eqn:E; simpl.
  - destruct k as [|k]; simpl in *.
    + specialize (IH 0%nat ltac:(set_solver)). rewrite take_0 in IH; simpl in IH.
      pose proof (count_nonneg f l). specialize (IH ltac:(set_solver)).
      destruct (f x); lia.
    + rewrite Hp by set_solver. specialize (IH k ltac:(set_solver) ltac:(set_solver)). lia.
  - rewrite Hg by set_solver. specialize (IH k ltac:(set_solver) Hp). lia.
Qed.

Lemma count_map {A B} (f : B -> bool) (h : A -> B) l :
  count f (map h l) = count (fun x => f (h x)) l.
Proof. induction l; simpl; rewrite ?count_cons, ?count_nil; congruence. Qed.

Lemma count_split {A} (f : A -> bool) l :
  count f l + count (fun x => negb (f x)) l = Z.of_nat (length l).
Proof. by apply count_compl. Qed.

Lemma length_filter_count {A} (f : A -> bool) l : Z.of_nat (length (List.filter f l)) = count f l.
Proof. done. Qed.

(** The inner sets whose own closest set was taken are blocked. *)
Lemma inner_hits (rec : SCPQuorumSet -> list NodeID) i subs k (blocked : SCPQuorumSet -> bool) :
  subs ≡ₚ List.filter (fun w => negb (isEmptyb w)) (map rec i) ->
  (k <= length subs)%nat ->
  (forall q, q ∈ i -> rec q = [] \/ rec q ∈ take k subs -> blocked q = true) ->
  count (fun q => isEmptyb (rec q)) i + Z.of_nat k <= count blocked i.
Proof.
  intros Hp Hk Hb.
  set (test (w : list NodeID) := isEmptyb w || bool_decide (w ∈ take k subs)).
  assert (count (fun q => test (rec q)) i <= count blocked i) as Hle.
  { apply count_mono. intros q Hq Ht. apply Hb; [done|]. unfold test in Ht. zify_bool.
    destruct Ht as [Ht|Ht]; [left; by destruct (rec q)|right; by apply bool_decide_eq_true in Ht]. }
  rewrite <- count_map in Hle. transitivity (count test (map rec i)); [|done].
  rewrite <- count_map.
  assert (count test subs = count (fun w => negb (isEmptyb w) && test w) (map rec i)) as Hs.
  { rewrite (count_perm _ _ _ Hp). clear.
    induction (map rec i) as [|w l IH]; [done|]. rewrite !count_cons; simpl.
    destruct (isEmptyb w) eqn:E; simpl; [done|]. by rewrite count_cons, IH. }
  assert (Z.of_nat k <= count test subs) as Hks.
  { rewrite <- (take_drop k subs) at 1. rewrite count_app.
    pose proof (count_nonneg test (drop k subs)).
    rewrite (count_ext test (fun _ => true) (take k subs)).
    - enough (count (fun _ => true) (take k subs) = Z.of_nat k) by lia.
      unfold count. rewrite List.filter_true, length_take. lia.
    - intros w Hw. unfold test. by rewrite bool_decide_eq_true_2, orb_true_r. }
  enough (count test (map rec i) =
    count isEmptyb (map rec i) + count (fun w => negb (isEmptyb w) && test w) (map rec i))
    by lia.
  clear. induction (map rec i) as [|w l IH]; [done|]. rewrite !count_cons, IH.
  unfold test. destruct (isEmptyb w); simpl; [lia|]. destruct (bool_decide _); lia.
Qed.

Lemma take_min_length {A} (l : list A) k : take (Nat.min k (length l)) l = take k l.
Proof.
  destruct (Nat.min_spec k (length l)) as [[_ ->]|[? ->]]; [done|].
  by rewrite !take_ge by lia.
Qed.

(** One level whose lists are long enough: the nodes that are missing, the
    ones taken from the validators and the inner sets taken or already
    blocked make up what is left to block. *)
Lemma level_blocked nodes S v i (rec : SCPQuorumSet -> list NodeID) subs L :
  (forall q, q ∈ i -> (forall n, n ∈ rec q -> n ∈ S) -> isVBlocking q S = true) ->
  (forall x, x ∈ v -> os_mem x nodes = false -> contains S x = true) ->
  subs ≡ₚ List.filter (fun w => negb (isEmptyb w)) (map rec i) ->
  1 <= L <= Z.of_nat (length v) + Z.of_nat (length i) ->
  Z.of_nat (length v) + Z.of_nat (length i) < 2147483648 ->
  let miss := count (fun n => negb (os_mem n nodes)) v in
  let left2 := L - miss - count (fun q => isEmptyb (rec q)) i in
  let res := List.filter (fun n => os_mem n nodes) v in
  let res' := if Z.of_nat (length res) >? left2 then take (Z.to_nat left2) res else res in
  1 <= left2 ->
  (forall n, n ∈ takeSubsets (u64 (left2 - Z.of_nat (length res'))) res' subs -> n ∈ S) ->
  L <= count (contains S) v + count (fun q => isVBlocking q S) i.
Proof.
  intros IHq Hmiss Hsubs HL Hs miss left2 res res0 Hl2 Hres. unfold res0 in Hres. clear res0.
  pose proof (count_nonneg (fun n => negb (os_mem n nodes)) v) as Hnv. fold miss in Hnv.
  assert ((if Z.of_nat (length res) >? left2 then take (Z.to_nat left2) res else res)
          = take (Z.to_nat left2) res) as Etake.
  { rewrite Z.gtb_ltb. destruct (Z.ltb_spec left2 (Z.of_nat (length res))); [done|].
    by rewrite take_ge by lia. }
  rewrite Etake in Hres. clear Etake.
  pose proof (length_take res (Z.to_nat left2)) as Elen.
  set (res' := take (Z.to_nat left2) res) in *.
  pose proof (count_nonneg (fun q => isEmptyb (rec q)) i) as Hne.
  assert (is_u64 (left2 - Z.of_nat (length res'))) as Hl3.
  { unfold is_u64, UINT64_MAX. unfold left2, miss in *. lia. }
  rewrite u64_small, takeSubsets_app in Hres by done.
  pose proof (count_prefix (contains S) (fun n => os_mem n nodes) v res' _ eq_refl Hmiss) as Hcv.
  setoid_rewrite elem_of_app in Hres.
  specialize (Hcv ltac:(intros x Hx; apply contains_true; auto)).
  pose proof (Permutation_length Hsubs) as Hls.
  assert (Z.of_nat (length (List.filter (fun w => negb (isEmptyb w)) (map rec i)))
    = Z.of_nat (length i) - count (fun q => isEmptyb (rec q)) i) as Hli.
  { pose proof (count_split isEmptyb (map rec i)) as Hsp. rewrite length_map, count_map in Hsp.
    unfold count in *. lia. }
  set (k := Nat.min (Z.to_nat (left2 - Z.of_nat (length res'))) (length subs)).
  pose proof (inner_hits rec i subs k (fun q => isVBlocking q S) Hsubs ltac:(lia)) as Hci.
  assert (count (fun q => isEmptyb (rec q)) i + Z.of_nat k <= count (fun q => isVBlocking q S) i).
  { apply Hci. intros q Hq Hor. apply IHq; [done|]. destruct Hor as [->|Hin]; [set_solver|].
    intros n Hn. apply Hres. right. apply list_elem_of_In, in_concat. exists (rec q).
    rewrite <- !list_elem_of_In. split; [|done]. unfold k in Hin. by rewrite take_min_length in Hin. }
  assert (Z.of_nat (length res) + miss = Z.of_nat (length v)) as Hrm.
  { apply (count_split (fun n => os_mem n nodes) v). }
  unfold left2 in *. cbv beta in Hcv. fold miss in Hcv. lia.
Qed.

(** Main induction: adding the returned nodes to those that do not agree
    gives a v-blocking set. *)
Lemma findClosest_blocks nodes q S : qset_ranged q -> qset_small q ->
  (forall n, n ∈ findClosestVBlocking nodes None q -> n ∈ S) ->
  (forall n, n ∈ forAllNodesInternal q -> n ∉ nodes -> n ∈ S) ->
  isVBlocking q S = true.
Proof.
  unfold qset_ranged, qset_small. induction q as [t v i IH] using qset_ind.
  rewrite !qset_all_unfold. intros [Ht Hi] [Hs Hi'] Hres Hnon.
  unfold totEntries in Ht, Hs; cbn [threshold validators innerSets] in Ht, Hs.
  rewrite isVBlocking_count, (proj2 (Z.eqb_neq t 0)) by lia.
  rewrite i32_small, u64_small by word_lia. rewrite Z.leb_le.
  cbn [findClosestVBlocking] in Hres. rewrite u64_small in Hres by word_lia.
  remember (1 + Z.of_nat (length v) + Z.of_nat (length i) - t) as L eqn:EL.
  setoid_rewrite elem_of_forAllNodesInternal in Hnon.
  set (rec := findClosestVBlocking nodes None) in *.
  assert (forall q, q ∈ i -> (forall n, n ∈ rec q -> n ∈ S) -> isVBlocking q S = true) as IHq.
  { intros q Hq Hr. rewrite Forall_forall in *. eapply IH; eauto. }
  assert (forall x, x ∈ v -> os_mem x nodes = false -> contains S x = true) as Hmiss.
  { intros x Hx Hm. apply contains_true, Hnon; [auto|]. by apply os_mem_false. }
  pose proof (closestValidators_spec nodes v L [] ltac:(unfold UINT64_MAX; lia)) as Hv.
  pose proof (count_nonneg (fun q => isVBlocking q S) i) as Hni.
  destruct (closestValidators nodes None v L []) as [[left1 res]|]; simpl in Hv.
  2: { pose proof (count_prefix (contains S) (fun n => os_mem n nodes) v [] 0 eq_refl Hmiss
         ltac:(set_solver)) as Hc. simpl in Hc. lia. }
  destruct Hv as (-> & Hl1 & ->).
  pose proof (count_nonneg (fun n => negb (os_mem n nodes)) v) as Hnv.
  set (miss := count (fun n => negb (os_mem n nodes)) v) in *.
  assert (1 <= L - miss <= UINT64_MAX) as Hrange by (unfold UINT64_MAX; lia).
  pose proof (closestInner_spec rec i (L - miss) [] Hrange) as Hin.
  destruct (closestInner rec i _ []) as [[left2 subs]|]; simpl in Hin.
  2: { pose proof (count_prefix (contains S) (fun n => os_mem n nodes) v [] 0 eq_refl Hmiss
         ltac:(set_solver)) as Hc. simpl in Hc.
       pose proof (inner_hits rec i _ 0 (fun q => isVBlocking q S) (Permutation_refl _)
         ltac:(lia)) as Hc2.
       enough (count (fun q => isEmptyb (rec q)) i + 0 <= count (fun q => isVBlocking q S) i) by lia.
       apply Hc2. rewrite take_0. intros q Hq [He|He]; [|set_solver].
       apply IHq; [done|]. rewrite He. set_solver. }
  destruct Hin as (-> & Hl2 & Hsubs). rewrite Z.max_r by lia.
  by apply (level_blocked nodes S v i rec subs L); [..|lia|lia|exact Hl2|exact Hres].
Qed.

(** ** Only agreeing nodes are returned *)

Lemma closestValidators_agree nodes ex v todo res todo' res' n :
  closestValidators nodes ex v todo res = Some (todo', res') ->
  n ∈ res' -> n ∈ res \/ n ∈ nodes.
Proof.
  revert todo res; induction v as [|x v IH]; intros todo res; simpl.
  { intros [= -> ->]. auto. }
  destruct (match ex with None => _ | _ => _ end); [|apply IH].
  destruct (os_mem x nodes) eqn:E; simpl.
  - intros H Hn. destruct (IH _ _ H Hn) as [Hr|]; [|auto].
    apply os_mem_elem in E. set_solver.
  - destruct (_ =? 0); [done|apply IH].
Qed.

Lemma closestInner_elem rec i todo acc todo' subs w :
  closestInner rec i todo acc = Some (todo', subs) ->
  w ∈ subs -> w ∈ acc \/ exists q, q ∈ i /\ w = rec q.
Proof.
  revert todo acc; induction i as [|q i IH]; intros todo acc; simpl.
  { intros [= -> ->]. auto. }
  destruct (rec q) as [|x u] eqn:E.
  - destruct (_ =? 0); [done|]. intros H Hw. destruct (IH _ _ H Hw); set_solver.
  - intros H Hw. destruct (IH _ _ H Hw) as [Hacc|(q' & ? & ?)]; [|set_solver].
    rewrite insertBySize_perm in Hacc. set_solver.
Qed.

Lemma takeSubsets_elem todo res subs n :
  n ∈ takeSubsets todo res subs -> n ∈ res \/ exists w, w ∈ subs /\ n ∈ w.
Proof.
  revert todo res; induction subs as [|w subs IH]; intros todo res; simpl; [auto|].
  destruct (negb _); [|auto]. intros H. destruct (IH _ _ H); set_solver.
Qed.

Lemma findClosest_agree nodes ex q n : n ∈ findClosestVBlocking nodes ex q -> n ∈ nodes.
Proof.
  induction q as [t v i IH] using qset_ind. cbn [findClosestVBlocking].
  destruct (closestValidators _ _ _ _ _) as [[l1 res]|] eqn:Ev; [|set_solver].
  destruct (closestInner _ _ _ _) as [[l2 subs]|] eqn:Ei; [|set_solver].
  intros Hn. apply takeSubsets_elem in Hn as [Hn|(w & Hw & Hn)].
  - assert (n ∈ res) as Hr.
    { destruct (_ >? _); [|done]. by apply (subseteq_take _ _ _ Hn). }
    destruct (closestValidators_agree _ _ _ _ _ _ _ _ Ev Hr); set_solver.
  - destruct (closestInner_elem _ _ _ _ _ _ _ Ei Hw) as [?|(q & Hq & ->)]; [set_solver|].
    rewrite Forall_forall in IH. by eapply IH.
Qed.

(** ** Node weights *)

Lemma scaleWeight_exact a n d : is_u64 a -> 1 <= n <= d -> d <= UINT64_MAX ->
  scaleWeight a n d = a * n / d /\ 0 <= a * n / d <= a.
Proof.
  intros Ha Hn Hd. unfold scaleWeight.
  rewrite bigDivide_u64_exact by (unfold is_u64 in *; lia). simpl.
  assert (0 <= a * n / d <= a) as Hb.
  { unfold is_u64 in Ha. split; [apply Z.div_pos; nia|].
    apply Z.div_le_upper_bound; nia. }
  rewrite u64_small; [done|]. unfold is_u64 in *. lia.
Qed.

(** The weight of the quorum set one level down: what the two loops scale. *)
Fixpoint firstInnerWeight (nodeID : NodeID) (i : list SCPQuorumSet) : Z :=
  match i with
  | [] => 0
  | q :: r => if getNodeWeight nodeID q =? 0 then firstInnerWeight nodeID r
              else getNodeWeight nodeID q
  end.

Lemma weightInner_first nodeID t d i : 1 <= t <= d -> d <= UINT64_MAX ->
  (forall q, q ∈ i -> is_u64 (getNodeWeight nodeID q)) ->
  weightInner (getNodeWeight nodeID) t d i = firstInnerWeight nodeID i * t / d /\
  is_u64 (firstInnerWeight nodeID i).
Proof.
  intros Ht Hd. induction i as [|q i IH]; intros Hq; simpl.
  { rewrite Z.mul_0_l, Zdiv_0_l. split; [done|word_lia]. }
  destruct (getNodeWeight nodeID q =? 0) eqn:E; simpl; [apply IH; set_solver|].
  assert (is_u64 (getNodeWeight nodeID q)) by (apply Hq; set_solver).
  split; [|done]. by apply scaleWeight_exact.
Qed.

Lemma getNodeWeight_level nodeID t v i :
  let d := totEntries (QSet t v i) in
  let w := getNodeWeight nodeID (QSet t v i) in
  1 <= t <= d -> d < 2147483648 ->
  (forall q, q ∈ i -> is_u64 (getNodeWeight nodeID q)) ->
  w = (if contains v nodeID then UINT64_MAX else firstInnerWeight nodeID i) * t / d /\
  0 <= w <= UINT64_MAX * t / d.
Proof.
  intros d w Ht Hd Hq. unfold w. cbn [getNodeWeight].
  assert (u64 (Z.of_nat (length i) + Z.of_nat (length v)) = d) as ->.
  { unfold d, totEntries in *. simpl in *. rewrite u64_small; [lia|word_lia]. }
  assert (is_u64 UINT64_MAX) as Hm by word_lia.
  destruct (contains v nodeID).
  - destruct (scaleWeight_exact UINT64_MAX t d) as [-> Hb]; [done|done|word_lia|]. lia.
  - destruct (weightInner_first nodeID t d i) as [-> Hf]; [done|word_lia|done|].
    unfold is_u64 in Hf. split; [done|]. split; [apply Z.div_pos; nia|].
    apply Z.div_le_mono; nia.
Qed.

Lemma getNodeWeight_u64 nodeID q :
  qset_ranged q -> qset_small q -> is_u64 (getNodeWeight nodeID q).
Proof.
  unfold qset_ranged, qset_small. induction q as [t v i IH] using qset_ind.
  rewrite !qset_all_unfold. intros [Ht Hi] [Hs Hi']. rewrite Forall_forall in *.
  destruct (getNodeWeight_level nodeID t v i) as [_ Hb]; [done|done|by auto|].
  unfold is_u64. split; [lia|]. etransitivity; [apply Hb|].
  cbn [threshold] in Ht. apply Z.div_le_upper_bound; unfold UINT64_MAX; lia.
Qed.

Lemma getNodeWeight_spec nodeID t v i :
  qset_ranged (QSet t v i) -> qset_small (QSet t v i) ->
  let d := totEntries (QSet t v i) in
  let w := getNodeWeight nodeID (QSet t v i) in
  w = (if contains v nodeID then UINT64_MAX else firstInnerWeight nodeID i) * t / d /\
  0 <= w <= UINT64_MAX * t / d.
Proof.
  intros Hr Hs. apply qset_all_unfold in Hr as [Ht Hi], Hs as [Hd Hi'].
  rewrite Forall_forall in *. apply getNodeWeight_level; [done|done|].
  intros q Hq. apply getNodeWeight_u64; [by apply Hi|by apply Hi'].
Qed.

Lemma getNodeWeight_absent nodeID q :
  qset_ranged q -> qset_small q -> nodeID ∉ forAllNodesInternal q -> getNodeWeight nodeID q = 0.
Proof.
  unfold qset_ranged, qset_small. induction q as [t v i IH] using qset_ind.
  intros Hr Hs Hn. rewrite elem_of_forAllNodesInternal in Hn.
  destruct (getNodeWeight_spec nodeID t v i Hr Hs) as [-> _].
  apply qset_all_unfold in Hr as [_ Hi], Hs as [_ Hi'].
  rewrite Forall_forall in *.
  assert (firstInnerWeight nodeID i = 0) as ->.
  { induction i as [|q i IHi]; simpl; [done|].
    rewrite (IH q) by set_solver. apply IHi; set_solver. }
  destruct (contains v nodeID) eqn:E; [|by rewrite Z.mul_0_l, Zdiv_0_l].
  apply contains_true in E. set_solver.
Qed.
