(* ===== verification/ScpTypes.v ===== *)
(** * Messages, driver and state of the consensus layer

    The protocol messages come from an XDR file that is not part of the
    tree; the records below have the fields the C++ code reads and writes.
    The states of [BallotProtocol], [NominationProtocol] and [Slot] are the
    member variables of the three classes, and the calls made to the
    [SCPDriver] are recorded in order in [mDriverCalls]. *)

From S2P Require Import Prelude OrdContainers QuorumSet.

(** Opaque byte strings: consensus values, hashes, signatures. *)
Abbreviation Value := (list Z) (only parsing).
Abbreviation Hash := Z (only parsing).

(** [Value::empty()] *)
Definition vempty (v : Value) : bool := match v with [] => true | _ => false end.

Record SCPBallot := Ballot { counter : Z; value : Value }.
Global Instance SCPBallot_eq_dec : EqDecision SCPBallot.
Proof. solve_decision. Defined.

Record SCPPrepare := {
  p_quorumSetHash : Hash;
  p_ballot : SCPBallot;
  p_prepared : option SCPBallot;
  p_preparedPrime : option SCPBallot;
  p_nC : Z;
  p_nH : Z;
}.
Record SCPConfirm := {
  c_ballot : SCPBallot;
  c_nPrepared : Z;
  c_nCommit : Z;
  c_nH : Z;
  c_quorumSetHash : Hash;
}.
Record SCPExternalize := {
  e_commit : SCPBallot;
  e_nH : Z;
  e_commitQuorumSetHash : Hash;
}.
Record SCPNomination := {
  n_quorumSetHash : Hash;
  n_votes : list Value;
  n_accepted : list Value;
}.

(** [SCPStatement::pledges], a union tagged by [SCPStatementType]. *)
Inductive SCPPledges :=
| PREPARE (p : SCPPrepare)
| CONFIRM (c : SCPConfirm)
| EXTERNALIZE (e : SCPExternalize)
| NOMINATE (n : SCPNomination).

Record SCPStatement := { nodeID : NodeID; slotIndex : Z; pledges : SCPPledges }.
Record SCPEnvelope := { statement : SCPStatement; signature : list Z }.

Global Instance SCPPrepare_eq_dec : EqDecision SCPPrepare.
Proof. solve_decision. Defined.
Global Instance SCPConfirm_eq_dec : EqDecision SCPConfirm.
Proof. solve_decision. Defined.
Global Instance SCPExternalize_eq_dec : EqDecision SCPExternalize.
Proof. solve_decision. Defined.
Global Instance SCPNomination_eq_dec : EqDecision SCPNomination.
Proof. solve_decision. Defined.
Global Instance SCPPledges_eq_dec : EqDecision SCPPledges.
Proof. solve_decision. Defined.
Global Instance SCPStatement_eq_dec : EqDecision SCPStatement.
Proof. solve_decision. Defined.
Global Instance SCPEnvelope_eq_dec : EqDecision SCPEnvelope.
Proof. solve_decision. Defined.

(** [xdr::operator<] on ballots: field by field, the counter first. *)
Definition ballot_ltb (b1 b2 : SCPBallot) : bool :=
  if counter b1 <? counter b2 then true
  else if counter b2 <? counter b1 then false
  else ltb (value b1) (value b2).

Global Program Instance SCPBallot_Ord : Ord SCPBallot := { ltb := ballot_ltb }.
Next Obligation. intros [n v]; unfold ballot_ltb; cbn [counter value]. by rewrite Z.ltb_irrefl, ltb_irrefl. Qed.
Next Obligation.
  intros [n1 v1] [n2 v2] [n3 v3]; unfold ballot_ltb; cbn [counter value].
  destruct (Z.ltb_spec n1 n2), (Z.ltb_spec n2 n1), (Z.ltb_spec n2 n3),
    (Z.ltb_spec n3 n2), (Z.ltb_spec n1 n3), (Z.ltb_spec n3 n1); try done; try lia.
  apply ltb_trans.
Qed.
Next Obligation.
  intros [n1 v1] [n2 v2]; unfold ballot_ltb; cbn [counter value].
  destruct (Z.ltb_spec n1 n2), (Z.ltb_spec n2 n1); try done; try lia.
  intros H1 H2. f_equal; [lia|by apply ltb_total].
Qed.

(** ** The driver

    [SCPDriver] is the interface the embedding application implements.  Its
    queries are functions of the model; its notifications and effects are
    events of [mDriverCalls]. *)

Inductive ValidationLevel := kInvalidValue | kFullyValidatedValue | kMaybeValidValue.
Global Instance ValidationLevel_eq_dec : EqDecision ValidationLevel.
Proof. solve_decision. Defined.

Record SCPDriver := {
  signEnvelope : SCPStatement -> list Z;
  verifyEnvelope : SCPEnvelope -> bool;
  getQSet : Hash -> option SCPQuorumSet;
  validateValue : Z -> Value -> ValidationLevel;
  extractValidValue : Z -> Value -> Value;
  computeHashNode : Z -> Value -> bool -> Z -> NodeID -> Z;
  computeValueHash : Z -> Value -> Z -> Value -> Z;
  combineCandidates : Z -> list Value -> Value;
}.

Definition MAX_TIMEOUT_SECONDS : Z := 30 * 60.

(** [SCPDriver::computeTimeout], in milliseconds. *)
Definition computeTimeout (roundNumber : Z) : Z :=
  let timeoutInSeconds :=
    if roundNumber >? MAX_TIMEOUT_SECONDS then MAX_TIMEOUT_SECONDS else i32 roundNumber in
  timeoutInSeconds * 1000.

Inductive TimerID := NOMINATION_TIMER | BALLOT_PROTOCOL_TIMER.

Inductive DriverCall :=
| EmitEnvelope (e : SCPEnvelope)
| SetupTimer (slot : Z) (timer : TimerID) (timeout : Z)
| ValueExternalized (slot : Z) (v : Value)
| NominatingValue (slot : Z) (v : Value)
| UpdatedCandidateValue (slot : Z) (v : Value)
| StartedBallotProtocol (slot : Z) (b : SCPBallot)
| AcceptedBallotPrepared (slot : Z) (b : SCPBallot)
| ConfirmedBallotPrepared (slot : Z) (b : SCPBallot)
| AcceptedCommit (slot : Z) (b : SCPBallot)
| BallotDidHearFromQuorum (slot : Z) (b : SCPBallot).

Inductive EnvelopeState := INVALID | VALID.
Global Instance EnvelopeState_eq_dec : EqDecision EnvelopeState.
Proof. solve_decision. Defined.

Inductive TriBool := TB_TRUE | TB_FALSE | TB_MAYBE.
Global Instance TriBool_eq_dec : EqDecision TriBool.
Proof. solve_decision. Defined.

(** ** The local node *)

Record LocalNodeState := {
  mNodeID : NodeID;
  mIsValidator : bool;
  mQSet : SCPQuorumSet;
  mQSetHash : Hash;
}.

(** What a slot reads from its surroundings: the node, the driver, and
    whether [dbgAssert] is compiled in (it is a no-op under [NDEBUG]). *)
Record ScpEnv := {
  localNode : LocalNodeState;
  driver : SCPDriver;
  debugBuild : bool;
}.

(** ** [BallotProtocol] *)

Inductive SCPPhase := SCP_PHASE_PREPARE | SCP_PHASE_CONFIRM | SCP_PHASE_EXTERNALIZE.
Global Instance SCPPhase_eq_dec : EqDecision SCPPhase.
Proof. solve_decision. Defined.

(** A [std::shared_ptr<SCPEnvelope>]: the address distinguishes two
    allocations with equal contents, as the pointer comparison in
    [sendLatestEnvelope] does. *)
Record EnvelopePtr := { addr : nat; pointee : SCPEnvelope }.

Record BallotProtocol := {
  mHeardFromQuorum : bool;
  mCurrentBallot : option SCPBallot;    (* b *)
  mPrepared : option SCPBallot;         (* p *)
  mPreparedPrime : option SCPBallot;    (* p' *)
  mHighBallot : option SCPBallot;       (* h *)
  mCommit : option SCPBallot;           (* c *)
  mLatestEnvelopes : list (NodeID * SCPEnvelope); (* M *)
  mPhase : SCPPhase;                    (* Phi *)
  mCurrentMessageLevel : Z;
  mLastEnvelope : option EnvelopePtr;
  mLastEnvelopeEmit : option EnvelopePtr;
  mNextAddr : nat;
}.

(** ** [NominationProtocol] *)

Record NominationProtocol := {
  mRoundNumber : Z;
  mVotes : list Value;                  (* X *)
  mAccepted : list Value;               (* Y *)
  mCandidates : list Value;             (* Z *)
  mLatestNominations : list (NodeID * SCPEnvelope); (* N *)
  mLastNomination : option SCPEnvelope;
  mRoundLeaders : list NodeID;
  mNominationStarted : bool;
  mLatestCompositeCandidate : Value;
  mPreviousValue : Value;
}.

(** ** [Slot] *)

Record Slot := {
  mSlotIndex : Z;
  mBallotProtocol : BallotProtocol;
  mNominationProtocol : NominationProtocol;
  mStatementsHistory : list (SCPStatement * bool);
  mFullyValidated : bool;
  mDriverCalls : list DriverCall;
}.

(** ** Constructors and member assignments *)

Definition newBallotProtocol : BallotProtocol :=
  {| mHeardFromQuorum := true; mCurrentBallot := None; mPrepared := None;
     mPreparedPrime := None; mHighBallot := None; mCommit := None;
     mLatestEnvelopes := []; mPhase := SCP_PHASE_PREPARE; mCurrentMessageLevel := 0;
     mLastEnvelope := None; mLastEnvelopeEmit := None; mNextAddr := 0 |}.

Definition newNominationProtocol : NominationProtocol :=
  {| mRoundNumber := 0; mVotes := []; mAccepted := []; mCandidates := [];
     mLatestNominations := []; mLastNomination := None; mRoundLeaders := [];
     mNominationStarted := false; mLatestCompositeCandidate := []; mPreviousValue := [] |}.

Definition newSlot (env : ScpEnv) (slotIndex : Z) : Slot :=
  {| mSlotIndex := slotIndex; mBallotProtocol := newBallotProtocol;
     mNominationProtocol := newNominationProtocol; mStatementsHistory := [];
     mFullyValidated := mIsValidator (localNode env); mDriverCalls := [] |}.

Module Set_.
Section BP.
Context (b : BallotProtocol).
Let mk h cb p pp hb c le ph lv la em na : BallotProtocol :=
  {| mHeardFromQuorum := h; mCurrentBallot := cb; mPrepared := p; mPreparedPrime := pp;
     mHighBallot := hb; mCommit := c; mLatestEnvelopes := le; mPhase := ph;
     mCurrentMessageLevel := lv; mLastEnvelope := la; mLastEnvelopeEmit := em; mNextAddr := na |}.
Let H := mHeardFromQuorum b.
Let B := mCurrentBallot b.
Let P := mPrepared b.
Let P' := mPreparedPrime b.
Let Hb := mHighBallot b.
Let C := mCommit b.
Let Me := mLatestEnvelopes b.
Let Ph := mPhase b.
Let Lv := mCurrentMessageLevel b.
Let La := mLastEnvelope b.
Let Em := mLastEnvelopeEmit b.
Let Na := mNextAddr b.
Definition heard x := mk x B P P' Hb C Me Ph Lv La Em Na.
Definition currentBallot x := mk H x P P' Hb C Me Ph Lv La Em Na.
Definition prepared x := mk H B x P' Hb C Me Ph Lv La Em Na.
Definition preparedPrime x := mk H B P x Hb C Me Ph Lv La Em Na.
Definition highBallot x := mk H B P P' x C Me Ph Lv La Em Na.
Definition commit x := mk H B P P' Hb x Me Ph Lv La Em Na.
Definition latestEnvelopes x := mk H B P P' Hb C x Ph Lv La Em Na.
Definition phase x := mk H B P P' Hb C Me x Lv La Em Na.
Definition level x := mk H B P P' Hb C Me Ph x La Em Na.
(** [mLastEnvelope = std::make_shared<SCPEnvelope>(e)] *)
Definition lastEnvelope e :=
  mk H B P P' Hb C Me Ph Lv (Some {| addr := Na; pointee := e |}) Em (S Na).
Definition lastEnvelopeEmit x := mk H B P P' Hb C Me Ph Lv La x Na.
End BP.

Section Nom.
Context (n : NominationProtocol).
Let mk r v a c ln la rl st cc pv : NominationProtocol :=
  {| mRoundNumber := r; mVotes := v; mAccepted := a; mCandidates := c;
     mLatestNominations := ln; mLastNomination := la; mRoundLeaders := rl;
     mNominationStarted := st; mLatestCompositeCandidate := cc; mPreviousValue := pv |}.
Let R := mRoundNumber n.
Let X := mVotes n.
Let Y := mAccepted n.
Let Z' := mCandidates n.
Let N := mLatestNominations n.
Let L := mLastNomination n.
Let Rl := mRoundLeaders n.
Let St := mNominationStarted n.
Let Cc := mLatestCompositeCandidate n.
Let Pv := mPreviousValue n.
Definition roundNumber x := mk x X Y Z' N L Rl St Cc Pv.
Definition votes x := mk R x Y Z' N L Rl St Cc Pv.
Definition accepted x := mk R X x Z' N L Rl St Cc Pv.
Definition candidates x := mk R X Y x N L Rl St Cc Pv.
Definition latestNominations x := mk R X Y Z' x L Rl St Cc Pv.
Definition lastNomination x := mk R X Y Z' N x Rl St Cc Pv.
Definition roundLeaders x := mk R X Y Z' N L x St Cc Pv.
Definition nominationStarted x := mk R X Y Z' N L Rl x Cc Pv.
Definition compositeCandidate x := mk R X Y Z' N L Rl St x Pv.
Definition previousValue x := mk R X Y Z' N L Rl St Cc x.
End Nom.

Section Sl.
Context (s : Slot).
Let mk bp np h fv dc : Slot :=
  {| mSlotIndex := mSlotIndex s; mBallotProtocol := bp; mNominationProtocol := np;
     mStatementsHistory := h; mFullyValidated := fv; mDriverCalls := dc |}.
Let Bp := mBallotProtocol s.
Let Np := mNominationProtocol s.
Let Hi := mStatementsHistory s.
Let Fv := mFullyValidated s.
Let Dc := mDriverCalls s.
Definition bp x := mk x Np Hi Fv Dc.
Definition nom x := mk Bp x Hi Fv Dc.
Definition history x := mk Bp Np x Fv Dc.
Definition fullyValidated x := mk Bp Np Hi x Dc.
Definition calls x := mk Bp Np Hi Fv x.
End Sl.
End Set_.

(** Monadic shorthands for the handlers of a slot. *)
Definition getBP : M Slot BallotProtocol := s ← get; mret (mBallotProtocol s).
Definition modBP (f : BallotProtocol -> BallotProtocol) : M Slot unit :=
  modify (fun s => Set_.bp s (f (mBallotProtocol s))).
Definition getNom : M Slot NominationProtocol := s ← get; mret (mNominationProtocol s).
Definition modNom (f : NominationProtocol -> NominationProtocol) : M Slot unit :=
  modify (fun s => Set_.nom s (f (mNominationProtocol s))).
Definition notify (c : Z -> DriverCall) : M Slot unit :=
  modify (fun s => Set_.calls s (mDriverCalls s ++ [c (mSlotIndex s)])).

(** [dbgAssert(e)] aborts in a debug build and is a no-op otherwise. *)
Definition dbgAssert (env : ScpEnv) (e : bool) : M Slot unit :=
  if debugBuild env && negb e then throw Aborted else mret tt.
