(* ===== verification/BallotOrder.v ===== *)
(** * Orders on ballots and statements ([scp/BallotProtocol.cpp])

    The static comparison helpers of [BallotProtocol] and the total order
    on the statements of one node. *)

From S2P Require Import Prelude OrdContainers QuorumSet ScpTypes.

Definition compareBallots (b1 b2 : SCPBallot) : Z :=
  if counter b1 <? counter b2 then -1
  else if counter b2 <? counter b1 then 1
  else if ltb (value b1) (value b2) then -1
  else if ltb (value b2) (value b1) then 1
  else 0.

(** The overload on pointers: a null ballot is below every ballot. *)
Definition compareBallotPtrs (b1 b2 : option SCPBallot) : Z :=
  match b1, b2 with
  | Some x, Some y => compareBallots x y
  | Some _, None => 1
  | None, Some _ => -1
  | None, None => 0
  end.

Definition areBallotsCompatible (b1 b2 : SCPBallot) : bool :=
  bool_decide (value b1 = value b2).

Definition areBallotsLessAndIncompatible (b1 b2 : SCPBallot) : bool :=
  (compareBallots b1 b2 <=? 0) && negb (areBallotsCompatible b1 b2).

Definition areBallotsLessAndCompatible (b1 b2 : SCPBallot) : bool :=
  (compareBallots b1 b2 <=? 0) && areBallotsCompatible b1 b2.

(** The order of the enumerators of [SCPStatementType] (PREPARE < CONFIRM < EXTERNALIZE). *)
Definition statementType (p : SCPPledges) : Z :=
  match p with PREPARE _ => 0 | CONFIRM _ => 1 | EXTERNALIZE _ => 2 | NOMINATE _ => 3 end.

(** [isNewerStatement(oldst, st)]. Both arguments are ballot statements. *)
Definition isNewerPledges (old new : SCPPledges) : bool :=
  if negb (statementType old =? statementType new) then statementType old <? statementType new
  else match old, new with
  | CONFIRM oldC, CONFIRM c =>
      let compBallot := compareBallots (c_ballot oldC) (c_ballot c) in
      if compBallot <? 0 then true
      else if compBallot =? 0 then
        if c_nPrepared oldC =? c_nPrepared c then c_nH oldC <? c_nH c
        else c_nPrepared oldC <? c_nPrepared c
      else false
  | PREPARE oldPrep, PREPARE prep =>
      let compBallot := compareBallots (p_ballot oldPrep) (p_ballot prep) in
      if compBallot <? 0 then true
      else if compBallot =? 0 then
        let compBallot := compareBallotPtrs (p_prepared oldPrep) (p_prepared prep) in
        if compBallot <? 0 then true
        else if compBallot =? 0 then
          let compBallot := compareBallotPtrs (p_preparedPrime oldPrep) (p_preparedPrime prep) in
          if compBallot <? 0 then true
          else if compBallot =? 0 then p_nH oldPrep <? p_nH prep
          else false
        else false
      else false
  | _, _ => false
  end.

Definition isNewerStatement (oldst st : SCPStatement) : bool :=
  isNewerPledges (pledges oldst) (pledges st).

(** ** Facts *)

Section Compare.
Implicit Types b : SCPBallot.

(** [compareBallots] is the three-way form of the container order. *)
Lemma compareBallots_spec b1 b2 :
  (compareBallots b1 b2 = -1 /\ ltb b1 b2 = true) \/
  (compareBallots b1 b2 = 0 /\ b1 = b2) \/
  (compareBallots b1 b2 = 1 /\ ltb b2 b1 = true).
Proof.
  destruct b1 as [n1 v1], b2 as [n2 v2]. change (@ltb SCPBallot _) with ballot_ltb.
  unfold compareBallots, ballot_ltb; cbn [counter value].
  destruct (Z.ltb_spec n1 n2), (Z.ltb_spec n2 n1); auto; try lia.
  destruct (ltb_cases v1 v2) as [[Hlt| ->]|Hlt]; rewrite ?Hlt, ?(ltb_asym _ _ Hlt), ?ltb_irrefl; auto.
  right; left. split; [done|]. f_equal; lia.
Qed.

Lemma compareBallots_lt b1 b2 : compareBallots b1 b2 < 0 <-> ltb b1 b2 = true.
Proof.
  destruct (compareBallots_spec b1 b2) as [[-> H]|[[-> ->]|[-> H]]].
  - split; [done|lia].
  - rewrite ltb_irrefl. split; [lia|done].
  - rewrite (ltb_asym _ _ H). split; [lia|done].
Qed.

Lemma compareBallots_eq b1 b2 : compareBallots b1 b2 = 0 <-> b1 = b2.
Proof.
  destruct (compareBallots_spec b1 b2) as [[-> H]|[[-> ->]|[-> H]]].
  - apply ltb_neq in H. split; [lia|done].
  - done.
  - apply ltb_neq in H. split; [lia|congruence].
Qed.

Lemma compareBallots_gt b1 b2 : compareBallots b1 b2 > 0 <-> ltb b2 b1 = true.
Proof.
  destruct (compareBallots_spec b1 b2) as [[-> H]|[[-> ->]|[-> H]]].
  - rewrite (ltb_asym _ _ H). split; [lia|done].
  - rewrite ltb_irrefl. split; [lia|done].
  - split; [done|lia].
Qed.

Lemma compareBallots_le b1 b2 : compareBallots b1 b2 <= 0 <-> ltb b2 b1 = false.
Proof.
  destruct (compareBallots_spec b1 b2) as [[-> H]|[[-> ->]|[-> H]]].
  - rewrite (ltb_asym _ _ H). split; [done|lia].
  - rewrite ltb_irrefl. split; [done|lia].
  - rewrite H. split; [lia|done].
Qed.

Lemma compareBallots_refl b : compareBallots b b = 0.
Proof. by apply compareBallots_eq. Qed.

(** [b1 <= b2] on ballots. *)
Definition ballot_le b1 b2 : Prop := compareBallots b1 b2 <= 0.

Global Instance ballot_le_preorder : PreOrder ballot_le.
Proof.
  split.
  - intros b. unfold ballot_le. rewrite compareBallots_refl. lia.
  - intros b1 b2 b3. unfold ballot_le. rewrite !compareBallots_le. intros H12 H23.
    destruct (ltb b3 b1) eqn:E; [|done].
    by rewrite (leb_ltb_trans b2 b3 b1 H23 E) in H12.
Qed.

Lemma ballot_le_antisym b1 b2 : ballot_le b1 b2 -> ballot_le b2 b1 -> b1 = b2.
Proof. unfold ballot_le. rewrite !compareBallots_le. intros; by apply ltb_total. Qed.

Lemma ballot_le_counter b1 b2 : ballot_le b1 b2 -> counter b1 <= counter b2.
Proof.
  unfold ballot_le, compareBallots.
  destruct (Z.ltb_spec (counter b1) (counter b2)), (Z.ltb_spec (counter b2) (counter b1)); lia.
Qed.

Lemma compatible_true b1 b2 : areBallotsCompatible b1 b2 = true <-> value b1 = value b2.
Proof. unfold areBallotsCompatible. apply bool_decide_eq_true. Qed.

Lemma lessAndCompatible_true b1 b2 :
  areBallotsLessAndCompatible b1 b2 = true <-> ballot_le b1 b2 /\ value b1 = value b2.
Proof.
  unfold areBallotsLessAndCompatible, ballot_le.
  by rewrite andb_true_iff, compatible_true, Z.leb_le.
Qed.

Lemma lessAndIncompatible_true b1 b2 :
  areBallotsLessAndIncompatible b1 b2 = true <-> ballot_le b1 b2 /\ value b1 <> value b2.
Proof.
  unfold areBallotsLessAndIncompatible, ballot_le.
  by rewrite andb_true_iff, negb_true_iff, Z.leb_le, <- not_true_iff_false, compatible_true.
Qed.

(** On compatible ballots the order is that of the counters. *)
Lemma compatible_le_counter b1 b2 : value b1 = value b2 ->
  ballot_le b1 b2 <-> counter b1 <= counter b2.
Proof.
  intros Hv. split; [apply ballot_le_counter|]. unfold ballot_le, compareBallots.
  intros Hc. rewrite Hv, !ltb_irrefl.
  destruct (Z.ltb_spec (counter b1) (counter b2)), (Z.ltb_spec (counter b2) (counter b1)); lia.
Qed.

End Compare.

(** *** The statement order

    A statement is compared through its key: the type, then the fields in
    the order (b, p, p', h), with an absent ballot below every ballot. *)

Definition optBallot_ltb (o1 o2 : option SCPBallot) : bool :=
  match o1, o2 with
  | Some b1, Some b2 => ltb b1 b2
  | None, Some _ => true
  | _, None => false
  end.

Global Program Instance optBallot_Ord : Ord (option SCPBallot) := { ltb := optBallot_ltb }.
Next Obligation. intros [b|]; [exact (ltb_irrefl b)|done]. Qed.
Next Obligation. intros [a|] [b|] [c|]; try done. exact (ltb_trans a b c). Qed.
Next Obligation.
  intros [a|] [b|]; try done. intros H1 H2. f_equal. exact (ltb_total a b H1 H2).
Qed.

Definition pair_ltb `{Ord A, Ord B} (x y : A * B) : bool :=
  if ltb x.1 y.1 then true else if ltb y.1 x.1 then false else ltb x.2 y.2.

Global Program Instance pair_Ord `{Ord A, Ord B} : Ord (A * B) := { ltb := pair_ltb }.
Next Obligation. intros A ? B ? [a b]; unfold pair_ltb; cbn [fst snd]. by rewrite !ltb_irrefl. Qed.
Next Obligation.
  intros A ? B ? [a1 b1] [a2 b2] [a3 b3]; unfold pair_ltb; cbn [fst snd].
  destruct (ltb_cases a1 a2) as [[H12| ->]|H12], (ltb_cases a2 a3) as [[H23| ->]|H23];
    rewrite ?H12, ?H23, ?(ltb_asym _ _ H12), ?(ltb_asym _ _ H23), ?ltb_irrefl; try done.
  - by rewrite (ltb_trans _ _ _ H12 H23).
  - apply ltb_trans.
Qed.
Next Obligation.
  intros A ? B ? [a1 b1] [a2 b2]; unfold pair_ltb; cbn [fst snd].
  destruct (ltb_cases a1 a2) as [[H12| ->]|H12]; rewrite ?H12, ?(ltb_asym _ _ H12), ?ltb_irrefl;
    try done. intros. f_equal. by apply ltb_total.
Qed.

Definition statementKey (p : SCPPledges) :
    Z * (option SCPBallot * (option SCPBallot * (option SCPBallot * Z))) :=
  match p with
  | PREPARE p => (0, (Some (p_ballot p), (p_prepared p, (p_preparedPrime p, p_nH p))))
  | CONFIRM c => (1, (Some (c_ballot c), (Some (Ballot (c_nPrepared c) []), (None, c_nH c))))
  | EXTERNALIZE _ => (2, (None, (None, (None, 0))))
  | NOMINATE _ => (3, (None, (None, (None, 0))))
  end.

Lemma compareBallotPtrs_spec o1 o2 :
  (compareBallotPtrs o1 o2 = -1 /\ ltb o1 o2 = true) \/
  (compareBallotPtrs o1 o2 = 0 /\ o1 = o2) \/
  (compareBallotPtrs o1 o2 = 1 /\ ltb o2 o1 = true).
Proof.
  destruct o1 as [b1|], o2 as [b2|]; simpl; auto.
  destruct (compareBallots_spec b1 b2) as [[-> H]|[[-> ->]|[-> H]]]; auto.
Qed.

Lemma pair_ltb_fst `{Ord A, Ord B} (a : A) (b1 b2 : B) : ltb (a, b1) (a, b2) = ltb b1 b2.
Proof. cbn [ltb pair_Ord]. unfold pair_ltb; cbn [fst snd]. by rewrite !ltb_irrefl. Qed.

Lemma pair_ltb_cases `{Ord A, Ord B} (a1 a2 : A) (b1 b2 : B) :
  ltb (a1, b1) (a2, b2) = if ltb a1 a2 then true else if ltb a2 a1 then false else ltb b1 b2.
Proof. reflexivity. Qed.

(** [isNewerPledges] is the strict order of the keys. *)
Lemma isNewerPledges_key old new :
  isNewerPledges old new = ltb (statementKey old) (statementKey new).
Proof.
  unfold isNewerPledges. destruct old as [p1|c1|e1|n1], new as [p2|c2|e2|n2];
    try reflexivity; cbn [statementKey statementType]; rewrite Z.eqb_refl, pair_ltb_fst; cbn [negb];
    cbv zeta.
  - rewrite pair_ltb_cases.
    change (ltb (Some (p_ballot p1)) (Some (p_ballot p2))) with (ltb (p_ballot p1) (p_ballot p2)).
    change (ltb (Some (p_ballot p2)) (Some (p_ballot p1))) with (ltb (p_ballot p2) (p_ballot p1)).
    destruct (compareBallots_spec (p_ballot p1) (p_ballot p2)) as [[-> H]|[[-> Hb]|[-> H]]];
      [by rewrite H| |by rewrite H, (ltb_asym _ _ H)].
    rewrite <- Hb, ltb_irrefl, pair_ltb_cases. cbn [Z.ltb Z.compare Z.eqb].
    destruct (compareBallotPtrs_spec (p_prepared p1) (p_prepared p2)) as [[-> H]|[[-> Hp]|[-> H]]];
      [by rewrite H| |by rewrite H, (ltb_asym _ _ H)].
    rewrite <- Hp, ltb_irrefl, pair_ltb_cases. cbn [Z.ltb Z.compare Z.eqb].
    destruct (compareBallotPtrs_spec (p_preparedPrime p1) (p_preparedPrime p2))
      as [[-> H]|[[-> Hq]|[-> H]]]; [by rewrite H| |by rewrite H, (ltb_asym _ _ H)].
    by rewrite <- Hq, ltb_irrefl.
  - rewrite pair_ltb_cases.
    change (ltb (Some (c_ballot c1)) (Some (c_ballot c2))) with (ltb (c_ballot c1) (c_ballot c2)).
    change (ltb (Some (c_ballot c2)) (Some (c_ballot c1))) with (ltb (c_ballot c2) (c_ballot c1)).
    destruct (compareBallots_spec (c_ballot c1) (c_ballot c2)) as [[-> H]|[[-> Hb]|[-> H]]];
      [by rewrite H| |by rewrite H, (ltb_asym _ _ H)].
    rewrite <- Hb, ltb_irrefl, pair_ltb_cases, pair_ltb_fst. cbn [Z.ltb Z.compare Z.eqb].
    change (ltb (Some (Ballot (c_nPrepared c1) [])) (Some (Ballot (c_nPrepared c2) [])))
      with (ballot_ltb (Ballot (c_nPrepared c1) []) (Ballot (c_nPrepared c2) [])).
    change (ltb (Some (Ballot (c_nPrepared c2) [])) (Some (Ballot (c_nPrepared c1) [])))
      with (ballot_ltb (Ballot (c_nPrepared c2) []) (Ballot (c_nPrepared c1) [])).
    unfold ballot_ltb; cbn [counter value]. rewrite !ltb_irrefl.
    change (ltb (c_nH c1) (c_nH c2)) with (c_nH c1 <? c_nH c2).
    destruct (Z.eqb_spec (c_nPrepared c1) (c_nPrepared c2)) as [E|E].
    + by rewrite <- E, Z.ltb_irrefl.
    + destruct (Z.ltb_spec (c_nPrepared c1) (c_nPrepared c2)),
        (Z.ltb_spec (c_nPrepared c2) (c_nPrepared c1)); done || lia.
Qed.

Lemma isNewerPledges_irrefl p : isNewerPledges p p = false.
Proof. rewrite isNewerPledges_key. apply ltb_irrefl. Qed.

Lemma isNewerPledges_trans p1 p2 p3 :
  isNewerPledges p1 p2 = true -> isNewerPledges p2 p3 = true -> isNewerPledges p1 p3 = true.
Proof. rewrite !isNewerPledges_key. apply ltb_trans. Qed.

Lemma isNewerPledges_asym p1 p2 : isNewerPledges p1 p2 = true -> isNewerPledges p2 p1 = false.
Proof. rewrite !isNewerPledges_key. apply ltb_asym. Qed.

(** Statements not ordered either way agree on everything the order looks at. *)
Lemma isNewerPledges_total p1 p2 :
  isNewerPledges p1 p2 = false -> isNewerPledges p2 p1 = false -> statementKey p1 = statementKey p2.
Proof. rewrite !isNewerPledges_key. apply ltb_total. Qed.
