(* ===== verification/Federated.v ===== *)
(** * Federated voting ([scp/LocalNode.cpp], [scp/Slot.cpp])

    The tests of [LocalNode] over a map of envelopes ([isVBlocking],
    [isQuorum]), the quorum set a statement stands for, and the two
    federated-agreement tests of [Slot].  A quorum set that the driver does
    not know is a null pointer: the functions that dereference it return
    [None]. *)

From S2P Require Import Prelude OrdContainers QuorumSet QuorumFacts ScpTypes.
Import LocalNode.

Abbreviation EnvelopeMap := (list (NodeID * SCPEnvelope)) (only parsing).
Abbreviation StatementPredicate := (SCPStatement -> bool) (only parsing).

(** The nodes whose statement passes the filter, in the order of the map. *)
Definition filterNodes (map : EnvelopeMap) (filter : StatementPredicate) : list NodeID :=
  (List.filter (fun it => filter (statement it.2)) map).*1.

Definition isVBlockingMap (qSet : SCPQuorumSet) (map : EnvelopeMap)
    (filter : StatementPredicate) : bool :=
  isVBlocking qSet (filterNodes map filter).

Definition findClosestVBlockingMap (qset : SCPQuorumSet) (map : EnvelopeMap)
    (filter : StatementPredicate) (excluded : option NodeID) : list NodeID :=
  findClosestVBlocking (os_of_list (filterNodes map filter)) excluded qset.

Section IsQuorum.
Context (qfun : SCPStatement -> option SCPQuorumSet) (map : EnvelopeMap).

(** [quorumFilter]: dereferences [map.find(nodeID)] and the quorum set. *)
Definition quorumFilter (pNodes : list NodeID) (n : NodeID) : option bool :=
  e ← om_find n map;
  q ← qfun (statement e);
  Some (isQuorumSlice q pNodes).

(** [std::copy_if] with a test that may fail. *)
Fixpoint copy_if (f : NodeID -> option bool) (l : list NodeID) : option (list NodeID) :=
  match l with
  | [] => Some []
  | n :: r =>
      match f n, copy_if f r with
      | Some true, Some r' => Some (n :: r')
      | Some false, Some r' => Some r'
      | _, _ => None
      end
  end.

(** The [do]/[while] loop, with fuel; [None] also when the fuel runs out. *)
Fixpoint quorumLoop (fuel : nat) (pNodes : list NodeID) : option (list NodeID) :=
  match fuel with
  | O => None
  | S fuel =>
      match copy_if (quorumFilter pNodes) pNodes with
      | None => None
      | Some fNodes =>
          if bool_decide (length pNodes = length fNodes) then Some fNodes
          else quorumLoop fuel fNodes
      end
  end.

(** Each iteration but the last removes a node, so one more iteration than
    there are nodes is enough. *)
Definition isQuorum (qSet : SCPQuorumSet) (filter : StatementPredicate) : option bool :=
  let pNodes := filterNodes map filter in
  nodes ← quorumLoop (S (length pNodes)) pNodes;
  Some (isQuorumSlice qSet nodes).

End IsQuorum.

(** ** The quorum set of a statement ([Slot]) *)

Definition getCompanionQuorumSetHashFromStatement (st : SCPStatement) : Hash :=
  match pledges st with
  | PREPARE p => p_quorumSetHash p
  | CONFIRM c => c_quorumSetHash c
  | EXTERNALIZE e => e_commitQuorumSetHash e
  | NOMINATE n => n_quorumSetHash n
  end.

Definition getQuorumSetFromStatement (env : ScpEnv) (st : SCPStatement) : option SCPQuorumSet :=
  match pledges st with
  | EXTERNALIZE _ => Some (buildSingletonQSet (nodeID st))
  | PREPARE p => getQSet (driver env) (p_quorumSetHash p)
  | CONFIRM c => getQSet (driver env) (c_quorumSetHash c)
  | NOMINATE n => getQSet (driver env) (n_quorumSetHash n)
  end.

Definition federatedAccept (env : ScpEnv) (voted accepted : StatementPredicate)
    (envs : EnvelopeMap) : option bool :=
  if isVBlockingMap (mQSet (localNode env)) envs accepted then Some true else
  isQuorum (getQuorumSetFromStatement env) envs (mQSet (localNode env))
    (fun st => accepted st || voted st).

Definition federatedRatify (env : ScpEnv) (voted : StatementPredicate)
    (envs : EnvelopeMap) : option bool :=
  isQuorum (getQuorumSetFromStatement env) envs (mQSet (localNode env)) voted.

(** ** Transitive quorum membership ([LocalNode::isNodeInQuorum])

    [backlog] and [visited] are unordered sets: the element taken from the
    backlog is unspecified in C++ ("the order is not important"); the model
    takes the first. *)

Section NodeInQuorum.
Context (qfun : SCPStatement -> option SCPQuorumSet).
Context (map : list (NodeID * list SCPStatement)).

(** The body of the loop over the statements of one node. *)
Fixpoint exploreStatements (sts : list SCPStatement) (visited backlog : list NodeID)
    (res : TriBool) : list NodeID * TriBool :=
  match sts with
  | [] => (backlog, res)
  | st :: r =>
      match qfun st with
      | None => exploreStatements r visited backlog TB_MAYBE
      | Some qset =>
          let backlog' := fold_left (fun bl n => if os_mem n visited then bl else os_insert n bl)
                            (forAllNodes qset) backlog in
          exploreStatements r visited backlog' res
      end
  end.

Fixpoint nodeInQuorumLoop (fuel : nat) (node : NodeID) (backlog visited : list NodeID)
    (res : TriBool) : option TriBool :=
  match fuel with
  | O => None
  | S fuel =>
      match backlog with
      | [] => Some res
      | c :: backlog' =>
          if c =? node then Some TB_TRUE else
          let visited' := os_insert c visited in
          match om_find c map with
          | None => nodeInQuorumLoop fuel node backlog' visited' TB_MAYBE
          | Some sts =>
              let '(backlog'', res') := exploreStatements sts visited' backlog' res in
              nodeInQuorumLoop fuel node backlog'' visited' res'
          end
      end
  end.

(** Every iteration but the last visits a new node among the local node
    and the nodes named by the known quorum sets. *)
Definition namedNodes : list NodeID :=
  concat (List.map (fun p : NodeID * list SCPStatement =>
    concat (List.map (fun st => match qfun st with Some q => forAllNodesInternal q | None => [] end)
              p.2)) map).

Definition isNodeInQuorum (self node : NodeID) : option TriBool :=
  nodeInQuorumLoop (S (S (length namedNodes))) node [self] [] TB_FALSE.

End NodeInQuorum.
