(* ===== verification/FederatedFacts.v ===== *)
(** * Federated voting computes quorums

    The loop of [LocalNode::isQuorum] terminates and computes the largest
    set of filtered nodes in which every node has a slice; hence the test
    succeeds exactly when some such set satisfies the local quorum set.
    Federated acceptance and ratification are monotone in the statements. *)

From S2P Require Import Prelude OrdContainers QuorumSet QuorumFacts ScpTypes Federated.

Import LocalNode.

Section Quorum.
Context (qfun : SCPStatement -> option SCPQuorumSet) (map : EnvelopeMap).
Implicit Types (U P : list NodeID) (n : NodeID).

(** The quorum set of a node, as declared by its recorded statement. *)
Definition nodeQSet n : option SCPQuorumSet :=
  match om_find n map with Some e => qfun (statement e) | None => None end.

(** [U] contains a slice of each of its members. *)
Definition closed_set U : Prop :=
  forall n, n ∈ U -> exists q, nodeQSet n = Some q /\ isQuorumSlice q U = true.

(** [U] is a quorum made of nodes of [P] for the holder of [qSet]. *)
Definition quorum_within (qSet : SCPQuorumSet) P : Prop :=
  exists U, (forall n, n ∈ U -> n ∈ P) /\ closed_set U /\ isQuorumSlice qSet U = true.

(** Every quorum set the loop looks at is known and well formed. *)
Definition qsets_known P : Prop :=
  forall n, n ∈ P -> exists q, nodeQSet n = Some q /\ qset_wf q.

Definition sliceIn U n : bool :=
  match nodeQSet n with Some q => isQuorumSlice q U | None => false end.

Lemma quorumFilter_total U n : is_Some (nodeQSet n) ->
  quorumFilter qfun map U n = Some (sliceIn U n).
Proof.
  unfold quorumFilter, sliceIn, nodeQSet. destruct (om_find n map) as [e|]; cbn; [|by intros []].
  by intros [q ->].
Qed.

Lemma copy_if_total (f : NodeID -> option bool) (g : NodeID -> bool) l :
  (forall n, n ∈ l -> f n = Some (g n)) -> copy_if f l = Some (List.filter g l).
Proof.
  induction l as [|n l IH]; intros Hf; simpl; [done|].
  rewrite Hf, IH by set_solver. by destruct (g n).
Qed.

Lemma filter_length_eq {A} (g : A -> bool) l :
  length l = length (List.filter g l) -> List.filter g l = l /\ (forall x, x ∈ l -> g x = true).
Proof.
  induction l as [|x l IH]; simpl; [set_solver|].
  pose proof (List.filter_length_le g l) as Hle.
  destruct (g x) eqn:E; simpl; [|lia]. intros H. destruct IH as [IH1 IH2]; [lia|].
  rewrite IH1. set_solver.
Qed.

Lemma elem_of_filter_bool {A} (g : A -> bool) l x : x ∈ List.filter g l <-> x ∈ l /\ g x = true.
Proof. by rewrite !list_elem_of_In, filter_In. Qed.

(** The loop returns a closed set that contains every closed subset of
    where it started. *)
Lemma quorumLoop_spec fuel P : qsets_known P -> (length P < fuel)%nat ->
  exists U, quorumLoop qfun map fuel P = Some U /\ (forall n, n ∈ U -> n ∈ P) /\
    closed_set U /\
    (forall U', (forall n, n ∈ U' -> n ∈ P) -> closed_set U' -> forall n, n ∈ U' -> n ∈ U).
Proof.
  revert P; induction fuel as [|fuel IH]; intros P HP Hlen; [lia|]. cbn [quorumLoop].
  rewrite (copy_if_total _ (sliceIn P)).
  2: { intros n Hn. apply quorumFilter_total. destruct (HP n Hn) as (q & -> & _). eauto. }
  pose proof (List.filter_length_le (sliceIn P) P) as Hle.
  case_bool_decide as E.
  - destruct (filter_length_eq _ _ E) as [Hf Hall]. rewrite Hf.
    exists P. split_and!; [done|done| |done]. intros n Hn.
    destruct (HP n Hn) as (q & Hq & _). exists q. split; [done|].
    specialize (Hall n Hn). unfold sliceIn in Hall. by rewrite Hq in Hall.
  - destruct (IH (List.filter (sliceIn P) P)) as (U & HU & Hsub & Hcl & Hmax).
    { intros n Hn. apply elem_of_filter_bool in Hn as [Hn _]. auto. }
    { lia. }
    exists U. split_and!; [done| |done|].
    + intros n Hn. by apply Hsub, elem_of_filter_bool in Hn as [? _].
    + intros U' HU' Hc'. apply Hmax; [|done]. intros n Hn.
      apply elem_of_filter_bool. split; [auto|].
      destruct (Hc' n Hn) as (q & Hq & Hs). unfold sliceIn. rewrite Hq.
      destruct (HP n (HU' n Hn)) as (q' & Hq' & Hwf). rewrite Hq in Hq'. injection Hq' as <-.
      by apply (isQuorumSlice_mono q U').
Qed.

Lemma isQuorum_correct qSet filter :
  qset_wf qSet -> qsets_known (filterNodes map filter) ->
  exists b, isQuorum qfun map qSet filter = Some b /\
    (b = true <-> quorum_within qSet (filterNodes map filter)).
Proof.
  intros Hwf Hk. unfold isQuorum.
  destruct (quorumLoop_spec (S (length (filterNodes map filter))) _ Hk) as (U & HU & Hs & Hc & Hm);
    [lia|].
  rewrite HU. eexists. split; [done|]. split.
  - intros Hq. by exists U.
  - intros (U' & Hs' & Hc' & Hq'). apply (isQuorumSlice_mono qSet U'); eauto.
Qed.

Lemma quorum_within_mono qSet P P' :
  (forall n, n ∈ P -> n ∈ P') -> quorum_within qSet P -> quorum_within qSet P'.
Proof. intros HP (U & Hs & Hc & Hq). exists U. naive_solver. Qed.

End Quorum.

Lemma elem_of_filterNodes map filter n : om_sorted map ->
  n ∈ filterNodes map filter <-> exists e, om_find n map = Some e /\ filter (statement e) = true.
Proof.
  intros Hm. unfold filterNodes. rewrite list_elem_of_fmap. split.
  - intros ([n' e] & -> & Hin). apply elem_of_filter_bool in Hin as [Hin Hf].
    exists e. split; [|done]. by apply elem_om_find.
  - intros (e & He & Hf). exists (n, e). split; [done|]. apply elem_of_filter_bool.
    split; [|done]. by apply om_find_elem.
Qed.

Lemma filterNodes_mono map (f g : StatementPredicate) n :
  (forall st, f st = true -> g st = true) -> n ∈ filterNodes map f -> n ∈ filterNodes map g.
Proof.
  intros Hfg. unfold filterNodes. rewrite !list_elem_of_fmap. intros (p & -> & Hp).
  exists p. split; [done|]. apply elem_of_filter_bool in Hp as [Hp Hf].
  apply elem_of_filter_bool. auto.
Qed.

Lemma isVBlocking_mono q S S' : (forall n, n ∈ S -> n ∈ S') ->
  isVBlocking q S = true -> isVBlocking q S' = true.
Proof.
  intros HS. induction q as [t v i IH] using qset_ind. rewrite !isVBlocking_count.
  destruct (t =? 0); [done|]. rewrite !Z.leb_le. intros H.
  assert (count (contains S) v <= count (contains S') v).
  { apply count_mono. intros x _. rewrite !contains_true. auto. }
  assert (count (fun q => isVBlocking q S) i <= count (fun q => isVBlocking q S') i).
  { apply count_mono. intros q Hq. rewrite Forall_forall in IH. auto. }
  lia.
Qed.

(** What [federatedAccept] decides: a v-blocking set accepted, or a quorum
    voted or accepted. *)
Definition accept_condition (env : ScpEnv) (voted accepted : StatementPredicate) envs : Prop :=
  isVBlocking (mQSet (localNode env)) (filterNodes envs accepted) = true \/
  quorum_within (getQuorumSetFromStatement env) envs (mQSet (localNode env))
    (filterNodes envs (fun st => accepted st || voted st)).

(** The quorum sets of all recorded statements are known. *)
Definition all_qsets_known (env : ScpEnv) (envs : EnvelopeMap) : Prop :=
  qset_wf (mQSet (localNode env)) /\
  qsets_known (getQuorumSetFromStatement env) envs (envs.*1).

Lemma qsets_known_sub qfun map P P' :
  (forall n, n ∈ P' -> n ∈ P) -> qsets_known qfun map P -> qsets_known qfun map P'.
Proof. intros HP Hk n Hn. auto. Qed.

Lemma filterNodes_keys map f n : n ∈ filterNodes map f -> n ∈ map.*1.
Proof.
  unfold filterNodes. rewrite !list_elem_of_fmap. intros (p & -> & Hp).
  apply elem_of_filter_bool in Hp as [Hp _]. eauto.
Qed.

Lemma federatedAccept_correct env voted accepted envs : all_qsets_known env envs ->
  exists b, federatedAccept env voted accepted envs = Some b /\
    (b = true <-> accept_condition env voted accepted envs).
Proof.
  intros [Hwf Hk]. unfold federatedAccept, accept_condition, isVBlockingMap.
  destruct (isVBlocking _ _) eqn:E; [exists true; tauto|].
  destruct (isQuorum_correct (getQuorumSetFromStatement env) envs (mQSet (localNode env))
    (fun st => accepted st || voted st)) as (b & Hb & Hiff); [done| |].
  { eapply qsets_known_sub; [|exact Hk]. intros n. apply filterNodes_keys. }
  exists b. split; [done|]. rewrite Hiff. naive_solver.
Qed.

Lemma federatedRatify_correct env voted envs : all_qsets_known env envs ->
  exists b, federatedRatify env voted envs = Some b /\
    (b = true <-> quorum_within (getQuorumSetFromStatement env) envs (mQSet (localNode env))
                    (filterNodes envs voted)).
Proof.
  intros [Hwf Hk]. unfold federatedRatify. apply isQuorum_correct; [done|].
  eapply qsets_known_sub; [|exact Hk]. intros n. apply filterNodes_keys.
Qed.

(** * Transitive quorum membership

    [LocalNode::isNodeInQuorum] is a graph search: the nodes are those named
    by the quorum sets of the known statements, starting at the local
    node. *)

Import LocalNode.

Lemma firstVisits_sub l : forall seen n, n ∈ firstVisits seen l -> n ∈ l.
Proof.
  induction l as [|x l IH]; intros seen n; cbn; [done|].
  rewrite elem_of_cons. case_ifs; rewrite ?elem_of_cons; intros H; break; eauto.
Qed.

Lemma forAllNodes_sub q n : n ∈ forAllNodes q -> n ∈ forAllNodesInternal q.
Proof. apply firstVisits_sub. Qed.

Section Search.
Context (qfun : SCPStatement -> option SCPQuorumSet).
Context (map : list (NodeID * list SCPStatement)).

(** A known statement of [c] names [n] in its quorum set. *)
Definition names (c n : NodeID) : Prop :=
  exists sts st q, om_find c map = Some sts /\ st ∈ sts /\ qfun st = Some q /\
    n ∈ forAllNodes q.

(** [n] is in the transitive quorum of [self]. *)
Definition inQuorum (self n : NodeID) : Prop := rtc names self n.

(** Something is missing to explore [c]: its statements or a quorum set. *)
Definition unexplored (c : NodeID) : Prop :=
  match om_find c map with
  | None => True
  | Some sts => exists st, st ∈ sts /\ qfun st = None
  end.

(** *** One node *)

Definition named (sts : list SCPStatement) (n : NodeID) : Prop :=
  exists st q, st ∈ sts /\ qfun st = Some q /\ n ∈ forAllNodes q.

Lemma fold_backlog (visited l : list NodeID) : forall bl n,
  n ∈ fold_left (fun bl n => if os_mem n visited then bl else os_insert n bl) l bl <->
  n ∈ bl \/ (n ∈ l /\ n ∉ visited).
Proof.
  induction l as [|x l IH]; intros bl n; cbn [fold_left]; [set_solver|].
  rewrite IH. destruct (os_mem x visited) eqn:E.
  - apply os_mem_elem in E. set_solver.
  - apply os_mem_false in E. rewrite elem_of_os_insert. set_solver.
Qed.

Lemma fold_backlog_sorted (visited l : list NodeID) : forall bl, os_sorted bl ->
  os_sorted (fold_left (fun bl n => if os_mem n visited then bl else os_insert n bl) l bl).
Proof.
  induction l as [|x l IH]; intros bl Hb; cbn [fold_left]; [done|].
  apply IH. destruct (os_mem x visited); [done|by apply os_insert_sorted].
Qed.

Lemma exploreStatements_spec sts visited : forall backlog res backlog' res',
  exploreStatements qfun sts visited backlog res = (backlog', res') -> os_sorted backlog ->
  os_sorted backlog' /\
  (forall n, n ∈ backlog' <-> n ∈ backlog \/ (named sts n /\ n ∉ visited)) /\
  ((exists st, st ∈ sts /\ qfun st = None) /\ res' = TB_MAYBE \/
   (forall st, st ∈ sts -> is_Some (qfun st)) /\ res' = res).
Proof.
  induction sts as [|st sts IH]; intros backlog res backlog' res'; cbn [exploreStatements].
  - intros [= <- <-] Hs. split; [done|]. split.
    + intros n. split; [auto|]. intros [|[(st & q & Hst & _) _]]; [done|by apply elem_of_nil in Hst].
    + right. split; [|done]. intros st Hst. by apply elem_of_nil in Hst.
  - assert (forall n, named (st :: sts) n <->
      (exists q, qfun st = Some q /\ n ∈ forAllNodes q) \/ named sts n) as Hnm.
    { intros n. unfold named. setoid_rewrite elem_of_cons. naive_solver. }
    destruct (qfun st) as [q|] eqn:Hq; intros H Hs.
    + destruct (IH _ _ _ _ H) as (Hs' & Hin & Hres); [by apply fold_backlog_sorted|].
      split; [done|]. split.
      * intros n. rewrite Hin, fold_backlog, Hnm. naive_solver.
      * setoid_rewrite elem_of_cons. destruct Hres as [[(st' & ? & ?) ?]|[Hall ?]]; [left|right].
        -- split; [exists st'; auto|done].
        -- split; [|done]. intros st' [->|]; [by rewrite Hq|auto].
    + destruct (IH _ _ _ _ H Hs) as (Hs' & Hin & Hres). split; [done|]. split.
      * intros n. rewrite Hin, Hnm. naive_solver.
      * left. split; [exists st; split; [left|done]|]. by destruct Hres as [[_ ?]|[_ ?]].
Qed.

(** *** The loop *)
Context (self node : NodeID).

Record searchInv (backlog visited : list NodeID) (res : TriBool) : Prop := {
  si_backlog : os_sorted backlog;
  si_visited : os_sorted visited;
  si_disjoint : forall n, n ∈ backlog -> n ∉ visited;
  si_reach : forall n, n ∈ backlog \/ n ∈ visited -> inQuorum self n;
  si_self : self ∈ backlog \/ self ∈ visited;
  si_closed : forall c n, c ∈ visited -> names c n -> n ∈ backlog \/ n ∈ visited;
  si_node : node ∉ visited;
  si_res : (exists c, c ∈ visited /\ unexplored c) /\ res = TB_MAYBE \/
           (forall c, c ∈ visited -> ~ unexplored c) /\ res = TB_FALSE;
}.

Lemma search_init : searchInv [self] [] TB_FALSE.
Proof.
  constructor; cbn; try done.
  - split; [set_solver|done].
  - intros n _ Hn. by apply elem_of_nil in Hn.
  - intros n. rewrite list_elem_of_singleton, elem_of_nil. intros [->|]; [apply rtc_refl|done].
  - left. left.
  - intros c n Hc. by apply elem_of_nil in Hc.
  - intros Hn. by apply elem_of_nil in Hn.
  - right. split; [|done]. intros c Hc. by apply elem_of_nil in Hc.
Qed.

(** Visiting [c]: its successors join the backlog, the verdict is updated. *)
Lemma search_visit c backlog visited res backlog' res' :
  searchInv (c :: backlog) visited res -> c <> node ->
  os_sorted backlog' ->
  (forall n, n ∈ backlog' <-> n ∈ backlog \/ (names c n /\ n ∉ os_insert c visited)) ->
  (unexplored c /\ res' = TB_MAYBE \/ ~ unexplored c /\ res' = res) ->
  searchInv backlog' (os_insert c visited) res'.
Proof.
  intros [[Hc Hb] Hv Hd Hr Hself Hcl Hn Hres] Hcn Hs' Hin Hun. constructor; try done.
  - by apply os_insert_sorted.
  - intros n Hnb Hnv. apply Hin in Hnb as [Hnb|[_ Hnb]]; [|done].
    apply elem_of_os_insert in Hnv as [->|Hnv]; [by apply Hc, ltb_neq in Hnb|].
    apply (Hd n); [by right|done].
  - intros n. rewrite Hin, (elem_of_os_insert c n visited). intros [[Hnb|[Hcn' _]]|[->|Hnv]].
    + apply Hr. left. by right.
    + eapply rtc_r; [|exact Hcn']. apply Hr. left. left.
    + apply Hr. left. left.
    + apply Hr. by right.
  - rewrite Hin, elem_of_os_insert. destruct Hself as [Hs|Hs]; [|auto].
    apply elem_of_cons in Hs as [->|Hs]; auto.
  - intros c' n Hc' Hnm. rewrite Hin.
    destruct (decide (n ∈ os_insert c visited)) as [Hi|Hi]; [by right|].
    rewrite elem_of_os_insert in Hi. apply elem_of_os_insert in Hc' as [->|Hc'].
    + left. right. split; [done|]. by rewrite elem_of_os_insert.
    + destruct (Hcl c' n Hc' Hnm) as [Hb'|]; [|by destruct Hi; auto].
      apply elem_of_cons in Hb' as [->|]; [by destruct Hi; auto|auto].
  - rewrite elem_of_os_insert. intros [->|]; done.
  - setoid_rewrite elem_of_os_insert. destruct Hun as [[Hu ->]|[Hu ->]]; [left; eauto|].
    destruct Hres as [[(c' & ? & ?) ->]|[Hall ->]]; [left; eauto|right].
    split; [|done]. intros c' [->|Hc']; auto.
Qed.

(** When the backlog is empty everything reachable has been visited. *)
Lemma search_done visited res : searchInv [] visited res ->
  ~ inQuorum self node /\
  (res = TB_FALSE -> forall n, inQuorum self n -> ~ unexplored n) /\
  (res = TB_MAYBE -> exists n, inQuorum self n /\ unexplored n) /\ res <> TB_TRUE.
Proof.
  intros [_ _ _ Hr Hself Hcl Hn Hres].
  assert (forall n, inQuorum self n -> n ∈ visited) as Hall.
  { assert (self ∈ visited) as Hs by (destruct Hself as [H|H]; [by apply elem_of_nil in H|done]).
    apply (rtc_ind_r (fun z => z ∈ visited) self); [done|]. intros y z _ Hyz IH.
    destruct (Hcl y z IH Hyz) as [H|]; [by apply elem_of_nil in H|done]. }
  split; [by intros H; apply Hn, Hall|].
  destruct Hres as [[(c & Hc & Hu) ->]|[Hk ->]].
  - split; [done|]. split; [|done]. intros _. exists c. split; [|done]. apply Hr. by right.
  - split; [|done]. intros _ n Hin. by apply Hk, Hall.
Qed.

(** What the three answers mean. *)
Definition quorumAnswer (r : TriBool) : Prop :=
  match r with
  | TB_TRUE => inQuorum self node
  | TB_FALSE => ~ inQuorum self node /\ forall n, inQuorum self n -> ~ unexplored n
  | TB_MAYBE => ~ inQuorum self node /\ exists n, inQuorum self n /\ unexplored n
  end.

Lemma names_named c n : names c n -> n ∈ namedNodes qfun map.
Proof.
  intros (sts & st & q & Hf & Hst & Hq & Hn). unfold namedNodes.
  apply list_elem_of_In, in_concat. exists (concat (List.map (fun st =>
    match qfun st with Some q => forAllNodesInternal q | None => [] end) sts)). split.
  - apply in_map_iff. exists (c, sts). split; [done|]. apply list_elem_of_In. by apply om_find_elem.
  - apply in_concat. exists (forAllNodesInternal q). split.
    + apply in_map_iff. exists st. rewrite Hq. split; [done|by apply list_elem_of_In].
    + apply list_elem_of_In. by apply forAllNodes_sub.
Qed.

Lemma inQuorum_named n : inQuorum self n -> n ∈ self :: namedNodes qfun map.
Proof.
  intros Hn. destruct (rtc_inv_r _ _ Hn) as [->|(y & _ & Hy)]; [left|right].
  by eapply names_named.
Qed.

Lemma nodeInQuorumLoop_spec fuel : forall backlog visited res,
  searchInv backlog visited res ->
  (length (namedNodes qfun map) + 2 <= fuel + length visited)%nat ->
  exists r, nodeInQuorumLoop qfun map fuel node backlog visited res = Some r /\ quorumAnswer r.
Proof.
  induction fuel as [|fuel IH]; intros backlog visited res Hinv Hf.
  { exfalso. assert (length visited <= length (self :: namedNodes qfun map))%nat; [|cbn in *; lia].
    apply submseteq_length, NoDup_submseteq; [apply os_sorted_NoDup, Hinv|].
    intros n Hn. apply inQuorum_named, (si_reach _ _ _ Hinv). by right. }
  cbn [nodeInQuorumLoop]. destruct backlog as [|c backlog].
  { exists res. split; [done|]. destruct (search_done _ _ Hinv) as (Hn & H1 & H2 & H3).
    destruct res; cbn; auto. done. }
  destruct (Z.eqb_spec c node) as [Hc|Hc].
  { exists TB_TRUE. split; [done|]. cbn. rewrite <- Hc. apply (si_reach _ _ _ Hinv). left. left. }
  assert (length (os_insert c visited) = S (length visited)) as Hlen.
  { apply length_os_insert; [apply Hinv|]. apply (si_disjoint _ _ _ Hinv). left. }
  assert (os_sorted backlog) as Hb by (destruct (si_backlog _ _ _ Hinv); done).
  destruct (om_find c map) as [sts|] eqn:Hfind.
  - destruct (exploreStatements _ _ _ _ _) as [backlog' res'] eqn:Hex.
    apply exploreStatements_spec in Hex as (Hs' & Hin & Hres); [|done].
    apply IH; [|lia]. eapply search_visit; [exact Hinv|done|done| |].
    + intros n. rewrite Hin. unfold names, named. rewrite Hfind. naive_solver.
    + unfold unexplored. rewrite Hfind. destruct Hres as [[? ->]|[Hall ->]]; [by left|right].
      split; [|done]. intros (st & Hst & Hq). destruct (Hall st Hst). congruence.
  - apply IH; [|lia]. eapply search_visit; [exact Hinv|done|done| |].
    + intros n. unfold names. rewrite Hfind. naive_solver.
    + left. unfold unexplored. by rewrite Hfind.
Qed.

Lemma isNodeInQuorum_spec :
  exists r, isNodeInQuorum qfun map self node = Some r /\ quorumAnswer r.
Proof.
  apply nodeInQuorumLoop_spec; [apply search_init|]. cbn. lia.
Qed.
End Search.
