(* ===== verification/QuorumTheorems.v ===== *)
(** * Theorems on quorum sets and federated voting *)

From S2P Require Import Prelude OrdContainers BigMath QuorumSet QuorumFacts ScpTypes BallotOrder Federated FederatedFacts.
Import LocalNode.

(** A nested quorum set for the instances: two of 1, 2 and one of {3, 4}. *)
Definition exNested : SCPQuorumSet := QSet 2 [1; 2] [QSet 1 [3; 4] []].

Ltac qset_bounds := vm_compute; repeat split; discriminate.

(** C34. A set of nodes is v-blocking for a quorum set exactly when the
    remaining nodes contain no slice of it. *)
Theorem vblocking_iff_no_slice_left q S C : qset_ranged q -> qset_small q ->
  (forall n, n ∈ forAllNodesInternal q -> contains C n = negb (contains S n)) ->
  isVBlocking q S = negb (isQuorumSlice q C).
Proof. apply vblocking_dual. Qed.

Lemma vblocking_iff_no_slice_left_witness :
  isVBlocking exNested [1; 3; 4] = negb (isQuorumSlice exNested [2]).
Proof.
  apply (vblocking_iff_no_slice_left exNested [1; 3; 4] [2]).
  - qset_bounds.
  - qset_bounds.
  - intros n Hn. assert (n = 1 \/ n = 2 \/ n = 3 \/ n = 4) as Hc.
    { change (forAllNodesInternal exNested) with [1; 2; 3; 4] in Hn.
      rewrite !elem_of_cons, elem_of_nil in Hn. tauto. }
    destruct Hc as [->|[->|[->| ->]]]; reflexivity.
Defined.

(** C29. [isQuorum] always ends and answers whether the nodes whose statement
    passes the filter contain a set that includes a slice of each of its
    members and a slice of the given quorum set. *)
Theorem isQuorum_decides_quorum qfun map qSet filter :
  qset_wf qSet -> qsets_known qfun map (filterNodes map filter) ->
  exists b, isQuorum qfun map qSet filter = Some b /\
    (b = true <-> quorum_within qfun map qSet (filterNodes map filter)).
Proof. apply isQuorum_correct. Qed.

Definition exPrepareOf (n : NodeID) : SCPEnvelope :=
  {| statement := {| nodeID := n; slotIndex := 1; pledges := PREPARE {|
       p_quorumSetHash := 1; p_ballot := Ballot 1 [1]; p_prepared := None; p_preparedPrime := None;
       p_nC := 0; p_nH := 0 |} |}; signature := [] |}.
Definition exVotes : EnvelopeMap := [(1, exPrepareOf 1); (2, exPrepareOf 2); (3, exPrepareOf 3)].

Lemma isQuorum_decides_quorum_witness :
  exists b, isQuorum (fun _ => Some exNested) exVotes exNested (fun _ => true) = Some b /\
    (b = true <-> quorum_within (fun _ => Some exNested) exVotes exNested
                    (filterNodes exVotes (fun _ => true))).
Proof.
  apply (isQuorum_decides_quorum (fun _ => Some exNested) exVotes exNested (fun _ => true)).
  - qset_bounds.
  - intros n Hn. change (filterNodes exVotes (fun _ => true)) with [1; 2; 3] in Hn.
    exists exNested. split; [|qset_bounds].
    rewrite !elem_of_cons, elem_of_nil in Hn. break; subst; done || reflexivity.
Defined.

(** [federatedAccept] holds exactly when a v-blocking set has accepted
    or the nodes that voted or accepted contain a quorum. *)
Theorem federatedAccept_decides env voted accepted envs : all_qsets_known env envs ->
  exists b, federatedAccept env voted accepted envs = Some b /\
    (b = true <-> accept_condition env voted accepted envs).
Proof. apply federatedAccept_correct. Qed.

Definition exEnvN : ScpEnv := {|
  localNode := {| mNodeID := 0; mIsValidator := true; mQSet := exNested; mQSetHash := 1 |};
  driver := {| signEnvelope := fun _ => []; verifyEnvelope := fun _ => true;
               getQSet := fun _ => Some exNested; validateValue := fun _ _ => kFullyValidatedValue;
               extractValidValue := fun _ v => v; computeHashNode := fun _ _ _ _ n => n;
               computeValueHash := fun _ _ _ _ => 0; combineCandidates := fun _ _ => [] |};
  debugBuild := true |}.

Lemma federatedAccept_decides_witness :
  exists b, federatedAccept exEnvN (fun _ => true) (fun _ => false) exVotes = Some b /\
    (b = true <-> accept_condition exEnvN (fun _ => true) (fun _ => false) exVotes).
Proof.
  apply (federatedAccept_decides exEnvN (fun _ => true) (fun _ => false) exVotes).
  split; [qset_bounds|]. intros n Hn. change (exVotes.*1) with [1; 2; 3] in Hn.
  exists exNested. split; [|qset_bounds].
  rewrite !elem_of_cons, elem_of_nil in Hn. break; subst; done || reflexivity.
Defined.

(** Normalizing a quorum set changes neither its slices nor its
    v-blocking sets. *)
Theorem normalize_same_quorums q S : qset_wf q ->
  isQuorumSlice (normalizeQSet q) S = isQuorumSlice q S /\
  isVBlocking (normalizeQSet q) S = isVBlocking q S.
Proof. intros H. split; [by apply isQuorumSlice_normalize|by apply isVBlocking_normalize]. Qed.

Lemma normalize_same_quorums_witness :
  normalizeQSet (QSet 2 [1] [QSet 1 [2] []]) = QSet 2 [1; 2] [] /\
  isQuorumSlice (normalizeQSet (QSet 2 [1] [QSet 1 [2] []])) [1] =
  isQuorumSlice (QSet 2 [1] [QSet 1 [2] []]) [1].
Proof.
  split; [reflexivity|]. apply (normalize_same_quorums (QSet 2 [1] [QSet 1 [2] []]) [1]). qset_bounds.
Defined.

(** A quorum set passes [isQuorumSetSane] exactly when every level has a
    threshold between one and the number of its entries (and, with extra
    checks, blocks a majority) and no node occurs twice. *)
Theorem isQuorumSetSane_decides q e :
  isQuorumSetSane q e = true <-> qset_all (level_ok e) q /\ NoDup (forAllNodesInternal q).
Proof. apply isQuorumSetSane_iff. Qed.

(** The nodes returned by [findClosestVBlocking] all belong to the given
    set, and together with the nodes outside of the set they are
    v-blocking: losing them blocks the quorum set. *)
Theorem findClosestVBlocking_blocks nodes q : qset_ranged q -> qset_small q ->
  (forall n, n ∈ findClosestVBlocking nodes None q -> n ∈ nodes) /\
  forall S, (forall n, n ∈ findClosestVBlocking nodes None q -> n ∈ S) ->
    (forall n, n ∈ forAllNodesInternal q -> n ∉ nodes -> n ∈ S) ->
    isVBlocking q S = true.
Proof.
  intros Hr Hs. split; [intros n; apply findClosest_agree|].
  intros S H1 H2. by eapply findClosest_blocks.
Qed.

Lemma findClosestVBlocking_blocks_witness :
  findClosestVBlocking [1; 2; 3; 4] None exNested = [1; 2] /\
  isVBlocking exNested [1; 2] = true.
Proof.
  split; [reflexivity|].
  apply (findClosestVBlocking_blocks [1; 2; 3; 4] exNested); [qset_bounds|qset_bounds| |].
  - intros n. change (findClosestVBlocking [1; 2; 3; 4] None exNested) with [1; 2]. auto.
  - intros n Hn Hno. contradiction.
Defined.

(** The weight of a node is the share of the thresholds along its first
    path in the quorum set, scaled to 64 bits and rounded down level by
    level, without overflow; a node that does not occur weighs nothing. *)
Theorem getNodeWeight_share nodeID t v i :
  qset_ranged (QSet t v i) -> qset_small (QSet t v i) ->
  let d := totEntries (QSet t v i) in
  let w := getNodeWeight nodeID (QSet t v i) in
  w = (if contains v nodeID then UINT64_MAX else firstInnerWeight nodeID i) * t / d /\
  0 <= w <= UINT64_MAX * t / d /\
  (nodeID ∉ forAllNodesInternal (QSet t v i) -> w = 0).
Proof.
  intros Hr Hs d w. destruct (getNodeWeight_spec nodeID t v i Hr Hs) as [H1 H2].
  split; [done|]. split; [done|]. intros Hn. by apply getNodeWeight_absent.
Qed.

Lemma getNodeWeight_share_witness :
  getNodeWeight 3 exNested = firstInnerWeight 3 [QSet 1 [3; 4] []] * 2 / 3.
Proof.
  apply (getNodeWeight_share 3 2 [1; 2] [QSet 1 [3; 4] []]); qset_bounds.
Defined.

(** [isNodeInQuorum] always ends; TB_TRUE means that the node is
    reachable from the local node through the quorum sets of known
    statements, TB_FALSE that it is not and everything reachable is known,
    TB_MAYBE that it was not reached but something reachable is unknown. *)
Theorem isNodeInQuorum_searches qfun map self node :
  exists r, isNodeInQuorum qfun map self node = Some r /\ quorumAnswer qfun map self node r.
Proof. apply isNodeInQuorum_spec. Qed.

(** [isNewerStatement] is a strict order on ballot statements, and two
    statements it does not order agree on every field it looks at. *)
Theorem isNewerStatement_strict_order (a b c : SCPStatement) :
  isNewerStatement a a = false /\
  (isNewerStatement a b = true -> isNewerStatement b c = true -> isNewerStatement a c = true) /\
  (isNewerStatement a b = false -> isNewerStatement b a = false ->
     statementKey (pledges a) = statementKey (pledges b)).
Proof.
  split; [apply isNewerPledges_irrefl|].
  split; [apply isNewerPledges_trans|apply isNewerPledges_total].
Qed.

(** [bigDivide] computes the exact product divided by the divisor,
    rounded as asked, and reports an overflow exactly when the result does
    not fit in 64 bits. *)
Theorem bigDivide_exact A B C r : is_u64 A -> is_u64 B -> is_u64 C -> C <> 0 ->
  bigDivide_u64 A B C r =
  Some (div_round r (A * B) C <=? UINT64_MAX, u64 (div_round r (A * B) C)).
Proof. apply bigDivide_u64_exact. Qed.

Lemma bigDivide_exact_witness :
  bigDivide_u64 UINT64_MAX 3 4 ROUND_UP = Some (true, 13835058055282163712).
Proof.
  rewrite (bigDivide_exact UINT64_MAX 3 4 ROUND_UP) by (unfold is_u64, UINT64_MAX; lia).
  vm_compute. reflexivity.
Defined.
