(* ===== verification/Ballot.v ===== *)
(** * The ballot protocol ([scp/BallotProtocol.h], [scp/BallotProtocol.cpp])

    Every method of [BallotProtocol] as a computation on the slot.  The
    methods call each other through [Slot::processEnvelope]: a transition
    emits a statement, which is processed like a received one and may cause
    further transitions.  The callee is the argument [pe] of the methods
    ([pe e] stands for [mSlot.processEnvelope(e, true)]); [processEnvelope]
    at the end of the file ties the knot, the depth being bounded by
    [MAX_ADVANCE_SLOT_RECURSION] as in the code. *)

From S2P Require Import Prelude OrdContainers QuorumSet ScpTypes BallotOrder Federated.
Import LocalNode.

Definition MAX_ADVANCE_SLOT_RECURSION : Z := 50.

Module BP.

(** ** Helper predicates on statements *)

Definition hasPreparedBallot (ballot : SCPBallot) (st : SCPStatement) : bool :=
  match pledges st with
  | PREPARE p =>
      match p_prepared p with Some b => areBallotsLessAndCompatible ballot b | None => false end ||
      match p_preparedPrime p with Some b => areBallotsLessAndCompatible ballot b | None => false end
  | CONFIRM c => areBallotsLessAndCompatible ballot (Ballot (c_nPrepared c) (value (c_ballot c)))
  | EXTERNALIZE e => areBallotsCompatible ballot (e_commit e)
  | NOMINATE _ => false
  end.

(** The test "is this node voting to prepare [ballot]" of [attemptPreparedAccept]. *)
Definition votesPrepared (ballot : SCPBallot) (st : SCPStatement) : bool :=
  match pledges st with
  | PREPARE p => areBallotsLessAndCompatible ballot (p_ballot p)
  | CONFIRM c => areBallotsCompatible ballot (c_ballot c)
  | EXTERNALIZE e => areBallotsCompatible ballot (e_commit e)
  | NOMINATE _ => false
  end.

Definition commitPredicate (ballot : SCPBallot) (check : Z * Z) (st : SCPStatement) : bool :=
  match pledges st with
  | PREPARE _ => false
  | CONFIRM c =>
      if areBallotsCompatible ballot (c_ballot c)
      then (c_nCommit c <=? check.1) && (check.2 <=? c_nH c) else false
  | EXTERNALIZE e =>
      if areBallotsCompatible ballot (e_commit e) then counter (e_commit e) <=? check.1 else false
  | NOMINATE _ => false
  end.

(** The test "is this node voting to commit [ballot] over [cur]" of [attemptAcceptCommit]. *)
Definition votesCommit (ballot : SCPBallot) (cur : Z * Z) (st : SCPStatement) : bool :=
  match pledges st with
  | PREPARE p =>
      if areBallotsCompatible ballot (p_ballot p) then
        if negb (p_nC p =? 0) then (p_nC p <=? cur.1) && (cur.2 <=? p_nH p) else false
      else false
  | CONFIRM c => if areBallotsCompatible ballot (c_ballot c) then c_nCommit c <=? cur.1 else false
  | EXTERNALIZE e =>
      if areBallotsCompatible ballot (e_commit e) then counter (e_commit e) <=? cur.1 else false
  | NOMINATE _ => false
  end.

Definition getWorkingBallot (st : SCPStatement) : SCPBallot :=
  match pledges st with
  | PREPARE p => p_ballot p
  | CONFIRM c => Ballot (c_nCommit c) (value (c_ballot c))
  | EXTERNALIZE e => e_commit e
  | NOMINATE _ => Ballot 0 []
  end.

(** ** Candidate ballots and commit boundaries *)

Definition hintBallots (hint : SCPStatement) : list SCPBallot :=
  match pledges hint with
  | PREPARE prep =>
      os_of_list (p_ballot prep ::
        match p_prepared prep with Some b => [b] | None => [] end ++
        match p_preparedPrime prep with Some b => [b] | None => [] end)
  | CONFIRM con =>
      os_of_list [Ballot (c_nPrepared con) (value (c_ballot con));
                  Ballot UINT32_MAX (value (c_ballot con))]
  | EXTERNALIZE ext => os_of_list [Ballot UINT32_MAX (value (e_commit ext))]
  | NOMINATE _ => []
  end.

(** Candidates contributed by one statement for the vote [topVote]. *)
Definition statementCandidates (topVote : SCPBallot) (st : SCPStatement) : list SCPBallot :=
  match pledges st with
  | PREPARE prep =>
      (if areBallotsLessAndCompatible (p_ballot prep) topVote then [p_ballot prep] else []) ++
      match p_prepared prep with
      | Some b => if areBallotsLessAndCompatible b topVote then [b] else []
      | None => [] end ++
      match p_preparedPrime prep with
      | Some b => if areBallotsLessAndCompatible b topVote then [b] else []
      | None => [] end
  | CONFIRM con =>
      if areBallotsCompatible topVote (c_ballot con) then
        topVote :: (if c_nPrepared con <? counter topVote
                    then [Ballot (c_nPrepared con) (value topVote)] else [])
      else []
  | EXTERNALIZE ext => if areBallotsCompatible topVote (e_commit ext) then [topVote] else []
  | NOMINATE _ => []
  end.

Definition getPrepareCandidates (envs : EnvelopeMap) (hint : SCPStatement) : list SCPBallot :=
  fold_left (fun candidates topVote =>
      fold_left (fun acc e =>
          fold_left (fun acc b => os_insert b acc) (statementCandidates topVote (statement e.2)) acc)
        envs candidates)
    (rev (hintBallots hint)) [].

Definition statementBoundaries (ballot : SCPBallot) (st : SCPStatement) : list Z :=
  match pledges st with
  | PREPARE p =>
      if areBallotsCompatible ballot (p_ballot p) then
        if negb (p_nC p =? 0) then [p_nC p; p_nH p] else []
      else []
  | CONFIRM c => if areBallotsCompatible ballot (c_ballot c) then [c_nCommit c; c_nH c] else []
  | EXTERNALIZE e =>
      if areBallotsCompatible ballot (e_commit e)
      then [counter (e_commit e); e_nH e; UINT32_MAX] else []
  | NOMINATE _ => []
  end.

Definition getCommitBoundariesFromStatements (envs : EnvelopeMap) (ballot : SCPBallot) : list Z :=
  fold_left (fun acc e =>
      fold_left (fun acc b => os_insert b acc) (statementBoundaries ballot (statement e.2)) acc)
    envs [].

(** The loop of [findExtendedInterval] over the boundaries from the top;
    [pred] may dereference a null quorum set ([None]). *)
Fixpoint extendLoop (pred : Z * Z -> option bool) (bs : list Z) (candidate : Z * Z)
  : option (Z * Z) :=
  match bs with
  | [] => Some candidate
  | b :: r =>
      if negb (candidate.1 =? 0) && (b >? candidate.2) then extendLoop pred r candidate
      else
        let cur := if candidate.1 =? 0 then (b, b) else (b, candidate.2) in
        match pred cur with
        | None => None
        | Some true => extendLoop pred r cur
        | Some false => if negb (candidate.1 =? 0) then Some candidate
                        else extendLoop pred r candidate
        end
  end.

Definition findExtendedInterval (candidate : Z * Z) (boundaries : list Z)
    (pred : Z * Z -> option bool) : option (Z * Z) :=
  extendLoop pred (rev boundaries) candidate.

Section WithEnv.
Context (env : ScpEnv).

(** [dbgAssert] of an expression that reads through pointers: not evaluated
    under [NDEBUG]. *)
Definition dbgAssertM (e : M Slot bool) : M Slot unit :=
  if debugBuild env then b ← e; if b : bool then mret tt else throw Aborted else mret tt.

(** ** Recording and checking statements *)

Definition recordStatement (st : SCPStatement) : M Slot unit :=
  modify (fun s => Set_.history s (mStatementsHistory s ++ [(st, mFullyValidated s)])).

Definition isNewerStatementFor (n : NodeID) (st : SCPStatement) : M Slot bool :=
  bp ← getBP;
  mret match om_find n (mLatestEnvelopes bp) with
       | None => true
       | Some old => isNewerStatement (statement old) st
       end.

Definition recordEnvelope (e : SCPEnvelope) : M Slot unit :=
  modBP (fun b => Set_.latestEnvelopes b
                    (om_set (nodeID (statement e)) e (mLatestEnvelopes b)));;
  recordStatement (statement e).

(** The checks of [isStatementSane] on the pledges; [self] may have b = 0. *)
Definition saneprepare (self : bool) (p : SCPPrepare) : bool :=
  (self || (counter (p_ballot p) >? 0)) &&
  match p_preparedPrime p, p_prepared p with
  | Some pp, Some pr => areBallotsLessAndIncompatible pp pr
  | _, _ => true
  end &&
  ((p_nH p =? 0) || match p_prepared p with Some pr => p_nH p <=? counter pr | None => false end) &&
  ((p_nC p =? 0) || (negb (p_nH p =? 0) && (counter (p_ballot p) >=? p_nH p) && (p_nH p >=? p_nC p))).

Definition sanePledges (self : bool) (pl : SCPPledges) : bool :=
  match pl with
  | PREPARE p => saneprepare self p
  | CONFIRM c =>
      (counter (c_ballot c) >? 0) && (c_nH c <=? counter (c_ballot c)) && (c_nCommit c <=? c_nH c)
  | EXTERNALIZE e => (counter (e_commit e) >? 0) && (e_nH e >=? counter (e_commit e))
  | NOMINATE _ => false
  end.

Definition isStatementSane (st : SCPStatement) (self : bool) : M Slot bool :=
  qset ← deref (getQuorumSetFromStatement env st);
  if negb (isQuorumSetSane qset false) then mret false else
  match pledges st with
  | NOMINATE _ => throw Aborted
  | pl => mret (sanePledges self pl)
  end.

(** The values of a statement, in the order of [std::set<Value>]. *)
Definition statementValues (st : SCPStatement) : list Value :=
  match pledges st with
  | PREPARE prep =>
      os_of_list ((if negb (counter (p_ballot prep) =? 0) then [value (p_ballot prep)] else []) ++
                  match p_prepared prep with Some b => [value b] | None => [] end)
  | CONFIRM c => [value (c_ballot c)]
  | EXTERNALIZE e => [value (e_commit e)]
  | NOMINATE _ => []
  end.

Definition validateValues (slot : Z) (st : SCPStatement) : ValidationLevel :=
  match pledges st with
  | NOMINATE _ => kInvalidValue
  | _ =>
      fold_left (fun res v =>
          match validateValue (driver env) slot v with
          | kFullyValidatedValue => res
          | tr => tr
          end) (statementValues st) kFullyValidatedValue
  end.

(** ** The current ballot *)

Definition checkInvariants : M Slot unit :=
  bp ← getBP;
  when (bool_decide (is_Some (mCurrentBallot bp)))
    (dbgAssertM (b ← deref (mCurrentBallot bp); mret (negb (counter b =? 0))));;
  match mPrepared bp, mPreparedPrime bp with
  | Some p, Some p' => dbgAssert env (areBallotsLessAndIncompatible p' p)
  | _, _ => mret tt
  end;;
  match mCommit bp with
  | Some c =>
      dbgAssert env (bool_decide (is_Some (mCurrentBallot bp)));;
      dbgAssertM (h ← deref (mHighBallot bp); mret (areBallotsLessAndCompatible c h));;
      dbgAssertM (h ← deref (mHighBallot bp); b ← deref (mCurrentBallot bp);
                  mret (areBallotsLessAndCompatible h b))
  | None => mret tt
  end;;
  match mPhase bp with
  | SCP_PHASE_PREPARE => mret tt
  | SCP_PHASE_CONFIRM => dbgAssert env (bool_decide (is_Some (mCommit bp)))
  | SCP_PHASE_EXTERNALIZE =>
      dbgAssert env (bool_decide (is_Some (mCommit bp)));;
      dbgAssert env (bool_decide (is_Some (mHighBallot bp)))
  end.

Definition startBallotProtocolTimer : M Slot unit :=
  bp ← getBP;
  b ← deref (mCurrentBallot bp);
  notify (fun slot => SetupTimer slot BALLOT_PROTOCOL_TIMER (computeTimeout (counter b))).

Definition bumpToBallot (ballot : SCPBallot) (check : bool) : M Slot unit :=
  bp ← getBP;
  dbgAssert env (negb (bool_decide (mPhase bp = SCP_PHASE_EXTERNALIZE)));;
  when check (dbgAssert env match mCurrentBallot bp with
                            | None => true
                            | Some cur => compareBallots ballot cur >=? 0
                            end);;
  let gotBumped := match mCurrentBallot bp with
                   | None => true
                   | Some cur => negb (bool_decide (cur = ballot))
                   end in
  modBP (fun b => Set_.currentBallot b (Some ballot));;
  modBP (fun b => Set_.heard b false);;
  when gotBumped startBallotProtocolTimer.

Definition inPrepareOrConfirm (ph : SCPPhase) : bool :=
  match ph with SCP_PHASE_EXTERNALIZE => false | _ => true end.

Definition updateCurrentValue (ballot : SCPBallot) : M Slot bool :=
  bp ← getBP;
  if negb (inPrepareOrConfirm (mPhase bp)) then mret false else
  match mCurrentBallot bp with
  | None => bumpToBallot ballot true;; checkInvariants;; mret true
  | Some cur =>
      dbgAssert env (compareBallots cur ballot <=? 0);;
      if match mCommit bp with Some c => negb (areBallotsCompatible c ballot) | None => false end
      then mret false else
      let comp := compareBallots cur ballot in
      if comp <? 0 then bumpToBallot ballot true;; checkInvariants;; mret true
      else if comp >? 0 then mret false
      else checkInvariants;; mret false
  end.

Definition updateCurrentIfNeeded : M Slot unit :=
  bp ← getBP;
  h ← deref (mHighBallot bp);
  match mCurrentBallot bp with
  | None => bumpToBallot h true
  | Some cur => when (compareBallots cur h <? 0) (bumpToBallot h true)
  end.

(** ** Emission *)

Definition createStatement (phase : SCPPhase) : M Slot SCPStatement :=
  checkInvariants;;
  bp ← getBP;
  let qh := mQSetHash (localNode env) in
  pl ← match phase with
  | SCP_PHASE_PREPARE =>
      mret (PREPARE {|
        p_quorumSetHash := qh;
        p_ballot := match mCurrentBallot bp with Some b => b | None => Ballot 0 [] end;
        p_prepared := mPrepared bp;
        p_preparedPrime := mPreparedPrime bp;
        p_nC := match mCommit bp with Some c => counter c | None => 0 end;
        p_nH := match mHighBallot bp with Some h => counter h | None => 0 end |})
  | SCP_PHASE_CONFIRM =>
      dbgAssertM (c ← deref (mCommit bp); h ← deref (mHighBallot bp);
                  mret (areBallotsLessAndCompatible c h));;
      b ← deref (mCurrentBallot bp);
      p ← deref (mPrepared bp);
      c ← deref (mCommit bp);
      h ← deref (mHighBallot bp);
      mret (CONFIRM {| c_ballot := b; c_nPrepared := counter p; c_nCommit := counter c;
                       c_nH := counter h; c_quorumSetHash := qh |})
  | SCP_PHASE_EXTERNALIZE =>
      dbgAssertM (c ← deref (mCommit bp); h ← deref (mHighBallot bp);
                  mret (areBallotsLessAndCompatible c h));;
      c ← deref (mCommit bp);
      h ← deref (mHighBallot bp);
      mret (EXTERNALIZE {| e_commit := c; e_nH := counter h; e_commitQuorumSetHash := qh |})
  end;
  mret {| nodeID := 0; slotIndex := 0; pledges := pl |}.

(** [Slot::createEnvelope] *)
Definition createEnvelope (st : SCPStatement) : M Slot SCPEnvelope :=
  s ← get;
  let mySt := {| nodeID := mNodeID (localNode env); slotIndex := mSlotIndex s;
                 pledges := pledges st |} in
  mret {| statement := mySt; signature := signEnvelope (driver env) mySt |}.

Definition sendLatestEnvelope : M Slot unit :=
  s ← get;
  let bp := mBallotProtocol s in
  match mLastEnvelope bp with
  | Some last =>
      when ((mCurrentMessageLevel bp =? 0) && mFullyValidated s)
        (when match mLastEnvelopeEmit bp with
              | None => true
              | Some emit => negb (bool_decide (addr last = addr emit))
              end
          (modBP (fun b => Set_.lastEnvelopeEmit b (mLastEnvelope b));;
           notify (fun _ => EmitEnvelope (pointee last))))
  | None => mret tt
  end.

(** Methods that may process a statement of the node itself. *)
Section Recursive.
Context (pe : SCPEnvelope -> M Slot EnvelopeState).

Definition emitCurrentStateStatement : M Slot unit :=
  bp ← getBP;
  st ← createStatement (mPhase bp);
  envelope ← createEnvelope st;
  let canEmit := bool_decide (is_Some (mCurrentBallot bp)) in
  let lastEnv := om_find (mNodeID (localNode env)) (mLatestEnvelopes bp) in
  if match lastEnv with None => true | Some e => negb (bool_decide (e = envelope)) end then
    res ← pe envelope;
    match res with
    | VALID =>
        bp' ← getBP;
        when (canEmit && match mLastEnvelope bp' with
                         | None => true
                         | Some l => isNewerStatement (statement (pointee l)) (statement envelope)
                         end)
          (modBP (fun b => Set_.lastEnvelope b envelope);;
           sendLatestEnvelope)
    | INVALID => throw (RuntimeError "moved to a bad state (ballot protocol)")
    end
  else mret tt.

Definition bumpState_n (v : Value) (n : Z) : M Slot bool :=
  bp ← getBP;
  if negb (inPrepareOrConfirm (mPhase bp)) then mret false else
  let newb := Ballot n match mHighBallot bp with Some h => value h | None => v end in
  updated ← updateCurrentValue newb;
  when updated (notify (fun slot => StartedBallotProtocol slot newb);;
                emitCurrentStateStatement);;
  mret updated.

Definition bumpState (v : Value) (force : bool) : M Slot bool :=
  bp ← getBP;
  if negb force && bool_decide (is_Some (mCurrentBallot bp)) then mret false else
  let n := match mCurrentBallot bp with Some b => u32 (counter b + 1) | None => 1 end in
  bumpState_n v n.

Definition abandonBallot (n : Z) : M Slot bool :=
  s ← get;
  let v := mLatestCompositeCandidate (mNominationProtocol s) in
  let v := if vempty v then
             match mCurrentBallot (mBallotProtocol s) with Some b => value b | None => v end
           else v in
  if negb (vempty v) then
    if n =? 0 then bumpState v true else bumpState_n v n
  else mret false.

Definition ballotProtocolTimerExpired : M Slot unit :=
  bp ← getBP;
  if mHeardFromQuorum bp then abandonBallot 0;; mret tt
  else startBallotProtocolTimer.

(** *** Accepting as prepared *)

(** [setPrepared], on the two fields it updates. *)
Definition setPrepared (ballot : SCPBallot) (bp : BallotProtocol) : bool * BallotProtocol :=
  match mPrepared bp with
  | Some p =>
      let comp := compareBallots p ballot in
      if comp <? 0 then
        let bp1 := if negb (areBallotsCompatible p ballot)
                   then Set_.preparedPrime bp (Some p) else bp in
        (true, Set_.prepared bp1 (Some ballot))
      else if comp >? 0 then
        if match mPreparedPrime bp with
           | None => true
           | Some p' => compareBallots p' ballot <? 0
           end
        then (true, Set_.preparedPrime bp (Some ballot))
        else (false, bp)
      else (false, bp)
  | None => (true, Set_.prepared bp (Some ballot))
  end.

Definition setPreparedAccept (ballot : SCPBallot) : M Slot bool :=
  bp0 ← getBP;
  let '(didWork0, bp) := setPrepared ballot bp0 in
  modBP (fun _ => bp);;
  let clearC := match mCommit bp, mHighBallot bp with
    | Some _, Some h =>
        match mPrepared bp with
        | Some p => areBallotsLessAndIncompatible h p | None => false end ||
        match mPreparedPrime bp with
        | Some p' => areBallotsLessAndIncompatible h p' | None => false end
    | _, _ => false
    end in
  when clearC
    (dbgAssert env (bool_decide (mPhase bp = SCP_PHASE_PREPARE));;
     modBP (fun b => Set_.commit b None));;
  let didWork := didWork0 || clearC in
  when didWork (notify (fun slot => AcceptedBallotPrepared slot ballot);;
                emitCurrentStateStatement);;
  mret didWork.

(** The loop of [attemptPreparedAccept] over the candidates, highest first. *)
Fixpoint preparedAcceptLoop (bp : BallotProtocol) (cands : list SCPBallot) : M Slot bool :=
  match cands with
  | [] => mret false
  | ballot :: r =>
      skip ← match mPhase bp with
             | SCP_PHASE_CONFIRM =>
                 p ← deref (mPrepared bp);
                 if negb (areBallotsLessAndCompatible p ballot) then mret true
                 else dbgAssertM (c ← deref (mCommit bp); mret (areBallotsCompatible c ballot));;
                      mret false
             | _ => mret false
             end;
      if skip : bool then preparedAcceptLoop bp r else
      if match mPreparedPrime bp with
         | Some p' => compareBallots ballot p' <=? 0 | None => false end
      then preparedAcceptLoop bp r else
      if match mPrepared bp with
         | Some p => areBallotsLessAndCompatible ballot p | None => false end
      then preparedAcceptLoop bp r else
      accepted ← deref (federatedAccept env (votesPrepared ballot) (hasPreparedBallot ballot)
                          (mLatestEnvelopes bp));
      if accepted : bool then setPreparedAccept ballot else preparedAcceptLoop bp r
  end.

Definition attemptPreparedAccept (hint : SCPStatement) : M Slot bool :=
  bp ← getBP;
  if negb (inPrepareOrConfirm (mPhase bp)) then mret false else
  preparedAcceptLoop bp (rev (getPrepareCandidates (mLatestEnvelopes bp) hint)).

(** *** Confirming as prepared *)

Definition setPreparedConfirmed (newC newH : SCPBallot) : M Slot bool :=
  bp ← getBP;
  let raise := match mHighBallot bp with
               | None => true
               | Some h => compareBallots newH h >? 0
               end in
  when raise (modBP (fun b => Set_.highBallot b (Some newH)));;
  let setC := negb (counter newC =? 0) in
  when setC (dbgAssert env (negb (bool_decide (is_Some (mCommit bp))));;
             modBP (fun b => Set_.commit b (Some newC)));;
  let didWork := raise || setC in
  when didWork (updateCurrentIfNeeded;;
                notify (fun slot => ConfirmedBallotPrepared slot newH);;
                emitCurrentStateStatement);;
  mret didWork.

(** First loop: the highest ratified candidate above [h], with the
    position at which it was found. *)
Fixpoint findNewH (bp : BallotProtocol) (cands : list SCPBallot)
  : option (option (SCPBallot * list SCPBallot)) :=
  match cands with
  | [] => Some None
  | ballot :: r =>
      if match mHighBallot bp with
         | Some h => compareBallots h ballot >=? 0 | None => false end
      then Some None else
      match federatedRatify env (hasPreparedBallot ballot) (mLatestEnvelopes bp) with
      | None => None
      | Some true => Some (Some (ballot, cands))
      | Some false => findNewH bp r
      end
  end.

(** Second loop: the lowest candidate not below [b] down to which all are ratified. *)
Fixpoint findNewC (bp : BallotProtocol) (b : SCPBallot) (cands : list SCPBallot)
    (newC : SCPBallot) : option SCPBallot :=
  match cands with
  | [] => Some newC
  | ballot :: r =>
      if compareBallots ballot b <? 0 then Some newC else
      match federatedRatify env (hasPreparedBallot ballot) (mLatestEnvelopes bp) with
      | None => None
      | Some true => findNewC bp b r ballot
      | Some false => Some newC
      end
  end.

Definition attemptPreparedConfirmed (hint : SCPStatement) : M Slot bool :=
  bp ← getBP;
  if negb (bool_decide (mPhase bp = SCP_PHASE_PREPARE)) then mret false else
  if negb (bool_decide (is_Some (mPrepared bp))) then mret false else
  let cands := rev (getPrepareCandidates (mLatestEnvelopes bp) hint) in
  found ← deref (findNewH bp cands);
  match found with
  | None => mret false
  | Some (newH, cur) =>
      let b := match mCurrentBallot bp with Some b => b | None => Ballot 0 [] end in
      newC ← if negb (bool_decide (is_Some (mCommit bp))) &&
                match mPrepared bp with
                | Some p => negb (areBallotsLessAndIncompatible newH p) | None => true end &&
                match mPreparedPrime bp with
                | Some p' => negb (areBallotsLessAndIncompatible newH p') | None => true end
             then deref (findNewC bp b cur (Ballot 0 []))
             else mret (Ballot 0 []);
      setPreparedConfirmed newC newH
  end.

(** *** Accepting and confirming a commit *)

Definition setAcceptCommit (c h : SCPBallot) : M Slot bool :=
  bp ← getBP;
  let changed := match mHighBallot bp, mCommit bp with
    | Some h0, Some c0 =>
        negb (compareBallots h0 h =? 0) || negb (compareBallots c0 c =? 0)
    | _, _ => true
    end in
  when changed (modBP (fun b => Set_.highBallot (Set_.commit b (Some c)) (Some h)));;
  let prep := bool_decide (mPhase bp = SCP_PHASE_PREPARE) in
  when prep
    (modBP (fun b => Set_.phase b SCP_PHASE_CONFIRM);;
     match mCurrentBallot bp with
     | Some cur => when (negb (areBallotsLessAndCompatible h cur)) (bumpToBallot h false)
     | None => mret tt
     end;;
     modBP (fun b => Set_.preparedPrime b None));;
  let didWork := changed || prep in
  when didWork (updateCurrentIfNeeded;;
                notify (fun slot => AcceptedCommit slot h);;
                emitCurrentStateStatement);;
  mret didWork.

(** The ballot a hint proposes to commit. *)
Definition commitHint (hint : SCPStatement) : option SCPBallot :=
  match pledges hint with
  | PREPARE prep => if negb (p_nC prep =? 0) then Some (Ballot (p_nH prep) (value (p_ballot prep)))
                    else None
  | CONFIRM con => Some (Ballot (c_nH con) (value (c_ballot con)))
  | EXTERNALIZE ext => Some (Ballot (e_nH ext) (value (e_commit ext)))
  | NOMINATE _ => None
  end.

Definition attemptAcceptCommit (hint : SCPStatement) : M Slot bool :=
  bp ← getBP;
  if negb (inPrepareOrConfirm (mPhase bp)) then mret false else
  match commitHint hint with
  | None => mret false
  | Some ballot =>
      incompatible ← match mPhase bp with
                     | SCP_PHASE_CONFIRM =>
                         h ← deref (mHighBallot bp); mret (negb (areBallotsCompatible ballot h))
                     | _ => mret false
                     end;
      if incompatible : bool then mret false else
      let pred cur := federatedAccept env (votesCommit ballot cur) (commitPredicate ballot cur)
                        (mLatestEnvelopes bp) in
      let boundaries := getCommitBoundariesFromStatements (mLatestEnvelopes bp) ballot in
      if bool_decide (boundaries = []) then mret false else
      candidate ← deref (findExtendedInterval (0, 0) boundaries pred);
      if negb (candidate.1 =? 0) then
        higher ← match mPhase bp with
                 | SCP_PHASE_CONFIRM =>
                     h ← deref (mHighBallot bp); mret (candidate.2 >? counter h)
                 | _ => mret true
                 end;
        if higher : bool then
          setAcceptCommit (Ballot candidate.1 (value ballot)) (Ballot candidate.2 (value ballot))
        else mret false
      else mret false
  end.

Definition stopNomination : M Slot unit := modNom (fun n => Set_.nominationStarted n false).

Definition setConfirmCommit (c h : SCPBallot) : M Slot bool :=
  modBP (fun b => Set_.highBallot (Set_.commit b (Some c)) (Some h));;
  updateCurrentIfNeeded;;
  modBP (fun b => Set_.phase b SCP_PHASE_EXTERNALIZE);;
  emitCurrentStateStatement;;
  stopNomination;;
  bp ← getBP;
  c' ← deref (mCommit bp);
  notify (fun slot => ValueExternalized slot (value c'));;
  mret true.

Definition attemptConfirmCommit (hint : SCPStatement) : M Slot bool :=
  bp ← getBP;
  if negb (bool_decide (mPhase bp = SCP_PHASE_CONFIRM)) then mret false else
  match mHighBallot bp, mCommit bp with
  | Some _, Some commit =>
      match match pledges hint with PREPARE _ => None | _ => commitHint hint end with
      | None => mret false
      | Some ballot =>
          if negb (areBallotsCompatible ballot commit) then mret false else
          let boundaries := getCommitBoundariesFromStatements (mLatestEnvelopes bp) ballot in
          let pred cur := federatedRatify env (commitPredicate ballot cur) (mLatestEnvelopes bp) in
          candidate ← deref (findExtendedInterval (0, 0) boundaries pred);
          if negb (candidate.1 =? 0) then
            setConfirmCommit (Ballot candidate.1 (value ballot)) (Ballot candidate.2 (value ballot))
          else mret false
      end
  | _, _ => mret false
  end.

(** *** Catching up with a v-blocking set *)

Definition statementCounter (st : SCPStatement) : Z :=
  match pledges st with
  | PREPARE p => counter (p_ballot p)
  | CONFIRM c => counter (c_ballot c)
  | EXTERNALIZE _ => UINT32_MAX
  | NOMINATE _ => 0
  end.

Definition aheadOf (n : Z) (st : SCPStatement) : bool :=
  match pledges st with
  | PREPARE p => n <? counter (p_ballot p)
  | CONFIRM c => n <? counter (c_ballot c)
  | _ => negb (n =? UINT32_MAX)
  end.

(** The loop over the counters in increasing order: the counter to move to. *)
Fixpoint bumpTarget (envs : EnvelopeMap) (targetCounter : Z) (counters : list Z) : option Z :=
  match counters with
  | [] => None
  | n :: r =>
      if n <? targetCounter then None else
      let vBlocking := isVBlockingMap (mQSet (localNode env)) envs (aheadOf n) in
      if n =? targetCounter then
        if negb vBlocking then None else bumpTarget envs targetCounter r
      else
        if negb vBlocking then Some n else bumpTarget envs targetCounter r
  end.

Definition attemptBump : M Slot bool :=
  bp ← getBP;
  if inPrepareOrConfirm (mPhase bp) then
    let targetCounter := match mCurrentBallot bp with Some b => counter b | None => 0 end in
    let allCounters :=
      os_insert targetCounter
        (os_of_list (map (fun e : NodeID * SCPEnvelope => statementCounter (statement e.2))
                         (mLatestEnvelopes bp))) in
    match bumpTarget (mLatestEnvelopes bp) targetCounter allCounters with
    | Some n => abandonBallot n
    | None => mret false
    end
  else mret false.

(** [do { didBump = attemptBump(); didWork = didBump || didWork; } while (didBump)] *)
Fixpoint bumpLoop (fuel : nat) (didWork : bool) : M Slot bool :=
  match fuel with
  | O => throw OutOfFuel
  | S fuel =>
      didBump ← attemptBump;
      if didBump : bool then bumpLoop fuel true else mret didWork
  end.

(** *** [advanceSlot] *)

Definition heardFilter (b : SCPBallot) (st : SCPStatement) : bool :=
  match pledges st with
  | PREPARE p => counter b <=? counter (p_ballot p)
  | _ => true
  end.

Definition checkHeardFromQuorum : M Slot unit :=
  bp ← getBP;
  match mCurrentBallot bp with
  | Some b =>
      when (negb (mHeardFromQuorum bp))
        (heard ← deref (isQuorum (getQuorumSetFromStatement env) (mLatestEnvelopes bp)
                          (mQSet (localNode env)) (heardFilter b));
         when heard (modBP (fun bp => Set_.heard bp true);;
                     notify (fun slot => BallotDidHearFromQuorum slot b)))
  | None => mret tt
  end.

(** A bound on the iterations of the bump loop: a bump moves the counter to
    that of a recorded statement, and the phase changes at most twice. *)
Definition bumpFuel (bp : BallotProtocol) : nat := 3 * (length (mLatestEnvelopes bp) + 3).

Definition advanceSlot (hint : SCPStatement) : M Slot unit :=
  modBP (fun b => Set_.level b (mCurrentMessageLevel b + 1));;
  bp ← getBP;
  if mCurrentMessageLevel bp >=? MAX_ADVANCE_SLOT_RECURSION
  then throw (RuntimeError "maximum number of transitions reached in advanceSlot") else
  checkHeardFromQuorum;;
  w1 ← attemptPreparedAccept hint;
  w2 ← attemptPreparedConfirmed hint;
  w3 ← attemptAcceptCommit hint;
  w4 ← attemptConfirmCommit hint;
  let didWork := w1 || w2 || w3 || w4 in
  bp' ← getBP;
  didWork' ← if mCurrentMessageLevel bp' =? 1 then bumpLoop (bumpFuel bp') didWork
             else mret didWork;
  modBP (fun b => Set_.level b (mCurrentMessageLevel b - 1));;
  when didWork' sendLatestEnvelope.

(** *** [processEnvelope] *)

Definition processEnvelopeBody (envelope : SCPEnvelope) (self : bool) : M Slot EnvelopeState :=
  s ← get;
  let st := statement envelope in
  dbgAssert env (slotIndex st =? mSlotIndex s);;
  sane ← isStatementSane st self;
  if negb sane then mret INVALID else
  newer ← isNewerStatementFor (nodeID st) st;
  if negb newer then mret INVALID else
  match validateValues (mSlotIndex s) st with
  | kInvalidValue => mret INVALID
  | validationRes =>
      bp ← getBP;
      if negb (bool_decide (mPhase bp = SCP_PHASE_EXTERNALIZE)) then
        when (bool_decide (validationRes = kMaybeValidValue))
          (modify (fun s => Set_.fullyValidated s false));;
        recordEnvelope envelope;;
        advanceSlot st;;
        mret VALID
      else
        c ← deref (mCommit bp);
        if bool_decide (value c = value (getWorkingBallot st))
        then recordEnvelope envelope;; mret VALID
        else mret INVALID
  end.

End Recursive.

(** The recursion: [fuel] levels of nested processing. *)
Fixpoint processEnvelopeFuel (fuel : nat) (envelope : SCPEnvelope) (self : bool)
  : M Slot EnvelopeState :=
  match fuel with
  | O => throw OutOfFuel
  | S fuel => processEnvelopeBody (fun e => processEnvelopeFuel fuel e true) envelope self
  end.

(** [mCurrentMessageLevel] starts at 0 and [advanceSlot] throws when it
    reaches 50, so 51 levels are never exhausted. *)
Definition RECURSION_FUEL : nat := 51.

Definition processEnvelope (envelope : SCPEnvelope) (self : bool) : M Slot EnvelopeState :=
  processEnvelopeFuel RECURSION_FUEL envelope self.

Definition processSelf (envelope : SCPEnvelope) : M Slot EnvelopeState :=
  processEnvelope envelope true.

(** ** Restoring the state after a restart *)

Definition setStateFromEnvelope (e : SCPEnvelope) : M Slot unit :=
  bp ← getBP;
  if bool_decide (is_Some (mCurrentBallot bp))
  then throw (RuntimeError "Cannot set state after starting ballot protocol") else
  recordEnvelope e;;
  modBP (fun b => Set_.lastEnvelope b e);;
  modBP (fun b => Set_.lastEnvelopeEmit b (mLastEnvelope b));;
  match pledges (statement e) with
  | PREPARE prep =>
      let b := p_ballot prep in
      bumpToBallot b true;;
      when (bool_decide (is_Some (p_prepared prep)))
        (modBP (fun bp => Set_.prepared bp (p_prepared prep)));;
      when (bool_decide (is_Some (p_preparedPrime prep)))
        (modBP (fun bp => Set_.preparedPrime bp (p_preparedPrime prep)));;
      when (negb (p_nH prep =? 0))
        (modBP (fun bp => Set_.highBallot bp (Some (Ballot (p_nH prep) (value b)))));;
      when (negb (p_nC prep =? 0))
        (modBP (fun bp => Set_.commit bp (Some (Ballot (p_nC prep) (value b)))));;
      modBP (fun bp => Set_.phase bp SCP_PHASE_PREPARE)
  | CONFIRM c =>
      let v := value (c_ballot c) in
      bumpToBallot (c_ballot c) true;;
      modBP (fun bp => Set_.prepared bp (Some (Ballot (c_nPrepared c) v)));;
      modBP (fun bp => Set_.highBallot bp (Some (Ballot (c_nH c) v)));;
      modBP (fun bp => Set_.commit bp (Some (Ballot (c_nCommit c) v)));;
      modBP (fun bp => Set_.phase bp SCP_PHASE_CONFIRM)
  | EXTERNALIZE ext =>
      let v := value (e_commit ext) in
      bumpToBallot (Ballot UINT32_MAX v) true;;
      modBP (fun bp => Set_.prepared bp (Some (Ballot UINT32_MAX v)));;
      modBP (fun bp => Set_.highBallot bp (Some (Ballot (e_nH ext) v)));;
      modBP (fun bp => Set_.commit bp (Some (e_commit ext)));;
      modBP (fun bp => Set_.phase bp SCP_PHASE_EXTERNALIZE)
  | NOMINATE _ => throw Aborted
  end.

(** ** State queries *)

Definition getCurrentState (s : Slot) : list SCPEnvelope :=
  map snd (List.filter (fun n : NodeID * SCPEnvelope =>
      negb (n.1 =? mNodeID (localNode env)) || mFullyValidated s)
    (mLatestEnvelopes (mBallotProtocol s))).

(** [*mCommit] is read only for the statements of other nodes. *)
Fixpoint externalizingLoop (commit : option SCPBallot) (validated : bool)
    (envs : EnvelopeMap) : option (list SCPEnvelope) :=
  match envs with
  | [] => Some []
  | (n, e) :: r =>
      if negb (n =? mNodeID (localNode env)) then
        match commit, externalizingLoop commit validated r with
        | Some c, Some r' =>
            Some (if areBallotsCompatible (getWorkingBallot (statement e)) c then e :: r' else r')
        | _, _ => None
        end
      else
        match externalizingLoop commit validated r with
        | Some r' => Some (if validated then e :: r' else r')
        | None => None
        end
  end.

Definition getExternalizingState (s : Slot) : option (list SCPEnvelope) :=
  let bp := mBallotProtocol s in
  match mPhase bp with
  | SCP_PHASE_EXTERNALIZE =>
      externalizingLoop (mCommit bp) (mFullyValidated s) (mLatestEnvelopes bp)
  | _ => Some []
  end.

End WithEnv.
End BP.
