(* ===== verification/BallotFacts.v ===== *)
(** * Functional facts about the ballot protocol

    What the helpers of the ballot protocol compute: the interval found by
    [findExtendedInterval], the ballots kept by [setPrepared], the
    candidates of [getPrepareCandidates] and the counter [attemptBump] moves
    to. *)

From S2P Require Import Prelude OrdContainers QuorumSet QuorumFacts ScpTypes BallotOrder Federated FederatedFacts Ballot.
Import BP.

(** ** [findExtendedInterval] *)

(** [cand] is what the loop has after the boundaries above [bs]. *)
Section Extend.
Context (ok : Z * Z -> bool).
Abbreviation pred := (fun p => Some (ok p)).

(** The interval found among [all]: its top is the highest boundary that
    passes alone, and it extends down as long as every boundary passes. *)
Record extended (all : list Z) (lo hi : Z) : Prop := {
  ex_lo : lo ∈ all;
  ex_hi : hi ∈ all;
  ex_le : lo <= hi;
  ex_top : forall b, b ∈ all -> hi < b -> ok (b, b) = false;
  ex_all : forall b, b ∈ all -> lo <= b <= hi -> ok (b, hi) = true;
  ex_max : forall b, b ∈ all -> b < lo ->
    exists b', b' ∈ all /\ b <= b' /\ b' < lo /\ ok (b', hi) = false;
}.

(** The boundaries still to visit, highest first. *)
Fixpoint descending (l : list Z) : Prop :=
  match l with
  | [] => True
  | x :: r => (forall y, y ∈ r -> y < x) /\ descending r
  end.

(** Once a top has been found, the loop only moves the bottom. *)
Lemma extendLoop_found all bs : forall lo hi,
  descending bs -> (forall b, b ∈ bs -> 0 < b /\ b < lo) -> 0 < lo ->
  (forall b, b ∈ bs -> b ∈ all) -> (forall b, b ∈ all -> b ∈ bs \/ lo <= b) ->
  lo ∈ all -> hi ∈ all -> lo <= hi ->
  (forall b, b ∈ all -> hi < b -> ok (b, b) = false) ->
  (forall b, b ∈ all -> lo <= b <= hi -> ok (b, hi) = true) ->
  exists lo', extendLoop pred bs (lo, hi) = Some (lo', hi) /\ 0 < lo' /\ extended all lo' hi.
Proof.
  induction bs as [|b r IH]; intros lo hi Hd Hpos Hlo Hsub Hcov Hin1 Hin2 Hle Htop Hok.
  { exists lo. split; [done|]. split; [done|]. constructor; try done. intros b Hb Hlt.
    apply Hcov in Hb as [Hb|Hb]; [by apply elem_of_nil in Hb|lia]. }
  destruct Hd as [Hb Hd]. cbn [extendLoop fst snd].
  destruct (Hpos b ltac:(left)) as [Hb0 Hblo].
  assert (forall y, y ∈ all -> y < lo -> y <= b) as Hbelow.
  { intros y Hy Hlt. apply Hcov in Hy as [Hy|Hy]; [|lia].
    apply elem_of_cons in Hy as [->|Hy]; [lia|]. specialize (Hb y Hy). lia. }
  assert (b ∈ all) as Hball by (apply Hsub; left).
  destruct (Z.eqb_spec lo 0) as [|_]; [lia|]. cbn [negb andb].
  destruct (Z.gtb_spec b hi) as [|_]; [lia|].
  destruct (ok (b, hi)) eqn:Hokb.
  - apply IH; try done; try lia.
    + intros y Hy. split; [apply Hpos; by right|auto].
    + intros y Hy. apply Hsub. by right.
    + intros y Hy. destruct (Hcov y Hy) as [Hy'|]; [|right; lia].
      apply elem_of_cons in Hy' as [->|Hy']; [right; lia|auto].
    + intros y Hy Hyr. destruct (decide (lo <= y)) as [|Hy']; [apply Hok; [done|lia]|].
      assert (y <= b) by (apply Hbelow; [done|lia]). by assert (y = b) as -> by lia.
  - exists lo. split; [done|]. split; [done|]. constructor; try done. intros y Hy Hylt.
    exists b. split; [done|]. split; [by apply Hbelow|]. by split.
Qed.

Lemma extendLoop_search all bs :
  descending bs -> (forall b, b ∈ bs -> 0 < b) ->
  (forall b, b ∈ all -> b ∈ bs \/ (ok (b, b) = false /\ forall b', b' ∈ bs -> b' < b)) ->
  (forall b, b ∈ bs -> b ∈ all) ->
  (extendLoop pred bs (0, 0) = Some (0, 0) /\ forall b, b ∈ all -> ok (b, b) = false) \/
  exists lo hi, extendLoop pred bs (0, 0) = Some (lo, hi) /\ 0 < lo /\ extended all lo hi.
Proof.
  induction bs as [|b r IH]; intros Hd Hpos Hall Hsub.
  { left. split; [done|]. intros b Hb. destruct (Hall b Hb) as [Hb'|[Hb' _]]; [|done].
    by apply elem_of_nil in Hb'. }
  destruct Hd as [Hb Hd]. cbn [extendLoop fst snd Z.eqb negb andb].
  assert (0 < b) as Hb0 by (apply Hpos; left).
  assert (b ∈ all) as Hball by (apply Hsub; left).
  destruct (ok (b, b)) eqn:Hok.
  - right. exists (match extendLoop pred r (b, b) with Some (l, _) => l | None => 0 end), b.
    destruct (extendLoop_found all r b b) as (lo & -> & Hlo & Hex); try done; try lia.
    + intros y Hy. split; [apply Hpos; by right|auto].
    + intros y Hy. apply Hsub. by right.
    + intros y Hy. destruct (Hall y Hy) as [Hy'|[_ Hy']].
      * apply elem_of_cons in Hy' as [->|Hy']; [right; lia|auto].
      * right. specialize (Hy' b ltac:(left)). lia.
    + intros y Hy Hlt. destruct (Hall y Hy) as [Hy'|[Hy' _]]; [|done].
      apply elem_of_cons in Hy' as [->|Hy']; [lia|]. specialize (Hb y Hy'). lia.
    + intros y Hy Hyr. by assert (y = b) as -> by lia.
  - apply IH; [done| | |].
    + intros y Hy. apply Hpos. by right.
    + intros y Hy. destruct (Hall y Hy) as [Hy'|[Hy' Hlt]].
      * apply elem_of_cons in Hy' as [->|Hy']; [right; by split|auto].
      * right. split; [done|]. intros z Hz. apply Hlt. by right.
    + intros y Hy. apply Hsub. by right.
Qed.

Lemma descending_rev l : os_sorted l -> descending (rev l).
Proof.
  induction l as [|x l IH]; [done|]. intros [Hx Hl]. cbn [rev]. specialize (IH Hl).
  assert (forall y, y ∈ rev l -> x < y) as Hr.
  { intros y Hy. apply Z.ltb_lt, Hx. apply list_elem_of_In. apply list_elem_of_In in Hy.
    by apply in_rev. }
  revert IH Hr. generalize (rev l) as r. induction r as [|z r IHr]; cbn; intros Hd Hr; [set_solver|].
  destruct Hd as [Hz Hd]. split.
  - intros y Hy. apply elem_of_app in Hy as [Hy|Hy]; [auto|].
    apply list_elem_of_singleton in Hy as ->. apply Hr. left.
  - apply IHr; [done|]. intros y Hy. apply Hr. by right.
Qed.

(** Either no boundary passes alone and the result is (0, 0), or it is the
    interval described by [extended]. *)
Lemma findExtendedInterval_spec boundaries : os_sorted boundaries ->
  (forall b, b ∈ boundaries -> 0 < b) ->
  (findExtendedInterval (0, 0) boundaries pred = Some (0, 0) /\
     forall b, b ∈ boundaries -> ok (b, b) = false) \/
  exists lo hi, findExtendedInterval (0, 0) boundaries pred = Some (lo, hi) /\ 0 < lo /\
    extended boundaries lo hi.
Proof.
  intros Hs Hpos. unfold findExtendedInterval.
  assert (forall b, b ∈ rev boundaries <-> b ∈ boundaries) as Hr.
  { intros b. rewrite !list_elem_of_In. symmetry. apply in_rev. }
  apply extendLoop_search; [by apply descending_rev| | |].
  - intros b Hb. by apply Hpos, Hr.
  - intros b Hb. left. by apply Hr.
  - intros b Hb. by apply Hr.
Qed.

End Extend.

(** ** [setPrepared] *)

(** p' is below p and incompatible with it. *)
Definition preparedOrdered (bp : BallotProtocol) : Prop :=
  match mPreparedPrime bp, mPrepared bp with
  | Some p', Some p => areBallotsLessAndIncompatible p' p = true
  | Some _, None => False
  | None, _ => True
  end.

(** [o'] replaces [o] without going down. *)
Definition optBallot_le (o o' : option SCPBallot) : Prop :=
  match o, o' with
  | Some b, Some b' => ballot_le b b'
  | Some _, None => False
  | None, _ => True
  end.

Lemma setPrepared_spec ballot bp : preparedOrdered bp ->
  (forall p, mPrepared bp = Some p -> areBallotsLessAndCompatible ballot p = false) ->
  let '(didWork, bp') := setPrepared ballot bp in
  preparedOrdered bp' /\
  optBallot_le (mPrepared bp) (mPrepared bp') /\
  optBallot_le (mPreparedPrime bp) (mPreparedPrime bp') /\
  (didWork = true -> mPrepared bp' = Some ballot \/ mPreparedPrime bp' = Some ballot) /\
  (didWork = false -> bp' = bp).
Proof.
  intros Ho Hn. unfold setPrepared, preparedOrdered, optBallot_le in *.
  assert (forall b1 b2, areBallotsLessAndIncompatible b1 b2 = true <->
    ballot_le b1 b2 /\ value b1 <> value b2) as Hinc by (intros; apply lessAndIncompatible_true).
  destruct (mPrepared bp) as [p|] eqn:Hp; [|destruct (mPreparedPrime bp) eqn:Hpp].
  2: done.
  2: { cbn. rewrite Hpp. naive_solver. }
  specialize (Hn p eq_refl). destruct (Z.ltb_spec (compareBallots p ballot) 0) as [Hlt|Hge].
  - assert (ballot_le p ballot) as Hle by (unfold ballot_le; lia).
    destruct (areBallotsCompatible p ballot) eqn:Hc; cbn.
    + apply compatible_true in Hc. destruct (mPreparedPrime bp) as [p'|] eqn:Hpp; [|naive_solver].
      apply Hinc in Ho as [Ho1 Ho2]. repeat split; auto; [|reflexivity|done].
      apply Hinc. split; [by etransitivity|congruence].
    + assert (value p <> value ballot) as Hv.
      { intros Hv. by rewrite (proj2 (compatible_true _ _) Hv) in Hc. }
      repeat split; auto; [by apply Hinc| |done].
      destruct (mPreparedPrime bp) as [p'|]; [|done]. apply Hinc in Ho. apply Ho.
  - destruct (compareBallots p ballot >? 0) eqn:Hgt.
    + assert (ballot_le ballot p) as Hle.
      { apply compareBallots_le. apply Z.gtb_gt, compareBallots_gt in Hgt. by apply ltb_asym. }
      assert (areBallotsLessAndIncompatible ballot p = true) as Hbp.
      { apply Hinc. split; [done|]. intros Hv.
        assert (areBallotsLessAndCompatible ballot p = true); [|congruence].
        by apply lessAndCompatible_true. }
      destruct (mPreparedPrime bp) as [p'|] eqn:Hpp; cbn.
      * destruct (Z.ltb_spec (compareBallots p' ballot) 0); cbn; rewrite ?Hp, ?Hpp;
          repeat split; auto; try done; try reflexivity. unfold ballot_le. lia.
      * rewrite ?Hp. repeat split; auto; try done.
    + rewrite Hp. repeat split; auto; try done; try reflexivity.
      destruct (mPreparedPrime bp); [reflexivity|done].
Qed.

(** ** Candidates *)

Lemma getPrepareCandidates_elem envs hint b :
  b ∈ getPrepareCandidates envs hint <->
  exists topVote n e, topVote ∈ hintBallots hint /\ (n, e) ∈ envs /\
    b ∈ statementCandidates topVote (statement e).
Proof.
  unfold getPrepareCandidates.
  assert (forall tv (es : EnvelopeMap) acc,
    b ∈ fold_left (fun acc e => fold_left (fun acc b => os_insert b acc)
                     (statementCandidates tv (statement e.2)) acc) es acc <->
    b ∈ acc \/ exists n e, (n, e) ∈ es /\ b ∈ statementCandidates tv (statement e)) as Hin.
  { intros tv es. induction es as [|[n e] es IH]; intros acc; cbn [fold_left].
    - split; [auto|]. intros [|(? & ? & H & _)]; [done|by apply elem_of_nil in H].
    - rewrite IH, fold_os_insert_elem. cbn. setoid_rewrite elem_of_cons. split.
      + intros [[|]|(n' & e' & ? & ?)]; eauto 10.
      + intros [|(n' & e' & [[= -> ->]|?] & ?)]; eauto 10. }
  assert (forall tvs acc,
    b ∈ fold_left (fun acc tv => fold_left (fun acc e => fold_left (fun acc b => os_insert b acc)
                     (statementCandidates tv (statement e.2)) acc) envs acc) tvs acc <->
    b ∈ acc \/ exists tv n e, tv ∈ tvs /\ (n, e) ∈ envs /\
                b ∈ statementCandidates tv (statement e)) as Hout.
  { intros tvs. induction tvs as [|tv tvs IH]; intros acc; cbn [fold_left].
    - split; [auto|]. intros [|(? & ? & ? & H & _)]; [done|by apply elem_of_nil in H].
    - rewrite IH, Hin. setoid_rewrite elem_of_cons. split.
      + intros [[|(n & e & ? & ?)]|(tv' & n & e & ? & ? & ?)]; eauto 10.
      + intros [|(tv' & n & e & [->|?] & ? & ?)]; eauto 10. }
  rewrite Hout. setoid_rewrite list_elem_of_In at 2. setoid_rewrite <- in_rev.
  setoid_rewrite <- list_elem_of_In. split; [intros [H|H]; [by apply elem_of_nil in H|done]|auto].
Qed.

(** ** Bumping *)

(** The counter [attemptBump] moves to, when the lowest known counter is
    the current one: the lowest known counter above it that a v-blocking
    set is not ahead of, every known counter in between being one that a
    v-blocking set is ahead of. *)
Lemma bumpTarget_least env envs target counters n : os_sorted counters ->
  bumpTarget env envs target counters = Some n ->
  n ∈ counters /\ target < n /\
  isVBlockingMap (mQSet (localNode env)) envs (aheadOf n) = false /\
  forall m, m ∈ counters -> m < n -> target <= m /\
    isVBlockingMap (mQSet (localNode env)) envs (aheadOf m) = true.
Proof.
  induction counters as [|c r IH]; [done|]. intros [Hc Hr]. cbn [bumpTarget].
  assert (forall m, m ∈ r -> c < m) as Hcr by (intros m Hm; by apply Z.ltb_lt, Hc).
  destruct (Z.ltb_spec c target) as [|Hge]; [done|].
  destruct (isVBlockingMap (mQSet (localNode env)) envs (aheadOf c)) eqn:Hb; cbn [negb].
  - intros Hn. assert (bumpTarget env envs target r = Some n) as Hn' by (revert Hn; by destruct (c =? target)).
    destruct (IH Hr Hn') as (Hin & Hlt & Hnb & Hall). split; [by right|]. split; [done|].
    split; [done|]. intros m Hm Hmn. apply elem_of_cons in Hm as [->|Hm]; [done|auto].
  - destruct (Z.eqb_spec c target); [done|]. intros [= <-]. split; [left|]. split; [lia|].
    split; [done|]. intros m Hm Hlt. apply elem_of_cons in Hm as [->|Hm]; [lia|].
    specialize (Hcr m Hm). lia.
Qed.
