(* ===== verification/BallotStep.v ===== *)
(** * How the ballot protocol moves a slot

    One relation, [slot_le], bounds what any method can do to a slot,
    whether it returns or throws: the phase never goes back, the recorded
    statement of a node is only replaced by a newer one, an externalized
    slot keeps its ballots, and the history and the driver calls only grow.
    [self_step] adds what holds when a method returns.  Together they give
    termination: neither the recursion through [processEnvelope] nor the
    bump loop exhausts its bound. *)

From Stdlib Require Import Sorted.
From S2P Require Import Prelude OrdContainers QuorumSet ScpTypes BallotOrder Federated Ballot.
Import BP.

(** ** The relation *)

Definition phaseRank (p : SCPPhase) : Z :=
  match p with SCP_PHASE_PREPARE => 0 | SCP_PHASE_CONFIRM => 1 | SCP_PHASE_EXTERNALIZE => 2 end.

Definition phaseOf (s : Slot) : SCPPhase := mPhase (mBallotProtocol s).
Definition latest (s : Slot) : EnvelopeMap := mLatestEnvelopes (mBallotProtocol s).
Definition level (s : Slot) : Z := mCurrentMessageLevel (mBallotProtocol s).

Definition isExternalized (c : DriverCall) : bool :=
  match c with ValueExternalized _ _ => true | _ => false end.
Definition extCount (s : Slot) : Z := count isExternalized (mDriverCalls s).

(** The five ballots (b, p, p', h, c). *)
Definition ballots (b : BallotProtocol) :=
  (mCurrentBallot b, mPrepared b, mPreparedPrime b, mHighBallot b, mCommit b).

(** [e'] replaces [e] as the recorded statement of a node. *)
Definition supersedes (e e' : SCPEnvelope) : Prop :=
  e' = e \/ isNewerStatement (statement e) (statement e') = true.

Global Instance supersedes_preorder : PreOrder supersedes.
Proof.
  split; [by left|]. intros x y z [->|Hxy] [->|Hyz]; unfold supersedes; auto.
  right. by eapply isNewerPledges_trans.
Qed.

Definition latest_le (m m' : EnvelopeMap) : Prop :=
  forall n e, om_find n m = Some e -> exists e', om_find n m' = Some e' /\ supersedes e e'.

Global Instance latest_le_preorder : PreOrder latest_le.
Proof.
  split.
  - intros m n e He. exists e. split; [done|reflexivity].
  - intros m1 m2 m3 H12 H23 n e He. destruct (H12 n e He) as (e2 & He2 & Hs2).
    destruct (H23 n e2 He2) as (e3 & He3 & Hs3). exists e3. split; [done|]. by etransitivity.
Qed.

(** The value announced as externalized is that of the commit ballot. *)
Definition extOk (s : Slot) : Prop :=
  forall i v, ValueExternalized i v ∈ mDriverCalls s ->
    i = mSlotIndex s /\ phaseOf s = SCP_PHASE_EXTERNALIZE /\
    exists c, mCommit (mBallotProtocol s) = Some c /\ value c = v.

(** The ballot envelopes handed to the driver, in order. *)
Definition ballotEmission (c : DriverCall) : option SCPEnvelope :=
  match c with
  | EmitEnvelope e => match pledges (statement e) with NOMINATE _ => None | _ => Some e end
  | _ => None
  end.
Definition emitted (s : Slot) : list SCPEnvelope := omap ballotEmission (mDriverCalls s).

Definition newerEnvelope (e e' : SCPEnvelope) : Prop :=
  isNewerStatement (statement e) (statement e') = true.

(** The emitted ballot statements are ever newer; [mLastEnvelope] and
    [mLastEnvelopeEmit] bound them from above. *)
Record emitOk (s : Slot) : Prop := {
  eo_sorted : StronglySorted newerEnvelope (emitted s);
  eo_bound : forall e, e ∈ emitted s ->
    exists p, mLastEnvelopeEmit (mBallotProtocol s) = Some p /\ supersedes e (pointee p);
  eo_link : forall p, mLastEnvelopeEmit (mBallotProtocol s) = Some p ->
    exists l, mLastEnvelope (mBallotProtocol s) = Some l /\
      (if bool_decide (addr p = addr l) then p = l else newerEnvelope (pointee p) (pointee l));
  eo_addr : forall l, mLastEnvelope (mBallotProtocol s) = Some l ->
    (addr l < mNextAddr (mBallotProtocol s))%nat;
  eo_addr_emit : forall p, mLastEnvelopeEmit (mBallotProtocol s) = Some p ->
    (addr p < mNextAddr (mBallotProtocol s))%nat;
  eo_ballot : forall l, mLastEnvelope (mBallotProtocol s) = Some l ->
    ballotEmission (EmitEnvelope (pointee l)) = Some (pointee l);
}.

(** The calls that neither announce a value nor emit a ballot statement. *)
Definition plainCall (c : DriverCall) : bool :=
  negb (isExternalized c) && match ballotEmission c with Some _ => false | None => true end.

(** Both protocols move a slot this way; [R] bounds what happens to the
    nomination state. *)
Record slot_le_by (R : relation NominationProtocol) (s s' : Slot) : Prop := {
  le_index : mSlotIndex s' = mSlotIndex s;
  le_phase : phaseRank (phaseOf s) <= phaseRank (phaseOf s');
  le_latest : latest_le (latest s) (latest s');
  le_sorted : om_sorted (latest s) -> om_sorted (latest s');
  le_frozen : phaseOf s = SCP_PHASE_EXTERNALIZE ->
    ballots (mBallotProtocol s') = ballots (mBallotProtocol s);
  le_history : mStatementsHistory s `prefix_of` mStatementsHistory s';
  le_calls : mDriverCalls s `prefix_of` mDriverCalls s';
  le_validated : mFullyValidated s' = true -> mFullyValidated s = true;
  le_externalized : extCount s' <= extCount s +
    (phaseRank (phaseOf s') / 2 - phaseRank (phaseOf s) / 2);
  le_extok : extOk s -> extOk s';
  le_emit : emitOk s -> emitOk s';
  le_nom : R (mNominationProtocol s) (mNominationProtocol s');
}.
Arguments le_phase {R s s'}.
Arguments le_externalized {R s s'}.

Lemma phaseRank_range p : 0 <= phaseRank p <= 2.
Proof. destruct p; simpl; lia. Qed.

Lemma phaseRank_ext p : 2 <= phaseRank p -> p = SCP_PHASE_EXTERNALIZE.
Proof. destruct p; simpl; try done; lia. Qed.

Global Instance slot_le_by_preorder R `{!PreOrder R} : PreOrder (slot_le_by R).
Proof.
  split.
  - intros s. constructor; try done; try lia; reflexivity.
  - intros s1 s2 s3 [] []. constructor; try (by etransitivity); try lia; try congruence; auto.
    intros Hp. rewrite Hp in le_phase0; cbn in le_phase0.
    rewrite le_frozen1, le_frozen0; [done|done|]. by apply phaseRank_ext.
Qed.

Lemma slot_le_by_mono (R R' : relation NominationProtocol) s s' :
  (forall n n', R n n' -> R' n n') -> slot_le_by R s s' -> slot_le_by R' s s'.
Proof. intros HR []. constructor; auto. Qed.

(** The ballot protocol only ever stops the nomination. *)
Definition nomSame (n n' : NominationProtocol) : Prop :=
  Set_.nominationStarted n' false = Set_.nominationStarted n false.

Global Instance nomSame_preorder : PreOrder nomSame.
Proof. split; [done|]. intros n1 n2 n3 H12 H23. red. by rewrite H23, H12. Qed.

Abbreviation slot_le := (slot_le_by nomSame).

(** ** The step of a method that returns *)

Section Step.
Context (env : ScpEnv).
Let self := mNodeID (localNode env).

Definition others (m : EnvelopeMap) : EnvelopeMap :=
  List.filter (fun p : NodeID * SCPEnvelope => negb (p.1 =? self)) m.

(** [mCurrentBallot ? mCurrentBallot->counter : 0] *)
Definition targetCounter (s : Slot) : Z :=
  match mCurrentBallot (mBallotProtocol s) with Some b => counter b | None => 0 end.

(** Within a phase the current ballot does not go down. *)
Definition current_le (s s' : Slot) : Prop :=
  phaseRank (phaseOf s) < phaseRank (phaseOf s') \/
  (phaseOf s' = phaseOf s /\
   forall b, mCurrentBallot (mBallotProtocol s) = Some b ->
     exists b', mCurrentBallot (mBallotProtocol s') = Some b' /\ ballot_le b b').

Record self_step (s s' : Slot) : Prop := {
  st_le : slot_le s s';
  st_level : level s' = level s;
  st_others : others (latest s') = others (latest s);
  st_current : current_le s s';
}.

Global Instance current_le_preorder : PreOrder current_le.
Proof.
  split.
  - intros s. right. split; [done|]. intros b Hb. exists b. split; [done|reflexivity].
  - intros s1 s2 s3 [H12|[E12 H12]] [H23|[E23 H23]]; unfold current_le.
    + left; lia.
    + left. rewrite E23. lia.
    + left. rewrite <- E12. lia.
    + right. split; [congruence|]. intros b Hb. destruct (H12 b Hb) as (b2 & Hb2 & Hle2).
      destruct (H23 b2 Hb2) as (b3 & Hb3 & Hle3). exists b3. split; [done|]. by etransitivity.
Qed.

Global Instance self_step_preorder : PreOrder self_step.
Proof.
  split.
  - intros s. constructor; done || reflexivity.
  - intros s1 s2 s3 [] []. constructor; try congruence; by etransitivity.
Qed.

(** The recorded statement of the node itself is not ahead of its ballot. *)
Definition own_ok (s : Slot) : Prop :=
  forall e, om_find self (latest s) = Some e ->
    phaseOf s = SCP_PHASE_EXTERNALIZE \/ statementCounter (statement e) <= targetCounter s.

End Step.

(** ** Tactics for symbolic execution *)

(** What the ballot protocol can throw: [dbgAssert] failures, null
    dereferences and its two runtime errors, never the exhaustion of a loop
    bound. *)
Definition ballotExn (x : Exn) : bool :=
  match x with
  | Aborted | NullDeref => true
  | RuntimeError m =>
      bool_decide (m ∈ ["maximum number of transitions reached in advanceSlot";
                        "moved to a bad state (ballot protocol)"]%string)
  | RuntimeErrorPtr _ | OutOfFuel => false
  end.

(** A thrown exception is one of those and leaves the slot further along. *)
Definition thrown (s : Slot) (x : Exn) (s' : Slot) : Prop := slot_le s s' /\ ballotExn x = true.

Lemma thrown_trans s s1 x s' : slot_le s s1 -> thrown s1 x s' -> thrown s x s'.
Proof. intros H [H1 H2]. split; [by etransitivity|done]. Qed.

Lemma thrown_here s x : ballotExn x = true -> thrown s x s.
Proof. split; [reflexivity|done]. Qed.

(** Sequencing relative to the state in which the first part ends. *)
Lemma wp_seq {A B} (m : M Slot A) (f : A -> M Slot B) Q1 Q s :
  wp m Q1 (thrown s) s ->
  (forall a s1, Q1 a s1 -> slot_le s s1 /\ wp (f a) Q (thrown s1) s1) ->
  wp (m ≫= f) Q (thrown s) s.
Proof.
  intros Hm Hf. apply wp_bind. eapply wp_mono; [exact Hm| |auto].
  intros a s1 H1. destruct (Hf a s1 H1) as [Hle Hw].
  eapply wp_mono; [exact Hw|auto|]. intros x s'. by apply thrown_trans.
Qed.

(** Start over from a later state. *)
Lemma wp_from {A} (m : M Slot A) (Q Q' : A -> Slot -> Prop) s s1 :
  slot_le s s1 -> wp m Q (thrown s1) s1 ->
  (forall a s', Q a s' -> Q' a s') -> wp m Q' (thrown s) s1.
Proof.
  intros Hle Hw HQ. eapply wp_mono; [exact Hw|auto|]. intros x s'. by apply thrown_trans.
Qed.

Lemma wp_getBP (Q : BallotProtocol -> Slot -> Prop) E (s : Slot) : Q (mBallotProtocol s) s -> wp getBP Q E s.
Proof. auto. Qed.

Lemma wp_modBP f (Q : unit -> Slot -> Prop) E (s : Slot) :
  Q tt (Set_.bp s (f (mBallotProtocol s))) -> wp (modBP f) Q E s.
Proof. auto. Qed.

Lemma wp_getNom (Q : NominationProtocol -> Slot -> Prop) E (s : Slot) :
  Q (mNominationProtocol s) s -> wp getNom Q E s.
Proof. auto. Qed.

Lemma wp_modNom f (Q : unit -> Slot -> Prop) E (s : Slot) :
  Q tt (Set_.nom s (f (mNominationProtocol s))) -> wp (modNom f) Q E s.
Proof. auto. Qed.

Lemma wp_notify c (Q : unit -> Slot -> Prop) E (s : Slot) :
  Q tt (Set_.calls s (mDriverCalls s ++ [c (mSlotIndex s)])) -> wp (notify c) Q E s.
Proof. auto. Qed.

Lemma wp_dbgAssert env b (Q : unit -> Slot -> Prop) (E : Exn -> Slot -> Prop) (s : Slot) :
  ((debugBuild env = true -> b = true) -> Q tt s) -> E Aborted s -> wp (dbgAssert env b) Q E s.
Proof.
  unfold dbgAssert. intros HQ HE. destruct (debugBuild env), b; cbn; auto.
Qed.

Lemma wp_dbgAssertM env e (Q : unit -> Slot -> Prop) (E : Exn -> Slot -> Prop) (s : Slot) :
  (debugBuild env = false -> Q tt s) ->
  (debugBuild env = true ->
     wp e (fun (b : bool) s' => if b then Q tt s' else E Aborted s') E s) ->
  wp (dbgAssertM env e) Q E s.
Proof.
  unfold dbgAssertM. intros HQ He. destruct (debugBuild env); cbn; [|auto].
  apply wp_bind. eapply wp_mono; [by apply He| |auto].
  intros [|] s'; cbn; auto.
Qed.

(** One step of symbolic execution of a monadic term. *)
Ltac wp_step :=
  lazymatch goal with
  | |- wp (mbind _ _) _ _ _ => apply wp_bind
  | |- wp getBP _ _ _ => apply wp_getBP
  | |- wp get _ _ _ => apply wp_get
  | |- wp (modBP _) _ _ _ => apply wp_modBP
  | |- wp getNom _ _ _ => apply wp_getNom
  | |- wp (modNom _) _ _ _ => apply wp_modNom
  | |- wp (notify _) _ _ _ => apply wp_notify
  | |- wp (modify _) _ _ _ => apply wp_modify
  | |- wp (mret _) _ _ _ => apply wp_ret
  | |- wp (throw _) _ _ _ => apply wp_throw
  | |- wp (dbgAssert _ _) _ _ _ => apply wp_dbgAssert; [intros _|]
  | |- wp (dbgAssertM _ _) _ _ _ => apply wp_dbgAssertM; intros _
  | |- wp (deref _) _ _ _ => apply wp_deref; [intros ? ?|intros _]
  | |- wp (when _ _) _ _ _ => apply wp_when; intros ?
  | |- wp (match ?x with _ => _ end) _ _ _ =>
      first [apply wp_if; intros ? | let E := fresh "E" in destruct x eqn:E]
  | |- if ?b then _ else _ => let E := fresh "E" in destruct b eqn:E
  end.

(** Close the side goals on exceptions thrown at the starting state. *)
Ltac throws := lazymatch goal with |- thrown _ _ _ => by apply thrown_here end.

Ltac wp_steps := repeat (cbv beta zeta; first [throws | wp_step]).

Section Methods.
Context (env : ScpEnv).
Abbreviation self := (mNodeID (localNode env)).
Abbreviation self_step := (self_step env).
Abbreviation own_ok := (own_ok env).

(** *** Methods that only read *)

Lemma checkInvariants_wp s :
  wp (checkInvariants env) (fun _ s' => s' = s) (thrown s) s.
Proof. unfold checkInvariants. wp_steps; done. Qed.

Lemma createStatement_wp s :
  wp (createStatement env (phaseOf s))
    (fun st s' => s' = s /\ (forall n, pledges st <> NOMINATE n) /\
       (phaseOf s = SCP_PHASE_EXTERNALIZE \/ statementCounter st = targetCounter s))
    (thrown s) s.
Proof.
  unfold createStatement. apply wp_bind.
  eapply wp_mono; [apply checkInvariants_wp| |done]. intros _ s' ->.
  wp_steps; (split; [done|]); (split; [done|]); auto;
    right; unfold statementCounter, targetCounter; cbn.
  - by destruct (mCurrentBallot (mBallotProtocol s)).
  - by destruct (mCurrentBallot (mBallotProtocol s)); simplify_eq.
  - by destruct (mCurrentBallot (mBallotProtocol s)); simplify_eq.
Qed.

(** *** Updates of the ballot fields *)

Definition emission (b : BallotProtocol) := (mLastEnvelope b, mLastEnvelopeEmit b, mNextAddr b).

Lemma emitOk_same s s' : emission (mBallotProtocol s') = emission (mBallotProtocol s) ->
  emitted s' = emitted s -> emitOk s -> emitOk s'.
Proof.
  unfold emission. intros He Hm []. injection He as H1 H2 H3.
  constructor; rewrite ?H1, ?H2, ?H3, ?Hm; done.
Qed.

Lemma extOk_same s s' : mSlotIndex s' = mSlotIndex s -> phaseRank (phaseOf s) <= phaseRank (phaseOf s') ->
  (phaseOf s = SCP_PHASE_EXTERNALIZE -> mCommit (mBallotProtocol s') = mCommit (mBallotProtocol s)) ->
  (forall i v, ValueExternalized i v ∈ mDriverCalls s' -> ValueExternalized i v ∈ mDriverCalls s) ->
  extOk s -> extOk s'.
Proof.
  intros Hi Hp Hc Hm Hs i v Hin. destruct (Hs i v (Hm i v Hin)) as (-> & HE & Hv).
  split; [done|]. rewrite (Hc HE). split; [|done]. apply phaseRank_ext. by rewrite HE in Hp.
Qed.

Lemma slot_le_bp s b :
  phaseOf s <> SCP_PHASE_EXTERNALIZE \/ ballots b = ballots (mBallotProtocol s) ->
  phaseRank (phaseOf s) <= phaseRank (mPhase b) ->
  mLatestEnvelopes b = latest s ->
  emission b = emission (mBallotProtocol s) ->
  slot_le s (Set_.bp s b).
Proof.
  intros Hf Hr Hl He. constructor; cbn; try done.
  - unfold latest in *. cbn. rewrite Hl. reflexivity.
  - unfold latest in *. cbn. by rewrite Hl.
  - intros Hp. destruct Hf as [Hf|Hf]; [done|]. done.
  - unfold phaseOf, extCount in *. cbn. pose proof (phaseRank_range (mPhase b)).
    pose proof (phaseRank_range (mPhase (mBallotProtocol s))).
    Z.to_euclidean_division_equations; lia.
  - apply extOk_same; try done. intros Hp. destruct Hf as [Hf|Hf]; [done|].
    unfold ballots in Hf. by injection Hf.
  - by apply emitOk_same.
Qed.

Lemma slot_le_call s c : plainCall c = true ->
  slot_le s (Set_.calls s (mDriverCalls s ++ [c])).
Proof.
  intros Hc. apply andb_true_iff in Hc as [Hc He]. apply negb_true_iff in Hc.
  constructor; cbn; try done; try reflexivity.
  - by apply prefix_app_r.
  - unfold extCount, phaseOf. cbn. rewrite count_app, count_cons, count_nil, Hc. lia.
  - apply extOk_same; [done|done|done|]. intros i v Hin. cbn in Hin.
    apply elem_of_app in Hin as [|Hin]; [done|]. apply list_elem_of_singleton in Hin as <-. done.
  - apply emitOk_same; [done|]. unfold emitted. cbn. rewrite omap_app. cbn.
    destruct (ballotEmission c); [done|]. by rewrite app_nil_r.
Qed.

(** The part of the ballot state the step relation speaks about. *)
Definition core (b : BallotProtocol) :=
  (ballots b, mPhase b, mLatestEnvelopes b, mCurrentMessageLevel b).

Definition quiet (s s' : Slot) : Prop :=
  slot_le s s' /\ core (mBallotProtocol s') = core (mBallotProtocol s).

(** What every method guarantees when it returns. *)
Definition good (s s' : Slot) : Prop := self_step s s' /\ (own_ok s -> own_ok s').

Global Instance good_preorder : PreOrder good.
Proof.
  split; [split; [reflexivity|done]|].
  intros s1 s2 s3 [] []. split; [by etransitivity|auto].
Qed.

Lemma quiet_good s s' : quiet s s' -> good s s'.
Proof.
  intros [Hle Hc]. unfold core, ballots in Hc. injection Hc as Hb _ _ _ _ Hp Hl Hv.
  split.
  - constructor; unfold level, latest; [done|done|by rewrite Hl|].
    right. split; [done|]. intros b Hcur. exists b. split; [congruence|reflexivity].
  - intros Ho e. unfold latest, targetCounter, phaseOf. rewrite Hl, Hb, Hp. apply Ho.
Qed.

Lemma good_le s s' : good s s' -> slot_le s s'.
Proof. by intros [[] _]. Qed.

Lemma startBallotProtocolTimer_wp s :
  wp startBallotProtocolTimer
    (fun _ s' => slot_le s s' /\ mBallotProtocol s' = mBallotProtocol s) (thrown s) s.
Proof.
  unfold startBallotProtocolTimer. wp_steps. split; [by apply slot_le_call|done].
Qed.

(** The ballot state after [bumpToBallot b]. *)
Definition bumped (b : SCPBallot) (bp : BallotProtocol) : BallotProtocol :=
  Set_.heard (Set_.currentBallot bp (Some b)) false.

Lemma bumpToBallot_wp s b check : phaseOf s <> SCP_PHASE_EXTERNALIZE ->
  wp (bumpToBallot env b check)
    (fun _ s' => slot_le s s' /\ mBallotProtocol s' = bumped b (mBallotProtocol s))
    (thrown s) s.
Proof.
  intros Hp. unfold bumpToBallot. wp_steps.
  all: match goal with |- context [Set_.bp ?s1 ?b1] =>
    assert (slot_le s (Set_.bp s1 b1)) as Hle
      by (apply (slot_le_bp s); [by left|done|done|done]) end.
  all: try (split; [exact Hle|done]).
  all: eapply wp_from; [exact Hle|apply startBallotProtocolTimer_wp|];
    intros [] s' [Hle' ->]; split; [by etransitivity|done].
Qed.
(** Run a call whose contract is [H], then continue from the state it leaves. *)
Ltac wp_call H :=
  first [ eapply wp_seq; [apply H|] | eapply wp_from; [|apply H|] ].

Lemma updateCurrentValue_wp s b :
  wp (updateCurrentValue env b)
    (fun r s' => if r : bool
       then phaseOf s <> SCP_PHASE_EXTERNALIZE /\ slot_le s s' /\
            mBallotProtocol s' = bumped b (mBallotProtocol s) /\
            (forall cur, mCurrentBallot (mBallotProtocol s) = Some cur ->
               compareBallots cur b < 0)
       else s' = s) (thrown s) s.
Proof.
  unfold updateCurrentValue. wp_step; wp_step; wp_step; [by wp_step|].
  assert (phaseOf s <> SCP_PHASE_EXTERNALIZE) as Hp.
  { unfold phaseOf. intros Hp. rewrite Hp in H. done. }
  assert (forall (P : Prop), P -> wp (bumpToBallot env b true;; checkInvariants env;; mret true)
    (fun r s' => if r : bool
       then phaseOf s <> SCP_PHASE_EXTERNALIZE /\ slot_le s s' /\
            mBallotProtocol s' = bumped b (mBallotProtocol s) /\ P
       else s' = s) (thrown s) s) as Hbump.
  { intros P HP. eapply wp_seq; [by apply bumpToBallot_wp|]. intros [] s1 [Hle Hb].
    split; [done|]. eapply wp_seq; [apply checkInvariants_wp|]. intros [] s2 ->.
    split; [reflexivity|]. by wp_step. }
  destruct (mCurrentBallot (mBallotProtocol s)) as [cur|] eqn:Hc; [|by apply Hbump].
  wp_step; wp_step; [|throws]. wp_step; [by wp_step|]. cbv zeta.
  wp_step; [|wp_step; [by wp_step|]].
  - apply Hbump. intros ? [= <-]. by zify_bool.
  - eapply wp_seq; [apply checkInvariants_wp|]. intros [] s2 ->. split; [reflexivity|]. by wp_step.
Qed.

(** [bp'] is [bp] with a current ballot that is not lower. *)
Definition raised (bp bp' : BallotProtocol) : Prop :=
  bp' = bp \/ exists b, bp' = bumped b bp /\
    forall cur, mCurrentBallot bp = Some cur -> ballot_le cur b.

Lemma updateCurrentIfNeeded_wp s : phaseOf s <> SCP_PHASE_EXTERNALIZE ->
  wp (updateCurrentIfNeeded env)
    (fun _ s' => slot_le s s' /\ raised (mBallotProtocol s) (mBallotProtocol s')) (thrown s) s.
Proof.
  intros Hp. unfold updateCurrentIfNeeded. wp_steps.
  - eapply wp_mono; [by apply bumpToBallot_wp| |done].
    intros [] s' [Hle Hb]. split; [done|]. right. eexists; split; [done|].
    intros cur Hcur. simplify_eq. unfold ballot_le. zify_bool. lia.
  - split; [reflexivity|by left].
  - eapply wp_mono; [by apply bumpToBallot_wp| |done].
    intros [] s' [Hle Hb]. split; [done|]. right. eexists; split; [done|]. intros cur Hcur. simplify_eq.
Qed.

Lemma raised_current bp bp' : raised bp bp' ->
  mPhase bp' = mPhase bp /\ mLatestEnvelopes bp' = mLatestEnvelopes bp /\
  mCurrentMessageLevel bp' = mCurrentMessageLevel bp /\
  forall b, mCurrentBallot bp = Some b ->
    exists b', mCurrentBallot bp' = Some b' /\ ballot_le b b'.
Proof.
  intros [->|(b & -> & Hb)]; (split; [done|split; [done|split; [done|]]]); intros b0 Hb0.
  - exists b0. split; [done|reflexivity].
  - exists b. split; [done|auto].
Qed.

(** Handing [mLastEnvelope] to the driver. *)
Definition sent (last : EnvelopePtr) (s : Slot) : Slot :=
  Set_.calls (Set_.bp s (Set_.lastEnvelopeEmit (mBallotProtocol s) (Some last)))
    (mDriverCalls s ++ [EmitEnvelope (pointee last)]).

Lemma supersedes_newer e p l : supersedes e p -> newerEnvelope p l -> newerEnvelope e l.
Proof. intros [->|H1] H2; [done|]. by eapply isNewerPledges_trans. Qed.

Lemma sorted_snoc (l : list SCPEnvelope) x : StronglySorted newerEnvelope l ->
  (forall e, e ∈ l -> newerEnvelope e x) -> StronglySorted newerEnvelope (l ++ [x]).
Proof.
  intros Hl Hx. induction Hl as [|y l Hl IH Hy]; cbn; [by repeat constructor|].
  constructor; [apply IH; intros e He; apply Hx; by right|].
  apply Forall_app. split; [done|]. constructor; [|done]. apply Hx. left.
Qed.

Lemma emitOk_sent last s : mLastEnvelope (mBallotProtocol s) = Some last ->
  (forall p, mLastEnvelopeEmit (mBallotProtocol s) = Some p -> addr last <> addr p) ->
  emitOk s -> emitOk (sent last s).
Proof.
  intros Hlast Hne []. assert (forall e, e ∈ emitted s -> newerEnvelope e (pointee last)) as Hnew.
  { intros e He. destruct (eo_bound0 e He) as (p & Hp & Hs).
    destruct (eo_link0 p Hp) as (l & Hl & Hc). rewrite Hlast in Hl. injection Hl as <-.
    rewrite bool_decide_false in Hc by (specialize (Hne p Hp); congruence).
    by eapply supersedes_newer. }
  assert (emitted (sent last s) = emitted s ++ [pointee last]) as Hem.
  { unfold emitted. cbn [mDriverCalls sent Set_.calls]. rewrite omap_app.
    change (omap ballotEmission [EmitEnvelope (pointee last)]) with
      (match ballotEmission (EmitEnvelope (pointee last)) with Some b => [b] | None => [] end).
    by rewrite (eo_ballot0 last Hlast). }
  constructor; rewrite ?Hem; cbn; rewrite ?Hlast.
  - by apply sorted_snoc.
  - intros e He. exists last. split; [done|]. apply elem_of_app in He as [He|He].
    + right. by apply Hnew.
    + apply list_elem_of_singleton in He as ->. by left.
  - intros p [= <-]. exists last. by rewrite bool_decide_true.
  - intros l [= <-]. auto.
  - intros l [= <-]. auto.
  - intros l [= <-]. by apply eo_ballot0.
Qed.

Lemma slot_le_sent last s : mLastEnvelope (mBallotProtocol s) = Some last ->
  (forall p, mLastEnvelopeEmit (mBallotProtocol s) = Some p -> addr last <> addr p) ->
  slot_le s (sent last s).
Proof.
  intros Hlast Hne. constructor; try done.
  - by apply prefix_app_r.
  - unfold extCount, phaseOf. cbn. rewrite count_app, count_cons, count_nil. cbn. lia.
  - apply extOk_same; [done|done|done|]. intros i v Hin. cbn in Hin.
    apply elem_of_app in Hin as [|Hin]; [done|]. by apply list_elem_of_singleton in Hin.
  - by apply emitOk_sent.
Qed.

Lemma sendLatestEnvelope_wp s :
  wp sendLatestEnvelope (fun _ s' => quiet s s') (thrown s) s.
Proof.
  unfold sendLatestEnvelope. wp_steps; try (split; [reflexivity|done]).
  rewrite E. change (Set_.calls _ _) with (sent e s). split; [|done].
  apply slot_le_sent; [done|]. intros p Hp. rewrite Hp in *. zify_bool.
  by apply bool_decide_eq_false in H0.
Qed.

(** A newer envelope becomes [mLastEnvelope]. *)
Lemma slot_le_lastEnvelope e s :
  (forall l, mLastEnvelope (mBallotProtocol s) = Some l -> newerEnvelope (pointee l) e) ->
  ballotEmission (EmitEnvelope e) = Some e ->
  slot_le s (Set_.bp s (Set_.lastEnvelope (mBallotProtocol s) e)).
Proof.
  intros Hnew Hb. constructor; try done; try lia.
  - unfold extCount, phaseOf. cbn. lia.
  - intros []. constructor; cbn; try done.
    + intros p Hp. eexists. split; [done|]. cbn. specialize (eo_addr_emit0 p Hp).
      rewrite bool_decide_false by lia. destruct (eo_link0 p Hp) as (l & Hl & Hc).
      case_bool_decide; [subst p; by apply Hnew|].
      apply (supersedes_newer _ (pointee l)); [by right|by apply Hnew].
    + intros l [= <-]. cbn. lia.
    + intros p Hp. specialize (eo_addr_emit0 p Hp). lia.
    + by intros l [= <-].
Qed.
(** *** Emission *)

(** The state in which a method at nesting level [L] starts. *)
Definition ready (L : Z) (s : Slot) : Prop := level s = L /\ om_sorted (latest s).

Lemma ready_step L s s' : self_step s s' -> ready L s -> ready L s'.
Proof. intros [[] Hv _ _] [HL Hsort]. split; [congruence|auto]. Qed.

(** What the methods rely on when they process a statement of their own. *)
Definition pe_spec (pe : SCPEnvelope -> M Slot EnvelopeState) (L : Z) : Prop :=
  forall e s, ready L s -> nodeID (statement e) = self ->
    phaseOf s = SCP_PHASE_EXTERNALIZE \/ statementCounter (statement e) <= targetCounter s ->
    wp (pe e) (fun r s' => self_step s s' /\ (r = VALID -> own_ok s')) (thrown s) s.

Section WithPe.
Context (pe : SCPEnvelope -> M Slot EnvelopeState) (L : Z) (Hpe : pe_spec pe L).

Lemma emit_wp s : ready L s ->
  wp (emitCurrentStateStatement env pe) (fun _ s' => self_step s s' /\ own_ok s') (thrown s) s.
Proof using Hpe.
  intros HL. unfold emitCurrentStateStatement. wp_step; wp_step.
  eapply wp_seq; [apply createStatement_wp|]. intros st s1 (-> & Hbst & Hst). split; [reflexivity|].
  unfold createEnvelope. wp_step; wp_step; wp_step; wp_step.
  set (envelope := Build_SCPEnvelope _ _). cbv zeta.
  assert (ballotEmission (EmitEnvelope envelope) = Some envelope) as Hbal.
  { cbn. destruct (pledges st) as [| | |n]; try done. by specialize (Hbst n). }
  wp_step.
  - eapply wp_seq.
    { apply Hpe; [done|done|]. destruct Hst as [|Hst]; [auto|right].
      change (statementCounter (statement envelope)) with (statementCounter st). lia. }
    intros r s2 [Hs2 Ho]. split; [by destruct Hs2|]. destruct r; [by wp_steps; apply thrown_here|].
    specialize (Ho eq_refl). wp_steps; [|by split].
    set (s3 := Set_.bp _ _). assert (quiet s2 s3) as Hq.
    { split; [|done]. apply slot_le_lastEnvelope; [|exact Hbal].
      intros l Hl. zify_bool. by rewrite Hl in *. }
    eapply wp_from; [apply Hq|apply sendLatestEnvelope_wp|]. intros [] s4 Hq4.
    destruct (quiet_good _ _ Hq) as [Hs3 Ho3], (quiet_good _ _ Hq4) as [Hs4 Ho4].
    split; [|by auto]. etransitivity; [exact Hs2|]. by etransitivity.
  - wp_step. split; [reflexivity|]. intros e He.
    destruct (om_find self (mLatestEnvelopes (mBallotProtocol s))) as [e'|] eqn:He'; [|done].
    zify_bool. unfold latest in He. rewrite He' in He. injection He as <-.
    apply bool_decide_eq_true in H as ->. destruct Hst as [|Hst]; [auto|right].
    change (statementCounter (statement envelope)) with (statementCounter st). lia.
Qed.
Lemma emit_after s s1 : ready L s -> self_step s s1 ->
  wp (emitCurrentStateStatement env pe) (fun _ s' => self_step s1 s' /\ self_step s s' /\ own_ok s')
    (thrown s) s1.
Proof using Hpe.
  intros HL Hs. eapply wp_from; [apply Hs|apply emit_wp|].
  - by eapply ready_step.
  - intros [] s' [Hs' Ho]. split; [done|]. split; [by etransitivity|done].
Qed.

Lemma self_step_bp s b :
  phaseOf s <> SCP_PHASE_EXTERNALIZE \/ ballots b = ballots (mBallotProtocol s) ->
  phaseRank (phaseOf s) < phaseRank (mPhase b) \/
  (mPhase b = phaseOf s /\
   forall c, mCurrentBallot (mBallotProtocol s) = Some c ->
     exists c', mCurrentBallot b = Some c' /\ ballot_le c c') ->
  mLatestEnvelopes b = latest s -> mCurrentMessageLevel b = level s ->
  emission b = emission (mBallotProtocol s) ->
  self_step s (Set_.bp s b).
Proof.
  intros Hf Hc Hl Hv He. constructor.
  - apply slot_le_bp; [done| |done|done]. destruct Hc as [|[-> _]]; [lia|reflexivity].
  - done.
  - unfold latest in *. cbn. by rewrite Hl.
  - destruct Hc as [Hr|[Hp Hc]]; [by left|right]. by split.
Qed.

Lemma self_step_call s c : plainCall c = true ->
  self_step s (Set_.calls s (mDriverCalls s ++ [c])).
Proof.
  intros Hc. apply quiet_good. split; [by apply slot_le_call|done].
Qed.

Lemma self_step_eq s s' : slot_le s s' ->
  raised (mBallotProtocol s) (mBallotProtocol s') -> self_step s s'.
Proof.
  intros Hle Hr. apply raised_current in Hr as (Hp & Hl & Hv & Hc).
  constructor; [done|done| |by right]. unfold latest. by rewrite Hl.
Qed.

Lemma current_le_target s s' : current_le s s' ->
  phaseRank (phaseOf s) < phaseRank (phaseOf s') \/
  (phaseOf s' = phaseOf s /\ (mCurrentBallot (mBallotProtocol s) = None \/ targetCounter s <= targetCounter s')).
Proof.
  intros [|[Hp Hc]]; [by left|right]. split; [done|]. unfold targetCounter.
  destruct (mCurrentBallot _) as [b|]; [right|by left].
  destruct (Hc b eq_refl) as (b' & -> & Hle). by apply ballot_le_counter.
Qed.

(** A successful bump moves past the counter it was asked for, unless the
    phase changed on the way. *)
Definition bump_post (n : Z) (s : Slot) (r : bool) (s' : Slot) : Prop :=
  if r then
    self_step s s' /\ own_ok s' /\
    (phaseRank (phaseOf s) < phaseRank (phaseOf s') \/
     (phaseOf s' = phaseOf s /\ n <= targetCounter s'))
  else s' = s.

Lemma bumpState_n_wp s v n : ready L s ->
  wp (bumpState_n env pe v n) (bump_post n s) (thrown s) s.
Proof using Hpe.
  intros HL. unfold bumpState_n. wp_step; wp_step; wp_step; [by wp_step|].
  cbv zeta. set (newb := Ballot n _). eapply wp_seq; [apply updateCurrentValue_wp|].
  intros [] s1 H1; [|subst s1; split; [reflexivity|by wp_steps]].
  destruct H1 as (Hp & Hle & Hb & Hlt). split; [done|].
  assert (self_step s s1) as Hs1.
  { apply self_step_eq; [done|]. right. exists newb. split; [done|]. intros cur Hcur.
    specialize (Hlt cur Hcur). unfold ballot_le. lia. }
  wp_step. cbn [when]. wp_step. wp_step.
  set (s2 := Set_.calls _ _). assert (self_step s1 s2) as Hs2 by (by apply self_step_call).
  eapply wp_from; [apply Hs2|apply emit_wp|].
  { eapply ready_step; [exact Hs2|]. by eapply ready_step. }
  intros [] s3 [Hs3 Ho]. wp_step.
  split; [etransitivity; [exact Hs1|etransitivity; eassumption]|]. split; [done|].
  assert (phaseOf s2 = phaseOf s) as Hp2.
  { unfold phaseOf. change (mBallotProtocol s2) with (mBallotProtocol s1). by rewrite Hb. }
  assert (mCurrentBallot (mBallotProtocol s2) = Some newb) as Hc2.
  { change (mBallotProtocol s2) with (mBallotProtocol s1). by rewrite Hb. }
  rewrite <- Hp2.
  destruct (current_le_target _ _ (st_current _ _ _ Hs3)) as [|[Hp3 [Hn|Ht]]]; [by left|congruence|].
  right. split; [done|]. unfold targetCounter at 1 in Ht. rewrite Hc2 in Ht. exact Ht.
Qed.
Lemma bumpState_wp s v force : ready L s ->
  wp (bumpState env pe v force) (bump_post 0 s) (thrown s) s.
Proof using Hpe.
  intros HL. unfold bumpState. wp_step; wp_step; wp_step; [by wp_step|]. cbv zeta.
  match goal with |- wp (bumpState_n _ _ _ ?n) _ _ _ => assert (0 <= n) as Hn end.
  { destruct (mCurrentBallot (mBallotProtocol s)) as [b|]; [|lia]. apply u32_range. }
  eapply wp_mono; [by apply bumpState_n_wp| |done].
  intros [] s' H'; [|done]. destruct H' as (? & ? & [|[? ?]]); (split; [done|split; [done|]]);
    [by left|right; split; [done|lia]].
Qed.

Lemma abandonBallot_wp s n : ready L s ->
  wp (abandonBallot env pe n) (bump_post n s) (thrown s) s.
Proof using Hpe.
  intros HL. unfold abandonBallot. wp_step; wp_step. cbv zeta.
  wp_step; [|by wp_step]. wp_step; [|by apply bumpState_n_wp].
  zify_bool. subst n. by apply bumpState_wp.
Qed.

Lemma bump_post_good n s r s' : bump_post n s r s' -> good s s'.
Proof. destruct r; [intros (Hs & Ho & _); by split|intros ->; reflexivity]. Qed.

Lemma ballotProtocolTimerExpired_wp s : ready L s ->
  wp (ballotProtocolTimerExpired env pe) (fun _ s' => good s s') (thrown s) s.
Proof using Hpe.
  intros HL. unfold ballotProtocolTimerExpired. wp_step; wp_step; wp_step.
  - wp_step. eapply wp_mono; [by apply abandonBallot_wp| |done].
    intros r s' H'. wp_step. by eapply bump_post_good.
  - eapply wp_mono; [apply startBallotProtocolTimer_wp| |done].
    intros [] s' [Hle Hb]. apply quiet_good. split; [done|by rewrite Hb].
Qed.

(** *** Accepting and confirming ballots as prepared *)

(** [setPrepared] touches p and p' only. *)
Lemma setPrepared_frame ballot bp :
  let bp' := (setPrepared ballot bp).2 in
  mCurrentBallot bp' = mCurrentBallot bp /\ mHighBallot bp' = mHighBallot bp /\
  mCommit bp' = mCommit bp /\ mPhase bp' = mPhase bp /\
  mLatestEnvelopes bp' = mLatestEnvelopes bp /\
  mCurrentMessageLevel bp' = mCurrentMessageLevel bp /\ emission bp' = emission bp /\
  ((setPrepared ballot bp).1 = false -> bp' = bp).
Proof. unfold setPrepared. destruct (mPrepared bp); case_ifs; repeat split; done. Qed.

(** Announce the change and emit, when there was one. *)
Lemma finish_wp s s1 (call : Z -> DriverCall) : (forall n, plainCall (call n) = true) ->
  ready L s -> self_step s s1 ->
  wp (notify call;; emitCurrentStateStatement env pe) (fun _ s' => good s s') (thrown s) s1.
Proof using Hpe.
  intros Hc HL Hs. wp_step; wp_step.
  set (s2 := Set_.calls _ _).
  assert (self_step s s2) as Hs2 by (etransitivity; [exact Hs|by apply self_step_call]).
  eapply wp_mono; [by apply (emit_after s s2)| |done].
  intros [] s' (_ & H & Ho). by split.
Qed.

Lemma setPreparedAccept_wp s ballot : ready L s -> phaseOf s <> SCP_PHASE_EXTERNALIZE ->
  wp (setPreparedAccept env pe ballot) (fun _ s' => good s s') (thrown s) s.
Proof using Hpe.
  intros HL Hp. unfold setPreparedAccept. wp_step; wp_step.
  destruct (setPrepared ballot (mBallotProtocol s)) as [didWork0 bp] eqn:Hset.
  destruct (setPrepared_frame ballot (mBallotProtocol s)) as (Hb & Hh & Hc & Hph & Hl & Hv & Hem & Hd).
  rewrite Hset in *. cbn in *. wp_step; wp_step. cbv zeta.
  assert (self_step s (Set_.bp s bp)) as Hs.
  { apply self_step_bp; [by left| |done|done|done]. right. split; [done|]. rewrite Hb.
    intros c Hcur. exists c. split; [done|reflexivity]. }
  wp_step; wp_step.
  - (* c is reset *)
    wp_step; wp_step; [|split; [by apply Hs|done]]. wp_step.
    set (s1 := Set_.bp _ _). assert (self_step s s1) as Hs1.
    { change s1 with (Set_.bp s (Set_.commit bp None)).
      apply self_step_bp; [by left| |done|done|done]. right. split; [done|]. cbn. rewrite Hb.
      intros c Hcur. exists c. split; [done|reflexivity]. }
    rewrite H, orb_true_r. cbn [when]. wp_step.
    eapply wp_mono; [by apply (finish_wp s s1)| |done]. intros [] s' Hg. by wp_step.
  - rewrite H, orb_false_r. wp_step; wp_step.
    + eapply wp_mono; [by apply (finish_wp s)| |done]. intros [] s' Hg. by wp_step.
    + wp_step. rewrite Hd by done. by destruct s.
Qed.
Lemma preparedAcceptLoop_wp s cands : ready L s -> phaseOf s <> SCP_PHASE_EXTERNALIZE ->
  wp (preparedAcceptLoop env pe (mBallotProtocol s) cands) (fun _ s' => good s s') (thrown s) s.
Proof using Hpe.
  intros HL Hp. induction cands as [|b r IH]; cbn [preparedAcceptLoop]; [by wp_step|].
  wp_step. eapply wp_mono with (Q := fun _ s' => s' = s) (E := thrown s); [by wp_steps| |done].
  intros skip s' ->. wp_steps; try done. by apply setPreparedAccept_wp.
Qed.

Lemma attemptPreparedAccept_wp s hint : ready L s ->
  wp (attemptPreparedAccept env pe hint) (fun _ s' => good s s') (thrown s) s.
Proof using Hpe.
  intros HL. unfold attemptPreparedAccept. wp_step; wp_step; wp_step; [by wp_step|].
  apply preparedAcceptLoop_wp; [done|]. unfold phaseOf. intros Hp. by rewrite Hp in H.
Qed.

(** [updateCurrentIfNeeded], the announcement and the emission. *)
Lemma advance_wp s s1 (call : Z -> DriverCall) : (forall n, plainCall (call n) = true) ->
  ready L s -> self_step s s1 -> phaseOf s1 <> SCP_PHASE_EXTERNALIZE ->
  wp (updateCurrentIfNeeded env;; notify call;; emitCurrentStateStatement env pe)
    (fun _ s' => good s s') (thrown s) s1.
Proof using Hpe.
  intros Hc HL Hs Hp. wp_step. eapply wp_from; [apply Hs|by apply updateCurrentIfNeeded_wp|].
  intros [] s2 [Hle Hr]. apply finish_wp; [done|done|]. etransitivity; [exact Hs|].
  by apply self_step_eq.
Qed.

(** A step between [s] and an update of its ballot fields that keeps b, the
    phase, the statements and the level. *)
Ltac step_bp :=
  lazymatch goal with |- BallotStep.self_step _ ?s ?s1 =>
    change s1 with (Set_.bp s (mBallotProtocol s1));
    apply self_step_bp;
    [ by left
    | right; split; [done|]; cbn; let x := fresh "x" in intros x ?; exists x; split; [congruence|reflexivity]
    | done | done | done ]
  end.

Lemma setPreparedConfirmed_wp s newC newH : ready L s -> phaseOf s <> SCP_PHASE_EXTERNALIZE ->
  wp (setPreparedConfirmed env pe newC newH) (fun _ s' => good s s') (thrown s) s.
Proof using Hpe.
  intros HL Hp. unfold setPreparedConfirmed. wp_step; wp_step. cbv zeta.
  generalize (match mHighBallot (mBallotProtocol s) with
              | Some h => compareBallots newH h >? 0 | None => true end) as raise.
  generalize (negb (counter newC =? 0)) as setC. intros setC raise.
  assert (forall s1, self_step s s1 -> phaseOf s1 = phaseOf s ->
    wp ((updateCurrentIfNeeded env;; notify (fun slot => ConfirmedBallotPrepared slot newH);;
         emitCurrentStateStatement env pe);; mret true) (fun _ s' => good s s') (thrown s) s1) as Hadv.
  { intros s1 Hs1 Hp1. wp_step. eapply wp_mono; [apply (advance_wp s s1); congruence || done| |done].
    intros. by wp_step. }
  destruct raise, setC; cbn [when orb]; repeat first [apply Hadv; [step_bp|done] | wp_step];
    try reflexivity.
  - split; [|done]. apply slot_le_bp; [by left|done|done|done].
  - by apply thrown_here.
Qed.

Lemma attemptPreparedConfirmed_wp s hint : ready L s ->
  wp (attemptPreparedConfirmed env pe hint) (fun _ s' => good s s') (thrown s) s.
Proof using Hpe.
  intros HL. unfold attemptPreparedConfirmed. wp_step; wp_step; wp_step; [by wp_step|].
  assert (phaseOf s <> SCP_PHASE_EXTERNALIZE) as Hp.
  { unfold phaseOf. intros Hp. by rewrite Hp in H. }
  wp_steps; try reflexivity; by apply setPreparedConfirmed_wp.
Qed.

(** *** Accepting and confirming a commit *)

Lemma setAcceptCommit_wp s c h : ready L s -> phaseOf s <> SCP_PHASE_EXTERNALIZE ->
  wp (setAcceptCommit env pe c h) (fun _ s' => good s s') (thrown s) s.
Proof using Hpe.
  intros HL Hp. unfold setAcceptCommit. wp_step; wp_step. cbv zeta.
  match goal with |- wp (when ?b _ ≫= _) _ _ _ => generalize b as changed end. intros changed.
  assert (forall s1, self_step s s1 -> phaseOf s1 <> SCP_PHASE_EXTERNALIZE ->
    wp ((updateCurrentIfNeeded env;; notify (fun slot => AcceptedCommit slot h);;
         emitCurrentStateStatement env pe);; mret true) (fun _ s' => good s s') (thrown s) s1) as Hadv.
  { intros s1 Hs1 Hp1. wp_step. eapply wp_mono; [by apply (advance_wp s s1)| |done].
    intros. by wp_step. }
  set (bp1 := if changed then Set_.highBallot (Set_.commit (mBallotProtocol s) (Some c)) (Some h)
              else mBallotProtocol s).
  assert (phaseOf (Set_.bp s bp1) = phaseOf s) as Hp1 by (by destruct changed).
  wp_step. eapply wp_mono with (Q := fun _ s1 => s1 = Set_.bp s bp1) (E := thrown s).
  { destruct changed; wp_steps; try done; by destruct s. }
  2: done.
  intros [] s1 ->. destruct (bool_decide _) eqn:Hprep; cbn [when]; [|rewrite orb_false_r].
  - apply bool_decide_eq_true in Hprep. rewrite orb_true_r. cbn [when]. wp_step; wp_step; wp_step; wp_step.
    set (s2 := Set_.bp (Set_.bp s bp1) _).
    assert (slot_le s s2) as Hle2.
    { apply (slot_le_bp s); [by left|unfold phaseOf; rewrite Hprep; cbn; lia|by destruct changed|by destruct changed]. }
    eapply wp_mono with (Q := fun _ s3 => slot_le s s3 /\
      exists b, core (mBallotProtocol s3) = core (Set_.currentBallot (mBallotProtocol s2) b)) (E := thrown s).
    + wp_steps; try (split; [done|by eexists]).
      eapply wp_from; [exact Hle2|apply bumpToBallot_wp|]; [done|].
      intros [] s3 [Hle Hb]. split; [by etransitivity|]. eexists. by rewrite Hb.
    + intros [] s3 (Hle3 & b & Hb3). unfold core, ballots in Hb3. injection Hb3 as _ _ _ _ _ Hp3 Hl3 Hv3.
      assert (phaseOf s3 = SCP_PHASE_CONFIRM) as Hp3' by exact Hp3.
      wp_step. apply Hadv; [|unfold phaseOf; cbn; by rewrite Hp3].
      constructor.
      * etransitivity; [exact Hle3|]. apply slot_le_bp; [left; by rewrite Hp3'|done|done|done].
      * unfold level. cbn. rewrite Hv3. by destruct changed.
      * unfold latest. cbn. rewrite Hl3. by destruct changed.
      * left. unfold phaseOf at 2. cbn. rewrite Hp3. unfold phaseOf. rewrite Hprep. cbn. lia.
    + done.
  - wp_step; wp_step. cbn [when]. destruct changed; cbn [when].
    + apply Hadv; [step_bp|]. by rewrite Hp1.
    + wp_steps. by destruct s.
Qed.

Lemma attemptAcceptCommit_wp s hint : ready L s ->
  wp (attemptAcceptCommit env pe hint) (fun _ s' => good s s') (thrown s) s.
Proof using Hpe.
  intros HL. unfold attemptAcceptCommit. wp_step; wp_step; wp_step; [by wp_step|].
  assert (phaseOf s <> SCP_PHASE_EXTERNALIZE) as Hp.
  { unfold phaseOf. intros Hp. by rewrite Hp in H. }
  wp_steps; try reflexivity; by apply setAcceptCommit_wp.
Qed.

(** Stopping the nomination and announcing the value of [c]. *)
Definition stopped (s : Slot) : Slot :=
  Set_.nom s (Set_.nominationStarted (mNominationProtocol s) false).
Definition announced (c : SCPBallot) (s : Slot) : Slot :=
  Set_.calls (stopped s) (mDriverCalls s ++ [ValueExternalized (mSlotIndex s) (value c)]).

Lemma slot_le_stopped s : slot_le s (stopped s).
Proof.
  constructor; try done; cbn; unfold phaseOf, extCount; cbn; try lia.
  by apply emitOk_same.
Qed.

Lemma self_step_announced s s4 c : phaseOf s = SCP_PHASE_CONFIRM -> self_step s s4 ->
  phaseOf s4 = SCP_PHASE_EXTERNALIZE -> extCount s4 <= extCount s ->
  mCommit (mBallotProtocol s4) = Some c -> self_step s (announced c s4).
Proof.
  intros Hp [[] Hv Hl Hcur] Hp4 Hcount Hc. constructor; [constructor|..]; try done.
  - cbn. etransitivity; [eassumption|]. by apply prefix_app_r.
  - unfold extCount in *. cbn. rewrite count_app, count_cons, count_nil, Hp.
    change (phaseOf (announced c s4)) with (phaseOf s4). rewrite Hp4. cbn [phaseRank isExternalized].
    change (2 / 2 - 1 / 2) with 1. lia.
  - intros Hx i v Hin. cbn in Hin. apply elem_of_app in Hin as [Hin|Hin].
    + apply (le_extok0 Hx i v Hin).
    + apply list_elem_of_singleton in Hin. injection Hin as -> ->.
      split; [done|]. split; [done|]. by exists c.
  - intros Hx. eapply emitOk_same; [| |exact (le_emit0 Hx)]; [done|].
    unfold emitted. cbn [mDriverCalls announced Set_.calls]. rewrite omap_app. by rewrite app_nil_r.
Qed.

(** The only place where a value is externalized. *)
Lemma setConfirmCommit_wp s c h : ready L s -> phaseOf s = SCP_PHASE_CONFIRM ->
  wp (setConfirmCommit env pe c h) (fun _ s' => good s s') (thrown s) s.
Proof using Hpe.
  intros HL Hp. unfold setConfirmCommit. wp_step; wp_step.
  set (s1 := Set_.bp s _).
  assert (phaseOf s <> SCP_PHASE_EXTERNALIZE) as Hpe' by (by rewrite Hp).
  assert (self_step s s1) as Hs1 by (unfold s1; step_bp).
  wp_step. eapply wp_from; [apply Hs1|by apply updateCurrentIfNeeded_wp|].
  intros [] s2 [Hle2 Hr2]. wp_step; wp_step. set (s3 := Set_.bp s2 _).
  pose proof (raised_current _ _ Hr2) as (Hp2 & Hl2 & Hv2 & _).
  assert (phaseOf s2 = SCP_PHASE_CONFIRM) as Hp2' by (unfold phaseOf; rewrite Hp2; exact Hp).
  assert (slot_le s s2) as Hle by (etransitivity; [apply Hs1|done]).
  assert (self_step s s3) as Hs3.
  { constructor.
    - etransitivity; [exact Hle|]. apply slot_le_bp; [left; by rewrite Hp2'|by rewrite Hp2'|done|done].
    - done.
    - unfold latest. cbn. by rewrite Hl2.
    - left. rewrite Hp. cbn. lia. }
  wp_step. eapply wp_mono; [by apply (emit_after s s3)| |done].
  intros [] s4 (Hs34 & Hs4 & Ho4). unfold stopNomination.
  wp_steps; [|split; [by etransitivity; [apply Hs4|apply slot_le_stopped]|done]].
  assert (phaseOf s4 = SCP_PHASE_EXTERNALIZE) as Hp4
    by (apply phaseRank_ext; exact (le_phase (st_le _ _ _ Hs34))).
  split; [|by intros _]. apply (self_step_announced s s4 a); try done.
  pose proof (le_externalized (st_le _ _ _ Hs34)) as H1.
  pose proof (le_externalized Hle) as H2.
  rewrite Hp4 in H1. rewrite Hp, Hp2' in H2. cbn in *.
  change (extCount s3) with (extCount s2) in H1. lia.
Qed.

Lemma attemptConfirmCommit_wp s hint : ready L s ->
  wp (attemptConfirmCommit env pe hint) (fun _ s' => good s s') (thrown s) s.
Proof using Hpe.
  intros HL. unfold attemptConfirmCommit. wp_step; wp_step; wp_step; [by wp_step|].
  assert (phaseOf s = SCP_PHASE_CONFIRM) as Hp.
  { zify_bool. by apply bool_decide_eq_true in H. }
  wp_steps; try reflexivity; by apply setConfirmCommit_wp.
Qed.
(** *** The bump loop *)

Lemma bumpTarget_spec envs target counters n :
  bumpTarget env envs target counters = Some n -> n ∈ counters /\ target < n.
Proof.
  induction counters as [|m r IH]; cbn; [done|]. case_ifs; intros Hn; zify_bool; try done.
  all: try (injection Hn as <-; split; [left|lia]).
  all: destruct (IH Hn); split; [by right|done].
Qed.

Definition ahead (t : Z) (p : NodeID * SCPEnvelope) : bool :=
  t <? statementCounter (statement p.2).

(** Bounds the bumps that can still happen: what is left of the phases, the
    other nodes that are ahead, and whether the node's own statement is. *)
Definition ownAhead (s : Slot) : bool :=
  match om_find self (latest s) with
  | Some e => inPrepareOrConfirm (phaseOf s) && (targetCounter s <? statementCounter (statement e))
  | None => false
  end.

Definition bumpMeasure (s : Slot) : Z :=
  let os := others env (latest s) in
  (2 - phaseRank (phaseOf s)) * (Z.of_nat (length os) + 2) +
  count (ahead (targetCounter s)) os + (if ownAhead s then 1 else 0).

Lemma own_ok_ahead s : own_ok s -> ownAhead s = false.
Proof.
  intros Ho. unfold ownAhead. destruct (om_find _ _) as [e|] eqn:He; [|done].
  destruct (Ho e He) as [Hp|Hc]; [by rewrite Hp|]. apply andb_false_iff. right. by apply Z.ltb_ge.
Qed.

(** An element that passes the first test and not the second makes the difference strict. *)
Lemma count_lt {A} (f g : A -> bool) l x :
  (forall y, f y = true -> g y = true) -> x ∈ l -> g x = true -> f x = false ->
  count f l < count g l.
Proof.
  intros Hfg Hx Hg Hf. induction l as [|y l IH]; [by apply elem_of_nil in Hx|].
  rewrite !count_cons. assert (count f l <= count g l) by (apply count_mono; auto).
  apply elem_of_cons in Hx as [<-|Hx].
  - rewrite Hg, Hf. lia.
  - specialize (IH Hx). specialize (Hfg y). destruct (f y); [rewrite Hfg by done|destruct (g y)]; lia.
Qed.

Lemma bump_decreases n s s' :
  phaseOf s <> SCP_PHASE_EXTERNALIZE -> om_sorted (latest s) ->
  (exists p, p ∈ latest s /\ statementCounter (statement p.2) = n) -> targetCounter s < n ->
  bump_post n s true s' -> bumpMeasure s' < bumpMeasure s.
Proof.
  intros Hp Hsort ([k e] & Hin & Hn) Ht (Hs & Ho & Hcase). unfold bumpMeasure.
  rewrite (own_ok_ahead s' Ho), (st_others _ _ _ Hs). cbv zeta.
  set (os := others env (latest s)).
  pose proof (phaseRank_range (phaseOf s)). pose proof (phaseRank_range (phaseOf s')).
  pose proof (count_le_length (ahead (targetCounter s')) os).
  pose proof (count_nonneg (ahead (targetCounter s)) os).
  destruct Hcase as [Hr|[Hp' Ht']].
  { destruct (ownAhead s); nia. }
  rewrite Hp'. assert (count (ahead (targetCounter s')) os <= count (ahead (targetCounter s)) os).
  { apply count_mono. unfold ahead. intros x _ Hx. zify_bool. apply Z.ltb_lt. lia. }
  destruct (Z.eq_dec k self) as [->|Hk].
  - assert (ownAhead s = true) as ->; [|lia]. unfold ownAhead.
    rewrite (elem_om_find _ _ _ Hsort Hin). cbn in Hn. apply andb_true_iff. split.
    + by destruct (phaseOf s).
    + apply Z.ltb_lt. lia.
  - assert (count (ahead (targetCounter s')) os < count (ahead (targetCounter s)) os);
      [|destruct (ownAhead s); lia].
    apply count_lt with (x := (k, e)); unfold ahead; cbn in *.
    + intros y Hy. zify_bool. apply Z.ltb_lt. lia.
    + apply list_elem_of_In, filter_In. split; [by apply list_elem_of_In|]. cbn.
      apply negb_true_iff, Z.eqb_neq. done.
    + apply Z.ltb_lt. lia.
    + apply Z.ltb_ge. lia.
Qed.
Lemma attemptBump_wp s : ready L s ->
  wp (attemptBump env pe)
    (fun r s' => good s s' /\ (r = true -> bumpMeasure s' < bumpMeasure s)) (thrown s) s.
Proof using Hpe.
  intros HL. unfold attemptBump. wp_step; wp_step; wp_step; [|by wp_step].
  assert (phaseOf s <> SCP_PHASE_EXTERNALIZE) as Hp.
  { unfold phaseOf. intros Hp. by rewrite Hp in H. }
  cbv zeta. destruct (bumpTarget _ _ _ _) as [n|] eqn:Hn; [|by wp_step].
  apply bumpTarget_spec in Hn as [Hin Hlt].
  eapply wp_mono; [by apply abandonBallot_wp| |done].
  intros r s' Hr. split; [by eapply bump_post_good|]. intros ->.
  eapply bump_decreases; [done|apply HL| |exact Hlt|done].
  apply elem_of_os_insert in Hin as [->|Hin].
  { fold (targetCounter s) in Hlt. lia. }
  apply elem_of_os_of_list, list_elem_of_fmap in Hin as (p & -> & Hp'). by exists p.
Qed.

Lemma bumpLoop_wp fuel : forall s didWork, ready L s -> bumpMeasure s < Z.of_nat fuel ->
  wp (bumpLoop env pe fuel didWork) (fun _ s' => good s s') (thrown s) s.
Proof using Hpe.
  induction fuel as [|fuel IH]; intros s didWork HL Hm.
  { unfold bumpMeasure in Hm. pose proof (phaseRank_range (phaseOf s)).
    pose proof (count_nonneg (ahead (targetCounter s)) (others env (latest s))).
    destruct (ownAhead s); nia. }
  cbn [bumpLoop]. eapply wp_seq; [by apply attemptBump_wp|].
  intros didBump s1 [Hg Hd]. split; [by apply good_le|]. destruct didBump; [|by wp_step].
  specialize (Hd eq_refl). eapply wp_mono; [apply IH| |done].
  - eapply ready_step; [apply Hg|done].
  - lia.
  - intros r s' Hg'. by etransitivity.
Qed.

Lemma bumpMeasure_fuel s : bumpMeasure s < Z.of_nat (bumpFuel (mBallotProtocol s)).
Proof.
  unfold bumpMeasure, bumpFuel. fold (latest s). cbv zeta.
  pose proof (phaseRank_range (phaseOf s)).
  pose proof (count_le_length (ahead (targetCounter s)) (others env (latest s))).
  assert (length (others env (latest s)) <= length (latest s))%nat by apply filter_length_le.
  destruct (ownAhead s); nia.
Qed.

Lemma checkHeardFromQuorum_wp s :
  wp (checkHeardFromQuorum env) (fun _ s' => quiet s s') (thrown s) s.
Proof.
  unfold checkHeardFromQuorum. wp_steps; try (split; [reflexivity|done]).
  split; [|done]. etransitivity; [|by apply slot_le_call].
  apply slot_le_bp; [by right|done|done|done].
Qed.
(** *** [advanceSlot] *)

Definition withLevel (d : Z) (s : Slot) : Slot :=
  Set_.bp s (Set_.level (mBallotProtocol s) (mCurrentMessageLevel (mBallotProtocol s) + d)).

Lemma slot_le_level d s : slot_le s (withLevel d s).
Proof. apply slot_le_bp; [by right|done|done|done]. Qed.

(** Between raising and lowering the level, a good step is a good step. *)
Lemma good_level s s1 : good (withLevel 1 s) s1 -> good s (withLevel (-1) s1).
Proof.
  intros [[Hle Hv Hl Hc] Ho]. split.
  - constructor; [|unfold level in *; cbn in *; lia|exact Hl|exact Hc].
    etransitivity; [apply (slot_le_level 1)|]. etransitivity; [exact Hle|apply slot_le_level].
  - intros H e. apply (Ho H e).
Qed.

Lemma advanceSlot_wp s hint : ready (L - 1) s ->
  wp (advanceSlot env pe hint) (fun _ s' => good s s') (thrown s) s.
Proof using Hpe.
  intros [HL Hsort]. unfold advanceSlot. wp_step; wp_step.
  change (Set_.bp s _) with (withLevel 1 s). set (s0 := withLevel 1 s).
  assert (ready L s0) as H0 by (split; [unfold level in *; cbn; lia|done]).
  eapply wp_mono with (E := thrown s0); [|intros r s' Hr; exact Hr|].
  2: { intros x s'. apply thrown_trans, slot_le_level. }
  wp_step; wp_step; wp_step; [by wp_step; apply thrown_here|].
  assert (forall A (m : M Slot A) B (f : A -> M Slot B) Q s1, good s0 s1 ->
    (forall s, ready L s -> wp m (fun _ s' => good s s') (thrown s) s) ->
    (forall a s', good s0 s' -> wp (f a) Q (thrown s0) s') -> wp (m ≫= f) Q (thrown s0) s1) as Hseq.
  { intros A m B f Q s1 Hg Hm Hf. wp_step. eapply wp_from; [by apply good_le|apply Hm|].
    - eapply ready_step; [apply Hg|done].
    - intros a s' Hg'. apply Hf. by etransitivity. }
  apply (Hseq unit); [reflexivity| |].
  { intros s1 H1. eapply wp_mono; [apply checkHeardFromQuorum_wp| |done].
    intros [] s' Hq. by apply quiet_good. }
  intros [] s1 H1. apply (Hseq bool); [done|intros; by apply attemptPreparedAccept_wp|].
  intros w1 s2 H2. apply (Hseq bool); [done|intros; by apply attemptPreparedConfirmed_wp|].
  intros w2 s3 H3. apply (Hseq bool); [done|intros; by apply attemptAcceptCommit_wp|].
  intros w3 s4 H4. apply (Hseq bool); [done|intros; by apply attemptConfirmCommit_wp|].
  intros w4 s5 H5. cbv zeta. wp_step; wp_step. wp_step.
  eapply wp_mono with (Q := fun _ s' => good s0 s') (E := thrown s0); [| |done].
  { wp_step; [|by wp_step]. eapply wp_from; [by apply good_le|apply bumpLoop_wp|].
    - eapply ready_step; [apply H5|done].
    - apply bumpMeasure_fuel.
    - intros r s' Hg. by etransitivity. }
  intros didWork s6 H6. wp_step; wp_step.
  change (Set_.bp s6 _) with (withLevel (-1) s6).
  assert (good s (withLevel (-1) s6)) as H7 by (by apply good_level).
  wp_step; [|done].
  eapply wp_from; [etransitivity; [apply good_le, H6|apply slot_le_level]|apply sendLatestEnvelope_wp|].
  intros [] s' Hq. etransitivity; [exact H7|]. by apply quiet_good.
Qed.

End WithPe.

Lemma advanceSlot_limit pe s hint : MAX_ADVANCE_SLOT_RECURSION <= level s + 1 ->
  wp (advanceSlot env pe hint) (fun _ _ => False) (thrown s) s.
Proof.
  intros HL. unfold advanceSlot. wp_step; wp_step; wp_step; wp_step; wp_step.
  - wp_step. split; [apply (slot_le_level 1)|done].
  - zify_bool. unfold level in HL. cbn in *. lia.
Qed.
(** *** [processEnvelope] *)

(** The slot after [recordEnvelope e]; [fv] is the new [mFullyValidated]. *)
Definition recorded (e : SCPEnvelope) (fv : bool) (s : Slot) : Slot :=
  let s1 := Set_.fullyValidated s fv in
  let s2 := Set_.bp s1 (Set_.latestEnvelopes (mBallotProtocol s)
              (om_set (nodeID (statement e)) e (latest s))) in
  Set_.history s2 (mStatementsHistory s ++ [(statement e, fv)]).

(** [e] is newer than what is recorded for its node. *)
Definition fresh_for (s : Slot) (e : SCPEnvelope) : Prop :=
  forall old, om_find (nodeID (statement e)) (latest s) = Some old ->
    isNewerStatement (statement old) (statement e) = true.

Lemma slot_le_recorded s e fv : fresh_for s e -> (fv = true -> mFullyValidated s = true) ->
  slot_le s (recorded e fv s).
Proof.
  intros Hf Hv. constructor; try done; cbn; try lia.
  - intros n old Hn. destruct (Z.eq_dec (nodeID (statement e)) n) as [<-|Hne].
    + exists e. unfold latest at 1. cbn. rewrite om_find_set_eq. split; [done|right; auto].
    + exists old. unfold latest at 1. cbn. rewrite om_find_set_ne by done. split; [done|reflexivity].
  - intros Hs. by apply om_set_sorted.
  - by apply prefix_app_r.
  - unfold extCount, phaseOf. cbn. lia.
  - by apply emitOk_same.
Qed.

(** The outcome of processing: nothing changes when the envelope is
    refused; otherwise it was newer, it is recorded and the slot advances. *)
Definition processed (e : SCPEnvelope) (s : Slot) (r : EnvelopeState) (s' : Slot) : Prop :=
  match r with
  | INVALID => s' = s
  | VALID => fresh_for s e /\ exists fv, (fv = true -> mFullyValidated s = true) /\
      good (recorded e fv s) s'
  end.

Lemma processed_le e s r s' : processed e s r s' -> slot_le s s'.
Proof.
  destruct r; [by intros ->|]. intros (Hf & fv & Hfv & Hg).
  etransitivity; [by apply slot_le_recorded|by apply good_le].
Qed.

Lemma processEnvelopeBody_wp pe s e self : om_sorted (latest s) ->
  (level s + 1 < MAX_ADVANCE_SLOT_RECURSION -> pe_spec pe (level s + 1)) ->
  wp (processEnvelopeBody env pe e self) (processed e s) (thrown s) s.
Proof.
  intros Hsort Hpe. unfold processEnvelopeBody. wp_step; wp_step; cbv zeta.
  wp_step; wp_step; [|throws]. wp_step.
  eapply wp_mono with (Q := fun _ s' => s' = s) (E := thrown s); [|intros sane s' ->|done].
  { unfold isStatementSane. by wp_steps. }
  wp_step; [by wp_step|]. unfold isNewerStatementFor. wp_step; wp_step; wp_step; wp_step.
  wp_step; [by wp_step|].
  assert (fresh_for s e) as Hf.
  { intros old Hold. zify_bool. unfold latest in Hold. by rewrite Hold in H0. }
  assert (forall fv, (fv = true -> mFullyValidated s = true) ->
    wp (advanceSlot env pe (statement e);; mret VALID) (processed e s) (thrown s) (recorded e fv s)) as Hadv.
  { intros fv Hfv. wp_step. eapply wp_from; [by apply slot_le_recorded| |].
    - destruct (Z.lt_ge_cases (level s + 1) MAX_ADVANCE_SLOT_RECURSION) as [Hlt|Hge].
      + apply (advanceSlot_wp pe (level s + 1)); [by apply Hpe|].
        split; [unfold level; cbn; lia|by apply om_set_sorted].
      + eapply wp_mono; [by apply advanceSlot_limit|done|done].
    - intros [] s' Hg. wp_step. split; [done|]. by exists fv. }
  unfold recordEnvelope, recordStatement.
  destruct (validateValues _ _ _); [by wp_step| |].
  all: wp_step; wp_step; wp_step; [cbn [when]|].
  all: repeat first [apply (Hadv (mFullyValidated s)); done | by apply (Hadv false) | wp_step].
  all: try throws; try done.
  all: split; [done|]; exists (mFullyValidated s); split; [done|reflexivity].
Qed.
Lemma others_set e (m : EnvelopeMap) : others env (om_set self e m) = others env m.
Proof.
  unfold others. induction m as [|[k x] m IH]; cbn [om_set].
  - cbn. by rewrite Z.eqb_refl.
  - destruct (ltb self k) eqn:E1; [|destruct (ltb k self) eqn:E2].
    + cbn. by rewrite Z.eqb_refl.
    + cbn. by rewrite IH.
    + assert (self = k) as <- by (by apply ltb_total). cbn. by rewrite Z.eqb_refl.
Qed.

Lemma recorded_self_step e fv s : nodeID (statement e) = self -> fresh_for s e ->
  (fv = true -> mFullyValidated s = true) -> self_step s (recorded e fv s).
Proof.
  intros Hn Hf Hfv. constructor; [by apply slot_le_recorded|done| |].
  - unfold latest at 1. cbn. rewrite Hn. apply others_set.
  - right. split; [done|]. intros b Hb. exists b. split; [done|reflexivity].
Qed.

Lemma processed_pe_spec pe L :
  (forall e s, ready L s -> wp (pe e) (processed e s) (thrown s) s) -> pe_spec pe L.
Proof.
  intros Hpe e s HL Hn Hc. eapply wp_mono; [by apply Hpe| |done].
  intros [] s'; [intros ->; split; [reflexivity|done]|].
  intros (Hf & fv & Hfv & [Hs Ho]). split.
  - etransitivity; [|exact Hs]. by apply recorded_self_step.
  - intros _. apply Ho. intros x. unfold latest. cbn. rewrite Hn, om_find_set_eq.
    intros [= <-]. exact Hc.
Qed.

Lemma processEnvelopeFuel_wp fuel : forall e self s, om_sorted (latest s) -> (0 < fuel)%nat ->
  MAX_ADVANCE_SLOT_RECURSION <= Z.of_nat fuel + level s ->
  wp (processEnvelopeFuel env fuel e self) (processed e s) (thrown s) s.
Proof.
  induction fuel as [|fuel IH]; [lia|]. intros e slf s Hsort _ HL. cbn [processEnvelopeFuel].
  apply processEnvelopeBody_wp; [done|]. intros Hlt. apply processed_pe_spec.
  intros e' s' [HL' Hsort']. apply IH; [done|lia|lia].
Qed.

Lemma processEnvelope_wp e self s : om_sorted (latest s) -> 0 <= level s ->
  wp (processEnvelope env e self) (processed e s) (thrown s) s.
Proof.
  intros Hs Hl. apply processEnvelopeFuel_wp; [done|unfold RECURSION_FUEL; lia|].
  unfold RECURSION_FUEL, MAX_ADVANCE_SLOT_RECURSION. lia.
Qed.

Lemma processSelf_spec L : 0 <= L -> pe_spec (processSelf env) L.
Proof.
  intros HL. apply processed_pe_spec. intros e s [Hl Hs]. apply processEnvelope_wp; [done|lia].
Qed.
End Methods.
