(* ===== verification/BallotVoting.v ===== *)
(** * The ballot protocol moves only on federated agreement

    A transition of the ballot protocol happens only when the recorded
    statements justify it: a v-blocking set or a quorum for accepting, a
    quorum for confirming.  The second part shows that no method lowers p and
    that all keep p' below it. *)

From S2P Require Import Prelude OrdContainers QuorumSet QuorumFacts ScpTypes BallotOrder Federated FederatedFacts Ballot BallotFacts BallotStep.

Import BP.

(** Statements about values only: no condition on the exceptions. *)
Abbreviation returns m Q s := (wp m (fun r s' => Q r s') (fun _ _ => True) s) (only parsing).

Lemma returns_any {A} (m : M Slot A) (Q : A -> Slot -> Prop) s :
  (forall a s', Q a s') -> returns m Q s.
Proof. intros HQ. unfold wp. by destruct (m s). Qed.

Section Voting.
Context (env : ScpEnv) (pe : SCPEnvelope -> M Slot EnvelopeState).

(** *** Accepting as prepared *)

(** The ballot [b] becomes p or p', the driver is told so, and the statement
    that follows from it is emitted. *)
Definition acceptedPrepared s (b : SCPBallot) s' : Prop := exists s1,
  (mPrepared (mBallotProtocol s1) = Some b \/ mPreparedPrime (mBallotProtocol s1) = Some b) /\
  mDriverCalls s1 = mDriverCalls s ++ [AcceptedBallotPrepared (mSlotIndex s) b] /\
  emitCurrentStateStatement env pe s1 = Ret tt s'.

(** A ballot that the loop does not skip is new to p and p'. *)
Definition newlyPrepared (bp : BallotProtocol) (b : SCPBallot) : Prop :=
  match mPreparedPrime bp with Some p' => 0 < compareBallots b p' | None => True end /\
  match mPrepared bp with Some p => areBallotsLessAndCompatible b p = false | None => True end.

Lemma setPrepared_new bp b : newlyPrepared bp b -> let r := setPrepared b bp in
  r.1 = true /\ (mPrepared r.2 = Some b \/ mPreparedPrime r.2 = Some b).
Proof.
  intros [H1 H2]. unfold setPrepared. destruct (mPrepared bp) as [p|]; [|cbn; tauto].
  destruct (compareBallots_spec p b) as [[E Hlt]|[[E ->]|[E Hgt]]]; rewrite E; cbn [Z.ltb Z.gtb Z.compare].
  - destruct (negb _); cbn; tauto.
  - apply not_true_iff_false in H2. destruct H2. apply lessAndCompatible_true. split; [|done]. unfold ballot_le. by rewrite compareBallots_refl.
  - destruct (mPreparedPrime bp) as [p'|]; [|cbn; tauto]. assert (compareBallots p' b < 0) as Hc.
    { apply compareBallots_lt. apply compareBallots_gt. lia. }
    apply Z.ltb_lt in Hc. rewrite Hc. cbn. tauto.
Qed.

Lemma setPreparedAccept_accepts b s : newlyPrepared (mBallotProtocol s) b ->
  returns (setPreparedAccept env pe b) (fun r s' => acceptedPrepared s b s') s.
Proof.
  intros Hn. destruct (setPrepared_new _ _ Hn) as [Hd Hp]. unfold setPreparedAccept. wp_step; wp_step.
  destruct (setPrepared b (mBallotProtocol s)) as [didWork bp]. cbn in Hd, Hp. subst didWork. wp_step; wp_step. cbv zeta.
  match goal with |- wp (when ?c _ ≫= _) _ _ _ => generalize c as clearC end. intros clearC. cbn [orb when].
  assert (forall s1, mSlotIndex s1 = mSlotIndex s -> mDriverCalls s1 = mDriverCalls s -> (mPrepared (mBallotProtocol s1) = Some b \/ mPreparedPrime (mBallotProtocol s1) = Some b) ->
    returns ((notify (fun slot => AcceptedBallotPrepared slot b);; emitCurrentStateStatement env pe);; mret true) (fun r s' => acceptedPrepared s b s') s1) as Hemit.
  { intros s1 Hi Hc Hb. do 2 apply wp_bind. cbn [wp notify modify]. unfold wp at 1. unfold notify, modify. unfold wp.
    set (s2 := Set_.calls s1 _). destruct (emitCurrentStateStatement env pe s2) as [[] s'|] eqn:E; [|done].
    cbn. exists s2. split; [done|]. split; [|done]. cbn. by rewrite Hc, Hi. }
  apply wp_bind, wp_when; intros _; [|by apply Hemit]. wp_step. unfold dbgAssert. destruct (_ && _); [done|]. wp_step. wp_step. by apply Hemit.
Qed.

Lemma preparedAcceptLoop_sound cands s :
  returns (preparedAcceptLoop env pe (mBallotProtocol s) cands) (fun r s' => r = true ->
    exists b, b ∈ cands /\ federatedAccept env (votesPrepared b) (hasPreparedBallot b) (latest s) = Some true /\ acceptedPrepared s b s') s.
Proof.
  induction cands as [|b r IH]; cbn [preparedAcceptLoop]; [by wp_step|].
  assert (returns (preparedAcceptLoop env pe (mBallotProtocol s) r) (fun r0 s' => r0 = true -> exists b0, b0 ∈ b :: r /\
    federatedAccept env (votesPrepared b0) (hasPreparedBallot b0) (latest s) = Some true /\ acceptedPrepared s b0 s') s) as Hr.
  { eapply wp_mono; [apply IH| |done]. intros x s' Hx Ht. destruct (Hx Ht) as (b' & Hin & Hb). exists b'. split; [by right|done]. }
  wp_step. eapply wp_mono with (Q := fun _ s' => s' = s) (E := fun _ _ => True); [by wp_steps| |done]. intros skip s1 ->. destruct skip; [done|].
  destruct (match mPreparedPrime (mBallotProtocol s) with Some p' => _ | None => _ end) eqn:E1; [done|].
  destruct (match mPrepared (mBallotProtocol s) with Some p => _ | None => _ end) eqn:E2; [done|].
  destruct (federatedAccept _ _ _ _) as [acc|] eqn:Ea; [|done]. apply wp_bind. cbn [deref wp mret M_ret]. unfold wp at 1. destruct acc; [|done].
  assert (newlyPrepared (mBallotProtocol s) b) as Hn.
  { split; [destruct (mPreparedPrime _); [lia|done]|by destruct (mPrepared _)]. }
  eapply wp_mono; [by apply setPreparedAccept_accepts| |done]. intros x s' Hx _. exists b. split; [left|]. by split.
Qed.

Lemma attemptPreparedAccept_sound hint s :
  returns (attemptPreparedAccept env pe hint) (fun r s' => r = true ->
    exists b, b ∈ getPrepareCandidates (latest s) hint /\
      federatedAccept env (votesPrepared b) (hasPreparedBallot b) (latest s) = Some true /\ acceptedPrepared s b s') s.
Proof.
  unfold attemptPreparedAccept. wp_step; wp_step; wp_step; [by wp_step|].
  eapply wp_mono; [apply preparedAcceptLoop_sound| |done]. intros r s' Hr Ht.
  destruct (Hr Ht) as (b & Hin & Hb). exists b. split; [|done].
  apply list_elem_of_In, in_rev, list_elem_of_In. exact Hin.
Qed.

(** *** Confirming as prepared *)

Lemma findNewH_sound bp cands newH rest : findNewH env bp cands = Some (Some (newH, rest)) ->
  newH ∈ cands /\ rest `suffix_of` cands /\
  federatedRatify env (hasPreparedBallot newH) (mLatestEnvelopes bp) = Some true /\
  (forall h, mHighBallot bp = Some h -> compareBallots h newH < 0).
Proof.
  induction cands as [|b r IH]; cbn [findNewH]; [done|].
  destruct (mHighBallot bp) as [h|] eqn:Hh; [destruct (compareBallots h b >=? 0) eqn:Hc; [done|]|];
    destruct (federatedRatify env (hasPreparedBallot b) (mLatestEnvelopes bp)) as [[]|] eqn:Hf;
    try done; intros H.
  - injection H as <- <-. split; [left|]. split; [done|]. split; [done|].
    intros h' [= <-]. rewrite Z.geb_leb in Hc. apply Z.leb_gt in Hc. lia.
  - destruct (IH H) as (? & Hs & ?). split; [by right|]. split; [by apply suffix_cons_r|done].
  - injection H as <- <-. by split; [left|].
  - destruct (IH H) as (? & Hs & ?). split; [by right|]. split; [by apply suffix_cons_r|done].
Qed.

Lemma attemptPreparedConfirmed_sound hint s :
  returns (attemptPreparedConfirmed env pe hint) (fun r _ => r = true ->
    phaseOf s = SCP_PHASE_PREPARE /\
    exists h, h ∈ getPrepareCandidates (latest s) hint /\
      federatedRatify env (hasPreparedBallot h) (latest s) = Some true) s.
Proof.
  unfold attemptPreparedConfirmed. wp_step; wp_step; wp_step; [by wp_step|]. zify_bool.
  apply bool_decide_eq_true in H. wp_step; [by wp_step|]. cbv zeta. wp_step; wp_step; [|done].
  destruct a as [[newH rest]|]; [|by wp_step].
  apply findNewH_sound in H1 as (Hin & _ & Hf & _). wp_step. apply returns_any. intros newC s1.
  apply returns_any. intros _ _ _. split; [done|]. exists newH. split; [|done].
  apply list_elem_of_In, in_rev, list_elem_of_In. exact Hin.
Qed.

(** *** Accepting and confirming a commit *)

Lemma extendLoop_sound (pred : Z * Z -> option bool) bs : forall cand lo hi,
  extendLoop pred bs cand = Some (lo, hi) -> (lo, hi) = cand \/ pred (lo, hi) = Some true.
Proof.
  induction bs as [|b r IH]; cbn; intros cand lo hi H; [left; congruence|].
  destruct (negb (cand.1 =? 0) && (b >? cand.2)); [by apply IH|].
  set (cur := if cand.1 =? 0 then (b, b) else (b, cand.2)) in *.
  destruct (pred cur) as [[]|] eqn:Hp; [|destruct (negb (cand.1 =? 0))|done].
  - destruct (IH cur lo hi H) as [->|]; auto.
  - left. congruence.
  - by apply IH.
Qed.

Lemma attemptAcceptCommit_sound hint s :
  returns (attemptAcceptCommit env pe hint) (fun r _ => r = true ->
    exists ballot lo hi, commitHint hint = Some ballot /\ lo <> 0 /\
      federatedAccept env (votesCommit ballot (lo, hi)) (commitPredicate ballot (lo, hi))
        (latest s) = Some true) s.
Proof.
  unfold attemptAcceptCommit. wp_step; wp_step; wp_step; [by wp_step|].
  destruct (commitHint hint) as [ballot|] eqn:Hhint; [|by wp_step].
  wp_step. eapply wp_mono with (Q := fun _ s' => s' = s) (E := fun _ _ => True);
    [by wp_steps|intros inc s' ->|done].
  wp_step; [by wp_step|]. cbv zeta. wp_step; [by wp_step|]. wp_step; wp_step; [|done].
  destruct a as [lo hi]. cbn [fst snd]. wp_step; [|by wp_step]. zify_bool.
  apply extendLoop_sound in H2 as [[= -> ->]|Hp]; [done|].
  wp_step. apply returns_any. intros higher s1. wp_step; [|by wp_step].
  apply returns_any. intros _ _ _. exists ballot, lo, hi. split; [done|]. by split.
Qed.

Lemma attemptConfirmCommit_sound hint s :
  returns (attemptConfirmCommit env pe hint) (fun r _ => r = true ->
    phaseOf s = SCP_PHASE_CONFIRM /\
    exists ballot c lo hi, mCommit (mBallotProtocol s) = Some c /\ value ballot = value c /\ lo <> 0 /\
      federatedRatify env (commitPredicate ballot (lo, hi)) (latest s) = Some true) s.
Proof.
  unfold attemptConfirmCommit. wp_step; wp_step; wp_step; [by wp_step|]. zify_bool.
  apply bool_decide_eq_true in H.
  destruct (mHighBallot (mBallotProtocol s)); [|by wp_step].
  destruct (mCommit (mBallotProtocol s)) as [c|] eqn:Hc; [|by wp_step].
  destruct (match pledges hint with PREPARE _ => None | _ => commitHint hint end) as [ballot|];
    [|by wp_step].
  wp_step; [by wp_step|]. zify_bool. apply compatible_true in H0. cbv zeta.
  wp_step; wp_step; [|done]. destruct a as [lo hi]. cbn [fst snd]. wp_step; [|by wp_step]. zify_bool.
  apply extendLoop_sound in H1 as [[= -> ->]|Hp]; [done|].
  apply returns_any. intros _ _ _. split; [done|]. by exists ballot, c, lo, hi.
Qed.
End Voting.

(** * p only rises, and p' stays below it

    The pair of prepared ballots through every method, whether it returns or
    throws, in debug and release builds. *)

(** From ordered prepared ballots to ordered ones, and p is not lower. *)
Definition rise (s s' : Slot) : Prop := preparedOrdered (mBallotProtocol s) ->
  preparedOrdered (mBallotProtocol s') /\ optBallot_le (mPrepared (mBallotProtocol s)) (mPrepared (mBallotProtocol s')).

Lemma optBallot_le_refl o : optBallot_le o o.
Proof. destruct o; [|done]. unfold optBallot_le, ballot_le. by rewrite compareBallots_refl. Qed.

Lemma optBallot_le_trans o1 o2 o3 : optBallot_le o1 o2 -> optBallot_le o2 o3 -> optBallot_le o1 o3.
Proof. destruct o1, o2, o3; cbn; try done. apply transitivity. Qed.

Global Instance rise_preorder : PreOrder rise.
Proof.
  split; [intros s Ho; split; [done|apply optBallot_le_refl]|]. intros s1 s2 s3 H1 H2 Ho. destruct (H1 Ho) as [Ho2 Hl1]. destruct (H2 Ho2) as [Ho3 Hl2].
  split; [done|by eapply optBallot_le_trans].
Qed.

Definition prepareds (bp : BallotProtocol) : option SCPBallot * option SCPBallot := (mPrepared bp, mPreparedPrime bp).

Lemma rise_same s s' : prepareds (mBallotProtocol s') = prepareds (mBallotProtocol s) -> rise s s'.
Proof.
  unfold prepareds. intros [= H1 H2] Ho. unfold preparedOrdered in *. rewrite H1, H2. split; [done|apply optBallot_le_refl].
Qed.

(** A computation after which the ballots have risen, however it ends. *)
Definition rises {A} (m : M Slot A) : Prop := forall s, wp m (fun _ s' => rise s s') (fun _ s' => rise s s') s.

Create HintDb rises.

Lemma rises_bind {A B} (m : M Slot A) (f : A -> M Slot B) : rises m -> (forall a, rises (f a)) -> rises (m ≫= f).
Proof.
  intros Hm Hf s. apply wp_bind. eapply wp_mono; [apply Hm| |done]. intros a s1 H1.
  eapply wp_mono; [apply Hf|..]; intros x s2 H2; cbv beta in *; by transitivity s1.
Qed.
Lemma rises_ret {A} (a : A) : rises (mret a).
Proof. intros s. cbn. reflexivity. Qed.
Lemma rises_throw {A} x : rises (@throw Slot A x).
Proof. intros s. cbn. reflexivity. Qed.
Lemma rises_get : rises get.
Proof. intros s. cbn. reflexivity. Qed.
Lemma rises_modify f : (forall s, prepareds (mBallotProtocol (f s)) = prepareds (mBallotProtocol s)) -> rises (modify f).
Proof. intros Hf s. cbn. apply rise_same, Hf. Qed.
Lemma rises_deref {A} (o : option A) : rises (deref o).
Proof. destruct o; [apply rises_ret|apply rises_throw]. Qed.
Lemma rises_when b (m : M Slot unit) : rises m -> rises (when b m).
Proof. intros Hm. destruct b; [done|apply rises_ret]. Qed.
Lemma rises_dbgAssert env b : rises (dbgAssert env b).
Proof. unfold dbgAssert. destruct (_ && _); [apply rises_throw|apply rises_ret]. Qed.

Ltac rises_step :=
  lazymatch goal with
  | |- rises (mbind _ _) => apply rises_bind; [|intros ?]
  | |- rises (mret _) => apply rises_ret
  | |- rises (throw _) => apply rises_throw
  | |- rises get => apply rises_get
  | |- rises (deref _) => apply rises_deref
  | |- rises (when _ _) => apply rises_when
  | |- rises (dbgAssert _ _) => apply rises_dbgAssert
  | |- rises (dbgAssertM _ _) => unfold dbgAssertM
  | |- rises getBP => unfold getBP
  | |- rises getNom => unfold getNom
  | |- rises (modBP _) => unfold modBP
  | |- rises (modNom _) => unfold modNom
  | |- rises (notify _) => unfold notify
  | |- rises (modify _) => apply rises_modify; intros ?; reflexivity
  | |- rises (match ?x with _ => _ end) => destruct x
  | |- rises (let _ := _ in _) => cbv zeta
  end.
Ltac rises_steps := repeat (cbv beta zeta; first [by auto with rises | rises_step]).

Section Rises.
Context (env : ScpEnv).

Lemma checkInvariants_rises : rises (checkInvariants env).
Proof. unfold checkInvariants. rises_steps. Qed.
#[local] Hint Resolve checkInvariants_rises : rises.

Lemma createStatement_rises ph : rises (createStatement env ph).
Proof. unfold createStatement. rises_steps. Qed.
#[local] Hint Resolve createStatement_rises : rises.

Lemma startBallotProtocolTimer_rises : rises startBallotProtocolTimer.
Proof. unfold startBallotProtocolTimer. rises_steps. Qed.
#[local] Hint Resolve startBallotProtocolTimer_rises : rises.

Lemma bumpToBallot_rises b c : rises (bumpToBallot env b c).
Proof. unfold bumpToBallot. rises_steps. Qed.
#[local] Hint Resolve bumpToBallot_rises : rises.

Lemma updateCurrentValue_rises b : rises (updateCurrentValue env b).
Proof. unfold updateCurrentValue. rises_steps. Qed.
#[local] Hint Resolve updateCurrentValue_rises : rises.

Lemma updateCurrentIfNeeded_rises : rises (updateCurrentIfNeeded env).
Proof. unfold updateCurrentIfNeeded. rises_steps. Qed.
#[local] Hint Resolve updateCurrentIfNeeded_rises : rises.

Lemma sendLatestEnvelope_rises : rises sendLatestEnvelope.
Proof. unfold sendLatestEnvelope. rises_steps. Qed.
#[local] Hint Resolve sendLatestEnvelope_rises : rises.

Lemma checkHeardFromQuorum_rises : rises (checkHeardFromQuorum env).
Proof. unfold checkHeardFromQuorum. rises_steps. Qed.
#[local] Hint Resolve checkHeardFromQuorum_rises : rises.

Section WithPe.
Context (pe : SCPEnvelope -> M Slot EnvelopeState) (Hpe : forall e, rises (pe e)).
#[local] Hint Resolve Hpe : rises.

Lemma emit_rises : rises (emitCurrentStateStatement env pe).
Proof using Hpe. unfold emitCurrentStateStatement, createEnvelope. rises_steps. Qed.
#[local] Hint Resolve emit_rises : rises.

Lemma bumpState_n_rises v n : rises (bumpState_n env pe v n).
Proof using Hpe. unfold bumpState_n. rises_steps. Qed.
#[local] Hint Resolve bumpState_n_rises : rises.

Lemma bumpState_rises v force : rises (bumpState env pe v force).
Proof using Hpe. unfold bumpState. rises_steps. Qed.
#[local] Hint Resolve bumpState_rises : rises.

Lemma abandonBallot_rises n : rises (abandonBallot env pe n).
Proof using Hpe. unfold abandonBallot. rises_steps. Qed.
#[local] Hint Resolve abandonBallot_rises : rises.

Lemma timerExpired_rises : rises (ballotProtocolTimerExpired env pe).
Proof using Hpe. unfold ballotProtocolTimerExpired. rises_steps. Qed.

(** The only method that changes p. *)
Lemma setPreparedAccept_rises b s : newlyPrepared (mBallotProtocol s) b ->
  wp (setPreparedAccept env pe b) (fun _ s' => rise s s') (fun _ s' => rise s s') s.
Proof using Hpe.
  intros [_ Hn]. unfold setPreparedAccept. wp_step; wp_step.
  assert (preparedOrdered (mBallotProtocol s) -> let bp := (setPrepared b (mBallotProtocol s)).2 in
    preparedOrdered bp /\ optBallot_le (mPrepared (mBallotProtocol s)) (mPrepared bp)) as Hset.
  { intros Ho. pose proof (setPrepared_spec b _ Ho) as Hs. destruct (setPrepared b (mBallotProtocol s)) as [d bp]. cbn. split; apply Hs.
    all: intros p Hp; by rewrite Hp in Hn. }
  destruct (setPrepared b (mBallotProtocol s)) as [didWork bp]. cbn [snd] in Hset. wp_step; wp_step. cbv zeta.
  match goal with |- wp (when ?c _ ≫= _) _ _ _ => generalize c as clearC end. intros clearC.
  match goal with |- wp ?m _ _ _ => assert (rises m) as Hm by rises_steps end.
  eapply wp_mono; [apply Hm|..]; intros x s' Hr Ho; destruct (Hset Ho) as [Ho1 Hl1]; destruct (Hr Ho1) as [Ho2 Hl2];
    (split; [done|by eapply optBallot_le_trans]).
Qed.

Lemma preparedAcceptLoop_rises cands s :
  wp (preparedAcceptLoop env pe (mBallotProtocol s) cands) (fun _ s' => rise s s') (fun _ s' => rise s s') s.
Proof using Hpe.
  induction cands as [|b r IH]; cbn [preparedAcceptLoop]; [by cbn|].
  wp_step. eapply wp_mono with (Q := fun _ s' => s' = s) (E := fun _ s' => s' = s); [by wp_steps| |by intros x s' ->]. intros skip s1 ->. destruct skip; [done|].
  destruct (match mPreparedPrime (mBallotProtocol s) with Some p' => _ | None => _ end) eqn:E1; [done|].
  destruct (match mPrepared (mBallotProtocol s) with Some p => _ | None => _ end) eqn:E2; [done|].
  wp_step. wp_step; [|reflexivity]. wp_step; [|done]. apply setPreparedAccept_rises.
  split; [destruct (mPreparedPrime _); [lia|done]|by destruct (mPrepared _)].
Qed.

Lemma attemptPreparedAccept_rises hint : rises (attemptPreparedAccept env pe hint).
Proof using Hpe.
  intros s. unfold attemptPreparedAccept. wp_step; wp_step; wp_step; [wp_step; reflexivity|]. apply preparedAcceptLoop_rises.
Qed.
#[local] Hint Resolve attemptPreparedAccept_rises : rises.

Lemma attemptPreparedConfirmed_rises hint : rises (attemptPreparedConfirmed env pe hint).
Proof using Hpe. unfold attemptPreparedConfirmed, setPreparedConfirmed. rises_steps. Qed.
#[local] Hint Resolve attemptPreparedConfirmed_rises : rises.

Lemma forgetPrime_rises : rises (modBP (fun b => Set_.preparedPrime b None)).
Proof. intros s. cbn. intros _. split; [done|apply optBallot_le_refl]. Qed.
#[local] Hint Resolve forgetPrime_rises : rises.

Lemma attemptAcceptCommit_rises hint : rises (attemptAcceptCommit env pe hint).
Proof using Hpe. unfold attemptAcceptCommit, setAcceptCommit. rises_steps. Qed.
#[local] Hint Resolve attemptAcceptCommit_rises : rises.

Lemma attemptConfirmCommit_rises hint : rises (attemptConfirmCommit env pe hint).
Proof using Hpe. unfold attemptConfirmCommit, setConfirmCommit, stopNomination. rises_steps. Qed.
#[local] Hint Resolve attemptConfirmCommit_rises : rises.

Lemma bumpLoop_rises fuel : forall didWork, rises (bumpLoop env pe fuel didWork).
Proof using Hpe. induction fuel as [|fuel IH]; intros didWork; cbn [bumpLoop]; unfold attemptBump; rises_steps. Qed.
#[local] Hint Resolve bumpLoop_rises : rises.

Lemma advanceSlot_rises hint : rises (advanceSlot env pe hint).
Proof using Hpe. unfold advanceSlot. rises_steps. Qed.
#[local] Hint Resolve advanceSlot_rises : rises.

Lemma processEnvelopeBody_rises e self : rises (processEnvelopeBody env pe e self).
Proof using Hpe.
  unfold processEnvelopeBody, isStatementSane, isNewerStatementFor, recordEnvelope, recordStatement. rises_steps.
Qed.
End WithPe.

Lemma processEnvelopeFuel_rises fuel : forall e self, rises (processEnvelopeFuel env fuel e self).
Proof.
  induction fuel as [|fuel IH]; intros e self; cbn [processEnvelopeFuel]; [apply rises_throw|].
  apply processEnvelopeBody_rises. intros e'. apply IH.
Qed.

End Rises.
