(* ===== verification/Nomination.v ===== *)
(** * The nomination protocol ([scp/NominationProtocol.h], [scp/NominationProtocol.cpp])

    Every method of [NominationProtocol] as a computation on the slot.  A
    nomination that changes is emitted and processed like a received one
    ([emitNomination] calls [Slot::processEnvelope]), so the two functions
    are mutually recursive; [processFuel] ties the knot with a
    bound on the depth.  A new candidate starts the ballot protocol through
    [BallotProtocol::bumpState]. *)

From S2P Require Import Prelude OrdContainers QuorumSet ScpTypes BallotOrder Federated Ballot.
Import LocalNode.

Module NP.

(** [std::includes(v, p)]: one pass over two sorted ranges. *)
Fixpoint includes (v p : list Value) : bool :=
  match p with
  | [] => true
  | y :: p' =>
      match v with
      | [] => false
      | x :: v' => if ltb y x then false else if ltb x y then includes v' p else includes v' p'
      end
  end.

(** [std::is_sorted] *)
Fixpoint is_sorted (l : list Value) : bool :=
  match l with
  | x :: (y :: _) as r => negb (ltb y x) && is_sorted r
  | _ => true
  end.

(** The result and the output parameter [notEqual]. *)
Definition isSubsetHelper (p v : list Value) : bool * bool :=
  if bool_decide (length p <= length v)%nat then
    let res := includes v p in
    (res, if res then negb (bool_decide (length p = length v)) else true)
  else (false, true).

Definition isNewerNomination (oldst st : SCPNomination) : bool :=
  let '(r1, grows) := isSubsetHelper (n_votes oldst) (n_votes st) in
  if r1 then
    let '(r2, g) := isSubsetHelper (n_accepted oldst) (n_accepted st) in
    if r2 then grows || g else false
  else false.

(** [std::find] on a vector. *)
Definition vfind (v : Value) (l : list Value) : bool := existsb (fun x => bool_decide (x = v)) l.

(** The statements in [mLatestNominations] are nominations; reading
    [pledges.nominate()] of another statement throws in the XDR library. *)
Definition votesFor (v : Value) (st : SCPStatement) : bool :=
  match pledges st with NOMINATE nom => vfind v (n_votes nom) | _ => false end.

Definition acceptPredicate (v : Value) (st : SCPStatement) : bool :=
  match pledges st with NOMINATE nom => vfind v (n_accepted nom) | _ => false end.

(** [applyAll], as the sequence of values visited. *)
Definition allValues (nom : SCPNomination) : list Value := n_votes nom ++ n_accepted nom.

Definition getStatementValues (st : SCPStatement) : list Value :=
  match pledges st with NOMINATE nom => allValues nom | _ => [] end.

Section WithEnv.
Context (env : ScpEnv).

Definition isNewerNominationFor (n : NodeID) (nom : SCPNomination) : M Slot bool :=
  np ← getNom;
  mret match om_find n (mLatestNominations np) with
       | None => true
       | Some old => match pledges (statement old) with
                     | NOMINATE o => isNewerNomination o nom
                     | _ => false
                     end
       end.

(** The quorum set is read only when the other tests pass ([&&]). *)
Definition isSane (st : SCPStatement) (nom : SCPNomination) : M Slot bool :=
  let res := negb (bool_decide (length (n_votes nom) + length (n_accepted nom) = 0)%nat) &&
             is_sorted (n_votes nom) && is_sorted (n_accepted nom) in
  if res then
    qset ← deref (getQuorumSetFromStatement env st);
    mret (isQuorumSetSane qset false)
  else mret false.

Definition recordEnvelope (e : SCPEnvelope) : M Slot unit :=
  modNom (fun n => Set_.latestNominations n
                     (om_set (nodeID (statement e)) e (mLatestNominations n)));;
  BP.recordStatement (statement e).

(** ** Leaders *)

Definition hashNode (isPriority : bool) (n : NodeID) : M Slot Z :=
  s ← get;
  let np := mNominationProtocol s in
  dbgAssert env (negb (vempty (mPreviousValue np)));;
  mret (computeHashNode (driver env) (mSlotIndex s) (mPreviousValue np) isPriority
          (mRoundNumber np) n).

Definition hashValue (v : Value) : M Slot Z :=
  s ← get;
  let np := mNominationProtocol s in
  dbgAssert env (negb (vempty (mPreviousValue np)));;
  mret (computeValueHash (driver env) (mSlotIndex s) (mPreviousValue np) (mRoundNumber np) v).

Definition getNodePriority (n : NodeID) (qset : SCPQuorumSet) : M Slot Z :=
  let w := getNodeWeight n qset in
  h ← hashNode false n;
  if h <? w then hashNode true n else mret 0.

(** The visitor of [updateRoundLeaders], with [topPriority] threaded. *)
Fixpoint leadersLoop (myQSet : SCPQuorumSet) (nodes : list NodeID) (topPriority : Z)
  : M Slot unit :=
  match nodes with
  | [] => mret tt
  | cur :: r =>
      w ← getNodePriority cur myQSet;
      when (w >? topPriority) (modNom (fun n => Set_.roundLeaders n []));;
      let topPriority := if w >? topPriority then w else topPriority in
      when ((w =? topPriority) && (w >? 0))
        (modNom (fun n => Set_.roundLeaders n (os_insert cur (mRoundLeaders n))));;
      leadersLoop myQSet r topPriority
  end.

Definition updateRoundLeaders : M Slot unit :=
  modNom (fun n => Set_.roundLeaders n []);;
  let myQSet := mQSet (localNode env) in
  leadersLoop myQSet (forAllNodes myQSet) 0.

(** The value itself when it is valid, else what can be made of it. *)
Definition valueToNominate (slot : Z) (v : Value) : Value :=
  match validateValue (driver env) slot v with
  | kFullyValidatedValue => v
  | _ => extractValidValue (driver env) slot v
  end.

Fixpoint newValueLoop (values : list Value) (newVote : Value) (newHash : Z) : M Slot Value :=
  match values with
  | [] => mret newVote
  | v :: r =>
      s ← get;
      let valueToNominate := valueToNominate (mSlotIndex s) v in
      if negb (vempty valueToNominate) &&
         negb (os_mem valueToNominate (mVotes (mNominationProtocol s))) then
        curHash ← hashValue valueToNominate;
        if curHash >=? newHash then newValueLoop r valueToNominate curHash
        else newValueLoop r newVote newHash
      else newValueLoop r newVote newHash
  end.

Definition getNewValueFromNomination (nom : SCPNomination) : M Slot Value :=
  newValueLoop (allValues nom) [] 0.

(** ** Promotion of values *)

(** The loop over the votes of the received nomination; the result is [modified]. *)
Fixpoint acceptLoop (votes : list Value) (modified : bool) : M Slot bool :=
  match votes with
  | [] => mret modified
  | v :: r =>
      s ← get;
      let np := mNominationProtocol s in
      if os_mem v (mAccepted np) then acceptLoop r modified else
      accepted ← deref (federatedAccept env (votesFor v) (acceptPredicate v)
                          (mLatestNominations np));
      if accepted : bool then
        match validateValue (driver env) (mSlotIndex s) v with
        | kFullyValidatedValue =>
            modNom (fun n => Set_.accepted n (os_insert v (mAccepted n)));;
            modNom (fun n => Set_.votes n (os_insert v (mVotes n)));;
            acceptLoop r true
        | _ =>
            let toVote := extractValidValue (driver env) (mSlotIndex s) v in
            if negb (vempty toVote) && negb (os_mem toVote (mVotes np)) then
              modNom (fun n => Set_.votes n (os_insert toVote (mVotes n)));;
              acceptLoop r true
            else acceptLoop r modified
        end
      else acceptLoop r modified
  end.

(** The loop over [mAccepted]; the result is [newCandidates]. *)
Fixpoint candidateLoop (accepted : list Value) (newCandidates : bool) : M Slot bool :=
  match accepted with
  | [] => mret newCandidates
  | a :: r =>
      np ← getNom;
      if os_mem a (mCandidates np) then candidateLoop r newCandidates else
      ratified ← deref (federatedRatify env (acceptPredicate a) (mLatestNominations np));
      if ratified : bool then
        modNom (fun n => Set_.candidates n (os_insert a (mCandidates n)));;
        candidateLoop r true
      else candidateLoop r newCandidates
  end.

(** ** Processing *)

Section Recursive.
Context (pe : SCPEnvelope -> M Slot EnvelopeState).

Definition emitNomination : M Slot unit :=
  np ← getNom;
  let nom := {| n_quorumSetHash := mQSetHash (localNode env);
                n_votes := mVotes np; n_accepted := mAccepted np |} in
  envelope ← BP.createEnvelope env
    {| nodeID := mNodeID (localNode env); slotIndex := 0; pledges := NOMINATE nom |};
  res ← pe envelope;
  match res with
  | VALID =>
      s ← get;
      when match mLastNomination (mNominationProtocol s) with
           | None => true
           | Some l => match pledges (statement l) with
                       | NOMINATE o => isNewerNomination o nom
                       | _ => false
                       end
           end
        (modNom (fun n => Set_.lastNomination n (Some envelope));;
         when (mFullyValidated s) (notify (fun _ => EmitEnvelope envelope)))
  | INVALID => throw (RuntimeError "moved to a bad state (nomination)")
  end.

(** The part of [processEnvelope] under [if (mNominationStarted)]. *)
Definition advanceNomination (st : SCPStatement) (nom : SCPNomination) : M Slot unit :=
  modified ← acceptLoop (n_votes nom) false;
  np ← getNom;
  newCandidates ← candidateLoop (mAccepted np) false;
  np' ← getNom;
  modified' ←
    if bool_decide (mCandidates np' = []) && os_mem (nodeID st) (mRoundLeaders np') then
      newVote ← getNewValueFromNomination nom;
      if negb (vempty newVote) then
        modNom (fun n => Set_.votes n (os_insert newVote (mVotes n)));;
        mret true
      else mret modified
    else mret modified;
  when modified' emitNomination;;
  when newCandidates
    (s ← get;
     let value := combineCandidates (driver env) (mSlotIndex s)
                    (mCandidates (mNominationProtocol s)) in
     modNom (fun n => Set_.compositeCandidate n value);;
     notify (fun slot => UpdatedCandidateValue slot value);;
     BP.bumpState env (BP.processSelf env) value false;;
     mret tt).

Definition processNominationBody (e : SCPEnvelope) (nom : SCPNomination)
  : M Slot EnvelopeState :=
  newer ← isNewerNominationFor (nodeID (statement e)) nom;
  if newer : bool then
    sane ← isSane (statement e) nom;
    if sane : bool then
      recordEnvelope e;;
      np ← getNom;
      when (mNominationStarted np) (advanceNomination (statement e) nom);;
      mret VALID
    else mret INVALID
  else mret INVALID.

(** [Slot::processEnvelope]: dispatch on the type of the statement. *)
Definition dispatch (e : SCPEnvelope) (self : bool) : M Slot EnvelopeState :=
  s ← get;
  dbgAssert env (slotIndex (statement e) =? mSlotIndex s);;
  match pledges (statement e) with
  | NOMINATE nom => processNominationBody e nom
  | _ => BP.processEnvelope env e self
  end.

(** The loop over the leaders when the node is not one of them; the state
    is ([nominatingValue], [updated]). *)
Fixpoint echoLoop (leaders : list NodeID) (nominatingValue : Value) (updated : bool)
  : M Slot (Value * bool) :=
  match leaders with
  | [] => mret (nominatingValue, updated)
  | leader :: r =>
      np ← getNom;
      match om_find leader (mLatestNominations np) with
      | Some it =>
          match pledges (statement it) with
          | NOMINATE nom =>
              nominatingValue ← getNewValueFromNomination nom;
              if negb (vempty nominatingValue) then
                modNom (fun n => Set_.votes n (os_insert nominatingValue (mVotes n)));;
                echoLoop r nominatingValue true
              else echoLoop r nominatingValue updated
          | _ => throw (RuntimeError "xdr_wrong_union")
          end
      | None => echoLoop r nominatingValue updated
      end
  end.

Definition nominate (value previousValue : Value) (timedout : bool) : M Slot bool :=
  np0 ← getNom;
  if timedout && negb (mNominationStarted np0) then mret false else
  modNom (fun n => Set_.nominationStarted n true);;
  modNom (fun n => Set_.previousValue n previousValue);;
  modNom (fun n => Set_.roundNumber n (i32 (mRoundNumber n + 1)));;
  updateRoundLeaders;;
  np ← getNom;
  res ← if os_mem (mNodeID (localNode env)) (mRoundLeaders np) then
          modNom (fun n => Set_.votes n (os_insert value (mVotes n)));;
          mret (value, negb (os_mem value (mVotes np)))
        else echoLoop (mRoundLeaders np) [] false;
  let '(nominatingValue, updated) := res in
  notify (fun slot => NominatingValue slot nominatingValue);;
  notify (fun slot => SetupTimer slot NOMINATION_TIMER (computeTimeout (u32 (mRoundNumber np))));;
  when updated emitNomination;;
  mret updated.

End Recursive.

(** The recursion of [processEnvelope] through [emitNomination]. *)
Fixpoint processFuel (fuel : nat) (e : SCPEnvelope) (self : bool) : M Slot EnvelopeState :=
  match fuel with
  | O => throw OutOfFuel
  | S fuel => dispatch (fun e' => processFuel fuel e' true) e self
  end.

(** ** Restoring the state after a restart *)

Definition setStateFromEnvelope (e : SCPEnvelope) (nom : SCPNomination) : M Slot unit :=
  np ← getNom;
  if mNominationStarted np
  then throw (RuntimeError "Cannot set state after nomination is started") else
  recordEnvelope e;;
  modNom (fun n => Set_.accepted n
            (fold_left (fun acc a => os_insert a acc) (n_accepted nom) (mAccepted n)));;
  modNom (fun n => Set_.votes n
            (fold_left (fun acc v => os_insert v acc) (n_votes nom) (mVotes n)));;
  modNom (fun n => Set_.lastNomination n (Some e)).

Definition getCurrentState (s : Slot) : list SCPEnvelope :=
  map snd (List.filter (fun n : NodeID * SCPEnvelope =>
      negb (n.1 =? mNodeID (localNode env)) || mFullyValidated s)
    (mLatestNominations (mNominationProtocol s))).

End WithEnv.
End NP.
