(* ===== verification/NominationStep.v ===== *)
(** * Facts about nominations

    The order on nominations ([isNewerNomination]), the election of round
    leaders and the choice of the value to vote for.  The second part is how
    the methods of the nomination protocol move a slot. *)

From S2P Require Import Prelude OrdContainers QuorumSet QuorumFacts ScpTypes BallotOrder Federated Ballot BallotStep Nomination.

Import LocalNode NP.

(** ** [isNewerNomination] *)

(** A successful [std::includes] exhibits the first range inside the other,
    sorted or not. *)
Lemma includes_sublist v : forall p, includes v p = true -> p `sublist_of` v.
Proof.
  induction v as [|x v IH]; intros [|y p]; cbn [includes]; try done; try (intros _; apply sublist_nil_l).
  destruct (ltb y x) eqn:E1; [done|]. destruct (ltb x y) eqn:E2; intros H.
  - apply sublist_cons. by apply IH.
  - assert (x = y) as -> by (by apply ltb_total). apply sublist_skip. by apply IH.
Qed.

(** On strictly sorted ranges it decides inclusion. *)
Lemma includes_complete v : forall p, os_sorted v -> os_sorted p ->
  (forall a, a ∈ p -> a ∈ v) -> includes v p = true.
Proof.
  induction v as [|x v IH]; intros [|y p] Hv Hp Hsub; cbn [includes]; try done.
  { specialize (Hsub y ltac:(left)). by apply elem_of_nil in Hsub. }
  destruct Hv as [Hx Hv], Hp as [Hy Hp].
  assert (y ∈ x :: v) as Hyin by (apply Hsub; left). apply elem_of_cons in Hyin as [->|Hyin].
  - rewrite ltb_irrefl. apply IH; [done|done|]. intros a Ha.
    assert (a ∈ x :: v) as Hin by (apply Hsub; by right).
    apply elem_of_cons in Hin as [->|]; [|done]. apply Hy, ltb_neq in Ha. done.
  - rewrite (ltb_asym x y), (Hx y) by auto. apply IH; [done|by split|]. intros a Ha.
    pose proof (Hsub a Ha) as Hin. apply elem_of_cons in Hin as [->|]; [|done].
    apply elem_of_cons in Ha as [->|Ha]; [by apply Hx, ltb_neq in Hyin|].
    apply Hy in Ha. pose proof (ltb_trans _ _ _ (Hx y Hyin) Ha) as Hxx.
    by rewrite ltb_irrefl in Hxx.
Qed.

Lemma isSubsetHelper_sound p v ne : isSubsetHelper p v = (true, ne) ->
  p `sublist_of` v /\ ne = negb (bool_decide (length p = length v)).
Proof.
  unfold isSubsetHelper. case_bool_decide; [|done].
  destruct (includes v p) eqn:E; [|done]. intros [= <-]. split; [by apply includes_sublist|done].
Qed.

Lemma isSubsetHelper_complete p v : os_sorted v -> os_sorted p -> (forall a, a ∈ p -> a ∈ v) ->
  isSubsetHelper p v = (true, negb (bool_decide (length p = length v))).
Proof.
  intros Hv Hp Hsub. pose proof (includes_complete v p Hv Hp Hsub) as Hi.
  unfold isSubsetHelper. rewrite Hi. rewrite bool_decide_true; [done|].
  by apply sublist_length, includes_sublist.
Qed.

Definition nom_sub (o n : SCPNomination) : Prop :=
  n_votes o `sublist_of` n_votes n /\ n_accepted o `sublist_of` n_accepted n.

Definition nomSize (n : SCPNomination) : nat := length (n_votes n) + length (n_accepted n).

Global Instance nom_sub_preorder : PreOrder nom_sub.
Proof. split; [done|]. intros a b c [] []. split; by etransitivity. Qed.

Lemma isNewerNomination_sound o n : isNewerNomination o n = true ->
  nom_sub o n /\ (nomSize o < nomSize n)%nat.
Proof.
  unfold isNewerNomination, nomSize.
  destruct (isSubsetHelper (n_votes o) (n_votes n)) as [[] g1] eqn:E1; [|done].
  destruct (isSubsetHelper (n_accepted o) (n_accepted n)) as [[] g2] eqn:E2; [|done].
  apply isSubsetHelper_sound in E1 as [S1 ->], E2 as [S2 ->]. intros Hg.
  split; [done|]. apply sublist_length in S1, S2.
  do 2 case_bool_decide; cbn in Hg; lia || done.
Qed.

Definition nomSorted (n : SCPNomination) : Prop := os_sorted (n_votes n) /\ os_sorted (n_accepted n).

Lemma isNewerNomination_complete o n : nomSorted o -> nomSorted n ->
  (forall v, v ∈ n_votes o -> v ∈ n_votes n) -> (forall v, v ∈ n_accepted o -> v ∈ n_accepted n) ->
  (nomSize o < nomSize n)%nat -> isNewerNomination o n = true.
Proof.
  intros [] [] Hv Ha Hlt. unfold isNewerNomination, nomSize in *.
  rewrite !isSubsetHelper_complete by done. do 2 case_bool_decide; cbn; done || lia.
Qed.

Lemma is_sorted_os l : os_sorted l -> is_sorted l = true.
Proof.
  induction l as [|x [|y l] IH]; [done|done|]. intros [Hx Hl].
  change (negb (ltb y x) && is_sorted (y :: l) = true).
  rewrite (ltb_asym x y) by (apply Hx; left). by apply IH.
Qed.

(** ** Round leaders *)

(** The priority of a node as a function of the slot. *)
Definition nodePriority (env : ScpEnv) (s : Slot) (qset : SCPQuorumSet) (n : NodeID) : Z :=
  let np := mNominationProtocol s in
  let hash b := computeHashNode (driver env) (mSlotIndex s) (mPreviousValue np) b
                  (mRoundNumber np) n in
  if hash false <? getNodeWeight n qset then hash true else 0.

Definition withLeaders (s : Slot) (l : list NodeID) : Slot :=
  Set_.nom s (Set_.roundLeaders (mNominationProtocol s) l).

(** [dbgAssert(!mPreviousValue.empty())] passes. *)
Definition prevOk (env : ScpEnv) (s : Slot) : Prop :=
  debugBuild env = true -> vempty (mPreviousValue (mNominationProtocol s)) = false.

Lemma getNodePriority_run env s qset n : prevOk env s ->
  getNodePriority env n qset s = Ret (nodePriority env s qset n) s.
Proof.
  intros Hp. unfold getNodePriority, nodePriority, hashNode, prevOk, dbgAssert in *.
  unfold mbind, M_bind, get, mret, M_ret. cbv zeta.
  assert (debugBuild env && negb (negb (vempty (mPreviousValue (mNominationProtocol s)))) = false) as He.
  { destruct (debugBuild env); [by rewrite Hp|done]. }
  case_ifs; congruence || reflexivity.
Qed.

(** The visitor of [updateRoundLeaders] without the slot. *)
Fixpoint electLeaders (prio : NodeID -> Z) (nodes : list NodeID) (top : Z)
    (leaders : list NodeID) : list NodeID :=
  match nodes with
  | [] => leaders
  | cur :: r =>
      let w := prio cur in
      let leaders := if w >? top then [] else leaders in
      let top := if w >? top then w else top in
      electLeaders prio r top
        (if (w =? top) && (w >? 0) then os_insert cur leaders else leaders)
  end.

Lemma leadersLoop_run env qset nodes : forall top s, prevOk env s ->
  leadersLoop env qset nodes top s =
  Ret tt (withLeaders s (electLeaders (nodePriority env s qset) nodes top
                           (mRoundLeaders (mNominationProtocol s)))).
Proof.
  induction nodes as [|cur r IH]; intros top s Hp; cbn [leadersLoop electLeaders].
  { unfold withLeaders. destruct s as [? ? [] ? ? ?]. reflexivity. }
  unfold mbind, M_bind. rewrite getNodePriority_run by done. cbv zeta.
  set (w := nodePriority env s qset cur).
  destruct (w >? top) eqn:E1; cbn [when];
    destruct ((w =? _) && (w >? 0)) eqn:E2; cbn [when];
    unfold modNom, modify, mret, M_ret, mbind, M_bind; rewrite IH by exact Hp;
    reflexivity.
Qed.

Definition allBelow (prio : NodeID -> Z) (nodes : list NodeID) (k : Z) : Prop :=
  forall m, m ∈ nodes -> prio m <= k.

Lemma allBelow_cons prio cur r k : allBelow prio (cur :: r) k <-> prio cur <= k /\ allBelow prio r k.
Proof. unfold allBelow. setoid_rewrite elem_of_cons. naive_solver. Qed.

Lemma allBelow_mono prio r k k' : allBelow prio r k -> k <= k' -> allBelow prio r k'.
Proof. intros Hk Hle m Hm. specialize (Hk m Hm). lia. Qed.

Lemma electLeaders_spec prio nodes : forall top leaders n, 0 <= top ->
  n ∈ electLeaders prio nodes top leaders <->
  (n ∈ nodes /\ 0 < prio n /\ top <= prio n /\ allBelow prio nodes (prio n)) \/
  (n ∈ leaders /\ allBelow prio nodes top).
Proof.
  induction nodes as [|cur r IH]; intros top leaders n Ht; cbn [electLeaders].
  { unfold allBelow. set_solver. }
  rewrite IH by (case_ifs; zify_bool; lia). clear IH.
  rewrite !allBelow_cons, elem_of_cons.
  assert (n = cur -> prio n = prio cur) as Hn by congruence.
  pose proof (allBelow_mono prio r) as Hmono.
  destruct (Z.gtb_spec (prio cur) top) as [E1|E1];
    [rewrite Z.eqb_refl|destruct (Z.eqb_spec (prio cur) top)];
    (destruct (Z.gtb_spec (prio cur) 0) as [E2|E2]; cbn; [|try lia]);
    rewrite ?elem_of_os_insert, ?list_elem_of_singleton, ?elem_of_nil;
    split; intros H; break; subst;
    try specialize (Hn eq_refl); try lia; eauto 10 with lia.
Qed.

(** The nodes of the quorum set with the highest non-zero priority. *)
Lemma updateRoundLeaders_spec env s : prevOk env s -> exists leaders,
  updateRoundLeaders env s = Ret tt (withLeaders s leaders) /\
  let q := mQSet (localNode env) in
  forall n, n ∈ leaders <->
    n ∈ forAllNodes q /\ 0 < nodePriority env s q n /\
    forall m, m ∈ forAllNodes q -> nodePriority env s q m <= nodePriority env s q n.
Proof.
  intros Hp. eexists. split.
  { unfold updateRoundLeaders, modNom, modify, mbind, M_bind. cbv zeta.
    rewrite leadersLoop_run by exact Hp. reflexivity. }
  intros q n. cbn. rewrite electLeaders_spec by lia.
  change (nodePriority env _ (mQSet (localNode env))) with (nodePriority env s q).
  split; [intros [(?&?&?&?)|[H _]]; [auto|by apply elem_of_nil in H]|].
  intros (?&?&?). left. split; [done|]. split; [done|]. split; [lia|done].
Qed.

(** * How the nomination protocol moves a slot

    The nomination state only grows: votes, accepted values and candidates
    are added, the recorded nomination of a node is replaced by a larger
    one.  [nomWf] is the invariant of the class.  Under a finite universe of
    values the recursion through [emitNomination] terminates, and when the
    node alone speaks in its name it never finds its own nomination
    invalid. *)

Import LocalNode NP.

(** ** The growth relation *)

Definition nomSupersedes (e e' : SCPEnvelope) : Prop :=
  e' = e \/ exists o n, pledges (statement e) = NOMINATE o /\ pledges (statement e') = NOMINATE n /\
              nom_sub o n /\ (nomSize o < nomSize n)%nat.

Global Instance nomSupersedes_preorder : PreOrder nomSupersedes.
Proof.
  split; [by left|]. intros x y z [->|(o & n & Ho & Hn & Hs & Hl)] [->|(o' & n' & Ho' & Hn' & Hs' & Hl')];
    unfold nomSupersedes; eauto 10.
  right. rewrite Hn in Ho'. injection Ho' as <-. exists o, n'.
  split; [done|]. split; [done|]. split; [by etransitivity|lia].
Qed.

Record nom_le (n n' : NominationProtocol) : Prop := {
  nl_votes : forall v, v ∈ mVotes n -> v ∈ mVotes n';
  nl_accepted : forall v, v ∈ mAccepted n -> v ∈ mAccepted n';
  nl_candidates : forall v, v ∈ mCandidates n -> v ∈ mCandidates n';
  nl_latest : forall k e, om_find k (mLatestNominations n) = Some e ->
    exists e', om_find k (mLatestNominations n') = Some e' /\ nomSupersedes e e';
}.

Global Instance nom_le_preorder : PreOrder nom_le.
Proof.
  split.
  - intros n. constructor; auto. intros k e He. exists e. split; [done|reflexivity].
  - intros n1 n2 n3 [] []. constructor; auto. intros k e He.
    destruct (nl_latest0 k e He) as (e2 & He2 & S2).
    destruct (nl_latest1 k e2 He2) as (e3 & He3 & S3). exists e3. split; [done|by etransitivity].
Qed.

Lemma nomSame_le n n' : nomSame n n' -> nom_le n n'.
Proof.
  intros H. unfold nomSame in H. destruct n, n'. cbn in H. injection H; intros; subst.
  constructor; auto. intros k e He. exists e. split; [done|reflexivity].
Qed.

Abbreviation slot_grow := (slot_le_by nom_le).

Lemma slot_le_grow s s' : slot_le s s' -> slot_grow s s'.
Proof. apply slot_le_by_mono, nomSame_le. Qed.

Lemma slot_grow_nom s n : nom_le (mNominationProtocol s) n -> slot_grow s (Set_.nom s n).
Proof.
  intros Hn. constructor; try done; try (unfold phaseOf, extCount; cbn; lia).
  by apply emitOk_same.
Qed.

Lemma slot_grow_call s c : plainCall c = true ->
  slot_grow s (Set_.calls s (mDriverCalls s ++ [c])).
Proof. intros. by apply slot_le_grow, slot_le_call. Qed.

(** ** The invariant *)
Section Invariant.
Context (env : ScpEnv).
Abbreviation self := (mNodeID (localNode env)).

Record nomWf (idx : Z) (n : NominationProtocol) : Prop := {
  nw_votes : os_sorted (mVotes n);
  nw_accepted : os_sorted (mAccepted n);
  nw_candidates : os_sorted (mCandidates n);
  nw_latest : om_sorted (mLatestNominations n);
  nw_kind : forall k e, om_find k (mLatestNominations n) = Some e ->
    nodeID (statement e) = k /\ exists o, pledges (statement e) = NOMINATE o;
  nw_voted : forall v, v ∈ mAccepted n -> v ∈ mVotes n;
  nw_promoted : forall v, v ∈ mCandidates n -> v ∈ mAccepted n;
  nw_valid : forall v, v ∈ mAccepted n -> validateValue (driver env) idx v = kFullyValidatedValue;
}.

Lemma nomWf_new idx : nomWf idx newNominationProtocol.
Proof. constructor; cbn; try done; intros ? ?%elem_of_nil; done. Qed.

(** The number of values voted for or accepted. *)
Definition nomLoad (n : NominationProtocol) : nat := length (mVotes n) + length (mAccepted n).

Definition ownLoad (n : NominationProtocol) : nat :=
  match om_find self (mLatestNominations n) with
  | Some e => match pledges (statement e) with NOMINATE o => nomSize o | _ => 0 end
  | None => 0
  end.

(** The recorded nomination of the node is not ahead of its state. *)
Definition ownSub (n : NominationProtocol) : Prop :=
  forall e, om_find self (mLatestNominations n) = Some e ->
    exists o, pledges (statement e) = NOMINATE o /\ nomSorted o /\
      (forall v, v ∈ n_votes o -> v ∈ mVotes n) /\
      (forall v, v ∈ n_accepted o -> v ∈ mAccepted n).

Lemma sub_length (l l' : list Value) : os_sorted l -> (forall v, v ∈ l -> v ∈ l') ->
  (length l <= length l')%nat.
Proof.
  intros Hs Hsub. apply submseteq_length, NoDup_submseteq; [by apply os_sorted_NoDup|done].
Qed.

Lemma ownSub_load n : ownSub n -> (ownLoad n <= nomLoad n)%nat.
Proof.
  intros Ho. unfold ownLoad, nomLoad. destruct (om_find _ _) as [e|] eqn:He; [|lia].
  destruct (Ho e He) as (o & -> & [Hs1 Hs2] & Hv & Ha). unfold nomSize.
  pose proof (sub_length _ _ Hs1 Hv). pose proof (sub_length _ _ Hs2 Ha). lia.
Qed.

Lemma nom_le_load idx n n' : nomWf idx n -> nom_le n n' -> (nomLoad n <= nomLoad n')%nat.
Proof.
  intros [] []. unfold nomLoad. pose proof (sub_length _ _ nw_votes0 nl_votes0).
  pose proof (sub_length _ _ nw_accepted0 nl_accepted0). lia.
Qed.

(** ** A finite universe of values *)
Context (U : list Value) (idx : Z).

Definition closedU : Prop :=
  forall v, v ∈ U -> vempty (extractValidValue (driver env) idx v) = false ->
    extractValidValue (driver env) idx v ∈ U.

Record inU (n : NominationProtocol) : Prop := {
  iu_votes : forall v, v ∈ mVotes n -> v ∈ U;
  iu_latest : forall k e o, om_find k (mLatestNominations n) = Some e ->
    pledges (statement e) = NOMINATE o -> forall v, v ∈ allValues o -> v ∈ U;
}.

(** How much the node can still add. *)
Definition nomRoom (n : NominationProtocol) : Z :=
  count (fun v => negb (os_mem v (mVotes n))) U + count (fun v => negb (os_mem v (mAccepted n))) U.

Lemma count_room (l l' : list Value) :
  (forall v, v ∈ l -> v ∈ l') ->
  count (fun v => negb (os_mem v l')) U <= count (fun v => negb (os_mem v l)) U.
Proof.
  intros Hsub. apply count_mono. intros v _ Hv. apply negb_true_iff in Hv.
  apply negb_true_iff, os_mem_false. apply os_mem_false in Hv. auto.
Qed.

Lemma nomRoom_le n n' : nom_le n n' -> nomRoom n' <= nomRoom n.
Proof.
  intros []. unfold nomRoom. pose proof (count_room _ _ nl_votes0).
  pose proof (count_room _ _ nl_accepted0). lia.
Qed.

Lemma load_new (l l' : list Value) : os_sorted l' -> (length l < length l')%nat ->
  exists v, v ∈ l' /\ v ∉ l.
Proof.
  intros Hs Hlt. destruct (existsb (fun v => negb (os_mem v l)) l') eqn:E.
  - apply existsb_exists in E as (v & Hin & Hv). apply negb_true_iff in Hv. exists v.
    split; [by apply list_elem_of_In|by apply os_mem_false].
  - assert (length l' <= length l)%nat; [|lia]. apply sub_length; [done|]. intros v Hv.
    destruct (os_mem v l) eqn:Hm; [by apply os_mem_elem|].
    assert (existsb (fun v => negb (os_mem v l)) l' = true); [|congruence].
    apply existsb_exists. exists v. split; [by apply list_elem_of_In|by rewrite Hm].
Qed.

Lemma count_room_lt (l l' : list Value) v :
  (forall v, v ∈ l -> v ∈ l') -> v ∈ U -> v ∈ l' -> v ∉ l ->
  count (fun v => negb (os_mem v l')) U < count (fun v => negb (os_mem v l)) U.
Proof.
  intros Hsub HvU Hv' Hv. apply count_lt with (x := v); [|done| |].
  - intros w Hw. apply negb_true_iff in Hw. apply negb_true_iff, os_mem_false.
    apply os_mem_false in Hw. auto.
  - by apply negb_true_iff, os_mem_false.
  - by apply negb_false_iff, os_mem_elem.
Qed.

Lemma nomRoom_lt n n' : nom_le n n' -> nomWf idx n' -> inU n' ->
  (nomLoad n < nomLoad n')%nat -> nomRoom n' < nomRoom n.
Proof.
  intros [] [] HU Hlt. unfold nomRoom, nomLoad in *.
  pose proof (count_room _ _ nl_votes0). pose proof (count_room _ _ nl_accepted0).
  destruct (decide (length (mVotes n) < length (mVotes n'))%nat) as [Hv|Hv].
  - destruct (load_new _ _ nw_votes0 Hv) as (v & Hin & Hnin).
    pose proof (count_room_lt (mVotes n) (mVotes n') v nl_votes0 (iu_votes _ HU v Hin) Hin Hnin). lia.
  - assert (length (mAccepted n) < length (mAccepted n'))%nat as Ha by lia.
    destruct (load_new _ _ nw_accepted0 Ha) as (v & Hin & Hnin).
    pose proof (count_room_lt (mAccepted n) (mAccepted n') v nl_accepted0
      (iu_votes _ HU v (nw_voted0 v Hin)) Hin Hnin). lia.
Qed.

Lemma nomRoom_nonneg n : 0 <= nomRoom n.
Proof.
  unfold nomRoom. pose proof (count_nonneg (fun v => negb (os_mem v (mVotes n))) U).
  pose proof (count_nonneg (fun v => negb (os_mem v (mAccepted n))) U). lia.
Qed.

End Invariant.

(** [isSane] answers without changing the slot, or dereferences null. *)
Lemma isSane_run env st nom (s : Slot) :
  (exists b, isSane env st nom s = Ret b s) \/ isSane env st nom s = Throw NullDeref s.
Proof.
  unfold isSane. case_ifs; [|left; by eexists].
  destruct (getQuorumSetFromStatement env st) as [q|]; [left; by eexists|by right].
Qed.

(** ** The methods *)
Section Methods.
Context (env : ScpEnv) (U : list Value) (idx L : Z) (HL : 0 <= L) (Hclosed : closedU env U idx).
(** [Hon] stands for "only this node speaks in its name, and the driver
    knows its quorum set"; it is needed only to rule out the error of
    [emitNomination]. *)
Context (Hon : Prop).
Context (Hqset : Hon -> exists q, getQSet (driver env) (mQSetHash (localNode env)) = Some q /\
                          isQuorumSetSane q false = true).
Abbreviation self := (mNodeID (localNode env)).

Record nwf (s : Slot) : Prop := {
  w_index : mSlotIndex s = idx;
  w_ready : ready L s;
  w_nom : nomWf env idx (mNominationProtocol s);
  w_U : inU U (mNominationProtocol s);
  w_own : Hon -> ownSub env (mNominationProtocol s);
}.

Definition badNomination : Exn := RuntimeError "moved to a bad state (nomination)".
Definition nomExn (x : Exn) : Prop := x <> OutOfFuel /\ (Hon -> x <> badNomination).
Definition nthrown (s : Slot) (x : Exn) (s' : Slot) : Prop := slot_grow s s' /\ nomExn x.

Lemma ballotExn_nom x : ballotExn x = true -> nomExn x.
Proof.
  intros H. split; [by intros ->|]. intros _ ->. cbn in H. by vm_compute in H.
Qed.

Lemma nthrown_here s x : ballotExn x = true -> nthrown s x s.
Proof. intros H. split; [reflexivity|by apply ballotExn_nom]. Qed.

Lemma nthrown_trans s s1 x s' : slot_grow s s1 -> nthrown s1 x s' -> nthrown s x s'.
Proof. intros H [H1 H2]. split; [by etransitivity|done]. Qed.

Lemma wp_nfrom {A} (m : M Slot A) (Q Q' : A -> Slot -> Prop) s s1 :
  slot_grow s s1 -> wp m Q (nthrown s1) s1 ->
  (forall a s', Q a s' -> Q' a s') -> wp m Q' (nthrown s) s1.
Proof. intros Hle Hw HQ. eapply wp_mono; [exact Hw|auto|]. intros x s'. by apply nthrown_trans. Qed.

(** The slot with another nomination state: what the loops do. *)
Definition extends (s : Slot) (s' : Slot) : Prop :=
  s' = Set_.nom s (mNominationProtocol s') /\
  nom_le (mNominationProtocol s) (mNominationProtocol s') /\
  mLatestNominations (mNominationProtocol s') = mLatestNominations (mNominationProtocol s) /\
  nomWf env idx (mNominationProtocol s') /\ inU U (mNominationProtocol s').

Lemma extends_refl s : nwf s -> extends s s.
Proof. intros []. split; [by destruct s|]. split; [reflexivity|]. auto. Qed.

Lemma extends_trans s1 s2 s3 : extends s1 s2 -> extends s2 s3 -> extends s1 s3.
Proof.
  intros (E1 & H1 & L1 & W1 & U1) (E2 & H2 & L2 & W2 & U2).
  split; [rewrite E2 at 1; by rewrite E1|]. split; [by etransitivity|]. split; [congruence|auto].
Qed.

Lemma extends_grow s s' : extends s s' -> slot_grow s s'.
Proof. intros (-> & H & _). by apply slot_grow_nom. Qed.

Lemma extends_wf s s' : extends s s' -> nwf s -> nwf s'.
Proof.
  intros (E & H & Hl & W & HU) []. constructor; try done.
  - by rewrite E.
  - by rewrite E.
  - intros Hh e. rewrite Hl. intros He. destruct (w_own0 Hh e He) as (o & Ho & Hs & Hv & Ha).
    exists o. split; [done|]. split; [done|]. split; intros v Hin; [apply H|apply H]; auto.
Qed.
Definition loadOf (s : Slot) : nat := nomLoad (mNominationProtocol s).

Lemma extends_load s s' : nwf s -> extends s s' -> (loadOf s <= loadOf s')%nat.
Proof. intros Hw He. eapply nom_le_load; [apply Hw|apply He]. Qed.

Definition addVote (v : Value) (s : Slot) : Slot :=
  Set_.nom s (Set_.votes (mNominationProtocol s) (os_insert v (mVotes (mNominationProtocol s)))).

Definition addAccepted (v : Value) (s : Slot) : Slot :=
  addVote v (Set_.nom s (Set_.accepted (mNominationProtocol s)
                           (os_insert v (mAccepted (mNominationProtocol s))))).

Definition addCandidate (v : Value) (s : Slot) : Slot :=
  Set_.nom s (Set_.candidates (mNominationProtocol s)
                (os_insert v (mCandidates (mNominationProtocol s)))).

Ltac nom_le_solve :=
  constructor; cbn; intros *; rewrite ?elem_of_os_insert; auto;
  intros He; eexists; split; [exact He|reflexivity].

Lemma addVote_extends s v : nwf s -> v ∈ U -> extends s (addVote v s).
Proof.
  intros [_ _ [] HU _] Hv. split; [done|]. split; [nom_le_solve|]. split; [done|].
  split; [constructor; cbn; auto using os_insert_sorted|].
  - intros w Hw. apply elem_of_os_insert. auto.
  - destruct HU. constructor; cbn; [|done]. intros w. rewrite elem_of_os_insert. intros [->|]; auto.
Qed.

Lemma addVote_load s v : nwf s -> v ∉ mVotes (mNominationProtocol s) ->
  loadOf (addVote v s) = S (loadOf s).
Proof.
  intros [_ _ [] _ _] Hv. unfold loadOf, nomLoad. cbn. rewrite length_os_insert by done. lia.
Qed.

Lemma addAccepted_extends s v : nwf s -> v ∈ U ->
  validateValue (driver env) idx v = kFullyValidatedValue -> extends s (addAccepted v s).
Proof.
  intros [_ _ [] HU _] Hv Hval. split; [done|]. split; [nom_le_solve|]. split; [done|].
  split; [constructor; cbn; auto using os_insert_sorted|].
  - intros w. rewrite !elem_of_os_insert. intros [->|]; auto.
  - intros w Hw. apply elem_of_os_insert. auto.
  - intros w. rewrite elem_of_os_insert. intros [->|]; auto.
  - destruct HU. constructor; cbn; [|done]. intros w. rewrite elem_of_os_insert. intros [->|]; auto.
Qed.

Lemma addAccepted_load s v : nwf s -> v ∉ mAccepted (mNominationProtocol s) ->
  (loadOf s < loadOf (addAccepted v s))%nat.
Proof.
  intros [_ _ [] _ _] Hv. unfold loadOf, nomLoad. cbn.
  rewrite (length_os_insert v (mAccepted _)) by done.
  assert (length (mVotes (mNominationProtocol s)) <=
          length (os_insert v (mVotes (mNominationProtocol s))))%nat; [|lia].
  apply sub_length; [done|]. intros w Hw. apply elem_of_os_insert. auto.
Qed.

Lemma addCandidate_extends s v : nwf s -> v ∈ mAccepted (mNominationProtocol s) ->
  extends s (addCandidate v s).
Proof.
  intros [_ _ [] HU _] Hv. split; [done|]. split; [nom_le_solve|]. split; [done|].
  split; [constructor; cbn; auto using os_insert_sorted|by destruct HU].
  intros w. rewrite elem_of_os_insert. intros [->|]; auto.
Qed.

(** A loop that added something says so. *)
Definition loop_post (s : Slot) (flag0 flag : bool) (s' : Slot) : Prop :=
  extends s s' /\ (flag = true -> flag0 = true \/ (loadOf s < loadOf s')%nat).

Lemma loop_post_after s s1 flag0 flag s' : nwf s -> extends s s1 ->
  loop_post s1 flag0 flag s' -> loop_post s flag0 flag s'.
Proof.
  intros Hw He [He' Hf]. split; [by eapply extends_trans|]. intros H. destruct (Hf H); [auto|right].
  pose proof (extends_load s s1 Hw He). lia.
Qed.

Lemma loop_post_grew s s1 flag0 flag s' : nwf s -> extends s s1 -> (loadOf s < loadOf s1)%nat ->
  loop_post s1 true flag s' -> loop_post s flag0 flag s'.
Proof.
  intros Hw He Hlt [He' _]. split; [by eapply extends_trans|]. intros _. right.
  pose proof (extends_load s1 s' (extends_wf _ _ He Hw) He'). lia.
Qed.

Ltac nthrows := lazymatch goal with |- nthrown _ _ _ => by apply nthrown_here end.

Lemma acceptLoop_wp votes : forall s modified, nwf s -> (forall v, v ∈ votes -> v ∈ U) ->
  wp (acceptLoop env votes modified) (loop_post s modified) (nthrown s) s.
Proof using Hclosed.
  induction votes as [|v r IH]; intros s modified Hw HU; cbn [acceptLoop].
  { wp_step. split; [by apply extends_refl|auto]. }
  assert (v ∈ U) as HvU by (apply HU; left).
  assert (forall w, w ∈ r -> w ∈ U) as HrU by (intros w Hr; apply HU; by right).
  wp_step; wp_step. cbv zeta. wp_step; [by apply IH|].
  apply os_mem_false in H. wp_step; wp_step; [|nthrows]. wp_step; [|by apply IH].
  assert (forall toVote, toVote ∈ U -> os_mem toVote (mVotes (mNominationProtocol s)) = false ->
    wp (modNom (fun n => Set_.votes n (os_insert toVote (mVotes n)));; acceptLoop env r true)
      (loop_post s modified) (nthrown s) s) as Hvote.
  { intros t Ht Hm. wp_step; wp_step. pose proof (addVote_extends s t Hw Ht) as He.
    eapply wp_nfrom; [apply extends_grow, He|apply IH; [by eapply extends_wf|done]|].
    intros flag s'. apply loop_post_grew; [done|done|].
    change (Set_.nom _ _) with (addVote t s). rewrite addVote_load; [lia|done|by apply os_mem_false]. }
  pose proof (w_index s Hw) as Hidx.
  destruct (validateValue (driver env) (mSlotIndex s) v) eqn:Hval; rewrite Hidx in Hval.
  all: cbv zeta; try (wp_step; [zify_bool; apply Hvote|by apply IH]).
  - rewrite Hidx in *. by apply Hclosed.
  - done.
  - wp_step; wp_step; wp_step; wp_step. pose proof (addAccepted_extends s v Hw HvU Hval) as He.
    eapply wp_nfrom; [apply extends_grow, He|apply IH; [by eapply extends_wf|done]|].
    intros flag s'. apply loop_post_grew; [done|done|]. by apply addAccepted_load.
  - rewrite Hidx in *. by apply Hclosed.
  - done.
Qed.

Lemma candidateLoop_wp accepted : forall s flag, nwf s ->
  (forall v, v ∈ accepted -> v ∈ mAccepted (mNominationProtocol s)) ->
  wp (candidateLoop env accepted flag) (fun _ s' => extends s s' /\ (loadOf s <= loadOf s')%nat)
    (nthrown s) s.
Proof.
  induction accepted as [|a r IH]; intros s flag Hw Ha; cbn [candidateLoop].
  { wp_step. split; [by apply extends_refl|done]. }
  assert (forall w, w ∈ r -> w ∈ mAccepted (mNominationProtocol s)) as Hr
    by (intros w Hr; apply Ha; by right).
  wp_step; wp_step. wp_step; [by apply IH|]. wp_step; wp_step; [|nthrows]. wp_step; [|by apply IH].
  wp_step; wp_step.
  assert (extends s (addCandidate a s)) as He by (apply addCandidate_extends; [done|apply Ha; left]).
  eapply wp_nfrom; [apply extends_grow, He|apply IH; [by eapply extends_wf|done]|].
  intros b s' [He' Hl]. split; [by eapply extends_trans|].
  etransitivity; [exact (extends_load _ _ Hw He)|exact Hl].
Qed.

Lemma hashValue_wp s v Q : (forall h, Q h s) -> wp (hashValue env v) Q (nthrown s) s.
Proof. intros HQ. unfold hashValue. wp_step; wp_step; cbv zeta. wp_step; wp_step; [by wp_step|nthrows]. Qed.

Lemma newValueLoop_wp s values : nwf s -> (forall v, v ∈ values -> v ∈ U) ->
  forall newVote newHash,
    (vempty newVote = false -> newVote ∈ U /\ newVote ∉ mVotes (mNominationProtocol s)) ->
    wp (newValueLoop env values newVote newHash)
      (fun r s' => s' = s /\ (vempty r = false -> r ∈ U /\ r ∉ mVotes (mNominationProtocol s)))
      (nthrown s) s.
Proof using Hclosed.
  intros Hw. induction values as [|v r IH]; intros HU newVote newHash Hnew; cbn [newValueLoop].
  { by wp_step. }
  assert (forall w, w ∈ r -> w ∈ U) as HrU by (intros w Hr; apply HU; by right).
  wp_step; wp_step. cbv zeta. wp_step; [|by apply IH]. zify_bool.
  wp_step. apply hashValue_wp. intros h. wp_step; [|by apply IH].
  apply IH; [done|]. intros _. split; [|by apply os_mem_false].
  unfold valueToNominate in *. rewrite (w_index s Hw) in *.
  assert (v ∈ U) by (apply HU; left).
  destruct (validateValue _ _ _); [by apply Hclosed|done|by apply Hclosed].
Qed.

(** *** Emission *)

(** The nomination the node would emit. *)
Definition currentNomination (n : NominationProtocol) : SCPNomination :=
  {| n_quorumSetHash := mQSetHash (localNode env);
     n_votes := mVotes n; n_accepted := mAccepted n |}.

(** The state is ahead of what the node last recorded for itself. *)
Definition ahead_own (s : Slot) : Prop :=
  (ownLoad env (mNominationProtocol s) < loadOf s)%nat.

Definition own_envelope (s : Slot) (e : SCPEnvelope) : Prop :=
  nodeID (statement e) = self /\
  pledges (statement e) = NOMINATE (currentNomination (mNominationProtocol s)).

Definition npe_spec (pe : SCPEnvelope -> M Slot EnvelopeState) (room : Z) : Prop :=
  forall e s, nwf s -> own_envelope s e -> nomRoom U (mNominationProtocol s) <= room ->
    wp (pe e) (fun r s' => slot_grow s s' /\ nwf s' /\ (Hon -> ahead_own s -> r = VALID))
      (nthrown s) s.

Section WithPe.
Context (pe : SCPEnvelope -> M Slot EnvelopeState) (room : Z) (Hpe : npe_spec pe room).

Lemma nwf_lastNomination s e : nwf s ->
  nwf (Set_.nom s (Set_.lastNomination (mNominationProtocol s) e)).
Proof. intros []. constructor; try done; [destruct w_nom0|destruct w_U0]; by constructor. Qed.

Lemma emitNomination_wp s : nwf s -> nomRoom U (mNominationProtocol s) <= room ->
  (Hon -> ahead_own s) ->
  wp (emitNomination env pe) (fun _ s' => slot_grow s s' /\ nwf s') (nthrown s) s.
Proof using Hpe.
  intros Hw Hm Hah. unfold emitNomination. wp_step; wp_step. cbv zeta.
  unfold BP.createEnvelope. wp_step; wp_step; wp_step; wp_step.
  set (envelope := Build_SCPEnvelope _ _). wp_step.
  eapply wp_mono; [apply Hpe; [done|done|done]| |done].
  intros r s1 (Hg & Hw1 & Hv). destruct r.
  { wp_step. split; [done|]. split; [done|]. intros Hh _. by specialize (Hv Hh (Hah Hh)). }
  wp_step; wp_step. wp_step; [|done]. wp_step; wp_step.
  set (s2 := Set_.nom s1 _).
  assert (slot_grow s s2) as Hg2.
  { etransitivity; [exact Hg|]. apply slot_grow_nom. nom_le_solve. }
  assert (nwf s2) as Hw2 by (by apply nwf_lastNomination).
  wp_step; [|done]. wp_step. split; [|destruct Hw2; by constructor].
  etransitivity; [exact Hg2|by apply slot_grow_call].
Qed.

(** The ballot protocol leaves the nomination state well formed. *)
Lemma nwf_ballot s s' : nwf s -> slot_le s s' -> level s' = level s -> nwf s'.
Proof.
  intros [] Hs Hlv. pose proof (le_nom _ _ _ Hs) as Hn. red in Hn.
  assert (forall n, nomWf env idx (Set_.nominationStarted n false) <-> nomWf env idx n) as Hwf.
  { intros n. split; intros []; by constructor. }
  constructor.
  - rewrite <- w_index0. apply Hs.
  - destruct w_ready0. split; [congruence|by apply Hs].
  - apply Hwf. rewrite Hn. by apply Hwf.
  - assert (forall n, inU U (Set_.nominationStarted n false) <-> inU U n) as HwU
      by (intros n; split; intros []; by constructor).
    apply HwU. rewrite Hn. by apply HwU.
  - change (Hon -> ownSub env (Set_.nominationStarted (mNominationProtocol s') false)). by rewrite Hn.
Qed.

Lemma startBallot_wp s value : nwf s ->
  wp (modNom (fun n => Set_.compositeCandidate n value);;
      notify (fun slot => UpdatedCandidateValue slot value);;
      BP.bumpState env (BP.processSelf env) value false;; mret tt)
    (fun _ s' => slot_grow s s' /\ nwf s') (nthrown s) s.
Proof using HL.
  intros Hw. wp_step; wp_step; wp_step; wp_step. set (s1 := Set_.calls _ _).
  assert (slot_grow s s1) as Hg1.
  { etransitivity; [|by apply slot_grow_call]. apply slot_grow_nom. nom_le_solve. }
  assert (nwf s1) as Hw1.
  { destruct Hw. constructor; try done; [destruct w_nom0|destruct w_U0]; by constructor. }
  wp_step. eapply wp_mono;
    [apply (bumpState_wp env (BP.processSelf env) L (processSelf_spec env L HL)), Hw1| |].
  - intros r s' Hb. apply bump_post_good in Hb. wp_step. split.
    + etransitivity; [exact Hg1|]. by apply slot_le_grow, (good_le env).
    + eapply nwf_ballot; [exact Hw1|by apply (good_le env)|apply Hb].
  - intros x s' [Hle Hx]. split; [|by apply ballotExn_nom].
    etransitivity; [exact Hg1|by apply slot_le_grow].
Qed.

Lemma ownLoad_extends s s' : extends s s' ->
  ownLoad env (mNominationProtocol s') = ownLoad env (mNominationProtocol s).
Proof. intros (_ & _ & Hl & _). unfold ownLoad. by rewrite Hl. Qed.

Lemma emit_extended s s1 : nwf s -> extends s s1 -> (loadOf s < loadOf s1)%nat ->
  nomRoom U (mNominationProtocol s) <= room + 1 ->
  wp (emitNomination env pe) (fun _ s' => slot_grow s s' /\ nwf s') (nthrown s) s1.
Proof using Hpe.
  intros Hw He Hlt Hroom. pose proof (extends_wf _ _ He Hw) as Hw1.
  eapply wp_nfrom; [by apply extends_grow|apply emitNomination_wp; [done| |]|].
  - destruct He as (_ & Hle & _ & Hwf & HU).
    pose proof (nomRoom_lt env U idx _ _ Hle Hwf HU Hlt). lia.
  - intros Hh. red. rewrite (ownLoad_extends s s1 He).
    pose proof (ownSub_load env _ (w_own s Hw Hh)). unfold loadOf in *. lia.
  - intros [] s' [Hg Hw']. split; [|done]. etransitivity; [by apply extends_grow|done].
Qed.

Lemma advanceNomination_wp s st nom : nwf s -> (forall v, v ∈ allValues nom -> v ∈ U) ->
  nomRoom U (mNominationProtocol s) <= room + 1 ->
  wp (advanceNomination env pe st nom) (fun _ s' => slot_grow s s' /\ nwf s') (nthrown s) s.
Proof using HL Hclosed Hpe.
  intros Hw HU Hroom. unfold advanceNomination.
  assert (forall v, v ∈ n_votes nom -> v ∈ U) as HU1.
  { intros v Hv. apply HU. unfold allValues. apply elem_of_app. auto. }
  wp_step. eapply wp_mono; [by apply acceptLoop_wp| |done].
  intros modified s1 [He1 Hf1]. pose proof (extends_wf _ _ He1 Hw) as Hw1.
  wp_step; wp_step. wp_step.
  eapply wp_nfrom; [by apply extends_grow|by apply candidateLoop_wp|].
  intros newCandidates s2 [He2 Hl2]. pose proof (extends_wf _ _ He2 Hw1) as Hw2.
  assert (extends s s2) as He by (by eapply extends_trans).
  wp_step; wp_step. wp_step.
  eapply wp_mono with (E := nthrown s) (Q := fun m s3 =>
    extends s s3 /\ (m = true -> (loadOf s < loadOf s3)%nat)); [| |done].
  { assert (modified = true -> (loadOf s < loadOf s2)%nat) as Hm.
    { intros Hm. destruct (Hf1 Hm); [done|lia]. }
    wp_step; [|by wp_step]. wp_step.
    eapply wp_nfrom; [by apply extends_grow|apply newValueLoop_wp; [done|done|done]|].
    intros newVote s3 [-> Hnew]. wp_step; [|by wp_step]. zify_bool.
    destruct (Hnew H0) as [HvU Hnin]. wp_step; wp_step; wp_step.
    change (Set_.nom s2 _) with (addVote newVote s2).
    split; [eapply extends_trans; [exact He|by apply addVote_extends]|].
    intros _. rewrite addVote_load by done. pose proof (extends_load _ _ Hw He). lia. }
  intros modified' s3 [He3 Hm3]. pose proof (extends_wf _ _ He3 Hw) as Hw3. wp_step.
  eapply wp_mono with (E := nthrown s) (Q := fun _ s4 => slot_grow s s4 /\ nwf s4); [| |done].
  { wp_step; [by apply emit_extended; auto|]. split; [by apply extends_grow|done]. }
  intros [] s4 [Hg4 Hw4]. wp_step; [|done]. wp_step; wp_step. cbv zeta.
  eapply wp_nfrom; [exact Hg4|by apply startBallot_wp|].
  intros [] s5 [Hg5 Hw5]. split; [by etransitivity|done].
Qed.

(** *** [processEnvelope] *)

Definition recordedNom (e : SCPEnvelope) (s : Slot) : Slot :=
  Set_.history (Set_.nom s (Set_.latestNominations (mNominationProtocol s)
                  (om_set (nodeID (statement e)) e (mLatestNominations (mNominationProtocol s)))))
    (mStatementsHistory s ++ [(statement e, mFullyValidated s)]).

Definition newerFor (s : Slot) (e : SCPEnvelope) (nom : SCPNomination) : Prop :=
  forall old, om_find (nodeID (statement e)) (mLatestNominations (mNominationProtocol s)) = Some old ->
    exists o, pledges (statement old) = NOMINATE o /\ isNewerNomination o nom = true.

Lemma recordedNom_grow s e nom : pledges (statement e) = NOMINATE nom -> newerFor s e nom ->
  slot_grow s (recordedNom e s).
Proof.
  intros Hp Hnew. constructor; try done; cbn; try lia.
  - by apply prefix_app_r.
  - unfold extCount, phaseOf. cbn. lia.
  - by apply emitOk_same.
  - constructor; cbn; auto. intros k old Hold.
    destruct (Z.eq_dec (nodeID (statement e)) k) as [<-|Hk].
    + exists e. rewrite om_find_set_eq. split; [done|right].
      destruct (Hnew old Hold) as (o & Ho & Hn). exists o, nom.
      apply isNewerNomination_sound in Hn as [Hs Hl]. auto.
    + exists old. rewrite om_find_set_ne by done. split; [done|reflexivity].
Qed.

Lemma recordedNom_wf s e nom : pledges (statement e) = NOMINATE nom -> nwf s ->
  (forall v, v ∈ allValues nom -> v ∈ U) ->
  (Hon -> nodeID (statement e) <> self \/ own_envelope s e) -> nwf (recordedNom e s).
Proof.
  intros Hp [] HU Hself. constructor; try done.
  - destruct w_nom0. constructor; cbn; auto.
    + by apply om_set_sorted.
    + intros k e'. destruct (Z.eq_dec (nodeID (statement e)) k) as [<-|Hk].
      * rewrite om_find_set_eq. intros [= <-]. split; [done|by exists nom].
      * rewrite om_find_set_ne by done. auto.
  - destruct w_U0. constructor; cbn; [done|]. intros k e' o.
    destruct (Z.eq_dec (nodeID (statement e)) k) as [<-|Hk].
    + rewrite om_find_set_eq. intros [= <-] Ho. rewrite Hp in Ho. by injection Ho as <-.
    + rewrite om_find_set_ne by done. eauto.
  - intros Hh e'. cbn. destruct (Z.eq_dec (nodeID (statement e)) self) as [Hn|Hn].
    + destruct (Hself Hh) as [|[_ Ho]]; [done|]. rewrite Hn, om_find_set_eq. intros [= <-].
      exists (currentNomination (mNominationProtocol s)). destruct w_nom0.
      split; [done|]. split; [by split|]. by split.
    + rewrite om_find_set_ne by done. apply w_own0, Hh.
Qed.

(** The node's own nomination passes the two tests when it has grown. *)
Lemma own_passes s e : nwf s -> own_envelope s e -> Hon -> ahead_own s ->
  newerFor s e (currentNomination (mNominationProtocol s)).
Proof.
  intros [_ _ [] _ w_own0] [Hn Hp] Hh Hah old. rewrite Hn. intros Hold.
  destruct (w_own0 Hh old Hold) as (o & Ho & Hs & Hv & Ha). exists o. split; [done|].
  apply isNewerNomination_complete; [done|by split|done|done|].
  unfold ahead_own, ownLoad in Hah. rewrite Hold, Ho in Hah. exact Hah.
Qed.

Lemma own_sane s e : nwf s -> own_envelope s e -> Hon -> ahead_own s ->
  isSane env (statement e) (currentNomination (mNominationProtocol s)) s = Ret true s.
Proof using Hqset.
  intros [_ _ [] _ _] [Hn Hp] Hh Hah. unfold isSane.
  rewrite bool_decide_false; [|unfold ahead_own, loadOf, nomLoad in Hah; cbn; lia].
  cbn [n_votes n_accepted currentNomination]. rewrite !is_sorted_os by done. cbn [negb andb].
  destruct (Hqset Hh) as (q & Hq & Hsane).
  unfold getQuorumSetFromStatement. rewrite Hp. cbn [n_quorumSetHash currentNomination].
  rewrite Hq. unfold mbind, M_bind, deref, mret, M_ret. by rewrite Hsane.
Qed.

Lemma processNominationBody_wp s e nom : nwf s -> pledges (statement e) = NOMINATE nom ->
  (forall v, v ∈ allValues nom -> v ∈ U) ->
  (Hon -> nodeID (statement e) <> self \/ own_envelope s e) ->
  nomRoom U (mNominationProtocol s) <= room + 1 ->
  wp (processNominationBody env pe e nom)
    (fun r s' => slot_grow s s' /\ nwf s' /\ (r = INVALID -> s' = s) /\
       (own_envelope s e -> Hon -> ahead_own s -> r = VALID)) (nthrown s) s.
Proof using HL Hclosed Hpe Hqset.
  intros Hw Hp HU Hself Hroom. unfold processNominationBody, isNewerNominationFor.
  assert (own_envelope s e -> nom = currentNomination (mNominationProtocol s)) as Hnom.
  { intros [_ Hp']. congruence. }
  wp_step; wp_step; wp_step; wp_step. wp_step.
  2: { wp_step. split; [reflexivity|]. split; [done|]. split; [done|]. intros Hown Hh Hah.
       specialize (Hnom Hown). subst nom.
       pose proof (own_passes s e Hw Hown Hh Hah) as Hpass. red in Hpass.
       destruct (om_find _ _) as [old|]; [|done].
       destruct (Hpass old eq_refl) as (o & Ho & Hn). by rewrite Ho, Hn in H. }
  assert (newerFor s e nom) as Hnew.
  { intros old Hold. rewrite Hold in H.
    destruct (nw_kind _ _ _ (w_nom s Hw) _ _ Hold) as [_ [o Ho]]. exists o. by rewrite Ho in H. }
  wp_step. eapply wp_mono with (E := nthrown s) (Q := fun r s' => s' = s /\
    (own_envelope s e -> Hon -> ahead_own s -> r = true)); [| |done].
  { destruct (isSane_run env (statement e) nom s) as [[b Hb]|Hb].
    - red. rewrite Hb. split; [done|]. intros Hown Hh Hah.
      specialize (Hnom Hown). subst nom.
      pose proof (own_sane s e Hw Hown Hh Hah). congruence.
    - red. rewrite Hb. by apply nthrown_here. }
  intros sane s1 [-> Hs]. wp_step.
  2: { wp_step. split; [reflexivity|]. split; [done|]. split; [done|]. intros Hown Hh Hah.
       specialize (Hs Hown Hh Hah). congruence. }
  unfold recordEnvelope, BP.recordStatement. wp_step; wp_step; wp_step; wp_step; wp_step.
  change (Set_.history _ _) with (recordedNom e s).
  assert (slot_grow s (recordedNom e s)) as Hg by (by eapply recordedNom_grow).
  assert (nwf (recordedNom e s)) as Hw1 by (by eapply recordedNom_wf).
  wp_step; wp_step.
  eapply wp_mono with (E := nthrown s) (Q := fun _ s' => slot_grow s s' /\ nwf s'); [| |done].
  - wp_step; [|done]. eapply wp_nfrom; [exact Hg|by apply advanceNomination_wp|].
    intros [] s' [Hg' Hw']. split; [by etransitivity|done].
  - intros [] s' [Hg' Hw']. wp_step. split; [done|]. split; [done|]. by split.
Qed.

(** *** [nominate] *)

(** Fields other than the sets of values and the recorded nominations. *)
Lemma extends_other s n : nwf s ->
  mVotes n = mVotes (mNominationProtocol s) -> mAccepted n = mAccepted (mNominationProtocol s) ->
  mCandidates n = mCandidates (mNominationProtocol s) ->
  mLatestNominations n = mLatestNominations (mNominationProtocol s) ->
  extends s (Set_.nom s n).
Proof.
  intros [_ _ [] [] _] Hv Ha Hc Hl. split; [done|]. cbn. split; [|split; [done|]].
  - constructor; rewrite ?Hv, ?Ha, ?Hc, ?Hl; auto. intros k e He. exists e. split; [done|reflexivity].
  - split; constructor; rewrite ?Hv, ?Ha, ?Hc, ?Hl; auto.
Qed.

Lemma getNodePriority_wp s n qset : wp (getNodePriority env n qset) (fun _ s' => s' = s) (nthrown s) s.
Proof.
  unfold getNodePriority, hashNode. cbv zeta.
  repeat (wp_step; cbv zeta); first [done | nthrows].
Qed.

Lemma leadersLoop_wp qset nodes : forall s top, nwf s ->
  wp (leadersLoop env qset nodes top) (fun _ s' => extends s s') (nthrown s) s.
Proof.
  induction nodes as [|cur r IH]; intros s top Hw; cbn [leadersLoop].
  { wp_step. by apply extends_refl. }
  wp_step. eapply wp_mono; [apply getNodePriority_wp| |done]. intros w s' ->.
  assert (forall n top, mVotes n = mVotes (mNominationProtocol s) ->
    mAccepted n = mAccepted (mNominationProtocol s) ->
    mCandidates n = mCandidates (mNominationProtocol s) ->
    mLatestNominations n = mLatestNominations (mNominationProtocol s) ->
    wp (leadersLoop env qset r top) (fun _ s' => extends s s') (nthrown s) (Set_.nom s n)) as Hr.
  { intros n t Hv Ha Hc Hl. pose proof (extends_other s n Hw Hv Ha Hc Hl) as He.
    eapply wp_nfrom; [by apply extends_grow|apply IH; by eapply extends_wf|].
    intros [] s'. by apply extends_trans. }
  repeat (cbv zeta; wp_step); try by apply Hr. by apply IH.
Qed.

Lemma echoLoop_wp leaders : forall s v updated, nwf s ->
  wp (echoLoop env leaders v updated) (fun r s' => loop_post s updated r.2 s') (nthrown s) s.
Proof using Hclosed.
  induction leaders as [|leader r IH]; intros s v updated Hw; cbn [echoLoop].
  { wp_step. split; [by apply extends_refl|auto]. }
  wp_step; wp_step. destruct (om_find _ _) as [it|] eqn:Hit; [|by apply IH].
  destruct (nw_kind _ _ _ (w_nom s Hw) _ _ Hit) as [_ [o Ho]]. rewrite Ho.
  wp_step. eapply wp_mono; [apply newValueLoop_wp; [done| |done]| |done].
  { intros w Hin. eapply iu_latest; [apply Hw|exact Hit|exact Ho|exact Hin]. }
  intros newVote s' [-> Hnew]. wp_step; [|by apply IH]. zify_bool. destruct (Hnew H) as [HvU Hnin].
  wp_step; wp_step. pose proof (addVote_extends s newVote Hw HvU) as He.
  eapply wp_nfrom; [by apply extends_grow|apply IH; by eapply extends_wf|].
  intros [v' flag] s'. apply loop_post_grew; [done|done|].
  change (Set_.nom s _) with (addVote newVote s). rewrite addVote_load by done. lia.
Qed.

Lemma nominate_wp s value previousValue timedout : nwf s -> value ∈ U ->
  nomRoom U (mNominationProtocol s) <= room + 1 ->
  wp (nominate env pe value previousValue timedout) (fun _ s' => slot_grow s s' /\ nwf s') (nthrown s) s.
Proof using Hclosed Hpe.
  intros Hw Hv Hroom. unfold nominate. wp_step; wp_step. wp_step; [by wp_step|].
  do 6 wp_step. set (n1 := Set_.roundNumber _ _).
  assert (extends s (Set_.nom s n1)) as He1 by (by apply extends_other).
  change (Set_.nom _ n1) with (Set_.nom s n1).
  unfold updateRoundLeaders. wp_step; wp_step; wp_step. cbv zeta.
  set (n2 := Set_.roundLeaders _ _).
  assert (extends s (Set_.nom s n2)) as He2 by (by apply extends_other).
  change (Set_.nom _ n2) with (Set_.nom s n2).
  eapply wp_nfrom; [by apply extends_grow|apply leadersLoop_wp; by eapply extends_wf|].
  intros [] s3 He. assert (extends s s3) as He3 by (by eapply extends_trans).
  pose proof (extends_wf _ _ He3 Hw) as Hw3. wp_step; wp_step. wp_step.
  eapply wp_mono with (E := nthrown s) (Q := fun r s4 => loop_post s false r.2 s4); [| |done].
  { wp_step.
    - wp_step; wp_step; wp_step. change (Set_.nom s3 _) with (addVote value s3).
      split; [eapply extends_trans; [exact He3|by apply addVote_extends]|].
      cbn [snd]. intros Hm. right. zify_bool.
      rewrite addVote_load by (done || by apply os_mem_false).
      pose proof (extends_load _ _ Hw He3). lia.
    - eapply wp_nfrom; [by apply extends_grow|by apply echoLoop_wp|].
      intros r s4 Hr. by eapply loop_post_after. }
  intros [nominatingValue updated] s4 [He4 Hup]. cbn [snd] in Hup.
  do 4 wp_step. set (s6 := Set_.calls _ _). wp_step.
  eapply wp_mono with (E := nthrown s) (Q := fun _ s' => slot_grow s s' /\ nwf s');
    [|intros [] s' Hs'; by wp_step|done].
  assert (slot_grow s s6) as Hg6.
  { etransitivity; [by apply extends_grow|]. etransitivity; by apply slot_grow_call. }
  pose proof (extends_wf _ _ He4 Hw) as Hw4.
  assert (nwf s6) as Hw6 by (destruct Hw4; by constructor).
  wp_step; [|done]. destruct (Hup H0) as [|Hlt]; [done|].
  eapply wp_nfrom; [exact Hg6|apply emitNomination_wp; [done| |]|].
  - destruct He4 as (_ & Hle & _ & Hwf & HU).
    pose proof (nomRoom_lt env U idx _ _ Hle Hwf HU Hlt) as Hr.
    change (mNominationProtocol s6) with (mNominationProtocol s4). lia.
  - intros Hh. red. change (mNominationProtocol s6) with (mNominationProtocol s4).
    rewrite (ownLoad_extends s s4 He4). change (loadOf s6) with (loadOf s4).
    pose proof (ownSub_load env _ (w_own s Hw Hh)). unfold loadOf in *. lia.
  - intros [] s' [Hg Hw']. split; [by etransitivity|done].
Qed.
End WithPe.

(** What the slot may be asked to process. *)
Definition acceptable (s : Slot) (e : SCPEnvelope) : Prop :=
  forall nom, pledges (statement e) = NOMINATE nom ->
    (forall v, v ∈ allValues nom -> v ∈ U) /\
    (Hon -> nodeID (statement e) <> self \/ own_envelope s e).

Lemma processFuel_wp fuel : forall e slf s, nwf s -> acceptable s e ->
  nomRoom U (mNominationProtocol s) < Z.of_nat fuel ->
  wp (processFuel env fuel e slf)
    (fun r s' => slot_grow s s' /\ nwf s' /\ (r = INVALID -> s' = s) /\
       (own_envelope s e -> Hon -> ahead_own s -> r = VALID)) (nthrown s) s.
Proof using HL Hclosed Hqset.
  induction fuel as [|fuel IH]; intros e slf s Hw Hacc Hroom.
  { pose proof (nomRoom_nonneg U (mNominationProtocol s)). lia. }
  cbn [processFuel]. unfold dispatch. wp_step; wp_step. wp_step; wp_step; [|nthrows].
  destruct (pledges (statement e)) eqn:Hp.
  4: { destruct (Hacc n Hp) as [HU Hself].
       eapply processNominationBody_wp with (room := nomRoom U (mNominationProtocol s) - 1);
         try done; [|lia].
       intros e' s' Hw' Hown' Hroom'. eapply wp_mono; [apply IH; [done| |lia]| |done].
       - intros nom' Hp'. destruct Hown' as [Hn' Ho']. rewrite Hp' in Ho'. injection Ho' as ->.
         split; [|intros _; right; by split]. intros v Hv.
         apply elem_of_app in Hv as [Hv|Hv]; apply (iu_votes _ _ (w_U s' Hw')); [done|].
         by apply (nw_voted _ _ _ (w_nom s' Hw')).
       - intros r s2 (? & ? & _ & ?). auto. }
  all: eapply wp_mono; [apply processEnvelope_wp; [apply Hw|rewrite (proj1 (w_ready s Hw)); done]| |].
  all: try (intros x s' [Hle Hx]; split; [by apply slot_le_grow|by apply ballotExn_nom]).
  all: intros r s' Hr; split; [by eapply slot_le_grow, processed_le|];
    split; [|split; [by intros ->|intros [_ Hp']; congruence]].
  all: eapply nwf_ballot; [exact Hw|by eapply processed_le|].
  all: destruct r; [by rewrite Hr|]; destruct Hr as (_ & fv & _ & [Hs _]); apply Hs.
Qed.

Lemma processFuel_npe fuel room : room < Z.of_nat fuel ->
  npe_spec (fun e => processFuel env fuel e true) room.
Proof using HL Hclosed Hqset.
  intros Hr e s Hw Hown Hroom. eapply wp_mono; [apply processFuel_wp; [done| |lia]| |done].
  - intros nom Hp. destruct Hown as [Hn Ho]. rewrite Hp in Ho. injection Ho as ->.
    split; [|intros _; right; by split]. intros v Hv.
    apply elem_of_app in Hv as [Hv|Hv]; apply (iu_votes _ _ (w_U s Hw)); [done|].
    by apply (nw_voted _ _ _ (w_nom s Hw)).
  - intros r s' (? & ? & _ & ?). auto.
Qed.
End Methods.
