(* ===== verification/SlotScp.v ===== *)
(** * Slots and the SCP object ([scp/Slot.cpp], [scp/SCP.cpp])

    The operations of a slot, which dispatch to the two protocols, and the
    [SCP] object: the local node and the map of known slots.  [fuel] bounds
    the recursion of the nomination protocol (see [Nomination]). *)

From S2P Require Import Prelude OrdContainers QuorumSet ScpTypes BallotOrder Federated Ballot Nomination.
Import LocalNode.

(** ** [Slot] *)
Module SlotOps.
Section WithEnv.
Context (env : ScpEnv) (fuel : nat).

(** [Slot::processEnvelope]; the [catch] clauses log and rethrow. *)
Definition processEnvelope (e : SCPEnvelope) (self : bool) : M Slot EnvelopeState :=
  NP.processFuel env fuel e self.

Definition processSelf (e : SCPEnvelope) : M Slot EnvelopeState := processEnvelope e true.

Definition abandonBallot : M Slot bool := BP.abandonBallot env (BP.processSelf env) 0.

Definition bumpState (value : Value) (force : bool) : M Slot bool :=
  BP.bumpState env (BP.processSelf env) value force.

Definition nominate (value previousValue : Value) (timedout : bool) : M Slot bool :=
  NP.nominate env processSelf value previousValue timedout.

Definition stopNomination : M Slot unit := BP.stopNomination.

Definition ballotProtocolTimerExpired : M Slot unit :=
  BP.ballotProtocolTimerExpired env (BP.processSelf env).

Definition setStateFromEnvelope (e : SCPEnvelope) : M Slot unit :=
  s ← get;
  if (nodeID (statement e) =? mNodeID (localNode env)) &&
     (slotIndex (statement e) =? mSlotIndex s) then
    match pledges (statement e) with
    | NOMINATE nom => NP.setStateFromEnvelope e nom
    | _ => BP.setStateFromEnvelope env e
    end
  else mret tt.

Definition getLatestMessagesSend (s : Slot) : list SCPEnvelope :=
  if mFullyValidated s then
    match mLastNomination (mNominationProtocol s) with Some e => [e] | None => [] end ++
    match mLastEnvelopeEmit (mBallotProtocol s) with Some e => [pointee e] | None => [] end
  else [].

Definition getCurrentState (s : Slot) : list SCPEnvelope :=
  NP.getCurrentState env s ++ BP.getCurrentState env s.

Definition getEntireCurrentState (s : Slot) : list SCPEnvelope :=
  getCurrentState (Set_.fullyValidated s true).

Definition getExternalizingState (s : Slot) : option (list SCPEnvelope) :=
  BP.getExternalizingState env s.

Definition getStatementValues (st : SCPStatement) : list Value :=
  match pledges st with
  | NOMINATE _ => NP.getStatementValues st
  | _ => [value (BP.getWorkingBallot st)]
  end.

(** The statements of the history by node, in the order of arrival. *)
Definition statementsByNode (history : list (SCPStatement * bool))
  : list (NodeID * list SCPStatement) :=
  fold_left (fun (m : list (NodeID * list SCPStatement)) (e : SCPStatement * bool) =>
      let n := nodeID e.1 in
      om_set n (match om_find n m with Some l => l | None => [] end ++ [e.1]) m)
    history [].

Definition isNodeInQuorum (s : Slot) (node : NodeID) : option TriBool :=
  Federated.isNodeInQuorum
    (fun st => getQSet (driver env) (getCompanionQuorumSetHashFromStatement st))
    (statementsByNode (mStatementsHistory s)) (mNodeID (localNode env)) node.

End WithEnv.
End SlotOps.

(** ** [SCP] *)

Record SCPState := {
  mLocalNode : LocalNodeState;
  mKnownSlots : list (Z * Slot);
}.

Module SCP.
Section WithDriver.
Context (drv : SCPDriver) (dbg : bool) (fuel : nat).
(** [sha256(xdr_to_opaque(qSet))], from the crypto library. *)
Context (qSetHash : SCPQuorumSet -> Hash).

Definition envOf (scp : SCPState) : ScpEnv :=
  {| localNode := mLocalNode scp; driver := drv; debugBuild := dbg |}.

(** [LocalNode::LocalNode] *)
Definition newLocalNode (nodeId : NodeID) (isValidator : bool) (qSet : SCPQuorumSet)
  : LocalNodeState :=
  let q := normalizeQSet qSet in
  {| mNodeID := nodeId; mIsValidator := isValidator; mQSet := q; mQSetHash := qSetHash q |}.

Definition newSCP (nodeId : NodeID) (isValidator : bool) (qSetLocal : SCPQuorumSet) : SCPState :=
  {| mLocalNode := newLocalNode nodeId isValidator qSetLocal; mKnownSlots := [] |}.

Definition setSlot (index : Z) (s : Slot) (scp : SCPState) : SCPState :=
  {| mLocalNode := mLocalNode scp; mKnownSlots := om_set index s (mKnownSlots scp) |}.

Definition getSlot (index : Z) (create : bool) : M SCPState (option Slot) :=
  scp ← get;
  match om_find index (mKnownSlots scp) with
  | Some s => mret (Some s)
  | None =>
      if create then
        let s := newSlot (envOf scp) index in
        modify (setSlot index s);; mret (Some s)
      else mret None
  end.

(** Run a method of the slot held under [index]; the slot is shared, so its
    state is kept also when the method throws. *)
Definition runSlot {A} (index : Z) (s : Slot) (f : ScpEnv -> M Slot A) : M SCPState A :=
  fun scp =>
    match f (envOf scp) s with
    | Ret a s' => Ret a (setSlot index s' scp)
    | Throw e s' => Throw e (setSlot index s' scp)
    end.

Definition onSlot {A} (index : Z) (f : ScpEnv -> M Slot A) : M SCPState A :=
  o ← getSlot index true;
  match o with
  | None => throw NullDeref
  | Some s => runSlot index s f
  end.

Definition dbgAssertValidator : M SCPState unit :=
  scp ← get;
  if dbg && negb (mIsValidator (mLocalNode scp)) then throw Aborted else mret tt.

Definition receiveEnvelope (e : SCPEnvelope) : M SCPState EnvelopeState :=
  if negb (verifyEnvelope drv e) then mret INVALID else
  onSlot (slotIndex (statement e)) (fun env => SlotOps.processEnvelope env fuel e false).

Definition abandonBallot (index : Z) : M SCPState bool :=
  dbgAssertValidator;; onSlot index SlotOps.abandonBallot.

Definition nominate (index : Z) (value previousValue : Value) : M SCPState bool :=
  dbgAssertValidator;;
  onSlot index (fun env => SlotOps.nominate env fuel value previousValue false).

Definition stopNomination (index : Z) : M SCPState unit :=
  o ← getSlot index false;
  match o with
  | Some _ => onSlot index (fun _ => SlotOps.stopNomination)
  | None => mret tt
  end.

(** [LocalNode::updateQuorumSet] *)
Definition updateLocalQuorumSet (qSet : SCPQuorumSet) : M SCPState unit :=
  modify (fun scp =>
    {| mLocalNode := {| mNodeID := mNodeID (mLocalNode scp);
                        mIsValidator := mIsValidator (mLocalNode scp);
                        mQSet := qSet; mQSetHash := qSetHash qSet |};
       mKnownSlots := mKnownSlots scp |}).

(** The iterator loop: erase the slots below [maxSlotIndex]. *)
Fixpoint purgeLoop (maxSlotIndex : Z) (slots : list (Z * Slot)) : list (Z * Slot) :=
  match slots with
  | [] => []
  | it :: r => if it.1 <? maxSlotIndex then purgeLoop maxSlotIndex r
               else it :: purgeLoop maxSlotIndex r
  end.

Definition purgeSlots (maxSlotIndex : Z) : M SCPState unit :=
  modify (fun scp => {| mLocalNode := mLocalNode scp;
                        mKnownSlots := purgeLoop maxSlotIndex (mKnownSlots scp) |}).

Definition setStateFromEnvelope (index : Z) (e : SCPEnvelope) : M SCPState unit :=
  if verifyEnvelope drv e
  then onSlot index (fun env => SlotOps.setStateFromEnvelope env e)
  else mret tt.

Definition getKnownSlotsCount (scp : SCPState) : nat := length (mKnownSlots scp).

Definition getCumulativeStatemtCount (scp : SCPState) : nat :=
  fold_left (fun c (s : Z * Slot) => c + length (mStatementsHistory s.2))%nat (mKnownSlots scp) 0%nat.

Definition getLatestMessagesSend (index : Z) (scp : SCPState) : list SCPEnvelope :=
  match om_find index (mKnownSlots scp) with
  | Some s => SlotOps.getLatestMessagesSend s | None => [] end.

Definition getCurrentState (index : Z) (scp : SCPState) : list SCPEnvelope :=
  match om_find index (mKnownSlots scp) with
  | Some s => SlotOps.getCurrentState (envOf scp) s | None => [] end.

Definition getExternalizingState (index : Z) (scp : SCPState) : option (list SCPEnvelope) :=
  match om_find index (mKnownSlots scp) with
  | Some s => SlotOps.getExternalizingState (envOf scp) s | None => Some [] end.

(** The first slot with a definite answer decides. *)
Fixpoint nodeInQuorumSlots (env : ScpEnv) (node : NodeID) (slots : list (Z * Slot))
    (res : TriBool) : option TriBool :=
  match slots with
  | [] => Some res
  | (_, s) :: r =>
      match SlotOps.isNodeInQuorum env s node with
      | None => None
      | Some TB_MAYBE => nodeInQuorumSlots env node r TB_MAYBE
      | Some res' => Some res'
      end
  end.

Definition isNodeInQuorum (node : NodeID) (scp : SCPState) : option TriBool :=
  nodeInQuorumSlots (envOf scp) node (mKnownSlots scp) TB_MAYBE.

End WithDriver.
End SCP.
