(* ===== verification/SlotSafety.v ===== *)
(** * Safety of a slot over all histories

    The entry points of a slot as actions, the slots reachable from a new
    one, and what holds of all of them: what was externalized stays, the
    emitted statements only get newer, the invariants of the two protocols
    hold, and every entry point returns or throws within its bounds.  The
    second part is a concrete network with its histories. *)

From Stdlib Require Import Sorted.
From S2P Require Import Prelude OrdContainers QuorumSet ScpTypes BallotOrder Federated Ballot BallotFacts BallotStep BallotVoting Nomination NominationStep SlotScp.

(** The ways the application and the timers enter a slot. *)
Inductive SlotAction :=
| ReceiveEnvelope (e : SCPEnvelope)
| Nominate (value previousValue : Value) (timedout : bool)
| BallotTimer
| Abandon
| Bump (v : Value) (force : bool)
| StopNomination.

Section Safety.
Context (env : ScpEnv) (idx : Z) (U : list Value).
Abbreviation self := (mNodeID (localNode env)).

(** Enough for the recursion of the nomination protocol (see [nomRoom]). *)
Definition slotFuel : nat := S (2 * length U).

Definition discard {A} (m : M Slot A) : M Slot unit := m ≫= fun _ => mret tt.

Definition runAction (a : SlotAction) : M Slot unit :=
  match a with
  | ReceiveEnvelope e => discard (SlotOps.processEnvelope env slotFuel e false)
  | Nominate v prev timedout => discard (SlotOps.nominate env slotFuel v prev timedout)
  | BallotTimer => SlotOps.ballotProtocolTimerExpired env
  | Abandon => discard (SlotOps.abandonBallot env)
  | Bump v force => discard (SlotOps.bumpState env v force)
  | StopNomination => SlotOps.stopNomination
  end.

(** The nominations of others are drawn from the universe; [honest] also
    says that nobody else speaks in the name of the node. *)
Definition permitted (honest : Prop) (a : SlotAction) : Prop :=
  match a with
  | ReceiveEnvelope e => forall nom, pledges (statement e) = NOMINATE nom ->
      (forall v, v ∈ NP.allValues nom -> v ∈ U) /\ (honest -> nodeID (statement e) <> self)
  | Nominate v _ _ => v ∈ U
  | _ => True
  end.

(** The driver knows the quorum set the node announces, and it is sane. *)
Definition localQSetKnown : Prop :=
  exists q, getQSet (driver env) (mQSetHash (localNode env)) = Some q /\
    LocalNode.isQuorumSetSane q false = true.

Context (honest : Prop).

Inductive reachable : Slot -> Prop :=
| reach_new : reachable (newSlot env idx)
| reach_step s a s' : reachable s -> permitted honest a -> runAction a s = Ret tt s' -> reachable s'.

Context (Hclosed : closedU env U idx) (Hqset : honest -> localQSetKnown).
Abbreviation wf := (nwf env U idx 0 honest).

Lemma room_fuel s : nomRoom U (mNominationProtocol s) < Z.of_nat slotFuel.
Proof.
  unfold nomRoom, slotFuel.
  pose proof (count_le_length (fun v => negb (os_mem v (mVotes (mNominationProtocol s)))) U).
  pose proof (count_le_length (fun v => negb (os_mem v (mAccepted (mNominationProtocol s)))) U). lia.
Qed.

Lemma wf_new : wf (newSlot env idx).
Proof.
  constructor; try done.
  - apply nomWf_new.
  - constructor; cbn; [|done]. intros v Hv. by apply elem_of_nil in Hv.
Qed.

(** One action, whatever its outcome. *)
Lemma runAction_wp a s : wf s -> permitted honest a ->
  wp (runAction a) (fun _ s' => slot_grow s s' /\ wf s') (nthrown honest s) s.
Proof using Hclosed Hqset.
  intros Hw Ha.
  assert (forall A (m : M Slot A), wp m (fun _ s' => good env s s') (thrown s) s ->
    wp m (fun _ s' => slot_grow s s' /\ wf s') (nthrown honest s) s) as Hballot.
  { intros A m Hm. eapply wp_mono; [exact Hm| |].
    - intros r s' Hg. split; [by apply slot_le_grow, (good_le env)|].
      eapply nwf_ballot; [done|by apply (good_le env)|apply Hg].
    - intros x s' [Hle Hx]. split; [by apply slot_le_grow|by apply ballotExn_nom]. }
  assert (forall A (m : M Slot A) (Q : A -> Slot -> Prop), wp m Q (nthrown honest s) s ->
    (forall r s', Q r s' -> slot_grow s s' /\ wf s') ->
    wp (discard m) (fun _ s' => slot_grow s s' /\ wf s') (nthrown honest s) s) as Hdiscard.
  { intros A m Q Hm HQ. apply wp_bind. eapply wp_mono; [exact Hm| |done].
    intros r s' Hr. apply wp_ret. by eapply HQ. }
  pose proof (w_ready _ _ _ _ _ _ Hw) as Hready.
  pose proof (processSelf_spec env 0 ltac:(lia)) as Hself.
  destruct a as [e|v prev timedout| | |v force|]; cbn [runAction].
  - eapply Hdiscard; [apply (processFuel_wp env U idx 0 ltac:(lia) Hclosed honest Hqset)|].
    + exact Hw.
    + intros nom Hp. destruct (Ha nom Hp) as [HU Hn]. auto.
    + apply room_fuel.
    + intros r s' (? & ? & _). auto.
  - eapply Hdiscard; [apply (nominate_wp env U idx 0 Hclosed honest) with
      (room := nomRoom U (mNominationProtocol s) - 1)|]; try done; [|lia].
    apply processFuel_npe; try done. pose proof (room_fuel s). lia.
  - apply Hballot. by apply (ballotProtocolTimerExpired_wp env _ 0 Hself).
  - eapply Hdiscard; [apply Hballot|auto].
    eapply wp_mono; [by apply (abandonBallot_wp env _ 0 Hself)| |done].
    intros r s'. apply bump_post_good.
  - eapply Hdiscard; [apply Hballot|auto].
    eapply wp_mono; [by apply (bumpState_wp env _ 0 Hself)| |done].
    intros r s'. apply bump_post_good.
  - apply wp_modNom. split.
    + apply slot_le_grow, slot_le_stopped.
    + eapply nwf_ballot; [exact Hw|apply slot_le_stopped|done].
Qed.

Lemma reachable_wf s : reachable s -> wf s.
Proof using Hclosed Hqset.
  induction 1 as [|s a s' _ IH Ha Hrun]; [apply wf_new|].
  pose proof (runAction_wp a s IH Ha) as Hw. unfold wp in Hw. rewrite Hrun in Hw. apply Hw.
Qed.

(** What any outcome of an action leaves. *)
Definition outcomeState {A} (o : outcome Slot A) : Slot :=
  match o with Ret _ s => s | Throw _ s => s end.

Lemma action_grows a s : reachable s -> permitted honest a ->
  slot_grow s (outcomeState (runAction a s)).
Proof using Hclosed Hqset.
  intros Hs Ha. pose proof (runAction_wp a s (reachable_wf s Hs) Ha) as Hw. unfold wp in Hw.
  destruct (runAction a s); [apply Hw|apply Hw].
Qed.

Lemma reachable_grows s : reachable s -> slot_grow (newSlot env idx) s.
Proof using Hclosed Hqset.
  induction 1 as [|s a s' Hs IH Ha Hrun]; [reflexivity|]. etransitivity; [exact IH|].
  pose proof (action_grows a s Hs Ha) as Hg. by rewrite Hrun in Hg.
Qed.

Lemma emitOk_new : emitOk (newSlot env idx).
Proof. constructor; cbn; try done; [constructor|]. intros e He. by apply elem_of_nil in He. Qed.

Lemma extOk_new : extOk (newSlot env idx).
Proof. intros i v Hin. by apply elem_of_nil in Hin. Qed.

End Safety.

(** ** The prepared ballots

    Every action makes p rise and keeps p' below it; the nomination protocol
    touches them only by bumping the state. *)
Section Prepared.
Context (env : ScpEnv).
Import NP.

Lemma newValueLoop_rises values : forall v h, rises (newValueLoop env values v h).
Proof. induction values; intros v h; cbn [newValueLoop]; unfold hashValue; rises_steps. Qed.
#[local] Hint Resolve newValueLoop_rises : rises.

Lemma acceptLoop_rises votes : forall b, rises (acceptLoop env votes b).
Proof. induction votes; intros b; cbn [acceptLoop]; rises_steps. Qed.

Lemma candidateLoop_rises accepted : forall b, rises (candidateLoop env accepted b).
Proof. induction accepted; intros b; cbn [candidateLoop]; rises_steps. Qed.

Lemma leadersLoop_rises q nodes : forall top, rises (leadersLoop env q nodes top).
Proof. induction nodes; intros top; cbn [leadersLoop]; unfold getNodePriority, hashNode; rises_steps. Qed.

Lemma echoLoop_rises leaders : forall v b, rises (echoLoop env leaders v b).
Proof. induction leaders; intros v b; cbn [echoLoop]; unfold getNewValueFromNomination; rises_steps. Qed.
#[local] Hint Resolve acceptLoop_rises candidateLoop_rises leadersLoop_rises echoLoop_rises : rises.

Lemma bumpOwn_rises v force : rises (BP.bumpState env (BP.processSelf env) v force).
Proof. apply bumpState_rises. intros e. apply processEnvelopeFuel_rises. Qed.
#[local] Hint Resolve bumpOwn_rises : rises.

Section WithPe.
Context (pe : SCPEnvelope -> M Slot EnvelopeState) (Hpe : forall e, rises (pe e)).
#[local] Hint Resolve Hpe : rises.

Lemma emitNomination_rises : rises (emitNomination env pe).
Proof using Hpe. unfold emitNomination, BP.createEnvelope. rises_steps. Qed.
#[local] Hint Resolve emitNomination_rises : rises.

Lemma dispatch_rises e self : rises (dispatch env pe e self).
Proof using Hpe.
  assert (rises (BP.processEnvelope env e self)) as Hb by apply processEnvelopeFuel_rises.
  unfold dispatch, processNominationBody, advanceNomination, isNewerNominationFor, isSane, recordEnvelope, BP.recordStatement, getNewValueFromNomination. rises_steps.
Qed.

Lemma nominate_rises v prev b : rises (nominate env pe v prev b).
Proof using Hpe. unfold nominate, updateRoundLeaders. rises_steps. Qed.
End WithPe.

Lemma processFuel_rises fuel : forall e self, rises (processFuel env fuel e self).
Proof. induction fuel as [|fuel IH]; intros e self; cbn [processFuel]; [apply rises_throw|]. apply dispatch_rises. intros e'. apply IH. Qed.

Lemma action_rises U a : rises (runAction env U a).
Proof.
  assert (forall e, rises (BP.processSelf env e)) as Hself by (intros e; apply processEnvelopeFuel_rises).
  destruct a as [e|v prev b| | |v force|]; cbn [runAction]; unfold discard, SlotOps.processEnvelope, SlotOps.nominate, SlotOps.ballotProtocolTimerExpired, SlotOps.abandonBallot,
    SlotOps.bumpState, SlotOps.stopNomination, BP.stopNomination.
  - apply rises_bind; [apply processFuel_rises|]. intros r. apply rises_ret.
  - apply rises_bind; [|intros r; apply rises_ret]. apply nominate_rises. intros e. apply processFuel_rises.
  - by apply timerExpired_rises.
  - apply rises_bind; [by apply abandonBallot_rises|intros r; apply rises_ret].
  - apply rises_bind; [by apply bumpState_rises|intros r; apply rises_ret].
  - rises_steps.
Qed.

Lemma reachable_ordered idx U honest s : reachable env idx U honest s -> preparedOrdered (mBallotProtocol s).
Proof.
  induction 1 as [|s a s' Hs IH Hp E]; [done|]. pose proof (action_rises U a s) as Hr. unfold wp in Hr. rewrite E in Hr. by apply Hr.
Qed.

End Prepared.

(** * A concrete network

    A node with identifier 0 in a network of four with a flat quorum set of
    threshold three, used by the concrete instances of the theorems. *)

Definition exQSet : SCPQuorumSet := QSet 3 [0; 1; 2; 3] [].

Definition exDriver : SCPDriver := {|
  signEnvelope := fun _ => [];
  verifyEnvelope := fun _ => true;
  getQSet := fun h => if h =? 7 then Some exQSet else None;
  validateValue := fun _ _ => kFullyValidatedValue;
  extractValidValue := fun _ v => v;
  computeHashNode := fun _ _ isPriority _ n => if isPriority then n + 1 else 0;
  computeValueHash := fun _ _ _ _ => 0;
  combineCandidates := fun _ l => match l with v :: _ => v | [] => [] end;
|}.

Definition exNode : LocalNodeState :=
  {| mNodeID := 0; mIsValidator := true; mQSet := exQSet; mQSetHash := 7 |}.

Definition exEnv (dbg : bool) : ScpEnv :=
  {| localNode := exNode; driver := exDriver; debugBuild := dbg |}.

Definition exValue : Value := [1].
Definition exU : list Value := [exValue].

Definition exEnvelope (n : NodeID) (p : SCPPledges) : SCPEnvelope :=
  {| statement := {| nodeID := n; slotIndex := 5; pledges := p |}; signature := [] |}.

Definition exExternalize (n : NodeID) : SCPEnvelope :=
  exEnvelope n (EXTERNALIZE {| e_commit := Ballot 1 exValue; e_nH := 1; e_commitQuorumSetHash := 7 |}).

Definition exNomination (n : NodeID) : SCPEnvelope :=
  exEnvelope n (NOMINATE {| n_quorumSetHash := 7; n_votes := [exValue]; n_accepted := [exValue] |}).

(** Run a sequence of actions that all return. *)
Fixpoint drive (env : ScpEnv) (U : list Value) (acts : list SlotAction) (s : Slot) : option Slot :=
  match acts with
  | [] => Some s
  | a :: r => match runAction env U a s with
              | Ret _ s' => drive env U r s'
              | Throw _ _ => None
              end
  end.

Lemma drive_reachable env idx U honest acts : forall s s', reachable env idx U honest s ->
  Forall (permitted env U honest) acts -> drive env U acts s = Some s' ->
  reachable env idx U honest s'.
Proof.
  induction acts as [|a r IH]; cbn; intros s s' Hs Hp Hd; [by simplify_eq|].
  apply Forall_cons in Hp as [Ha Hr]. destruct (runAction env U a s) as [[] s1|] eqn:E; [|done].
  eapply IH; [|done|done]. by eapply reach_step.
Qed.

Definition exHistory : list SlotAction :=
  [Nominate exValue [9] false; ReceiveEnvelope (exNomination 1); ReceiveEnvelope (exNomination 2);
   ReceiveEnvelope (exNomination 3); ReceiveEnvelope (exExternalize 1);
   ReceiveEnvelope (exExternalize 2); ReceiveEnvelope (exExternalize 3)].

(** The slot after the first [n] actions. *)
Definition exSlot (n : nat) : Slot :=
  match drive (exEnv true) exU (take n exHistory) (newSlot (exEnv true) 5) with
  | Some s => s
  | None => newSlot (exEnv true) 5
  end.

(** The slot with one more recorded ballot envelope. *)
Definition exRecord (e : SCPEnvelope) (s : Slot) : Slot :=
  outcomeState (BP.recordEnvelope e s).

(** ** A network of five with threshold four *)

Definition exQSet5 : SCPQuorumSet := QSet 4 [0; 1; 2; 3; 4] [].

Definition exDriver5 : SCPDriver := {|
  signEnvelope := fun _ => [];
  verifyEnvelope := fun _ => true;
  getQSet := fun h => if h =? 8 then Some exQSet5 else None;
  validateValue := fun _ _ => kFullyValidatedValue;
  extractValidValue := fun _ v => v;
  computeHashNode := fun _ _ isPriority _ n => if isPriority then n + 1 else 0;
  computeValueHash := fun _ _ _ _ => 0;
  combineCandidates := fun _ l => match l with v :: _ => v | [] => [] end;
|}.

Definition exEnv5 (dbg : bool) : ScpEnv :=
  {| localNode := {| mNodeID := 0; mIsValidator := true; mQSet := exQSet5; mQSetHash := 8 |};
     driver := exDriver5; debugBuild := dbg |}.

Definition exPrepare5 (n : NodeID) (b : SCPBallot) (p p' : option SCPBallot) : SCPEnvelope :=
  exEnvelope n (PREPARE {| p_quorumSetHash := 8; p_ballot := b; p_prepared := p;
                           p_preparedPrime := p'; p_nC := 0; p_nH := 0 |}).

(** The node is on its second ballot for [2] when three nodes that accepted
    (4, [2]) and then (5, [1]) as prepared are heard. *)
Definition exSplit : list SlotAction :=
  let ahead n := ReceiveEnvelope (exPrepare5 n (Ballot 5 [1]) (Some (Ballot 5 [1])) (Some (Ballot 4 [2]))) in
  [Bump [2] false; Abandon; ReceiveEnvelope (exPrepare5 4 (Ballot 1 [2]) None None);
   ahead 1; ahead 2; ahead 3].
