(* ===== verification/SlotTheorems.v ===== *)
(** * Theorems on slots

    The properties of every history of a slot, with instances on the
    network of [Scenario]. *)

From Stdlib Require Import Sorted.
From S2P Require Import Prelude OrdContainers QuorumSet ScpTypes BallotOrder Federated Ballot BallotFacts BallotStep BallotVoting Nomination NominationStep SlotScp SlotSafety.

(** ** The instance used by the witnesses *)

Lemma exClosed dbg : closedU (exEnv dbg) exU 5.
Proof. intros v Hv _. exact Hv. Defined.

Lemma exKnown dbg : localQSetKnown (exEnv dbg).
Proof. exists exQSet. split; vm_compute; reflexivity. Defined.

Lemma exPermitted : Forall (permitted (exEnv true) exU True) exHistory.
Proof.
  unfold exHistory. repeat apply Forall_cons_2; [left|..|apply Forall_nil_2].
  all: intros nom Hp; cbn in Hp; try discriminate; injection Hp as <-.
  all: split; [|discriminate]; intros v; cbn; unfold exU; rewrite !elem_of_cons; intros Hv; break; auto.
Defined.

Lemma exReachable n : drive (exEnv true) exU (take n exHistory) (newSlot (exEnv true) 5) <> None ->
  reachable (exEnv true) 5 exU True (exSlot n).
Proof.
  intros Hn. unfold exSlot. destruct (drive _ _ _ _) as [s|] eqn:E; [|done].
  eapply drive_reachable; [apply reach_new| |exact E].
  apply Forall_take, exPermitted.
Defined.

Ltac ex_reachable := apply exReachable; vm_compute; discriminate.

(** ** Externalization *)

(** C1. In every history, at most one value is announced as externalized for
    a slot, and none before the slot is in the EXTERNALIZE phase, whatever
    envelopes are received, in whatever order, and also when the last entry
    point throws. *)
Theorem externalized_at_most_once env idx U honest s a :
  closedU env U idx -> (honest -> localQSetKnown env) ->
  reachable env idx U honest s -> permitted env U honest a ->
  let s' := outcomeState (runAction env U a s) in
  extCount s' <= 1 /\ (phaseOf s' <> SCP_PHASE_EXTERNALIZE -> extCount s' = 0).
Proof.
  intros Hc Hq Hs Ha s'.
  assert (slot_grow (newSlot env idx) s') as Hg.
  { etransitivity; [by eapply reachable_grows|by eapply action_grows]. }
  pose proof (le_externalized Hg) as He. change (extCount (newSlot env idx)) with 0 in He.
  change (phaseRank (phaseOf (newSlot env idx)) / 2) with 0 in He.
  pose proof (count_nonneg isExternalized (mDriverCalls s')) as Hn. fold (extCount s') in Hn.
  destruct (phaseOf s') eqn:Hp; cbn [phaseRank] in He;
    (split; [|intros Hne]); try congruence; Z.to_euclidean_division_equations; lia.
Qed.

Lemma externalized_at_most_once_witness :
  let s' := outcomeState (runAction (exEnv true) exU (ReceiveEnvelope (exExternalize 3)) (exSlot 6)) in
  extCount s' = 1 /\ extCount s' <= 1.
Proof.
  split; [vm_compute; reflexivity|].
  apply (externalized_at_most_once (exEnv true) 5 exU True (exSlot 6) (ReceiveEnvelope (exExternalize 3))).
  - apply exClosed.
  - intros _. apply exKnown.
  - ex_reachable.
  - intros nom. cbn. discriminate.
Defined.

(** C2. An announced value is the value of the commit ballot, the slot is
    then in the EXTERNALIZE phase, and no later entry point changes the
    phase or any of the ballots b, p, p', h, c. *)
Theorem externalized_value_final env idx U honest s a :
  closedU env U idx -> (honest -> localQSetKnown env) ->
  reachable env idx U honest s -> permitted env U honest a ->
  let s' := outcomeState (runAction env U a s) in
  extOk s' /\
  (phaseOf s = SCP_PHASE_EXTERNALIZE ->
     phaseOf s' = SCP_PHASE_EXTERNALIZE /\
     ballots (mBallotProtocol s') = ballots (mBallotProtocol s)).
Proof.
  intros Hc Hq Hs Ha s'.
  assert (slot_grow s s') as Hg by (by eapply action_grows).
  split.
  - apply (le_extok _ _ _ Hg). apply (le_extok (nom_le) (newSlot env idx) s); [by eapply reachable_grows|].
    apply extOk_new.
  - intros Hp. split; [|by apply (le_frozen _ _ _ Hg)].
    apply phaseRank_ext. pose proof (le_phase Hg) as Hle. by rewrite Hp in Hle.
Qed.

Lemma externalized_value_final_witness :
  let s' := outcomeState (runAction (exEnv true) exU Abandon (exSlot 7)) in
  extCount s' = 1 /\
  ballots (mBallotProtocol s') = ballots (mBallotProtocol (exSlot 7)).
Proof.
  split.
  - vm_compute. reflexivity.
  - apply (externalized_value_final (exEnv true) 5 exU True (exSlot 7) Abandon).
    + apply exClosed.
    + intros _. apply exKnown.
    + ex_reachable.
    + exact I.
    + vm_compute. reflexivity.
Defined.

(** ** Statements *)

(** C11. The ballot statements a node hands to its driver for broadcast are
    each strictly newer, in the order of [isNewerStatement], than every one
    it handed over before: it never goes back on what it said. *)
Theorem emitted_ever_newer env idx U honest s a :
  closedU env U idx -> (honest -> localQSetKnown env) ->
  reachable env idx U honest s -> permitted env U honest a ->
  StronglySorted newerEnvelope (emitted (outcomeState (runAction env U a s))).
Proof.
  intros Hc Hq Hs Ha. apply eo_sorted.
  apply (le_emit nom_le s); [by eapply action_grows|].
  apply (le_emit nom_le (newSlot env idx)); [by eapply reachable_grows|apply emitOk_new].
Qed.

Lemma emitted_ever_newer_witness :
  let s' := outcomeState (runAction (exEnv true) exU (ReceiveEnvelope (exExternalize 3)) (exSlot 6)) in
  length (emitted s') = 2%nat /\ StronglySorted newerEnvelope (emitted s').
Proof.
  split; [vm_compute; reflexivity|].
  apply (emitted_ever_newer (exEnv true) 5 exU True (exSlot 6) (ReceiveEnvelope (exExternalize 3))).
  - apply exClosed.
  - intros _. apply exKnown.
  - ex_reachable.
  - intros nom. cbn. discriminate.
Defined.

(** C38. An entry point never lowers the phase of a slot, never forgets the
    ballot statement or the nomination of a node and only replaces it by a
    newer one, and only ever adds votes, accepted values and candidates. *)
Theorem slot_only_advances env idx U honest s a :
  closedU env U idx -> (honest -> localQSetKnown env) ->
  reachable env idx U honest s -> permitted env U honest a ->
  let s' := outcomeState (runAction env U a s) in
  phaseRank (phaseOf s) <= phaseRank (phaseOf s') /\
  latest_le (latest s) (latest s') /\
  nom_le (mNominationProtocol s) (mNominationProtocol s').
Proof.
  intros Hc Hq Hs Ha s'. assert (slot_grow s s') as [] by (by eapply action_grows). auto.
Qed.

Lemma slot_only_advances_witness :
  latest_le (latest (exSlot 5))
    (latest (outcomeState (runAction (exEnv true) exU (ReceiveEnvelope (exExternalize 2)) (exSlot 5)))).
Proof.
  apply (slot_only_advances (exEnv true) 5 exU True (exSlot 5) (ReceiveEnvelope (exExternalize 2))).
  - apply exClosed.
  - intros _. apply exKnown.
  - ex_reachable.
  - intros nom. cbn. discriminate.
Defined.

(** ** Termination and errors *)

(** C35. The prepared ballots are ordered.  In every history of a slot,
    whatever envelopes are received, in debug and in release builds, also when
    the last entry point throws: p' is below p and incompatible with it, there
    is no p' without p, and p never goes down.  No assertion of the code is
    needed for this. *)
Theorem prepared_only_rises env idx U honest s a :
  reachable env idx U honest s ->
  let bp := mBallotProtocol s in
  let bp' := mBallotProtocol (outcomeState (runAction env U a s)) in
  preparedOrdered bp /\ preparedOrdered bp' /\ optBallot_le (mPrepared bp) (mPrepared bp').
Proof.
  intros Hs bp bp'. pose proof (reachable_ordered env idx U honest s Hs) as Ho. split; [done|].
  pose proof (action_rises env U a s) as Hr. unfold wp in Hr. unfold bp'. destruct (runAction env U a s); by apply Hr.
Qed.

(** The slot of [exSplit] before its fifth action, which sets both ballots. *)
Definition exBeforeSplit : Slot :=
  match drive (exEnv5 false) [] (take 4 exSplit) (newSlot (exEnv5 false) 5) with Some s => s | None => newSlot (exEnv5 false) 5 end.
Definition exSplitAction : SlotAction := List.nth 4 exSplit Abandon.

Lemma exBeforeSplit_reachable : reachable (exEnv5 false) 5 [] False exBeforeSplit.
Proof.
  unfold exBeforeSplit. destruct (drive _ _ _ _) as [s|] eqn:E; [|apply reach_new].
  eapply drive_reachable; [apply reach_new| |exact E]. repeat apply Forall_cons_2; try done; intros nom Hp; cbn in Hp; discriminate.
Qed.

Lemma prepared_only_rises_witness :
  let bp' := mBallotProtocol (outcomeState (runAction (exEnv5 false) [] exSplitAction exBeforeSplit)) in
  mPrepared bp' = Some (Ballot 5 [1]) /\ mPreparedPrime bp' = Some (Ballot 2 [2]) /\ preparedOrdered bp' /\
  optBallot_le (mPrepared (mBallotProtocol exBeforeSplit)) (mPrepared bp').
Proof.
  split; [vm_compute; reflexivity|]. split; [vm_compute; reflexivity|].
  apply (prepared_only_rises (exEnv5 false) 5 [] False exBeforeSplit exSplitAction). apply exBeforeSplit_reachable.
Defined.

(** C12. Every entry point of a reachable slot finishes within the bounds of
    the model: the recursion of the ballot protocol through its own
    statements stays below [MAX_ADVANCE_SLOT_RECURSION], the bump loop and
    the recursion of the nomination protocol end, and when the entry point
    returns the recursion level is back to zero. *)
Theorem slot_terminates env idx U honest s a :
  closedU env U idx -> (honest -> localQSetKnown env) ->
  reachable env idx U honest s -> permitted env U honest a ->
  match runAction env U a s with
  | Ret _ s' => level s' = 0
  | Throw x _ => x <> OutOfFuel
  end.
Proof.
  intros Hc Hq Hs Ha.
  pose proof (runAction_wp env idx U honest Hc Hq a s
    (reachable_wf env idx U honest Hc Hq s Hs) Ha) as Hw.
  unfold wp in Hw. destruct (runAction env U a s) as [[] s'|x s'].
  - destruct Hw as [_ []]. apply w_ready.
  - apply Hw.
Qed.

Lemma slot_terminates_witness :
  match runAction (exEnv true) exU (ReceiveEnvelope (exExternalize 3)) (exSlot 6) with
  | Ret _ s' => level s' = 0
  | Throw x _ => x <> OutOfFuel
  end.
Proof.
  apply (slot_terminates (exEnv true) 5 exU True (exSlot 6) (ReceiveEnvelope (exExternalize 3))).
  - apply exClosed.
  - intros _. apply exKnown.
  - ex_reachable.
  - intros nom. cbn. discriminate.
Defined.

(** When only the node itself speaks in its name and the driver knows
    its quorum set, no entry point ends with the error "moved to a bad
    state (nomination)": the nomination a node emits always passes its own
    checks. *)
Theorem nomination_never_bad env idx U s a s' :
  closedU env U idx -> localQSetKnown env ->
  reachable env idx U True s -> permitted env U True a ->
  runAction env U a s <> Throw badNomination s'.
Proof.
  intros Hc Hq Hs Ha Hrun.
  pose proof (runAction_wp env idx U True Hc (fun _ => Hq) a s
    (reachable_wf env idx U True Hc (fun _ => Hq) s Hs) Ha) as Hw.
  unfold wp in Hw. rewrite Hrun in Hw. destruct Hw as [_ [_ Hb]]. by apply Hb.
Qed.

Lemma nomination_never_bad_witness :
  runAction (exEnv true) exU (ReceiveEnvelope (exNomination 3)) (exSlot 3) <>
    Throw badNomination (exSlot 3).
Proof.
  apply (nomination_never_bad (exEnv true) 5 exU (exSlot 3)).
  - apply exClosed.
  - apply exKnown.
  - ex_reachable.
  - intros nom [= <-]. split; [|cbn; discriminate].
    intros v. cbn. unfold exU. rewrite !elem_of_cons. intros Hv. break; auto.
Defined.

(** ** Nomination *)

(** In every reachable slot the candidates have all been accepted, the
    accepted values all voted for, and the application judged every
    accepted value fully valid. *)
Theorem nomination_promotes env idx U honest s :
  closedU env U idx -> (honest -> localQSetKnown env) -> reachable env idx U honest s ->
  let n := mNominationProtocol s in
  (forall v, v ∈ mCandidates n -> v ∈ mAccepted n) /\
  (forall v, v ∈ mAccepted n ->
     v ∈ mVotes n /\ validateValue (driver env) idx v = kFullyValidatedValue).
Proof.
  intros Hc Hq Hs n. destruct (reachable_wf env idx U honest Hc Hq s Hs) as [_ _ [] _ _]. auto.
Qed.

Lemma nomination_promotes_witness :
  mCandidates (mNominationProtocol (exSlot 4)) = [exValue] /\
  (forall v, v ∈ mCandidates (mNominationProtocol (exSlot 4)) ->
     v ∈ mAccepted (mNominationProtocol (exSlot 4))).
Proof.
  split; [vm_compute; reflexivity|].
  apply (nomination_promotes (exEnv true) 5 exU True (exSlot 4)).
  - apply exClosed.
  - intros _. apply exKnown.
  - ex_reachable.
Defined.
