(* ===== verification/BallotTheorems.v ===== *)
(** * Theorems on the ballot protocol *)

From S2P Require Import Prelude OrdContainers QuorumSet QuorumFacts ScpTypes BallotOrder Federated FederatedFacts Ballot BallotFacts BallotStep BallotVoting Nomination SlotScp SlotSafety.
Import BP.

(** ** Processing an envelope *)

Lemma find_others env n (m : EnvelopeMap) : n <> mNodeID (localNode env) ->
  om_find n (others env m) = om_find n m.
Proof.
  intros Hn. unfold others. induction m as [|[k e] m IH]; [done|]. cbn.
  destruct (Z.eqb_spec k (mNodeID (localNode env))) as [->|Hk]; cbn; rewrite ?IH; [|done].
  by rewrite (eqvb_neq n (mNodeID (localNode env))).
Qed.

(** A ballot envelope that is refused leaves the slot exactly as it was.
    One that is accepted was strictly newer than what was recorded for its
    node, and, coming from another node, is now what is recorded for it. *)
Theorem processEnvelope_verdict env s e self :
  om_sorted (latest s) -> 0 <= level s ->
  match processEnvelope env e self s with
  | Ret INVALID s' => s' = s
  | Ret VALID s' =>
      fresh_for s e /\
      (nodeID (statement e) <> mNodeID (localNode env) ->
       om_find (nodeID (statement e)) (latest s') = Some e)
  | Throw x s' => ballotExn x = true /\ slot_le s s'
  end.
Proof.
  intros Hsort Hl. pose proof (processEnvelope_wp env e self s Hsort Hl) as H. unfold wp in H.
  destruct (processEnvelope env e self s) as [[] s'|x s']; [done| |by destruct H].
  destruct H as (Hf & fv & _ & [Hs _]). split; [done|]. intros Hn.
  rewrite <- (find_others env) by done. rewrite (st_others _ _ _ Hs), find_others by done.
  apply om_find_set_eq.
Qed.

Definition exPrepare : SCPEnvelope :=
  exEnvelope 1 (PREPARE {| p_quorumSetHash := 7; p_ballot := Ballot 1 exValue; p_prepared := None;
                           p_preparedPrime := None; p_nC := 0; p_nH := 0 |}).

Lemma processEnvelope_verdict_witness :
  let s := newSlot (exEnv true) 5 in
  om_find 1 (latest (outcomeState (processEnvelope (exEnv true) exPrepare false s))) = Some exPrepare.
Proof.
  assert (om_sorted (latest (newSlot (exEnv true) 5))) as H1 by exact I.
  assert (0 <= level (newSlot (exEnv true) 5)) as H2 by (vm_compute; discriminate).
  pose proof (processEnvelope_verdict (exEnv true) (newSlot (exEnv true) 5) exPrepare false H1 H2) as H.
  vm_compute in H |- *. apply H. discriminate.
Defined.

(** ** Federated agreement behind every transition *)

(** C10. A ballot is accepted as prepared only with agreement: if
    [attemptPreparedAccept] succeeds, then there is one candidate that a
    v-blocking set has accepted, or that a quorum of the local node voted for
    or accepted, and it is this ballot that becomes p or p', that the driver is
    told about, and with which the next statement is emitted. *)
Theorem accept_prepared_needs_agreement env pe hint s s' :
  all_qsets_known env (latest s) ->
  attemptPreparedAccept env pe hint s = Ret true s' ->
  exists b, b ∈ getPrepareCandidates (latest s) hint /\
    accept_condition env (votesPrepared b) (hasPreparedBallot b) (latest s) /\
    exists s1, (mPrepared (mBallotProtocol s1) = Some b \/ mPreparedPrime (mBallotProtocol s1) = Some b) /\
      mDriverCalls s1 = mDriverCalls s ++ [AcceptedBallotPrepared (mSlotIndex s) b] /\
      emitCurrentStateStatement env pe s1 = Ret tt s'.
Proof.
  intros Hk Hrun. pose proof (attemptPreparedAccept_sound env pe hint s) as H.
  unfold wp in H. rewrite Hrun in H. destruct (H eq_refl) as (b & Hin & Hf & Hacc).
  exists b. split; [done|]. split; [|exact Hacc].
  destruct (federatedAccept_correct env (votesPrepared b) (hasPreparedBallot b) (latest s) Hk)
    as (r & Hr & Hiff). apply Hiff. congruence.
Qed.

(** A slot that has heard three nodes externalize. *)
Definition exHeard : Slot :=
  exRecord (exExternalize 3) (exRecord (exExternalize 2) (exRecord (exExternalize 1) (newSlot (exEnv true) 5))).

Definition exConfirming : Slot :=
  Set_.bp exHeard
    (Set_.phase (Set_.commit (Set_.highBallot (Set_.prepared (Set_.currentBallot (mBallotProtocol exHeard)
       (Some (Ballot 1 exValue))) (Some (Ballot 1 exValue))) (Some (Ballot 1 exValue)))
       (Some (Ballot 1 exValue))) SCP_PHASE_CONFIRM).

Lemma exHeard_known : all_qsets_known (exEnv true) (latest exHeard).
Proof.
  split; [vm_compute; repeat split; discriminate|].
  intros n Hn. assert (n = 1 \/ n = 2 \/ n = 3) as Hc.
  { assert ((latest exHeard).*1 = [1; 2; 3]) as E by (vm_compute; reflexivity).
    rewrite E, !elem_of_cons, elem_of_nil in Hn. tauto. }
  exists (QSet 1 [n] []). destruct Hc as [->|[->| ->]];
    (split; [vm_compute; reflexivity|vm_compute; repeat split; discriminate]).
Defined.

Lemma accept_prepared_needs_agreement_witness : let s' := outcomeState (attemptPreparedAccept (exEnv true) (processSelf (exEnv true)) (statement (exExternalize 3)) exHeard) in
  exists b, b ∈ getPrepareCandidates (latest exHeard) (statement (exExternalize 3)) /\
    accept_condition (exEnv true) (votesPrepared b) (hasPreparedBallot b) (latest exHeard) /\
    exists s1, (mPrepared (mBallotProtocol s1) = Some b \/ mPreparedPrime (mBallotProtocol s1) = Some b) /\
      mDriverCalls s1 = mDriverCalls exHeard ++ [AcceptedBallotPrepared (mSlotIndex exHeard) b] /\
      emitCurrentStateStatement (exEnv true) (processSelf (exEnv true)) s1 = Ret tt s'.
Proof.
  apply (accept_prepared_needs_agreement (exEnv true) (processSelf (exEnv true)) _ _
    (outcomeState (attemptPreparedAccept (exEnv true) (processSelf (exEnv true))
                     (statement (exExternalize 3)) exHeard))).
  - apply exHeard_known.
  - vm_compute. reflexivity.
Defined.

(** C9. A value is externalized only from the CONFIRM phase and only if, for
    the value of the commit ballot, the nodes that accepted to commit a
    common range of counters contain a quorum of the local node. *)
Theorem externalize_needs_quorum env pe hint s s' :
  all_qsets_known env (latest s) ->
  attemptConfirmCommit env pe hint s = Ret true s' ->
  phaseOf s = SCP_PHASE_CONFIRM /\
  exists ballot c lo hi, mCommit (mBallotProtocol s) = Some c /\ value ballot = value c /\ lo <> 0 /\
    quorum_within (getQuorumSetFromStatement env) (latest s) (mQSet (localNode env))
      (filterNodes (latest s) (commitPredicate ballot (lo, hi))).
Proof.
  intros Hk Hrun. pose proof (attemptConfirmCommit_sound env pe hint s) as H.
  unfold wp in H. rewrite Hrun in H. destruct (H eq_refl) as (Hp & ballot & c & lo & hi & Hc & Hv & Hlo & Hf).
  split; [done|]. exists ballot, c, lo, hi. repeat split; try done.
  destruct (federatedRatify_correct env (commitPredicate ballot (lo, hi)) (latest s) Hk)
    as (r & Hr & Hiff). apply Hiff. congruence.
Qed.

Lemma externalize_needs_quorum_witness :
  exists ballot c lo hi, mCommit (mBallotProtocol exConfirming) = Some c /\
    value ballot = value c /\ lo <> 0 /\
    quorum_within (getQuorumSetFromStatement (exEnv true)) (latest exConfirming) exQSet
      (filterNodes (latest exConfirming) (commitPredicate ballot (lo, hi))).
Proof.
  apply (externalize_needs_quorum (exEnv true) (processSelf (exEnv true)) (statement (exExternalize 3))
    exConfirming (outcomeState (attemptConfirmCommit (exEnv true) (processSelf (exEnv true))
                                  (statement (exExternalize 3)) exConfirming))).
  - exact exHeard_known.
  - vm_compute. reflexivity.
Defined.

(** ** Helpers *)

(** [findExtendedInterval] on positive boundaries returns (0, 0) exactly
    when no boundary passes alone; otherwise its upper end is the highest
    boundary that passes alone, and its lower end the lowest boundary down
    to which every boundary passes together with the upper end. *)
Theorem findExtendedInterval_maximal (ok : Z * Z -> bool) boundaries :
  os_sorted boundaries -> (forall b, b ∈ boundaries -> 0 < b) ->
  (findExtendedInterval (0, 0) boundaries (fun p => Some (ok p)) = Some (0, 0) /\
     forall b, b ∈ boundaries -> ok (b, b) = false) \/
  exists lo hi, findExtendedInterval (0, 0) boundaries (fun p => Some (ok p)) = Some (lo, hi) /\
    0 < lo /\ extended ok boundaries lo hi.
Proof. apply findExtendedInterval_spec. Qed.

Lemma findExtendedInterval_maximal_witness :
  findExtendedInterval (0, 0) [1; 2; 4; 6] (fun p => Some ((2 <=? p.1) && (p.2 <=? 4))) = Some (2, 4) /\
  ((findExtendedInterval (0, 0) [1; 2; 4; 6] (fun p => Some ((2 <=? p.1) && (p.2 <=? 4))) = Some (0, 0) /\
     forall b, b ∈ [1; 2; 4; 6] -> (2 <=? b) && (b <=? 4) = false) \/
   exists lo hi, findExtendedInterval (0, 0) [1; 2; 4; 6] (fun p => Some ((2 <=? p.1) && (p.2 <=? 4))) =
     Some (lo, hi) /\ 0 < lo /\ extended (fun p => (2 <=? p.1) && (p.2 <=? 4)) [1; 2; 4; 6] lo hi).
Proof.
  split; [reflexivity|].
  apply (findExtendedInterval_maximal (fun p => (2 <=? p.1) && (p.2 <=? 4)) [1; 2; 4; 6]).
  - cbn. repeat split; intros y; rewrite ?elem_of_cons, ?elem_of_nil; intros Hy; break; subst; done.
  - intros b. rewrite !elem_of_cons, elem_of_nil. intros Hb. break; subst; lia || done.
Defined.

(** [setPrepared] keeps p' below p and incompatible with it, lowers
    neither, and stores the ballot when it reports work; it changes nothing
    when it does not. *)
Theorem setPrepared_keeps_order ballot bp : preparedOrdered bp ->
  (forall p, mPrepared bp = Some p -> areBallotsLessAndCompatible ballot p = false) ->
  let '(didWork, bp') := setPrepared ballot bp in
  preparedOrdered bp' /\
  optBallot_le (mPrepared bp) (mPrepared bp') /\
  optBallot_le (mPreparedPrime bp) (mPreparedPrime bp') /\
  (didWork = true -> mPrepared bp' = Some ballot \/ mPreparedPrime bp' = Some ballot) /\
  (didWork = false -> bp' = bp).
Proof. apply setPrepared_spec. Qed.

Lemma setPrepared_keeps_order_witness :
  preparedOrdered (setPrepared (Ballot 3 [2]) (Set_.prepared newBallotProtocol (Some (Ballot 2 [1])))).2.
Proof.
  apply (setPrepared_keeps_order (Ballot 3 [2]) (Set_.prepared newBallotProtocol (Some (Ballot 2 [1])))).
  - exact I.
  - intros p [= <-]. reflexivity.
Defined.

(** When [attemptBump] finds a counter to move to, it is a known counter
    above the current one that no v-blocking set is ahead of, and a
    v-blocking set is ahead of every smaller known counter. *)
Theorem bumpTarget_smallest env envs target counters n : os_sorted counters ->
  bumpTarget env envs target counters = Some n ->
  n ∈ counters /\ target < n /\
  isVBlockingMap (mQSet (localNode env)) envs (aheadOf n) = false /\
  forall m, m ∈ counters -> m < n -> target <= m /\
    isVBlockingMap (mQSet (localNode env)) envs (aheadOf m) = true.
Proof. apply bumpTarget_least. Qed.

Lemma bumpTarget_smallest_witness :
  isVBlockingMap exQSet
    [(1, exExternalize 1); (2, exExternalize 2)] (aheadOf UINT32_MAX) = false.
Proof.
  apply (bumpTarget_smallest (exEnv true) [(1, exExternalize 1); (2, exExternalize 2)] 0 [0; UINT32_MAX]).
  - cbn. repeat split; intros y; rewrite ?elem_of_cons, ?elem_of_nil; intros Hy; break; subst; done.
  - vm_compute. reflexivity.
Defined.

(** ** Restarting *)

(** What [setStateFromEnvelope] can rebuild from one statement: the ballots
    a statement carries only as counters have the value of b. *)
Definition restorable (bp : BallotProtocol) : Prop :=
  exists b, mCurrentBallot bp = Some b /\
    (forall h, mHighBallot bp = Some h -> value h = value b /\ counter h <> 0) /\
    (forall c, mCommit bp = Some c -> value c = value b /\ counter c <> 0) /\
    match mPhase bp with
    | SCP_PHASE_PREPARE => True
    | SCP_PHASE_CONFIRM =>
        mPreparedPrime bp = None /\ is_Some (mHighBallot bp) /\ is_Some (mCommit bp) /\
        exists p, mPrepared bp = Some p /\ value p = value b
    | SCP_PHASE_EXTERNALIZE => is_Some (mHighBallot bp) /\ is_Some (mCommit bp)
    end.

(** The envelope [emitCurrentStateStatement] makes of the state. *)
Definition stateEnvelope (env : ScpEnv) : M Slot SCPEnvelope :=
  s ← get; st ← createStatement env (phaseOf s); createEnvelope env st.

Lemma ballot_eta b n v : counter b = n -> value b = v -> Ballot n v = b.
Proof. destruct b. cbn. congruence. Qed.

(** The pledges of the statement made in each phase. *)
Definition madeFrom (env : ScpEnv) (bp : BallotProtocol) (pl : SCPPledges) : Prop :=
  let qh := mQSetHash (localNode env) in
  match mPhase bp with
  | SCP_PHASE_PREPARE => pl = PREPARE {| p_quorumSetHash := qh;
      p_ballot := match mCurrentBallot bp with Some b => b | None => Ballot 0 [] end;
      p_prepared := mPrepared bp; p_preparedPrime := mPreparedPrime bp;
      p_nC := match mCommit bp with Some c => counter c | None => 0 end;
      p_nH := match mHighBallot bp with Some h => counter h | None => 0 end |}
  | SCP_PHASE_CONFIRM => exists b p c h, mCurrentBallot bp = Some b /\ mPrepared bp = Some p /\
      mCommit bp = Some c /\ mHighBallot bp = Some h /\
      pl = CONFIRM {| c_ballot := b; c_nPrepared := counter p; c_nCommit := counter c;
                      c_nH := counter h; c_quorumSetHash := qh |}
  | SCP_PHASE_EXTERNALIZE => exists c h, mCommit bp = Some c /\ mHighBallot bp = Some h /\
      pl = EXTERNALIZE {| e_commit := c; e_nH := counter h; e_commitQuorumSetHash := qh |}
  end.

Lemma stateEnvelope_made env s e : stateEnvelope env s = Ret e s ->
  nodeID (statement e) = mNodeID (localNode env) /\
  madeFrom env (mBallotProtocol s) (pledges (statement e)).
Proof.
  intros He. assert (wp (stateEnvelope env) (fun e _ =>
    nodeID (statement e) = mNodeID (localNode env) /\
    madeFrom env (mBallotProtocol s) (pledges (statement e))) (fun _ _ => True) s) as Hw.
  { unfold stateEnvelope. wp_step; wp_step. wp_step. unfold createStatement, phaseOf. wp_step.
    eapply wp_mono; [apply checkInvariants_wp| |done]. intros [] s1 ->. wp_step; wp_step. cbv zeta.
    unfold madeFrom, createEnvelope. destruct (mPhase (mBallotProtocol s)); wp_steps; try done.
    all: split; [done|]; cbn; eauto 10. }
  unfold wp in Hw. by rewrite He in Hw.
Qed.

(** [bumpToBallot] on a slot without a ballot. *)
Lemma bumpToBallot_first env b s : mCurrentBallot (mBallotProtocol s) = None ->
  phaseOf s = SCP_PHASE_PREPARE ->
  wp (bumpToBallot env b true) (fun _ s' =>
    mBallotProtocol s' = bumped b (mBallotProtocol s)) (fun _ _ => False) s.
Proof.
  unfold phaseOf. intros Hc Hp. unfold bumpToBallot, startBallotProtocolTimer, dbgAssert.
  wp_step; wp_step. rewrite Hc, Hp. by destruct (debugBuild env).
Qed.

(** What a statement carries of the ballots: h and c only as counters, which
    are read with the value of b, and p likewise once it is confirmed. *)
Definition withValue (v : Value) (o : option SCPBallot) : option SCPBallot :=
  match o with Some x => if counter x =? 0 then None else Some (Ballot (counter x) v) | None => None end.

Definition carried (b : SCPBallot) (bp : BallotProtocol) :=
  match mPhase bp, mPrepared bp, mHighBallot bp, mCommit bp with
  | SCP_PHASE_PREPARE, p, h, c => (Some b, p, mPreparedPrime bp, withValue (value b) h, withValue (value b) c)
  | SCP_PHASE_CONFIRM, Some p, Some h, Some c =>
      (Some b, Some (Ballot (counter p) (value b)), None, Some (Ballot (counter h) (value b)), Some (Ballot (counter c) (value b)))
  | SCP_PHASE_EXTERNALIZE, _, Some h, Some c =>
      let top := Some (Ballot UINT32_MAX (value c)) in (top, top, None, Some (Ballot (counter h) (value c)), Some c)
  | _, _, _, _ => ballots bp
  end.

Lemma restored_as_made env e idx bp b :
  nodeID (statement e) = mNodeID (localNode env) -> madeFrom env bp (pledges (statement e)) -> mCurrentBallot bp = Some b ->
  wp (setStateFromEnvelope env e) (fun _ s1 => phaseOf s1 = mPhase bp /\ ballots (mBallotProtocol s1) = carried b bp /\
    om_find (mNodeID (localNode env)) (latest s1) = Some e) (fun _ _ => False) (newSlot env idx).
Proof.
  intros Hn Hmade Hb. unfold setStateFromEnvelope, recordEnvelope, recordStatement.
  wp_step; wp_step. apply wp_if; [done|intros _]. do 8 wp_step. rewrite Hn.
  set (s0 := Set_.bp _ _).
  assert (mCurrentBallot (mBallotProtocol s0) = None /\ mPrepared (mBallotProtocol s0) = None /\
    mPreparedPrime (mBallotProtocol s0) = None /\ mHighBallot (mBallotProtocol s0) = None /\
    mCommit (mBallotProtocol s0) = None /\ phaseOf s0 = SCP_PHASE_PREPARE /\
    latest s0 = [(mNodeID (localNode env), e)]) as (F1 & F2 & F3 & F4 & F5 & F6 & F7) by (repeat split).
  clearbody s0.
  assert (forall l : EnvelopeMap, l = [(mNodeID (localNode env), e)] ->
    om_find (mNodeID (localNode env)) l = Some e) as Hfind.
  { intros l ->. cbn [om_find]. by rewrite (proj2 (eqvb_eq _ _) eq_refl). }
  unfold madeFrom, carried, ballots, phaseOf, latest in *. rewrite Hb in *.
  destruct (mPhase bp) eqn:Hph; [rewrite Hmade|destruct Hmade as (b' & p & c & h & [= <-] & -> & -> & -> & ->)
    |destruct Hmade as (c & h & -> & -> & ->)]; cbv zeta; wp_step.
  all: eapply wp_mono; [by apply bumpToBallot_first| |done]; intros [] s1 Hs1.
  - cbn [p_prepared p_preparedPrime p_nC p_nH p_ballot]. unfold withValue.
    destruct (mPrepared bp), (mPreparedPrime bp), (mHighBallot bp) as [h|], (mCommit bp) as [c|];
      try destruct (counter h =? 0); try destruct (counter c =? 0); wp_steps; cbn; rewrite ?Hs1; cbn; rewrite ?F2, ?F3, ?F4, ?F5.
    all: repeat split; try done.
    all: by apply Hfind.
  - cbn [c_nPrepared c_nH c_nCommit c_ballot]. wp_steps; cbn; rewrite ?Hs1; cbn. rewrite F3. repeat split; try done. by apply Hfind.
  - cbn [e_nH e_commit]. wp_steps; cbn; rewrite ?Hs1; cbn. destruct (mPrepared bp); rewrite F3; repeat split; try done; by apply Hfind.
Qed.

Lemma carried_restorable bp b : restorable bp -> mCurrentBallot bp = Some b ->
  (mPhase bp <> SCP_PHASE_EXTERNALIZE -> carried b bp = ballots bp) /\
  (carried b bp).1.2 = mHighBallot bp /\ (carried b bp).2 = mCommit bp.
Proof.
  intros (b' & Hb & Hh & Hc & Hp) Hb'. rewrite Hb in Hb'. injection Hb' as ->. unfold carried, ballots. rewrite Hb.
  assert (forall o, (forall x, o = Some x -> value x = value b /\ counter x <> 0) -> withValue (value b) o = o) as Hw.
  { intros [x|] Hx; [|done]. destruct (Hx x eq_refl) as [Hv Hn]. cbn. rewrite (proj2 (Z.eqb_neq _ _) Hn). f_equal. by apply ballot_eta. }
  destruct (mPhase bp).
  - rewrite !Hw by done. by split_and!.
  - destruct Hp as (-> & [h Hh1] & [c Hc1] & p & -> & Hvp). rewrite Hh1, Hc1 in *. destruct (Hh h eq_refl) as [Hvh _], (Hc c eq_refl) as [Hvc _]. cbn.
    rewrite !(ballot_eta _ _ (value b)) by done. by split_and!.
  - destruct Hp as ([h Hh1] & [c Hc1]). rewrite Hh1, Hc1 in *. destruct (Hh h eq_refl) as [Hvh _], (Hc c eq_refl) as [Hvc _].
    split; [done|]. destruct (mPrepared bp); cbn; (split; [|done]); f_equal; apply ballot_eta; congruence.
Qed.

(** C36. A new slot restored from the statement that a node made of its state,
    in any phase once it has a ballot b, is in the same phase, has the
    statement recorded as the node's own, and has the ballots the statement
    carries: in PREPARE b, p and p' as they were, and the counters of h and c
    with the value of b, which is not the value h had if h and b were not
    compatible; in CONFIRM the counters of p, h and c with the value of b and no
    p'; after EXTERNALIZE c as it was, and h with its counter.  If the ballots
    that are carried as counters had the value of b ([restorable]), h and c are
    as they were, and before EXTERNALIZE all five ballots are. *)
Theorem restore_round_trip env s b e :
  mCurrentBallot (mBallotProtocol s) = Some b -> stateEnvelope env s = Ret e s ->
  match setStateFromEnvelope env e (newSlot env (mSlotIndex s)) with
  | Ret _ s1 =>
      phaseOf s1 = phaseOf s /\ om_find (mNodeID (localNode env)) (latest s1) = Some e /\
      ballots (mBallotProtocol s1) = carried b (mBallotProtocol s) /\
      (restorable (mBallotProtocol s) ->
         mHighBallot (mBallotProtocol s1) = mHighBallot (mBallotProtocol s) /\
         mCommit (mBallotProtocol s1) = mCommit (mBallotProtocol s) /\
         (phaseOf s <> SCP_PHASE_EXTERNALIZE -> ballots (mBallotProtocol s1) = ballots (mBallotProtocol s)))
  | Throw _ _ => False
  end.
Proof.
  intros Hb He. destruct (stateEnvelope_made env s e He) as [Hn Hpl].
  pose proof (restored_as_made env e (mSlotIndex s) (mBallotProtocol s) b Hn Hpl Hb) as H. unfold wp in H.
  destruct (setStateFromEnvelope _ _ _) as [u s1|]; [|done]. destruct H as (H1 & H2 & H3). split_and!; try done.
  intros Hr. destruct (carried_restorable _ b Hr Hb) as (C1 & C2 & C3). rewrite <- H2 in *. split_and!; done.
Qed.

(** A node whose h has another value than b: h comes back with the value of b. *)
Definition exUnrestorable : Slot :=
  Set_.bp (newSlot (exEnv true) 5)
    (Set_.highBallot (Set_.currentBallot (Set_.prepared newBallotProtocol (Some (Ballot 2 exValue))) (Some (Ballot 3 [2]))) (Some (Ballot 2 exValue))).

Definition exStatement : SCPEnvelope := match stateEnvelope (exEnv true) exUnrestorable with Ret e _ => e | Throw _ _ => exPrepare end.

Lemma restore_round_trip_witness :
  match setStateFromEnvelope (exEnv true) exStatement (newSlot (exEnv true) 5) with
  | Ret _ s1 => phaseOf s1 = SCP_PHASE_PREPARE /\
      ballots (mBallotProtocol s1) = (Some (Ballot 3 [2]), Some (Ballot 2 exValue), None, Some (Ballot 2 [2]), None)
  | Throw _ _ => False
  end.
Proof.
  pose proof (restore_round_trip (exEnv true) exUnrestorable (Ballot 3 [2]) exStatement eq_refl ltac:(vm_compute; reflexivity)) as H.
  change (mSlotIndex exUnrestorable) with 5 in H. destruct (setStateFromEnvelope _ _ _) as [u s1|]; [|exact H].
  destruct H as (H1 & _ & H2 & _). exact (conj H1 H2).
Defined.

(** ** Where the code does not do what it documents *)

(** The commit ballot chosen when a ballot is confirmed prepared is not
    checked against the value of the new h.  On the history [exSplit], in
    which every statement is sane and could come from a node following the
    protocol, a release build ends with c = (2, [2]) and h = (5, [1]); the
    debug build stops at the assertion that c and h are compatible. *)
Theorem confirmed_commit_incompatible :
  match drive (exEnv5 false) [] exSplit (newSlot (exEnv5 false) 5) with
  | Some s => mCommit (mBallotProtocol s) = Some (Ballot 2 [2]) /\
              mHighBallot (mBallotProtocol s) = Some (Ballot 5 [1])
  | None => False
  end /\
  match drive (exEnv5 true) [] (take 5 exSplit) (newSlot (exEnv5 true) 5) with
  | Some s => match runAction (exEnv5 true) [] (List.last exSplit Abandon) s with
              | Throw x _ => x = Aborted | Ret _ _ => False end
  | None => False
  end.
Proof. vm_compute. split; [split; reflexivity|reflexivity]. Qed.

(** One node on a lower counter keeps [attemptBump] from moving, even when
    all the others are ahead: the loop stops at the first counter below the
    current one instead of skipping it. *)
Theorem laggard_blocks_bump :
  let at_ n c := (n, exPrepare5 n (Ballot c [1]) None None) in
  let all := [at_ 1 5; at_ 2 5; at_ 3 5; at_ 4 1] in
  bumpTarget (exEnv5 false) all 2 [1; 2; 5] = None /\
  bumpTarget (exEnv5 false) (take 3 all) 2 [2; 5] = Some 5.
Proof. vm_compute. split; reflexivity. Qed.

(** A value that may be valid hides an invalid one: the verdict on a
    statement is that of the last value that is not fully valid. *)
Theorem maybe_valid_hides_invalid env slot b p c h :
  counter b <> 0 -> ltb (value b) (value p) = true ->
  validateValue (driver env) slot (value b) = kInvalidValue ->
  validateValue (driver env) slot (value p) = kMaybeValidValue ->
  validateValues env slot {| nodeID := 1; slotIndex := slot; pledges := PREPARE {|
    p_quorumSetHash := h; p_ballot := b; p_prepared := Some p; p_preparedPrime := c;
    p_nC := 0; p_nH := 0 |} |} = kMaybeValidValue.
Proof.
  intros Hb Hlt Hvb Hvp. unfold validateValues, statementValues. cbn [pledges p_ballot p_prepared].
  rewrite (proj2 (Z.eqb_neq _ _) Hb). cbn [negb app os_of_list fold_left os_insert].
  rewrite (ltb_asym _ _ Hlt), Hlt. cbn [fold_left]. by rewrite Hvb, Hvp.
Qed.

(** A driver that finds [1] invalid and knows nothing of the other values. *)
Definition exDoubtful : ScpEnv :=
  let d := driver (exEnv true) in
  {| localNode := localNode (exEnv true);
     driver := {| signEnvelope := signEnvelope d; verifyEnvelope := verifyEnvelope d; getQSet := getQSet d;
                  validateValue := fun _ v => if eqvb v [1] then kInvalidValue else kMaybeValidValue;
                  extractValidValue := extractValidValue d; computeHashNode := computeHashNode d;
                  computeValueHash := computeValueHash d; combineCandidates := combineCandidates d |};
     debugBuild := true |}.

Lemma maybe_valid_hides_invalid_witness :
  validateValue (driver exDoubtful) 5 [1] = kInvalidValue /\
  validateValues exDoubtful 5 {| nodeID := 1; slotIndex := 5; pledges := PREPARE {|
    p_quorumSetHash := 7; p_ballot := Ballot 2 [1]; p_prepared := Some (Ballot 1 [2]);
    p_preparedPrime := None; p_nC := 0; p_nH := 0 |} |} = kMaybeValidValue.
Proof.
  split; [reflexivity|].
  apply (maybe_valid_hides_invalid exDoubtful 5 (Ballot 2 [1]) (Ballot 1 [2])); reflexivity || discriminate.
Defined.
