(* ===== verification/NodeTheorems.v ===== *)
(** * Theorems on nominations and on the SCP object *)

From S2P Require Import Prelude OrdContainers QuorumSet QuorumFacts ScpTypes BallotOrder Federated Ballot BallotStep Nomination NominationStep SlotScp SlotSafety.
Import LocalNode NP.

(** ** Nominations *)

(** [updateRoundLeaders] elects exactly the nodes of the local quorum
    set whose priority is the highest, provided it is not zero, and changes
    nothing else. *)
Theorem round_leaders_have_top_priority env s : prevOk env s ->
  exists leaders, updateRoundLeaders env s = Ret tt (withLeaders s leaders) /\
  let q := mQSet (localNode env) in
  forall n, n ∈ leaders <->
    n ∈ forAllNodes q /\ 0 < nodePriority env s q n /\
    forall m, m ∈ forAllNodes q -> nodePriority env s q m <= nodePriority env s q n.
Proof. apply updateRoundLeaders_spec. Qed.

Definition exNominating : Slot :=
  Set_.nom (newSlot (exEnv true) 5) (Set_.previousValue newNominationProtocol [9]).

Lemma round_leaders_have_top_priority_witness :
  exists leaders, updateRoundLeaders (exEnv true) exNominating = Ret tt (withLeaders exNominating leaders) /\
  let q := exQSet in
  forall n, n ∈ leaders <->
    n ∈ forAllNodes q /\ 0 < nodePriority (exEnv true) exNominating q n /\
    forall m, m ∈ forAllNodes q ->
      nodePriority (exEnv true) exNominating q m <= nodePriority (exEnv true) exNominating q n.
Proof.
  apply (round_leaders_have_top_priority (exEnv true) exNominating). intros _. reflexivity.
Defined.

(** On nominations whose votes and accepted values are strictly sorted,
    [isNewerStatement] holds exactly when both sets grew or stayed and at
    least one grew. *)
Theorem newer_nomination_grows o n : nomSorted o -> nomSorted n ->
  isNewerNomination o n = true <->
  (forall v, v ∈ n_votes o -> v ∈ n_votes n) /\ (forall v, v ∈ n_accepted o -> v ∈ n_accepted n) /\
  (nomSize o < nomSize n)%nat.
Proof.
  intros Ho Hn. split; [|intros (? & ? & ?); by apply isNewerNomination_complete].
  intros H. apply isNewerNomination_sound in H as [[Hv Ha] Hl].
  split; [intros v Hin; by eapply elem_of_sublist|].
  split; [intros v Hin; by eapply elem_of_sublist|done].
Qed.

Lemma newer_nomination_grows_witness :
  isNewerNomination {| n_quorumSetHash := 0; n_votes := [[1]]; n_accepted := [] |}
    {| n_quorumSetHash := 0; n_votes := [[1]; [2]]; n_accepted := [] |} = true <->
  (forall v, v ∈ [[1]] -> v ∈ [[1]; [2]]) /\ (forall v : Value, v ∈ [] -> v ∈ []) /\ (1 < 2)%nat.
Proof.
  apply (newer_nomination_grows {| n_quorumSetHash := 0; n_votes := [[1]]; n_accepted := [] |}
    {| n_quorumSetHash := 0; n_votes := [[1]; [2]]; n_accepted := [] |}).
  - split; [|exact I]. split; [|exact I]. intros y Hy. by apply elem_of_nil in Hy.
  - split; [|exact I]. split; [|split; [|exact I]]; intros y Hy.
    + apply list_elem_of_singleton in Hy as ->. reflexivity.
    + by apply elem_of_nil in Hy.
Defined.

(** ** The SCP object *)

(** The operations of [SCP] that address one slot. *)
Inductive ScpOp :=
| OpReceive (e : SCPEnvelope)
| OpAbandon (index : Z)
| OpNominate (index : Z) (value previousValue : Value)
| OpStop (index : Z)
| OpRestore (index : Z) (e : SCPEnvelope).

Definition opSlot (o : ScpOp) : Z :=
  match o with
  | OpReceive e => slotIndex (statement e)
  | OpAbandon i | OpNominate i _ _ | OpStop i | OpRestore i _ => i
  end.

Section Scp.
Context (drv : SCPDriver) (dbg : bool) (fuel : nat).

Definition runOp (o : ScpOp) : M SCPState unit :=
  match o with
  | OpReceive e => SCP.receiveEnvelope drv dbg fuel e ≫= fun _ => mret tt
  | OpAbandon i => SCP.abandonBallot drv dbg i ≫= fun _ => mret tt
  | OpNominate i v p => SCP.nominate drv dbg fuel i v p ≫= fun _ => mret tt
  | OpStop i => SCP.stopNomination drv dbg i
  | OpRestore i e => SCP.setStateFromEnvelope drv dbg i e
  end.

Definition scpAfter {A} (o : outcome SCPState A) : SCPState :=
  match o with Ret _ s => s | Throw _ s => s end.

(** The local node and the slots other than [i] are as before. *)
Definition touchesOnly (i : Z) (scp scp' : SCPState) : Prop :=
  mLocalNode scp' = mLocalNode scp /\
  forall j, j <> i -> om_find j (mKnownSlots scp') = om_find j (mKnownSlots scp).

Lemma touches_refl i scp : touchesOnly i scp scp.
Proof. by split. Qed.

Lemma touches_set i s scp scp' : touchesOnly i scp scp' -> touchesOnly i scp (SCP.setSlot i s scp').
Proof.
  intros [H1 H2]. split; [done|]. intros j Hj. cbn. rewrite om_find_set_ne by done. auto.
Qed.

Lemma onSlot_touches {A} i (f : ScpEnv -> M Slot A) scp :
  wp (SCP.onSlot drv dbg i f) (fun _ => touchesOnly i scp) (fun _ => touchesOnly i scp) scp.
Proof.
  unfold SCP.onSlot, SCP.getSlot. apply wp_bind, wp_bind, wp_get.
  destruct (om_find i (mKnownSlots scp)) as [s|]; [|apply wp_bind, wp_modify]; apply wp_ret;
    unfold wp, SCP.runSlot; destruct (f _ _); repeat apply touches_set; apply touches_refl.
Qed.

Lemma runOp_touches o scp :
  wp (runOp o) (fun _ => touchesOnly (opSlot o) scp) (fun _ => touchesOnly (opSlot o) scp) scp.
Proof.
  assert (forall A i (m : M SCPState A), wp m (fun _ => touchesOnly i scp) (fun _ => touchesOnly i scp) scp ->
    wp (m ≫= fun _ => mret tt) (fun _ => touchesOnly i scp) (fun _ => touchesOnly i scp) scp) as Hd.
  { intros A i m Hm. apply wp_bind. eapply wp_mono; [exact Hm|done|done]. }
  assert (forall A i (m : M SCPState A), wp m (fun _ => touchesOnly i scp) (fun _ => touchesOnly i scp) scp ->
    wp (SCP.dbgAssertValidator dbg;; m) (fun _ => touchesOnly i scp) (fun _ => touchesOnly i scp) scp) as Hv.
  { intros A i m Hm. apply wp_bind. unfold SCP.dbgAssertValidator. apply wp_bind, wp_get.
    apply wp_if; intros _; [apply wp_throw, touches_refl|by apply wp_ret]. }
  destruct o; cbn [runOp opSlot].
  - apply Hd. unfold SCP.receiveEnvelope. apply wp_if; intros _; [apply wp_ret, touches_refl|].
    apply onSlot_touches.
  - apply Hd, Hv, onSlot_touches.
  - apply Hd, Hv, onSlot_touches.
  - unfold SCP.stopNomination, SCP.getSlot. apply wp_bind, wp_bind, wp_get.
    destruct (om_find index (mKnownSlots scp)); apply wp_ret; [apply onSlot_touches|].
    apply wp_ret, touches_refl.
  - unfold SCP.setStateFromEnvelope. apply wp_if; intros _; [apply onSlot_touches|].
    apply wp_ret, touches_refl.
Qed.
End Scp.

(** An operation on one slot, whether it returns or throws, changes
    neither the local node nor any other slot. *)
Theorem slots_are_independent drv dbg fuel o scp :
  touchesOnly (opSlot o) scp (scpAfter (runOp drv dbg fuel o scp)).
Proof.
  pose proof (runOp_touches drv dbg fuel o scp) as H. unfold wp in H.
  by destruct (runOp drv dbg fuel o scp).
Qed.

(** [purgeSlots] forgets exactly the slots below the bound. *)
Theorem purgeSlots_forgets_old bound scp scp' : om_sorted (mKnownSlots scp) ->
  SCP.purgeSlots bound scp = Ret tt scp' ->
  mLocalNode scp' = mLocalNode scp /\
  forall i, om_find i (mKnownSlots scp') = if i <? bound then None else om_find i (mKnownSlots scp).
Proof.
  intros Hs. unfold SCP.purgeSlots, modify. intros [= <-]. split; [done|]. intros i. cbn.
  destruct scp as [ln slots]. cbn in *. clear ln.
  induction slots as [|[k s] r IH]; cbn; [by destruct (i <? bound)|].
  assert (om_sorted r) as Hr by (destruct Hs; done). specialize (IH Hr).
  destruct (Z.ltb_spec k bound) as [Hk|Hk]; cbn; rewrite IH.
  - destruct (eqvb i k) eqn:E; [|done]. apply eqvb_eq in E as ->.
    by rewrite (proj2 (Z.ltb_lt k bound) Hk).
  - destruct (eqvb i k) eqn:E; [|done]. apply eqvb_eq in E as ->.
    by rewrite (proj2 (Z.ltb_ge k bound) Hk).
Qed.

Definition exScp : SCPState :=
  {| mLocalNode := exNode;
     mKnownSlots := [(1, newSlot (exEnv true) 1); (2, newSlot (exEnv true) 2)] |}.

Lemma purgeSlots_forgets_old_witness :
  om_find 1 (mKnownSlots (scpAfter (SCP.purgeSlots 2 exScp))) = None.
Proof.
  apply (purgeSlots_forgets_old 2 exScp (scpAfter (SCP.purgeSlots 2 exScp))).
  - split; [|split; [|exact I]]; intros y Hy.
    + apply list_elem_of_singleton in Hy as ->. reflexivity.
    + by apply elem_of_nil in Hy.
  - reflexivity.
Defined.
