(* ===== verification/LedgerKeys.v ===== *)
(** * The identity of ledger entries ([bucket/LedgerCmp.h])

    [LedgerEntryIdCmp] orders ledger entries and keys by what identifies
    them.  The model compares keys: for an entry the code reads the same
    fields from its body.  Two keys that are tied are the same key, except
    for references, whose sender is not compared.

    The numbers of the entry types come from a protocol file that is not in
    the tree; [typeRank] stands for them.  Public keys and balance ids are
    opaque ordered values, strings are lists of characters, and [binToHex]
    is the conversion of a hash to a string. *)

From S2P Require Import Prelude OrdContainers.

Inductive LedgerEntryType :=
| T_ACCOUNT | T_FEE | T_BALANCE | T_PAYMENT_REQUEST | T_ASSET | T_ACCOUNT_TYPE_LIMITS | T_STATISTICS
| T_REFERENCE_ENTRY | T_TRUST | T_ACCOUNT_LIMITS | T_ASSET_PAIR | T_OFFER_ENTRY | T_INVOICE
| T_REVIEWABLE_REQUEST | T_EXTERNAL_SYSTEM_ACCOUNT_ID | T_SALE.

Inductive LedgerKey :=
| ACCOUNT (accountID : Z)
| FEE (hash : list Z) (lowerBound upperBound : Z)
| BALANCE (balanceID : Z)
| PAYMENT_REQUEST (paymentID : Z)
| ASSET (code : list Z)
| ACCOUNT_TYPE_LIMITS (accountType : Z)
| STATISTICS (accountID : Z)
| REFERENCE_ENTRY (reference : list Z) (sender : Z)
| TRUST (balanceToUse allowedAccount : Z)
| ACCOUNT_LIMITS (accountID : Z)
| ASSET_PAIR (base quote : list Z)
| OFFER_ENTRY (offerID ownerID : Z)
| INVOICE (invoiceID : Z)
| REVIEWABLE_REQUEST (requestID : Z)
| EXTERNAL_SYSTEM_ACCOUNT_ID (accountID externalSystemType : Z)
| SALE (saleID : Z).

Definition keyType (k : LedgerKey) : LedgerEntryType :=
  match k with
  | ACCOUNT _ => T_ACCOUNT | FEE _ _ _ => T_FEE | BALANCE _ => T_BALANCE
  | PAYMENT_REQUEST _ => T_PAYMENT_REQUEST | ASSET _ => T_ASSET
  | ACCOUNT_TYPE_LIMITS _ => T_ACCOUNT_TYPE_LIMITS | STATISTICS _ => T_STATISTICS
  | REFERENCE_ENTRY _ _ => T_REFERENCE_ENTRY | TRUST _ _ => T_TRUST | ACCOUNT_LIMITS _ => T_ACCOUNT_LIMITS
  | ASSET_PAIR _ _ => T_ASSET_PAIR | OFFER_ENTRY _ _ => T_OFFER_ENTRY | INVOICE _ => T_INVOICE
  | REVIEWABLE_REQUEST _ => T_REVIEWABLE_REQUEST
  | EXTERNAL_SYSTEM_ACCOUNT_ID _ _ => T_EXTERNAL_SYSTEM_ACCOUNT_ID | SALE _ => T_SALE
  end.

(** [if (x < y) return true; if (y < x) return false; return rest;] *)
Definition lexThen {A} `{Ord A} (x y : A) (rest : bool) : bool :=
  if ltb x y then true else if ltb y x then false else rest.

Section Keys.
Context (typeRank : LedgerEntryType -> Z) (binToHex : list Z -> list Z).

Definition LedgerEntryIdCmp (a b : LedgerKey) : bool :=
  if typeRank (keyType a) <? typeRank (keyType b) then true
  else if typeRank (keyType a) >? typeRank (keyType b) then false
  else match a, b with
  | ACCOUNT x, ACCOUNT y => x <? y
  | FEE h1 l1 u1, FEE h2 l2 u2 => lexThen (binToHex h1) (binToHex h2) (lexThen l1 l2 (u1 <? u2))
  | BALANCE x, BALANCE y => x <? y
  | PAYMENT_REQUEST x, PAYMENT_REQUEST y => x <? y
  | ASSET x, ASSET y => ltb x y
  | ACCOUNT_TYPE_LIMITS x, ACCOUNT_TYPE_LIMITS y => x <? y
  | STATISTICS x, STATISTICS y => x <? y
  | REFERENCE_ENTRY x _, REFERENCE_ENTRY y _ => ltb x y
  | TRUST b1 a1, TRUST b2 a2 => lexThen b1 b2 (a1 <? a2)
  | ACCOUNT_LIMITS x, ACCOUNT_LIMITS y => x <? y
  | ASSET_PAIR b1 q1, ASSET_PAIR b2 q2 => lexThen b1 b2 (ltb q1 q2)
  | OFFER_ENTRY i1 o1, OFFER_ENTRY i2 o2 => lexThen i1 i2 (o1 <? o2)
  | INVOICE x, INVOICE y => x <? y
  | REVIEWABLE_REQUEST x, REVIEWABLE_REQUEST y => x <? y
  | EXTERNAL_SYSTEM_ACCOUNT_ID a1 t1, EXTERNAL_SYSTEM_ACCOUNT_ID a2 t2 => lexThen a1 a2 (t1 <? t2)
  | SALE x, SALE y => x <? y
  | _, _ => false
  end.

(** ** The order *)

(** The fields the comparison looks at, in order: the type first.  Values
    of different kinds are lists of numbers.  The sender of a reference is
    not among them. *)
Definition keyFields (k : LedgerKey) : list (list Z) :=
  [typeRank (keyType k)] ::
  match k with
  | ACCOUNT x | BALANCE x | PAYMENT_REQUEST x | ACCOUNT_TYPE_LIMITS x | STATISTICS x
  | ACCOUNT_LIMITS x | INVOICE x | REVIEWABLE_REQUEST x | SALE x => [[x]]
  | ASSET x | REFERENCE_ENTRY x _ => [x]
  | FEE h l u => [binToHex h; [l]; [u]]
  | TRUST x y | OFFER_ENTRY x y | EXTERNAL_SYSTEM_ACCOUNT_ID x y => [[x]; [y]]
  | ASSET_PAIR x y => [x; y]
  end.

Context (rank_inj : forall a b, typeRank a = typeRank b -> a = b).
Context (hex_inj : forall a b, binToHex a = binToHex b -> a = b).

Lemma lex_last (x y : list Z) : (if ltb x y then true else if ltb y x then false else false) = ltb x y.
Proof. by destruct (ltb x y), (ltb y x). Qed.

Lemma ltb_single (x y : Z) : lex_ltb [x] [y] = (x <? y).
Proof. cbn. by destruct (x <? y), (y <? x). Qed.

(** The comparison is the lexicographic order of the fields. *)
Lemma LedgerEntryIdCmp_fields a b : LedgerEntryIdCmp a b = ltb (keyFields a) (keyFields b).
Proof.
  unfold LedgerEntryIdCmp. rewrite Z.gtb_ltb.
  change (ltb (keyFields a) (keyFields b)) with (lex_ltb (keyFields a) (keyFields b)).
  unfold keyFields. cbn [lex_ltb].
  change (@ltb (list Z) _) with (@lex_ltb Z _). rewrite !ltb_single.
  destruct (typeRank (keyType a) <? typeRank (keyType b)) eqn:E1; [done|].
  destruct (typeRank (keyType b) <? typeRank (keyType a)) eqn:E2; [done|].
  assert (keyType a = keyType b) as Et.
  { apply rank_inj. apply Z.ltb_ge in E1, E2. lia. }
  destruct a, b; try discriminate Et; unfold lexThen; cbn [lex_ltb];
    change (@ltb (list Z) _) with (@lex_ltb Z _); rewrite ?ltb_single;
    change (@ltb Z _) with Z.ltb; rewrite ?ltb_single; case_ifs; done || congruence.
Qed.

(** What the comparison sees of a key. *)
Definition identity (k : LedgerKey) : LedgerKey :=
  match k with REFERENCE_ENTRY r _ => REFERENCE_ENTRY r 0 | _ => k end.

Lemma keyFields_identity a b : keyFields a = keyFields b <-> identity a = identity b.
Proof.
  split; intros E.
  - unfold keyFields in E. injection E as E1 E2. apply rank_inj in E1.
    destruct a, b; try discriminate E1; cbn in E2; injection E2; intros; subst; try done.
    cbn. f_equal. by apply hex_inj.
  - destruct a, b; try discriminate E; cbn in E; injection E; intros; by subst.
Qed.

Lemma LedgerEntryIdCmp_tie a b :
  LedgerEntryIdCmp a b = false /\ LedgerEntryIdCmp b a = false <-> identity a = identity b.
Proof.
  rewrite !LedgerEntryIdCmp_fields, <- keyFields_identity. split.
  - intros [H1 H2]. by apply ltb_total.
  - intros ->. by rewrite ltb_irrefl.
Qed.

End Keys.
