(* ===== verification/LedgerDelta.v ===== *)
(** * The changes of a ledger ([ledger/LedgerDelta.h], [ledger/LedgerDelta.cpp])

    A [LedgerDelta] collects the entries created, modified and deleted while
    transactions are applied; a nested delta is merged into the outer one on
    commit or dropped on rollback.  The methods are computations on the
    delta; [assert] is compiled in and a failed one is [Aborted].

    [Key] is [LedgerKey] with the order [LedgerEntryIdCmp], [Entry] is
    [LedgerEntry] with [keyOf] for [LedgerEntryKey] and [lastModified] for
    [lastModifiedLedgerSeq], [Header] is [LedgerHeader] with its [ledgerSeq].
    An [EntryFrame] is the entry it holds. *)

From S2P Require Import Prelude OrdContainers.

Inductive LedgerEntryChange {Key Entry : Type} :=
| CREATED (e : Entry)
| UPDATED (e : Entry)
| REMOVED (k : Key)
| STATE (e : Entry).
Arguments LedgerEntryChange : clear implicits.

Record LedgerDelta {Key Entry Header : Type} := {
  mHeader : bool;                       (** whether the pointer is set *)
  mCurrentHeader : Header;
  mPreviousHeaderValue : Header;
  mNew : list (Key * Entry);
  mMod : list (Key * Entry);
  mDelete : list Key;
  mAllChanges : list (LedgerEntryChange Key Entry);
  mPrevious : list (Key * Entry);
  mUpdateLastModified : bool;
}.
Arguments LedgerDelta : clear implicits.

Module LD.
Section LD.
Context {Key Entry Header : Type} `{Ord Key} `{EqDecision Header}.
Context (keyOf : Entry -> Key) (lastModified : Entry -> Z) (ledgerSeq : Header -> Z).
Local Abbreviation Delta := (LedgerDelta Key Entry Header).
Implicit Types d : Delta.

(** [LedgerDelta(header, db, updateLastModified)] *)
Definition newDelta (header : Header) (updateLastModified : bool) : Delta :=
  {| mHeader := true; mCurrentHeader := header; mPreviousHeaderValue := header; mNew := [];
     mMod := []; mDelete := []; mAllChanges := []; mPrevious := [];
     mUpdateLastModified := updateLastModified |}.

(** [LedgerDelta(outerDelta)] *)
Definition nestedDelta (outer : Delta) : Delta :=
  newDelta (mCurrentHeader outer) (mUpdateLastModified outer).

Definition setSets d new mod_ del : Delta :=
  {| mHeader := mHeader d; mCurrentHeader := mCurrentHeader d;
     mPreviousHeaderValue := mPreviousHeaderValue d; mNew := new; mMod := mod_; mDelete := del;
     mAllChanges := mAllChanges d; mPrevious := mPrevious d;
     mUpdateLastModified := mUpdateLastModified d |}.

Definition addChange c d : Delta :=
  {| mHeader := mHeader d; mCurrentHeader := mCurrentHeader d;
     mPreviousHeaderValue := mPreviousHeaderValue d; mNew := mNew d; mMod := mMod d;
     mDelete := mDelete d; mAllChanges := mAllChanges d ++ [c]; mPrevious := mPrevious d;
     mUpdateLastModified := mUpdateLastModified d |}.

Definition setPrevious d p : Delta :=
  {| mHeader := mHeader d; mCurrentHeader := mCurrentHeader d;
     mPreviousHeaderValue := mPreviousHeaderValue d; mNew := mNew d; mMod := mMod d;
     mDelete := mDelete d; mAllChanges := mAllChanges d; mPrevious := p;
     mUpdateLastModified := mUpdateLastModified d |}.

Definition setCurrentHeader d h : Delta :=
  {| mHeader := mHeader d; mCurrentHeader := h;
     mPreviousHeaderValue := mPreviousHeaderValue d; mNew := mNew d; mMod := mMod d;
     mDelete := mDelete d; mAllChanges := mAllChanges d; mPrevious := mPrevious d;
     mUpdateLastModified := mUpdateLastModified d |}.

Definition dropHeader d : Delta :=
  {| mHeader := false; mCurrentHeader := mCurrentHeader d;
     mPreviousHeaderValue := mPreviousHeaderValue d; mNew := mNew d; mMod := mMod d;
     mDelete := mDelete d; mAllChanges := mAllChanges d; mPrevious := mPrevious d;
     mUpdateLastModified := mUpdateLastModified d |}.

Definition checkState : M Delta unit :=
  d ← get;
  if mHeader d then mret tt
  else throw (RuntimeError "Invalid operation: delta is already committed").

Definition assert (b : bool) : M Delta unit := if b then mret tt else throw Aborted.

Definition isNone {A} (o : option A) : bool := match o with Some _ => false | None => true end.

(** ** Recording changes *)

Definition addEntry (entry : Entry) : M Delta unit :=
  checkState;;
  d ← get;
  let k := keyOf entry in
  (if os_mem k (mDelete d) then
     modify (fun d => setSets d (mNew d) (om_set k entry (mMod d)) (os_erase k (mDelete d)))
   else
     assert (isNone (om_find k (mNew d)));;
     assert (isNone (om_find k (mMod d)));;
     modify (fun d => setSets d (om_set k entry (mNew d)) (mMod d) (mDelete d)));;
  modify (addChange (CREATED entry)).

Definition deleteEntry (k : Key) : M Delta unit :=
  checkState;;
  d ← get;
  (if isNone (om_find k (mNew d)) then
     modify (fun d => setSets d (mNew d) (om_erase k (mMod d)) (os_insert k (mDelete d)))
   else modify (fun d => setSets d (om_erase k (mNew d)) (mMod d) (mDelete d)));;
  modify (addChange (REMOVED k)).

Definition modEntry (entry : Entry) : M Delta unit :=
  checkState;;
  d ← get;
  let k := keyOf entry in
  (if isNone (om_find k (mMod d)) then
     if isNone (om_find k (mNew d)) then
       assert (negb (os_mem k (mDelete d)));;
       modify (fun d => setSets d (mNew d) (om_set k entry (mMod d)) (mDelete d))
     else modify (fun d => setSets d (om_set k entry (mNew d)) (mMod d) (mDelete d))
   else modify (fun d => setSets d (mNew d) (om_set k entry (mMod d)) (mDelete d)));;
  modify (addChange (UPDATED entry)).

(** [mPrevious.insert]: an entry already recorded is kept. *)
Definition recordEntry (entry : Entry) : M Delta unit :=
  checkState;;
  modify (fun d => if isNone (om_find (keyOf entry) (mPrevious d))
                   then setPrevious d (om_set (keyOf entry) entry (mPrevious d)) else d).

(** ** Committing *)

Definition recordFrom (previous : list (Key * Entry)) (k : Key) : M Delta unit :=
  match om_find k previous with Some e => recordEntry e | None => mret tt end.

Fixpoint mergeDeleted (previous : list (Key * Entry)) (ks : list Key) : M Delta unit :=
  match ks with
  | [] => mret tt
  | k :: r => deleteEntry k;; recordFrom previous k;; mergeDeleted previous r
  end.

Fixpoint mergeNew (es : list (Key * Entry)) : M Delta unit :=
  match es with
  | [] => mret tt
  | (_, e) :: r => addEntry e;; mergeNew r
  end.

Fixpoint mergeMod (previous es : list (Key * Entry)) : M Delta unit :=
  match es with
  | [] => mret tt
  | (k, e) :: r => modEntry e;; recordFrom previous k;; mergeMod previous r
  end.

(** [mergeEntries(other)], on the outer delta. *)
Definition mergeEntries (other : Delta) : M Delta unit :=
  checkState;;
  mergeDeleted (mPrevious other) (mDelete other);;
  mergeNew (mNew other);;
  mergeMod (mPrevious other) (mMod other).

(** [commit()] of a delta nested in another; the state is the pair of the
    inner and the outer delta. *)
Definition commitNested : M (Delta * Delta) unit := fun s =>
  let '(inner, outer) := s in
  if negb (mHeader inner)
  then Throw (RuntimeError "Invalid operation: delta is already committed") s else
  if negb (bool_decide (mPreviousHeaderValue inner = mCurrentHeader outer))
  then Throw (RuntimeError "unexpected header state") s else
  match mergeEntries inner outer with
  | Ret _ outer' => Ret tt (dropHeader inner, setCurrentHeader outer' (mCurrentHeader inner))
  | Throw x outer' => Throw x (inner, outer')
  end.

(** [commit()] of an outermost delta; the state is the delta and the header
    it points to. *)
Definition commitRoot : M (Delta * Header) unit := fun s =>
  let '(d, header) := s in
  if negb (mHeader d)
  then Throw (RuntimeError "Invalid operation: delta is already committed") s else
  if negb (bool_decide (mPreviousHeaderValue d = header))
  then Throw (RuntimeError "unexpected header state") s else
  Ret tt (dropHeader d, mCurrentHeader d).

(** [rollback()]: the keys whose cached entries are flushed. *)
Definition rollback : M Delta (list Key) :=
  checkState;;
  modify dropHeader;;
  d ← get;
  mret (mDelete d ++ (mNew d).*1 ++ (mMod d).*1).

(** ** What changed *)

Definition addCurrentMeta d (key : Key) : list (LedgerEntryChange Key Entry) :=
  match om_find key (mPrevious d) with
  | Some e => if negb (lastModified e =? ledgerSeq (mCurrentHeader d)) then [STATE e] else []
  | None => []
  end.

Definition getChanges d : list (LedgerEntryChange Key Entry) :=
  map (fun p : Key * Entry => CREATED p.2) (mNew d) ++
  concat (map (fun p : Key * Entry => addCurrentMeta d p.1 ++ [UPDATED p.2]) (mMod d)) ++
  concat (map (fun k => addCurrentMeta d k ++ [REMOVED k]) (mDelete d)).

Definition getAllChanges d : list (LedgerEntryChange Key Entry) := mAllChanges d.

Definition getLiveEntries d : list Entry := (mNew d).*2 ++ (mMod d).*2.

Definition getDeadEntries d : list Key := mDelete d.

End LD.
End LD.
