(* ===== verification/LedgerDeltaFacts.v ===== *)
(** * Lemmas on ledger deltas

    A delta stands for a function on ledgers: [deltaView d L] is the ledger
    after its changes to [L].  The operations of a delta are the operations
    on that ledger, as long as they are legal there. *)

From S2P Require Import Prelude OrdContainers LedgerDelta.

Section LedgerDeltaFacts.
Context {Key Entry Header : Type} `{Ord Key} `{EqDecision Header}.
Context (keyOf : Entry -> Key) (lastModified : Entry -> Z) (ledgerSeq : Header -> Z).
Local Abbreviation Delta := (LedgerDelta Key Entry Header).
Local Abbreviation Ledger := (Key -> option Entry).
Implicit Types (d : Delta) (L V : Ledger) (k : Key) (e : Entry).

(** ** Pointwise lemmas on the containers *)

Lemma os_mem_insert k k' (l : list Key) : os_mem k' (os_insert k l) = eqvb k k' || os_mem k' l.
Proof.
  apply eq_true_iff_eq. rewrite orb_true_iff, !os_mem_elem, elem_of_os_insert, eqvb_eq. naive_solver.
Qed.

Lemma os_mem_erase k k' (l : list Key) : os_mem k' (os_erase k l) = negb (eqvb k k') && os_mem k' l.
Proof.
  apply eq_true_iff_eq. rewrite andb_true_iff, negb_true_iff, !os_mem_elem, elem_of_os_erase.
  destruct (eqvb k k') eqn:E; [apply eqvb_eq in E; naive_solver|].
  split; [naive_solver|]. intros [_ Hk]. split; [done|]. intros ->. by rewrite (proj2 (eqvb_eq k k) eq_refl) in E.
Qed.

(** ** Ledgers *)

Definition update k (v : option Entry) V : Ledger := fun k' => if eqvb k k' then v else V k'.

Definition applyChange (V : Ledger) (c : LedgerEntryChange Key Entry) : Ledger :=
  match c with
  | CREATED e | UPDATED e => update (keyOf e) (Some e) V
  | REMOVED k => update k None V
  | STATE _ => V
  end.

Definition replay (cs : list (LedgerEntryChange Key Entry)) L : Ledger := fold_left applyChange cs L.

Definition deltaView d L : Ledger := fun k =>
  if os_mem k (mDelete d) then None else
  match om_find k (mMod d) with
  | Some e => Some e
  | None => match om_find k (mNew d) with Some e => Some e | None => L k end
  end.

(** What a delta may hold for a key that has the value [v] in the ledger. *)
Definition cellOk (v : option Entry) (del : bool) (mod_ new : option Entry) : Prop :=
  (is_Some new -> v = None /\ mod_ = None /\ del = false) /\
  (is_Some mod_ -> is_Some v /\ del = false) /\
  (del = true -> is_Some v).

Definition keyed (m : list (Key * Entry)) : Prop := forall k e, om_find k m = Some e -> keyOf e = k.

Record deltaSets L d : Prop := {
  ds_open : mHeader d = true;
  ds_new_sorted : om_sorted (mNew d);
  ds_mod_sorted : om_sorted (mMod d);
  ds_del_sorted : os_sorted (mDelete d);
  ds_new_keyed : keyed (mNew d);
  ds_mod_keyed : keyed (mMod d);
  ds_cell : forall k, cellOk (L k) (os_mem k (mDelete d)) (om_find k (mMod d)) (om_find k (mNew d));
}.

Record deltaOk L d : Prop := {
  do_sets : deltaSets L d;
  do_replay : forall k, replay (mAllChanges d) L k = deltaView d L k;
}.

Lemma keyed_set k e m : keyOf e = k -> keyed m -> keyed (om_set k e m).
Proof.
  intros He Hm k' e'. rewrite om_find_set. destruct (eqvb k k') eqn:E; [|apply Hm].
  apply eqvb_eq in E as <-. by intros [= <-].
Qed.

Lemma keyed_erase k m : keyed m -> keyed (om_erase k m).
Proof. intros Hm k' e'. rewrite om_find_erase. destruct (eqvb k k'); [done|apply Hm]. Qed.

Lemma keyed_cons k0 e0 es : om_sorted ((k0, e0) :: es) -> keyed ((k0, e0) :: es) ->
  keyOf e0 = k0 /\ keyed es /\ om_sorted es /\ om_find k0 es = None /\ (forall k, k ∈ es.*1 -> eqvb k0 k = false).
Proof.
  intros [Hk0 Hs] Hk. cbn [fst] in Hk0.
  assert (om_find k0 es = None) as Hn.
  { destruct (om_find k0 es) eqn:Ef; [|done].
    assert (k0 ∈ es.*1) as Hc by (apply om_find_Some_key; by eexists).
    apply Hk0 in Hc. by rewrite ltb_irrefl in Hc. }
  split_and!; [|  |done|done|].
  - apply (Hk k0 e0). cbn. by rewrite eqvb_refl.
  - intros k e Hf. apply Hk. cbn. rewrite eqvb_neq; [done|]. intros ->. congruence.
  - intros k Hin. apply eqvb_neq, ltb_neq. by apply Hk0.
Qed.

Lemma eqvb_comm k k' : eqvb k k' = eqvb k' k.
Proof. unfold eqvb. apply andb_comm. Qed.

Lemma deltaOk_new L h u : deltaOk L (LD.newDelta h u).
Proof.
  split; [split|]; try done. intros k. split; [by intros []|]. split; [by intros []|done].
Qed.

(** ** The operations *)

Inductive DeltaOp := OpAdd e | OpMod e | OpDel k | OpRecord e.

Definition runOp (o : DeltaOp) : M Delta unit :=
  match o with
  | OpAdd e => LD.addEntry keyOf e
  | OpMod e => LD.modEntry keyOf e
  | OpDel k => LD.deleteEntry k
  | OpRecord e => LD.recordEntry keyOf e
  end.

(** An operation a caller may perform on the ledger [V]. *)
Definition legal V (o : DeltaOp) : Prop :=
  match o with
  | OpAdd e => V (keyOf e) = None
  | OpMod e => is_Some (V (keyOf e))
  | OpDel k => is_Some (V k)
  | OpRecord _ => True
  end.

Definition applyOp (o : DeltaOp) V : Ledger :=
  match o with
  | OpAdd e | OpMod e => update (keyOf e) (Some e) V
  | OpDel k => update k None V
  | OpRecord _ => V
  end.

(** The change an operation adds to [mAllChanges]. *)
Definition opChange (o : DeltaOp) : list (LedgerEntryChange Key Entry) :=
  match o with OpAdd e => [CREATED e] | OpMod e => [UPDATED e] | OpDel k => [REMOVED k] | OpRecord _ => [] end.

(** Replacing the sets of a delta by others that give the view [V]. *)
Definition setsStep L d d' V : Prop :=
  deltaSets L d' /\ mAllChanges d' = mAllChanges d /\ mCurrentHeader d' = mCurrentHeader d /\
  mPreviousHeaderValue d' = mPreviousHeaderValue d /\ mPrevious d' = mPrevious d /\
  forall k, deltaView d' L k = V k.

Lemma replay_snoc cs c L : replay (cs ++ [c]) L = applyChange (replay cs L) c.
Proof. unfold replay. by rewrite fold_left_app. Qed.

Lemma applyChange_ext V V' c : (forall k, V k = V' k) -> forall k, applyChange V c k = applyChange V' c k.
Proof. intros He k. destruct c; cbn; unfold update; by rewrite ?He. Qed.

Lemma setsStep_change L d d' c : deltaOk L d -> setsStep L d d' (applyChange (deltaView d L) c) ->
  deltaOk L (LD.addChange c d') /\ forall k, deltaView (LD.addChange c d') L k = applyChange (deltaView d L) c k.
Proof.
  intros Hok (Hs & Hc & _ & _ & _ & Hv). split; [|exact Hv]. split; [by destruct Hs|].
  intros k. cbn [LD.addChange mAllChanges]. rewrite Hc, replay_snoc.
  rewrite (applyChange_ext _ (deltaView d L)) by apply Hok. by rewrite <- Hv.
Qed.

Ltac delta_cbn :=
  cbn [LD.setSets LD.addChange LD.setPrevious LD.setCurrentHeader LD.dropHeader mHeader mNew mMod mDelete
       mAllChanges mCurrentHeader mPreviousHeaderValue mPrevious mUpdateLastModified].

Ltac cell_cases Hcell k k' :=
  specialize (Hcell k'); unfold cellOk in *; destruct (eqvb k k') eqn:?E; cbn [negb andb orb] in *;
  try match goal with E : eqvb _ _ = true |- _ => apply eqvb_eq in E; subst end.

Lemma add_sets L d e : deltaSets L d -> deltaView d L (keyOf e) = None ->
  let k := keyOf e in
  setsStep L d (if os_mem k (mDelete d)
    then LD.setSets d (mNew d) (om_set k e (mMod d)) (os_erase k (mDelete d))
    else LD.setSets d (om_set k e (mNew d)) (mMod d) (mDelete d)) (update k (Some e) (deltaView d L)) /\
  (os_mem k (mDelete d) = false -> om_find k (mNew d) = None /\ om_find k (mMod d) = None).
Proof.
  intros [Ho Hn Hm Hd Hkn Hkm Hcell] Hv k. unfold deltaView in Hv. fold k in Hv.
  destruct (os_mem k (mDelete d)) eqn:Ed.
  - split; [|done]. split; [split; delta_cbn; auto using om_set_sorted, os_erase_sorted, keyed_set|].
    + intros k'. delta_cbn. rewrite om_find_set, os_mem_erase. cell_cases Hcell k k'; [|done].
      destruct Hcell as (C1 & C2 & C3). rewrite Ed in *. split; [|split; [|done]].
      * intros Hs. destruct (C1 Hs) as (_ & _ & ?). done.
      * intros _. by split; [apply C3|].
    + repeat split. intros k'. unfold deltaView, update. delta_cbn. rewrite om_find_set, os_mem_erase.
      by destruct (eqvb k k').
  - destruct (om_find k (mMod d)) eqn:Em; [done|]. destruct (om_find k (mNew d)) eqn:En; [done|].
    split; [|done]. split; [split; delta_cbn; auto using om_set_sorted, keyed_set|].
    + intros k'. delta_cbn. rewrite om_find_set. cell_cases Hcell k k'; [|done].
      rewrite Ed, Em in *. destruct Hcell as (C1 & C2 & C3). by split; [|split].
    + repeat split. intros k'. unfold deltaView, update. delta_cbn. rewrite om_find_set.
      destruct (eqvb k k') eqn:E; [|done]. apply eqvb_eq in E as <-. by rewrite Ed, Em.
Qed.

Lemma del_sets L d k : deltaSets L d -> is_Some (deltaView d L k) ->
  setsStep L d (if LD.isNone (om_find k (mNew d))
    then LD.setSets d (mNew d) (om_erase k (mMod d)) (os_insert k (mDelete d))
    else LD.setSets d (om_erase k (mNew d)) (mMod d) (mDelete d)) (update k None (deltaView d L)).
Proof.
  intros [Ho Hn Hm Hd Hkn Hkm Hcell] Hv. unfold deltaView in Hv.
  destruct (om_find k (mNew d)) as [en|] eqn:En; cbn [LD.isNone].
  - split; [split; delta_cbn; auto using om_erase_sorted, keyed_erase|].
    + intros k'. delta_cbn. rewrite om_find_erase. cell_cases Hcell k k'; [|done].
      destruct Hcell as (C1 & C2 & C3). split; [by intros []|done].
    + repeat split. intros k'. unfold deltaView, update. delta_cbn. rewrite om_find_erase.
      destruct (eqvb k k') eqn:E; [|done]. apply eqvb_eq in E as <-.
      destruct (proj1 (Hcell k)) as (-> & -> & ->); [rewrite En; by eexists|]. done.
  - split; [split; delta_cbn; auto using om_erase_sorted, os_insert_sorted, keyed_erase|].
    + intros k'. delta_cbn. rewrite om_find_erase, os_mem_insert. cell_cases Hcell k k'; [|done].
      destruct Hcell as (C1 & C2 & C3). rewrite En in *. split; [by intros []|]. split; [by intros []|].
      intros _. destruct (os_mem k' (mDelete d)); [by apply C3|].
      destruct (om_find k' (mMod d)); [by apply C2|done].
    + repeat split. intros k'. unfold deltaView, update. delta_cbn. rewrite om_find_erase, os_mem_insert.
      by destruct (eqvb k k').
Qed.

Lemma mod_sets L d e : deltaSets L d -> is_Some (deltaView d L (keyOf e)) ->
  let k := keyOf e in
  os_mem k (mDelete d) = false /\
  setsStep L d (if LD.isNone (om_find k (mMod d)) && negb (LD.isNone (om_find k (mNew d)))
    then LD.setSets d (om_set k e (mNew d)) (mMod d) (mDelete d)
    else LD.setSets d (mNew d) (om_set k e (mMod d)) (mDelete d)) (update k (Some e) (deltaView d L)).
Proof.
  intros [Ho Hn Hm Hd Hkn Hkm Hcell] Hv k. unfold deltaView in Hv. fold k in Hv.
  destruct (os_mem k (mDelete d)) eqn:Ed; [by destruct Hv|]. split; [done|].
  destruct (om_find k (mMod d)) as [em|] eqn:Em; [|destruct (om_find k (mNew d)) as [en|] eqn:En];
    cbn [LD.isNone andb negb].
  all: split; [split; delta_cbn; auto using om_set_sorted, keyed_set|].
  all: try (repeat split; intros k'; unfold deltaView, update; delta_cbn; rewrite om_find_set;
    destruct (eqvb k k') eqn:E; [apply eqvb_eq in E as <-; by rewrite Ed, ?Em|done]).
  all: intros k'; delta_cbn; rewrite om_find_set; cell_cases Hcell k k'; [|done];
    destruct Hcell as (C1 & C2 & C3); rewrite ?Ed, ?Em, ?En in *.
  - split; [intros Hs; destruct (C1 Hs) as (_ & ? & _); done|]. split; [|done]. intros _. apply C2. by eexists.
  - split; [|by split]. intros _. apply C1. by eexists.
  - split; [by intros []|]. split; [|done]. by intros _.
Qed.

(** Running an operation from a delta that is open. *)
Definition opStep L d d' V : Prop :=
  deltaOk L d' /\ mCurrentHeader d' = mCurrentHeader d /\
  mPreviousHeaderValue d' = mPreviousHeaderValue d /\ forall k, deltaView d' L k = V k.

Lemma setsStep_op L d d' c V : deltaOk L d -> V = applyChange (deltaView d L) c -> setsStep L d d' V ->
  opStep L d (LD.addChange c d') V.
Proof.
  intros Hok -> Hs. destruct (setsStep_change L d d' c Hok Hs) as [H1 H2].
  destruct Hs as (_ & _ & H3 & H4 & _). by split_and!.
Qed.

Lemma runOp_step L d o : deltaOk L d -> legal (deltaView d L) o ->
  exists d', runOp o d = Ret tt d' /\ opStep L d d' (applyOp o (deltaView d L)).
Proof.
  intros Hok Hl. pose proof (do_sets _ _ Hok) as Hs. pose proof (ds_open _ _ Hs) as Ho.
  destruct o as [e|e|k|e]; cbn [runOp legal applyOp] in *.
  - destruct (add_sets L d e Hs Hl) as [Hst Hnone].
    unfold LD.addEntry, LD.checkState, LD.assert, get, modify, mbind, M_bind, mret, M_ret. rewrite Ho. cbv zeta.
    destruct (os_mem (keyOf e) (mDelete d)).
    + eexists. split; [done|]. by eapply setsStep_op.
    + destruct (Hnone eq_refl) as [-> ->]. eexists. split; [done|]. by eapply setsStep_op.
  - destruct (mod_sets L d e Hs Hl) as [Hd Hst].
    unfold LD.modEntry, LD.checkState, LD.assert, get, modify, mbind, M_bind, mret, M_ret. rewrite Ho. cbv zeta. rewrite Hd.
    destruct (LD.isNone (om_find (keyOf e) (mMod d))); [destruct (LD.isNone (om_find (keyOf e) (mNew d)))|];
      cbn [andb negb] in *; (eexists; split; [done|]; by eapply setsStep_op).
  - pose proof (del_sets L d k Hs Hl) as Hst.
    unfold LD.deleteEntry, LD.checkState, get, modify, mbind, M_bind, mret, M_ret. rewrite Ho.
    destruct (LD.isNone (om_find k (mNew d))); (eexists; split; [done|]; by eapply setsStep_op).
  - unfold LD.recordEntry, LD.checkState, get, modify, mbind, M_bind, mret, M_ret. rewrite Ho.
    eexists. split; [done|]. destruct (LD.isNone (om_find (keyOf e) (mPrevious d))); [|by split_and!].
    split_and!; [|done..]. split; [by destruct Hs|]. apply Hok.
Qed.

(** ** Sequences of operations *)

Lemma runOp_flag d o d' : runOp o d = Ret tt d' -> mUpdateLastModified d' = mUpdateLastModified d.
Proof.
  destruct o; cbn [runOp]; unfold LD.addEntry, LD.modEntry, LD.deleteEntry, LD.recordEntry, LD.checkState, LD.assert,
    get, modify, mbind, M_bind, mret, M_ret, throw; repeat case_match; intros; simplify_eq/=; done.
Qed.

Fixpoint runOps (os : list DeltaOp) : M Delta unit :=
  match os with [] => mret tt | o :: r => runOp o;; runOps r end.

Definition applyOps (os : list DeltaOp) V : Ledger := fold_left (fun V o => applyOp o V) os V.

Fixpoint legalAll V (os : list DeltaOp) : Prop :=
  match os with [] => True | o :: r => legal V o /\ legalAll (applyOp o V) r end.

Lemma applyOp_ext V V' o : (forall k, V k = V' k) -> forall k, applyOp o V k = applyOp o V' k.
Proof. intros He k. destruct o; cbn; unfold update; by rewrite ?He. Qed.

Lemma applyOps_ext os V V' : (forall k, V k = V' k) -> forall k, applyOps os V k = applyOps os V' k.
Proof. revert V V'. induction os as [|o os IH]; intros V V' He; [done|]. apply IH. by apply applyOp_ext. Qed.

Lemma legalAll_ext V V' os : (forall k, V k = V' k) -> legalAll V os -> legalAll V' os.
Proof.
  revert V V'. induction os as [|o os IH]; intros V V' He; [done|]. intros [H1 H2]. split.
  - destruct o; cbn in *; by rewrite <- ?He.
  - eapply IH; [|exact H2]. by apply applyOp_ext.
Qed.

Lemma runOps_step L d os : deltaOk L d -> legalAll (deltaView d L) os ->
  exists d', runOps os d = Ret tt d' /\ opStep L d d' (applyOps os (deltaView d L)).
Proof.
  revert d. induction os as [|o os IH]; intros d Hok Hl; [by exists d|]. destruct Hl as [H1 H2].
  destruct (runOp_step L d o Hok H1) as (d1 & Hr1 & Hok1 & Hh1 & Hp1 & Hv1).
  destruct (IH d1 Hok1) as (d2 & Hr2 & Hok2 & Hh2 & Hp2 & Hv2).
  { eapply legalAll_ext; [|exact H2]. intros k. by rewrite Hv1. }
  exists d2. cbn [runOps]. unfold mbind, M_bind. rewrite Hr1, Hr2. split; [done|].
  split_and!; [done|by rewrite Hh2|by rewrite Hp2|]. intros k. rewrite Hv2. cbn.
  by apply applyOps_ext.
Qed.

(** ** Merging a nested delta

    [mergeEntries] is a sequence of operations on the outer delta. *)

Definition recordOps (previous : list (Key * Entry)) k : list DeltaOp :=
  match om_find k previous with Some e => [OpRecord e] | None => [] end.

Definition deleteOps previous (ks : list Key) : list DeltaOp :=
  concat (map (fun k => OpDel k :: recordOps previous k) ks).
Definition newOps (es : list (Key * Entry)) : list DeltaOp := map (fun p => OpAdd p.2) es.
Definition modOps previous (es : list (Key * Entry)) : list DeltaOp :=
  concat (map (fun p : Key * Entry => OpMod p.2 :: recordOps previous p.1) es).

Definition mergeOps (inner : Delta) : list DeltaOp :=
  deleteOps (mPrevious inner) (mDelete inner) ++ newOps (mNew inner) ++ modOps (mPrevious inner) (mMod inner).

Lemma runOps_app os1 os2 d : runOps (os1 ++ os2) d = (runOps os1;; runOps os2) d.
Proof.
  revert d. induction os1 as [|o os1 IH]; intros d; [done|]. cbn [app runOps]. unfold mbind, M_bind in *.
  destruct (runOp o d) as [[] d1|]; [apply IH|done].
Qed.

Lemma runOps_record previous k d : runOps (recordOps previous k) d = LD.recordFrom keyOf previous k d.
Proof.
  unfold recordOps, LD.recordFrom. destruct (om_find k previous); [|done].
  cbn [runOps runOp]. unfold mbind, M_bind. by destruct (LD.recordEntry keyOf e d) as [[]|].
Qed.

Lemma runOps_deleted previous ks d : runOps (deleteOps previous ks) d = LD.mergeDeleted keyOf previous ks d.
Proof.
  revert d. induction ks as [|k ks IH]; intros d; [done|].
  change (deleteOps previous (k :: ks)) with (OpDel k :: (recordOps previous k ++ deleteOps previous ks)).
  cbn [runOps runOp LD.mergeDeleted]. unfold mbind, M_bind. destruct (LD.deleteEntry k d) as [[] d1|]; [|done].
  rewrite runOps_app. unfold mbind, M_bind. rewrite runOps_record.
  destruct (LD.recordFrom keyOf previous k d1) as [[] d2|]; [apply IH|done].
Qed.

Lemma runOps_new es d : runOps (newOps es) d = LD.mergeNew keyOf es d.
Proof.
  revert d. induction es as [|[k e] es IH]; intros d; [done|]. cbn [newOps map runOps runOp LD.mergeNew snd].
  unfold mbind, M_bind. destruct (LD.addEntry keyOf e d) as [[] d1|]; [apply IH|done].
Qed.

Lemma runOps_mod previous es d : runOps (modOps previous es) d = LD.mergeMod keyOf previous es d.
Proof.
  revert d. induction es as [|[k e] es IH]; intros d; [done|].
  change (modOps previous ((k, e) :: es)) with (OpMod e :: (recordOps previous k ++ modOps previous es)).
  cbn [runOps runOp LD.mergeMod]. unfold mbind, M_bind. destruct (LD.modEntry keyOf e d) as [[] d1|]; [|done].
  rewrite runOps_app. unfold mbind, M_bind. rewrite runOps_record.
  destruct (LD.recordFrom keyOf previous k d1) as [[] d2|]; [apply IH|done].
Qed.

Lemma mergeEntries_ops inner d : mHeader d = true ->
  LD.mergeEntries keyOf inner d = runOps (mergeOps inner) d.
Proof.
  intros Ho. unfold LD.mergeEntries, mergeOps, LD.checkState, get, mbind, M_bind. rewrite Ho. cbn [mret M_ret].
  rewrite runOps_app. unfold mbind, M_bind. rewrite runOps_deleted.
  destruct (LD.mergeDeleted keyOf (mPrevious inner) (mDelete inner) d) as [[] d1|]; [|done].
  rewrite runOps_app. unfold mbind, M_bind. rewrite runOps_new.
  destruct (LD.mergeNew keyOf (mNew inner) d1) as [[] d2|]; [|done]. by rewrite runOps_mod.
Qed.

(** *** The operations of the merge on a ledger *)

Lemma applyOps_app os1 os2 V : applyOps (os1 ++ os2) V = applyOps os2 (applyOps os1 V).
Proof. unfold applyOps. by rewrite fold_left_app. Qed.

Lemma legalAll_app V os1 os2 : legalAll V (os1 ++ os2) <-> legalAll V os1 /\ legalAll (applyOps os1 V) os2.
Proof. revert V. induction os1 as [|o os1 IH]; intros V; cbn; [tauto|]. rewrite IH. unfold applyOps. cbn. tauto. Qed.

Lemma applyOps_record previous k V : applyOps (recordOps previous k) V = V.
Proof. unfold recordOps. by destruct (om_find k previous). Qed.

Lemma legalAll_record previous k V : legalAll V (recordOps previous k).
Proof. unfold recordOps. by destruct (om_find k previous). Qed.

Lemma deletes_run previous ks V : os_sorted ks -> (forall k, k ∈ ks -> is_Some (V k)) ->
  legalAll V (deleteOps previous ks) /\
  forall k, applyOps (deleteOps previous ks) V k = if os_mem k ks then None else V k.
Proof.
  revert V. induction ks as [|k0 ks IH]; intros V Hs Hin; [done|]. destruct Hs as [Hk0 Hs].
  change (deleteOps previous (k0 :: ks)) with (OpDel k0 :: (recordOps previous k0 ++ deleteOps previous ks)).
  destruct (IH (update k0 None V) Hs) as [Hl Ha].
  { intros k Hk. unfold update. apply Hk0 in Hk as Hlt. rewrite eqvb_neq by (by apply ltb_neq).
    apply Hin. by right. }
  split.
  - split; [apply Hin; by left|]. apply legalAll_app. split; [apply legalAll_record|].
    by rewrite applyOps_record.
  - intros k. change (applyOps (OpDel k0 :: ?r) V) with (applyOps r (update k0 None V)).
    rewrite applyOps_app, applyOps_record, Ha. unfold update. cbn [os_mem existsb].
    rewrite (eqvb_comm k k0).
    destruct (eqvb k0 k); [by destruct (os_mem k ks)|done].
Qed.

(** Writing the entries of a map, with operations that write them. *)
Lemma writes_run (op : Entry -> DeltaOp) (extra : Key -> list DeltaOp) (ok : option Entry -> Prop) es V :
  (forall e V', applyOp (op e) V' = update (keyOf e) (Some e) V') ->
  (forall e V', ok (V' (keyOf e)) -> legal V' (op e)) ->
  (forall k V', legalAll V' (extra k) /\ applyOps (extra k) V' = V') ->
  om_sorted es -> keyed es -> (forall k, k ∈ es.*1 -> ok (V k)) ->
  let os := concat (map (fun p : Key * Entry => op p.2 :: extra p.1) es) in
  legalAll V os /\
  forall k, applyOps os V k = match om_find k es with Some e => Some e | None => V k end.
Proof.
  intros Hop Hlegal Hextra. revert V. induction es as [|[k0 e0] es IH]; intros V Hs Hk Hin; [done|].
  destruct (keyed_cons _ _ _ Hs Hk) as (He0 & Hkes & Hs' & Hn & Hne).
  destruct (IH (update k0 (Some e0) V) Hs' Hkes) as [Hl Ha].
  { intros k Hki. unfold update. rewrite Hne by done. apply Hin. by right. }
  cbn [map concat fst snd]. destruct (Hextra k0 (update k0 (Some e0) V)) as [He1 He2]. split.
  - split; [apply Hlegal; rewrite He0; apply Hin; by left|]. rewrite Hop, He0.
    apply legalAll_app. by rewrite He2.
  - intros k. cbn [app]. change (applyOps (op e0 :: ?r) V) with (applyOps r (applyOp (op e0) V)).
    rewrite Hop, He0, applyOps_app, He2, Ha. cbn [om_find]. unfold update. rewrite (eqvb_comm k0 k).
    destruct (eqvb k k0) eqn:E; [|done]. apply eqvb_eq in E as ->. by rewrite Hn.
Qed.

(** Merging performs the changes of the nested delta. *)
Lemma mergeOps_run inner V : deltaSets V inner ->
  legalAll V (mergeOps inner) /\ forall k, applyOps (mergeOps inner) V k = deltaView inner V k.
Proof.
  intros [_ Hn Hm Hd Hkn Hkm Hcell]. unfold mergeOps.
  destruct (deletes_run (mPrevious inner) (mDelete inner) V Hd) as [L1 A1].
  { intros k Hk. apply (Hcell k). by apply os_mem_elem. }
  set (V1 := applyOps (deleteOps (mPrevious inner) (mDelete inner)) V) in *.
  destruct (writes_run OpAdd (fun _ => []) (fun v => v = None) (mNew inner) V1) as [L2 A2]; try done.
  { intros k Hk. apply om_find_Some_key in Hk. destruct (proj1 (Hcell k) Hk) as (Hv & _ & Hdel).
    by rewrite A1, Hdel. }
  assert (concat (map (fun p : Key * Entry => [OpAdd p.2]) (mNew inner)) = newOps (mNew inner)) as Hno.
  { unfold newOps. clear. induction (mNew inner) as [|p l IH]; [done|]. cbn. by rewrite IH. }
  rewrite Hno in *. set (V2 := applyOps (newOps (mNew inner)) V1) in *.
  destruct (writes_run OpMod (recordOps (mPrevious inner)) is_Some (mMod inner) V2) as [L3 A3]; try done.
  { intros k V'. split; [apply legalAll_record|apply applyOps_record]. }
  { intros k Hk. apply om_find_Some_key in Hk. destruct (Hcell k) as (C1 & C2 & _).
    destruct (C2 Hk) as [Hv Hdel]. rewrite A2, A1, Hdel. destruct (om_find k (mNew inner)); [by eexists|done]. }
  rewrite !legalAll_app, !applyOps_app. split; [done|]. intros k. fold V1 V2. rewrite A3, A2, A1.
  unfold deltaView. destruct (Hcell k) as (C1 & C2 & _).
  destruct (om_find k (mMod inner)) as [em|]; [by destruct C2 as [_ ->]|].
  destruct (om_find k (mNew inner)) as [en|]; [by destruct C1 as (_ & _ & ->)|].
  by destruct (os_mem k (mDelete inner)).
Qed.

Lemma commitNested_step L inner outer : deltaOk L outer -> deltaOk (deltaView outer L) inner ->
  mPreviousHeaderValue inner = mCurrentHeader outer ->
  exists outer', LD.commitNested keyOf (inner, outer) = Ret tt (LD.dropHeader inner, outer') /\
    deltaOk L outer' /\ mCurrentHeader outer' = mCurrentHeader inner /\
    mPreviousHeaderValue outer' = mPreviousHeaderValue outer /\
    forall k, deltaView outer' L k = deltaView inner (deltaView outer L) k.
Proof.
  intros Hout Hin Hh. destruct (mergeOps_run inner (deltaView outer L) (do_sets _ _ Hin)) as [Hl Ha].
  destruct (runOps_step L outer (mergeOps inner) Hout Hl) as (d & Hrun & Hok & _ & Hp & Hv).
  unfold LD.commitNested. rewrite (ds_open _ _ (do_sets _ _ Hin)), bool_decide_eq_true_2 by done. cbn [negb].
  rewrite mergeEntries_ops, Hrun by apply Hout. eexists. split; [done|].
  split; [|split; [done|split; [exact Hp|]]].
  - destruct Hok as [[] Hr]. split; [by split|]. exact Hr.
  - intros k. change (deltaView (LD.setCurrentHeader d (mCurrentHeader inner)) L k) with (deltaView d L k).
    by rewrite Hv, Ha.
Qed.

(** ** What is reported of a delta *)

Lemma replay_app cs1 cs2 L : replay (cs1 ++ cs2) L = replay cs2 (replay cs1 L).
Proof. unfold replay. by rewrite fold_left_app. Qed.

Lemma replay_meta d k V : replay (LD.addCurrentMeta lastModified ledgerSeq d k) V = V.
Proof. unfold LD.addCurrentMeta. destruct (om_find k (mPrevious d)); [|done]. by destruct (negb _). Qed.

Lemma replay_writes (mk : Entry -> LedgerEntryChange Key Entry) pre es :
  (forall e V, applyChange V (mk e) = update (keyOf e) (Some e) V) -> (forall k V, replay (pre k) V = V) ->
  om_sorted es -> keyed es -> forall V k,
  replay (concat (map (fun p : Key * Entry => pre p.1 ++ [mk p.2]) es)) V k =
    match om_find k es with Some e => Some e | None => V k end.
Proof.
  intros Hmk Hpre. induction es as [|[k0 e0] es IH]; intros Hs Hk V k; [done|].
  destruct (keyed_cons _ _ _ Hs Hk) as (He0 & Hkes & Hs' & Hn & _).
  cbn [map concat fst snd om_find]. rewrite replay_app, replay_snoc, Hpre, Hmk, He0, IH by done.
  unfold update. rewrite (eqvb_comm k0 k). destruct (eqvb k k0) eqn:E; [|done].
  apply eqvb_eq in E as ->. by rewrite Hn.
Qed.

Lemma replay_removes pre ks : (forall k V, replay (pre k) V = V) -> forall V k,
  replay (concat (map (fun k => pre k ++ [REMOVED k]) ks)) V k = if os_mem k ks then None else V k.
Proof.
  intros Hpre. induction ks as [|k0 ks IH]; intros V k; [done|].
  cbn [map concat os_mem existsb]. rewrite replay_app, replay_snoc, Hpre, IH. cbn [applyChange]. unfold update.
  rewrite (eqvb_comm k k0). fold (os_mem k ks). by destruct (eqvb k0 k), (os_mem k ks).
Qed.

(** The collapsed changes have the effect of the delta. *)
Lemma getChanges_replay L d : deltaSets L d -> forall k,
  replay (LD.getChanges lastModified ledgerSeq d) L k = deltaView d L k.
Proof.
  intros [_ Hn Hm Hd Hkn Hkm Hcell] k. unfold LD.getChanges. rewrite !replay_app.
  rewrite replay_removes by (intros; apply replay_meta).
  rewrite (replay_writes UPDATED) by (done || (intros; apply replay_meta)).
  assert (map (fun p : Key * Entry => @CREATED Key Entry p.2) (mNew d) =
    concat (map (fun p : Key * Entry => [] ++ [CREATED p.2]) (mNew d))) as ->.
  { clear. induction (mNew d) as [|p l IH]; [done|]. cbn. by rewrite IH. }
  rewrite (replay_writes CREATED (fun _ => [])) by done. done.
Qed.

Lemma find_keyed es k : om_sorted es -> keyed es ->
  List.find (fun e => eqvb k (keyOf e)) (es.*2) = om_find k es.
Proof.
  induction es as [|[k0 e0] es IH]; intros Hs Hk; [done|].
  destruct (keyed_cons _ _ _ Hs Hk) as (He0 & Hkes & Hs' & _). cbn. rewrite He0.
  destruct (eqvb k k0); [done|by apply IH].
Qed.

Lemma find_app (f : Entry -> bool) l1 l2 : List.find f (l1 ++ l2) =
  match List.find f l1 with Some e => Some e | None => List.find f l2 end.
Proof. induction l1 as [|e l1 IH]; [done|]. cbn. by destruct (f e). Qed.

(** The live entry of a key. *)
Lemma live_find L d k : deltaSets L d ->
  List.find (fun e => eqvb k (keyOf e)) (LD.getLiveEntries d) =
    match om_find k (mMod d) with Some e => Some e | None => om_find k (mNew d) end.
Proof.
  intros [_ Hn Hm _ Hkn Hkm Hcell]. unfold LD.getLiveEntries. rewrite find_app, !find_keyed by done.
  destruct (Hcell k) as (C1 & _). destruct (om_find k (mNew d)); [by destruct C1 as (_ & -> & _)|].
  by destruct (om_find k (mMod d)).
Qed.

Lemma keys_keyed es : om_sorted es -> keyed es -> map keyOf (es.*2) = es.*1.
Proof.
  induction es as [|[k0 e0] es IH]; intros Hs Hk; [done|].
  destruct (keyed_cons _ _ _ Hs Hk) as (He0 & Hkes & Hs' & _). cbn. rewrite He0. f_equal. by apply IH.
Qed.

Lemma live_dead_distinct L d : deltaSets L d ->
  NoDup (map keyOf (LD.getLiveEntries d)) /\ NoDup (LD.getDeadEntries d).
Proof.
  intros [_ Hn Hm Hd Hkn Hkm Hcell]. split; [|by apply os_sorted_NoDup].
  unfold LD.getLiveEntries. rewrite map_app, !keys_keyed by done. apply NoDup_app.
  split_and!; [by apply os_sorted_NoDup| |by apply os_sorted_NoDup].
  intros k Hk1 Hk2. apply om_find_Some_key in Hk1, Hk2. destruct (proj1 (Hcell k) Hk1) as (_ & Hk & _).
  rewrite Hk in Hk2. by destruct Hk2.
Qed.

End LedgerDeltaFacts.
