(* ===== verification/EntryStore.v ===== *)
(** * The store of ledger entries ([ledger/EntryHelper.cpp], the entry
      helpers of [ledger/], [lib/util/lrucache.hpp])

    Every type of ledger entry has an [EntryHelper] that keeps its table in
    the database and tells the [LedgerDelta] of every change; the helpers of
    the types that are read most use a cache of entries, shared by all of
    them.  [EntryHelperProvider] dispatches on the type of the entry.

    The database is the list of the rows of all tables, a row being the
    entry it holds.  An SQL statement selects rows with its [WHERE] clause;
    a violated primary key and a failed check are errors.  What differs
    between the helpers is the class [EntryHelper]; what the clauses must
    satisfy for the tables to hold one row per ledger key is the class
    [EntryHelperOk]. *)

From S2P Require Import Prelude OrdContainers LedgerDelta.

(** What [storeDelete] of a helper does: it deletes the row of the key,
    nothing, as for the limits of account types, or it throws a pointer to an
    error, as for the limits of accounts. *)
Inductive Deletion := DeletesRow | DeletesNothing | NotDeletable (msg : string).

(** What a helper knows of its type of entries. *)
Class EntryHelper (Key Entry Header : Type) := {
  getLedgerKey : Entry -> Key;
  isValid : Entry -> bool;
  invalidMessage : Entry -> string;
  lastModifiedLedgerSeq : Entry -> Z;
  setLastModified : Z -> Entry -> Entry;
  (** the sequence number and the close time of a header *)
  headerSeq : Header -> Z;
  headerTime : Header -> Z;
  (** the primary key: an [INSERT] of the first entry conflicts with a row,
      its [UPDATE] changes it *)
  samePK : Entry -> Entry -> bool;
  (** the row after an [UPDATE], whose [SET] may leave columns alone *)
  updateRow : Entry -> Entry -> Entry;
  (** the [WHERE] clause of a [SELECT] or [DELETE] by key *)
  whereKey : Key -> Entry -> bool;
  deletion : Key -> Deletion;
  usesCache : Key -> bool;
  (** whether [exists] looks at all; for both kinds of limits it is [false] *)
  looksExists : Key -> bool;
  (** whether [exists] answers from the cache, and how *)
  existsInCache : Key -> option Entry -> option bool;
}.

(** Rows and ledger keys identify entries in the same way.  The statements
    on offers name the offer id alone, of the id and the owner that are the
    ledger key: for them the laws hold of entries among which no two offers
    have the same id and different owners, ids being generated once
    ([LH.generateID]). *)
Class EntryHelperOk {Key Entry Header} (h : EntryHelper Key Entry Header) := {
  samePK_key : forall e r, samePK e r = true <-> getLedgerKey e = getLedgerKey r;
  whereKey_key : forall k r, whereKey k r = true <-> getLedgerKey r = k;
  setLastModified_key : forall n e, getLedgerKey (setLastModified n e) = getLedgerKey e;
  updateRow_new : forall r e, getLedgerKey r = getLedgerKey e -> updateRow r e = e;
}.

(** ** The cache of entries *)

Module LruCache.
Section LruCache.
Context {K V : Type} `{Ord K}.
Implicit Types (c : list (K * V)) (k : K).

(** The list is [_cache_items_list], most recent item first;
    [_cache_items_map] is an index into it. *)
Definition find c k : option V :=
  match List.find (fun p => eqvb k p.1) c with Some p => Some p.2 | None => None end.

Definition exists_ c k : bool := match find c k with Some _ => true | None => false end.

Definition erase_if_exists k c : list (K * V) := List.filter (fun p => negb (eqvb k p.1)) c.

Definition put (max_size : nat) k (v : V) c : list (K * V) :=
  let c' := (k, v) :: erase_if_exists k c in
  if (max_size <? length c')%nat then removelast c' else c'.

(** The value, and the cache with the item moved to the front. *)
Definition get k c : option (V * list (K * V)) :=
  match find c k with
  | Some v => Some (v, (k, v) :: erase_if_exists k c)
  | None => None
  end.

End LruCache.
End LruCache.

(** ** The store *)

Record Store {Key Entry Header : Type} := {
  sRows : list Entry;
  sCache : list (Key * option Entry);
  sDelta : LedgerDelta Key Entry Header;
}.
Arguments Store : clear implicits.

Module ES.
Section ES.
Context {Key Entry Header : Type} `{Ord Key} `{EqDecision Header} `{EqDecision Entry}.
Context {helper : EntryHelper Key Entry Header}.
Context (max_size : nat).
Local Abbreviation St := (Store Key Entry Header).
Implicit Types (s : St) (k : Key) (e : Entry).

Definition setRows s rows : St := {| sRows := rows; sCache := sCache s; sDelta := sDelta s |}.
Definition setCache s c : St := {| sRows := sRows s; sCache := c; sDelta := sDelta s |}.
Definition setDelta s d : St := {| sRows := sRows s; sCache := sCache s; sDelta := d |}.

(** A method of the delta. *)
Definition onDelta {A} (m : M (LedgerDelta Key Entry Header) A) : M St A := fun s =>
  match m (sDelta s) with
  | Ret a d => Ret a (setDelta s d)
  | Throw x d => Throw x (setDelta s d)
  end.

(** *** The cache *)

Definition flushCachedEntry k : M St unit :=
  modify (fun s => setCache s (LruCache.erase_if_exists k (sCache s))).

Definition cachedEntryExists k : M St bool :=
  s ← get; mret (LruCache.exists_ (sCache s) k).

Definition getCachedEntry k : M St (option Entry) := fun s =>
  match LruCache.get k (sCache s) with
  | Some (v, c) => Ret v (setCache s c)
  | None => Throw (RuntimeError "There is no such key in cache") s
  end.

Definition putCachedEntry k (v : option Entry) : M St unit :=
  modify (fun s => setCache s (LruCache.put max_size k v (sCache s))).

(** *** Writing *)

(** [EntryFrame::touch(delta)] *)
Definition touch e : M St Entry :=
  s ← get;
  let ledgerSeq := headerSeq (mCurrentHeader (sDelta s)) in
  if mUpdateLastModified (sDelta s) then
    if ledgerSeq =? 0 then throw Aborted else mret (setLastModified ledgerSeq e)
  else mret e.

Definition sqlConstraintError : Exn := RuntimeError "UNIQUE constraint failed".

Definition sqlInsert e : M St unit :=
  s ← get;
  if existsb (samePK e) (sRows s) then throw sqlConstraintError
  else modify (fun s => setRows s (sRows s ++ [e])).

(** The number of affected rows. *)
Definition sqlUpdate e : M St Z :=
  s ← get;
  modify (fun s => setRows s (map (fun r => if samePK e r then updateRow r e else r) (sRows s)));;
  mret (count (samePK e) (sRows s)).

Definition sqlDelete k : M St unit :=
  modify (fun s => setRows s (List.filter (fun r => negb (whereKey k r)) (sRows s))).

(** [storeUpdateHelper], after the entry was touched. *)
Definition storeTouched (insert : bool) e : M St unit :=
  if negb (isValid e) then throw (RuntimeError (invalidMessage e)) else
  when (usesCache (getLedgerKey e)) (flushCachedEntry (getLedgerKey e));;
  (if insert then sqlInsert e
   else n ← sqlUpdate e;
        if n =? 1 then mret tt else throw (RuntimeError "could not update SQL"));;
  onDelta (if insert then LD.addEntry getLedgerKey e else LD.modEntry getLedgerKey e).

Definition storeUpdateHelper (insert : bool) e : M St unit := e ← touch e; storeTouched insert e.

Definition storeAdd e : M St unit := storeUpdateHelper true e.
Definition storeChange e : M St unit := storeUpdateHelper false e.

Definition storeDelete k : M St unit :=
  match deletion k with
  | DeletesRow =>
      when (usesCache k) (flushCachedEntry k);;
      sqlDelete k;;
      onDelta (LD.deleteEntry k)
  | DeletesNothing => mret tt
  | NotDeletable msg => throw (RuntimeErrorPtr msg)
  end.

(** *** Reading *)

Definition selectRow s k : option Entry := List.find (whereKey k) (sRows s).

Definition exists_ k : M St bool :=
  if negb (looksExists k) then mret false else
  s ← get;
  let fromDb := match selectRow s k with Some _ => true | None => false end in
  match LruCache.find (sCache s) k with
  | Some v => match existsInCache k v with Some b => mret b | None => mret fromDb end
  | None => mret fromDb
  end.

Definition storeLoad k : M St (option Entry) :=
  s ← get;
  if usesCache k then
    c ← cachedEntryExists k;
    if (c : bool) then getCachedEntry k
    else putCachedEntry k (selectRow s k);; mret (selectRow s k)
  else mret (selectRow s k).

(** A load that records the entry in the delta. *)
Definition loadAndRecord k : M St (option Entry) :=
  r ← storeLoad k;
  match r with
  | Some e => onDelta (LD.recordEntry getLedgerKey e);; mret (Some e)
  | None => mret None
  end.

Definition storeAddOrChangeEntry e : M St unit :=
  b ← exists_ (getLedgerKey e);
  if (b : bool) then storeChange e else storeAdd e.

(** *** Consistency check *)

(** [EntryHelperProvider::checkAgainstDatabase] *)
Definition checkEntry e : M St unit :=
  let k := getLedgerKey e in
  flushCachedEntry k;;
  fromDb ← storeLoad k;
  if bool_decide (fromDb = Some e) then mret tt
  else throw (RuntimeError "Inconsistent state between objects").

Fixpoint checkLive (es : list Entry) : M St unit :=
  match es with [] => mret tt | e :: r => checkEntry e;; checkLive r end.

Fixpoint checkDead (ks : list Key) : M St unit :=
  match ks with
  | [] => mret tt
  | k :: r =>
      b ← exists_ k;
      if (b : bool) then throw (RuntimeError "Inconsistent state ; entry should not exist in database")
      else checkDead r
  end.

(** [LedgerDelta::checkAgainstDatabase] *)
Definition checkAgainstDatabase (PARANOID_MODE : bool) : M St unit :=
  if negb PARANOID_MODE then mret tt else
  s ← get;
  checkLive (LD.getLiveEntries (sDelta s));;
  checkDead (LD.getDeadEntries (sDelta s)).

(** *** Nesting *)

Fixpoint flushAll (ks : list Key) : M St unit :=
  match ks with [] => mret tt | k :: r => flushCachedEntry k;; flushAll r end.

(** The destructor of a delta that was not committed: rolling it back
    flushes its keys from the cache.  [outer] is the delta it was nested in,
    which the store has again. *)
Definition dropNested (outer : LedgerDelta Key Entry Header) (inner : St) : St :=
  match LD.rollback (sDelta inner) with
  | Ret ks _ => match flushAll ks (setDelta inner outer) with Ret _ s' | Throw _ s' => s' end
  | Throw _ _ => setDelta inner outer
  end.

(** [inner.commit()]; if it throws, the destructor follows. *)
Definition commitInto (outer : LedgerDelta Key Entry Header) : M St unit := fun inner =>
  match LD.commitNested getLedgerKey (sDelta inner, outer) with
  | Ret _ (_, outer') => Ret tt (setDelta inner outer')
  | Throw x (_, outer') => Throw x (dropNested outer' inner)
  end.

End ES.
End ES.
