(* ===== verification/EntryStoreFacts.v ===== *)
(** * Lemmas on the store of ledger entries

    [storeOk L s]: the tables hold the ledger that the delta makes of [L],
    one row per key, and the cache agrees with the tables.  Every operation
    keeps it, and leaves the cache right for the outer ledger when an
    exception unwinds a nested delta.  The second part relates the store to a
    map from keys to entries. *)

From S2P Require Import Prelude OrdContainers LedgerDelta LedgerDeltaFacts EntryStore.

(** ** The cache *)

Section LruFacts.
Context {K V : Type} `{Ord K}.
Implicit Types (c : list (K * V)) (k : K).

Lemma lru_find_erase k k' c :
  LruCache.find (LruCache.erase_if_exists k c) k' = if eqvb k k' then None else LruCache.find c k'.
Proof.
  unfold LruCache.find, LruCache.erase_if_exists. induction c as [|[k0 v0] c IH]; cbn [List.filter List.find fst].
  { by destruct (eqvb k k'). }
  destruct (eqvb k k0) eqn:E0; cbn [negb List.find fst].
  - apply eqvb_eq in E0 as <-. rewrite IH, (eqvb_comm k' k). by destruct (eqvb k k').
  - destruct (eqvb k' k0) eqn:E1; [|exact IH]. apply eqvb_eq in E1 as ->. by rewrite E0.
Qed.

Lemma lru_find_cons k v k' c :
  LruCache.find ((k, v) :: c) k' = if eqvb k k' then Some v else LruCache.find c k'.
Proof. unfold LruCache.find. cbn [List.find fst]. rewrite (eqvb_comm k' k). by destruct (eqvb k k'). Qed.

Lemma lru_find_removelast k c v : LruCache.find (removelast c) k = Some v -> LruCache.find c k = Some v.
Proof.
  destruct (decide (c = [])) as [->|Hne]; [done|]. rewrite (app_removelast_last (hd (k, v) c) Hne) at 2.
  unfold LruCache.find. generalize (removelast c) as c0. intros c0.
  induction c0 as [|p c0 IH]; [done|]. cbn [List.find app]. by destruct (eqvb k p.1).
Qed.

Lemma lru_find_put n k v k' c w : LruCache.find (LruCache.put n k v c) k' = Some w ->
  (if eqvb k k' then w = v else LruCache.find c k' = Some w).
Proof.
  unfold LruCache.put. cbv zeta. intros Hf.
  assert (LruCache.find ((k, v) :: LruCache.erase_if_exists k c) k' = Some w) as Hf'.
  { destruct (n <? _)%nat in Hf; [by apply lru_find_removelast|done]. }
  rewrite lru_find_cons, lru_find_erase in Hf'. destruct (eqvb k k'); [by injection Hf'|done].
Qed.

Lemma lru_get_spec k c v c' : LruCache.get k c = Some (v, c') ->
  LruCache.find c k = Some v /\ forall k', LruCache.find c' k' = LruCache.find c k'.
Proof.
  unfold LruCache.get. destruct (LruCache.find c k) as [v'|] eqn:E; [|done]. intros [= -> <-].
  split; [done|]. intros k'. rewrite lru_find_cons, lru_find_erase.
  destruct (eqvb k k') eqn:Ek; [|done]. apply eqvb_eq in Ek as <-. by rewrite E.
Qed.

End LruFacts.

Section StoreFacts.
Context {Key Entry Header : Type} `{Ord Key} `{EqDecision Header} `{EqDecision Entry}.
Context {helper : EntryHelper Key Entry Header} {helperOk : EntryHelperOk helper}.
Context (max_size : nat).
Local Abbreviation St := (Store Key Entry Header).
Local Abbreviation Ledger := (Key -> option Entry).
Implicit Types (s : St) (L V : Ledger) (k : Key) (e : Entry).

(** ** Rows *)

Definition rowsFind (rows : list Entry) k : option Entry := List.find (whereKey k) rows.

Lemma rowsFind_Some rows k e : rowsFind rows k = Some e -> getLedgerKey e = k /\ e ∈ rows.
Proof.
  intros [Hin Hw]%List.find_some. split; [by apply whereKey_key|by apply list_elem_of_In].
Qed.

Lemma rowsFind_None rows k : rowsFind rows k = None <-> k ∉ map getLedgerKey rows.
Proof.
  unfold rowsFind. induction rows as [|r rows IH]; cbn [List.find map]; [set_solver|].
  rewrite not_elem_of_cons. destruct (whereKey k r) eqn:E.
  - apply whereKey_key in E as <-. naive_solver.
  - rewrite IH. split; [|naive_solver]. intros Hn. split; [|done]. intros ->.
    by rewrite (proj2 (whereKey_key _ r) eq_refl) in E.
Qed.

Lemma rowsFind_cons r rows k : rowsFind (r :: rows) k = if eqvb (getLedgerKey r) k then Some r else rowsFind rows k.
Proof.
  unfold rowsFind. cbn [List.find]. destruct (whereKey k r) eqn:E, (eqvb (getLedgerKey r) k) eqn:Ek; try done.
  - apply whereKey_key in E as <-. by rewrite eqvb_refl in Ek.
  - apply eqvb_eq in Ek as <-. by rewrite (proj2 (whereKey_key _ r) eq_refl) in E.
Qed.

Lemma rowsFind_app rows e k : rowsFind rows (getLedgerKey e) = None ->
  rowsFind (rows ++ [e]) k = update (getLedgerKey e) (Some e) (rowsFind rows) k.
Proof.
  unfold update. induction rows as [|r rows IH]; intros Hn; cbn [app].
  - by rewrite rowsFind_cons.
  - rewrite !rowsFind_cons in *. destruct (eqvb (getLedgerKey r) (getLedgerKey e)) eqn:E1; [done|].
    rewrite IH by done. destruct (eqvb (getLedgerKey r) k) eqn:E2; [|done].
    apply eqvb_eq in E2 as <-. by rewrite (eqvb_comm (getLedgerKey e)), E1.
Qed.

Definition updRows e (rows : list Entry) : list Entry :=
  map (fun r => if samePK e r then updateRow r e else r) rows.

Lemma updRows_row e r : (if samePK e r then updateRow r e else r) = if eqvb (getLedgerKey e) (getLedgerKey r) then e else r.
Proof.
  destruct (samePK e r) eqn:E, (eqvb (getLedgerKey e) (getLedgerKey r)) eqn:Ek; try done.
  - apply samePK_key in E. by rewrite updateRow_new.
  - apply samePK_key in E. by rewrite E, eqvb_refl in Ek.
  - apply eqvb_eq, samePK_key in Ek. congruence.
Qed.

Lemma updRows_keys e rows : map getLedgerKey (updRows e rows) = map getLedgerKey rows.
Proof.
  unfold updRows. induction rows as [|r rows IH]; [done|]. cbn [map]. rewrite updRows_row, IH. f_equal.
  destruct (eqvb (getLedgerKey e) (getLedgerKey r)) eqn:E; [by apply eqvb_eq in E|done].
Qed.

Lemma rowsFind_upd e rows k : is_Some (rowsFind rows (getLedgerKey e)) ->
  rowsFind (updRows e rows) k = update (getLedgerKey e) (Some e) (rowsFind rows) k.
Proof.
  unfold update. intros Hs. induction rows as [|r rows IH]; [by destruct Hs|].
  unfold updRows. cbn [map]. rewrite updRows_row, !rowsFind_cons in *.
  destruct (eqvb (getLedgerKey e) (getLedgerKey r)) eqn:E1.
  - apply eqvb_eq in E1. rewrite E1 in *. destruct (eqvb (getLedgerKey r) k) eqn:E2; [done|].
    clear IH Hs. induction rows as [|r' rows IH]; [done|]. cbn [map]. rewrite updRows_row, !rowsFind_cons, IH.
    destruct (eqvb (getLedgerKey e) (getLedgerKey r')) eqn:E3; [|done].
    apply eqvb_eq in E3. by rewrite <- E3, E1, E2.
  - rewrite (eqvb_comm (getLedgerKey r)), E1 in Hs. specialize (IH Hs). unfold updRows in IH. rewrite IH.
    destruct (eqvb (getLedgerKey r) k) eqn:E2; [|done]. apply eqvb_eq in E2 as <-. by rewrite E1.
Qed.

Definition delRows k (rows : list Entry) : list Entry := List.filter (fun r => negb (whereKey k r)) rows.

Lemma rowsFind_del k rows k' : rowsFind (delRows k rows) k' = update k None (rowsFind rows) k'.
Proof.
  unfold update, delRows. induction rows as [|r rows IH]; cbn [List.filter]; [by destruct (eqvb k k')|].
  destruct (whereKey k r) eqn:E; cbn [negb]; rewrite ?rowsFind_cons, IH.
  - apply whereKey_key in E as <-. by destruct (eqvb (getLedgerKey r) k').
  - destruct (eqvb (getLedgerKey r) k') eqn:E1; [|done]. apply eqvb_eq in E1 as <-.
    destruct (eqvb k (getLedgerKey r)) eqn:E2; [|done]. apply eqvb_eq in E2 as ->.
    by rewrite (proj2 (whereKey_key _ r) eq_refl) in E.
Qed.

Lemma delRows_NoDup k rows : NoDup (map getLedgerKey rows) -> NoDup (map getLedgerKey (delRows k rows)).
Proof.
  unfold delRows. induction rows as [|r rows IH]; [done|]. cbn [List.filter map]. intros [Hn Hd]%NoDup_cons.
  destruct (whereKey k r); cbn [negb map]; [by apply IH|]. apply NoDup_cons. split; [|by apply IH].
  intros Hin. apply Hn. apply list_elem_of_In in Hin. apply in_map_iff in Hin as (r' & <- & Hin).
  apply filter_In in Hin as [Hin _]. apply list_elem_of_In. by apply in_map.
Qed.

(** The number of rows an update affects. *)
Lemma count_samePK e rows : NoDup (map getLedgerKey rows) ->
  count (samePK e) rows = match rowsFind rows (getLedgerKey e) with Some _ => 1 | None => 0 end.
Proof.
  induction rows as [|r rows IH]; [done|]. cbn [map]. intros [Hn Hd]%NoDup_cons.
  rewrite count_cons, rowsFind_cons, IH by done.
  destruct (samePK e r) eqn:E.
  - apply samePK_key in E. rewrite E, eqvb_refl. apply rowsFind_None in Hn. by rewrite Hn.
  - rewrite eqvb_neq; [done|]. intros Hk. by rewrite (proj2 (samePK_key e r)) in E.
Qed.

Lemma existsb_samePK e rows : existsb (samePK e) rows = true <-> is_Some (rowsFind rows (getLedgerKey e)).
Proof.
  rewrite existsb_exists. split.
  - intros (r & Hin & Hp). apply samePK_key in Hp. apply not_eq_None_Some. rewrite rowsFind_None, Hp.
    intros Hn. apply Hn. apply list_elem_of_In. by apply in_map.
  - intros [r Hr]. apply rowsFind_Some in Hr as [Hk Hin]. exists r. split; [by apply list_elem_of_In|].
    by apply samePK_key.
Qed.

(** ** The invariant *)

(** Only keys of cached types are in the cache, with their value. *)
Definition cacheAgrees V s : Prop := forall k v, LruCache.find (sCache s) k = Some v -> usesCache k = true /\ v = V k.

(** Headers of the same ledger: what is applied to a ledger changes neither
    its number nor its close time. *)
Definition sameLedgerSeq (h h' : Header) : Prop := headerSeq h = headerSeq h' /\ headerTime h = headerTime h'.

Record storeOk L s : Prop := {
  so_delta : deltaOk getLedgerKey L (sDelta s);
  so_nodup : NoDup (map getLedgerKey (sRows s));
  so_rows : forall k, rowsFind (sRows s) k = deltaView (sDelta s) L k;
  so_cache : cacheAgrees (deltaView (sDelta s) L) s;
  so_seq : sameLedgerSeq (mCurrentHeader (sDelta s)) (mPreviousHeaderValue (sDelta s));
}.

(** What is left when an exception has passed: the rows may hold changes of
    an unwound delta, until the transaction restores them. *)
Record unwound L s : Prop := {
  un_delta : deltaOk getLedgerKey L (sDelta s);
  un_cache : cacheAgrees (deltaView (sDelta s) L) s;
}.

Lemma storeOk_unwound L s : storeOk L s -> unwound L s.
Proof. intros []. by split. Qed.

(** [keepsAt h m L s]: run from [s], [m] keeps the invariant and the header
    [h] the delta started with. *)
Definition keepsAt {A} (m : M St A) L s : Prop :=
  let h := mPreviousHeaderValue (sDelta s) in
  wp m (fun _ s' => storeOk L s' /\ mPreviousHeaderValue (sDelta s') = h)
       (fun _ s' => unwound L s' /\ mPreviousHeaderValue (sDelta s') = h) s.

Definition keeps {A} (m : M St A) : Prop := forall L s, storeOk L s -> keepsAt m L s.

Lemma keepsAt_bind {A B} (m : M St A) (f : A -> M St B) L s :
  keepsAt m L s -> (forall a, keeps (f a)) -> keepsAt (m ≫= f) L s.
Proof.
  unfold keepsAt. intros Hm Hf. apply wp_bind. eapply wp_mono; [exact Hm| |done].
  intros a s1 [Hok Hh]. specialize (Hf a L s1 Hok). unfold keepsAt in Hf. by rewrite Hh in Hf.
Qed.

Lemma keeps_bind {A B} (m : M St A) (f : A -> M St B) :
  keeps m -> (forall a, keeps (f a)) -> keeps (m ≫= f).
Proof. intros Hm Hf L s Hok. apply keepsAt_bind; [by apply Hm|done]. Qed.

Lemma keeps_ret {A} (a : A) : keeps (mret a).
Proof. by intros L s Hok. Qed.

Lemma keeps_throw {A} x : keeps (@throw St A x).
Proof. intros L s Hok. split; [by apply storeOk_unwound|done]. Qed.

Lemma keeps_get : keeps (@get St).
Proof. by intros L s Hok. Qed.

Lemma keeps_if {A} (b : bool) (m1 m2 : M St A) : keeps m1 -> keeps m2 -> keeps (if b then m1 else m2).
Proof. by destruct b. Qed.

Lemma keeps_when b (m : M St unit) : keeps m -> keeps (when b m).
Proof. destruct b; [done|]. intros _. apply keeps_ret. Qed.

(** *** The cache *)

Lemma storeOk_cache L s c : storeOk L s ->
  cacheAgrees (deltaView (sDelta s) L) (ES.setCache s c) -> storeOk L (ES.setCache s c).
Proof. intros [] Hc. by split. Qed.

Lemma keeps_flush k : keeps (ES.flushCachedEntry k).
Proof.
  intros L s Hok. split; [|done]. apply storeOk_cache; [done|]. intros k' v.
  cbn [ES.setCache sCache]. rewrite lru_find_erase. destruct (eqvb k k'); [done|]. apply Hok.
Qed.

(** Loading through the cache gives the row. *)
Lemma storeLoad_row L s k : storeOk L s ->
  exists c, ES.storeLoad max_size k s = Ret (rowsFind (sRows s) k) (ES.setCache s c) /\ storeOk L (ES.setCache s c).
Proof.
  intros Hok. unfold ES.storeLoad, get, mbind, M_bind, mret, M_ret.
  destruct (usesCache k) eqn:Eu; [|exists (sCache s); split; [by destruct s|by destruct s]].
  unfold ES.cachedEntryExists, LruCache.exists_, get, mbind, M_bind, mret, M_ret.
  destruct (LruCache.find (sCache s) k) as [v|] eqn:Ef.
  - unfold ES.getCachedEntry, LruCache.get. rewrite Ef. destruct (so_cache _ _ Hok k v Ef) as [_ ->].
    rewrite <- (so_rows _ _ Hok). eexists. split; [done|]. apply storeOk_cache; [done|].
    intros k' v'. cbn [ES.setCache sCache]. rewrite lru_find_cons, lru_find_erase. destruct (eqvb k k') eqn:Ek; [|apply Hok].
    apply eqvb_eq in Ek as <-. intros [= <-]. split; [done|apply Hok].
  - eexists. split; [done|]. apply storeOk_cache; [done|]. intros k' v' Hp%lru_find_put.
    destruct (eqvb k k') eqn:Ek; [|by apply Hok]. apply eqvb_eq in Ek as <-. rewrite Hp. split; [done|apply Hok].
Qed.

Lemma keeps_load k : keeps (ES.storeLoad max_size k).
Proof.
  intros L s Hok. unfold keepsAt, wp. destruct (storeLoad_row L s k Hok) as (c & -> & Hc). by split.
Qed.

Lemma keeps_exists k : keeps (ES.exists_ k).
Proof.
  intros L s Hok. unfold ES.exists_. destruct (looksExists k); [|done]. cbn [negb]. unfold keepsAt, wp, get, mbind, M_bind, mret, M_ret.
  destruct (LruCache.find (sCache s) k) as [v|]; [|done]. by destruct (existsInCache k v).
Qed.

(** *** Writing *)

(** Deltas of the same ledger with the same headers. *)
Definition sameHeaders (d d' : LedgerDelta Key Entry Header) : Prop :=
  mPreviousHeaderValue d' = mPreviousHeaderValue d /\ mCurrentHeader d' = mCurrentHeader d /\
  mUpdateLastModified d' = mUpdateLastModified d.

(** A change of the rows with the matching operation of the delta, after the
    key was flushed from the cache. *)
Lemma write_step L s rows c o k0 : storeOk L s -> let V := deltaView (sDelta s) L in
  legal getLedgerKey V o -> (forall k, eqvb k0 k = false -> applyOp getLedgerKey o V k = V k) ->
  NoDup (map getLedgerKey rows) -> (forall k, rowsFind rows k = applyOp getLedgerKey o V k) ->
  c = (if usesCache k0 then LruCache.erase_if_exists k0 (sCache s) else sCache s) ->
  exists d', runOp getLedgerKey o (sDelta s) = Ret tt d' /\
    storeOk L {| sRows := rows; sCache := c; sDelta := d' |} /\ sameHeaders (sDelta s) d'.
Proof.
  intros Hok V Hl Hother Hnd Hrows ->.
  destruct (runOp_step getLedgerKey L (sDelta s) o (so_delta _ _ Hok) Hl) as (d' & Hr & Hd & Hcur & Hp & Hv).
  exists d'. split; [done|]. split; [|by split_and!; [| |eapply runOp_flag]].
  split; cbn [sRows sCache sDelta]; [done|done| | |rewrite Hcur, Hp; apply Hok].
  - intros k. by rewrite Hrows, Hv.
  - intros k v Hf. cbn [sCache] in Hf. rewrite Hv.
    assert (LruCache.find (sCache s) k = Some v /\ (eqvb k0 k = true -> usesCache k0 = false)) as [Hf' Hu].
    { destruct (usesCache k0); [|by split]. rewrite lru_find_erase in Hf. by destruct (eqvb k0 k). }
    destruct (so_cache _ _ Hok k v Hf') as [Hc ->]. split; [done|].
    destruct (eqvb k0 k) eqn:E; [|by rewrite Hother]. apply eqvb_eq in E as ->. rewrite Hu in Hc by done. done.
Qed.

Definition flushed k s : St :=
  if usesCache k then ES.setCache s (LruCache.erase_if_exists k (sCache s)) else s.

Lemma when_flush k s : when (usesCache k) (ES.flushCachedEntry k) s = Ret tt (flushed k s).
Proof. unfold when, flushed. by destruct (usesCache k). Qed.

Lemma flushed_ok L s k : storeOk L s -> storeOk L (flushed k s) /\ sDelta (flushed k s) = sDelta s /\
  sRows (flushed k s) = sRows s.
Proof.
  intros Hok. unfold flushed. destruct (usesCache k); [|by split_and!]. split_and!; [|done..].
  apply (keeps_flush k L s Hok).
Qed.

Lemma flushed_cache s k : sCache (flushed k s) =
  if usesCache k then LruCache.erase_if_exists k (sCache s) else sCache s.
Proof. unfold flushed. by destruct (usesCache k). Qed.

Lemma rows_app_NoDup rows e : NoDup (map getLedgerKey rows) -> rowsFind rows (getLedgerKey e) = None ->
  NoDup (map getLedgerKey (rows ++ [e])).
Proof.
  intros Hn Hf%rowsFind_None. rewrite map_app. apply NoDup_app. split_and!; [done| |apply NoDup_singleton].
  intros k Hk. cbn. rewrite list_elem_of_singleton. by intros ->.
Qed.

(** What [storeTouched] does: it stores a valid entry, which must be new to be
    inserted and present to be changed. *)
Definition canStore (insert : bool) e (rows : list Entry) : bool :=
  isValid e && Bool.eqb insert (match rowsFind rows (getLedgerKey e) with Some _ => false | None => true end).

Definition stored L s k v s' : Prop :=
  storeOk L s' /\ sameHeaders (sDelta s) (sDelta s') /\
  forall k', rowsFind (sRows s') k' = update k v (rowsFind (sRows s)) k'.

Lemma storeTouched_spec L s insert e : storeOk L s ->
  if canStore insert e (sRows s)
  then exists s', ES.storeTouched insert e s = Ret tt s' /\ stored L s (getLedgerKey e) (Some e) s'
  else exists x s', ES.storeTouched insert e s = Throw x s' /\ unwound L s' /\ sameHeaders (sDelta s) (sDelta s').
Proof.
  intros Hok. unfold ES.storeTouched, canStore.
  destruct (isValid e); cbn [negb andb].
  2:{ do 2 eexists. split; [done|]. by split; [apply storeOk_unwound|]. }
  unfold mbind, M_bind. rewrite !when_flush.
  destruct (flushed_ok L s (getLedgerKey e) Hok) as (Hok1 & Hd1 & Hr1). set (s1 := flushed (getLedgerKey e) s) in *.
  pose proof (so_rows _ _ Hok1 (getLedgerKey e)) as Hrow.
  assert (forall o, applyOp getLedgerKey o (deltaView (sDelta s) L) = update (getLedgerKey e) (Some e) (deltaView (sDelta s) L) ->
    forall k, eqvb (getLedgerKey e) k = false -> applyOp getLedgerKey o (deltaView (sDelta s) L) k = deltaView (sDelta s) L k) as Hother.
  { intros o -> k Hk. unfold update. by rewrite Hk. }
  destruct insert.
  - unfold ES.sqlInsert, get, mbind, M_bind. pose proof (existsb_samePK e (sRows s1)) as Hex. rewrite <- Hr1.
    destruct (rowsFind (sRows s1) (getLedgerKey e)) as [r|] eqn:Er; cbn [Bool.eqb].
    + rewrite (proj2 Hex) by (by eexists). do 2 eexists. split; [done|]. split; [by apply storeOk_unwound|].
      unfold sameHeaders. by rewrite Hd1.
    + destruct (existsb (samePK e) (sRows s1)) eqn:Ex; [by destruct (proj1 Hex eq_refl)|].
      destruct (write_step L s (sRows s1 ++ [e]) (sCache s1) (OpAdd e) (getLedgerKey e) Hok) as (d' & Hrun & Hok' & Hp).
      * cbn [legal]. by rewrite <- Hd1, <- Hrow.
      * by apply Hother.
      * apply rows_app_NoDup; [apply Hok1|done].
      * intros k. rewrite rowsFind_app by done. cbn [applyOp]. unfold update.
        by rewrite (so_rows _ _ Hok1), Hd1.
      * apply flushed_cache.
      * unfold modify, ES.onDelta. cbn [ES.setRows sDelta]. rewrite Hd1. cbn [runOp] in Hrun. rewrite Hrun.
        eexists. split; [done|]. split; [exact Hok'|]. split; [exact Hp|]. intros k. cbn [ES.setDelta ES.setRows sRows].
        by rewrite rowsFind_app, Hr1.
  - unfold ES.sqlUpdate, get, modify, mbind, M_bind, mret, M_ret. rewrite count_samePK by apply Hok1.
    fold (updRows e (sRows s1)). rewrite <- Hr1.
    destruct (rowsFind (sRows s1) (getLedgerKey e)) as [r|] eqn:Er; cbn [Bool.eqb Z.eqb Pos.eqb throw].
    + destruct (write_step L s (updRows e (sRows s1)) (sCache s1) (OpMod e) (getLedgerKey e) Hok) as (d' & Hrun & Hok' & Hp).
      * cbn [legal]. rewrite <- Hd1, <- Hrow. by eexists.
      * by apply Hother.
      * rewrite updRows_keys. apply Hok1.
      * intros k. rewrite rowsFind_upd by (rewrite Er; by eexists). cbn [applyOp]. unfold update.
        by rewrite (so_rows _ _ Hok1), Hd1.
      * apply flushed_cache.
      * unfold ES.onDelta. cbn [ES.setRows sDelta]. rewrite Hd1. cbn [runOp] in Hrun. rewrite Hrun.
        eexists. split; [done|]. split; [exact Hok'|]. split; [exact Hp|]. intros k. cbn [ES.setDelta ES.setRows sRows].
        rewrite rowsFind_upd by (rewrite Er; by eexists). by rewrite Hr1.
    + do 2 eexists. split; [done|]. split; [|unfold sameHeaders; cbn; by rewrite Hd1].
      split; cbn [ES.setRows sDelta sCache]; [apply Hok1|apply Hok1].
Qed.

Lemma keeps_storeTouched insert e : keeps (ES.storeTouched insert e).
Proof.
  intros L s Hok. unfold keepsAt, wp. pose proof (storeTouched_spec L s insert e Hok) as Hs.
  destruct (canStore _ _ _).
  - destruct Hs as (s' & -> & Hok' & [Hp _] & _). by split.
  - destruct Hs as (x & s' & -> & Hu & [Hp _]). by split.
Qed.

Lemma keeps_storeUpdate insert e : keeps (ES.storeUpdateHelper insert e).
Proof.
  apply keeps_bind; [|apply keeps_storeTouched]. unfold ES.touch. apply keeps_bind; [apply keeps_get|].
  intros s. apply keeps_if; [apply keeps_if; [apply keeps_throw|apply keeps_ret]|apply keeps_ret].
Qed.

Lemma storeDelete_spec k L s : deletion k = DeletesRow -> storeOk L s -> is_Some (rowsFind (sRows s) k) ->
  exists s', ES.storeDelete k s = Ret tt s' /\ stored L s k None s'.
Proof.
  intros Hdel Hok Hrow. unfold ES.storeDelete. rewrite Hdel. unfold mbind at 1, M_bind at 1. rewrite when_flush.
  destruct (flushed_ok L s k Hok) as (Hok1 & Hd1 & Hr1). set (s1 := flushed k s) in *.
  destruct (write_step L s (delRows k (sRows s1)) (sCache s1) (OpDel k) k Hok) as (d' & Hrun & Hok' & Hp).
  - cbn [legal]. by rewrite <- (so_rows _ _ Hok).
  - intros k' Hk. cbn [applyOp]. unfold update. by rewrite Hk.
  - apply delRows_NoDup, Hok1.
  - intros k'. rewrite rowsFind_del. cbn [applyOp]. unfold update. by rewrite (so_rows _ _ Hok1), Hd1.
  - apply flushed_cache.
  - unfold ES.sqlDelete, modify, mbind, M_bind, ES.onDelta. fold (delRows k (sRows s1)).
    cbn [ES.setRows sDelta]. rewrite Hd1. cbn [runOp] in Hrun. rewrite Hrun.
    eexists. split; [done|]. split; [exact Hok'|]. split; [exact Hp|]. intros k'. cbn [ES.setDelta ES.setRows sRows].
    by rewrite rowsFind_del, Hr1.
Qed.

Lemma keeps_storeDelete k L s : storeOk L s -> is_Some (rowsFind (sRows s) k) -> keepsAt (ES.storeDelete k) L s.
Proof.
  intros Hok Hrow. destruct (deletion k) as [| |msg] eqn:Hdel; unfold keepsAt, wp.
  2: { unfold ES.storeDelete. rewrite Hdel. by apply (keeps_ret tt). }
  2: { unfold ES.storeDelete. rewrite Hdel. by apply (keeps_throw (A := unit) (RuntimeErrorPtr msg)). }
  destruct (storeDelete_spec k L s Hdel Hok Hrow) as (s' & -> & Hok' & [Hp _] & _).
  by split.
Qed.

Lemma keeps_record e : keeps (ES.onDelta (LD.recordEntry getLedgerKey e)).
Proof.
  intros L s Hok. unfold keepsAt, wp, ES.onDelta.
  destruct (runOp_step getLedgerKey L (sDelta s) (OpRecord e) (so_delta _ _ Hok) I) as (d' & Hr & Hd & Hcur & Hp & Hv).
  cbn [runOp] in Hr. rewrite Hr. split; [|done]. split; cbn [ES.setDelta sDelta sRows]; [done|apply Hok| | |rewrite Hcur, Hp; apply Hok].
  - intros k'. rewrite Hv. apply Hok.
  - intros k' v Hf. rewrite Hv. by apply Hok.
Qed.

Lemma keeps_loadAndRecord k : keeps (ES.loadAndRecord max_size k).
Proof.
  apply keeps_bind; [apply keeps_load|]. intros [e|]; [|apply keeps_ret].
  apply keeps_bind; [apply keeps_record|intros; apply keeps_ret].
Qed.

Lemma keeps_storeAddOrChange e : keeps (ES.storeAddOrChangeEntry e).
Proof.
  apply keeps_bind; [apply keeps_exists|]. intros b. apply keeps_if; apply keeps_storeUpdate.
Qed.

(** *** Nesting *)

Lemma flushAll_ret ks s : exists c, ES.flushAll ks s = Ret tt (ES.setCache s c) /\
  forall k v, LruCache.find c k = Some v -> LruCache.find (sCache s) k = Some v /\ os_mem k ks = false.
Proof.
  revert s. induction ks as [|k0 ks IH]; intros s; [exists (sCache s); by destruct s|].
  cbn [ES.flushAll]. unfold mbind, M_bind, ES.flushCachedEntry at 1, modify.
  destruct (IH (ES.setCache s (LruCache.erase_if_exists k0 (sCache s)))) as (c & -> & Hc).
  exists c. split; [done|]. intros k v Hf. destruct (Hc k v Hf) as [Hf' Hm].
  cbn [ES.setCache sCache] in Hf'. rewrite lru_find_erase in Hf'. destruct (eqvb k0 k) eqn:E; [done|].
  split; [done|]. cbn [os_mem existsb]. by rewrite (eqvb_comm k k0), E.
Qed.

(** A key that a delta does not mention has the value of the outer ledger. *)
Lemma rollback_keys V (d : LedgerDelta Key Entry Header) k : deltaOk getLedgerKey V d ->
  exists ks d', LD.rollback d = Ret ks d' /\ (os_mem k ks = false -> deltaView d V k = V k).
Proof.
  intros Hd. exists (mDelete d ++ (mNew d).*1 ++ (mMod d).*1), (LD.dropHeader d). split.
  - unfold LD.rollback, LD.checkState, get, modify, mbind, M_bind, mret, M_ret.
    rewrite (ds_open _ _ _ (do_sets _ _ _ Hd)). done.
  - intros Hm. apply os_mem_false in Hm. rewrite !elem_of_app in Hm.
    unfold deltaView. rewrite (proj2 (os_mem_false k (mDelete d))) by tauto.
    rewrite (proj2 (om_find_None k (mMod d))), (proj2 (om_find_None k (mNew d))) by tauto. done.
Qed.

Lemma dropNested_unwound L outer inner : deltaOk getLedgerKey L outer ->
  unwound (deltaView outer L) inner ->
  unwound L (ES.dropNested outer inner) /\ sDelta (ES.dropNested outer inner) = outer.
Proof.
  intros Ho [Hd Hc]. unfold ES.dropNested.
  assert (exists ks d', LD.rollback (sDelta inner) = Ret ks d' /\
    forall k, os_mem k ks = false -> deltaView (sDelta inner) (deltaView outer L) k = deltaView outer L k)
    as (ks & d' & -> & Hks).
  { unfold LD.rollback, LD.checkState, get, modify, mbind, M_bind, mret, M_ret.
    rewrite (ds_open _ _ _ (do_sets _ _ _ Hd)). do 2 eexists. split; [done|]. intros k Hk.
    destruct (rollback_keys (deltaView outer L) (sDelta inner) k Hd) as (ks & d' & Hr & Hv).
    apply Hv. unfold LD.rollback, LD.checkState, get, modify, mbind, M_bind, mret, M_ret in Hr.
    rewrite (ds_open _ _ _ (do_sets _ _ _ Hd)) in Hr. by injection Hr as <- _. }
  destruct (flushAll_ret ks (ES.setDelta inner outer)) as (c & -> & Hf). split; [|done].
  split; [done|]. intros k v Hcv. cbn [ES.setCache sCache] in Hcv. destruct (Hf k v Hcv) as [Hv Hm].
  destruct (Hc k v Hv) as [Hu ->]. split; [done|]. by rewrite Hks.
Qed.

Lemma nested_start L s : storeOk L s ->
  storeOk (deltaView (sDelta s) L) (ES.setDelta s (LD.nestedDelta (sDelta s))) /\
  mPreviousHeaderValue (LD.nestedDelta (sDelta s)) = mCurrentHeader (sDelta s).
Proof.
  intros []. split; [|done]. split; cbn [ES.setDelta sDelta sRows]; [apply deltaOk_new|done| | |done].
  - intros k. by rewrite so_rows0.
  - intros k v Hf. by apply so_cache0.
Qed.

Lemma commit_step L s inner : storeOk L s ->
  storeOk (deltaView (sDelta s) L) inner -> mPreviousHeaderValue (sDelta inner) = mCurrentHeader (sDelta s) ->
  exists s', ES.commitInto (sDelta s) inner = Ret tt s' /\ storeOk L s' /\ sRows s' = sRows inner /\
    mPreviousHeaderValue (sDelta s') = mPreviousHeaderValue (sDelta s).
Proof.
  intros Hok Hin Hh.
  destruct (commitNested_step getLedgerKey L (sDelta inner) (sDelta s) (so_delta _ _ Hok) (so_delta _ _ Hin) Hh)
    as (outer' & Hc & Hd & Hcur & Hp & Hv).
  exists (ES.setDelta inner outer'). unfold ES.commitInto. rewrite Hc. split; [done|]. split; [|done].
  split; cbn [ES.setDelta sDelta sRows]; [done|apply Hin| | |].
  - intros k. rewrite Hv. apply Hin.
  - intros k v Hf. rewrite Hv. by apply Hin.
  - rewrite Hcur, Hp. unfold sameLedgerSeq. destruct (so_seq _ _ Hin) as [-> ->]. rewrite Hh. apply Hok.
Qed.

End StoreFacts.

(** * The store refines a map

    A sequence of calls of the entry helpers, whatever the size of the cache
    and whatever it holds, does what it would do on a map from keys to
    entries: loads find the latest value, additions and changes succeed on
    the same entries. *)

Section StoreRefinement.
Context {Key Entry Header : Type} `{Ord Key} `{EqDecision Header} `{EqDecision Entry}.
Context {helper : EntryHelper Key Entry Header} {helperOk : EntryHelperOk helper}.
Context (max_size : nat).
Local Abbreviation St := (Store Key Entry Header).
Local Abbreviation Ledger := (Key -> option Entry).
Implicit Types (s : St) (L V : Ledger) (k : Key) (e : Entry).

Inductive StoreCall := CallLoad (k : Key) | CallAdd (e : Entry) | CallChange (e : Entry) | CallDelete (k : Key).

(** The values the loads give. *)
Fixpoint runCalls (cs : list StoreCall) : M St (list (option Entry)) :=
  match cs with
  | [] => mret []
  | CallLoad k :: r => v ← ES.storeLoad max_size k; vs ← runCalls r; mret (v :: vs)
  | CallAdd e :: r => ES.storeAdd e;; runCalls r
  | CallChange e :: r => ES.storeChange e;; runCalls r
  | CallDelete k :: r => ES.storeDelete k;; runCalls r
  end.

(** ** The map *)

(** The entry as it is stored, in a ledger with a given header. *)
Definition touched (h : Header) (flag : bool) e : Entry := if flag then setLastModified (headerSeq h) e else e.

(** [None] when a call throws. *)
Fixpoint mapCalls (touch : Entry -> Entry) (cs : list StoreCall) V : option (list (option Entry) * Ledger) :=
  match cs with
  | [] => Some ([], V)
  | CallLoad k :: r => '(vs, V') ← mapCalls touch r V; Some (V k :: vs, V')
  | CallAdd e :: r =>
      if isValid (touch e) && LD.isNone (V (getLedgerKey e))
      then mapCalls touch r (update (getLedgerKey e) (Some (touch e)) V) else None
  | CallChange e :: r =>
      if isValid (touch e) && negb (LD.isNone (V (getLedgerKey e)))
      then mapCalls touch r (update (getLedgerKey e) (Some (touch e)) V) else None
  | CallDelete k :: r =>
      match deletion k with
      | DeletesRow => mapCalls touch r (update k None V)
      | DeletesNothing => mapCalls touch r V
      | NotDeletable _ => None
      end
  end.

(** Deletions of rows, as the operations do them, are of entries that were
    loaded. *)
Fixpoint deletesExisting (touch : Entry -> Entry) (cs : list StoreCall) V : Prop :=
  match cs with
  | [] => True
  | CallLoad k :: r => deletesExisting touch r V
  | CallAdd e :: r | CallChange e :: r => deletesExisting touch r (update (getLedgerKey e) (Some (touch e)) V)
  | CallDelete k :: r =>
      match deletion k with
      | DeletesRow => is_Some (V k) /\ deletesExisting touch r (update k None V)
      | DeletesNothing => deletesExisting touch r V
      | NotDeletable _ => True
      end
  end.

(** ** The refinement *)

Lemma touch_ret s e : headerSeq (mCurrentHeader (sDelta s)) <> 0 ->
  ES.touch e s = Ret (touched (mCurrentHeader (sDelta s)) (mUpdateLastModified (sDelta s)) e) s.
Proof.
  intros Hs. unfold ES.touch, touched, get, mbind, M_bind. destruct (mUpdateLastModified _); [|done].
  by rewrite (proj2 (Z.eqb_neq _ _) Hs).
Qed.

Lemma touched_key h flag e : getLedgerKey (touched h flag e) = getLedgerKey e.
Proof. unfold touched. destruct flag; [apply setLastModified_key|done]. Qed.

Lemma storeUpdate_spec L s insert e : storeOk L s -> headerSeq (mCurrentHeader (sDelta s)) <> 0 ->
  let e' := touched (mCurrentHeader (sDelta s)) (mUpdateLastModified (sDelta s)) e in
  if isValid e' && Bool.eqb insert (LD.isNone (rowsFind (sRows s) (getLedgerKey e)))
  then exists s', ES.storeUpdateHelper insert e s = Ret tt s' /\ stored L s (getLedgerKey e) (Some e') s'
  else exists x s', ES.storeUpdateHelper insert e s = Throw x s'.
Proof.
  intros Hok Hs e'. pose proof (storeTouched_spec L s insert e' Hok) as Ht. unfold canStore in Ht.
  assert (getLedgerKey e' = getLedgerKey e) as Hk by apply touched_key. rewrite Hk in Ht.
  unfold ES.storeUpdateHelper, mbind, M_bind. rewrite touch_ret by done. fold e'. unfold LD.isNone.
  destruct (_ && _); [done|]. destruct Ht as (x & s' & Ht & _). eauto.
Qed.

Lemma mapCalls_ext touch cs V V' : (forall k, V k = V' k) ->
  match mapCalls touch cs V, mapCalls touch cs V' with
  | Some (vs, W), Some (vs', W') => vs = vs' /\ forall k, W k = W' k
  | None, None => True
  | _, _ => False
  end.
Proof.
  revert V V'. induction cs as [|[k|e|e|k] cs IH]; intros V V' He; cbn [mapCalls]; [done|..].
  - specialize (IH V V' He). destruct (mapCalls touch cs V) as [[]|], (mapCalls touch cs V') as [[]|]; try done.
    cbn. destruct IH as [-> ?]. by rewrite He.
  - rewrite He. destruct (_ && _); [|done]. apply IH. intros k. unfold update. by rewrite He.
  - rewrite He. destruct (_ && _); [|done]. apply IH. intros k. unfold update. by rewrite He.
  - destruct (deletion k); [|by apply IH|done]. apply IH. intros k'. unfold update. by rewrite He.
Qed.

Lemma deletesExisting_ext touch cs V V' : (forall k, V k = V' k) ->
  deletesExisting touch cs V -> deletesExisting touch cs V'.
Proof.
  revert V V'. induction cs as [|[k|e|e|k] cs IH]; intros V V' He; cbn [deletesExisting]; [done|..].
  - by apply IH.
  - apply IH. intros k. unfold update. by rewrite He.
  - apply IH. intros k. unfold update. by rewrite He.
  - destruct (deletion k); [|by apply IH|done]. rewrite He. intros [? Hd]. split; [done|]. eapply IH; [|exact Hd]. intros k'. unfold update. by rewrite He.
Qed.

Definition refines (touch : Entry -> Entry) (cs : list StoreCall) L s : Prop :=
  match mapCalls touch cs (rowsFind (sRows s)) with
  | Some (vs, V) => exists s', runCalls cs s = Ret vs s' /\ storeOk L s' /\ forall k, rowsFind (sRows s') k = V k
  | None => exists x s', runCalls cs s = Throw x s'
  end.

(** A call that changes the map at a key, before the others. *)
Lemma refines_stored touch cs L s k v s' (m : M St unit) c : m s = Ret tt s' -> stored L s k v s' ->
  refines touch cs L s' -> runCalls (c :: cs) s = (m;; runCalls cs) s ->
  mapCalls touch (c :: cs) (rowsFind (sRows s)) = mapCalls touch cs (update k v (rowsFind (sRows s))) ->
  refines touch (c :: cs) L s.
Proof.
  intros Hm (_ & _ & Hr) Hc Hrun Hmap. unfold refines in *. rewrite Hrun, Hmap. unfold mbind, M_bind. rewrite Hm.
  pose proof (mapCalls_ext touch cs _ _ Hr) as Hx.
  destruct (mapCalls touch cs (rowsFind (sRows s'))) as [[vs V]|], (mapCalls touch cs (update k v _)) as [[vs' V']|]; try done.
  destruct Hx as [-> Hx], Hc as (s2 & H1 & H2 & H3). exists s2. split; [done|]. split; [done|]. intros k'. by rewrite H3.
Qed.

(** An addition or a change, before the other calls. *)
Lemma refines_update touch cs L s (insert : bool) e c : storeOk L s -> headerSeq (mCurrentHeader (sDelta s)) <> 0 ->
  touch = touched (mCurrentHeader (sDelta s)) (mUpdateLastModified (sDelta s)) ->
  runCalls (c :: cs) s = (ES.storeUpdateHelper insert e;; runCalls cs) s ->
  mapCalls touch (c :: cs) (rowsFind (sRows s)) =
    (if isValid (touch e) && Bool.eqb insert (LD.isNone (rowsFind (sRows s) (getLedgerKey e)))
     then mapCalls touch cs (update (getLedgerKey e) (Some (touch e)) (rowsFind (sRows s))) else None) ->
  (forall s', stored L s (getLedgerKey e) (Some (touch e)) s' -> refines touch cs L s') ->
  refines touch (c :: cs) L s.
Proof.
  intros Hok Hs -> Hrun Hmap Hrest. pose proof (storeUpdate_spec L s insert e Hok Hs) as Hu. cbn zeta in Hu.
  destruct (_ && _).
  - destruct Hu as (s' & Hr & Hst). eapply refines_stored; [exact Hr|exact Hst|by apply Hrest|exact Hrun|exact Hmap].
  - destruct Hu as (x & s' & Hr). unfold refines. rewrite Hmap, Hrun. unfold mbind, M_bind. rewrite Hr. by do 2 eexists.
Qed.

Lemma runCalls_refines cs L s h flag : storeOk L s -> mCurrentHeader (sDelta s) = h ->
  mUpdateLastModified (sDelta s) = flag -> headerSeq h <> 0 -> deletesExisting (touched h flag) cs (rowsFind (sRows s)) ->
  refines (touched h flag) cs L s.
Proof.
  revert s. induction cs as [|c cs IH]; intros s Hok Hh Hf Hs Hd; [exists s; by split|].
  assert (forall k v s', stored L s k v s' -> deletesExisting (touched h flag) cs (update k v (rowsFind (sRows s))) ->
    refines (touched h flag) cs L s') as Hnext.
  { intros k v s' (Hok' & (_ & H1 & H2) & Hrow) Hd'. apply IH; [done|congruence|congruence|done|].
    eapply deletesExisting_ext; [|exact Hd']. intros k'. by rewrite Hrow. }
  destruct c as [k|e|e|k]; cbn [deletesExisting] in Hd.
  - destruct (storeLoad_row max_size L s k Hok) as (c & Hl & Hc). specialize (IH _ Hc Hh Hf Hs Hd).
    unfold refines in *. cbn [runCalls mapCalls]. unfold mbind, M_bind, option_bind. rewrite Hl. cbn [ES.setCache sRows] in IH.
    destruct (mapCalls _ cs _) as [[vs V]|]; cbn.
    + destruct IH as (s' & -> & ? & ?). by eexists.
    + destruct IH as (x & s' & ->). by do 2 eexists.
  - apply (refines_update _ cs L s true e); [done|by rewrite Hh|by rewrite Hh, Hf|done|cbn [mapCalls]; by destruct (LD.isNone _)|].
    intros s' Hst. by eapply Hnext.
  - apply (refines_update _ cs L s false e); [done|by rewrite Hh|by rewrite Hh, Hf|done|cbn [mapCalls]; by destruct (LD.isNone _)|].
    intros s' Hst. by eapply Hnext.
  - destruct (deletion k) as [| |msg] eqn:Hdel.
    + destruct Hd as [Hk Hd]. destruct (storeDelete_spec k L s Hdel Hok Hk) as (s' & Hr & Hst).
      eapply refines_stored; [exact Hr|exact Hst|by eapply Hnext|done|cbn [mapCalls]; by rewrite Hdel].
    + specialize (IH s Hok Hh Hf Hs Hd). unfold refines in *. cbn [runCalls mapCalls]. unfold ES.storeDelete. by rewrite Hdel.
    + unfold refines. cbn [runCalls mapCalls]. unfold ES.storeDelete. rewrite Hdel. by do 2 eexists.
Qed.

End StoreRefinement.
