(* ===== verification/Signatures.v ===== *)
(** * Signature checks ([transactions/SignatureValidator.cpp],
      [transactions/SourceDetails.h], [ledger/AccountFrame.cpp])

    A transaction carries decorated signatures; every operation, and the
    transaction itself, requires signers of the source account whose weights
    reach a threshold.  [SV] is the class [SignatureValidator]: its state is
    [mUsedSignatures].  A public key is the list of its bytes; verifying a
    signature is a parameter (libsodium), and so is the union of all signer
    types (an enumeration of the protocol files). *)

From S2P Require Import Prelude.

Definition PublicKey : Type := list Z.

Inductive AccountType := MASTER | COMMISSION | OPERATIONAL | GENERAL | NOT_VERIFIED | SYNDICATE | EXCHANGE.

Global Instance AccountType_eq_dec : EqDecision AccountType.
Proof. solve_decision. Defined.

Definition getSystemAccountTypes : list AccountType := [MASTER; COMMISSION; OPERATIONAL].

Definition isSystemAccountType (t : AccountType) : bool :=
  existsb (fun s => bool_decide (t = s)) getSystemAccountTypes.

Definition getAllAccountTypes : list AccountType :=
  [MASTER; COMMISSION; OPERATIONAL; GENERAL; NOT_VERIFIED; SYNDICATE; EXCHANGE].

Record Signer := {
  pubKey : PublicKey;
  weight : Z;
  signerType : Z;
  identity : Z;
}.

Record AccountEntry := {
  accountID : PublicKey;
  recoveryID : PublicKey;
  accountType : AccountType;
  masterWeight : Z;       (** [thresholds[0]] *)
  lowThreshold : Z;
  mediumThreshold : Z;
  highThreshold : Z;
  blockReasons : Z;
  signers : list Signer;
}.

Record SourceDetails := {
  mAllowedSourceAccountTypes : list AccountType;
  mNeeededTheshold : Z;
  mNeededSignedClass : Z;
  mAllowedBlockedReasons : Z;
}.

Record DecoratedSignature {Sig : Type} := { hint : list Z; signature : Sig }.
Arguments DecoratedSignature : clear implicits.

(** [PubKeyUtils::hasHint]: the hint is the end of the key. *)
Definition hasHint (pk : PublicKey) (h : list Z) : bool :=
  bool_decide (drop (length pk - length h) pk = h).

Module SV.
Inductive Result := NOT_ENOUGH_WEIGHT | INVALID_ACCOUNT_TYPE | ACCOUNT_BLOCKED | SUCCESS | INVALID_SIGNER_TYPE | EXTRA.

Section SV.
Context {Sig : Type} (verifySig : PublicKey -> Sig -> bool) (anySignerType : Z).
Implicit Types (sig : DecoratedSignature Sig) (mUsedSignatures : list bool).

Definition checkAllSignaturesUsed mUsedSignatures : bool := forallb (fun b => b) mUsedSignatures.

Definition resetSignatureTracker (mSignatures : list (DecoratedSignature Sig)) : list bool :=
  map (fun _ => false) mSignatures.

Definition isAccountTypeAllowed (account : AccountEntry) (allowed : list AccountType) : bool :=
  existsb (fun t => bool_decide (t = accountType account)) allowed.

Definition isSignatureValid (pk : PublicKey) sig : bool := hasHint pk (hint sig) && verifySig pk (signature sig).

(** The signers of an account that is not under the master account. *)
Definition ownSigners (account : AccountEntry) : list Signer :=
  (if masterWeight account =? 0 then []
   else [{| pubKey := accountID account; weight := masterWeight account; signerType := anySignerType; identity := 0 |}]) ++
  (if bool_decide (accountType account = MASTER) then []
   else [{| pubKey := recoveryID account; weight := 255; signerType := anySignerType; identity := 0 |}]) ++
  signers account.

(** System accounts use the signers of the master account, which the program
    looks up again in the same way; [loadMaster] is that lookup, [fuel] the
    number of lookups. *)
Fixpoint getSigners {S} (fuel : nat) (loadMaster : M S (option AccountEntry)) (account : AccountEntry) : M S (list Signer) :=
  if negb (bool_decide (accountType account = MASTER)) && isSystemAccountType (accountType account) then
    match fuel with
    | O => throw OutOfFuel
    | Datatypes.S fuel' =>
        master ← loadMaster;
        match master with
        | Some m => getSigners fuel' loadMaster m
        | None => throw Aborted
        end
    end
  else mret (ownSigners account).

(** [check(keys, signaturesRequired)] *)
Fixpoint checkKeysLoop (keys : list PublicKey) (pairs : list (DecoratedSignature Sig * PublicKey)) (signaturesRequired : Z) : Result :=
  match pairs with
  | [] => NOT_ENOUGH_WEIGHT
  | (sig, k) :: r =>
      if isSignatureValid k sig then
        let n := i32 (signaturesRequired - 1) in
        if n =? 0 then SUCCESS else checkKeysLoop keys r n
      else checkKeysLoop keys r signaturesRequired
  end.
Definition checkKeys (mSignatures : list (DecoratedSignature Sig)) (keys : list PublicKey) (signaturesRequired : Z) : Result :=
  checkKeysLoop keys (concat (map (fun sig => map (fun k => (sig, k)) keys) mSignatures)) signaturesRequired.

(** The loop over the signers, for one signature: the signer it counts for. *)
Definition findSigner (signers : list Signer) (usedIdentities : list Z) sig : option Signer :=
  List.find (fun s => isSignatureValid (pubKey s) sig && negb (existsb (Z.eqb (identity s)) usedIdentities)) signers.

(** The loop over the signatures, with the flags of the ones still to come;
    [None] when it ends without a verdict. *)
Fixpoint checkLoop (signers : list Signer) (details : SourceDetails) (sigs : list (DecoratedSignature Sig))
    mUsedSignatures (usedIdentities : list Z) (totalWeight : Z) : option Result * list bool :=
  match sigs, mUsedSignatures with
  | sig :: sigs', used :: rest =>
      match findSigner signers usedIdentities sig with
      | None =>
          let '(r, rest') := checkLoop signers details sigs' rest usedIdentities totalWeight in (r, used :: rest')
      | Some s =>
          if Z.land (signerType s) (mNeededSignedClass details) =? 0 then (Some INVALID_SIGNER_TYPE, used :: rest) else
          let totalWeight' := i32 (totalWeight + weight s) in
          if totalWeight' >=? mNeeededTheshold details then (Some SUCCESS, true :: rest) else
          let '(r, rest') := checkLoop signers details sigs' rest (identity s :: usedIdentities) totalWeight' in
          (r, true :: rest')
      end
  | _, _ => (None, mUsedSignatures)
  end.

Definition checkSignature (signers : list Signer) (mSignatures : list (DecoratedSignature Sig)) mUsedSignatures
    (details : SourceDetails) : Result * list bool :=
  match checkLoop signers details mSignatures mUsedSignatures [] 0 with
  | (Some r, used) => (r, used)
  | (None, used) => (if checkAllSignaturesUsed used then NOT_ENOUGH_WEIGHT else EXTRA, used)
  end.

(** [check(app, db, account, sourceDetails)] *)
Definition check {S} (fuel : nat) (loadMaster : M S (option AccountEntry)) (mSignatures : list (DecoratedSignature Sig))
    mUsedSignatures (account : AccountEntry) (details : SourceDetails) : M S (Result * list bool) :=
  if negb (Z.lor (blockReasons account) (mAllowedBlockedReasons details) =? mAllowedBlockedReasons details)
  then mret (ACCOUNT_BLOCKED, mUsedSignatures)
  else if negb (isAccountTypeAllowed account (mAllowedSourceAccountTypes details))
  then mret (INVALID_ACCOUNT_TYPE, mUsedSignatures)
  else
    signers ← getSigners fuel loadMaster account;
    mret (checkSignature signers mSignatures mUsedSignatures details).

End SV.
End SV.

(** * Lemmas on signature checks *)

Section SignatureFacts.
Context {Sig : Type} (verifySig : PublicKey -> Sig -> bool).
Local Abbreviation DSig := (DecoratedSignature Sig).
Implicit Types (sig : DSig) (s : Signer) (used : list bool) (signers : list Signer) (details : SourceDetails).

(** The weight of signers, without the 32 bits of the counter. *)
Definition totalOf (ss : list Signer) : Z := fold_right (fun s w => weight s + w) 0 ss.

(** Weights as the protocol bounds them: twenty of them do not overflow. *)
Definition smallWeights (signers : list Signer) : Prop := Forall (fun s => 0 <= weight s <= 100000000) signers.

Definition counts details s : Prop := Z.land (signerType s) (mNeededSignedClass details) <> 0.

(** Signatures with the signers they count for. *)
Record approvedBy signers details (sigs : list DSig) (chosen : list (DSig * Signer)) : Prop := {
  ab_sigs : chosen.*1 `sublist_of` sigs;
  ab_valid : Forall (fun p => SV.isSignatureValid verifySig (pubKey p.2) p.1 = true /\ p.2 ∈ signers /\
                              counts details p.2) chosen;
  ab_distinct : NoDup (map identity (chosen.*2));
}.

Lemma findSigner_some signers ids sig s : SV.findSigner verifySig signers ids sig = Some s ->
  s ∈ signers /\ SV.isSignatureValid verifySig (pubKey s) sig = true /\ identity s ∉ ids.
Proof.
  intros [Hin Hb]%List.find_some. apply andb_true_iff in Hb as [Hv Hi].
  split; [by apply list_elem_of_In|]. split; [done|]. intros Hid. apply negb_true_iff in Hi.
  assert (existsb (Z.eqb (identity s)) ids = true); [|congruence].
  apply existsb_exists. exists (identity s). split; [by apply list_elem_of_In|apply Z.eqb_refl].
Qed.

Lemma step_small total w n : 0 <= total <= 100000000 * n -> 0 <= w <= 100000000 -> 0 <= n < 20 ->
  i32 (total + w) = total + w /\ 0 <= total + w <= 100000000 * (n + 1).
Proof. intros. split; [apply i32_small; lia|lia]. Qed.

Lemma checkLoop_sound signers details sigs used ids total used' : smallWeights signers ->
  (length sigs <= 20)%nat -> 0 <= total <= 100000000 * (20 - Z.of_nat (length sigs)) ->
  SV.checkLoop verifySig signers details sigs used ids total = (Some SV.SUCCESS, used') ->
  exists chosen, approvedBy signers details sigs chosen /\ Forall (fun i => i ∉ ids) (map identity (chosen.*2)) /\
    mNeeededTheshold details <= total + totalOf (chosen.*2).
Proof.
  intros Hw. revert used ids total used'.
  induction sigs as [|sig sigs IH]; intros used ids total used' Hlen Ht; cbn [SV.checkLoop]; [by destruct used|].
  cbn [length] in *. destruct used as [|u used]; [done|].
  destruct (SV.findSigner verifySig signers ids sig) as [s|] eqn:Ef.
  - apply findSigner_some in Ef as (Hs & Hv & Hi).
    assert (0 <= weight s <= 100000000) as Hws by (eapply Forall_forall in Hw; done).
    destruct (step_small total (weight s) (20 - Z.of_nat (S (length sigs)))) as [-> Hb]; [lia|lia|lia|].
    destruct (Z.land (signerType s) (mNeededSignedClass details) =? 0) eqn:Ec; [done|]. apply Z.eqb_neq in Ec.
    destruct (total + weight s >=? mNeeededTheshold details) eqn:Et; [intros _|].
    + exists [(sig, s)]. split; [|cbn; split; [by repeat constructor|zify_bool; lia]].
      split; cbn; [by apply sublist_skip, sublist_nil_l|by repeat constructor|by repeat constructor; set_solver].
    + destruct (SV.checkLoop _ _ _ sigs used _ _) as [r rest] eqn:El. intros [= -> <-].
      apply IH in El as (chosen & [H1 H2 H3] & Hni & Hsum); [|lia|lia].
      exists ((sig, s) :: chosen). split; [split; cbn|split; cbn].
      * by apply sublist_skip.
      * by constructor.
      * constructor; [|done]. intros Hin. eapply Forall_forall in Hni; [|exact Hin]. set_solver.
      * constructor; [done|]. eapply Forall_impl; [exact Hni|]. cbn beta. set_solver.
      * unfold totalOf in *. lia.
  - destruct (SV.checkLoop _ _ _ sigs used _ _) as [r rest] eqn:El. intros [= -> <-].
    apply IH in El as (chosen & [H1 H2 H3] & Hni & Hsum); [|lia|lia].
    exists chosen. split; [|done]. split; [by apply sublist_cons|done|done].
Qed.

Lemma checkSignature_sound signers details sigs used used' : smallWeights signers -> (length sigs <= 20)%nat ->
  SV.checkSignature verifySig signers sigs used details = (SV.SUCCESS, used') ->
  exists chosen, approvedBy signers details sigs chosen /\ mNeeededTheshold details <= totalOf (chosen.*2).
Proof.
  intros Hw Hlen. unfold SV.checkSignature.
  destruct (SV.checkLoop verifySig signers details sigs used [] 0) as [[r|] u] eqn:El; [|by destruct (SV.checkAllSignaturesUsed u)].
  intros [= -> ->]. apply checkLoop_sound in El as (chosen & Ha & _ & Hs); [by exists chosen|done|done|lia].
Qed.

(** Every signature is that of the signer at its place, and of no other. *)
Definition signedBy signers (sigs : list DSig) (ss : list Signer) : Prop :=
  Forall2 (fun sig s => s ∈ signers /\ SV.isSignatureValid verifySig (pubKey s) sig = true /\
             forall s', s' ∈ signers -> SV.isSignatureValid verifySig (pubKey s') sig = true -> s' = s) sigs ss.

Lemma findSigner_unique signers ids sig s : s ∈ signers -> SV.isSignatureValid verifySig (pubKey s) sig = true ->
  (forall s', s' ∈ signers -> SV.isSignatureValid verifySig (pubKey s') sig = true -> s' = s) -> identity s ∉ ids ->
  SV.findSigner verifySig signers ids sig = Some s.
Proof.
  intros Hin Hv Hu Hid. destruct (SV.findSigner verifySig signers ids sig) as [s'|] eqn:Ef.
  - apply findSigner_some in Ef as (H1 & H2 & _). by rewrite (Hu s' H1 H2).
  - exfalso. eapply List.find_none in Ef; [|by apply list_elem_of_In]. cbn in Ef. rewrite Hv in Ef. cbn in Ef.
    apply negb_false_iff, existsb_exists in Ef as (i & Hi & E%Z.eqb_eq). subst i. by apply Hid, list_elem_of_In.
Qed.

Lemma checkLoop_complete signers details sigs ss used ids total : smallWeights signers ->
  (length sigs <= 20)%nat -> 0 <= total <= 100000000 * (20 - Z.of_nat (length sigs)) -> length used = length sigs ->
  signedBy signers sigs ss -> Forall (counts details) ss -> NoDup (map identity ss) ->
  Forall (fun i => i ∉ ids) (map identity ss) -> ss <> [] -> mNeeededTheshold details <= total + totalOf ss ->
  exists used', SV.checkLoop verifySig signers details sigs used ids total = (Some SV.SUCCESS, used').
Proof.
  intros Hw Hlen Ht Hu Hs. revert used ids total Hlen Ht Hu.
  induction Hs as [|sig s sigs ss (Hin & Hv & Huniq) Hs IH]; intros used ids total Hlen Ht Hu Hc Hnd Hni Hne Hth; [done|].
  destruct used as [|u used]; [done|]. cbn [length map SV.checkLoop] in *. apply Forall_cons in Hc as [Hc Hcs].
  apply Forall_cons in Hni as [Hni Hnis]. apply NoDup_cons in Hnd as [Hd Hnd].
  rewrite (findSigner_unique signers ids sig s) by done. rewrite (proj2 (Z.eqb_neq _ _) Hc).
  assert (0 <= weight s <= 100000000) as Hws by (eapply Forall_forall in Hw; done).
  destruct (step_small total (weight s) (20 - Z.of_nat (S (length sigs)))) as [-> Hb]; [lia|lia|lia|].
  destruct (total + weight s >=? mNeeededTheshold details) eqn:Et; [by eexists|].
  destruct ss as [|s2 ss]; [cbn in Hth; zify_bool; lia|].
  destruct (IH used (identity s :: ids) (total + weight s)) as (used' & ->); try done; try lia.
  - apply Forall_forall. intros i Hi. apply not_elem_of_cons. split; [by intros ->|].
    eapply Forall_forall in Hnis; done.
  - unfold totalOf in *. cbn [fold_right] in *. lia.
  - by eexists.
Qed.

Lemma checkSignature_complete signers details sigs ss used : smallWeights signers -> (length sigs <= 20)%nat ->
  length used = length sigs -> signedBy signers sigs ss -> Forall (counts details) ss -> NoDup (map identity ss) ->
  ss <> [] -> mNeeededTheshold details <= totalOf ss ->
  exists used', SV.checkSignature verifySig signers sigs used details = (SV.SUCCESS, used').
Proof.
  intros. unfold SV.checkSignature.
  destruct (checkLoop_complete signers details sigs ss used [] 0) as (used' & ->); try done; try lia.
  - apply Forall_forall. set_solver.
  - by eexists.
Qed.

End SignatureFacts.
