(* ===== verification/Transaction.v ===== *)
(** * Transactions and operations ([transactions/TransactionFrame.cpp],
      [transactions/OperationFrame.cpp])

    A transaction is a list of operations with a source account, time bounds
    and signatures.  It is applied in a SQL transaction and a nested delta
    that are dropped when one of its operations fails.  What distinguishes
    the kinds of operations are virtual methods; [OperationFrame] is the
    record of them.

    [TxState] is what a [TransactionFrame] keeps between calls, with the store
    it works on.  The meta data of a transaction (the lists of changes) is
    the value of [applyTx]. *)

From S2P Require Import Prelude OrdContainers LedgerDelta EntryStore Signatures.

Inductive TransactionResultCode :=
| txSUCCESS | txFAILED | txTOO_EARLY | txTOO_LATE | txMISSING_OPERATION | txBAD_AUTH | txNO_ACCOUNT
| txBAD_AUTH_EXTRA | txINTERNAL_ERROR | txACCOUNT_BLOCKED | txDUPLICATION.

Inductive OperationResultCode :=
| opINNER | opBAD_AUTH | opNO_ACCOUNT | opNOT_ALLOWED | opACCOUNT_BLOCKED | opNO_COUNTERPARTY
| opCOUNTERPARTY_BLOCKED | opCOUNTERPARTY_WRONG_TYPE | opBAD_AUTH_EXTRA.

Record CounterpartyDetails := {
  mAllowedAccountTypes : list AccountType;
  mIsBlockedAllowed : bool;
  mIsMustExists : bool;
}.

(** What a transaction reads from the ledger manager and the application. *)
Record LedgerInfo := {
  liCloseTime : Z;
  liTxExpirationPeriod : Z;
  liLedgerVersion : Z;
  liMasterID : PublicKey;
}.

(** [AccountFrame::isBlocked] *)
Definition isBlocked (a : AccountEntry) : bool := blockReasons a >? 0.

(** [AccountFrame::makeAuthOnlyAccount]: the fields the constructor does not
    set are the zeros of the protocol structure. *)
Definition makeAuthOnlyAccount (zeroKey : PublicKey) (zeroType : AccountType) (id : PublicKey) : AccountEntry :=
  {| accountID := id; recoveryID := zeroKey; accountType := zeroType; masterWeight := 1; lowThreshold := 0;
     mediumThreshold := 0; highThreshold := 0; blockReasons := 0; signers := [] |}.

(** The virtual methods of an operation, on the store.  [doApply] may change
    the frame of the source account, which the operations share. *)
Record OperationFrame {St : Type} := {
  sourceAccount : option PublicKey;
  isAllowed : bool;
  getCounterpartyDetails : bool -> M St (list (PublicKey * CounterpartyDetails));
  getSourceAccountDetails : AccountEntry -> list (PublicKey * CounterpartyDetails) -> Z -> SourceDetails;
  doCheckValid : M St bool;
  doApply : AccountEntry -> M St (bool * AccountEntry);
}.
Arguments OperationFrame : clear implicits.

Record Envelope {Sig St : Type} := {
  txSourceAccount : PublicKey;
  salt : Z;
  minTime : Z;
  maxTime : Z;
  operations : list (OperationFrame St);
  signatures : list (DecoratedSignature Sig);
  contentsHash : list Z;       (** [getContentsHash()] *)
  fullHash : list Z;           (** [getFullHash()] *)
  paidFee : Z;                 (** [getPaidFee()] *)
}.
Arguments Envelope : clear implicits.

Record TxState {St : Type} := {
  tStore : St;
  mUsedSignatures : list bool;
  mSigningAccount : option AccountEntry;
  mResultCode : TransactionResultCode;
  mOpResults : list OperationResultCode;
}.
Arguments TxState : clear implicits.

Module TF.
Section TF.
Context {Key Entry Header : Type} `{Ord Key} `{EqDecision Header} `{EqDecision Entry}.
Context {helper : EntryHelper Key Entry Header} (max_size : nat).
Context {Sig : Type} (verifySig : PublicKey -> Sig -> bool) (anySignerType READER : Z) (anyBlockReason : Z).
Context (accountKey : PublicKey -> Key) (asAccount : Entry -> option AccountEntry).
Context (zeroKey : PublicKey) (zeroType : AccountType).
Local Abbreviation St := (Store Key Entry Header).
Local Abbreviation Tx := (TxState St).
Local Abbreviation Env := (Envelope Sig St).
Implicit Types (env : Env) (info : LedgerInfo) (t : Tx).

(** ** State *)

Definition setStore t s : Tx :=
  {| tStore := s; mUsedSignatures := mUsedSignatures t; mSigningAccount := mSigningAccount t;
     mResultCode := mResultCode t; mOpResults := mOpResults t |}.
Definition setUsed u t : Tx :=
  {| tStore := tStore t; mUsedSignatures := u; mSigningAccount := mSigningAccount t;
     mResultCode := mResultCode t; mOpResults := mOpResults t |}.
Definition setSigning a t : Tx :=
  {| tStore := tStore t; mUsedSignatures := mUsedSignatures t; mSigningAccount := a;
     mResultCode := mResultCode t; mOpResults := mOpResults t |}.
Definition setCode c t : Tx :=
  {| tStore := tStore t; mUsedSignatures := mUsedSignatures t; mSigningAccount := mSigningAccount t;
     mResultCode := c; mOpResults := mOpResults t |}.
Definition setOpResults rs t : Tx :=
  {| tStore := tStore t; mUsedSignatures := mUsedSignatures t; mSigningAccount := mSigningAccount t;
     mResultCode := mResultCode t; mOpResults := rs |}.

Definition onStore {A} (m : M St A) : M Tx A := fun t =>
  match m (tStore t) with
  | Ret a s => Ret a (setStore t s)
  | Throw x s => Throw x (setStore t s)
  end.

Definition fail {A} (c : TransactionResultCode) (a : A) : M Tx A := modify (setCode c);; mret a.

(** The result of the [i]-th operation. *)
Definition setOpResult (i : nat) (c : OperationResultCode) : M Tx unit :=
  modify (fun t => setOpResults (<[i := c]> (mOpResults t)) t).

Definition opFail (i : nat) (c : OperationResultCode) : M Tx bool := setOpResult i c;; mret false.

(** ** Accounts *)

(** [AccountHelper::loadAccount], recorded in the delta when there is one. *)
Definition helperLoadAccount (record : bool) (id : PublicKey) : M St (option AccountEntry) :=
  r ← (if record then ES.loadAndRecord max_size (accountKey id) else ES.storeLoad max_size (accountKey id));
  mret (match r with Some e => asAccount e | None => None end).

Definition loadMaster info : M Tx (option AccountEntry) := onStore (helperLoadAccount false (liMasterID info)).

(** [loadAccount(delta, db, accountID)] *)
Definition loadAccountId (hasDelta : bool) (id : PublicKey) : M Tx (option AccountEntry) :=
  t ← get;
  match mSigningAccount t with
  | Some a => if bool_decide (accountID a = id) then mret (Some a) else onStore (helperLoadAccount hasDelta id)
  | None => onStore (helperLoadAccount hasDelta id)
  end.

(** [loadAccount(delta, db)] *)
Definition loadAccount env (hasDelta : bool) : M Tx bool :=
  a ← loadAccountId hasDelta (txSourceAccount env);
  modify (setSigning a);;
  mret (match a with Some _ => true | None => false end).

(** ** Signatures *)

(** One lookup of the master account is enough: its own type is [MASTER]. *)
Definition MASTER_LOOKUPS : nat := 1.

Definition checkWith env info (account : AccountEntry) (details : SourceDetails) : M Tx SV.Result :=
  t ← get;
  r ← SV.check verifySig anySignerType MASTER_LOOKUPS (loadMaster info) (signatures env) (mUsedSignatures t) account details;
  modify (setUsed r.2);;
  mret r.1.

(** [TransactionFrame::doCheckSignature] *)
Definition doCheckSignature env info (account : AccountEntry) : M Tx bool :=
  let details := {| mAllowedSourceAccountTypes := getAllAccountTypes; mNeeededTheshold := lowThreshold account;
                    mNeededSignedClass := Z.lxor anySignerType READER; mAllowedBlockedReasons := anyBlockReason |} in
  r ← checkWith env info account details;
  match r with
  | SV.SUCCESS => mret true
  | SV.INVALID_ACCOUNT_TYPE => throw (RuntimeError "Did not expect INVALID_ACCOUNT_TYPE error for tx")
  | SV.NOT_ENOUGH_WEIGHT => fail txBAD_AUTH false
  | SV.EXTRA | SV.INVALID_SIGNER_TYPE => fail txBAD_AUTH_EXTRA false
  | SV.ACCOUNT_BLOCKED => fail txACCOUNT_BLOCKED false
  end.

Definition resetSignatureTracker env : M Tx unit :=
  modify (setSigning None);; modify (setUsed (SV.resetSignatureTracker (signatures env))).

Definition checkAllSignaturesUsed : M Tx bool :=
  t ← get;
  if SV.checkAllSignaturesUsed (mUsedSignatures t) then mret true else fail txBAD_AUTH_EXTRA false.

(** ** Validity of a transaction *)

Definition resetResults env : M Tx unit :=
  modify (fun t => setOpResults (map (fun _ => opINNER) (operations env)) (setCode txSUCCESS t)).

Definition commonValid env info (hasDelta : bool) : M Tx bool :=
  if (length (operations env) =? 0)%nat then fail txMISSING_OPERATION false else
  if minTime env >? liCloseTime info then fail txTOO_EARLY false else
  if (maxTime env <? liCloseTime info) || (u64 (maxTime env - liCloseTime info) >? liTxExpirationPeriod info)
  then fail txTOO_LATE false else
  loaded ← loadAccount env hasDelta;
  if negb loaded then fail txNO_ACCOUNT false else
  t ← get;
  account ← deref (mSigningAccount t);
  doCheckSignature env info account.

(** ** Operations *)

(** [OperationFrame::doCheckSignature] *)
Definition opCheckSignature env info (i : nat) (account : AccountEntry) (details : SourceDetails) : M Tx bool :=
  r ← checkWith env info account details;
  match r with
  | SV.SUCCESS => mret true
  | SV.INVALID_ACCOUNT_TYPE => opFail i opNOT_ALLOWED
  | SV.NOT_ENOUGH_WEIGHT => opFail i opBAD_AUTH
  | SV.INVALID_SIGNER_TYPE => opFail i opNOT_ALLOWED
  | SV.ACCOUNT_BLOCKED => opFail i opACCOUNT_BLOCKED
  | SV.EXTRA => opFail i opBAD_AUTH_EXTRA
  end.

Fixpoint checkCounterparties (i : nat) (counterparties : list (PublicKey * CounterpartyDetails)) : M Tx bool :=
  match counterparties with
  | [] => mret true
  | (id, d) :: r =>
      a ← onStore (helperLoadAccount false id);
      match a with
      | None => if negb (mIsMustExists d) then checkCounterparties i r else opFail i opNO_COUNTERPARTY
      | Some a =>
          if negb (mIsBlockedAllowed d) && isBlocked a then opFail i opCOUNTERPARTY_BLOCKED else
          if negb (existsb (fun ty => bool_decide (ty = accountType a)) (mAllowedAccountTypes d))
          then opFail i opCOUNTERPARTY_WRONG_TYPE
          else checkCounterparties i r
      end
  end.

Definition getSourceID env (op : OperationFrame St) : PublicKey :=
  match sourceAccount op with Some id => id | None => txSourceAccount env end.

(** The source account of the operation; [None] after a failure. *)
Definition opLoadAccount env (i : nat) (op : OperationFrame St) (forApply : bool) : M Tx (option AccountEntry) :=
  a ← loadAccountId forApply (getSourceID env op);
  match a, sourceAccount op with
  | Some a, _ => mret (Some a)
  | None, Some id =>
      if forApply then setOpResult i opNO_ACCOUNT;; mret None
      else mret (Some (makeAuthOnlyAccount zeroKey zeroType id))
  | None, None => setOpResult i opNO_ACCOUNT;; mret None
  end.

(** [OperationFrame::checkValid(app, delta)]: the source account of a valid
    operation. *)
Definition opCheckValid env info (i : nat) (op : OperationFrame St) (forApply : bool) : M Tx (option AccountEntry) :=
  if negb (isAllowed op) then setOpResult i opNOT_ALLOWED;; mret None else
  account ← opLoadAccount env i op forApply;
  match account with
  | None => mret None
  | Some a =>
      counterparties ← onStore (getCounterpartyDetails op forApply);
      c ← checkCounterparties i counterparties;
      if negb c then mret None else
      s ← opCheckSignature env info i a (getSourceAccountDetails op a counterparties (liLedgerVersion info));
      if negb s then mret None else
      setOpResult i opINNER;;
      v ← onStore (doCheckValid op);
      mret (if (v : bool) then Some a else None)
  end.

(** [OperationFrame::apply] *)
Definition opApply env info (i : nat) (op : OperationFrame St) : M Tx bool :=
  account ← opCheckValid env info i op true;
  match account with
  | None => mret false
  | Some a =>
      r ← onStore (doApply op a);
      t ← get;
      when (match mSigningAccount t with Some s => bool_decide (accountID s = accountID a) | None => false end)
        (modify (setSigning (Some r.2)));;
      mret r.1
  end.

(** ** A transaction *)

Fixpoint checkOps env info (i : nat) (ops : list (OperationFrame St)) : M Tx bool :=
  match ops with
  | [] => mret true
  | op :: r =>
      v ← opCheckValid env info i op false;
      match v with
      | Some _ => checkOps env info (S i) r
      | None => fail txFAILED false
      end
  end.

(** [checkValid(app)]; [timingExists] is the query of the table of applied
    transactions. *)
Definition checkValid env info (timingExists : list Z -> bool) : M Tx bool :=
  resetSignatureTracker env;;
  resetResults env;;
  v ← commonValid env info false;
  if negb v then mret false else
  o ← checkOps env info 0 (operations env);
  if negb o then mret false else
  u ← checkAllSignaturesUsed;
  if negb u then mret false else
  if timingExists (contentsHash env) then fail txDUPLICATION false else mret true.

Definition enterNested t : Tx := setStore t (ES.setDelta (tStore t) (LD.nestedDelta (sDelta (tStore t)))).

(** The block of [opDelta], a nested delta that is always committed. *)
Definition withOpDelta {A} (m : M Tx A) : M Tx A := fun t =>
  let outer := sDelta (tStore t) in
  match m (enterNested t) with
  | Ret a t' => (onStore (ES.commitInto outer);; mret a) t'
  | Throw x t' => Throw x (setStore t' (ES.dropNested outer (tStore t')))
  end.

Fixpoint applyOps env info (i : nat) (ops : list (OperationFrame St)) : M Tx bool :=
  match ops with
  | [] => mret true
  | op :: r =>
      a ← withOpDelta (opApply env info i op);
      b ← applyOps env info (S i) r;
      mret (a && b)
  end.

(** The block with [sqlTx] and [thisTxDelta].  [body] says whether they are
    committed, the SQL transaction first; otherwise the destructors roll the
    delta back and restore the rows. *)
Definition withTransaction {A} (body : M Tx (bool * A)) : M Tx A := fun t =>
  let outer := sDelta (tStore t) in
  let dropped (t' : Tx) : Tx := setStore t' (ES.setRows (ES.dropNested outer (tStore t')) (sRows (tStore t))) in
  match body (enterNested t) with
  | Ret (true, a) t' => (onStore (ES.commitInto outer);; mret a) t'
  | Ret (false, a) t' => Ret a (dropped t')
  | Throw x t' => Throw x (dropped t')
  end.

(** The inside of the block: whether it commits, and the result unless it
    ends with a [return false]. *)
Definition applyBody env info : M Tx (bool * option bool) :=
  ok ← applyOps env info 0 (operations env);
  if negb ok then mret (false, Some false) else
  u ← checkAllSignaturesUsed;
  if negb u then mret (false, None) else mret (true, Some true).

(** [applyTx] *)
Definition applyTx env info : M Tx bool :=
  resetSignatureTracker env;;
  v ← commonValid env info true;
  if negb v then mret false else
  r ← withTransaction (applyBody env info);
  match r with
  | None => mret false
  | Some true => mret true
  | Some false => fail txFAILED false
  end.

End TF.
End TF.
