(* ===== verification/TransactionFacts.v ===== *)
(** * Lemmas on transactions

    Every step of a transaction keeps the invariant of the store if its
    operations do, and a transaction that does not succeed leaves the
    ledger as it was. *)

From S2P Require Import Prelude OrdContainers LedgerDelta LedgerDeltaFacts EntryStore EntryStoreFacts Signatures Transaction.

Create HintDb txsteps.

Section TransactionFacts.
Context {Key Entry Header : Type} `{Ord Key} `{EqDecision Header} `{EqDecision Entry}.
Context {helper : EntryHelper Key Entry Header} {helperOk : EntryHelperOk helper} (max_size : nat).
Context {Sig : Type} (verifySig : PublicKey -> Sig -> bool) (anySignerType READER : Z) (anyBlockReason : Z).
Context (accountKey : PublicKey -> Key) (asAccount : Entry -> option AccountEntry).
Context (zeroKey : PublicKey) (zeroType : AccountType).
Local Abbreviation St := (Store Key Entry Header).
Local Abbreviation Tx := (TxState St).
Local Abbreviation Env := (Envelope Sig St).
Implicit Types (env : Env) (info : LedgerInfo) (t : Tx) (s : St) (L : Key -> option Entry).

(** ** Steps

    [steps Q E m]: run from a store with the invariant, [m] relates it by [Q]
    to the store it returns with, and by [E] to the store an exception leaves
    behind.  [StepRel] has what makes this closed under composition. *)

Class StepRel (Q E : (Key -> option Entry) -> St -> St -> Prop) := {
  sr_refl : forall L s, storeOk L s -> Q L s s;
  sr_ok : forall L s s', Q L s s' -> storeOk L s';
  sr_trans : forall L s1 s2 s3, Q L s1 s2 -> Q L s2 s3 -> Q L s1 s3;
  sr_transE : forall L s1 s2 s3, Q L s1 s2 -> E L s2 s3 -> E L s1 s3;
  sr_weaken : forall L s s', Q L s s' -> E L s s';
}.

(** The relation of [keeps]. *)
Definition keepsQ L (s s' : St) : Prop :=
  storeOk L s' /\ mPreviousHeaderValue (sDelta s') = mPreviousHeaderValue (sDelta s).
Definition keepsE L (s s' : St) : Prop :=
  unwound L s' /\ mPreviousHeaderValue (sDelta s') = mPreviousHeaderValue (sDelta s).

Global Instance keeps_StepRel : StepRel keepsQ keepsE.
Proof.
  split; unfold keepsQ, keepsE; intros; break; try done; (split; [done || by apply storeOk_unwound|congruence]).
Qed.

(** The relation of computations that only read: the tables and the changes
    of the delta stay the same. *)
Definition sameLedger (s s' : St) : Prop :=
  sRows s' = sRows s /\ mNew (sDelta s') = mNew (sDelta s) /\ mMod (sDelta s') = mMod (sDelta s) /\
  mDelete (sDelta s') = mDelete (sDelta s) /\ mAllChanges (sDelta s') = mAllChanges (sDelta s) /\
  mCurrentHeader (sDelta s') = mCurrentHeader (sDelta s) /\
  mPreviousHeaderValue (sDelta s') = mPreviousHeaderValue (sDelta s).
Definition readsQ L (s s' : St) : Prop := storeOk L s' /\ sameLedger s s'.

Global Instance reads_StepRel : StepRel readsQ readsQ.
Proof.
  split; unfold readsQ, sameLedger; intros; break; try done; (split; [done|]); repeat (split; [congruence|]); congruence.
Qed.

Section Steps.
Context (Q E : (Key -> option Entry) -> St -> St -> Prop) `{!StepRel Q E} {X : Type} (store : X -> St).

Definition steps {A} (m : M St A) : Prop := forall L s, storeOk L s ->
  wp m (fun _ s' => Q L s s') (fun _ s' => E L s s') s.

(** The same for a state [X] that has a store. *)
Definition stepsOn {A} (m : M X A) : Prop := forall L x, storeOk L (store x) ->
  wp m (fun _ x' => Q L (store x) (store x')) (fun _ x' => E L (store x) (store x')) x.

Lemma stepsOn_bind {A B} (m : M X A) (f : A -> M X B) :
  stepsOn m -> (forall a, stepsOn (f a)) -> stepsOn (m ≫= f).
Proof.
  intros Hm Hf L t Hok. apply wp_bind. eapply wp_mono; [exact (Hm L t Hok)| |done].
  intros a t1 H1. cbn in H1. eapply wp_mono; [exact (Hf a L t1 (sr_ok _ _ _ H1))|..]; cbn; intros.
  - eapply sr_trans; eassumption.
  - eapply sr_transE; eassumption.
Qed.

Lemma stepsOn_ret {A} (a : A) : stepsOn (mret a).
Proof. intros L t Hok. apply wp_ret. by apply sr_refl. Qed.

Lemma stepsOn_throw {A} x : stepsOn (@throw X A x).
Proof. intros L t Hok. apply wp_throw. by apply sr_weaken, sr_refl. Qed.

Lemma stepsOn_get : stepsOn (@get X).
Proof. intros L t Hok. apply wp_get. by apply sr_refl. Qed.

Lemma stepsOn_modify (f : X -> X) : (forall x, store (f x) = store x) -> stepsOn (modify f).
Proof. intros Hf L t Hok. unfold wp, modify. rewrite Hf. by apply sr_refl. Qed.

Lemma stepsOn_when b (m : M X unit) : stepsOn m -> stepsOn (when b m).
Proof. destruct b; [done|]. intros _. apply stepsOn_ret. Qed.

Lemma stepsOn_deref {A} (o : option A) : stepsOn (deref o).
Proof. destruct o; [apply stepsOn_ret|apply stepsOn_throw]. Qed.

End Steps.

Lemma txSteps_onStore Q E {A} (m : M St A) : steps Q E m -> stepsOn Q E tStore (TF.onStore m).
Proof.
  intros Hm L t Hok. specialize (Hm L (tStore t) Hok). unfold wp, TF.onStore in *.
  by destruct (m (tStore t)).
Qed.

Hint Resolve stepsOn_ret stepsOn_throw stepsOn_get txSteps_onStore stepsOn_deref stepsOn_when : txsteps.
Hint Extern 1 (stepsOn _ _ _ (modify _)) => (apply stepsOn_modify; [typeclasses eauto|done]) : txsteps.

Ltac tx_step := intros; repeat (
  match goal with
  | |- stepsOn _ _ _ (if ?b then _ else _) => destruct b
  | |- stepsOn _ _ _ (match ?o with _ => _ end) => destruct o
  | |- stepsOn _ _ _ (_ ≫= _) => apply stepsOn_bind; [typeclasses eauto| |intros]
  | |- stepsOn _ _ _ (when _ _) => apply stepsOn_when; [typeclasses eauto|]
  end); eauto 4 with txsteps typeclass_instances.

Section Checks.
Context (Q E : (Key -> option Entry) -> St -> St -> Prop) `{!StepRel Q E}.
Context (Hload : forall k, steps Q E (ES.storeLoad max_size k)).
Context (Hrecord : forall k, steps Q E (ES.loadAndRecord max_size k)).

Lemma txSteps_fail {A} c (a : A) : stepsOn Q E tStore (TF.fail c a).
Proof. unfold TF.fail. tx_step. Qed.

Lemma txSteps_setOpResult i c : stepsOn Q E tStore (TF.setOpResult i c).
Proof. unfold TF.setOpResult. tx_step. Qed.

Lemma txSteps_opFail i c : stepsOn Q E tStore (TF.opFail i c).
Proof. unfold TF.opFail. tx_step. apply txSteps_setOpResult. Qed.

Hint Resolve txSteps_fail txSteps_setOpResult txSteps_opFail : txsteps.

Lemma steps_helperLoad r id : steps Q E (TF.helperLoadAccount max_size accountKey asAccount r id).
Proof.
  intros L s Hok. unfold TF.helperLoadAccount. apply wp_bind.
  eapply wp_mono with (E := fun _ s' => E L s s') (Q := fun _ s' => Q L s s'); [|done..].
  destruct r; [by apply Hrecord|by apply Hload].
Qed.

Hint Resolve steps_helperLoad : txsteps.

Lemma txSteps_getSigners fuel (lm : M Tx (option AccountEntry)) a : stepsOn Q E tStore lm ->
  stepsOn Q E tStore (SV.getSigners anySignerType fuel lm a).
Proof.
  intros Hl. revert a. induction fuel as [|fuel IH]; intros a; cbn [SV.getSigners]; tx_step.
Qed.

Lemma txSteps_checkWith env info a d :
  stepsOn Q E tStore (TF.checkWith max_size verifySig anySignerType accountKey asAccount env info a d).
Proof.
  unfold TF.checkWith, SV.check. tx_step. apply txSteps_getSigners. unfold TF.loadMaster. tx_step.
Qed.

Hint Resolve txSteps_checkWith : txsteps.

Lemma txSteps_loadAccountId b id : stepsOn Q E tStore (TF.loadAccountId max_size accountKey asAccount b id).
Proof. unfold TF.loadAccountId. tx_step. Qed.

Hint Resolve txSteps_loadAccountId : txsteps.

Lemma txSteps_commonValid env info b : stepsOn Q E tStore
  (TF.commonValid max_size verifySig anySignerType READER anyBlockReason accountKey asAccount env info b).
Proof. unfold TF.commonValid, TF.loadAccount, TF.doCheckSignature. tx_step. Qed.

Lemma txSteps_checkCounterparties i cs :
  stepsOn Q E tStore (TF.checkCounterparties max_size accountKey asAccount i cs).
Proof. induction cs as [|[id d] cs IH]; cbn [TF.checkCounterparties]; tx_step. Qed.

Lemma txSteps_reset env : stepsOn Q E tStore (TF.resetSignatureTracker env).
Proof. unfold TF.resetSignatureTracker. tx_step. Qed.

Lemma txSteps_allUsed : stepsOn Q E tStore TF.checkAllSignaturesUsed.
Proof. unfold TF.checkAllSignaturesUsed. tx_step. Qed.

End Checks.

(** Loading is a step of both relations. *)
Lemma steps_load k : steps readsQ readsQ (ES.storeLoad max_size k).
Proof.
  intros L s Hok. unfold wp. destruct (storeLoad_row max_size L s k Hok) as (c & -> & Hc). by split.
Qed.

Lemma steps_record k : steps readsQ readsQ (ES.loadAndRecord max_size k).
Proof.
  intros L s Hok. unfold wp, ES.loadAndRecord, mbind, M_bind.
  destruct (storeLoad_row max_size L s k Hok) as (c & -> & Hc).
  destruct (rowsFind (sRows s) k) as [e|]; [|by split].
  pose proof (keeps_record e L _ Hc) as Hk. unfold keepsAt, wp in Hk. unfold ES.onDelta in *.
  unfold LD.recordEntry, LD.checkState, get, modify, mbind, M_bind, mret, M_ret in *.
  cbn [ES.setCache sDelta] in *. rewrite (ds_open _ _ _ (do_sets _ _ _ (so_delta _ _ Hok))) in *.
  destruct Hk as [Hk _]. split; [exact Hk|]. by destruct (LD.isNone _).
Qed.

Local Abbreviation txKeeps := (stepsOn keepsQ keepsE tStore).

Lemma keeps_steps {A} (m : M St A) : keeps m <-> steps keepsQ keepsE m.
Proof. done. Qed.

Hint Resolve txSteps_fail txSteps_setOpResult txSteps_opFail txSteps_checkWith txSteps_loadAccountId
  txSteps_checkCounterparties txSteps_allUsed : txsteps.
Hint Extern 1 (steps keepsQ keepsE _) =>
  (apply keeps_load || apply keeps_loadAndRecord || match goal with Hm : keeps _ |- _ => exact Hm | Hm : forall _, keeps _ |- _ => apply Hm end) : txsteps.

(** ** Operations *)

(** An operation whose virtual methods keep the invariant of the store. *)
Record opOk (op : OperationFrame St) : Prop := {
  oo_counterparties : forall b, keeps (getCounterpartyDetails op b);
  oo_check : keeps (doCheckValid op);
  oo_apply : forall a, keeps (doApply op a);
}.

Lemma txKeeps_opCheckValid env info i op b : opOk op ->
  txKeeps (TF.opCheckValid max_size verifySig anySignerType accountKey asAccount zeroKey zeroType env info i op b).
Proof.
  intros [H1 H2 H3]. unfold TF.opCheckValid, TF.opLoadAccount, TF.opCheckSignature. tx_step.
Qed.

Lemma txKeeps_opApply env info i op : opOk op ->
  txKeeps (TF.opApply max_size verifySig anySignerType accountKey asAccount zeroKey zeroType env info i op).
Proof.
  intros Hop. unfold TF.opApply. apply stepsOn_bind; [typeclasses eauto|by apply txKeeps_opCheckValid|]. destruct Hop. tx_step.
Qed.

(** ** Blocks *)

Lemma enterNested_ok L t : storeOk L (tStore t) ->
  storeOk (deltaView (sDelta (tStore t)) L) (tStore (TF.enterNested t)) /\
  mPreviousHeaderValue (sDelta (tStore (TF.enterNested t))) = mCurrentHeader (sDelta (tStore t)).
Proof. apply nested_start. Qed.

Lemma txKeeps_withOpDelta {A} (m : M Tx A) : txKeeps m -> txKeeps (TF.withOpDelta m).
Proof.
  intros Hm L t Hok. destruct (enterNested_ok L t Hok) as [Hn Hh]. specialize (Hm _ _ Hn).
  unfold wp, TF.withOpDelta in *. destruct (m (TF.enterNested t)) as [a t'|x t']; destruct Hm as [Hi Hp].
  - unfold mbind, M_bind, TF.onStore.
    destruct (commit_step L (tStore t) (tStore t') Hok Hi) as (s' & -> & Hok' & _ & Hp'); [by rewrite Hp|]. by split.
  - destruct (dropNested_unwound L (sDelta (tStore t)) (tStore t') (so_delta _ _ Hok) Hi) as [Hu Hd].
    cbn [TF.setStore tStore]. unfold keepsE. cbn [tStore]. rewrite Hd. by split.
Qed.

Lemma txKeeps_applyOps env info ops : Forall opOk ops -> forall i,
  txKeeps (TF.applyOps max_size verifySig anySignerType accountKey asAccount zeroKey zeroType env info i ops).
Proof.
  induction 1 as [|op ops Hop _ IH]; intros i; cbn [TF.applyOps]; tx_step.
  by apply txKeeps_withOpDelta, txKeeps_opApply.
Qed.

(** What a block leaves when it does not commit: the rows and the ledger of
    before. *)
Definition unchanged t t' : Prop :=
  sRows (tStore t') = sRows (tStore t) /\ sDelta (tStore t') = sDelta (tStore t).

Lemma withTransaction_spec {A} (body : M Tx (bool * A)) L t : txKeeps body -> storeOk L (tStore t) ->
  match TF.withTransaction body t with
  | Ret a t' => storeOk L (tStore t') /\
      mPreviousHeaderValue (sDelta (tStore t')) = mPreviousHeaderValue (sDelta (tStore t)) /\
      exists b t1, body (TF.enterNested t) = Ret (b, a) t1 /\ (b = false -> unchanged t t')
  | Throw _ t' => storeOk L (tStore t') /\ unchanged t t'
  end.
Proof.
  intros Hb Hok. destruct (enterNested_ok L t Hok) as [Hn Hh]. specialize (Hb _ _ Hn).
  unfold wp, TF.withTransaction in *.
  assert (forall t', unwound (deltaView (sDelta (tStore t)) L) (tStore t') ->
    let r := TF.setStore t' (ES.setRows (ES.dropNested (sDelta (tStore t)) (tStore t')) (sRows (tStore t))) in
    storeOk L (tStore r) /\ unchanged t r) as Hdrop.
  { intros t' Hu. destruct (dropNested_unwound L (sDelta (tStore t)) (tStore t') (so_delta _ _ Hok) Hu) as [[Hd Hc] He].
    unfold unchanged. cbn [TF.setStore tStore ES.setRows sRows sDelta].
    split; [|by rewrite He]. split; cbn [ES.setRows sRows sDelta]; [done|apply Hok| |exact Hc|rewrite He; apply Hok].
    intros k. rewrite He. apply Hok. }
  destruct (body (TF.enterNested t)) as [[[] a] t'|x t']; destruct Hb as [Hi Hp].
  - unfold mbind, M_bind, TF.onStore.
    destruct (commit_step L (tStore t) (tStore t') Hok Hi) as (s' & -> & Hok' & _ & Hp'); [by rewrite Hp|].
    cbn. split; [done|]. split; [done|]. by exists true, t'.
  - destruct (Hdrop t' (storeOk_unwound _ _ Hi)) as [H1 H2]. split; [done|]. split.
    + destruct H2 as [_ H2]. cbn [TF.setStore tStore] in *. by rewrite H2.
    + by exists false, t'.
  - apply Hdrop, Hi.
Qed.

Lemma unchanged_reads L t t' : storeOk L (tStore t') -> unchanged t t' -> readsQ L (tStore t) (tStore t').
Proof. intros Hok [Hr Hd]. split; [done|]. unfold sameLedger. by rewrite Hr, Hd. Qed.

Lemma txKeeps_applyBody env info : Forall opOk (operations env) -> txKeeps
  (TF.applyBody max_size verifySig anySignerType accountKey asAccount zeroKey zeroType env info).
Proof. intros Hops. apply stepsOn_bind; [apply _|by apply txKeeps_applyOps|]. intros ok. tx_step. Qed.

(** A transaction that fails or throws has changed neither the tables nor
    the changes collected so far. *)
Lemma applyTx_spec L t env info : Forall opOk (operations env) -> storeOk L (tStore t) ->
  match TF.applyTx max_size verifySig anySignerType READER anyBlockReason accountKey asAccount zeroKey zeroType env info t with
  | Ret true t' => keepsQ L (tStore t) (tStore t')
  | Ret false t' => readsQ L (tStore t) (tStore t')
  | Throw _ t' => readsQ L (tStore t) (tStore t')
  end.
Proof.
  intros Hops Hok. unfold TF.applyTx.
  assert (stepsOn readsQ readsQ tStore (TF.resetSignatureTracker env;;
    TF.commonValid max_size verifySig anySignerType READER anyBlockReason accountKey asAccount env info true)) as Hc.
  { apply stepsOn_bind; [apply _|apply txSteps_reset; apply _|]. intros _.
    apply txSteps_commonValid; [apply _|apply steps_load|apply steps_record]. }
  specialize (Hc L t Hok). unfold wp in Hc. unfold mbind, M_bind in *.
  destruct (TF.resetSignatureTracker env t) as [[] t0|x t0]; [|done].
  destruct (TF.commonValid _ _ _ _ _ _ _ env info true t0) as [v t1|x t1]; [|done].
  destruct v; cbn [negb]; [|done]. pose proof (proj1 Hc) as Hok1.
  pose proof (withTransaction_spec _ L t1 (txKeeps_applyBody env info Hops) Hok1) as Hw.
  destruct (TF.withTransaction _ t1) as [r t2|x t2].
  - destruct Hw as (Hok2 & Hp2 & b & t3 & Hb & Hun). unfold TF.applyBody, mbind, M_bind in Hb.
    revert Hb. destruct (TF.applyOps _ _ _ _ _ _ _ env info 0 (operations env) (TF.enterNested t1)) as [ok t4|]; [|done].
    destruct ok; cbn [negb].
    + destruct (TF.checkAllSignaturesUsed t4) as [u t5|]; [|done]. destruct u; cbn [negb]; intros [= <- <- _].
      * split; [done|]. rewrite Hp2. apply Hc.
      * eapply sr_trans; [exact Hc|]. apply unchanged_reads; [done|by apply Hun].
    + intros [= <- <- _]. cbn. eapply sr_trans; [exact Hc|]. apply unchanged_reads; [done|by apply Hun].
  - destruct Hw as [Hok2 Hun]. eapply sr_trans; [exact Hc|]. by apply unchanged_reads.
Qed.

End TransactionFacts.
