(* ===== verification/LedgerHeader.v ===== *)
(** * Ledger headers ([ledger/LedgerHeaderFrame.cpp],
      [bucket/BucketManagerImpl.cpp])

    The header of a ledger, the generators of identifiers it carries, the
    list of hashes of older bucket lists and the hash that chains headers.
    [sha256] and [marshalHeader] are the hash and the encoding of a header. *)

From S2P Require Import Prelude OrdContainers LedgerDelta EntryStore.

Record StellarValue := {
  txSetHash : list Z;
  closeTime : Z;
  upgrades : list (list Z);      (** encoded *)
}.

Record IdGenerator := {
  entryType : Z;
  idPool : Z;
}.

Record LedgerHeader := {
  ledgerVersion : Z;
  previousLedgerHash : list Z;
  scpValue : StellarValue;
  txSetResultHash : list Z;
  bucketListHash : list Z;
  ledgerSeq : Z;
  idGenerators : list IdGenerator;
  maxTxSetSize : Z;
  txExpirationPeriod : Z;
  externalSystemIDGenerators : list Z;
  skipList : list (list Z);
}.

Global Instance StellarValue_eq_dec : EqDecision StellarValue.
Proof. solve_decision. Defined.
Global Instance IdGenerator_eq_dec : EqDecision IdGenerator.
Proof. solve_decision. Defined.
Global Instance LedgerHeader_eq_dec : EqDecision LedgerHeader.
Proof. solve_decision. Defined.

(** The helper reads the header of ledgers. *)
Class HeaderOk {Key Entry} (h : EntryHelper Key Entry LedgerHeader) : Prop := {
  headerSeq_ok : forall x, headerSeq x = ledgerSeq x;
  headerTime_ok : forall x, headerTime x = closeTime (scpValue x);
}.

Inductive LedgerUpgrade :=
| VERSION (v : Z)
| MAX_TX_SET_SIZE (n : Z)
| EXTERNAL_SYSTEM_ID_GENERATOR (gs : list Z)
| TX_EXPIRATION_PERIOD (p : Z)
| UNKNOWN_UPGRADE (type : Z).

(** [LedgerHeaderFrame]; the hash is zero until it is computed. *)
Record LedgerHeaderFrame := {
  lhHeader : LedgerHeader;
  lhHash : option (list Z);
}.

Module LH.

(** ** Assignments to the fields *)

Definition with_ version prev value results buckets seq gens maxTx period ext skips : LedgerHeader :=
  {| ledgerVersion := version; previousLedgerHash := prev; scpValue := value; txSetResultHash := results;
     bucketListHash := buckets; ledgerSeq := seq; idGenerators := gens; maxTxSetSize := maxTx;
     txExpirationPeriod := period; externalSystemIDGenerators := ext; skipList := skips |}.

Definition setScpValue v h := with_ (ledgerVersion h) (previousLedgerHash h) v (txSetResultHash h) (bucketListHash h)
  (ledgerSeq h) (idGenerators h) (maxTxSetSize h) (txExpirationPeriod h) (externalSystemIDGenerators h) (skipList h).
Definition setTxSetResultHash r h := with_ (ledgerVersion h) (previousLedgerHash h) (scpValue h) r (bucketListHash h)
  (ledgerSeq h) (idGenerators h) (maxTxSetSize h) (txExpirationPeriod h) (externalSystemIDGenerators h) (skipList h).
Definition setBucketListHash b h := with_ (ledgerVersion h) (previousLedgerHash h) (scpValue h) (txSetResultHash h) b
  (ledgerSeq h) (idGenerators h) (maxTxSetSize h) (txExpirationPeriod h) (externalSystemIDGenerators h) (skipList h).
Definition setIdGenerators g h := with_ (ledgerVersion h) (previousLedgerHash h) (scpValue h) (txSetResultHash h)
  (bucketListHash h) (ledgerSeq h) g (maxTxSetSize h) (txExpirationPeriod h) (externalSystemIDGenerators h) (skipList h).
Definition setSkipList s h := with_ (ledgerVersion h) (previousLedgerHash h) (scpValue h) (txSetResultHash h)
  (bucketListHash h) (ledgerSeq h) (idGenerators h) (maxTxSetSize h) (txExpirationPeriod h)
  (externalSystemIDGenerators h) s.
Definition setVersion v h := with_ v (previousLedgerHash h) (scpValue h) (txSetResultHash h) (bucketListHash h)
  (ledgerSeq h) (idGenerators h) (maxTxSetSize h) (txExpirationPeriod h) (externalSystemIDGenerators h) (skipList h).
Definition setMaxTxSetSize n h := with_ (ledgerVersion h) (previousLedgerHash h) (scpValue h) (txSetResultHash h)
  (bucketListHash h) (ledgerSeq h) (idGenerators h) n (txExpirationPeriod h) (externalSystemIDGenerators h) (skipList h).
Definition setExternal e h := with_ (ledgerVersion h) (previousLedgerHash h) (scpValue h) (txSetResultHash h)
  (bucketListHash h) (ledgerSeq h) (idGenerators h) (maxTxSetSize h) (txExpirationPeriod h) e (skipList h).
Definition setTxExpirationPeriod p h := with_ (ledgerVersion h) (previousLedgerHash h) (scpValue h) (txSetResultHash h)
  (bucketListHash h) (ledgerSeq h) (idGenerators h) (maxTxSetSize h) p (externalSystemIDGenerators h) (skipList h).

(** The start of the next ledger: [mHeader.ledgerSeq++] and the hash of the
    last closed one. *)
Definition nextHeader (lclHash : list Z) h := with_ (ledgerVersion h) lclHash (scpValue h) (txSetResultHash h)
  (bucketListHash h) (u32 (ledgerSeq h + 1)) (idGenerators h) (maxTxSetSize h) (txExpirationPeriod h)
  (externalSystemIDGenerators h) (skipList h).

(** ** Generators of identifiers *)

Definition getLastGeneratedID (type : Z) (h : LedgerHeader) : Z :=
  match List.find (fun g => entryType g =? type) (idGenerators h) with Some g => idPool g | None => 0 end.

(** The generators with that of [type] incremented, one with an empty pool
    being added first if there is none ([getIDGenerator]). *)
Fixpoint bumpGenerator (type : Z) (gs : list IdGenerator) : list IdGenerator * Z :=
  match gs with
  | [] => ([{| entryType := type; idPool := u64 (0 + 1) |}], u64 (0 + 1))
  | g :: r =>
      if entryType g =? type
      then ({| entryType := type; idPool := u64 (idPool g + 1) |} :: r, u64 (idPool g + 1))
      else let '(r', id) := bumpGenerator type r in (g :: r', id)
  end.

Definition generateID (type : Z) (h : LedgerHeader) : LedgerHeader * Z :=
  let '(gs, id) := bumpGenerator type (idGenerators h) in (setIdGenerators gs h, id).

(** ** The skip list *)

Definition SKIP_1 : Z := 50.
Definition SKIP_2 : Z := 5000.
Definition SKIP_3 : Z := 50000.
Definition SKIP_4 : Z := 500000.

(** [v > 0 && (v % n) == 0] for the difference of the sequence number and
    [back], computed in 32 bits. *)
Definition skipDue (seq back n : Z) : bool :=
  let v := i32 (u32 (seq - back)) in (v >? 0) && (Z.rem v n =? 0).

Definition calculateSkipValues (h : LedgerHeader) : LedgerHeader :=
  let seq := ledgerSeq h in
  if negb (seq mod SKIP_1 =? 0) then h else
  let s := skipList h in
  let s :=
    if skipDue seq SKIP_1 SKIP_2 then
      let s :=
        if skipDue seq (SKIP_2 + SKIP_1) SKIP_3 then
          let s := if skipDue seq (SKIP_3 + SKIP_2 + SKIP_1) SKIP_4 then <[3%nat := default [] (s !! 2%nat)]> s else s in
          <[2%nat := default [] (s !! 1%nat)]> s
        else s in
      <[1%nat := default [] (s !! 0%nat)]> s
    else s in
  setSkipList (<[0%nat := bucketListHash h]> s) h.

(** ** The hash of a header *)

Section Hashing.
Context (sha256 : list Z -> list Z) (marshalHeader : LedgerHeader -> list Z).

Definition isZero (h : list Z) : bool := forallb (fun b => b =? 0) h.

(** [getHash]: computed once; the hash is not expected to be zero. *)
Definition getHash (f : LedgerHeaderFrame) : option (list Z * LedgerHeaderFrame) :=
  match lhHash f with
  | Some h => Some (h, f)
  | None =>
      let h := sha256 (marshalHeader (lhHeader f)) in
      if isZero h then None else Some (h, {| lhHeader := lhHeader f; lhHash := Some h |})
  end.

(** [LedgerHeaderFrame(lastClosed)], [None] when the hash does not fit. *)
Definition fromLastClosed (hash : list Z) (header : LedgerHeader) : option LedgerHeaderFrame :=
  if bool_decide (sha256 (marshalHeader header) = hash)
  then Some {| lhHeader := nextHeader hash header; lhHash := None |} else None.

End Hashing.
End LH.
