(* ===== verification/TxSet.v ===== *)
(** * Transaction sets ([herder/TxSetFrame.h], [herder/TxSetFrame.cpp])

    A [TransactionFramePtr] is a number, the address of a transaction whose
    envelope [frame] gives; a set may hold the same pointer twice.  [sort] is
    [std::sort], whose order of equivalent elements is not specified, [sha256]
    and [marshal] are the hash and the encoding of an envelope.  [W] is what
    checking a transaction works on (the application and its database). *)

From stdpp Require Import sorting.
From S2P Require Import Prelude OrdContainers Signatures Transaction.

Definition Hash : Type := list Z.

(** [operator^=] and [lessThanXored] of [util/types.cpp] *)
Definition lessThanXored (l r x : Hash) : bool := ltb (zip_with Z.lxor x l) (zip_with Z.lxor x r).

(** What [std::sort] promises for an order that is a strict weak one. *)
Record strictWeak {A : Type} (lt : A -> A -> bool) : Prop := {
  sw_irrefl : forall a, lt a a = false;
  sw_trans : forall a b c, lt a b = true -> lt b c = true -> lt a c = true;
  sw_equiv : forall a b c, lt b a = false -> lt c b = false -> lt c a = false;
}.

Class SortOk {A : Type} (sort : (A -> A -> bool) -> list A -> list A) : Prop := {
  sort_permutation : forall lt l, strictWeak lt -> sort lt l ≡ₚ l;
  sort_sorted : forall lt l, strictWeak lt -> StronglySorted (fun a b => lt b a = false) (sort lt l);
}.

Definition TransactionFramePtr : Type := Z.

Record TxSetFrame := {
  mHashIsValid : bool;
  mHash : Hash;
  mPreviousLedgerHash : Hash;
  mTransactions : list TransactionFramePtr;
}.

Module TS.
Section TS.
Local Abbreviation Ptr := TransactionFramePtr.
Context {Sig St W : Type} (frame : Ptr -> Envelope Sig St) (marshal : Envelope Sig St -> list Z).
Context (sha256 : list Z -> Hash) (sort : (Ptr -> Ptr -> bool) -> list Ptr -> list Ptr).
Context (checkTx : Ptr -> M W bool).      (** [tx->checkValid(app)] *)
Implicit Types (p : Ptr) (ts : TxSetFrame).

Definition getSourceID p : PublicKey := txSourceAccount (frame p).
Definition getSalt p : Z := salt (frame p).
Definition getFullHash p : Hash := fullHash (frame p).
Definition getPaidFee p : Z := paidFee (frame p).

Definition newTxSet (previousLedgerHash : Hash) : TxSetFrame :=
  {| mHashIsValid := false; mHash := []; mPreviousLedgerHash := previousLedgerHash; mTransactions := [] |}.

Definition setTransactions (l : list Ptr) ts : TxSetFrame :=
  {| mHashIsValid := false; mHash := mHash ts; mPreviousLedgerHash := mPreviousLedgerHash ts; mTransactions := l |}.

Definition add p : M TxSetFrame unit := modify (fun ts => setTransactions (mTransactions ts ++ [p]) ts).

(** ** Orders *)

Definition HashTxSorter p1 p2 : bool := ltb (getFullHash p1) (getFullHash p2).

Definition ApplyTxSorter (mSetHash : Hash) p1 p2 : bool :=
  lessThanXored (getFullHash p1) (getFullHash p2) mSetHash.

Definition SaltSorter p1 p2 : bool := getSalt p1 <? getSalt p2.

(** [mAccountFeeMap[id]]: a missing account reads as 0. *)
Definition feeOf (mAccountFeeMap : list (PublicKey * Z)) (id : PublicKey) : Z :=
  match om_find id mAccountFeeMap with Some f => f | None => 0 end.

Definition SurgeSorter (mAccountFeeMap : list (PublicKey * Z)) p1 p2 : bool :=
  if bool_decide (getSourceID p1 = getSourceID p2) then getSalt p1 <? getSalt p2 else
  let fee1 := feeOf mAccountFeeMap (getSourceID p1) in
  let fee2 := feeOf mAccountFeeMap (getSourceID p2) in
  if fee1 =? fee2 then ltb (getSourceID p1) (getSourceID p2) else fee1 >? fee2.

(** ** The hash of the set *)

Definition sortForHash : M TxSetFrame unit :=
  modify (fun ts => setTransactions (sort HashTxSorter (mTransactions ts)) ts).

Definition hashOf ts : Hash :=
  sha256 (mPreviousLedgerHash ts ++ concat (map (fun p => marshal (frame p)) (mTransactions ts))).

Definition getContentsHash : M TxSetFrame Hash :=
  ts ← get;
  if mHashIsValid ts then mret (mHash ts) else
  sortForHash;;
  modify (fun ts => {| mHashIsValid := true; mHash := hashOf ts; mPreviousLedgerHash := mPreviousLedgerHash ts;
                       mTransactions := mTransactions ts |});;
  ts ← get;
  mret (mHash ts).

(** ** The order of application *)

(** The batches and the number of transactions seen of each account. *)
Definition Batches : Type := list (list Ptr) * list (PublicKey * nat).

Definition countOf (accountTxCountMap : list (PublicKey * nat)) (id : PublicKey) : nat :=
  match om_find id accountTxCountMap with Some v => v | None => 0%nat end.

(** [txBatches.resize(n)] *)
Definition resize (n : nat) (bs : list (list Ptr)) : list (list Ptr) := take n bs ++ replicate (n - length bs) [].

Definition addToBatch (st : Batches) p : Batches :=
  let '(txBatches, accountTxCountMap) := st in
  let v := countOf accountTxCountMap (getSourceID p) in
  let txBatches := if (length txBatches <=? v)%nat then resize (v + 4) txBatches else txBatches in
  (alter (fun b => b ++ [p]) v txBatches, om_set (getSourceID p) (S v) accountTxCountMap).

Definition buildBatches (txs : list Ptr) : list (list Ptr) :=
  fst (fold_left addToBatch txs (replicate 4 [], [])).

Fixpoint sortBatches (batches : list (list Ptr)) : M TxSetFrame (list Ptr) :=
  match batches with
  | [] => mret []
  | batch :: r =>
      h ← getContentsHash;
      rest ← sortBatches r;
      mret (sort (ApplyTxSorter h) batch ++ rest)
  end.

Definition sortForApply : M TxSetFrame (list Ptr) :=
  ts ← get;
  sortBatches (buildBatches (sort SaltSorter (mTransactions ts))).

(** ** Removing transactions *)

Fixpoint eraseFirst p (l : list Ptr) : list Ptr :=
  match l with [] => [] | q :: r => if p =? q then r else q :: eraseFirst p r end.

Definition removeTx p : M TxSetFrame unit := modify (fun ts => setTransactions (eraseFirst p (mTransactions ts)) ts).

Fixpoint removeAll (l : list Ptr) : M TxSetFrame unit :=
  match l with [] => mret tt | p :: r => removeTx p;; removeAll r end.

(** One round of the loop that fills [accountFeeMap]. *)
Definition noteFee (accountFeeMap : list (PublicKey * Z)) p : list (PublicKey * Z) :=
  let r := getPaidFee p in
  let now := feeOf accountFeeMap (getSourceID p) in
  if now =? 0 then om_set (getSourceID p) r accountFeeMap
  else if r <? now then om_set (getSourceID p) r accountFeeMap
  else accountFeeMap.

Definition surgePricingFilter (max : nat) : M TxSetFrame unit :=
  ts ← get;
  if (max <? length (mTransactions ts))%nat then
    let accountFeeMap := fold_left noteFee (mTransactions ts) [] in
    removeAll (drop max (sort (SurgeSorter accountFeeMap) (mTransactions ts)))
  else mret tt.

(** ** Validity *)

(** [accountTxMap]: the transactions of every account, accounts in order. *)
Definition groupByAccount (txs : list Ptr) : list (PublicKey * list Ptr) :=
  fold_left (fun m p => om_set (getSourceID p) (default [] (om_find (getSourceID p) m) ++ [p]) m) txs [].

(** The inner loop of [trimInvalid]; the set, the application and [trimmed]. *)
Fixpoint trimAccount (txs : list Ptr) : M (TxSetFrame * W) (list Ptr) :=
  match txs with
  | [] => mret []
  | p :: r =>
      v ← (fun s => match checkTx p s.2 with Ret b w => Ret b (s.1, w) | Throw x w => Throw x (s.1, w) end);
      if negb v then
        (fun s => match removeTx p s.1 with Ret _ ts => Ret tt (ts, s.2) | Throw x ts => Throw x (ts, s.2) end);;
        rest ← trimAccount r; mret (p :: rest)
      else trimAccount r
  end.

Fixpoint trimAccounts (groups : list (PublicKey * list Ptr)) : M (TxSetFrame * W) (list Ptr) :=
  match groups with
  | [] => mret []
  | (_, txs) :: r =>
      a ← trimAccount (sort SaltSorter txs);
      b ← trimAccounts r;
      mret (a ++ b)
  end.

Definition trimInvalid : M (TxSetFrame * W) (list Ptr) :=
  modify (fun s => (setTransactions (sort HashTxSorter (mTransactions s.1)) s.1, s.2));;
  s ← get;
  trimAccounts (groupByAccount (mTransactions s.1)).

Definition zeroHash : Hash := replicate 32 0.

Fixpoint sortedFrom (lastHash : Hash) (txs : list Ptr) : bool :=
  match txs with
  | [] => true
  | p :: r => if ltb (getFullHash p) lastHash then false else sortedFrom (getFullHash p) r
  end.

Fixpoint checkAll (txs : list Ptr) : M W bool :=
  match txs with
  | [] => mret true
  | p :: r => v ← checkTx p; if negb v then mret false else checkAll r
  end.

Fixpoint checkAccounts (groups : list (PublicKey * list Ptr)) : M W bool :=
  match groups with
  | [] => mret true
  | (_, txs) :: r => v ← checkAll (sort SaltSorter txs); if negb v then mret false else checkAccounts r
  end.

(** [checkValid(app)]; the arguments are the hash and the limit of the last
    closed ledger. *)
Definition checkValid (lclHash : Hash) (maxTxSetSize : Z) ts : M W bool :=
  if negb (bool_decide (lclHash = mPreviousLedgerHash ts)) then mret false else
  if Z.of_nat (length (mTransactions ts)) >? maxTxSetSize then mret false else
  if negb (sortedFrom zeroHash (mTransactions ts)) then mret false else
  checkAccounts (groupByAccount (mTransactions ts)).

End TS.
End TS.
