(* ===== verification/TxSetFacts.v ===== *)
(** * Lemmas on transaction sets *)

From stdpp Require Import sorting.
From S2P Require Import Prelude OrdContainers Signatures Transaction TxSet.

(** ** Orders *)

(** Lexicographic order of pairs. *)
Section PairOrd.
Context `{Ord A} `{Ord B}.

Definition pair_ltb (p q : A * B) : bool := ltb p.1 q.1 || (negb (ltb q.1 p.1) && ltb p.2 q.2).

Global Program Instance pair_Ord : Ord (A * B) := { ltb := pair_ltb }.
Next Obligation. intros [a b]. unfold pair_ltb. cbn. by rewrite !ltb_irrefl. Qed.
Next Obligation.
  intros [a1 b1] [a2 b2] [a3 b3]. unfold pair_ltb. cbn.
  destruct (ltb_cases a1 a2) as [[H12| ->]|H12]; destruct (ltb_cases a2 a3) as [[H23| ->]|H23];
    rewrite ?H12, ?H23, ?ltb_irrefl, ?(ltb_asym _ _ H12), ?(ltb_asym _ _ H23); cbn; try done.
  - by rewrite (ltb_trans _ _ _ H12 H23).
  - apply ltb_trans.
Qed.
Next Obligation.
  intros [a1 b1] [a2 b2]. unfold pair_ltb. cbn. destruct (ltb_cases a1 a2) as [[H12| ->]|H12];
    rewrite ?H12, ?ltb_irrefl, ?(ltb_asym _ _ H12); cbn; try done. intros. f_equal. by apply ltb_total.
Qed.

End PairOrd.

(** An order by the image under a function is a strict weak one. *)
Lemma strictWeak_by {A} `{Ord B} (f : A -> B) lt : (forall a b, lt a b = ltb (f a) (f b)) -> strictWeak lt.
Proof.
  intros Hlt. split; intros *; rewrite !Hlt.
  - apply ltb_irrefl.
  - apply ltb_trans.
  - intros H1 H2. destruct (ltb (f c) (f a)) eqn:E; [|done].
    pose proof (leb_ltb_trans _ _ _ H2 E). congruence.
Qed.

Lemma StronglySorted_filter {A} (R : A -> A -> Prop) (f : A -> bool) (l : list A) :
  StronglySorted R l -> StronglySorted R (List.filter f l).
Proof.
  induction 1 as [|a l Hs IH Ha]; cbn; [constructor|]. destruct (f a); [|done]. constructor; [done|].
  apply Forall_forall. intros x [Hx _]%list_elem_of_In%List.filter_In. eapply Forall_forall; [exact Ha|].
  by apply list_elem_of_In.
Qed.

Lemma StronglySorted_mono {A} (R R' : A -> A -> Prop) (l : list A) :
  (forall a b, R a b -> R' a b) -> StronglySorted R l -> StronglySorted R' l.
Proof.
  intros Hr. induction 1 as [|a l Hs IH Ha]; constructor; [done|]. eapply Forall_impl; [exact Ha|]. intros b. apply Hr.
Qed.

Lemma StronglySorted_split {A} (R : A -> A -> Prop) (n : nat) (l : list A) x y :
  StronglySorted R l -> x ∈ take n l -> y ∈ drop n l -> R x y.
Proof.
  intros Hs. revert n. induction Hs as [|a l Hs IH Ha]; intros [|n]; cbn; [set_solver..|].
  intros [->|Hx]%elem_of_cons Hy; [|by eapply IH]. eapply Forall_forall; [exact Ha|].
  rewrite <- (take_drop n l). apply elem_of_app. by right.
Qed.

Lemma filter_perm {A} (f : A -> bool) (l1 l2 : list A) : l1 ≡ₚ l2 -> List.filter f l1 ≡ₚ List.filter f l2.
Proof.
  induction 1 as [|x l1 l2 _ IH|x y l|l1 l2 l3 _ IH1 _ IH2]; cbn; [done|..].
  - destruct (f x); by rewrite ?IH.
  - destruct (f x), (f y); try done. apply Permutation_swap.
  - by etrans.
Qed.

Section TxSetFacts.
Local Abbreviation Ptr := TransactionFramePtr.
Context {Sig St W : Type} (frame : Ptr -> Envelope Sig St) (marshal : Envelope Sig St -> list Z).
Context (sha256 : list Z -> Hash) (sort : (Ptr -> Ptr -> bool) -> list Ptr -> list Ptr) `{!SortOk sort}.
Implicit Types (p q : Ptr) (ts : TxSetFrame) (l txs : list Ptr) (id : PublicKey).
Local Abbreviation source := (TS.getSourceID frame).

Lemma HashTxSorter_weak : strictWeak (TS.HashTxSorter frame).
Proof. by apply (strictWeak_by (TS.getFullHash frame)). Qed.

Lemma SaltSorter_weak : strictWeak (TS.SaltSorter frame).
Proof. by apply (strictWeak_by (TS.getSalt frame)). Qed.

Lemma ApplyTxSorter_weak h : strictWeak (TS.ApplyTxSorter frame h).
Proof. by apply (strictWeak_by (fun p => zip_with Z.lxor h (TS.getFullHash frame p))). Qed.

(** The order of surge pricing: higher fee first, then account, then salt. *)
Definition surgeKey fees p : Z * (PublicKey * Z) := (- TS.feeOf fees (source p), (source p, TS.getSalt frame p)).

Lemma SurgeSorter_weak fees : strictWeak (TS.SurgeSorter frame fees).
Proof.
  apply (strictWeak_by (surgeKey fees)). intros p q. unfold TS.SurgeSorter.
  unfold surgeKey. cbn [ltb pair_Ord]. unfold pair_ltb at 1. cbn [fst snd ltb pair_Ord Z_Ord]. unfold pair_ltb. cbn [fst snd].
  case_bool_decide as E; [rewrite E, !ltb_irrefl, !Z.ltb_irrefl; done|].
  assert (ltb (source p) (source q) = negb (ltb (source q) (source p))) as Hs.
  { destruct (ltb_cases (source p) (source q)) as [[Hl|?]|Hl]; [|done|].
    - by rewrite Hl, (ltb_asym _ _ Hl).
    - by rewrite Hl, (ltb_asym _ _ Hl). }
  destruct (Z.eqb_spec (TS.feeOf fees (source p)) (TS.feeOf fees (source q))) as [->|Hne].
  - rewrite Z.ltb_irrefl. cbn [orb negb andb]. rewrite Hs. by destruct (ltb (source q) (source p)).
  - rewrite Z.gtb_ltb. destruct (Z.ltb_spec (TS.feeOf fees (source q)) (TS.feeOf fees (source p))).
    + rewrite (proj2 (Z.ltb_lt (- TS.feeOf fees (source p)) _)) by lia. done.
    + rewrite (proj2 (Z.ltb_ge (- TS.feeOf fees (source p)) _)) by lia.
      rewrite (proj2 (Z.ltb_lt (- TS.feeOf fees (source q)) _)) by lia. done.
Qed.

Hint Resolve HashTxSorter_weak SaltSorter_weak ApplyTxSorter_weak SurgeSorter_weak : core.

(** ** The order of application *)

Definition ofAccount id l : list Ptr := List.filter (fun p => bool_decide (source p = id)) l.

Lemma ofAccount_app id l1 l2 : ofAccount id (l1 ++ l2) = ofAccount id l1 ++ ofAccount id l2.
Proof. apply List.filter_app. Qed.

Lemma ofAccount_perm id l1 l2 : l1 ≡ₚ l2 -> ofAccount id l1 ≡ₚ ofAccount id l2.
Proof. apply filter_perm. Qed.

(** The [i]-th batch holds the [i]-th transaction of every account. *)
Definition nth_of id txs (i : nat) : list Ptr := match ofAccount id txs !! i with Some p => [p] | None => [] end.

Record batchesOk txs (st : TS.Batches) : Prop := {
  bo_count : forall id, TS.countOf st.2 id = length (ofAccount id txs);
  bo_batch : forall id i, ofAccount id (default [] (st.1 !! i)) = nth_of id txs i;
}.

Lemma resize_lookup n bs i : (length bs <= n)%nat -> default [] (TS.resize n bs !! i) = default [] (bs !! i).
Proof.
  intros Hn. unfold TS.resize. rewrite take_ge by done. rewrite lookup_app.
  destruct (bs !! i) eqn:E; [done|]. cbn. destruct (replicate (n - length bs) [] !! (i - length bs)%nat) eqn:Er; [|done].
  by apply lookup_replicate in Er as [-> _].
Qed.

Lemma grown_lookup v bs i : let bs' := if (length bs <=? v)%nat then TS.resize (v + 4) bs else bs in
  default [] (bs' !! i) = default [] (bs !! i) /\ (v < length bs')%nat.
Proof.
  cbn. destruct (Nat.leb_spec (length bs) v) as [Hv|Hv]; [|done]. split; [apply resize_lookup; lia|].
  unfold TS.resize. rewrite length_app, length_take, length_replicate. lia.
Qed.

Lemma ofAccount_snoc id txs p :
  ofAccount id (txs ++ [p]) = ofAccount id txs ++ (if bool_decide (source p = id) then [p] else []).
Proof. rewrite ofAccount_app. cbn. by destruct (bool_decide _). Qed.

Lemma addToBatch_ok txs st p : batchesOk txs st -> batchesOk (txs ++ [p]) (TS.addToBatch frame st p).
Proof.
  intros [Hc Hb]. destruct st as [bs m]. cbn [fst snd] in *. unfold TS.addToBatch. rewrite Hc.
  set (v := length (ofAccount (source p) txs)). split; cbn [fst snd]; intros id.
  - rewrite ofAccount_snoc, length_app. unfold TS.countOf. case_bool_decide as E.
    + subst id. rewrite om_find_set_eq. fold v. cbn. lia.
    + rewrite om_find_set_ne by done. specialize (Hc id). unfold TS.countOf in Hc. rewrite Hc. cbn. lia.
  - intros i. destruct (grown_lookup v bs i) as [Hg Hlen]. set (bs' := if (length bs <=? v)%nat then TS.resize (v + 4) bs else bs) in *.
    rewrite list_lookup_alter. unfold nth_of. rewrite ofAccount_snoc. destruct (decide (v = i)) as [<-|Hne].
    + destruct (bs' !! v) as [b|] eqn:Eb; [|by apply lookup_ge_None in Eb; lia]. change (default [] (Some b)) with b in Hg.
      change (default [] ((fun b0 => b0 ++ [p]) <$> Some b)) with (b ++ [p]). rewrite Hg, ofAccount_snoc, Hb. unfold nth_of.
      case_bool_decide as E.
      * subst id. fold v. rewrite lookup_ge_None_2 by done. rewrite lookup_app_r by done. fold v.
        by rewrite Nat.sub_diag.
      * by rewrite !app_nil_r.
    + rewrite Hg, Hb. unfold nth_of. case_bool_decide as E; [|by rewrite app_nil_r]. subst id.
      destruct (decide (i < v)%nat); [by rewrite lookup_app_l|].
      rewrite !lookup_ge_None_2; [done|rewrite length_app; cbn; lia|lia].
Qed.

Lemma buildBatches_ok txs : batchesOk txs (fold_left (TS.addToBatch frame) txs (replicate 4 [], [])).
Proof.
  rewrite <- fold_left_rev_right. rewrite <- (rev_involutive txs) at 1. induction (rev txs) as [|p l IH]; cbn.
  - split; cbn; [done|]. intros id i. unfold nth_of. cbn.
    destruct i as [|[|[|[|i]]]]; done.
  - by apply addToBatch_ok.
Qed.

Lemma ofAccount_concat id bs : ofAccount id (concat bs) = concat (map (ofAccount id) bs).
Proof. induction bs as [|b bs IH]; [done|]. cbn [concat map]. by rewrite ofAccount_app, IH. Qed.

Lemma concat_singles (bs : list (list Ptr)) (xs : list Ptr) :
  (forall i, default [] (bs !! i) = match xs !! i with Some p => [p] | None => [] end) -> concat bs = xs.
Proof.
  revert xs. induction bs as [|b bs IH]; intros xs Hb; cbn [concat].
  - destruct xs as [|x xs]; [done|]. by specialize (Hb 0%nat).
  - pose proof (Hb 0%nat) as H0. cbn in H0. destruct xs as [|x xs]; cbn in H0; subst b; cbn [app].
    + apply IH. intros i. exact (Hb (S i)).
    + f_equal. apply IH. intros i. exact (Hb (S i)).
Qed.

Lemma ofAccount_ext_perm l1 l2 : (forall id, ofAccount id l1 = ofAccount id l2) -> l1 ≡ₚ l2.
Proof.
  intros Hl. apply (Permutation_count_occ Z.eq_dec). intros p.
  assert (forall l, count_occ Z.eq_dec l p = count_occ Z.eq_dec (ofAccount (source p) l) p) as Hc.
  { clear. induction l as [|q l IH]; [done|]. cbn [count_occ ofAccount List.filter].
    destruct (Z.eq_dec q p) as [->|Hne].
    - rewrite bool_decide_eq_true_2 by done. cbn. by destruct (Z.eq_dec p p); [f_equal|].
    - case_bool_decide; [|done]. cbn. by destruct (Z.eq_dec q p). }
  by rewrite (Hc l1), (Hc l2), Hl.
Qed.

(** Sorting a batch does not reorder the transactions of an account. *)
Lemma ofAccount_sort id h b : (length (ofAccount id b) <= 1)%nat ->
  ofAccount id (sort (TS.ApplyTxSorter frame h) b) = ofAccount id b.
Proof.
  intros Hl. pose proof (ofAccount_perm id _ _ (sort_permutation (TS.ApplyTxSorter frame h) b (ApplyTxSorter_weak h))) as Hp.
  destruct (ofAccount id b) as [|p [|]]; [by apply Permutation_nil_r in Hp|by apply Permutation_singleton_r in Hp|cbn in Hl; lia].
Qed.

Lemma getContentsHash_spec ts : exists ts', TS.getContentsHash frame marshal sha256 sort ts = Ret (mHash ts') ts' /\
  mHashIsValid ts' = true /\ mTransactions ts' ≡ₚ mTransactions ts /\
  mPreviousLedgerHash ts' = mPreviousLedgerHash ts.
Proof.
  unfold TS.getContentsHash, get, modify, mbind, M_bind, mret, M_ret. destruct (mHashIsValid ts) eqn:Ev; [by exists ts|].
  eexists. split; [done|]. cbn. split; [done|]. split; [by apply sort_permutation|done].
Qed.

Lemma sortBatches_valid bs ts : mHashIsValid ts = true ->
  TS.sortBatches frame marshal sha256 sort bs ts = Ret (concat (map (sort (TS.ApplyTxSorter frame (mHash ts))) bs)) ts.
Proof.
  intros Hv. induction bs as [|b bs IH]; [done|]. cbn [TS.sortBatches map concat].
  unfold mbind, M_bind. unfold TS.getContentsHash, get, mbind, M_bind, mret, M_ret. rewrite Hv.
  by rewrite IH.
Qed.

Lemma sortBatches_spec bs ts : exists h ts',
  TS.sortBatches frame marshal sha256 sort bs ts = Ret (concat (map (sort (TS.ApplyTxSorter frame h)) bs)) ts' /\
  mTransactions ts' ≡ₚ mTransactions ts.
Proof.
  destruct bs as [|b bs]; [by exists [], ts|]. destruct (getContentsHash_spec ts) as (ts' & Hh & Hv & Hp & _).
  exists (mHash ts'), ts'. split; [|done]. cbn [TS.sortBatches map concat]. unfold mbind, M_bind.
  by rewrite Hh, sortBatches_valid.
Qed.

Lemma sortForApply_spec ts : exists h ts', let bs := TS.buildBatches frame (sort (TS.SaltSorter frame) (mTransactions ts)) in
  TS.sortForApply frame marshal sha256 sort ts = Ret (concat (map (sort (TS.ApplyTxSorter frame h)) bs)) ts' /\
  mTransactions ts' ≡ₚ mTransactions ts /\
  forall id i, ofAccount id (default [] (map (sort (TS.ApplyTxSorter frame h)) bs !! i)) =
    nth_of id (sort (TS.SaltSorter frame) (mTransactions ts)) i.
Proof.
  destruct (sortBatches_spec (TS.buildBatches frame (sort (TS.SaltSorter frame) (mTransactions ts))) ts) as (h & ts' & Hr & Hp).
  exists h, ts'. cbn. split; [exact Hr|]. split; [done|]. intros id i.
  pose proof (bo_batch _ _ (buildBatches_ok (sort (TS.SaltSorter frame) (mTransactions ts))) id i) as Hb.
  fold (TS.buildBatches frame (sort (TS.SaltSorter frame) (mTransactions ts))) in Hb.
  rewrite list_lookup_fmap. destruct (TS.buildBatches _ _ !! i) as [b|]; [|done]. cbn in Hb |- *.
  fold (ofAccount id b) in Hb. fold (ofAccount id (sort (TS.ApplyTxSorter frame h) b)).
  rewrite ofAccount_sort; [done|]. rewrite Hb. unfold nth_of. destruct (_ !! i); cbn; lia.
Qed.

Lemma sortForApply_account ts txs ts' id : TS.sortForApply frame marshal sha256 sort ts = Ret txs ts' ->
  ofAccount id txs = ofAccount id (sort (TS.SaltSorter frame) (mTransactions ts)).
Proof.
  intros Hr. destruct (sortForApply_spec ts) as (h & ts'' & Hr' & _ & Hi). rewrite Hr in Hr'. injection Hr' as -> _.
  rewrite ofAccount_concat. apply concat_singles. intros i. rewrite list_lookup_fmap.
  specialize (Hi id i). unfold nth_of in Hi. rewrite <- Hi.
  by destruct (map _ _ !! i).
Qed.

Lemma sortForApply_perm ts txs ts' : TS.sortForApply frame marshal sha256 sort ts = Ret txs ts' -> txs ≡ₚ mTransactions ts.
Proof.
  intros Hr. trans (sort (TS.SaltSorter frame) (mTransactions ts)); [|by apply sort_permutation].
  apply ofAccount_ext_perm. intros id. by eapply sortForApply_account.
Qed.

(** ** Removing transactions *)

Lemma eraseFirst_perm p l k : l ≡ₚ p :: k -> TS.eraseFirst p l ≡ₚ k.
Proof.
  revert k. induction l as [|q l IH]; intros k Hp; [by apply Permutation_nil_l in Hp|].
  cbn [TS.eraseFirst]. destruct (Z.eqb_spec p q) as [->|Hne]; [by apply Permutation_cons_inv in Hp|].
  assert (q ∈ k) as (k' & Hk')%elem_of_Permutation.
  { assert (q ∈ p :: k) as Hq by (rewrite <- Hp; left). by apply elem_of_cons in Hq as [->|]. }
  rewrite Hk' in Hp |- *. f_equiv. apply IH. apply (Permutation_cons_inv (a := q)).
  rewrite Hp. apply Permutation_swap.
Qed.

Lemma removeAll_spec l keep ts : mTransactions ts ≡ₚ keep ++ l ->
  exists ts', TS.removeAll l ts = Ret tt ts' /\ mTransactions ts' ≡ₚ keep.
Proof.
  revert ts. induction l as [|p l IH]; intros ts Hp; cbn [TS.removeAll].
  - exists ts. rewrite app_nil_r in Hp. done.
  - unfold mbind, M_bind, TS.removeTx, modify. apply IH. cbn. apply eraseFirst_perm. rewrite Hp. symmetry. apply Permutation_middle.
Qed.

(** Surge pricing keeps the first [max] transactions of its order. *)
Lemma surgePricing_spec max ts : let fees := fold_left (TS.noteFee frame) (mTransactions ts) [] in
  exists ts', TS.surgePricingFilter frame sort max ts = Ret tt ts' /\
    mTransactions ts' ≡ₚ (if (max <? length (mTransactions ts))%nat
                          then take max (sort (TS.SurgeSorter frame fees) (mTransactions ts)) else mTransactions ts).
Proof.
  intros fees. unfold TS.surgePricingFilter, get, mbind, M_bind. destruct (max <? length (mTransactions ts))%nat; [|by exists ts].
  apply removeAll_spec. rewrite take_drop. symmetry. by apply sort_permutation.
Qed.

(** ** Grouping by account *)

Lemma om_set_group id p (m : list (PublicKey * list Ptr)) : om_sorted m ->
  concat ((om_set id (default [] (om_find id m) ++ [p]) m).*2) ≡ₚ p :: concat (m.*2).
Proof.
  intros Hs. induction m as [|[id' l] m IH]; [done|]. cbn [om_find om_set].
  destruct (eqvb id id') eqn:E.
  - apply eqvb_eq in E as <-. rewrite ltb_irrefl. cbn. rewrite <- app_assoc. cbn. by rewrite <- Permutation_middle.
  - assert (om_sorted m) as Hm by apply Hs. destruct (ltb id id') eqn:El.
    + assert (om_find id m = None) as ->; [|done]. apply om_find_None. intros Hin. destruct Hs as [Hs _].
      specialize (Hs id Hin). pose proof (ltb_asym _ _ El) as Ha. unfold ltb in Hs, Ha. cbn in Hs, Ha. congruence.
    + unfold eqvb in E. rewrite El in E. destruct (ltb id' id) eqn:El'; [|done].
      cbn [fmap list_fmap concat snd]. rewrite IH by done. by rewrite <- Permutation_middle.
Qed.

Lemma group_perm txs m : om_sorted m ->
  let m' := fold_left (fun m p => om_set (source p) (default [] (om_find (source p) m) ++ [p]) m) txs m in
  concat (m'.*2) ≡ₚ concat (m.*2) ++ txs.
Proof.
  revert m. induction txs as [|p txs IH]; intros m Hm; cbn [fold_left]; [by rewrite app_nil_r|].
  cbn in *. rewrite IH by by apply om_set_sorted. rewrite om_set_group by done. cbn. by rewrite Permutation_middle.
Qed.

Lemma groupByAccount_perm txs : concat ((TS.groupByAccount frame txs).*2) ≡ₚ txs.
Proof. by apply (group_perm txs []). Qed.

(** ** Validity *)


Section Validity.
Context (checkTx : Ptr -> M W bool) (valid : Ptr -> bool) (I : W -> Prop).
Context (Hcheck : forall p w, I w -> exists w', checkTx p w = Ret (valid p) w' /\ I w').
Implicit Type w : W.

Definition invalid p : bool := negb (valid p).

Lemma trimAccount_spec txs keep ts w : I w -> mTransactions ts ≡ₚ keep ++ List.filter invalid txs ->
  exists ts' w', TS.trimAccount checkTx txs (ts, w) = Ret (List.filter invalid txs) (ts', w') /\
    I w' /\ mTransactions ts' ≡ₚ keep.
Proof.
  revert ts w. induction txs as [|p txs IH]; intros ts w Hw Hp; cbn [TS.trimAccount List.filter] in *.
  - exists ts, w. by rewrite app_nil_r in Hp.
  - unfold mbind, M_bind. cbn [fst snd]. destruct (Hcheck p w Hw) as (w1 & -> & Hw1).
    unfold invalid at 1. unfold invalid at 1 in Hp. destruct (valid p); cbn [negb] in *; [by apply IH|].
    unfold TS.removeTx, modify. cbn [fst snd].
    destruct (IH (TS.setTransactions (TS.eraseFirst p (mTransactions ts)) ts) w1 Hw1) as (ts' & w' & -> & Hw' & Hp').
    { cbn. apply eraseFirst_perm. rewrite Hp. symmetry. apply Permutation_middle. }
    by exists ts', w'.
Qed.

Lemma trimAccounts_spec groups keep ts w : I w -> mTransactions ts ≡ₚ keep ++ List.filter invalid (concat (groups.*2)) ->
  exists trimmed ts' w', TS.trimAccounts frame sort checkTx groups (ts, w) = Ret trimmed (ts', w') /\ I w' /\
    mTransactions ts' ≡ₚ keep /\ trimmed ≡ₚ List.filter invalid (concat (groups.*2)).
Proof.
  revert keep ts w. induction groups as [|[id txs] groups IH]; intros keep ts w Hw Hp; cbn [TS.trimAccounts] in *.
  - exists [], ts, w. by rewrite app_nil_r in Hp.
  - unfold mbind, M_bind. cbn in Hp. rewrite List.filter_app in Hp.
    assert (List.filter invalid (sort (TS.SaltSorter frame) txs) ≡ₚ List.filter invalid txs) as Hs
      by (apply filter_perm, sort_permutation; done).
    destruct (trimAccount_spec (sort (TS.SaltSorter frame) txs) (keep ++ List.filter invalid (concat (groups.*2))) ts w Hw)
      as (ts1 & w1 & -> & Hw1 & Hp1); [by rewrite Hp, Hs, <- app_assoc, (Permutation_app_comm (List.filter _ txs))|].
    destruct (IH keep ts1 w1 Hw1 Hp1) as (tr & ts2 & w2 & -> & Hw2 & Hp2 & Ht).
    do 3 eexists. split; [done|]. split; [done|]. split; [done|]. cbn. by rewrite List.filter_app, Ht, Hs.
Qed.

Lemma trimInvalid_spec ts w : I w ->
  exists trimmed ts' w', TS.trimInvalid frame sort checkTx (ts, w) = Ret trimmed (ts', w') /\ I w' /\
    mTransactions ts' ≡ₚ List.filter valid (mTransactions ts) /\
    trimmed ≡ₚ List.filter invalid (mTransactions ts).
Proof.
  intros Hw. unfold TS.trimInvalid, modify, get, mbind, M_bind. cbn [fst snd mTransactions TS.setTransactions].
  set (txs := sort (TS.HashTxSorter frame) (mTransactions ts)).
  assert (txs ≡ₚ mTransactions ts) as Hs by by apply sort_permutation.
  pose proof (groupByAccount_perm txs) as Hg.
  destruct (trimAccounts_spec (TS.groupByAccount frame txs) (List.filter valid txs) (TS.setTransactions txs ts) w Hw)
    as (tr & ts' & w' & Hr & Hw' & Hp & Ht).
  { cbn. rewrite (filter_perm invalid _ _ Hg). clear. induction txs as [|p txs IH]; [done|]. cbn. unfold invalid at 1.
    destruct (valid p); cbn; [by rewrite <- IH|]. by rewrite <- Permutation_middle, <- IH. }
  exists tr, ts', w'. split; [done|]. split; [done|]. split.
  - by rewrite Hp, (filter_perm valid _ _ Hs).
  - by rewrite Ht, (filter_perm invalid _ _ Hg), (filter_perm invalid _ _ Hs).
Qed.

Lemma checkAll_spec txs w : I w -> exists w', TS.checkAll checkTx txs w = Ret (forallb valid txs) w' /\ I w'.
Proof.
  revert w. induction txs as [|p txs IH]; intros w Hw; cbn [TS.checkAll forallb]; [by exists w|].
  unfold mbind, M_bind. destruct (Hcheck p w Hw) as (w1 & -> & Hw1).
  destruct (valid p); cbn [negb andb]; [by apply IH|by exists w1].
Qed.

Lemma forallb_perm (f : Ptr -> bool) l1 l2 : l1 ≡ₚ l2 -> forallb f l1 = forallb f l2.
Proof.
  intros Hp. apply eq_true_iff_eq. rewrite !forallb_forall.
  split; intros Hf x Hx; apply Hf; revert Hx; rewrite <- !list_elem_of_In, Hp; done.
Qed.

Lemma checkAccounts_spec groups w : I w ->
  exists w', TS.checkAccounts frame sort checkTx groups w = Ret (forallb valid (concat (groups.*2))) w' /\ I w'.
Proof.
  revert w. induction groups as [|[id txs] groups IH]; intros w Hw; cbn [TS.checkAccounts]; [by exists w|].
  unfold mbind, M_bind. destruct (checkAll_spec (sort (TS.SaltSorter frame) txs) w Hw) as (w1 & -> & Hw1).
  cbn [fmap list_fmap concat snd]. rewrite forallb_app, (forallb_perm valid (sort _ txs) txs) by by apply sort_permutation.
  destruct (forallb valid txs); cbn [negb andb]; [by apply IH|by exists w1].
Qed.

Lemma sortedFrom_spec h txs : TS.sortedFrom frame h txs = true <->
  StronglySorted (fun a b => ltb b a = false) (h :: map (TS.getFullHash frame) txs).
Proof.
  revert h. induction txs as [|p txs IH]; intros h; cbn [TS.sortedFrom map].
  - split; [|done]. intros _. repeat constructor.
  - destruct (ltb (TS.getFullHash frame p) h) eqn:E.
    + split; [done|]. intros Hs. apply StronglySorted_inv in Hs as [_ Hf]. apply Forall_inv in Hf. congruence.
    + rewrite IH. split; intros Hs.
      * constructor; [done|]. apply StronglySorted_inv in Hs as [_ Hf]. constructor; [done|].
        eapply Forall_impl; [exact Hf|]. cbn beta. intros h' Hh'. destruct (ltb h' h) eqn:E'; [|done].
        pose proof (leb_ltb_trans _ _ _ Hh' E'). congruence.
      * by apply StronglySorted_inv in Hs as [Hs _].
Qed.

Lemma checkValid_spec lclHash max ts w : I w ->
  exists b w', TS.checkValid frame sort checkTx lclHash max ts w = Ret b w' /\ I w' /\
    (b = true <-> lclHash = mPreviousLedgerHash ts /\ Z.of_nat (length (mTransactions ts)) <= max /\
       StronglySorted (fun a b => ltb b a = false) (TS.zeroHash :: map (TS.getFullHash frame) (mTransactions ts)) /\
       Forall (fun p => valid p = true) (mTransactions ts)).
Proof.
  clear marshal sha256. intros Hw. unfold TS.checkValid. case_bool_decide as E1; cbn [negb]; [|exists false, w; naive_solver].
  destruct (_ >? max) eqn:E2; [exists false, w; split_and!; try done; zify_bool; naive_solver lia|].
  pose proof (sortedFrom_spec TS.zeroHash (mTransactions ts)) as Hsf.
  destruct (TS.sortedFrom _ _ _) eqn:E3; cbn [negb]; [|exists false, w; naive_solver].
  destruct (checkAccounts_spec (TS.groupByAccount frame (mTransactions ts)) w Hw) as (w' & -> & Hw').
  do 2 eexists. split; [done|]. split; [done|]. rewrite (forallb_perm valid _ _ (groupByAccount_perm _)).
  rewrite forallb_forall, Forall_forall. zify_bool. setoid_rewrite list_elem_of_In. naive_solver lia.
Qed.

End Validity.
End TxSetFacts.
