(* ===== verification/Bucket.v ===== *)
(** * Buckets ([bucket/Bucket.cpp], [bucket/LedgerCmp.h])

    A bucket is a file of entries sorted by the identity of the ledger entry
    they are about; a live entry carries its value, a dead one only its key.
    The model of a bucket is the list of its entries.  [assert] is modelled
    as compiled in: a failed assertion is [None].

    [Key] is [LedgerKey] with the order [LedgerEntryIdCmp], [Entry] is
    [LedgerEntry] and [keyOf] takes the key of an entry. *)

From S2P Require Import Prelude OrdContainers.

(** [assert(b); k] *)
Notation "'assert!' b ; k" := (if b then k else None) (at level 10, k at level 200).

Inductive BucketEntry {Key Entry : Type} := LIVEENTRY (e : Entry) | DEADENTRY (k : Key).
Arguments BucketEntry : clear implicits.

Section Bucket.
Context {Key Entry : Type} `{Ord Key} (keyOf : Entry -> Key).

Local Abbreviation BE := (BucketEntry Key Entry).
Local Abbreviation Bucket := (list (BucketEntry Key Entry)).

Definition bkey (e : BE) : Key :=
  match e with LIVEENTRY e => keyOf e | DEADENTRY k => k end.

Definition isDead (e : BE) : bool := match e with DEADENTRY _ => true | LIVEENTRY _ => false end.

(** [BucketEntryIdCmp] *)
Definition BucketEntryIdCmp (a b : BE) : bool :=
  match a, b with
  | LIVEENTRY a, LIVEENTRY b => ltb (keyOf a) (keyOf b)
  | LIVEENTRY a, DEADENTRY b => ltb (keyOf a) b
  | DEADENTRY a, LIVEENTRY b => ltb a (keyOf b)
  | DEADENTRY a, DEADENTRY b => ltb a b
  end.

(** ** Writing a bucket *)

Record OutputIterator := {
  mOut : list BE;
  mBuf : option BE;
  mKeepDeadEntries : bool;
}.

Definition newOutput (keepDeadEntries : bool) : OutputIterator :=
  {| mOut := []; mBuf := None; mKeepDeadEntries := keepDeadEntries |}.

Definition put (out : OutputIterator) (e : BE) : option OutputIterator :=
  if negb (mKeepDeadEntries out) && isDead e then Some out else
  let buffered written :=
    Some {| mOut := written; mBuf := Some e; mKeepDeadEntries := mKeepDeadEntries out |} in
  match mBuf out with
  | Some buf =>
      assert! (negb (BucketEntryIdCmp e buf));
      if BucketEntryIdCmp buf e then buffered (mOut out ++ [buf]) else buffered (mOut out)
  | None => buffered (mOut out)
  end.

(** The bucket made of what was written; an empty one has no file. *)
Definition getBucket (out : OutputIterator) : Bucket :=
  mOut out ++ match mBuf out with Some buf => [buf] | None => [] end.

Fixpoint putAll (out : OutputIterator) (es : list BE) : option OutputIterator :=
  match es with
  | [] => Some out
  | e :: r => out' ← put out e; putAll out' r
  end.

(** ** Merging *)

(** [while (si && cmp(<*>si, <*>in)) ++si;] *)
Fixpoint advanceShadow (si : list BE) (e : BE) : list BE :=
  match si with
  | [] => []
  | s :: r => if BucketEntryIdCmp s e then advanceShadow r e else si
  end.

(** The loop of [maybe_put] over the shadows: whether one of them holds the
    key of the entry, and how far each iterator has moved. *)
Fixpoint checkShadows (sis : list (list BE)) (e : BE) : bool * list (list BE) :=
  match sis with
  | [] => (false, [])
  | si :: r =>
      let si' := advanceShadow si e in
      if match si' with s :: _ => negb (BucketEntryIdCmp e s) | [] => false end
      then (true, si' :: r)
      else let '(b, r') := checkShadows r e in (b, si' :: r')
  end.

Definition maybe_put (out : OutputIterator) (e : BE) (sis : list (list BE))
  : option (OutputIterator * list (list BE)) :=
  let '(shadowed, sis') := checkShadows sis e in
  if shadowed then Some (out, sis') else
  out' ← put out e; Some (out', sis').

(** The loop of [merge]: [oi] and [ni] are what is left of the two inputs. *)
Fixpoint mergeLoop (oi : list BE) : list BE -> list (list BE) -> OutputIterator -> option OutputIterator :=
  fix takeNew ni sis out :=
    match oi, ni with
    | [], [] => Some out
    | o :: oi', [] => '(out', sis') ← maybe_put out o sis; mergeLoop oi' [] sis' out'
    | [], n :: ni' => '(out', sis') ← maybe_put out n sis; takeNew ni' sis' out'
    | o :: oi', n :: ni' =>
        if BucketEntryIdCmp o n then
          '(out', sis') ← maybe_put out o sis; mergeLoop oi' ni sis' out'
        else if BucketEntryIdCmp n o then
          '(out', sis') ← maybe_put out n sis; takeNew ni' sis' out'
        else
          '(out', sis') ← maybe_put out n sis; mergeLoop oi' ni' sis' out'
    end.

Definition merge (oldBucket newBucket : Bucket) (shadows : list Bucket) (keepDeadEntries : bool)
  : option Bucket :=
  out ← mergeLoop oldBucket newBucket shadows (newOutput keepDeadEntries);
  Some (getBucket out).

(** ** A bucket from the changes of one ledger

    [sort] stands for [std::sort] with [BucketEntryIdCmp]. *)

Definition fresh (sort : list BE -> list BE) (liveEntries : list Entry) (deadEntries : list Key)
  : option Bucket :=
  let live := sort (map LIVEENTRY liveEntries) in
  let dead := sort (map DEADENTRY deadEntries) in
  liveOut ← putAll (newOutput true) live;
  deadOut ← putAll (newOutput true) dead;
  merge (getBucket liveOut) (getBucket deadOut) [] true.

(** ** Queries *)

Definition containsBucketIdentity (b : Bucket) (id : BE) : bool :=
  existsb (fun e => negb (BucketEntryIdCmp e id || BucketEntryIdCmp id e)) b.

Definition countLiveAndDeadEntries (b : Bucket) : Z * Z :=
  fold_left (fun c e => if isDead e then (c.1, c.2 + 1) else (c.1 + 1, c.2)) b (0, 0).

End Bucket.
