(* ===== verification/BucketFacts.v ===== *)
(** * Lemmas on buckets

    The merge of [Bucket::merge] against [merged], the merge of two sorted
    lists followed by a filter, and what a lookup in the result finds. *)

From Stdlib Require Import Sorted.
From S2P Require Import Prelude OrdContainers Bucket.

Section BucketFacts.
Context {Key Entry : Type} `{Ord Key} (keyOf : Entry -> Key).

Local Abbreviation BE := (BucketEntry Key Entry).
Local Abbreviation Bucket := (list (BucketEntry Key Entry)).
Local Abbreviation bkey := (bkey keyOf).
Local Abbreviation cmp := (BucketEntryIdCmp keyOf).

Lemma cmp_key (a b : BE) : cmp a b = ltb (bkey a) (bkey b).
Proof. by destruct a, b. Qed.

(** Strictly sorted by key. *)
Definition bsorted (b : Bucket) : Prop := os_sorted (map bkey b).

Definition blookup (k : Key) (b : Bucket) : option BE := List.find (fun e => eqvb k (bkey e)) b.

Definition holds (k : Key) (b : Bucket) : bool := bool_decide (is_Some (blookup k b)).

(** Every entry of [l] has a key above that of [e]. *)
Definition above (e : BE) (l : list BE) : Prop := forall x, x ∈ l -> cmp e x = true.

Lemma bsorted_cons e b : bsorted (e :: b) <-> above e b /\ bsorted b.
Proof.
  unfold bsorted, above. cbn [map os_sorted]. split; intros [Ha Hb]; (split; [|done]).
  - intros x Hx. rewrite cmp_key. apply Ha, list_elem_of_fmap. by exists x.
  - intros y Hy. apply list_elem_of_fmap in Hy as (x & -> & Hx). rewrite <- cmp_key. by apply Ha.
Qed.

Lemma cmp_trans a b c : cmp a b = true -> cmp b c = true -> cmp a c = true.
Proof. rewrite !cmp_key. apply ltb_trans. Qed.

Lemma above_trans a b l : cmp a b = true -> above b l -> above a l.
Proof. intros Hab Hb x Hx. eapply cmp_trans; [exact Hab|by apply Hb]. Qed.

Lemma above_nil e : above e [].
Proof. intros x Hx. by apply elem_of_nil in Hx. Qed.

Lemma above_cons e x l : above e (x :: l) <-> cmp e x = true /\ above e l.
Proof.
  unfold above. split.
  - intros Ha. split; [apply Ha; by left|]. intros y Hy. apply Ha. by right.
  - intros [Hx Ha] y Hy. apply elem_of_cons in Hy as [->|Hy]; auto.
Qed.

(** ** Lookups *)

Lemma blookup_cons k e b : blookup k (e :: b) = if eqvb k (bkey e) then Some e else blookup k b.
Proof. done. Qed.

Lemma blookup_app k b1 b2 : blookup k (b1 ++ b2) =
  match blookup k b1 with Some e => Some e | None => blookup k b2 end.
Proof. induction b1 as [|e b1 IH]; [done|]. cbn [app]. rewrite !blookup_cons. by destruct (eqvb k (bkey e)). Qed.

Lemma blookup_elem k b e : blookup k b = Some e -> e ∈ b /\ bkey e = k.
Proof.
  induction b as [|x b IH]; [done|]. rewrite blookup_cons. destruct (eqvb k (bkey x)) eqn:E.
  - intros [= <-]. apply eqvb_eq in E. split; [by left|done].
  - intros Hb. destruct (IH Hb). split; [by right|done].
Qed.

Lemma blookup_above k e b : above e b -> ltb k (bkey e) = true \/ k = bkey e -> blookup k b = None.
Proof.
  intros Ha Hk. destruct (blookup k b) as [x|] eqn:E; [|done]. apply blookup_elem in E as [Hx <-].
  apply Ha in Hx. rewrite cmp_key in Hx. destruct Hk as [Hk|Hk].
  - by rewrite (ltb_asym _ _ Hk) in Hx.
  - rewrite Hk, ltb_irrefl in Hx. done.
Qed.

Lemma blookup_in b e : bsorted b -> e ∈ b -> blookup (bkey e) b = Some e.
Proof.
  induction b as [|x b IH]; intros Hs He; [by apply elem_of_nil in He|].
  apply bsorted_cons in Hs as [Ha Hs]. rewrite blookup_cons. apply elem_of_cons in He as [<-|He].
  - by rewrite (proj2 (eqvb_eq _ _) eq_refl).
  - apply Ha in He as Hlt. rewrite cmp_key in Hlt. rewrite eqvb_neq; [by apply IH|].
    intros Heq. by rewrite Heq, ltb_irrefl in Hlt.
Qed.

Lemma holds_blookup k b : holds k b = match blookup k b with Some _ => true | None => false end.
Proof. unfold holds. by destruct (blookup k b). Qed.

Lemma above_filter e (f : BE -> bool) l : above e l -> above e (List.filter f l).
Proof. intros Ha x Hx. apply list_elem_of_In, filter_In in Hx as [Hx _]. by apply Ha, list_elem_of_In. Qed.

Lemma bsorted_filter (f : BE -> bool) b : bsorted b -> bsorted (List.filter f b).
Proof.
  induction b as [|e b IH]; [done|]. intros Hs. apply bsorted_cons in Hs as [Ha Hs].
  cbn [List.filter]. destruct (f e); [|by apply IH]. apply bsorted_cons.
  split; [by apply above_filter|by apply IH].
Qed.

(** On a sorted bucket, a filter acts on what the lookup finds. *)
Lemma blookup_filter (f : BE -> bool) b k : bsorted b ->
  blookup k (List.filter f b) =
    match blookup k b with Some e => if f e then Some e else None | None => None end.
Proof.
  induction b as [|e b IH]; [done|]. intros Hs. apply bsorted_cons in Hs as [Ha Hs].
  cbn [List.filter]. rewrite blookup_cons. destruct (eqvb k (bkey e)) eqn:E.
  - apply eqvb_eq in E as ->. destruct (f e).
    + by rewrite blookup_cons, (proj2 (eqvb_eq _ _) eq_refl).
    + apply (blookup_above _ e); auto using above_filter.
  - destruct (f e); [rewrite blookup_cons, E|]; auto.
Qed.

(** ** The merge of two sorted lists *)

Fixpoint merged (oi : list BE) : list BE -> list BE :=
  fix takeNew ni :=
    match oi, ni with
    | [], _ => ni
    | _, [] => oi
    | o :: oi', n :: ni' =>
        if cmp o n then o :: merged oi' ni
        else if cmp n o then n :: takeNew ni'
        else n :: merged oi' ni'
    end.

Lemma merged_nil_l ni : merged [] ni = ni.
Proof. by destruct ni. Qed.

Lemma merged_nil_r oi : merged oi [] = oi.
Proof. by destruct oi. Qed.

Lemma merged_cons o oi n ni : merged (o :: oi) (n :: ni) =
  if cmp o n then o :: merged oi (n :: ni)
  else if cmp n o then n :: merged (o :: oi) ni
  else n :: merged oi ni.
Proof. done. Qed.

(** Induction along [merged]. *)
Lemma merge_ind (P : list BE -> list BE -> Prop) :
  (forall ni, P [] ni) -> (forall oi, P oi []) ->
  (forall o oi n ni, cmp o n = true -> P oi (n :: ni) -> P (o :: oi) (n :: ni)) ->
  (forall o oi n ni, cmp n o = true -> P (o :: oi) ni -> P (o :: oi) (n :: ni)) ->
  (forall o oi n ni, bkey o = bkey n -> P oi ni -> P (o :: oi) (n :: ni)) ->
  forall oi ni, P oi ni.
Proof.
  intros H1 H2 H3 H4 H5. induction oi as [|o oi IHo]; [done|].
  induction ni as [|n ni IHn]; [done|].
  destruct (cmp o n) eqn:E1; [by apply H3|]. destruct (cmp n o) eqn:E2; [by apply H4|].
  apply H5; [|done]. rewrite cmp_key in E1, E2. by apply ltb_total.
Qed.

Lemma cmp_same o n : bkey o = bkey n -> cmp o n = false /\ cmp n o = false.
Proof. intros E. rewrite !cmp_key, E. by rewrite ltb_irrefl. Qed.

Lemma cmp_asym a b : cmp a b = true -> cmp b a = false.
Proof. rewrite !cmp_key. apply ltb_asym. Qed.

Lemma above_merged e oi ni : above e oi -> above e ni -> above e (merged oi ni).
Proof.
  revert oi ni. apply (merge_ind (fun oi ni => above e oi -> above e ni -> above e (merged oi ni))).
  - intros ni _. by rewrite merged_nil_l.
  - intros oi. by rewrite merged_nil_r.
  - intros o oi n ni E IH [Ho Hoi]%above_cons Hn. rewrite merged_cons, E. apply above_cons; auto.
  - intros o oi n ni E IH Ho [Hn Hni]%above_cons. rewrite merged_cons, (cmp_asym _ _ E), E.
    apply above_cons; auto.
  - intros o oi n ni E IH [Ho Hoi]%above_cons [Hn Hni]%above_cons. apply cmp_same in E as [E1 E2].
    rewrite merged_cons, E1, E2. apply above_cons; auto.
Qed.

(** What is below the heads of two sorted lists is below all of them. *)
Lemma above_sorted e x l : bsorted (x :: l) -> cmp e x = true -> above e (x :: l).
Proof. intros [Ha Hs]%bsorted_cons Hx. apply above_cons. split; [done|by eapply above_trans]. Qed.

Lemma above_same o n l : bkey o = bkey n -> above o l -> above n l.
Proof. intros E Ha x Hx. rewrite cmp_key, <- E, <- cmp_key. by apply Ha. Qed.

Lemma merged_sorted oi ni : bsorted oi -> bsorted ni -> bsorted (merged oi ni).
Proof.
  revert oi ni. apply (merge_ind (fun oi ni => bsorted oi -> bsorted ni -> bsorted (merged oi ni))).
  - intros ni _. by rewrite merged_nil_l.
  - intros oi. by rewrite merged_nil_r.
  - intros o oi n ni E IH [Ho Hoi]%bsorted_cons Hn. rewrite merged_cons, E.
    apply bsorted_cons. split; [|auto]. apply above_merged; auto using above_sorted.
  - intros o oi n ni E IH Ho [Hn Hni]%bsorted_cons. rewrite merged_cons, (cmp_asym _ _ E), E.
    apply bsorted_cons. split; [|auto]. apply above_merged; auto using above_sorted.
  - intros o oi n ni E IH [Ho Hoi]%bsorted_cons [Hn Hni]%bsorted_cons.
    pose proof (cmp_same _ _ E) as [E1 E2]. rewrite merged_cons, E1, E2.
    apply bsorted_cons. split; [|auto]. apply above_merged; [by eapply above_same|done].
Qed.

(** The new entry of a key hides the old one. *)
Lemma merged_lookup k oi ni : bsorted oi -> bsorted ni ->
  blookup k (merged oi ni) =
    match blookup k ni with Some e => Some e | None => blookup k oi end.
Proof.
  revert oi ni. apply (merge_ind (fun oi ni => bsorted oi -> bsorted ni ->
    blookup k (merged oi ni) = match blookup k ni with Some e => Some e | None => blookup k oi end)).
  - intros ni _ _. rewrite merged_nil_l. by destruct (blookup k ni).
  - intros oi _ _. by rewrite merged_nil_r.
  - intros o oi n ni E IH Ho Hn. pose proof (above_sorted _ _ _ Hn E) as Ha.
    apply bsorted_cons in Ho as [Ho Hoi]. rewrite merged_cons, E, !(blookup_cons k o), (IH Hoi Hn).
    destruct (eqvb k (bkey o)) eqn:Ek; [|done]. apply eqvb_eq in Ek. rewrite (blookup_above k o); auto.
  - intros o oi n ni E IH Ho [Hn Hni]%bsorted_cons.
    rewrite merged_cons, (cmp_asym _ _ E), E, !(blookup_cons k n), (IH Ho Hni).
    by destruct (eqvb k (bkey n)).
  - intros o oi n ni E IH [Ho Hoi]%bsorted_cons [Hn Hni]%bsorted_cons.
    pose proof (cmp_same _ _ E) as [E1 E2]. rewrite merged_cons, E1, E2, !blookup_cons, (IH Hoi Hni), E.
    by destruct (eqvb k (bkey n)).
Qed.

(** ** The loop of [merge] *)

(** The loop offers the entries of [merged] to [maybe_put], in order. *)
Fixpoint offerAll (l : list BE) (sis : list (list BE)) (out : OutputIterator)
  : option (@OutputIterator Key Entry) :=
  match l with
  | [] => Some out
  | e :: r => '(out', sis') ← maybe_put keyOf out e sis; offerAll r sis' out'
  end.

Lemma mergeLoop_nil_r oi sis out : mergeLoop keyOf oi [] sis out = offerAll oi sis out.
Proof.
  revert sis out. induction oi as [|o oi IH]; intros sis out; [done|].
  cbn [mergeLoop offerAll]. destruct (maybe_put keyOf out o sis) as [[out' sis']|]; [|done]. apply IH.
Qed.

Lemma mergeLoop_nil_l ni sis out : mergeLoop keyOf [] ni sis out = offerAll ni sis out.
Proof.
  revert sis out. induction ni as [|n ni IH]; intros sis out; [done|].
  cbn [offerAll]. destruct (maybe_put keyOf out n sis) as [[out' sis']|] eqn:E.
  - cbn [mergeLoop]. rewrite E. apply IH.
  - cbn [mergeLoop]. by rewrite E.
Qed.

Lemma mergeLoop_offers oi ni sis out :
  mergeLoop keyOf oi ni sis out = offerAll (merged oi ni) sis out.
Proof.
  revert sis out. revert oi ni.
  apply (merge_ind (fun oi ni => forall sis out,
    mergeLoop keyOf oi ni sis out = offerAll (merged oi ni) sis out)).
  - intros ni sis out. by rewrite merged_nil_l, mergeLoop_nil_l.
  - intros oi sis out. by rewrite merged_nil_r, mergeLoop_nil_r.
  - intros o oi n ni E IH sis out. rewrite merged_cons, E. cbn [offerAll].
    destruct (maybe_put keyOf out o sis) as [[out' sis']|] eqn:Ep;
      cbn [mergeLoop]; rewrite E, Ep; [|done]. apply IH.
  - intros o oi n ni E IH sis out. rewrite merged_cons, (cmp_asym _ _ E), E. cbn [offerAll].
    destruct (maybe_put keyOf out n sis) as [[out' sis']|] eqn:Ep;
      cbn [mergeLoop]; rewrite (cmp_asym _ _ E), E, Ep; [|done]. apply IH.
  - intros o oi n ni E IH sis out. apply cmp_same in E as [E1 E2]. rewrite merged_cons, E1, E2. cbn [offerAll].
    destruct (maybe_put keyOf out n sis) as [[out' sis']|] eqn:Ep;
      cbn [mergeLoop]; rewrite E1, E2, Ep; [|done]. apply IH.
Qed.

(** *** Output *)

Definition keeps (keepDead : bool) (e : BE) : bool := keepDead || negb (isDead e).

Definition bufBelow (out : @OutputIterator Key Entry) (l : list BE) : Prop :=
  match mBuf out with Some buf => above buf l | None => True end.

Lemma put_spec out e l : bufBelow out (e :: l) -> above e l ->
  exists out', put keyOf out e = Some out' /\ mKeepDeadEntries out' = mKeepDeadEntries out /\
    getBucket out' = getBucket out ++ (if keeps (mKeepDeadEntries out) e then [e] else []) /\
    bufBelow out' l.
Proof.
  unfold put, keeps, bufBelow. intros Hb Ha.
  destruct (mKeepDeadEntries out) eqn:Ek; [|destruct (isDead e) eqn:Ed].
  2: { exists out. cbn. rewrite app_nil_r. split_and!; [done..|].
       destruct (mBuf out); [|done]. by apply above_cons in Hb as [_ ?]. }
  all: cbn [negb andb orb]; unfold getBucket; destruct (mBuf out) as [buf|].
  all: try (apply above_cons in Hb as [Hb _]; rewrite (cmp_asym _ _ Hb), Hb; cbn [negb]).
  all: eexists; split_and!; [done|done|cbn; by rewrite ?app_nil_r|done].
Qed.

Lemma putAll_sorted out es : bsorted es -> bufBelow out es ->
  exists out', putAll keyOf out es = Some out' /\
    getBucket out' = getBucket out ++ List.filter (keeps (mKeepDeadEntries out)) es.
Proof.
  revert out. induction es as [|e es IH]; intros out Hs Hb.
  - exists out. cbn. by rewrite app_nil_r.
  - apply bsorted_cons in Hs as [Ha Hs].
    destruct (put_spec out e es Hb Ha) as (out1 & Hp & Hk & Hg & Hb1).
    destruct (IH out1 Hs Hb1) as (out2 & Hp2 & Hg2).
    exists out2. cbn [putAll]. rewrite Hp. split; [exact Hp2|].
    rewrite Hg2, Hg, Hk, <- app_assoc. cbn [List.filter].
    by destruct (keeps (mKeepDeadEntries out) e).
Qed.

(** *** Shadows *)

(** [si] is what is left of the shadow [s] when everything passed over is
    below the entries of [l] still to come. *)
Definition behind (l : list BE) (s si : list BE) : Prop :=
  exists passed, s = passed ++ si /\ forall d, d ∈ passed -> above d l.

Lemma behind_weaken l l' s si : (forall x, x ∈ l' -> x ∈ l) -> behind l s si -> behind l' s si.
Proof. intros Hsub (p & -> & Hp). exists p. split; [done|]. intros d Hd x Hx. by apply (Hp d Hd), Hsub. Qed.

Lemma advanceShadow_spec e l s si : bsorted s -> above e l -> behind (e :: l) s si ->
  behind (e :: l) s (advanceShadow keyOf si e) /\
  match advanceShadow keyOf si e with x :: _ => negb (cmp e x) | [] => false end = holds (bkey e) s.
Proof.
  intros Hs Ha. revert s Hs. induction si as [|x si IH]; intros s Hs (p & -> & Hp); cbn [advanceShadow].
  - split; [by exists p|]. rewrite app_nil_r, holds_blookup.
    destruct (blookup (bkey e) p) as [d|] eqn:E; [|done].
    apply blookup_elem in E as [Hd Hk]. apply Hp, above_cons in Hd as [Hd _].
    by rewrite cmp_key, Hk, ltb_irrefl in Hd.
  - destruct (cmp x e) eqn:Ex.
    + replace (p ++ x :: si) with ((p ++ [x]) ++ si) in * by (by rewrite <- app_assoc).
      apply IH; [done|]. exists (p ++ [x]). split; [done|].
      intros d Hd. apply elem_of_app in Hd as [Hd|Hd]; [by apply Hp|].
      apply list_elem_of_singleton in Hd as ->. apply above_cons. split; [done|by eapply above_trans].
    + split; [by exists p|]. rewrite holds_blookup, blookup_app.
      destruct (blookup (bkey e) p) as [d|] eqn:E.
      { apply blookup_elem in E as [Hd Hk]. apply Hp, above_cons in Hd as [Hd _].
        by rewrite cmp_key, Hk, ltb_irrefl in Hd. }
      rewrite blookup_cons. destruct (cmp e x) eqn:Ex'.
      * assert (bsorted (x :: si)) as Hsx.
        { clear -Hs. induction p as [|d p IH]; [done|]. cbn in Hs. apply bsorted_cons in Hs as [_ Hs]. auto. }
        assert (eqvb (bkey e) (bkey x) = false) as ->.
        { unfold eqvb. rewrite <- !cmp_key, Ex'. done. }
        apply bsorted_cons in Hsx as [Hax _]. rewrite (blookup_above _ x); [done|done|].
        left. by rewrite <- cmp_key.
      * assert (eqvb (bkey e) (bkey x) = true) as ->; [|done].
        unfold eqvb. by rewrite <- !cmp_key, Ex, Ex'.
Qed.

Lemma checkShadows_spec e l shadows sis : Forall bsorted shadows -> above e l ->
  Forall2 (behind (e :: l)) shadows sis ->
  exists sis', checkShadows keyOf sis e = (existsb (holds (bkey e)) shadows, sis') /\
    Forall2 (behind (e :: l)) shadows sis'.
Proof.
  intros Hs Ha Hb. induction Hb as [|s si shadows sis H1 Hb IH]; cbn [checkShadows existsb].
  - by exists [].
  - inversion Hs as [|? ? Hs1 Hs2]; subst.
    destruct (advanceShadow_spec e l s si Hs1 Ha H1) as [H2 ->].
    destruct (IH Hs2) as (sis' & -> & Hb').
    destruct (holds (bkey e) s); eexists; (split; [done|]); by constructor.
Qed.

(** Whether an entry reaches the output. *)
Definition passes (shadows : list Bucket) (keepDead : bool) (e : BE) : bool :=
  negb (existsb (holds (bkey e)) shadows) && keeps keepDead e.

Lemma offerAll_spec l shadows sis out : bsorted l -> Forall bsorted shadows ->
  Forall2 (behind l) shadows sis -> bufBelow out l ->
  exists out', offerAll l sis out = Some out' /\
    getBucket out' = getBucket out ++ List.filter (passes shadows (mKeepDeadEntries out)) l.
Proof.
  intros Hl Hs. revert sis out. induction l as [|e l IH]; intros sis out Hb Ho.
  - exists out. cbn. by rewrite app_nil_r.
  - apply bsorted_cons in Hl as [Ha Hl]. cbn [offerAll List.filter]. unfold maybe_put.
    destruct (checkShadows_spec e l shadows sis Hs Ha Hb) as (sis' & -> & Hb').
    assert (Forall2 (behind l) shadows sis') as Hb''.
    { eapply Forall2_impl; [exact Hb'|]. intros s si. apply behind_weaken. intros x Hx. by right. }
    unfold passes at 1. destruct (existsb (holds (bkey e)) shadows); cbn [negb andb].
    + apply (IH Hl sis' out Hb''). unfold bufBelow in *. destruct (mBuf out); [|done].
      by apply above_cons in Ho as [_ ?].
    + destruct (put_spec out e l Ho Ha) as (out1 & Hp & Hk & Hg & Ho1). rewrite Hp. cbn.
      destruct (IH Hl sis' out1 Hb'' Ho1) as (out2 & Hr & Hg2). exists out2. split; [exact Hr|].
      rewrite Hg2, Hg, Hk, <- app_assoc. by destruct (keeps (mKeepDeadEntries out) e).
Qed.

Lemma Forall2_behind_refl l shadows : Forall2 (behind l) shadows shadows.
Proof.
  induction shadows as [|s shadows IH]; constructor; [|done].
  exists []. split; [done|]. intros d Hd. by apply elem_of_nil in Hd.
Qed.

(** ** [merge] *)

Lemma merge_merged old new shadows keepDead :
  bsorted old -> bsorted new -> Forall bsorted shadows ->
  merge keyOf old new shadows keepDead =
    Some (List.filter (passes shadows keepDead) (merged old new)).
Proof.
  intros Ho Hn Hs. unfold merge. rewrite mergeLoop_offers.
  destruct (offerAll_spec (merged old new) shadows shadows (newOutput keepDead)) as (out & -> & Hg);
    [by apply merged_sorted|done|apply Forall2_behind_refl|done|].
  cbn. by rewrite Hg.
Qed.

(** What a lookup in the merge of two buckets finds. *)
Definition mergeView (k : Key) (old new : Bucket) (shadows : list Bucket) (keepDead : bool) : option BE :=
  if existsb (holds k) shadows then None else
  match match blookup k new with Some e => Some e | None => blookup k old end with
  | Some e => if keeps keepDead e then Some e else None
  | None => None
  end.

Lemma merge_spec old new shadows keepDead :
  bsorted old -> bsorted new -> Forall bsorted shadows ->
  exists b, merge keyOf old new shadows keepDead = Some b /\ bsorted b /\
    forall k, blookup k b = mergeView k old new shadows keepDead.
Proof.
  intros Ho Hn Hs. eexists. split; [by apply merge_merged|].
  assert (bsorted (merged old new)) as Hm by (by apply merged_sorted).
  split; [by apply bsorted_filter|]. intros k.
  rewrite blookup_filter, merged_lookup by done. unfold mergeView.
  destruct (match blookup k new with Some e => Some e | None => blookup k old end) as [e|] eqn:E;
    [|by destruct (existsb (holds k) shadows)].
  assert (bkey e = k) as Hk.
  { destruct (blookup k new) as [e1|] eqn:E1; [injection E as <-|].
    - exact (proj2 (blookup_elem _ _ _ E1)).
    - exact (proj2 (blookup_elem _ _ _ E)). }
  unfold passes. rewrite Hk. by destruct (existsb (holds k) shadows), (keeps keepDead e).
Qed.

(** ** [fresh] *)

(** [std::sort] with [BucketEntryIdCmp]: a permutation without inversions;
    the order of entries with the same key is not specified. *)
Class StdSort (sort : list BE -> list BE) : Prop := {
  sort_perm l : sort l ≡ₚ l;
  sort_ordered l : StronglySorted (fun a b => cmp b a = false) (sort l);
}.

Lemma ordered_sorted l : StronglySorted (fun a b => cmp b a = false) l -> NoDup (map bkey l) -> bsorted l.
Proof.
  induction 1 as [|e l Hl IH Ha]; [done|]. cbn [map]. intros [Hin Hnd]%NoDup_cons.
  apply bsorted_cons. split; [|auto]. intros x Hx. rewrite Forall_forall in Ha. specialize (Ha x Hx).
  rewrite cmp_key in *. destruct (ltb (bkey e) (bkey x)) eqn:E; [done|].
  destruct Hin. rewrite (ltb_total _ _ E Ha). apply list_elem_of_fmap. by exists x.
Qed.

Lemma blookup_nodup l e : NoDup (map bkey l) -> e ∈ l -> blookup (bkey e) l = Some e.
Proof.
  induction l as [|x l IH]; intros Hnd He; [by apply elem_of_nil in He|].
  cbn [map] in Hnd. apply NoDup_cons in Hnd as [Hin Hnd]. rewrite blookup_cons.
  apply elem_of_cons in He as [<-|He]; [by rewrite (proj2 (eqvb_eq _ _) eq_refl)|].
  rewrite eqvb_neq; [auto|]. intros Heq. destruct Hin. rewrite <- Heq. apply list_elem_of_fmap. by exists e.
Qed.

Lemma blookup_perm k l l' : l ≡ₚ l' -> NoDup (map bkey l) -> blookup k l = blookup k l'.
Proof.
  intros Hp Hnd. assert (NoDup (map bkey l')) as Hnd' by (by rewrite <- Hp).
  destruct (blookup k l) as [e|] eqn:E.
  - apply blookup_elem in E as [He <-]. rewrite Hp in He. by rewrite (blookup_nodup l').
  - destruct (blookup k l') as [e|] eqn:E'; [|done]. apply blookup_elem in E' as [He <-].
    rewrite <- Hp in He. by rewrite (blookup_nodup l) in E.
Qed.

(** What one ledger writes to a key: a key in both lists is dead. *)
Definition batchWrite (live : list Entry) (dead : list Key) (k : Key) : option BE :=
  if os_mem k dead then Some (DEADENTRY k)
  else LIVEENTRY <$> List.find (fun e => eqvb k (keyOf e)) live.

Lemma blookup_live k live :
  blookup k (map LIVEENTRY live) = LIVEENTRY <$> List.find (fun e => eqvb k (keyOf e)) live.
Proof.
  induction live as [|e live IH]; [done|]. cbn [map List.find]. rewrite blookup_cons. cbn [Bucket.bkey].
  by destruct (eqvb k (keyOf e)).
Qed.

Lemma blookup_dead k dead : blookup k (map DEADENTRY dead) = if os_mem k dead then Some (DEADENTRY k) else None.
Proof.
  induction dead as [|d dead IH]; [done|]. cbn [map os_mem existsb]. rewrite blookup_cons. cbn [Bucket.bkey].
  destruct (eqvb k d) eqn:E; [|done]. apply eqvb_eq in E as ->. done.
Qed.

Lemma mergeView_plain k old new : mergeView k old new [] true =
  match blookup k new with Some e => Some e | None => blookup k old end.
Proof. unfold mergeView, keeps. cbn. by destruct (blookup k new), (blookup k old). Qed.

(** A sorted list goes through [putAll] unchanged. *)
Lemma putAll_written es : bsorted es ->
  exists out, putAll keyOf (newOutput true) es = Some out /\ getBucket out = es.
Proof.
  intros Hs. destruct (putAll_sorted (newOutput true) es Hs I) as (out & Hp & Hg).
  exists out. split; [done|]. rewrite Hg. cbn [newOutput mKeepDeadEntries]. unfold getBucket. cbn [mOut mBuf newOutput app].
  apply forallb_filter_id, forallb_forall. done.
Qed.

Lemma fresh_spec sort live dead : StdSort sort -> NoDup (map keyOf live) -> NoDup dead ->
  exists b, fresh keyOf sort live dead = Some b /\ bsorted b /\
    forall k, blookup k b = batchWrite live dead k.
Proof.
  intros Hsort Hl Hd. unfold fresh.
  assert (forall es, NoDup (map bkey es) -> bsorted (sort es)) as Hs.
  { intros es Hes. apply ordered_sorted; [apply sort_ordered|]. by rewrite sort_perm. }
  assert (NoDup (map bkey (map LIVEENTRY live))) as Hl' by (by rewrite map_map).
  assert (NoDup (map bkey (map DEADENTRY dead))) as Hd' by (rewrite map_map; cbn; by rewrite map_id).
  destruct (putAll_written _ (Hs _ Hl')) as (o1 & -> & Hg1).
  destruct (putAll_written _ (Hs _ Hd')) as (o2 & Hp2 & Hg2). cbn [mbind option_bind].
  rewrite Hp2. cbn [mbind option_bind]. rewrite Hg1, Hg2.
  destruct (merge_spec (sort (map LIVEENTRY live)) (sort (map DEADENTRY dead)) [] true) as (b & -> & Hb & Hv);
    [by apply Hs|by apply Hs|done|].
  exists b. split; [done|]. split; [done|]. intros k. rewrite Hv, mergeView_plain.
  rewrite !(blookup_perm k (sort _) _ (sort_perm _)) by (by rewrite sort_perm).
  rewrite blookup_live, blookup_dead. unfold batchWrite. by destruct (os_mem k dead).
Qed.

End BucketFacts.
