(* ===== verification/FutureBucket.v ===== *)
(** * Buckets being merged ([bucket/FutureBucket.h], [bucket/FutureBucket.cpp])

    A [FutureBucket] is the result of a merge that runs on a worker thread.
    The [std::shared_future] is modelled by the value it will have, computed
    by [merge] when the merge starts, and by whether it is known to be
    ready; [get] waits, and the future is ready afterwards.  The hashes of
    the inputs and of the output are what is written to the persistent state.

    [getHash] is the hash of a bucket, [binToHex] and [hexToBin256] convert
    hashes to strings and back, [getBucketByHash] finds a bucket in the
    directory of the bucket manager. *)

From S2P Require Import Prelude OrdContainers Bucket.

Abbreviation BHash := (list Z) (only parsing).
Abbreviation HexString := (list Z) (only parsing).

Inductive FBState :=
| FB_CLEAR | FB_HASH_OUTPUT | FB_HASH_INPUTS | FB_LIVE_OUTPUT | FB_LIVE_INPUTS.
Global Instance FBState_eq_dec : EqDecision FBState.
Proof. solve_decision. Defined.

Record Future {B : Type} := { f_ready : bool; f_value : B }.
Arguments Future : clear implicits.

Record FutureBucket {B : Type} := {
  mState : FBState;
  mInputCurrBucket : option B;
  mInputSnapBucket : option B;
  mInputShadowBuckets : list B;
  mOutputBucket : option (Future B);
  mInputCurrBucketHash : HexString;
  mInputSnapBucketHash : HexString;
  mInputShadowBucketHashes : list HexString;
  mOutputBucketHash : HexString;
  fKeepDeadEntries : bool;
}.
Arguments FutureBucket : clear implicits.

(** What [save] writes and [load] reads. *)
Record SavedFuture := {
  sv_state : FBState;
  sv_curr : HexString;
  sv_snap : HexString;
  sv_shadow : list HexString;
  sv_output : HexString;
}.

(** Services of other components. *)
Record BucketServices (B : Type) := {
  getHash : B -> BHash;
  binToHex : BHash -> HexString;
  hexToBin256 : HexString -> option BHash;
  getBucketByHash : BHash -> option B;
  (** Whether the merge of a level is complete when the state of a ledger is saved. *)
  mergeReady : Z -> nat -> bool;
}.
Arguments getHash {B} _ _. Arguments binToHex {B} _ _.
Arguments hexToBin256 {B} _ _. Arguments getBucketByHash {B} _ _.
Arguments mergeReady {B} _ _ _.

Definition emptyStr {A} (s : list A) : bool := match s with [] => true | _ => false end.
Definition isNull {A} (o : option A) : bool := match o with Some _ => false | None => true end.

Module FB.
Section FB.
Context {Key Entry : Type} `{Ord Key} (keyOf : Entry -> Key).
Local Abbreviation Bucket := (list (BucketEntry Key Entry)).
Context (sv : BucketServices Bucket).
Implicit Types f : FutureBucket Bucket.

Definition hexOf (b : Bucket) : HexString := binToHex sv (getHash sv b).

(** The default constructor leaves [mKeepDeadEntries] uninitialized:
    [garbage] is what the memory holds. *)
Definition newFuture (garbage : bool) : FutureBucket Bucket :=
  {| mState := FB_CLEAR; mInputCurrBucket := None; mInputSnapBucket := None;
     mInputShadowBuckets := []; mOutputBucket := None; mInputCurrBucketHash := [];
     mInputSnapBucketHash := []; mInputShadowBucketHashes := []; mOutputBucketHash := [];
     fKeepDeadEntries := garbage |}.

Definition isLive f : bool :=
  bool_decide (mState f = FB_LIVE_INPUTS) || bool_decide (mState f = FB_LIVE_OUTPUT).
Definition isMerging f : bool := bool_decide (mState f = FB_LIVE_INPUTS).
Definition hasHashes f : bool :=
  bool_decide (mState f = FB_HASH_INPUTS) || bool_decide (mState f = FB_HASH_OUTPUT).

(** Asserts [isLive()]; an invalid future is undefined behaviour. *)
Definition mergeComplete f : option bool :=
  assert! (isLive f); out ← mOutputBucket f; Some (f_ready out).

(** [assert(b->getHash() == hexToBin256(h))]; the conversion may throw. *)
Definition checkHashEq (b : Bucket) (h : HexString) : bool :=
  match hexToBin256 sv h with
  | Some h' => bool_decide (getHash sv b = h')
  | None => false
  end.

Definition checkHashesMatch f : bool :=
  (emptyStr (mInputShadowBuckets f) ||
   (bool_decide (length (mInputShadowBuckets f) = length (mInputShadowBucketHashes f)) &&
    forallb (fun p => checkHashEq p.1 p.2)
      (combine (mInputShadowBuckets f) (mInputShadowBucketHashes f)))) &&
  match mInputSnapBucket f with Some b => checkHashEq b (mInputSnapBucketHash f) | None => true end &&
  match mInputCurrBucket f with Some b => checkHashEq b (mInputCurrBucketHash f) | None => true end &&
  match mOutputBucket f with
  | Some out =>
      match mergeComplete f with
      | Some ready =>
          if ready && negb (emptyStr (mOutputBucketHash f))
          then checkHashEq (f_value out) (mOutputBucketHash f) else true
      | None => false
      end
  | None => true
  end.

(** Whether every assertion of [checkState] holds. *)
Definition checkState f : bool :=
  let noInputs := isNull (mInputSnapBucket f) && isNull (mInputCurrBucket f) in
  match mState f with
  | FB_CLEAR =>
      emptyStr (mInputShadowBuckets f) && noInputs && isNull (mOutputBucket f) &&
      emptyStr (mInputShadowBucketHashes f) && emptyStr (mInputSnapBucketHash f) &&
      emptyStr (mInputCurrBucketHash f) && emptyStr (mOutputBucketHash f)
  | FB_LIVE_INPUTS =>
      negb (isNull (mInputSnapBucket f)) && negb (isNull (mInputCurrBucket f)) &&
      negb (isNull (mOutputBucket f)) && emptyStr (mOutputBucketHash f) && checkHashesMatch f
  | FB_LIVE_OUTPUT =>
      match mergeComplete f with Some true => true | _ => false end &&
      negb (isNull (mOutputBucket f)) && negb (emptyStr (mOutputBucketHash f)) && checkHashesMatch f
  | FB_HASH_INPUTS =>
      noInputs && isNull (mOutputBucket f) && negb (emptyStr (mInputSnapBucketHash f)) &&
      negb (emptyStr (mInputCurrBucketHash f)) && emptyStr (mOutputBucketHash f)
  | FB_HASH_OUTPUT =>
      noInputs && isNull (mOutputBucket f) && emptyStr (mInputSnapBucketHash f) &&
      emptyStr (mInputCurrBucketHash f) && negb (emptyStr (mOutputBucketHash f))
  end.

Definition clearInputs f : FutureBucket Bucket :=
  {| mState := mState f; mInputCurrBucket := None; mInputSnapBucket := None;
     mInputShadowBuckets := []; mOutputBucket := mOutputBucket f; mInputCurrBucketHash := [];
     mInputSnapBucketHash := []; mInputShadowBucketHashes := [];
     mOutputBucketHash := mOutputBucketHash f; fKeepDeadEntries := fKeepDeadEntries f |}.

Definition setOutput f st out h : FutureBucket Bucket :=
  {| mState := st; mInputCurrBucket := mInputCurrBucket f; mInputSnapBucket := mInputSnapBucket f;
     mInputShadowBuckets := mInputShadowBuckets f; mOutputBucket := out;
     mInputCurrBucketHash := mInputCurrBucketHash f; mInputSnapBucketHash := mInputSnapBucketHash f;
     mInputShadowBucketHashes := mInputShadowBucketHashes f; mOutputBucketHash := h;
     fKeepDeadEntries := fKeepDeadEntries f |}.

Definition clearOutput f : FutureBucket Bucket := setOutput f (mState f) None [].

Definition clear f : FutureBucket Bucket :=
  clearOutput (clearInputs (setOutput f FB_CLEAR (mOutputBucket f) (mOutputBucketHash f))).

Definition setLiveOutput f (output : Bucket) : option (FutureBucket Bucket) :=
  let f' := setOutput f FB_LIVE_OUTPUT (Some {| f_ready := true; f_value := output |}) (hexOf output) in
  assert! (checkState f'); Some f'.

(** Starts the merge; its result is that of [Bucket::merge] on the worker. *)
Definition startMerge f : option (FutureBucket Bucket) :=
  assert! (isMerging f);
  curr ← mInputCurrBucket f;
  snap ← mInputSnapBucket f;
  assert! (isNull (mOutputBucket f));
  res ← merge keyOf curr snap (mInputShadowBuckets f) (fKeepDeadEntries f);
  let f' := setOutput f (mState f) (Some {| f_ready := false; f_value := res |}) (mOutputBucketHash f) in
  assert! (checkState f'); Some f'.

(** [FutureBucket(app, curr, snap, shadows, keepDeadEntries)] *)
Definition startFuture (curr snap : Bucket) (shadows : list Bucket) (keepDeadEntries : bool)
  : option (FutureBucket Bucket) :=
  startMerge
    {| mState := FB_LIVE_INPUTS; mInputCurrBucket := Some curr; mInputSnapBucket := Some snap;
       mInputShadowBuckets := shadows; mOutputBucket := None;
       mInputCurrBucketHash := hexOf curr; mInputSnapBucketHash := hexOf snap;
       mInputShadowBucketHashes := map hexOf shadows; mOutputBucketHash := [];
       fKeepDeadEntries := keepDeadEntries |}.

(** [FutureBucket(output)] *)
Definition doneFuture (garbage : bool) (output : Bucket) : option (FutureBucket Bucket) :=
  setLiveOutput (newFuture garbage) output.

Definition resolve f : option (Bucket * FutureBucket Bucket) :=
  assert! (checkState f);
  assert! (isLive f);
  let f1 := clearInputs f in
  out ← mOutputBucket f1;
  let bucket := f_value out in
  let got := Some {| f_ready := true; f_value := bucket |} in
  let h := mOutputBucketHash f1 in
  assert! (if emptyStr h then true else checkHashEq bucket h);
  let f2 := setOutput f1 FB_LIVE_OUTPUT got (if emptyStr h then hexOf bucket else h) in
  assert! (checkState f2); Some (bucket, f2).

Definition hasOutputHash f : option bool :=
  match mState f with
  | FB_LIVE_OUTPUT | FB_HASH_OUTPUT => assert! (negb (emptyStr (mOutputBucketHash f))); Some true
  | _ => Some false
  end.

Definition getOutputHash f : option HexString :=
  match mState f with
  | FB_LIVE_OUTPUT | FB_HASH_OUTPUT => assert! (negb (emptyStr (mOutputBucketHash f)));
                                       Some (mOutputBucketHash f)
  | _ => None
  end.

Definition fetch (h : HexString) : option Bucket :=
  h' ← hexToBin256 sv h; getBucketByHash sv h'.

Fixpoint fetchAll (hs : list HexString) : option (list Bucket) :=
  match hs with
  | [] => Some []
  | h :: r => b ← fetch h; bs ← fetchAll r; Some (b :: bs)
  end.

Definition makeLive f : option (FutureBucket Bucket) :=
  assert! (checkState f);
  assert! (negb (isLive f));
  assert! (hasHashes f);
  known ← hasOutputHash f;
  if known : bool then
    h ← getOutputHash f; b ← fetch h; setLiveOutput f b
  else
    assert! (bool_decide (mState f = FB_HASH_INPUTS));
    curr ← fetch (mInputCurrBucketHash f);
    snap ← fetch (mInputSnapBucketHash f);
    assert! (emptyStr (mInputShadowBuckets f));
    shadows ← fetchAll (mInputShadowBucketHashes f);
    f' ← startMerge
      {| mState := FB_LIVE_INPUTS; mInputCurrBucket := Some curr; mInputSnapBucket := Some snap;
         mInputShadowBuckets := shadows; mOutputBucket := mOutputBucket f;
         mInputCurrBucketHash := mInputCurrBucketHash f;
         mInputSnapBucketHash := mInputSnapBucketHash f;
         mInputShadowBucketHashes := mInputShadowBucketHashes f;
         mOutputBucketHash := mOutputBucketHash f; fKeepDeadEntries := fKeepDeadEntries f |};
    assert! (isLive f'); Some f'.

Definition getHashes f : list HexString :=
  (if emptyStr (mInputCurrBucketHash f) then [] else [mInputCurrBucketHash f]) ++
  (if emptyStr (mInputSnapBucketHash f) then [] else [mInputSnapBucketHash f]) ++
  mInputShadowBucketHashes f ++
  (if emptyStr (mOutputBucketHash f) then [] else [mOutputBucketHash f]).

(** ** Persistence *)

Definition save f : option SavedFuture :=
  assert! (checkState f);
  match mState f with
  | FB_LIVE_INPUTS | FB_HASH_INPUTS =>
      Some {| sv_state := FB_HASH_INPUTS; sv_curr := mInputCurrBucketHash f;
              sv_snap := mInputSnapBucketHash f; sv_shadow := mInputShadowBucketHashes f;
              sv_output := [] |}
  | FB_LIVE_OUTPUT | FB_HASH_OUTPUT =>
      Some {| sv_state := FB_HASH_OUTPUT; sv_curr := []; sv_snap := []; sv_shadow := [];
              sv_output := mOutputBucketHash f |}
  | FB_CLEAR => Some {| sv_state := FB_CLEAR; sv_curr := []; sv_snap := []; sv_shadow := [];
                        sv_output := [] |}
  end.

Definition load f (s : SavedFuture) : option (FutureBucket Bucket) :=
  let f0 := clear f in
  let loaded c sn sh o :=
    {| mState := sv_state s; mInputCurrBucket := mInputCurrBucket f0;
       mInputSnapBucket := mInputSnapBucket f0; mInputShadowBuckets := mInputShadowBuckets f0;
       mOutputBucket := mOutputBucket f0; mInputCurrBucketHash := c; mInputSnapBucketHash := sn;
       mInputShadowBucketHashes := sh; mOutputBucketHash := o;
       fKeepDeadEntries := fKeepDeadEntries f0 |} in
  f' ← match sv_state s with
       | FB_HASH_INPUTS => Some (loaded (sv_curr s) (sv_snap s) (sv_shadow s) [])
       | FB_HASH_OUTPUT => Some (loaded [] [] [] (sv_output s))
       | FB_CLEAR => Some (loaded [] [] [] [])
       | _ => None
       end;
  assert! (checkState f'); Some f'.

End FB.
End FB.

(** * Lemmas on future buckets *)

(** What the code relies on: hashes survive the conversion to a string and
    back, and their string is not empty. *)
Class BucketServicesOk {B} (sv : BucketServices B) : Prop := {
  hex_roundtrip b : hexToBin256 sv (binToHex sv (getHash sv b)) = Some (getHash sv b);
  hex_nonempty b : emptyStr (binToHex sv (getHash sv b)) = false;
}.

Section FutureFacts.
Context {Key Entry : Type} `{Ord Key} (keyOf : Entry -> Key).
Local Abbreviation Bucket := (list (BucketEntry Key Entry)).
Context (sv : BucketServices Bucket) `{!BucketServicesOk sv}.
Implicit Types (b c s : Bucket) (sh : list Bucket).

Lemma checkHashEq_hexOf b : FB.checkHashEq sv b (FB.hexOf sv b) = true.
Proof. unfold FB.checkHashEq, FB.hexOf. rewrite hex_roundtrip. by apply bool_decide_eq_true_2. Qed.

Lemma hexOf_nonempty b : emptyStr (FB.hexOf sv b) = false.
Proof. apply hex_nonempty. Qed.

Lemma check_shadows sh :
  emptyStr sh || bool_decide (length sh = length (map (FB.hexOf sv) sh)) &&
    forallb (fun p => FB.checkHashEq sv p.1 p.2) (combine sh (map (FB.hexOf sv) sh)) = true.
Proof.
  rewrite length_map, bool_decide_eq_true_2 by done. apply orb_true_iff. right. cbn [andb].
  induction sh as [|b sh IH]; [done|]. cbn. by rewrite checkHashEq_hexOf, IH.
Qed.

(** A merge in progress, with the result it will have. *)
Definition merging c s sh (kd : bool) b : FutureBucket Bucket :=
  {| mState := FB_LIVE_INPUTS; mInputCurrBucket := Some c; mInputSnapBucket := Some s;
     mInputShadowBuckets := sh; mOutputBucket := Some {| f_ready := false; f_value := b |};
     mInputCurrBucketHash := FB.hexOf sv c; mInputSnapBucketHash := FB.hexOf sv s;
     mInputShadowBucketHashes := map (FB.hexOf sv) sh; mOutputBucketHash := [];
     fKeepDeadEntries := kd |}.

(** A future whose output is known, without inputs. *)
Definition resolved (kd : bool) b : FutureBucket Bucket :=
  {| mState := FB_LIVE_OUTPUT; mInputCurrBucket := None; mInputSnapBucket := None;
     mInputShadowBuckets := []; mOutputBucket := Some {| f_ready := true; f_value := b |};
     mInputCurrBucketHash := []; mInputSnapBucketHash := []; mInputShadowBucketHashes := [];
     mOutputBucketHash := FB.hexOf sv b; fKeepDeadEntries := kd |}.

Lemma merging_check c s sh kd b : FB.checkState sv (merging c s sh kd b) = true.
Proof.
  unfold FB.checkState, FB.checkHashesMatch, FB.mergeComplete, merging. cbn -[FB.checkHashEq FB.hexOf orb].
  by rewrite check_shadows, !checkHashEq_hexOf.
Qed.

Lemma resolved_check kd b : FB.checkState sv (resolved kd b) = true.
Proof.
  unfold FB.checkState, FB.checkHashesMatch, FB.mergeComplete, resolved. cbn -[FB.checkHashEq FB.hexOf].
  by rewrite hexOf_nonempty, checkHashEq_hexOf.
Qed.

Lemma startFuture_merging c s sh kd b : merge keyOf c s sh kd = Some b ->
  FB.startFuture keyOf sv c s sh kd = Some (merging c s sh kd b).
Proof.
  intros Hm. unfold FB.startFuture, FB.startMerge. cbn -[merge FB.checkState FB.hexOf].
  rewrite Hm. cbn -[FB.checkState FB.hexOf]. change (FB.setOutput _ _ _ _) with (merging c s sh kd b).
  by rewrite merging_check.
Qed.

Lemma resolve_merging c s sh kd b :
  FB.resolve sv (merging c s sh kd b) = Some (b, resolved kd b).
Proof.
  unfold FB.resolve. rewrite merging_check. cbn -[FB.checkState FB.hexOf].
  change (FB.setOutput _ _ _ _) with (resolved kd b). by rewrite resolved_check.
Qed.

Lemma resolve_resolved kd b : FB.resolve sv (resolved kd b) = Some (b, resolved kd b).
Proof.
  unfold FB.resolve. rewrite resolved_check. cbn -[FB.checkState FB.hexOf FB.checkHashEq].
  rewrite hexOf_nonempty, checkHashEq_hexOf. change (FB.setOutput _ _ _ _) with (resolved kd b). by rewrite resolved_check.
Qed.

(** ** Saving and restarting *)

(** The buckets of a merge are in the directory of the bucket manager. *)
Definition stored b : Prop := FB.fetch sv (FB.hexOf sv b) = Some b.

Lemma fetchAll_stored sh : Forall stored sh -> FB.fetchAll sv (map (FB.hexOf sv) sh) = Some sh.
Proof. induction 1 as [|b sh Hb _ IH]; [done|]. cbn -[FB.fetch]. rewrite Hb. cbn. by rewrite IH. Qed.

(** A restarted merge uses the inputs of the original one, but not its
    [keepDeadEntries]: that is whatever [g] was in memory. *)
Lemma restart_merging g c s sh kd b b' : stored c -> stored s -> Forall stored sh ->
  merge keyOf c s sh g = Some b' ->
  (saved ← FB.save sv (merging c s sh kd b); f ← FB.load sv (FB.newFuture g) saved;
   FB.makeLive keyOf sv f) = Some (merging c s sh g b').
Proof.
  intros Hc Hs Hsh Hm. unfold FB.save. rewrite merging_check. cbn -[FB.load FB.makeLive FB.hexOf].
  unfold FB.load. cbn -[FB.checkState FB.makeLive FB.hexOf].
  set (f := {| mState := FB_HASH_INPUTS |}).
  assert (FB.checkState sv f = true) as Hf.
  { unfold f, FB.checkState. cbn -[FB.hexOf]. by rewrite !hexOf_nonempty. }
  rewrite Hf. cbn -[FB.makeLive]. unfold FB.makeLive. rewrite Hf. cbn -[FB.fetch FB.fetchAll FB.startMerge FB.hexOf].
  rewrite Hc, Hs. cbn -[FB.fetch FB.fetchAll FB.startMerge FB.hexOf].
  rewrite fetchAll_stored by done. cbn -[FB.startMerge FB.hexOf].
  change (FB.startMerge keyOf sv _) with (FB.startFuture keyOf sv c s sh g).
  by rewrite (startFuture_merging _ _ _ _ _ Hm).
Qed.

Lemma restart_resolved g kd b : stored b ->
  (saved ← FB.save sv (resolved kd b); f ← FB.load sv (FB.newFuture g) saved; FB.makeLive keyOf sv f) = Some (resolved g b).
Proof.
  intros Hb. unfold FB.save. rewrite resolved_check.
  cbn -[FB.load FB.makeLive FB.hexOf]. unfold FB.load. cbn -[FB.checkState FB.makeLive FB.hexOf].
  set (f := {| mState := FB_HASH_OUTPUT |}).
  assert (FB.checkState sv f = true) as Hf.
  { unfold f, FB.checkState. cbn -[FB.hexOf]. by rewrite !hexOf_nonempty. }
  rewrite Hf. cbn -[FB.makeLive]. unfold FB.makeLive. rewrite Hf. cbn -[FB.fetch FB.setLiveOutput FB.hexOf].
  rewrite hexOf_nonempty. cbn -[FB.fetch FB.setLiveOutput FB.hexOf]. rewrite Hb.
  cbn -[FB.checkState FB.hexOf]. unfold FB.setLiveOutput.
  change (FB.setOutput f _ _ _) with (resolved g b). by rewrite resolved_check.
Qed.

End FutureFacts.
