(* ===== verification/BucketList.v ===== *)
(** * The bucket list ([bucket/BucketList.h], [bucket/BucketList.cpp])

    Eleven levels of two buckets each, [mCurr] and [mSnap], every level four
    times the size of the one before.  When a level is half full its [mCurr]
    becomes its [mSnap] and is merged into the next level in the background;
    the result replaces the [mCurr] of that level at the next spill. *)

From S2P Require Import Prelude OrdContainers Bucket FutureBucket.

Definition kNumLevels : nat := 11.

Record BucketLevel {B : Type} := {
  mLevel : nat;
  mNextCurr : FutureBucket B;
  mCurr : B;
  mSnap : B;
}.
Arguments BucketLevel : clear implicits.

(** [HistoryStateBucket]: a level as it is written to the persistent state. *)
Record SavedLevel := {
  hs_curr : HexString;
  hs_next : SavedFuture;
  hs_snap : HexString;
}.

Module BL.

(** ** The schedule *)

Definition levelSize (level : nat) : option Z :=
  assert! (bool_decide (level < kNumLevels)%nat);
  Some (u32 (Z.shiftl 1 (2 * (u32 (Z.of_nat level) + 1)))).

Definition levelHalf (level : nat) : option Z :=
  size ← levelSize level; Some (Z.shiftr size 1).

Definition mask (v m : Z) : Z := Z.land v (u32 (Z.lnot (u32 (m - 1)))).

Definition levelShouldSpill (ledger : Z) (level : nat) : option bool :=
  if bool_decide (level = (kNumLevels - 1)%nat) then Some false else
  half ← levelHalf level;
  if ledger =? mask ledger half then Some true else
  size ← levelSize level;
  Some (ledger =? mask ledger size).

Section BL.
Context {Key Entry : Type} `{Ord Key} (keyOf : Entry -> Key).
Local Abbreviation Bucket := (list (BucketEntry Key Entry)).
Context (sv : BucketServices Bucket) (sort : Bucket -> Bucket).
Implicit Types l : BucketLevel Bucket.

(** ** One level *)

(** [garbage] is the memory [mKeepDeadEntries] of [mNextCurr] is made in. *)
Definition newLevel (garbage : bool) (i : nat) : BucketLevel Bucket :=
  {| mLevel := i; mNextCurr := FB.newFuture garbage; mCurr := []; mSnap := [] |}.

Definition setNext l (fb : FutureBucket Bucket) : BucketLevel Bucket :=
  {| mLevel := mLevel l; mNextCurr := fb; mCurr := mCurr l; mSnap := mSnap l |}.

(** The retain flags of the buckets only decide when files are deleted. *)
Definition setCurr l (b : Bucket) : BucketLevel Bucket :=
  {| mLevel := mLevel l; mNextCurr := FB.clear (mNextCurr l); mCurr := b; mSnap := mSnap l |}.

Definition setSnap l (b : Bucket) : BucketLevel Bucket :=
  {| mLevel := mLevel l; mNextCurr := mNextCurr l; mCurr := mCurr l; mSnap := b |}.

Definition commit l : option (BucketLevel Bucket) :=
  l' ← if FB.isLive (mNextCurr l) then
         '(b, next) ← FB.resolve sv (mNextCurr l);
         Some (setCurr (setNext l next) b)
       else Some l;
  assert! (negb (FB.isMerging (mNextCurr l'))); Some l'.

(** Whether [prepare] leaves out [mCurr], which will be a snapshot by the
    time the merge is committed. *)
Definition skipsCurr (level : nat) (currLedger : Z) : option bool :=
  match level with
  | O => Some false
  | S below =>
      half ← levelHalf below;
      levelShouldSpill (u32 (currLedger + half)) level
  end.

Definition prepare l (currLedger : Z) (snap : Bucket) (shadows : list Bucket)
  : option (BucketLevel Bucket) :=
  assert! (negb (FB.isMerging (mNextCurr l)));
  skip ← skipsCurr (mLevel l) currLedger;
  let curr := if skip : bool then [] else mCurr l in
  let keepDeadEntries := bool_decide (mLevel l < kNumLevels - 1)%nat in
  next ← FB.startFuture keyOf sv curr snap shadows keepDeadEntries;
  assert! (FB.isMerging next);
  Some (setNext l next).

(** [snap()]: the level afterwards, and its new snapshot. *)
Definition snap l : BucketLevel Bucket * Bucket :=
  ({| mLevel := mLevel l; mNextCurr := mNextCurr l; mCurr := []; mSnap := mCurr l |}, mCurr l).

(** ** The list *)

Abbreviation BucketList := (list (BucketLevel Bucket)).

Definition newBucketList (garbage : bool) : BucketList := map (newLevel garbage) (seq 0 kNumLevels).

Definition getLevel (bl : BucketList) (i : nat) : option (BucketLevel Bucket) := bl !! i.

(** [shadows.pop_back()] twice, after the assertion on the size. *)
Definition pop2 (shadows : list Bucket) : option (list Bucket) :=
  assert! (bool_decide (2 <= length shadows)%nat);
  Some (removelast (removelast shadows)).

(** The body of the loop when level [below] spills into the next one. *)
Definition spillLevel (currLedger : Z) (below : nat) (bl : BucketList) (shadows : list Bucket)
  : option BucketList :=
  young ← bl !! below;
  let '(young', snapped) := snap young in
  let bl1 := <[below := young']> bl in
  level ← bl1 !! S below;
  level1 ← commit level;
  level2 ← prepare level1 currLedger snapped shadows;
  Some (<[S below := level2]> bl1).

(** The loop over the levels [i], ..., 1. *)
Fixpoint spillLoop (currLedger : Z) (i : nat) (bl : BucketList) (shadows : list Bucket)
  : option (BucketList * list Bucket) :=
  match i with
  | O => Some (bl, shadows)
  | S below =>
      shadows' ← pop2 shadows;
      spill ← levelShouldSpill currLedger below;
      bl' ← if spill : bool then spillLevel currLedger below bl shadows' else Some bl;
      spillLoop currLedger below bl' shadows'
  end.

Definition addBatch (currLedger : Z) (liveEntries : list Entry) (deadEntries : list Key)
    (bl : BucketList) : option BucketList :=
  assert! (currLedger >? 0);
  let shadows := concat (map (fun level => [mCurr level; mSnap level]) bl) in
  shadows0 ← pop2 shadows;
  '(bl1, shadows1) ← spillLoop currLedger (length bl - 1)%nat bl shadows0;
  assert! (emptyStr shadows1);
  batch ← fresh keyOf sort liveEntries deadEntries;
  level0 ← bl1 !! 0%nat;
  level1 ← prepare level0 currLedger batch shadows1;
  level2 ← commit level1;
  Some (<[0%nat := level2]> bl1).

Fixpoint restartMerges (bl : BucketList) : option BucketList :=
  match bl with
  | [] => Some []
  | level :: r =>
      let next := mNextCurr level in
      level' ← if FB.hasHashes next && negb (FB.isLive next)
               then next' ← FB.makeLive keyOf sv next; Some (setNext level next')
               else Some level;
      r' ← restartMerges r;
      Some (level' :: r')
  end.

(** ** The saved state *)

(** The constructor of [HistoryArchiveState] takes copies of the futures;
    [resolveAnyReadyFutures] resolves those that are complete. *)
Definition saveLevel (ready : bool) l : option SavedLevel :=
  next ← if FB.isMerging (mNextCurr l) && ready
         then '(_, next) ← FB.resolve sv (mNextCurr l); Some next
         else Some (mNextCurr l);
  saved ← FB.save sv next;
  Some {| hs_curr := FB.hexOf sv (mCurr l); hs_next := saved; hs_snap := FB.hexOf sv (mSnap l) |}.

Fixpoint saveLevels (ready : nat -> bool) (i : nat) (bl : BucketList) : option (list SavedLevel) :=
  match bl with
  | [] => Some []
  | l :: r => s ← saveLevel (ready i) l; rest ← saveLevels ready (S i) r; Some (s :: rest)
  end.

(** [BucketManagerImpl::assumeState], into the list of a new process;
    [garbage] is the memory that the futures of the levels are loaded into. *)
Definition assumeLevel (garbage : bool) (i : nat) (s : SavedLevel) : option (BucketLevel Bucket) :=
  curr ← FB.fetch sv (hs_curr s);
  snap ← FB.fetch sv (hs_snap s);
  next ← FB.load sv (FB.newFuture garbage) (hs_next s);
  Some (setNext (setSnap (setCurr (newLevel garbage i) curr) snap) next).

Fixpoint assumeLevels (garbage : nat -> bool) (i : nat) (has : list SavedLevel) : option BucketList :=
  match has with
  | [] => Some []
  | s :: r => l ← assumeLevel (garbage i) i s; rest ← assumeLevels garbage (S i) r; Some (l :: rest)
  end.

Definition assumeState (garbage : nat -> bool) (has : list SavedLevel) : option BucketList :=
  levels ← assumeLevels garbage 0 has; restartMerges levels.

(** [addBatch] for the ledgers [ledger + 1], [ledger + 2], ... *)
Fixpoint addBatches (ledger : Z) (batches : list (list Entry * list Key)) (bl : BucketList)
  : option BucketList :=
  match batches with
  | [] => Some bl
  | (live, dead) :: r =>
      bl' ← addBatch (ledger + 1) live dead bl; addBatches (ledger + 1) r bl'
  end.

End BL.
End BL.
