(* ===== verification/BucketListFacts.v ===== *)
(** * Lemmas on the bucket list

    The schedule as divisibility, the buckets a level holds after each of
    its operations, and the argument that no write is lost or revived: what
    a lookup finds going from the youngest bucket to the oldest.  Then the
    buckets after one ledger, and the ledger a bucket list stands for. *)

From S2P Require Import Prelude OrdContainers Bucket BucketFacts FutureBucket BucketList.

Import BL.

(** ** The schedule *)

(** Half the size of a level, in ledgers. *)
Definition half (i : nat) : Z := 2 * 4 ^ Z.of_nat i.

Definition spills (t : Z) (i : nat) : bool := bool_decide (i < 10)%nat && (t mod half i =? 0).

Lemma half_pos i : 0 < half i.
Proof. unfold half. assert (0 < 4 ^ Z.of_nat i) by (apply Z.pow_pos_nonneg; lia). lia. Qed.

Lemma half_S i : half (S i) = 4 * half i.
Proof. unfold half. rewrite Nat2Z.inj_succ, Z.pow_succ_r by lia. lia. Qed.

Lemma half_le i : (i <= 9)%nat -> half i <= 524288.
Proof. intros Hi. do 10 (destruct i as [|i]; [vm_compute; discriminate|]). lia. Qed.

Ltac each_level i := do 11 (destruct i as [|i]; [vm_compute; reflexivity|]); lia.

Lemma levelHalf_half i : (i < 11)%nat -> levelHalf i = Some (half i).
Proof. intros Hi. each_level i. Qed.

Lemma levelSize_half i : (i < 11)%nat -> levelSize i = Some (2 * half i).
Proof. intros Hi. each_level i. Qed.

Lemma mask_pow2 v j : is_u32 v -> 0 <= j <= 31 -> mask v (2 ^ j) = v - v mod 2 ^ j.
Proof.
  unfold is_u32, UINT32_MAX. intros Hv Hj. unfold mask.
  assert (0 < 2 ^ j <= 2 ^ 31) as Hp by (split; [apply Z.pow_pos_nonneg; lia|apply Z.pow_le_mono_r; lia]).
  change (2 ^ 31) with 2147483648 in Hp.
  rewrite (u32_small (2 ^ j - 1)) by (unfold is_u32, UINT32_MAX; lia).
  replace (2 ^ j - 1) with (Z.ones j) by (rewrite Z.ones_equiv; lia).
  unfold u32. change 4294967296 with (2 ^ 32). rewrite <- (Z.land_ones _ 32) by lia.
  rewrite Z.land_assoc, <- Z.ldiff_land, Z.ldiff_ones_r, Z.land_ones by lia.
  rewrite Z.shiftl_mul_pow2, Z.shiftr_div_pow2 by lia.
  assert (v / 2 ^ j * 2 ^ j = v - v mod 2 ^ j) as -> by (rewrite (Z.div_mod v (2 ^ j)) at 2; lia).
  pose proof (Z.mod_pos_bound v (2 ^ j)). apply Z.mod_small.
  change (2 ^ 32) with 4294967296. pose proof (Z.mod_le v (2 ^ j)). lia.
Qed.

Lemma half_pow2 i : half i = 2 ^ (2 * Z.of_nat i + 1).
Proof. unfold half. rewrite Z.pow_add_r, Z.pow_mul_r by lia. change (2 ^ 2) with 4. lia. Qed.

Lemma levelShouldSpill_spills t i : is_u32 t -> (i < 11)%nat ->
  levelShouldSpill t i = Some (spills t i).
Proof.
  intros Ht Hi. unfold levelShouldSpill, spills. case_bool_decide as Hl.
  - subst i. by rewrite bool_decide_eq_false_2 by (cbn; lia).
  - assert (i < 10)%nat as Hi' by (unfold kNumLevels in Hl; lia). rewrite bool_decide_eq_true_2 by done.
    rewrite levelHalf_half, levelSize_half by done. cbn [mbind option_bind andb].
    assert (2 * half i = 2 ^ (2 * Z.of_nat i + 2)) as ->.
    { rewrite half_pow2, <- Z.pow_succ_r by lia. f_equal. lia. }
    rewrite half_pow2, !mask_pow2 by (done || lia).
    assert (0 < 2 ^ (2 * Z.of_nat i + 1)) as Hp by (apply Z.pow_pos_nonneg; lia).
    destruct (Z.eqb_spec t (t - t mod 2 ^ (2 * Z.of_nat i + 1))) as [E|E];
      destruct (Z.eqb_spec (t mod 2 ^ (2 * Z.of_nat i + 1)) 0) as [E'|E']; try lia; [done|].
    f_equal. apply Z.eqb_neq. intros E2. apply E'.
    assert (t mod 2 ^ (2 * Z.of_nat i + 2) = 0) as Hz by lia.
    apply Z.mod_divide in Hz; [|apply Z.pow_nonzero; lia].
    apply Z.mod_divide; [lia|]. etransitivity; [|exact Hz].
    exists 2. replace (2 * Z.of_nat i + 2) with (Z.succ (2 * Z.of_nat i + 1)) by lia.
    by rewrite Z.pow_succ_r by lia.
Qed.

Lemma spills_below t i : (S i < 10)%nat -> spills t (S i) = true -> spills t i = true.
Proof.
  unfold spills. intros Hi Hs. zify_bool. rewrite bool_decide_eq_true_2 by lia.
  apply Z.eqb_eq. pose proof (half_pos i). rewrite half_S in *.
  apply Z.mod_divide; [lia|]. etransitivity; [|apply Z.mod_divide; [|done]; lia]. by exists 4.
Qed.

(** The levels that spill are those below some level. *)
Lemma spill_depth t : exists J, (J <= 10)%nat /\ forall i, spills t i = bool_decide (i < J)%nat.
Proof.
  assert (forall n, (n <= 10)%nat -> exists J, (J <= n)%nat /\
    forall i, (i < n)%nat -> spills t i = bool_decide (i < J)%nat) as Hn.
  { induction n as [|n IH]; intros Hn; [exists 0%nat; split; [lia|intros; lia]|].
    destruct IH as (J & HJ & HJs); [lia|].
    destruct (decide (J = n)) as [->|Hne].
    - destruct (spills t n) eqn:E.
      + exists (S n). split; [lia|]. intros i Hi. rewrite bool_decide_eq_true_2 by done.
        destruct (decide (i = n)) as [->|]; [done|]. rewrite HJs by lia. by rewrite bool_decide_eq_true_2 by lia.
      + exists n. split; [lia|]. intros i Hi. destruct (decide (i = n)) as [->|].
        * by rewrite bool_decide_eq_false_2 by lia.
        * apply HJs. lia.
    - exists J. split; [lia|]. intros i Hi. destruct (decide (i = n)) as [->|]; [|apply HJs; lia].
      rewrite bool_decide_eq_false_2 by lia. destruct (spills t n) eqn:E; [|done].
      destruct n as [|n]; [lia|]. apply spills_below in E; [|lia].
      rewrite HJs, bool_decide_eq_false_2 in E by lia. done. }
  destruct (Hn 10%nat) as (J & HJ & HJs); [done|]. exists J. split; [done|]. intros i.
  destruct (decide (i < 10)%nat); [by apply HJs|].
  rewrite bool_decide_eq_false_2 by lia. unfold spills. by rewrite bool_decide_eq_false_2 by lia.
Qed.

(** ** What a lookup finds, one key at a time

    [c i], [s i] and [n i] are what the buckets [mCurr], [mSnap] and
    [mNextCurr] of level [i] hold for one key. *)

Section OneKey.
Context {A : Type}.
Implicit Types (c s n : nat -> option A) (x y : option A).

(** The first of two lookups that finds something. *)
Definition orElse x y : option A := match x with Some _ => x | None => y end.

Lemma orElse_assoc x y z : orElse (orElse x y) z = orElse x (orElse y z).
Proof. by destruct x. Qed.

Lemma orElse_None x y : orElse x y = None <-> x = None /\ y = None.
Proof. destruct x; naive_solver. Qed.

Lemma orElse_None_r x : orElse x None = x.
Proof. by destruct x. Qed.

(** The levels below [m], from the youngest. *)
Fixpoint younger c s (m : nat) : option A :=
  match m with O => None | S m => orElse (younger c s m) (orElse (c m) (s m)) end.

(** The same without the snapshot of the last of them. *)
Definition fresherThan c s (i : nat) : option A :=
  match i with O => None | S m => orElse (younger c s m) (c m) end.

Lemma younger_fresher (c0 s0 : nat -> option A) m :
  younger c0 s0 (S m) = orElse (fresherThan c0 s0 (S m)) (s0 m).
Proof. cbn [younger fresherThan]. by rewrite orElse_assoc. Qed.

Context (dead : A -> bool).

(** A dead entry and no entry mean the same. *)
Definition liveOnly x : option A :=
  match x with Some a => if dead a then None else Some a | None => None end.

(** At the last level dead entries are dropped. *)
Definition agree (i : nat) x y : Prop := if decide (i = 10)%nat then liveOnly x = liveOnly y else x = y.

Lemma agree_lt i x y : (i < 10)%nat -> agree i x y <-> x = y.
Proof. intros Hi. unfold agree. by rewrite decide_False by lia. Qed.

(** The merge prepared for level [i] will, for what is not found in younger
    buckets, take the place of the snapshot above it and of its [mCurr]
    (unless [skip]: then [mCurr] is a snapshot by then). *)
Definition pendingOk c s n (skip : nat -> bool) : Prop :=
  forall i, (S i <= 10)%nat -> fresherThan c s (S i) = None ->
    agree (S i) (n (S i)) (orElse (s i) (if skip (S i) then None else c (S i))).

Lemma younger_ext c s c' s' m : (forall i, c' i = c i) -> (forall i, s' i = s i) -> younger c' s' m = younger c s m.
Proof. intros Hc Hs. induction m as [|m IH]; [done|]. cbn [younger]. by rewrite IH, Hc, Hs. Qed.

Lemma pendingOk_ext c s n c' s' n' skip : (forall i, c' i = c i) -> (forall i, s' i = s i) -> (forall i, n' i = n i) ->
  pendingOk c s n skip -> pendingOk c' s' n' skip.
Proof.
  intros Hc Hs Hn Hp i Hi Hf. rewrite Hn, Hs, Hc. apply Hp; [done|]. cbn [fresherThan] in *. by rewrite <- (younger_ext c s c' s'), <- Hc.
Qed.

(** One ledger, with new entries [f], in which the levels below [J] spill. *)
Record ledgerStep (J : nat) (f : option A) c s n c' s' n' (skip skip' : nat -> bool) : Prop := {
  st_snap : forall i, s' i = if decide (i < J)%nat then c i else s i;
  st_curr0 : c' 0%nat = orElse f (if decide (0 < J)%nat then None else c 0%nat);
  st_curr : forall i, c' (S i) = if decide (S i <= J)%nat then n (S i) else c (S i);
  st_next : forall i, (S i <= J)%nat ->
    younger c s i = None ->
    agree (S i) (n' (S i)) (orElse (c i) (if skip' (S i) then None else c' (S i)));
  st_next_same : forall i, (J < S i)%nat -> n' (S i) = n (S i);
  st_skip : forall i, (S i <= J)%nat -> skip (S i) = bool_decide (S i < J)%nat;
  st_skip_same : forall i, (J < S i)%nat -> skip' (S i) = skip (S i);
}.

Section Step.
Context J f c s n c' s' n' skip skip' (HJ : (J <= 10)%nat)
  (Hst : ledgerStep J f c s n c' s' n' skip skip') (Hok : pendingOk c s n skip) (Hs10 : s 10%nat = None).

Lemma snap_lt i : (i < J)%nat -> s' i = c i.
Proof. intros Hi. rewrite (st_snap _ _ _ _ _ _ _ _ _ _ Hst). by rewrite decide_True. Qed.

Lemma snap_ge i : (J <= i)%nat -> s' i = s i.
Proof. intros Hi. rewrite (st_snap _ _ _ _ _ _ _ _ _ _ Hst). by rewrite decide_False by lia. Qed.

Lemma curr_le i : (S i <= J)%nat -> c' (S i) = n (S i).
Proof. intros Hi. rewrite (st_curr _ _ _ _ _ _ _ _ _ _ Hst). by rewrite decide_True. Qed.

Lemma curr_gt i : (J < S i)%nat -> c' (S i) = c (S i).
Proof. intros Hi. rewrite (st_curr _ _ _ _ _ _ _ _ _ _ Hst). by rewrite decide_False by lia. Qed.

(** A spilled level takes over the snapshot of the level above. *)
Lemma pending_spilled i : (S i < J)%nat -> fresherThan c s (S i) = None -> n (S i) = s i.
Proof.
  intros Hi Hf. assert (S i <= 10)%nat as Hi' by lia. pose proof (Hok i Hi' Hf) as Ha.
  apply agree_lt in Ha; [|lia]. rewrite (st_skip _ _ _ _ _ _ _ _ _ _ Hst) in Ha by lia.
  rewrite bool_decide_eq_true_2 in Ha by done. by rewrite orElse_None_r in Ha.
Qed.

(** The last level that changes keeps its own [mCurr] as well. *)
Lemma pending_last i : S i = J -> fresherThan c s J = None ->
  agree J (n J) (orElse (s i) (c J)).
Proof.
  intros Hi Hf. subst J. assert (S i <= 10)%nat as Hi' by lia. pose proof (Hok i Hi' Hf) as Ha.
  rewrite (st_skip _ _ _ _ _ _ _ _ _ _ Hst) in Ha by lia.
  by rewrite bool_decide_eq_false_2 in Ha by lia.
Qed.

Lemma younger_spilled m : f = None -> (S m <= J)%nat -> younger c' s' (S m) = fresherThan c s (S m).
Proof.
  intros Hf. induction m as [|m IH]; intros Hm.
  - cbn [younger fresherThan orElse]. rewrite (st_curr0 _ _ _ _ _ _ _ _ _ _ Hst), Hf.
    rewrite decide_True by lia. cbn [orElse]. by apply snap_lt.
  - change (younger c' s' (S (S m))) with (orElse (younger c' s' (S m)) (orElse (c' (S m)) (s' (S m)))).
    change (fresherThan c s (S (S m))) with (orElse (younger c s (S m)) (c (S m))).
    rewrite IH, curr_le, snap_lt, younger_fresher by lia.
    destruct (fresherThan c s (S m)) as [a|] eqn:E; [done|]. cbn [orElse].
    by rewrite (pending_spilled m) by (done || lia).
Qed.

Lemma younger_unspilled m : f = None -> (J < 10)%nat -> (J < m)%nat -> younger c' s' m = younger c s m.
Proof.
  intros Hf HJ' Hm. induction Hm as [|m Hm IH].
  - destruct (decide (J = 0)%nat) as [E0|E0].
    + rewrite E0. cbn [younger]. rewrite (st_curr0 _ _ _ _ _ _ _ _ _ _ Hst), Hf, decide_False by lia.
      cbn [orElse]. by rewrite snap_ge by lia.
    + assert (exists j, S j = J) as [j Ej] by (exists (pred J); lia). cbn [younger].
      assert (younger c' s' J = fresherThan c s J) as -> by (rewrite <- Ej; apply younger_spilled; (done || lia)).
      assert (c' J = n J) as -> by (rewrite <- Ej; apply curr_le; lia). rewrite snap_ge by lia.
      assert (younger c s J = orElse (fresherThan c s J) (s j)) as -> by (rewrite <- Ej; apply younger_fresher).
      destruct (fresherThan c s J) as [a|] eqn:E; [done|]. cbn [orElse].
      pose proof (pending_last j Ej E) as Ha. apply agree_lt in Ha; [|done].
      by rewrite Ha, orElse_assoc.
  - cbn [younger]. rewrite IH. destruct m as [|m]; [lia|].
    by rewrite curr_gt, snap_ge by lia.
Qed.

Lemma fresher_first (c0 s0 : nat -> option A) m : fresherThan c0 s0 (S m) = None -> c0 0%nat = None.
Proof.
  induction m as [|m IH]; [done|]. cbn [fresherThan]. intros Hf. apply orElse_None in Hf as [Hf _].
  rewrite younger_fresher in Hf. apply orElse_None in Hf as [Hf _]. auto.
Qed.

Lemma fresher_no_new m : fresherThan c' s' (S m) = None -> f = None.
Proof.
  intros HY. apply fresher_first in HY. rewrite (st_curr0 _ _ _ _ _ _ _ _ _ _ Hst) in HY.
  by apply orElse_None in HY as [? _].
Qed.

(** Nothing that was found in the younger buckets is lost. *)
Lemma fresher_spilled m : (S m <= J)%nat -> fresherThan c' s' (S m) = None -> younger c s m = None.
Proof.
  intros Hm HY. pose proof (fresher_no_new m HY) as Hf. cbn [fresherThan] in HY.
  apply orElse_None in HY as [HY Hc]. destruct m as [|m]; [done|].
  rewrite younger_spilled in HY by (done || lia). rewrite curr_le in Hc by lia.
  rewrite younger_fresher, HY. rewrite <- (pending_spilled m); [by rewrite Hc|lia|done].
Qed.

Lemma fresher_unspilled m : (J < S m)%nat -> (S m <= 10)%nat ->
  fresherThan c' s' (S m) = None -> fresherThan c s (S m) = None.
Proof.
  intros Hm Hm' HY. pose proof (fresher_no_new m HY) as Hf. cbn [fresherThan] in HY |- *.
  apply orElse_None in HY as [HY Hc]. apply orElse_None.
  destruct (decide (J < m)%nat) as [Hlt|Hge].
  - rewrite younger_unspilled in HY by (done || lia). split; [done|].
    destruct m as [|m]; [lia|]. by rewrite curr_gt in Hc by lia.
  - assert (m = J) as -> by lia. destruct (decide (J = 0)%nat) as [E0|E0].
    + rewrite E0 in *. split; [done|]. rewrite (st_curr0 _ _ _ _ _ _ _ _ _ _ Hst), Hf, decide_False in Hc by lia. done.
    + assert (exists j, S j = J) as [j Ej] by (exists (pred J); lia).
      assert (younger c' s' J = fresherThan c s J) as HE by (rewrite <- Ej; apply younger_spilled; (done || lia)).
      assert (c' J = n J) as Hn by (rewrite <- Ej; apply curr_le; lia).
      assert (younger c s J = orElse (fresherThan c s J) (s j)) as -> by (rewrite <- Ej; apply younger_fresher).
      rewrite HE in HY. pose proof (pending_last j Ej HY) as Ha. apply agree_lt in Ha; [|lia].
      rewrite <- Hn, Hc in Ha. symmetry in Ha. apply orElse_None in Ha as [Hs Hcj].
      by rewrite HY, Hs.
Qed.

(** The merges prepared in the new state are right as well. *)
Lemma step_pending : pendingOk c' s' n' skip'.
Proof.
  intros i Hi HY. destruct (decide (S i <= J)%nat) as [Hle|Hgt].
  - rewrite snap_lt by lia. apply (st_next _ _ _ _ _ _ _ _ _ _ Hst); [done|by apply fresher_spilled].
  - rewrite snap_ge, curr_gt by lia. rewrite (st_next_same _ _ _ _ _ _ _ _ _ _ Hst) by lia.
    rewrite (st_skip_same _ _ _ _ _ _ _ _ _ _ Hst) by lia. apply Hok; [done|].
    apply fresher_unspilled; (done || lia).
Qed.

(** A key that was not written is found as before. *)
Lemma step_same : f = None -> liveOnly (younger c' s' 11) = liveOnly (younger c s 11).
Proof.
  intros Hf. destruct (decide (J < 10)%nat) as [Hlt|Hge]; [by rewrite younger_unspilled by (done || lia)|].
  assert (J = 10%nat) as EJ by lia. change 11%nat with (S 10).
  assert (younger c' s' 10 = fresherThan c s 10) as HY by (apply younger_spilled; (done || lia)).
  assert (younger c s 10 = orElse (fresherThan c s 10) (s 9%nat)) as HY0 by apply younger_fresher.
  change (younger c' s' (S 10)) with (orElse (younger c' s' 10) (orElse (c' 10%nat) (s' 10%nat))).
  change (younger c s (S 10)) with (orElse (younger c s 10) (orElse (c 10%nat) (s 10%nat))).
  rewrite HY, HY0, Hs10, orElse_None_r. rewrite snap_ge, Hs10, orElse_None_r by lia.
  rewrite curr_le by lia. destruct (fresherThan c s 10) as [a|] eqn:E; [done|]. cbn [orElse].
  pose proof (pending_last 9 (eq_sym EJ)) as Ha. rewrite EJ in Ha. specialize (Ha E).
  unfold agree in Ha. by rewrite decide_True in Ha.
Qed.

(** A key that was written is found as written. *)
Lemma step_written a : f = Some a -> younger c' s' 11 = Some a.
Proof.
  intros Hf. assert (c' 0%nat = Some a) as Hc.
  { by rewrite (st_curr0 _ _ _ _ _ _ _ _ _ _ Hst), Hf. }
  assert (forall m, younger c' s' (S m) = Some a) as Hm; [|apply Hm].
  induction m as [|m IH]; cbn [younger] in *; [by rewrite Hc|]. by rewrite IH.
Qed.

End Step.
End OneKey.

(** * One ledger of the bucket list

    [addBatch] as a step on the buckets of all levels: every assertion
    holds, and the buckets afterwards are those of [ledgerStep]. *)

Import BL.

Section BucketListStep.
Context {Key Entry : Type} `{Ord Key} (keyOf : Entry -> Key).
Local Abbreviation Bucket := (list (BucketEntry Key Entry)).
Context (sv : BucketServices Bucket) `{!BucketServicesOk sv} (sort : Bucket -> Bucket).
Local Abbreviation bsorted := (bsorted keyOf).
Local Abbreviation blookup := (blookup keyOf).
Local Abbreviation mergeView := (mergeView keyOf).
Implicit Types (l : BucketLevel Bucket) (bl : list (BucketLevel Bucket)).

(** ** The buckets of a level *)

(** The result of the merge in progress. *)
Definition outputOf (f : FutureBucket Bucket) : option Bucket := if FB.isLive f then f_value <$> mOutputBucket f else None.
Definition nextOf l : option Bucket := outputOf (mNextCurr l).

(** No merge. *)
Definition idle (f : FutureBucket Bucket) : Prop := mState f = FB_CLEAR /\ FB.checkState sv f = true.

(** Only the last level drops dead entries. *)
Definition keepsDead (i : nat) : bool := bool_decide (i < 10)%nat.

(** What a future can be. *)
Definition futureOk (i : nat) (f : FutureBucket Bucket) : Prop :=
  idle f \/
  (exists c s sh b, f = merging sv c s sh (keepsDead i) b /\ merge keyOf c s sh (keepsDead i) = Some b /\ bsorted b) \/
  (exists kd b, f = resolved sv kd b /\ bsorted b).

Record levelOk (i : nat) l : Prop := {
  ok_level : mLevel l = i;
  ok_curr : bsorted (mCurr l);
  ok_snap : bsorted (mSnap l);
  ok_next : futureOk i (mNextCurr l);
}.

Lemma idle_not_live f : idle f -> FB.isLive f = false.
Proof. intros [Hf _]. unfold FB.isLive. by rewrite Hf. Qed.

Lemma idle_clear f : idle (FB.clear f).
Proof. by split. Qed.

Lemma idle_not_merging l : FB.isLive (mNextCurr l) = false -> FB.isMerging (mNextCurr l) = false.
Proof. unfold FB.isLive, FB.isMerging. intros E. by apply orb_false_iff in E as [? _]. Qed.

Lemma levelOk_new g i : levelOk i (newLevel g i).
Proof. split; [done|exact I|exact I|by left; split]. Qed.

Lemma levelOk_snap i l : levelOk i l -> levelOk i (snap l).1.
Proof. intros []. split; [done|exact I|done|done]. Qed.

Lemma commit_spec i l : levelOk i l -> exists l', commit sv l = Some l' /\
  mLevel l' = i /\ mCurr l' = default (mCurr l) (nextOf l) /\ mSnap l' = mSnap l /\
  idle (mNextCurr l') /\ bsorted (mCurr l').
Proof.
  intros [Hl Hc Hs [Hn|[(c & s & sh & b & Hn & _ & Hb)|(kd & b & Hn & Hb)]]]; unfold commit, nextOf, outputOf.
  - pose proof (idle_not_live _ Hn) as Hf. rewrite Hf. cbn. rewrite idle_not_merging by done. exists l. by rewrite Hl.
  - rewrite Hn. cbn -[FB.resolve]. rewrite resolve_merging by done. cbn. eexists. split; [done|].
    by split_and!.
  - rewrite Hn. cbn -[FB.resolve FB.hexOf]. rewrite resolve_resolved by done. cbn -[FB.hexOf]. eexists. split; [done|].
    by split_and!.
Qed.

(** Whether the merge prepared for level [i] at ledger [t] leaves out the
    [mCurr] of the level. *)
Definition skips (t : Z) (i : nat) : bool :=
  match i with O => false | S m => spills (t + half m) i end.

Lemma skipsCurr_skips t i : 0 <= t <= UINT32_MAX - 524288 -> (i < 11)%nat ->
  skipsCurr i t = Some (skips t i).
Proof.
  intros Ht Hi. destruct i as [|m]; [done|]. cbn [skipsCurr skips].
  rewrite levelHalf_half by lia. cbn [mbind option_bind].
  assert (is_u32 (t + half m)) as Hu.
  { pose proof (half_pos m). assert (half m <= 524288) by (apply half_le; lia).
    unfold is_u32, UINT32_MAX in *. lia. }
  rewrite u32_small by done. by apply levelShouldSpill_spills.
Qed.

Lemma prepare_spec i l t snapped shadows : 0 <= t <= UINT32_MAX - 524288 -> (i < 11)%nat ->
  mLevel l = i -> bsorted (mCurr l) -> bsorted (mSnap l) -> FB.isLive (mNextCurr l) = false ->
  bsorted snapped -> Forall bsorted shadows ->
  exists l' b, prepare keyOf sv l t snapped shadows = Some l' /\ levelOk i l' /\
    mCurr l' = mCurr l /\ mSnap l' = mSnap l /\ nextOf l' = Some b /\
    forall k, blookup k b =
      mergeView k (if skips t i then [] else mCurr l) snapped shadows (bool_decide (i < 10)%nat).
Proof.
  intros Ht Hi Hl Hc Hs Hn Hsn Hsh. unfold prepare. rewrite idle_not_merging, Hl, skipsCurr_skips by done.
  cbn [negb mbind option_bind].
  assert (bsorted (if skips t i then [] else mCurr l)) as Hc' by (by destruct (skips t i)).
  destruct (merge_spec keyOf _ _ _ (bool_decide (i < kNumLevels - 1)%nat) Hc' Hsn Hsh) as (b & Hm & Hb & Hv).
  rewrite (startFuture_merging _ _ _ _ _ _ _ Hm). cbn -[merging]. eexists _, b. split; [done|].
  split_and!; try done. split; try done. right. left. by eexists _, _, _, _.
Qed.

(** ** A level after a restart *)

(** [restartMerges] on one future. *)
Definition revive (f : FutureBucket Bucket) : option (FutureBucket Bucket) :=
  if FB.hasHashes f && negb (FB.isLive f) then FB.makeLive keyOf sv f else Some f.

Lemma makeLive_revive f f' : FB.makeLive keyOf sv f = Some f' -> revive f = Some f'.
Proof.
  intros Hm. unfold revive. assert (FB.hasHashes f = true /\ FB.isLive f = false) as [-> ->]; [|done].
  revert Hm. unfold FB.makeLive. destruct (FB.checkState sv f), (FB.isLive f), (FB.hasHashes f); cbn; try done.
Qed.

Definition futureFiles (f : FutureBucket Bucket) : list Bucket :=
  option_list (mInputCurrBucket f) ++ option_list (mInputSnapBucket f) ++ mInputShadowBuckets f ++ option_list (outputOf f).

(** The buckets that the saved state of a level refers to. *)
Definition filesOf l : list Bucket := mCurr l :: mSnap l :: futureFiles (mNextCurr l).

(** A future that is saved comes back with the same output, if the files are
    there and the member that is not saved has the value it had. *)
Lemma restart_future i f : futureOk i f -> Forall (stored sv) (futureFiles f) ->
  exists s f1 f', FB.save sv f = Some s /\ FB.load sv (FB.newFuture (keepsDead i)) s = Some f1 /\ revive f1 = Some f' /\
    futureOk i f' /\ outputOf f' = outputOf f /\ FB.isLive f' = FB.isLive f /\ FB.save sv f' = Some s.
Proof.
  unfold futureFiles. rewrite !Forall_app. intros [Hi|[(c & s & sh & b & -> & Hm & Hb)|(kd & b & -> & Hb)]] (Hc & Hs & Hsh & Ho).
  - pose proof (idle_not_live _ Hi) as Hl. destruct Hi as [Hn Hck]. unfold FB.save at 1, outputOf. rewrite Hck, Hn, Hl. cbn [mbind option_bind].
    eexists _, _, _. split; [done|]. split; [done|]. split; [done|]. split; [by left; split|done].
  - cbn in Hc, Hs, Hsh. rewrite Forall_singleton in Hc, Hs.
    pose proof (restart_merging keyOf sv (keepsDead i) c s sh (keepsDead i) b b Hc Hs Hsh Hm) as Hr.
    destruct (FB.save sv (merging sv c s sh (keepsDead i) b)) as [sd|] eqn:Es; [|done]. cbn [mbind option_bind] in Hr.
    destruct (FB.load sv _ sd) as [f1|] eqn:El; [|done]. cbn [mbind option_bind] in Hr. apply makeLive_revive in Hr.
    eexists sd, f1, _. split_and!; try done. right. left. by eexists _, _, _, _.
  - change (Forall (stored sv) [b]) in Ho. rewrite Forall_singleton in Ho.
    pose proof (restart_resolved keyOf sv (keepsDead i) kd b Ho) as Hr.
    destruct (FB.save sv (resolved sv kd b)) as [sd|] eqn:Es; [|done]. cbn [mbind option_bind] in Hr.
    destruct (FB.load sv _ sd) as [f1|] eqn:El; [|done]. cbn [mbind option_bind] in Hr. apply makeLive_revive in Hr.
    eexists sd, f1, _. split_and!; try done. right. right. by eexists _, _.
Qed.

Lemma not_live i f : futureOk i f -> outputOf f = None -> FB.isLive f = false.
Proof. intros [Hi|[(c & s & sh & b & -> & _)|(kd & b & -> & _)]]; [by rewrite idle_not_live|done|done]. Qed.

(** Levels with the same buckets. *)
Record sameLevel i l l' : Prop := {
  sl_ok : levelOk i l';
  sl_curr : mCurr l' = mCurr l;
  sl_snap : mSnap l' = mSnap l;
  sl_next : nextOf l' = nextOf l;
}.

(** A level that is saved and assumed again. *)
Lemma restart_level i l ready : levelOk i l -> Forall (stored sv) (filesOf l) ->
  exists s l1 f', saveLevel sv ready l = Some s /\ assumeLevel sv (keepsDead i) i s = Some l1 /\ revive (mNextCurr l1) = Some f' /\
    sameLevel i l (setNext l1 f') /\ saveLevel sv false (setNext l1 f') = Some s.
Proof.
  intros [Hl Hc Hs Hn] [Sc [Ss Sf]%Forall_cons]%Forall_cons.
  assert (exists f, (if FB.isMerging (mNextCurr l) && ready then '(_, next) ← FB.resolve sv (mNextCurr l); Some next else Some (mNextCurr l)) = Some f /\
    futureOk i f /\ outputOf f = outputOf (mNextCurr l) /\ Forall (stored sv) (futureFiles f)) as (f & Ef & Hf & Hout & Hfiles).
  { destruct (FB.isMerging (mNextCurr l) && ready) eqn:E; [|by eexists]. destruct Hn as [Hi|[(c & s & sh & b & Hn & Hm & Hb)|(kd & b & Hn & Hb)]].
    - apply andb_true_iff in E as [E _]. by rewrite idle_not_merging in E by by apply idle_not_live.
    - rewrite Hn in *. rewrite resolve_merging by done. eexists. split; [done|]. split; [right; right; by eexists _, _|]. split; [done|].
      unfold futureFiles in Sf. rewrite !Forall_app in Sf. apply Sf.
    - rewrite Hn in E. done. }
  destruct (restart_future i f Hf Hfiles) as (sd & f1 & f' & Esave & Eload & Erev & Hok' & Hout' & _ & Esave').
  unfold saveLevel, assumeLevel. rewrite Ef. cbn [mbind option_bind]. rewrite Esave. cbn [mbind option_bind].
  eexists _, _, f'. split; [done|]. cbn [hs_curr hs_snap hs_next]. rewrite Sc, Ss. cbn [mbind option_bind]. rewrite Eload. cbn [mbind option_bind].
  split; [done|]. split; [done|]. split; [split; try done|].
  - unfold nextOf. cbn [mNextCurr setNext]. congruence.
  - rewrite andb_false_r. cbn [mbind option_bind setNext mNextCurr]. by rewrite Esave'.
Qed.

(** ** The list after a restart *)

Lemma restart_levels i bl (ready : nat -> bool) garbage : (forall j l, bl !! j = Some l -> levelOk (i + j) l) ->
  (forall j, (i + j < i + length bl)%nat -> garbage (i + j)%nat = keepsDead (i + j)) -> Forall (stored sv) (concat (map filesOf bl)) ->
  exists has bl1 bl', saveLevels sv ready i bl = Some has /\ assumeLevels sv garbage i has = Some bl1 /\ restartMerges keyOf sv bl1 = Some bl' /\
    length bl' = length bl /\ (forall j l, bl !! j = Some l -> exists l', bl' !! j = Some l' /\ sameLevel (i + j) l l') /\
    saveLevels sv (fun _ => false) i bl' = Some has.
Proof.
  revert i. induction bl as [|l bl IH]; intros i Hok Hg Hf; [by exists [], [], []|].
  cbn [map concat] in Hf. apply Forall_app in Hf as [Hf1 Hf].
  pose proof (Hok 0%nat l eq_refl) as Hl. rewrite Nat.add_0_r in Hl.
  destruct (restart_level i l (ready i) Hl Hf1) as (s & l1 & f' & Es & Ea & Er & Hsame & Es').
  destruct (IH (S i)) as (has & bl1 & bl' & E1 & E2 & E3 & E4 & E5 & E6); [|  |done|].
  { intros j l0 Hj. specialize (Hok (S j) l0 Hj). by replace (S i + j)%nat with (i + S j)%nat by lia. }
  { intros j Hj. replace (S i + j)%nat with (i + S j)%nat by lia. apply Hg. cbn. lia. }
  exists (s :: has), (l1 :: bl1), (setNext l1 f' :: bl'). cbn [saveLevels assumeLevels restartMerges].
  assert (garbage i = keepsDead i) as Hgi by (specialize (Hg 0%nat ltac:(cbn; lia)); by rewrite Nat.add_0_r in Hg).
  rewrite Es, E1, Hgi, Ea, E2, Es', E6. cbn [mbind option_bind]. split_and!; [done|done| |cbn; by rewrite E4| |done].
  - unfold revive in Er. destruct (FB.hasHashes (mNextCurr l1) && negb (FB.isLive (mNextCurr l1))).
    + rewrite Er. cbn [mbind option_bind]. by rewrite E3.
    + injection Er as <-. cbn [mbind option_bind]. rewrite E3. cbn. f_equal. f_equal. by destruct l1.
  - intros [|j] l0 Hj; cbn in Hj |- *.
    + injection Hj as <-. rewrite Nat.add_0_r. by eexists.
    + replace (i + S j)%nat with (S i + j)%nat by lia. by apply E5.
Qed.

(** ** The list *)

Definition shadowsOf bl : list Bucket := concat (map (fun level => [mCurr level; mSnap level]) bl).

Definition currAt bl i : Bucket := match bl !! i with Some l => mCurr l | None => [] end.
Definition snapAt bl i : Bucket := match bl !! i with Some l => mSnap l | None => [] end.
Definition nextAt bl i : option Bucket := l ← bl !! i; nextOf l.

Record listOk bl : Prop := {
  lo_length : length bl = 11%nat;
  lo_levels : forall i l, bl !! i = Some l -> levelOk i l;
  lo_zero : forall l, bl !! 0%nat = Some l -> FB.isLive (mNextCurr l) = false;
}.

Lemma shadowsOf_app bl1 bl2 : shadowsOf (bl1 ++ bl2) = shadowsOf bl1 ++ shadowsOf bl2.
Proof. unfold shadowsOf. by rewrite map_app, concat_app. Qed.

Lemma shadowsOf_sorted m bl : listOk bl -> Forall bsorted (shadowsOf (take m bl)).
Proof.
  intros Hok. apply Forall_forall. intros b Hb. unfold shadowsOf in Hb.
  apply list_elem_of_In, in_concat in Hb as (p & Hp & Hb). apply in_map_iff in Hp as (l & <- & Hl).
  apply list_elem_of_In, list_elem_of_lookup in Hl as [i Hl].
  apply lookup_take_Some in Hl as [Hl _]. apply (lo_levels _ Hok) in Hl as [_ H1 H2 _].
  destruct Hb as [<-|[<-|[]]]; done.
Qed.

Lemma pop2_shadows m bl : (m < length bl)%nat ->
  pop2 (shadowsOf (take (S m) bl)) = Some (shadowsOf (take m bl)).
Proof.
  intros Hm. apply lookup_lt_is_Some in Hm as [l Hl].
  rewrite (take_S_r _ _ _ Hl), shadowsOf_app. unfold pop2.
  change (shadowsOf [l]) with ([mCurr l] ++ [mSnap l]).
  rewrite bool_decide_eq_true_2 by (rewrite length_app; cbn; lia).
  by rewrite app_assoc, removelast_last, removelast_last.
Qed.

(** Level [S m] after the loop: [l] from [l0]. *)
Record stepped (t : Z) bl0 (m : nat) l0 l : Prop := {
  sd_ok : levelOk (S m) l;
  sd_snap : mSnap l = if spills t (S m) then mCurr l0 else mSnap l0;
  sd_curr : mCurr l = let kept := if spills t (S m) then [] else mCurr l0 in
                      if spills t m then default kept (nextOf l0) else kept;
  sd_next : if spills t m
            then exists b, nextOf l = Some b /\ forall k, blookup k b =
              mergeView k (if skips t (S m) then [] else mCurr l) (currAt bl0 m)
                (shadowsOf (take m bl0)) (bool_decide (S m < 10)%nat)
            else nextOf l = nextOf l0;
}.

(** What a level is before the loop reaches the level below it. *)
Definition snapped (t : Z) i l : BucketLevel Bucket := if spills t i then (snap l).1 else l.

Definition loopInv (t : Z) bl0 (m : nat) bl : Prop :=
  length bl = 11%nat /\ forall j l0, bl0 !! j = Some l0 -> exists l, bl !! j = Some l /\
    ((j < m)%nat -> l = l0) /\ (j = m -> l = snapped t m l0) /\
    (forall p, (m < j)%nat -> j = S p -> stepped t bl0 p l0 l).

Lemma snapped_ok t i l : levelOk i l -> levelOk i (snapped t i l).
Proof. unfold snapped. destruct (spills t i); [apply levelOk_snap|done]. Qed.

Lemma snapped_snap t i l : mSnap (snapped t i l) = if spills t i then mCurr l else mSnap l.
Proof. unfold snapped. by destruct (spills t i). Qed.

Lemma snapped_curr t i l : mCurr (snapped t i l) = if spills t i then [] else mCurr l.
Proof. unfold snapped. by destruct (spills t i). Qed.

Lemma snapped_next t i l : nextOf (snapped t i l) = nextOf l.
Proof. unfold snapped. by destruct (spills t i). Qed.

Lemma spillStep t bl0 m bl : 0 < t <= UINT32_MAX - 524288 -> listOk bl0 -> (S m < 11)%nat ->
  loopInv t bl0 (S m) bl ->
  exists bl', (if spills t m then spillLevel keyOf sv t m bl (shadowsOf (take m bl0))
   else Some bl) = Some bl' /\ loopInv t bl0 m bl'.
Proof.
  intros Ht Hok Hm [Hlen Hinv].
  assert (exists y0, bl0 !! m = Some y0) as [y0 Hy0] by (apply lookup_lt_is_Some; rewrite (lo_length _ Hok); lia).
  assert (exists l0, bl0 !! S m = Some l0) as [l0 Hl0] by (apply lookup_lt_is_Some; rewrite (lo_length _ Hok); lia).
  destruct (Hinv m y0 Hy0) as (y & Hy & Hy1 & _). rewrite (Hy1 ltac:(lia)) in Hy. clear Hy1 y.
  destruct (Hinv (S m) l0 Hl0) as (l & Hl & _ & Hl1 & _). rewrite (Hl1 eq_refl) in Hl. clear Hl1 l.
  pose proof (snapped_ok t _ _ (lo_levels _ Hok _ _ Hl0)) as Hlok.
  destruct (spills t m) eqn:Esp.
  - unfold spillLevel. rewrite Hy. cbn [mbind option_bind snap]. rewrite list_lookup_insert_ne, Hl by lia. cbn [mbind option_bind].
    destruct (commit_spec _ _ Hlok) as (l1 & -> & Hlv & Hc1 & Hs1 & Hn1 & Hb1). cbn [mbind option_bind].
    destruct (prepare_spec (S m) l1 t (mCurr y0) (shadowsOf (take m bl0))) as (l2 & b & -> & Hok2 & Hc2 & Hs2 & Hn2 & Hv);
      [lia|lia|done|done|by rewrite Hs1; apply Hlok|by apply idle_not_live|by apply (lo_levels _ Hok _ _ Hy0)|by apply shadowsOf_sorted|].
    cbn [mbind option_bind]. eexists. split; [done|]. split; [by rewrite !length_insert|].
    intros j j0 Hj0. destruct (decide (j = S m)) as [->|Hne1].
    + rewrite list_lookup_insert_eq by (rewrite length_insert; lia). eexists. split; [done|].
      split; [lia|]. split; [lia|]. intros p _ [= <-]. rewrite Hl0 in Hj0. injection Hj0 as <-.
      split; [done|by rewrite Hs2, Hs1, snapped_snap| |].
      * rewrite Esp, Hc2, Hc1, snapped_curr, snapped_next. done.
      * rewrite Esp. exists b. split; [done|]. intros k. rewrite Hv, Hc2. unfold currAt. by rewrite Hy0.
    + rewrite list_lookup_insert_ne by done. destruct (decide (j = m)) as [->|Hne2].
      * rewrite list_lookup_insert_eq by lia. eexists. split; [done|]. rewrite Hy0 in Hj0. injection Hj0 as <-.
        split; [lia|]. split; [|lia]. intros _. unfold snapped. by rewrite Esp.
      * rewrite list_lookup_insert_ne by done. destruct (Hinv j j0 Hj0) as (x & Hx & H1 & _ & H3).
        exists x. split; [done|]. split; [intros; apply H1; lia|]. split; [lia|].
        intros p Hp Ep. apply H3; lia.
  - exists bl. split; [done|]. split; [done|]. intros j j0 Hj0. destruct (Hinv j j0 Hj0) as (x & Hx & H1 & H2 & H3).
    exists x. split; [done|]. split; [intros; apply H1; lia|]. split.
    + intros ->. unfold snapped. rewrite Esp. apply H1. lia.
    + intros p Hp Ep. destruct (decide (j = S m)) as [->|Hne]; [|apply H3; lia].
      injection Ep as <-. rewrite (H2 eq_refl). rewrite Hl0 in Hj0. injection Hj0 as <-.
      split; [done|apply snapped_snap|by rewrite Esp, snapped_curr|by rewrite Esp, snapped_next].
Qed.

Lemma spillLoop_spec t bl0 m bl : 0 < t <= UINT32_MAX - 524288 -> listOk bl0 -> (m < 11)%nat ->
  loopInv t bl0 m bl ->
  exists bl', spillLoop keyOf sv t m bl (shadowsOf (take m bl0)) = Some (bl', []) /\ loopInv t bl0 0 bl'.
Proof.
  intros Ht Hok. revert bl. induction m as [|m IH]; intros bl Hm Hinv; [by exists bl|].
  cbn [spillLoop]. rewrite pop2_shadows by (rewrite (lo_length _ Hok); lia). cbn [mbind option_bind].
  rewrite levelShouldSpill_spills by (unfold is_u32, UINT32_MAX in *; lia). cbn [mbind option_bind].
  destruct (spillStep t bl0 m bl Ht Hok Hm Hinv) as (bl' & -> & Hinv'). cbn [mbind option_bind].
  apply IH; [lia|done].
Qed.

End BucketListStep.

(** * The ledger a bucket list stands for

    The view of a bucket list is what a lookup through its buckets finds,
    from the youngest to the oldest; dead entries and absent ones are the
    same.  Every ledger changes the view exactly by what it writes. *)

Import BL.

Section BucketListView.
Context {Key Entry : Type} `{Ord Key} (keyOf : Entry -> Key).
Local Abbreviation BE := (BucketEntry Key Entry).
Local Abbreviation Bucket := (list (BucketEntry Key Entry)).
Context (sv : BucketServices Bucket) `{!BucketServicesOk sv} (sort : Bucket -> Bucket) `{!StdSort keyOf sort}.
Local Abbreviation bsorted := (bsorted keyOf).
Local Abbreviation blookup := (blookup keyOf).
Local Abbreviation mergeView := (mergeView keyOf).
Implicit Types (l : BucketLevel Bucket) (bl : list (BucketLevel Bucket)) (k : Key).

(** The first bucket that has an entry for the key. *)
Fixpoint lookupAll k (bs : list Bucket) : option BE :=
  match bs with [] => None | b :: r => orElse (blookup k b) (lookupAll k r) end.

(** The entry of a key in the ledger. *)
Definition view bl k : option Entry :=
  match lookupAll k (shadowsOf bl) with Some (LIVEENTRY e) => Some e | _ => None end.

(** What the buckets of level [i] hold for a key. *)
Definition cOf bl k i : option BE := blookup k (currAt bl i).
Definition sOf bl k i : option BE := blookup k (snapAt bl i).
Definition nOf bl k i : option BE := blookup k (default [] (nextAt bl i)).

Lemma lookupAll_app k bs1 bs2 : lookupAll k (bs1 ++ bs2) = orElse (lookupAll k bs1) (lookupAll k bs2).
Proof. induction bs1 as [|b bs1 IH]; [done|]. cbn [app lookupAll]. by rewrite IH, orElse_assoc. Qed.

Lemma lookupAll_holds k bs : lookupAll k bs = None -> existsb (holds keyOf k) bs = false.
Proof.
  induction bs as [|b bs IH]; [done|]. cbn [lookupAll existsb]. intros [Hb Hr]%orElse_None.
  rewrite holds_blookup, Hb. by apply IH.
Qed.

Lemma lookupAll_younger k bl m : (m <= length bl)%nat ->
  lookupAll k (shadowsOf (take m bl)) = younger (cOf bl k) (sOf bl k) m.
Proof.
  induction m as [|m IH]; intros Hm; [done|]. cbn [younger]. rewrite <- IH by lia.
  assert (exists l, bl !! m = Some l) as [l Hl] by (apply lookup_lt_is_Some; lia).
  rewrite (take_S_r _ _ _ Hl), shadowsOf_app, lookupAll_app. f_equal.
  unfold cOf, sOf, currAt, snapAt. rewrite Hl. cbn. by rewrite orElse_None_r.
Qed.

Lemma view_younger bl k : length bl = 11%nat ->
  view bl k = match liveOnly isDead (younger (cOf bl k) (sOf bl k) 11) with
              | Some (LIVEENTRY e) => Some e | _ => None end.
Proof.
  intros Hl. unfold view. rewrite <- lookupAll_younger, take_ge by lia.
  by destruct (lookupAll k (shadowsOf bl)) as [[e|d]|].
Qed.

(** Whether the merge running for level [i] after ledger [t], prepared at the
    last spill of the level above, leaves out [mCurr]. *)
Definition skipAt (t : Z) (i : nat) : bool :=
  match i with O => false | S m => spills (t - t mod half m + half m) (S m) end.

Record listInv (t : Z) bl : Prop := {
  li_ok : listOk keyOf sv bl;
  li_last : snapAt bl 10 = [];
  li_idle : forall i, nextAt bl (S i) = None -> snapAt bl i = [] /\ currAt bl (S i) = [];
  li_pending : forall k, pendingOk isDead (cOf bl k) (sOf bl k) (nOf bl k) (skipAt t);
}.

(** ** The schedule of the merges *)

Lemma skip_spill t i : spills (t + 1) i = true -> skipAt t (S i) = spills (t + 1) (S i).
Proof.
  unfold spills at 1. intros Hs. zify_bool. cbn [skipAt]. pose proof (half_pos i).
  f_equal. assert (t mod half i = half i - 1) as ->; [|lia].
  rewrite (Z.mod_eq (t + 1)) in * by lia. rewrite Z.mod_eq by lia.
  assert (t / half i = (t + 1) / half i - 1) as ->; [|lia].
  symmetry. apply (Z.div_unique t (half i) _ (half i - 1)); lia.
Qed.

Lemma skip_now t i : spills t i = true -> skipAt t (S i) = skips t (S i).
Proof.
  unfold spills at 1. intros Hs. zify_bool. cbn [skipAt skips]. f_equal. lia.
Qed.

Lemma skip_later t i : spills (t + 1) i = false -> skipAt (t + 1) (S i) = skipAt t (S i).
Proof.
  unfold spills at 1. intros Hs. apply andb_false_iff in Hs as [Hs|Hs]; cbn [skipAt].
  - apply bool_decide_eq_false in Hs. unfold spills. by rewrite !(bool_decide_eq_false_2 (S i < 10)%nat) by lia.
  - apply Z.eqb_neq in Hs. f_equal. pose proof (half_pos i).
    assert ((t + 1) mod half i = t mod half i + 1) as ->; [|lia].
    pose proof (Z.mod_pos_bound t (half i)). pose proof (Z.mod_pos_bound (t + 1) (half i)).
    rewrite (Z.div_mod t (half i)) in Hs |- * at 1 by lia.
    rewrite <- Z.add_assoc, Z.add_comm, Z.mul_comm, Z.mod_add in Hs |- * by lia.
    apply Z.mod_small. destruct (Z.eq_dec (t mod half i + 1) (half i)) as [E|]; [|lia].
    rewrite E, Z.mod_same in Hs by lia. lia.
Qed.

(** ** The buckets after one ledger *)

(** Level 0, and all the others. *)
Record batchStep (t : Z) (batch : Bucket) bl bl' : Prop := {
  bs_ok : listOk keyOf sv bl';
  bs_snap0 : snapAt bl' 0 = if spills t 0 then currAt bl 0 else snapAt bl 0;
  bs_curr0 : forall k, blookup k (currAt bl' 0) =
    orElse (blookup k batch) (blookup k (if spills t 0 then [] else currAt bl 0));
  bs_above : forall i l0 l, bl !! S i = Some l0 -> bl' !! S i = Some l -> stepped keyOf sv t bl i l0 l;
}.

Lemma addBatch_step t live dead bl : 0 < t <= UINT32_MAX - 524288 -> listOk keyOf sv bl ->
  NoDup (map keyOf live) -> NoDup dead ->
  exists batch bl', addBatch keyOf sv sort t live dead bl = Some bl' /\
    batchStep t batch bl bl' /\ forall k, blookup k batch = batchWrite keyOf live dead k.
Proof.
  intros Ht Hok Hlive Hdead. unfold addBatch. rewrite Z.gtb_ltb, (proj2 (Z.ltb_lt _ _)) by lia.
  fold (shadowsOf bl). pose proof (lo_length _ _ _ Hok) as Hlen.
  assert (shadowsOf bl = shadowsOf (take 11 bl)) as -> by (by rewrite take_ge by lia).
  rewrite pop2_shadows, Hlen by lia. cbn [mbind option_bind Nat.sub].
  destruct (spillLoop_spec keyOf sv t bl 10 bl) as (bl1 & -> & Hlen1 & Hinv); [done|done|lia| |].
  { split; [done|]. intros j l0 Hl0. exists l0. apply lookup_lt_Some in Hl0 as Hj.
    split; [done|]. split; [done|]. split; [intros ->; by unfold snapped|intros; lia]. }
  cbn [mbind option_bind emptyStr].
  destruct (fresh_spec keyOf sort live dead) as (batch & -> & Hb & Hw); [done..|]. cbn [mbind option_bind].
  assert (exists l0, bl !! 0%nat = Some l0) as [l0 Hl0] by (apply lookup_lt_is_Some; lia).
  destruct (Hinv 0%nat l0 Hl0) as (x & Hx & _ & Hx0 & _). rewrite (Hx0 eq_refl) in Hx.
  pose proof (snapped_ok keyOf sv t _ _ (lo_levels _ _ _ Hok _ _ Hl0)) as Hok0.
  assert (FB.isLive (mNextCurr (snapped t 0 l0)) = false) as Hidle.
  { pose proof (lo_zero _ _ _ Hok _ Hl0). unfold snapped. by destruct (spills t 0). }
  rewrite Hx. cbn [mbind option_bind].
  destruct (prepare_spec keyOf sv 0 (snapped t 0 l0) t batch []) as (l1 & b & -> & Hok1 & Hc1 & Hs1 & Hn1 & Hv1);
    [lia|lia|apply Hok0|apply Hok0|apply Hok0|done|done|done|]. cbn [mbind option_bind].
  destruct (commit_spec keyOf sv 0 l1 Hok1) as (l2 & -> & Hlv2 & Hc2 & Hs2 & Hn2 & Hb2). cbn [mbind option_bind].
  exists batch. eexists. split; [done|]. split; [|done].
  assert (<[0%nat:=l2]> bl1 !! 0%nat = Some l2) as H0 by (apply list_lookup_insert_eq; lia).
  assert (forall i l, <[0%nat:=l2]> bl1 !! S i = Some l -> bl1 !! S i = Some l) as HS.
  { intros i l. by rewrite list_lookup_insert_ne by lia. }
  assert (forall i l0 l, bl !! S i = Some l0 -> bl1 !! S i = Some l -> stepped keyOf sv t bl i l0 l) as Hst.
  { intros i j0 l Hj0 Hl. destruct (Hinv (S i) j0 Hj0) as (y & Hy & _ & _ & Hst).
    rewrite Hl in Hy. injection Hy as <-. apply Hst; lia. }
  split.
  - split; [by rewrite length_insert| |intros l; rewrite H0; intros [= <-]; by apply (idle_not_live sv)].
    intros [|i] l Hl.
    + rewrite H0 in Hl. injection Hl as <-. split; [done|done| |by left].
      rewrite Hs2, Hs1. apply Hok0.
    + apply HS in Hl. assert (exists j0, bl !! S i = Some j0) as [j0 Hj0].
      { apply lookup_lt_is_Some. apply lookup_lt_Some in Hl. lia. }
      by apply (Hst i j0).
  - unfold snapAt, currAt. rewrite H0, Hl0, Hs2, Hs1. apply snapped_snap.
  - intros k. unfold currAt. rewrite H0, Hl0, Hc2, Hn1. cbn [default].
    rewrite Hv1. cbn [skips]. rewrite mergeView_plain, snapped_curr. by destruct (blookup k batch).
  - intros i j0 l Hj0 Hl. apply Hst; [done|by apply HS].
Qed.

(** ** One key through one ledger *)

(** Both lists have the levels 0 to 10. *)
Lemma levels_of bl bl' i : length bl = 11%nat -> length bl' = 11%nat ->
  (exists l l', bl !! i = Some l /\ bl' !! i = Some l' /\ (i < 11)%nat) \/
  (bl !! i = None /\ bl' !! i = None /\ (11 <= i)%nat).
Proof.
  intros H1 H2. destruct (decide (i < 11)%nat) as [Hi|Hi].
  - left. assert (is_Some (bl !! i)) as [l Hl] by (apply lookup_lt_is_Some; lia).
    assert (is_Some (bl' !! i)) as [l' Hl'] by (apply lookup_lt_is_Some; lia). by exists l, l'.
  - right. rewrite !lookup_ge_None. lia.
Qed.

Lemma spilled_curr bl bl' t batch i J : listInv (t - 1) bl -> batchStep t batch bl bl' -> (J <= 10)%nat ->
  (forall i, spills t i = bool_decide (i < J)%nat) -> forall k,
  cOf bl' k (S i) = if decide (S i <= J)%nat then nOf bl k (S i) else cOf bl k (S i).
Proof.
  intros [Hok _ Hidle _] [Hok' _ _ Hab] HJ Hsp k. unfold cOf, nOf, nextAt.
  specialize (Hidle i). unfold currAt, nextAt in *.
  destruct (levels_of bl bl' (S i) (lo_length _ _ _ Hok) (lo_length _ _ _ Hok'))
    as [(l & l' & Hl & Hl' & Hi)|(Hl & Hl' & Hi)]; rewrite Hl, Hl' in *.
  - rewrite (sd_curr _ _ _ _ _ _ _ (Hab _ _ _ Hl Hl')), !Hsp. cbn [mbind option_bind] in *.
    destruct (decide (S i <= J)%nat) as [Hle|Hgt].
    + rewrite (bool_decide_eq_true_2 (i < J)%nat) by lia. destruct (nextOf l) as [b|] eqn:En; [done|].
      destruct (Hidle eq_refl) as [_ ->]. cbn. by destruct (bool_decide (S i < J)%nat).
    + by rewrite !bool_decide_eq_false_2 by lia.
  - by rewrite decide_False by lia.
Qed.

Lemma spilled_snap bl bl' t batch i J : listInv (t - 1) bl -> batchStep t batch bl bl' -> (J <= 10)%nat ->
  (forall i, spills t i = bool_decide (i < J)%nat) ->
  snapAt bl' i = if decide (i < J)%nat then currAt bl i else snapAt bl i.
Proof.
  intros [Hok _ _ _] [Hok' Hs0 _ Hab] HJ Hsp.
  assert (forall A (x y : A), (if bool_decide (i < J)%nat then x else y) = if decide (i < J)%nat then x else y) as Hd.
  { intros A x y. by destruct (decide (i < J)%nat); [rewrite bool_decide_eq_true_2|rewrite bool_decide_eq_false_2]. }
  rewrite <- Hd. destruct i as [|i]; [by rewrite Hs0, Hsp|]. unfold snapAt, currAt.
  destruct (levels_of bl bl' (S i) (lo_length _ _ _ Hok) (lo_length _ _ _ Hok'))
    as [(l & l' & Hl & Hl' & Hi)|(Hl & Hl' & Hi)]; rewrite Hl, Hl'.
  - by rewrite (sd_snap _ _ _ _ _ _ _ (Hab _ _ _ Hl Hl')), Hsp.
  - by rewrite bool_decide_eq_false_2 by lia.
Qed.

(** The merge prepared for a level into which the one above has spilled. *)
Lemma prepared_next bl bl' t batch i k : listInv (t - 1) bl -> batchStep t batch bl bl' ->
  (i < 10)%nat -> spills t i = true -> younger (cOf bl k) (sOf bl k) i = None ->
  agree isDead (S i) (nOf bl' k (S i)) (orElse (cOf bl k i) (if skipAt t (S i) then None else cOf bl' k (S i))).
Proof.
  intros [Hok _ _ _] [Hok' _ _ Hab] Hi Hsp Hy.
  destruct (levels_of bl bl' (S i) (lo_length _ _ _ Hok) (lo_length _ _ _ Hok'))
    as [(l & l' & Hl & Hl' & _)|(_ & _ & Hi')]; [|lia].
  pose proof (sd_next _ _ _ _ _ _ _ (Hab _ _ _ Hl Hl')) as Hn. rewrite Hsp in Hn.
  destruct Hn as (b & Hb & Hv). unfold nOf, cOf, nextAt, currAt at 2. rewrite Hl'. cbn [mbind option_bind].
  rewrite Hb. cbn [default]. rewrite Hv, skip_now by done. unfold mergeView.
  rewrite lookupAll_holds by (rewrite lookupAll_younger by (rewrite (lo_length _ _ _ Hok); lia); done).
  assert (blookup k (if skips t (S i) then [] else mCurr l') = if skips t (S i) then None else blookup k (mCurr l')) as ->
    by (by destruct (skips t (S i))).
  assert (forall x y : option BE, match x with Some e => Some e | None => y end = orElse x y) as Hor by (by intros []).
  rewrite Hor.
  unfold agree, keeps. destruct (decide (S i = 10)%nat) as [Ei|Ei].
  - rewrite bool_decide_eq_false_2 by lia. cbn [orb].
    destruct (orElse _ _) as [e|]; [|done]. cbn. by destruct (isDead e) eqn:Ed; cbn; rewrite ?Ed.
  - rewrite bool_decide_eq_true_2 by lia. cbn [orb]. by destruct (orElse _ _).
Qed.

Lemma batch_ledgerStep bl bl' t batch J k : listInv (t - 1) bl -> batchStep t batch bl bl' -> (J <= 10)%nat ->
  (forall i, spills t i = bool_decide (i < J)%nat) ->
  ledgerStep isDead J (blookup k batch) (cOf bl k) (sOf bl k) (nOf bl k) (cOf bl' k) (sOf bl' k) (nOf bl' k)
    (skipAt (t - 1)) (skipAt t).
Proof.
  intros Hinv Hb HJ Hsp. replace t with (t - 1 + 1) in Hsp by lia. split.
  - intros i. unfold sOf, cOf. replace (t - 1 + 1) with t in Hsp by lia.
    rewrite (spilled_snap bl bl' t batch i J) by done. by destruct (decide (i < J)%nat).
  - unfold cOf. rewrite (bs_curr0 _ _ _ _ Hb). replace (t - 1 + 1) with t in Hsp by lia. rewrite Hsp.
    by destruct (decide (0 < J)%nat); [rewrite bool_decide_eq_true_2|rewrite bool_decide_eq_false_2].
  - replace (t - 1 + 1) with t in Hsp by lia. intros i. by apply (spilled_curr bl bl' t batch).
  - replace (t - 1 + 1) with t in Hsp by lia. intros i Hi Hy. apply (prepared_next bl bl' t batch); [done|done|lia| |done].
    rewrite Hsp. apply bool_decide_eq_true_2. lia.
  - replace (t - 1 + 1) with t in Hsp by lia. intros i Hi. unfold nOf, nextAt. destruct Hinv as [Hok _ _ _].
    destruct (levels_of bl bl' (S i) (lo_length _ _ _ Hok) (lo_length _ _ _ (bs_ok _ _ _ _ Hb)))
      as [(l & l' & Hl & Hl' & _)|(Hl & Hl' & Hi')]; rewrite Hl, Hl'; [|done]. cbn [mbind option_bind].
    pose proof (sd_next _ _ _ _ _ _ _ (bs_above _ _ _ _ Hb _ _ _ Hl Hl')) as Hn.
    rewrite Hsp, bool_decide_eq_false_2 in Hn by lia. by rewrite Hn.
  - intros i Hi. rewrite skip_spill, !Hsp; [done|]. rewrite Hsp. apply bool_decide_eq_true_2. lia.
  - intros i Hi. rewrite <- (skip_later (t - 1)); [f_equal; lia|]. rewrite Hsp. apply bool_decide_eq_false_2. lia.
Qed.

(** ** The invariant *)

Lemma listInv_new g : listInv 0 (newBucketList g).
Proof.
  assert (forall i l, newBucketList (Entry:=Entry) (Key:=Key) g !! i = Some l -> l = newLevel g i) as Hl.
  { intros i l Hl. unfold newBucketList in Hl. rewrite list_lookup_fmap in Hl.
    destruct (seq 0 kNumLevels !! i) as [j|] eqn:E; [|done]. cbn in Hl. injection Hl as <-.
    apply lookup_seq in E as [-> _]. done. }
  assert (forall i, currAt (newBucketList (Entry:=Entry) (Key:=Key) g) i = []) as Hc.
  { intros i. unfold currAt. destruct (newBucketList g !! i) as [l|] eqn:E; [|done]. by rewrite (Hl _ _ E). }
  assert (forall i, snapAt (newBucketList (Entry:=Entry) (Key:=Key) g) i = []) as Hs.
  { intros i. unfold snapAt. destruct (newBucketList g !! i) as [l|] eqn:E; [|done]. by rewrite (Hl _ _ E). }
  assert (forall i, nextAt (newBucketList (Entry:=Entry) (Key:=Key) g) i = None) as Hn.
  { intros i. unfold nextAt. destruct (newBucketList g !! i) as [l|] eqn:E; [|done]. by rewrite (Hl _ _ E). }
  split; [|apply Hs|by auto|].
  - split; [done| |]; intros; rewrite (Hl _ _ ltac:(eassumption)); [apply levelOk_new|done].
  - intros k i Hi _. unfold cOf, sOf, nOf. rewrite Hc, Hs, Hn. unfold agree. destruct (decide _), (skipAt 0 (S i)); done.
Qed.

Lemma addBatch_inv t live dead bl : 0 <= t < UINT32_MAX - 524288 -> listInv t bl ->
  NoDup (map keyOf live) -> NoDup dead ->
  exists bl', addBatch keyOf sv sort (t + 1) live dead bl = Some bl' /\ listInv (t + 1) bl' /\
    forall k, view bl' k = match batchWrite keyOf live dead k with
                           | Some (LIVEENTRY e) => Some e | Some (DEADENTRY _) => None
                           | None => view bl k end.
Proof.
  intros Ht Hinv Hlive Hdead.
  destruct (addBatch_step (t + 1) live dead bl) as (batch & bl' & Hrun & Hb & Hw); [lia|apply Hinv|done|done|].
  replace t with (t + 1 - 1) in Hinv by lia.
  destruct (spill_depth (t + 1)) as (J & HJ & Hsp).
  assert (forall k, ledgerStep isDead J (blookup k batch) (cOf bl k) (sOf bl k) (nOf bl k) (cOf bl' k)
    (sOf bl' k) (nOf bl' k) (skipAt (t + 1 - 1)) (skipAt (t + 1))) as Hst.
  { intros k. by apply batch_ledgerStep. }
  assert (forall k, sOf bl k 10 = None) as H10 by (intros k; unfold sOf; by rewrite (li_last _ _ Hinv)).
  exists bl'. split; [done|]. split; [split|].
  - apply Hb.
  - rewrite (spilled_snap bl bl' (t + 1) batch 10 J) by done. rewrite decide_False by lia. apply Hinv.
  - intros i Hn. rewrite (spilled_snap bl bl' (t + 1) batch i J) by done.
    destruct (levels_of bl bl' (S i) (lo_length _ _ _ (li_ok _ _ Hinv)) (lo_length _ _ _ (bs_ok _ _ _ _ Hb)))
      as [(l & l' & Hl & Hl' & Hi)|(Hl & Hl' & Hi)].
    + pose proof (bs_above _ _ _ _ Hb _ _ _ Hl Hl') as [_ _ Hcu Hne].
      unfold nextAt in Hn. rewrite Hl' in Hn. cbn in Hn. destruct (spills (t + 1) i) eqn:Es.
      { destruct Hne as (b & Hb' & _). congruence. }
      rewrite Hsp in Es. apply bool_decide_eq_false in Es. rewrite decide_False by lia.
      destruct (li_idle _ _ Hinv i) as [Hs Hc].
      { unfold nextAt. rewrite Hl. cbn. congruence. }
      split; [done|]. unfold currAt in *. rewrite Hl in Hc. rewrite Hl', Hcu, Hc. by destruct (spills (t + 1) (S i)).
    + rewrite decide_False by lia. unfold currAt. rewrite Hl'. split; [|done].
      destruct (li_idle _ _ Hinv i) as [Hs _]; [|done]. unfold nextAt. by rewrite Hl.
  - intros k. eapply step_pending; [exact HJ|apply Hst|apply Hinv].
  - intros k. rewrite !view_younger by (apply Hb || apply (li_ok _ _ Hinv)). rewrite <- Hw.
    destruct (blookup k batch) as [e|] eqn:Ek.
    + rewrite (step_written isDead J (Some e) _ _ _ _ _ _ _ _ (eq_ind _ (fun f => ledgerStep isDead J f _ _ _ _ _ _ _ _) (Hst k) _ Ek) e eq_refl).
      by destruct e.
    + by rewrite (step_same isDead J _ _ _ _ _ _ _ _ _ HJ (Hst k) (li_pending _ _ Hinv k) (H10 k) Ek).
Qed.

(** ** Restarts *)

(** After a restart with the flags the merges were started with, the list is
    good and stands for the same ledger, and it would be saved as it was. *)
Lemma restart_inv t bl ready garbage : listInv t bl -> (forall i, (i < 11)%nat -> garbage i = keepsDead i) ->
  Forall (stored sv) (concat (map filesOf bl)) ->
  exists has bl', saveLevels sv ready 0 bl = Some has /\ assumeState keyOf sv garbage has = Some bl' /\ listInv t bl' /\
    (forall k, view bl' k = view bl k) /\ saveLevels sv (fun _ => false) 0 bl' = Some has.
Proof.
  intros [[Hlen Hlev Hzero] Hlast Hidle Hpend] Hg Hf.
  destruct (restart_levels keyOf sv 0 bl ready garbage) as (has & bl1 & bl' & E1 & E2 & E3 & Hlen' & Hsame & E6); [done|rewrite Hlen; intros j Hj; apply Hg; lia|done|].
  cbn [Nat.add] in Hsame.
  assert (forall i, currAt bl' i = currAt bl i /\ snapAt bl' i = snapAt bl i /\ nextAt bl' i = nextAt bl i) as Hat.
  { intros i. unfold currAt, snapAt, nextAt. destruct (bl !! i) as [l|] eqn:El.
    - destruct (Hsame i l El) as (l' & -> & [_ -> -> Hn]). by cbn.
    - apply lookup_ge_None in El. assert (bl' !! i = None) as -> by (apply lookup_ge_None; lia). done. }
  assert (length bl' = 11%nat) as Hlen1 by congruence.
  assert (forall i l', bl' !! i = Some l' -> exists l, bl !! i = Some l /\ sameLevel keyOf sv i l l') as Hback.
  { intros i l' Hl'. assert (exists l, bl !! i = Some l) as [l El] by (apply lookup_lt_is_Some; apply lookup_lt_Some in Hl'; lia).
    exists l. split; [done|]. destruct (Hsame i l El) as (l2 & E & Hs2). congruence. }
  assert (forall k i, cOf bl' k i = cOf bl k i /\ sOf bl' k i = sOf bl k i /\ nOf bl' k i = nOf bl k i) as HOf.
  { intros k i. unfold cOf, sOf, nOf. by destruct (Hat i) as (-> & -> & ->). }
  exists has, bl'. split; [done|]. split; [unfold assumeState; by rewrite E2|]. split; [|split; [|done]].
  - split.
    + split; [done| |].
      * intros i l' Hl'. destruct (Hback i l' Hl') as (l & _ & []). done.
      * intros l' Hl'. destruct (Hback _ _ Hl') as (l & El & [Hlv _ _ Hn]). specialize (Hzero l El).
        apply (not_live keyOf sv 0); [apply Hlv|]. unfold nextOf, outputOf in *. by rewrite Hn, Hzero.
    + by rewrite (proj1 (proj2 (Hat _))).
    + intros i. rewrite (proj2 (proj2 (Hat _))), (proj1 (proj2 (Hat _))), (proj1 (Hat _)). apply Hidle.
    + intros k. eapply pendingOk_ext; [..|apply Hpend]; intros i; apply HOf.
  - intros k. rewrite !view_younger by done. erewrite younger_ext; [done|intros i; apply HOf..].
Qed.

(** ** Histories *)

(** What is in the ledger after some batches. *)
Definition ledgerAfter (batches : list (list Entry * list Key)) (start : Key -> option Entry) (k : Key)
  : option Entry :=
  fold_left (fun cur batch => match batchWrite keyOf batch.1 batch.2 k with
                              | Some (LIVEENTRY e) => Some e | Some (DEADENTRY _) => None
                              | None => cur end) batches (start k).

Lemma addBatches_view t batches bl : 0 <= t -> t + Z.of_nat (length batches) <= UINT32_MAX - 524288 ->
  listInv t bl -> Forall (fun b => NoDup (map keyOf b.1) /\ NoDup b.2) batches ->
  exists bl', addBatches keyOf sv sort t batches bl = Some bl' /\
    listInv (t + Z.of_nat (length batches)) bl' /\
    forall k, view bl' k = ledgerAfter batches (view bl) k.
Proof.
  intros Ht Hlen Hinv Hnd. revert t bl Ht Hlen Hinv.
  induction Hnd as [|[live dead] batches [Hl Hd] _ IH]; intros t bl Ht Hlen Hinv.
  { exists bl. split; [done|]. split; [|done]. cbn. by rewrite Z.add_0_r. }
  cbn [length] in Hlen. cbn [addBatches fst snd] in *.
  destruct (addBatch_inv t live dead bl) as (bl1 & Hrun & Hinv1 & Hv1); [lia|done..|].
  rewrite Hrun. cbn [mbind option_bind].
  destruct (IH (t + 1) bl1) as (bl2 & Hrun2 & Hinv2 & Hv2); [lia|lia|done|].
  exists bl2. split; [done|]. split; [by replace (t + Z.of_nat (length _)) with (t + 1 + Z.of_nat (length batches)) by (cbn; lia)|].
  intros k. rewrite Hv2. unfold ledgerAfter. cbn [fold_left fst snd]. by rewrite Hv1.
Qed.

End BucketListView.
