(* ===== verification/LedgerClose.v ===== *)
(** * Closing a ledger ([ledger/LedgerManagerImpl.cpp],
      [transactions/TransactionFrame.cpp])

    [closeLedger] applies the transaction set that consensus has chosen to the
    last closed ledger, inside one SQL transaction: it notes every
    transaction in the tables of history and timing, applies each in a nested
    delta, applies the upgrades, commits the delta and hands the batch of
    changed entries to the bucket list.

    [Db] is what the SQL transaction restores when it is rolled back.  The
    tables of history keep the columns that identify a row.  Metrics, the
    archive state and the publishing of history are left out. *)

From S2P Require Import Prelude OrdContainers LedgerDelta EntryStore Signatures Transaction LedgerHeader TxSet Bucket FutureBucket BucketList.
Import BL.

(** The part of the state of a transaction frame that outlives a call. *)
Record FrameState := {
  fsUsed : list bool;
  fsSigning : option AccountEntry;
  fsCode : TransactionResultCode;
  fsOpResults : list OperationResultCode;
}.

Record HistoryRow := {
  hrTxid : Hash;
  hrLedgerSeq : Z;
  hrIndex : Z;
}.

Record Tables := {
  txtiming : list (Hash * Z);                    (** txid, valid_before *)
  txfeehistory : list HistoryRow;
  txhistory : list (HistoryRow * TransactionResultCode);
  ledgerheaders : list (Hash * LedgerHeader);
  kLastClosedLedger : Hash;
  kHistoryArchiveState : list SavedLevel;
}.

(** What the phases of a close work on. *)
Record Closing {Key Entry : Type} := {
  cStore : Store Key Entry LedgerHeader;
  cTables : Tables;
}.
Arguments Closing : clear implicits.

Record LedgerManager {Key Entry : Type} := {
  lmRows : list Entry;
  lmTables : Tables;
  lmCache : list (Key * option Entry);
  mCurrentLedger : LedgerHeaderFrame;
  mLastClosedLedger : Hash * LedgerHeader;
  mBucketList : list (BucketLevel (list (BucketEntry Key Entry)));
}.
Arguments LedgerManager : clear implicits.

Record LedgerCloseData := {
  mLedgerSeq : Z;
  mTxSet : TxSetFrame;
  mValue : StellarValue;
}.

Module LC.
Section LC.
Context {Key Entry : Type} `{Ord Key} `{EqDecision Entry}.
Context {helper : EntryHelper Key Entry LedgerHeader} (max_size : nat).
Context {Sig : Type} (verifySig : PublicKey -> Sig -> bool) (anySignerType READER : Z) (anyBlockReason : Z).
Context (accountKey : PublicKey -> Key) (asAccount : Entry -> option AccountEntry).
Context (zeroKey : PublicKey) (zeroType : AccountType).
Local Abbreviation St := (Store Key Entry LedgerHeader).
Local Abbreviation Env := (Envelope Sig St).
Local Abbreviation Ptr := TransactionFramePtr.
Local Abbreviation Bucket := (list (BucketEntry Key Entry)).
Context (frame : Ptr -> Env) (marshal : Env -> list Z) (sha256 : list Z -> Hash).
Context (sort : (Ptr -> Ptr -> bool) -> list Ptr -> list Ptr).
Context (marshalHeader : LedgerHeader -> list Z) (marshalResults : list (Hash * TransactionResultCode) -> list Z).
Context (decodeUpgrade : list Z -> option LedgerUpgrade).
Context (bucketServices : BucketServices Bucket) (bucketSort : list (BucketEntry Key Entry) -> list (BucketEntry Key Entry)).
Context (masterID : PublicKey) (PARANOID_MODE : bool).
Local Abbreviation C := (Closing Key Entry).
Local Abbreviation LM := (LedgerManager Key Entry).
Implicit Types (c : C) (lm : LM) (p : Ptr).

(** ** Tables *)

Definition setTables (f : Tables -> Tables) c : C := {| cStore := cStore c; cTables := f (cTables c) |}.
Definition setStore s c : C := {| cStore := s; cTables := cTables c |}.

Definition samePosition (seq index : Z) (r : HistoryRow) : bool := (hrLedgerSeq r =? seq) && (hrIndex r =? index).

Definition storeTransactionFee (seq index : Z) (env : Env) : M C unit :=
  c ← get;
  let t := cTables c in
  if existsb (samePosition seq index) (txfeehistory t) then throw ES.sqlConstraintError else
  modify (setTables (fun t => {| txtiming := txtiming t;
    txfeehistory := txfeehistory t ++ [{| hrTxid := contentsHash env; hrLedgerSeq := seq; hrIndex := index |}];
    txhistory := txhistory t; ledgerheaders := ledgerheaders t; kLastClosedLedger := kLastClosedLedger t; kHistoryArchiveState := kHistoryArchiveState t |})).

Definition timingExists (t : Tables) (txid : Hash) : bool := existsb (fun r => bool_decide (r.1 = txid)) (txtiming t).

(** A time that does not fit a BIGINT is refused by the database. *)
Definition storeTransactionTiming (env : Env) (maxTime : Z) : M C unit :=
  c ← get;
  if timingExists (cTables c) (contentsHash env) || (maxTime >? INT64_MAX) then throw ES.sqlConstraintError else
  modify (setTables (fun t => {| txtiming := txtiming t ++ [(contentsHash env, maxTime)];
    txfeehistory := txfeehistory t; txhistory := txhistory t; ledgerheaders := ledgerheaders t;
    kLastClosedLedger := kLastClosedLedger t; kHistoryArchiveState := kHistoryArchiveState t |})).

Definition storeTransaction (seq index : Z) (env : Env) (code : TransactionResultCode) : M C unit :=
  c ← get;
  let t := cTables c in
  if existsb (fun r => samePosition seq index r.1) (txhistory t) then throw ES.sqlConstraintError else
  modify (setTables (fun t => {| txtiming := txtiming t; txfeehistory := txfeehistory t;
    txhistory := txhistory t ++ [({| hrTxid := contentsHash env; hrLedgerSeq := seq; hrIndex := index |}, code)];
    ledgerheaders := ledgerheaders t; kLastClosedLedger := kLastClosedLedger t; kHistoryArchiveState := kHistoryArchiveState t |})).

(** [LedgerHeaderFrame::storeInsert], after the hash was computed, and
    [setState(kLastClosedLedger, ...)] *)
Definition storeHeader (hash : Hash) (h : LedgerHeader) : M C unit :=
  c ← get;
  let t := cTables c in
  if existsb (fun r => bool_decide (r.1 = hash) || (ledgerSeq r.2 =? ledgerSeq h)) (ledgerheaders t) ||
     (closeTime (scpValue h) >? INT64_MAX)
  then throw ES.sqlConstraintError else
  modify (setTables (fun t => {| txtiming := txtiming t; txfeehistory := txfeehistory t; txhistory := txhistory t;
    ledgerheaders := ledgerheaders t ++ [(hash, h)]; kLastClosedLedger := hash; kHistoryArchiveState := kHistoryArchiveState t |})).

(** [setState(kHistoryArchiveState, ...)] *)
Definition storeArchiveState (has : list SavedLevel) c : C :=
  setTables (fun t => {| txtiming := txtiming t; txfeehistory := txfeehistory t; txhistory := txhistory t;
    ledgerheaders := ledgerheaders t; kLastClosedLedger := kLastClosedLedger t; kHistoryArchiveState := has |}) c.

(** [LedgerManagerImpl::deleteOldEntries], but for the tables of the herder *)
Definition deleteOldEntries (seq ledgerCloseTime : Z) (t : Tables) : Tables :=
  {| txtiming := List.filter (fun r => negb (r.2 <? ledgerCloseTime)) (txtiming t);
     txfeehistory := List.filter (fun r => negb (hrLedgerSeq r <=? seq)) (txfeehistory t);
     txhistory := List.filter (fun r => negb (hrLedgerSeq r.1 <=? seq)) (txhistory t);
     ledgerheaders := List.filter (fun r => negb (ledgerSeq r.2 <=? seq)) (ledgerheaders t);
     kLastClosedLedger := kLastClosedLedger t; kHistoryArchiveState := kHistoryArchiveState t |}.

(** ** Fees and sequence numbers *)

Definition onStore {A} (m : M St A) : M C A := fun c =>
  match m (cStore c) with Ret a s => Ret a (setStore s c) | Throw x s => Throw x (setStore s c) end.

Definition txState (fs : FrameState) (s : St) : TxState St :=
  {| tStore := s; mUsedSignatures := fsUsed fs; mSigningAccount := fsSigning fs; mResultCode := fsCode fs;
     mOpResults := fsOpResults fs |}.

(** [tx->processSeqNum()], which resets the frame. *)
Definition processSeqNum (env : Env) : FrameState :=
  {| fsUsed := SV.resetSignatureTracker (signatures env); fsSigning := None; fsCode := txSUCCESS;
     fsOpResults := map (fun _ => opINNER) (operations env) |}.

(** A round of the loop commits a nested delta that nothing was written to. *)
Definition commitEmpty : M C unit :=
  onStore (fun s => ES.commitInto (sDelta s) (ES.setDelta s (LD.nestedDelta (sDelta s)))).

Fixpoint processFeesSeqNums (seq index : Z) (txs : list Ptr) : M C (list (Ptr * FrameState)) :=
  match txs with
  | [] => mret []
  | p :: r =>
      let index := index + 1 in
      let env := frame p in
      storeTransactionFee seq index env;;
      storeTransactionTiming env (maxTime env);;
      commitEmpty;;
      rest ← processFeesSeqNums seq index r;
      mret ((p, processSeqNum env) :: rest)
  end.

(** ** Transactions *)

Definition apply (env : Env) (info : LedgerInfo) : M (TxState St) bool :=
  TF.applyTx max_size verifySig anySignerType READER anyBlockReason accountKey asAccount zeroKey zeroType env info.

(** The [try] block: the result code, and the store with the nested delta
    committed or dropped.  A failed assertion is not an exception. *)
Definition applyOne (info : LedgerInfo) (env : Env) (fs : FrameState) : M C TransactionResultCode := fun c =>
  let s := cStore c in
  let outer := sDelta s in
  let dropped (t : TxState St) := setStore (ES.dropNested outer (tStore t)) c in
  match apply env info (txState fs (ES.setDelta s (LD.nestedDelta outer))) with
  | Ret true t =>
      match ES.commitInto outer (tStore t) with
      | Ret _ s' => Ret (mResultCode t) (setStore s' c)
      | Throw (RuntimeError _ | RuntimeErrorPtr _) s' => Ret txINTERNAL_ERROR (setStore s' c)
      | Throw x s' => Throw x (setStore s' c)
      end
  | Ret false t =>
      if negb (length (LD.getChanges lastModifiedLedgerSeq headerSeq (sDelta (tStore t))) =? 0)%nat then Throw Aborted (dropped t)
      else if negb (bool_decide (mCurrentHeader (sDelta (tStore t)) = mCurrentHeader outer)) then Throw Aborted (dropped t)
      else Ret (mResultCode t) (dropped t)
  | Throw (RuntimeError _ | RuntimeErrorPtr _) t => Ret txINTERNAL_ERROR (dropped t)
  | Throw x t => Throw x (dropped t)
  end.

Fixpoint applyTransactions (info : LedgerInfo) (seq index : Z) (txs : list (Ptr * FrameState))
  : M C (list (Hash * TransactionResultCode)) :=
  match txs with
  | [] => mret []
  | (p, fs) :: r =>
      let index := index + 1 in
      code ← applyOne info (frame p) fs;
      storeTransaction seq index (frame p) code;;
      rest ← applyTransactions info seq index r;
      mret ((contentsHash (frame p), code) :: rest)
  end.

(** ** Upgrades *)

Definition onHeader (f : LedgerHeader -> LedgerHeader) : M C unit :=
  modify (fun c => setStore (ES.setDelta (cStore c) (LD.setCurrentHeader (sDelta (cStore c))
                                                       (f (mCurrentHeader (sDelta (cStore c)))))) c).

Definition applyUpgrade (u : LedgerUpgrade) : M C unit :=
  match u with
  | VERSION v => onHeader (LH.setVersion v)
  | MAX_TX_SET_SIZE n => onHeader (LH.setMaxTxSetSize n)
  | EXTERNAL_SYSTEM_ID_GENERATOR gs => onHeader (LH.setExternal gs)
  | TX_EXPIRATION_PERIOD n => onHeader (LH.setTxExpirationPeriod n)
  | UNKNOWN_UPGRADE _ => throw (RuntimeError "Unknown upgrade type")
  end.

Fixpoint applyUpgrades (us : list (list Z)) : M C unit :=
  match us with
  | [] => mret tt
  | u :: r =>
      match decodeUpgrade u with
      | None => throw (RuntimeError "Unknown upgrade step")
      | Some u => applyUpgrade u
      end;; applyUpgrades r
  end.

(** ** The close *)

Definition ledgerInfo (h : LedgerHeader) : LedgerInfo :=
  {| liCloseTime := closeTime (scpValue h); liTxExpirationPeriod := txExpirationPeriod h;
     liLedgerVersion := ledgerVersion h; liMasterID := masterID |}.

(** Until the delta is committed. *)
Definition applyLedger (h : LedgerHeader) (txs : list Ptr) : M C (list (Hash * TransactionResultCode)) :=
  frames ← processFeesSeqNums (ledgerSeq h) 0 txs;
  results ← applyTransactions (ledgerInfo h) (ledgerSeq h) 0 frames;
  onHeader (LH.setTxSetResultHash (sha256 (marshalResults results)));;
  applyUpgrades (upgrades (scpValue h));;
  onStore (ES.checkAgainstDatabase max_size PARANOID_MODE);;
  mret results.

Definition bucketListGetHash (bl : list (BucketLevel Bucket)) : Hash :=
  sha256 (concat (map (fun l => sha256 (getHash bucketServices (mCurr l) ++ getHash bucketServices (mSnap l))) bl)).

(** [snapshotLedger] *)
Definition snapshotLedger (bl : list (BucketLevel Bucket)) (h : LedgerHeader) : LedgerHeader :=
  LH.calculateSkipValues (LH.setBucketListHash (bucketListGetHash bl) h).

(** The destructor of the delta of the ledger, if it was not committed. *)
Definition dropRoot c : C :=
  match LD.rollback (sDelta (cStore c)) with
  | Ret ks _ => match ES.flushAll ks (cStore c) with Ret _ s | Throw _ s => setStore s c end
  | Throw _ _ => c
  end.

(** An exception rolls the SQL transaction back; what is in memory stays. *)
Definition rolledBack lm (current : LedgerHeaderFrame) c : LM :=
  {| lmRows := lmRows lm; lmTables := lmTables lm; lmCache := sCache (cStore (dropRoot c));
     mCurrentLedger := current; mLastClosedLedger := mLastClosedLedger lm; mBucketList := mBucketList lm |}.

Definition setBuckets bl lm : LM :=
  {| lmRows := lmRows lm; lmTables := lmTables lm; lmCache := lmCache lm; mCurrentLedger := mCurrentLedger lm;
     mLastClosedLedger := mLastClosedLedger lm; mBucketList := bl |}.

Definition committed c current lcl bl : LM :=
  {| lmRows := sRows (cStore c); lmTables := cTables c; lmCache := sCache (cStore c); mCurrentLedger := current;
     mLastClosedLedger := lcl; mBucketList := bl |}.

(** [closeLedgerHelper] and [advanceLedgerPointers], with the header that
    the delta was committed to. *)
Definition closeLedgerHelper lm (live : list Entry) (dead : list Key) (h : LedgerHeader) c : outcome LM unit :=
  let frame h := {| lhHeader := h; lhHash := lhHash (mCurrentLedger lm) |} in
  match addBatch getLedgerKey bucketServices bucketSort (ledgerSeq h) live dead (mBucketList lm) with
  | None => Throw Aborted (rolledBack lm (frame h) c)
  | Some bl =>
      let h := snapshotLedger bl h in
      match LH.getHash sha256 marshalHeader (frame h) with
      | None => Throw Aborted (rolledBack (setBuckets bl lm) (frame h) c)
      | Some (hash, current) =>
          match storeHeader hash (lhHeader current) c with
          | Throw x c => Throw x (rolledBack (setBuckets bl lm) current c)
          | Ret _ c =>
              match saveLevels bucketServices (mergeReady bucketServices (ledgerSeq h)) 0 bl with
              | None => Throw Aborted (rolledBack (setBuckets bl lm) current c)
              | Some has =>
                  let c := storeArchiveState has c in
                  match LH.fromLastClosed sha256 marshalHeader hash (lhHeader current) with
                  | None => Throw (RuntimeError "provided ledger header is invalid") (rolledBack (setBuckets bl lm) current c)
                  | Some next => Ret tt (committed c next (hash, lhHeader current) bl)
                  end
              end
          end
      end
  end.

Definition closeWith lm (h : LedgerHeader) (txs : list Ptr) : outcome LM (list (Hash * TransactionResultCode)) :=
  let c0 := {| cStore := {| sRows := lmRows lm; sCache := lmCache lm; sDelta := LD.newDelta h true |};
               cTables := lmTables lm |} in
  let current := {| lhHeader := h; lhHash := lhHash (mCurrentLedger lm) |} in
  match applyLedger h txs c0 with
  | Throw x c => Throw x (rolledBack lm current c)
  | Ret results c =>
      let d := sDelta (cStore c) in
      match LD.commitRoot (d, h) with
      | Throw x _ => Throw x (rolledBack lm current c)
      | Ret _ (d', h') =>
          match closeLedgerHelper lm (LD.getLiveEntries d) (LD.getDeadEntries d) h' (setStore (ES.setDelta (cStore c) d') c) with
          | Ret _ lm' => Ret results lm'
          | Throw x lm' => Throw x lm'
          end
      end
  end.

(** [closeLedger], up to the commit of the SQL transaction.  The steps after
    it publish history and delete the files of buckets that nothing refers to;
    they change nothing of this state, and that the files of the saved buckets
    are there is a hypothesis of the theorems on restarts. *)
Definition closeLedger (lcd : LedgerCloseData) : M LM (list (Hash * TransactionResultCode)) := fun lm =>
  if negb (bool_decide (mPreviousLedgerHash (mTxSet lcd) = (mLastClosedLedger lm).1))
  then Throw (RuntimeError "txset mismatch") lm else
  match TS.getContentsHash frame marshal sha256 sort (mTxSet lcd) with
  | Throw x _ => Throw x lm
  | Ret hash ts =>
      if negb (bool_decide (hash = txSetHash (mValue lcd)))
      then Throw (RuntimeError "corrupt transaction set") lm else
      match TS.sortForApply frame marshal sha256 sort ts with
      | Throw x _ => Throw x lm
      | Ret txs _ => closeWith lm (LH.setScpValue (mValue lcd) (lhHeader (mCurrentLedger lm))) txs
      end
  end.

(** Maintenance between ledgers. *)
Definition cleanUp (seq : Z) lm : LM :=
  {| lmRows := lmRows lm;
     lmTables := deleteOldEntries seq (closeTime (scpValue (lhHeader (mCurrentLedger lm)))) (lmTables lm);
     lmCache := lmCache lm; mCurrentLedger := mCurrentLedger lm; mLastClosedLedger := mLastClosedLedger lm;
     mBucketList := mBucketList lm |}.

(** An exception from [closeLedger] ends the process.  [loadLastKnownLedger]
    starts a new one from the database: with an empty cache, the header of the
    last closed ledger, and the bucket list of the saved state, whose merges
    are started again; [None] if this throws or a bucket is missing.
    [garbage] is the memory the futures of the saved state are loaded into. *)
Definition loadLastKnownLedger (garbage : nat -> bool) lm : option LM :=
  let tables := lmTables lm in
  match List.find (fun r => bool_decide (r.1 = kLastClosedLedger tables)) (ledgerheaders tables) with
  | None => None
  | Some (_, h) =>
      '(hash, f) ← LH.getHash sha256 marshalHeader {| lhHeader := h; lhHash := None |};
      if negb (bool_decide (hash = kLastClosedLedger tables)) then None else
      bl ← assumeState getLedgerKey bucketServices garbage (kHistoryArchiveState tables);
      next ← LH.fromLastClosed sha256 marshalHeader hash (lhHeader f);
      Some {| lmRows := lmRows lm; lmTables := tables; lmCache := []; mCurrentLedger := next;
              mLastClosedLedger := (hash, lhHeader f); mBucketList := bl |}
  end.

(** What happens to a node; [garbage] is used if the ledger cannot be closed
    and the process is started again. *)
Inductive Event := CloseLedger (lcd : LedgerCloseData) (garbage : nat -> bool) | CleanUp (seq : Z).

(** The results of the transactions of all ledgers closed, and the manager
    unless the node could not be started again. *)
Fixpoint runHistory (evs : list Event) lm : list (Hash * TransactionResultCode) * option LM :=
  match evs with
  | [] => ([], Some lm)
  | CloseLedger lcd garbage :: r =>
      match closeLedger lcd lm with
      | Ret rs lm' => let '(rest, lm'') := runHistory r lm' in (rs ++ rest, lm'')
      | Throw _ lm' =>
          match loadLastKnownLedger garbage lm' with
          | Some lm'' => runHistory r lm''
          | None => ([], None)
          end
      end
  | CleanUp seq :: r => runHistory r (cleanUp seq lm)
  end.

End LC.
End LC.
