(* ===== verification/LedgerCloseFacts.v ===== *)
(** * Lemmas on closing ledgers *)

From S2P Require Import Prelude OrdContainers LedgerDelta LedgerDeltaFacts EntryStore EntryStoreFacts Signatures Transaction TransactionFacts LedgerHeader TxSet TxSetFacts Bucket BucketFacts FutureBucket BucketList BucketListFacts LedgerClose.
Import BL.

(** ** A batch taken from a delta *)

Section DeltaBatch.
Context {Key Entry Header : Type} `{Ord Key} `{EqDecision Header} (keyOf : Entry -> Key).
Context (sv : BucketServices (list (BucketEntry Key Entry))) `{!BucketServicesOk sv}.
Context (sort : list (BucketEntry Key Entry) -> list (BucketEntry Key Entry)) `{!StdSort keyOf sort}.

(** Buckets that stand for a ledger stand, after the batch of a delta, for
    the ledger with the changes of the delta. *)
Lemma delta_batch L t bl (d : LedgerDelta Key Entry Header) : 0 <= t < UINT32_MAX - 524288 ->
  listInv keyOf sv t bl -> (forall k, view keyOf bl k = L k) -> deltaSets keyOf L d ->
  exists bl', addBatch keyOf sv sort (t + 1) (LD.getLiveEntries d) (LD.getDeadEntries d) bl = Some bl' /\
    listInv keyOf sv (t + 1) bl' /\ forall k, view keyOf bl' k = deltaView d L k.
Proof.
  intros Ht Hinv Hv Hsets. destruct (live_dead_distinct keyOf L d Hsets) as [Hl Hdd].
  destruct (addBatch_inv keyOf sv sort t (LD.getLiveEntries d) (LD.getDeadEntries d) bl) as (bl' & Hb & Hi & Hvb); [done..|].
  exists bl'. split; [done|]. split; [done|]. intros k. rewrite Hvb. unfold batchWrite, deltaView, LD.getDeadEntries.
  destruct (os_mem k (mDelete d)); [done|]. rewrite (live_find keyOf _ _ _ Hsets).
  destruct (om_find k (mMod d)), (om_find k (mNew d)); done || apply Hv.
Qed.

End DeltaBatch.

(** ** The consistency check *)

(** Helpers whose [exists] answers truthfully from the cache. *)
Class ExistsOk {Key Entry Header} (h : EntryHelper Key Entry Header) : Prop :=
  existsInCache_ok : forall k v b, existsInCache k v = Some b -> b = match v with Some _ => true | None => false end.

Section CheckDatabase.
Context {Key Entry Header : Type} `{Ord Key} `{EqDecision Header} `{EqDecision Entry}.
Context {helper : EntryHelper Key Entry Header} {helperOk : EntryHelperOk helper} {existsOk : ExistsOk helper}.
Context (max_size : nat).
Local Abbreviation St := (Store Key Entry Header).
Implicit Types (s : St) (L : Key -> option Entry).

(** A computation that returns [a] and changes nothing but the cache. *)
Definition onlyCache {A} (m : M St A) L s (a : A) : Prop :=
  exists c, m s = Ret a (ES.setCache s c) /\ storeOk L (ES.setCache s c).

Lemma setCache_id s : ES.setCache s (sCache s) = s.
Proof. by destruct s. Qed.

Lemma onlyCache_bind {A B} (m : M St A) (f : A -> M St B) L s a b : onlyCache m L s a ->
  (forall c, storeOk L (ES.setCache s c) -> onlyCache (f a) L (ES.setCache s c) b) -> onlyCache (m ≫= f) L s b.
Proof.
  intros (c & Hm & Hok) Hf. destruct (Hf c Hok) as (c' & Hf' & Hok'). exists c'.
  unfold mbind, M_bind. rewrite Hm, Hf'. by split.
Qed.

Lemma onlyCache_ret {A} (a : A) L s : storeOk L s -> onlyCache (mret a) L s a.
Proof. intros Hok. exists (sCache s). by rewrite setCache_id. Qed.

Lemma onlyCache_flush k L s : storeOk L s -> onlyCache (ES.flushCachedEntry k) L s tt.
Proof. intros Hok. eexists. split; [done|]. apply (keeps_flush k L s Hok). Qed.

Lemma onlyCache_load k L s : storeOk L s -> onlyCache (ES.storeLoad max_size k) L s (rowsFind (sRows s) k).
Proof. intros Hok. by apply storeLoad_row. Qed.

Lemma exists_row k L s : storeOk L s -> ES.exists_ k s =
  Ret (looksExists k && match rowsFind (sRows s) k with Some _ => true | None => false end) s.
Proof.
  intros Hok. unfold ES.exists_. destruct (looksExists k); [|done]. cbn [negb andb].
  unfold get, mbind, M_bind, mret, M_ret. change (ES.selectRow s k) with (rowsFind (sRows s) k).
  destruct (LruCache.find (sCache s) k) as [v|] eqn:Ef; [|done].
  destruct (existsInCache k v) as [b|] eqn:Ex; [|done]. f_equal.
  destruct (so_cache _ _ Hok k v Ef) as [_ ->]. rewrite (so_rows _ _ Hok). by apply existsInCache_ok in Ex.
Qed.

Lemma checkLive_ok es L s : storeOk L s -> (forall e, e ∈ es -> rowsFind (sRows s) (getLedgerKey e) = Some e) ->
  onlyCache (ES.checkLive max_size es) L s tt.
Proof.
  revert s. induction es as [|e es IH]; intros s Hok Hes; cbn [ES.checkLive]; [by apply onlyCache_ret|].
  eapply onlyCache_bind; [|intros c Hc; apply IH; [done|]; intros; apply Hes; by right].
  unfold ES.checkEntry. eapply onlyCache_bind; [by apply onlyCache_flush|]. intros c Hc.
  eapply onlyCache_bind; [by apply onlyCache_load|]. intros c' Hc'.
  rewrite bool_decide_eq_true_2; [by apply onlyCache_ret|]. apply Hes. left.
Qed.

Lemma checkDead_ok ks L s : storeOk L s -> (forall k, k ∈ ks -> rowsFind (sRows s) k = None) ->
  onlyCache (ES.checkDead ks) L s tt.
Proof.
  revert s. induction ks as [|k ks IH]; intros s Hok Hks; cbn [ES.checkDead]; [by apply onlyCache_ret|].
  eapply onlyCache_bind.
  - exists (sCache s). rewrite setCache_id. split; [by apply (exists_row k L)|done].
  - rewrite Hks, andb_false_r by left. intros c Hc. apply IH; [done|]. intros; apply Hks; by right.
Qed.

Lemma live_rows L s : storeOk L s -> forall e, e ∈ LD.getLiveEntries (sDelta s) ->
  rowsFind (sRows s) (getLedgerKey e) = Some e.
Proof.
  intros Hok e He. rewrite (so_rows _ _ Hok). pose proof (do_sets _ _ _ (so_delta _ _ Hok)) as Hs.
  destruct (ds_cell _ _ _ Hs (getLedgerKey e)) as (Hn & Hm & _).
  assert (om_find (getLedgerKey e) (mNew (sDelta s)) = Some e \/ om_find (getLedgerKey e) (mMod (sDelta s)) = Some e) as [E|E].
  { clear Hn Hm. unfold LD.getLiveEntries in He. apply elem_of_app in He as [He|He]; [left|right];
      apply list_elem_of_fmap in He as ([k e'] & -> & He); cbn [snd].
    - pose proof (elem_om_find k e' _ (ds_new_sorted _ _ _ Hs) He) as Hf. by rewrite (ds_new_keyed _ _ _ Hs _ _ Hf).
    - pose proof (elem_om_find k e' _ (ds_mod_sorted _ _ _ Hs) He) as Hf. by rewrite (ds_mod_keyed _ _ _ Hs _ _ Hf). }
  - destruct Hn as (_ & Hm' & Hd); [by eexists|]. unfold deltaView. by rewrite Hd, Hm', E.
  - destruct Hm as [_ Hd]; [by eexists|]. unfold deltaView. by rewrite Hd, E.
Qed.

Lemma dead_rows L s : storeOk L s -> forall k, k ∈ LD.getDeadEntries (sDelta s) -> rowsFind (sRows s) k = None.
Proof.
  intros Hok k Hk. rewrite (so_rows _ _ Hok). unfold deltaView. by rewrite (proj2 (os_mem_elem k _) Hk).
Qed.

(** The check finds what the delta says. *)
Lemma checkAgainstDatabase_ok b L s : storeOk L s -> onlyCache (ES.checkAgainstDatabase max_size b) L s tt.
Proof.
  intros Hok. unfold ES.checkAgainstDatabase. destruct b; cbn [negb]; [|by apply onlyCache_ret].
  eapply onlyCache_bind; [exists (sCache s); by rewrite setCache_id|]. intros c Hc.
  eapply onlyCache_bind; [apply checkLive_ok; [done|]; exact (live_rows L s Hok)|]. intros c' Hc'.
  apply checkDead_ok; [done|]. exact (dead_rows L s Hok).
Qed.

End CheckDatabase.

(** ** The phases of a close *)

Section Close.
Context {Key Entry : Type} `{Ord Key} `{EqDecision Entry}.
Context {helper : EntryHelper Key Entry LedgerHeader} {helperOk : EntryHelperOk helper} {existsOk : ExistsOk helper}.
Context {headerOk : HeaderOk helper} (max_size : nat).
Context {Sig : Type} (verifySig : PublicKey -> Sig -> bool) (anySignerType READER : Z) (anyBlockReason : Z).
Context (accountKey : PublicKey -> Key) (asAccount : Entry -> option AccountEntry).
Context (zeroKey : PublicKey) (zeroType : AccountType).
Local Abbreviation St := (Store Key Entry LedgerHeader).
Local Abbreviation Env := (Envelope Sig St).
Local Abbreviation Ptr := TransactionFramePtr.
Local Abbreviation Bucket := (list (BucketEntry Key Entry)).
Context (frame : Ptr -> Env) (marshal : Env -> list Z) (sha256 : list Z -> Hash).
Context (sort : (Ptr -> Ptr -> bool) -> list Ptr -> list Ptr) `{!SortOk sort}.
Context (marshalHeader : LedgerHeader -> list Z) (marshalResults : list (Hash * TransactionResultCode) -> list Z).
Context (decodeUpgrade : list Z -> option LedgerUpgrade).
Context (bucketServices : BucketServices Bucket) `{!BucketServicesOk bucketServices}.
Context (bucketSort : list (BucketEntry Key Entry) -> list (BucketEntry Key Entry)) `{!StdSort getLedgerKey bucketSort}.
Context (masterID : PublicKey) (PARANOID_MODE : bool).
Local Abbreviation C := (Closing Key Entry).
Local Abbreviation LM := (LedgerManager Key Entry).
Implicit Types (c : C) (lm : LM) (p : Ptr) (L : Key -> option Entry) (s : St).
Local Abbreviation keepsC := (stepsOn keepsQ keepsE (@cStore Key Entry)).
Local Abbreviation apply := (LC.apply max_size verifySig anySignerType READER anyBlockReason accountKey asAccount zeroKey zeroType).
Local Abbreviation applyOne := (LC.applyOne max_size verifySig anySignerType READER anyBlockReason accountKey asAccount zeroKey zeroType).
Local Abbreviation applyTransactions := (LC.applyTransactions max_size verifySig anySignerType READER anyBlockReason accountKey asAccount zeroKey zeroType frame).
Local Abbreviation applyLedger := (LC.applyLedger max_size verifySig anySignerType READER anyBlockReason accountKey asAccount zeroKey zeroType frame sha256 marshalResults decodeUpgrade masterID PARANOID_MODE).

Definition framesOk (txs : list Ptr) : Prop := Forall (fun p => Forall opOk (operations (frame p))) txs.

(** A transaction that did not succeed, whose nested delta is dropped. *)
Lemma dropped_same L s (t : TxState St) : storeOk L s ->
  readsQ (deltaView (sDelta s) L) (ES.setDelta s (LD.nestedDelta (sDelta s))) (tStore t) ->
  keepsQ L s (ES.dropNested (sDelta s) (tStore t)) /\ sRows (ES.dropNested (sDelta s) (tStore t)) = sRows s.
Proof.
  intros Hok [Hok' Hsame].
  destruct (dropNested_unwound L (sDelta s) (tStore t) (so_delta _ _ Hok) (storeOk_unwound _ _ Hok')) as [[Hd Hc] He].
  assert (sRows (ES.dropNested (sDelta s) (tStore t)) = sRows s) as Hr.
  { transitivity (sRows (tStore t)); [|apply Hsame]. unfold ES.dropNested.
    destruct (LD.rollback _) as [ks d|]; [|done].
    by destruct (flushAll_ret ks (ES.setDelta (tStore t) (sDelta s))) as (c & -> & _). }
  split; [|done]. split; [|by rewrite He]. split; [done|rewrite Hr; apply Hok| |done|rewrite He; apply Hok].
  intros k. rewrite Hr, He. apply Hok.
Qed.

(** The assertions of [applyTransactions]: a failed transaction has changed
    nothing. *)
Lemma failed_unchanged L s (t : TxState St) :
  readsQ L (ES.setDelta s (LD.nestedDelta (sDelta s))) (tStore t) ->
  LD.getChanges lastModifiedLedgerSeq headerSeq (sDelta (tStore t)) = [] /\
  mCurrentHeader (sDelta (tStore t)) = mCurrentHeader (sDelta s).
Proof.
  intros [_ (_ & Hn & Hm & Hd & _ & Hh & _)]. unfold LD.getChanges. rewrite Hn, Hm, Hd, Hh. done.
Qed.

Lemma applyOne_keeps info env fs : Forall opOk (operations env) -> keepsC (applyOne info env fs).
Proof.
  intros Hops L c Hok. unfold wp, LC.applyOne.
  destruct (nested_start L (cStore c) Hok) as [Hn Hp].
  pose proof (applyTx_spec max_size verifySig anySignerType READER anyBlockReason accountKey asAccount zeroKey zeroType
    (deltaView (sDelta (cStore c)) L) (LC.txState fs (ES.setDelta (cStore c) (LD.nestedDelta (sDelta (cStore c))))) env info Hops Hn) as Ha.
  fold (apply env info (LC.txState fs (ES.setDelta (cStore c) (LD.nestedDelta (sDelta (cStore c)))))) in Ha.
  destruct (apply env info _) as [[] t|x t]; cbn [LC.txState tStore] in Ha.
  - destruct Ha as [Hi Hh]. destruct (commit_step L (cStore c) (tStore t) Hok Hi) as (s' & -> & Hok' & _ & Hp').
    { rewrite Hh. done. }
    by split.
  - destruct (failed_unchanged _ (cStore c) t Ha) as [-> ->]. cbn [length Nat.eqb negb].
    rewrite bool_decide_eq_true_2 by done. cbn [negb]. apply (dropped_same L (cStore c) t Hok Ha).
  - destruct (dropped_same L (cStore c) t Hok Ha) as [Hk _].
    destruct x; [exact Hk|exact Hk|..]; by apply keeps_StepRel.
Qed.

Lemma keepsC_onStore {A} (m : M St A) : EntryStoreFacts.keeps m -> keepsC (LC.onStore m).
Proof.
  intros Hm L c Hok. specialize (Hm L (cStore c) Hok). unfold keepsAt, wp, LC.onStore in *. by destruct (m (cStore c)).
Qed.

Lemma commitEmpty_keeps : keepsC LC.commitEmpty.
Proof.
  apply keepsC_onStore. intros L s Hok. unfold keepsAt, wp. destruct (nested_start L s Hok) as [Hn Hp].
  destruct (commit_step L s _ Hok Hn Hp) as (s' & -> & Hok' & _ & Hp'). by split.
Qed.

Lemma keepsC_tables (b : Tables -> bool) f x :
  keepsC (c ← get; if b (cTables c) then throw x else modify (LC.setTables f)).
Proof.
  apply stepsOn_bind; [apply _|apply stepsOn_get; apply _|]. intros c.
  destruct (b _); [apply stepsOn_throw; apply _|apply stepsOn_modify; [apply _|done]].
Qed.

Lemma processFees_keeps seq txs index : keepsC (LC.processFeesSeqNums frame seq index txs).
Proof.
  revert index. induction txs as [|p txs IH]; intros index; cbn [LC.processFeesSeqNums]; [apply stepsOn_ret; apply _|].
  apply stepsOn_bind; [apply _| |intros _].
  { apply (keepsC_tables (fun t => existsb (LC.samePosition seq (index + 1)) (txfeehistory t))). }
  apply stepsOn_bind; [apply _| |intros _].
  { apply (keepsC_tables (fun t => LC.timingExists t (contentsHash (frame p)) || (maxTime (frame p) >? INT64_MAX))). }
  apply stepsOn_bind; [apply _|apply commitEmpty_keeps|intros _].
  apply stepsOn_bind; [apply _|apply IH|]. intros rest. apply stepsOn_ret; apply _.
Qed.

Lemma applyTransactions_keeps info seq txs index : framesOk (txs.*1) -> keepsC (applyTransactions info seq index txs).
Proof.
  intros Hf. revert index. induction txs as [|[p fs] txs IH]; intros index; cbn [LC.applyTransactions].
  { apply stepsOn_ret; apply _. }
  cbn [fmap list_fmap fst] in Hf. apply Forall_cons in Hf as [Hp Hf].
  apply stepsOn_bind; [apply _|by apply applyOne_keeps|intros code].
  apply stepsOn_bind; [apply _| |intros _].
  { apply (keepsC_tables (fun t => existsb (fun r => LC.samePosition seq (index + 1) r.1) (txhistory t))). }
  apply stepsOn_bind; [apply _|by apply IH|]. intros rest. apply stepsOn_ret; apply _.
Qed.

(** Assignments to the header that keep its number and close time. *)
Lemma onHeader_keeps f : (forall h, ledgerSeq (f h) = ledgerSeq h /\ scpValue (f h) = scpValue h) -> keepsC (LC.onHeader f).
Proof.
  intros Hf L c Hok. unfold wp, LC.onHeader, modify, keepsQ. cbn [LC.setStore cStore ES.setDelta sDelta].
  split; [|done]. destruct Hok as [[[] ?] ? ? ? [H1 H2]]. split; cbn [sDelta sRows sCache]; try done.
  destruct (Hf (mCurrentHeader (sDelta (cStore c)))) as [Hs Hv].
  split; cbn [ES.setDelta sDelta LD.setCurrentHeader mCurrentHeader mPreviousHeaderValue].
  - rewrite <- H1, !headerSeq_ok. exact Hs.
  - rewrite <- H2, !headerTime_ok. by rewrite Hv.
Qed.

Lemma applyUpgrades_keeps us : keepsC (LC.applyUpgrades decodeUpgrade us).
Proof.
  induction us as [|u us IH]; cbn [LC.applyUpgrades]; [apply stepsOn_ret; apply _|].
  apply stepsOn_bind; [apply _| |done]. destruct (decodeUpgrade u) as [[]|]; cbn [LC.applyUpgrade];
    (apply stepsOn_throw; apply _) || (apply onHeader_keeps; by intros).
Qed.

Lemma check_keeps b : EntryStoreFacts.keeps (ES.checkAgainstDatabase max_size b).
Proof.
  intros L s Hok. unfold keepsAt, wp. destruct (checkAgainstDatabase_ok max_size b L s Hok) as (c & -> & Hc). by split.
Qed.

Lemma storeFee_timing seq index (env : Env) c c' : LC.storeTransactionFee seq index env c = Ret tt c' ->
  txtiming (cTables c') = txtiming (cTables c).
Proof.
  unfold LC.storeTransactionFee, get, mbind, M_bind, modify. destruct (existsb _ _); [done|]. by intros [= <-].
Qed.

Lemma storeTiming_timing (env : Env) m c c' : LC.storeTransactionTiming env m c = Ret tt c' ->
  LC.timingExists (cTables c) (contentsHash env) = false /\
  txtiming (cTables c') = txtiming (cTables c) ++ [(contentsHash env, m)].
Proof.
  unfold LC.storeTransactionTiming, get, mbind, M_bind, modify. destruct (LC.timingExists _ _); [done|].
  destruct (m >? INT64_MAX); [done|]. by intros [= <-].
Qed.

Lemma commitEmpty_tables c c' : LC.commitEmpty c = Ret tt c' -> cTables c' = cTables c.
Proof. unfold LC.commitEmpty, LC.onStore. destruct (ES.commitInto _ _) as [[] ?|]; [|done]. by intros [= <-]. Qed.

(** What the fees phase leaves in the tables. *)
Lemma processFees_tables seq txs index c :
  match LC.processFeesSeqNums frame seq index txs c with
  | Ret fs c' => fs = map (fun p => (p, LC.processSeqNum (frame p))) txs /\
      txtiming (cTables c') = txtiming (cTables c) ++ map (fun p => (contentsHash (frame p), maxTime (frame p))) txs /\
      NoDup (map (fun p => contentsHash (frame p)) txs) /\
      Forall (fun p => LC.timingExists (cTables c) (contentsHash (frame p)) = false) txs
  | Throw _ _ => True
  end.
Proof.
  revert index c. induction txs as [|p txs IH]; intros index c; cbn [LC.processFeesSeqNums map].
  { unfold mret, M_ret. split_and!; [done|by rewrite app_nil_r|constructor|constructor]. }
  unfold mbind, M_bind. destruct (LC.storeTransactionFee _ _ _ c) as [[] c1|] eqn:E1; [|done].
  apply storeFee_timing in E1. destruct (LC.storeTransactionTiming _ _ c1) as [[] c2|] eqn:E2; [|done].
  apply storeTiming_timing in E2 as [Et E2]. destruct (LC.commitEmpty c2) as [[] c3|] eqn:E3; [|done].
  apply commitEmpty_tables in E3. rewrite E1 in E2. unfold LC.timingExists in *. rewrite E1 in Et.
  specialize (IH (index + 1) c3). rewrite E3, E2 in IH.
  destruct (LC.processFeesSeqNums _ _ _ _ _) as [fs c'|]; [|done]. cbn [mret M_ret].
  destruct IH as (-> & Ht & Hnd & Hf). split; [done|].
  assert (Forall (fun p0 => existsb (fun r => bool_decide (r.1 = contentsHash (frame p0))) (txtiming (cTables c)) = false /\
    contentsHash (frame p) <> contentsHash (frame p0)) txs) as Hf'.
  { eapply Forall_impl; [exact Hf|]. cbn beta. intros q Hq. rewrite existsb_app in Hq. apply orb_false_iff in Hq as [Hq1 Hq2]. split; [done|].
    cbn in Hq2. rewrite orb_false_r in Hq2. by apply bool_decide_eq_false in Hq2. }
  split_and!.
  - by rewrite Ht, <- app_assoc.
  - constructor; [|done]. rewrite list_elem_of_fmap. intros (q & Hq & Hin).
    eapply Forall_forall in Hf'; [|exact Hin]. by apply Hf'.
  - constructor; [done|]. eapply Forall_impl; [exact Hf'|]. by intros q [? _].
Qed.

(** A transaction whose time has passed does not succeed. *)
Lemma late_not_success env info (t : TxState St) : maxTime env < liCloseTime info ->
  match apply env info t with Ret b t' => b = false /\ mResultCode t' <> txSUCCESS | Throw _ _ => True end.
Proof.
  intros Hl. unfold LC.apply, TF.applyTx, TF.resetSignatureTracker, TF.commonValid, TF.fail, modify, mbind, M_bind, mret, M_ret.
  destruct (_ =? 0)%nat; [done|]. destruct (_ >? _); [done|]. rewrite (proj2 (Z.ltb_lt _ _) Hl). done.
Qed.

Lemma applyOne_tables info env fs c :
  match applyOne info env fs c with
  | Ret code c' => cTables c' = cTables c /\ (code = txSUCCESS -> liCloseTime info <= maxTime env)
  | Throw _ c' => cTables c' = cTables c
  end.
Proof.
  unfold LC.applyOne. pose proof (late_not_success env info
    (LC.txState fs (ES.setDelta (cStore c) (LD.nestedDelta (sDelta (cStore c)))))) as Hl.
  destruct (apply env info _) as [[] t|x t].
  - destruct (ES.commitInto _ _) as [? s'|[] s']; cbn; try done; (split; [done|]); intros Hc;
      destruct (Z.le_gt_cases (liCloseTime info) (maxTime env)) as [|Hlt]; try done;
      destruct (Hl ltac:(lia)) as [? ?]; done.
  - destruct (negb _); [done|]. destruct (negb _); [done|]. split; [done|]. intros Hc.
    destruct (Z.le_gt_cases (liCloseTime info) (maxTime env)) as [|Hlt]; [done|]. destruct (Hl ltac:(lia)) as [_ ?]. done.
  - destruct x; done.
Qed.

Lemma applyTransactions_results info seq txs index c :
  match applyTransactions info seq index txs c with
  | Ret rs c' => txtiming (cTables c') = txtiming (cTables c) /\ rs.*1 = map (fun p => contentsHash (frame p)) (txs.*1) /\
      Forall (fun r => r.2 = txSUCCESS -> exists p, p ∈ txs.*1 /\ contentsHash (frame p) = r.1 /\
                                           liCloseTime info <= maxTime (frame p)) rs
  | Throw _ _ => True
  end.
Proof.
  revert index c. induction txs as [|[p fs] txs IH]; intros index c; cbn [LC.applyTransactions].
  { cbn. split_and!; [done|done|constructor]. }
  unfold mbind, M_bind. pose proof (applyOne_tables info (frame p) fs c) as Ho.
  destruct (applyOne info (frame p) fs c) as [code c1|]; [|done]. destruct Ho as [Ht Hs].
  unfold LC.storeTransaction, get, mbind, M_bind, modify. destruct (existsb _ _); [done|]. cbn [throw].
  match goal with |- context [LC.applyTransactions _ _ _ _ _ _ _ _ _ _ info seq ?i txs ?c'] => specialize (IH i c') end.
  destruct (applyTransactions info seq _ txs _) as [rs c'|]; [|done]. destruct IH as (Hti & Hh & Hf).
  cbn [mret M_ret]. split_and!.
  - rewrite Hti. cbn. by rewrite Ht.
  - cbn [fmap list_fmap map fst]. by f_equal.
  - constructor.
    + cbn [fst snd]. intros Hc. exists p. split; [left|]. split; [done|by apply Hs].
    + eapply Forall_impl; [exact Hf|]. cbn beta. intros r Hr Hc. destruct (Hr Hc) as (q & Hq & ?).
      exists q. split; [by right|done].
Qed.

(** What follows the fees. *)
Lemma applyRest_keeps h fs : framesOk (fs.*1) -> keepsC (results ← applyTransactions (LC.ledgerInfo masterID h) (ledgerSeq h) 0 fs;
  LC.onHeader (LH.setTxSetResultHash (sha256 (marshalResults results)));;
  LC.applyUpgrades decodeUpgrade (upgrades (scpValue h));;
  LC.onStore (ES.checkAgainstDatabase max_size PARANOID_MODE);; mret results).
Proof.
  intros Hf. apply stepsOn_bind; [apply _|by apply applyTransactions_keeps|intros rs].
  apply stepsOn_bind; [apply _|by apply onHeader_keeps|intros _].
  apply stepsOn_bind; [apply _|apply applyUpgrades_keeps|intros _].
  apply stepsOn_bind; [apply _|apply keepsC_onStore, check_keeps|intros _]. apply stepsOn_ret; apply _.
Qed.

Lemma applyLedger_keeps h txs : framesOk txs -> keepsC (applyLedger h txs).
Proof.
  intros Hf L c Hok. unfold LC.applyLedger. apply wp_bind.
  apply (wp_mono _ (fun fs c1 => keepsQ L (cStore c) (cStore c1) /\ framesOk (fs.*1)) _
    (fun _ c1 => keepsE L (cStore c) (cStore c1))); [| |done].
  - pose proof (processFees_keeps (ledgerSeq h) txs 0 L c Hok) as Hk.
    pose proof (processFees_tables (ledgerSeq h) txs 0 c) as Ht. unfold wp in *.
    destruct (LC.processFeesSeqNums _ _ _ _ c) as [fs c1|x c1]; [|exact Hk]. destruct Ht as (-> & _).
    split; [done|]. rewrite <- list_fmap_compose. by rewrite list_fmap_id.
  - intros fs c1 [Hk Hf1]. cbn beta.
    eapply wp_mono; [exact (applyRest_keeps h fs Hf1 L c1 (sr_ok _ _ _ Hk))|..]; cbn beta; intros.
    + by eapply sr_trans.
    + by eapply sr_transE.
Qed.

(** What a close has noted of its transactions. *)
Record noted (info : LedgerInfo) (t t' : Tables) (txs : list Ptr) (rs : list (Hash * TransactionResultCode)) : Prop := {
  no_timing : txtiming t' = txtiming t ++ map (fun p => (contentsHash (frame p), maxTime (frame p))) txs;
  no_distinct : NoDup (map (fun p => contentsHash (frame p)) txs);
  no_fresh : Forall (fun p => LC.timingExists t (contentsHash (frame p)) = false) txs;
  no_results : rs.*1 = map (fun p => contentsHash (frame p)) txs;
  no_success : Forall (fun r => r.2 = txSUCCESS -> exists p, p ∈ txs /\ contentsHash (frame p) = r.1 /\
                                               liCloseTime info <= maxTime (frame p)) rs;
}.

Lemma onStore_tables {A} (m : M St A) c : match LC.onStore m c with Ret _ c' | Throw _ c' => cTables c' = cTables c end.
Proof. unfold LC.onStore. by destruct (m (cStore c)). Qed.

Lemma applyUpgrades_tables us c :
  match LC.applyUpgrades decodeUpgrade us c with Ret _ c' | Throw _ c' => cTables c' = cTables c end.
Proof.
  revert c. induction us as [|u us IH]; intros c; cbn [LC.applyUpgrades]; [done|]. unfold mbind, M_bind.
  destruct (decodeUpgrade u) as [[]|]; cbn [LC.applyUpgrade]; unfold LC.onHeader, modify; try done;
    (match goal with |- context [LC.applyUpgrades _ us ?c'] => specialize (IH c') end);
    by destruct (LC.applyUpgrades decodeUpgrade us _).
Qed.

Lemma applyLedger_noted h txs c rs c' : applyLedger h txs c = Ret rs c' ->
  noted (LC.ledgerInfo masterID h) (cTables c) (cTables c') txs rs.
Proof.
  unfold LC.applyLedger, mbind, M_bind. pose proof (processFees_tables (ledgerSeq h) txs 0 c) as Hf.
  destruct (LC.processFeesSeqNums _ _ _ _ c) as [fs c1|]; [|done]. destruct Hf as (-> & Ht & Hnd & Hfr).
  pose proof (applyTransactions_results (LC.ledgerInfo masterID h) (ledgerSeq h)
    (map (fun p => (p, LC.processSeqNum (frame p))) txs) 0 c1) as Ha.
  destruct (applyTransactions _ _ _ _ c1) as [rs' c2|]; [|done]. destruct Ha as (Ht2 & Hr & Hs).
  unfold LC.onHeader, modify. match goal with |- context [LC.applyUpgrades _ ?us ?c3] => pose proof (applyUpgrades_tables us c3) as Hu end.
  destruct (LC.applyUpgrades _ _ _) as [[] c4|]; [|done].
  pose proof (onStore_tables (ES.checkAgainstDatabase max_size PARANOID_MODE) c4) as Hd.
  destruct (LC.onStore _ c4) as [[] c5|]; [|done]. intros [= <- <-]. rewrite Hd, Hu. cbn [LC.setStore cTables].
  assert ((map (fun p => (p, LC.processSeqNum (frame p))) txs).*1 = txs) as Hp.
  { rewrite <- list_fmap_compose. by rewrite list_fmap_id. }
  rewrite Hp in Hr, Hs. split; [by rewrite Ht2|done..].
Qed.

(** ** The ledger manager between closes *)

(** What does not depend on the bucket list. *)
Record managerDb (t : Z) lm : Prop := {
  mo_rows : NoDup (map getLedgerKey (lmRows lm));
  mo_cache : forall k v, LruCache.find (lmCache lm) k = Some v -> usesCache k = true /\ v = rowsFind (lmRows lm) k;
  mo_seq : ledgerSeq (lhHeader (mCurrentLedger lm)) = t + 1;
  mo_hash : lhHash (mCurrentLedger lm) = None;
  mo_current : lhHeader (mCurrentLedger lm) = LH.nextHeader (mLastClosedLedger lm).1 (mLastClosedLedger lm).2;
  mo_lcl : (mLastClosedLedger lm).1 = sha256 (marshalHeader (mLastClosedLedger lm).2);
  mo_nonzero : LH.isZero (mLastClosedLedger lm).1 = false;
  mo_persisted : kLastClosedLedger (lmTables lm) = (mLastClosedLedger lm).1 /\
    forall r, r ∈ ledgerheaders (lmTables lm) -> r.1 = (mLastClosedLedger lm).1 -> r.2 = (mLastClosedLedger lm).2;
}.

Record managerOk (t : Z) lm : Prop := {
  mo_db : managerDb t lm;
  mo_buckets : listInv getLedgerKey bucketServices t (mBucketList lm);
  mo_view : forall k, view getLedgerKey (mBucketList lm) k = rowsFind (lmRows lm) k;
  mo_saved : exists ready, saveLevels bucketServices ready 0 (mBucketList lm) = Some (kHistoryArchiveState (lmTables lm));
}.

Local Abbreviation closeWith := (LC.closeWith max_size verifySig anySignerType READER anyBlockReason accountKey asAccount zeroKey zeroType frame sha256 marshalHeader marshalResults decodeUpgrade bucketServices bucketSort masterID PARANOID_MODE).
Local Abbreviation closeLedger := (LC.closeLedger max_size verifySig anySignerType READER anyBlockReason accountKey asAccount zeroKey zeroType frame marshal sha256 sort marshalHeader marshalResults decodeUpgrade bucketServices bucketSort masterID PARANOID_MODE).

Lemma start_ok t lm h : managerDb t lm ->
  storeOk (rowsFind (lmRows lm)) {| sRows := lmRows lm; sCache := lmCache lm; sDelta := LD.newDelta h true |}.
Proof.
  intros Hm. split; cbn [sRows sDelta]; [apply deltaOk_new|apply Hm|done| |done].
  intros k v Hf. by apply (mo_cache _ _ Hm k v).
Qed.

Lemma skipValues_kept h : ledgerSeq (LH.calculateSkipValues h) = ledgerSeq h /\ scpValue (LH.calculateSkipValues h) = scpValue h.
Proof. unfold LH.calculateSkipValues. destruct (negb _); done. Qed.

Lemma snapshot_kept bl h : ledgerSeq (LC.snapshotLedger sha256 bucketServices bl h) = ledgerSeq h /\
  scpValue (LC.snapshotLedger sha256 bucketServices bl h) = scpValue h.
Proof. exact (skipValues_kept (LH.setBucketListHash (LC.bucketListGetHash sha256 bucketServices bl) h)). Qed.

(** A close that returns. *)
Record closed (t : Z) (h : LedgerHeader) (txs : list Ptr) lm lm' (rs : list (Hash * TransactionResultCode)) : Prop := {
  cl_db : managerDb (t + 1) lm';
  cl_ok : managerOk t lm -> managerOk (t + 1) lm';
  cl_noted : noted (LC.ledgerInfo masterID h) (lmTables lm) (lmTables lm') txs rs;
  cl_seq : ledgerSeq (mLastClosedLedger lm').2 = t + 1;
  cl_value : closeTime (scpValue (lhHeader (mCurrentLedger lm'))) = closeTime (scpValue h);
  cl_stored : kLastClosedLedger (lmTables lm') = (mLastClosedLedger lm').1 /\ mLastClosedLedger lm' ∈ ledgerheaders (lmTables lm');
}.

Lemma storeHeader_tables hash h c c' : LC.storeHeader hash h c = Ret tt c' -> cStore c' = cStore c /\
  txtiming (cTables c') = txtiming (cTables c) /\
  ledgerheaders (cTables c') = ledgerheaders (cTables c) ++ [(hash, h)] /\ kLastClosedLedger (cTables c') = hash /\
  forall r, r ∈ ledgerheaders (cTables c) -> r.1 <> hash.
Proof.
  unfold LC.storeHeader, get, mbind, M_bind, modify. destruct (existsb _ _) eqn:E; [done|]. cbn [orb]. destruct (_ >? _); [done|].
  intros [= <-]. split_and!; try done. intros r Hr Heq. assert (existsb (fun r => bool_decide (r.1 = hash) || (ledgerSeq r.2 =? ledgerSeq h)) (ledgerheaders (cTables c)) = true) as E'; [|congruence].
  apply existsb_exists. exists r. split; [by apply list_elem_of_In|]. by rewrite bool_decide_eq_true_2.
Qed.

Lemma closeWith_spec t lm h txs : 0 <= t < UINT32_MAX - 524288 -> managerDb t lm -> framesOk txs ->
  ledgerSeq h = t + 1 ->
  match closeWith lm h txs with
  | Ret rs lm' => closed t h txs lm lm' rs
  | Throw _ lm' => lmRows lm' = lmRows lm /\ lmTables lm' = lmTables lm
  end.
Proof.
  intros Ht Hm Hf Hseq. unfold LC.closeWith. set (c0 := {| cStore := _; cTables := _ |}).
  pose proof (applyLedger_keeps h txs Hf (rowsFind (lmRows lm)) c0 (start_ok t lm h Hm)) as Hk. unfold wp in Hk.
  pose proof (applyLedger_noted h txs c0) as Hn.
  destruct (applyLedger h txs c0) as [rs c|x c]; [|done]. specialize (Hn rs c eq_refl). destruct Hk as [Hok Hp].
  cbn [c0 cStore sDelta LD.newDelta mPreviousHeaderValue] in Hp.
  unfold LD.commitRoot. rewrite (ds_open _ _ _ (do_sets _ _ _ (so_delta _ _ Hok))), bool_decide_eq_true_2 by done. cbn [negb].
  set (h' := mCurrentHeader (sDelta (cStore c))).
  assert (ledgerSeq h' = t + 1 /\ closeTime (scpValue h') = closeTime (scpValue h)) as [Hs' Hv'].
  { destruct (so_seq _ _ Hok) as [H1 H2]. rewrite Hp in H1, H2. rewrite !headerSeq_ok in H1. rewrite !headerTime_ok in H2.
    split; [unfold h'; congruence|done]. }
  unfold LC.closeLedgerHelper. rewrite Hs'. destruct (addBatch _ _ _ _ _ _ _) as [bl|] eqn:Hb; [|done].
  unfold LH.getHash. cbn [lhHash lhHeader]. rewrite (mo_hash _ _ Hm).
  set (h2 := LC.snapshotLedger sha256 bucketServices bl h'). destruct (snapshot_kept bl h') as [Hs2 Hv2]. fold h2 in Hs2, Hv2.
  destruct (LH.isZero _) eqn:Ez; [done|]. cbn [lhHeader].
  destruct (LC.storeHeader _ h2 _) as [[] c2|] eqn:Es; [|done].
  apply storeHeader_tables in Es as (Hst & Hti & Hhd & Hlast & Hnew).
  destruct (saveLevels _ _ _ _) as [has|] eqn:Eh; [|done].
  unfold LH.fromLastClosed. rewrite bool_decide_eq_true_2 by done. cbn [LC.setStore cStore cTables] in *.
  set (lm' := LC.committed _ _ _ _).
  assert (managerDb (t + 1) lm') as Hdb.
  { split; unfold lm'; cbn [LC.committed lmRows lmTables lmCache mCurrentLedger mLastClosedLedger mBucketList fst snd lhHeader lhHash LC.storeArchiveState LC.setTables cStore cTables ledgerheaders kLastClosedLedger];
      rewrite ?Hst; cbn [ES.setDelta sRows sCache]; try done.
    - apply Hok.
    - intros k v Hc. rewrite (so_rows _ _ Hok). by apply (so_cache _ _ Hok).
    - cbn [LH.nextHeader LH.with_ ledgerSeq]. rewrite Hs2, Hs'. unfold u32. rewrite Z.mod_small; unfold UINT32_MAX in Ht; lia.
    - split; [done|]. intros r. rewrite Hhd, elem_of_app, list_elem_of_singleton. intros [Hr| ->] Heq; [by destruct (Hnew r Hr)|done]. }
  destruct Hn as [N1 N2 N3 N4 N5]. split; [done| | | | |]; unfold lm'; cbn [LC.committed lmRows lmTables lmCache mCurrentLedger mLastClosedLedger mBucketList fst snd lhHeader].
  - intros Hmo. destruct (delta_batch getLedgerKey bucketServices bucketSort (rowsFind (lmRows lm)) t (mBucketList lm) (sDelta (cStore c)))
      as (bl' & Hb' & Hinv & Hview); [done|apply Hmo|apply Hmo|apply Hok|]. rewrite Hb in Hb'. injection Hb' as <-.
    split; [exact Hdb|exact Hinv| |by eexists].
    intros k. cbn [lm' LC.committed lmRows mBucketList LC.storeArchiveState LC.setTables cStore]. rewrite Hst. cbn [ES.setDelta sRows]. by rewrite Hview, (so_rows _ _ Hok).
  - split; [by rewrite <- Hti in *|done..].
  - by rewrite Hs2.
  - cbn [LH.nextHeader LH.with_ scpValue]. by rewrite Hv2.
  - split; [done|]. cbn [LC.storeArchiveState LC.setTables cTables ledgerheaders]. rewrite Hhd. apply elem_of_app. right. by left.
Qed.

Lemma closeLedger_spec t lm lcd : 0 <= t < UINT32_MAX - 524288 -> managerDb t lm ->
  framesOk (mTransactions (mTxSet lcd)) ->
  match closeLedger lcd lm with
  | Ret rs lm' => exists txs, txs ≡ₚ mTransactions (mTxSet lcd) /\
      closed t (LH.setScpValue (mValue lcd) (lhHeader (mCurrentLedger lm))) txs lm lm' rs
  | Throw _ lm' => lmRows lm' = lmRows lm /\ lmTables lm' = lmTables lm
  end.
Proof.
  intros Ht Hm Hf. unfold LC.closeLedger. destruct (negb _); [done|].
  destruct (getContentsHash_spec frame marshal sha256 sort (mTxSet lcd)) as (ts & -> & _ & Hp & _).
  destruct (negb _); [done|]. destruct (sortForApply_spec frame marshal sha256 sort ts) as (x & ts' & Hs & _).
  rewrite Hs. pose proof (sortForApply_perm frame marshal sha256 sort ts _ _ Hs) as Hp'. set (txs := concat _) in *.
  pose proof (closeWith_spec t lm (LH.setScpValue (mValue lcd) (lhHeader (mCurrentLedger lm))) txs Ht Hm) as Hc.
  assert (framesOk txs) as Hft by (unfold framesOk in *; by rewrite Hp', Hp).
  specialize (Hc Hft (mo_seq _ _ Hm)). destruct (closeWith _ _ _) as [rs lm'|]; [|done].
  exists txs. split; [by rewrite Hp', Hp|done].
Qed.

(** ** Histories *)

Local Abbreviation runHistory := (LC.runHistory max_size verifySig anySignerType READER anyBlockReason accountKey asAccount zeroKey zeroType frame marshal sha256 sort marshalHeader marshalResults decodeUpgrade bucketServices bucketSort masterID PARANOID_MODE).

Local Abbreviation load := (LC.loadLastKnownLedger sha256 marshalHeader bucketServices).

Definition currentTime lm : Z := closeTime (scpValue (lhHeader (mCurrentLedger lm))).

(** The transactions of every set are sound, and the close time of every
    value is not before that of the last ledger. *)
Fixpoint ordered (evs : list LC.Event) lm : Prop :=
  match evs with
  | [] => True
  | LC.CloseLedger lcd garbage :: r =>
      framesOk (mTransactions (mTxSet lcd)) /\ currentTime lm <= closeTime (mValue lcd) /\
      match closeLedger lcd lm with
      | Ret _ lm' => ordered r lm'
      | Throw _ lm' => match load garbage lm' with Some lm'' => ordered r lm'' | None => True end
      end
  | LC.CleanUp seq :: r => ordered r (LC.cleanUp seq lm)
  end.

(** What a restart needs: maintenance has not deleted the header of the last
    closed ledger, the files of the buckets are found, and the memory that
    the merges are loaded into holds the flags they were started with. *)
Definition restartable (garbage : nat -> bool) lm : Prop :=
  mLastClosedLedger lm ∈ ledgerheaders (lmTables lm) /\ Forall (stored bucketServices) (concat (map filesOf (mBucketList lm))) /\
  forall i, (i < 11)%nat -> garbage i = keepsDead i.

Fixpoint restartsOk (evs : list LC.Event) lm : Prop :=
  match evs with
  | [] => True
  | LC.CloseLedger lcd garbage :: r =>
      match closeLedger lcd lm with
      | Ret _ lm' => restartsOk r lm'
      | Throw _ lm' => restartable garbage lm /\ match load garbage lm' with Some lm'' => restartsOk r lm'' | None => True end
      end
  | LC.CleanUp seq :: r => restartsOk r (LC.cleanUp seq lm)
  end.

(** ** Restarts *)

Lemma find_persisted t lm r : managerDb t lm ->
  List.find (fun r => bool_decide (r.1 = kLastClosedLedger (lmTables lm))) (ledgerheaders (lmTables lm)) = Some r -> r = mLastClosedLedger lm.
Proof.
  intros Hm [Hin Heq]%List.find_some. apply bool_decide_eq_true in Heq. destruct (mo_persisted _ _ Hm) as [Hk Hp]. rewrite Hk in Heq.
  apply list_elem_of_In, Hp in Hin; [|done]. destruct r, (mLastClosedLedger lm). cbn in *. congruence.
Qed.

Lemma load_db t lm lm1 lm' garbage : managerDb t lm -> lmRows lm1 = lmRows lm -> lmTables lm1 = lmTables lm -> load garbage lm1 = Some lm' ->
  managerDb t lm' /\ lmTables lm' = lmTables lm /\ currentTime lm' = currentTime lm.
Proof.
  intros Hm Hr Ht. unfold LC.loadLastKnownLedger. rewrite Hr, Ht. destruct (List.find _ _) as [[hash h]|] eqn:Ef; [|done].
  apply (find_persisted t lm _ Hm) in Ef. unfold LH.getHash. cbn [lhHash lhHeader]. destruct (LH.isZero _) eqn:Ez; [done|]. cbn [mbind option_bind].
  case_bool_decide as Eh; cbn [negb]; [|done]. destruct (assumeState _ _ _ _) as [bl|]; [|done]. cbn [mbind option_bind lhHeader].
  unfold LH.fromLastClosed. rewrite bool_decide_eq_true_2 by done. cbn [mbind option_bind]. intros [= <-].
  pose proof (mo_lcl _ _ Hm) as Hl. pose proof (mo_current _ _ Hm) as Hc. rewrite <- Ef in Hl, Hc. cbn [fst snd] in Hl, Hc. rewrite <- Hl in *.
  split; [|split; [done|unfold currentTime; cbn; by rewrite Hc]].
  split; cbn [lmRows lmCache mCurrentLedger mLastClosedLedger lmTables lhHeader lhHash fst snd]; try done.
  - apply Hm.
  - rewrite <- Hc. apply Hm.
  - pose proof (mo_persisted _ _ Hm) as Hp. by rewrite <- Ef in Hp.
Qed.

Lemma load_ok t lm lm1 garbage : managerOk t lm -> lmRows lm1 = lmRows lm -> lmTables lm1 = lmTables lm -> restartable garbage lm ->
  exists lm', load garbage lm1 = Some lm' /\ managerOk t lm'.
Proof.
  intros Hm Hr Ht (Hin & Hf & Hg). pose proof (mo_db _ _ Hm) as Hdb. destruct (mo_saved _ _ Hm) as [ready Hs].
  destruct (restart_inv getLedgerKey bucketServices t (mBucketList lm) ready garbage) as (has & bl & Es & Ea & Hi & Hv & Es'); [apply Hm|done|done|].
  rewrite Hs in Es. injection Es as <-.
  assert (exists lm', load garbage lm1 = Some lm' /\ mBucketList lm' = bl /\ lmRows lm' = lmRows lm) as (lm' & El & Hbl & Hrow).
  { unfold LC.loadLastKnownLedger. rewrite Ht, Hr. destruct (List.find _ _) as [r|] eqn:Ef.
    - apply (find_persisted t lm _ Hdb) in Ef as ->. pose proof (mo_lcl _ _ Hdb) as Hl. pose proof (mo_nonzero _ _ Hdb) as Hz.
      destruct (mo_persisted _ _ Hdb) as [Hk _]. destruct (mLastClosedLedger lm) as [hash h]. cbn [fst snd] in *.
      unfold LH.getHash. cbn [lhHash lhHeader]. rewrite <- Hl, Hz. cbn [mbind option_bind]. rewrite bool_decide_eq_true_2 by done. cbn [negb].
      rewrite Ea. cbn [mbind option_bind lhHeader]. unfold LH.fromLastClosed. rewrite bool_decide_eq_true_2 by done. cbn [mbind option_bind].
      by eexists.
    - exfalso. pose proof (List.find_none _ _ Ef _ (proj1 (list_elem_of_In _ _) Hin)) as Hno. cbn in Hno.
      rewrite bool_decide_eq_false in Hno. apply Hno. by destruct (mo_persisted _ _ Hdb). }
  exists lm'. split; [done|]. destruct (load_db t lm lm1 lm' garbage Hdb Hr Ht El) as (Hdb' & Ht' & _). split; [done| | |].
  - by rewrite Hbl.
  - intros k. by rewrite Hbl, Hrow, Hv, (mo_view _ _ Hm).
  - exists (fun _ => false). by rewrite Hbl, Ht'.
Qed.

Lemma cleanUp_db t lm seq : managerDb t lm -> managerDb t (LC.cleanUp seq lm).
Proof.
  intros [? ? ? ? ? ? ? [Hk Hp]]. split; try done. split; [done|]. intros r Hr. apply Hp.
  cbn [LC.cleanUp lmTables LC.deleteOldEntries ledgerheaders] in Hr. by apply list_elem_of_In, filter_In, proj1, list_elem_of_In in Hr.
Qed.

Lemma cleanUp_ok t lm seq : managerOk t lm -> managerOk t (LC.cleanUp seq lm).
Proof. intros []. split; try done. by apply cleanUp_db. Qed.

Lemma runHistory_ok evs lm t : 0 <= t -> t + Z.of_nat (length evs) <= UINT32_MAX - 524288 -> managerOk t lm ->
  ordered evs lm -> restartsOk evs lm -> exists t' lm', t <= t' /\ (runHistory evs lm).2 = Some lm' /\ managerOk t' lm'.
Proof.
  revert lm t. induction evs as [|[lcd garbage|seq] evs IH]; intros lm t Ht Hlen Hm Ho Hre; cbn [LC.runHistory ordered restartsOk length] in *.
  - exists t, lm. split; [lia|done].
  - destruct Ho as (Hf & _ & Ho). pose proof (closeLedger_spec t lm lcd ltac:(lia) (mo_db _ _ Hm) Hf) as Hc.
    destruct (closeLedger lcd lm) as [rs lm'|x lm'].
    + destruct Hc as (txs & _ & Hc). destruct (IH lm' (t + 1)) as (t' & lm2 & Ht' & Hr & Hm'); [lia|lia|by apply Hc|done|done|].
      destruct (runHistory evs lm') as [rest lm'']. exists t', lm2. split; [lia|done].
    + destruct Hc as [Hr Htb]. destruct Hre as [Hrs Hre]. destruct (load_ok t lm lm' garbage Hm Hr Htb Hrs) as (lm2 & El & Hm2).
      rewrite El in *. apply IH; [done|lia|done|done|done].
  - apply IH; [done|lia|by apply cleanUp_ok|done|done].
Qed.

Definition isSuccess (c : TransactionResultCode) : bool := match c with txSUCCESS => true | _ => false end.

(** The hashes of the transactions that succeeded. *)
Definition succeeded (rs : list (Hash * TransactionResultCode)) : list Hash :=
  map fst (List.filter (fun r => isSuccess r.2) rs).

Lemma succeeded_app rs1 rs2 : succeeded (rs1 ++ rs2) = succeeded rs1 ++ succeeded rs2.
Proof. unfold succeeded. by rewrite List.filter_app, map_app. Qed.

Lemma elem_of_succeeded h rs : h ∈ succeeded rs -> (h, txSUCCESS) ∈ rs.
Proof.
  unfold succeeded. rewrite list_elem_of_fmap. intros ([h' c] & -> & Hin%list_elem_of_In%List.filter_In).
  destruct Hin as [Hin Hc]. apply list_elem_of_In in Hin. cbn in *. by destruct c.
Qed.

Lemma succeeded_NoDup rs : NoDup (rs.*1) -> NoDup (succeeded rs).
Proof.
  induction rs as [|[h c] rs IH]; cbn; [constructor|]. intros [Hh Hnd]%NoDup_cons. unfold succeeded in *.
  cbn [List.filter snd]. destruct (isSuccess c); [|by apply IH]. cbn. constructor; [|by apply IH].
  fold (succeeded rs). intros Hin%elem_of_succeeded. apply Hh. apply list_elem_of_fmap. by exists (h, txSUCCESS).
Qed.

Context (hash_time : forall p q, contentsHash (frame p) = contentsHash (frame q) -> maxTime (frame p) = maxTime (frame q)).

(** The transactions handled so far are in the table, or too old. *)
Definition pastOk (past : list Ptr) lm : Prop := forall p, p ∈ past ->
  LC.timingExists (lmTables lm) (contentsHash (frame p)) = true /\
    (contentsHash (frame p), maxTime (frame p)) ∈ txtiming (lmTables lm) \/ maxTime (frame p) < currentTime lm.

Lemma timingExists_elem t h m : (h, m) ∈ txtiming t -> LC.timingExists t h = true.
Proof.
  intros Hin. unfold LC.timingExists. apply existsb_exists. exists (h, m).
  split; [by apply list_elem_of_In|by apply bool_decide_eq_true_2].
Qed.

Lemma pastOk_cleanUp past lm seq : pastOk past lm -> pastOk past (LC.cleanUp seq lm).
Proof.
  intros Hp p Hin. unfold currentTime. cbn [LC.cleanUp lmTables mCurrentLedger]. fold (currentTime lm).
  destruct (Hp p Hin) as [[_ Ht]|Ho]; [|by right].
  destruct (Z.lt_ge_cases (maxTime (frame p)) (currentTime lm)) as [|Hge]; [by right|left].
  assert ((contentsHash (frame p), maxTime (frame p)) ∈
    txtiming (LC.deleteOldEntries seq (closeTime (scpValue (lhHeader (mCurrentLedger lm)))) (lmTables lm))) as He.
  { cbn [LC.deleteOldEntries txtiming]. apply list_elem_of_In, List.filter_In. split; [by apply list_elem_of_In|].
    cbn [snd]. unfold currentTime in Hge. rewrite (proj2 (Z.ltb_ge _ _) Hge). done. }
  split; [by eapply timingExists_elem|done].
Qed.

Lemma pastOk_close past t h txs lm lm' rs : pastOk past lm -> currentTime lm <= closeTime (scpValue h) ->
  closed t h txs lm lm' rs -> pastOk (past ++ txs) lm'.
Proof.
  intros Hp Hle Hc p Hin. unfold currentTime. rewrite (cl_value _ _ _ _ _ _ Hc).
  assert ((contentsHash (frame p), maxTime (frame p)) ∈ txtiming (lmTables lm') ->
    LC.timingExists (lmTables lm') (contentsHash (frame p)) = true /\
    (contentsHash (frame p), maxTime (frame p)) ∈ txtiming (lmTables lm') \/ maxTime (frame p) < closeTime (scpValue h)) as Hel.
  { intros He. left. split; [by eapply timingExists_elem|done]. }
  rewrite (no_timing _ _ _ _ _ (cl_noted _ _ _ _ _ _ Hc)) in *.
  apply elem_of_app in Hin as [Hin|Hin].
  - destruct (Hp p Hin) as [[_ Ht]|Ho]; [|right; unfold currentTime in *; lia].
    apply Hel, elem_of_app. by left.
  - apply Hel, elem_of_app. right. apply list_elem_of_fmap. by exists p.
Qed.

(** A transaction handled before does not succeed again. *)
Lemma past_not_success past t h txs lm lm' rs p : pastOk past lm -> currentTime lm <= closeTime (scpValue h) ->
  closed t h txs lm lm' rs -> p ∈ past -> contentsHash (frame p) ∉ succeeded rs.
Proof.
  intros Hp Hle Hc Hin Hs%elem_of_succeeded. destruct (cl_noted _ _ _ _ _ _ Hc) as [_ _ N3 N4 N5].
  eapply Forall_forall in N5; [|exact Hs]. destruct (N5 eq_refl) as (q & Hq & Hh & Hl). cbn [fst] in Hh.
  rewrite (hash_time q p Hh) in Hl. destruct (Hp p Hin) as [[Ht _]|Ho].
  - eapply Forall_forall in N3; [|exact Hq]. rewrite Hh in N3. congruence.
  - cbn [LC.ledgerInfo liCloseTime] in Hl. lia.
Qed.

Lemma runHistory_success evs lm t past : 0 <= t -> t + Z.of_nat (length evs) <= UINT32_MAX - 524288 -> managerDb t lm ->
  ordered evs lm -> pastOk past lm ->
  NoDup (succeeded (runHistory evs lm).1) /\
  forall p, p ∈ past -> contentsHash (frame p) ∉ succeeded (runHistory evs lm).1.
Proof.
  revert lm t past. induction evs as [|[lcd garbage|seq] evs IH]; intros lm t past Ht Hlen Hm Ho Hp; cbn [LC.runHistory ordered length] in *.
  - split; [constructor|]. intros p _. cbn. set_solver.
  - destruct Ho as (Hf & Hle & Ho). pose proof (closeLedger_spec t lm lcd ltac:(lia) Hm Hf) as Hc.
    destruct (closeLedger lcd lm) as [rs lm'|x lm'].
    2:{ destruct Hc as [Hr Htb]. destruct (load garbage lm') as [lm2|] eqn:El; [|split; [constructor|]; intros p _; cbn; set_solver].
        destruct (load_db t lm lm' lm2 garbage Hm Hr Htb El) as (Hm2 & Ht2 & Hc2). apply (IH _ t past); [done|lia|done|done|].
        intros p Hin. rewrite Ht2, Hc2. by apply Hp. }
    destruct Hc as (txs & _ & Hc).
    destruct (IH lm' (t + 1) (past ++ txs)) as [Hnd Hnot]; [lia|lia|apply Hc|done|exact (pastOk_close past t (LH.setScpValue (mValue lcd) (lhHeader (mCurrentLedger lm))) txs lm lm' rs Hp Hle Hc)|].
    destruct (runHistory evs lm') as [rest lm'']. cbn [fst] in *. rewrite succeeded_app. split.
    + apply NoDup_app. destruct (cl_noted _ _ _ _ _ _ Hc) as [_ N2 _ N4 N5].
      split; [apply succeeded_NoDup; by rewrite N4|]. split; [|done].
      intros h Hh%elem_of_succeeded. eapply Forall_forall in N5; [|exact Hh]. destruct (N5 eq_refl) as (q & Hq & Hhq & _).
      cbn [fst] in Hhq. rewrite <- Hhq. apply Hnot, elem_of_app. by right.
    + intros p Hin. rewrite not_elem_of_app. split; [exact (past_not_success past t (LH.setScpValue (mValue lcd) (lhHeader (mCurrentLedger lm))) txs lm lm' rs p Hp Hle Hc Hin)|].
      apply Hnot, elem_of_app. by left.
  - apply (IH _ t past); [done|lia|by apply cleanUp_db|done|by apply pastOk_cleanUp].
Qed.

End Close.
