(* ===== verification/LedgerExample.v ===== *)
(** * A small ledger for the witnesses of the ledger theorems

    Entries are accounts and numbered data; a signature is the key that made
    it; hashes are encodings. *)

From stdpp Require Import sorting.
From S2P Require Import Prelude OrdContainers LedgerDelta LedgerDeltaFacts EntryStore EntryStoreFacts Signatures Transaction TransactionFacts LedgerHeader TxSet TxSetFacts Bucket BucketFacts FutureBucket BucketList BucketListFacts LedgerClose LedgerCloseFacts.
Import BL.

(** ** A sort *)

Section InsertionSort.
Context {A : Type} (lt : A -> A -> bool).

Fixpoint ins (x : A) (l : list A) : list A :=
  match l with [] => [x] | y :: r => if lt y x then y :: ins x r else x :: l end.

Definition isort (l : list A) : list A := fold_right ins [] l.

Lemma ins_perm x l : ins x l ≡ₚ x :: l.
Proof. induction l as [|y l IH]; cbn; [done|]. destruct (lt y x); [|done]. rewrite IH. apply Permutation_swap. Qed.

Lemma isort_perm l : isort l ≡ₚ l.
Proof. induction l as [|x l IH]; cbn; [done|]. by rewrite ins_perm, IH. Qed.

Lemma ins_sorted x l : strictWeak lt -> StronglySorted (fun a b => lt b a = false) l ->
  StronglySorted (fun a b => lt b a = false) (ins x l).
Proof.
  intros Hw. induction 1 as [|y l Hs IH Hy]; cbn; [repeat constructor|]. destruct (lt y x) eqn:E.
  - constructor; [done|]. rewrite ins_perm. constructor; [|done]. destruct (lt x y) eqn:E'; [|done].
    pose proof (sw_trans lt Hw _ _ _ E E') as Hyy. by rewrite (sw_irrefl lt Hw) in Hyy.
  - constructor; [by constructor|]. constructor; [done|]. eapply Forall_impl; [exact Hy|]. cbn beta.
    intros z Hz. by apply (sw_equiv lt Hw x y z).
Qed.

Lemma isort_sorted l : strictWeak lt -> StronglySorted (fun a b => lt b a = false) (isort l).
Proof. intros Hw. induction l; cbn; [constructor|by apply ins_sorted]. Qed.

End InsertionSort.

Global Instance isort_ok {A} : SortOk (@isort A).
Proof. split; intros; [apply isort_perm|by apply isort_sorted]. Qed.

(** ** Entries *)

Global Instance Signer_eq_dec : EqDecision Signer.
Proof. solve_decision. Defined.
Global Instance AccountEntry_eq_dec : EqDecision AccountEntry.
Proof. solve_decision. Defined.

Inductive XEntry := XAccount (a : AccountEntry) (modified : Z) | XData (k v modified : Z).

Global Instance XEntry_eq_dec : EqDecision XEntry.
Proof. solve_decision. Defined.

Definition xKey (e : XEntry) : list Z :=
  match e with XAccount a _ => 0 :: accountID a | XData k _ _ => [1; k] end.

(** Accounts are cached, data are not. *)
Global Instance xHelper : EntryHelper (list Z) XEntry LedgerHeader := {|
  getLedgerKey := xKey;
  isValid := fun e => match e with XData _ v _ => 0 <=? v | _ => true end;
  invalidMessage := fun _ => "invalid";
  lastModifiedLedgerSeq := fun e => match e with XAccount _ m => m | XData _ _ m => m end;
  setLastModified := fun n e => match e with XAccount a _ => XAccount a n | XData k v _ => XData k v n end;
  headerSeq := ledgerSeq;
  headerTime := fun h => closeTime (scpValue h);
  samePK := fun e r => bool_decide (xKey e = xKey r);
  updateRow := fun _ e => e;
  whereKey := fun k r => bool_decide (xKey r = k);
  deletion := fun _ => DeletesRow;
  usesCache := fun k => match k with 0 :: _ => true | _ => false end;
  looksExists := fun _ => true;
  existsInCache := fun _ v => Some (match v with Some _ => true | None => false end);
|}.

Global Instance xHelper_ok : EntryHelperOk xHelper.
Proof.
  split; cbn.
  - intros. apply bool_decide_eq_true.
  - intros. apply bool_decide_eq_true.
  - by intros n [].
  - done.
Defined.

Global Instance xExists_ok : ExistsOk xHelper.
Proof. by intros k v b [= <-]. Defined.

Global Instance xHeader_ok : HeaderOk xHelper.
Proof. by split. Defined.

Definition xSt : Type := Store (list Z) XEntry LedgerHeader.

(** ** Accounts and operations *)

Definition xAccountKey (id : PublicKey) : list Z := 0 :: id.
Definition xAsAccount (e : XEntry) : option AccountEntry := match e with XAccount a _ => Some a | _ => None end.
Definition xVerify (pk : PublicKey) (sig : PublicKey) : bool := bool_decide (pk = sig).

Definition xAccount (id : Z) : AccountEntry :=
  {| accountID := [id]; recoveryID := [100 + id]; accountType := GENERAL; masterWeight := 1; lowThreshold := 1;
     mediumThreshold := 1; highThreshold := 1; blockReasons := 0;
     signers := [{| pubKey := [200 + id]; weight := 2; signerType := 2; identity := 1 |}] |}.

(** An operation that adds an entry of data and, if [fails], reports failure
    after it. *)
Definition xOp (k v : Z) (fails : bool) : OperationFrame xSt := {|
  sourceAccount := None;
  isAllowed := true;
  getCounterpartyDetails := fun _ => mret [];
  getSourceAccountDetails := fun a _ _ =>
    {| mAllowedSourceAccountTypes := getAllAccountTypes; mNeeededTheshold := 1; mNeededSignedClass := 6;
       mAllowedBlockedReasons := 0 |};
  doCheckValid := mret (0 <=? k);
  doApply := fun a => ES.storeAdd (XData k v 0);; mret (negb fails, a);
|}.

Lemma xOp_ok k v fails : opOk (xOp k v fails).
Proof.
  split; cbn; intros.
  - apply keeps_ret.
  - apply keeps_ret.
  - apply keeps_bind; [apply keeps_storeUpdate|]. intros. apply keeps_ret.
Qed.

Definition xEnv (hash source time : Z) (ops : list (OperationFrame xSt)) : Envelope PublicKey xSt :=
  {| txSourceAccount := [source]; salt := hash; minTime := 0; maxTime := time; operations := ops;
     signatures := [{| hint := [source]; signature := [source] |}]; contentsHash := [hash]; fullHash := [hash];
     paidFee := hash mod 3 |}.

(** Transactions 1 and 2 add data; 3 fails after adding some; 4 throws, its
    value being invalid; the others have an unknown source. *)
Definition xFrame (p : TransactionFramePtr) : Envelope PublicKey xSt :=
  if p =? 1 then xEnv 1 7 50 [xOp 10 1 false]
  else if p =? 2 then xEnv 2 7 60 [xOp 11 2 false; xOp 12 3 false]
  else if p =? 3 then xEnv 3 8 70 [xOp 13 4 false; xOp 14 4 true]
  else if p =? 4 then xEnv 4 8 80 [xOp 15 (-1) false]
  else xEnv p 9 90 [xOp 16 1 false].

Lemma xFrame_ok p : Forall opOk (operations (xFrame p)).
Proof.
  unfold xFrame. repeat destruct (_ =? _); cbn; repeat (apply Forall_cons; split; [apply xOp_ok|]); by apply Forall_nil.
Qed.

(** ** The ledger manager *)

Definition xSha (l : list Z) : Hash := 1 :: l.
Definition xMarshal (e : Envelope PublicKey xSt) : list Z := fullHash e.
Definition xMarshalHeader (h : LedgerHeader) : list Z := [ledgerSeq h; closeTime (scpValue h)].
Definition xMarshalResults (rs : list (Hash * TransactionResultCode)) : list Z := concat (map fst rs).
Definition xDecode (u : list Z) : option LedgerUpgrade :=
  match u with [1; v] => Some (VERSION v) | [2; n] => Some (MAX_TX_SET_SIZE n) | _ => None end.

Definition xBE : Type := BucketEntry (list Z) XEntry.

(** The hash of a bucket is an encoding of its entries. *)
Definition xEncode (e : xBE) : list Z :=
  match e with
  | LIVEENTRY (XAccount a m) => 1 :: m :: Z.of_nat (length (accountID a)) :: accountID a
  | LIVEENTRY (XData k v m) => [2; k; v; m]
  | DEADENTRY k => 3 :: Z.of_nat (length k) :: k
  end.

Fixpoint xDecodeBucket (fuel : nat) (l : list Z) : option (list xBE) :=
  match fuel, l with
  | _, [] => Some []
  | S f, 1 :: m :: 1 :: n :: r => b ← xDecodeBucket f r; Some (LIVEENTRY (XAccount (xAccount n) m) :: b)
  | S f, 2 :: k :: v :: m :: r => b ← xDecodeBucket f r; Some (LIVEENTRY (XData k v m) :: b)
  | S f, 3 :: n :: r => b ← xDecodeBucket f (drop (Z.to_nat n) r); Some (DEADENTRY (take (Z.to_nat n) r) :: b)
  | _, _ => None
  end.

Definition xServices : BucketServices (list xBE) := {|
  getHash := fun b => 2 :: concat (map xEncode b); binToHex := fun h => h; hexToBin256 := fun h => Some h;
  getBucketByHash := fun h => xDecodeBucket (length h) (tail h); mergeReady := fun _ _ => false |}.

Global Instance xServices_ok : BucketServicesOk xServices.
Proof. by split. Defined.

Definition xBucketSort (l : list xBE) : list xBE := isort (BucketEntryIdCmp xKey) l.

Global Instance xBucketSort_ok : StdSort (getLedgerKey (EntryHelper := xHelper)) xBucketSort.
Proof.
  split; intros l; [apply isort_perm|]. apply isort_sorted. apply (strictWeak_by (bkey xKey)). intros. apply cmp_key.
Qed.

Definition xHeader (seq time : Z) (prev : Hash) : LedgerHeader :=
  {| ledgerVersion := 1; previousLedgerHash := prev; scpValue := {| txSetHash := []; closeTime := time; upgrades := [] |};
     txSetResultHash := []; bucketListHash := []; ledgerSeq := seq; idGenerators := []; maxTxSetSize := 100;
     txExpirationPeriod := 1000; externalSystemIDGenerators := []; skipList := [[]; []; []; []] |}.

Definition xRows : list XEntry := [XAccount (xAccount 7) 1; XAccount (xAccount 8) 1].

Definition xBuckets : list (BucketLevel (list xBE)) :=
  match addBatch xKey xServices xBucketSort 1 xRows [] (newBucketList false) with Some bl => bl | None => [] end.

Definition xLcl : LedgerHeader := xHeader 1 10 [].

Definition xManager : LedgerManager (list Z) XEntry := {|
  lmRows := xRows;
  lmTables := {| txtiming := []; txfeehistory := []; txhistory := []; ledgerheaders := [(xSha (xMarshalHeader xLcl), xLcl)];
                 kLastClosedLedger := xSha (xMarshalHeader xLcl);
                 kHistoryArchiveState := default [] (saveLevels xServices (fun _ => false) 0 xBuckets) |};
  lmCache := [(xAccountKey [7], Some (XAccount (xAccount 7) 1)); (xAccountKey [9], None)];
  mCurrentLedger := {| lhHeader := LH.nextHeader (xSha (xMarshalHeader xLcl)) xLcl; lhHash := None |};
  mLastClosedLedger := (xSha (xMarshalHeader xLcl), xLcl);
  mBucketList := xBuckets |}.

Lemma xRows_distinct : NoDup (map xKey xRows).
Proof. repeat constructor; cbn; set_solver. Qed.

Lemma xRows_view k : match batchWrite xKey xRows [] k with
  | Some (LIVEENTRY e) => Some e | Some (DEADENTRY _) => None
  | None => view xKey (newBucketList (Key := list Z) (Entry := XEntry) false) k end = rowsFind xRows k.
Proof.
  assert (view xKey (newBucketList (Key := list Z) (Entry := XEntry) false) k = None) as -> by reflexivity.
  unfold batchWrite, rowsFind. cbn [os_mem existsb]. induction xRows as [|e rows IH]; [reflexivity|].
  cbn [List.find whereKey xHelper]. case_bool_decide as E.
  - subst k. rewrite (proj2 (eqvb_eq _ _) eq_refl). reflexivity.
  - rewrite eqvb_neq by congruence. exact IH.
Qed.

Lemma xCache_ok k v : LruCache.find (lmCache xManager) k = Some v ->
  usesCache k = true /\ v = rowsFind (lmRows xManager) k.
Proof.
  unfold LruCache.find. cbn [lmCache xManager List.find fst snd].
  destruct (eqvb k (xAccountKey [7])) eqn:E7; [apply eqvb_eq in E7 as ->; intros [= <-]; split; reflexivity|].
  destruct (eqvb k (xAccountKey [9])) eqn:E9; [apply eqvb_eq in E9 as ->; intros [= <-]; split; reflexivity|]. discriminate.
Qed.

Lemma xManager_ok : managerOk xSha xMarshalHeader xServices 1 xManager.
Proof.
  destruct (addBatch_inv xKey xServices xBucketSort 0 xRows [] (newBucketList false)) as (bl & Hb & Hi & Hv).
  - unfold UINT32_MAX. lia.
  - by apply listInv_new.
  - exact xRows_distinct.
  - constructor.
  - assert (mBucketList xManager = bl) as Hbl.
    { unfold xManager, xBuckets. cbn [mBucketList]. change (0 + 1) with 1 in Hb. by rewrite Hb. }
    split.
    + split; [exact xRows_distinct|exact xCache_ok|reflexivity..|]. split; [reflexivity|]. intros r. by intros ->%list_elem_of_singleton.
    + rewrite Hbl. exact Hi.
    + intros k. rewrite Hbl, Hv. apply (xRows_view k).
    + exists (fun _ => false). vm_compute. reflexivity.
Qed.

Definition xSet (prev : Hash) (txs : list TransactionFramePtr) : TxSetFrame :=
  {| mHashIsValid := false; mHash := []; mPreviousLedgerHash := prev; mTransactions := txs |}.

Definition xClose (seq : Z) (prev : Hash) (time : Z) (txs : list TransactionFramePtr) : LedgerCloseData :=
  {| mLedgerSeq := seq; mTxSet := xSet prev txs;
     mValue := {| txSetHash := xSha (prev ++ txs); closeTime := time; upgrades := [[2; 200]] |} |}.

Abbreviation xRun := (LC.runHistory 100 xVerify 7 1 0 xAccountKey xAsAccount [] GENERAL xFrame xMarshal xSha isort xMarshalHeader
    xMarshalResults xDecode xServices xBucketSort [1] true).

(** ** A history

    Ledger 2 has five transactions.  A set with transaction 1 again cannot be
    closed; after its row was cleaned up it can, but the transaction is too
    late. *)

Definition xHash (seq time : Z) : Hash := xSha [seq; time].

Definition xEvents : list LC.Event :=
  [LC.CloseLedger (xClose 2 (xHash 1 10) 20 [1; 2; 3; 4; 5]) keepsDead; LC.CleanUp 1;
   LC.CloseLedger (xClose 3 (xHash 2 20) 30 [1]) keepsDead; LC.CloseLedger (xClose 3 (xHash 2 20) 55 []) keepsDead; LC.CleanUp 2;
   LC.CloseLedger (xClose 4 (xHash 3 55) 56 [1]) keepsDead].

Definition xCloseLedger (lcd : LedgerCloseData) :=
  LC.closeLedger 100 xVerify 7 1 0 xAccountKey xAsAccount [] GENERAL xFrame xMarshal xSha isort xMarshalHeader
    xMarshalResults xDecode xServices xBucketSort [1] true lcd.

Definition xOrdered (evs : list LC.Event) (lm : LedgerManager (list Z) XEntry) : Prop :=
  ordered 100 xVerify 7 1 0 xAccountKey xAsAccount [] GENERAL xFrame xMarshal xSha isort xMarshalHeader
    xMarshalResults xDecode xServices xBucketSort [1] true evs lm.

Fixpoint xTimes (evs : list LC.Event) (lm : LedgerManager (list Z) XEntry) : bool :=
  match evs with
  | [] => true
  | LC.CloseLedger lcd garbage :: r =>
      (currentTime lm <=? closeTime (mValue lcd)) &&
      match xCloseLedger lcd lm with
      | Ret _ lm' => xTimes r lm'
      | Throw _ lm' => match LC.loadLastKnownLedger xSha xMarshalHeader xServices garbage lm' with Some lm'' => xTimes r lm'' | None => true end
      end
  | LC.CleanUp seq :: r => xTimes r (LC.cleanUp seq lm)
  end.

Lemma xFrames_ok txs : framesOk xFrame txs.
Proof. apply Forall_forall. intros p _. apply xFrame_ok. Qed.

Lemma xTimes_ordered evs lm : xTimes evs lm = true -> xOrdered evs lm.
Proof.
  revert lm. induction evs as [|[lcd garbage|seq] evs IH]; intros lm; cbn [xTimes]; [done| |apply IH].
  intros [Hle Hr]%andb_true_iff. split; [apply xFrames_ok|]. split; [by apply Z.leb_le|].
  fold (xCloseLedger lcd lm). destruct (xCloseLedger lcd lm) as [rs lm'|x lm']; [by apply IH|].
  destruct (LC.loadLastKnownLedger _ _ _ garbage lm'); [by apply IH|done].
Qed.

Lemma xEvents_ordered : xOrdered xEvents xManager.
Proof. apply xTimes_ordered. vm_compute. reflexivity. Qed.

Lemma xHash_time p q : contentsHash (xFrame p) = contentsHash (xFrame q) -> maxTime (xFrame p) = maxTime (xFrame q).
Proof.
  unfold xFrame. destruct (Z.eqb_spec p 1), (Z.eqb_spec q 1), (Z.eqb_spec p 2), (Z.eqb_spec q 2), (Z.eqb_spec p 3),
    (Z.eqb_spec q 3), (Z.eqb_spec p 4), (Z.eqb_spec q 4); cbn; intros Heq; congruence || (injection Heq; lia).
Qed.

(** The store of a ledger in which nothing has happened yet. *)
Definition xStore : xSt :=
  {| sRows := lmRows xManager; sCache := lmCache xManager; sDelta := LD.newDelta (lhHeader (mCurrentLedger xManager)) true |}.

Lemma xStore_ok : storeOk (rowsFind xRows) xStore.
Proof. exact (start_ok xSha xMarshalHeader 1 xManager (lhHeader (mCurrentLedger xManager)) (mo_db _ _ _ _ _ xManager_ok)). Qed.

Definition xInfo : LedgerInfo :=
  {| liCloseTime := 20; liTxExpirationPeriod := 1000; liLedgerVersion := 1; liMasterID := [1] |}.

Definition xApply (p : Z) :=
  LC.apply 100 xVerify 7 1 0 xAccountKey xAsAccount [] GENERAL (xFrame p) xInfo
    (LC.txState (LC.processSeqNum (xFrame p)) (ES.setDelta xStore (LD.nestedDelta (sDelta xStore)))).

(** ** Restarts *)

Local Abbreviation xRestartsOk := (restartsOk 100 xVerify 7 1 0 xAccountKey xAsAccount [] GENERAL xFrame xMarshal xSha isort xMarshalHeader
    xMarshalResults xDecode xServices xBucketSort [1] true).

Global Instance xBE_eq_dec : EqDecision xBE.
Proof. unfold xBE. solve_decision. Defined.

Definition xStored (b : list xBE) : bool := bool_decide (FB.fetch xServices (FB.hexOf xServices b) = Some b).

(** What [restartable] asks for, the flags apart. *)
Definition xRestartable (lm : LedgerManager (list Z) XEntry) : bool :=
  bool_decide (mLastClosedLedger lm ∈ ledgerheaders (lmTables lm)) && forallb xStored (concat (map filesOf (mBucketList lm))).

Fixpoint xRestarts (evs : list LC.Event) (lm : LedgerManager (list Z) XEntry) : bool :=
  match evs with
  | [] => true
  | LC.CloseLedger lcd garbage :: r =>
      match xCloseLedger lcd lm with
      | Ret _ lm' => xRestarts r lm'
      | Throw _ lm' => xRestartable lm && forallb (fun i => bool_decide (garbage i = keepsDead i)) (seq 0 11) &&
          match LC.loadLastKnownLedger xSha xMarshalHeader xServices garbage lm' with Some lm'' => xRestarts r lm'' | None => true end
      end
  | LC.CleanUp seq :: r => xRestarts r (LC.cleanUp seq lm)
  end.

Lemma xRestarts_ok evs lm : xRestarts evs lm = true -> xRestartsOk evs lm.
Proof.
  revert lm. induction evs as [|[lcd garbage|n] evs IH]; intros lm; cbn [xRestarts]; [done| |apply IH].
  cbn [restartsOk]. fold (xCloseLedger lcd lm). destruct (xCloseLedger lcd lm) as [rs lm'|x lm']; [apply IH|].
  unfold xRestartable. rewrite !andb_true_iff, bool_decide_eq_true, !forallb_forall. intros [[[Hin Hst] Hg] Hr]. split.
  - split; [done|]. split.
    + apply Forall_forall. intros b Hb. apply list_elem_of_In, Hst in Hb. by apply bool_decide_eq_true in Hb.
    + intros i Hi. specialize (Hg i ltac:(apply in_seq; lia)). by apply bool_decide_eq_true in Hg.
  - destruct (LC.loadLastKnownLedger _ _ _ garbage lm'); [by apply IH|done].
Qed.

Lemma xEvents_restarts : xRestartsOk xEvents xManager.
Proof. apply (xRestarts_ok xEvents xManager). vm_compute. reflexivity. Qed.
