(* ===== verification/LedgerTheorems.v ===== *)
(** * Theorems on transactions, transaction sets and the close of ledgers *)

From stdpp Require Import sorting.
From S2P Require Import Prelude OrdContainers LedgerDelta LedgerDeltaFacts EntryStore EntryStoreFacts Signatures Transaction TransactionFacts LedgerHeader TxSet TxSetFacts Bucket BucketFacts FutureBucket BucketList BucketListFacts LedgerClose LedgerCloseFacts LedgerExample.
Import BL.

(** ** The store *)

Section StoreTheorems.
Context {Key Entry Header : Type} `{Ord Key} `{EqDecision Header} `{EqDecision Entry}.
Context {helper : EntryHelper Key Entry Header} {helperOk : EntryHelperOk helper} (max_size : nat).


(** The check of a delta against the database finds no difference, if
    [exists] answers truthfully from the cache. *)
Theorem checkAgainstDatabase_passes `{!ExistsOk helper} L (s : Store Key Entry Header) PARANOID_MODE : storeOk L s ->
  exists c, ES.checkAgainstDatabase max_size PARANOID_MODE s = Ret tt (ES.setCache s c).
Proof. intros Hok. destruct (checkAgainstDatabase_ok max_size PARANOID_MODE L s Hok) as (c & Hc & _). by exists c. Qed.

End StoreTheorems.

(** ** Signatures *)

Section SignatureTheorems.
Context {Sig : Type} (verifySig : PublicKey -> Sig -> bool) (anySignerType : Z).

(** C19. The signature check answers success only if signatures of the
    transaction, by signers of the account that have the needed class and
    pairwise different identities, are valid and have weights that reach the
    threshold; the account is then of an allowed type and not blocked for
    another reason than the allowed ones. *)
Theorem approval_needs_weight {S} fuel (loadMaster : M S (option AccountEntry)) sigs used account details s s' used' :
  (length sigs <= 20)%nat ->
  (forall signers s1, SV.getSigners anySignerType fuel loadMaster account s = Ret signers s1 -> smallWeights signers) ->
  SV.check verifySig anySignerType fuel loadMaster sigs used account details s = Ret (SV.SUCCESS, used') s' ->
  Z.lor (blockReasons account) (mAllowedBlockedReasons details) = mAllowedBlockedReasons details /\
  accountType account ∈ mAllowedSourceAccountTypes details /\
  exists signers chosen, SV.getSigners anySignerType fuel loadMaster account s = Ret signers s' /\
    approvedBy verifySig signers details sigs chosen /\ mNeeededTheshold details <= totalOf (chosen.*2).
Proof.
  intros Hlen Hw. unfold SV.check.
  destruct (Z.eqb_spec (Z.lor (blockReasons account) (mAllowedBlockedReasons details)) (mAllowedBlockedReasons details)) as [Hb|];
    cbn [negb]; [|done].
  destruct (SV.isAccountTypeAllowed account _) eqn:Ea; cbn [negb]; [|done]. unfold mbind, M_bind.
  destruct (SV.getSigners _ _ _ account s) as [signers s1|] eqn:Eg; [|done]. intros [= Hc <-].
  split; [done|]. split.
  - apply existsb_exists in Ea as (t & Ht & Ee). apply bool_decide_eq_true in Ee as <-. by apply list_elem_of_In.
  - destruct (checkSignature_sound verifySig signers details sigs used used' (Hw signers s1 eq_refl) Hlen Hc) as (chosen & Ha & Hs).
    by exists signers, chosen.
Qed.

(** Signatures by signers of the needed class with different identities,
    each valid for one signer of the account only, are approved when their
    weights reach the threshold. *)
Theorem enough_weight_approved signers details (sigs : list (DecoratedSignature Sig)) ss used :
  smallWeights signers -> (length sigs <= 20)%nat -> length used = length sigs ->
  signedBy verifySig signers sigs ss -> Forall (counts details) ss -> NoDup (map identity ss) -> ss <> [] ->
  mNeeededTheshold details <= totalOf ss ->
  exists used', SV.checkSignature verifySig signers sigs used details = (SV.SUCCESS, used').
Proof. apply checkSignature_complete. Qed.

End SignatureTheorems.

(** ** Transaction sets *)

Section TxSetTheorems.
Local Abbreviation Ptr := TransactionFramePtr.
Context {Sig St W : Type} (frame : Ptr -> Envelope Sig St) (marshal : Envelope Sig St -> list Z).
Context (sha256 : list Z -> Hash) (sort : (Ptr -> Ptr -> bool) -> list Ptr -> list Ptr) `{!SortOk sort}.
Implicit Types (ts : TxSetFrame) (p : Ptr).

(** The order of application has every transaction of the set once, the
    transactions of each account by increasing salt, and proceeds in rounds:
    the [i]-th round has the [i]-th transaction of every account that has
    one, and nothing else. *)
Theorem sortForApply_order ts : exists rounds ts',
  TS.sortForApply frame marshal sha256 sort ts = Ret (concat rounds) ts' /\
  concat rounds ≡ₚ mTransactions ts /\ mTransactions ts' ≡ₚ mTransactions ts /\
  forall id, StronglySorted (fun p q => TS.getSalt frame p <= TS.getSalt frame q) (ofAccount frame id (concat rounds)) /\
    forall i, ofAccount frame id (default [] (rounds !! i)) =
              match ofAccount frame id (concat rounds) !! i with Some p => [p] | None => [] end.
Proof.
  destruct (sortForApply_spec frame marshal sha256 sort ts) as (h & ts' & Hr & Hp & Hi).
  do 2 eexists. split; [exact Hr|]. split; [by eapply sortForApply_perm|]. split; [done|]. intros id.
  rewrite (sortForApply_account frame marshal sha256 sort ts _ _ id Hr). split; [|apply Hi].
  apply StronglySorted_filter. pose proof (sort_sorted (TS.SaltSorter frame) (mTransactions ts) (SaltSorter_weak frame)) as Hs.
  eapply StronglySorted_mono; [|exact Hs]. cbn beta. unfold TS.SaltSorter. intros p q Hpq. by apply Z.ltb_ge in Hpq.
Qed.

(** C37. Surge pricing cuts the set to the limit, and no transaction it drops
    comes before one it keeps in the order by fee, account and salt. *)
Theorem surge_keeps_highest_fees max ts : let fees := fold_left (TS.noteFee frame) (mTransactions ts) [] in
  exists ts' dropped, TS.surgePricingFilter frame sort max ts = Ret tt ts' /\
    mTransactions ts ≡ₚ mTransactions ts' ++ dropped /\ (length (mTransactions ts') <= max)%nat /\
    (dropped <> [] -> length (mTransactions ts') = max) /\
    forall p q, p ∈ mTransactions ts' -> q ∈ dropped -> TS.SurgeSorter frame fees q p = false.
Proof.
  intros fees. destruct (surgePricing_spec frame sort max ts) as (ts' & Hr & Hp). fold fees in Hp.
  set (sorted := sort (TS.SurgeSorter frame fees) (mTransactions ts)) in *.
  assert (sorted ≡ₚ mTransactions ts) as Hs by apply sort_permutation, SurgeSorter_weak.
  assert (length sorted = length (mTransactions ts)) as Hl by by rewrite Hs.
  destruct (Nat.ltb_spec max (length (mTransactions ts))) as [Hm|Hm].
  - exists ts', (drop max sorted). split; [done|]. split; [by rewrite Hp, take_drop|].
    rewrite Hp, length_take. split; [lia|]. split; [intros _; lia|]. intros p q Hin Hq. rewrite Hp in Hin.
    exact (StronglySorted_split _ max sorted p q (sort_sorted _ _ (SurgeSorter_weak frame fees)) Hin Hq).
  - exists ts', []. split; [done|]. rewrite app_nil_r. split; [done|]. rewrite Hp. split; [done|]. split; [done|]. set_solver.
Qed.

Section Validity.
Context (checkTx : Ptr -> M W bool) (valid : Ptr -> bool) (I : W -> Prop).
Context (Hcheck : forall p w, I w -> exists w', checkTx p w = Ret (valid p) w' /\ I w').

(** Trimming a set keeps exactly its valid transactions and reports the
    others, each as often as it occurs. *)
Theorem trimInvalid_partitions ts w : I w ->
  exists trimmed ts' w', TS.trimInvalid frame sort checkTx (ts, w) = Ret trimmed (ts', w') /\ I w' /\
    mTransactions ts' ≡ₚ List.filter valid (mTransactions ts) /\
    trimmed ≡ₚ List.filter (fun p => negb (valid p)) (mTransactions ts).
Proof. by apply trimInvalid_spec. Qed.

(** A set is valid exactly if it follows the last closed ledger, is not
    larger than its limit, is sorted by full hash, the hash of all zeros
    first, and has valid transactions only. *)
Theorem txset_checkValid_decides lclHash max ts w : I w ->
  exists b w', TS.checkValid frame sort checkTx lclHash max ts w = Ret b w' /\ I w' /\
    (b = true <-> lclHash = mPreviousLedgerHash ts /\ Z.of_nat (length (mTransactions ts)) <= max /\
       StronglySorted (fun h h' => ltb h' h = false) (TS.zeroHash :: map (TS.getFullHash frame) (mTransactions ts)) /\
       Forall (fun p => valid p = true) (mTransactions ts)).
Proof. by apply checkValid_spec. Qed.

End Validity.
End TxSetTheorems.

(** ** Closing ledgers *)

Section CloseTheorems.
Context {Key Entry : Type} `{Ord Key} `{EqDecision Entry}.
Context {helper : EntryHelper Key Entry LedgerHeader} {helperOk : EntryHelperOk helper} {existsOk : ExistsOk helper}.
Context {headerOk : HeaderOk helper} (max_size : nat).
Context {Sig : Type} (verifySig : PublicKey -> Sig -> bool) (anySignerType READER : Z) (anyBlockReason : Z).
Context (accountKey : PublicKey -> Key) (asAccount : Entry -> option AccountEntry).
Context (zeroKey : PublicKey) (zeroType : AccountType).
Local Abbreviation St := (Store Key Entry LedgerHeader).
Local Abbreviation Env := (Envelope Sig St).
Local Abbreviation Ptr := TransactionFramePtr.
Local Abbreviation Bucket := (list (BucketEntry Key Entry)).
Context (frame : Ptr -> Env) (marshal : Env -> list Z) (sha256 : list Z -> Hash).
Context (sort : (Ptr -> Ptr -> bool) -> list Ptr -> list Ptr) `{!SortOk sort}.
Context (marshalHeader : LedgerHeader -> list Z) (marshalResults : list (Hash * TransactionResultCode) -> list Z).
Context (decodeUpgrade : list Z -> option LedgerUpgrade).
Context (bucketServices : BucketServices Bucket) `{!BucketServicesOk bucketServices}.
Context (bucketSort : list (BucketEntry Key Entry) -> list (BucketEntry Key Entry)) `{!StdSort getLedgerKey bucketSort}.
Context (masterID : PublicKey) (PARANOID_MODE : bool).
Local Abbreviation LM := (LedgerManager Key Entry).
Implicit Types (lm : LM) (p : Ptr) (L : Key -> option Entry) (s : St).
Local Abbreviation apply := (LC.apply max_size verifySig anySignerType READER anyBlockReason accountKey asAccount zeroKey zeroType).
Local Abbreviation closeLedger := (LC.closeLedger max_size verifySig anySignerType READER anyBlockReason accountKey asAccount zeroKey zeroType frame marshal sha256 sort marshalHeader marshalResults decodeUpgrade bucketServices bucketSort masterID PARANOID_MODE).
Local Abbreviation runHistory := (LC.runHistory max_size verifySig anySignerType READER anyBlockReason accountKey asAccount zeroKey zeroType frame marshal sha256 sort marshalHeader marshalResults decodeUpgrade bucketServices bucketSort masterID PARANOID_MODE).
Local Abbreviation ordered := (ordered max_size verifySig anySignerType READER anyBlockReason accountKey asAccount zeroKey zeroType frame marshal sha256 sort marshalHeader marshalResults decodeUpgrade bucketServices bucketSort masterID PARANOID_MODE).
Local Abbreviation restartsOk := (restartsOk max_size verifySig anySignerType READER anyBlockReason accountKey asAccount zeroKey zeroType frame marshal sha256 sort marshalHeader marshalResults decodeUpgrade bucketServices bucketSort masterID PARANOID_MODE).
Local Abbreviation managerOk := (managerOk sha256 marshalHeader bucketServices).

(** C18. A transaction that fails or throws has had no effect: applied in a
    delta nested in that of the ledger, it leaves the tables as they were and
    a delta without changes and with the same header, so that the assertions
    of [applyTransactions] hold. *)
Theorem failed_transaction_no_effect L s env info fs : storeOk L s -> Forall opOk (operations env) ->
  match apply env info (LC.txState fs (ES.setDelta s (LD.nestedDelta (sDelta s)))) with
  | Ret true _ => True
  | Ret false t | Throw _ t => sRows (tStore t) = sRows s /\
      LD.getChanges lastModifiedLedgerSeq headerSeq (sDelta (tStore t)) = [] /\
      mCurrentHeader (sDelta (tStore t)) = mCurrentHeader (sDelta s)
  end.
Proof.
  intros Hok Hops. destruct (nested_start L s Hok) as [Hn _].
  pose proof (applyTx_spec max_size verifySig anySignerType READER anyBlockReason accountKey asAccount zeroKey zeroType
    (deltaView (sDelta s) L) (LC.txState fs (ES.setDelta s (LD.nestedDelta (sDelta s)))) env info Hops Hn) as Ha.
  fold (apply env info (LC.txState fs (ES.setDelta s (LD.nestedDelta (sDelta s))))) in Ha.
  destruct (apply env info _) as [[] t|x t]; [done|..]; (split; [apply Ha|]); by eapply failed_unchanged.
Qed.

(** C5. Over any history of closed ledgers, failed closes, after each of
    which the process is started again from the database, and clean-ups: the
    tables have one row per key, every cached entry is the row, the bucket
    list stands for exactly the rows, and the current ledger continues the
    last closed one, whose hash is that of its header.  The restarts are
    assumed to find the header of the last closed ledger and the files of the
    buckets, and the merges that are started again to find the flag
    [mKeepDeadEntries], which is neither saved nor initialized, as it was:
    with another flag a restarted merge can drop dead entries that are still
    needed ([restarted_merge_can_drop_dead]).  Under these assumptions every
    restart succeeds. *)
Theorem ledgers_stay_consistent evs lm t : 0 <= t -> t + Z.of_nat (length evs) <= UINT32_MAX - 524288 ->
  managerOk t lm -> ordered evs lm -> restartsOk evs lm ->
  exists t' lm', t <= t' /\ (runHistory evs lm).2 = Some lm' /\
    NoDup (map getLedgerKey (lmRows lm')) /\
    (forall k v, LruCache.find (lmCache lm') k = Some v -> v = rowsFind (lmRows lm') k) /\
    (forall k, view getLedgerKey (mBucketList lm') k = rowsFind (lmRows lm') k) /\
    ledgerSeq (lhHeader (mCurrentLedger lm')) = t' + 1 /\
    previousLedgerHash (lhHeader (mCurrentLedger lm')) = sha256 (marshalHeader (mLastClosedLedger lm').2).
Proof.
  intros Ht Hlen Hm Ho Hre. destruct (runHistory_ok max_size verifySig anySignerType READER anyBlockReason accountKey asAccount
    zeroKey zeroType frame marshal sha256 sort marshalHeader marshalResults decodeUpgrade bucketServices bucketSort masterID
    PARANOID_MODE evs lm t Ht Hlen Hm Ho Hre) as (t' & lm' & Ht' & Hr & [[Hrows Hcache Hseq _ Hcur Hlcl _ _] _ Hview _]).
  exists t', lm'. split_and!; try done; [intros k v Hf; by apply (Hcache k v)|]. by rewrite Hcur, <- Hlcl.
Qed.

(** C17. The close of a ledger is all or nothing: it either returns, the
    consistent state then standing for the next ledger, whose header is
    stored, with a result for every transaction of the set; or it throws and
    leaves the tables as they were. *)
Theorem close_all_or_nothing t lm lcd : 0 <= t < UINT32_MAX - 524288 -> managerOk t lm ->
  framesOk frame (mTransactions (mTxSet lcd)) ->
  match closeLedger lcd lm with
  | Ret rs lm' => managerOk (t + 1) lm' /\ ledgerSeq (mLastClosedLedger lm').2 = t + 1 /\
      mLastClosedLedger lm' ∈ ledgerheaders (lmTables lm') /\
      kLastClosedLedger (lmTables lm') = (mLastClosedLedger lm').1 /\
      rs.*1 ≡ₚ map (fun p => contentsHash (frame p)) (mTransactions (mTxSet lcd))
  | Throw _ lm' => lmRows lm' = lmRows lm /\ lmTables lm' = lmTables lm
  end.
Proof.
  intros Ht Hm Hf. epose proof (closeLedger_spec max_size verifySig anySignerType READER anyBlockReason accountKey asAccount
    zeroKey zeroType frame marshal sha256 sort marshalHeader marshalResults decodeUpgrade bucketServices bucketSort masterID
    PARANOID_MODE t lm lcd Ht (mo_db _ _ _ _ _ Hm) Hf) as Hc.
  destruct (closeLedger lcd lm) as [rs lm'|x lm']; [|done]. destruct Hc as (txs & Hp & [_ H1 H2 H3 H4 [H5 H6]]).
  split; [by apply H1|]. split; [done|]. split; [done|]. split; [done|].
  rewrite (no_results _ _ _ _ _ _ H2). by apply Permutation_map.
Qed.

(** C6. No transaction succeeds twice: over any history in which close times do
    not decrease, whatever the sets contain and whenever old rows are
    cleaned up, the contents hashes of the transactions that succeeded are
    pairwise different.  (The contents hash determines the time bounds.) *)
Theorem no_transaction_twice evs lm t :
  (forall p q, contentsHash (frame p) = contentsHash (frame q) -> maxTime (frame p) = maxTime (frame q)) ->
  0 <= t -> t + Z.of_nat (length evs) <= UINT32_MAX - 524288 -> managerOk t lm -> ordered evs lm ->
  NoDup (succeeded (runHistory evs lm).1).
Proof.
  intros Hh Ht Hlen Hm Ho. apply (runHistory_success max_size verifySig anySignerType READER anyBlockReason accountKey asAccount
    zeroKey zeroType frame marshal sha256 sort marshalHeader marshalResults decodeUpgrade bucketServices bucketSort masterID
    PARANOID_MODE Hh evs lm t [] Ht Hlen (mo_db _ _ _ _ _ Hm) Ho).
  intros p Hp. by apply elem_of_nil in Hp.
Qed.

(** C40. A set that has a transaction twice can be valid, though no ledger can
    be closed with it: its hashes are sorted, as the check does not ask for
    strictly increasing ones, but the second row of [txtiming] violates the
    primary key. *)
Theorem duplicate_valid_but_not_closed {W} (checkTx : Ptr -> M W bool) (valid : Ptr -> bool) (w : W) p t lm lcd :
  (forall q w, exists w', checkTx q w = Ret (valid q) w') -> valid p = true ->
  ltb (fullHash (frame p)) TS.zeroHash = false -> mTransactions (mTxSet lcd) = [p; p] ->
  0 <= t < UINT32_MAX - 524288 -> managerOk t lm -> Forall opOk (operations (frame p)) ->
  (exists w', TS.checkValid frame sort checkTx (mPreviousLedgerHash (mTxSet lcd)) 2 (mTxSet lcd) w = Ret true w') /\
  forall rs lm', closeLedger lcd lm <> Ret rs lm'.
Proof.
  intros Hv Hp1 Hz Htx Ht Hm Hops. split.
  - destruct (checkValid_spec frame sort checkTx valid (fun _ => True)) with
      (lclHash := mPreviousLedgerHash (mTxSet lcd)) (max := 2) (ts := mTxSet lcd) (w := w) as (b & w' & Hr & _ & Hb).
    { intros q w1 _. destruct (Hv q w1) as (w2 & ?). by exists w2. }
    { done. }
    exists w'. rewrite Hr. f_equal. apply Hb. rewrite Htx. split; [done|]. split; [cbn; lia|].
    split; [|by repeat constructor]. repeat constructor; try exact Hz. apply ltb_irrefl.
  - intros rs lm' Hr. assert (framesOk frame (mTransactions (mTxSet lcd))) as Hf by (rewrite Htx; by repeat constructor).
    epose proof (closeLedger_spec max_size verifySig anySignerType READER anyBlockReason accountKey asAccount
      zeroKey zeroType frame marshal sha256 sort marshalHeader marshalResults decodeUpgrade bucketServices bucketSort masterID
      PARANOID_MODE t lm lcd Ht (mo_db _ _ _ _ _ Hm) Hf) as Hc. rewrite Hr in Hc. destruct Hc as (txs & Hp & [_ _ [_ Hnd _ _ _] _ _ _]).
    rewrite Htx in Hp. rewrite Hp in Hnd. cbn in Hnd. apply NoDup_cons in Hnd as [Hin _]. apply Hin. left.
Qed.

End CloseTheorems.

(** ** The helpers of sales and reviewable requests *)

(** Their [exists] takes any cached value, also that of an absent entry, for
    an entry. *)
Definition saleExistsInCache (k : list Z) (v : option XEntry) : option bool := Some true.

Definition saleHelper : EntryHelper (list Z) XEntry LedgerHeader := {|
  getLedgerKey := xKey; isValid := isValid; invalidMessage := invalidMessage; lastModifiedLedgerSeq := lastModifiedLedgerSeq;
  setLastModified := setLastModified; headerSeq := ledgerSeq; headerTime := headerTime; samePK := samePK;
  updateRow := updateRow; whereKey := whereKey; deletion := deletion; usesCache := usesCache; looksExists := looksExists; existsInCache := saleExistsInCache |}.

(** With such a helper, an entry that is deleted and looked up once more in
    the same ledger makes the consistency check of the delta throw. *)
Theorem cached_null_fails_check :
  (ES.storeDelete (helper := saleHelper) (xAccountKey [7]);;
   v ← ES.storeLoad (helper := saleHelper) 100 (xAccountKey [7]);
   ES.checkAgainstDatabase (helper := saleHelper) 100 true;; mret v) xStore =
  Throw (RuntimeError "Inconsistent state ; entry should not exist in database")
    {| sRows := [XAccount (xAccount 8) 1];
       sCache := [(xAccountKey [7], None); (xAccountKey [9], None)];
       sDelta := LD.addChange (REMOVED (xAccountKey [7]))
                   (LD.setSets (sDelta xStore) [] [] [xAccountKey [7]]) |}.
Proof. vm_compute. reflexivity. Qed.

(** ** Witnesses *)

Definition xDetails (threshold : Z) : SourceDetails :=
  {| mAllowedSourceAccountTypes := [GENERAL]; mNeeededTheshold := threshold; mNeededSignedClass := 6;
     mAllowedBlockedReasons := 0 |}.

(** The signature of the account's own key and that of its signer. *)
Definition xSigs : list (DecoratedSignature PublicKey) :=
  [{| hint := [7]; signature := [7] |}; {| hint := [207]; signature := [207] |}].

Definition noMaster : M unit (option AccountEntry) := mret None.

Lemma xWeights : smallWeights (SV.ownSigners 7 (xAccount 7)).
Proof. repeat constructor; cbn; lia. Qed.

Lemma approval_needs_weight_witness :
  SV.check xVerify 7 1 noMaster xSigs [false; false] (xAccount 7) (xDetails 3) tt = Ret (SV.SUCCESS, [true; true]) tt /\
  exists signers chosen, SV.getSigners 7 1 noMaster (xAccount 7) tt = Ret signers tt /\
    approvedBy xVerify signers (xDetails 3) xSigs chosen /\ 3 <= totalOf (chosen.*2).
Proof.
  split; [vm_compute; reflexivity|].
  apply (approval_needs_weight xVerify 7 1 noMaster xSigs [false; false] (xAccount 7) (xDetails 3) tt tt [true; true]).
  - cbn. lia.
  - intros signers s1 Hs. change (Ret (SV.ownSigners 7 (xAccount 7)) tt = Ret signers s1) in Hs.
    injection Hs as <- _. exact xWeights.
  - vm_compute. reflexivity.
Defined.

Definition xSigners2 : list Signer :=
  [{| pubKey := [7]; weight := 1; signerType := 7; identity := 0 |}; {| pubKey := [207]; weight := 2; signerType := 2; identity := 1 |}].

Lemma enough_weight_approved_witness :
  exists used', SV.checkSignature xVerify (SV.ownSigners 7 (xAccount 7)) xSigs [false; false] (xDetails 3) = (SV.SUCCESS, used').
Proof.
  apply (enough_weight_approved xVerify (SV.ownSigners 7 (xAccount 7)) (xDetails 3) xSigs xSigners2 [false; false]).
  - apply xWeights.
  - cbn. lia.
  - reflexivity.
  - repeat constructor; cbn; try set_solver; intros s' Hs; repeat (apply elem_of_cons in Hs as [->|Hs]; [done|]); set_solver.
  - repeat constructor; discriminate.
  - repeat constructor; cbn; set_solver.
  - discriminate.
  - cbn. lia.
Defined.

Definition xTxSet : TxSetFrame := xSet [0] [2; 1; 3; 4].

Lemma sortForApply_order_witness :
  TS.sortForApply xFrame xMarshal xSha isort xTxSet = Ret [1; 3; 2; 4] {| mHashIsValid := true; mHash := [1; 0; 1; 2; 3; 4];
    mPreviousLedgerHash := [0]; mTransactions := [1; 2; 3; 4] |} /\
  exists rounds ts', TS.sortForApply xFrame xMarshal xSha isort xTxSet = Ret (concat rounds) ts' /\
    concat rounds ≡ₚ mTransactions xTxSet.
Proof.
  split; [vm_compute; reflexivity|].
  destruct (sortForApply_order xFrame xMarshal xSha isort xTxSet) as (rounds & ts' & Hr & Hp & _). by exists rounds, ts'.
Defined.

Lemma surge_keeps_highest_fees_witness :
  exists ts' dropped, TS.surgePricingFilter xFrame isort 2 xTxSet = Ret tt ts' /\
    mTransactions xTxSet ≡ₚ mTransactions ts' ++ dropped /\ (length (mTransactions ts') <= 2)%nat.
Proof.
  destruct (surge_keeps_highest_fees xFrame isort 2 xTxSet) as (ts' & dropped & H1 & H2 & H3 & _). by exists ts', dropped.
Defined.

(** Checking a transaction by its number, on no state. *)
Definition xCheckTx (p : TransactionFramePtr) : M unit bool := mret (p <? 3).

Lemma trimInvalid_partitions_witness :
  exists trimmed ts' w', TS.trimInvalid xFrame isort xCheckTx (xTxSet, tt) = Ret trimmed (ts', w') /\
    mTransactions ts' ≡ₚ [2; 1] /\ trimmed ≡ₚ [3; 4].
Proof.
  destruct (trimInvalid_partitions xFrame isort xCheckTx (fun p => p <? 3) (fun _ => True)) with (ts := xTxSet) (w := tt)
    as (tr & ts' & w' & Hr & _ & H1 & H2).
  - intros p [] _. by exists tt.
  - exact I.
  - by exists tr, ts', w'.
Defined.

Lemma txset_checkValid_decides_witness :
  TS.checkValid xFrame isort xCheckTx [0] 5 (xSet [0] [1; 2]) tt = Ret true tt /\
  exists b w', TS.checkValid xFrame isort xCheckTx [0] 5 (xSet [0] [2; 1]) tt = Ret b w' /\ b = false.
Proof.
  split; [vm_compute; reflexivity|].
  destruct (txset_checkValid_decides xFrame isort xCheckTx (fun p => p <? 3) (fun _ => True)) with
    (lclHash := [0] : Hash) (max := 5) (ts := xSet [0] [2; 1]) (w := tt) as (b & w' & Hr & _ & Hb).
  - intros p [] _. by exists tt.
  - exact I.
  - exists b, w'. split; [exact Hr|]. destruct b; [|reflexivity]. exfalso. vm_compute in Hr. discriminate.
Defined.

Lemma failed_transaction_no_effect_witness :
  (match xApply 3 with Ret b _ => b | Throw _ _ => true end) = false /\
  match xApply 3 with
  | Ret true _ => True
  | Ret false t | Throw _ t => sRows (tStore t) = sRows xStore /\
      LD.getChanges lastModifiedLedgerSeq headerSeq (sDelta (tStore t)) = [] /\
      mCurrentHeader (sDelta (tStore t)) = mCurrentHeader (sDelta xStore)
  end.
Proof.
  split; [vm_compute; reflexivity|]. unfold xApply.
  apply (failed_transaction_no_effect 100 xVerify 7 1 0 xAccountKey xAsAccount [] GENERAL (rowsFind xRows) xStore (xFrame 3)
    xInfo (LC.processSeqNum (xFrame 3))).
  - exact xStore_ok.
  - exact (xFrame_ok 3).
Defined.

(** The second close of the history fails; the process is started again. *)
Lemma ledgers_stay_consistent_witness :
  (match xCloseLedger (xClose 3 (xHash 2 20) 30 [1]) (default xManager (xRun (take 2 xEvents) xManager).2) with Throw _ _ => true | Ret _ _ => false end) = true /\
  exists t' lm', 1 <= t' /\ (xRun xEvents xManager).2 = Some lm' /\
    (forall k, view xKey (mBucketList lm') k = rowsFind (lmRows lm') k) /\
    ledgerSeq (lhHeader (mCurrentLedger lm')) = t' + 1.
Proof.
  split; [vm_compute; reflexivity|].
  destruct (ledgers_stay_consistent 100 xVerify 7 1 0 xAccountKey xAsAccount [] GENERAL xFrame xMarshal xSha isort xMarshalHeader
    xMarshalResults xDecode xServices xBucketSort [1] true xEvents xManager 1) as (t' & lm' & Ht & Hr & _ & _ & Hv & Hs & _).
  - lia.
  - cbn. unfold UINT32_MAX. lia.
  - exact xManager_ok.
  - exact xEvents_ordered.
  - exact xEvents_restarts.
  - exists t', lm'. split; [exact Ht|]. split; [exact Hr|]. split; [exact Hv|exact Hs].
Defined.

Definition xLcd : LedgerCloseData := xClose 2 (xHash 1 10) 20 [1; 2; 3; 4; 5].

Lemma close_all_or_nothing_witness :
  exists rs lm', xCloseLedger xLcd xManager = Ret rs lm' /\
    managerOk xSha xMarshalHeader xServices 2 lm' /\ rs.*1 ≡ₚ [[1]; [2]; [3]; [4]; [5]].
Proof.
  assert (match xCloseLedger xLcd xManager with Ret _ _ => true | Throw _ _ => false end = true) as Hb by (vm_compute; reflexivity).
  revert Hb. unfold xCloseLedger.
  pose proof (close_all_or_nothing 100 xVerify 7 1 0 xAccountKey xAsAccount [] GENERAL xFrame xMarshal xSha isort xMarshalHeader
    xMarshalResults xDecode xServices xBucketSort [1] true 1 xManager xLcd) as Hc.
  specialize (Hc ltac:(unfold UINT32_MAX; lia) xManager_ok (xFrames_ok _)). revert Hc.
  destruct (LC.closeLedger _ _ _ _ _ _ _ _ _ _ _ _ _ _ _ _ _ _ _ _ xLcd xManager) as [rs lm'|x lm']; intros Hc Hb; [|discriminate Hb].
  destruct Hc as (Hm & _ & _ & _ & Hr). exists rs, lm'. split; [reflexivity|]. split; [exact Hm|exact Hr].
Defined.

Lemma no_transaction_twice_witness :
  (xRun xEvents xManager).1 = [([1], txSUCCESS); ([3], txFAILED); ([5], txNO_ACCOUNT); ([2], txSUCCESS);
    ([4], txINTERNAL_ERROR); ([1], txTOO_LATE)] /\
  NoDup (succeeded (xRun xEvents xManager).1).
Proof.
  split; [vm_compute; reflexivity|].
  apply (no_transaction_twice 100 xVerify 7 1 0 xAccountKey xAsAccount [] GENERAL xFrame xMarshal xSha isort xMarshalHeader
    xMarshalResults xDecode xServices xBucketSort [1] true xEvents xManager 1).
  - exact xHash_time.
  - lia.
  - cbn. unfold UINT32_MAX. lia.
  - exact xManager_ok.
  - exact xEvents_ordered.
Defined.

Lemma duplicate_valid_but_not_closed_witness :
  TS.checkValid xFrame isort xCheckTx (xHash 1 10) 2 (xSet (xHash 1 10) [1; 1]) tt = Ret true tt /\
  forall rs lm', xCloseLedger (xClose 2 (xHash 1 10) 20 [1; 1]) xManager <> Ret rs lm'.
Proof.
  split; [vm_compute; reflexivity|].
  apply (duplicate_valid_but_not_closed 100 xVerify 7 1 0 xAccountKey xAsAccount [] GENERAL xFrame xMarshal xSha isort xMarshalHeader
    xMarshalResults xDecode xServices xBucketSort [1] true xCheckTx (fun p => p <? 3) tt 1 1).
  - intros q []. by exists tt.
  - reflexivity.
  - reflexivity.
  - reflexivity.
  - unfold UINT32_MAX. lia.
  - exact xManager_ok.
  - apply xFrame_ok.
Defined.

Definition xCalls : list (StoreCall (Key := list Z) (Entry := XEntry)) :=
  [CallLoad (xAccountKey [7]); CallChange (XAccount (xAccount 7) 0); CallLoad (xAccountKey [7]); CallAdd (XData 3 4 0);
   CallDelete (xAccountKey [8]); CallLoad (xAccountKey [8]); CallLoad [1; 3]].


Lemma checkAgainstDatabase_passes_witness :
  exists c, ES.checkAgainstDatabase 100 true xStore = Ret tt (ES.setCache xStore c).
Proof. apply (checkAgainstDatabase_passes 100 (rowsFind xRows) xStore true). exact xStore_ok. Defined.
