(* ===== verification/HerderValues.v ===== *)
(** * Values of the consensus ([herder/HerderImpl.cpp])

    What the herder tells the consensus library about values: whether a value
    is valid, what can be kept of a value that is not, how candidates are
    combined; and the value a node proposes.  A computation [M W A] may change
    the caches [W] of the application. *)

From S2P Require Import Prelude OrdContainers ScpTypes Signatures Transaction LedgerHeader TxSet.

Definition MAX_TIME_SLIP_SECONDS : Z := 60.

(** The members of [HerderImpl], the ledger manager and the configuration that are read. *)
Record HerderView := {
  mTrackingSCP : option (Z * StellarValue);       (** [mConsensusIndex] and [mConsensusValue] *)
  isSynced : bool;
  lclHeader : LedgerHeader;
  lclHash : Hash;
  timeNow : Z;
  getTxSet : Hash -> option TxSetFrame;
  LEDGER_PROTOCOL_VERSION : Z;
  DESIRED_MAX_TX_PER_LEDGER : Z;
  CFG_TX_EXPIRATION_PERIOD : Z;
  areAllExternalSystemGeneratorsAvailable : list Z -> bool;
  availableGenerators : list Z;                   (** sorted *)
}.

(** The enumerators of [LedgerUpgradeType]. *)
Record UpgradeNumbers := { nVERSION : Z; nMAX_TX_SET_SIZE : Z; nEXTERNAL_SYSTEM_ID_GENERATOR : Z; nTX_EXPIRATION_PERIOD : Z }.

Module HV.
Section HV.
Local Abbreviation Ptr := TransactionFramePtr.
Context {Sig St W : Type} (frame : Ptr -> Envelope Sig St) (marshal : Envelope Sig St -> list Z).
Context (sha256 : list Z -> Hash) (sort : (Ptr -> Ptr -> bool) -> list Ptr -> list Ptr).
Context (checkTx : Ptr -> M W bool).
Context (decodeValue : list Z -> option StellarValue) (encodeValue : StellarValue -> list Z).
Context (decodeUpgrade : list Z -> option LedgerUpgrade) (encodeUpgrade : LedgerUpgrade -> list Z) (maxUpgradeSize : Z).
Context (numbers : UpgradeNumbers).
Implicit Types (hv : HerderView) (sv : StellarValue) (u : LedgerUpgrade) (ts : TxSetFrame).

Definition upgradeType u : Z :=
  match u with
  | VERSION _ => nVERSION numbers
  | MAX_TX_SET_SIZE _ => nMAX_TX_SET_SIZE numbers
  | EXTERNAL_SYSTEM_ID_GENERATOR _ => nEXTERNAL_SYSTEM_ID_GENERATOR numbers
  | TX_EXPIRATION_PERIOD _ => nTX_EXPIRATION_PERIOD numbers
  | UNKNOWN_UPGRADE t => t
  end.

Definition isSlotCompatibleWithCurrentState hv (slotIndex : Z) : bool :=
  isSynced hv && (slotIndex =? u32 (ledgerSeq (lclHeader hv) + 1)).

Definition lastConsensusLedgerIndex (tracking : Z * StellarValue) : Z := u32 tracking.1.
Definition nextConsensusLedgerIndex (tracking : Z * StellarValue) : Z := u32 (lastConsensusLedgerIndex tracking + 1).

Definition validateTimes hv (lastCloseTime : Z) sv : bool :=
  negb (closeTime sv <=? lastCloseTime) && negb (closeTime sv >? u64 (timeNow hv + MAX_TIME_SLIP_SECONDS)).

Definition validateValueHelper hv (slotIndex : Z) sv : M W ValidationLevel :=
  if isSlotCompatibleWithCurrentState hv slotIndex then
    if negb (validateTimes hv (closeTime (scpValue (lclHeader hv))) sv) then mret kInvalidValue else
    match getTxSet hv (txSetHash sv) with
    | None => mret kInvalidValue
    | Some ts =>
        v ← TS.checkValid frame sort checkTx (lclHash hv) (maxTxSetSize (lclHeader hv)) ts;
        mret (if (v : bool) then kFullyValidatedValue else kInvalidValue)
    end
  else
    match mTrackingSCP hv with
    | None => mret kMaybeValidValue
    | Some tracking =>
        if nextConsensusLedgerIndex tracking >? slotIndex then mret kMaybeValidValue else
        if nextConsensusLedgerIndex tracking <? slotIndex then mret kInvalidValue else
        mret (if validateTimes hv (closeTime tracking.2) sv then kMaybeValidValue else kInvalidValue)
    end.

Definition upgradeOk hv u : bool :=
  match u with
  | VERSION newVersion => newVersion =? LEDGER_PROTOCOL_VERSION hv
  | MAX_TX_SET_SIZE newMax =>
      (newMax >=? u32 (DESIRED_MAX_TX_PER_LEDGER hv * 7) / 10) && (newMax <=? u32 (DESIRED_MAX_TX_PER_LEDGER hv * 13) / 10)
  | EXTERNAL_SYSTEM_ID_GENERATOR gs => areAllExternalSystemGeneratorsAvailable hv gs
  | TX_EXPIRATION_PERIOD newPeriod => newPeriod =? CFG_TX_EXPIRATION_PERIOD hv
  | UNKNOWN_UPGRADE _ => false
  end.

(** The type of a step that is valid. *)
Definition validateUpgradeStep hv (upgrade : list Z) : option Z :=
  match decodeUpgrade upgrade with
  | None => None
  | Some u => if upgradeOk hv u then Some (upgradeType u) else None
  end.

(** The loop over the upgrades; [thisUpgradeType] keeps an indeterminate value
    when the step is not valid. *)
Fixpoint checkUpgrades hv (indeterminate : Z) (first : bool) (lastUpgradeType : Z) (us : list (list Z)) (res : ValidationLevel) : ValidationLevel :=
  match us with
  | [] => res
  | upgrade :: r =>
      let step := validateUpgradeStep hv upgrade in
      let res := match step with Some _ => res | None => kInvalidValue end in
      let thisUpgradeType := default indeterminate step in
      let res := if negb first && (lastUpgradeType >=? thisUpgradeType) then kInvalidValue else res in
      checkUpgrades hv indeterminate false thisUpgradeType r res
  end.

Definition validateValue hv (indeterminate : Z) (slotIndex : Z) (value : list Z) : M W ValidationLevel :=
  match decodeValue value with
  | None => mret kInvalidValue
  | Some sv =>
      res ← validateValueHelper hv slotIndex sv;
      mret (match res with
            | kInvalidValue => kInvalidValue
            | _ => checkUpgrades hv indeterminate true (nVERSION numbers) (upgrades sv) res
            end)
  end.

Definition withUpgrades sv (us : list (list Z)) : StellarValue := {| txSetHash := txSetHash sv; closeTime := closeTime sv; upgrades := us |}.

Definition extractValidValue hv (slotIndex : Z) (value : list Z) : M W (list Z) :=
  match decodeValue value with
  | None => mret []
  | Some sv =>
      res ← validateValueHelper hv slotIndex sv;
      mret (if bool_decide (res = kFullyValidatedValue)
            then encodeValue (withUpgrades sv (List.filter (fun up => match validateUpgradeStep hv up with Some _ => true | None => false end) (upgrades sv)))
            else [])
  end.

(** ** Combining candidates *)

(** Two upgrades of the same type. *)
Definition mergeUpgrade (clUpgrade lupgrade : LedgerUpgrade) : option LedgerUpgrade :=
  match clUpgrade, lupgrade with
  | VERSION v, VERSION v' => Some (VERSION (if v <? v' then v' else v))
  | MAX_TX_SET_SIZE n, MAX_TX_SET_SIZE n' => Some (MAX_TX_SET_SIZE (if n <? n' then n' else n))
  | EXTERNAL_SYSTEM_ID_GENERATOR _, EXTERNAL_SYSTEM_ID_GENERATOR gs => Some (EXTERNAL_SYSTEM_ID_GENERATOR gs)
  | TX_EXPIRATION_PERIOD _, TX_EXPIRATION_PERIOD p => Some (TX_EXPIRATION_PERIOD p)
  | _, _ => None
  end.

Definition xdrError {S A} : M S A := throw (RuntimeError "xdr_runtime_error").

Fixpoint mergeUpgrades (us : list (list Z)) (m : list (Z * LedgerUpgrade)) : M W (list (Z * LedgerUpgrade)) :=
  match us with
  | [] => mret m
  | upgrade :: r =>
      match decodeUpgrade upgrade with
      | None => xdrError
      | Some u =>
          match om_find (upgradeType u) m with
          | None => mergeUpgrades r (om_set (upgradeType u) u m)
          | Some cl => match mergeUpgrade cl u with
                       | None => throw (RuntimeError "invalid upgrade step")
                       | Some u' => mergeUpgrades r (om_set (upgradeType u) u' m)
                       end
          end
      end
  end.

(** [candidateValues], [candidatesHash], the latest close time and the upgrades. *)
Record Combined := { cbValues : list StellarValue; cbHash : Hash; cbTime : Z; cbUpgrades : list (Z * LedgerUpgrade) }.

Fixpoint gather (candidates : list (list Z)) (cb : Combined) : M W Combined :=
  match candidates with
  | [] => mret cb
  | c :: r =>
      match decodeValue c with
      | None => xdrError
      | Some sv =>
          m ← mergeUpgrades (upgrades sv) (cbUpgrades cb);
          gather r {| cbValues := cbValues cb ++ [sv]; cbHash := zip_with Z.lxor (cbHash cb) (sha256 c);
                      cbTime := if cbTime cb <? closeTime sv then closeTime sv else cbTime cb; cbUpgrades := m |}
      end
  end.

(** [highestTxSet] with [highest]. *)
Definition better hv (candidatesHash : Hash) (best : option (TxSetFrame * Hash)) sv : option (TxSetFrame * Hash) :=
  match getTxSet hv (txSetHash sv) with
  | None => best
  | Some ts =>
      if bool_decide (mPreviousLedgerHash ts = lclHash hv) then
        match best with
        | None => Some (ts, txSetHash sv)
        | Some (hts, highest) =>
            if (length (mTransactions hts) <? length (mTransactions ts))%nat ||
               (length (mTransactions ts) =? length (mTransactions hts))%nat && lessThanXored highest (txSetHash sv) candidatesHash
            then Some (ts, txSetHash sv) else best
        end
      else best
  end.

Definition bestTxSet hv (candidatesHash : Hash) (values : list StellarValue) : option (TxSetFrame * Hash) := fold_left (better hv candidatesHash) values None.

(** The copy of the best set is trimmed and its hash computed. *)
Definition trimmedHash ts : M W Hash := fun w =>
  match TS.trimInvalid frame sort checkTx (ts, w) with
  | Throw e s => Throw e s.2
  | Ret removed s => match TS.getContentsHash frame marshal sha256 sort s.1 with
                     | Ret h _ => Ret h s.2
                     | Throw e _ => Throw e s.2
                     end
  end.

Definition combineCandidates hv (candidates : list (list Z)) : M W (list Z) :=
  cb ← gather candidates {| cbValues := []; cbHash := TS.zeroHash; cbTime := 0; cbUpgrades := [] |};
  match bestTxSet hv (cbHash cb) (cbValues cb) with
  | None => throw NullDeref
  | Some (ts, _) =>
      h ← trimmedHash ts;
      mret (encodeValue {| txSetHash := h; closeTime := cbTime cb; upgrades := map (fun e => encodeUpgrade e.2) (cbUpgrades cb) |})
  end.

(** ** The proposed value *)

(** The end of [triggerNextLedger]. *)
Definition proposedUpgrades hv : list LedgerUpgrade :=
  (if negb (txExpirationPeriod (lclHeader hv) =? CFG_TX_EXPIRATION_PERIOD hv) then [TX_EXPIRATION_PERIOD (CFG_TX_EXPIRATION_PERIOD hv)] else []) ++
  (if negb (ledgerVersion (lclHeader hv) =? LEDGER_PROTOCOL_VERSION hv) then [VERSION (LEDGER_PROTOCOL_VERSION hv)] else []) ++
  (if negb (maxTxSetSize (lclHeader hv) =? DESIRED_MAX_TX_PER_LEDGER hv) then [MAX_TX_SET_SIZE (DESIRED_MAX_TX_PER_LEDGER hv)] else []) ++
  (if negb (bool_decide (externalSystemIDGenerators (lclHeader hv) = availableGenerators hv)) then [EXTERNAL_SYSTEM_ID_GENERATOR (availableGenerators hv)] else []).

Definition nextCloseTime hv : Z :=
  if timeNow hv <=? closeTime (scpValue (lclHeader hv)) then u64 (closeTime (scpValue (lclHeader hv)) + 1) else timeNow hv.

Definition proposedValue hv (setHash : Hash) : StellarValue :=
  {| txSetHash := setHash; closeTime := nextCloseTime hv;
     upgrades := List.filter (fun v => negb (Z.of_nat (length v) >=? maxUpgradeSize)) (map encodeUpgrade (proposedUpgrades hv)) |}.

End HV.
End HV.
