(* ===== verification/HerderTheorems.v ===== *)
(** * The values of the consensus: lemmas and properties

    What is valid alone stays valid when candidates are combined. *)

From stdpp Require Import sorting.
From S2P Require Import Prelude OrdContainers ScpTypes LedgerDelta EntryStore Signatures Transaction LedgerHeader TxSet TxSetFacts LedgerClose LedgerExample HerderValues.

Lemma foldl_max_spec (l : list Z) (a : Z) : a <= foldl Z.max a l /\ Forall (fun x => x <= foldl Z.max a l) l /\ (foldl Z.max a l = a \/ foldl Z.max a l ∈ l).
Proof.
  revert a. induction l as [|x l IH]; intros a; cbn; [split; [lia|]; split; [constructor|by left]|].
  destruct (IH (Z.max a x)) as (H1 & H2 & H3). split; [lia|]. split; [constructor; [lia|done]|].
  destruct H3 as [E|?]; [|right; by right]. destruct (Z.max_spec a x) as [[_ Em]|[_ Em]]; rewrite E, Em; [right; by left|by left].
Qed.

Lemma map_by_key {A B C : Type} (g : A -> B) (f : A -> C) l1 l2 : (forall a b, g a = g b -> f a = f b) -> map g l1 = map g l2 -> map f l1 = map f l2.
Proof.
  intros Hf. revert l2. induction l1 as [|a l1 IH]; intros [|b l2] E; try done. cbn in *. injection E as E1 E2. by rewrite (Hf a b E1), (IH l2 E2).
Qed.

Section HerderFacts.
Local Abbreviation Ptr := TransactionFramePtr.
Context {Sig St W : Type} (frame : Ptr -> Envelope Sig St) (marshal : Envelope Sig St -> list Z).
Context (sha256 : list Z -> Hash) (sort : (Ptr -> Ptr -> bool) -> list Ptr -> list Ptr) `{!SortOk sort}.
Context (checkTx : Ptr -> M W bool) (valid : Ptr -> bool) (I : W -> Prop).
Context (decodeValue : list Z -> option StellarValue) (encodeValue : StellarValue -> list Z).
Context (decodeUpgrade : list Z -> option LedgerUpgrade) (encodeUpgrade : LedgerUpgrade -> list Z).
Context (numbers : UpgradeNumbers) (hv : HerderView).
Implicit Types (sv : StellarValue) (u : LedgerUpgrade) (ts : TxSetFrame) (w : W).

(** The verdict on a transaction does not depend on the caches. *)
Hypothesis Hcheck : forall p w, I w -> exists w', checkTx p w = Ret (valid p) w' /\ I w'.

Local Abbreviation stepType := (HV.validateUpgradeStep decodeUpgrade numbers hv).
Local Abbreviation uType := (HV.upgradeType numbers).

(** ** Upgrades of a value *)

(** All steps are valid, and their types increase. *)
Definition stepsOk (us : list (list Z)) : Prop := exists ns, mapM stepType us = Some ns /\ StronglySorted Z.lt ns.

Lemma checkUpgrades_invalid junk first last us : HV.checkUpgrades decodeUpgrade numbers hv junk first last us kInvalidValue = kInvalidValue.
Proof. revert first last. induction us as [|up us IH]; intros first last; [done|]. cbn. destruct (stepType up); cbn; destruct (_ && _); apply IH. Qed.

Lemma checkUpgrades_next junk last us res : res <> kInvalidValue ->
  HV.checkUpgrades decodeUpgrade numbers hv junk false last us res = res /\ (exists ns, mapM stepType us = Some ns /\ StronglySorted Z.lt (last :: ns)) \/
  HV.checkUpgrades decodeUpgrade numbers hv junk false last us res = kInvalidValue /\ ~ exists ns, mapM stepType us = Some ns /\ StronglySorted Z.lt (last :: ns).
Proof.
  intros Hres. revert last. induction us as [|up us IH]; intros last; cbn [HV.checkUpgrades mapM].
  { left. split; [done|]. exists []. split; [done|]. repeat constructor. }
  destruct (stepType up) as [n|] eqn:E; cbn [default from_option negb andb id].
  2:{ right. destruct (_ >=? _); rewrite checkUpgrades_invalid; (split; [done|]); by intros (ns & Hn & _). }
  destruct (last >=? n) eqn:El; zify_bool.
  { right. rewrite checkUpgrades_invalid. split; [done|]. intros (ns & Hn & Hs). cbn in Hn. destruct (mapM stepType us); [|done]. injection Hn as <-.
    apply StronglySorted_inv in Hs as [_ Hf]. apply Forall_inv in Hf. lia. }
  destruct (IH n) as [[-> (ns & Hn & Hs)]|[-> Hno]].
  - left. split; [done|]. exists (n :: ns). cbn. rewrite Hn. split; [done|]. constructor; [done|]. apply StronglySorted_inv in Hs as [_ Hf].
    constructor; [lia|]. eapply Forall_impl; [exact Hf|]. cbn. lia.
  - right. split; [done|]. intros (ns & Hn & Hs). apply Hno. cbn in Hn. destruct (mapM stepType us) as [ms|]; [|done]. injection Hn as <-.
    exists ms. split; [done|]. by apply StronglySorted_inv in Hs as [Hs _].
Qed.

Lemma checkUpgrades_spec junk last us res : res <> kInvalidValue ->
  HV.checkUpgrades decodeUpgrade numbers hv junk true last us res = res /\ stepsOk us \/
  HV.checkUpgrades decodeUpgrade numbers hv junk true last us res = kInvalidValue /\ ~ stepsOk us.
Proof.
  intros Hres. destruct us as [|up us]; [left; split; [done|]; exists []; split; [done|constructor]|].
  cbn [HV.checkUpgrades negb andb]. unfold stepsOk. cbn [mapM]. destruct (stepType up) as [n|] eqn:E; cbn [default from_option id].
  2:{ right. rewrite checkUpgrades_invalid. split; [done|]. intros (ns & Hn & _). done. }
  destruct (checkUpgrades_next junk n us res Hres) as [[-> (ns & Hn & Hs)]|[-> Hno]].
  - left. split; [done|]. exists (n :: ns). cbn. by rewrite Hn.
  - right. split; [done|]. intros (ns & Hn & Hs). apply Hno. cbn in Hn. destruct (mapM stepType us) as [ms|]; [|done]. injection Hn as <-. by exists ms.
Qed.

(** ** Values *)

Definition setOk ts : Prop := lclHash hv = mPreviousLedgerHash ts /\ Z.of_nat (length (mTransactions ts)) <= maxTxSetSize (lclHeader hv) /\
  StronglySorted (fun a b => ltb b a = false) (TS.zeroHash :: map (TS.getFullHash frame) (mTransactions ts)) /\
  Forall (fun p => valid p = true) (mTransactions ts).

(** What [validateValueHelper] asks for when the node is synced. *)
Definition bodyOk sv : Prop := HV.validateTimes hv (closeTime (scpValue (lclHeader hv))) sv = true /\
  exists ts, getTxSet hv (txSetHash sv) = Some ts /\ setOk ts.

Context (slot : Z).
Hypothesis Hcompat : HV.isSlotCompatibleWithCurrentState hv slot = true.

Lemma helper_spec sv w : I w -> exists lev w', HV.validateValueHelper frame sort checkTx hv slot sv w = Ret lev w' /\ I w' /\
  (lev = kFullyValidatedValue /\ bodyOk sv \/ lev = kInvalidValue /\ ~ bodyOk sv).
Proof.
  intros Hw. unfold HV.validateValueHelper. rewrite Hcompat. unfold bodyOk.
  destruct (HV.validateTimes hv _ sv) eqn:Et; cbn [negb]; [|do 2 eexists; split; [done|]; split; [done|]; right; split; [done|]; by intros [? _]].
  destruct (getTxSet hv (txSetHash sv)) as [ts|] eqn:Eg.
  2:{ do 2 eexists; split; [done|]; split; [done|]; right; split; [done|]. intros (_ & ts & ? & _). congruence. }
  destruct (checkValid_spec frame sort checkTx valid I Hcheck (lclHash hv) (maxTxSetSize (lclHeader hv)) ts w Hw) as (b & w' & E & Hw' & Hb).
  unfold mbind, M_bind. rewrite E. do 2 eexists. split; [done|]. split; [done|]. destruct b.
  - left. split; [done|]. split; [done|]. exists ts. split; [done|]. by apply Hb.
  - right. split; [done|]. intros (_ & ts' & Heq & Hok). injection Heq as <-. apply Hb in Hok. done.
Qed.

Definition fullyValid (v : list Z) : Prop := exists sv, decodeValue v = Some sv /\ bodyOk sv /\ stepsOk (upgrades sv).

Lemma validateValue_spec junk v w : I w -> exists lev w', HV.validateValue frame sort checkTx decodeValue decodeUpgrade numbers hv junk slot v w = Ret lev w' /\ I w' /\
  (lev = kFullyValidatedValue /\ fullyValid v \/ lev = kInvalidValue /\ ~ fullyValid v).
Proof.
  intros Hw. unfold HV.validateValue, fullyValid. destruct (decodeValue v) as [sv|].
  2:{ do 2 eexists. split; [done|]. split; [done|]. right. split; [done|]. by intros (? & ? & _). }
  destruct (helper_spec sv w Hw) as (lev & w' & E & Hw' & [[-> Hb]|[-> Hb]]); unfold mbind, M_bind; rewrite E.
  - do 2 eexists. split; [done|]. split; [done|]. destruct (checkUpgrades_spec junk (nVERSION numbers) (upgrades sv) kFullyValidatedValue ltac:(done)) as [[-> Hs]|[-> Hs]].
    + left. split; [done|]. by exists sv.
    + right. split; [done|]. intros (sv' & Heq & _ & Hs'). by injection Heq as <-.
  - do 2 eexists. split; [done|]. split; [done|]. right. split; [done|]. intros (sv' & Heq & Hb' & _). by injection Heq as <-.
Qed.

(** ** Merging upgrades *)

Hypothesis Hnumbers : NoDup [nVERSION numbers; nMAX_TX_SET_SIZE numbers; nEXTERNAL_SYSTEM_ID_GENERATOR numbers; nTX_EXPIRATION_PERIOD numbers].
Hypothesis Hupgrade : forall u, decodeUpgrade (encodeUpgrade u) = Some u.
Hypothesis Hvalue : forall sv, decodeValue (encodeValue sv) = Some sv.

Record mergeOk (m : list (Z * LedgerUpgrade)) : Prop := {
  mo_sorted : om_sorted m;
  mo_valid : forall k u, (k, u) ∈ m -> uType u = k /\ HV.upgradeOk hv u = true;
}.

Lemma mergeUpgrade_ok cl u : HV.upgradeOk hv cl = true -> HV.upgradeOk hv u = true -> uType cl = uType u ->
  exists u', HV.mergeUpgrade cl u = Some u' /\ HV.upgradeOk hv u' = true /\ uType u' = uType u.
Proof.
  intros H1 H2 E. rewrite !NoDup_cons, !elem_of_cons in Hnumbers.
  assert (forall a b : Z, a = b -> (a = b -> False) -> False) as Habs by auto.
  destruct cl, u; cbn in *; try done; try (exfalso; clear -Hnumbers E; intuition congruence); eexists; split; try done; split; try done; cbn; destruct (_ <? _); done.
Qed.

Lemma mergeUpgrades_ok us : forall m w, mergeOk m -> stepsOk us \/ (exists ns, mapM stepType us = Some ns) ->
  exists m', HV.mergeUpgrades decodeUpgrade numbers us m w = Ret m' w /\ mergeOk m'.
Proof.
  induction us as [|up us IH]; intros m w Hm Hs; [by exists m|].
  assert (exists ns, mapM stepType (up :: us) = Some ns) as (ns & Hn) by (destruct Hs as [(ns & ? & _)|]; [by exists ns|done]).
  cbn in Hn. destruct (stepType up) as [n|] eqn:E; [|done]. cbn in Hn. destruct (mapM stepType us) as [ms|] eqn:Ems; [|done].
  unfold HV.validateUpgradeStep in E. cbn [HV.mergeUpgrades]. destruct (decodeUpgrade up) as [u|]; [|done]. destruct (HV.upgradeOk hv u) eqn:Eu; [|done].
  assert (forall u', uType u' = uType u -> HV.upgradeOk hv u' = true -> mergeOk (om_set (uType u) u' m)) as Hset.
  { intros u' Ht Ho. destruct Hm as [Hso Hv]. split; [by apply om_set_sorted|]. intros k v Hin.
    apply (elem_of_om_set _ _ _ _ Hso) in Hin as [[= -> ->]|[Hin _]]; [done|by apply Hv]. }
  destruct (om_find (uType u) m) as [cl|] eqn:Ef.
  - apply om_find_elem in Ef. destruct (mo_valid m Hm _ _ Ef) as [Ht Ho]. destruct (mergeUpgrade_ok cl u Ho Eu Ht) as (u' & -> & Ho' & Ht').
    apply IH; [by apply Hset|right; by eauto].
  - apply IH; [by apply Hset|right; by eauto].
Qed.

(** ** Gathering candidates *)

Lemma gather_ok cs : forall cb w, mergeOk (HV.cbUpgrades cb) -> Forall fullyValid cs ->
  exists cb' svs, HV.gather sha256 decodeValue decodeUpgrade numbers cs cb w = Ret cb' w /\ mergeOk (HV.cbUpgrades cb') /\
    HV.cbValues cb' = HV.cbValues cb ++ svs /\ mapM decodeValue cs = Some svs /\ Forall bodyOk svs /\
    HV.cbTime cb' = foldl Z.max (HV.cbTime cb) (map closeTime svs).
Proof.
  induction cs as [|c cs IH]; intros cb w Hm Hall.
  { exists cb, []. split_and!; try done. by rewrite app_nil_r. }
  apply Forall_cons in Hall as [(sv & Hd & Hb & Hs) Hall]. cbn [HV.gather mapM]. rewrite Hd.
  destruct (mergeUpgrades_ok (upgrades sv) (HV.cbUpgrades cb) w Hm (or_introl Hs)) as (m' & Em & Hm').
  unfold mbind at 1, M_bind at 1. rewrite Em. set (cb1 := HV.Build_Combined _ _ _ _).
  destruct (IH cb1 w Hm' Hall) as (cb' & svs & E & Hm2 & Hv & Hmap & Hbody & Ht).
  exists cb', (sv :: svs). split_and!; try done.
  - rewrite Hv. cbn. by rewrite <- app_assoc.
  - cbn. by rewrite Hmap.
  - by constructor.
  - rewrite Ht. cbn. f_equal. destruct (_ <? _) eqn:E'; zify_bool; lia.
Qed.

(** ** The best set *)

Definition bestOk (svs : list StellarValue) (best : option (TxSetFrame * Hash)) : Prop :=
  match best with
  | None => Forall (fun sv => forall ts, getTxSet hv (txSetHash sv) = Some ts -> mPreviousLedgerHash ts <> lclHash hv) svs
  | Some (ts, h) => getTxSet hv h = Some ts /\ (exists sv, sv ∈ svs /\ txSetHash sv = h) /\
      forall sv ts', sv ∈ svs -> getTxSet hv (txSetHash sv) = Some ts' -> mPreviousLedgerHash ts' = lclHash hv ->
        (length (mTransactions ts') <= length (mTransactions ts))%nat
  end.

Lemma better_ok h svs best sv : bestOk svs best -> bestOk (svs ++ [sv]) (HV.better hv h best sv).
Proof.
  intros Hb. unfold HV.better. destruct (getTxSet hv (txSetHash sv)) as [ts|] eqn:Eg.
  2:{ destruct best as [[bt bh]|]; cbn in *.
      - destruct Hb as (H1 & (s0 & Hin & E) & H3). split; [done|]. split; [exists s0; set_solver|].
        intros s1 t1 [Hin1|Hin1]%elem_of_app Ht; [by apply (H3 s1)|]. apply list_elem_of_singleton in Hin1 as ->. congruence.
      - apply Forall_app. split; [done|]. constructor; [|constructor]. intros t1 Ht. congruence. }
  case_bool_decide as Ep.
  2:{ destruct best as [[bt bh]|]; cbn in *.
      - destruct Hb as (H1 & (s0 & Hin & E) & H3). split; [done|]. split; [exists s0; set_solver|].
        intros s1 t1 [Hin1|Hin1]%elem_of_app Ht Hp; [by apply (H3 s1)|]. apply list_elem_of_singleton in Hin1 as ->. congruence.
      - apply Forall_app. split; [done|]. constructor; [|constructor]. intros t1 Ht. congruence. }
  assert (exists s0, s0 ∈ svs ++ [sv] /\ txSetHash s0 = txSetHash sv) as Hex by (exists sv; split; [apply elem_of_app; right; by left|done]).
  destruct best as [[bt bh]|]; cbn in Hb.
  2:{ split; [done|]. split; [done|]. intros s1 t1 [Hin1|Hin1]%elem_of_app Ht Hp.
      - rewrite Forall_forall in Hb. by destruct (Hb s1 Hin1 t1 Ht).
      - apply list_elem_of_singleton in Hin1 as ->. rewrite Eg in Ht. injection Ht as <-. done. }
  destruct Hb as (H1 & (s0 & Hin & E) & H3).
  destruct (length (mTransactions bt) <? length (mTransactions ts))%nat eqn:El; cbn [orb].
  - apply Nat.ltb_lt in El. split; [done|]. split; [done|]. intros s1 t1 [Hin1|Hin1]%elem_of_app Ht Hp.
    + specialize (H3 s1 t1 Hin1 Ht Hp). lia.
    + apply list_elem_of_singleton in Hin1 as ->. rewrite Eg in Ht. injection Ht as <-. done.
  - apply Nat.ltb_ge in El. destruct (_ && _) eqn:Ex.
    + apply andb_true_iff in Ex as [Ex%Nat.eqb_eq _]. split; [done|]. split; [done|]. intros s1 t1 [Hin1|Hin1]%elem_of_app Ht Hp.
      * specialize (H3 s1 t1 Hin1 Ht Hp). lia.
      * apply list_elem_of_singleton in Hin1 as ->. rewrite Eg in Ht. injection Ht as <-. done.
    + split; [done|]. split; [exists s0; set_solver|]. intros s1 t1 [Hin1|Hin1]%elem_of_app Ht Hp; [by apply (H3 s1)|].
      apply list_elem_of_singleton in Hin1 as ->. rewrite Eg in Ht. injection Ht as <-. done.
Qed.

Lemma bestTxSet_ok h svs : bestOk svs (HV.bestTxSet hv h svs).
Proof.
  unfold HV.bestTxSet. assert (forall l best, bestOk l best -> bestOk (l ++ svs) (fold_left (HV.better hv h) svs best)) as Hall.
  { induction svs as [|sv svs IH]; intros l best Hb; [by rewrite app_nil_r|]. cbn. replace (l ++ sv :: svs) with ((l ++ [sv]) ++ svs) by (by rewrite <- app_assoc).
    apply IH. by apply better_ok. }
  apply (Hall [] None). constructor.
Qed.

(** ** Trimming a valid set *)

Lemma trimAccount_valid txs ts w : I w -> Forall (fun p => valid p = true) txs -> exists w', TS.trimAccount checkTx txs (ts, w) = Ret [] (ts, w') /\ I w'.
Proof.
  revert w. induction txs as [|p txs IH]; intros w Hw Hall; [by exists w|]. apply Forall_cons in Hall as [Hp Hall].
  cbn [TS.trimAccount]. unfold mbind, M_bind. cbn [fst snd]. destruct (Hcheck p w Hw) as (w1 & -> & Hw1). rewrite Hp. cbn [negb]. by apply IH.
Qed.

Lemma trimAccounts_valid groups ts w : I w -> Forall (fun p => valid p = true) (concat (groups.*2)) ->
  exists w', TS.trimAccounts frame sort checkTx groups (ts, w) = Ret [] (ts, w') /\ I w'.
Proof.
  revert w. induction groups as [|[id txs] groups IH]; intros w Hw Hall; [by exists w|]. cbn in Hall. apply Forall_app in Hall as [H1 H2].
  cbn [TS.trimAccounts]. unfold mbind, M_bind.
  destruct (trimAccount_valid (sort (TS.SaltSorter frame) txs) ts w Hw) as (w1 & -> & Hw1).
  { rewrite (sort_permutation (TS.SaltSorter frame) txs (SaltSorter_weak frame)). done. }
  destruct (IH w1 Hw1 H2) as (w2 & -> & Hw2). by exists w2.
Qed.

(** Sets are in the cache under their hash, and transactions with the same
    hash are the same. *)
Definition contentsOf ts : Hash :=
  sha256 (mPreviousLedgerHash ts ++ concat (map (fun p => marshal (frame p)) (sort (TS.HashTxSorter frame) (mTransactions ts)))).
Hypothesis Hcache : forall h ts, getTxSet hv h = Some ts -> contentsOf ts = h.
Hypothesis Hcollide : forall p q, TS.getFullHash frame p = TS.getFullHash frame q -> marshal (frame p) = marshal (frame q).

Lemma sorted_hashes_unique (l1 l2 : list Ptr) : l1 ≡ₚ l2 -> map (fun p => marshal (frame p)) (sort (TS.HashTxSorter frame) l1) = map (fun p => marshal (frame p)) (sort (TS.HashTxSorter frame) l2).
Proof.
  intros Hp. apply (map_by_key (TS.getFullHash frame)); [done|].
  assert (forall l, StronglySorted (fun a b => ltb b a = false) (map (TS.getFullHash frame) (sort (TS.HashTxSorter frame) l))) as Hs.
  { intros l. pose proof (sort_sorted (TS.HashTxSorter frame) l (HashTxSorter_weak frame)) as H.
    induction H as [|a l' H IH Hf]; cbn; constructor; [done|]. apply Forall_forall. intros h (q & -> & Hq)%list_elem_of_fmap. rewrite Forall_forall in Hf. by apply Hf. }
  assert (AntiSymm (=) (fun a b : Hash => ltb b a = false)) as Hanti by (intros a b H1 H2; by apply ltb_total).
  apply (StronglySorted_unique (fun a b : Hash => ltb b a = false)); [apply Hs|apply Hs|]. change (TS.getFullHash frame <$> sort (TS.HashTxSorter frame) l1 ≡ₚ TS.getFullHash frame <$> sort (TS.HashTxSorter frame) l2).
  by rewrite !(sort_permutation (TS.HashTxSorter frame)), Hp by apply HashTxSorter_weak.
Qed.

Lemma trimmedHash_ok ts w : I w -> Forall (fun p => valid p = true) (mTransactions ts) ->
  exists w', HV.trimmedHash frame marshal sha256 sort checkTx ts w = Ret (contentsOf ts) w' /\ I w'.
Proof.
  intros Hw Hall. unfold HV.trimmedHash, TS.trimInvalid, modify, get, mbind, M_bind. cbn [fst snd TS.setTransactions mTransactions].
  set (txs := sort (TS.HashTxSorter frame) (mTransactions ts)).
  assert (txs ≡ₚ mTransactions ts) as Hs by (by apply sort_permutation, HashTxSorter_weak).
  destruct (trimAccounts_valid (TS.groupByAccount frame txs) (TS.setTransactions txs ts) w Hw) as (w' & -> & Hw').
  { rewrite (groupByAccount_perm frame txs), Hs. done. }
  exists w'. split; [|done]. unfold TS.getContentsHash, TS.sortForHash, get, modify, mbind, M_bind. cbn. unfold TS.hashOf, contentsOf. cbn.
  by rewrite (sorted_hashes_unique txs (mTransactions ts) Hs).
Qed.

(** ** The combination *)

Hypothesis Hlcl : 0 <= closeTime (scpValue (lclHeader hv)).

Lemma merged_steps m : mergeOk m -> stepsOk (map (fun e => encodeUpgrade e.2) m).
Proof.
  intros [Hs Hv]. exists (m.*1). split.
  - clear Hs. induction m as [|[k u] m IH]; [done|]. cbn.
    assert (stepType (encodeUpgrade u) = Some k) as ->.
    { unfold HV.validateUpgradeStep. rewrite Hupgrade. by destruct (Hv k u) as [-> ->]; [by left|]. }
    cbn. rewrite IH; [done|]. intros k' u' Hin. apply Hv. by right.
  - clear Hv. unfold om_sorted in Hs. induction (m.*1) as [|k l IH]; [constructor|]. destruct Hs as [Hk Hs]. constructor; [by apply IH|].
    apply Forall_forall. intros y Hy. specialize (Hk y Hy). cbn in Hk. by apply Z.ltb_lt in Hk.
Qed.

Lemma combine_ok cs w : I w -> cs <> [] -> Forall fullyValid cs ->
  exists sv svs ts w', HV.combineCandidates frame marshal sha256 sort checkTx decodeValue encodeValue decodeUpgrade encodeUpgrade numbers hv cs w = Ret (encodeValue sv) w' /\ I w' /\
    fullyValid (encodeValue sv) /\ mapM decodeValue cs = Some svs /\ Forall (fun s => closeTime s <= closeTime sv) svs /\
    (exists s, s ∈ svs /\ txSetHash s = txSetHash sv) /\ getTxSet hv (txSetHash sv) = Some ts /\
    forall s ts', s ∈ svs -> getTxSet hv (txSetHash s) = Some ts' -> (length (mTransactions ts') <= length (mTransactions ts))%nat.
Proof.
  intros Hw Hne Hall. unfold HV.combineCandidates, mbind at 1, M_bind at 1.
  destruct (gather_ok cs (HV.Build_Combined [] TS.zeroHash 0 []) w) as (cb & svs & -> & Hm & Hv & Hmap & Hbody & Ht); [by split; [|intros k u Hin; by apply not_elem_of_nil in Hin]|done|].
  cbn [HV.cbValues app] in Hv. cbn [HV.cbTime] in Ht. pose proof (bestTxSet_ok (HV.cbHash cb) svs) as Hbest. rewrite <- Hv in Hbest.
  assert (exists s0 ts0, s0 ∈ svs /\ getTxSet hv (txSetHash s0) = Some ts0 /\ setOk ts0 /\ bodyOk s0) as (s0 & ts0 & Hs0 & Hg0 & Hok0 & Hb0).
  { destruct svs as [|s0 svs]; [destruct cs as [|c cs]; [done|]; cbn in Hmap; destruct (decodeValue c); [|done]; cbn in Hmap; by destruct (mapM decodeValue cs)|]. apply Forall_cons in Hbody as [Hb _].
    pose proof Hb as (_ & ts0 & Hg & Hok). exists s0, ts0. split; [by left|done]. }
  destruct (HV.bestTxSet hv (HV.cbHash cb) (HV.cbValues cb)) as [[ts h]|] eqn:Eb; cbn in Hbest; rewrite Hv in Hbest.
  2:{ rewrite Forall_forall in Hbest. destruct (Hbest s0 Hs0 ts0 Hg0). by destruct Hok0 as [-> _]. }
  destruct Hbest as (Hg & (s1 & Hs1 & E1) & Hmax). rewrite Forall_forall in Hbody.
  assert (setOk ts) as Hok by (destruct (Hbody s1 Hs1) as (_ & ts1 & Hg1 & Hok1); congruence).
  destruct (trimmedHash_ok ts w Hw ltac:(apply Hok)) as (w' & Eh & Hw'). unfold mbind, M_bind. rewrite Eh, (Hcache h ts Hg).
  set (sv := Build_StellarValue _ _ _). exists sv, svs, ts, w'. destruct (foldl_max_spec (map closeTime svs) 0) as (M1 & M2 & M3). rewrite <- Ht in *.
  assert (Forall (fun s => closeTime s <= closeTime sv) svs) as Htimes.
  { apply Forall_forall. intros s Hs. rewrite Forall_forall in M2. apply M2. change (closeTime s ∈ closeTime <$> svs). by apply list_elem_of_fmap_2. }
  assert (HV.validateTimes hv (closeTime (scpValue (lclHeader hv))) sv = true) as Hvt.
  { destruct Hb0 as [Hv0 _]. unfold HV.validateTimes in *. rewrite Forall_forall in Htimes. specialize (Htimes s0 Hs0). zify_bool.
    assert (exists s2, s2 ∈ svs /\ closeTime s2 = closeTime sv \/ closeTime sv = closeTime s0) as (s2 & Hcase).
    { destruct M3 as [E|Hin]; [|apply list_elem_of_fmap in Hin as (s2 & E & Hin); exists s2; left; by split].
      exists s0. right. cbn [sv closeTime] in *. lia. }
    destruct Hcase as [[Hin E]|E]; [|rewrite E; apply andb_true_iff; rewrite !negb_true_iff, Z.leb_gt, Z.gtb_ltb, Z.ltb_ge; lia].
    destruct (Hbody s2 Hin) as [Hv2 _]. unfold HV.validateTimes in Hv2. rewrite E in Hv2. exact Hv2. }
  split_and!; try done.
  - exists sv. rewrite Hvalue. split; [done|]. split; [split; [done|]; by exists ts|]. cbn. by apply merged_steps.
  - exists s1. by split.
  - intros s ts' Hs Hgs. apply (Hmax s ts' Hs Hgs). destruct (Hbody s Hs) as (_ & t2 & Hg2 & Hok2). destruct Hok2 as [Hp2 _]. congruence.
Qed.

End HerderFacts.

(** * Properties of the values of the consensus *)

(** Upgrades that were validated are applied when the ledger closes. *)
Lemma steps_apply {Key Entry : Type} decodeUpgrade numbers hv us (c : Closing Key Entry) :
  stepsOk decodeUpgrade numbers hv us -> exists c', LC.applyUpgrades decodeUpgrade us c = Ret tt c'.
Proof.
  intros (ns & Hn & _). revert ns c Hn. induction us as [|up us IH]; intros ns c Hn; [by exists c|]. cbn in Hn.
  destruct (HV.validateUpgradeStep decodeUpgrade numbers hv up) as [n|] eqn:E; [|done]. cbn in Hn.
  destruct (mapM (HV.validateUpgradeStep decodeUpgrade numbers hv) us) as [ms|] eqn:Em; [|done].
  unfold HV.validateUpgradeStep in E. cbn [LC.applyUpgrades]. destruct (decodeUpgrade up) as [u|]; [|done]. destruct (HV.upgradeOk hv u) eqn:Eu; [|done].
  assert (exists c1, LC.applyUpgrade u c = Ret tt c1) as (c1 & E1) by (destruct u; try done; by eexists).
  unfold mbind, M_bind. rewrite E1. by apply (IH ms).
Qed.

Section Values.
Local Abbreviation Ptr := TransactionFramePtr.
Context {Sig St W : Type} (frame : Ptr -> Envelope Sig St) (marshal : Envelope Sig St -> list Z).
Context (sha256 : list Z -> Hash) (sort : (Ptr -> Ptr -> bool) -> list Ptr -> list Ptr) `{!SortOk sort}.
Context (checkTx : Ptr -> M W bool) (valid : Ptr -> bool) (I : W -> Prop).
Context (decodeValue : list Z -> option StellarValue) (encodeValue : StellarValue -> list Z).
Context (decodeUpgrade : list Z -> option LedgerUpgrade) (encodeUpgrade : LedgerUpgrade -> list Z) (maxUpgradeSize : Z).
Context (numbers : UpgradeNumbers) (hv : HerderView) (slot junk : Z).
Hypothesis Hcheck : forall p w, I w -> exists w', checkTx p w = Ret (valid p) w' /\ I w'.
Hypothesis Hcompat : HV.isSlotCompatibleWithCurrentState hv slot = true.
Hypothesis Hupgrade : forall u, decodeUpgrade (encodeUpgrade u) = Some u.
Hypothesis Hvalue : forall sv, decodeValue (encodeValue sv) = Some sv.

Local Abbreviation validate := (HV.validateValue frame sort checkTx decodeValue decodeUpgrade numbers hv junk slot).
Local Abbreviation extract := (HV.extractValidValue frame sort checkTx decodeValue encodeValue decodeUpgrade numbers hv slot).
Local Abbreviation combine := (HV.combineCandidates frame marshal sha256 sort checkTx decodeValue encodeValue decodeUpgrade encodeUpgrade numbers hv).


(** The types of the valid steps of a list. *)
Definition validTypes (us : list (list Z)) : list Z := omap (HV.validateUpgradeStep decodeUpgrade numbers hv) us.

(** A node can propose a value it calls invalid.  When both the expiration
    period of transactions and the protocol version are to be upgraded, the
    proposed value has the period before the version; if the number of
    [VERSION] is the smaller one, [validateValue] rejects the proposal
    for the order of its upgrades, although each of them is valid, and
    [extractValidValue] returns it as it is. *)
Theorem own_proposal_invalid setHash w : I w -> nVERSION numbers < nTX_EXPIRATION_PERIOD numbers ->
  txExpirationPeriod (lclHeader hv) <> CFG_TX_EXPIRATION_PERIOD hv -> ledgerVersion (lclHeader hv) <> LEDGER_PROTOCOL_VERSION hv ->
  maxTxSetSize (lclHeader hv) = DESIRED_MAX_TX_PER_LEDGER hv -> externalSystemIDGenerators (lclHeader hv) = availableGenerators hv ->
  Z.of_nat (length (encodeUpgrade (TX_EXPIRATION_PERIOD (CFG_TX_EXPIRATION_PERIOD hv)))) < maxUpgradeSize ->
  Z.of_nat (length (encodeUpgrade (VERSION (LEDGER_PROTOCOL_VERSION hv)))) < maxUpgradeSize ->
  let v := encodeValue (HV.proposedValue encodeUpgrade maxUpgradeSize hv setHash) in
  (exists w1, validate v w = Ret kInvalidValue w1) /\
  (bodyOk frame valid hv (HV.proposedValue encodeUpgrade maxUpgradeSize hv setHash) -> exists w1, extract v w = Ret v w1).
Proof.
  intros Hw Hlt H1 H2 H3 H4 Hs1 Hs2 v.
  assert (upgrades (HV.proposedValue encodeUpgrade maxUpgradeSize hv setHash) =
    [encodeUpgrade (TX_EXPIRATION_PERIOD (CFG_TX_EXPIRATION_PERIOD hv)); encodeUpgrade (VERSION (LEDGER_PROTOCOL_VERSION hv))]) as Hus.
  { cbn. unfold HV.proposedUpgrades. rewrite (proj2 (Z.eqb_neq _ _) H1), (proj2 (Z.eqb_neq _ _) H2), (proj2 (Z.eqb_eq _ _) H3), bool_decide_true by done. cbn.
    rewrite !Z.geb_leb, (proj2 (Z.leb_gt _ _) Hs1), (proj2 (Z.leb_gt _ _) Hs2). done. }
  assert (forall u, HV.upgradeOk hv u = true -> HV.validateUpgradeStep decodeUpgrade numbers hv (encodeUpgrade u) = Some (HV.upgradeType numbers u)) as Hstep.
  { intros u Hu. unfold HV.validateUpgradeStep. by rewrite Hupgrade, Hu. }
  assert (HV.upgradeOk hv (TX_EXPIRATION_PERIOD (CFG_TX_EXPIRATION_PERIOD hv)) = true) as O1 by (cbn; apply Z.eqb_refl).
  assert (HV.upgradeOk hv (VERSION (LEDGER_PROTOCOL_VERSION hv)) = true) as O2 by (cbn; apply Z.eqb_refl).
  split.
  - destruct (validateValue_spec frame sort checkTx valid I decodeValue decodeUpgrade numbers hv Hcheck slot Hcompat junk v w Hw) as (lev & w1 & E & _ & [[_ Hf]|[-> _]]); [|by exists w1].
    exfalso. destruct Hf as (sv & Hd & _ & ns & Hn & Hs). unfold v in Hd. rewrite Hvalue in Hd. injection Hd as <-. rewrite Hus in Hn. cbn [mapM] in Hn.
    rewrite (Hstep _ O1), (Hstep _ O2) in Hn. cbn in Hn. injection Hn as <-. apply StronglySorted_inv in Hs as [_ Hs]. apply Forall_inv in Hs. cbn in Hs. lia.
  - intros Hb. unfold HV.extractValidValue, v. rewrite Hvalue.
    destruct (helper_spec frame sort checkTx valid I hv Hcheck slot Hcompat (HV.proposedValue encodeUpgrade maxUpgradeSize hv setHash) w Hw) as (lev & w1 & E & _ & [[-> _]|[_ Hno]]); [|done].
    unfold mbind, M_bind. rewrite E. exists w1. rewrite bool_decide_true by done. unfold mret, M_ret. do 2 f_equal. unfold HV.withUpgrades. rewrite Hus. cbn [List.filter].
    rewrite (Hstep _ O1), (Hstep _ O2). rewrite <- Hus. done.
Qed.

End Values.

Section Extract.
Local Abbreviation Ptr := TransactionFramePtr.
Context {Sig St W : Type} (frame : Ptr -> Envelope Sig St).
Context (sort : (Ptr -> Ptr -> bool) -> list Ptr -> list Ptr) `{!SortOk sort}.
Context (checkTx : Ptr -> M W bool) (valid : Ptr -> bool) (I : W -> Prop).
Context (decodeValue : list Z -> option StellarValue) (encodeValue : StellarValue -> list Z) (decodeUpgrade : list Z -> option LedgerUpgrade).
Context (numbers : UpgradeNumbers) (hv : HerderView) (slot junk : Z).
Hypothesis Hcheck : forall p w, I w -> exists w', checkTx p w = Ret (valid p) w' /\ I w'.
Hypothesis Hvalue : forall sv, decodeValue (encodeValue sv) = Some sv.

Local Abbreviation step := (HV.validateUpgradeStep decodeUpgrade numbers hv).

(** The value without the upgrades that are not valid. *)
Definition kept (sv : StellarValue) : StellarValue :=
  HV.withUpgrades sv (List.filter (fun up => match step up with Some _ => true | None => false end) (upgrades sv)).

(** A slot other than the next one, or a node that is not synced: no value is
    fully validated. *)
Lemma helper_other sv w : HV.isSlotCompatibleWithCurrentState hv slot = false ->
  exists lev, HV.validateValueHelper frame sort checkTx hv slot sv w = Ret lev w /\ lev <> kFullyValidatedValue.
Proof. intros Hc. unfold HV.validateValueHelper. rewrite Hc. repeat case_match; by eexists. Qed.

Lemma kept_types sv : mapM step (upgrades (kept sv)) = Some (validTypes decodeUpgrade numbers hv (upgrades sv)).
Proof.
  unfold kept, validTypes. cbn [upgrades HV.withUpgrades]. induction (upgrades sv) as [|up l IH]; [done|]. cbn.
  destruct (step up) as [n|] eqn:En; [|done]. cbn. by rewrite En, IH.
Qed.

(** C33. What can be kept of a value.  [extractValidValue] gives nothing if the
    value cannot be decoded, or if the node is not synced or the slot is not
    the one after its last closed ledger.  For that slot it gives nothing if
    the times or the transaction set of the value are not valid, and otherwise
    the value without the upgrades that are not valid.  That value is fully
    validated if and only if the types of the upgrades that are left
    increase: the order of the upgrades, which [validateValue] checks, is not
    repaired, and then a value that is not valid is returned.  Assumed are
    that encoded values can be decoded and that the verdict on a transaction
    does not depend on caches. *)
Theorem extracted_value_valid v w : I w ->
  exists r w1, HV.extractValidValue frame sort checkTx decodeValue encodeValue decodeUpgrade numbers hv slot v w = Ret r w1 /\
  match decodeValue v with
  | None => r = []
  | Some sv =>
      if HV.isSlotCompatibleWithCurrentState hv slot then
        (~ bodyOk frame valid hv sv /\ r = []) \/
        (bodyOk frame valid hv sv /\ r = encodeValue (kept sv) /\
         exists lev w2, HV.validateValue frame sort checkTx decodeValue decodeUpgrade numbers hv junk slot r w1 = Ret lev w2 /\
           (StronglySorted Z.lt (validTypes decodeUpgrade numbers hv (upgrades sv)) /\ lev = kFullyValidatedValue \/
            ~ StronglySorted Z.lt (validTypes decodeUpgrade numbers hv (upgrades sv)) /\ lev = kInvalidValue))
      else r = []
  end.
Proof.
  intros Hw. unfold HV.extractValidValue. destruct (decodeValue v) as [sv|]; [|by exists [], w].
  destruct (HV.isSlotCompatibleWithCurrentState hv slot) eqn:Hcompat.
  2:{ destruct (helper_other sv w Hcompat) as (lev & E & Hne). unfold mbind, M_bind. rewrite E, bool_decide_false by done. by exists [], w. }
  destruct (helper_spec frame sort checkTx valid I hv Hcheck slot Hcompat sv w Hw) as (lev & w1 & E & Hw1 & [[-> Hb]|[-> Hb]]); unfold mbind, M_bind; rewrite E.
  2:{ exists [], w1. split; [done|]. by left. }
  eexists _, w1. split; [done|]. right. split; [done|]. rewrite bool_decide_true by done. split; [done|].
  destruct (validateValue_spec frame sort checkTx valid I decodeValue decodeUpgrade numbers hv Hcheck slot Hcompat junk (encodeValue (kept sv)) w1 Hw1)
    as (lev & w2 & E2 & _ & Hl). exists lev, w2. split; [done|]. destruct Hl as [[-> Hf]|[-> Hf]].
  - left. split; [|done]. destruct Hf as (sv' & Hd & _ & ns & Hn & Hs). rewrite Hvalue in Hd. injection Hd as <-. rewrite kept_types in Hn. by injection Hn as <-.
  - right. split; [|done]. intros Hs. apply Hf. exists (kept sv). split; [by rewrite Hvalue|]. split; [exact Hb|].
    exists (validTypes decodeUpgrade numbers hv (upgrades sv)). split; [apply kept_types|done].
Qed.

End Extract.

(** ** An example *)

(** A simple encoding of values and upgrades. *)
Definition encodeV (sv : StellarValue) : list Z :=
  Z.of_nat (length (txSetHash sv)) :: txSetHash sv ++ closeTime sv :: concat (map (fun u => Z.of_nat (length u) :: u) (upgrades sv)).

Fixpoint decodeUs (fuel : nat) (l : list Z) : option (list (list Z)) :=
  match l, fuel with
  | [], _ => Some []
  | n :: r, Datatypes.S f => us ← decodeUs f (drop (Z.to_nat n) r); Some (take (Z.to_nat n) r :: us)
  | _, O => None
  end.

Definition decodeV (l : list Z) : option StellarValue :=
  match l with
  | [] => None
  | n :: r => match drop (Z.to_nat n) r with
              | [] => None
              | t :: q => us ← decodeUs (length q) q; Some {| txSetHash := take (Z.to_nat n) r; closeTime := t; upgrades := us |}
              end
  end.

Lemma decodeUs_encode us fuel : (length us <= fuel)%nat -> decodeUs fuel (concat (map (fun u => Z.of_nat (length u) :: u) us)) = Some us.
Proof.
  revert fuel. induction us as [|u us IH]; intros fuel Hf; [by destruct fuel|]. destruct fuel as [|fuel]; [cbn in Hf; lia|]. cbn. rewrite Nat2Z.id, drop_app_length, take_app_length, IH by (cbn in Hf; lia). done.
Qed.

Lemma decode_encodeV sv : decodeV (encodeV sv) = Some sv.
Proof.
  unfold decodeV, encodeV. rewrite Nat2Z.id, drop_app_length, take_app_length, decodeUs_encode; [by destruct sv|].
  induction (upgrades sv) as [|u us IH]; [done|]. cbn. rewrite length_app. lia.
Qed.

Definition encodeU (u : LedgerUpgrade) : list Z :=
  match u with VERSION v => [1; v] | MAX_TX_SET_SIZE n => [2; n] | EXTERNAL_SYSTEM_ID_GENERATOR gs => 3 :: gs | TX_EXPIRATION_PERIOD p => [4; p] | UNKNOWN_UPGRADE t => [5; t] end.

Definition decodeU (l : list Z) : option LedgerUpgrade :=
  match l with
  | [1; v] => Some (VERSION v) | [2; n] => Some (MAX_TX_SET_SIZE n) | 3 :: gs => Some (EXTERNAL_SYSTEM_ID_GENERATOR gs)
  | [4; p] => Some (TX_EXPIRATION_PERIOD p) | [5; t] => Some (UNKNOWN_UPGRADE t) | _ => None
  end.

Lemma decode_encodeU u : decodeU (encodeU u) = Some u.
Proof. by destruct u. Qed.

Definition xNumbers : UpgradeNumbers := {| nVERSION := 1; nMAX_TX_SET_SIZE := 2; nEXTERNAL_SYSTEM_ID_GENERATOR := 3; nTX_EXPIRATION_PERIOD := 4 |}.

(** A node that knows two transaction sets and wants a new version and period. *)
Definition xView : HerderView :=
  {| mTrackingSCP := None; isSynced := true; lclHeader := xHeader 7 40 []; lclHash := [0]; timeNow := 100;
     getTxSet := fun h => if bool_decide (h = [1; 0; 1; 2]) then Some (xSet [0] [1; 2]) else if bool_decide (h = [1; 0; 1]) then Some (xSet [0] [1]) else None;
     LEDGER_PROTOCOL_VERSION := 2; DESIRED_MAX_TX_PER_LEDGER := 100; CFG_TX_EXPIRATION_PERIOD := 2000;
     areAllExternalSystemGeneratorsAvailable := fun _ => true; availableGenerators := [] |}.

Definition xCheck (p : TransactionFramePtr) : M unit bool := mret (p <? 3).

Lemma xCheck_ok p (w : unit) : True -> exists w', xCheck p w = Ret (p <? 3) w' /\ True.
Proof. intros _. by exists w. Qed.

Definition xCandidates : list (list Z) :=
  [encodeV {| txSetHash := [1; 0; 1]; closeTime := 60; upgrades := [encodeU (VERSION 2)] |};
   encodeV {| txSetHash := [1; 0; 1; 2]; closeTime := 50; upgrades := [encodeU (TX_EXPIRATION_PERIOD 2000)] |}].


Lemma extracted_value_valid_witness : exists r w1,
  HV.extractValidValue xFrame isort xCheck decodeV encodeV decodeU xNumbers xView 8 (encodeV {| txSetHash := [1; 0; 1]; closeTime := 60; upgrades := [[4; 2000]; [9]; [1; 2]] |}) tt = Ret r w1 /\
  r = encodeV {| txSetHash := [1; 0; 1]; closeTime := 60; upgrades := [[4; 2000]; [1; 2]] |} /\
  HV.validateValue xFrame isort xCheck decodeV decodeU xNumbers xView 0 8 r w1 = Ret kInvalidValue tt.
Proof.
  destruct (extracted_value_valid xFrame isort xCheck (fun p => p <? 3) (fun _ => True) decodeV encodeV decodeU xNumbers xView 8 0
    xCheck_ok decode_encodeV (encodeV {| txSetHash := [1; 0; 1]; closeTime := 60; upgrades := [[4; 2000]; [9]; [1; 2]] |}) tt I) as (r & w1 & H1 & _).
  exists r, w1. split; [done|]. destruct w1. vm_compute in H1. injection H1 as <-. split; vm_compute; reflexivity.
Defined.

Lemma own_proposal_invalid_witness :
  let v := encodeV (HV.proposedValue encodeU 100 xView [1; 0; 1]) in
  (exists w1, HV.validateValue xFrame isort xCheck decodeV decodeU xNumbers xView 0 8 v tt = Ret kInvalidValue w1) /\
  (bodyOk xFrame (fun p => p <? 3) xView (HV.proposedValue encodeU 100 xView [1; 0; 1]) ->
   exists w1, HV.extractValidValue xFrame isort xCheck decodeV encodeV decodeU xNumbers xView 8 v tt = Ret v w1).
Proof.
  apply (own_proposal_invalid xFrame isort xCheck (fun p => p <? 3) (fun _ => True) decodeV encodeV decodeU encodeU 100 xNumbers xView 8 0
    xCheck_ok eq_refl decode_encodeU decode_encodeV [1; 0; 1] tt I); done.
Defined.
