(* ===== verification/HerderTxs.v ===== *)
(** * Pending transactions ([herder/HerderImpl.cpp])

    The transactions a node has received and that are not in a ledger yet, by
    age in closed ledgers and by account, and the set it proposes from them. *)

From stdpp Require Import sorting.
From S2P Require Import Prelude OrdContainers Signatures Transaction TxSet TxSetFacts.

(** [HerderImpl::TxMap]; hash maps are maps by key. *)
Record TxMap := {
  mTotalFees : Z;
  tmTransactions : list (Hash * TransactionFramePtr);
}.

Notation AccountTxMap := (list (PublicKey * TxMap)).

Inductive TransactionSubmitStatus := TX_STATUS_PENDING | TX_STATUS_DUPLICATE | TX_STATUS_ERROR.

Module PT.
Section PT.
Local Abbreviation Ptr := TransactionFramePtr.
Context {Sig St W : Type} (frame : Ptr -> Envelope Sig St) (marshal : Envelope Sig St -> list Z).
Context (sha256 : list Z -> Hash) (sort : (Ptr -> Ptr -> bool) -> list Ptr -> list Ptr).
Context (checkTx : Ptr -> M W bool).
Implicit Types (p : Ptr) (tm : TxMap) (m : AccountTxMap) (pending : list AccountTxMap).

Definition newPending : list AccountTxMap := replicate 4 [].

Definition addTx p tm : TxMap :=
  let h := TS.getFullHash frame p in
  match om_find h (tmTransactions tm) with
  | Some _ => tm
  | None => {| mTotalFees := i64 (mTotalFees tm + TS.getPaidFee frame p); tmTransactions := om_set h p (tmTransactions tm) |}
  end.

Definition sumFees (l : list (Hash * Ptr)) : Z := fold_left (fun n e => i64 (n + TS.getPaidFee frame e.2)) l 0.

Definition recalculate tm : TxMap := {| mTotalFees := sumFees (tmTransactions tm); tmTransactions := tmTransactions tm |}.

Definition findOrAdd m (aid : PublicKey) : TxMap := default {| mTotalFees := 0; tmTransactions := [] |} (om_find aid m).

Definition hasTx p m : bool :=
  match om_find (TS.getSourceID frame p) m with
  | None => false
  | Some tm => bool_decide (is_Some (om_find (TS.getFullHash frame p) (tmTransactions tm)))
  end.

(** [totFee], which is summed up in the loop, is not used. *)
Definition recvTransaction p : M (list AccountTxMap * W) TransactionSubmitStatus := fun s =>
  if existsb (hasTx p) s.1 then Ret TX_STATUS_DUPLICATE s else
  match checkTx p s.2 with
  | Throw e w => Throw e (s.1, w)
  | Ret false w => Ret TX_STATUS_ERROR (s.1, w)
  | Ret true w =>
      let acc := TS.getSourceID frame p in
      match s.1 with
      | [] => Ret TX_STATUS_PENDING (s.1, w)
      | m :: r => Ret TX_STATUS_PENDING (om_set acc (addTx p (findOrAdd m acc)) m :: r, w)
      end
  end.

(** One transaction is dropped from a level; the accounts whose fees are to be
    added up again. *)
Definition dropTx (st : AccountTxMap * list PublicKey) p : AccountTxMap * list PublicKey :=
  let '(m, toRecalculate) := st in
  let acc := TS.getSourceID frame p in
  match om_find acc m with
  | None => st
  | Some tm =>
      match om_find (TS.getFullHash frame p) (tmTransactions tm) with
      | None => st
      | Some _ =>
          let txs := om_erase (TS.getFullHash frame p) (tmTransactions tm) in
          match txs with
          | [] => (om_erase acc m, toRecalculate)
          | _ => (om_set acc {| mTotalFees := mTotalFees tm; tmTransactions := txs |} m, os_insert acc toRecalculate)
          end
      end
  end.

Definition recalculateAll (accs : list PublicKey) m : AccountTxMap :=
  fold_left (fun m acc => match om_find acc m with Some tm => om_set acc (recalculate tm) m | None => m end) accs m.

Definition removeLevel (dropTxs : list Ptr) m : AccountTxMap :=
  let '(m', toRecalculate) := fold_left dropTx dropTxs (m, []) in recalculateAll toRecalculate m'.

Definition removeReceivedTxs (dropTxs : list Ptr) pending : list AccountTxMap := map (removeLevel dropTxs) pending.

(** The transactions of all levels. *)
Definition allTxs pending : list Ptr := concat (map (fun m => concat (map (fun e => (tmTransactions e.2).*2) m)) pending).

(** The pending transactions, and those that are broadcast again. *)
Definition updatePendingTransactions (applied : list Ptr) pending : list AccountTxMap * outcome TxSetFrame (list Ptr) :=
  let pending := removeReceivedTxs applied pending in
  let pending := [] :: removelast pending in
  (pending, TS.sortForApply frame marshal sha256 sort (TS.setTransactions (allTxs pending) (TS.newTxSet TS.zeroHash))).

(** The first half of [triggerNextLedger]: the set that is proposed. *)
Definition proposeSet (lclHash : Hash) (maxTxSetSize : Z) : M (list AccountTxMap * W) TxSetFrame := fun s =>
  match TS.trimInvalid frame sort checkTx (TS.setTransactions (allTxs s.1) (TS.newTxSet lclHash), s.2) with
  | Throw e (_, w) => Throw e (s.1, w)
  | Ret removed (ts, w) =>
      let pending := removeReceivedTxs removed s.1 in
      match TS.surgePricingFilter frame sort (Z.to_nat maxTxSetSize) ts with
      | Throw e _ => Throw e (pending, w)
      | Ret _ ts =>
          match TS.checkValid frame sort checkTx lclHash maxTxSetSize ts w with
          | Throw e w => Throw e (pending, w)
          | Ret false w => Throw (RuntimeError "wanting to emit an invalid txSet") (pending, w)
          | Ret true w => Ret ts (pending, w)
          end
      end
  end.

End PT.
End PT.

(** ** Sums of fees *)

Lemma i64_add_l a b : i64 (i64 a + b) = i64 (a + b).
Proof.
  unfold i64.
  replace (a + b + 9223372036854775808) with (a + 9223372036854775808 + b) by lia.
  replace ((a + 9223372036854775808) `mod` 18446744073709551616 - 9223372036854775808 + b + 9223372036854775808)
    with ((a + 9223372036854775808) `mod` 18446744073709551616 + b) by lia.
  by rewrite Zplus_mod_idemp_l.
Qed.

Lemma sumFees_wrapped {Sig St} (frame : TransactionFramePtr -> Envelope Sig St) l :
  PT.sumFees frame l = i64 (foldr (fun e s => TS.getPaidFee frame e.2 + s) 0 l).
Proof.
  assert (forall n, fold_left (fun n e => i64 (n + TS.getPaidFee frame (snd e))) l (i64 n) =
    i64 (n + foldr (fun (e : Hash * _) s => TS.getPaidFee frame e.2 + s) 0 l)) as Hf; [|exact (Hf 0)].
  induction l as [|e k IH]; intros n; cbn; [by rewrite Z.add_0_r|]. rewrite i64_add_l, IH. f_equal. lia.
Qed.

Lemma sumFees_perm {Sig St} (frame : TransactionFramePtr -> Envelope Sig St) l l' : l ≡ₚ l' ->
  PT.sumFees frame l = PT.sumFees frame l'.
Proof. intros Hp. rewrite !sumFees_wrapped. f_equal. induction Hp; cbn; lia. Qed.

(** ** What is pending

    A transaction is looked up by its account and its hash; [pendingTx] is the
    level it is found at and its pointer. *)
Section Facts.
Local Abbreviation Ptr := TransactionFramePtr.
Local Abbreviation Key := (PublicKey * Hash)%type.
Context {Sig St : Type} (frame : Ptr -> Envelope Sig St).
Implicit Types (p q : Ptr) (tm : TxMap) (m : AccountTxMap) (pending : list AccountTxMap) (k : Key) (drop : list Ptr).
Local Abbreviation acc := (TS.getSourceID frame).
Local Abbreviation hash := (TS.getFullHash frame).

Definition txKey p : Key := (acc p, hash p).

Definition levelTx m k : option Ptr := om_find k.1 m ≫= fun tm => om_find k.2 (tmTransactions tm).

Fixpoint pendingTx pending k : option (nat * Ptr) :=
  match pending with
  | [] => None
  | m :: r => match levelTx m k with Some p => Some (0%nat, p) | None => prod_map S id <$> pendingTx r k end
  end.

(** The transactions of an account are under their hashes, and there are some. *)
Record txMapOk (a : PublicKey) tm : Prop := {
  to_sorted : om_sorted (tmTransactions tm);
  to_keys : forall h q, om_find h (tmTransactions tm) = Some q -> txKey q = (a, h);
  to_some : tmTransactions tm <> [];
}.

Definition feesOk tm : Prop := mTotalFees tm = PT.sumFees frame (tmTransactions tm).

Record levelOk m : Prop := {
  lo_sorted : om_sorted m;
  lo_maps : forall a tm, om_find a m = Some tm -> txMapOk a tm;
}.

Definition levelFees m : Prop := forall a tm, om_find a m = Some tm -> feesOk tm.

Record pendingOk pending : Prop := {
  po_levels : length pending = 4%nat;
  po_ok : Forall levelOk pending;
  po_fees : Forall levelFees pending;
  po_once : forall i j m m' k, pending !! i = Some m -> pending !! j = Some m' ->
    is_Some (levelTx m k) -> is_Some (levelTx m' k) -> i = j;
}.

(** *** Lookup *)

Lemma hasTx_spec p m : PT.hasTx frame p m = bool_decide (is_Some (levelTx m (txKey p))).
Proof.
  unfold PT.hasTx, levelTx, txKey. cbn. by destruct (om_find _ m).
Qed.

Lemma pendingTx_cons m r k : pendingTx (m :: r) k = match levelTx m k with Some p => Some (0%nat, p) | None => prod_map S id <$> pendingTx r k end.
Proof. done. Qed.

Lemma existsb_hasTx p pending : existsb (PT.hasTx frame p) pending = bool_decide (is_Some (pendingTx pending (txKey p))).
Proof.
  induction pending as [|m r IH]; cbn [existsb]; [symmetry; apply bool_decide_eq_false; by intros [? ?]|].
  rewrite hasTx_spec, IH, pendingTx_cons. destruct (levelTx m _) as [q|].
  - by rewrite !bool_decide_eq_true_2 by eauto.
  - rewrite bool_decide_eq_false_2 by by intros [? ?]. cbn. apply bool_decide_ext. by rewrite fmap_is_Some.
Qed.

Lemma pendingTx_lookup pending k i p : pendingTx pending k = Some (i, p) -> exists m, pending !! i = Some m /\ levelTx m k = Some p.
Proof.
  revert i. induction pending as [|m r IH]; intros i; [done|]. rewrite pendingTx_cons.
  destruct (levelTx m k) as [q|] eqn:E; [intros [= <- <-]; by exists m|].
  destruct (pendingTx r k) as [[j q]|]; [|done]. cbn. intros [= <- <-]. by apply IH.
Qed.

Lemma pendingTx_None pending k : pendingTx pending k = None <-> Forall (fun m => levelTx m k = None) pending.
Proof.
  induction pending as [|m r IH]; [done|]. rewrite pendingTx_cons, Forall_cons, <- IH.
  destruct (levelTx m k); [naive_solver|]. rewrite fmap_None. naive_solver.
Qed.

Lemma lookup_pendingTx pending k i m p : pendingOk pending -> pending !! i = Some m -> levelTx m k = Some p ->
  pendingTx pending k = Some (i, p).
Proof.
  intros Hok Hi Hp. destruct (pendingTx pending k) as [[j q]|] eqn:E.
  - apply pendingTx_lookup in E as (m' & Hj & Hq). assert (i = j) as <- by (eapply (po_once _ Hok); eauto). naive_solver.
  - apply pendingTx_None in E. rewrite Forall_lookup in E. specialize (E i m Hi). cbn in E. congruence.
Qed.

Lemma levelTx_key m k p : levelOk m -> levelTx m k = Some p -> txKey p = k.
Proof.
  intros Hm. unfold levelTx. destruct (om_find k.1 m) as [tm|] eqn:E; [|done]. cbn. intros Hp.
  rewrite (to_keys _ _ (lo_maps _ Hm _ _ E) _ _ Hp). by destruct k.
Qed.

Lemma pendingTx_key pending k i p : pendingOk pending -> pendingTx pending k = Some (i, p) -> txKey p = k.
Proof.
  intros Hok (m & Hi & Hp)%pendingTx_lookup. eapply levelTx_key; [|done].
  pose proof (po_ok _ Hok) as Hf. rewrite Forall_lookup in Hf. eauto.
Qed.

Lemma elem_of_level m p : levelOk m -> p ∈ concat (map (fun e => (tmTransactions e.2).*2) m) <-> levelTx m (txKey p) = Some p.
Proof.
  intros Hm. rewrite list_elem_of_In, in_concat. setoid_rewrite in_map_iff. setoid_rewrite <- list_elem_of_In. split.
  - intros (? & ([a tm] & <- & Ha) & Hp). cbn in Hp. apply list_elem_of_fmap in Hp as ([h q] & -> & Hq).
    apply elem_om_find in Ha; [|apply Hm]. pose proof (lo_maps _ Hm _ _ Ha) as Ht.
    apply elem_om_find in Hq; [|apply Ht]. cbn. unfold levelTx. rewrite (to_keys _ _ Ht _ _ Hq). cbn. by rewrite Ha.
  - unfold levelTx. destruct (om_find _ m) as [tm|] eqn:E; [|done]. cbn. intros Hp.
    apply om_find_elem in E, Hp. exists (tmTransactions tm).*2. split; [by exists (acc p, tm)|].
    apply list_elem_of_fmap. by exists (hash p, p).
Qed.

Lemma elem_of_allTxs pending p : pendingOk pending -> p ∈ PT.allTxs pending <-> exists i, pendingTx pending (txKey p) = Some (i, p).
Proof.
  intros Hok. pose proof (po_ok _ Hok) as Hf. rewrite Forall_forall in Hf.
  unfold PT.allTxs. rewrite list_elem_of_In, in_concat. setoid_rewrite in_map_iff. setoid_rewrite <- list_elem_of_In. split.
  - intros (? & (m & <- & Hm) & Hp). apply elem_of_level in Hp; [|by apply Hf].
    apply list_elem_of_lookup in Hm as (i & Hi). exists i. by eapply lookup_pendingTx.
  - intros (i & Hp). apply pendingTx_lookup in Hp as (m & Hi & Hp). eexists. split; [by eexists; split; [|eapply list_elem_of_lookup_2]|].
    apply elem_of_level; [|done]. eapply Hf, list_elem_of_lookup_2. eassumption.
Qed.

(** *** Changing the transactions of one account *)

Lemma txKey_split k p : bool_decide (k = txKey p) = eqvb (acc p) k.1 && eqvb (hash p) k.2.
Proof.
  apply eq_true_iff_eq. rewrite bool_decide_eq_true, andb_true_iff, !eqvb_eq. unfold txKey. destruct k. naive_solver.
Qed.

Lemma levelTx_set a tm m k : levelTx (om_set a tm m) k = if eqvb a k.1 then om_find k.2 (tmTransactions tm) else levelTx m k.
Proof. unfold levelTx. rewrite om_find_set. by destruct (eqvb a k.1). Qed.

Lemma levelOk_set a tm m : levelOk m -> txMapOk a tm -> levelOk (om_set a tm m).
Proof.
  intros Hm Ht. split; [apply om_set_sorted, Hm|]. intros b tm'. rewrite om_find_set.
  destruct (eqvb a b) eqn:E; [|apply Hm]. apply eqvb_eq in E as <-. by intros [= <-].
Qed.

Lemma levelTx_erase a m k : levelTx (om_erase a m) k = if eqvb a k.1 then None else levelTx m k.
Proof. unfold levelTx. rewrite om_find_erase. by destruct (eqvb a k.1). Qed.

Lemma levelOk_erase a m : levelOk m -> levelOk (om_erase a m).
Proof.
  intros Hm. split; [apply om_erase_sorted, Hm|]. intros b tm'. rewrite om_find_erase. destruct (eqvb a b); [done|apply Hm].
Qed.

(** *** Adding a transaction *)

Lemma findOrAdd_ok m a : levelOk m -> let tm := PT.findOrAdd m a in
  om_sorted (tmTransactions tm) /\ (forall h q, om_find h (tmTransactions tm) = Some q -> txKey q = (a, h)) /\
  (levelFees m -> feesOk tm) /\ forall h, om_find h (tmTransactions tm) = levelTx m (a, h).
Proof.
  intros Hm. unfold PT.findOrAdd, levelTx. cbn. destruct (om_find a m) as [tm|] eqn:E; cbn; [|done].
  pose proof (lo_maps _ Hm _ _ E) as [Hs Hk _]. naive_solver.
Qed.

Lemma addTx_new p tm : om_find (hash p) (tmTransactions tm) = None ->
  tmTransactions (PT.addTx frame p tm) = om_set (hash p) p (tmTransactions tm) /\
  (feesOk tm -> feesOk (PT.addTx frame p tm)).
Proof.
  intros Hn. unfold PT.addTx. rewrite Hn. split; [done|]. unfold feesOk. cbn [mTotalFees tmTransactions]. intros ->.
  rewrite (sumFees_perm frame (om_set _ _ _) ((hash p, p) :: tmTransactions tm)) by by apply om_set_new_perm.
  rewrite !sumFees_wrapped, i64_add_l. f_equal. cbn. lia.
Qed.

Lemma addLevel_spec p m : levelOk m -> levelFees m -> levelTx m (txKey p) = None ->
  let m' := om_set (acc p) (PT.addTx frame p (PT.findOrAdd m (acc p))) m in
  levelOk m' /\ levelFees m' /\ forall k, levelTx m' k = if bool_decide (k = txKey p) then Some p else levelTx m k.
Proof.
  intros Hm Hfe Hn. destruct (findOrAdd_ok m (acc p) Hm) as (Hs & Hk & Hf & Hl). cbn zeta.
  destruct (addTx_new p (PT.findOrAdd m (acc p))) as [Ht Hf']; [by rewrite Hl|]. split_and!.
  - apply levelOk_set; [done|]. split; rewrite Ht; [by apply om_set_sorted| |].
    + intros h q. rewrite om_find_set. destruct (eqvb (hash p) h) eqn:E; [|apply Hk]. apply eqvb_eq in E as <-. by intros [= <-].
    + intros Hnil. pose proof (om_find_set_eq (hash p) p (tmTransactions (PT.findOrAdd m (acc p)))) as Hq. by rewrite Hnil in Hq.
  - intros a tm. rewrite om_find_set. destruct (eqvb (acc p) a); [|apply Hfe]. intros [= <-]. auto.
  - intros k. rewrite levelTx_set, txKey_split, Ht, om_find_set, Hl. destruct (eqvb (acc p) k.1) eqn:E; cbn [andb]; [|done].
    apply eqvb_eq in E as ->. by destruct k, (eqvb (hash p) _).
Qed.

(** *** Dropping transactions *)

(** The state of the loop: the fees of the noted accounts may be outdated. *)
Record dropOk (st : AccountTxMap * list PublicKey) : Prop := {
  do_level : levelOk st.1;
  do_fees : forall a tm, om_find a st.1 = Some tm -> a ∉ st.2 -> feesOk tm;
}.

Lemma eraseTx_spec p m tm : om_find (acc p) m = Some tm -> forall k,
  (if eqvb (acc p) k.1 then om_find k.2 (om_erase (hash p) (tmTransactions tm)) else levelTx m k) =
  if bool_decide (k = txKey p) then None else levelTx m k.
Proof.
  intros Ha k. rewrite txKey_split. destruct (eqvb (acc p) k.1) eqn:E; cbn [andb]; [|done].
  rewrite om_find_erase. unfold levelTx. apply eqvb_eq in E as <-. rewrite Ha. by destruct (eqvb _ k.2).
Qed.

Lemma dropTx_spec st p : dropOk st -> let st' := PT.dropTx frame st p in
  dropOk st' /\ forall k, levelTx st'.1 k = if bool_decide (k = txKey p) then None else levelTx st.1 k.
Proof.
  intros Hok. pose proof Hok as [Hm Hf]. destruct st as [m rec]. cbn [fst snd] in *. cbn zeta. unfold PT.dropTx.
  assert (Hsame : levelTx m (txKey p) = None -> forall k, levelTx m k = if bool_decide (k = txKey p) then None else levelTx m k).
  { intros Hn k. by case_bool_decide as E; [rewrite E|]. }
  unfold levelTx at 1 in Hsame. cbn in Hsame.
  destruct (om_find (acc p) m) as [tm|] eqn:Ea; [|by split; [|apply Hsame]]. cbn in Hsame.
  destruct (om_find (hash p) (tmTransactions tm)) as [q|] eqn:Eh; [|by split; [|apply Hsame]].
  pose proof (eraseTx_spec p m tm Ea) as Her. pose proof (lo_maps _ Hm _ _ Ea) as Hto.
  destruct (om_erase (hash p) (tmTransactions tm)) as [|e txs] eqn:Et; cbn [fst snd].
  - split; [|intros k; by rewrite levelTx_erase, <- Her].
    split; cbn [fst snd]; [by apply levelOk_erase|]. intros a tm'. rewrite om_find_erase. destruct (eqvb _ a); [done|apply Hf].
  - split; [|intros k; by rewrite levelTx_set, <- Her]. split; cbn [fst snd].
    + apply levelOk_set; [done|]. split; cbn [tmTransactions]; rewrite <- Et; [apply om_erase_sorted, Hto| |by rewrite Et].
      intros h q'. rewrite om_find_erase. destruct (eqvb _ h); [done|apply Hto].
    + intros a tm'. rewrite om_find_set. setoid_rewrite elem_of_os_insert. destruct (eqvb _ a) eqn:E; [|naive_solver].
      apply eqvb_eq in E as <-. naive_solver.
Qed.

Lemma dropAll_spec drop st : dropOk st -> let st' := fold_left (PT.dropTx frame) drop st in
  dropOk st' /\ forall k, levelTx st'.1 k = if bool_decide (k ∈ map txKey drop) then None else levelTx st.1 k.
Proof.
  revert st. induction drop as [|p drop IH]; intros st Hst; cbn [fold_left map].
  - split; [done|]. intros k. rewrite bool_decide_eq_false_2; [done|]. apply not_elem_of_nil.
  - destruct (dropTx_spec st p Hst) as [Hst' Hk]. destruct (IH _ Hst') as [Hst'' Hk']. split; [done|]. intros k.
    rewrite Hk', Hk. rewrite (bool_decide_ext (k ∈ txKey p :: map txKey drop) _ (elem_of_cons _ _ _)).
    rewrite bool_decide_or. by repeat case_bool_decide.
Qed.

Lemma recalculateAll_spec accs m : levelOk m -> (forall a tm, om_find a m = Some tm -> a ∉ accs -> feesOk tm) ->
  let m' := PT.recalculateAll frame accs m in
  levelOk m' /\ levelFees m' /\ forall k, levelTx m' k = levelTx m k.
Proof.
  revert m. induction accs as [|b accs IH]; intros m Hm Hf; cbn.
  - split; [done|]. split; [|done]. intros a tm Ha. eapply Hf; [done|apply not_elem_of_nil].
  - destruct (om_find b m) as [tm|] eqn:Eb.
    + destruct (IH (om_set b (PT.recalculate frame tm) m)) as (H1 & H2 & H3).
      * apply levelOk_set; [done|]. by destruct (lo_maps _ Hm _ _ Eb).
      * intros a tm'. rewrite om_find_set. destruct (eqvb b a) eqn:E; [by intros [= <-]|].
        intros Ha Hn. apply (Hf _ _ Ha). rewrite elem_of_cons. intros [->|]; [by rewrite eqvb_refl in E|done].
      * split; [done|]. split; [done|]. intros k. etrans; [apply H3|]. rewrite levelTx_set. destruct (eqvb b k.1) eqn:E; [|done].
        apply eqvb_eq in E as ->. unfold levelTx. by rewrite Eb.
    + apply IH; [done|]. intros a tm Ha Hn. apply (Hf _ _ Ha). rewrite elem_of_cons. intros [->|]; [congruence|done].
Qed.

Lemma removeLevel_spec drop m : levelOk m -> levelFees m -> let m' := PT.removeLevel frame drop m in
  levelOk m' /\ levelFees m' /\ forall k, levelTx m' k = if bool_decide (k ∈ map txKey drop) then None else levelTx m k.
Proof.
  intros Hm Hf. cbn. unfold PT.removeLevel. destruct (dropAll_spec drop (m, [])) as [Hst Hk]; [split; [done|intros ? ? ? _; by eapply Hf]|].
  destruct (fold_left _ drop _) as [m' rec]. cbn in Hk. destruct (recalculateAll_spec rec m') as (H1 & H2 & H3); [apply Hst..|].
  split; [done|]. split; [done|]. intros k. etrans; [apply H3|apply Hk].
Qed.

(** *** All levels *)

Lemma removeReceivedTxs_tx drop pending k : Forall levelOk pending -> Forall levelFees pending ->
  pendingTx (PT.removeReceivedTxs frame drop pending) k = if bool_decide (k ∈ map txKey drop) then None else pendingTx pending k.
Proof.
  intros Hok Hf. induction pending as [|m r IH]; [by destruct (bool_decide _)|].
  apply Forall_cons in Hok as [Hm Hok], Hf as [Hfm Hf]. cbn. destruct (removeLevel_spec drop m Hm Hfm) as (_ & _ & ->).
  unfold PT.removeReceivedTxs in IH. rewrite IH by done. by destruct (bool_decide _).
Qed.

Lemma removeReceivedTxs_ok drop pending : pendingOk pending -> pendingOk (PT.removeReceivedTxs frame drop pending).
Proof.
  intros [Hl Hok Hf Ho]. assert (Hall : Forall (fun m => levelOk m /\ levelFees m) pending) by by apply Forall_and.
  split; unfold PT.removeReceivedTxs.
  - by rewrite length_map.
  - apply Forall_map. eapply Forall_impl; [exact Hall|]. intros m [? ?]. by apply removeLevel_spec.
  - apply Forall_map. eapply Forall_impl; [exact Hall|]. intros m [? ?]. by apply removeLevel_spec.
  - intros i j m m' k. rewrite !list_lookup_fmap. rewrite Forall_lookup in Hall.
    destruct (pending !! i) as [mi|] eqn:Ei, (pending !! j) as [mj|] eqn:Ej; try done. intros [= <-] [= <-].
    destruct (Hall _ _ Ei), (Hall _ _ Ej). destruct (removeLevel_spec drop mi) as (_ & _ & ->); [done..|].
    destruct (removeLevel_spec drop mj) as (_ & _ & ->); [done..|]. case_bool_decide; [by intros [? ?]|]. by eapply Ho.
Qed.

Lemma addPending_ok p m r : pendingOk (m :: r) -> pendingTx (m :: r) (txKey p) = None ->
  let pending' := om_set (acc p) (PT.addTx frame p (PT.findOrAdd m (acc p))) m :: r in
  pendingOk pending' /\ forall k, pendingTx pending' k = if bool_decide (k = txKey p) then Some (0%nat, p) else pendingTx (m :: r) k.
Proof.
  intros [Hl [Hm Hok]%Forall_cons [Hfm Hf]%Forall_cons Ho] Hn. apply pendingTx_None in Hn as Hn'. apply Forall_cons in Hn' as [Hnm Hnr].
  destruct (addLevel_spec p m Hm Hfm Hnm) as (Hm' & Hfm' & Hk). cbn zeta. split.
  - split; [done|by constructor..|]. rewrite Forall_lookup in Hnr.
    assert (Hr : forall j m' k, r !! j = Some m' -> is_Some (levelTx m' k) ->
      is_Some (levelTx (om_set (acc p) (PT.addTx frame p (PT.findOrAdd m (acc p))) m) k) -> False).
    { intros j m' k Hj Hs. rewrite Hk. case_bool_decide as E; intros Hs'.
      - subst k. cbn in Hnr. rewrite (Hnr _ _ Hj) in Hs. by destruct Hs.
      - by specialize (Ho 0%nat (S j) m m' k eq_refl Hj Hs' Hs). }
    intros [|i] [|j] m1 m2 k Hi Hj H1 H2; [done|..].
    + cbn in Hi, Hj. simplify_eq. exfalso. eauto.
    + cbn in Hi, Hj. simplify_eq. exfalso. eauto.
    + by eapply (Ho (S i) (S j)).
  - intros k. rewrite !pendingTx_cons, Hk. by case_bool_decide.
Qed.

Lemma pendingTx_removelast pending k : pendingTx (removelast pending) k =
  match pendingTx pending k with Some (i, p) => if (S i <? length pending)%nat then Some (i, p) else None | None => None end.
Proof.
  induction pending as [|m r IH]; [done|]. destruct r as [|m' r]; [cbn; by destruct (levelTx m k)|].
  change (removelast (m :: m' :: r)) with (m :: removelast (m' :: r)). rewrite !(pendingTx_cons m), IH.
  destruct (levelTx m k); [done|]. destruct (pendingTx (m' :: r) k) as [[i p]|]; [|done]. cbn [fmap option_fmap option_map prod_map].
  cbn [fst snd]. change (S (S i) <? length (m :: m' :: r))%nat with (S i <? length (m' :: r))%nat.
  by destruct (S i <? _)%nat.
Qed.

Lemma age_ok pending : pendingOk pending -> pendingOk ([] :: removelast pending).
Proof.
  intros [Hl Hok Hf Ho]. destruct pending as [|m0 [|m1 [|m2 [|m3 [|]]]]]; try done.
  apply (Forall_take _ 3) in Hok, Hf. cbn in *. split; [done| | |].
  - constructor; [|done]. by split.
  - by constructor.
  - intros [|i] [|j] m m' k Hi Hj H1 H2; [done|..]; cbn in Hi, Hj.
    + simplify_eq. by destruct H1.
    + simplify_eq. by destruct H2.
    + apply (lookup_app_l_Some [m0; m1; m2] [m3]) in Hi, Hj. f_equal. by eapply Ho.
Qed.

Lemma newPending_ok : pendingOk PT.newPending.
Proof.
  assert (levelOk []) as Hm by by split. assert (levelFees []) as Hf by done.
  split; [done|by repeat constructor..|]. intros i j m m' k Hi _ [q Hq]. unfold PT.newPending in Hi.
  by apply lookup_replicate in Hi as [-> _].
Qed.

End Facts.
