(* ===== verification/HerderTxTheorems.v ===== *)
(** * The pending transactions follow their life cycle, and the proposed set is valid

    The theorems about [HerderTxs.v], against an abstract pool that maps the
    account and hash of a transaction to its age. *)

From stdpp Require Import sorting.
From S2P Require Import Prelude OrdContainers Signatures Transaction TxSet TxSetFacts LedgerExample HerderTxs.

(** A hash has 32 bytes. *)
Definition isHash (h : Hash) : Prop := length h = 32%nat /\ Forall (fun b => 0 <= b < 256) h.

Lemma zeros_first n h : length h = n -> Forall (fun b => 0 <= b < 256) h -> ltb h (replicate n 0) = false.
Proof.
  intros <-. induction 1 as [|b h Hb _ IH]; [done|]. cbn in *. destruct (Z.ltb_spec b 0); [lia|].
  by destruct (0 <? b).
Qed.

Lemma sublist_StronglySorted {A} (R : A -> A -> Prop) (l k : list A) : l `sublist_of` k -> StronglySorted R k -> StronglySorted R l.
Proof.
  induction 1 as [|x l k Hs IH|x l k Hs IH]; [done|..]; intros [Hk Hf]%StronglySorted_inv; [|by apply IH].
  constructor; [by apply IH|]. rewrite Forall_forall in Hf |- *. intros y Hy. apply Hf. by eapply sublist_subseteq.
Qed.

Lemma StronglySorted_map {A B} (R : B -> B -> Prop) (f : A -> B) (l : list A) :
  StronglySorted (fun a b => R (f a) (f b)) l -> StronglySorted R (map f l).
Proof. induction 1 as [|x l _ IH Hf]; cbn; constructor; [done|]. by apply Forall_map. Qed.

(** ** Removing transactions keeps the order *)

Section Shrinks.
Local Abbreviation Ptr := TransactionFramePtr.
Context {Sig St W : Type} (frame : Ptr -> Envelope Sig St).
Context (sort : (Ptr -> Ptr -> bool) -> list Ptr -> list Ptr) (checkTx : Ptr -> M W bool).
Implicit Types (p q : Ptr) (ts : TxSetFrame) (l : list Ptr).

Definition shrinks ts ts' : Prop :=
  mPreviousLedgerHash ts' = mPreviousLedgerHash ts /\ mTransactions ts' `sublist_of` mTransactions ts.

Lemma shrinks_refl ts : shrinks ts ts.
Proof. done. Qed.

Lemma shrinks_trans ts1 ts2 ts3 : shrinks ts1 ts2 -> shrinks ts2 ts3 -> shrinks ts1 ts3.
Proof. intros [H1 H2] [H3 H4]. split; [congruence|by etrans]. Qed.

Lemma eraseFirst_sublist p l : TS.eraseFirst p l `sublist_of` l.
Proof. induction l as [|q l IH]; [done|]. cbn. destruct (p =? q); [by constructor|by constructor]. Qed.

Lemma removeTx_shrinks p ts : exists ts', TS.removeTx p ts = Ret tt ts' /\ shrinks ts ts'.
Proof. eexists. split; [done|]. split; [done|]. apply eraseFirst_sublist. Qed.

Lemma removeAll_shrinks l ts ts' r : TS.removeAll l ts = Ret r ts' -> shrinks ts ts'.
Proof.
  revert ts. induction l as [|p l IH]; intros ts; cbn; [by intros [= _ <-]|]. unfold mbind, M_bind.
  destruct (removeTx_shrinks p ts) as (ts1 & -> & H1). intros Hr. eapply shrinks_trans; [done|by apply IH].
Qed.

Lemma surge_shrinks max ts ts' r : TS.surgePricingFilter frame sort max ts = Ret r ts' -> shrinks ts ts'.
Proof.
  unfold TS.surgePricingFilter, get, mbind, M_bind. destruct (_ <? _)%nat; [apply removeAll_shrinks|by intros [= _ <-]].
Qed.

Lemma trimAccount_shrinks l s s' r : TS.trimAccount checkTx l s = Ret r s' -> shrinks s.1 s'.1.
Proof.
  revert s s' r. induction l as [|p l IH]; intros s s' r; cbn; [by intros [= _ <-]|]. unfold mbind, M_bind.
  destruct (checkTx p s.2) as [[|] w|e w]; cbn; [apply IH| |done].
  destruct (TS.trimAccount _ _ _) as [r' s''|] eqn:E; [|done]. intros [= _ <-]. apply IH in E.
  eapply shrinks_trans; [|exact E]. split; [done|]. apply eraseFirst_sublist.
Qed.

Lemma trimAccounts_shrinks groups s s' r : TS.trimAccounts frame sort checkTx groups s = Ret r s' -> shrinks s.1 s'.1.
Proof.
  revert s s' r. induction groups as [|[a l] groups IH]; intros s s' r; cbn; [by intros [= _ <-]|]. unfold mbind, M_bind.
  destruct (TS.trimAccount _ _ _) as [r1 s1|] eqn:E1; [|done]. destruct (TS.trimAccounts _ _ _ _ _) as [r2 s2|] eqn:E2; [|done].
  intros [= _ <-]. eapply shrinks_trans; [by eapply trimAccount_shrinks|by eapply IH].
Qed.

Lemma trimInvalid_shrinks ts w ts' w' r : TS.trimInvalid frame sort checkTx (ts, w) = Ret r (ts', w') ->
  mPreviousLedgerHash ts' = mPreviousLedgerHash ts /\
  mTransactions ts' `sublist_of` sort (TS.HashTxSorter frame) (mTransactions ts).
Proof. intros Hr. exact (trimAccounts_shrinks _ _ _ _ Hr). Qed.

End Shrinks.

(** ** The abstract pool *)

Section Pool.
Local Abbreviation Ptr := TransactionFramePtr.
Local Abbreviation Key := (PublicKey * Hash)%type.
Context {Sig St : Type} (frame : Ptr -> Envelope Sig St).

(** The age, in closed ledgers, and the pointer of a transaction. *)
Definition Pool : Type := Key -> option (nat * Ptr).

Definition poolAdd (p : Ptr) (pool : Pool) : Pool := fun k => if bool_decide (k = txKey frame p) then Some (0%nat, p) else pool k.

Definition poolDrop (txs : list Ptr) (pool : Pool) : Pool := fun k => if bool_decide (k ∈ map (txKey frame) txs) then None else pool k.

(** A transaction is forgotten when the fourth ledger closes without it. *)
Definition poolAge (pool : Pool) : Pool := fun k =>
  match pool k with
  | Some (i, p) => if (i <? 3)%nat then Some (S i, p) else None
  | None => None
  end.

Definition abstracts (pending : list AccountTxMap) (pool : Pool) : Prop := pendingOk frame pending /\ forall k, pendingTx pending k = pool k.

Lemma update_pool applied pending pool : abstracts pending pool ->
  abstracts ([] :: removelast (PT.removeReceivedTxs frame applied pending)) (poolAge (poolDrop applied pool)).
Proof.
  intros [Hok Hk]. pose proof (removeReceivedTxs_ok frame applied pending Hok) as Hok'. split; [by apply age_ok|]. intros k.
  assert (pendingTx (PT.removeReceivedTxs frame applied pending) k = poolDrop applied pool k) as Hd.
  { rewrite removeReceivedTxs_tx by apply Hok. unfold poolDrop. by rewrite <- Hk. }
  cbn. rewrite pendingTx_removelast, Hd, (po_levels _ _ Hok'). unfold poolAge. destruct (poolDrop applied pool k) as [[i p]|]; [|done].
  destruct (Nat.ltb_spec (S i) 4), (Nat.ltb_spec i 3); done || lia.
Qed.

Context {W : Type} (marshal : Envelope Sig St -> list Z) (sha256 : list Z -> Hash).
Context (sort : (Ptr -> Ptr -> bool) -> list Ptr -> list Ptr) `{!SortOk sort}.
Context (checkTx : Ptr -> M W bool) (valid : Ptr -> bool) (I : W -> Prop).
Context (Hcheck : forall p w, I w -> exists w', checkTx p w = Ret (valid p) w' /\ I w').

(** Dropping the transactions that are not valid any more. *)
Definition poolValid (pool : Pool) : Pool := fun k =>
  match pool k with Some (i, p) => if valid p then Some (i, p) else None | None => None end.

Lemma dropInvalid_pool removed pending pool : abstracts pending pool -> removed ≡ₚ List.filter (invalid valid) (PT.allTxs pending) ->
  abstracts (PT.removeReceivedTxs frame removed pending) (poolValid pool).
Proof.
  clear marshal sha256. intros [Hok Hk] Hr. split; [by apply removeReceivedTxs_ok|]. intros k. rewrite removeReceivedTxs_tx by apply Hok.
  assert (forall q, q ∈ removed <-> valid q = false /\ exists i, pool (txKey frame q) = Some (i, q)) as Hq.
  { intros q. rewrite Hr, list_elem_of_In, filter_In, <- list_elem_of_In, (elem_of_allTxs frame) by done. setoid_rewrite Hk.
    unfold invalid. destruct (valid q); naive_solver. }
  unfold poolValid. rewrite <- Hk. destruct (pendingTx pending k) as [[i p]|] eqn:E; [|by destruct (bool_decide _)].
  pose proof (pendingTx_key frame _ _ _ _ Hok E) as <-. rewrite Hk in E.
  case_bool_decide as Hin; rewrite list_elem_of_fmap in Hin.
  - destruct Hin as (q & Hkey & Hin). apply Hq in Hin as [Hv (j & Hj)]. rewrite <- Hkey in Hj. by simplify_eq; rewrite Hv.
  - destruct (valid p) eqn:Hv; [done|]. destruct Hin. exists p. split; [done|]. apply Hq. eauto.
Qed.

(** C21. The pending transactions refine the pool.  A received transaction that
    is pending, by account and hash, is a duplicate and one that is not valid
    is an error, and both change nothing; any other is added with age 0.  When
    a ledger closes the applied transactions are dropped, the others are a
    ledger older, those of age 3 are forgotten, and every transaction that is
    left is broadcast.  At every step the sums of the fees of the accounts are
    right and no transaction is at two levels. *)
Theorem pending_transactions_refine pending pool : abstracts pending pool ->
  (forall p w, I w -> exists status pending' w', PT.recvTransaction frame checkTx p (pending, w) = Ret status (pending', w') /\ I w' /\
     status = match pool (txKey frame p) with Some _ => TX_STATUS_DUPLICATE | None => if valid p then TX_STATUS_PENDING else TX_STATUS_ERROR end /\
     abstracts pending' (match status with TX_STATUS_PENDING => poolAdd p pool | _ => pool end)) /\
  (forall applied, exists pending' txs ts, PT.updatePendingTransactions frame marshal sha256 sort applied pending = (pending', Ret txs ts) /\
     abstracts pending' (poolAge (poolDrop applied pool)) /\
     forall p, p ∈ txs <-> exists i, poolAge (poolDrop applied pool) (txKey frame p) = Some (i, p)).
Proof.
  intros Ha. pose proof Ha as [Hok Hk]. split.
  - intros p w Hw. unfold PT.recvTransaction. cbn [fst snd]. rewrite existsb_hasTx, Hk.
    destruct (pool (txKey frame p)) as [x|] eqn:Ep.
    { rewrite bool_decide_eq_true_2 by eauto. by exists TX_STATUS_DUPLICATE, pending, w. }
    rewrite bool_decide_eq_false_2 by by intros [? ?]. destruct (Hcheck p w Hw) as (w' & -> & Hw').
    destruct (valid p); [|by exists TX_STATUS_ERROR, pending, w'].
    destruct pending as [|m r]; [by pose proof (po_levels _ _ Hok)|].
    destruct (addPending_ok frame p m r Hok) as [Hok' Hk']; [by rewrite Hk|].
    exists TX_STATUS_PENDING. do 2 eexists. split; [done|]. split; [done|]. split; [done|]. split; [done|].
    intros k. rewrite Hk'. unfold poolAdd. by rewrite Hk.
  - intros applied. pose proof (update_pool applied _ _ Ha) as Hu. unfold PT.updatePendingTransactions. cbn zeta.
    set (pending' := [] :: removelast (PT.removeReceivedTxs frame applied pending)) in *.
    destruct (sortForApply_spec frame marshal sha256 sort (TS.setTransactions (PT.allTxs pending') (TS.newTxSet TS.zeroHash))) as (h & ts & Hr & _).
    do 3 eexists. split; [by rewrite Hr|]. split; [done|]. intros p. apply sortForApply_perm in Hr; [|done]. rewrite Hr.
    cbn [mTransactions TS.setTransactions]. rewrite (elem_of_allTxs frame) by apply Hu. destruct Hu as [_ Hu]. by setoid_rewrite Hu.
Qed.

Lemma proposed_checks lclHash max ts0 ts1 ts : 0 <= max -> mPreviousLedgerHash ts1 = lclHash ->
  (forall p, p ∈ mTransactions ts0 -> isHash (TS.getFullHash frame p)) ->
  mTransactions ts1 `sublist_of` sort (TS.HashTxSorter frame) (mTransactions ts0) ->
  Forall (fun p => valid p = true) (mTransactions ts1) ->
  TS.surgePricingFilter frame sort (Z.to_nat max) ts1 = Ret tt ts ->
  forall w, I w -> exists w', TS.checkValid frame sort checkTx lclHash max ts w = Ret true w' /\ I w'.
Proof.
  clear marshal sha256. intros Hmax Hprev Hhash Hs1 Hv Hsu w Hw. pose proof (surge_shrinks _ _ _ _ _ _ Hsu) as [Hp2 Hs2].
  destruct (surgePricing_spec frame sort (Z.to_nat max) ts1) as (ts' & Hsu' & Hsur). rewrite Hsu in Hsu'. injection Hsu' as <-.
  destruct (checkValid_spec frame sort checkTx valid I Hcheck lclHash max ts w Hw) as (b & w' & Hr & Hw' & Hb).
  exists w'. rewrite Hr. split; [|done]. f_equal. apply Hb. split; [congruence|]. split_and!.
  - rewrite Hsur. destruct (Nat.ltb_spec (Z.to_nat max) (length (mTransactions ts1))); [rewrite length_take|]; lia.
  - assert (Hsub : mTransactions ts `sublist_of` sort (TS.HashTxSorter frame) (mTransactions ts0)) by by etrans.
    constructor.
    + apply StronglySorted_map. eapply sublist_StronglySorted; [exact Hsub|]. apply sort_sorted, HashTxSorter_weak.
    + apply Forall_map, Forall_forall. intros p Hp. cbn beta. eapply sublist_subseteq in Hp; [|exact Hsub].
      rewrite (sort_permutation _ _ (HashTxSorter_weak frame)) in Hp. apply zeros_first; by apply Hhash.
  - rewrite Forall_forall in Hv |- *. intros p Hp. apply Hv. by eapply sublist_subseteq.
Qed.

(** C14. The set a node proposes is always valid: proposing never throws, the
    set follows the last closed ledger, respects its limit and passes the
    validity check of every node on that ledger; its transactions are pending
    and valid, and all of these when the limit allows it.  The transactions
    that are not valid any more are dropped from the pool, the others keep
    their age. *)
Theorem proposed_set_valid pending pool lclHash max w : abstracts pending pool -> I w -> 0 <= max ->
  (forall p, p ∈ PT.allTxs pending -> isHash (TS.getFullHash frame p)) ->
  exists ts pending' w', PT.proposeSet frame sort checkTx lclHash max (pending, w) = Ret ts (pending', w') /\ I w' /\
    (forall w1, I w1 -> exists w2, TS.checkValid frame sort checkTx lclHash max ts w1 = Ret true w2) /\
    (forall p, p ∈ mTransactions ts -> valid p = true /\ exists i, pool (txKey frame p) = Some (i, p)) /\
    (Z.of_nat (length (List.filter valid (PT.allTxs pending))) <= max -> forall p i, valid p = true ->
       pool (txKey frame p) = Some (i, p) -> p ∈ mTransactions ts) /\
    abstracts pending' (poolValid pool).
Proof.
  clear marshal sha256. intros Ha Hw Hmax Hhash. pose proof Ha as [Hok Hk]. unfold PT.proposeSet. cbn [fst snd].
  set (ts0 := TS.setTransactions (PT.allTxs pending) (TS.newTxSet lclHash)).
  destruct (trimInvalid_spec frame sort checkTx valid I Hcheck ts0 w Hw) as (removed & ts1 & w1 & Htr & Hw1 & Hkeep & Hrem).
  destruct (surgePricing_spec frame sort (Z.to_nat max) ts1) as (ts2 & Hsu & Hsur).
  pose proof (trimInvalid_shrinks _ _ _ _ _ _ _ _ Htr) as [Hp1 Hs1]. pose proof (surge_shrinks _ _ _ _ _ _ Hsu) as [Hp2 Hs2].
  assert (Hvalid : forall w, I w -> exists w', TS.checkValid frame sort checkTx lclHash max ts2 w = Ret true w' /\ I w').
  { apply (proposed_checks lclHash max ts0 ts1 ts2); try done. apply Forall_forall. intros p. rewrite Hkeep.
    intros [_ Hv]%list_elem_of_In%filter_In. done. }
  rewrite Htr, Hsu. destruct (Hvalid _ Hw1) as (w2 & -> & Hw2). do 3 eexists. split; [done|]. split; [done|]. split_and!.
  - intros w' Hw'. destruct (Hvalid _ Hw') as (w'' & ? & _). eauto.
  - intros p Hp. eapply sublist_subseteq in Hp; [|exact Hs2]. rewrite Hkeep in Hp.
    apply list_elem_of_In, filter_In in Hp as [Hp Hv]. apply list_elem_of_In, (elem_of_allTxs frame) in Hp; [|done].
    setoid_rewrite Hk in Hp. done.
  - intros Hle p i Hv Hp. assert (length (mTransactions ts1) <= Z.to_nat max)%nat as Hlen by (rewrite Hkeep; cbn; lia).
    rewrite Hsur, (proj2 (Nat.ltb_ge _ _) Hlen), Hkeep.
    apply list_elem_of_In, filter_In. split; [|done]. apply list_elem_of_In, (elem_of_allTxs frame); [done|]. exists i. by rewrite Hk.
  - by apply dropInvalid_pool.
Qed.

End Pool.

(** ** An example: two accounts, and transactions up to 3 that are valid *)

Definition pFrame (p : TransactionFramePtr) : Envelope PublicKey unit := {|
  txSourceAccount := [p mod 2]; salt := p; minTime := 0; maxTime := 100; operations := []; signatures := [];
  contentsHash := [p]; fullHash := replicate 31 0 ++ [p mod 256]; paidFee := 10 * p |}.

Definition pCheck (p : TransactionFramePtr) : M unit bool := mret (p <? 4).

Lemma pFrame_hash p : isHash (TS.getFullHash pFrame p).
Proof.
  split; [done|]. unfold TS.getFullHash. cbn. repeat (apply Forall_cons; split; [pose proof (Z.mod_pos_bound p 256); lia|]).
  by apply Forall_nil.
Qed.

Definition pRecv (p : TransactionFramePtr) (pending : list AccountTxMap) : list AccountTxMap :=
  match PT.recvTransaction pFrame pCheck p (pending, tt) with Ret _ s | Throw _ s => s.1 end.

(** Transactions 2, 3 and 1 are received and a ledger without them closes. *)
Definition pPending : list AccountTxMap :=
  (PT.updatePendingTransactions pFrame (fun _ => []) (fun l => l) isort [] (pRecv 1 (pRecv 3 (pRecv 2 PT.newPending)))).1.

Lemma pPending_abstracts : abstracts pFrame pPending (pendingTx pPending).
Proof.
  assert (forall p pending, (p <? 4) = true -> pendingOk pFrame pending -> pendingTx pending (txKey pFrame p) = None ->
    pendingOk pFrame (pRecv p pending)) as Hrecv.
  { intros p pending Hp Hok Hn. unfold pRecv, PT.recvTransaction. cbn [fst snd]. rewrite existsb_hasTx, Hn.
    rewrite bool_decide_eq_false_2 by by intros [? ?]. unfold pCheck, mret, M_ret. rewrite Hp.
    destruct pending as [|m r]; [by destruct Hok|]. by apply addPending_ok. }
  split; [|done]. unfold pPending, PT.updatePendingTransactions. cbn [fst]. apply age_ok, removeReceivedTxs_ok.
  repeat (apply Hrecv; [done| |vm_compute; reflexivity]). apply newPending_ok.
Qed.

Lemma pending_transactions_refine_witness :
  (exists pending' w', PT.recvTransaction pFrame pCheck 3 (pPending, tt) = Ret TX_STATUS_DUPLICATE (pending', w') /\
     abstracts pFrame pending' (pendingTx pPending)) /\
  exists pending' txs ts, PT.updatePendingTransactions pFrame (fun _ => []) (fun l => l) isort [1] pPending = (pending', Ret txs ts) /\
    abstracts pFrame pending' (poolAge (poolDrop pFrame [1] (pendingTx pPending))) /\ 3 ∈ txs.
Proof.
  destruct (pending_transactions_refine pFrame (fun _ => []) (fun l => l) isort pCheck (fun p => p <? 4) (fun _ => True)
    ltac:(intros p [] _; by exists tt) pPending _ pPending_abstracts) as [Hr Hu]. split.
  - destruct (Hr 3 tt Logic.I) as (st & pending' & w' & H1 & _ & H2 & H3). vm_compute in H2. subst st. by exists pending', w'.
  - destruct (Hu [1]) as (pending' & txs & ts & H1 & H2 & H3). exists pending', txs, ts. split; [done|]. split; [done|].
    apply H3. exists 2%nat. vm_compute. reflexivity.
Defined.

Lemma proposed_set_valid_witness : exists ts pending' w', PT.proposeSet pFrame isort pCheck TS.zeroHash 2 (pPending, tt) = Ret ts (pending', w') /\
  exists w2, TS.checkValid pFrame isort pCheck TS.zeroHash 2 ts tt = Ret true w2.
Proof.
  destruct (proposed_set_valid pFrame isort pCheck (fun p => p <? 4) (fun _ => True) ltac:(intros p [] _; by exists tt)
    pPending _ TS.zeroHash 2 tt pPending_abstracts Logic.I ltac:(lia) ltac:(intros p _; apply pFrame_hash)) as (ts & pending' & w' & H1 & _ & H2 & _).
  exists ts, pending', w'. split; [done|]. exact (H2 tt Logic.I).
Defined.
