(* ===== verification/Calendar.v ===== *)
(** * Dates ([util/Timer.cpp])

    [gmtime_r] and [timegm] of the C library in the Gregorian calendar, and
    the functions of [VirtualClock] on dates.  Years begin in March in the
    computation, so that the leap day comes last; an era has 400 years and
    146097 days. *)

From S2P Require Import Prelude.

Record tm := {
  tm_sec : Z;
  tm_min : Z;
  tm_hour : Z;
  tm_mday : Z;
  tm_mon : Z;
  tm_year : Z;
  tm_wday : Z;
  tm_yday : Z;
}.

(** ** The C library *)

(** Days from the epoch to a day of a month; [m] from 1. *)
Definition days_from_civil (y m d : Z) : Z :=
  let y := if m <=? 2 then y - 1 else y in
  let yoe := y mod 400 in
  let doy := (153 * (if m >? 2 then m - 3 else m + 9) + 2) / 5 + d - 1 in
  y / 400 * 146097 + (yoe * 365 + yoe / 4 - yoe / 100 + doy) - 719468.

(** Year and day of the year that begins in March, of a day of an era: by
    centuries and groups of four years, of which the last may have a day more. *)
Definition centuryOf (doe : Z) : Z := Z.min (doe / 36524) 3.
Definition groupOf (doe : Z) : Z := (doe - centuryOf doe * 36524) / 1461.
Definition yearInGroup (doe : Z) : Z := Z.min ((doe - centuryOf doe * 36524) mod 1461 / 365) 3.
Definition yearOfEra (doe : Z) : Z := 100 * centuryOf doe + 4 * groupOf doe + yearInGroup doe.
Definition dayOfYear (doe : Z) : Z := (doe - centuryOf doe * 36524) mod 1461 - 365 * yearInGroup doe.

Definition civil_from_days (n : Z) : Z * Z * Z :=
  let z := n + 719468 in
  let doe := z mod 146097 in
  let mp := (5 * dayOfYear doe + 2) / 153 in
  let m := if mp <? 10 then mp + 3 else mp - 9 in
  (yearOfEra doe + z / 146097 * 400 + (if m <=? 2 then 1 else 0), m, dayOfYear doe - (153 * mp + 2) / 5 + 1).

Definition gmtime (t : Z) : tm :=
  let n := t / 86400 in
  let '(y, m, d) := civil_from_days n in
  {| tm_sec := t mod 60; tm_min := t / 60 mod 60; tm_hour := t / 3600 mod 24; tm_mday := d; tm_mon := m - 1; tm_year := y - 1900;
     tm_wday := (n + 4) mod 7; tm_yday := n - days_from_civil y 1 1 |}.

Definition timegm (x : tm) : Z :=
  days_from_civil (tm_year x + 1900 + tm_mon x / 12) (tm_mon x mod 12 + 1) (tm_mday x) * 86400 +
  tm_hour x * 3600 + tm_min x * 60 + tm_sec x.

(** ** [VirtualClock] *)

Module VC.

Definition tm_from_time_t (t : Z) : tm := gmtime t.

(** The argument is changed: it becomes the last day of its year. *)
Definition getDaysOfYear (x : tm) : Z * tm :=
  let x := {| tm_sec := tm_sec x; tm_min := tm_min x; tm_hour := tm_hour x; tm_mday := 31; tm_mon := 11; tm_year := tm_year x;
              tm_wday := tm_wday x; tm_yday := tm_yday x |} in
  (tm_yday (gmtime (timegm x)), x).

(** The days, and what [from] is afterwards. *)
Definition getDaysPassed {S} (from to_ : tm) : M S (Z * tm) :=
  if tm_year from =? tm_year to_ then
    if tm_yday to_ <? tm_yday from then throw (RuntimeError "Unexpected order of dates for getDaysPassed")
    else mret (tm_yday to_ - tm_yday from, from)
  else if tm_year to_ <? tm_year from then throw (RuntimeError "Unexpected order of dates for getDaysPassed")
  else let '(daysOfFirstYear, from') := getDaysOfYear from in
       mret (daysOfFirstYear - tm_yday from' + tm_yday to_, from').

Definition weekPassed {S} (from to_ : tm) : M S (bool * tm) :=
  '(n, from') ← getDaysPassed from to_;
  if n >=? 7 then mret (true, from') else mret (tm_wday to_ <? tm_wday from', from').

End VC.

(** ** The calendar *)

(** The first day of a year. *)
Definition newYear (y : Z) : Z := days_from_civil y 1 1.

(** Days of an era before a year. *)
Definition before (yoe : Z) : Z := yoe * 365 + yoe / 4 - yoe / 100.

Lemma era_spec doe : 0 <= doe < 146097 ->
  0 <= yearOfEra doe < 400 /\ 0 <= dayOfYear doe <= 365 /\ doe = before (yearOfEra doe) + dayOfYear doe /\
  (yearOfEra doe < 399 -> doe < before (yearOfEra doe + 1)).
Proof.
  intros Hd. unfold before, yearOfEra, dayOfYear, yearInGroup, groupOf.
  set (c := centuryOf doe). assert (0 <= c <= 3 /\ 0 <= doe - c * 36524 /\ (doe - c * 36524 < 36524 \/ c = 3 /\ doe - c * 36524 <= 36524)) as (Hc & Hr0 & Hr).
  { unfold c, centuryOf. Z.to_euclidean_division_equations. lia. }
  clearbody c. remember (doe - c * 36524) as r eqn:Er.
  set (g := r / 1461). set (k := r mod 1461).
  assert (r = 1461 * g + k /\ 0 <= k < 1461) as (Hg & Hk) by (unfold g, k; Z.to_euclidean_division_equations; lia). clearbody g k.
  assert (0 <= g <= 24) as Hg' by lia. set (y := Z.min (k / 365) 3).
  assert (0 <= y <= 3 /\ 0 <= k - 365 * y /\ (k - 365 * y < 365 \/ y = 3 /\ k - 365 * y <= 365)) as (Hy & Hd0 & Hd1).
  { unfold y. Z.to_euclidean_division_equations. lia. }
  clearbody y. assert ((100 * c + 4 * g + y) / 4 = 25 * c + g) as -> by (Z.to_euclidean_division_equations; lia).
  assert ((100 * c + 4 * g + y) / 100 = c) as -> by (Z.to_euclidean_division_equations; lia).
  split_and!; try lia. intros Hlt. assert ((100 * c + 4 * g + y + 1) / 4 >= 25 * c + g + (y + 1) / 4) by (Z.to_euclidean_division_equations; lia).
  Z.to_euclidean_division_equations. lia.
Qed.

(** The first of March. *)
Definition march (y : Z) : Z := y / 400 * 146097 + before (y mod 400) - 719468.

Lemma march_next y : march y + 365 <= march (y + 1) <= march y + 366.
Proof.
  unfold march, before. set (e := y / 400). set (r := y mod 400). assert (y = 400 * e + r /\ 0 <= r < 400) as [Hy Hr].
  { unfold e, r. Z.to_euclidean_division_equations. lia. }
  clearbody e r. subst y. assert (r = 399 \/ r < 399) as [-> |Hlt] by lia.
  - replace ((400 * e + 399 + 1) / 400) with (e + 1) by (Z.to_euclidean_division_equations; lia).
    replace ((400 * e + 399 + 1) mod 400) with 0 by (Z.to_euclidean_division_equations; lia).
    change (399 * 365 + 399 / 4 - 399 / 100) with 145731. change (0 * 365 + 0 / 4 - 0 / 100) with 0. lia.
  - replace ((400 * e + r + 1) / 400) with e by (Z.to_euclidean_division_equations; lia).
    replace ((400 * e + r + 1) mod 400) with (r + 1) by (Z.to_euclidean_division_equations; lia).
    Z.to_euclidean_division_equations. lia.
Qed.

Lemma newYear_march y : newYear y = march (y - 1) + 306.
Proof. unfold newYear, days_from_civil, march, before. change (1 <=? 2) with true. change (1 >? 2) with false. cbv iota zeta.
  change ((153 * (1 + 9) + 2) / 5 + 1 - 1) with 306. lia. Qed.

(** A day: its March year and the day in it. *)
Lemma civil_spec n : exists y doy, 0 <= doy <= 365 /\ n = march y + doy /\ n < march (y + 1) /\
  let mp := (5 * doy + 2) / 153 in let m := if mp <? 10 then mp + 3 else mp - 9 in
  civil_from_days n = (if doy <? 306 then y else y + 1, m, doy - (153 * mp + 2) / 5 + 1).
Proof.
  unfold civil_from_days. set (z := n + 719468). assert (z = 146097 * (z / 146097) + z mod 146097 /\ 0 <= z mod 146097 < 146097) as [Hz Hd].
  { Z.to_euclidean_division_equations. lia. }
  destruct (era_spec _ Hd) as (Hy & Hdoy & Heq & Hlt). set (e := z / 146097) in *. set (doe := z mod 146097) in *.
  exists (yearOfEra doe + e * 400), (dayOfYear doe). clearbody e doe.
  assert (march (yearOfEra doe + e * 400) + dayOfYear doe = n) as Hn.
  { unfold march. replace ((yearOfEra doe + e * 400) / 400) with e by (Z.to_euclidean_division_equations; lia).
    replace ((yearOfEra doe + e * 400) mod 400) with (yearOfEra doe) by (Z.to_euclidean_division_equations; lia). unfold z in Hz. lia. }
  split; [done|]. split; [lia|]. split.
  - destruct (Z.eq_dec (yearOfEra doe) 399) as [E|E].
    + unfold march. rewrite E in *. replace ((399 + e * 400 + 1) / 400) with (e + 1) by (Z.to_euclidean_division_equations; lia).
      replace ((399 + e * 400 + 1) mod 400) with 0 by (Z.to_euclidean_division_equations; lia). unfold z in Hz. change (before 0) with 0. change (before 399) with 145731 in Heq. lia.
    + unfold march. replace ((yearOfEra doe + e * 400 + 1) / 400) with e by (Z.to_euclidean_division_equations; lia).
      replace ((yearOfEra doe + e * 400 + 1) mod 400) with (yearOfEra doe + 1) by (Z.to_euclidean_division_equations; lia).
      unfold z in Hz. specialize (Hlt ltac:(lia)). lia.
  - cbv zeta. set (mp := (5 * dayOfYear doe + 2) / 153). f_equal. f_equal.
    assert (mp < 10 <-> dayOfYear doe < 306) as Hmp by (unfold mp; Z.to_euclidean_division_equations; lia).
    assert (0 <= mp <= 11) as Hmp' by (unfold mp; Z.to_euclidean_division_equations; lia).
    destruct (Z.ltb_spec mp 10), (Z.ltb_spec (dayOfYear doe) 306); try lia.
    + rewrite (proj2 (Z.leb_gt _ _)) by lia. lia.
    + rewrite (proj2 (Z.leb_le _ _)) by lia. lia.
Qed.

Definition dayOf (t : Z) : Z := t / 86400.

Lemma newYear_next y : newYear y + 365 <= newYear (y + 1) <= newYear y + 366.
Proof. rewrite !newYear_march. pose proof (march_next (y - 1)). replace (y + 1 - 1) with (y - 1 + 1) by lia. lia. Qed.

Lemma newYear_mono y y' : y <= y' -> newYear y <= newYear y'.
Proof.
  intros Hle. replace y' with (y + Z.of_nat (Z.to_nat (y' - y))) by lia. generalize (Z.to_nat (y' - y)) as k.
  induction k as [|k IH]; [rewrite Z.add_0_r; lia|]. pose proof (newYear_next (y + Z.of_nat k)).
  replace (y + Z.of_nat (S k)) with (y + Z.of_nat k + 1) by lia. lia.
Qed.

(** The year of a time is the one in which it lies. *)
Lemma gmtime_year t : newYear (tm_year (gmtime t) + 1900) <= dayOf t < newYear (tm_year (gmtime t) + 1901).
Proof.
  unfold gmtime, dayOf. destruct (civil_spec (t / 86400)) as (y & doy & Hd & Hn & Hlt & ->). cbv zeta. cbn [tm_year].
  destruct (Z.ltb_spec doy 306).
  - replace (y - 1900 + 1900) with y by lia. replace (y - 1900 + 1901) with (y + 1) by lia. rewrite !newYear_march.
    replace (y + 1 - 1) with y by lia. pose proof (march_next (y - 1)). replace (y - 1 + 1) with y in * by lia. lia.
  - replace (y + 1 - 1900 + 1900) with (y + 1) by lia. replace (y + 1 - 1900 + 1901) with (y + 2) by lia. rewrite !newYear_march.
    replace (y + 1 - 1) with y by lia. replace (y + 2 - 1) with (y + 1) by lia. lia.
Qed.

Lemma gmtime_yday t : tm_yday (gmtime t) = dayOf t - newYear (tm_year (gmtime t) + 1900).
Proof.
  unfold gmtime, dayOf. destruct (civil_from_days (t / 86400)) as [[y m] d]. cbn. unfold newYear. by replace (y - 1900 + 1900) with y by lia.
Qed.

Lemma gmtime_wday t : tm_wday (gmtime t) = (dayOf t + 4) mod 7.
Proof. unfold gmtime, dayOf. by destruct (civil_from_days (t / 86400)) as [[y m] d]. Qed.

Lemma dayOf_mono t t' : t <= t' -> dayOf t <= dayOf t'.
Proof. unfold dayOf. intros. Z.to_euclidean_division_equations. lia. Qed.

Lemma year_mono t t' : t <= t' -> tm_year (gmtime t) <= tm_year (gmtime t').
Proof.
  intros Hle%dayOf_mono. pose proof (gmtime_year t). pose proof (gmtime_year t').
  apply Z.le_ngt. intros Hlt. pose proof (newYear_mono (tm_year (gmtime t') + 1901) (tm_year (gmtime t) + 1900) ltac:(lia)). lia.
Qed.

Lemma yday_mono t t' : t <= t' -> tm_year (gmtime t) = tm_year (gmtime t') -> tm_yday (gmtime t) <= tm_yday (gmtime t').
Proof. intros Hle%dayOf_mono Hy. rewrite !gmtime_yday, Hy. lia. Qed.

Lemma mon_mono t t' : t <= t' -> tm_year (gmtime t) = tm_year (gmtime t') -> tm_mon (gmtime t) <= tm_mon (gmtime t').
Proof.
  intros Hle%dayOf_mono. unfold gmtime, dayOf in *.
  destruct (civil_spec (t / 86400)) as (y & doy & Hd & Hn & Hlt & ->). destruct (civil_spec (t' / 86400)) as (y' & doy' & Hd' & Hn' & Hlt' & ->).
  cbv zeta. cbn [tm_year tm_mon]. set (mp := (5 * doy + 2) / 153). set (mp' := (5 * doy' + 2) / 153).
  assert ((mp < 10 <-> doy < 306) /\ 0 <= mp <= 11) as [Hm Hm0] by (unfold mp; Z.to_euclidean_division_equations; lia).
  assert ((mp' < 10 <-> doy' < 306) /\ 0 <= mp' <= 11) as [Hm' Hm0'] by (unfold mp'; Z.to_euclidean_division_equations; lia).
  assert (doy <= doy' -> mp <= mp') as Hmm by (unfold mp, mp'; intros; Z.to_euclidean_division_equations; lia).
  clearbody mp mp'. intros Hy.
  destruct (Z.ltb_spec doy 306), (Z.ltb_spec doy' 306); rewrite ?(proj2 (Z.ltb_lt mp 10)), ?(proj2 (Z.ltb_lt mp' 10)), ?(proj2 (Z.ltb_ge mp 10)), ?(proj2 (Z.ltb_ge mp' 10)) by lia.
  - assert (y' = y) as -> by lia. lia.
  - assert (y = y' + 1) as -> by lia. lia.
  - lia.
  - assert (y' = y) as -> by lia. lia.
Qed.

Lemma mon_day t t' : dayOf t = dayOf t' -> tm_mon (gmtime t) = tm_mon (gmtime t').
Proof. unfold dayOf, gmtime. intros ->. by destruct (civil_from_days _) as [[y m] d]. Qed.

Lemma year_unique t y : newYear y <= dayOf t < newYear (y + 1) -> tm_year (gmtime t) + 1900 = y.
Proof.
  intros Hy. pose proof (gmtime_year t) as Ht. set (y' := tm_year (gmtime t) + 1900) in *.
  replace (tm_year (gmtime t) + 1901) with (y' + 1) in Ht by (unfold y'; lia).
  assert (~ y' < y) by (intros Hlt; pose proof (newYear_mono (y' + 1) y ltac:(lia)); lia).
  assert (~ y < y') by (intros Hlt; pose proof (newYear_mono (y + 1) y' ltac:(lia)); lia). lia.
Qed.

(** Sunday is the first day of a week. *)
Definition weekOf (t : Z) : Z := (dayOf t + 4) / 7.

Lemma lastDay_civil y : days_from_civil y 12 31 = newYear (y + 1) - 1.
Proof.
  rewrite newYear_march. replace (y + 1 - 1) with y by lia. unfold days_from_civil, march, before.
  change (12 <=? 2) with false. change (12 >? 2) with true. cbv iota zeta. change ((153 * (12 - 3) + 2) / 5 + 31 - 1) with 305. lia.
Qed.

Lemma gmtime_hms t : 0 <= tm_hour (gmtime t) * 3600 + tm_min (gmtime t) * 60 + tm_sec (gmtime t) < 86400.
Proof. unfold gmtime. destruct (civil_from_days _) as [[y m] d]. cbn. Z.to_euclidean_division_equations. lia. Qed.

Lemma getDaysOfYear_spec t : fst (VC.getDaysOfYear (gmtime t)) = newYear (tm_year (gmtime t) + 1901) - newYear (tm_year (gmtime t) + 1900) - 1.
Proof.
  unfold VC.getDaysOfYear. cbn [fst]. set (x := {| tm_mon := 11 |}). rewrite gmtime_yday.
  assert (dayOf (timegm x) = newYear (tm_year (gmtime t) + 1901) - 1) as Hd.
  { pose proof (gmtime_hms t). unfold dayOf, timegm, x. cbn [tm_hour tm_min tm_sec tm_mday tm_mon tm_year].
    change (11 / 12) with 0. change (11 mod 12 + 1) with 12. rewrite lastDay_civil.
    replace (tm_year (gmtime t) + 1900 + 0 + 1) with (tm_year (gmtime t) + 1901) by lia. Z.to_euclidean_division_equations. lia. }
  rewrite Hd, (year_unique (timegm x) (tm_year (gmtime t) + 1900)); [lia|]. rewrite Hd. pose proof (newYear_next (tm_year (gmtime t) + 1900)).
  replace (tm_year (gmtime t) + 1900 + 1) with (tm_year (gmtime t) + 1901) in * by lia. lia.
Qed.

Lemma getDaysOfYear_keeps x : tm_yday (VC.getDaysOfYear x).2 = tm_yday x /\ tm_wday (VC.getDaysOfYear x).2 = tm_wday x.
Proof. by split. Qed.

(** ** Weeks *)

Lemma weekPassed_same {S} t t' (s : S) : t <= t' -> tm_year (gmtime t) = tm_year (gmtime t') ->
  VC.weekPassed (gmtime t) (gmtime t') s = Ret (weekOf t <? weekOf t', gmtime t) s.
Proof.
  intros Hle Hy. pose proof (yday_mono t t' Hle Hy) as Hd. unfold VC.weekPassed, VC.getDaysPassed.
  rewrite Hy, Z.eqb_refl, (proj2 (Z.ltb_ge _ _)) by done. unfold mbind, M_bind, mret, M_ret. rewrite !gmtime_yday, Hy, !gmtime_wday.
  apply dayOf_mono in Hle. unfold weekOf. set (d := dayOf t) in *. set (d' := dayOf t') in *.
  rewrite Z.geb_leb. destruct (Z.leb_spec 7 (d' - newYear (tm_year (gmtime t') + 1900) - (d - newYear (tm_year (gmtime t') + 1900)))); do 2 f_equal; symmetry.
  - apply Z.ltb_lt. Z.to_euclidean_division_equations. lia.
  - apply eq_bool_prop_intro. rewrite !Is_true_true, !Z.ltb_lt. Z.to_euclidean_division_equations. lia.
Qed.

(** Across a new year a day is lost: seven days are not a week. *)
Lemma weekPassed_next {S} t t' (s : S) : t <= t' -> tm_year (gmtime t') = tm_year (gmtime t) + 1 ->
  exists x, tm_yday x = tm_yday (gmtime t) /\
    VC.weekPassed (gmtime t) (gmtime t') s = Ret ((weekOf t <? weekOf t') && negb (dayOf t' - dayOf t =? 7), x) s.
Proof.
  intros Hle Hy. unfold VC.weekPassed, VC.getDaysPassed. rewrite (proj2 (Z.eqb_neq _ _)), (proj2 (Z.ltb_ge _ _)) by lia.
  pose proof (getDaysOfYear_spec t) as Hdy. destruct (VC.getDaysOfYear (gmtime t)) as [n x] eqn:E. cbn [fst] in Hdy. exists x.
  destruct (getDaysOfYear_keeps (gmtime t)) as [Ey Ew]. rewrite E in Ey, Ew. cbn [snd] in Ey, Ew. split; [done|].
  unfold mbind, M_bind, mret, M_ret. rewrite Ey, Ew, !gmtime_yday, !gmtime_wday, Hy, Hdy.
  replace (tm_year (gmtime t) + 1 + 1900) with (tm_year (gmtime t) + 1901) by lia. apply dayOf_mono in Hle. unfold weekOf.
  set (d := dayOf t) in *. set (d' := dayOf t') in *. rewrite Z.geb_leb.
  match goal with |- context [7 <=? ?k] => replace k with (d' - d - 1) by lia end.
  destruct (Z.leb_spec 7 (d' - d - 1)); do 2 f_equal; symmetry.
  - rewrite (proj2 (Z.eqb_neq _ _)), andb_true_r by lia. apply Z.ltb_lt. Z.to_euclidean_division_equations. lia.
  - apply eq_bool_prop_intro. rewrite !Is_true_true, andb_true_iff, negb_true_iff, !Z.ltb_lt, Z.eqb_neq. Z.to_euclidean_division_equations. lia.
Qed.

(** More than a year later. *)
Lemma weekPassed_far {S} t t' (s : S) : tm_year (gmtime t) + 1 < tm_year (gmtime t') ->
  weekOf t < weekOf t' /\ exists b x, tm_yday x = tm_yday (gmtime t) /\ VC.weekPassed (gmtime t) (gmtime t') s = Ret (b, x) s.
Proof.
  intros Hy. split.
  - pose proof (gmtime_year t). pose proof (gmtime_year t'). set (y := tm_year (gmtime t) + 1901) in *.
    pose proof (newYear_mono (y + 1) (tm_year (gmtime t') + 1900) ltac:(unfold y; lia)). pose proof (newYear_next y).
    unfold weekOf. set (d := dayOf t) in *. set (d' := dayOf t') in *. assert (d + 7 <= d') as Hdd by lia. clear - Hdd. Z.to_euclidean_division_equations. lia.
  - unfold VC.weekPassed, VC.getDaysPassed. rewrite (proj2 (Z.eqb_neq _ _)), (proj2 (Z.ltb_ge _ _)) by lia.
    destruct (VC.getDaysOfYear (gmtime t)) as [n x] eqn:E. destruct (getDaysOfYear_keeps (gmtime t)) as [Ey _]. rewrite E in Ey. cbn [snd] in Ey.
    unfold mbind, M_bind, mret, M_ret. destruct (_ >=? _); by eexists _, x.
Qed.

(** ** The round trip *)

Lemma civil_inverse n : let '(y, m, d) := civil_from_days n in days_from_civil y m d = n.
Proof.
  destruct (civil_spec n) as (y & doy & Hd & Hn & Hlt & ->). cbv zeta. set (mp := (5 * doy + 2) / 153).
  assert ((mp < 10 <-> doy < 306) /\ 0 <= mp <= 11) as [Hm Hm0] by (unfold mp; Z.to_euclidean_division_equations; lia). clearbody mp.
  unfold days_from_civil. rewrite Hn. unfold march, before.
  destruct (Z.ltb_spec doy 306).
  - rewrite (proj2 (Z.ltb_lt mp 10)) by lia. rewrite (proj2 (Z.leb_gt _ _)) by lia. rewrite Z.gtb_ltb, (proj2 (Z.ltb_lt _ _)) by lia.
    replace (mp + 3 - 3) with mp by lia. lia.
  - rewrite (proj2 (Z.ltb_ge mp 10)) by lia. rewrite (proj2 (Z.leb_le _ _)) by lia. rewrite Z.gtb_ltb, (proj2 (Z.ltb_ge _ _)) by lia.
    replace (mp - 9 + 9) with mp by lia. replace (y + 1 - 1) with y by lia. lia.
Qed.

Lemma timegm_gmtime t : timegm (gmtime t) = t.
Proof.
  unfold timegm, gmtime. pose proof (civil_inverse (t / 86400)) as Hc. destruct (civil_spec (t / 86400)) as (y & doy & Hd & _ & _ & E).
  cbv zeta in E. set (mp := (5 * doy + 2) / 153) in *. assert (0 <= mp <= 11) as Hmp by (unfold mp; Z.to_euclidean_division_equations; lia).
  destruct (civil_from_days (t / 86400)) as [[y' m] d]. injection E as -> Em ->. cbn.
  assert (1 <= m <= 12) as Hm by (rewrite Em; destruct (Z.ltb_spec mp 10); lia).
  rewrite (Z.div_small (m - 1)), (Z.mod_small (m - 1)) by lia. replace (m - 1 + 1) with m by lia.
  replace ((if doy <? 306 then y else y + 1) - 1900 + 1900 + 0) with (if doy <? 306 then y else y + 1) by (clear; lia). rewrite Hc.
  clear. Z.to_euclidean_division_equations. lia.
Qed.
