(* ===== verification/Statistics.v ===== *)
(** * Statistics of an account ([ledger/StatisticsFrame.cpp])

    What an account has spent in the current day, week, month and year.  The
    four sums are unsigned 64-bit numbers that are reset when the period they
    are about is over, at the next change. *)

From S2P Require Import Prelude BigMath Signatures Calendar.

Record StatisticsEntry := {
  statAccountID : PublicKey;
  dailyOutcome : Z;
  weeklyOutcome : Z;
  monthlyOutcome : Z;
  annualOutcome : Z;
  updatedAt : Z;
}.

Module SF.

Definition isValid (se : StatisticsEntry) : bool :=
  (dailyOutcome se >=? 0) && (monthlyOutcome se >=? dailyOutcome se) && (annualOutcome se >=? annualOutcome se).

(** Assignments to the sums and the time. *)
Definition set (se : StatisticsEntry) (d w m a u : Z) : StatisticsEntry :=
  {| statAccountID := statAccountID se; dailyOutcome := d; weeklyOutcome := w; monthlyOutcome := m; annualOutcome := a; updatedAt := u |}.

Definition clearObsolete {S} (rawCurrentTime : Z) (se : StatisticsEntry) : M S StatisticsEntry :=
  let currentTime := VC.tm_from_time_t rawCurrentTime in
  let timeUpdated := VC.tm_from_time_t (updatedAt se) in
  let isYear := tm_year timeUpdated <? tm_year currentTime in
  let a := if isYear then 0 else annualOutcome se in
  let isMonth := isYear || (tm_mon timeUpdated <? tm_mon currentTime) in
  let m := if isMonth then 0 else monthlyOutcome se in
  '(isWeek, timeUpdated) ← VC.weekPassed timeUpdated currentTime;
  let w := if (isWeek : bool) then 0 else weeklyOutcome se in
  let isDay := isYear || (tm_yday timeUpdated <? tm_yday currentTime) in
  let d := if isDay then 0 else dailyOutcome se in
  mret (set se d w m a (updatedAt se)).

Definition add {S} (outcome rawCurrentTime : Z) (se : StatisticsEntry) : M S (bool * StatisticsEntry) :=
  se ← clearObsolete rawCurrentTime se;
  let se := set se (dailyOutcome se) (weeklyOutcome se) (monthlyOutcome se) (annualOutcome se) rawCurrentTime in
  let '(ok, a) := safeSum (annualOutcome se) outcome in
  let se := set se (dailyOutcome se) (weeklyOutcome se) (monthlyOutcome se) a rawCurrentTime in
  if negb ok then mret (false, se) else
  let '(ok, m) := safeSum (monthlyOutcome se) outcome in
  let se := set se (dailyOutcome se) (weeklyOutcome se) m a rawCurrentTime in
  if negb ok then mret (false, se) else
  let '(ok, w) := safeSum (weeklyOutcome se) outcome in
  let se := set se (dailyOutcome se) w m a rawCurrentTime in
  if negb ok then mret (false, se) else
  let '(ok, d) := safeSum (dailyOutcome se) outcome in
  mret (ok, set se d w m a rawCurrentTime).

Definition revert {S} (outcome rawCurrentTime rawTimePerformed : Z) (se : StatisticsEntry) : M S StatisticsEntry :=
  se ← clearObsolete rawCurrentTime se;
  let se := set se (dailyOutcome se) (weeklyOutcome se) (monthlyOutcome se) (annualOutcome se) rawCurrentTime in
  let currentTime := VC.tm_from_time_t rawCurrentTime in
  let timePerformed := VC.tm_from_time_t rawTimePerformed in
  if negb (tm_year currentTime =? tm_year timePerformed) then mret se else
  if outcome >? annualOutcome se then throw (RuntimeError "Unable to revert statistics. Annual outcome can't be negative") else
  let a := annualOutcome se - outcome in
  let se := set se (dailyOutcome se) (weeklyOutcome se) (monthlyOutcome se) a rawCurrentTime in
  if negb (tm_mon currentTime =? tm_mon timePerformed) then mret se else
  if outcome >? monthlyOutcome se then throw (RuntimeError "Unable to revert statistics. Monthly outcome can't be negative") else
  let m := monthlyOutcome se - outcome in
  let se := set se (dailyOutcome se) (weeklyOutcome se) m a rawCurrentTime in
  '(passed, timePerformed) ← VC.weekPassed timePerformed currentTime;
  if (passed : bool) then mret se else
  if outcome >? weeklyOutcome se then throw (RuntimeError "Unable to revert statistics. Weekly outcome can't be negative") else
  let w := weeklyOutcome se - outcome in
  let se := set se (dailyOutcome se) w m a rawCurrentTime in
  if negb (tm_yday currentTime =? tm_yday timePerformed) then mret se else
  if outcome >? dailyOutcome se then throw (RuntimeError "Unable to revert statistics. Daily outcome can't be negative") else
  mret (set se (dailyOutcome se - outcome) w m a rawCurrentTime).

End SF.

(** ** The abstract statistics: the sums over a log *)

(** What was spent, and when. *)
Definition Log : Type := list (Z * Z).

Definition sameYear (u t : Z) : bool := tm_year (gmtime t) =? tm_year (gmtime u).
Definition sameMonth (u t : Z) : bool := sameYear u t && (tm_mon (gmtime t) =? tm_mon (gmtime u)).
Definition sameDay (u t : Z) : bool := sameYear u t && (tm_yday (gmtime t) =? tm_yday (gmtime u)).
Definition sameWeek (u t : Z) : bool := weekOf t =? weekOf u.

Definition spent (in_ : Z -> bool) (l : Log) : Z := foldr (fun p n => (if in_ p.1 then p.2 else 0) + n) 0 l.

Definition total (l : Log) : Z := spent (fun _ => true) l.

(** The log is in the past, and the sums are those of the periods of the last
    change; the one of the week may be too large. *)
Record statOk (l : Log) (se : StatisticsEntry) : Prop := {
  st_past : Forall (fun p => p.1 <= updatedAt se /\ 0 <= p.2) l;
  st_annual : annualOutcome se = spent (sameYear (updatedAt se)) l;
  st_monthly : monthlyOutcome se = spent (sameMonth (updatedAt se)) l;
  st_daily : dailyOutcome se = spent (sameDay (updatedAt se)) l;
  st_weekly : spent (sameWeek (updatedAt se)) l <= weeklyOutcome se <= total l;
}.

Definition weekExact (l : Log) (se : StatisticsEntry) : Prop := weeklyOutcome se = spent (sameWeek (updatedAt se)) l.

(** From one change to the next: not more than a year apart, and not seven
    days across a new year. *)
Definition regular (u now : Z) : Prop := tm_year (gmtime u) = tm_year (gmtime now) \/
  tm_year (gmtime now) = tm_year (gmtime u) + 1 /\ dayOf now - dayOf u <> 7.

Section Spent.
Implicit Types (l : Log) (f g : Z -> bool).

Lemma spent_cons f p l : spent f (p :: l) = (if f p.1 then p.2 else 0) + spent f l.
Proof. done. Qed.

Lemma spent_app f l l' : spent f (l ++ l') = spent f l + spent f l'.
Proof. induction l as [|p l IH]; [done|]. cbn [app]. rewrite !spent_cons, IH. lia. Qed.

Lemma spent_ext f g l : Forall (fun p => f p.1 = g p.1) l -> spent f l = spent g l.
Proof. induction 1 as [|p l Hp _ IH]; [done|]. by rewrite !spent_cons, Hp, IH. Qed.

Lemma spent_none f l : Forall (fun p => f p.1 = false) l -> spent f l = 0.
Proof. induction 1 as [|p l Hp _ IH]; [done|]. by rewrite spent_cons, Hp, IH. Qed.

Lemma spent_bounds f l : Forall (fun p => 0 <= p.2) l -> 0 <= spent f l <= total l.
Proof.
  unfold total. induction 1 as [|p l Hp _ IH]; [done|]. rewrite !spent_cons. destruct (f p.1); lia.
Qed.

Lemma spent_total f l : (forall t, f t = true) -> spent f l = total l.
Proof. intros Hf. apply spent_ext, Forall_true. intros p. apply Hf. Qed.

End Spent.

(** Periods that are over. *)
Lemma year_between t u now : t <= u <= now -> sameYear now t = true -> sameYear u t = true /\ sameYear now u = true.
Proof.
  unfold sameYear. rewrite !Z.eqb_eq. intros [H1 H2] E. pose proof (year_mono t u H1). pose proof (year_mono u now H2). lia.
Qed.

Lemma month_between t u now : t <= u <= now -> sameMonth now t = true -> sameMonth u t = true /\ sameMonth now u = true.
Proof.
  unfold sameMonth. rewrite !andb_true_iff. intros Hle [Hy Hm]. destruct (year_between t u now Hle Hy) as [H1 H2].
  rewrite H1, H2. unfold sameYear in *. rewrite Z.eqb_eq in *. pose proof (mon_mono t u ltac:(lia) ltac:(lia)). pose proof (mon_mono u now ltac:(lia) ltac:(lia)). lia.
Qed.

Lemma day_between t u now : t <= u <= now -> sameDay now t = true -> sameDay u t = true /\ sameDay now u = true.
Proof.
  unfold sameDay. rewrite !andb_true_iff. intros Hle [Hy Hm]. destruct (year_between t u now Hle Hy) as [H1 H2].
  rewrite H1, H2. unfold sameYear in *. rewrite Z.eqb_eq in *. pose proof (yday_mono t u ltac:(lia) ltac:(lia)). pose proof (yday_mono u now ltac:(lia) ltac:(lia)). lia.
Qed.

Lemma weekOf_mono t t' : t <= t' -> weekOf t <= weekOf t'.
Proof. intros Hle%dayOf_mono. unfold weekOf. apply Z.div_le_mono; lia. Qed.

Lemma week_between t u now : t <= u <= now -> sameWeek now t = true -> sameWeek u t = true /\ sameWeek now u = true.
Proof.
  unfold sameWeek. rewrite !Z.eqb_eq. intros [H1 H2] E. pose proof (weekOf_mono t u H1). pose proof (weekOf_mono u now H2). lia.
Qed.

(** The sums of a kind of period when time passes: kept or reset. *)
Lemma spent_later (same : Z -> Z -> bool) l u now : u <= now -> Forall (fun p => p.1 <= u /\ 0 <= p.2) l ->
  (forall t, t <= u -> same now t = true -> same u t = true /\ same now u = true) ->
  (forall t, same now u = true -> same u t = true -> same now t = true) ->
  spent (same now) l = if same now u then spent (same u) l else 0.
Proof.
  intros Hle Hl Hb Ht. destruct (same now u) eqn:E.
  - apply spent_ext. eapply Forall_impl; [exact Hl|]. intros [t x] [Hp _]. cbn in *. apply eq_bool_prop_intro. rewrite !Is_true_true.
    split; [|by apply Ht]. intros Hs. by apply (Hb t Hp) in Hs as [? _].
  - apply spent_none. eapply Forall_impl; [exact Hl|]. intros [t x] [Hp _]. cbn in *. destruct (same now t) eqn:E'; [|done].
    apply (Hb t Hp) in E' as [_ ?]. congruence.
Qed.

(** * Statistics as sums over a log

    [add] and [revert] keep the sums equal to those over the log of what was
    spent, as long as the clock does not run backwards. *)

Lemma later_neq a b : a <= b -> (a <? b) = negb (a =? b).
Proof. intros Hle. apply eq_bool_prop_intro. rewrite !Is_true_true, negb_true_iff, Z.ltb_lt, Z.eqb_neq. lia. Qed.

Section Clear.
Context {S : Type}.
Implicit Types (l : Log) (se : StatisticsEntry) (s : S).

(** What the sums are at a later time. *)
Definition cleared se now w : StatisticsEntry :=
  SF.set se (if sameDay now (updatedAt se) then dailyOutcome se else 0) w
    (if sameMonth now (updatedAt se) then monthlyOutcome se else 0)
    (if sameYear now (updatedAt se) then annualOutcome se else 0) (updatedAt se).

Lemma weekPassed_ret u now s : u <= now -> exists b x, VC.weekPassed (gmtime u) (gmtime now) s = Ret (b, x) s /\
  tm_yday x = tm_yday (gmtime u) /\ (b = true -> weekOf u < weekOf now) /\ (regular u now -> b = (weekOf u <? weekOf now)).
Proof.
  intros Hle. pose proof (year_mono u now Hle) as Hy. destruct (Z.eq_dec (tm_year (gmtime u)) (tm_year (gmtime now))) as [E|E].
  { exists (weekOf u <? weekOf now), (gmtime u). rewrite weekPassed_same by done. split_and!; [done|done|by apply Z.ltb_lt|done]. }
  destruct (Z.eq_dec (tm_year (gmtime now)) (tm_year (gmtime u) + 1)) as [E1|E1].
  - destruct (weekPassed_next u now s Hle E1) as (x & Hx & Hw). eexists _, x. split_and!; [done|done| |].
    + intros [Hb _]%andb_true_iff. by apply Z.ltb_lt.
    + intros [?|[_ Hr]]; [done|]. by rewrite (proj2 (Z.eqb_neq _ _) Hr), andb_true_r.
  - destruct (weekPassed_far u now s ltac:(lia)) as (Hlt & b & x & Hx & Hw). eexists b, x. split_and!; [done|done|done|].
    intros [?|[? _]]; lia.
Qed.

Lemma clear_ret se now s : updatedAt se <= now -> exists w, SF.clearObsolete now se s = Ret (cleared se now w) s /\
  (w = 0 /\ weekOf (updatedAt se) < weekOf now \/ w = weeklyOutcome se) /\
  (regular (updatedAt se) now -> w = if sameWeek now (updatedAt se) then weeklyOutcome se else 0).
Proof.
  intros Hle. unfold SF.clearObsolete, VC.tm_from_time_t. destruct (weekPassed_ret (updatedAt se) now s Hle) as (b & x & Hw & Hx & Hb & Hr).
  unfold mbind, M_bind. rewrite Hw. exists (if b then 0 else weeklyOutcome se). split; [|split].
  - unfold mret, M_ret, cleared, sameDay, sameMonth, sameYear. pose proof (year_mono _ _ Hle) as Hy.
    rewrite Hx. set (u := updatedAt se) in *.
    destruct (Z_lt_le_dec (tm_year (gmtime u)) (tm_year (gmtime now))) as [Hlt|Hge].
    { by rewrite (proj2 (Z.ltb_lt _ _) Hlt), (proj2 (Z.eqb_neq _ _)) by lia. }
    assert (tm_year (gmtime u) = tm_year (gmtime now)) as E by lia. pose proof (yday_mono _ _ Hle E) as Hyd. pose proof (mon_mono _ _ Hle E) as Hmo.
    rewrite E, Z.ltb_irrefl, Z.eqb_refl. cbn [orb andb]. rewrite !later_neq by done. unfold SF.set. do 2 f_equal.
    + by destruct (_ =? _).
    + by destruct (_ =? _).
  - destruct b; [left; split; [done|by apply Hb]|by right].
  - intros Hreg. rewrite (Hr Hreg). unfold sameWeek. pose proof (weekOf_mono _ _ Hle).
    destruct (Z.ltb_spec (weekOf (updatedAt se)) (weekOf now)).
    + by rewrite (proj2 (Z.eqb_neq _ _)) by lia.
    + by rewrite (proj2 (Z.eqb_eq _ _)) by lia.
Qed.

(** The log at a later time. *)
Lemma cleared_ok l se now w : updatedAt se <= now -> statOk l se ->
  (w = 0 /\ weekOf (updatedAt se) < weekOf now \/ w = weeklyOutcome se) ->
  let se' := cleared se now w in
  Forall (fun p => p.1 <= now /\ 0 <= p.2) l /\ annualOutcome se' = spent (sameYear now) l /\ monthlyOutcome se' = spent (sameMonth now) l /\
  dailyOutcome se' = spent (sameDay now) l /\ spent (sameWeek now) l <= weeklyOutcome se' <= total l.
Proof.
  intros Hle [Hp Ha Hm Hd Hw] Hww. cbv zeta. cbn [cleared SF.set annualOutcome monthlyOutcome dailyOutcome weeklyOutcome].
  set (u := updatedAt se) in *.
  assert (Forall (fun p => 0 <= p.2) l) as Hpos by (eapply Forall_impl; [exact Hp|]; by intros ? [_ ?]).
  assert (spent (sameYear now) l = if sameYear now u then spent (sameYear u) l else 0) as Ey.
  { apply spent_later; [done|done| |]; intros t; [intros ?; by apply year_between|]. unfold sameYear. rewrite !Z.eqb_eq. lia. }
  assert (spent (sameMonth now) l = if sameMonth now u then spent (sameMonth u) l else 0) as Em.
  { apply spent_later; [done|done| |]; intros t; [intros ?; by apply month_between|]. unfold sameMonth, sameYear. rewrite !andb_true_iff, !Z.eqb_eq. lia. }
  assert (spent (sameDay now) l = if sameDay now u then spent (sameDay u) l else 0) as Ed.
  { apply spent_later; [done|done| |]; intros t; [intros ?; by apply day_between|]. unfold sameDay, sameYear. rewrite !andb_true_iff, !Z.eqb_eq. lia. }
  assert (spent (sameWeek now) l = if sameWeek now u then spent (sameWeek u) l else 0) as Ew.
  { apply spent_later; [done|done| |]; intros t; [intros ?; by apply week_between|]. unfold sameWeek. rewrite !Z.eqb_eq. lia. }
  pose proof (spent_bounds (sameWeek u) l Hpos) as Hb. rewrite Ey, Em, Ed, Ew, Ha, Hm, Hd.
  split_and!; try done.
  - eapply Forall_impl; [exact Hp|]. intros p [? ?]. split; [lia|done].
  - destruct Hww as [[-> Hlt]| ->]; [|destruct (sameWeek now u); lia]. unfold sameWeek. rewrite (proj2 (Z.eqb_neq _ _)) by lia. done.
  - destruct Hww as [[-> _]| ->]; lia.
Qed.

(** ** Adding *)

Lemma add_log l se now x s : updatedAt se <= now -> statOk l se -> 0 <= x -> total l + x <= UINT64_MAX ->
  exists se', SF.add x now se s = Ret (true, se') s /\ statOk ((now, x) :: l) se' /\ updatedAt se' = now /\
    (weekExact l se -> regular (updatedAt se) now -> weekExact ((now, x) :: l) se').
Proof.
  intros Hle Hok Hx Htot. destruct (clear_ret se now s Hle) as (w & Hc & Hw & Hr). destruct (cleared_ok l se now w Hle Hok Hw) as (Hp & Ha & Hm & Hd & Hwk).
  assert (Forall (fun p => 0 <= p.2) l) as Hpos by (eapply Forall_impl; [exact Hp|]; by intros ? [_ ?]).
  pose proof (spent_bounds (sameYear now) l Hpos). pose proof (spent_bounds (sameMonth now) l Hpos). pose proof (spent_bounds (sameDay now) l Hpos).
  pose proof (spent_bounds (sameWeek now) l Hpos).
  unfold SF.add, mbind, M_bind. rewrite Hc. cbn [SF.set annualOutcome monthlyOutcome dailyOutcome weeklyOutcome].
  assert (forall v, 0 <= v <= total l -> safeSum v x = (true, v + x)) as Hss.
  { intros v Hv. rewrite safeSum_spec, (proj2 (Z.leb_le _ _)), u64_small by word_lia. done. }
  rewrite !Hss by lia. cbn [negb]. eexists. split; [reflexivity|]. set (se' := SF.set _ _ _ _ _ _).
  assert (sameYear now now = true /\ sameMonth now now = true /\ sameDay now now = true /\ sameWeek now now = true) as (Y & Mo & D & W).
  { unfold sameMonth, sameDay, sameYear, sameWeek. by rewrite !Z.eqb_refl. }
  split; [|split; [done|]].
  - split; cbn [se' SF.set annualOutcome monthlyOutcome dailyOutcome weeklyOutcome updatedAt].
    + constructor; [cbn; lia|done].
    + rewrite spent_cons. cbn [fst snd]. rewrite Y, Ha. lia.
    + rewrite spent_cons. cbn [fst snd]. rewrite Mo, Hm. lia.
    + rewrite spent_cons. cbn [fst snd]. rewrite D, Hd. lia.
    + unfold total. rewrite !spent_cons. cbn [fst snd]. rewrite W. fold (total l). lia.
  - intros Hwe Hreg. unfold weekExact in *. cbn [se' SF.set weeklyOutcome updatedAt]. rewrite spent_cons. cbn [fst snd]. rewrite W.
    cbn [cleared SF.set weeklyOutcome]. rewrite (Hr Hreg), Hwe.
    rewrite (spent_later sameWeek l (updatedAt se) now); [destruct (sameWeek now (updatedAt se)); lia|done|apply Hok| |].
    + intros t ?. by apply week_between.
    + intros t. unfold sameWeek. rewrite !Z.eqb_eq. lia.
Qed.

(** ** Reverting *)

Lemma spent_remove f l1 l2 (t x : Z) : spent f (l1 ++ l2) = spent f (l1 ++ (t, x) :: l2) - (if f t then x else 0).
Proof. rewrite !spent_app, spent_cons. cbn [fst snd]. destruct (f t); lia. Qed.

Lemma spent_has f l1 l2 (t x : Z) : Forall (fun p => 0 <= p.2) (l1 ++ (t, x) :: l2) -> f t = true -> x <= spent f (l1 ++ (t, x) :: l2).
Proof.
  intros [H1 [_ H2]%Forall_cons]%Forall_app Hf. rewrite spent_app, spent_cons. cbn [fst snd]. rewrite Hf.
  pose proof (spent_bounds f l1 H1). pose proof (spent_bounds f l2 H2). lia.
Qed.

Lemma sameDay_week now t : sameDay now t = true -> sameWeek now t = true.
Proof.
  unfold sameDay, sameYear, sameWeek, weekOf. rewrite andb_true_iff, !Z.eqb_eq, !gmtime_yday. intros [-> Hd]. do 2 f_equal. lia.
Qed.

Lemma sameDay_month now t : sameDay now t = true -> sameMonth now t = true.
Proof.
  unfold sameDay, sameMonth. rewrite !andb_true_iff. intros [Hy Hd]. split; [done|]. unfold sameYear in Hy. rewrite Z.eqb_eq in *.
  apply mon_day. rewrite !gmtime_yday, Hy in Hd. lia.
Qed.

Lemma revert_log l1 l2 se now t x s : let l := l1 ++ (t, x) :: l2 in updatedAt se <= now -> statOk l se ->
  exists se', SF.revert x now t se s = Ret se' s /\ updatedAt se' = now /\
    annualOutcome se' = spent (sameYear now) (l1 ++ l2) /\ monthlyOutcome se' = spent (sameMonth now) (l1 ++ l2) /\
    dailyOutcome se' = spent (sameDay now) (l1 ++ l2) /\ spent (sameWeek now) (l1 ++ l2) <= weeklyOutcome se' /\
    (weekExact l se -> regular (updatedAt se) now -> sameMonth now t = true -> weekExact (l1 ++ l2) se').
Proof.
  cbv zeta. set (l := l1 ++ (t, x) :: l2). intros Hle Hok. destruct (clear_ret se now s Hle) as (w & Hc & Hw & Hr).
  destruct (cleared_ok l se now w Hle Hok Hw) as (Hp & Ha & Hm & Hd & Hwk).
  assert (Forall (fun p => 0 <= p.2) l) as Hpos by (eapply Forall_impl; [exact Hp|]; by intros ? [_ ?]).
  assert (t <= now /\ 0 <= x) as [Htn Hx] by (apply Forall_app in Hp as [_ [Hp _]%Forall_cons]; exact Hp).
  assert (weekExact l se -> regular (updatedAt se) now -> w = spent (sameWeek now) l) as Hex.
  { intros Hwe Hreg. rewrite (Hr Hreg), Hwe. symmetry. apply spent_later; [done|apply Hok| |]; intros u.
    - intros ?. by apply week_between.
    - unfold sameWeek. rewrite !Z.eqb_eq. lia. }
  pose proof (fun f => spent_remove f l1 l2 t x) as Hrem. fold l in Hrem. pose proof (fun f => spent_has f l1 l2 t x Hpos) as Hhas. fold l in Hhas.
  pose proof (sameDay_month now t) as Hdm. pose proof (sameDay_week now t) as Hdw.
  unfold SF.revert, VC.tm_from_time_t, weekExact in *. unfold mbind at 1, M_bind at 1. rewrite Hc. cbn [SF.set annualOutcome monthlyOutcome dailyOutcome weeklyOutcome].
  cbn [cleared SF.set annualOutcome monthlyOutcome dailyOutcome weeklyOutcome] in Ha, Hm, Hd, Hwk |- *. rewrite Ha, Hm, Hd.
  rewrite (Z.eqb_sym (tm_year (gmtime now))). fold (sameYear now t). destruct (sameYear now t) eqn:Ey; cbn [negb].
  2:{ assert (sameMonth now t = false) as Em by (unfold sameMonth; by rewrite Ey). assert (sameDay now t = false) as Ed by (unfold sameDay; by rewrite Ey).
      eexists. split; [done|]. cbn [SF.set annualOutcome monthlyOutcome dailyOutcome weeklyOutcome updatedAt]. rewrite !Hrem, Ey, Em, Ed.
      split_and!; try lia; try done; destruct (sameWeek now t); lia. }
  rewrite Z.gtb_ltb, (proj2 (Z.ltb_ge _ _) (Hhas _ Ey)).
  rewrite (Z.eqb_sym (tm_mon (gmtime now))). assert (sameMonth now t = (tm_mon (gmtime t) =? tm_mon (gmtime now))) as <- by (unfold sameMonth; by rewrite Ey).
  destruct (sameMonth now t) eqn:Em; cbn [negb].
  2:{ assert (sameDay now t = false) as Ed by (destruct (sameDay now t); [by specialize (Hdm eq_refl)|done]).
      eexists. split; [done|]. cbn [SF.set annualOutcome monthlyOutcome dailyOutcome weeklyOutcome updatedAt]. rewrite !Hrem, Ey, Em, Ed.
      split_and!; try lia; try done; destruct (sameWeek now t); lia. }
  rewrite Z.gtb_ltb, (proj2 (Z.ltb_ge _ _) (Hhas _ Em)). unfold mbind, M_bind.
  rewrite weekPassed_same by (done || unfold sameYear in Ey; lia).
  rewrite later_neq by (by apply weekOf_mono). fold (sameWeek now t). destruct (sameWeek now t) eqn:Ew; cbn [negb].
  2:{ assert (sameDay now t = false) as Ed by (destruct (sameDay now t); [by specialize (Hdw eq_refl)|done]).
      eexists. split; [done|]. cbn [SF.set annualOutcome monthlyOutcome dailyOutcome weeklyOutcome updatedAt]. rewrite !Hrem, Em, Ew, Ed, Ey. split_and!; try lia. intros H1 H2 _. specialize (Hex H1 H2). lia. }
  pose proof (Hhas _ Ew). rewrite Z.gtb_ltb, (proj2 (Z.ltb_ge _ _)) by lia.
  rewrite (Z.eqb_sym (tm_yday (gmtime now))). assert (sameDay now t = (tm_yday (gmtime t) =? tm_yday (gmtime now))) as <- by (unfold sameDay; by rewrite Ey).
  destruct (sameDay now t) eqn:Ed; cbn [negb].
  - rewrite Z.gtb_ltb, (proj2 (Z.ltb_ge _ _) (Hhas _ Ed)). eexists. split; [done|]. cbn [SF.set annualOutcome monthlyOutcome dailyOutcome weeklyOutcome updatedAt].
    rewrite !Hrem, Em, Ew, Ed, Ey. split_and!; try lia. intros H1 H2 _. specialize (Hex H1 H2). lia.
  - eexists. split; [done|]. cbn [SF.set annualOutcome monthlyOutcome dailyOutcome weeklyOutcome updatedAt].
    rewrite !Hrem, Em, Ew, Ed, Ey. split_and!; try lia. intros H1 H2 _. specialize (Hex H1 H2). lia.
Qed.

End Clear.

(** ** Histories of one account *)

(** Additions one after the other; [None] if one of them fails. *)
Fixpoint addAll (hist : Log) (se : StatisticsEntry) : M unit (option StatisticsEntry) :=
  match hist with
  | [] => mret (Some se)
  | (t, x) :: r => '(ok, se) ← SF.add x t se; if (ok : bool) then addAll r se else mret None
  end.

(** [AccountManager::createStats] *)
Definition newStatistics (account : PublicKey) : StatisticsEntry :=
  {| statAccountID := account; dailyOutcome := 0; weeklyOutcome := 0; monthlyOutcome := 0; annualOutcome := 0; updatedAt := 0 |}.

(** Times that do not decrease, from [u] on. *)
Fixpoint ordered (u : Z) (hist : list (Z * Z)) : Prop :=
  match hist with [] => True | p :: r => u <= p.1 /\ 0 <= p.2 /\ ordered p.1 r end.

Fixpoint regularFrom (u : Z) (hist : list (Z * Z)) : Prop :=
  match hist with [] => True | p :: r => regular u p.1 /\ regularFrom p.1 r end.

Lemma ordered_pos u hist : ordered u hist -> Forall (fun p => 0 <= p.2) hist.
Proof. revert u. induction hist as [|p hist IH]; intros u; [constructor|]. intros (_ & Hp & Hr). constructor; [done|by eapply IH]. Qed.

Lemma new_statOk account : statOk [] (newStatistics account).
Proof. split; [constructor|done|done|done|cbn; lia]. Qed.

Lemma spent_rev f (l : Log) : spent f (rev l) = spent f l.
Proof. induction l as [|p l IH]; [done|]. cbn [rev]. rewrite spent_app, IH, !spent_cons. cbn. lia. Qed.

Definition lastTime (u : Z) (hist : Log) : Z := match last hist with Some p => p.1 | None => u end.

Lemma lastTime_cons u p hist : lastTime u (p :: hist) = lastTime p.1 hist.
Proof. unfold lastTime. destruct hist as [|q hist]; [done|]. change (last (p :: q :: hist)) with (last (q :: hist)). by destruct (last (q :: hist)) eqn:E; [|apply last_None in E]. Qed.

Lemma addAll_log hist : forall l se, ordered (updatedAt se) hist -> statOk l se -> total l + total hist <= UINT64_MAX ->
  exists se', addAll hist se tt = Ret (Some se') tt /\ statOk (rev hist ++ l) se' /\
    updatedAt se' = lastTime (updatedAt se) hist /\ (weekExact l se -> regularFrom (updatedAt se) hist -> weekExact (rev hist ++ l) se').
Proof.
  induction hist as [|[t x] hist IH]; intros l se Hord Hok Htot; [exists se; by split_and!|]. destruct Hord as (Hle & Hx & Hord).
  cbn [fst snd] in *. unfold total in Htot. rewrite (spent_cons _ (t, x)) in Htot. cbn [snd] in Htot. fold (total l) (total hist) in Htot.
  assert (0 <= total hist) as Hpos by (apply spent_bounds, (ordered_pos t), Hord).
  destruct (add_log l se t x tt Hle Hok Hx ltac:(lia)) as (se1 & E1 & Hok1 & Hu & Hw1).
  destruct (IH ((t, x) :: l) se1) as (se2 & E2 & Hok2 & Hu2 & Hw2); [by rewrite Hu|done|unfold total; rewrite spent_cons; cbn [snd]; fold (total l) (total hist); lia|].
  exists se2. cbn [addAll]. unfold mbind, M_bind. rewrite E1. cbn [rev]. rewrite <- app_assoc, lastTime_cons. cbn [app fst]. split_and!; try done; [by rewrite Hu2, Hu|].
  intros Hwe [Hr Hrs]. apply Hw2; [by apply Hw1|]. by rewrite Hu.
Qed.

(** From the first outcome on. *)
Definition regularHistory (hist : Log) : Prop := match hist with [] => True | p :: r => regularFrom p.1 r end.

Lemma addAll_new account hist : ordered 0 hist -> total hist <= UINT64_MAX ->
  exists se, addAll hist (newStatistics account) tt = Ret (Some se) tt /\ statOk (rev hist) se /\
    updatedAt se = lastTime 0 hist /\ (regularHistory hist -> weekExact (rev hist) se).
Proof.
  destruct hist as [|[t x] hist]; [intros _ _; exists (newStatistics account); split_and!; try done; apply new_statOk|].
  intros (Hle & Hx & Hord) Htot. unfold total in Htot. rewrite spent_cons in Htot. cbn [fst snd] in *. fold (total hist) in Htot.
  assert (0 <= total hist) as Hpos by (apply spent_bounds, (ordered_pos t), Hord).
  destruct (add_log [] (newStatistics account) t x tt Hle (new_statOk account) Hx ltac:(cbn; lia)) as (se1 & E1 & Hok1 & Hu & _).
  assert (weekExact [(t, x)] se1) as Hw1.
  { destruct Hok1 as [_ _ _ _ Hw]. revert Hw. unfold weekExact, total, sameWeek. rewrite Hu. cbn [spent foldr fst snd]. rewrite Z.eqb_refl. lia. }
  destruct (addAll_log hist [(t, x)] se1) as (se2 & E2 & Hok2 & Hu2 & Hw2); [by rewrite Hu|done|cbn; fold (total hist); lia|].
  exists se2. cbn [addAll rev]. unfold mbind, M_bind. rewrite E1, lastTime_cons. cbn [fst]. split_and!; try done; [by rewrite Hu2, Hu|].
  cbn [regularHistory fst]. intros Hr. apply Hw2; [done|by rewrite Hu].
Qed.
