(* ===== verification/StatisticsTheorems.v ===== *)
(** * Properties of dates and statistics *)

From S2P Require Import Prelude BigMath Signatures Calendar Statistics.

(** C20. For every history of outcomes of an account in the order of time whose
    total fits in 64 bits, recording them one by one succeeds, and the yearly,
    monthly and daily sums are those of the outcomes in the year, month and
    day of the last one.  The weekly sum is never too small; it is the sum of
    the last week (which starts on Sunday) if no two outcomes that follow each
    other are seven days apart across a new year or in years that do not
    follow each other. *)
Theorem statistics_are_sums account hist : ordered 0 hist -> total hist <= UINT64_MAX ->
  exists se, addAll hist (newStatistics account) tt = Ret (Some se) tt /\ updatedAt se = lastTime 0 hist /\
    annualOutcome se = spent (sameYear (updatedAt se)) hist /\ monthlyOutcome se = spent (sameMonth (updatedAt se)) hist /\
    dailyOutcome se = spent (sameDay (updatedAt se)) hist /\ spent (sameWeek (updatedAt se)) hist <= weeklyOutcome se <= total hist /\
    (regularHistory hist -> weeklyOutcome se = spent (sameWeek (updatedAt se)) hist).
Proof.
  intros Hord Htot. destruct (addAll_new account hist Hord Htot) as (se & E & [_ Ha Hm Hd Hwk] & Hu & Hw).
  exists se. unfold weekExact, total in *. rewrite !spent_rev in *. split_and!; try done; lia.
Qed.

(** Three outcomes of 2018, on 30 January, 31 January and 1 February. *)
Definition winter : Log := [(1517270400, 5); (1517356800, 7); (1517443200, 11)].

Lemma statistics_are_sums_witness : exists se, addAll winter (newStatistics [1]) tt = Ret (Some se) tt /\ updatedAt se = lastTime 0 winter /\
    annualOutcome se = spent (sameYear (updatedAt se)) winter /\ monthlyOutcome se = spent (sameMonth (updatedAt se)) winter /\
    dailyOutcome se = spent (sameDay (updatedAt se)) winter /\ spent (sameWeek (updatedAt se)) winter <= weeklyOutcome se <= total winter /\
    (regularHistory winter -> weeklyOutcome se = spent (sameWeek (updatedAt se)) winter).
Proof. apply (statistics_are_sums [1] winter); [cbn; lia|cbn; unfold UINT64_MAX; lia]. Defined.

(** Reverting an outcome that is in the history of an account never throws,
    at any later time, and gives the yearly, monthly and daily sums of the
    history without it; the weekly sum is right too if the outcome is of the
    current month. *)
Theorem revert_removes_outcome l1 l2 se now t x : statOk (l1 ++ (t, x) :: l2) se -> updatedAt se <= now ->
  exists se', SF.revert x now t se tt = Ret se' tt /\ updatedAt se' = now /\
    annualOutcome se' = spent (sameYear now) (l1 ++ l2) /\ monthlyOutcome se' = spent (sameMonth now) (l1 ++ l2) /\
    dailyOutcome se' = spent (sameDay now) (l1 ++ l2) /\ spent (sameWeek now) (l1 ++ l2) <= weeklyOutcome se' /\
    (weekExact (l1 ++ (t, x) :: l2) se -> regular (updatedAt se) now -> sameMonth now t = true -> weekExact (l1 ++ l2) se').
Proof. intros Hok Hle. exact (revert_log l1 l2 se now t x tt Hle Hok). Qed.

(** The statistics of [winter]. *)
Definition winterStat : StatisticsEntry :=
  {| statAccountID := [1]; dailyOutcome := 11; weeklyOutcome := 23; monthlyOutcome := 11; annualOutcome := 23; updatedAt := 1517443200 |}.

Lemma revert_removes_outcome_witness : exists se', SF.revert 7 1517443200 1517356800 winterStat tt = Ret se' tt /\ updatedAt se' = 1517443200 /\
    annualOutcome se' = spent (sameYear 1517443200) ([(1517443200, 11)] ++ [(1517270400, 5)]) /\
    monthlyOutcome se' = spent (sameMonth 1517443200) ([(1517443200, 11)] ++ [(1517270400, 5)]) /\
    dailyOutcome se' = spent (sameDay 1517443200) ([(1517443200, 11)] ++ [(1517270400, 5)]) /\
    spent (sameWeek 1517443200) ([(1517443200, 11)] ++ [(1517270400, 5)]) <= weeklyOutcome se' /\
    (weekExact ([(1517443200, 11)] ++ (1517356800, 7) :: [(1517270400, 5)]) winterStat -> regular (updatedAt winterStat) 1517443200 ->
       sameMonth 1517443200 1517356800 = true -> weekExact ([(1517443200, 11)] ++ [(1517270400, 5)]) se').
Proof.
  apply (revert_removes_outcome [(1517443200, 11)] [(1517270400, 5)] winterStat 1517443200 1517356800 7); [|reflexivity].
  split; [repeat constructor; cbn; lia|reflexivity|reflexivity|reflexivity|vm_compute; split; discriminate].
Defined.

(** Two ways the weekly sum of an account is wrong.  Seven days from
    28 December 2017 to 4 January 2018, and 371 days from 30 December 2016 to
    5 January 2018, do not count as a week, so that what was spent before stays
    in the weekly sum.  Reverting on 1 February 2018 what was spent the
    day before, in the same week, leaves it in the weekly sum. *)
Theorem weekly_sum_wrong :
  (exists se, addAll [(1514419200, 5); (1515024000, 7)] (newStatistics [1]) tt = Ret (Some se) tt /\
     weeklyOutcome se = 12 /\ annualOutcome se = 7 /\ weekOf 1514419200 < weekOf 1515024000) /\
  (exists se, addAll [(1483056000, 5); (1515110400, 7)] (newStatistics [1]) tt = Ret (Some se) tt /\
     weeklyOutcome se = 12 /\ annualOutcome se = 7 /\ weekOf 1483056000 + 52 < weekOf 1515110400) /\
  (exists se, SF.revert 7 1517443200 1517356800 winterStat tt = Ret se tt /\
     weeklyOutcome se = 23 /\ annualOutcome se = 16 /\ sameWeek 1517443200 1517356800 = true).
Proof. split_and!; eexists; vm_compute; done. Qed.
