(* ===== verification/Work.v ===== *)
(** * Work items ([work/Work.cpp], [work/WorkParent.cpp], [work/WorkManagerImpl.cpp])

    Trees of asynchronous jobs.  A work starts when its children have
    succeeded, is retried when it fails, and tells its parent when it is
    done; the manager owns the roots of the trees and drops a root that is
    done.  Handlers run one at a time: closures posted to the event loop,
    completions of processes a work has started, and retry timers.

    Works live in [works], addressed by their number; a child has a greater
    number than its parent, as it is constructed later.  The parents own
    their children through [mChildren], and a [weak_ptr] to a work can be
    locked as long as it is owned ([lock]).  What a subclass keeps and its
    virtual methods are the parameters [X] and [WorkVirtuals]. *)

From S2P Require Import Prelude OrdContainers.

Inductive WorkState :=
| WORK_PENDING
| WORK_RUNNING
| WORK_SUCCESS
| WORK_FAILURE_RETRY
| WORK_FAILURE_RAISE.

Global Instance WorkState_eq_dec : EqDecision WorkState.
Proof. solve_decision. Defined.

Notation Name := (list Z).
Notation wid := nat.

(** What [mParent] points to. *)
Inductive ParentRef := ManagerRef | WorkRef (w : wid).

Global Instance ParentRef_eq_dec : EqDecision ParentRef.
Proof. solve_decision. Defined.

(** How [onRun] goes on: it completes at once, or hands [callComplete()] to
    a process that will call it. *)
Inductive RunAction := RunComplete (ec : bool) | RunProcess.

Class WorkVirtuals (X : Type) := {
  onReset : X -> X;
  onStart : X -> X;
  onRun : X -> RunAction * X;
  onSuccess : X -> WorkState * X;
  onFailureRetry : X -> X;
  onFailureRaise : X -> X;
}.

(** The virtual methods of [Work] itself. *)
Definition Work_virtuals : WorkVirtuals unit := {|
  onReset := fun x => x;
  onStart := fun x => x;
  onRun := fun x => (RunComplete false, x);
  onSuccess := fun x => (WORK_SUCCESS, x);
  onFailureRetry := fun x => x;
  onFailureRaise := fun x => x;
|}.

Record Work (X : Type) := {
  mParent : ParentRef;
  mUniqueName : Name;
  mChildren : list (Name * wid);
  mMaxRetries : Z;
  mRetries : Z;
  mState : WorkState;
  mRetryWait : bool;          (** [mRetryTimer] has a wait that is neither over nor cancelled *)
  mSub : X;                   (** the members of the subclass *)
}.
Arguments mParent {X} _.
Arguments mUniqueName {X} _.
Arguments mChildren {X} _.
Arguments mMaxRetries {X} _.
Arguments mRetries {X} _.
Arguments mState {X} _.
Arguments mRetryWait {X} _.
Arguments mSub {X} _.
Arguments Build_Work {X} _ _ _ _ _ _ _ _.

(** Closures in the queue of the event loop. *)
Inductive Post := PostRun (w : wid) | PostComplete (w : wid) (ec : bool).

(** Calls of the virtual methods and results, in the order they happen. *)
Inductive WorkEvent := WStart (w : wid) | WRun (w : wid) | WSucceeded (w : wid) | WRetry (w : wid) | WRaised (w : wid).

Record World (X : Type) := {
  works : list (Work X);
  roots : list (Name * wid);       (** [mChildren] of the manager *)
  posts : list Post;
  processes : list wid;            (** works whose [callComplete()] a process holds *)
  history : list WorkEvent;
}.
Arguments works {X} _.
Arguments roots {X} _.
Arguments posts {X} _.
Arguments processes {X} _.
Arguments history {X} _.
Arguments Build_World {X} _ _ _ _ _.

Definition postWork (p : Post) : wid := match p with PostRun w => w | PostComplete w _ => w end.

Section Fields.
Context {X : Type}.
Implicit Types (x : Work X) (s : World X).

Definition setMState (st : WorkState) x := Build_Work (mParent x) (mUniqueName x) (mChildren x) (mMaxRetries x) (mRetries x) st (mRetryWait x) (mSub x).
Definition setMRetries (n : Z) x := Build_Work (mParent x) (mUniqueName x) (mChildren x) (mMaxRetries x) n (mState x) (mRetryWait x) (mSub x).
Definition setMRetryWait (b : bool) x := Build_Work (mParent x) (mUniqueName x) (mChildren x) (mMaxRetries x) (mRetries x) (mState x) b (mSub x).
Definition setMSub (y : X) x := Build_Work (mParent x) (mUniqueName x) (mChildren x) (mMaxRetries x) (mRetries x) (mState x) (mRetryWait x) y.
Definition setMChildren (l : list (Name * wid)) x := Build_Work (mParent x) (mUniqueName x) l (mMaxRetries x) (mRetries x) (mState x) (mRetryWait x) (mSub x).

Definition setWorks (ws : list (Work X)) s := Build_World ws (roots s) (posts s) (processes s) (history s).
Definition setRoots (r : list (Name * wid)) s := Build_World (works s) r (posts s) (processes s) (history s).
Definition setPosts (p : list Post) s := Build_World (works s) (roots s) p (processes s) (history s).
Definition setProcesses (p : list wid) s := Build_World (works s) (roots s) (posts s) p (history s).
Definition note (e : WorkEvent) s := Build_World (works s) (roots s) (posts s) (processes s) (history s ++ [e]).

(** The works a [shared_ptr] of some [mChildren] keeps alive. *)
Fixpoint owned (fuel : nat) s (w : wid) : bool :=
  match fuel with
  | O => false
  | Datatypes.S f =>
      match works s !! w with
      | None => false
      | Some x =>
          match mParent x with
          | ManagerRef => bool_decide (om_find (mUniqueName x) (roots s) = Some w)
          | WorkRef p => match works s !! p with
                         | None => false
                         | Some y => bool_decide (om_find (mUniqueName x) (mChildren y) = Some w) && owned f s p
                         end
          end
      end
  end.

(** [weak.lock()] *)
Definition lock s (w : wid) : bool := owned (Datatypes.S w) s w.

End Fields.

Module WK.
Section Methods.
Context {X : Type} `{!WorkVirtuals X}.
Notation MW := (M (World X)).

(** [this] *)
Definition self (w : wid) : MW (Work X) := s ← get; deref (works s !! w).
Definition upd (w : wid) (f : Work X -> Work X) : MW unit := modify (fun s => setWorks (alter f w (works s)) s).
Definition post (p : Post) : MW unit := modify (fun s => setPosts (posts s ++ [p]) s).
Definition call (w : wid) (f : X -> X) : MW unit := upd w (fun x => setMSub (f (mSub x)) x).

Definition stateOf (s : World X) (w : wid) : option WorkState := mState <$> works s !! w.

Definition anyChildRaiseFailure (s : World X) (children : list (Name * wid)) : bool :=
  existsb (fun c => bool_decide (stateOf s c.2 = Some WORK_FAILURE_RAISE)) children.

Definition allChildrenSuccessful (s : World X) (children : list (Name * wid)) : bool :=
  forallb (fun c => bool_decide (stateOf s c.2 = Some WORK_SUCCESS)) children.

Definition isDone (st : WorkState) : bool := match st with WORK_SUCCESS | WORK_FAILURE_RAISE => true | _ => false end.

Definition allChildrenDone (s : World X) (children : list (Name * wid)) : bool :=
  forallb (fun c => match stateOf s c.2 with Some st => isDone st | None => false end) children.

Definition setState (w : wid) (st : WorkState) : MW unit :=
  x ← self w;
  let maxR := mMaxRetries x in
  let st := if bool_decide (st = WORK_FAILURE_RETRY) && (mRetries x >=? maxR) then WORK_FAILURE_RAISE else st in
  when (negb (bool_decide (st = mState x))) (upd w (setMState st)).

Definition scheduleRun (w : wid) : MW unit := post (PostRun w).
Definition scheduleComplete (w : wid) (ec : bool) : MW unit := post (PostComplete w ec).
Definition scheduleSuccess (w : wid) : MW unit := scheduleComplete w false.
Definition scheduleFailure (w : wid) : MW unit := scheduleComplete w true.

(** The wait that was outstanding is cancelled. *)
Definition scheduleRetry (w : wid) : MW unit :=
  x ← self w;
  if negb (bool_decide (mState x = WORK_FAILURE_RETRY)) then throw (RuntimeError "retrying in state") else
  upd w (setMRetryWait true).

Definition reset (w : wid) : MW unit := setState w WORK_PENDING;; call w onReset.

Fixpoint advanceChildren (advance : wid -> MW unit) (children : list (Name * wid)) : MW unit :=
  match children with
  | [] => mret tt
  | (_, c) :: r => advance c;; advanceChildren advance r
  end.

Fixpoint advanceFuel (fuel : nat) (w : wid) : MW unit :=
  match fuel with
  | O => throw OutOfFuel
  | Datatypes.S f =>
      x ← self w;
      if negb (bool_decide (mState x = WORK_PENDING)) then mret tt else
      advanceChildren (advanceFuel f) (mChildren x);;
      s ← get;
      if allChildrenSuccessful s (mChildren x) then scheduleRun w
      else if anyChildRaiseFailure s (mChildren x) then scheduleFailure w
      else mret tt
  end.

(** There are not more levels below a work than works. *)
Definition advance (w : wid) : MW unit := s ← get; advanceFuel (length (works s)) w.

Definition runAction (w : wid) (a : RunAction) : MW unit :=
  match a with
  | RunComplete false => scheduleSuccess w
  | RunComplete true => scheduleFailure w
  | RunProcess => modify (fun s => setProcesses (processes s ++ [w]) s)
  end.

Definition run (w : wid) : MW unit :=
  x ← self w;
  when (bool_decide (mState x = WORK_PENDING)) (modify (note (WStart w));; call w onStart);;
  setState w WORK_RUNNING;;
  modify (note (WRun w));;
  x ← self w;
  let '(a, y) := onRun (mSub x) in
  upd w (setMSub y);;
  runAction w a.

(** [WorkManagerImpl::notify] *)
Definition managerNotify (child : Name) : MW unit :=
  s ← get;
  match om_find child (roots s) with
  | None => mret tt
  | Some c =>
      x ← self c;
      when (isDone (mState x)) (modify (fun s => setRoots (om_erase child (roots s)) s));;
      s ← get;
      advanceChildren advance (roots s)
  end.

(** [Work::notify] *)
Definition notify (w : wid) (child : Name) : MW unit := advance w.

Definition notifyParent (w : wid) : MW unit :=
  x ← self w;
  match mParent x with
  | ManagerRef => managerNotify (mUniqueName x)
  | WorkRef p => s ← get; if lock s p then notify p (mUniqueName x) else mret tt
  end.

Definition complete (w : wid) (ec : bool) : MW unit :=
  (if ec then setState w WORK_FAILURE_RETRY
   else x ← self w;
        let '(st, y) := onSuccess (mSub x) in
        upd w (setMSub y);;
        setState w st);;
  x ← self w;
  match mState x with
  | WORK_SUCCESS => modify (note (WSucceeded w));; notifyParent w
  | WORK_FAILURE_RETRY => modify (note (WRetry w));; call w onFailureRetry;; scheduleRetry w
  | WORK_FAILURE_RAISE => modify (note (WRaised w));; call w onFailureRaise;; notifyParent w
  | WORK_PENDING => advance w
  | WORK_RUNNING => scheduleRun w
  end.

(** The body of the retry timer. *)
Definition retry (w : wid) : MW unit :=
  upd w (fun x => setMRetries (u64 (mRetries x + 1)) x);; reset w;; advance w.

(** [addChild], of a work that was constructed for this parent. *)
Definition addChild (parent : ParentRef) (name : Name) (child : wid) : MW unit :=
  s ← get;
  match parent with
  | ManagerRef =>
      if bool_decide (is_Some (om_find name (roots s))) then throw (RuntimeError "duplicate child work") else
      modify (fun s => setRoots (om_set name child (roots s)) s);; reset child
  | WorkRef p =>
      y ← self p;
      if bool_decide (is_Some (om_find name (mChildren y))) then throw (RuntimeError "duplicate child work") else
      upd p (fun y => setMChildren (om_set name child (mChildren y)) y);; reset child
  end.

(** [addWork], with the constructor of [Work]. *)
Definition addWork (parent : ParentRef) (name : Name) (maxRetries : Z) (sub : X) : MW wid :=
  s ← get;
  let w := length (works s) in
  modify (fun s => setWorks (works s ++ [Build_Work parent name [] maxRetries 0 WORK_PENDING false sub]) s);;
  addChild parent name w;;
  mret w.

Definition clearChildren (parent : ParentRef) : MW unit :=
  match parent with
  | ManagerRef => modify (setRoots [])
  | WorkRef p => upd p (setMChildren [])
  end.

(** [advanceChildren] of the manager. *)
Definition managerAdvance : MW unit := s ← get; advanceChildren advance (roots s).

(** A closure of the event loop, of [scheduleRun] or [scheduleComplete]. *)
Definition dispatch (p : Post) : MW unit :=
  s ← get;
  if negb (lock s (postWork p)) then mret tt else
  match p with
  | PostRun w => run w
  | PostComplete w ec => complete w ec
  end.

(** The closure of [callComplete]. *)
Definition completeWeak (w : wid) (ec : bool) : MW unit :=
  s ← get; if negb (lock s w) then mret tt else complete w ec.

(** What can happen next: the event loop takes the first closure, a process
    ends with some result, or the retry timer of a work that still exists
    expires. *)
Inductive Event := EvPost | EvProcess (i : nat) (ec : bool) | EvTimer (w : wid).

Definition enabled (e : Event) (s : World X) : bool :=
  match e with
  | EvPost => match posts s with [] => false | _ => true end
  | EvProcess i _ => bool_decide (is_Some (processes s !! i))
  | EvTimer w => match works s !! w with Some x => mRetryWait x && lock s w | None => false end
  end.

Definition handle (e : Event) : MW unit :=
  s ← get;
  match e with
  | EvPost => match posts s with
              | [] => mret tt
              | p :: r => modify (setPosts r);; dispatch p
              end
  | EvProcess i ec => match processes s !! i with
                      | None => mret tt
                      | Some w => modify (setProcesses (delete i (processes s)));; completeWeak w ec
                      end
  | EvTimer w => upd w (setMRetryWait false);; retry w
  end.

End Methods.
End WK.
