(* ===== verification/WorkFacts.v ===== *)
(** * Methods of work items: what they compute

    [advance] only posts closures; every other handler changes one work. *)

From S2P Require Import Prelude OrdContainers Work.

Import WK.

Section Put.
Context {X : Type}.
Implicit Types (s : World X) (x y : Work X) (w c : wid).

Definition put w x s : World X := setWorks (<[w:=x]> (works s)) s.

Lemma list_alter_insert {A} (f : A -> A) (l : list A) (i : nat) (x : A) : l !! i = Some x -> alter f i l = <[i:=f x]> l.
Proof.
  intros Hi. apply list_eq. intros j. destruct (decide (i = j)) as [->|Hne].
  - rewrite list_lookup_alter_eq, list_lookup_insert_eq, Hi; [done|by eapply lookup_lt_Some].
  - by rewrite list_lookup_alter_ne, list_lookup_insert_ne by done.
Qed.

Lemma upd_ret w f x s : works s !! w = Some x -> upd w f s = Ret tt (put w (f x) s).
Proof. intros Hx. unfold upd, modify, put. by rewrite (list_alter_insert f _ _ x). Qed.

Lemma self_ret w x s : works s !! w = Some x -> self w s = Ret x s.
Proof. intros Hx. unfold self, mbind, M_bind, get. by rewrite Hx. Qed.

Lemma put_same w x s : works s !! w = Some x -> works (put w x s) !! w = Some x.
Proof. intros Hx%lookup_lt_Some. cbn. by apply list_lookup_insert_eq. Qed.

Lemma put_eq w x y s : works s !! w = Some x -> works (put w y s) !! w = Some y.
Proof. intros Hx%lookup_lt_Some. cbn. by apply list_lookup_insert_eq. Qed.

Lemma put_put w x y s : put w y (put w x s) = put w y s.
Proof. unfold put, setWorks. cbn. by rewrite list_insert_insert_eq. Qed.

(** The state [setState] really gives. *)
Definition clip (st : WorkState) x : WorkState :=
  if bool_decide (st = WORK_FAILURE_RETRY) && (mRetries x >=? mMaxRetries x) then WORK_FAILURE_RAISE else st.

Lemma setMState_id x : setMState (mState x) x = x.
Proof. by destruct x. Qed.

Lemma setState_ret w st x s : works s !! w = Some x -> setState w st s = Ret tt (put w (setMState (clip st x) x) s).
Proof.
  intros Hx. unfold setState, mbind, M_bind. rewrite (self_ret w x s Hx). fold (clip st x). destruct (bool_decide_reflect (clip st x = mState x)) as [E|E]; cbn [negb when].
  - rewrite E, setMState_id. unfold put, setWorks, mret, M_ret. rewrite list_insert_id by done. by destruct s.
  - by rewrite (upd_ret w _ x).
Qed.

End Put.

Section Tree.
Context {X : Type} `{!WorkVirtuals X}.
Implicit Types (s : World X) (x y : Work X) (w c : wid).

(** Children were constructed for their parent and after it. *)
Record treeOk s : Prop := {
  tree_child : forall w x n c, works s !! w = Some x -> (n, c) ∈ mChildren x ->
    exists y, works s !! c = Some y /\ mParent y = WorkRef w /\ mUniqueName y = n /\ (w < c)%nat;
  tree_sorted : forall w x, works s !! w = Some x -> om_sorted (mChildren x);
  tree_root : forall n c, (n, c) ∈ roots s -> exists y, works s !! c = Some y /\ mParent y = ManagerRef /\ mUniqueName y = n;
  tree_roots : om_sorted (roots s);
}.

(** Something will happen to a work: a closure or process is about it. *)
Definition due s w : Prop := (exists p, p ∈ posts s /\ postWork p = w) \/ w ∈ processes s.

(** A pending work is due, or waits for a child that is not done. *)
Definition waits s x : Prop := allChildrenSuccessful s (mChildren x) = false /\ anyChildRaiseFailure s (mChildren x) = false.

(** The closures [advance] posts. *)
Definition advPost s (p : Post) : Prop := exists x, works s !! postWork p = Some x /\ mState x = WORK_PENDING /\
  match p with
  | PostRun _ => allChildrenSuccessful s (mChildren x) = true
  | PostComplete _ ec => ec = true /\ anyChildRaiseFailure s (mChildren x) = true
  end.

(** The works [advance] visits. *)
Inductive visits s : wid -> wid -> Prop :=
| visit_self w : visits s w w
| visit_child w x n c d : works s !! w = Some x -> mState x = WORK_PENDING -> (n, c) ∈ mChildren x -> visits s c d -> visits s w d.

Definition morePosts s (l : list Post) : World X := setPosts (posts s ++ l) s.

Lemma morePosts_app s l l' : morePosts (morePosts s l) l' = morePosts s (l ++ l').
Proof. unfold morePosts, setPosts. cbn. by rewrite app_assoc. Qed.

Lemma morePosts_nil s : morePosts s [] = s.
Proof. unfold morePosts, setPosts. rewrite app_nil_r. by destruct s. Qed.

Lemma post_ret s p : post p s = Ret tt (morePosts s [p]).
Proof. done. Qed.

Lemma due_more s l w : due s w -> due (morePosts s l) w.
Proof. intros [(p & Hp & E)|Hp]; [left; exists p; split; [|done]; apply elem_of_app; by left|by right]. Qed.

Lemma due_post s l p w : p ∈ l -> postWork p = w -> due (morePosts s l) w.
Proof. intros Hp E. left. exists p. split; [|done]. apply elem_of_app. by right. Qed.

(** What a call of [advance] does. *)
Definition advanced s (roots_ : wid -> Prop) (l : list Post) : Prop := Forall (advPost s) l /\
  forall w d y, roots_ w -> visits s w d -> works s !! d = Some y -> mState y = WORK_PENDING -> due (morePosts s l) d \/ waits s y.

Lemma advPost_more s l p : advPost (morePosts s l) p <-> advPost s p.
Proof. done. Qed.

Lemma visits_more s l w d : visits (morePosts s l) w d <-> visits s w d.
Proof. split; induction 1; by econstructor. Qed.

Lemma advanceChildren_ret s adv cs :
  (forall n c l, (n, c) ∈ cs -> exists l', adv c (morePosts s l) = Ret tt (morePosts s (l ++ l')) /\ advanced s (eq c) l') ->
  forall l, exists l', advanceChildren adv cs (morePosts s l) = Ret tt (morePosts s (l ++ l')) /\ advanced s (fun c => exists n, (n, c) ∈ cs) l'.
Proof.
  induction cs as [|[n c] cs IH]; intros Hadv l.
  { exists []. rewrite app_nil_r. split; [done|]. split; [constructor|]. intros w d y (m & Hm). set_solver. }
  destruct (Hadv n c l) as (l1 & E1 & H1 & H1'); [set_solver|].
  destruct (IH ltac:(intros m d l' Hd; apply (Hadv m d l'); by right) (l ++ l1)) as (l2 & E2 & H2 & H2').
  exists (l1 ++ l2). cbn [advanceChildren]. unfold mbind, M_bind. rewrite E1, E2, <- app_assoc. split; [done|]. split; [by apply Forall_app|].
  intros w d y (m & Hm) Hv Hy Hp. apply elem_of_cons in Hm as [[= -> ->]|Hm].
  - destruct (H1' c d y eq_refl Hv Hy Hp) as [Hd|Hd]; [left|by right]. rewrite <- morePosts_app. by apply due_more.
  - destruct (H2' w d y ltac:(by exists m) Hv Hy Hp) as [Hd|Hd]; [left|by right].
    destruct Hd as [(p & Hp' & E)|Hd]; [left; exists p; cbn in *; set_solver|by right].
Qed.

Lemma advanceFuel_ret s (Ht : treeOk s) fuel : forall w x l, works s !! w = Some x -> (length (works s) <= fuel + w)%nat ->
  exists l', advanceFuel fuel w (morePosts s l) = Ret tt (morePosts s (l ++ l')) /\ advanced s (eq w) l'.
Proof.
  induction fuel as [|fuel IH]; intros w x l Hx Hf; [apply lookup_lt_Some in Hx; lia|].
  cbn [advanceFuel]. unfold mbind at 1, M_bind at 1. rewrite (self_ret w x) by done.
  destruct (bool_decide_reflect (mState x = WORK_PENDING)) as [Hp|Hp]; cbn [negb].
  2:{ exists []. rewrite app_nil_r. split; [done|]. split; [constructor|]. intros ? d y <- Hv Hy Hyp. inversion Hv; simplify_eq. }
  destruct (advanceChildren_ret s (advanceFuel fuel) (mChildren x)) with (l := l) as (l1 & E1 & H1 & H1').
  { intros n c l' Hc. destruct (tree_child s Ht w x n c Hx Hc) as (y & Hy & _ & _ & Hlt). apply (IH c y); [done|lia]. }
  unfold mbind at 1, M_bind at 1. rewrite E1. unfold mbind, M_bind, get.
  change (allChildrenSuccessful (morePosts s (l ++ l1)) (mChildren x)) with (allChildrenSuccessful s (mChildren x)).
  change (anyChildRaiseFailure (morePosts s (l ++ l1)) (mChildren x)) with (anyChildRaiseFailure s (mChildren x)).
  assert (forall ps, Forall (advPost s) ps -> ((exists p, p ∈ ps /\ postWork p = w) \/ waits s x) -> advanced s (eq w) (l1 ++ ps)) as Hdone.
  { intros ps Hps Hw. split; [by apply Forall_app|]. intros ? d y <- Hv Hy Hyp. inversion Hv as [|? x' n c ? Hx' _ Hc Hv']; simplify_eq.
    - destruct Hw as [(p & Hin & E)|Hw]; [left|by right]. apply (due_post s _ p); [|done]. apply elem_of_app. by right.
    - destruct (H1' c d y ltac:(by exists n) Hv' Hy Hyp) as [Hd|Hd]; [left|by right]. rewrite <- morePosts_app. by apply due_more. }
  destruct (allChildrenSuccessful s (mChildren x)) eqn:Ea; [|destruct (anyChildRaiseFailure s (mChildren x)) eqn:Er].
  - exists (l1 ++ [PostRun w]). split; [unfold scheduleRun; by rewrite post_ret, morePosts_app, <- app_assoc|].
    apply Hdone; [constructor; [by exists x|constructor]|left; exists (PostRun w); set_solver].
  - exists (l1 ++ [PostComplete w true]). split; [unfold scheduleFailure, scheduleComplete; by rewrite post_ret, morePosts_app, <- app_assoc|].
    apply Hdone; [constructor; [by exists x|constructor]|left; exists (PostComplete w true); set_solver].
  - exists l1. split; [done|]. rewrite <- (app_nil_r l1). apply Hdone; [constructor|by right].
Qed.

Lemma advance_ret s w x : treeOk s -> works s !! w = Some x ->
  exists l, advance w s = Ret tt (morePosts s l) /\ advanced s (eq w) l.
Proof.
  intros Ht Hx. unfold advance, mbind, M_bind, get. destruct (advanceFuel_ret s Ht (length (works s)) w x [] Hx ltac:(lia)) as (l & E & Hl).
  rewrite morePosts_nil in E. by exists l.
Qed.

(** [advance] for some of the works the manager owns. *)
Lemma managerAdvance_ret s cs : treeOk s -> (forall n c, (n, c) ∈ cs -> exists y, works s !! c = Some y) ->
  exists l, advanceChildren advance cs s = Ret tt (morePosts s l) /\ advanced s (fun c => exists n, (n, c) ∈ cs) l.
Proof.
  intros Ht Hcs. destruct (advanceChildren_ret s advance cs) with (l := @nil Post) as (l & E & Hl); [|rewrite morePosts_nil in E; by exists l].
  intros n c l Hc. destruct (Hcs n c Hc) as [y Hy]. unfold advance, mbind, M_bind, get. apply (advanceFuel_ret s Ht _ c y l Hy). cbn. lia.
Qed.

End Tree.

(** * Handlers of work items

    The world after a run and after a completion, and which works stay
    alive. *)

Import WK.

Section Alive.
Context {X : Type}.
Implicit Types (s : World X) (x y : Work X) (w c p : wid).

(** What never changes in a work. *)
Definition shape x : ParentRef * Name * list (Name * wid) * Z := (mParent x, mUniqueName x, mChildren x, mMaxRetries x).

Definition sameShape s s' : Prop := forall w, shape <$> works s' !! w = shape <$> works s !! w.

Lemma sameShape_sym s s' : sameShape s s' -> sameShape s' s.
Proof. intros H w. by rewrite (H w). Qed.

Lemma sameShape_lookup s s' w x' : sameShape s s' -> works s' !! w = Some x' -> exists x, works s !! w = Some x /\ shape x = shape x'.
Proof. intros H Hx'. specialize (H w). rewrite Hx' in H. destruct (works s !! w) as [x|]; [|done]. exists x. split; [done|]. change (Some (shape x') = Some (shape x)) in H. congruence. Qed.

Lemma sameShape_put s s' w x x' : works s !! w = Some x -> shape x' = shape x -> works s' = <[w:=x']> (works s) -> sameShape s s'.
Proof.
  intros Hx Hs Hw v. rewrite Hw. destruct (decide (v = w)) as [->|Hne].
  - rewrite list_lookup_insert_eq, Hx by (by eapply lookup_lt_Some). cbn. by rewrite Hs.
  - by rewrite list_lookup_insert_ne.
Qed.

Lemma owned_mono s s' (Hs : sameShape s s') (Hr : forall n c, om_find n (roots s') = Some c -> om_find n (roots s) = Some c) fuel :
  forall w, owned fuel s' w = true -> owned fuel s w = true.
Proof.
  induction fuel as [|fuel IH]; intros w; [done|]. cbn [owned]. destruct (works s' !! w) as [x'|] eqn:Hx'; [|done].
  destruct (sameShape_lookup s s' w x' Hs Hx') as (x & -> & E). injection E as -> -> _ _. destruct (mParent x') as [|p].
  - rewrite !bool_decide_eq_true. apply Hr.
  - destruct (works s' !! p) as [y'|] eqn:Hy'; [|done]. destruct (sameShape_lookup s s' p y' Hs Hy') as (y & -> & E). injection E as _ _ -> _.
    rewrite !andb_true_iff. intros [H1 H2]. split; [done|by apply IH].
Qed.

Lemma lock_mono s s' w : sameShape s s' -> (forall n c, om_find n (roots s') = Some c -> om_find n (roots s) = Some c) -> lock s' w = true -> lock s w = true.
Proof. intros Hs Hr. by apply owned_mono. Qed.

Lemma owned_more s fuel : forall w k, owned fuel s w = true -> owned (fuel + k) s w = true.
Proof.
  induction fuel as [|fuel IH]; intros w k; [done|]. cbn [owned Nat.add]. destruct (works s !! w) as [x|]; [|done].
  destruct (mParent x) as [|p]; [done|]. destruct (works s !! p); [|done]. rewrite !andb_true_iff. intros [? ?]. split; [done|by apply IH].
Qed.

Lemma owned_less s (Ht : treeOk s) fuel : forall w, owned fuel s w = true -> lock s w = true.
Proof.
  induction fuel as [|fuel IH]; intros w; [done|]. unfold lock. cbn [owned]. destruct (works s !! w) as [x|] eqn:Hx; [|done].
  destruct (mParent x) as [|p]; [done|]. destruct (works s !! p) as [y|] eqn:Hy; [|done]. rewrite !andb_true_iff, bool_decide_eq_true. intros [Hf Ho]. split; [done|].
  apply IH in Ho. destruct (tree_child s Ht p y _ w Hy (om_find_elem _ _ _ Hf)) as (_ & _ & _ & _ & Hlt).
  unfold lock in Ho. apply (owned_more s _ _ (w - S p)) in Ho. by replace (S p + (w - S p))%nat with w in Ho by lia.
Qed.

Lemma lock_lookup s w : lock s w = true -> exists x, works s !! w = Some x.
Proof. unfold lock. cbn [owned]. destruct (works s !! w) as [x|]; [by exists x|done]. Qed.

Lemma lock_root s w x : lock s w = true -> works s !! w = Some x -> mParent x = ManagerRef -> om_find (mUniqueName x) (roots s) = Some w.
Proof. unfold lock. cbn [owned]. intros Hl Hx Hp. rewrite Hx, Hp in Hl. by apply bool_decide_eq_true in Hl. Qed.

Lemma lock_parent s w x p : treeOk s -> lock s w = true -> works s !! w = Some x -> mParent x = WorkRef p ->
  lock s p = true /\ exists y, works s !! p = Some y /\ (mUniqueName x, w) ∈ mChildren y.
Proof.
  intros Ht Hl Hx Hp. unfold lock in Hl. cbn [owned] in Hl. rewrite Hx, Hp in Hl. destruct (works s !! p) as [y|] eqn:Hy; [|done].
  apply andb_true_iff in Hl as [Hf%bool_decide_eq_true Ho]. split; [by eapply owned_less|]. exists y. split; [done|by apply om_find_elem].
Qed.

Lemma lock_child s w x n c : treeOk s -> lock s w = true -> works s !! w = Some x -> (n, c) ∈ mChildren x -> lock s c = true.
Proof.
  intros Ht Hl Hx Hc. destruct (tree_child s Ht w x n c Hx Hc) as (y & Hy & Hp & Hn & Hlt). apply (owned_less s Ht (S (S w))).
  cbn [owned]. fold (owned (S w) s w). rewrite Hy, Hp, Hx. apply andb_true_iff. split; [|unfold lock in Hl; cbn [owned] in Hl; by rewrite Hx in Hl].
  apply bool_decide_eq_true. subst n. by apply (elem_om_find _ _ _ (tree_sorted s Ht w x Hx)).
Qed.

Lemma lock_of_root s n w : treeOk s -> (n, w) ∈ roots s -> lock s w = true.
Proof.
  intros Ht Hin. destruct (tree_root s Ht n w Hin) as (x & Hx & Hp & Hn). unfold lock. cbn [owned]. rewrite Hx, Hp. apply bool_decide_eq_true.
  subst n. by apply (elem_om_find _ _ _ (tree_roots s Ht)).
Qed.

Lemma treeOk_put s s' w x x' : treeOk s -> works s !! w = Some x -> shape x' = shape x -> works s' = <[w:=x']> (works s) ->
  om_sorted (roots s') -> (forall q, q ∈ roots s' -> q ∈ roots s) -> treeOk s'.
Proof.
  intros Ht Hx Hs Hw Hr Hsub. pose proof (sameShape_put s s' w x x' Hx Hs Hw) as Hsh.
  assert (forall v y', works s' !! v = Some y' -> exists y, works s !! v = Some y /\ shape y = shape y') as Hback by (intros; by apply (sameShape_lookup s s')).
  assert (forall v y, works s !! v = Some y -> exists y', works s' !! v = Some y' /\ shape y' = shape y) as Hforth by (intros; by apply (sameShape_lookup s' s), H; apply sameShape_sym).
  split; [| | |done].
  - intros v y' n c (y & Hy & E)%Hback Hc. injection E as _ _ E _. rewrite <- E in Hc.
    destruct (tree_child s Ht v y n c Hy Hc) as (z & (z' & Hz' & Ez)%Hforth & Hp & Hn & Hlt). exists z'. injection Ez as -> -> _ _. done.
  - intros v y' (y & Hy & E)%Hback. injection E as _ _ <- _. by apply (tree_sorted s Ht v).
  - intros n c Hin%Hsub. destruct (tree_root s Ht n c Hin) as (y & (y' & Hy' & E)%Hforth & Hp & Hn). exists y'. injection E as -> -> _ _. done.
Qed.

End Alive.

Section Results.
Context {X : Type} `{!WorkVirtuals X}.
Implicit Types (s : World X) (x y : Work X) (w c p : wid).

Definition isPending x : bool := bool_decide (mState x = WORK_PENDING).

(** ** run *)

Definition startWork x : Work X := if isPending x then setMSub (onStart (mSub x)) x else x.
Definition runWork x : Work X := setMSub (onRun (mSub (startWork x))).2 (setMState WORK_RUNNING (startWork x)).
Definition runAct x : RunAction := (onRun (mSub (startWork x))).1.
Definition runPosts w x : list Post := match runAct x with RunComplete ec => [PostComplete w ec] | RunProcess => [] end.
Definition runProcesses w x : list wid := match runAct x with RunComplete _ => [] | RunProcess => [w] end.
Definition runEvents w x : list WorkEvent := (if isPending x then [WStart w] else []) ++ [WRun w].

Definition runWorld w x s : World X :=
  Build_World (<[w:=runWork x]> (works s)) (roots s) (posts s ++ runPosts w x) (processes s ++ runProcesses w x) (history s ++ runEvents w x).

Lemma runAction_ret w a s : runAction w a s = Ret tt (Build_World (works s) (roots s)
  (posts s ++ match a with RunComplete ec => [PostComplete w ec] | RunProcess => [] end)
  (processes s ++ match a with RunComplete _ => [] | RunProcess => [w] end) (history s)).
Proof.
  destruct a as [[]|]; unfold runAction, scheduleSuccess, scheduleFailure, scheduleComplete, post, modify, setPosts, setProcesses; by rewrite ?app_nil_r.
Qed.

Lemma run_ret w x s : works s !! w = Some x -> run w s = Ret tt (runWorld w x s).
Proof.
  intros Hx. unfold run. unfold mbind at 1, M_bind at 1. rewrite (self_ret w x s Hx). fold (isPending x).
  set (s1 := Build_World (<[w:=startWork x]> (works s)) (roots s) (posts s) (processes s) (history s ++ (if isPending x then [WStart w] else []))).
  assert (when (isPending x) (modify (note (WStart w));; call w onStart) s = Ret tt s1) as E1.
  { unfold s1, startWork. destruct (isPending x); cbn [when].
    - unfold mbind, M_bind, modify, call. by rewrite (upd_ret w _ x).
    - rewrite app_nil_r, list_insert_id by done. by destruct s. }
  unfold mbind at 1, M_bind at 1. rewrite E1. unfold mbind at 1, M_bind at 1.
  assert (works s1 !! w = Some (startWork x)) as H1 by (apply list_lookup_insert_eq; by eapply lookup_lt_Some).
  rewrite (setState_ret w _ (startWork x)) by done. unfold mbind at 1, M_bind at 1, modify. unfold mbind at 1, M_bind at 1.
  rewrite (self_ret w (setMState WORK_RUNNING (startWork x))) by (apply (put_eq w (startWork x)); done).
  cbn [setMState mSub]. destruct (onRun (mSub (startWork x))) as [a y] eqn:Ea.
  unfold mbind, M_bind. rewrite (upd_ret w _ (setMState WORK_RUNNING (startWork x))) by (apply (put_eq w (startWork x)); done).
  rewrite runAction_ret. unfold runWorld, runWork, runPosts, runProcesses, runEvents, runAct. rewrite Ea. cbn [put setWorks works roots posts processes history s1 fst snd note].
  by rewrite !list_insert_insert_eq, <- !app_assoc.
Qed.

(** ** complete *)

(** The work after the first statement of [complete]. *)
Definition ended ec x : Work X :=
  if ec : bool then setMState (clip WORK_FAILURE_RETRY x) x
  else setMState (clip (onSuccess (mSub x)).1 x) (setMSub (onSuccess (mSub x)).2 x).

Definition completeWork ec x : Work X :=
  let y := ended ec x in
  match mState y with
  | WORK_FAILURE_RETRY => setMRetryWait true (setMSub (onFailureRetry (mSub y)) y)
  | WORK_FAILURE_RAISE => setMSub (onFailureRaise (mSub y)) y
  | _ => y
  end.

Definition completeEvents w ec x : list WorkEvent :=
  match mState (ended ec x) with
  | WORK_SUCCESS => [WSucceeded w]
  | WORK_FAILURE_RETRY => [WRetry w]
  | WORK_FAILURE_RAISE => [WRaised w]
  | _ => []
  end.

Definition completeRoots ec x s : list (Name * wid) :=
  match mParent x with
  | ManagerRef => if isDone (mState (ended ec x)) then om_erase (mUniqueName x) (roots s) else roots s
  | WorkRef _ => roots s
  end.

Definition completeWorld w ec x s : World X :=
  Build_World (<[w:=completeWork ec x]> (works s)) (completeRoots ec x s) (posts s) (processes s) (history s ++ completeEvents w ec x).

(** The closures a completion posts. *)
Definition completePosts w ec x s (l : list Post) : Prop :=
  match mState (ended ec x) with
  | WORK_RUNNING => l = [PostRun w]
  | WORK_FAILURE_RETRY => l = []
  | WORK_PENDING => advanced (completeWorld w ec x s) (eq w) l
  | WORK_SUCCESS | WORK_FAILURE_RAISE =>
      advanced (completeWorld w ec x s) (match mParent x with ManagerRef => fun _ => False | WorkRef p => eq p end) l
  end.

Lemma shape_ended ec x : shape (ended ec x) = shape x.
Proof. by destruct ec. Qed.

Lemma shape_complete ec x : shape (completeWork ec x) = shape x.
Proof. unfold completeWork. rewrite <- (shape_ended ec x). by destruct (mState (ended ec x)). Qed.

Lemma state_complete ec x : mState (completeWork ec x) = mState (ended ec x).
Proof. unfold completeWork. by destruct (mState (ended ec x)) eqn:E. Qed.

Lemma advanced_weaken s (P Q : wid -> Prop) l : (forall c, Q c -> P c) -> advanced s P l -> advanced s Q l.
Proof. intros H [H1 H2]. split; [done|]. intros c d y Hc. by apply (H2 c), H. Qed.

Lemma notifyParent_ret w ec x s : treeOk s -> works s !! w = Some x -> lock s w = true -> isDone (mState (ended ec x)) = true ->
  let s1 := completeWorld w ec x s in
  exists l, notifyParent w (setRoots (roots s) s1) = Ret tt (morePosts s1 l) /\
    advanced s1 (match mParent x with ManagerRef => fun _ => False | WorkRef p => eq p end) l.
Proof.
  intros Ht Hx Hl Hd s1. pose proof (shape_complete ec x) as Hsh. injection Hsh as Hp Hn _ _.
  assert (works s1 !! w = Some (completeWork ec x)) as H1 by (apply list_lookup_insert_eq; by eapply lookup_lt_Some).
  unfold notifyParent, mbind at 1, M_bind at 1. rewrite (self_ret w (completeWork ec x)) by done. rewrite Hp, Hn.
  destruct (mParent x) as [|p] eqn:Ep.
  - unfold managerNotify, mbind, M_bind, get. change (roots (setRoots (roots s) s1)) with (roots s). rewrite (lock_root s w x Hl Hx Ep).
    rewrite (self_ret w (completeWork ec x)) by done. rewrite state_complete, Hd. cbn [when]. unfold modify.
    assert (setRoots (om_erase (mUniqueName x) (roots (setRoots (roots s) s1))) (setRoots (roots s) s1) = s1) as ->
      by (unfold s1, completeWorld, completeRoots, setRoots; cbn; by rewrite Ep, Hd).
    assert (treeOk s1) as Ht1.
    { apply (treeOk_put s s1 w x (completeWork ec x)); try done; [apply shape_complete| |]; cbn; unfold completeRoots; rewrite Ep, Hd.
      - apply om_erase_sorted, Ht.
      - intros q. unfold om_erase. rewrite !list_elem_of_In, List.filter_In. tauto. }
    destruct (managerAdvance_ret s1 (roots s1) Ht1) as (l & E & Hadv); [intros n c Hc; destruct (tree_root s1 Ht1 n c Hc) as (y & Hy & _); by exists y|].
    exists l. split; [done|]. by eapply advanced_weaken; [|exact Hadv].
  - assert (setRoots (roots s) s1 = s1) as -> by (unfold s1, completeWorld, completeRoots, setRoots; cbn; by rewrite Ep).
    assert (roots s1 = roots s) as Er by (cbn; unfold completeRoots; by rewrite Ep).
    assert (treeOk s1) as Ht1.
    { apply (treeOk_put s s1 w x (completeWork ec x)); try done; [apply shape_complete|rewrite Er; apply Ht|by rewrite Er]. }
    destruct (lock_parent s w x p Ht Hl Hx Ep) as (Hlp & y & Hy & _).
    assert (sameShape s s1) as Hss by (apply (sameShape_put s s1 w x (completeWork ec x)); [done|apply shape_complete|done]).
    assert (lock s1 p = true) as Hl1 by (apply (lock_mono s1 s); [by apply sameShape_sym|by rewrite Er|done]).
    unfold mbind, M_bind, get. rewrite Hl1. destruct (lock_lookup s1 p Hl1) as (y1 & Hy1).
    apply (advance_ret s1 p y1 Ht1 Hy1).
Qed.

Lemma setRoots_id s : setRoots (roots s) s = s.
Proof. by destruct s. Qed.

Lemma ended_ret w ec x s : works s !! w = Some x ->
  (if ec : bool then setState w WORK_FAILURE_RETRY
   else x ← self w; let '(st, y) := onSuccess (mSub x) in upd w (setMSub y);; setState w st) s = Ret tt (put w (ended ec x) s).
Proof.
  intros Hx. destruct ec; [by rewrite (setState_ret w _ x)|]. unfold ended, mbind, M_bind. rewrite (self_ret w x s Hx).
  destruct (onSuccess (mSub x)) as [st y]. cbn [fst snd]. rewrite (upd_ret w _ x) by done.
  by rewrite (setState_ret w _ (setMSub y x)), put_put by (by apply (put_eq w x)).
Qed.

Lemma complete_ret w ec x s : treeOk s -> works s !! w = Some x -> lock s w = true ->
  exists l, complete w ec s = Ret tt (morePosts (completeWorld w ec x s) l) /\ completePosts w ec x s l.
Proof.
  intros Ht Hx Hl. unfold complete, mbind at 1, M_bind at 1. rewrite (ended_ret w ec x s Hx). unfold mbind at 1, M_bind at 1.
  assert (forall y, works (put w y s) !! w = Some y) as Hw by (intros y; by apply (put_eq w x)).
  rewrite (self_ret w (ended ec x)) by done. pose proof (notifyParent_ret w ec x s Ht Hx Hl) as Hnp. unfold completePosts.
  assert (isDone (mState (ended ec x)) = false -> completeRoots ec x s = roots s) as Hroots.
  { unfold completeRoots. intros ->. by destruct (mParent x). }
  unfold completeWorld, completeWork, completeEvents in *. destruct (mState (ended ec x)) eqn:E.
  - rewrite (Hroots eq_refl), app_nil_r. set (s1 := Build_World _ _ _ _ _).
    assert (put w (ended ec x) s = s1) as -> by done.
    apply (advance_ret s1 w (ended ec x)); [|apply Hw].
    apply (treeOk_put s s1 w x (ended ec x)); try done; [apply shape_ended|apply Ht].
  - eexists. split; [|done]. rewrite (Hroots eq_refl), app_nil_r. done.
  - destruct (Hnp eq_refl) as (l & El & Hadv). exists l. split; [|done]. exact El.
  - exists []. split; [|done]. rewrite (Hroots eq_refl), morePosts_nil. unfold mbind, M_bind, modify, call.
    rewrite (upd_ret w _ (ended ec x)) by apply Hw. unfold scheduleRetry, mbind, M_bind.
    set (y := setMSub _ _). assert (works (put w y (note (WRetry w) (put w (ended ec x) s))) !! w = Some y) as Hy by (apply (put_eq w (ended ec x)); apply Hw).
    rewrite (self_ret w y) by done. cbn [y setMSub mState]. rewrite E. cbn [negb bool_decide decide_rel]. rewrite bool_decide_true by done. cbn [negb].
    rewrite (upd_ret w _ y) by done. unfold put, setWorks, note. cbn. by rewrite !list_insert_insert_eq.
  - destruct (Hnp eq_refl) as (l & El & Hadv). exists l. split; [|done]. rewrite <- El. unfold mbind, M_bind, modify, call.
    rewrite (upd_ret w _ (ended ec x)) by apply Hw. unfold put, setWorks, note, setRoots. cbn. by rewrite !list_insert_insert_eq.
Qed.

End Results.
