(* ===== verification/WorkProgress.v ===== *)
(** * Invariant and progress of works

    Every work that exists and is not done is due, waits for its timer or
    waits for a child; every event makes a measure smaller.  The last parts
    are the worlds that can be reached and the history of works. *)

From S2P Require Import Prelude OrdContainers Work WorkFacts.

Import WK.

(** What a subclass promises: it goes on running or restarts only finitely
    often between two resets. *)
Class WorkVirtualsOk (X : Type) `{!WorkVirtuals X} := {
  rank : X -> nat;
  rank_start x : (rank (onStart x) <= rank x)%nat;
  rank_run x : (rank (onRun x).2 <= rank x)%nat;
  rank_success x : (rank (onSuccess x).2 <= rank x)%nat;
  rank_again x : (onSuccess x).1 = WORK_PENDING \/ (onSuccess x).1 = WORK_RUNNING -> (rank (onSuccess x).2 < rank x)%nat;
  rank_retry x : (rank (onFailureRetry x) <= rank x)%nat;
  rank_raise x : (rank (onFailureRaise x) <= rank x)%nat;
}.

Section Invariant.
Context {X : Type} `{!WorkVirtuals X}.
Implicit Types (s : World X) (x y : Work X) (w c p : wid).

Definition live s w x : Prop :=
  match mState x with
  | WORK_RUNNING => due s w
  | WORK_FAILURE_RETRY => mRetryWait x = true
  | WORK_PENDING => due s w \/ waits s x
  | _ => True
  end.

Definition countOk x : Prop := 0 <= mRetries x <= mMaxRetries x /\ mMaxRetries x <= UINT64_MAX /\ (mRetryWait x = true -> mRetries x < mMaxRetries x).

(** The invariant; a work of [ex] may be without anything that is due. *)
Record workInv (ex : wid -> Prop) s : Prop := {
  wi_tree : treeOk s;
  wi_count : forall w x, works s !! w = Some x -> countOk x;
  wi_live : forall w x, works s !! w = Some x -> lock s w = true -> ~ ex w -> live s w x;
  wi_root : forall n c x, (n, c) ∈ roots s -> works s !! c = Some x -> isDone (mState x) = false;
  wi_gone : forall w x, works s !! w = Some x -> mParent x = ManagerRef -> (mUniqueName x, w) ∈ roots s \/ isDone (mState x) = true;
}.

Definition noOne (w : wid) : Prop := False.

Lemma due_app s s' w lp lq : posts s' = posts s ++ lp -> processes s' = processes s ++ lq -> due s w -> due s' w.
Proof.
  unfold due. intros -> -> [(q & Hq & E)|Hq]; [left; exists q; split; [|done]|right]; apply elem_of_app; by left.
Qed.

Lemma stateOf_put s s' w x' v : works s' = <[w:=x']> (works s) -> v <> w -> stateOf s' v = stateOf s v.
Proof. unfold stateOf. intros -> Hne. by rewrite list_lookup_insert_ne. Qed.

Lemma waits_spec s y : waits s y <-> (exists c : Name * wid, c ∈ mChildren y /\ stateOf s c.2 <> Some WORK_SUCCESS) /\
  (forall c : Name * wid, c ∈ mChildren y -> stateOf s c.2 <> Some WORK_FAILURE_RAISE).
Proof.
  unfold waits, allChildrenSuccessful, anyChildRaiseFailure. rewrite <- !not_true_iff_false, forallb_forall, existsb_exists. split.
  - intros [Ha Hr]. split.
    + destruct (decide (Exists (fun c : Name * wid => stateOf s c.2 <> Some WORK_SUCCESS) (mChildren y))) as [(c & ?)%Exists_exists|Hn]; [by exists c|].
      destruct Ha. intros c Hc%list_elem_of_In. apply bool_decide_eq_true. apply dec_stable. intros Hs. apply Hn, Exists_exists. by exists c.
    + intros c Hc Hs. apply Hr. exists c. split; [by apply list_elem_of_In|by apply bool_decide_eq_true].
  - intros [(c & Hc & Hs) Hr]. split.
    + intros Hall. specialize (Hall c (proj1 (list_elem_of_In _ _) Hc)). by apply bool_decide_eq_true in Hall.
    + intros (d & Hd%list_elem_of_In & Hds%bool_decide_eq_true). by apply (Hr d).
Qed.

(** A work waits on when one of its children changes but is not done. *)
Lemma waits_put s s' w x' y : works s' = <[w:=x']> (works s) -> (w < length (works s))%nat ->
  isDone (mState x') = false \/ (forall n, (n, w) ∉ mChildren y) -> waits s y -> waits s' y.
Proof.
  intros Hw Hlt Hd. assert (stateOf s' w = Some (mState x')) as Ew by (unfold stateOf; by rewrite Hw, list_lookup_insert_eq).
  rewrite !waits_spec. intros [(c & Hc & Hs) Hr].
  assert (forall d : Name * wid, d ∈ mChildren y -> stateOf s' d.2 = stateOf s d.2 \/ isDone (mState x') = false /\ stateOf s' d.2 = Some (mState x')) as Hst.
  { intros [n d] Hin. cbn. destruct (decide (d = w)) as [->|Hne]; [|left; by apply (stateOf_put s s' w x')].
    right. destruct Hd as [Hd|Hd]; [done|]. by destruct (Hd n). }
  split.
  - exists c. split; [done|]. destruct (Hst c Hc) as [->|[Hd' ->]]; [done|]. intros [= E]. by rewrite E in Hd'.
  - intros d Hin. destruct (Hst d Hin) as [->|[Hd' ->]]; [by apply Hr|]. intros [= E]. by rewrite E in Hd'.
Qed.

(** ** One work changes *)

(** The roots after [x] became [x']. *)
Definition rootsAfter s s' x x' : Prop :=
  roots s' = roots s /\ (mParent x = ManagerRef -> isDone (mState x') = false) \/
  mParent x = ManagerRef /\ roots s' = om_erase (mUniqueName x) (roots s) /\ isDone (mState x') = true.

Lemma rootsAfter_sub s s' x x' : rootsAfter s s' x x' -> forall q, q ∈ roots s' -> q ∈ roots s.
Proof.
  intros [[-> _]|(_ & -> & _)] q; [done|]. unfold om_erase. rewrite !list_elem_of_In, List.filter_In. tauto.
Qed.

Lemma rootsAfter_find s s' x x' : rootsAfter s s' x x' -> forall n c, om_find n (roots s') = Some c -> om_find n (roots s) = Some c.
Proof. intros [[-> _]|(_ & -> & _)] n c; [done|]. rewrite om_find_erase. by destruct (eqvb _ _). Qed.

Lemma change_inv s s' w x x' lp lq : workInv (eq w) s -> works s !! w = Some x -> shape x' = shape x -> countOk x' ->
  works s' = <[w:=x']> (works s) -> posts s' = posts s ++ lp -> processes s' = processes s ++ lq -> rootsAfter s s' x x' ->
  lock s w = true -> live s' w x' ->
  (forall p y, mParent x = WorkRef p -> isDone (mState x') = true -> works s' !! p = Some y -> mState y = WORK_PENDING -> due s' p \/ waits s' y) ->
  workInv noOne s'.
Proof.
  intros [Ht Hc Hl Hr Hg] Hx Hs Hcx Hw Hp Hq Hra Hlw Hlive Hpar. pose proof (sameShape_put s s' w x x' Hx Hs Hw) as Hss.
  pose proof (lookup_lt_Some _ _ _ Hx) as Hlt. pose proof Hs as Hs'. injection Hs' as Hmp Hmn _ _.
  assert (works s' !! w = Some x') as Hx' by (rewrite Hw; by apply list_lookup_insert_eq).
  assert (forall v y, works s' !! v = Some y -> v = w /\ y = x' \/ v <> w /\ works s !! v = Some y) as Hcase.
  { intros v y Hy. destruct (decide (v = w)) as [->|Hne]; [left; split; [done|congruence]|right]. split; [done|]. by rewrite Hw, list_lookup_insert_ne in Hy. }
  assert (treeOk s') as Ht'.
  { apply (treeOk_put s s' w x x'); try done; [|by apply (rootsAfter_sub s s' x x')].
    destruct Hra as [[-> _]|(_ & -> & _)]; [apply Ht|apply om_erase_sorted, Ht]. }
  split; [done| | | |].
  - intros v y [[-> ->]|[_ Hy]]%Hcase; [done|by apply (Hc v)].
  - intros v y Hy Hlv _. destruct (Hcase v y Hy) as [[-> ->]|[Hne Hy0]]; [done|].
    assert (live s v y) as Hv by (apply Hl; [done|by eapply lock_mono, Hlv; [|by eapply rootsAfter_find]|congruence]).
    unfold live in *. destruct (mState y) eqn:Ey; try done; [|by eapply due_app].
    destruct Hv as [Hv|Hv]; [left; by eapply due_app|].
    destruct (isDone (mState x')) eqn:Ed; [|right; eapply waits_put; [done|done|by left|done]].
    destruct (decide (mParent x = WorkRef v)) as [E|E]; [by apply (Hpar v y)|].
    right. eapply waits_put; [done|done| |done]. right. intros n Hin. destruct (tree_child s Ht v y n w Hy0 Hin) as (? & ? & ? & _). congruence.
  - intros n c y Hin. intros [[-> ->]|[Hne Hy]]%Hcase; [|apply (Hr n c); [by apply (rootsAfter_sub s s' x x')|done]].
    destruct Hra as [[E Hd]|(_ & E & _)].
    + apply Hd. destruct (tree_root s' Ht' n w Hin) as (? & ? & ? & _). congruence.
    + destruct (tree_root s' Ht' n w Hin) as (z & Hz & _ & Hzn). assert (z = x') as -> by congruence. rewrite Hmn in Hzn. subst n.
      apply (elem_om_find _ _ _ (tree_roots s' Ht')) in Hin. rewrite E, om_find_erase in Hin. by rewrite (proj2 (eqvb_eq _ _) eq_refl) in Hin.
  - intros v y Hy Hm. destruct (Hcase v y Hy) as [[-> ->]|[Hne Hy0]].
    + rewrite Hmp in Hm. rewrite Hmn. destruct Hra as [[-> Hd]|(_ & _ & ?)]; [|by right]. left. apply om_find_elem. by eapply lock_root.
    + destruct (Hg v y Hy0 Hm) as [Hin|?]; [|by right]. destruct Hra as [[-> _]|(Em & -> & _)]; [by left|]. left.
      apply om_find_elem. rewrite om_find_erase. rewrite (elem_om_find _ _ _ (tree_roots s Ht) Hin).
      destruct (eqvb (mUniqueName x) (mUniqueName y)) eqn:En; [|done]. apply eqvb_eq in En. exfalso. apply Hne.
      pose proof (lock_root s w x Hlw Hx Em) as Hfw. rewrite En, (elem_om_find _ _ _ (tree_roots s Ht) Hin) in Hfw. congruence.
Qed.

End Invariant.

(** * Every event keeps the invariant of works and makes a measure smaller *)

Import WK.

(** ** A lexicographic measure *)

Definition lexBy {A} (f : A -> nat) (R : A -> A -> Prop) (a b : A) : Prop := (f a < f b)%nat \/ (f a <= f b)%nat /\ R a b.

Lemma lexBy_wf {A} (f : A -> nat) (R : A -> A -> Prop) : well_founded R -> well_founded (lexBy f R).
Proof.
  intros HR a. remember (f a) as n eqn:E. revert a E. induction (lt_wf n) as [n _ IHn].
  intros a. induction (HR a) as [a _ IHa]. intros ->. constructor. intros b [Hlt|[Hle Hb]]; [by eapply IHn|].
  destruct (decide (f b = f a)) as [E|E]; [by apply IHa|]. eapply IHn; [|done]. lia.
Qed.

Lemma sum_insert {A} (f : A -> nat) (l : list A) i x y : l !! i = Some x ->
  (sum_list_with f (<[i:=y]> l) + f x = sum_list_with f l + f y)%nat.
Proof.
  revert i. induction l as [|z l IH]; intros [|i] Hi; simplify_eq/=; [lia|]. specialize (IH i Hi). lia.
Qed.

Section Measure.
Context {X : Type} `{!WorkVirtuals X} `{!WorkVirtualsOk X}.
Implicit Types (s : World X) (x y : Work X) (w c p : wid).

(** Retries that are left, further rounds, works that have not started,
    closures and processes of works that have. *)
Definition retriesLeft s : nat := sum_list_with (fun x => Z.to_nat (mMaxRetries x - mRetries x)) (works s).
Definition roundsLeft s : nat := sum_list_with (fun x => rank (mSub x)) (works s).
Definition notStarted s : nat := sum_list_with (fun x => if isPending x then 1%nat else 0%nat) (works s).
Definition pendingAt s w : bool := match works s !! w with Some x => isPending x | None => false end.
Definition postWeight s (p : Post) : nat := if pendingAt s (postWork p) then 0 else match p with PostRun _ => 2 | PostComplete _ _ => 1 end.
Definition processWeight s w : nat := if pendingAt s w then 0 else 1.
Definition dueWeight s : nat := (sum_list_with (postWeight s) (posts s) + sum_list_with (processWeight s) (processes s))%nat.
Definition dueCount s : nat := (length (posts s) + length (processes s))%nat.

Definition smaller : World X -> World X -> Prop :=
  lexBy retriesLeft (lexBy roundsLeft (lexBy notStarted (lexBy dueWeight (fun a b => (dueCount a < dueCount b)%nat)))).

Lemma smaller_wf : well_founded smaller.
Proof. repeat apply lexBy_wf. apply (well_founded_ltof _ dueCount). Qed.

(** *** The measure when one work changes *)

Lemma retriesLeft_put s s' w x x' : works s !! w = Some x -> works s' = <[w:=x']> (works s) ->
  (retriesLeft s' + Z.to_nat (mMaxRetries x - mRetries x) = retriesLeft s + Z.to_nat (mMaxRetries x' - mRetries x'))%nat.
Proof. intros Hx Hw. unfold retriesLeft. rewrite Hw. by apply (sum_insert (fun x => Z.to_nat (mMaxRetries x - mRetries x))). Qed.

Lemma roundsLeft_put s s' w x x' : works s !! w = Some x -> works s' = <[w:=x']> (works s) ->
  (roundsLeft s' + rank (mSub x) = roundsLeft s + rank (mSub x'))%nat.
Proof. intros Hx Hw. unfold roundsLeft. rewrite Hw. by apply (sum_insert (fun x => rank (mSub x))). Qed.

Lemma notStarted_put s s' w x x' : works s !! w = Some x -> works s' = <[w:=x']> (works s) ->
  (notStarted s' + (if isPending x then 1 else 0) = notStarted s + (if isPending x' then 1 else 0))%nat.
Proof. intros Hx Hw. unfold notStarted. rewrite Hw. by apply (sum_insert (fun x => if isPending x then 1 else 0)%nat). Qed.

Lemma pendingAt_put s s' w x x' v : works s !! w = Some x -> works s' = <[w:=x']> (works s) -> isPending x = isPending x' -> pendingAt s' v = pendingAt s v.
Proof.
  intros Hx Hw Hp. unfold pendingAt. rewrite Hw. destruct (decide (v = w)) as [->|Hne]; [|by rewrite list_lookup_insert_ne].
  by rewrite list_lookup_insert_eq, Hx by (by eapply lookup_lt_Some).
Qed.

Lemma dueWeight_put s s' w x x' lp lq : works s !! w = Some x -> works s' = <[w:=x']> (works s) -> isPending x = isPending x' ->
  posts s' = posts s ++ lp -> processes s' = processes s ++ lq ->
  dueWeight s' = (dueWeight s + sum_list_with (postWeight s') lp + sum_list_with (processWeight s') lq)%nat.
Proof.
  intros Hx Hw Hp Ep Eq. unfold dueWeight. rewrite Ep, Eq, !sum_list_with_app.
  assert (forall l, sum_list_with (postWeight s') l = sum_list_with (postWeight s) l) as H1.
  { induction l as [|q l IH]; [done|]. cbn. rewrite IH. unfold postWeight at 1 2. by rewrite (pendingAt_put s s' w x x'). }
  assert (forall l, sum_list_with (processWeight s') l = sum_list_with (processWeight s) l) as H2.
  { induction l as [|q l IH]; [done|]. cbn. rewrite IH. unfold processWeight at 1 2. by rewrite (pendingAt_put s s' w x x'). }
  rewrite !H1, !H2. lia.
Qed.

Lemma advPosts_weight s l : Forall (advPost s) l -> sum_list_with (postWeight s) l = 0%nat.
Proof.
  induction 1 as [|p l (x & Hx & Hp & _) _ IH]; [done|]. cbn. rewrite IH. unfold postWeight, pendingAt, isPending. by rewrite Hx, Hp.
Qed.

(** ** Taking what is due *)

(** [s] was [s0] with one closure or process about [w], of weight [k], more. *)
Record taken s0 s w (k : nat) : Prop := {
  tk_works : works s0 = works s;
  tk_roots : roots s0 = roots s;
  tk_history : history s0 = history s;
  tk_weight : dueWeight s0 = (dueWeight s + if pendingAt s w then 0 else k)%nat;
  tk_count : dueCount s0 = Datatypes.S (dueCount s);
  tk_due : forall v, due s0 v -> v = w \/ due s v;
}.

Lemma take_post s (p : Post) r : posts s = p :: r -> taken s (setPosts r s) (postWork p) (match p with PostRun _ => 2 | PostComplete _ _ => 1 end).
Proof.
  intros E. split; [done|done|done| | |].
  - unfold dueWeight. rewrite E. cbn [sum_list_with setPosts posts processes]. change (postWeight (setPosts r s)) with (postWeight s).
    change (processWeight (setPosts r s)) with (processWeight s). change (pendingAt (setPosts r s)) with (pendingAt s). unfold postWeight at 1. lia.
  - unfold dueCount. rewrite E. cbn. lia.
  - intros v [(q & Hq & Eq)|Hq]; [|by right; right]. rewrite E in Hq. apply elem_of_cons in Hq as [->|Hq]; [by left|]. right. left. by exists q.
Qed.

Lemma sum_delete {A} (f : A -> nat) (l : list A) (i : nat) (x : A) : l !! i = Some x -> sum_list_with f l = (sum_list_with f (delete i l) + f x)%nat.
Proof. revert i. induction l as [|z l IH]; intros [|i] Hi; simplify_eq/=; [lia|]. rewrite (IH i Hi). lia. Qed.

Lemma take_process s i w : processes s !! i = Some w -> taken s (setProcesses (delete i (processes s)) s) w 1.
Proof.
  intros Hi. set (s1 := setProcesses _ s). split; [done|done|done| | |].
  - unfold dueWeight. cbn [s1 setProcesses posts processes]. change (postWeight s1) with (postWeight s). change (processWeight s1) with (processWeight s).
    change (pendingAt s1) with (pendingAt s). rewrite (sum_delete _ (processes s) i w Hi). unfold processWeight at 2. lia.
  - unfold dueCount. cbn [s1 setProcesses posts processes]. rewrite length_delete by done. apply lookup_lt_Some in Hi. lia.
  - intros v [Hp|Hp]; [by right; left|]. destruct (decide (v = w)) as [->|Hne]; [by left|]. right. right. cbn.
    apply list_elem_of_lookup in Hp as [j Hj]. destruct (decide (j = i)) as [->|Hji]; [congruence|].
    apply list_elem_of_lookup. destruct (decide (j < i)%nat).
    + exists j. by rewrite list_lookup_delete_lt.
    + exists (j - 1)%nat. rewrite list_lookup_delete_ge by lia. by replace (S (j - 1)) with j by lia.
Qed.

Lemma taken_inv s0 s w k : workInv noOne s0 -> taken s0 s w k -> workInv (eq w) s.
Proof.
  intros [Ht Hc Hl Hr Hg] [Ew Er Eh _ _ Hd]. assert (sameShape s s0) as Hss by (intros v; by rewrite Ew).
  assert (forall v, lock s v = lock s0 v) as Hlk.
  { intros v. apply eq_bool_prop_intro. rewrite !Is_true_true. split; apply lock_mono; rewrite ?Er; auto using sameShape_sym. }
  assert (forall y, waits s0 y <-> waits s y) as Hwt.
  { intros y. rewrite !waits_spec. unfold stateOf. by rewrite Ew. }
  split.
  - destruct Ht as [H1 H2 H3 H4]. rewrite Ew, Er in *. split; [exact H1|exact H2|exact H3|exact H4].
  - by rewrite <- Ew.
  - intros v y Hy Hlv Hne. rewrite <- Ew in Hy. rewrite Hlk in Hlv. specialize (Hl v y Hy Hlv (fun H => H)). unfold live in *.
    destruct (mState y); try done.
    + destruct Hl as [[E|Hv]%Hd|Hv]; [by destruct Hne|by left|right; by apply Hwt].
    + by destruct (Hd v Hl) as [E|?]; [destruct Hne|].
  - rewrite <- Ew, <- Er. apply Hr.
  - rewrite <- Ew, <- Er. apply Hg.
Qed.

Lemma taken_smaller s0 s w k : taken s0 s w k -> smaller s s0.
Proof.
  intros [Ew _ _ Hw Hc _]. unfold smaller, lexBy, retriesLeft, roundsLeft, notStarted. rewrite Ew. do 4 (right; split; [lia|]). lia.
Qed.

(** ** The handlers *)

Lemma shape_run x : shape (runWork x) = shape x.
Proof. unfold runWork, startWork. by destruct (isPending x). Qed.

Lemma run_inv s w x : workInv (eq w) s -> works s !! w = Some x -> lock s w = true -> workInv noOne (runWorld w x s).
Proof.
  intros Hi Hx Hl. apply (change_inv s _ w x (runWork x) (runPosts w x) (runProcesses w x)); try done.
  - apply shape_run.
  - pose proof (wi_count _ _ Hi w x Hx) as Hc. unfold countOk, runWork, startWork in *. by destruct (isPending x).
  - by left.
  - unfold live, runWork, due. cbn. unfold runPosts, runProcesses. destruct (runAct x) as [ec|].
    + left. exists (PostComplete w ec). split; [|done]. apply elem_of_app. right. by left.
    + right. apply elem_of_app. right. by left.
Qed.

Lemma rank_runWork x : (rank (mSub (runWork x)) <= rank (mSub x))%nat.
Proof.
  unfold runWork, startWork. cbn. etransitivity; [apply rank_run|]. destruct (isPending x); cbn; [apply rank_start|done].
Qed.

Lemma run_smaller s0 s w x : taken s0 s w 2 -> works s !! w = Some x -> smaller (runWorld w x s) s0.
Proof.
  intros [Ew _ _ Hw Hc _] Hx. set (s' := runWorld w x s). unfold smaller, lexBy.
  pose proof (retriesLeft_put s s' w x (runWork x) Hx eq_refl) as M1. pose proof (roundsLeft_put s s' w x (runWork x) Hx eq_refl) as M2.
  pose proof (notStarted_put s s' w x (runWork x) Hx eq_refl) as M3. pose proof (rank_runWork x) as Hr.
  assert (mRetries (runWork x) = mRetries x /\ mMaxRetries (runWork x) = mMaxRetries x) as [R1 R2] by (unfold runWork, startWork; by destruct (isPending x)).
  rewrite R1, R2 in M1. change (isPending (runWork x)) with false in M3.
  assert (retriesLeft s0 = retriesLeft s /\ roundsLeft s0 = roundsLeft s /\ notStarted s0 = notStarted s) as (E1 & E2 & E3) by (unfold retriesLeft, roundsLeft, notStarted; by rewrite Ew).
  right. split; [lia|]. right. split; [lia|]. destruct (isPending x) eqn:Ep; [left; lia|]. right. split; [lia|]. left.
  rewrite (dueWeight_put s s' w x (runWork x) (runPosts w x) (runProcesses w x) Hx eq_refl Ep eq_refl eq_refl), Hw.
  assert (pendingAt s w = false) as -> by (unfold pendingAt; by rewrite Hx).
  unfold runPosts, runProcesses. destruct (runAct x) as [ec|]; cbn [sum_list_with]; unfold postWeight, processWeight; clear -s'; destruct (pendingAt _ _); lia.
Qed.

Lemma clip_retry x : clip WORK_FAILURE_RETRY x = if mRetries x >=? mMaxRetries x then WORK_FAILURE_RAISE else WORK_FAILURE_RETRY.
Proof. unfold clip. by rewrite bool_decide_true. Qed.

Lemma clip_other st x : st <> WORK_FAILURE_RETRY -> clip st x = st.
Proof. intros Hne. unfold clip. by rewrite bool_decide_false. Qed.

Lemma countOk_complete ec x : countOk x -> countOk (completeWork ec x).
Proof.
  unfold countOk. intros (H1 & H2 & H3).
  assert (clip WORK_FAILURE_RETRY x = WORK_FAILURE_RETRY -> mRetries x < mMaxRetries x) as Hlt.
  { rewrite clip_retry. destruct (mRetries x >=? mMaxRetries x) eqn:E; [done|]. intros _. zify_bool. lia. }
  unfold completeWork. destruct (mState (ended ec x)) eqn:E; try (by destruct ec).
  assert (mRetries x < mMaxRetries x) as Hl.
  { destruct ec; [by apply Hlt|]. revert E. cbn. destruct (onSuccess (mSub x)).1; by rewrite ?clip_other by done. }
  by destruct ec.
Qed.

Lemma completePosts_advanced w ec x s l : completePosts w ec x s l -> mState (ended ec x) <> WORK_RUNNING -> Forall (advPost (completeWorld w ec x s)) l.
Proof.
  unfold completePosts. destruct (mState (ended ec x)); try done; [by intros [? _]|by intros [? _]|by intros -> _; constructor|by intros [? _]].
Qed.

Lemma complete_inv s w ec x l : workInv (eq w) s -> works s !! w = Some x -> lock s w = true -> completePosts w ec x s l ->
  workInv noOne (morePosts (completeWorld w ec x s) l).
Proof.
  intros Hi Hx Hl Hp. set (s1 := completeWorld w ec x s) in *.
  assert (works s1 !! w = Some (completeWork ec x)) as Hx1 by (apply list_lookup_insert_eq; by eapply lookup_lt_Some).
  apply (change_inv s _ w x (completeWork ec x) l []); try done.
  - apply shape_complete.
  - by apply countOk_complete, (wi_count _ _ Hi w).
  - cbn. by rewrite app_nil_r.
  - unfold rootsAfter. rewrite state_complete. cbn. unfold completeRoots. destruct (mParent x); [|by left]. destruct (isDone (mState (ended ec x))); [by right|by left].
  - unfold live. rewrite state_complete. unfold completePosts in Hp. fold s1 in Hp. destruct (mState (ended ec x)) eqn:E; try done.
    + destruct Hp as [_ Hp]. apply (Hp w w (completeWork ec x) eq_refl (visit_self _ w) Hx1). by rewrite state_complete.
    + left. exists (PostRun w). split; [|done]. apply elem_of_app. right. rewrite Hp. by left.
    + unfold completeWork. by rewrite E.
  - intros p y Ep Hd Hy Hyp. rewrite state_complete in Hd. unfold completePosts in Hp. fold s1 in Hp. rewrite Ep in Hp.
    assert (advanced s1 (eq p) l) as [_ Ha] by (by destruct (mState (ended ec x))). exact (Ha p p y eq_refl (visit_self _ p) Hy Hyp).
Qed.

Lemma rank_complete ec x : (rank (mSub (completeWork ec x)) <= rank (mSub x))%nat /\
  (mState (ended ec x) = WORK_PENDING \/ mState (ended ec x) = WORK_RUNNING -> rank (mSub (completeWork ec x)) < rank (mSub x))%nat.
Proof.
  pose proof (rank_success (mSub x)) as Hs. pose proof (rank_again (mSub x)) as Ha.
  assert (rank (mSub (ended ec x)) <= rank (mSub x))%nat as He by (destruct ec; [done|exact Hs]). split.
  - unfold completeWork. destruct (mState (ended ec x)); try done; (etransitivity; [apply rank_raise || apply rank_retry|done]).
  - intros Hst. assert (mSub (completeWork ec x) = mSub (ended ec x)) as -> by (unfold completeWork; by destruct Hst as [-> | ->]).
    destruct ec.
    + cbn in Hst. rewrite clip_retry in Hst. destruct (mRetries x >=? mMaxRetries x); by destruct Hst.
    + cbn in *. apply Ha. destruct (onSuccess (mSub x)).1; rewrite ?clip_other in Hst by done; try tauto.
      rewrite clip_retry in Hst. destruct (mRetries _ >=? mMaxRetries _); by destruct Hst.
Qed.

Lemma complete_smaller s0 s w ec x l : taken s0 s w 1 -> works s !! w = Some x -> completePosts w ec x s l ->
  smaller (morePosts (completeWorld w ec x s) l) s0.
Proof.
  intros [Ew _ _ Hw Hc _] Hx Hp. set (s' := morePosts _ l). unfold smaller, lexBy.
  pose proof (retriesLeft_put s s' w x (completeWork ec x) Hx eq_refl) as M1. pose proof (roundsLeft_put s s' w x (completeWork ec x) Hx eq_refl) as M2.
  pose proof (notStarted_put s s' w x (completeWork ec x) Hx eq_refl) as M3. destruct (rank_complete ec x) as [Hr Hr'].
  assert (mRetries (completeWork ec x) = mRetries x /\ mMaxRetries (completeWork ec x) = mMaxRetries x) as [R1 R2].
  { pose proof (shape_complete ec x) as Hsh. injection Hsh as _ _ _ ->. split; [|done]. unfold completeWork. destruct (mState (ended ec x)); by destruct ec. }
  rewrite R1, R2 in M1.
  assert (retriesLeft s0 = retriesLeft s /\ roundsLeft s0 = roundsLeft s /\ notStarted s0 = notStarted s) as (E1 & E2 & E3) by (unfold retriesLeft, roundsLeft, notStarted; by rewrite Ew).
  right. split; [lia|].
  destruct (decide (mState (ended ec x) = WORK_PENDING \/ mState (ended ec x) = WORK_RUNNING)) as [Ha|Ha]; [left; specialize (Hr' Ha); lia|].
  assert (isPending (completeWork ec x) = false) as Ep' by (unfold isPending; rewrite state_complete; apply bool_decide_eq_false; tauto).
  rewrite Ep' in M3. right. split; [lia|]. destruct (isPending x) eqn:Ep; [left; lia|]. right. split; [lia|]. left.
  rewrite (dueWeight_put s s' w x (completeWork ec x) l [] Hx eq_refl) by (rewrite ?Ep', ?Ep; cbn; by rewrite ?app_nil_r).
  rewrite Hw. assert (pendingAt s w = false) as -> by (unfold pendingAt; by rewrite Hx).
  pose proof (completePosts_advanced w ec x s l Hp ltac:(tauto)) as Hadv. apply advPosts_weight in Hadv.
  change (postWeight s') with (postWeight (completeWorld w ec x s)). rewrite Hadv. cbn. lia.
Qed.

(** ** Timers *)

Definition retryWork x : Work X :=
  setMSub (onReset (mSub x)) (setMState WORK_PENDING (setMRetries (u64 (mRetries x + 1)) (setMRetryWait false x))).

Lemma timer_ret s w x : treeOk s -> works s !! w = Some x ->
  exists l, handle (EvTimer w) s = Ret tt (morePosts (put w (retryWork x) s) l) /\ advanced (put w (retryWork x) s) (eq w) l.
Proof.
  intros Ht Hx. unfold handle, retry, reset, call. unfold mbind, M_bind, get. rewrite (upd_ret w _ x) by done.
  rewrite (upd_ret w _ (setMRetryWait false x)) by (by apply (put_eq w x)). rewrite put_put.
  set (x1 := setMRetries _ _). rewrite (setState_ret w _ x1), put_put by (by apply (put_eq w x)). change (clip WORK_PENDING x1) with WORK_PENDING.
  rewrite (upd_ret w _ (setMState WORK_PENDING x1)), put_put by (by apply (put_eq w x)).
  assert (setMSub (onReset (mSub (setMState WORK_PENDING x1))) (setMState WORK_PENDING x1) = retryWork x) as -> by done.
  destruct (advance_ret (put w (retryWork x) s) w (retryWork x)) as (l & E & Hl); [|by apply (put_eq w x)|].
  - apply (treeOk_put s _ w x (retryWork x)); try done. apply Ht.
  - exists l. split; [|done]. exact E.
Qed.

Lemma workInv_less (P : wid -> Prop) s : workInv noOne s -> workInv P s.
Proof. intros [H1 H2 H3 H4 H5]. split; try done. intros w x Hx Hl _. by apply (H3 w x Hx Hl (fun H => H)). Qed.

Lemma timer_inv s w x l : workInv noOne s -> works s !! w = Some x -> lock s w = true -> mRetryWait x = true ->
  advanced (put w (retryWork x) s) (eq w) l -> workInv noOne (morePosts (put w (retryWork x) s) l).
Proof.
  intros Hi Hx Hl Hw Ha. assert (works (put w (retryWork x) s) !! w = Some (retryWork x)) as Hx' by (by apply (put_eq w x)).
  apply (change_inv s _ w x (retryWork x) l []); try done.
  - by apply workInv_less.
  - destruct (wi_count _ _ Hi w x Hx) as (H1 & H2 & H3). specialize (H3 Hw). unfold countOk. cbn.
    rewrite u64_small by word_lia. split; [lia|done].
  - cbn. by rewrite app_nil_r.
  - by left.
  - destruct Ha as [_ Ha]. exact (Ha w w _ eq_refl (visit_self _ w) Hx' eq_refl).
Qed.

Lemma timer_smaller s w x l : workInv noOne s -> works s !! w = Some x -> mRetryWait x = true -> smaller (morePosts (put w (retryWork x) s) l) s.
Proof.
  intros Hi Hx Hw. left. pose proof (retriesLeft_put s (morePosts (put w (retryWork x) s) l) w x (retryWork x) Hx eq_refl) as M1.
  destruct (wi_count _ _ Hi w x Hx) as (H1 & H2 & H3). specialize (H3 Hw). cbn [retryWork mRetries mMaxRetries setMSub setMState setMRetries setMRetryWait] in M1.
  rewrite u64_small in M1 by word_lia. lia.
Qed.

(** ** Events *)

Lemma event_step s e : workInv noOne s -> enabled e s = true -> exists s', handle e s = Ret tt s' /\ workInv noOne s' /\ smaller s' s.
Proof.
  intros Hi He. destruct e as [|i ec|w].
  - unfold handle. cbn [enabled] in He. unfold mbind at 1, M_bind at 1, get. destruct (posts s) as [|p r] eqn:Ep; [done|].
    pose proof (take_post s p r Ep) as Htk. set (s1 := setPosts r s) in *. pose proof (taken_inv s s1 _ _ Hi Htk) as Hi1.
    unfold mbind, M_bind, modify. fold s1. unfold dispatch, mbind, M_bind, get. destruct (lock s1 (postWork p)) eqn:El; cbn [negb].
    + destruct (lock_lookup s1 _ El) as [x Hx]. destruct p as [w|w ec]; cbn [postWork] in *.
      * exists (runWorld w x s1). split; [by apply run_ret|]. split; [by apply run_inv|by apply run_smaller].
      * destruct (complete_ret w ec x s1 (wi_tree _ _ Hi1) Hx El) as (l & E & Hp). eexists. split; [exact E|].
        split; [by apply complete_inv|by apply complete_smaller].
    + exists s1. split; [done|]. split; [|by eapply taken_smaller]. destruct Hi1 as [H1 H2 H3 H4 H5]. split; try done.
      intros v y Hy Hv _. apply H3; [done|done|congruence].
  - unfold handle. cbn [enabled] in He. unfold mbind at 1, M_bind at 1, get. apply bool_decide_eq_true in He as [w Hw]. rewrite Hw.
    pose proof (take_process s i w Hw) as Htk. set (s1 := setProcesses _ s) in *. pose proof (taken_inv s s1 _ _ Hi Htk) as Hi1.
    unfold mbind, M_bind, modify. fold s1. unfold completeWeak, mbind, M_bind, get. destruct (lock s1 w) eqn:El; cbn [negb].
    + destruct (lock_lookup s1 _ El) as [x Hx]. destruct (complete_ret w ec x s1 (wi_tree _ _ Hi1) Hx El) as (l & E & Hp). eexists. split; [exact E|].
      split; [by apply complete_inv|by apply complete_smaller].
    + exists s1. split; [done|]. split; [|by eapply taken_smaller]. destruct Hi1 as [H1 H2 H3 H4 H5]. split; try done.
      intros v y Hy Hv _. apply H3; [done|done|congruence].
  - cbn [enabled] in He. destruct (works s !! w) as [x|] eqn:Hx; [|done]. apply andb_true_iff in He as [Hw Hl].
    destruct (timer_ret s w x (wi_tree _ _ Hi) Hx) as (l & E & Ha). eexists. split; [exact E|]. split; [by apply timer_inv|by apply timer_smaller].
Qed.

End Measure.

(** * Adding works, and the worlds that can be reached

    Works are added to the manager and to works that were added just before,
    then the manager advances its children; events follow in any order, and
    more works may be added later. *)

Import WK.

Section Reach.
Context {X : Type} `{!WorkVirtuals X}.
Implicit Types (s : World X) (x y : Work X) (w c p : wid).

Definition emptyWorld : World X := Build_World [] [] [] [] [].

(** Works added since there were [n0]. *)
Inductive added (n0 : nat) : World X -> World X -> Prop :=
| added_none s : added n0 s s
| added_one s s1 s2 parent name maxRetries sub w : added n0 s s1 ->
    (match parent with ManagerRef => True | WorkRef p => (n0 <= p < length (works s1))%nat end) -> 0 <= maxRetries <= UINT64_MAX ->
    addWork parent name maxRetries sub s1 = Ret w s2 -> added n0 s s2.

Inductive reached : World X -> Prop :=
| reached_empty : reached emptyWorld
| reached_add s s1 s2 : reached s -> added (length (works s)) s s1 -> managerAdvance s1 = Ret tt s2 -> reached s2
| reached_event s e s' : reached s -> enabled e s = true -> handle e s = Ret tt s' -> reached s'.

(** ** The world after [addWork] *)

Definition newWork parent name maxRetries sub : Work X := Build_Work parent name [] maxRetries 0 WORK_PENDING false (onReset sub).

Definition addChildOf (parent : ParentRef) name w (l : list (Work X)) : list (Work X) :=
  match parent with
  | ManagerRef => l
  | WorkRef p => alter (fun y => setMChildren (om_set name w (mChildren y)) y) p l
  end.

Definition addedWorld parent name maxRetries sub s : World X :=
  let w := length (works s) in
  Build_World (addChildOf parent name w (works s) ++ [newWork parent name maxRetries sub])
    (match parent with ManagerRef => om_set name w (roots s) | WorkRef _ => roots s end) (posts s) (processes s) (history s).

Lemma addWork_inv parent name maxRetries sub s s' w :
  (match parent with ManagerRef => True | WorkRef p => (p < length (works s))%nat end) -> addWork parent name maxRetries sub s = Ret w s' ->
  s' = addedWorld parent name maxRetries sub s /\
  match parent with
  | ManagerRef => om_find name (roots s) = None
  | WorkRef p => exists y, works s !! p = Some y /\ om_find name (mChildren y) = None
  end.
Proof.
  intros Hpar. unfold addWork, mbind, M_bind, get, modify. set (x := Build_Work _ _ _ _ _ _ _ _). set (n := length (works s)).
  assert (forall l, works (setWorks (l ++ [x]) s) !! length l = Some x) as Hlk by (intros l; cbn; by rewrite lookup_app_r, Nat.sub_diag).
  assert (forall s0, works s0 !! n = Some x -> reset n s0 = Ret tt (put n (newWork parent name maxRetries sub) s0)) as Hreset.
  { intros s0 H0. unfold reset, call, mbind, M_bind. rewrite (setState_ret n _ x) by done. rewrite (upd_ret n _ (setMState WORK_PENDING x)), put_put by (by apply (put_eq n x)). done. }
  assert (forall l, length l = n -> <[n:=newWork parent name maxRetries sub]> (l ++ [x]) = l ++ [newWork parent name maxRetries sub]) as Hins.
  { intros l <-. by rewrite insert_app_r_alt, Nat.sub_diag by done. }
  unfold addChild, mbind, M_bind, get. destruct parent as [|p].
  - change (roots (setWorks (works s ++ [x]) s)) with (roots s). destruct (om_find name (roots s)) as [c|] eqn:Ef; [by rewrite bool_decide_true|].
    rewrite bool_decide_false by (by intros []). unfold modify. rewrite Hreset by apply (Hlk (works s)). intros [= <- <-]. split; [|done].
    unfold put, setWorks, setRoots, addedWorld. cbn. fold n. by rewrite Hins.
  - destruct (lookup_lt_is_Some_2 _ _ Hpar) as [y Hy].
    pose proof (lookup_lt_Some _ _ _ Hy) as Hlt. rewrite (self_ret p y) by (cbn; by rewrite lookup_app_l).
    destruct (om_find name (mChildren y)) as [c|] eqn:Ef; [by rewrite bool_decide_true|]. rewrite bool_decide_false by (by intros []).
    unfold upd, modify. rewrite Hreset.
    + intros [= <- <-]. split; [|by exists y]. unfold put, setWorks, addedWorld, addChildOf. cbn. fold n.
      rewrite alter_app_l by done. by rewrite Hins by (by rewrite length_alter).
    + cbn. rewrite alter_app_l by done. rewrite lookup_app_r by (rewrite length_alter; done). by rewrite length_alter, Nat.sub_diag.
Qed.

Lemma addedWorld_lookup parent name maxRetries sub s v x' : works (addedWorld parent name maxRetries sub s) !! v = Some x' ->
  v = length (works s) /\ x' = newWork parent name maxRetries sub \/
  exists x, works s !! v = Some x /\ (x' = x /\ parent <> WorkRef v \/ parent = WorkRef v /\ x' = setMChildren (om_set name (length (works s)) (mChildren x)) x).
Proof.
  cbn. intros Hv. assert (length (addChildOf parent name (length (works s)) (works s)) = length (works s)) as Hlen
    by (destruct parent; [done|apply length_alter]).
  apply lookup_app_Some in Hv as [Hv|[Hge Hv]].
  - right. unfold addChildOf in Hv. destruct parent as [|p]; [exists x'; split; [done|by left]|].
    destruct (decide (p = v)) as [->|Hne].
    + rewrite list_lookup_alter_eq in Hv. destruct (works s !! v) as [x|]; [|done]. exists x. split; [done|]. right. split; [done|]. by injection Hv as <-.
    + rewrite list_lookup_alter_ne in Hv by done. exists x'. split; [done|]. left. split; [done|congruence].
  - left. rewrite Hlen in *. apply list_lookup_singleton_Some in Hv as [Hv <-]. split; [lia|done].
Qed.

Lemma addedWorld_old parent name maxRetries sub s v x : works s !! v = Some x ->
  exists x', works (addedWorld parent name maxRetries sub s) !! v = Some x' /\
    x' = (if bool_decide (parent = WorkRef v) then setMChildren (om_set name (length (works s)) (mChildren x)) x else x).
Proof.
  intros Hx. eexists. split; [|done]. cbn. pose proof (lookup_lt_Some _ _ _ Hx) as Hlt.
  rewrite lookup_app_l by (destruct parent; cbn; rewrite ?length_alter; done). unfold addChildOf. destruct parent as [|p]; [done|].
  destruct (decide (p = v)) as [->|Hne].
  - by rewrite list_lookup_alter_eq, Hx, bool_decide_true.
  - rewrite list_lookup_alter_ne, bool_decide_false by (done || congruence). done.
Qed.

Lemma addedWorld_new parent name maxRetries sub s : works (addedWorld parent name maxRetries sub s) !! length (works s) = Some (newWork parent name maxRetries sub).
Proof. cbn. rewrite lookup_app_r by (destruct parent; cbn; rewrite ?length_alter; done). destruct parent; cbn; by rewrite ?length_alter, Nat.sub_diag. Qed.

(** ** Adding keeps the invariant, but for the new works *)

Record addInv (n0 : nat) s : Prop := {
  ai_inv : workInv (fun w => n0 <= w)%nat s;
  ai_new : forall w x, (n0 <= w)%nat -> works s !! w = Some x -> mState x = WORK_PENDING /\ exists n c, (n, c) ∈ roots s /\ visits s c w;
  ai_len : (n0 <= length (works s))%nat;
}.

Lemma visits_snoc s c p y m d : visits s c p -> works s !! p = Some y -> mState y = WORK_PENDING -> (m, d) ∈ mChildren y -> visits s c d.
Proof. induction 1; intros; (eapply visit_child; [done|done|done|]); [constructor|auto]. Qed.

Section Add.
Context (n0 : nat) (s : World X) (parent : ParentRef) (name : Name) (maxRetries : Z) (sub : X).
Hypothesis Hi : addInv n0 s.
Hypothesis Hpar : match parent with ManagerRef => True | WorkRef p => (n0 <= p < length (works s))%nat end.
Hypothesis Hfresh : match parent with
  | ManagerRef => om_find name (roots s) = None
  | WorkRef p => exists y, works s !! p = Some y /\ om_find name (mChildren y) = None
  end.
Let n := length (works s).
Let s' := addedWorld parent name maxRetries sub s.

Lemma add_roots_sorted : om_sorted (roots s').
Proof. pose proof (tree_roots s (wi_tree _ _ (ai_inv _ _ Hi))) as H. cbn. destruct parent; [by apply om_set_sorted|done]. Qed.

Lemma add_root_old m c : (m, c) ∈ roots s -> (m, c) ∈ roots s'.
Proof.
  intros Hin. cbn. destruct parent as [|p]; [|done]. apply om_find_elem. rewrite om_find_set_ne; [by apply elem_om_find; [apply Hi|]|].
  intros ->. apply (elem_om_find _ _ _ (tree_roots s (wi_tree _ _ (ai_inv _ _ Hi)))) in Hin. congruence.
Qed.

Lemma add_root_inv m c : (m, c) ∈ roots s' -> parent = ManagerRef /\ m = name /\ c = n \/ (m, c) ∈ roots s.
Proof.
  cbn. destruct parent as [|p]; [|by right]. intros Hin. apply (elem_of_om_set _ _ _ _ (tree_roots s (wi_tree _ _ (ai_inv _ _ Hi)))) in Hin.
  destruct Hin as [[= -> ->]|[? _]]; [by left|by right].
Qed.

Lemma add_child_inv v x' m c : works s' !! v = Some x' -> (m, c) ∈ mChildren x' ->
  exists x, works s !! v = Some x /\ mParent x' = mParent x /\ ((m, c) ∈ mChildren x \/ parent = WorkRef v /\ m = name /\ c = n).
Proof.
  intros [[-> ->]|(x & Hx & [[-> _]|[E ->]])]%addedWorld_lookup Hin; [by apply not_elem_of_nil in Hin|exists x; split_and!; try done; by left|].
  exists x. split_and!; try done. cbn in Hin.
  apply (elem_of_om_set _ _ _ _ (tree_sorted s (wi_tree _ _ (ai_inv _ _ Hi)) v x Hx)) in Hin as [[= -> ->]|[? _]]; [by right|by left].
Qed.

Lemma add_tree : treeOk s'.
Proof.
  pose proof (wi_tree _ _ (ai_inv _ _ Hi)) as Ht. split.
  - intros v x' m c Hv Hin. destruct (add_child_inv v x' m c Hv Hin) as (x & Hx & Hmp & [Hin0|(E & -> & ->)]).
    + destruct (tree_child s Ht v x m c Hx Hin0) as (y & Hy & Hp & Hm & Hlt).
      destruct (addedWorld_old parent name maxRetries sub s c y Hy) as (y' & Hy' & ->). eexists. split; [exact Hy'|]. by destruct (bool_decide _).
    + eexists. split; [apply addedWorld_new|]. split_and!; try done. by apply lookup_lt_Some in Hx.
  - intros v x' [[-> ->]|(x & Hx & [[-> _]|[E ->]])]%addedWorld_lookup; [done|by apply (tree_sorted s Ht v)|]. cbn. apply om_set_sorted. by apply (tree_sorted s Ht v).
  - intros m c [(E & -> & ->)|Hin]%add_root_inv.
    + eexists. split; [apply addedWorld_new|done].
    + destruct (tree_root s Ht m c Hin) as (y & Hy & Hp & Hm). destruct (addedWorld_old parent name maxRetries sub s c y Hy) as (y' & Hy' & ->).
      eexists. split; [exact Hy'|]. by destruct (bool_decide _).
  - apply add_roots_sorted.
Qed.

Lemma find_set_other {V} (k k' : Name) (v u : V) m : om_find k' (om_set k v m) = Some u -> u <> v -> om_find k' m = Some u.
Proof. intros Hf Hne. destruct (decide (k = k')) as [->|Hk]; [rewrite om_find_set_eq in Hf; congruence|by rewrite om_find_set_ne in Hf]. Qed.

Lemma add_owned fuel : forall v, (v < n)%nat -> owned fuel s' v = true -> owned fuel s v = true.
Proof.
  induction fuel as [|fuel IH]; intros v Hv; [done|]. cbn [owned]. destruct (lookup_lt_is_Some_2 _ _ Hv) as [x Hx].
  destruct (addedWorld_old parent name maxRetries sub s v x Hx) as (x' & Hx' & Ex'). fold s' in Hx'. rewrite Hx', Hx.
  assert (mParent x' = mParent x /\ mUniqueName x' = mUniqueName x) as [-> ->] by (rewrite Ex'; by destruct (bool_decide _)).
  destruct (mParent x) as [|p].
  - rewrite !bool_decide_eq_true. cbn. destruct parent; [|done]. intros Hf. apply find_set_other in Hf; [done|]. unfold n in Hv. lia.
  - destruct (works s' !! p) as [y'|] eqn:Hy'; [|done]. rewrite andb_true_iff, bool_decide_eq_true. intros [Hf Ho].
    destruct (addedWorld_lookup _ _ _ _ _ _ _ Hy') as [[_ ->]|(y & Hy & Hcase)]; [done|]. rewrite Hy, andb_true_iff, bool_decide_eq_true.
    split; [|apply IH; [by eapply lookup_lt_Some|done]].
    destruct Hcase as [[-> _]|[_ ->]]; [done|]. apply find_set_other in Hf; [done|]. unfold n in Hv. lia.
Qed.

Lemma add_visits c d : visits s c d -> visits s' c d.
Proof.
  induction 1 as [w|w x m c d Hx Hp Hin _ IH]; [constructor|].
  destruct (addedWorld_old parent name maxRetries sub s w x Hx) as (x' & Hx' & ->). eapply visit_child; [exact Hx'|by destruct (bool_decide _)| |exact IH].
  destruct (bool_decide_reflect (parent = WorkRef w)) as [E|E]; [|exact Hin]. cbn. apply om_find_elem.
  revert Hfresh. rewrite E. intros (y & Hy & Hf). assert (y = x) as -> by congruence.
  pose proof (elem_om_find _ _ _ (tree_sorted s (wi_tree _ _ (ai_inv _ _ Hi)) w x Hx) Hin). rewrite om_find_set_ne; [done|]. intros ->. congruence.
Qed.

Lemma add_inv : 0 <= maxRetries <= UINT64_MAX -> addInv n0 s'.
Proof.
  intros Hmax. destruct Hi as [[Ht Hc Hl Hr Hg] Hn Hlen]. split; [split| |].
  - apply add_tree.
  - intros v x' [[-> ->]|(x & Hx & [[-> _]|[E ->]])]%addedWorld_lookup; [split; [cbn; lia|by split; [apply Hmax|]]|by apply (Hc v)|exact (Hc v x Hx)].
  - intros v x' Hv Hlk Hex. apply Nat.nle_gt in Hex. assert (v < n)%nat as Hvn by (unfold n; lia).
    destruct (addedWorld_lookup _ _ _ _ _ _ _ Hv) as [[-> _]|(x & Hx & [[-> _]|[E _]])]; [unfold n in Hvn; lia| |revert Hpar; rewrite E; lia].
    assert (live s v x) as Hlive by (apply Hl; [done|by apply (add_owned (Datatypes.S v) v Hvn)|lia]). unfold live in *. destruct (mState x); try done.
    destruct Hlive as [Hd|Hd]; [by left|right]. revert Hd. rewrite !waits_spec.
    assert (forall q : Name * wid, q ∈ mChildren x -> stateOf s' q.2 = stateOf s q.2) as Hst.
    { intros [m c] Hin. destruct (tree_child s Ht v x m c Hx Hin) as (y & Hy & _). unfold stateOf. cbn [snd]. rewrite Hy.
      destruct (addedWorld_old parent name maxRetries sub s c y Hy) as (y' & Hy' & ->). fold s' in Hy'. rewrite Hy'. by destruct (bool_decide _). }
    intros [(q & Hq & Hs) Hall]. split; [exists q; by rewrite Hst|]. intros d Hd. rewrite Hst by done. by apply Hall.
  - intros m c x' [(E & -> & ->)|Hin]%add_root_inv Hv.
    + unfold s', n in Hv. rewrite addedWorld_new in Hv. by injection Hv as <-.
    + destruct (tree_root s Ht m c Hin) as (x & Hx & _). destruct (addedWorld_old parent name maxRetries sub s c x Hx) as (y & Hy & ->).
      fold s' in Hy. rewrite Hv in Hy. injection Hy as ->. pose proof (Hr m c x Hin Hx). by destruct (bool_decide _).
  - intros v x' Hv Hm. destruct (addedWorld_lookup _ _ _ _ _ _ _ Hv) as [[-> ->]|(x & Hx & Hcase)].
    + left. cbn in Hm |- *. rewrite Hm. apply om_find_elem, om_find_set_eq.
    + assert (mParent x' = mParent x /\ mUniqueName x' = mUniqueName x /\ mState x' = mState x) as (E1 & -> & ->) by (by destruct Hcase as [[-> _]|[_ ->]]).
      rewrite E1 in Hm. destruct (Hg v x Hx Hm) as [Hin|?]; [left; by apply add_root_old|by right].
  - intros v x' Hge Hv. destruct (addedWorld_lookup _ _ _ _ _ _ _ Hv) as [[-> ->]|(x & Hx & Hcase)].
    + split; [done|]. pose proof Hpar as Hp. pose proof Hfresh as Hf. assert (parent = ManagerRef \/ exists p, parent = WorkRef p) as [E|[p E]] by (destruct parent; eauto).
      * exists name, n. split; [|constructor]. cbn. rewrite E. apply om_find_elem, om_find_set_eq.
      * rewrite E in Hp, Hf. destruct Hp as [Hp1 Hp2], Hf as (y & Hy & Hf). destruct (Hn p y Hp1 Hy) as (Hyp & m & c & Hin & Hv'). exists m, c. split; [by apply add_root_old|].
        destruct (addedWorld_old parent name maxRetries sub s p y Hy) as (y' & Hy' & Ey'). rewrite bool_decide_true in Ey' by done.
        apply (visits_snoc s' c p y' name n); [by apply add_visits|done|by rewrite Ey'|]. rewrite Ey'. cbn. apply om_find_elem, om_find_set_eq.
    + assert (mState x' = mState x) as -> by (by destruct Hcase as [[-> _]|[_ ->]]). destruct (Hn v x Hge Hx) as (Hp & m & c & Hin & Hv').
      split; [done|]. exists m, c. split; [by apply add_root_old|by apply add_visits].
  - cbn. rewrite length_app. destruct parent; cbn; rewrite ?length_alter; lia.
Qed.

End Add.

Lemma added_inv n0 s s1 : added n0 s s1 -> addInv n0 s -> addInv n0 s1.
Proof.
  induction 1 as [|s s1 s2 parent name m sub w _ IH Hp Hm E]; [done|]. intros Hi. specialize (IH Hi).
  destruct (addWork_inv parent name m sub s1 s2 w) as [-> Hf]; [by destruct parent as [|p]; [|destruct Hp]|done|]. by apply add_inv.
Qed.

(** ** The manager advances its children *)

Lemma manager_inv n0 s : addInv n0 s -> exists l, managerAdvance s = Ret tt (morePosts s l) /\ workInv noOne (morePosts s l).
Proof.
  intros [Hi Hn _]. pose proof (wi_tree _ _ Hi) as Ht. destruct (managerAdvance_ret s (roots s) Ht) as (l & E & [_ Ha]).
  { intros n c Hc. destruct (tree_root s Ht n c Hc) as (y & Hy & _). by exists y. }
  exists l. split; [exact E|]. destruct Hi as [_ Hc Hl Hr Hg]. split; try done; [by destruct Ht|]. intros w x Hx Hlk _.
  apply (lock_mono s (morePosts s l) w (fun _ => eq_refl) (fun _ _ H => H)) in Hlk.
  destruct (decide (n0 <= w)%nat) as [Hge|Hlt].
  - destruct (Hn w x Hge Hx) as (Hp & n & c & Hin & Hv). unfold live. rewrite Hp. by apply (Ha c w x); [exists n|..].
  - specialize (Hl w x Hx Hlk Hlt). unfold live in *. destruct (mState x); try done; [|by apply due_more].
    destruct Hl as [Hl|Hl]; [left; by apply due_more|by right].
Qed.

Lemma empty_inv : workInv noOne emptyWorld.
Proof. split; try done; split; try done; intros n c H; by apply not_elem_of_nil in H. Qed.

Lemma start_addInv s : workInv noOne s -> addInv (length (works s)) s.
Proof.
  intros Hi. split; [by apply workInv_less| |done]. intros w x Hge Hx. apply lookup_lt_Some in Hx. lia.
Qed.

Context `{!WorkVirtualsOk X}.

Lemma reached_inv s : reached s -> workInv noOne s.
Proof.
  induction 1 as [|s s1 s2 _ IH Ha E|s e s' _ IH He E]; [apply empty_inv| |].
  - destruct (manager_inv (length (works s)) s1) as (l & E' & Hi); [|rewrite E' in E; by injection E as <-].
    apply (added_inv _ s); [done|by apply start_addInv].
  - destruct (event_step s e IH He) as (s'' & E' & Hi & _). rewrite E' in E. by injection E as <-.
Qed.

(** ** What can happen when nothing is due *)

Lemma quiet_done s : workInv noOne s -> (forall e, enabled e s = false) -> forall w x, works s !! w = Some x -> lock s w = true -> isDone (mState x) = true.
Proof.
  intros Hi Hq.
  assert (forall w, ~ due s w) as Hnd.
  { intros w [(p & Hp & _)|Hp].
    - specialize (Hq EvPost). cbn in Hq. destruct (posts s); [by apply not_elem_of_nil in Hp|done].
    - apply list_elem_of_lookup in Hp as [i Hi']. specialize (Hq (EvProcess i false)). cbn in Hq. apply bool_decide_eq_false in Hq. apply Hq. by exists w. }
  assert (forall k w x, (length (works s) <= k + w)%nat -> works s !! w = Some x -> lock s w = true -> isDone (mState x) = true) as Hall; [|intros; by eapply (Hall (length (works s))); [lia|..]].
  induction k as [|k IH]; intros w x Hk Hx Hl; [apply lookup_lt_Some in Hx; lia|].
  pose proof (wi_live _ _ Hi w x Hx Hl (fun H => H)) as Hv. unfold live in Hv. destruct (mState x) eqn:Es; try done.
  - destruct Hv as [Hv|Hv]; [by destruct (Hnd w)|]. apply waits_spec in Hv as [([n c] & Hc & Hs) Hr].
    destruct (tree_child s (wi_tree _ _ Hi) w x n c Hx Hc) as (y & Hy & _ & _ & Hlt).
    assert (isDone (mState y) = true) as Hd by (apply (IH c y); [lia|done|]; by eapply lock_child; [apply Hi|..]).
    specialize (Hr (n, c) Hc). unfold stateOf in Hs, Hr. cbn in Hs, Hr. rewrite Hy in Hs, Hr. cbn in Hs, Hr. by destruct (mState y).
  - by destruct (Hnd w).
  - specialize (Hq (EvTimer w)). cbn [enabled] in Hq. by rewrite Hx, Hv, Hl in Hq.
Qed.

Definition finished s : Prop := roots s = [] /\ forall w x, works s !! w = Some x -> mParent x = ManagerRef -> isDone (mState x) = true.

Lemma quiet_finished s : workInv noOne s -> (forall e, enabled e s = false) -> finished s.
Proof.
  intros Hi Hq. assert (roots s = []) as E.
  { destruct (roots s) as [|[n c] r] eqn:Er; [done|exfalso]. assert ((n, c) ∈ roots s) as Hin by (rewrite Er; by left).
    destruct (tree_root s (wi_tree _ _ Hi) n c Hin) as (y & Hy & _).
    pose proof (quiet_done s Hi Hq c y Hy (lock_of_root s n c (wi_tree _ _ Hi) Hin)). pose proof (wi_root _ _ Hi n c y Hin Hy). congruence. }
  split; [done|]. intros w x Hx Hp. destruct (wi_gone _ _ Hi w x Hx Hp) as [Hin|?]; [|done]. rewrite E in Hin. by apply not_elem_of_nil in Hin.
Qed.

Lemma quiet_dec s : (exists e, enabled e s = true) \/ forall e, enabled e s = false.
Proof.
  destruct (enabled EvPost s) eqn:E1; [by left; exists EvPost|].
  destruct (processes s) as [|w r] eqn:Eq; [|left; exists (EvProcess 0 false); cbn; by rewrite Eq].
  destruct (existsb (fun w => enabled (EvTimer w) s) (seq 0 (length (works s)))) eqn:Et.
  - apply existsb_exists in Et as (w & _ & ?). left. by exists (EvTimer w).
  - right. intros [|i ec|w]; [done|cbn; by rewrite Eq|]. destruct (enabled (EvTimer w) s) eqn:E; [|done]. rewrite <- Et. symmetry. apply existsb_exists.
    exists w. split; [|done]. cbn in E. destruct (works s !! w) eqn:Hw; [|done]. apply lookup_lt_Some in Hw. apply in_seq. lia.
Qed.

(** ** What happens whatever the events are *)

Inductive inevitably (P : World X -> Prop) : World X -> Prop :=
| inev_now s : P s -> inevitably P s
| inev_later s : (exists e, enabled e s = true) -> (forall e, enabled e s = true -> exists s', handle e s = Ret tt s') ->
    (forall e s', enabled e s = true -> handle e s = Ret tt s' -> inevitably P s') -> inevitably P s.

Lemma finish_inevitable s : workInv noOne s -> inevitably finished s.
Proof.
  induction (smaller_wf s) as [s _ IH]. intros Hi. destruct (quiet_dec s) as [He|Hq]; [|by apply inev_now, quiet_finished].
  apply inev_later; [done| |].
  - intros e Hen. destruct (event_step s e Hi Hen) as (s' & E & _). by exists s'.
  - intros e s' Hen E. destruct (event_step s e Hi Hen) as (s'' & E' & Hi' & Hsm). rewrite E' in E. injection E as <-. by apply IH.
Qed.

End Reach.

(** * The history of works: a work runs after its children have succeeded *)

Import WK.

Definition eventWork (e : WorkEvent) : wid := match e with WStart w | WRun w | WSucceeded w | WRetry w | WRaised w => w end.

Section History.
Context {X : Type} `{!WorkVirtuals X}.
Implicit Types (s : World X) (x y : Work X) (w c : wid) (p : Post).

(** Every child has succeeded at some time. *)
Definition kids (h : list WorkEvent) x : Prop := forall n c, (n, c) ∈ mChildren x -> WSucceeded c ∈ h.

(** Closures and processes of a work that was started or is about to. *)
Definition goes (ps : list Post) (qs : list wid) w : Prop := PostRun w ∈ ps \/ PostComplete w false ∈ ps \/ w ∈ qs.

Record histInv (n0 : nat) s : Prop := {
  hi_success : forall w x, works s !! w = Some x -> mState x = WORK_SUCCESS -> WSucceeded w ∈ history s;
  hi_goes : forall w x, works s !! w = Some x -> goes (posts s) (processes s) w -> kids (history s) x;
  hi_past : forall h1 e h2 x, history s = h1 ++ e :: h2 -> e = WStart (eventWork e) \/ e = WRun (eventWork e) -> works s !! eventWork e = Some x -> kids h1 x;
  hi_posts : forall p, p ∈ posts s -> (postWork p < n0)%nat;
  hi_processes : forall w, w ∈ processes s -> (w < n0)%nat;
  hi_events : forall e, e ∈ history s -> (eventWork e < n0)%nat;
}.

Lemma kids_app h h' x : kids h x -> kids (h ++ h') x.
Proof. intros Hk n c Hc. apply elem_of_app. left. by eapply Hk. Qed.

Lemma hist_change s s' w x x' lp lq lh : histInv (length (works s)) s -> works s !! w = Some x -> works s' = <[w:=x']> (works s) ->
  mChildren x' = mChildren x -> posts s' = posts s ++ lp -> processes s' = processes s ++ lq -> history s' = history s ++ lh ->
  (mState x' = WORK_SUCCESS -> WSucceeded w ∈ history s') ->
  (forall v y, works s' !! v = Some y -> goes lp lq v -> kids (history s') y) ->
  (forall e, e ∈ lh -> eventWork e = w /\ (e = WStart w \/ e = WRun w -> kids (history s) x)) ->
  (forall p, p ∈ lp -> (postWork p < length (works s))%nat) -> (forall v, v ∈ lq -> v = w) -> histInv (length (works s')) s'.
Proof.
  intros [H1 H2 H3 H4 H5 H6] Hx Hw Hc Ep Eq Eh Hs Hg He Hp Hq. pose proof (lookup_lt_Some _ _ _ Hx) as Hlt.
  assert (length (works s') = length (works s)) as Hlen by (rewrite Hw; apply length_insert).
  assert (forall v y, works s' !! v = Some y -> exists y0, works s !! v = Some y0 /\ mChildren y = mChildren y0 /\ (y = y0 \/ v = w /\ y = x')) as Hback.
  { intros v y Hy. rewrite Hw in Hy. destruct (decide (v = w)) as [->|Hne].
    - rewrite list_lookup_insert_eq in Hy by done. injection Hy as <-. exists x. split_and!; auto.
    - rewrite list_lookup_insert_ne in Hy by done. exists y. auto. }
  assert (forall h y y0, mChildren y = mChildren y0 -> kids h y0 -> kids h y) as Hkids by (intros h y y0 E Hk n c; rewrite E; apply Hk).
  split; rewrite ?Hlen.
  - intros v y (y0 & Hy0 & _ & [->|[-> ->]])%Hback Hst; [|by apply Hs]. rewrite Eh. apply elem_of_app. left. by apply (H1 v y0).
  - intros v y Hy. rewrite Ep, Eq. intros Hgo. destruct (Hback v y Hy) as (y0 & Hy0 & Ec & _).
    assert (goes (posts s) (processes s) v \/ goes lp lq v) as [Hg1|Hg1].
    { unfold goes in *. rewrite !elem_of_app in Hgo. tauto. }
    + apply (Hkids _ y y0 Ec). rewrite Eh. by apply kids_app, (H2 v).
    + by apply (Hg v).
  - intros h1 e h2 y E Hk Hy. destruct (Hback _ _ Hy) as (y0 & Hy0 & Ec & _). apply (Hkids _ y y0 Ec). rewrite Eh in E.
    destruct (app_cons_cases _ _ _ _ _ E) as [[h3 E3]|(h3 & -> & Hin)]; [by apply (H3 h1 e h3 y0)|].
    destruct (He e Hin) as [Ew Hke]. rewrite Ew in *. assert (y0 = x) as -> by congruence. by apply kids_app, Hke.
  - intros p. rewrite Ep, elem_of_app. intros [?|?]; [by apply H4|by apply Hp].
  - intros v. rewrite Eq, elem_of_app. intros [?| ->%Hq]; [by apply H5|done].
  - intros e. rewrite Eh, elem_of_app. intros [?|Hin]; [by apply H6|]. destruct (He e Hin) as [-> _]. done.
Qed.

Lemma success_kids s x : (forall w y, works s !! w = Some y -> mState y = WORK_SUCCESS -> WSucceeded w ∈ history s) ->
  allChildrenSuccessful s (mChildren x) = true -> kids (history s) x.
Proof.
  intros Hs Ha n c Hc. unfold allChildrenSuccessful in Ha. rewrite forallb_forall in Ha. specialize (Ha (n, c) (proj1 (list_elem_of_In _ _) Hc)).
  apply bool_decide_eq_true in Ha. unfold stateOf in Ha. cbn in Ha. destruct (works s !! c) as [y|] eqn:Hy; [|done]. injection Ha as Ha. by eapply Hs.
Qed.

Lemma advPost_goes s l v y : Forall (advPost s) l -> (forall w y, works s !! w = Some y -> mState y = WORK_SUCCESS -> WSucceeded w ∈ history s) ->
  works s !! v = Some y -> goes l [] v -> kids (history s) y.
Proof.
  intros Hl Hs Hy Hg. rewrite Forall_forall in Hl. destruct Hg as [Hin|[Hin|Hin]]; [| |by apply not_elem_of_nil in Hin].
  - destruct (Hl _ Hin) as (x & Hx & _ & Ha). cbn in Hx. assert (x = y) as -> by congruence. by apply (success_kids s).
  - by destruct (Hl _ Hin) as (x & Hx & _ & [? _]).
Qed.

Lemma advPost_ids s l : Forall (advPost s) l -> forall p, p ∈ l -> (postWork p < length (works s))%nat.
Proof. intros Hl p Hin. rewrite Forall_forall in Hl. destruct (Hl p Hin) as (x & Hx & _). by eapply lookup_lt_Some. Qed.

(** The success of works after one of them changed. *)
Lemma success_after s s' w x x' : histInv (length (works s)) s -> works s !! w = Some x -> works s' = <[w:=x']> (works s) ->
  (forall e, e ∈ history s -> e ∈ history s') -> (mState x' = WORK_SUCCESS -> WSucceeded w ∈ history s') ->
  forall v y, works s' !! v = Some y -> mState y = WORK_SUCCESS -> WSucceeded v ∈ history s'.
Proof.
  intros Hi Hx Hw Hsub Hs v y Hy Hst. rewrite Hw in Hy. destruct (decide (v = w)) as [->|Hne].
  - rewrite list_lookup_insert_eq in Hy by (by eapply lookup_lt_Some). injection Hy as <-. by apply Hs.
  - rewrite list_lookup_insert_ne in Hy by done. apply Hsub. by apply (hi_success _ _ Hi v y).
Qed.

Lemma run_hist s w x : histInv (length (works s)) s -> works s !! w = Some x -> kids (history s) x -> histInv (length (works (runWorld w x s))) (runWorld w x s).
Proof.
  intros Hi Hx Hk. apply (hist_change s _ w x (runWork x) (runPosts w x) (runProcesses w x) (runEvents w x)); try done.
  - by injection (shape_run x).
  - intros v y Hy Hg. assert (v = w) as ->.
    { unfold goes, runPosts, runProcesses in Hg. destruct (runAct x); set_solver. }
    cbn in Hy. rewrite list_lookup_insert_eq in Hy by (by eapply lookup_lt_Some). injection Hy as <-.
    intros n c Hc. assert (mChildren (runWork x) = mChildren x) as E by (by injection (shape_run x)). rewrite E in Hc. apply elem_of_app. left. by apply (Hk n).
  - intros e. unfold runEvents. destruct (isPending x); set_solver.
  - intros p. unfold runPosts. apply lookup_lt_Some in Hx. destruct (runAct x); set_solver.
  - intros v. unfold runProcesses. destruct (runAct x); set_solver.
Qed.

Lemma ended_success ec x : mState (ended ec x) = WORK_SUCCESS \/ mState (ended ec x) = WORK_RUNNING -> ec = false.
Proof. destruct ec; [|done]. cbn. rewrite clip_retry. by destruct (_ >=? _); intros [?|?]. Qed.

Lemma complete_hist s w ec x l : histInv (length (works s)) s -> works s !! w = Some x -> (ec = false -> kids (history s) x) -> completePosts w ec x s l ->
  histInv (length (works (morePosts (completeWorld w ec x s) l))) (morePosts (completeWorld w ec x s) l).
Proof.
  intros Hi Hx Hk Hp. set (s1 := completeWorld w ec x s) in *.
  assert (mChildren (completeWork ec x) = mChildren x) as Hch by (by injection (shape_complete ec x)).
  assert (mState (completeWork ec x) = WORK_SUCCESS -> WSucceeded w ∈ history s1) as Hsucc.
  { rewrite state_complete. intros E. cbn. unfold completeEvents. rewrite E. apply elem_of_app. right. by left. }
  assert (forall v y, works s1 !! v = Some y -> mState y = WORK_SUCCESS -> WSucceeded v ∈ history s1) as Hall.
  { apply (success_after s s1 w x (completeWork ec x)); try done. intros e He. apply elem_of_app. by left. }
  apply (hist_change s _ w x (completeWork ec x) l [] (completeEvents w ec x)); try done.
  - cbn. by rewrite app_nil_r.
  - intros v y Hy Hg. destruct (decide (mState (ended ec x) = WORK_RUNNING)) as [E|E].
    + unfold completePosts in Hp. rewrite E in Hp. rewrite Hp in Hg. assert (v = w) as -> by (unfold goes in Hg; set_solver).
      cbn in Hy. rewrite list_lookup_insert_eq in Hy by (by eapply lookup_lt_Some). injection Hy as <-.
      pose proof (ended_success ec x (or_intror E)) as Hec. intros n c Hc. rewrite Hch in Hc. apply elem_of_app. left. by apply (Hk Hec n).
    + apply (advPost_goes s1 l v y); try done. by apply completePosts_advanced.
  - intros e. unfold completeEvents. destruct (mState (ended ec x)); set_solver.
  - intros p Hin. destruct (decide (mState (ended ec x) = WORK_RUNNING)) as [E|E].
    + unfold completePosts in Hp. rewrite E in Hp. rewrite Hp in Hin. apply lookup_lt_Some in Hx. set_solver.
    + pose proof (advPost_ids s1 l (completePosts_advanced _ _ _ _ _ Hp E) p Hin) as Hlt. cbn in Hlt. by rewrite length_insert in Hlt.
  - intros v Hv. by apply not_elem_of_nil in Hv.
Qed.

Lemma timer_hist s w x l : histInv (length (works s)) s -> works s !! w = Some x -> advanced (put w (retryWork x) s) (eq w) l ->
  histInv (length (works (morePosts (put w (retryWork x) s) l))) (morePosts (put w (retryWork x) s) l).
Proof.
  intros Hi Hx [Ha _]. assert (forall v y, works (put w (retryWork x) s) !! v = Some y -> mState y = WORK_SUCCESS -> WSucceeded v ∈ history s) as Hall.
  { apply (success_after s (put w (retryWork x) s) w x (retryWork x)); try done. }
  apply (hist_change s _ w x (retryWork x) l [] []); try done; try (cbn; by rewrite app_nil_r).
  - intros v y Hy Hg. by apply (advPost_goes (put w (retryWork x) s) l v y).
  - intros e He. by apply not_elem_of_nil in He.
  - intros p Hin. pose proof (advPost_ids _ l Ha p Hin) as Hlt. cbn in Hlt. by rewrite length_insert in Hlt.
  - intros v Hv. by apply not_elem_of_nil in Hv.
Qed.

Lemma hist_less n s s' : works s' = works s -> history s' = history s -> (forall p, p ∈ posts s' -> p ∈ posts s) ->
  (forall w, w ∈ processes s' -> w ∈ processes s) -> histInv n s -> histInv n s'.
Proof.
  intros Ew Eh Hp Hq [H1 H2 H3 H4 H5 H6]. split; rewrite ?Ew, ?Eh; auto.
  intros w x Hx Hg. apply (H2 w x Hx). unfold goes in *. destruct Hg as [?|[?|?]]; auto.
Qed.

Lemma event_hist s e s' : treeOk s -> histInv (length (works s)) s -> enabled e s = true -> handle e s = Ret tt s' -> histInv (length (works s')) s'.
Proof.
  intros Ht Hi He. destruct e as [|i ec|w].
  - unfold handle. cbn [enabled] in He. unfold mbind at 1, M_bind at 1, get. destruct (posts s) as [|p r] eqn:Ep; [done|].
    set (s1 := setPosts r s). assert (histInv (length (works s1)) s1) as Hi1.
    { apply (hist_less _ s); try done. cbn. rewrite Ep. intros q Hq. by right. }
    assert (treeOk s1) as Ht1 by (by destruct Ht). assert (p ∈ posts s) as Hin by (rewrite Ep; by left).
    unfold mbind, M_bind, modify. fold s1. unfold dispatch, mbind, M_bind, get. destruct (lock s1 (postWork p)) eqn:El; cbn [negb]; [|by intros [= <-]].
    destruct (lock_lookup s1 _ El) as [x Hx]. destruct p as [w|w ec]; cbn [postWork] in *.
    + rewrite (run_ret w x s1 Hx). intros [= <-]. apply run_hist; [done|done|]. apply (hi_goes _ _ Hi w x Hx). by left.
    + destruct (complete_ret w ec x s1 Ht1 Hx El) as (l & E & Hp). rewrite E. intros [= <-]. apply complete_hist; try done.
      intros ->. apply (hi_goes _ _ Hi w x Hx). right. by left.
  - unfold handle. cbn [enabled] in He. unfold mbind at 1, M_bind at 1, get. apply bool_decide_eq_true in He as [w Hw]. rewrite Hw.
    set (s1 := setProcesses (delete i (processes s)) s). assert (histInv (length (works s1)) s1) as Hi1.
    { apply (hist_less _ s); try done. cbn. intros v Hv. apply list_elem_of_lookup in Hv as [j Hj].
      destruct (decide (j < i)%nat); [rewrite list_lookup_delete_lt in Hj by done|rewrite list_lookup_delete_ge in Hj by lia]; by eapply list_elem_of_lookup_2. }
    assert (treeOk s1) as Ht1 by (by destruct Ht).
    unfold mbind, M_bind, modify. fold s1. unfold completeWeak, mbind, M_bind, get. destruct (lock s1 w) eqn:El; cbn [negb]; [|by intros [= <-]].
    destruct (lock_lookup s1 _ El) as [x Hx]. destruct (complete_ret w ec x s1 Ht1 Hx El) as (l & E & Hp). rewrite E. intros [= <-].
    apply complete_hist; try done. intros _. apply (hi_goes _ _ Hi w x Hx). right. right. by eapply list_elem_of_lookup_2.
  - cbn [enabled] in He. destruct (works s !! w) as [x|] eqn:Hx; [|done].
    destruct (timer_ret s w x Ht Hx) as (l & E & Ha). rewrite E. intros [= <-]. by apply timer_hist.
Qed.

(** ** New works *)

Lemma add_hist n0 s parent name m sub : histInv n0 s -> (n0 <= length (works s))%nat ->
  (match parent with ManagerRef => True | WorkRef p => (n0 <= p)%nat end) -> histInv n0 (addedWorld parent name m sub s).
Proof.
  intros [H1 H2 H3 H4 H5 H6] Hn Hp.
  assert (forall v y, works (addedWorld parent name m sub s) !! v = Some y -> (v < n0)%nat -> works s !! v = Some y) as Hold.
  { intros v y Hy Hv. destruct (addedWorld_lookup _ _ _ _ _ _ _ Hy) as [[-> _]|(x & Hx & [[-> _]|[-> _]])]; [lia|done|lia]. }
  split; try done.
  - intros v y Hy Hs. destruct (addedWorld_lookup _ _ _ _ _ _ _ Hy) as [[-> ->]|(x & Hx & [[-> _]|[_ ->]])]; [done|by apply (H1 v x)|by apply (H1 v x)].
  - intros v y Hy Hg. apply (H2 v y); [|done]. apply Hold; [done|]. destruct Hg as [Hin|[Hin|Hin]]; [by apply (H4 _ Hin)|by apply (H4 _ Hin)|by apply H5].
  - intros h1 e h2 y E Hk Hy. apply (H3 h1 e h2 y); [done|done|]. apply Hold; [done|]. apply H6. cbn in E. rewrite E. apply elem_of_app. right. by left.
Qed.

Lemma added_hist n0 s s1 : added n0 s s1 -> (n0 <= length (works s))%nat -> histInv n0 s -> histInv n0 s1 /\ (n0 <= length (works s1))%nat.
Proof.
  induction 1 as [|s s1 s2 parent name m sub w _ IH Hp Hm E]; [done|]. intros Hn Hi. destruct (IH Hn Hi) as [Hi1 Hn1].
  destruct (addWork_inv parent name m sub s1 s2 w) as [-> _]; [by destruct parent as [|p]; [|destruct Hp]|done|].
  split; [apply add_hist; [done|done|by destruct parent as [|p]; [|destruct Hp]]|].
  cbn. rewrite length_app. destruct parent; cbn; rewrite ?length_alter; lia.
Qed.

Lemma manager_hist n0 s s' : treeOk s -> histInv n0 s -> (n0 <= length (works s))%nat -> managerAdvance s = Ret tt s' -> histInv (length (works s')) s'.
Proof.
  intros Ht [H1 H2 H3 H4 H5 H6] Hn. destruct (managerAdvance_ret s (roots s) Ht) as (l & E & [Ha _]).
  { intros n c Hc. destruct (tree_root s Ht n c Hc) as (y & Hy & _). by exists y. }
  unfold managerAdvance, mbind, M_bind, get. rewrite E. intros [= <-]. split; try done.
  - intros v y Hy Hg. cbn in Hy, Hg |- *. unfold goes in Hg. rewrite !elem_of_app in Hg.
    assert (goes (posts s) (processes s) v \/ goes l [] v) as [Hg1|Hg1] by (unfold goes; tauto); [by apply (H2 v)|by apply (advPost_goes s l v y)].
  - intros p Hin. apply elem_of_app in Hin as [Hin|Hin]; [cbn; specialize (H4 p Hin); lia|by apply (advPost_ids s l Ha)].
  - intros v Hin. specialize (H5 v Hin). cbn. lia.
  - intros e Hin. specialize (H6 e Hin). cbn. lia.
Qed.

Context `{!WorkVirtualsOk X}.

Lemma reached_hist s : reached s -> histInv (length (works s)) s.
Proof.
  induction 1 as [|s s1 s2 Hr IH Ha E|s e s' Hr IH He E].
  - split; try done; intros p Hp; by apply not_elem_of_nil in Hp.
  - destruct (added_hist _ _ _ Ha ltac:(done) IH) as [Hi Hn]. eapply manager_hist; [|done..].
    apply (wi_tree (fun w => length (works s) <= w)%nat), (ai_inv (length (works s))), (added_inv _ s); [done|]. by apply start_addInv, reached_inv.
  - eapply event_hist; [|done..]. by eapply wi_tree, reached_inv.
Qed.

End History.
