(* ===== verification/WorkTheorems.v ===== *)
(** * Properties of work items *)

From S2P Require Import Prelude OrdContainers Work WorkFacts WorkProgress.
Import WK.

(** ** A small example

    Works that count down, running once more for each number, and works that
    wait for a process. *)

Definition Demo : Type := nat * bool.

Global Instance demoVirtuals : WorkVirtuals Demo := {|
  onReset := fun x : Demo => x;
  onStart := fun x : Demo => x;
  onRun := fun x : Demo => (if x.2 then RunProcess else RunComplete false, x);
  onSuccess := fun x : Demo => match x.1 with O => (WORK_SUCCESS, x) | Datatypes.S n => (WORK_RUNNING, (n, x.2)) end;
  onFailureRetry := fun x : Demo => x;
  onFailureRaise := fun x : Demo => x;
|}.

Global Instance demoVirtualsOk : WorkVirtualsOk Demo.
Proof.
  refine {| rank := fst |}; try (intros; cbn; lia).
  - intros [[|n] b]; cbn; lia.
  - intros [[|n] b]; cbn; [intros [?|?]; done|lia].
Defined.

Definition world {A} (o : outcome (World Demo) A) : World Demo := match o with Ret _ s => s | Throw _ s => s end.

(** A work that waits for a process, with two children that do so too, and a
    work that runs three times. *)
Definition demo1 : World Demo := world (addWork ManagerRef [1] 2 (0%nat, true) emptyWorld).
Definition demo2 : World Demo := world (addWork (WorkRef 0) [2] 2 (0%nat, true) demo1).
Definition demo3 : World Demo := world (addWork (WorkRef 0) [3] 2 (0%nat, true) demo2).
Definition demo4 : World Demo := world (addWork ManagerRef [4] 0 (2%nat, false) demo3).
Definition demo : World Demo := world (managerAdvance demo4).

Lemma demo_reached : reached demo.
Proof.
  apply (reached_add emptyWorld demo4 _ reached_empty); [|vm_compute; reflexivity].
  assert (added 0 emptyWorld demo1) as H1 by (by apply (added_one 0 _ emptyWorld demo1 ManagerRef [1] 2 (0%nat, true) 0 (added_none 0 emptyWorld))).
  assert (added 0 emptyWorld demo2) as H2 by (apply (added_one 0 _ demo1 demo2 (WorkRef 0) [2] 2 (0%nat, true) 1 H1); [vm_compute; lia|done|reflexivity]).
  assert (added 0 emptyWorld demo3) as H3 by (apply (added_one 0 _ demo2 demo3 (WorkRef 0) [3] 2 (0%nat, true) 2 H2); [vm_compute; lia|done|reflexivity]).
  by apply (added_one 0 _ demo3 demo4 ManagerRef [4] 0 (2%nat, false) 3 H3).
Qed.

(** Events one after the other. *)
Fixpoint events (es : list Event) (s : World Demo) : option (World Demo) :=
  match es with
  | [] => Some s
  | e :: r => if enabled e s then match handle e s with Ret _ s' => events r s' | Throw _ _ => None end else None
  end.

Lemma events_reached es : forall s s', reached s -> events es s = Some s' -> reached s'.
Proof.
  induction es as [|e es IH]; intros s s' Hr; cbn [events]; [by intros [= <-]|]. destruct (enabled e s) eqn:Ee; [|done].
  destruct (handle e s) as [[] s1|] eqn:E; [|done]. apply IH. by eapply reached_event.
Qed.

(** ** The properties *)



(** A work runs only after its children have succeeded: whatever happens,
    each call of [onStart] and [onRun] of a work comes after the success of
    every child of the work. *)
Theorem works_run_after_children {X : Type} `{!WorkVirtuals X} `{!WorkVirtualsOk X} (s : World X) h1 e h2 w x n c :
  reached s -> history s = h1 ++ e :: h2 -> e = WStart w \/ e = WRun w -> works s !! w = Some x -> (n, c) ∈ mChildren x -> WSucceeded c ∈ h1.
Proof.
  intros Hr E He Hx Hc. assert (eventWork e = w) as Ew by (by destruct He as [-> | ->]).
  apply (hi_past _ _ (reached_hist s Hr) h1 e h2 x E) with (n := n); [by rewrite Ew|by rewrite Ew|done].
Qed.

(** The children end well, and their parent runs. *)
Definition goodEvents : list Event := [EvPost; EvPost; EvPost; EvProcess 0 false; EvProcess 0 false; EvPost; EvPost; EvPost].
Definition goodWorld : World Demo := default demo (events goodEvents demo).

Lemma goodWorld_reached : reached goodWorld.
Proof. apply (events_reached goodEvents demo); [apply demo_reached|]. vm_compute. reflexivity. Qed.

Lemma works_run_after_children_witness :
  WSucceeded 1 ∈ [WStart 1; WRun 1; WStart 2; WRun 2; WStart 3; WRun 3; WSucceeded 1; WSucceeded 2].
Proof.
  apply (works_run_after_children goodWorld _ (WStart 0) [WRun 0; WRun 3] 0 (Build_Work ManagerRef [1] [([2], 1%nat); ([3], 2%nat)] 2 0 WORK_RUNNING false (0%nat, true)) [2]).
  - apply goodWorld_reached.
  - vm_compute. reflexivity.
  - by left.
  - vm_compute. reflexivity.
  - by left.
Defined.

(** Both children fail once; while the closure that starts the second one again
    is waiting, the first one succeeds. *)
Definition raceEvents : list Event := [EvPost; EvPost; EvPost; EvProcess 0 true; EvProcess 0 true; EvTimer 1; EvPost; EvPost; EvTimer 2; EvProcess 0 false;
  EvPost; EvPost; EvPost; EvPost; EvProcess 0 false; EvPost; EvPost; EvProcess 0 true].

(** A work can be started twice and fail after it succeeded.  A pending
    work whose closure is waiting is scheduled again whenever a sibling is
    done.  Here work 2 is run three times with one retry, two processes of
    it run at the same time, its parent starts when the first one has
    succeeded, and then the second one makes work 2 fail and be retried while
    its parent is running. *)
Theorem work_runs_twice : exists s x y, events raceEvents demo = Some s /\ works s !! 2%nat = Some x /\ works s !! 0%nat = Some y /\
  length (List.filter (fun e => match e with WRun 2 => true | _ => false end) (history s)) = 3%nat /\ mRetries x = 1 /\
  WSucceeded 2 ∈ history s /\ mState x = WORK_FAILURE_RETRY /\ mState y = WORK_RUNNING.
Proof. eexists _, _, _. split_and!; try (vm_compute; reflexivity). apply list_elem_of_In. vm_compute. tauto. Qed.
