(* ===== verification/Floodgate.v ===== *)
(** * The flood gate ([overlay/Floodgate.cpp])

    Which peer knows which broadcast message.  A record is kept per message,
    under its hash, with the peers that sent the message or were told it;
    records of old ledgers are cleared. *)

From S2P Require Import Prelude OrdContainers.

(** Pointers to peers, in the order of their addresses. *)
Notation Peer := Z.
Notation MsgHash := Z.

(** What the overlay manager and the herder tell at the time of a call. *)
Record FloodEnv := {
  getPeers : list Peer;
  isAuthenticated : Peer -> bool;
  getCurrentLedgerSeq : Z;
}.

Record FloodRecord (Msg : Type) := {
  mLedgerSeq : Z;
  mMessage : Msg;
  mPeersTold : list Peer;
}.
Arguments mLedgerSeq {Msg} _.
Arguments mMessage {Msg} _.
Arguments mPeersTold {Msg} _.
Arguments Build_FloodRecord {Msg} _ _ _.

(** What happened to the message of a hash, for the properties: a peer sent it
    to us, it was sent to a peer, its record was cleared. *)
Inductive FloodEvent := FGot (h : MsgHash) (p : Peer) | FSent (h : MsgHash) (p : Peer) | FCleared (h : MsgHash) (created current : Z).

Record FloodState (Msg : Type) := {
  mFloodMap : list (MsgHash * FloodRecord Msg);
  mShuttingDown : bool;
  sends : list (Peer * Msg);       (** calls of [Peer::sendMessage] *)
  floodLog : list FloodEvent;
}.
Arguments mFloodMap {Msg} _.
Arguments mShuttingDown {Msg} _.
Arguments sends {Msg} _.
Arguments floodLog {Msg} _.
Arguments Build_FloodState {Msg} _ _ _ _.

Module FG.
Section Methods.
Context {Msg : Type} (sha256 : Msg -> MsgHash).
Implicit Types (st : FloodState Msg) (env : FloodEnv) (msg : Msg).

Definition init : FloodState Msg := Build_FloodState [] false [] [].

Definition newRecord msg (ledger : Z) (peer : option Peer) : FloodRecord Msg :=
  Build_FloodRecord ledger msg (match peer with Some p => [p] | None => [] end).

Definition old (currentLedger : Z) (r : FloodRecord Msg) : bool := u32 (mLedgerSeq r + 10) <? currentLedger.

Definition clearBelow (currentLedger : Z) st : FloodState Msg :=
  Build_FloodState (List.filter (fun e => negb (old currentLedger e.2)) (mFloodMap st)) (mShuttingDown st) (sends st)
    (floodLog st ++ map (fun e => FCleared e.1 (mLedgerSeq e.2) currentLedger) (List.filter (fun e => old currentLedger e.2) (mFloodMap st))).

Definition addRecord env msg (peer : Peer) st : bool * FloodState Msg :=
  if mShuttingDown st then (false, st) else
  let index := sha256 msg in
  match om_find index (mFloodMap st) with
  | None => (true, Build_FloodState (om_set index (newRecord msg (getCurrentLedgerSeq env) (Some peer)) (mFloodMap st)) (mShuttingDown st)
                     (sends st) (floodLog st ++ [FGot index peer]))
  | Some r => (false, Build_FloodState (om_set index (Build_FloodRecord (mLedgerSeq r) (mMessage r) (os_insert peer (mPeersTold r))) (mFloodMap st))
                        (mShuttingDown st) (sends st) (floodLog st ++ [FGot index peer]))
  end.

(** The loop over the peers: the peers told, and those a message is sent to. *)
Fixpoint tellPeers env (peers : list Peer) (peersTold : list Peer) : list Peer * list Peer :=
  match peers with
  | [] => (peersTold, [])
  | peer :: r =>
      if negb (os_mem peer peersTold) && isAuthenticated env peer
      then let '(told, to) := tellPeers env r (os_insert peer peersTold) in (told, peer :: to)
      else tellPeers env r peersTold
  end.

(** [std::map::insert] keeps the record that is there. *)
Definition mapInsert (index : MsgHash) (r : FloodRecord Msg) (m : list (MsgHash * FloodRecord Msg)) : list (MsgHash * FloodRecord Msg) :=
  match om_find index m with Some _ => m | None => om_set index r m end.

Definition broadcast env msg (force : bool) st : FloodState Msg :=
  if mShuttingDown st then st else
  let index := sha256 msg in
  let m := match om_find index (mFloodMap st) with
           | Some _ => if force then mapInsert index (newRecord msg (getCurrentLedgerSeq env) None) (mFloodMap st) else mFloodMap st
           | None => mapInsert index (newRecord msg (getCurrentLedgerSeq env) None) (mFloodMap st)
           end in
  match om_find index m with
  | None => st
  | Some r =>
      let '(told, to) := tellPeers env (getPeers env) (mPeersTold r) in
      Build_FloodState (om_set index (Build_FloodRecord (mLedgerSeq r) (mMessage r) told) m) (mShuttingDown st)
        (sends st ++ map (fun p => (p, msg)) to) (floodLog st ++ map (FSent index) to)
  end.

Definition getPeersKnows (h : MsgHash) st : list Peer :=
  match om_find h (mFloodMap st) with Some r => mPeersTold r | None => [] end.

Definition shutdown st : FloodState Msg := Build_FloodState [] true (sends st) (floodLog st).

(** The calls of the overlay manager. *)
Inductive FloodOp := OpAdd (env : FloodEnv) (msg : Msg) (p : Peer) | OpBroadcast (env : FloodEnv) (msg : Msg) (force : bool) | OpClear (ledger : Z) | OpShutdown.

Definition floodOp (o : FloodOp) st : FloodState Msg :=
  match o with
  | OpAdd env msg p => (addRecord env msg p st).2
  | OpBroadcast env msg force => broadcast env msg force st
  | OpClear ledger => clearBelow ledger st
  | OpShutdown => shutdown st
  end.

Definition floodOps (os : list FloodOp) : FloodState Msg := fold_left (fun st o => floodOp o st) os init.

End Methods.
End FG.

(** ** Facts *)
Section Facts.
Context {Msg : Type} (sha256 : Msg -> MsgHash).
Implicit Types (st : FloodState Msg) (env : FloodEnv) (msg : Msg) (h : MsgHash) (p : Peer).

Definition about h p (e : FloodEvent) : bool := match e with FGot h' p' | FSent h' p' => (h' =? h) && (p' =? p) | FCleared _ _ _ => false end.
Definition clears h (e : FloodEvent) : bool := match e with FCleared h' _ _ => h' =? h | _ => false end.

(** The peer sent or was sent the message since it was last cleared. *)
Fixpoint knows (l : list FloodEvent) h p : bool :=
  match l with
  | [] => false
  | e :: r => knows r h p || about h p e && negb (existsb (clears h) r)
  end.

Lemma knows_app l l' h p : knows (l ++ l') h p = knows l' h p || knows l h p && negb (existsb (clears h) l').
Proof.
  induction l as [|e l IH]; cbn; [by rewrite orb_false_r|]. rewrite IH, existsb_app, negb_orb.
  destruct (knows l' h p), (knows l h p), (about h p e), (existsb (clears h) l), (existsb (clears h) l'); done.
Qed.

(** Who knows a message is told, as long as the node is not shut down. *)
Record floodOk st : Prop := {
  fl_sorted : om_sorted (mFloodMap st);
  fl_told : forall h r, om_find h (mFloodMap st) = Some r -> os_sorted (mPeersTold r);
  fl_knows : mShuttingDown st = false -> forall h p, knows (floodLog st) h p = true <-> p ∈ FG.getPeersKnows h st;
}.

Lemma tellPeers_spec env peers : forall told, os_sorted told ->
  let '(told', to) := FG.tellPeers env peers told in
  os_sorted told' /\ (forall p, p ∈ told' <-> p ∈ told \/ p ∈ to) /\ NoDup to /\ (forall p, p ∈ to <-> p ∈ peers /\ isAuthenticated env p = true /\ p ∉ told).
Proof.
  induction peers as [|q peers IH]; intros told Hs; cbn [FG.tellPeers].
  { split_and!; [done|set_solver|constructor|set_solver]. }
  destruct (os_mem q told) eqn:Em; cbn [negb andb].
  { apply os_mem_elem in Em. specialize (IH told Hs). destruct (FG.tellPeers env peers told) as [told' to]. destruct IH as (H1 & H2 & H3 & H4).
    split_and!; [done|done|done|]. intros p. rewrite H4, elem_of_cons. split; [tauto|]. by intros ([->|?] & ? & ?). }
  apply os_mem_false in Em. destruct (isAuthenticated env q) eqn:Ea.
  - specialize (IH (os_insert q told) (os_insert_sorted q told Hs)). destruct (FG.tellPeers env peers _) as [told' to]. destruct IH as (H1 & H2 & H3 & H4).
    split_and!; [done| | |].
    + intros p. rewrite H2, elem_of_os_insert. set_solver.
    + constructor; [|done]. rewrite H4, elem_of_os_insert. tauto.
    + intros p. rewrite !elem_of_cons, H4, elem_of_os_insert. destruct (decide (p = q)) as [->|Hne]; tauto.
  - specialize (IH told Hs). destruct (FG.tellPeers env peers told) as [told' to]. destruct IH as (H1 & H2 & H3 & H4).
    split_and!; [done|done|done|]. intros p. rewrite H4, elem_of_cons. split; [tauto|]. intros ([->|?] & ? & ?); [congruence|done].
Qed.

Lemma force_nothing env msg force st : FG.broadcast sha256 env msg force st = FG.broadcast sha256 env msg false st.
Proof.
  unfold FG.broadcast. destruct (mShuttingDown st); [done|]. destruct (om_find (sha256 msg) (mFloodMap st)) as [r|] eqn:E; [|done].
  destruct force; [|done]. assert (forall q, FG.mapInsert (sha256 msg) q (mFloodMap st) = mFloodMap st) as -> by (intros q; unfold FG.mapInsert; by rewrite E). done.
Qed.

(** The record a broadcast uses. *)
Definition broadcastRecord env msg st : FloodRecord Msg :=
  default (FG.newRecord msg (getCurrentLedgerSeq env) None) (om_find (sha256 msg) (mFloodMap st)).

Lemma broadcast_spec env msg force st : floodOk st -> mShuttingDown st = false -> exists told to,
  FG.tellPeers env (getPeers env) (FG.getPeersKnows (sha256 msg) st) = (told, to) /\
  FG.broadcast sha256 env msg force st = Build_FloodState
    (om_set (sha256 msg) (Build_FloodRecord (mLedgerSeq (broadcastRecord env msg st)) (mMessage (broadcastRecord env msg st)) told) (mFloodMap st))
    false (sends st ++ map (fun p => (p, msg)) to) (floodLog st ++ map (FSent (sha256 msg)) to).
Proof.
  intros Hok Hsd. rewrite force_nothing. unfold FG.broadcast, FG.getPeersKnows, broadcastRecord. rewrite Hsd.
  destruct (om_find (sha256 msg) (mFloodMap st)) as [r|] eqn:E; cbn [default].
  - rewrite E. destruct (FG.tellPeers env (getPeers env) (mPeersTold r)) as [told to]. by exists told, to.
  - unfold FG.mapInsert. rewrite E, om_find_set_eq. cbn [FG.newRecord mPeersTold]. destruct (FG.tellPeers env (getPeers env) []) as [told to].
    exists told, to. split; [done|]. by rewrite om_set_set.
Qed.

Lemma existsb_clears_sent h h' to : existsb (clears h) (map (FSent h') to) = false.
Proof. by induction to. Qed.

Lemma knows_sent h h' p to : knows (map (FSent h') to) h p = true <-> h' = h /\ p ∈ to.
Proof.
  induction to as [|q to IH]; cbn [map knows]; [set_solver|]. rewrite existsb_clears_sent, andb_true_r, orb_true_iff, IH. cbn [about].
  rewrite andb_true_iff, !Z.eqb_eq, elem_of_cons. split; [intros [?|[? ->]]; tauto|]. intros [? [->|?]]; tauto.
Qed.

Lemma knows_got l h h' p q : knows (l ++ [FGot h' q]) h p = true <-> h' = h /\ q = p \/ knows l h p = true.
Proof. rewrite knows_app. cbn. by rewrite !andb_true_r, orb_true_iff, andb_true_iff, !Z.eqb_eq. Qed.

Lemma getPeersKnows_set st h h' r m' sd se lo : m' = om_set h r (mFloodMap st) ->
  FG.getPeersKnows h' (Build_FloodState m' sd se lo) = if decide (h' = h) then mPeersTold r else FG.getPeersKnows h' st.
Proof.
  intros ->. unfold FG.getPeersKnows. cbn. destruct (decide (h' = h)) as [->|Hne]; [by rewrite om_find_set_eq|by rewrite om_find_set_ne by done].
Qed.

Lemma told_set st h r : floodOk st -> os_sorted (mPeersTold r) ->
  om_sorted (om_set h r (mFloodMap st)) /\ forall h' r', om_find h' (om_set h r (mFloodMap st)) = Some r' -> os_sorted (mPeersTold r').
Proof.
  intros [H1 H2 _] Hr. split; [by apply om_set_sorted|]. intros h' r'. destruct (decide (h' = h)) as [->|Hne].
  - rewrite om_find_set_eq. by intros [= <-].
  - rewrite om_find_set_ne by done. apply H2.
Qed.

Lemma broadcast_ok env msg force st : floodOk st -> floodOk (FG.broadcast sha256 env msg force st).
Proof.
  intros Hok. destruct (mShuttingDown st) eqn:Hsd; [unfold FG.broadcast; by rewrite Hsd|].
  destruct (broadcast_spec env msg force st Hok Hsd) as (told & to & Et & ->).
  assert (os_sorted (FG.getPeersKnows (sha256 msg) st)) as Hs.
  { unfold FG.getPeersKnows. destruct (om_find _ _) eqn:E; [by eapply fl_told|done]. }
  pose proof (tellPeers_spec env (getPeers env) _ Hs) as Hspec. rewrite Et in Hspec. destruct Hspec as (T1 & T2 & _ & _).
  set (r := Build_FloodRecord _ _ _). destruct (told_set st (sha256 msg) r Hok T1) as [K1 K2]. split; [done|done|].
  intros _ h p. rewrite (getPeersKnows_set st (sha256 msg) h r) by done. cbn [floodLog].
  rewrite knows_app, existsb_clears_sent, andb_true_r, orb_true_iff, knows_sent, (fl_knows st Hok Hsd). cbn.
  destruct (decide (h = sha256 msg)) as [->|Hne]; [rewrite T2; tauto|]. split; [by intros [[? _]|?]|by right].
Qed.

Lemma addRecord_ok env msg peer st : floodOk st -> floodOk (FG.addRecord sha256 env msg peer st).2.
Proof.
  intros Hok. unfold FG.addRecord. destruct (mShuttingDown st) eqn:Hsd; [done|]. pose proof (fl_knows st Hok Hsd) as Hk.
  assert (forall r, os_sorted (mPeersTold r) -> (forall p, p ∈ mPeersTold r <-> p ∈ FG.getPeersKnows (sha256 msg) st \/ p = peer) ->
    floodOk (Build_FloodState (om_set (sha256 msg) r (mFloodMap st)) false (sends st) (floodLog st ++ [FGot (sha256 msg) peer]))) as Hall.
  { intros r Hr Hp. destruct (told_set st (sha256 msg) r Hok Hr) as [K1 K2]. split; [done|done|].
    intros _ h p. rewrite (getPeersKnows_set st (sha256 msg) h r) by done. cbn [floodLog]. rewrite knows_got, Hk.
    destruct (decide (h = sha256 msg)) as [->|Hne]; [rewrite Hp; intuition congruence|intuition congruence]. }
  destruct (om_find (sha256 msg) (mFloodMap st)) as [r|] eqn:E; cbn [snd]; apply Hall.
  - apply os_insert_sorted. by eapply fl_told.
  - intros p. cbn. rewrite elem_of_os_insert. unfold FG.getPeersKnows. rewrite E. tauto.
  - apply (os_insert_sorted peer [] I).
  - intros p. cbn. unfold FG.getPeersKnows. rewrite E. set_solver.
Qed.

Lemma om_filter_sorted {V} (f : MsgHash * V -> bool) m : om_sorted m -> om_sorted (List.filter f m).
Proof.
  unfold om_sorted. induction m as [|[k v] m IH]; [done|]. cbn [fmap list_fmap os_sorted List.filter]. intros [Hk Hm]. destruct (f (k, v)); [|by apply IH].
  cbn. split; [|by apply IH]. intros y Hy. apply Hk. apply list_elem_of_fmap in Hy as (q & -> & Hq). apply list_elem_of_fmap. exists q. split; [done|].
  apply list_elem_of_In in Hq. apply List.filter_In in Hq as [Hq _]. by apply list_elem_of_In.
Qed.

Lemma om_find_filter {V} (f : MsgHash * V -> bool) m k : om_sorted m ->
  om_find k (List.filter f m) = match om_find k m with Some v => if f (k, v) then Some v else None | None => None end.
Proof.
  intros Hm. pose proof (om_filter_sorted f m Hm) as Hf. apply option_eq. intros v. split.
  - intros Hv%om_find_elem. apply list_elem_of_In, List.filter_In in Hv as [Hv Ef]. apply list_elem_of_In, (elem_om_find _ _ _ Hm) in Hv. by rewrite Hv, Ef.
  - destruct (om_find k m) as [u|] eqn:E; [|done]. destruct (f (k, u)) eqn:Ef; [|done]. intros [= <-]. apply (elem_om_find _ _ _ Hf).
    apply list_elem_of_In, List.filter_In. split; [|done]. by apply list_elem_of_In, om_find_elem.
Qed.

Lemma cleared_events currentLedger st h : om_sorted (mFloodMap st) ->
  let ev := map (fun e => FCleared e.1 (mLedgerSeq e.2) currentLedger) (List.filter (fun e => FG.old currentLedger e.2) (mFloodMap st)) in
  (forall p, knows ev h p = false) /\
  existsb (clears h) ev = match om_find h (mFloodMap st) with Some r => FG.old currentLedger r | None => false end.
Proof.
  intros Hs ev. split; [intros p; unfold ev; by induction (List.filter _ _) as [|e l IH]; [|cbn; rewrite IH]|].
  apply eq_bool_prop_intro. rewrite !Is_true_true, existsb_exists. split.
  - intros (e & He & Hc). apply in_map_iff in He as ([h' r] & <- & Hin). apply List.filter_In in Hin as [Hin Ho]. cbn in Hc. apply Z.eqb_eq in Hc as ->.
    apply list_elem_of_In, (elem_om_find _ _ _ Hs) in Hin. by rewrite Hin.
  - destruct (om_find h (mFloodMap st)) as [r|] eqn:E; [|done]. intros Ho. exists (FCleared h (mLedgerSeq r) currentLedger). split; [|cbn; apply Z.eqb_refl].
    apply in_map_iff. exists (h, r). split; [done|]. apply List.filter_In. split; [|done]. by apply list_elem_of_In, om_find_elem.
Qed.

Lemma clearBelow_ok currentLedger st : floodOk st -> floodOk (FG.clearBelow currentLedger st).
Proof.
  intros [H1 H2 H3]. split; [by apply om_filter_sorted| |].
  - intros h r. cbn. rewrite om_find_filter by done. destruct (om_find h (mFloodMap st)) as [r'|] eqn:E; [|done]. cbn. destruct (negb _); [|done]. intros [= <-]. by eapply H2.
  - intros Hsd h p. cbn in Hsd. destruct (cleared_events currentLedger st h H1) as [Hk Hc]. cbn [FG.clearBelow floodLog]. rewrite knows_app, Hk, Hc. cbn [orb].
    rewrite andb_true_iff, (H3 Hsd). unfold FG.getPeersKnows. cbn. rewrite om_find_filter by done. destruct (om_find h (mFloodMap st)) as [r|]; cbn; [|set_solver].
    destruct (FG.old currentLedger r); cbn; [|by split; [intros [? _]|intros ?; split]]. split; [by intros [_ ?]|set_solver].
Qed.

Lemma floodOps_ok os : floodOk (FG.floodOps sha256 os).
Proof.
  unfold FG.floodOps. assert (forall st, floodOk st -> floodOk (fold_left (fun st o => FG.floodOp sha256 o st) os st)) as Hall.
  { induction os as [|o os IH]; [done|]. intros st Hst. cbn. apply IH. destruct o; cbn; [by apply addRecord_ok|by apply broadcast_ok|by apply clearBelow_ok|]. by split. }
  apply Hall. split; [done|done|]. intros _ h p. cbn. set_solver.
Qed.

(** A clear that happened: the record was more than ten ledgers old. *)
Definition properClear (e : FloodEvent) : Prop := match e with FCleared _ created current => u32 (created + 10) < current | _ => True end.

(** Sends that repeat something the peer knows do not occur. *)
Definition noRepeat (l : list FloodEvent) : Prop := forall l1 h p l2, l = l1 ++ FSent h p :: l2 -> knows l1 h p = false.

Lemma noRepeat_quiet l l' : noRepeat l -> (forall h p, FSent h p ∉ l') -> noRepeat (l ++ l').
Proof.
  intros Hl Hq l1 h p l2 E. destruct (app_cons_cases _ _ _ _ _ E) as [[l3 E3]|(l3 & _ & Hin)]; [by apply (Hl l1 h p l3)|]. by destruct (Hq h p).
Qed.

Lemma noRepeat_sent l h to : noRepeat l -> NoDup to -> (forall p, p ∈ to -> knows l h p = false) -> noRepeat (l ++ map (FSent h) to).
Proof.
  revert l. induction to as [|q to IH]; intros l Hl Hnd Hk; [by rewrite app_nil_r|]. cbn [map]. rewrite NoDup_cons in Hnd. destruct Hnd as [Hq Hnd].
  change (FSent h q :: map (FSent h) to) with ([FSent h q] ++ map (FSent h) to). rewrite app_assoc. apply IH; [|done|].
  - intros l1 h' p l2 E. destruct (app_cons_cases _ _ _ _ _ E) as [[l3 E3]|(l3 & E3 & Hin)]; [by apply (Hl l1 h' p l3)|].
    apply list_elem_of_singleton in Hin as [= -> ->]. subst l1. rewrite <- app_assoc in E. apply app_inv_head in E. destruct l3 as [|? l3]; [|by destruct l3].
    rewrite app_nil_r. apply Hk. by left.
  - intros p Hp. rewrite knows_app. cbn. rewrite (Hk p) by (by right). rewrite Z.eqb_refl. cbn. by rewrite (proj2 (Z.eqb_neq q p)) by (by intros ->).
Qed.

Lemma clearBelow_events currentLedger st e :
  e ∈ map (fun e => FCleared e.1 (mLedgerSeq e.2) currentLedger) (List.filter (fun e => FG.old currentLedger e.2) (mFloodMap st)) ->
  properClear e /\ forall h p, e <> FSent h p.
Proof.
  rewrite list_elem_of_In, in_map_iff. intros ([h r] & <- & Hin). apply List.filter_In in Hin as [_ Ho]. cbn in *. unfold FG.old in Ho. zify_bool. by split.
Qed.

Lemma broadcast_events env msg force st : floodOk st -> noRepeat (floodLog st) -> noRepeat (floodLog (FG.broadcast sha256 env msg force st)) /\
  exists to, floodLog (FG.broadcast sha256 env msg force st) = floodLog st ++ map (FSent (sha256 msg)) to.
Proof.
  intros Hok Hn. destruct (mShuttingDown st) eqn:Hsd; [unfold FG.broadcast; rewrite Hsd; split; [done|]; exists []; by rewrite app_nil_r|].
  destruct (broadcast_spec env msg force st Hok Hsd) as (told & to & Et & ->). cbn. split; [|by exists to].
  assert (os_sorted (FG.getPeersKnows (sha256 msg) st)) as Hs by (unfold FG.getPeersKnows; destruct (om_find _ _) eqn:E; [by eapply fl_told|done]).
  pose proof (tellPeers_spec env (getPeers env) _ Hs) as Hspec. rewrite Et in Hspec. destruct Hspec as (_ & _ & T3 & T4).
  apply noRepeat_sent; [done|done|]. intros p (_ & _ & Hp)%T4. apply not_true_iff_false. by rewrite (fl_knows st Hok Hsd).
Qed.

Lemma floodOps_events os : noRepeat (floodLog (FG.floodOps sha256 os)) /\ Forall properClear (floodLog (FG.floodOps sha256 os)).
Proof.
  unfold FG.floodOps. assert (forall st, floodOk st -> noRepeat (floodLog st) -> Forall properClear (floodLog st) ->
    let st' := fold_left (fun st o => FG.floodOp sha256 o st) os st in noRepeat (floodLog st') /\ Forall properClear (floodLog st')) as Hall.
  { induction os as [|o os IH]; [done|]. intros st Hok Hn Hc. cbn. destruct o as [env msg p|env msg force|ledger|]; cbn.
    - apply IH; [by apply addRecord_ok| |]; unfold FG.addRecord; destruct (mShuttingDown st); try done; destruct (om_find _ _); cbn;
        try (apply noRepeat_quiet; [done|]; intros h q Hin; by apply list_elem_of_singleton in Hin); (apply Forall_app; split; [done|by repeat constructor]).
    - destruct (broadcast_events env msg force st Hok Hn) as (H1 & to & E). apply IH; [by apply broadcast_ok|done|]. rewrite E. apply Forall_app. split; [done|].
      apply Forall_forall. intros e He. by apply list_elem_of_In, in_map_iff in He as (q & <- & _).
    - apply IH; [by apply clearBelow_ok| |]; cbn.
      + apply noRepeat_quiet; [done|]. intros h p Hin. destruct (clearBelow_events ledger st _ Hin) as [_ Hne]. by apply (Hne h p).
      + apply Forall_app. split; [done|]. apply Forall_forall. intros e He. by apply (clearBelow_events ledger st).
    - apply IH; [by split|done|done]. }
  apply Hall; [split; [done|done|]; intros _ h p; cbn; set_solver| |constructor]. intros l1 h p l2 E. by destruct l1.
Qed.

End Facts.
