(* ===== verification/ItemFetcher.v ===== *)
(** * Fetching items from peers ([overlay/ItemFetcher.cpp])

    A tracker per missing item (a transaction set or a quorum set) asks one
    peer after the other, and keeps the envelopes that wait for the item. *)

From S2P Require Import Prelude OrdContainers Floodgate.

Notation ItemID := Z.

Section Data.
Context (Envelope : Type).

Record Tracker := {
  mLastAskedPeer : option Peer;
  mNumListRebuild : Z;
  mPeersToAsk : list Peer;            (** from the front to the back *)
  mTimer : option Z;                  (** the wait that is outstanding, in milliseconds *)
  mIsStopped : bool;
  mWaitingEnvelopes : list (MsgHash * Envelope);
}.

Record FetchState := {
  mTrackers : list (ItemID * Tracker);
  asked : list (Peer * ItemID);       (** calls of [askPeer] *)
  delivered : list Envelope;          (** calls of [Herder::recvSCPEnvelope] *)
}.

End Data.
Arguments mLastAskedPeer {Envelope} _.
Arguments mNumListRebuild {Envelope} _.
Arguments mPeersToAsk {Envelope} _.
Arguments mTimer {Envelope} _.
Arguments mIsStopped {Envelope} _.
Arguments mWaitingEnvelopes {Envelope} _.
Arguments Build_Tracker {Envelope} _ _ _ _ _ _.
Arguments mTrackers {Envelope} _.
Arguments asked {Envelope} _.
Arguments delivered {Envelope} _.
Arguments Build_FetchState {Envelope} _ _ _.

(** What the overlay manager tells at the time of a call. *)
Record FetchEnv := {
  peersKnow : MsgHash -> list Peer;   (** [getPeersKnows] *)
  getRandomPeers : list Peer;
  authenticated : Peer -> bool;
}.

Definition MS_TO_WAIT_FOR_FETCH_REPLY : Z := 1500.
Definition MAX_REBUILD_FETCH_LIST : Z := 1000.

Module TR.
Section Methods.
Context {Envelope : Type} (sha256 : Envelope -> MsgHash) (slotIndex : Envelope -> Z).
Implicit Types (t : Tracker Envelope) (env : FetchEnv).

Definition init : Tracker Envelope := Build_Tracker None 0 [] None false [].

Definition clearEnvelopesBelow (slot : Z) t : bool * Tracker Envelope :=
  let w := List.filter (fun e => negb (slotIndex e.2 <? slot)) (mWaitingEnvelopes t) in
  match w with
  | _ :: _ => (true, Build_Tracker (mLastAskedPeer t) (mNumListRebuild t) (mPeersToAsk t) (mTimer t) (mIsStopped t) w)
  | [] => (false, Build_Tracker None (mNumListRebuild t) (mPeersToAsk t) None true [])
  end.

(** The new list: who knows an envelope that waits goes to the back. *)
Definition peersWithEnvelope env (w : list (MsgHash * Envelope)) : list Peer :=
  fold_left (fun acc e => fold_left (fun acc p => os_insert p acc) (peersKnow env e.1) acc) w [].

Definition buildList (withEnvelope random : list Peer) : list Peer :=
  fold_left (fun l p => if os_mem p withEnvelope then l ++ [p] else p :: l) random [].

(** The loop that takes peers from the back until one is authenticated. *)
Fixpoint popBack env (backToFront : list Peer) : option Peer * list Peer :=
  match backToFront with
  | [] => (None, [])
  | p :: r => if authenticated env p then (Some p, r) else popBack env r
  end.

Definition tryNextPeer env t : option Peer * Tracker Envelope :=
  let '(l, n) :=
    match mPeersToAsk t, mLastAskedPeer t with
    | [], None => (buildList (peersWithEnvelope env (mWaitingEnvelopes t)) (getRandomPeers env), i32 (mNumListRebuild t + 1))
    | l, _ => (l, mNumListRebuild t)
    end in
  let '(peer, r) := popBack env (rev l) in
  let '(last, nextTry) :=
    match peer with
    | None => (None, MS_TO_WAIT_FOR_FETCH_REPLY * (if n >? MAX_REBUILD_FETCH_LIST then MAX_REBUILD_FETCH_LIST else n))
    | Some p => (Some p, MS_TO_WAIT_FOR_FETCH_REPLY)
    end in
  (peer, Build_Tracker last n (rev r) (Some nextTry) (mIsStopped t) (mWaitingEnvelopes t)).

Definition listen (env : Envelope) t : Tracker Envelope :=
  Build_Tracker (mLastAskedPeer t) (mNumListRebuild t) (mPeersToAsk t) (mTimer t) (mIsStopped t) (mWaitingEnvelopes t ++ [(sha256 env, env)]).

Definition doesntHave env (peer : Peer) t : option Peer * Tracker Envelope :=
  if bool_decide (mLastAskedPeer t = Some peer) then tryNextPeer env t else (None, t).

(** [mTimer.cancel()] *)
Definition cancel t : Tracker Envelope :=
  Build_Tracker (mLastAskedPeer t) (mNumListRebuild t) (mPeersToAsk t) None (mIsStopped t) (mWaitingEnvelopes t).

End Methods.
End TR.

Module IF.
Section Methods.
Context {Envelope : Type} (sha256 : Envelope -> MsgHash) (slotIndex : Envelope -> Z).
Implicit Types (st : FetchState Envelope) (env : FetchEnv).

Definition init : FetchState Envelope := Build_FetchState [] [] [].

(** Store a tracker; [askPeer] if there is a peer to ask. *)
Definition store (itemID : ItemID) (pt : option Peer * Tracker Envelope) st : FetchState Envelope :=
  Build_FetchState (om_set itemID pt.2 (mTrackers st)) (asked st ++ match pt.1 with Some p => [(p, itemID)] | None => [] end) (delivered st).

Definition fetch env (itemID : ItemID) (envelope : Envelope) st : FetchState Envelope :=
  match om_find itemID (mTrackers st) with
  | None => store itemID (TR.tryNextPeer env (TR.listen sha256 envelope TR.init)) st
  | Some t => store itemID (None, TR.listen sha256 envelope t) st
  end.

Definition stopFetchingBelowInternal (slot : Z) st : FetchState Envelope :=
  Build_FetchState (omap (fun e => let '(keep, t) := TR.clearEnvelopesBelow slotIndex slot e.2 in if (keep : bool) then Some (e.1, t) else None) (mTrackers st))
    (asked st) (delivered st).

Definition doesntHave env (itemID : ItemID) (peer : Peer) st : FetchState Envelope :=
  match om_find itemID (mTrackers st) with
  | None => st
  | Some t => store itemID (TR.doesntHave env peer t) st
  end.

(** The retry timer of an item. *)
Definition timer env (itemID : ItemID) st : FetchState Envelope :=
  match om_find itemID (mTrackers st) with
  | None => st
  | Some t => match mTimer t with Some _ => store itemID (TR.tryNextPeer env t) st | None => st end
  end.

Definition waiting (itemID : ItemID) st : list (MsgHash * Envelope) :=
  match om_find itemID (mTrackers st) with Some t => mWaitingEnvelopes t | None => [] end.

(** Receiving an item.  [S] is the state of the node, of which the fetcher is a
    part; [recvSCPEnvelope] of the herder may change all of it. *)
Context {S : Type} (getF : S -> FetchState Envelope) (setF : FetchState Envelope -> S -> S).
(** A call may not return; [outOfFuel] says that the loop of [recv] has not ended. *)
Context {Halt : Type} (outOfFuel : Halt) (recvSCPEnvelope : Envelope -> S -> S + Halt).

(** The loop of [recv]. *)
Fixpoint recvLoop (fuel : nat) (itemID : ItemID) (s : S) : S + Halt :=
  let st := getF s in
  match om_find itemID (mTrackers st) with
  | None => inl s
  | Some t =>
      match rev (mWaitingEnvelopes t) with
      | [] => inl (setF (store itemID (None, TR.cancel t) st) s)
      | (_, e) :: r =>
          match fuel with
          | O => inr outOfFuel
          | Datatypes.S f =>
              let t' := Build_Tracker (mLastAskedPeer t) (mNumListRebuild t) (mPeersToAsk t) (mTimer t) (mIsStopped t) (rev r) in
              let st := Build_FetchState (om_set itemID t' (mTrackers st)) (asked st) (delivered st ++ [e]) in
              match recvSCPEnvelope e (setF st s) with
              | inl s => recvLoop f itemID s
              | inr z => inr z
              end
          end
      end
  end.

Definition recv (itemID : ItemID) (s : S) : S + Halt := recvLoop (length (waiting itemID (getF s))) itemID s.

End Methods.
End IF.

(** ** Facts *)
Section Facts.
Context {Envelope : Type}.
Implicit Types (t : Tracker Envelope) (env : FetchEnv).

(** The peers asked by repeated calls, in order. *)
Fixpoint rounds env (n : nat) t : list Peer * Tracker Envelope :=
  match n with
  | O => ([], t)
  | Datatypes.S n => let '(p, t) := TR.tryNextPeer env t in let '(l, t) := rounds env n t in (match p with Some p => p :: l | None => l end, t)
  end.

Lemma popBack_spec env l : match List.filter (authenticated env) l with
  | [] => TR.popBack env l = (None, [])
  | p :: r => exists l', TR.popBack env l = (Some p, l') /\ List.filter (authenticated env) l' = r
  end.
Proof.
  induction l as [|p l IH]; [done|]. cbn. destruct (authenticated env p); [by exists l|done].
Qed.

Lemma filter_rev {A} (f : A -> bool) l : List.filter f (rev l) = rev (List.filter f l).
Proof. induction l as [|x l IH]; [done|]. cbn. rewrite List.filter_app, IH. cbn. destruct (f x); [done|by rewrite app_nil_r]. Qed.

(** In a round every authenticated peer of the list is asked once. *)
Lemma rounds_asked env k : forall t l last, List.filter (authenticated env) (rev (mPeersToAsk t)) = l -> length l = k -> mLastAskedPeer t = Some last ->
  let '(ps, t') := rounds env k t in ps = l /\ List.filter (authenticated env) (rev (mPeersToAsk t')) = [] /\ is_Some (mLastAskedPeer t') /\
    mNumListRebuild t' = mNumListRebuild t /\ mWaitingEnvelopes t' = mWaitingEnvelopes t /\ mIsStopped t' = mIsStopped t.
Proof.
  induction k as [|k IH]; intros t l last El Hk Hlast; cbn [rounds].
  { destruct l; [|done]. split_and!; try done. }
  destruct l as [|p l]; [done|]. injection Hk as Hk. unfold TR.tryNextPeer. rewrite Hlast.
  destruct (mPeersToAsk t) as [|q qs] eqn:Eq; [done|]. rewrite <- Eq in *.
  pose proof (popBack_spec env (rev (mPeersToAsk t))) as Hp. rewrite El in Hp. destruct Hp as (l' & -> & El').
  set (t1 := Build_Tracker _ _ _ _ _ _). specialize (IH t1 l p). destruct (rounds env k t1) as [ps t']. destruct IH as (-> & H2 & H3 & H4 & H5 & H6); [cbn; by rewrite rev_involutive|done|done|].
  done.
Qed.

Lemma buildList_spec W R : TR.buildList W R = rev (List.filter (fun p => negb (os_mem p W)) R) ++ List.filter (fun p => os_mem p W) R.
Proof.
  unfold TR.buildList. assert (forall l, fold_left (fun l p => if os_mem p W then l ++ [p] else p :: l) R l =
    rev (List.filter (fun p => negb (os_mem p W)) R) ++ l ++ List.filter (fun p => os_mem p W) R) as ->; [|done].
  induction R as [|p R IH]; intros l; cbn; [by rewrite app_nil_r|]. rewrite IH. destruct (os_mem p W); cbn; [by rewrite <- app_assoc|].
  by rewrite <- app_assoc.
Qed.

(** The peers of a round: those that know an envelope that waits for the item
    come first. *)
Definition roundPeers env (w : list (MsgHash * Envelope)) : list Peer :=
  let W := TR.peersWithEnvelope env w in
  rev (List.filter (fun p => os_mem p W && authenticated env p) (getRandomPeers env)) ++
  List.filter (fun p => negb (os_mem p W) && authenticated env p) (getRandomPeers env).

Lemma filter_filter {A} (f g : A -> bool) l : List.filter f (List.filter g l) = List.filter (fun x => g x && f x) l.
Proof. induction l as [|x l IH]; [done|]. cbn. destruct (g x); cbn; rewrite IH; done. Qed.

Lemma roundPeers_build env w :
  List.filter (authenticated env) (rev (TR.buildList (TR.peersWithEnvelope env w) (getRandomPeers env))) = roundPeers env w.
Proof.
  rewrite buildList_spec, rev_app_distr, rev_involutive, List.filter_app, filter_rev, !filter_filter. done.
Qed.

Lemma tryNextPeer_none env t : List.filter (authenticated env) (rev (mPeersToAsk t)) = [] -> is_Some (mLastAskedPeer t) ->
  TR.tryNextPeer env t = (None, Build_Tracker None (mNumListRebuild t) []
    (Some (MS_TO_WAIT_FOR_FETCH_REPLY * (if mNumListRebuild t >? MAX_REBUILD_FETCH_LIST then MAX_REBUILD_FETCH_LIST else mNumListRebuild t))) (mIsStopped t) (mWaitingEnvelopes t)).
Proof.
  intros El [last Hlast]. unfold TR.tryNextPeer. rewrite Hlast. pose proof (popBack_spec env (rev (mPeersToAsk t))) as Hp. rewrite El in Hp.
  destruct (mPeersToAsk t); by rewrite Hp.
Qed.

Lemma rounds_app env n m t : rounds env (n + m) t = let '(l, t1) := rounds env n t in let '(l', t2) := rounds env m t1 in (l ++ l', t2).
Proof.
  revert t. induction n as [|n IH]; intros t; cbn [rounds Nat.add]; [by destruct (rounds env m t)|].
  destruct (TR.tryNextPeer env t) as [p t1]. rewrite IH. destruct (rounds env n t1) as [l t2]. destruct (rounds env m t2) as [l' t3]. by destruct p.
Qed.

Lemma round_all env t : mPeersToAsk t = [] -> mLastAskedPeer t = None ->
  let L := roundPeers env (mWaitingEnvelopes t) in let n := i32 (mNumListRebuild t + 1) in
  rounds env (Datatypes.S (length L)) t =
    (L, Build_Tracker None n [] (Some (MS_TO_WAIT_FOR_FETCH_REPLY * (if n >? MAX_REBUILD_FETCH_LIST then MAX_REBUILD_FETCH_LIST else n))) (mIsStopped t) (mWaitingEnvelopes t)).
Proof.
  intros Hp Hl L n. set (B := TR.buildList (TR.peersWithEnvelope env (mWaitingEnvelopes t)) (getRandomPeers env)).
  assert (List.filter (authenticated env) (rev B) = L) as HL by apply roundPeers_build.
  pose proof (popBack_spec env (rev B)) as Hb. rewrite HL in Hb.
  assert (TR.tryNextPeer env t = let '(peer, r) := TR.popBack env (rev B) in
    let '(last, nextTry) := match peer with
      | None => (None, MS_TO_WAIT_FOR_FETCH_REPLY * (if n >? MAX_REBUILD_FETCH_LIST then MAX_REBUILD_FETCH_LIST else n))
      | Some p => (Some p, MS_TO_WAIT_FOR_FETCH_REPLY) end in
    (peer, Build_Tracker last n (rev r) (Some nextTry) (mIsStopped t) (mWaitingEnvelopes t))) as E1 by (unfold TR.tryNextPeer; by rewrite Hp, Hl).
  clearbody L. destruct L as [|p L].
  { cbn [rounds length]. by rewrite E1, Hb. }
  destruct Hb as (l' & Hb & Hl'). rewrite Hb in E1. replace (S (length (p :: L))) with (1 + (length L + 1))%nat by (cbn; lia).
  rewrite rounds_app. cbn [rounds]. rewrite E1. set (t1 := Build_Tracker (Some p) _ _ _ _ _). rewrite rounds_app.
  pose proof (rounds_asked env (length L) t1 L p) as Hr. destruct (rounds env (length L) t1) as [ps t2].
  destruct Hr as (-> & H2 & H3 & H4 & H5 & H6); [cbn; by rewrite rev_involutive|done|done|].
  cbn [rounds]. rewrite (tryNextPeer_none env t2 H2 H3), H4, H5, H6. cbn [t1 mNumListRebuild mIsStopped mWaitingEnvelopes]. by rewrite app_nil_r.
Qed.

(** ** Receiving an item *)

(** A part of the state that can be replaced. *)
Class FetchLens {S : Type} (getF : S -> FetchState Envelope) (setF : FetchState Envelope -> S -> S) : Prop :=
  get_set : forall f s, getF (setF f s) = f.

Section Recv.
Context {S Halt : Type} (getF : S -> FetchState Envelope) (setF : FetchState Envelope -> S -> S) `{!FetchLens getF setF} (outOfFuel : Halt).

(** The herder, handed an envelope, does not ask again for the item that has
    just arrived. *)
Definition keepsItem (I : S -> Prop) (recvSCPEnvelope : Envelope -> S -> S + Halt) (itemID : ItemID) : Prop :=
  forall e s, I s -> exists s', recvSCPEnvelope e s = inl s' /\ I s' /\
    om_find itemID (mTrackers (getF s')) = om_find itemID (mTrackers (getF s)) /\ delivered (getF s') = delivered (getF s).

Lemma recvLoop_spec I recvE itemID : keepsItem I recvE itemID -> (forall f s, I s -> I (setF f s)) -> forall w s t,
  I s -> om_find itemID (mTrackers (getF s)) = Some t -> rev (mWaitingEnvelopes t) = w ->
  exists s' t', IF.recvLoop getF setF outOfFuel recvE (length w) itemID s = inl s' /\ I s' /\ om_find itemID (mTrackers (getF s')) = Some t' /\
    mWaitingEnvelopes t' = [] /\ mTimer t' = None /\ mLastAskedPeer t' = mLastAskedPeer t /\ delivered (getF s') = delivered (getF s) ++ w.*2.
Proof.
  intros H HI. induction w as [|[h e] w IH]; intros s t Hs Ht Ew; cbn [IF.recvLoop length].
  - rewrite Ht, Ew. eexists _, (TR.cancel t). split; [done|]. rewrite get_set. cbn. rewrite om_find_set_eq, !app_nil_r. split_and!; try done.
    { by apply HI. } by rewrite <- (rev_involutive (mWaitingEnvelopes t)), Ew.
  - rewrite Ht, Ew. set (t1 := Build_Tracker _ _ _ _ _ _). set (st1 := Build_FetchState _ _ _).
    destruct (H e (setF st1 s)) as (s1 & -> & Hs1 & H1 & H2); [by apply HI|]. rewrite get_set in H1, H2. cbn in H1, H2. rewrite om_find_set_eq in H1.
    destruct (IH s1 t1 Hs1 H1) as (s' & t' & E & Hs' & Ht' & Hw & Htm & Hla & Hd); [cbn; by rewrite rev_involutive|].
    exists s', t'. split_and!; try done. rewrite Hd, H2. cbn. by rewrite <- app_assoc.
Qed.

End Recv.
End Facts.
