(* ===== verification/OverlayTheorems.v ===== *)
(** * Properties of the overlay *)

From S2P Require Import Prelude OrdContainers Floodgate ItemFetcher.

Section Flood.
Context {Msg : Type} (sha256 : Msg -> MsgHash).

(** C30. A message is not sent twice.  In any history of received and broadcast
    messages, forced or not, closed ledgers and shutdown: if a message is sent
    to a peer that has sent it to us, or to which it was sent before, then its
    record was cleared in between, more than ten ledgers after it was made. *)
Theorem flood_never_repeats os l1 e l2 h p l3 : floodLog (FG.floodOps sha256 os) = l1 ++ e :: l2 ++ FSent h p :: l3 -> e = FGot h p \/ e = FSent h p ->
  exists created current, FCleared h created current ∈ l2 /\ u32 (created + 10) < current.
Proof.
  intros E He. destruct (floodOps_events sha256 os) as [Hn Hc].
  specialize (Hn (l1 ++ e :: l2) h p l3). rewrite E, <- app_assoc in Hn. specialize (Hn eq_refl). rewrite knows_app in Hn. apply orb_false_iff in Hn as [Hn _].
  cbn [knows] in Hn. apply orb_false_iff in Hn as [_ Hn]. assert (about h p e = true) as Ha by (destruct He as [-> | ->]; cbn; by rewrite !Z.eqb_refl).
  rewrite Ha, andb_true_l in Hn. apply negb_false_iff, existsb_exists in Hn as (c & Hin & Hcl). destruct c as [| |h' created current]; [done|done|].
  cbn in Hcl. apply Z.eqb_eq in Hcl as ->. apply list_elem_of_In in Hin. exists created, current. split; [done|].
  rewrite Forall_forall in Hc. apply (Hc (FCleared h created current)). rewrite E. apply elem_of_app. right. right. apply elem_of_app. by left.
Qed.

(** A broadcast reaches everyone, and forcing it changes nothing.  Unless
    the node is shutting down, a broadcast sends the message, in any state that
    can be reached, once to each connected and authenticated peer that is not known to have
    it, and everyone it was sent to is noted.  The flag [force] makes no
    difference, and broadcasting again, forced or not, sends nothing to the
    same peers. *)
Theorem broadcast_reaches_all os env msg force : let st := FG.floodOps sha256 os in mShuttingDown st = false ->
  exists to, NoDup to /\ (forall p, p ∈ to <-> p ∈ getPeers env /\ isAuthenticated env p = true /\ p ∉ FG.getPeersKnows (sha256 msg) st) /\
    let st' := FG.broadcast sha256 env msg force st in
    sends st' = sends st ++ map (fun p => (p, msg)) to /\ st' = FG.broadcast sha256 env msg (negb force) st /\
    (forall p, p ∈ FG.getPeersKnows (sha256 msg) st' <-> p ∈ FG.getPeersKnows (sha256 msg) st \/ p ∈ to) /\
    (forall force', sends (FG.broadcast sha256 env msg force' st') = sends st').
Proof.
  intros st Hsd. pose proof (floodOps_ok sha256 os) as Hok. fold st in Hok.
  assert (forall st : FloodState Msg, floodOk st -> os_sorted (FG.getPeersKnows (sha256 msg) st)) as Hsort.
  { intros st0 H0. unfold FG.getPeersKnows. destruct (om_find _ _) eqn:E; [by eapply fl_told|done]. }
  destruct (broadcast_spec sha256 env msg force st Hok Hsd) as (told & to & Et & Eb).
  pose proof (tellPeers_spec env (getPeers env) _ (Hsort st Hok)) as Hspec. rewrite Et in Hspec. destruct Hspec as (T1 & T2 & T3 & T4).
  exists to. split; [done|]. split; [done|]. cbv zeta.
  assert (forall p, p ∈ FG.getPeersKnows (sha256 msg) (FG.broadcast sha256 env msg force st) <-> p ∈ FG.getPeersKnows (sha256 msg) st \/ p ∈ to) as Hk.
  { intros p. rewrite <- T2, Eb. unfold FG.getPeersKnows. cbn. by rewrite om_find_set_eq. }
  split_and!; [by rewrite Eb|by rewrite force_nothing, (force_nothing sha256 env msg (negb force))|done|].
  intros force'. pose proof (broadcast_ok sha256 env msg force st Hok) as Hok'. set (st' := FG.broadcast sha256 env msg force st) in *.
  assert (mShuttingDown st' = false) as Hsd' by (by rewrite Eb).
  destruct (broadcast_spec sha256 env msg force' st' Hok' Hsd') as (told' & to' & Et' & ->).
  pose proof (tellPeers_spec env (getPeers env) _ (Hsort st' Hok')) as Hspec. rewrite Et' in Hspec. destruct Hspec as (_ & _ & _ & T4').
  assert (to' = []) as ->; [|by rewrite app_nil_r]. destruct to' as [|q to']; [done|exfalso].
  destruct (T4' q) as [Hq _]. destruct (Hq ltac:(by left)) as (H1 & H2 & H3). apply H3, Hk.
  destruct (decide (q ∈ FG.getPeersKnows (sha256 msg) st)) as [?|Hne]; [by left|right]. by apply T4.
Qed.

End Flood.

(** Three peers, one of which is not authenticated, and messages that are their own hashes. *)
Definition floodEnv (ledger : Z) : FloodEnv := {| getPeers := [1; 2; 3]; isAuthenticated := fun p => negb (p =? 3); getCurrentLedgerSeq := ledger |}.
Definition floodHistory : list (@FG.FloodOp Z) :=
  [FG.OpAdd (floodEnv 5) 77 1; FG.OpBroadcast (floodEnv 5) 77 false; FG.OpClear 15; FG.OpClear 16; FG.OpBroadcast (floodEnv 16) 77 false].

Lemma flood_never_repeats_witness : exists created current, FCleared 77 created current ∈ [FSent 77 2; FCleared 77 5 16] /\ u32 (created + 10) < current.
Proof. apply (flood_never_repeats id floodHistory [] (FGot 77 1) [FSent 77 2; FCleared 77 5 16] 77 1 [FSent 77 2]); [vm_compute; reflexivity|by left]. Defined.

Lemma broadcast_reaches_all_witness : exists to, NoDup to /\ (forall p, p ∈ to <-> p ∈ getPeers (floodEnv 5) /\ isAuthenticated (floodEnv 5) p = true /\
    p ∉ FG.getPeersKnows (id 77) (FG.floodOps id [FG.OpAdd (floodEnv 5) 77 1])) /\
    let st' := FG.broadcast id (floodEnv 5) 77 true (FG.floodOps id [FG.OpAdd (floodEnv 5) 77 1]) in
    sends st' = sends (FG.floodOps id [FG.OpAdd (floodEnv 5) 77 1]) ++ map (fun p => (p, 77)) to /\
    st' = FG.broadcast id (floodEnv 5) 77 (negb true) (FG.floodOps id [FG.OpAdd (floodEnv 5) 77 1]) /\
    (forall p, p ∈ FG.getPeersKnows (id 77) st' <-> p ∈ FG.getPeersKnows (id 77) (FG.floodOps id [FG.OpAdd (floodEnv 5) 77 1]) \/ p ∈ to) /\
    (forall force', sends (FG.broadcast id (floodEnv 5) 77 force' st') = sends st').
Proof. apply (broadcast_reaches_all id [FG.OpAdd (floodEnv 5) 77 1] (floodEnv 5) 77 true). reflexivity. Defined.

(** ** Fetching *)

(** A round of requests asks every authenticated peer once.  While the
    peers do not change, the calls of [tryNextPeer] from the start of a round
    ask the authenticated ones of the random peers one after the other, those
    that are known to have an envelope that waits for the item before the
    others; the next call asks no one, waits for one and a half seconds times
    the number of rounds (at most a thousand), and the next round starts
    anew. *)
Theorem fetch_round_asks_all {Envelope : Type} env (t : Tracker Envelope) : mPeersToAsk t = [] -> mLastAskedPeer t = None ->
  let L := roundPeers env (mWaitingEnvelopes t) in
  let '(ps, t') := rounds env (Datatypes.S (length L)) t in
  ps = L /\ L ≡ₚ List.filter (authenticated env) (getRandomPeers env) /\
  (exists l1 l2, L = l1 ++ l2 /\ (forall p, p ∈ l1 -> p ∈ TR.peersWithEnvelope env (mWaitingEnvelopes t)) /\ (forall p, p ∈ l2 -> p ∉ TR.peersWithEnvelope env (mWaitingEnvelopes t))) /\
  mPeersToAsk t' = [] /\ mLastAskedPeer t' = None /\ mNumListRebuild t' = i32 (mNumListRebuild t + 1) /\
  mTimer t' = Some (1500 * Z.min 1000 (mNumListRebuild t')) /\ mWaitingEnvelopes t' = mWaitingEnvelopes t.
Proof.
  intros Hp Hl. cbv zeta. rewrite (round_all env t Hp Hl). split; [done|]. split_and!; try done.
  - unfold roundPeers. induction (getRandomPeers env) as [|p l IH]; [done|]. cbn [List.filter].
    destruct (os_mem p _); cbn [negb andb]; destruct (authenticated env p); cbn [rev]; try done.
    + rewrite <- app_assoc. cbn [app]. rewrite <- Permutation_middle. by constructor.
    + rewrite <- Permutation_middle. by constructor.
  - unfold roundPeers. eexists _, _. split; [done|]. split.
    + intros p. rewrite list_elem_of_In, <- in_rev, List.filter_In, andb_true_iff. intros (_ & Hm & _). by apply os_mem_elem.
    + intros p. rewrite list_elem_of_In, List.filter_In, andb_true_iff, negb_true_iff. intros (_ & Hm & _). by apply os_mem_false.
  - cbn. do 2 f_equal. unfold MAX_REBUILD_FETCH_LIST. destruct (_ >? _) eqn:E; zify_bool; lia.
Qed.

(** Peer 2 knows the envelope, peer 3 is not authenticated. *)
Definition fetchEnv : FetchEnv := {| peersKnow := fun h => [2]; getRandomPeers := [1; 2; 3; 4]; authenticated := fun p => negb (p =? 3) |}.
Definition fetchTracker : Tracker Z := TR.listen id 50 TR.init.

Lemma fetch_round_asks_all_witness : [2; 1; 4] ≡ₚ List.filter (authenticated fetchEnv) (getRandomPeers fetchEnv).
Proof. destruct (fetch_round_asks_all fetchEnv fetchTracker eq_refl eq_refl) as (_ & H & _). exact H. Defined.

(** An item that has arrived is delivered to every envelope that waits
    for it, the youngest first, and the search stops.  It is not stopped for good: when the
    peer that was asked last answers that it does not have the item, another
    peer is asked and the timer runs again; and when the item is needed
    again before the tracker is removed, no peer is asked and no timer runs. *)
Theorem received_item_stops_search {Envelope : Type} (sha256 : Envelope -> MsgHash) {Halt : Type} (outOfFuel : Halt) recvE itemID (st : FetchState Envelope) t :
  keepsItem id (fun _ => True) recvE itemID -> om_find itemID (mTrackers st) = Some t ->
  exists st' t', IF.recv id const outOfFuel recvE itemID st = inl st' /\ delivered st' = delivered st ++ (rev (mWaitingEnvelopes t)).*2 /\
    om_find itemID (mTrackers st') = Some t' /\ mWaitingEnvelopes t' = [] /\ mTimer t' = None /\
    (forall env e, asked (IF.fetch sha256 env itemID e st') = asked st' /\
       exists t'', om_find itemID (mTrackers (IF.fetch sha256 env itemID e st')) = Some t'' /\ mTimer t'' = None) /\
    (forall env p, mLastAskedPeer t = Some p ->
       exists t'' ms, om_find itemID (mTrackers (IF.doesntHave env itemID p st')) = Some t'' /\ mTimer t'' = Some ms).
Proof.
  intros Hk Ht. assert (FetchLens (Envelope := Envelope) id const) as Hlens by done.
  destruct (recvLoop_spec id const outOfFuel _ recvE itemID Hk ltac:(done) _ st t I Ht eq_refl) as (st' & t' & E & _ & Ht' & Hw & Htm & Hla & Hd). unfold id in Ht', Hd.
  exists st', t'. split_and!; try done.
  - unfold IF.recv, IF.waiting, id. by rewrite Ht, <- length_rev.
  - intros env e. unfold IF.fetch. rewrite Ht'. split; [cbn; by rewrite app_nil_r|]. eexists. cbn. by rewrite om_find_set_eq.
  - intros env p Hp. unfold IF.doesntHave, TR.doesntHave. rewrite Ht', bool_decide_true by congruence.
    unfold TR.tryNextPeer. destruct (mPeersToAsk t'), (mLastAskedPeer t'); destruct (TR.popBack _ _) as [[q|] r]; eexists _, _; cbn; rewrite om_find_set_eq; done.
Qed.

(** Asking peers for item 9; the herder does nothing with the envelopes. *)
Definition fetchState : FetchState Z := IF.fetch id fetchEnv 9 51 (IF.fetch id fetchEnv 9 50 IF.init).

Lemma received_item_stops_search_witness : exists st' t', IF.recv id const tt (fun _ st => inl st) 9 fetchState = inl st' /\ delivered st' = [51; 50] /\
  om_find 9 (mTrackers st') = Some t' /\ mTimer t' = None.
Proof.
  destruct (received_item_stops_search id tt (fun _ st => inl st) 9 fetchState (Build_Tracker (Some 2) 1 [4; 3; 1] (Some 1500) false [(50, 50); (51, 51)]))
    as (st' & t' & H1 & H2 & H3 & _ & H5 & _); [intros e st _; by exists st|vm_compute; reflexivity|]. exists st', t'. done.
Defined.
