(* ===== verification/PendingEnvelopes.v ===== *)
(** * Envelopes on their way to the consensus ([herder/PendingEnvelopes.cpp])

    An envelope that a peer sends is kept until its quorum set and its
    transaction sets are there, and then queued for the consensus library;
    with the parts of [HerderImpl] that filter envelopes and feed the queue.
    The rest of the node, that is the consensus library, the ledger manager
    and what [valueExternalized] does with them, is the type [X] with the
    operations [HerderHost]. *)

From S2P Require Import Prelude OrdContainers QuorumSet ScpTypes Federated SlotScp LedgerDelta EntryStore Floodgate ItemFetcher.

Notation Hash := Z (only parsing).

Definition MAX_SLOTS_TO_REMEMBER : Z := 4.
Definition LEDGER_VALIDITY_BRACKET : Z := 100.
Definition QSET_CACHE_SIZE : nat := 100 * 100.
Definition TXSET_CACHE_SIZE : nat := 100 * 100.
Definition NODES_QUORUM_CACHE_SIZE : nat := 1000.

Record HerderHost (TxSet X : Type) := {
  (** [mSCP.receiveEnvelope]: the slot it externalizes, if any, with its value. *)
  receiveEnvelope : SCPEnvelope -> X -> X * option (Z * Value);
  (** What [valueExternalized] does with the set before [ledgerClosed]; [None] if
      it does not return, for instance because closing the ledger throws. *)
  externalize : Z -> TxSet -> X -> option X;
  getContentsHash : TxSet -> Hash;
  getLastClosedLedgerNum : X -> Z;
  scpIsNodeInQuorum : NodeID -> X -> TriBool;
}.
Arguments receiveEnvelope {TxSet X} _ _ _.
Arguments externalize {TxSet X} _ _ _ _.
Arguments getContentsHash {TxSet X} _ _.
Arguments getLastClosedLedgerNum {TxSet X} _ _.
Arguments scpIsNodeInQuorum {TxSet X} _ _ _.

(** The two types of items that are fetched. *)
Inductive ItemKind := TX_SET | SCP_QUORUMSET.
Global Instance ItemKind_eq_dec : EqDecision ItemKind.
Proof. solve_decision. Defined.

(** What happened, in order; written for the statement of properties. *)
Inductive HerderEvent :=
| HReceived (e : SCPEnvelope)       (** from a peer *)
| HItem (k : ItemKind) (h : Hash)   (** an item arrived *)
| HFlood (e : SCPEnvelope)          (** [broadcastMessage] *)
| HScp (e : SCPEnvelope)            (** [mSCP.receiveEnvelope] *)
| HExternalized (slot : Z)
| HForgot (slot : Z)                (** the queues of the slot were erased *)
| HStopped (k : ItemKind) (slot : Z).  (** the envelopes of earlier slots do not wait for items any more *)

Global Instance HerderEvent_eq_dec : EqDecision HerderEvent.
Proof. solve_decision. Defined.

(** Slots with their envelopes. *)
Notation EnvMap := (list (Z * list SCPEnvelope)).

Record Queues := {
  mProcessedEnvelopes : EnvMap;
  mFetchingEnvelopes : EnvMap;
  mPendingEnvelopes : EnvMap;
}.

Record Herder (TxSet QSet X : Type) := {
  hQueues : Queues;
  mQsetCache : list (Hash * QSet);
  mTxSetCache : list (Hash * TxSet);
  mNodesInQuorum : list (NodeID * bool);
  mTxSetFetcher : FetchState SCPEnvelope;
  mQuorumSetFetcher : FetchState SCPEnvelope;
  hTracking : option Z;                 (** [mTrackingSCP->mConsensusIndex] *)
  hLastTracking : option Z;             (** [mLastTrackingSCP->mConsensusIndex] *)
  hPosts : list (ItemKind * Z);         (** calls of [stopFetchingBelowInternal] that were posted *)
  hHost : X;
  hLog : list HerderEvent;
}.
Arguments hQueues {TxSet QSet X} _.
Arguments mQsetCache {TxSet QSet X} _.
Arguments mTxSetCache {TxSet QSet X} _.
Arguments mNodesInQuorum {TxSet QSet X} _.
Arguments mTxSetFetcher {TxSet QSet X} _.
Arguments mQuorumSetFetcher {TxSet QSet X} _.
Arguments hTracking {TxSet QSet X} _.
Arguments hLastTracking {TxSet QSet X} _.
Arguments hPosts {TxSet QSet X} _.
Arguments hHost {TxSet QSet X} _.
Arguments hLog {TxSet QSet X} _.

(** Why the process ends in [valueExternalized]. *)
Inductive Crash :=
| Malformed (value : Value)             (** the value cannot be decoded: [abort] *)
| IndexTooLarge (index : Z)             (** the assertion of [lastConsensusLedgerIndex] *)
| NoTxSet (txSetHash : Hash)            (** the transaction set is not cached: a null pointer is used *)
| WrongTxSet (hash txSetHash : Hash)    (** the assertion of [LedgerCloseData] *)
| CloseFailed (slot : Z).               (** the ledger manager does not return *)

(** A call that does not return a state. *)
Inductive Halt (H : Type) :=
| OutOfFuel
| Crashed (c : Crash) (h : H).
Arguments OutOfFuel {H}.
Arguments Crashed {H} _ _.

Section Fields.
Context {TxSet QSet X : Type}.
Local Abbreviation H := (Herder TxSet QSet X).
Implicit Types h : H.

Definition setQueues q h : H := Build_Herder _ _ _ q (mQsetCache h) (mTxSetCache h) (mNodesInQuorum h) (mTxSetFetcher h) (mQuorumSetFetcher h) (hTracking h) (hLastTracking h) (hPosts h) (hHost h) (hLog h).
Definition setQsetCache c h : H := Build_Herder _ _ _ (hQueues h) c (mTxSetCache h) (mNodesInQuorum h) (mTxSetFetcher h) (mQuorumSetFetcher h) (hTracking h) (hLastTracking h) (hPosts h) (hHost h) (hLog h).
Definition setTxSetCache c h : H := Build_Herder _ _ _ (hQueues h) (mQsetCache h) c (mNodesInQuorum h) (mTxSetFetcher h) (mQuorumSetFetcher h) (hTracking h) (hLastTracking h) (hPosts h) (hHost h) (hLog h).
Definition setNodes c h : H := Build_Herder _ _ _ (hQueues h) (mQsetCache h) (mTxSetCache h) c (mTxSetFetcher h) (mQuorumSetFetcher h) (hTracking h) (hLastTracking h) (hPosts h) (hHost h) (hLog h).
Definition setTxSetFetcher f h : H := Build_Herder _ _ _ (hQueues h) (mQsetCache h) (mTxSetCache h) (mNodesInQuorum h) f (mQuorumSetFetcher h) (hTracking h) (hLastTracking h) (hPosts h) (hHost h) (hLog h).
Definition setQuorumSetFetcher f h : H := Build_Herder _ _ _ (hQueues h) (mQsetCache h) (mTxSetCache h) (mNodesInQuorum h) (mTxSetFetcher h) f (hTracking h) (hLastTracking h) (hPosts h) (hHost h) (hLog h).
Definition setTracking t l h : H := Build_Herder _ _ _ (hQueues h) (mQsetCache h) (mTxSetCache h) (mNodesInQuorum h) (mTxSetFetcher h) (mQuorumSetFetcher h) t l (hPosts h) (hHost h) (hLog h).
Definition setHPosts p h : H := Build_Herder _ _ _ (hQueues h) (mQsetCache h) (mTxSetCache h) (mNodesInQuorum h) (mTxSetFetcher h) (mQuorumSetFetcher h) (hTracking h) (hLastTracking h) p (hHost h) (hLog h).
Definition setHost x h : H := Build_Herder _ _ _ (hQueues h) (mQsetCache h) (mTxSetCache h) (mNodesInQuorum h) (mTxSetFetcher h) (mQuorumSetFetcher h) (hTracking h) (hLastTracking h) (hPosts h) x (hLog h).
Definition logged e h : H := Build_Herder _ _ _ (hQueues h) (mQsetCache h) (mTxSetCache h) (mNodesInQuorum h) (mTxSetFetcher h) (mQuorumSetFetcher h) (hTracking h) (hLastTracking h) (hPosts h) (hHost h) (hLog h ++ [e]).

(** The fetcher of a type of items. *)
Definition fetcher (k : ItemKind) h : FetchState SCPEnvelope := match k with TX_SET => mTxSetFetcher h | SCP_QUORUMSET => mQuorumSetFetcher h end.
Definition setFetcher (k : ItemKind) f h : H := match k with TX_SET => setTxSetFetcher f h | SCP_QUORUMSET => setQuorumSetFetcher f h end.

End Fields.

(** A missing slot has no envelopes. *)
Definition envsAt (m : EnvMap) (slot : Z) : list SCPEnvelope := default [] (om_find slot m).
Arguments envsAt : simpl never.

Module PE.
Section Methods.
Context {TxSet QSet X : Type} (host : HerderHost TxSet X).
Context (txSetHashOf : Value -> option Hash).   (** [xdr_from_opaque], and the hash in the value *)
Context (sha256 : SCPEnvelope -> MsgHash).
Context (localNodeID : NodeID) (MANUAL_CLOSE : bool).
Local Abbreviation H := (Herder TxSet QSet X).
Local Abbreviation Result := (H + Halt H)%type.
Implicit Types (h : H) (e : SCPEnvelope) (env : FetchEnv).

(** ** Is it all there? *)

Definition qsetHashOf e : Hash := getCompanionQuorumSetHashFromStatement (statement e).
Definition slotOf e : Z := slotIndex (statement e).

(** [None]: a value cannot be decoded, which throws [xdr_runtime_error]. *)
Fixpoint valuesFetched (vals : list Value) h : option bool :=
  match vals with
  | [] => Some true
  | v :: r => match txSetHashOf v with
              | None => None
              | Some th => if negb (LruCache.exists_ (mTxSetCache h) th) then Some false else valuesFetched r h
              end
  end.

Definition isFullyFetched e h : option bool :=
  if negb (LruCache.exists_ (mQsetCache h) (qsetHashOf e)) then Some false
  else valuesFetched (SlotOps.getStatementValues (statement e)) h.

Fixpoint fetchValues env e (vals : list Value) (ret : bool) h : option bool * H :=
  match vals with
  | [] => (Some ret, h)
  | v :: r => match txSetHashOf v with
              | None => (None, h)
              | Some th => if LruCache.exists_ (mTxSetCache h) th then fetchValues env e r ret h
                           else fetchValues env e r false (setTxSetFetcher (IF.fetch sha256 env th e (mTxSetFetcher h)) h)
              end
  end.

Definition startFetch env e h : option bool * H :=
  let vals := SlotOps.getStatementValues (statement e) in
  let qh := qsetHashOf e in
  if LruCache.exists_ (mQsetCache h) qh then fetchValues env e vals true h
  else fetchValues env e vals false (setQuorumSetFetcher (IF.fetch sha256 env qh e (mQuorumSetFetcher h)) h).

Definition isNodeInQuorum (node : NodeID) h : bool * H :=
  let '(res, h) := match LruCache.get node (mNodesInQuorum h) with Some (b, c) => (b, setNodes c h) | None => (false, h) end in
  if (res : bool) then (true, h) else
  match scpIsNodeInQuorum host node (hHost h) with
  | TB_TRUE => (true, setNodes (LruCache.put NODES_QUORUM_CACHE_SIZE node true (mNodesInQuorum h)) h)
  | TB_FALSE => (false, h)
  | TB_MAYBE => (true, h)
  end.

(** ** The caches *)

Definition getTxSet (hash : Hash) h : option TxSet * H :=
  match LruCache.get hash (mTxSetCache h) with Some (v, c) => (Some v, setTxSetCache c h) | None => (None, h) end.

Definition getQSet (hash : Hash) h : option QSet * H :=
  match LruCache.get hash (mQsetCache h) with Some (v, c) => (Some v, setQsetCache c h) | None => (None, h) end.

(** ** The queue *)

(** The first slot, up to [slot], with envelopes: the youngest of them. *)
Fixpoint popFrom (slot : Z) (m : EnvMap) : option (SCPEnvelope * EnvMap) :=
  match m with
  | [] => None
  | (s, v) :: r =>
      if slot >=? s then
        match rev v with
        | [] => match popFrom slot r with Some (e, r') => Some (e, (s, v) :: r') | None => None end
        | e :: v' => Some (e, (s, rev v') :: r)
        end
      else None
  end.

Definition setPending m h : H :=
  setQueues {| mProcessedEnvelopes := mProcessedEnvelopes (hQueues h); mFetchingEnvelopes := mFetchingEnvelopes (hQueues h); mPendingEnvelopes := m |} h.

Definition pop (slot : Z) h : option (SCPEnvelope * H) :=
  match popFrom slot (mPendingEnvelopes (hQueues h)) with Some (e, m) => Some (e, setPending m h) | None => None end.

Definition readySlots h : list Z :=
  map fst (List.filter (fun p => match p.2 with [] => false | _ => true end) (mPendingEnvelopes (hQueues h))).

Fixpoint eraseMapBelow (slot : Z) (m : EnvMap) : EnvMap :=
  match m with
  | [] => []
  | (s, v) :: r => if s <? slot then eraseMapBelow slot r else m
  end.

Definition eraseBelow (slot : Z) h : H :=
  let q := hQueues h in
  setQueues {| mProcessedEnvelopes := mProcessedEnvelopes q; mFetchingEnvelopes := eraseMapBelow slot (mFetchingEnvelopes q);
               mPendingEnvelopes := eraseMapBelow slot (mPendingEnvelopes q) |} h.

Definition slotClosed (slot : Z) h : H :=
  if slot >? MAX_SLOTS_TO_REMEMBER then
    let slot := slot - MAX_SLOTS_TO_REMEMBER in
    let q := hQueues h in
    let h := setQueues {| mProcessedEnvelopes := om_erase slot (mProcessedEnvelopes q); mFetchingEnvelopes := om_erase slot (mFetchingEnvelopes q);
                          mPendingEnvelopes := om_erase slot (mPendingEnvelopes q) |} h in
    logged (HForgot slot) (setHPosts (hPosts h ++ [(TX_SET, slot + 1); (SCP_QUORUMSET, slot + 1)]) h)
  else h.

(** ** Feeding the consensus library ([HerderImpl]) *)

(** Indexes fit in 32 bits, which the source asserts here. *)
Definition lastConsensusLedgerIndex (index : Z) : Z := u32 index.
Definition nextConsensusLedgerIndex (index : Z) : Z := u32 (lastConsensusLedgerIndex index + 1).

Definition getCurrentLedgerSeq h : Z :=
  let res := getLastClosedLedgerNum host (hHost h) in
  let res := match hTracking h with Some i => if res <? i then u32 i else res | None => res end in
  match hLastTracking h with Some i => if res <? i then u32 i else res | None => res end.

(** Up to the timer that triggers the next ledger, which does not change what
    is modelled here; [go] is [processSCPQueueUpToIndex]. *)
Definition ledgerClosed (go : Z -> H -> Result) h : Result :=
  match hTracking h with
  | Some i => go (nextConsensusLedgerIndex i) (slotClosed (lastConsensusLedgerIndex i) h)
  | None => inl h
  end.

(** The set, which may be a null pointer, goes to the constructor of
    [LedgerCloseData] after the index was checked. *)
Definition valueExternalized (go : Z -> H -> Result) (slot : Z) (value : Value) h : Result :=
  if slot <=? getCurrentLedgerSeq h then inl h else
  match txSetHashOf value with
  | None => inr (Crashed (Malformed value) h)
  | Some txSetHash =>
      let h := setTracking (Some slot) (match hLastTracking h with None => Some slot | l => l end) h in
      let '(externalizedSet, h) := getTxSet txSetHash h in
      if slot >? UINT32_MAX then inr (Crashed (IndexTooLarge slot) h) else
      match externalizedSet with
      | None => inr (Crashed (NoTxSet txSetHash) h)
      | Some ts =>
          if negb (getContentsHash host ts =? txSetHash) then inr (Crashed (WrongTxSet (getContentsHash host ts) txSetHash) h) else
          match externalize host slot ts (hHost h) with
          | None => inr (Crashed (CloseFailed slot) h)
          | Some x => ledgerClosed go (logged (HExternalized slot) (setHost x h))
          end
      end
  end.

Fixpoint processUpTo (fuel : nat) (slot : Z) h : Result :=
  match pop slot h with
  | None => inl h
  | Some (e, h) =>
      match fuel with
      | O => inr OutOfFuel
      | S f =>
          let '(x, ext) := receiveEnvelope host e (hHost h) in
          let h := logged (HScp e) (setHost x h) in
          match (match ext with Some (s, v) => valueExternalized (processUpTo f) s v h | None => inl h end) with
          | inl h => processUpTo f slot h
          | inr z => inr z
          end
      end
  end.

Definition pendingCount h : nat := length (concat (map snd (mPendingEnvelopes (hQueues h)))).

Definition processSCPQueueUpToIndex (slot : Z) h : Result := processUpTo (pendingCount h) slot h.

(** The loop over the slots that were ready. *)
Fixpoint processSlots (slots : list Z) h : Result :=
  match slots with
  | [] => inl h
  | s :: r => match processSCPQueueUpToIndex s h with
              | inl h => match hTracking h with Some _ => inl h | None => processSlots r h end
              | inr z => inr z
              end
  end.

Definition processSCPQueue h : Result :=
  match hTracking h with
  | Some i =>
      let next := nextConsensusLedgerIndex i in
      let h := if next >? MAX_SLOTS_TO_REMEMBER then eraseBelow (next - MAX_SLOTS_TO_REMEMBER) h else h in
      processSCPQueueUpToIndex next h
  | None => processSlots (readySlots h) h
  end.

(** ** Receiving *)

Definition envelopeReady e h : Result :=
  let m := mPendingEnvelopes (hQueues h) in
  processSCPQueue (setPending (om_set (slotOf e) (envsAt m (slotOf e) ++ [e]) m) (logged (HFlood e) h)).

Definition setFetching m h : H :=
  setQueues {| mProcessedEnvelopes := mProcessedEnvelopes (hQueues h); mFetchingEnvelopes := m; mPendingEnvelopes := mPendingEnvelopes (hQueues h) |} h.

(** An envelope that is being fetched: move it to the processed ones if it is complete. *)
Definition checkFetched e h : Result :=
  match isFullyFetched e h with
  | Some true =>
      let q := hQueues h in
      envelopeReady e
        (setQueues {| mProcessedEnvelopes := om_set (slotOf e) (envsAt (mProcessedEnvelopes q) (slotOf e) ++ [e]) (mProcessedEnvelopes q);
                      mFetchingEnvelopes := om_set (slotOf e) (List.filter (fun e' => negb (bool_decide (e' = e))) (envsAt (mFetchingEnvelopes q) (slotOf e))) (mFetchingEnvelopes q);
                      mPendingEnvelopes := mPendingEnvelopes q |} h)
  | _ => inl h
  end.

(** [PendingEnvelopes::recvSCPEnvelope] *)
Definition recvPending env e h : Result :=
  let '(ok, h) := isNodeInQuorum (nodeID (statement e)) h in
  if negb ok then inl h else
  let q := hQueues h in
  if bool_decide (e ∈ envsAt (mFetchingEnvelopes q) (slotOf e)) then checkFetched e h else
  if bool_decide (e ∈ envsAt (mProcessedEnvelopes q) (slotOf e)) then inl h else
  let '(r, h) := startFetch env e (setFetching (om_set (slotOf e) (envsAt (mFetchingEnvelopes q) (slotOf e) ++ [e]) (mFetchingEnvelopes q)) h) in
  match r with
  | None => inl h
  | Some _ => checkFetched e h
  end.

(** The slots of envelopes that are not ignored. *)
Definition minLedgerSeq h : Z :=
  let c := getCurrentLedgerSeq h in if c >? MAX_SLOTS_TO_REMEMBER then c - MAX_SLOTS_TO_REMEMBER else c.

Definition maxLedgerSeq h : Z :=
  match hTracking h with Some i => u32 (nextConsensusLedgerIndex i + LEDGER_VALIDITY_BRACKET) | None => UINT32_MAX end.

(** [HerderImpl::recvSCPEnvelope] *)
Definition recvSCPEnvelope env e h : Result :=
  if MANUAL_CLOSE then inl h else
  if bool_decide (nodeID (statement e) = localNodeID) then inl h else
  if (slotOf e >? maxLedgerSeq h) || (slotOf e <? minLedgerSeq h) then inl h else
  recvPending env e h.

Definition recvTxSet env (hash : Hash) (txset : TxSet) h : Result :=
  let h := logged (HItem TX_SET hash) (setTxSetCache (LruCache.put TXSET_CACHE_SIZE hash txset (mTxSetCache h)) h) in
  IF.recv (fetcher TX_SET) (setFetcher TX_SET) OutOfFuel (recvSCPEnvelope env) hash h.

Definition recvSCPQuorumSet env (hash : Hash) (q : QSet) h : Result :=
  let h := logged (HItem SCP_QUORUMSET hash) (setQsetCache (LruCache.put QSET_CACHE_SIZE hash q (mQsetCache h)) h) in
  IF.recv (fetcher SCP_QUORUMSET) (setFetcher SCP_QUORUMSET) OutOfFuel (recvSCPEnvelope env) hash h.

Definition peerDoesntHave env (k : ItemKind) (itemID : Hash) (peer : Peer) h : H :=
  setFetcher k (IF.doesntHave env itemID peer (fetcher k h)) h.

Definition herderOutOfSync h : Result := processSCPQueue (setTracking None (hTracking h) h).

(** ** Inputs of the herder *)

Inductive Input :=
| InEnvelope env e
| InTxSet env (hash : Hash) (txset : TxSet)
| InQuorumSet env (hash : Hash) (q : QSet)
| InDoesntHave env (k : ItemKind) (itemID : Hash) (peer : Peer)
| InTimer env (k : ItemKind) (itemID : Hash)          (** the timer of a tracker *)
| InPost                                              (** the event loop runs a posted closure *)
| InOutOfSync
| InRead (k : ItemKind) (hash : Hash)                 (** [getTxSet], [getQSet] *)
| InHost (f : X -> X) (ext : option (Z * Value)).     (** timers of the consensus, the ledger manager *)

Definition step (i : Input) h : Result :=
  match i with
  | InEnvelope env e => recvSCPEnvelope env e (logged (HReceived e) h)
  | InTxSet env hash txset => recvTxSet env hash txset h
  | InQuorumSet env hash q => recvSCPQuorumSet env hash q h
  | InDoesntHave env k itemID peer => inl (peerDoesntHave env k itemID peer h)
  | InTimer env k itemID => inl (setFetcher k (IF.timer env itemID (fetcher k h)) h)
  | InPost => match hPosts h with
              | [] => inl h
              | (k, slot) :: r => inl (logged (HStopped k slot) (setHPosts r (setFetcher k (IF.stopFetchingBelowInternal slotOf slot (fetcher k h)) h)))
              end
  | InOutOfSync => herderOutOfSync h
  | InRead TX_SET hash => inl (getTxSet hash h).2
  | InRead SCP_QUORUMSET hash => inl (getQSet hash h).2
  | InHost f ext =>
      let h := setHost (f (hHost h)) h in
      match ext with Some (s, v) => valueExternalized processSCPQueueUpToIndex s v h | None => inl h end
  end.

Fixpoint steps (l : list Input) h : Result :=
  match l with [] => inl h | i :: r => match step i h with inl h => steps r h | inr z => inr z end end.

(** The state a call ends in, also when it crashes. *)
Definition stateOf (r : Result) : option H :=
  match r with inl h => Some h | inr (Crashed _ h) => Some h | inr OutOfFuel => None end.

Definition newHerder (x : X) : H :=
  Build_Herder _ _ _ {| mProcessedEnvelopes := []; mFetchingEnvelopes := []; mPendingEnvelopes := [] |} [] [] [] IF.init IF.init None None [] x [].

End Methods.
End PE.
