(* ===== verification/EnvelopeFacts.v ===== *)
(** * Envelopes on their way to the consensus: steps and invariants

    Everything the herder does with envelopes is a sequence of small steps
    ([small], and [item] for the arrival of an item); the invariants, in the
    second part, are proved for each of them. *)

From stdpp Require Import relations.
From S2P Require Import Prelude OrdContainers QuorumSet ScpTypes Federated SlotScp LedgerDelta LedgerDeltaFacts EntryStore EntryStoreFacts Floodgate ItemFetcher PendingEnvelopes.

(** ** Maps from slots to envelopes *)

Section EnvMaps.
Implicit Types (m : EnvMap) (s slot : Z) (e : SCPEnvelope).

Lemma envsAt_set m s v s' : envsAt (om_set s v m) s' = if s =? s' then v else envsAt m s'.
Proof.
  unfold envsAt. rewrite om_find_set. destruct (Z.eqb_spec s s') as [->|Hn]; [by rewrite eqvb_refl|]. by rewrite eqvb_neq.
Qed.

Lemma envsAt_erase m s s' : envsAt (om_erase s m) s' = if s =? s' then [] else envsAt m s'.
Proof.
  unfold envsAt. rewrite om_find_erase. destruct (Z.eqb_spec s s') as [->|Hn]; [by rewrite eqvb_refl|]. by rewrite eqvb_neq.
Qed.

Lemma envsAt_cons s v m s' : envsAt ((s, v) :: m) s' = if s' =? s then v else envsAt m s'.
Proof.
  unfold envsAt. cbn [om_find]. destruct (Z.eqb_spec s' s) as [->|Hn]; [by rewrite eqvb_refl|]. by rewrite eqvb_neq.
Qed.

Lemma envsAt_below s m s' : om_sorted ((s, []) :: m) -> s' <= s -> envsAt m s' = [].
Proof.
  intros [Hs _] Hle. unfold envsAt. assert (om_find s' m = None) as ->; [|done].
  apply om_find_None. intros Hin. apply Hs in Hin. cbn in Hin. lia.
Qed.

Lemma eraseMapBelow_spec slot m : om_sorted m ->
  om_sorted (PE.eraseMapBelow slot m) /\ forall s, envsAt (PE.eraseMapBelow slot m) s = if s <? slot then [] else envsAt m s.
Proof.
  induction m as [|[s1 v] m IH]; intros Hs; [split; [done|]; intros s; by destruct (s <? slot)|]. cbn [PE.eraseMapBelow].
  destruct (Z.ltb_spec s1 slot) as [Hl|Hl].
  - destruct IH as [H1 H2]; [apply Hs|]. split; [done|]. intros s. rewrite H2, envsAt_cons.
    destruct (Z.ltb_spec s slot); [done|]. destruct (Z.eqb_spec s s1); [lia|done].
  - split; [done|]. intros s. destruct (Z.ltb_spec s slot); [|done]. rewrite envsAt_cons. destruct (Z.eqb_spec s s1); [lia|].
    apply (envsAt_below s1); [done|lia].
Qed.

(** What [pop] takes, and what it leaves. *)
Lemma popFrom_spec slot m : om_sorted m ->
  match PE.popFrom slot m with
  | None => forall s, s <= slot -> envsAt m s = []
  | Some (e, m') => om_sorted m' /\ length (concat (map snd m)) = S (length (concat (map snd m'))) /\ m'.*1 = m.*1 /\
      exists s, s <= slot /\ envsAt m s = envsAt m' s ++ [e] /\ forall s', s' <> s -> envsAt m' s' = envsAt m s'
  end.
Proof.
  induction m as [|[s1 v] m IH]; intros Hs; [done|]. cbn [PE.popFrom]. assert (om_sorted m) as Hm by apply Hs. specialize (IH Hm).
  rewrite Z.geb_leb. destruct (Z.leb_spec s1 slot) as [Hl|Hl].
  - destruct (rev v) as [|e v'] eqn:Ev.
    + assert (v = []) as -> by (apply (f_equal (@rev _)) in Ev; by rewrite rev_involutive in Ev).
      destruct (PE.popFrom slot m) as [[e m']|].
      * destruct IH as (H1 & H2 & H3 & s & H4 & H5 & H6). split_and!; [|done|by cbn; f_equal|].
        { unfold om_sorted in *. cbn in *. by rewrite H3. }
        assert (s <> s1) as Hne. { intros ->. rewrite (envsAt_below s1 m s1 Hs) in H5 by lia. by destruct (envsAt m' s1). }
        exists s. rewrite !envsAt_cons. split; [done|]. destruct (Z.eqb_spec s s1); [done|]. split; [done|].
        intros s' Hs'. rewrite !envsAt_cons. destruct (Z.eqb_spec s' s1); [done|]. by apply H6.
      * intros s Hle. rewrite envsAt_cons. destruct (Z.eqb_spec s s1); [done|by apply IH].
    + assert (v = rev v' ++ [e]) as Hv by (by rewrite <- (rev_involutive v), Ev).
      split_and!; [done|by cbn; rewrite Hv, !length_app; cbn; lia|done|].
      exists s1. rewrite !envsAt_cons, Z.eqb_refl. split; [done|]. split; [done|]. intros s' Hs'. rewrite !envsAt_cons.
      by destruct (Z.eqb_spec s' s1).
  - intros s Hle. rewrite envsAt_cons. destruct (Z.eqb_spec s s1); [lia|]. by apply (envsAt_below s1); [|lia].
Qed.

End EnvMaps.

(** ** Small steps *)

Section Steps.
Context {TxSet QSet X : Type} (host : HerderHost TxSet X).
Context (txSetHashOf : list Z -> option Z) (sha256 : SCPEnvelope -> MsgHash) (localNodeID : NodeID) (MANUAL_CLOSE : bool).
Local Abbreviation H := (Herder TxSet QSet X).
Implicit Types (h : H) (e : SCPEnvelope) (env : FetchEnv) (k : ItemKind) (s slot : Z).

Definition pend h s : list SCPEnvelope := envsAt (mPendingEnvelopes (hQueues h)) s.
Definition fetching h s : list SCPEnvelope := envsAt (mFetchingEnvelopes (hQueues h)) s.
Definition processed h s : list SCPEnvelope := envsAt (mProcessedEnvelopes (hQueues h)) s.

(** The cache of a type of items has the item. *)
Definition cached k h (i : Z) : bool :=
  match k with TX_SET => LruCache.exists_ (mTxSetCache h) i | SCP_QUORUMSET => LruCache.exists_ (mQsetCache h) i end.

(** A complete envelope moves to the queue. *)
Definition ready e h : H :=
  let q := hQueues h in
  let h := setQueues {| mProcessedEnvelopes := om_set (PE.slotOf e) (envsAt (mProcessedEnvelopes q) (PE.slotOf e) ++ [e]) (mProcessedEnvelopes q);
                        mFetchingEnvelopes := om_set (PE.slotOf e) (List.filter (fun e' => negb (bool_decide (e' = e))) (envsAt (mFetchingEnvelopes q) (PE.slotOf e))) (mFetchingEnvelopes q);
                        mPendingEnvelopes := mPendingEnvelopes q |} h in
  let m := mPendingEnvelopes (hQueues h) in
  PE.setPending (om_set (PE.slotOf e) (envsAt m (PE.slotOf e) ++ [e]) m) (logged (HFlood e) h).

(** A new envelope. *)
Definition started env e h : option bool * H :=
  PE.startFetch txSetHashOf sha256 env e
    (PE.setFetching (om_set (PE.slotOf e) (envsAt (mFetchingEnvelopes (hQueues h)) (PE.slotOf e) ++ [e]) (mFetchingEnvelopes (hQueues h))) h).

Inductive small : H -> H -> Prop :=
| small_nodes c h : small h (setNodes c h)
| small_host x h : small h (setHost x h)
| small_tracking t l h : small h (setTracking t l h)
| small_externalized s h : small h (logged (HExternalized s) h)
| small_getTxSet i h : small h (PE.getTxSet i h).2
| small_getQSet i h : small h (PE.getQSet i h).2
| small_scp slot e h h' : PE.pop slot h = Some (e, h') -> small h (logged (HScp e) h')
| small_eraseBelow slot h : small h (PE.eraseBelow slot h)
| small_slotClosed slot h : small h (PE.slotClosed slot h)
| small_ready e h : e ∈ fetching h (PE.slotOf e) -> PE.isFullyFetched txSetHashOf e h = Some true -> small h (ready e h)
| small_start env e h : HReceived e ∈ hLog h -> nodeID (statement e) <> localNodeID -> e ∉ fetching h (PE.slotOf e) ->
    e ∉ processed h (PE.slotOf e) -> small h (started env e h).2.

Hint Constructors small : core.
Local Abbreviation smalls := (rtc small).

Lemma smalls_one h h' : small h h' -> smalls h h'.
Proof. apply rtc_once. Qed.
Hint Resolve smalls_one rtc_refl : core.

(** ** How a call ends *)

(** What made the process crash in the state [h]. *)
Definition cause (c : Crash) h : Prop :=
  match c with
  | Malformed value => txSetHashOf value = None
  | IndexTooLarge index => UINT32_MAX < index
  | NoTxSet th => cached TX_SET h th = false
  | WrongTxSet hash th => hash <> th /\ exists ts, LruCache.find (mTxSetCache h) th = Some ts /\ getContentsHash host ts = hash
  | CloseFailed slot => exists ts, LruCache.find (mTxSetCache h) (getContentsHash host ts) = Some ts /\ externalize host slot ts (hHost h) = None
  end.

(** A call from [h] returns a state that [Q] holds for, or the process crashes
    in a state with a cause; both are reached from [h] by [R]. *)
Definition ends (R : relation H) h (Q : H -> Prop) (r : H + Halt H) : Prop :=
  (exists h', r = inl h' /\ R h h' /\ Q h') \/ (exists c h', r = inr (Crashed c h') /\ R h h' /\ cause c h').

Lemma ends_ret (R : relation H) h (Q : H -> Prop) h' : R h h' -> Q h' -> ends R h Q (inl h').
Proof. left. by exists h'. Qed.

Lemma ends_crash (R : relation H) h (Q : H -> Prop) c h' : R h h' -> cause c h' -> ends R h Q (inr (Crashed c h')).
Proof. right. by exists c, h'. Qed.

Lemma ends_mono (R R' : relation H) h h1 (Q Q' : H -> Prop) r : ends R h Q r -> (forall h', R h h' -> R' h1 h') -> (forall h', R h h' -> Q h' -> Q' h') -> ends R' h1 Q' r.
Proof. intros [(h' & -> & Hr & Hq)|(c & h' & -> & Hr & Hc)] H1 H2; [apply ends_ret|apply ends_crash]; auto. Qed.

(** One call after another. *)
Lemma ends_bind (R : relation H) `{!Transitive R} h (Q Q' : H -> Prop) r f : ends R h Q r -> (forall h', R h h' -> Q h' -> ends R h' Q' (f h')) ->
  ends R h Q' (match r with inl h' => f h' | inr z => inr z end).
Proof.
  intros [(h' & -> & Hr & Hq)|(c & h' & -> & Hr & Hc)] Hf; [|by apply ends_crash]. eapply ends_mono; [by apply Hf|by intros h2 ?; etrans|done].
Qed.

(** ** The queue is drained *)

Definition sortedPending h : Prop := om_sorted (mPendingEnvelopes (hQueues h)).

(** [h'] has not more envelopes in the queue than [h]. *)
Definition fewer h h' : Prop :=
  sortedPending h' /\ (PE.pendingCount h' <= PE.pendingCount h)%nat /\ forall s, pend h' s `sublist_of` pend h s.

Lemma fewer_refl h : sortedPending h -> fewer h h.
Proof. intros Hs. split; [done|]. by split; [lia|]. Qed.

Lemma fewer_trans h1 h2 h3 : fewer h1 h2 -> fewer h2 h3 -> fewer h1 h3.
Proof. intros (_ & H2 & H3) (H4 & H5 & H6). split; [done|]. split; [lia|]. intros s. etrans; [apply H6|apply H3]. Qed.

Lemma fewer_nil h h' s : fewer h h' -> pend h s = [] -> pend h' s = [].
Proof. intros (_ & _ & Hs) Hn. specialize (Hs s). rewrite Hn in Hs. by apply sublist_nil_r in Hs. Qed.

(** No envelope of a slot up to the next one is in the queue of a node that tracks the consensus. *)
Definition upToDate h : Prop := forall i s, hTracking h = Some i -> s <= PE.nextConsensusLedgerIndex i -> pend h s = [].

(** What a call of [processSCPQueueUpToIndex] leaves. *)
Definition drainedTo slot h h' : Prop :=
  smalls h h' /\ fewer h h' /\ (forall s, s <= slot -> pend h' s = []) /\ (hTracking h' = hTracking h \/ is_Some (hTracking h') /\ upToDate h').

Lemma pop_spec slot h : sortedPending h ->
  match PE.pop slot h with
  | None => forall s, s <= slot -> pend h s = []
  | Some (e, h') => sortedPending h' /\ PE.pendingCount h = S (PE.pendingCount h') /\ hTracking h' = hTracking h /\
      forall s, pend h' s `sublist_of` pend h s
  end.
Proof.
  intros Hs. pose proof (popFrom_spec slot _ Hs) as Hp. unfold PE.pop. destruct (PE.popFrom slot _) as [[e m']|]; [|done].
  destruct Hp as (H1 & H2 & _ & s & H3 & H4 & H5). split_and!; [done|done|done|]. intros s'. unfold pend. cbn.
  destruct (Z.eq_dec s' s) as [->|Hne]; [rewrite H4; by apply sublist_inserts_r|by rewrite H5].
Qed.

Lemma slotClosed_fewer slot h : sortedPending h -> fewer h (PE.slotClosed slot h) /\ hTracking (PE.slotClosed slot h) = hTracking h.
Proof.
  intros Hs. unfold PE.slotClosed. destruct (slot >? _); [|split; [by apply fewer_refl|done]]. split; [|done]. split; [by apply om_erase_sorted|].
  split.
  - unfold PE.pendingCount. cbn. unfold om_erase. clear Hs. induction (mPendingEnvelopes (hQueues h)) as [|[s v] m IH]; [done|].
    cbn. destruct (negb _); cbn; rewrite ?length_app; lia.
  - intros s. unfold pend. cbn. rewrite envsAt_erase. destruct (_ =? s); [apply sublist_nil_l|done].
Qed.

Lemma ledgerClosed_spec go h i : hTracking h = Some i -> sortedPending h ->
  (forall slot h1, fewer h h1 -> ends smalls h1 (drainedTo slot h1) (go slot h1)) ->
  ends smalls h (fun h' => fewer h h' /\ is_Some (hTracking h') /\ upToDate h') (PE.ledgerClosed go h).
Proof.
  intros Ht Hs Hgo. unfold PE.ledgerClosed. rewrite Ht.
  destruct (slotClosed_fewer (PE.lastConsensusLedgerIndex i) h Hs) as [Hf Htr].
  eapply ends_mono; [exact (Hgo (PE.nextConsensusLedgerIndex i) _ Hf)|by intros h' ?; eapply rtc_l|].
  intros h' _ (_ & Hf' & Hd & Ht'). split; [by eapply fewer_trans|].
  destruct Ht' as [Ht'|Ht']; [|done]. rewrite Htr, Ht in Ht'. rewrite Ht'. split; [done|]. intros j s Hj. rewrite Ht' in Hj. injection Hj as <-. apply Hd.
Qed.

Lemma getTxSet_same i h : hQueues (PE.getTxSet i h).2 = hQueues h /\ hTracking (PE.getTxSet i h).2 = hTracking h.
Proof. unfold PE.getTxSet. by destruct (LruCache.get _ _) as [[v c]|]. Qed.

(** What [getTxSet] returns is what the cache has. *)
Lemma getTxSet_find i h : LruCache.find (mTxSetCache (PE.getTxSet i h).2) i = (PE.getTxSet i h).1.
Proof.
  unfold PE.getTxSet. destruct (LruCache.get i (mTxSetCache h)) as [[v c]|] eqn:E; cbn.
  - apply lru_get_spec in E as [<- Hc]. apply Hc.
  - unfold LruCache.get in E. by destruct (LruCache.find (mTxSetCache h) i).
Qed.

Lemma valueExternalized_spec go slot v h : sortedPending h ->
  (forall slot h1, fewer h h1 -> ends smalls h1 (drainedTo slot h1) (go slot h1)) ->
  ends smalls h (fun h' => fewer h h' /\ (h' = h \/ is_Some (hTracking h') /\ upToDate h')) (PE.valueExternalized host txSetHashOf go slot v h).
Proof.
  intros Hs Hgo. unfold PE.valueExternalized. destruct (slot <=? _).
  { apply ends_ret; [done|]. split; [by apply fewer_refl|by left]. }
  destruct (txSetHashOf v) as [th|] eqn:Ev; [|by apply ends_crash].
  set (h1 := setTracking _ _ h). pose proof (getTxSet_same th h1) as [Hq Ht]. pose proof (small_getTxSet th h1) as Hg. pose proof (getTxSet_find th h1) as Hfind.
  destruct (PE.getTxSet th h1) as [set_ h2]. cbn [fst snd] in *.
  assert (smalls h h2) as Hsm2 by (eapply rtc_l; [apply small_tracking|by apply smalls_one]).
  destruct (slot >? UINT32_MAX) eqn:Eu; [apply ends_crash; [done|]; cbn; zify_bool; lia|]. destruct set_ as [ts|].
  2:{ apply ends_crash; [done|]. cbn. unfold LruCache.exists_. by rewrite Hfind. }
  destruct (Z.eqb_spec (getContentsHash host ts) th) as [E|E]; cbn [negb]; [|apply ends_crash; [done|]; split; [done|by exists ts]].
  destruct (externalize host slot ts (hHost h2)) as [x|] eqn:Ex; [|apply ends_crash; [done|]; exists ts; by rewrite E]. set (h3 := logged _ _).
  assert (Hf : fewer h h3). { unfold fewer, sortedPending, PE.pendingCount, pend. cbn. by rewrite Hq. }
  eapply ends_mono.
  - apply (ledgerClosed_spec go h3 slot); [by cbn; rewrite Ht|apply Hf|]. intros slot1 h4 H4. apply Hgo. by eapply fewer_trans.
  - intros h' Hsm. etrans; [exact Hsm2|]. eapply rtc_l; [apply small_host|]. eapply rtc_l; [apply small_externalized|exact Hsm].
  - intros h' _ (Hf' & Hup). split; [by eapply fewer_trans|by right].
Qed.

Lemma drainedTo_after slot h h2 h3 h' : smalls h h2 -> fewer h h2 -> hTracking h2 = hTracking h -> smalls h2 h3 ->
  fewer h2 h3 -> (h3 = h2 \/ is_Some (hTracking h3) /\ upToDate h3) -> drainedTo slot h3 h' -> drainedTo slot h h'.
Proof.
  intros Hsm2 Hf2 Ht2 Hsm3 Hf3 Hup (Hsm & Hf & Hd & Ht). split_and!.
  - etrans; [exact Hsm2|]. by etrans.
  - eapply fewer_trans; [exact Hf2|]. by eapply fewer_trans.
  - done.
  - destruct Ht as [Ht|Ht]; [|by right]. destruct Hup as [-> |[Hi Hup]].
    + left. by rewrite Ht.
    + right. rewrite Ht. split; [done|]. intros j s1 Hj Hle. rewrite Ht in Hj. eapply fewer_nil; [exact Hf|]. by eapply Hup.
Qed.

Lemma processUpTo_spec fuel : forall slot h, sortedPending h -> (PE.pendingCount h <= fuel)%nat ->
  ends smalls h (drainedTo slot h) (PE.processUpTo host txSetHashOf fuel slot h).
Proof.
  induction fuel as [|f IH]; intros slot h Hs Hc; cbn [PE.processUpTo]; pose proof (pop_spec slot h Hs) as Hp;
    destruct (PE.pop slot h) as [[e h1]|] eqn:Ep; try (apply ends_ret; [done|]; split_and!; [done|by apply fewer_refl|done|by left]).
  { destruct Hp as (_ & Hn & _). lia. }
  destruct Hp as (Hs1 & Hn & Ht1 & Hsub). destruct (receiveEnvelope host e (hHost h1)) as [x ext]. set (h2 := logged _ _).
  assert (Hf2 : fewer h h2). { split; [done|]. split; [|done]. unfold h2, PE.pendingCount in *. cbn in *. lia. }
  assert (Hsm2 : smalls h h2).
  { eapply rtc_l; [by eapply (small_scp slot e h h1)|]. apply smalls_one. exact (small_host x (logged (HScp e) h1)). }
  assert (Hc2 : (PE.pendingCount h2 <= f)%nat) by (unfold h2, PE.pendingCount in *; cbn in *; lia).
  assert (Hgo : forall slot h3, fewer h2 h3 -> ends smalls h3 (drainedTo slot h3) (PE.processUpTo host txSetHashOf f slot h3)).
  { intros slot1 h3 (H31 & H32 & _). apply IH; [done|lia]. }
  eapply ends_mono; [|by intros h' Hh'; etrans; [exact Hsm2|exact Hh']|done].
  eapply (ends_bind smalls h2 (fun h3 => fewer h2 h3 /\ (h3 = h2 \/ is_Some (hTracking h3) /\ upToDate h3))).
  - destruct ext as [[s v]|]; [by apply (valueExternalized_spec (PE.processUpTo host txSetHashOf f)); [apply Hf2|]|].
    apply ends_ret; [done|]. split; [apply fewer_refl, Hf2|by left].
  - intros h3 Hsm3 [Hf3 Hup]. eapply ends_mono; [by apply Hgo|done|]. intros h' _ Hd. by eapply (drainedTo_after slot h h2 h3).
Qed.

(** Nothing that can be processed is left in the queue. *)
Definition settled h : Prop := sortedPending h /\ upToDate h /\ (hTracking h = None -> forall s, pend h s = []).

Lemma processQueue_spec slot h : sortedPending h -> ends smalls h (drainedTo slot h) (PE.processSCPQueueUpToIndex host txSetHashOf slot h).
Proof. intros Hs. by apply processUpTo_spec. Qed.

Lemma processSlots_spec slots : forall h, sortedPending h -> hTracking h = None -> (forall s, pend h s <> [] -> s ∈ slots) ->
  ends smalls h settled (PE.processSlots host txSetHashOf slots h).
Proof.
  induction slots as [|s0 r IH]; intros h Hs Ht Hall; cbn [PE.processSlots].
  - apply ends_ret; [done|]. split; [done|]. split; [intros i s Hi; congruence|]. intros _ s.
    destruct (pend h s) eqn:E; [done|]. exfalso. assert (s ∈ []) as Hin by (apply Hall; by rewrite E). by apply not_elem_of_nil in Hin.
  - eapply (ends_bind smalls); [exact (processQueue_spec s0 h Hs)|]. intros h1 _ (_ & Hf & Hd & Ht1). destruct (hTracking h1) as [i|] eqn:E1.
    + apply ends_ret; [done|]. destruct Ht1 as [Ht1|[_ Hup]]; [congruence|]. split; [apply Hf|]. split; [done|]. congruence.
    + apply IH; [apply Hf|done|]. intros s Hn. assert (pend h s <> []) as Hn' by (intros Hn'; apply Hn; by eapply fewer_nil).
      apply Hall, elem_of_cons in Hn' as [->|]; [|done]. destruct Hn. by apply Hd.
Qed.

Lemma readySlots_all h s : pend h s <> [] -> s ∈ PE.readySlots h.
Proof.
  unfold pend, envsAt, PE.readySlots. destruct (om_find s _) as [v|] eqn:E; [|done]. cbn. intros Hv. apply om_find_elem in E.
  apply list_elem_of_fmap. exists (s, v). split; [done|]. apply list_elem_of_In, filter_In. split; [by apply list_elem_of_In|]. by destruct v.
Qed.

Lemma eraseBelow_sorted slot h : sortedPending h -> sortedPending (PE.eraseBelow slot h).
Proof. intros Hs. by apply eraseMapBelow_spec. Qed.

Lemma processSCPQueue_spec h : sortedPending h -> ends smalls h settled (PE.processSCPQueue host txSetHashOf h).
Proof.
  intros Hs. unfold PE.processSCPQueue. destruct (hTracking h) as [i|] eqn:Ht.
  - set (next := PE.nextConsensusLedgerIndex i). set (h1 := if next >? _ then _ else h).
    assert (sortedPending h1 /\ smalls h h1 /\ hTracking h1 = Some i) as (Hs1 & Hsm1 & Ht1).
    { unfold h1. destruct (next >? _); [|done]. split_and!; [by apply eraseBelow_sorted|auto|done]. }
    eapply ends_mono; [exact (processQueue_spec next h1 Hs1)|by intros h' ?; etrans|]. intros h' _ (_ & Hf & Hd & Ht').
    split; [apply Hf|]. destruct Ht' as [Ht'|[Hi Hup]].
    + rewrite Ht1 in Ht'. split; [|congruence]. intros j s Hj. rewrite Ht' in Hj. injection Hj as <-. apply Hd.
    + split; [done|]. intros Hn. rewrite Hn in Hi. by destruct Hi.
  - apply processSlots_spec; [done|done|]. intros s. apply readySlots_all.
Qed.

(** ** Receiving an envelope is a sequence of small steps *)

Lemma peIsNodeInQuorum_spec node h : smalls h (PE.isNodeInQuorum host node h).2 /\
  exists c, (PE.isNodeInQuorum host node h).2 = setNodes c h.
Proof.
  assert (exists c0 : list (NodeID * bool), exists b, (match LruCache.get node (mNodesInQuorum h) with Some (b, c) => (b, setNodes c h) | None => (false, h) end) = (b, setNodes c0 h)) as (c0 & b & E).
  { destruct (LruCache.get node (mNodesInQuorum h)) as [[b c]|]; [by exists c, b|]. exists (mNodesInQuorum h), false. f_equal. by destruct h. }
  assert (exists c, (PE.isNodeInQuorum host node h).2 = setNodes c h) as [c Ec].
  { unfold PE.isNodeInQuorum. rewrite E. destruct b; [by exists c0|]. destruct (scpIsNodeInQuorum _ _ _); cbn; eauto. }
  rewrite Ec. split; [auto|eauto].
Qed.

Lemma fetchValues_frame env e vals : forall ret h, exists r f, PE.fetchValues txSetHashOf sha256 env e vals ret h = (r, setTxSetFetcher f h).
Proof.
  induction vals as [|v vals IH]; intros ret h; cbn [PE.fetchValues].
  - exists (Some ret), (mTxSetFetcher h). f_equal. by destruct h.
  - destruct (txSetHashOf v) as [th|].
    + destruct (LruCache.exists_ _ th); [apply IH|]. destruct (IH false (setTxSetFetcher (IF.fetch sha256 env th e (mTxSetFetcher h)) h)) as (r & f & ->).
      by exists r, f.
    + exists None, (mTxSetFetcher h). f_equal. by destruct h.
Qed.

Lemma started_frame env e h : exists r f g, started env e h =
  (r, setTxSetFetcher f (setQuorumSetFetcher g (PE.setFetching (om_set (PE.slotOf e) (fetching h (PE.slotOf e) ++ [e]) (mFetchingEnvelopes (hQueues h))) h))).
Proof.
  unfold started, PE.startFetch. set (h1 := PE.setFetching _ h). destruct (LruCache.exists_ _ _).
  - destruct (fetchValues_frame env e (SlotOps.getStatementValues (statement e)) true h1) as (r & f & ->). exists r, f, (mQuorumSetFetcher h). by destruct h.
  - destruct (fetchValues_frame env e (SlotOps.getStatementValues (statement e)) false (setQuorumSetFetcher (IF.fetch sha256 env (PE.qsetHashOf e) e (mQuorumSetFetcher h1)) h1)) as (r & f & ->).
    by eexists r, f, _.
Qed.

Lemma checkFetched_spec e h : settled h -> e ∈ fetching h (PE.slotOf e) ->
  ends smalls h settled (PE.checkFetched host txSetHashOf e h).
Proof.
  intros Hset Hin. unfold PE.checkFetched. destruct (PE.isFullyFetched txSetHashOf e h) as [[]|] eqn:E; [|by apply ends_ret..].
  eapply ends_mono; [apply (processSCPQueue_spec (ready e h)), om_set_sorted, Hset|by intros h' ?; eapply rtc_l; [by apply small_ready|]|done].
Qed.

Lemma settled_frame h h' : mPendingEnvelopes (hQueues h') = mPendingEnvelopes (hQueues h) -> hTracking h' = hTracking h -> settled h -> settled h'.
Proof. unfold settled, sortedPending, upToDate, pend. by intros -> ->. Qed.

Lemma recvSCPEnvelope_spec env e h : settled h -> HReceived e ∈ hLog h ->
  ends smalls h settled (PE.recvSCPEnvelope host txSetHashOf sha256 localNodeID MANUAL_CLOSE env e h).
Proof.
  intros Hset Hrec. unfold PE.recvSCPEnvelope. destruct MANUAL_CLOSE; [by apply ends_ret|]. case_bool_decide as Hself; [by apply ends_ret|].
  destruct (_ || _); [by apply ends_ret|]. unfold PE.recvPending. destruct (peIsNodeInQuorum_spec (nodeID (statement e)) h) as (Hsm & c & Ec).
  destruct (PE.isNodeInQuorum host (nodeID (statement e)) h) as [ok h1]. cbn [snd] in *. subst h1.
  assert (settled (setNodes c h)) as Hset1 by by apply (settled_frame h). destruct ok; cbn [negb]; [|by apply ends_ret].
  case_bool_decide as Hfe.
  { eapply ends_mono; [by apply (checkFetched_spec e (setNodes c h))|by intros h' ?; etrans|done]. }
  case_bool_decide as Hpr; [by apply ends_ret|].
  pose proof (started_frame env e (setNodes c h)) as (r & f & g & Es).
  pose proof (small_start env e (setNodes c h) Hrec Hself Hfe Hpr) as Hst. rewrite Es in Hst. cbn [snd] in Hst.
  unfold started in Es. rewrite Es. set (h2 := setTxSetFetcher _ _) in *.
  assert (settled h2) as Hset2 by by apply (settled_frame h). assert (smalls h h2) as Hsm2 by by eapply rtc_r.
  destruct r as [r|]; [|by apply ends_ret]. eapply ends_mono; [apply (checkFetched_spec e h2 Hset2)|by intros h' ?; etrans|done].
  unfold fetching, h2. cbn. rewrite envsAt_set, Z.eqb_refl. apply elem_of_app. right. by apply list_elem_of_singleton.
Qed.

End Steps.

(** * Envelopes on their way to the consensus: what holds at all times

    The envelopes that wait for items, the arrival of an item as a sequence of
    steps, and the invariants of the queues, the log and the searches. *)

(** ** Waiting envelopes of a fetcher *)

Section Waiting.
Implicit Types (f : FetchState SCPEnvelope) (i j : Z) (e : SCPEnvelope) (env : FetchEnv) (t : Tracker SCPEnvelope).

Definition waits f i e : Prop := e ∈ (IF.waiting i f).*2.

Definition trackerOf f i : option (Tracker SCPEnvelope) := om_find i (mTrackers f).

Lemma trackerOf_store j pt f i : trackerOf (IF.store j pt f) i = if j =? i then Some pt.2 else trackerOf f i.
Proof. unfold trackerOf, IF.store. cbn. rewrite om_find_set. destruct (Z.eqb_spec j i) as [->|]; [by rewrite eqvb_refl|by rewrite eqvb_neq]. Qed.

Lemma waits_tracker f i e : waits f i e <-> exists t, trackerOf f i = Some t /\ e ∈ (mWaitingEnvelopes t).*2.
Proof. unfold waits, IF.waiting, trackerOf. destruct (om_find i _); [naive_solver|]. split; [by intros ?%not_elem_of_nil|naive_solver]. Qed.

Lemma tryNextPeer_waiting env t : mWaitingEnvelopes (TR.tryNextPeer env t).2 = mWaitingEnvelopes t /\ is_Some (mTimer (TR.tryNextPeer env t).2).
Proof.
  unfold TR.tryNextPeer. destruct (match mPeersToAsk t with [] => _ | _ => _ end) as [l n]. destruct (TR.popBack env (rev l)) as [[p|] r]; cbn; eauto.
Qed.

Context (sha256 : SCPEnvelope -> MsgHash).

(** [fetch] adds the envelope to the tracker of the item; a new tracker asks. *)
Lemma fetch_tracker env j e f : exists t, trackerOf (IF.fetch sha256 env j e f) j = Some t /\
  (mWaitingEnvelopes t).*2 = (IF.waiting j f).*2 ++ [e] /\
  match trackerOf f j with Some t0 => mTimer t = mTimer t0 | None => is_Some (mTimer t) end.
Proof.
  unfold IF.fetch, IF.waiting. fold (trackerOf f j). destruct (trackerOf f j) as [t0|] eqn:E; rewrite trackerOf_store, Z.eqb_refl.
  - eexists. split; [done|]. cbn. by rewrite fmap_app.
  - eexists. split; [done|]. cbn [snd]. destruct (tryNextPeer_waiting env (TR.listen sha256 e TR.init)) as [-> Ht]. done.
Qed.

Lemma fetch_other env j e f i : i <> j -> trackerOf (IF.fetch sha256 env j e f) i = trackerOf f i.
Proof.
  intros Hne. unfold IF.fetch. destruct (om_find j _); rewrite trackerOf_store; by destruct (Z.eqb_spec j i).
Qed.

Lemma waits_fetch env j e f i e' : waits (IF.fetch sha256 env j e f) i e' <-> waits f i e' \/ i = j /\ e' = e.
Proof.
  destruct (Z.eq_dec i j) as [->|Hne].
  - destruct (fetch_tracker env j e f) as (t & Ht & Hw & _). rewrite (waits_tracker (IF.fetch _ _ _ _ _)).
    unfold waits. assert (forall t', trackerOf (IF.fetch sha256 env j e f) j = Some t' <-> t' = t) as Hu by naive_solver. setoid_rewrite Hu.
    assert (e' ∈ (mWaitingEnvelopes t).*2 <-> e' ∈ (IF.waiting j f).*2 \/ e' = e) as Hiff by (rewrite Hw, elem_of_app, list_elem_of_singleton; done).
    naive_solver.
  - rewrite !waits_tracker, fetch_other by done. naive_solver.
Qed.

(** Items that are not cached are fetched for an envelope. *)
Definition fetched (c : Z -> bool) e : FetchState SCPEnvelope -> FetchState SCPEnvelope -> Prop :=
  rtc (fun a b => exists env i, c i = false /\ b = IF.fetch sha256 env i e a).

Lemma fetched_waits c e f f' i e' : fetched c e f f' -> waits f i e' -> waits f' i e'.
Proof. induction 1 as [|a b f' (env & j & _ & ->) _ IH]; [done|]. intros Hw. apply IH, waits_fetch. by left. Qed.

Lemma fetched_waits_inv c e f f' i e' : fetched c e f f' -> waits f' i e' -> waits f i e' \/ e' = e.
Proof. induction 1 as [|a b f' (env & j & _ & ->) _ IH]; [by left|]. intros [Hw|]%IH; [|by right]. apply waits_fetch in Hw. naive_solver. Qed.

Lemma fetched_cached c e f f' i : fetched c e f f' -> c i = true -> trackerOf f' i = trackerOf f i /\ delivered f' = delivered f.
Proof.
  intros Hf Hc. induction Hf as [|a b f' (env & j & Hj & ->) _ [IH1 IH2]]; [done|]. rewrite IH1, IH2. split.
  - apply fetch_other. intros ->. congruence.
  - unfold IF.fetch. by destruct (om_find j _).
Qed.

Lemma store_sorted j pt f : om_sorted (mTrackers f) -> om_sorted (mTrackers (IF.store j pt f)).
Proof. apply om_set_sorted. Qed.

Lemma fetched_sorted c e f f' : fetched c e f f' -> om_sorted (mTrackers f) -> om_sorted (mTrackers f').
Proof.
  induction 1 as [|a b f' (env & j & _ & ->) _ IH]; [done|]. intros Hs. apply IH. unfold IF.fetch. destruct (om_find j _); by apply store_sorted.
Qed.

(** Every tracker of an item that is not cached goes on asking. *)
Definition asking (c : Z -> bool) f : Prop := forall i t, c i = false -> trackerOf f i = Some t -> is_Some (mTimer t).

Lemma fetched_asking c e f f' : fetched c e f f' -> asking c f -> asking c f'.
Proof.
  induction 1 as [|a b f' (env & j & Hj & ->) _ IH]; [done|]. intros Ha. apply IH. intros i t Hi Ht.
  destruct (Z.eq_dec i j) as [->|Hne]; [|rewrite fetch_other in Ht by done; by eapply Ha].
  destruct (fetch_tracker env j e a) as (t' & Ht' & _ & Htm). rewrite Ht in Ht'. injection Ht' as <-.
  destruct (trackerOf a j) as [t0|] eqn:E0; [rewrite Htm; by eapply Ha|done].
Qed.

End Waiting.

Section Replacing.
Implicit Types (f : FetchState SCPEnvelope) (i j : Z) (e : SCPEnvelope) (env : FetchEnv) (t : Tracker SCPEnvelope).

(** Answers and timers replace a tracker by one with the same envelopes. *)
Definition replaced f f' : Prop := f' = f \/ exists j t p t', trackerOf f j = Some t /\ f' = IF.store j (p, t') f /\
  mWaitingEnvelopes t' = mWaitingEnvelopes t /\ (is_Some (mTimer t) -> is_Some (mTimer t')).

Lemma tryNextPeer_replaced env j t f : trackerOf f j = Some t -> replaced f (IF.store j (TR.tryNextPeer env t) f).
Proof.
  intros Ht. right. destruct (tryNextPeer_waiting env t) as [Hw Htm]. destruct (TR.tryNextPeer env t) as [p t']. by exists j, t, p, t'.
Qed.

Lemma timer_replaced env j f : replaced f (IF.timer env j f).
Proof.
  unfold IF.timer. fold (trackerOf f j). destruct (trackerOf f j) as [t|] eqn:E; [|by left].
  destruct (mTimer t); [by apply tryNextPeer_replaced|by left].
Qed.

Lemma doesntHave_replaced env j p f : replaced f (IF.doesntHave env j p f).
Proof.
  unfold IF.doesntHave, TR.doesntHave. fold (trackerOf f j). destruct (trackerOf f j) as [t|] eqn:E; [|by left].
  case_bool_decide; [by apply tryNextPeer_replaced|]. right. by exists j, t, None, t.
Qed.

Lemma replaced_sorted f f' : replaced f f' -> om_sorted (mTrackers f) -> om_sorted (mTrackers f').
Proof. intros [->|(j & t & p & t' & _ & -> & _)]; [done|]. apply store_sorted. Qed.

Lemma replaced_waits f f' i e : replaced f f' -> waits f' i e <-> waits f i e.
Proof.
  intros [->|(j & t & p & t' & Ht & -> & Hw & _)]; [done|]. rewrite !waits_tracker, trackerOf_store.
  destruct (Z.eqb_spec j i) as [->|]; [|done]. cbn. split; intros (u & Hu & Hin); simplify_eq; [exists t|exists t']; by rewrite ?Hw in *.
Qed.

Lemma replaced_asking c f f' : replaced f f' -> asking c f -> asking c f'.
Proof.
  intros [->|(j & t & p & t' & Ht & -> & _ & Htm)] Ha; [done|]. intros i u Hi. rewrite trackerOf_store.
  destruct (Z.eqb_spec j i) as [->|]; [|by apply Ha]. cbn. intros [= <-]. apply Htm. by apply (Ha i).
Qed.

(** The clean-up of old slots. *)
Lemma stopped_tracker slot f i : om_sorted (mTrackers f) -> let f' := IF.stopFetchingBelowInternal PE.slotOf slot f in
  om_sorted (mTrackers f') /\ trackerOf f' i = (trackerOf f i ≫= fun t => let '(keep, t') := TR.clearEnvelopesBelow PE.slotOf slot t in if (keep : bool) then Some t' else None).
Proof.
  unfold trackerOf. cbn. induction (mTrackers f) as [|[j t] m IH]; intros Hs; [done|]. cbn [omap list_omap fst snd].
  destruct IH as [IH1 IH2]; [apply Hs|]. destruct (TR.clearEnvelopesBelow PE.slotOf slot t) as [keep t'] eqn:E. split.
  - destruct keep; [|done]. split; [|done]. cbn. intros y Hy. destruct Hs as [Hs _]. apply Hs. clear -Hy.
    induction m as [|[j0 t0] m IHm]; [done|]. cbn in *. destruct (TR.clearEnvelopesBelow PE.slotOf slot t0) as [[] t1]; cbn in Hy.
    + apply elem_of_cons in Hy as [->|Hy]; [left|right; by apply IHm].
    + right. by apply IHm.
  - cbn [om_find]. destruct (eqvb i j) eqn:Ei.
    + apply eqvb_eq in Ei as ->. cbn. rewrite E. destruct keep; cbn [om_find]; [by rewrite eqvb_refl|]. rewrite IH2.
      assert (om_find j m = None) as ->; [|done]. apply om_find_None. intros Hin. destruct Hs as [Hs _]. specialize (Hs j Hin). cbn in Hs. by rewrite Z.ltb_irrefl in Hs.
    + destruct keep; cbn [om_find]; [by rewrite Ei|done].
Qed.

Lemma stopped_waits slot f i e : om_sorted (mTrackers f) ->
  waits (IF.stopFetchingBelowInternal PE.slotOf slot f) i e <-> waits f i e /\ slot <= PE.slotOf e.
Proof.
  intros Hs. rewrite !waits_tracker. destruct (stopped_tracker slot f i Hs) as [_ ->]. destruct (trackerOf f i) as [t|]; cbn; [|naive_solver].
  unfold TR.clearEnvelopesBelow. set (w := List.filter _ _).
  assert (e ∈ w.*2 <-> e ∈ (mWaitingEnvelopes t).*2 /\ slot <= PE.slotOf e) as Hw.
  { rewrite !list_elem_of_fmap. unfold w. setoid_rewrite list_elem_of_In. setoid_rewrite filter_In. setoid_rewrite negb_true_iff. setoid_rewrite Z.ltb_ge. naive_solver. }
  destruct w as [|x w'] eqn:Ew.
  - split; [naive_solver|]. intros [(t' & [= <-] & Hin) Hle]. assert (e ∈ []) as Hnil by (apply Hw; done). by apply not_elem_of_nil in Hnil.
  - split; [intros (t' & [= <-] & Hin); apply Hw in Hin as [? ?]; split; [by exists t|done]|].
    intros [(t' & [= <-] & Hin) Hle]. eexists. split; [done|]. cbn [mWaitingEnvelopes]. by apply Hw.
Qed.

Lemma stopped_asking c slot f : om_sorted (mTrackers f) -> asking c f -> asking c (IF.stopFetchingBelowInternal PE.slotOf slot f).
Proof.
  intros Hs Ha i t Hi. destruct (stopped_tracker slot f i Hs) as [_ ->]. destruct (trackerOf f i) as [t0|] eqn:E0; [|done]. cbn.
  unfold TR.clearEnvelopesBelow. destruct (List.filter _ _); [done|]. intros [= <-]. cbn. by apply (Ha i).
Qed.

End Replacing.

(** ** Steps of the herder *)

Section Invariants.
Context {TxSet QSet X : Type} (host : HerderHost TxSet X).
Context (txSetHashOf : list Z -> option Z) (sha256 : SCPEnvelope -> MsgHash) (localNodeID : NodeID) (MANUAL_CLOSE : bool).
Local Abbreviation H := (Herder TxSet QSet X).
Implicit Types (h : H) (e : SCPEnvelope) (env : FetchEnv) (k : ItemKind) (i s slot : Z) (l : list HerderEvent).
Local Abbreviation small := (small (TxSet := TxSet) (QSet := QSet) (X := X) txSetHashOf sha256 localNodeID).

(** The items of an envelope. *)
Definition values e : list (list Z) := SlotOps.getStatementValues (statement e).

Definition decodable e : Prop := forall v, v ∈ values e -> is_Some (txSetHashOf v).

Definition needs e k i : Prop :=
  match k with SCP_QUORUMSET => i = PE.qsetHashOf e | TX_SET => exists v, v ∈ values e /\ txSetHashOf v = Some i end.

(** The items that are asked for: [startFetch] throws at the first value that
    cannot be decoded, and the transaction sets of later values are not
    fetched. *)
Fixpoint wantedSets (vals : list (list Z)) : list Z :=
  match vals with
  | [] => []
  | v :: r => match txSetHashOf v with Some i => i :: wantedSets r | None => [] end
  end.

Definition wanted e k i : Prop := match k with SCP_QUORUMSET => i = PE.qsetHashOf e | TX_SET => i ∈ wantedSets (values e) end.

(** All items, if the values can be decoded. *)
Lemma wanted_all e k i : decodable e -> needs e k i -> wanted e k i.
Proof.
  intros Hd. destruct k; [|done]. intros (v & Hv & Hi). unfold decodable, wanted in *. induction (values e) as [|u l IH]; [by apply not_elem_of_nil in Hv|].
  cbn. destruct (Hd u) as (j & Hj); [left|]. rewrite Hj. apply elem_of_cons in Hv as [->|Hv]; [assert (i = j) as -> by congruence; left|right].
  apply IH; [|done]. intros u' Hu'. apply Hd. by right.
Qed.

Lemma fetchValues_spec env e vals : forall ret h, exists r f, PE.fetchValues txSetHashOf sha256 env e vals ret h = (r, setTxSetFetcher f h) /\
  fetched sha256 (cached TX_SET h) e (mTxSetFetcher h) f /\
  (forall i, i ∈ wantedSets vals -> cached TX_SET h i = true \/ waits f i e).
Proof.
  induction vals as [|v vals IH]; intros ret h; cbn [PE.fetchValues wantedSets].
  - exists (Some ret), (mTxSetFetcher h). split; [f_equal; by destruct h|]. split; [apply rtc_refl|]. by intros i ?%not_elem_of_nil.
  - destruct (txSetHashOf v) as [th|] eqn:Ev.
    + destruct (LruCache.exists_ (mTxSetCache h) th) eqn:Ec.
      * destruct (IH ret h) as (r & f & -> & Hf & Hw). exists r, f. split; [done|]. split; [done|]. intros i [->|Hi]%elem_of_cons; [by left|by apply Hw].
      * set (h1 := setTxSetFetcher _ h). destruct (IH false h1) as (r & f & -> & Hf & Hw). exists r, f. split; [done|]. split.
        { eapply rtc_l; [|exact Hf]. by exists env, th. }
        intros i [->|Hi]%elem_of_cons; [|by apply Hw]. right. eapply fetched_waits; [exact Hf|]. apply waits_fetch. by right.
    + exists None, (mTxSetFetcher h). split; [f_equal; by destruct h|]. split; [apply rtc_refl|]. by intros i ?%not_elem_of_nil.
Qed.

Definition addFetching e h : H := PE.setFetching (om_set (PE.slotOf e) (fetching h (PE.slotOf e) ++ [e]) (mFetchingEnvelopes (hQueues h))) h.

Lemma started_spec env e h : exists r f g, started txSetHashOf sha256 env e h = (r, setTxSetFetcher f (setQuorumSetFetcher g (addFetching e h))) /\
  fetched sha256 (cached TX_SET h) e (mTxSetFetcher h) f /\ fetched sha256 (cached SCP_QUORUMSET h) e (mQuorumSetFetcher h) g /\
  (forall k i, wanted e k i -> cached k h i = true \/ waits (match k with TX_SET => f | SCP_QUORUMSET => g end) i e).
Proof.
  unfold started. change (PE.setFetching _ h) with (addFetching e h). unfold PE.startFetch. set (h1 := addFetching e h). destruct (LruCache.exists_ _ _) eqn:Ec.
  - destruct (fetchValues_spec env e (values e) true h1) as (r & f & Er & Hf & Hw). exists r, f, (mQuorumSetFetcher h).
    split; [unfold values in Er; rewrite Er; by destruct h|]. split; [done|]. split; [apply rtc_refl|].
    intros [|] i; [apply Hw|]. intros ->. by left.
  - set (h2 := setQuorumSetFetcher _ _). destruct (fetchValues_spec env e (values e) false h2) as (r & f & Er & Hf & Hw).
    exists r, f, (mQuorumSetFetcher h2). split; [unfold values in Er; rewrite Er; done|]. split; [done|]. split.
    { apply rtc_once. exists env, (PE.qsetHashOf e). done. }
    intros [|] i; [apply Hw|]. intros ->. right. apply waits_fetch. by right.
Qed.

Lemma lru_get_exists `{Ord K} {V} (c : list (K * V)) a b v c' : LruCache.get a c = Some (v, c') -> LruCache.exists_ c' b = LruCache.exists_ c b.
Proof. intros Hg. apply lru_get_spec in Hg as [_ Hg]. unfold LruCache.exists_. by rewrite Hg. Qed.

Lemma getTxSet_cached i h k j : cached k (PE.getTxSet i h).2 j = cached k h j /\ fetcher k (PE.getTxSet i h).2 = fetcher k h.
Proof. unfold PE.getTxSet. destruct (LruCache.get i _) as [[v c]|] eqn:E; [|done]. destruct k; [|done]. by apply (lru_get_exists _ _ j) in E. Qed.

Lemma getQSet_cached i h k j : cached k (PE.getQSet i h).2 j = cached k h j /\ fetcher k (PE.getQSet i h).2 = fetcher k h.
Proof. unfold PE.getQSet. destruct (LruCache.get i _) as [[v c]|] eqn:E; [|done]. destruct k; [done|]. by apply (lru_get_exists _ _ j) in E. Qed.

Lemma slotClosed_frame slot h k : fetcher k (PE.slotClosed slot h) = fetcher k h /\ forall j, cached k (PE.slotClosed slot h) j = cached k h j.
Proof. unfold PE.slotClosed. destruct (slot >? _); [|done]. by destruct k. Qed.

(** What is cached stays cached, and is not asked for. *)
Lemma small_keeps h h' k i : small h h' -> cached k h i = true ->
  cached k h' i = true /\ trackerOf (fetcher k h') i = trackerOf (fetcher k h) i /\ delivered (fetcher k h') = delivered (fetcher k h).
Proof.
  intros Hsm Hc. destruct Hsm as [c h|x h|t l h|s h|j h|j h|slot e h h1 Hp|slot h|slot h|e h _ _|env e h _ _ _ _].
  1-4: by destruct k.
  - by destruct (getTxSet_cached j h k i) as [-> ->].
  - by destruct (getQSet_cached j h k i) as [-> ->].
  - unfold PE.pop in Hp. destruct (PE.popFrom slot _) as [[e' m']|]; [|done]. injection Hp as -> <-. by destruct k.
  - by destruct k.
  - destruct (slotClosed_frame slot h k) as [-> ->]. done.
  - by destruct k.
  - destruct (started_spec env e h) as (r & f & g & -> & Hf & Hg & _). destruct k; cbn in *.
    + split; [done|]. by apply (fetched_cached _ _ _ _ _ _ Hf).
    + split; [done|]. by apply (fetched_cached _ _ _ _ _ _ Hg).
Qed.

Lemma smalls_keeps h h' k i : rtc small h h' -> cached k h i = true ->
  cached k h' i = true /\ trackerOf (fetcher k h') i = trackerOf (fetcher k h) i.
Proof.
  induction 1 as [|h h1 h' Hs _ IH]; [done|]. intros Hc. destruct (small_keeps _ _ _ _ Hs Hc) as (Hc1 & Ht1 & _).
  destruct (IH Hc1) as [? ->]. done.
Qed.

(** The other steps. *)
Inductive big : H -> H -> Prop :=
| big_small h h' : small h h' -> big h h'
| big_received e h : big h (logged (HReceived e) h)
| big_txset i v h : big h (logged (HItem TX_SET i) (setTxSetCache (LruCache.put TXSET_CACHE_SIZE i v (mTxSetCache h)) h))
| big_qset i v h : big h (logged (HItem SCP_QUORUMSET i) (setQsetCache (LruCache.put QSET_CACHE_SIZE i v (mQsetCache h)) h))
| big_take k i t x r h : trackerOf (fetcher k h) i = Some t -> rev (mWaitingEnvelopes t) = x :: r -> cached k h i = true ->
    big h (setFetcher k (Build_FetchState (om_set i (Build_Tracker (mLastAskedPeer t) (mNumListRebuild t) (mPeersToAsk t) (mTimer t) (mIsStopped t) (rev r)) (mTrackers (fetcher k h)))
      (asked (fetcher k h)) (delivered (fetcher k h) ++ [x.2])) h)
| big_cancel k i t h : trackerOf (fetcher k h) i = Some t -> cached k h i = true -> big h (setFetcher k (IF.store i (None, TR.cancel t) (fetcher k h)) h)
| big_doesntHave env k i p h : big h (PE.peerDoesntHave env k i p h)
| big_timer env k i h : big h (setFetcher k (IF.timer env i (fetcher k h)) h)
| big_post k slot r h : hPosts h = (k, slot) :: r ->
    big h (logged (HStopped k slot) (setHPosts r (setFetcher k (IF.stopFetchingBelowInternal PE.slotOf slot (fetcher k h)) h))).

(** Only envelopes that a peer has sent wait for items. *)
Definition heard h : Prop := (forall k, om_sorted (mTrackers (fetcher k h))) /\ forall k i e, waits (fetcher k h) i e -> HReceived e ∈ hLog h.

Lemma fetcher_set k k' f h : fetcher k (setFetcher k' f h) = if decide (k = k') then f else fetcher k h.
Proof. by destruct k, k'. Qed.

Lemma cached_set k k' f h i : cached k (setFetcher k' f h) i = cached k h i.
Proof. by destruct k, k'. Qed.

Lemma waits_take f i t x r e j : trackerOf f i = Some t -> rev (mWaitingEnvelopes t) = x :: r ->
  waits (Build_FetchState (om_set i (Build_Tracker (mLastAskedPeer t) (mNumListRebuild t) (mPeersToAsk t) (mTimer t) (mIsStopped t) (rev r)) (mTrackers f)) (asked f) (delivered f ++ [x.2])) j e ->
  waits f j e.
Proof.
  intros Ht Er. rewrite !waits_tracker. unfold trackerOf in *. cbn. rewrite om_find_set. destruct (eqvb i j) eqn:E; [|done]. apply eqvb_eq in E as <-.
  intros (t' & [= <-] & Hin). exists t. split; [done|]. cbn in Hin. rewrite <- (rev_involutive (mWaitingEnvelopes t)), Er. cbn.
  rewrite fmap_app, elem_of_app. by left.
Qed.

(** ** A complete and justified log *)

Definition justified l e : Prop :=
  HReceived e ∈ l /\ nodeID (statement e) <> localNodeID /\ decodable e /\ forall k i, needs e k i -> HItem k i ∈ l.

Lemma justified_app l l' e : justified l e -> justified (l ++ l') e.
Proof. intros (H1 & H2 & H3 & H4). split_and!; [apply elem_of_app; by left|done|done|]. intros k i Hi. apply elem_of_app. left. by apply H4. Qed.

(** How often an envelope was handed over since its slot was forgotten. *)
Definition handedStep e (n : nat) (ev : HerderEvent) : nat :=
  match ev with
  | HScp e' => if bool_decide (e' = e) then S n else n
  | HForgot s => if s =? PE.slotOf e then 0%nat else n
  | _ => n
  end.

Definition handed l e : nat := fold_left (handedStep e) l 0%nat.

Lemma handed_snoc l ev e : handed (l ++ [ev]) e = handedStep e (handed l e) ev.
Proof. unfold handed. by rewrite fold_left_app. Qed.

Definition occurs e (v : list SCPEnvelope) : nat := length (List.filter (fun e' => bool_decide (e' = e)) v).

Lemma occurs_app e v v' : occurs e (v ++ v') = (occurs e v + occurs e v')%nat.
Proof. unfold occurs. by rewrite List.filter_app, length_app. Qed.

Lemma occurs_one e e' : occurs e [e'] = if bool_decide (e' = e) then 1%nat else 0%nat.
Proof. unfold occurs. cbn. by case_bool_decide. Qed.

Lemma occurs_zero e v : e ∉ v <-> occurs e v = 0%nat.
Proof.
  induction v as [|e' v IH]; [split; [done|]; intros _; apply not_elem_of_nil|]. unfold occurs in *. cbn. rewrite not_elem_of_cons.
  case_bool_decide; cbn; [naive_solver|]. rewrite IH. naive_solver.
Qed.

Record safe h : Prop := {
  sf_sorted : om_sorted (mFetchingEnvelopes (hQueues h)) /\ sortedPending h;
  sf_cached : forall k i, cached k h i = true -> HItem k i ∈ hLog h;
  sf_heard : heard h;
  sf_fetching : forall s e, e ∈ fetching h s -> PE.slotOf e = s /\ HReceived e ∈ hLog h /\ nodeID (statement e) <> localNodeID /\ e ∉ processed h s;
  sf_processed : forall s e, e ∈ processed h s -> PE.slotOf e = s /\ justified (hLog h) e;
  sf_pend : forall s e, e ∈ pend h s -> e ∈ processed h s;
  sf_once : forall e, (occurs e (pend h (PE.slotOf e)) + handed (hLog h) e <= 1)%nat;
  sf_fresh : forall e, e ∉ processed h (PE.slotOf e) -> handed (hLog h) e = 0%nat;
  sf_log : forall l1 e l2, hLog h = l1 ++ HScp e :: l2 -> justified l1 e /\ handed l1 e = 0%nat;
}.

(** Events that say nothing about handing over. *)
Definition neutral (ev : HerderEvent) : bool := match ev with HScp _ | HForgot _ => false | _ => true end.

Lemma log_snoc_scp l ev l1 e l2 : l ++ [ev] = l1 ++ HScp e :: l2 -> (l = l1 /\ ev = HScp e) \/ exists l2', l = l1 ++ HScp e :: l2'.
Proof.
  intros Hl. destruct l2 as [|x l2' _] using rev_ind.
  - left. by apply app_inj_tail in Hl.
  - right. exists l2'. rewrite app_comm_cons, app_assoc in Hl. apply app_inj_tail in Hl as [-> _]. done.
Qed.

(** Steps that leave the queues alone and may log a neutral event. *)
Lemma safe_frame h h' l : hQueues h' = hQueues h -> hLog h' = hLog h ++ l -> l = [] \/ (exists ev, l = [ev] /\ neutral ev = true) ->
  (forall k i, cached k h' i = true -> cached k h i = true \/ HItem k i ∈ l) -> heard h' -> safe h -> safe h'.
Proof.
  intros Hq Hl Hn Hc Hh Hs. assert (forall s, pend h' s = pend h s /\ fetching h' s = fetching h s /\ processed h' s = processed h s) as Hsame
    by (intros s; unfold pend, fetching, processed; by rewrite Hq).
  assert (forall e, handed (hLog h') e = handed (hLog h) e) as Hhand.
  { intros e. rewrite Hl. destruct Hn as [->|(ev & -> & Hn)]; [by rewrite app_nil_r|]. rewrite handed_snoc. by destruct ev. }
  split.
  - unfold sortedPending. rewrite Hq. apply Hs.
  - intros k i Hi. rewrite Hl, elem_of_app. apply Hc in Hi as [Hi|]; [|by right]. left. by apply (sf_cached _ Hs).
  - done.
  - intros s e. destruct (Hsame s) as (_ & -> & ->). intros He. destruct (sf_fetching _ Hs _ _ He) as (H1 & H2 & H3 & H4).
    split_and!; try done. rewrite Hl. apply elem_of_app. by left.
  - intros s e. destruct (Hsame s) as (_ & _ & ->). intros He. destruct (sf_processed _ Hs _ _ He) as (H1 & H2). split; [done|].
    rewrite Hl. by apply justified_app.
  - intros s e. destruct (Hsame s) as (-> & _ & ->). apply Hs.
  - intros e. rewrite Hhand. destruct (Hsame (PE.slotOf e)) as (-> & _). apply Hs.
  - intros e. rewrite Hhand. destruct (Hsame (PE.slotOf e)) as (_ & _ & ->). apply Hs.
  - intros l1 e l2. rewrite Hl. destruct Hn as [->|(ev & -> & Hn)]; [rewrite app_nil_r; apply Hs|].
    intros [[_ ->]|(l2' & Hl1)]%log_snoc_scp; [done|]. by eapply (sf_log _ Hs).
Qed.

Lemma heard_frame h h' l : (forall k, fetcher k h' = fetcher k h) -> hLog h' = hLog h ++ l -> heard h -> heard h'.
Proof.
  intros Hf Hl [Hs Hh]. split; [intros k; by rewrite Hf|]. intros k i e. rewrite Hf, Hl, elem_of_app. intros Hw. left. by eapply Hh.
Qed.

Lemma valuesFetched_spec vals h : PE.valuesFetched txSetHashOf vals h = Some true ->
  forall v, v ∈ vals -> exists i, txSetHashOf v = Some i /\ cached TX_SET h i = true.
Proof.
  induction vals as [|v vals IH]; cbn; [by intros _ v ?%not_elem_of_nil|]. destruct (txSetHashOf v) as [th|] eqn:Ev; [|done].
  destruct (LruCache.exists_ _ th) eqn:Ec; [|done]. cbn. intros Hr v' [->|Hv]%elem_of_cons; [by exists th|by apply IH].
Qed.

Lemma fullyFetched_spec e h : PE.isFullyFetched txSetHashOf e h = Some true -> decodable e /\ forall k i, needs e k i -> cached k h i = true.
Proof.
  unfold PE.isFullyFetched. destruct (LruCache.exists_ _ _) eqn:Eq; [|done]. cbn [negb]. intros Hv. pose proof (valuesFetched_spec _ _ Hv) as Hvs. split.
  - intros v Hin. destruct (Hvs v Hin) as (i & -> & _). done.
  - intros [|] i; cbn.
    + intros (v & Hin & Hi). destruct (Hvs v Hin) as (j & Hj & Hc). cbn in Hc. congruence.
    + by intros ->.
Qed.

Lemma safe_scp slot e h h' : PE.pop slot h = Some (e, h') -> safe h -> safe (logged (HScp e) h').
Proof.
  intros Hp Hs. pose proof (popFrom_spec slot _ (proj2 (sf_sorted _ Hs))) as Hpf. unfold PE.pop in Hp.
  destruct (PE.popFrom slot _) as [[e' m']|]; [|done]. injection Hp as -> <-. destruct Hpf as (Hsm & _ & _ & s & _ & Hps & Hother).
  fold (pend h s) in Hps. assert (forall s', s' <> s -> envsAt m' s' = pend h s') as Ho by done. clear Hother.
  assert (e ∈ processed h s) as Hpr by (apply (sf_pend _ Hs); rewrite Hps; apply elem_of_app; right; by apply list_elem_of_singleton).
  destruct (sf_processed _ Hs _ _ Hpr) as [<- Hj].
  assert (handed (hLog h) e = 0%nat) as H0 by (pose proof (sf_once _ Hs e) as Ho1; rewrite Hps, occurs_app, occurs_one, bool_decide_eq_true_2 in Ho1 by done; lia).
  set (h1 := logged (HScp e) (PE.setPending m' h)). assert (hLog h1 = hLog h ++ [HScp e]) as Hlog by done.
  assert (forall s', pend h1 s' = envsAt m' s' /\ fetching h1 s' = fetching h s' /\ processed h1 s' = processed h s') as Hsame by done.
  split.
  - split; [apply Hs|done].
  - intros k i Hi. apply elem_of_app. left. apply (sf_cached _ Hs). by destruct k.
  - apply (heard_frame h h1 [HScp e]); [by intros []|done|apply Hs].
  - intros s e1 He1. destruct (sf_fetching _ Hs _ _ He1) as (H1 & H2 & H3 & H4). split_and!; try done. apply elem_of_app. by left.
  - intros s e1 He1. destruct (sf_processed _ Hs _ _ He1). split; [done|]. by apply justified_app.
  - intros s e1. destruct (Hsame s) as (-> & _ & ->). intros He1. apply (sf_pend _ Hs). destruct (Z.eq_dec s (PE.slotOf e)) as [->|Hne]; [|by rewrite <- Ho].
    rewrite Hps. apply elem_of_app. by left.
  - intros e1. destruct (Hsame (PE.slotOf e1)) as (-> & _). rewrite Hlog, handed_snoc. cbn [handedStep]. pose proof (sf_once _ Hs e1) as Ho1.
    destruct (Z.eq_dec (PE.slotOf e1) (PE.slotOf e)) as [Heq|Hne].
    + rewrite Heq, Hps, occurs_app, occurs_one in Ho1. rewrite Heq. destruct (bool_decide (e = e1)); lia.
    + rewrite Ho by done. case_bool_decide; [congruence|]. done.
  - intros e1 Hn. rewrite Hlog, handed_snoc. cbn [handedStep]. case_bool_decide as E; [|by apply (sf_fresh _ Hs)]. subst e1. by destruct Hn.
  - intros l1 e1 l2 [[<- [= <-]]|(l2' & Hl)]%log_snoc_scp; [done|]. by eapply (sf_log _ Hs).
Qed.

Lemma safe_eraseBelow slot h : safe h -> safe (PE.eraseBelow slot h).
Proof.
  intros Hs. set (h1 := PE.eraseBelow slot h).
  destruct (eraseMapBelow_spec slot _ (proj1 (sf_sorted _ Hs))) as [Hsf Hf]. destruct (eraseMapBelow_spec slot _ (proj2 (sf_sorted _ Hs))) as [Hsp Hp].
  assert (forall s, pend h1 s = (if s <? slot then [] else pend h s) /\ fetching h1 s = (if s <? slot then [] else fetching h s)) as Hsame
    by (intros s; split; [apply Hp|apply Hf]).
  split.
  - by split.
  - intros k i Hi. apply (sf_cached _ Hs). by destruct k.
  - apply (heard_frame h h1 []); [by intros []|by rewrite app_nil_r|apply Hs].
  - intros s e. destruct (Hsame s) as [_ ->]. destruct (s <? slot); [by intros ?%not_elem_of_nil|apply Hs].
  - apply Hs.
  - intros s e. destruct (Hsame s) as [-> _]. destruct (s <? slot); [by intros ?%not_elem_of_nil|apply Hs].
  - intros e. destruct (Hsame (PE.slotOf e)) as [-> _]. pose proof (sf_once _ Hs e). destruct (_ <? slot); [|done].
    change (hLog h1) with (hLog h). cbn. lia.
  - apply Hs.
  - apply Hs.
Qed.

Lemma safe_slotClosed slot h : safe h -> safe (PE.slotClosed slot h).
Proof.
  intros Hs. unfold PE.slotClosed. destruct (slot >? _); [|done]. set (s0 := slot - MAX_SLOTS_TO_REMEMBER). set (h1 := logged _ _).
  assert (hLog h1 = hLog h ++ [HForgot s0]) as Hlog by done.
  assert (forall s, pend h1 s = (if s0 =? s then [] else pend h s) /\ fetching h1 s = (if s0 =? s then [] else fetching h s) /\
    processed h1 s = (if s0 =? s then [] else processed h s)) as Hsame by (intros s; split_and!; apply envsAt_erase).
  split.
  - split; apply om_erase_sorted, Hs.
  - intros k i Hi. apply elem_of_app. left. apply (sf_cached _ Hs). by destruct k.
  - apply (heard_frame h h1 [HForgot s0]); [by intros []|done|apply Hs].
  - intros s e. destruct (Hsame s) as (_ & -> & ->). destruct (s0 =? s); [by intros ?%not_elem_of_nil|]. intros He.
    destruct (sf_fetching _ Hs _ _ He) as (H1 & H2 & H3 & H4). split_and!; try done. apply elem_of_app. by left.
  - intros s e. destruct (Hsame s) as (_ & _ & ->). destruct (s0 =? s); [by intros ?%not_elem_of_nil|]. intros He.
    destruct (sf_processed _ Hs _ _ He). split; [done|]. by apply justified_app.
  - intros s e. destruct (Hsame s) as (-> & _ & ->). destruct (s0 =? s); [by intros ?%not_elem_of_nil|apply Hs].
  - intros e. destruct (Hsame (PE.slotOf e)) as (-> & _). rewrite Hlog, handed_snoc. cbn [handedStep]. pose proof (sf_once _ Hs e).
    destruct (s0 =? PE.slotOf e); [cbn; lia|done].
  - intros e. destruct (Hsame (PE.slotOf e)) as (_ & _ & ->). rewrite Hlog, handed_snoc. cbn [handedStep]. destruct (s0 =? PE.slotOf e); [done|apply Hs].
  - intros l1 e l2 [[_ [=]]|(l2' & Hl)]%log_snoc_scp. by eapply (sf_log _ Hs).
Qed.

Lemma ready_at e h s : pend (ready e h) s = (if PE.slotOf e =? s then pend h (PE.slotOf e) ++ [e] else pend h s) /\
  fetching (ready e h) s = (if PE.slotOf e =? s then List.filter (fun e' => negb (bool_decide (e' = e))) (fetching h (PE.slotOf e)) else fetching h s) /\
  processed (ready e h) s = (if PE.slotOf e =? s then processed h (PE.slotOf e) ++ [e] else processed h s).
Proof. split_and!; apply envsAt_set. Qed.

Lemma safe_ready e h : e ∈ fetching h (PE.slotOf e) -> PE.isFullyFetched txSetHashOf e h = Some true -> safe h -> safe (ready e h).
Proof.
  intros Hin Hff Hs. destruct (sf_fetching _ Hs _ _ Hin) as (_ & Hrec & Hself & Hnp). apply fullyFetched_spec in Hff as [Hdec Hneeds].
  assert (justified (hLog h) e) as Hj by (split_and!; try done; intros k i Hi; by apply (sf_cached _ Hs), Hneeds).
  assert (occurs e (pend h (PE.slotOf e)) = 0%nat) as Hp0 by (apply occurs_zero; by intros ?%(sf_pend _ Hs)).
  assert (hLog (ready e h) = hLog h ++ [HFlood e]) as Hlog by done.
  assert (forall e1, handed (hLog (ready e h)) e1 = handed (hLog h) e1) as Hhand by (intros e1; by rewrite Hlog, handed_snoc).
  split.
  - split; apply om_set_sorted, Hs.
  - intros k i Hi. rewrite Hlog. apply elem_of_app. left. apply (sf_cached _ Hs). by destruct k.
  - apply (heard_frame h _ [HFlood e]); [by intros []|done|apply Hs].
  - intros s e1. destruct (ready_at e h s) as (_ & -> & ->). rewrite Hlog, elem_of_app. destruct (Z.eqb_spec (PE.slotOf e) s) as [<-|Hne].
    + intros [He1 Hn%negb_true_iff]%list_elem_of_In%filter_In. apply bool_decide_eq_false in Hn. apply list_elem_of_In in He1.
      destruct (sf_fetching _ Hs _ _ He1) as (H1 & H2 & H3 & H4). split_and!; [done|by left|done|].
      rewrite elem_of_app, list_elem_of_singleton. by intros [|].
    + intros He1. destruct (sf_fetching _ Hs _ _ He1) as (H1 & H2 & H3 & H4). split_and!; [done|by left|done|done].
  - intros s e1. destruct (ready_at e h s) as (_ & _ & ->). rewrite Hlog. intros He1. assert (PE.slotOf e1 = s /\ justified (hLog h) e1) as [? ?].
    { destruct (Z.eqb_spec (PE.slotOf e) s) as [<-|Hne]; [|by apply (sf_processed _ Hs)].
      apply elem_of_app in He1 as [He1| ->%list_elem_of_singleton]; [by apply (sf_processed _ Hs)|done]. }
    split; [done|by apply justified_app].
  - intros s e1. destruct (ready_at e h s) as (-> & _ & ->). destruct (PE.slotOf e =? s); [|apply Hs]. rewrite !elem_of_app.
    intros [He1|He1]; [left; by apply (sf_pend _ Hs)|by right].
  - intros e1. rewrite Hhand. destruct (ready_at e h (PE.slotOf e1)) as (-> & _). pose proof (sf_once _ Hs e1) as Ho1.
    destruct (Z.eqb_spec (PE.slotOf e) (PE.slotOf e1)) as [Heq|Hne]; [|done]. rewrite occurs_app, occurs_one. case_bool_decide as E.
    + subst e1. rewrite Hp0, (sf_fresh _ Hs) by done. lia.
    + rewrite Heq. lia.
  - intros e1 Hn. rewrite Hhand. apply (sf_fresh _ Hs). intros He1. apply Hn. destruct (ready_at e h (PE.slotOf e1)) as (_ & _ & ->).
    destruct (Z.eqb_spec (PE.slotOf e) (PE.slotOf e1)) as [Heq|Hne]; [|done]. rewrite Heq. apply elem_of_app. by left.
  - intros l1 e1 l2. rewrite Hlog. intros [[_ [=]]|(l2' & Hl)]%log_snoc_scp. by eapply (sf_log _ Hs).
Qed.

Lemma safe_start env e h : HReceived e ∈ hLog h -> nodeID (statement e) <> localNodeID -> e ∉ processed h (PE.slotOf e) -> safe h ->
  safe (started txSetHashOf sha256 env e h).2.
Proof.
  intros Hrec Hself Hnp Hs. destruct (started_spec env e h) as (r & f & g & -> & Hf & Hg & _). cbn [snd]. set (h1 := setTxSetFetcher _ _).
  assert (forall s, fetching h1 s = if PE.slotOf e =? s then fetching h (PE.slotOf e) ++ [e] else fetching h s) as Hfe by (intros s; apply envsAt_set).
  split; [split; [apply om_set_sorted, Hs|apply Hs]|by intros k i Hi; apply (sf_cached _ Hs); destruct k| | |apply Hs..].
  - split; [intros []; [apply (fetched_sorted _ _ _ _ _ Hf), (proj1 (sf_heard _ Hs) TX_SET)|apply (fetched_sorted _ _ _ _ _ Hg), (proj1 (sf_heard _ Hs) SCP_QUORUMSET)]|].
    intros k i e1 Hw. change (hLog h1) with (hLog h). destruct k; [eapply fetched_waits_inv in Hw; [|exact Hf]|eapply fetched_waits_inv in Hw; [|exact Hg]].
    + destruct Hw as [Hw| ->]; [by apply (proj2 (sf_heard _ Hs) TX_SET i)|done].
    + destruct Hw as [Hw| ->]; [by apply (proj2 (sf_heard _ Hs) SCP_QUORUMSET i)|done].
  - intros s e1. rewrite Hfe. change (hLog h1) with (hLog h). change (processed h1 s) with (processed h s).
    destruct (Z.eqb_spec (PE.slotOf e) s) as [<-|Hne]; [|apply Hs]. intros [He1| ->%list_elem_of_singleton]%elem_of_app; [by apply (sf_fetching _ Hs)|done].
Qed.

Lemma safe_small h h' : small h h' -> safe h -> safe h'.
Proof.
  intros Hsm Hs. destruct Hsm as [c h|x h|t l h|s h|j h|j h|slot e h h1 Hp|slot h|slot h|e h Hin Hff|env e h Hrec Hself Hnf Hnp].
  1-3: apply (safe_frame h _ []); [done|by rewrite app_nil_r|by left|by intros k i Hi; left; destruct k| |done];
    apply (heard_frame h _ []); [by intros []|by rewrite app_nil_r|apply Hs].
  - apply (safe_frame h _ [HExternalized s]); [done|done|right; by eexists|by intros k i Hi; left; destruct k| |done].
    apply (heard_frame h _ [HExternalized s]); [by intros []|done|apply Hs].
  - assert (hQueues (PE.getTxSet j h).2 = hQueues h /\ hLog (PE.getTxSet j h).2 = hLog h) as [Hq Hl] by (unfold PE.getTxSet; by destruct (LruCache.get _ _) as [[v c]|]).
    apply (safe_frame h _ []); [done|by rewrite app_nil_r|by left|intros k i; destruct (getTxSet_cached j h k i) as [-> _]; by left| |done].
    apply (heard_frame h _ []); [intros k; by apply (getTxSet_cached j h k 0)|by rewrite app_nil_r|apply Hs].
  - assert (hQueues (PE.getQSet j h).2 = hQueues h /\ hLog (PE.getQSet j h).2 = hLog h) as [Hq Hl] by (unfold PE.getQSet; by destruct (LruCache.get _ _) as [[v c]|]).
    apply (safe_frame h _ []); [done|by rewrite app_nil_r|by left|intros k i; destruct (getQSet_cached j h k i) as [-> _]; by left| |done].
    apply (heard_frame h _ []); [intros k; by apply (getQSet_cached j h k 0)|by rewrite app_nil_r|apply Hs].
  - by eapply safe_scp.
  - by apply safe_eraseBelow.
  - by apply safe_slotClosed.
  - by apply safe_ready.
  - by apply safe_start.
Qed.

(** A change of one fetcher. *)
Lemma safe_fetcher k f h : om_sorted (mTrackers f) -> (forall i e, waits f i e -> waits (fetcher k h) i e) -> safe h -> safe (setFetcher k f h).
Proof.
  intros Hf Hw Hs. apply (safe_frame h _ []); [by destruct k|destruct k; by rewrite app_nil_r|by left|intros k' i; rewrite cached_set; by left| |done].
  destruct (sf_heard _ Hs) as [Hso Hh]. split.
  - intros k'. rewrite fetcher_set. destruct (decide (k' = k)); [done|apply Hso].
  - intros k' i e. rewrite fetcher_set. replace (hLog (setFetcher k f h)) with (hLog h) by by destruct k.
    destruct (decide (k' = k)) as [->|]; [intros ?%Hw; by eapply Hh|by apply Hh].
Qed.

Lemma put_exists `{Ord K} {V} n (a b : K) (v : V) c : LruCache.exists_ (LruCache.put n a v c) b = true -> LruCache.exists_ c b = true \/ a = b.
Proof.
  unfold LruCache.exists_. destruct (LruCache.find (LruCache.put n a v c) b) as [w|] eqn:E; [|done]. intros _. apply lru_find_put in E.
  destruct (eqvb a b) eqn:Eab; [right; by apply eqvb_eq|]. left. by rewrite E.
Qed.

(** The arrival of an item. *)
Lemma safe_item k i h h' : hQueues h' = hQueues h -> hLog h' = hLog h ++ [HItem k i] -> (forall k', fetcher k' h' = fetcher k' h) ->
  (forall k' j, cached k' h' j = true -> cached k' h j = true \/ (k', j) = (k, i)) -> safe h -> safe h'.
Proof.
  intros Hq Hl Hf Hc Hs. apply (safe_frame h h' [HItem k i]); [done|done|right; by eexists| |by apply (heard_frame h h' [HItem k i]), Hs|done].
  intros k' j Hj. apply Hc in Hj as [Hj|[= -> ->]]; [by left|]. right. by apply list_elem_of_singleton.
Qed.

Lemma safe_big h h' : big h h' -> safe h -> safe h'.
Proof.
  intros Hb Hs. destruct Hb as [h h' Hsm|e h|i v h|i v h|k i t x r h Ht Er Hc|k i t h Ht Hc|env k i p h|env k i h|k slot r h Hpo].
  - by eapply safe_small.
  - apply (safe_frame h _ [HReceived e]); [done|done|right; by eexists|by intros k i Hi; left; destruct k| |done].
    apply (heard_frame h _ [HReceived e]); [by intros []|done|apply Hs].
  - apply (safe_item TX_SET i h); [done|done|by intros []| |done]. intros [|] j; [|by left]. cbn. intros [?| ->]%put_exists; [by left|by right].
  - apply (safe_item SCP_QUORUMSET i h); [done|done|by intros []| |done]. intros [|] j; [by left|]. cbn. intros [?| ->]%put_exists; [by left|by right].
  - apply safe_fetcher; [apply om_set_sorted, (sf_heard _ Hs)| |done]. intros j e. by apply waits_take.
  - apply safe_fetcher; [apply store_sorted, (sf_heard _ Hs)| |done]. intros j e. rewrite !waits_tracker, trackerOf_store.
    destruct (Z.eqb_spec i j) as [->|]; [|done]. intros (t' & [= <-] & Hin). exists t. done.
  - pose proof (doesntHave_replaced env i p (fetcher k h)) as Hr. apply safe_fetcher; [by eapply replaced_sorted, (sf_heard _ Hs)| |done].
    intros j e Hw. exact (proj1 (replaced_waits _ _ j e Hr) Hw).
  - pose proof (timer_replaced env i (fetcher k h)) as Hr. apply safe_fetcher; [by eapply replaced_sorted, (sf_heard _ Hs)| |done].
    intros j e Hw. exact (proj1 (replaced_waits _ _ j e Hr) Hw).
  - set (f := IF.stopFetchingBelowInternal _ _ _). pose proof (proj1 (sf_heard _ Hs) k) as Hso.
    assert (safe (setFetcher k f h)) as Hs1.
    { apply safe_fetcher; [by apply (stopped_tracker slot (fetcher k h) 0)| |done]. intros j e Hw. exact (proj1 (proj1 (stopped_waits slot (fetcher k h) j e Hso) Hw)). }
    apply (safe_frame (setFetcher k f h) _ [HStopped k slot]); [done|by destruct k|right; by eexists|by intros k' j Hj; left; destruct k'| |done].
    apply (heard_frame (setFetcher k f h) _ [HStopped k slot]); [by intros []|by destruct k|apply Hs1].
Qed.

Lemma smalls_bigs h h' : rtc small h h' -> rtc big h h'.
Proof. induction 1 as [|h h1 h' Hs _ IH]; [apply rtc_refl|]. eapply rtc_l; [by apply big_small|done]. Qed.

Lemma safe_bigs h h' : rtc big h h' -> safe h -> safe h'.
Proof. induction 1 as [|h h1 h' Hb _ IH]; [done|]. intros Hs. apply IH. by eapply safe_big. Qed.

(** ** Every input is handled *)

Local Abbreviation recvE env := (PE.recvSCPEnvelope host txSetHashOf sha256 localNodeID MANUAL_CLOSE env).

Lemma settled_fetcher k f h : settled h -> settled (setFetcher k f h).
Proof. intros Hset. by destruct k; apply (settled_frame h). Qed.

Lemma recvLoop_bigs k i env w : forall h t, settled h -> safe h -> cached k h i = true -> trackerOf (fetcher k h) i = Some t -> rev (mWaitingEnvelopes t) = w ->
  ends host txSetHashOf (rtc big) h settled (IF.recvLoop (fetcher k) (setFetcher k) OutOfFuel (recvE env) (length w) i h).
Proof.
  induction w as [|[hs e] w IH]; intros h t Hset Hs Hc Ht Er; cbn [IF.recvLoop length]; unfold trackerOf in Ht; rewrite Ht, Er.
  - apply ends_ret; [apply rtc_once; by apply big_cancel|]. by apply settled_fetcher.
  - set (h1 := setFetcher k _ h).
    assert (big h h1) as Hb1 by exact (big_take k i t (hs, e) w h Ht Er Hc). pose proof (safe_big _ _ Hb1 Hs) as Hs1.
    assert (HReceived e ∈ hLog h1) as Hrec.
    { replace (hLog h1) with (hLog h) by by destruct k. apply (sf_heard _ Hs) with k i. apply waits_tracker. exists t. split; [done|].
      rewrite <- (rev_involutive (mWaitingEnvelopes t)), Er. cbn. rewrite fmap_app. apply elem_of_app. right. by apply list_elem_of_singleton. }
    pose proof (recvSCPEnvelope_spec host txSetHashOf sha256 localNodeID MANUAL_CLOSE env e h1 (settled_fetcher _ _ _ Hset) Hrec) as Hrc.
    eapply ends_mono; [|intros h' Hh'; eapply rtc_l; [exact Hb1|exact Hh']|done].
    eapply (ends_bind host txSetHashOf (rtc big) h1 (fun h2 => rtc small h1 h2 /\ settled h2)); [eapply ends_mono; [exact Hrc|apply smalls_bigs|done]|].
    intros h2 _ [Hsm Hset2]. destruct (smalls_keeps h1 h2 k i Hsm) as [Hc2 Ht2]; [unfold h1; by rewrite cached_set|].
    apply (IH h2 (Build_Tracker (mLastAskedPeer t) (mNumListRebuild t) (mPeersToAsk t) (mTimer t) (mIsStopped t) (rev w)) Hset2).
    + eapply safe_bigs; [by apply smalls_bigs|done].
    + done.
    + rewrite Ht2. unfold h1. rewrite fetcher_set. destruct (decide (k = k)); [|done]. unfold trackerOf. cbn. by rewrite om_find_set_eq.
    + cbn. by rewrite rev_involutive.
Qed.

Lemma recv_bigs k i env h : settled h -> safe h -> cached k h i = true ->
  ends host txSetHashOf (rtc big) h settled (IF.recv (fetcher k) (setFetcher k) OutOfFuel (recvE env) i h).
Proof.
  intros Hset Hs Hc. unfold IF.recv, IF.waiting. destruct (om_find i (mTrackers (fetcher k h))) as [t|] eqn:Ht.
  - rewrite <- length_rev. by eapply recvLoop_bigs.
  - cbn. rewrite Ht. by apply ends_ret; [apply rtc_refl|].
Qed.

Lemma put_self `{Ord K} {V} n (a : K) (v : V) c : (0 < n)%nat -> LruCache.exists_ (LruCache.put n a v c) a = true.
Proof.
  intros Hn. unfold LruCache.put, LruCache.exists_. cbv zeta. destruct (Nat.ltb_spec n (length ((a, v) :: LruCache.erase_if_exists a c))) as [Hl|].
  - destruct (LruCache.erase_if_exists a c) as [|x c']; [cbn in Hl; lia|]. change (removelast ((a, v) :: x :: c')) with ((a, v) :: removelast (x :: c')).
    by rewrite lru_find_cons, eqvb_refl.
  - by rewrite lru_find_cons, eqvb_refl.
Qed.

Lemma step_spec (inp : PE.Input) h : settled h -> safe h ->
  ends host txSetHashOf (rtc big) h settled (PE.step host txSetHashOf sha256 localNodeID MANUAL_CLOSE inp h).
Proof.
  intros Hset Hs. destruct inp as [env e|env i v|env i v|env k i p|env k i| | |k i|fx ext]; cbn [PE.step].
  - eapply ends_mono; [apply (recvSCPEnvelope_spec host txSetHashOf sha256 localNodeID MANUAL_CLOSE env e (logged (HReceived e) h))| |done].
    + by apply (settled_frame h).
    + apply elem_of_app. right. by apply list_elem_of_singleton.
    + intros h' Hsm. eapply rtc_l; [apply big_received|by apply smalls_bigs].
  - pose proof (big_txset i v h) as Hb. unfold PE.recvTxSet. set (h1 := logged _ _) in *.
    eapply ends_mono; [apply (recv_bigs TX_SET i env h1); [by apply (settled_frame h)|by eapply safe_big|apply put_self, Nat.ltb_lt; vm_compute; reflexivity]| |done].
    intros h' Hbs. by eapply rtc_l.
  - pose proof (big_qset i v h) as Hb. unfold PE.recvSCPQuorumSet. set (h1 := logged _ _) in *.
    eapply ends_mono; [apply (recv_bigs SCP_QUORUMSET i env h1); [by apply (settled_frame h)|by eapply safe_big|apply put_self, Nat.ltb_lt; vm_compute; reflexivity]| |done].
    intros h' Hbs. by eapply rtc_l.
  - apply ends_ret; [apply rtc_once, big_doesntHave|by apply settled_fetcher].
  - apply ends_ret; [apply rtc_once, big_timer|by apply settled_fetcher].
  - destruct (hPosts h) as [|[k slot] r] eqn:Ep; [by apply ends_ret; [apply rtc_refl|]|].
    apply ends_ret; [apply rtc_once; by apply big_post|]. by destruct k; apply (settled_frame h).
  - eapply ends_mono; [apply (processSCPQueue_spec host txSetHashOf sha256 localNodeID (setTracking None (hTracking h) h)), Hset| |done].
    intros h' Hsm. apply smalls_bigs. eapply rtc_l; [apply small_tracking|done].
  - destruct k; (apply ends_ret; [apply rtc_once, big_small; constructor|]).
    + unfold PE.getTxSet. destruct (LruCache.get _ _) as [[v c]|]; by apply (settled_frame h).
    + unfold PE.getQSet. destruct (LruCache.get _ _) as [[v c]|]; by apply (settled_frame h).
  - set (h1 := setHost _ h). assert (settled h1) as Hset1 by by apply (settled_frame h). assert (rtc big h h1) as Hb1 by apply rtc_once, big_small, small_host.
    destruct ext as [[sl v]|]; [|by apply ends_ret]. eapply ends_mono.
    + apply (valueExternalized_spec host txSetHashOf sha256 localNodeID (PE.processSCPQueueUpToIndex host txSetHashOf) sl v h1); [apply Hset1|].
      intros slot h2 Hf2. apply processQueue_spec, Hf2.
    + intros h' Hsm. etrans; [done|by apply smalls_bigs].
    + intros h' _ (Hf & Hup). destruct Hup as [->|[[j Hj] Hup]]; [done|]. split; [apply Hf|]. split; [done|]. congruence.
Qed.

Lemma newHerder_settled x : settled (PE.newHerder x : H) /\ safe (PE.newHerder x : H).
Proof.
  split; [done|]. split; try done.
  - by intros [].
  - split; [by intros []|]. intros [] i e Hw; by apply not_elem_of_nil in Hw.
  - intros s e He. by apply not_elem_of_nil in He.
  - intros s e He. by apply not_elem_of_nil in He.
  - intros e. apply Nat.leb_le. reflexivity.
  - intros l1 e l2 Hl. cbn in Hl. by destruct l1.
Qed.

Lemma steps_spec x (inps : list PE.Input) :
  ends host txSetHashOf (rtc big) (PE.newHerder x : H) settled (PE.steps host txSetHashOf sha256 localNodeID MANUAL_CLOSE inps (PE.newHerder x : H)).
Proof.
  assert (forall h, settled h -> safe h -> ends host txSetHashOf (rtc big) h settled (PE.steps host txSetHashOf sha256 localNodeID MANUAL_CLOSE inps h)) as Hall.
  { induction inps as [|i inps IH]; intros h Hset Hs; cbn [PE.steps]; [by apply ends_ret; [apply rtc_refl|]|].
    eapply (ends_bind host txSetHashOf (rtc big)); [by apply step_spec|]. intros h1 Hb Hset1. apply IH; [done|]. by eapply safe_bigs. }
  apply Hall; apply newHerder_settled.
Qed.

(** ** Missing items are searched for *)

(** How many items of a type have arrived. *)
Definition arrivals k l : nat := length (List.filter (fun ev => match ev with HItem k' _ => bool_decide (k' = k) | _ => false end) l).

Lemma arrivals_app k l l' : arrivals k (l ++ l') = (arrivals k l + arrivals k l')%nat.
Proof. unfold arrivals. by rewrite List.filter_app, length_app. Qed.

Lemma arrivals_one k k' i : arrivals k [HItem k' i] = if bool_decide (k' = k) then 1%nat else 0%nat.
Proof. unfold arrivals. cbn. by case_bool_decide. Qed.

Definition cacheLength k h : nat := match k with TX_SET => length (mTxSetCache h) | SCP_QUORUMSET => length (mQsetCache h) end.
Definition cacheSize k : nat := match k with TX_SET => TXSET_CACHE_SIZE | SCP_QUORUMSET => QSET_CACHE_SIZE end.

(** No cache has been filled up. *)
Definition roomy l : Prop := forall k, (arrivals k l <= cacheSize k)%nat.

(** Envelopes of the slot of [e] may still wait. *)
Definition alive l k e : Prop := forall slot, HStopped k slot ∈ l -> slot <= PE.slotOf e.

Record searching h : Prop := {
  sr_room : forall k, (cacheLength k h <= arrivals k (hLog h))%nat;
  sr_asking : forall k, asking (cached k h) (fetcher k h);
  sr_waits : forall s e k i, e ∈ fetching h s -> alive (hLog h) k e -> wanted e k i -> cached k h i = true \/ waits (fetcher k h) i e;
}.

(** Steps that leave fetchers and cached items alone. *)
Lemma searching_frame h h' l : hLog h' = hLog h ++ l -> (forall k, fetcher k h' = fetcher k h) -> (forall k i, cached k h' i = cached k h i) ->
  (forall k, (cacheLength k h' <= cacheLength k h)%nat) -> (forall s e, e ∈ fetching h' s -> e ∈ fetching h s) -> searching h -> searching h'.
Proof.
  intros Hl Hf Hc Hn Hfe Hs. split.
  - intros k. rewrite Hl, arrivals_app. specialize (Hn k). pose proof (sr_room _ Hs k). lia.
  - intros k i t. rewrite Hc, Hf. apply (sr_asking _ Hs).
  - intros s e k i He Ha Hi. rewrite Hc, Hf. apply (sr_waits _ Hs s); [by apply Hfe| |done]. intros slot Hsl. apply Ha. rewrite Hl. apply elem_of_app. by left.
Qed.

Lemma erase_length `{Ord K} {V} (c : list (K * V)) a v : LruCache.find c a = Some v -> (S (length (LruCache.erase_if_exists a c)) <= length c)%nat.
Proof.
  unfold LruCache.find, LruCache.erase_if_exists. induction c as [|[a1 v1] c IH]; [done|]. cbn. destruct (eqvb a a1); cbn.
  - intros _. apply le_n_S, filter_length_le.
  - intros Hf. specialize (IH Hf). lia.
Qed.

Lemma lru_get_length `{Ord K} {V} (c : list (K * V)) a v c' : LruCache.get a c = Some (v, c') -> (length c' <= length c)%nat.
Proof. unfold LruCache.get. destruct (LruCache.find c a) as [w|] eqn:E; [|done]. intros [= -> <-]. by eapply erase_length. Qed.

Lemma getTxSet_length i h k : (cacheLength k (PE.getTxSet i h).2 <= cacheLength k h)%nat.
Proof. unfold PE.getTxSet. destruct (LruCache.get i _) as [[v c]|] eqn:E; [|done]. destruct k; cbn; [by eapply lru_get_length|done]. Qed.

Lemma getQSet_length i h k : (cacheLength k (PE.getQSet i h).2 <= cacheLength k h)%nat.
Proof. unfold PE.getQSet. destruct (LruCache.get i _) as [[v c]|] eqn:E; [|done]. destruct k; cbn; [done|by eapply lru_get_length]. Qed.

Lemma searching_start env e h : searching h -> safe h -> searching (started txSetHashOf sha256 env e h).2.
Proof.
  intros Hs Hsafe. destruct (started_spec env e h) as (r & f & g & -> & Hf & Hg & Hw). cbn [snd]. set (h1 := setTxSetFetcher _ _).
  assert (forall k i, cached k h1 i = cached k h i) as Hc by by intros [].
  assert (forall k i e', waits (fetcher k h) i e' -> waits (fetcher k h1) i e') as Hmono.
  { intros [|] i e' Hw'; [by apply (fetched_waits _ _ _ _ _ _ _ Hf)|by apply (fetched_waits _ _ _ _ _ _ _ Hg)]. }
  split.
  - intros k. pose proof (sr_room _ Hs k). by destruct k.
  - intros [|]; [exact (fetched_asking _ _ _ _ _ Hf (sr_asking _ Hs TX_SET))|exact (fetched_asking _ _ _ _ _ Hg (sr_asking _ Hs SCP_QUORUMSET))].
  - intros s e' k i He Ha Hi. rewrite Hc. assert (fetching h1 s = if PE.slotOf e =? s then fetching h (PE.slotOf e) ++ [e] else fetching h s) as Hfe by apply envsAt_set.
    rewrite Hfe in He. assert (e' ∈ fetching h s \/ e' = e) as [Hin| ->].
    { destruct (Z.eqb_spec (PE.slotOf e) s) as [<-|]; [|by left]. by apply elem_of_app in He as [?| ->%list_elem_of_singleton]; [left|right]. }
    + destruct (sr_waits _ Hs s e' k i Hin Ha Hi) as [?|?]; [by left|right; by apply Hmono].
    + destruct (Hw k i Hi) as [?|?]; [by left|right; by destruct k].
Qed.

Lemma eraseBelow_fetching slot h s e : safe h -> e ∈ fetching (PE.eraseBelow slot h) s -> e ∈ fetching h s.
Proof.
  intros Hs. destruct (eraseMapBelow_spec slot _ (proj1 (sf_sorted _ Hs))) as [_ Hf]. unfold fetching at 1. cbn. rewrite Hf.
  destruct (s <? slot); [by intros ?%not_elem_of_nil|done].
Qed.

Lemma searching_small h h' : small h h' -> safe h -> searching h -> searching h'.
Proof.
  intros Hsm Hsafe Hs. destruct Hsm as [c h|x h|t l h|s h|j h|j h|slot e h h1 Hp|slot h|slot h|e h _ _|env e h _ _ _ _].
  1-3: apply (searching_frame h _ []); [by rewrite app_nil_r|by intros []|by intros []|by intros []|done|done].
  - apply (searching_frame h _ [HExternalized s]); [done|by intros []|by intros []|by intros []|done|done].
  - apply (searching_frame h _ []); [|intros k; by apply (getTxSet_cached j h k 0)|intros k i; by apply getTxSet_cached|intros k; by apply getTxSet_length| |done];
      rewrite ?app_nil_r; unfold fetching, PE.getTxSet; by destruct (LruCache.get _ _) as [[v c]|].
  - apply (searching_frame h _ []); [|intros k; by apply (getQSet_cached j h k 0)|intros k i; by apply getQSet_cached|intros k; by apply getQSet_length| |done];
      rewrite ?app_nil_r; unfold fetching, PE.getQSet; by destruct (LruCache.get _ _) as [[v c]|].
  - unfold PE.pop in Hp. destruct (PE.popFrom slot _) as [[e' m']|]; [|done]. injection Hp as -> <-.
    apply (searching_frame h _ [HScp e]); [done|by intros []|by intros []|by intros []|done|done].
  - apply (searching_frame h _ []); [by rewrite app_nil_r|by intros []|by intros []|by intros []|intros s e; by apply eraseBelow_fetching|done].
  - unfold PE.slotClosed. destruct (slot >? MAX_SLOTS_TO_REMEMBER); [|done].
    apply (searching_frame h _ [HForgot (slot - MAX_SLOTS_TO_REMEMBER)]); [done|by intros []|by intros []|by intros []| |done].
    intros s e. unfold fetching at 1. cbn. rewrite envsAt_erase. destruct (_ =? s); [by intros ?%not_elem_of_nil|done].
  - apply (searching_frame h _ [HFlood e]); [done|by intros []|by intros []|by intros []| |done]. intros s e'. destruct (ready_at e h s) as (_ & -> & _).
    destruct (Z.eqb_spec (PE.slotOf e) s) as [<-|]; [|done]. intros [Hin _]%list_elem_of_In%filter_In. by apply list_elem_of_In.
  - by apply searching_start.
Qed.

Lemma put_room `{Ord K} {V} n (a b : K) (v : V) c : (S (length c) <= n)%nat ->
  LruCache.exists_ (LruCache.put n a v c) b = eqvb a b || LruCache.exists_ c b /\ (length (LruCache.put n a v c) <= S (length c))%nat.
Proof.
  intros Hn. pose proof (filter_length_le (fun p => negb (eqvb a p.1)) c) as Hl. unfold LruCache.put, LruCache.exists_. cbv zeta.
  unfold LruCache.erase_if_exists in *. destruct (Nat.ltb_spec n (length ((a, v) :: List.filter (fun p => negb (eqvb a p.1)) c))) as [Hlt|]; [cbn in Hlt; lia|].
  split; [|cbn; lia]. rewrite lru_find_cons. destruct (eqvb a b) eqn:E; [done|]. cbn.
  change (List.filter (fun p => negb (eqvb a p.1)) c) with (LruCache.erase_if_exists a c). by rewrite lru_find_erase, E.
Qed.

(** The arrival of an item, when there is room for it. *)
Lemma searching_item k i h h' : hLog h' = hLog h ++ [HItem k i] -> (forall k', fetcher k' h' = fetcher k' h) -> (forall s, fetching h' s = fetching h s) ->
  (forall k' j, cached k' h j = true -> cached k' h' j = true) -> (cacheLength k h' <= S (cacheLength k h))%nat ->
  (forall k', k' <> k -> cacheLength k' h' = cacheLength k' h) -> searching h -> searching h'.
Proof.
  intros Hl Hf Hfe Hc Hn Hn' Hs. split.
  - intros k'. pose proof (sr_room _ Hs k') as Hr. rewrite Hl, arrivals_app, arrivals_one. case_bool_decide as E.
    + subst k'. lia.
    + rewrite Hn' by congruence. lia.
  - intros k' j t Hj. rewrite Hf. apply (sr_asking _ Hs k'). destruct (cached k' h j) eqn:E; [|done]. apply Hc in E. congruence.
  - intros s e k' j He Ha Hj. rewrite Hfe in He. rewrite Hf. destruct (sr_waits _ Hs s e k' j He) as [Hcj|]; [|done|left; by apply Hc|by right].
    intros slot Hsl. apply Ha. rewrite Hl. apply elem_of_app. by left.
Qed.

(** A change of one fetcher that keeps what is missing. *)
Lemma searching_fetcher k f h : asking (cached k h) f -> (forall i e, cached k h i = false -> waits (fetcher k h) i e -> waits f i e) ->
  searching h -> searching (setFetcher k f h).
Proof.
  intros Ha Hw Hs. split.
  - intros k'. pose proof (sr_room _ Hs k'). by destruct k, k'.
  - intros k' i t. rewrite cached_set, fetcher_set. destruct (decide (k' = k)) as [->|]; [apply Ha|apply (sr_asking _ Hs)].
  - intros s e k' i He Hal Hi. rewrite cached_set, fetcher_set. destruct (sr_waits _ Hs s e k' i) as [?|Hwt]; [by destruct k|by destruct k|done|by left|].
    destruct (cached k' h i) eqn:Hc; [by left|]. right. destruct (decide (k' = k)) as [->|]; [by apply Hw|done].
Qed.

Lemma searching_stop k slot r h : safe h -> searching h ->
  searching (logged (HStopped k slot) (setHPosts r (setFetcher k (IF.stopFetchingBelowInternal PE.slotOf slot (fetcher k h)) h))).
Proof.
  intros Hsafe Hs. set (f := IF.stopFetchingBelowInternal _ _ _). set (h1 := logged _ _). pose proof (proj1 (sf_heard _ Hsafe) k) as Hso.
  assert (hLog h1 = hLog h ++ [HStopped k slot]) as Hlog by by destruct k. assert (forall k' i, cached k' h1 i = cached k' h i) as Hc by by intros []; destruct k.
  assert (forall k', fetcher k' h1 = if decide (k' = k) then f else fetcher k' h) as Hf by (intros k'; by destruct k, k').
  split.
  - intros k'. rewrite Hlog, arrivals_app. pose proof (sr_room _ Hs k'). assert (cacheLength k' h1 = cacheLength k' h) as -> by by destruct k, k'. lia.
  - intros k' i t. rewrite Hc, Hf. destruct (decide (k' = k)) as [->|]; [apply stopped_asking; [done|apply (sr_asking _ Hs)]|apply (sr_asking _ Hs)].
  - intros s e k' i He Hal Hi. rewrite Hc, Hf. assert (fetching h1 s = fetching h s) as Hfe by by destruct k. rewrite Hfe in He. rewrite Hlog in Hal.
    destruct (sr_waits _ Hs s e k' i He) as [?|Hwt]; [|done|by left|].
    { intros sl Hsl. apply Hal, elem_of_app. by left. }
    right. destruct (decide (k' = k)) as [->|]; [|done]. apply stopped_waits; [done|]. split; [done|]. apply Hal, elem_of_app. right. by apply list_elem_of_singleton.
Qed.

Lemma take_keeps k i t x r h : trackerOf (fetcher k h) i = Some t -> cached k h i = true ->
  let f := Build_FetchState (om_set i (Build_Tracker (mLastAskedPeer t) (mNumListRebuild t) (mPeersToAsk t) (mTimer t) (mIsStopped t) (rev r)) (mTrackers (fetcher k h)))
    (asked (fetcher k h)) (delivered (fetcher k h) ++ [x]) in
  forall j, cached k h j = false -> trackerOf f j = trackerOf (fetcher k h) j.
Proof. intros Ht Hc f j Hj. unfold trackerOf. cbn. rewrite om_find_set, eqvb_neq; [done|]. intros ->. congruence. Qed.

Lemma searching_big h h' : big h h' -> safe h -> roomy (hLog h') -> searching h -> searching h'.
Proof.
  intros Hb Hsafe Hroom Hs. destruct Hb as [h h' Hsm|e h|i v h|i v h|k i t x r h Ht Er Hc|k i t h Ht Hc|env k i p h|env k i h|k slot r h Hpo].
  - by eapply searching_small.
  - apply (searching_frame h _ [HReceived e]); [done|by intros []|by intros []|by intros []|done|done].
  - assert (S (length (mTxSetCache h)) <= TXSET_CACHE_SIZE)%nat as Hr.
    { specialize (Hroom TX_SET). pose proof (sr_room _ Hs TX_SET) as Hr. cbn [hLog logged setTxSetCache cacheSize cacheLength] in *. rewrite arrivals_app, arrivals_one, bool_decide_eq_true_2 in Hroom by done. lia. }
    apply (searching_item TX_SET i h); [done|by intros []|done| | |by intros [] ?|done].
    + intros [|] j; [|done]. cbn. intros Hj. by rewrite (proj1 (put_room _ i j v _ Hr)), Hj, orb_true_r.
    + cbn. apply (put_room _ i i v _ Hr).
  - assert (S (length (mQsetCache h)) <= QSET_CACHE_SIZE)%nat as Hr.
    { specialize (Hroom SCP_QUORUMSET). pose proof (sr_room _ Hs SCP_QUORUMSET) as Hr. cbn [hLog logged setQsetCache cacheSize cacheLength] in *. rewrite arrivals_app, arrivals_one, bool_decide_eq_true_2 in Hroom by done. lia. }
    apply (searching_item SCP_QUORUMSET i h); [done|by intros []|done| | |by intros [] ?|done].
    + intros [|] j; [done|]. cbn. intros Hj. by rewrite (proj1 (put_room _ i j v _ Hr)), Hj, orb_true_r.
    + cbn. apply (put_room _ i i v _ Hr).
  - pose proof (take_keeps k i t x.2 r h Ht Hc) as Hk. apply searching_fetcher; [| |done].
    + intros j u Hj. rewrite Hk by done. by apply (sr_asking _ Hs).
    + intros j e Hj. by rewrite !waits_tracker, Hk.
  - assert (forall j, cached k h j = false -> trackerOf (IF.store i (None, TR.cancel t) (fetcher k h)) j = trackerOf (fetcher k h) j) as Hk.
    { intros j Hj. rewrite trackerOf_store. destruct (Z.eqb_spec i j) as [->|]; [congruence|done]. }
    apply searching_fetcher; [| |done].
    + intros j u Hj. rewrite Hk by done. by apply (sr_asking _ Hs).
    + intros j e Hj. by rewrite !waits_tracker, Hk.
  - pose proof (doesntHave_replaced env i p (fetcher k h)) as Hr. apply searching_fetcher; [eapply replaced_asking; [exact Hr|apply (sr_asking _ Hs)]| |done].
    intros j e _. by apply (replaced_waits _ _ j e Hr).
  - pose proof (timer_replaced env i (fetcher k h)) as Hr. apply searching_fetcher; [eapply replaced_asking; [exact Hr|apply (sr_asking _ Hs)]| |done].
    intros j e _. by apply (replaced_waits _ _ j e Hr).
  - by apply searching_stop.
Qed.

(** The log only grows. *)
Lemma big_log a b : big a b -> exists l, hLog b = hLog a ++ l.
Proof.
  intros [h1 h1' Hsm|e h1|i v h1|i v h1|k i t x r h1 Ht Er Hc|k i t h1 Ht Hc|env k i p h1|env k i h1|k slot r h1 Hpo];
    try (by eexists); try (exists []; rewrite app_nil_r; by destruct k).
  - destruct Hsm as [c h|x h|t l h|s h|j h|j h|slot e h h2 Hp|slot h|slot h|e h _ _|env e h _ _ _ _]; try (by exists []; rewrite app_nil_r); try by eexists.
    + exists []. rewrite app_nil_r. unfold PE.getTxSet. by destruct (LruCache.get _ _) as [[v c]|].
    + exists []. rewrite app_nil_r. unfold PE.getQSet. by destruct (LruCache.get _ _) as [[v c]|].
    + unfold PE.pop in Hp. destruct (PE.popFrom slot _) as [[e' m']|]; [|done]. injection Hp as -> <-. by eexists.
    + unfold PE.slotClosed. destruct (slot >? _); [by eexists|exists []; by rewrite app_nil_r].
    + exists []. rewrite app_nil_r. by destruct (started_spec env e h) as (r & f & g & -> & _).
  - exists [HStopped k slot]. by destruct k.
Qed.

Lemma bigs_log h h' : rtc big h h' -> exists l, hLog h' = hLog h ++ l.
Proof.
  induction 1 as [|h h1 h' Hb _ (l & Hl)]; [exists []; by rewrite app_nil_r|]. destruct (big_log _ _ Hb) as (l1 & Hl1). exists (l1 ++ l). by rewrite Hl, Hl1, <- app_assoc.
Qed.

Lemma searching_bigs h h' : rtc big h h' -> safe h -> roomy (hLog h') -> searching h -> searching h'.
Proof.
  induction 1 as [|h h1 h' Hb Hbs IH]; [done|]. intros Hsafe Hroom Hs. apply IH; [by eapply safe_big|done|]. eapply searching_big; [done|done| |done].
  destruct (bigs_log _ _ Hbs) as (l & Hl). intros k. specialize (Hroom k). rewrite Hl, arrivals_app in Hroom. lia.
Qed.

Lemma newHerder_searching x : searching (PE.newHerder x : H).
Proof. split; [by intros []|by intros []|]. intros s e k i He. by apply not_elem_of_nil in He. Qed.

(** ** A complete envelope of the next slot *)

Lemma bigs_log_elem h h' ev : rtc big h h' -> ev ∈ hLog h -> ev ∈ hLog h'.
Proof. intros (l & ->)%bigs_log Hin. apply elem_of_app. by left. Qed.

(** Whether it returns or crashes, a call ends in a state with the log it had. *)
Definition handsOver e (r : H + Halt H) : Prop := exists h', PE.stateOf r = Some h' /\ HScp e ∈ hLog h'.

Lemma ends_hands e h Q r : ends host txSetHashOf (rtc small) h Q r -> HScp e ∈ hLog h -> handsOver e r.
Proof.
  intros [(h' & -> & Hr & _)|(c & h' & -> & Hr & _)] Hin; exists h'; (split; [done|]); by eapply bigs_log_elem, Hin; apply smalls_bigs.
Qed.

Lemma processUpTo_first fuel slot h e h1 : sortedPending h -> (PE.pendingCount h <= fuel)%nat -> PE.pop slot h = Some (e, h1) ->
  handsOver e (PE.processUpTo host txSetHashOf fuel slot h).
Proof.
  intros Hs Hc Hp. pose proof (pop_spec slot h Hs) as Hps. rewrite Hp in Hps. destruct Hps as (Hs1 & Hn & Ht1 & Hsub).
  destruct fuel as [|f]; [lia|]. cbn [PE.processUpTo]. rewrite Hp. destruct (receiveEnvelope host e (hHost h1)) as [x ext]. set (h2 := logged _ _).
  assert (HScp e ∈ hLog h2) as Hin by (apply elem_of_app; right; by apply list_elem_of_singleton).
  assert (PE.pendingCount h2 <= f)%nat as Hc2 by (unfold h2, PE.pendingCount in *; cbn in *; lia). assert (sortedPending h2) as Hs2 by done.
  assert (Hgo : forall slot h3, fewer h2 h3 -> ends host txSetHashOf (rtc small) h3 (drainedTo txSetHashOf sha256 localNodeID slot h3) (PE.processUpTo host txSetHashOf f slot h3)).
  { intros slot1 h3 (H31 & H32 & _). apply processUpTo_spec; [done|lia]. }
  eapply (ends_hands e h2 (fun _ => True)); [|done]. eapply (ends_bind host txSetHashOf (rtc small) h2 (fewer h2)).
  - destruct ext as [[sl v]|]; [|apply ends_ret; [apply rtc_refl|by apply fewer_refl]].
    eapply ends_mono; [exact (valueExternalized_spec host txSetHashOf sha256 localNodeID (PE.processUpTo host txSetHashOf f) sl v h2 Hs2 Hgo)|done|by intros h' _ []].
  - intros h3 _ Hf3. eapply ends_mono; [exact (Hgo slot h3 Hf3)|done|done].
Qed.

(** The envelope is alone in the queue up to its slot. *)
Lemma ready_first e h i : settled h -> hTracking h = Some i -> PE.slotOf e = PE.nextConsensusLedgerIndex i ->
  handsOver e (PE.processSCPQueue host txSetHashOf (ready e h)).
Proof.
  intros (Hs & Hup & _) Ht He. unfold PE.processSCPQueue. change (hTracking (ready e h)) with (hTracking h). rewrite Ht, <- He. set (slot := PE.slotOf e) in *.
  set (h1 := if slot >? _ then _ else ready e h).
  assert (sortedPending (ready e h)) as Hsr by apply om_set_sorted, Hs.
  assert (sortedPending h1 /\ forall s, s <= slot -> pend h1 s = if slot =? s then [e] else []) as [Hs1 Hp1].
  { assert (forall s, s <= slot -> pend (ready e h) s = if slot =? s then [e] else []) as Hp.
    { intros s Hle. destruct (ready_at e h s) as (-> & _). fold slot. rewrite !(Hup i) by (done || lia). done. }
    unfold h1. destruct (slot >? _) eqn:Egt; [|done]. split; [by apply eraseBelow_sorted|]. intros s Hle.
    destruct (eraseMapBelow_spec (slot - MAX_SLOTS_TO_REMEMBER) _ Hsr) as [_ Hpe]. unfold pend in *. cbn [PE.eraseBelow hQueues setQueues mPendingEnvelopes].
    rewrite Hpe. destruct (Z.ltb_spec s (slot - MAX_SLOTS_TO_REMEMBER)); [|by apply Hp]. unfold MAX_SLOTS_TO_REMEMBER in *. destruct (Z.eqb_spec slot s); [lia|done]. }
  pose proof (popFrom_spec slot _ Hs1) as Hpf. unfold PE.processSCPQueueUpToIndex.
  destruct (PE.popFrom slot (mPendingEnvelopes (hQueues h1))) as [[e' m']|] eqn:Ep.
  - destruct Hpf as (_ & _ & _ & s & Hle & Hs' & _). fold (pend h1 s) in Hs'. rewrite Hp1 in Hs' by done.
    destruct (slot =? s); [|by destruct (envsAt m' s)]. assert (e' = e) as ->.
    { destruct (envsAt m' s) as [|y ys]; cbn in Hs'; [congruence|]. injection Hs' as _ Hs'. by destruct ys. }
    apply (processUpTo_first _ slot h1 e (PE.setPending m' h1)); [done|done|]. unfold PE.pop. by rewrite Ep.
  - specialize (Hpf slot ltac:(lia)). fold (pend h1 slot) in Hpf. by rewrite Hp1, Z.eqb_refl in Hpf by lia.
Qed.

Lemma valuesFetched_true vals h : (forall v, v ∈ vals -> exists i, txSetHashOf v = Some i /\ cached TX_SET h i = true) -> PE.valuesFetched txSetHashOf vals h = Some true.
Proof.
  induction vals as [|v vals IH]; intros Hv; [done|]. cbn. destruct (Hv v) as (i & -> & Hc); [left|]. cbn in Hc. rewrite Hc. cbn. apply IH. intros u Hu. apply Hv. by right.
Qed.

Lemma fullyFetched_true e h : decodable e -> (forall k i, needs e k i -> cached k h i = true) -> PE.isFullyFetched txSetHashOf e h = Some true.
Proof.
  intros Hd Hn. unfold PE.isFullyFetched. pose proof (Hn SCP_QUORUMSET _ eq_refl) as Hq. cbn in Hq. rewrite Hq. cbn [negb]. apply valuesFetched_true. intros v Hv.
  destruct (Hd v Hv) as (i & Hi). exists i. split; [done|]. apply (Hn TX_SET). by exists v.
Qed.

Lemma fetchValues_returns env e vals : forall ret h, (forall v, v ∈ vals -> is_Some (txSetHashOf v)) ->
  is_Some (PE.fetchValues txSetHashOf sha256 env e vals ret h).1.
Proof.
  induction vals as [|v vals IH]; intros ret h Hv; cbn; [eauto|]. destruct (Hv v) as (i & ->); [left|].
  destruct (LruCache.exists_ _ i); apply IH; intros u Hu; apply Hv; by right.
Qed.

Lemma recv_complete env e h i : settled h -> hTracking h = Some i -> PE.slotOf e = PE.nextConsensusLedgerIndex i -> MANUAL_CLOSE = false ->
  nodeID (statement e) <> localNodeID -> PE.minLedgerSeq host h <= PE.slotOf e <= PE.maxLedgerSeq h ->
  scpIsNodeInQuorum host (nodeID (statement e)) (hHost h) <> TB_FALSE -> decodable e -> (forall k j, needs e k j -> cached k h j = true) ->
  e ∉ processed h (PE.slotOf e) -> handsOver e (recvE env e h).
Proof.
  intros Hset Ht He Hmc Hself Hb Hq Hd Hn Hpr. unfold PE.recvSCPEnvelope. rewrite Hmc, bool_decide_eq_false_2 by done.
  destruct (_ || _) eqn:Eb; [zify_bool; lia|]. unfold PE.recvPending.
  destruct (peIsNodeInQuorum_spec host txSetHashOf sha256 localNodeID (nodeID (statement e)) h) as (_ & c & Ec).
  destruct (PE.isNodeInQuorum host (nodeID (statement e)) h) as [ok h1] eqn:Eq. cbn [snd] in Ec. subst h1. assert (ok = true) as ->.
  { revert Eq. unfold PE.isNodeInQuorum. destruct (LruCache.get _ _) as [[[] c1]|]; [congruence|cbn [hHost setNodes]; by destruct (scpIsNodeInQuorum _ _ _); congruence..]. }
  cbn [negb]. set (h1 := setNodes c h). assert (settled h1) as Hset1 by by apply (settled_frame h).
  assert (forall h2, settled h2 -> hTracking h2 = Some i -> (forall k j, cached k h2 j = cached k h j) ->
    handsOver e (PE.checkFetched host txSetHashOf e h2)) as Hcf.
  { intros h2 Hs2 Ht2 Hc2. unfold PE.checkFetched. rewrite fullyFetched_true; [|done|intros k j Hj; rewrite Hc2; by apply Hn]. by apply (ready_first e h2 i). }
  case_bool_decide as Hfe; [apply Hcf; [done|done|by intros []]|]. rewrite bool_decide_eq_false_2 by done.
  destruct (started_spec env e h1) as (r & f & g & Es & _). assert (is_Some r) as [b ->].
  { assert (r = (started txSetHashOf sha256 env e h1).1) as -> by by rewrite Es. unfold started, PE.startFetch. destruct (LruCache.exists_ _ _); by apply fetchValues_returns. }
  unfold started in Es. rewrite Es. apply Hcf; [by apply (settled_frame h)|done|by intros []].
Qed.

End Invariants.
