(* ===== verification/EnvelopeTheorems.v ===== *)
(** * The consensus gets complete envelopes, and none is left lying

    The theorems about [PendingEnvelopes.v] hold for every history of inputs
    and for every consensus library and ledger manager ([HerderHost]). *)

From stdpp Require Import relations.
From S2P Require Import Prelude OrdContainers QuorumSet ScpTypes Federated SlotScp EntryStore EntryStoreFacts Floodgate ItemFetcher PendingEnvelopes EnvelopeFacts.

Section EnvelopeTheorems.
Context {TxSet QSet X : Type} (host : HerderHost TxSet X).
Context (txSetHashOf : list Z -> option Z) (sha256 : SCPEnvelope -> MsgHash) (localNodeID : NodeID) (MANUAL_CLOSE : bool).
Local Abbreviation H := (Herder TxSet QSet X).
Local Abbreviation run := (PE.steps host txSetHashOf sha256 localNodeID MANUAL_CLOSE).
Implicit Types (h : H) (e : SCPEnvelope) (l : list HerderEvent).

(** Where a history ends, also when the process crashes. *)
Lemma run_spec x inps h : PE.stateOf (run inps (PE.newHerder x)) = Some h -> rtc (big txSetHashOf sha256 localNodeID) (PE.newHerder x) h /\ safe txSetHashOf localNodeID h.
Proof.
  intros Hr. assert (rtc (big txSetHashOf sha256 localNodeID) (PE.newHerder x) h) as Hb.
  { destruct (steps_spec host txSetHashOf sha256 localNodeID MANUAL_CLOSE x inps) as [(h' & E & Hb & _)|(c & h' & E & Hb & _)]; rewrite E in Hr; by injection Hr as <-. }
  split; [done|]. eapply safe_bigs; [exact Hb|apply newHerder_settled].
Qed.

Lemma handed_kept l e : (0 < handed l e)%nat -> forall l', HForgot (PE.slotOf e) ∉ l' -> (0 < handed (l ++ l') e)%nat.
Proof.
  intros Hl l'. induction l' as [|ev l' IH] using rev_ind; [by rewrite app_nil_r|]. rewrite not_elem_of_app. intros [Hn1 Hn2].
  rewrite app_assoc, handed_snoc. specialize (IH Hn1). destruct ev; cbn [handedStep]; try done; [by case_bool_decide; [lia|]|].
  destruct (Z.eqb_spec slot (PE.slotOf e)) as [->|]; [|done]. destruct Hn2. by apply list_elem_of_singleton.
Qed.

(** C15. The consensus library gets complete envelopes, and each one once.
    Whenever an envelope is handed over, a peer has sent it, its node is not the
    node itself, all its values can be decoded, and its quorum set and all
    its transaction sets have arrived before.  The same envelope is handed
    over again only if its slot was forgotten in between, four ledgers after
    it was externalized.  This holds for every history of inputs, also for
    one that ends in a crash of [valueExternalized]. *)
Theorem scp_gets_complete_envelopes x inps h : PE.stateOf (run inps (PE.newHerder x)) = Some h ->
  (forall l1 e l2, hLog h = l1 ++ HScp e :: l2 ->
     HReceived e ∈ l1 /\ nodeID (statement e) <> localNodeID /\ HItem SCP_QUORUMSET (PE.qsetHashOf e) ∈ l1 /\
     forall v, v ∈ SlotOps.getStatementValues (statement e) -> exists th, txSetHashOf v = Some th /\ HItem TX_SET th ∈ l1) /\
  (forall l1 e l2 l3, hLog h = l1 ++ HScp e :: l2 ++ HScp e :: l3 -> HForgot (PE.slotOf e) ∈ l2).
Proof.
  intros (_ & Hs)%run_spec. split.
  - intros l1 e l2 Hl. destruct (sf_log _ _ _ Hs l1 e l2 Hl) as ((H1 & H2 & H3 & H4) & _). split_and!; [done|done|by apply (H4 SCP_QUORUMSET)|].
    intros v Hv. destruct (H3 v Hv) as (th & Hth). exists th. split; [done|]. apply (H4 TX_SET). by exists v.
  - intros l1 e l2 l3 Hl. destruct (decide (HForgot (PE.slotOf e) ∈ l2)) as [?|Hn]; [done|].
    exfalso. rewrite app_comm_cons, app_assoc in Hl. destruct (sf_log _ _ _ Hs _ e l3 Hl) as [_ H0].
    pose proof (handed_kept (l1 ++ [HScp e]) e) as Hk. rewrite handed_snoc in Hk. cbn [handedStep] in Hk. rewrite bool_decide_eq_true_2 in Hk by done.
    specialize (Hk ltac:(lia) l2). rewrite <- app_assoc in Hk. cbn [app] in Hk. rewrite H0 in Hk. specialize (Hk Hn). lia.
Qed.

(** C31. Every item an envelope lacks is being searched for.  As long as not
    more items have arrived than the caches hold, and unless the search for its
    slot was stopped: an envelope that is kept waits at the tracker of its
    quorum set and of the transaction sets of its values, if they have not
    arrived, and the timer that makes this tracker ask the next peer is
    running.  Of an envelope with a value that cannot be decoded these are the
    values before it ([wanted]): [startFetch] throws there, so that the
    envelope is kept for ever and the sets of its later values are never
    fetched; if all values can be decoded, these are all values
    ([wanted_all]). *)
Theorem missing_items_are_searched x inps h s e k i : PE.stateOf (run inps (PE.newHerder x)) = Some h -> roomy (hLog h) -> e ∈ fetching h s ->
  (forall slot, HStopped k slot ∈ hLog h -> slot <= PE.slotOf e) -> wanted txSetHashOf e k i -> HItem k i ∉ hLog h ->
  exists t ms, trackerOf (fetcher k h) i = Some t /\ e ∈ (mWaitingEnvelopes t).*2 /\ mTimer t = Some ms.
Proof.
  intros (Hb & Hs)%run_spec Hroom He Hal Hi Hn. destruct (newHerder_settled (QSet := QSet) (TxSet := TxSet) txSetHashOf localNodeID x) as [_ Hs0].
  pose proof (searching_bigs _ _ _ _ _ Hb Hs0 Hroom (newHerder_searching txSetHashOf x)) as Hsr.
  assert (cached k h i = false) as Hc by (destruct (cached k h i) eqn:E; [by apply (sf_cached _ _ _ Hs) in E|done]).
  destruct (sr_waits _ _ Hsr s e k i He Hal Hi) as [?|Hw]; [congruence|]. apply waits_tracker in Hw as (t & Ht & Hin).
  destruct (sr_asking _ _ Hsr k i t Hc Ht) as (ms & Hms). by exists t, ms.
Qed.

(** C16. The herder never gets stuck.  Every history of inputs is handled to the
    end, whatever slots are externalized while the queue is processed, and
    afterwards the queue only holds envelopes of slots beyond the next one;
    unless the process crashes when a slot is externalized, and then the value
    of the slot cannot be decoded, or the index does not fit in 32 bits, or
    the transaction set of the value is not in the cache (a null pointer is
    used), or the cached set does not have the hash of the value, or the
    ledger manager did not return. *)
Theorem envelope_queue_drained x inps :
  match run inps (PE.newHerder x : H) with
  | inl h => forall s, envsAt (mPendingEnvelopes (hQueues h)) s <> [] -> exists i, hTracking h = Some i /\ PE.nextConsensusLedgerIndex i < s
  | inr (Crashed c h) => cause host txSetHashOf c h
  | inr OutOfFuel => False
  end.
Proof.
  destruct (steps_spec host txSetHashOf sha256 localNodeID MANUAL_CLOSE x inps) as [(h & -> & _ & (_ & Hup & Hnone))|(c & h & -> & _ & Hc)]; [|done].
  intros s Hn. destruct (hTracking h) as [i|] eqn:Ht; [|by destruct Hn; apply Hnone]. exists i. split; [done|].
  destruct (Z.lt_ge_cases (PE.nextConsensusLedgerIndex i) s); [done|]. destruct Hn. by apply (Hup i).
Qed.

(** An envelope of the next slot that lacks nothing goes to the consensus
    library at once: on a node that tracks the consensus, when a peer sends an
    envelope of another node that may be in the quorum, within the bounds
    for slots, that was not processed before and whose items are all cached,
    the step hands it over, whether it then returns or crashes. *)
Theorem complete_envelope_handed x inps h i env e : run inps (PE.newHerder x) = inl h -> hTracking h = Some i ->
  PE.slotOf e = PE.nextConsensusLedgerIndex i -> MANUAL_CLOSE = false -> nodeID (statement e) <> localNodeID ->
  PE.minLedgerSeq host h <= PE.slotOf e <= PE.maxLedgerSeq h -> scpIsNodeInQuorum host (nodeID (statement e)) (hHost h) <> TB_FALSE ->
  decodable txSetHashOf e -> (forall k j, needs txSetHashOf e k j -> cached k h j = true) ->
  e ∉ envsAt (mProcessedEnvelopes (hQueues h)) (PE.slotOf e) ->
  handsOver e (PE.step host txSetHashOf sha256 localNodeID MANUAL_CLOSE (PE.InEnvelope env e) h).
Proof.
  intros Hr Ht He Hmc Hself Hb Hq Hd Hn Hpr.
  destruct (steps_spec host txSetHashOf sha256 localNodeID MANUAL_CLOSE x inps) as [(h' & E & _ & Hset)|(c & h' & E & _)]; rewrite E in Hr; [injection Hr as ->|discriminate Hr].
  apply (recv_complete host txSetHashOf sha256 localNodeID MANUAL_CLOSE env e (logged (HReceived e) h) i); done.
Qed.

End EnvelopeTheorems.

(** ** An example

    Node 1 follows the votes of node 2; a transaction set is its own hash. *)

Definition eHost (ext : option (Z * list Z)) : HerderHost Z Z := {|
  receiveEnvelope := fun e x => (x, ext); externalize := fun slot _ x => Some slot; getContentsHash := id;
  getLastClosedLedgerNum := fun x => x; scpIsNodeInQuorum := fun _ _ => TB_MAYBE |}.

Definition eHashOf (v : list Z) : option Z := match v with [th] => Some th | _ => None end.

(** A vote of node 2 for slot 6, with quorum set 7 and transaction set 9. *)
Definition eVote : SCPEnvelope := {|
  statement := {| nodeID := 2; slotIndex := 6; pledges := PREPARE {| p_quorumSetHash := 7; p_ballot := Ballot 1 [9]; p_prepared := None; p_preparedPrime := None; p_nC := 0; p_nH := 0 |} |};
  signature := [] |}.

Definition eEnv : FetchEnv := {| peersKnow := fun _ => []; getRandomPeers := [3; 4]; authenticated := fun _ => true |}.

Local Abbreviation eRun ext := (PE.steps (QSet := unit) (eHost ext) eHashOf (fun _ => 0) 1 false).

(** Transaction set 8 arrives and slot 5 is externalized, the vote arrives, then its items, then the vote again. *)
Definition eInputs : list (PE.Input (TxSet := Z) (QSet := unit) (X := Z)) :=
  [PE.InTxSet eEnv 8 8; PE.InHost id (Some (5, [8])); PE.InEnvelope eEnv eVote; PE.InQuorumSet eEnv 7 tt; PE.InTxSet eEnv 9 9; PE.InEnvelope eEnv eVote].

Definition eLog : list HerderEvent :=
  [HItem TX_SET 8; HExternalized 5; HForgot 1; HReceived eVote; HItem SCP_QUORUMSET 7; HItem TX_SET 9; HFlood eVote; HScp eVote; HReceived eVote].

Lemma eRun_log : hLog <$> PE.stateOf (eRun None eInputs (PE.newHerder 1)) = Some eLog.
Proof. vm_compute. reflexivity. Qed.

Lemma scp_gets_complete_envelopes_witness : exists h, PE.stateOf (eRun None eInputs (PE.newHerder 1)) = Some h /\ HReceived eVote ∈ take 7 (hLog h) /\ HItem SCP_QUORUMSET 7 ∈ take 7 (hLog h).
Proof.
  pose proof eRun_log as Hl. destruct (PE.stateOf (eRun None eInputs (PE.newHerder 1))) as [h|] eqn:E; [|discriminate Hl]. exists h. injection Hl as Hl.
  destruct (scp_gets_complete_envelopes (eHost None) eHashOf (fun _ => 0) 1 false 1 eInputs h E) as [H1 _].
  destruct (H1 (take 7 eLog) eVote [HReceived eVote] Hl) as (H2 & _ & H3 & _). rewrite Hl. by split_and!.
Defined.

Lemma missing_items_are_searched_witness : exists h t ms, PE.stateOf (eRun None (take 4 eInputs) (PE.newHerder 1)) = Some h /\
  trackerOf (fetcher TX_SET h) 9 = Some t /\ eVote ∈ (mWaitingEnvelopes t).*2 /\ mTimer t = Some ms.
Proof.
  assert ((fun h => (hLog h, fetching h 6)) <$> PE.stateOf (eRun None (take 4 eInputs) (PE.newHerder 1)) =
    Some ([HItem TX_SET 8; HExternalized 5; HForgot 1; HReceived eVote; HItem SCP_QUORUMSET 7], [eVote])) as Hl by (vm_compute; reflexivity).
  destruct (PE.stateOf (eRun None (take 4 eInputs) (PE.newHerder 1))) as [h|] eqn:E; [|discriminate Hl]. injection Hl as Hl Hf.
  destruct (missing_items_are_searched (eHost None) eHashOf (fun _ => 0) 1 false 1 (take 4 eInputs) h 6 eVote TX_SET 9 E) as (t & ms & H1 & H2 & H3).
  - rewrite Hl. intros k. destruct k; apply Nat.leb_le; vm_compute; reflexivity.
  - rewrite Hf. by apply list_elem_of_singleton.
  - rewrite Hl. intros slot Hin. repeat (apply elem_of_cons in Hin as [Hin|Hin]; [discriminate Hin|]). by apply not_elem_of_nil in Hin.
  - by apply list_elem_of_singleton.
  - rewrite Hl. intros Hin. repeat (apply elem_of_cons in Hin as [Hin|Hin]; [discriminate Hin|]). by apply not_elem_of_nil in Hin.
  - by exists h, t, ms.
Defined.

(** The consensus library externalizes slot 6 when it gets the vote: with the
    transaction set of the vote the queue is drained and the next slot is 7;
    with a set that has not arrived the process crashes. *)
Lemma envelope_queue_drained_witness :
  (exists h, eRun (Some (6, [9])) eInputs (PE.newHerder 1) = inl h /\ HScp eVote ∈ hLog h /\ hTracking h = Some 6 /\
     forall s, s <= 7 -> envsAt (mPendingEnvelopes (hQueues h)) s = []) /\
  (exists h, eRun (Some (6, [10])) eInputs (PE.newHerder 1) = inr (Crashed (NoTxSet 10) h) /\ cached TX_SET h 10 = false).
Proof.
  split.
  - pose proof (envelope_queue_drained (QSet := unit) (eHost (Some (6, [9]))) eHashOf (fun _ => 0) 1 false 1 eInputs) as Hd.
    assert ((fun h => (bool_decide (HScp eVote ∈ hLog h), hTracking h)) <$> PE.stateOf (eRun (Some (6, [9])) eInputs (PE.newHerder 1)) = Some (true, Some 6)) as Hl by (vm_compute; reflexivity).
    destruct (eRun (Some (6, [9])) eInputs (PE.newHerder 1)) as [h|[|c h]] eqn:E; [|discriminate Hl|vm_compute in E; discriminate E].
    exists h. injection Hl as Hl Ht. split; [done|]. split; [by apply bool_decide_eq_true in Hl|]. split; [done|]. intros s Hs.
    destruct (envsAt _ s) as [|e r] eqn:Es; [done|]. destruct (Hd s) as (i & Hi & Hlt); [by rewrite Es|]. rewrite Ht in Hi. injection Hi as <-.
    change (PE.nextConsensusLedgerIndex 6) with 7 in Hlt. lia.
  - pose proof (envelope_queue_drained (QSet := unit) (eHost (Some (6, [10]))) eHashOf (fun _ => 0) 1 false 1 eInputs) as Hd.
    destruct (eRun (Some (6, [10])) eInputs (PE.newHerder 1)) as [h|[|c h]] eqn:E; [vm_compute in E; discriminate E|done|].
    assert (c = NoTxSet 10) as -> by (vm_compute in E; by injection E as <- _). by exists h.
Defined.

(** The items arrive before the vote. *)
Definition eEarly : list (PE.Input (TxSet := Z) (QSet := unit) (X := Z)) :=
  [PE.InTxSet eEnv 8 8; PE.InHost id (Some (5, [8])); PE.InQuorumSet eEnv 7 tt; PE.InTxSet eEnv 9 9].

Lemma complete_envelope_handed_witness : exists h, eRun None eEarly (PE.newHerder 1) = inl h /\
  handsOver eVote (PE.step (eHost None) eHashOf (fun _ => 0) 1 false (PE.InEnvelope eEnv eVote) h).
Proof.
  destruct (eRun None eEarly (PE.newHerder 1)) as [h|] eqn:E; [|vm_compute in E; discriminate E]. exists h. split; [done|].
  apply (complete_envelope_handed (eHost None) eHashOf (fun _ => 0) 1 false 1 eEarly h 5 eEnv eVote E); vm_compute in E; injection E as <-.
  1-3: vm_compute; reflexivity.
  1: discriminate.
  1: vm_compute; split; discriminate.
  1: discriminate.
  1: by intros v ->%list_elem_of_singleton; exists 9.
  1: by intros [|] j; [intros (v & ->%list_elem_of_singleton & [= <-])|intros ->]; vm_compute.
  1: apply not_elem_of_nil.
Defined.
