(* ===== verification/Balance.v ===== *)
(** * Balances ([ledger/BalanceFrame.cpp])

    An account holds an asset in a balance: an available amount and a locked
    one.  Whether the two fields are signed is a matter of the protocol
    definitions; [amountType] says which, and what is proved holds for both.
    Overflow of a signed sum is written as wrap-around. *)

From S2P Require Import Prelude OrdContainers BigMath Signatures.

Definition AssetCode : Type := list Z.
Definition BalanceID : Type := list Z.

(** [const static int64_t ONE] of [util/types.h] *)
Definition ONE : Z := 1000000.

(** [std::isalnum] in the classic locale, for a byte below [0x80]. *)
Definition isalnum (b : Z) : bool :=
  ((48 <=? b) && (b <=? 57)) || ((65 <=? b) && (b <=? 90)) || ((97 <=? b) && (b <=? 122)).

(** The loop of [AssetFrame::isAssetCodeValid]. *)
Fixpoint isAssetCodeValid_loop (zeros onechar : bool) (code : AssetCode) : bool :=
  match code with
  | [] => onechar
  | b :: r =>
      if b =? 0 then isAssetCodeValid_loop true onechar r
      else if zeros then false
      else if (b >? 127) || negb (isalnum b) then false
      else isAssetCodeValid_loop zeros true r
  end.
Definition isAssetCodeValid (code : AssetCode) : bool := isAssetCodeValid_loop false false code.

Record BalanceEntry := {
  balanceID : BalanceID;
  balAccountID : PublicKey;
  balAsset : AssetCode;
  amount : Z;
  locked : Z;
}.

Global Instance BalanceEntry_eq_dec : EqDecision BalanceEntry.
Proof. solve_decision. Defined.

Inductive AmountType := Signed64 | Unsigned64.

Module BF.

(** [BalanceFrame::Result] *)
Inductive Result := SUCCESS | LINE_FULL | UNDERFUNDED.

Definition createNew (id : BalanceID) (owner : PublicKey) (asset : AssetCode) : BalanceEntry :=
  {| balanceID := id; balAccountID := owner; balAsset := asset; amount := 0; locked := 0 |}.

Definition isValid (b : BalanceEntry) : bool := isAssetCodeValid (balAsset b) && (locked b >=? 0) && (amount b >=? 0).

Section BF.
Context (amountType : AmountType).
Implicit Types b : BalanceEntry.

(** The conversion to the type of the two fields. *)
Definition conv (z : Z) : Z := match amountType with Signed64 => i64 z | Unsigned64 => u64 z end.

Definition with_ b (a l : Z) : BalanceEntry :=
  {| balanceID := balanceID b; balAccountID := balAccountID b; balAsset := balAsset b; amount := a; locked := l |}.
Definition setAmount b (a : Z) : BalanceEntry := with_ b a (locked b).
Definition setLocked b (l : Z) : BalanceEntry := with_ b (amount b) l.

Definition getAmount b : Z := i64 (amount b).
Definition getLocked b : Z := i64 (locked b).

Definition addBalance (delta : Z) b : bool * BalanceEntry :=
  let availableBalance := getAmount b in
  if i64 (availableBalance + delta) <? 0 then (false, b) else
  if conv (amount b + delta) <? 0 then (false, b) else
  let b := setAmount b (conv (amount b + delta)) in
  let totalFunds := i64 (conv (amount b + locked b)) in
  (negb (totalFunds <? 0), b).

Definition addLocked (delta : Z) b : bool * BalanceEntry :=
  if conv (locked b + delta) <? 0 then (false, b) else
  let b := setLocked b (conv (locked b + delta)) in
  let totalFunds := i64 (conv (amount b + locked b)) in
  (negb (totalFunds <? 0), b).

Definition lockBalance (delta : Z) b : Result * BalanceEntry :=
  let availableBalance := getAmount b in
  if i64 (availableBalance - delta) <? 0 then (UNDERFUNDED, b) else
  if conv (locked b + delta) <? 0 then (LINE_FULL, b) else
  (SUCCESS, with_ b (conv (amount b - delta)) (conv (locked b + delta))).

Definition tryFundAccount (amt : Z) b : bool * BalanceEntry :=
  let '(ok, updatedAmount) := safeSum (u64 (amount b)) amt in
  if negb ok then (false, b) else
  let '(ok, totalFunds) := safeSum updatedAmount (u64 (locked b)) in
  if negb ok then (false, b) else
  (true, setAmount b (conv updatedAmount)).

Definition tryLock (amountToBeLocked : Z) b : Result * BalanceEntry :=
  if u64 (amount b) <? amountToBeLocked then (UNDERFUNDED, b) else
  let b := setAmount b (conv (amount b - amountToBeLocked)) in
  let '(ok, updatedLockedAmount) := safeSum (u64 (locked b)) amountToBeLocked in
  if negb ok then (LINE_FULL, b) else
  (SUCCESS, setLocked b (conv updatedLockedAmount)).

Definition tryChargeFromLocked (amountToCharge : Z) b : bool * BalanceEntry :=
  if u64 (locked b) <? amountToCharge then (false, b) else
  (true, setLocked b (conv (locked b - amountToCharge))).

Definition unlock (amountToUnlock : Z) b : bool * BalanceEntry :=
  if u64 (locked b) <? amountToUnlock then (false, b) else
  tryFundAccount amountToUnlock (setLocked b (conv (locked b - amountToUnlock))).

End BF.
End BF.

(** ** What the operations do to a balance in range *)

Definition funds (b : BalanceEntry) : Z := amount b + locked b.

(** Both parts are non-negative and together fit 63 bits. *)
Definition inRange (b : BalanceEntry) : Prop := 0 <= amount b /\ 0 <= locked b /\ funds b <= INT64_MAX.

Section BalanceFacts.
Context (amountType : AmountType).
Implicit Types b : BalanceEntry.

Lemma conv_small z : 0 <= z <= INT64_MAX -> BF.conv amountType z = z.
Proof. intros Hz. unfold BF.conv. destruct amountType; [apply i64_small|apply u64_small]; word_lia. Qed.

Lemma i64_conv z : i64 (BF.conv amountType z) = i64 z.
Proof. unfold BF.conv. destruct amountType; word_lia. Qed.

(** A test for a negative value of the type, which only a signed one has. *)
Lemma conv_neg z : INT64_MIN <= z <= INT64_MAX -> BF.conv amountType z < 0 -> z < 0.
Proof. unfold BF.conv. destruct amountType; word_lia. Qed.

Ltac cases_on_tests := repeat match goal with
  | |- context [if ?x <? ?y then _ else _] => destruct (Z.ltb_spec x y)
  end.

(** [addBalance] succeeds exactly if the amount stays non-negative and the
    funds in range. *)
Lemma addBalance_spec b delta : inRange b -> is_i64 delta ->
  if (0 <=? amount b + delta) && (funds b + delta <=? INT64_MAX)
  then BF.addBalance amountType delta b = (true, BF.setAmount b (amount b + delta))
  else (BF.addBalance amountType delta b).1 = false.
Proof.
  intros (Ha & Hl & Hf) Hd. unfold funds in *. unfold BF.addBalance, BF.getAmount. rewrite (i64_small (amount b)) by word_lia.
  destruct (_ && _) eqn:E; zify_bool.
  - rewrite (i64_small (amount b + delta)), (conv_small (amount b + delta)) by word_lia.
    rewrite !(proj2 (Z.ltb_ge _ 0)) by lia. cbn [BF.setAmount BF.with_ amount locked].
    rewrite i64_conv, i64_small by word_lia. by rewrite (proj2 (Z.ltb_ge _ 0)) by lia.
  - cases_on_tests; [done|done|]. cbn [BF.setAmount BF.with_ amount locked fst]. apply negb_false_iff, Z.ltb_lt.
    rewrite i64_conv. unfold BF.conv in *. destruct amountType; word_lia.
Qed.

(** Taking from the locked part, which holds at least that much. *)
Lemma addLocked_charge b n : inRange b -> 0 <= n <= locked b ->
  BF.addLocked amountType (- n) b = (true, BF.setLocked b (locked b - n)).
Proof.
  intros (Ha & Hl & Hf) Hn. unfold funds in *. unfold BF.addLocked. rewrite Z.add_opp_r.
  rewrite (conv_small (locked b - n)) by word_lia. rewrite (proj2 (Z.ltb_ge _ 0)) by lia.
  cbn [BF.setLocked BF.with_ amount locked]. rewrite i64_conv, i64_small by word_lia.
  by rewrite (proj2 (Z.ltb_ge _ 0)) by lia.
Qed.

(** [lockBalance] moves a non-negative amount to the locked part exactly if
    it is available. *)
Lemma lockBalance_spec b n : inRange b -> 0 <= n <= INT64_MAX ->
  BF.lockBalance amountType n b =
    if n <=? amount b then (BF.SUCCESS, BF.with_ b (amount b - n) (locked b + n)) else (BF.UNDERFUNDED, b).
Proof.
  intros (Ha & Hl & Hf) Hn. unfold funds in *. unfold BF.lockBalance, BF.getAmount. rewrite !i64_small by word_lia.
  destruct (Z.leb_spec n (amount b)).
  - rewrite !conv_small by lia. by rewrite !(proj2 (Z.ltb_ge _ 0)) by lia.
  - by rewrite (proj2 (Z.ltb_lt _ 0)) by lia.
Qed.

(** A negative amount moves back what is locked. *)
Lemma lockBalance_unlock b n : inRange b -> 0 <= n <= locked b ->
  BF.lockBalance amountType (- n) b = (BF.SUCCESS, BF.with_ b (amount b + n) (locked b - n)).
Proof.
  intros (Ha & Hl & Hf) Hn. unfold funds in *. unfold BF.lockBalance, BF.getAmount.
  rewrite !Z.sub_opp_r, Z.add_opp_r, !i64_small by word_lia. rewrite !conv_small by lia.
  by rewrite !(proj2 (Z.ltb_ge _ 0)) by lia.
Qed.

Lemma safeSum_small x y : 0 <= x -> 0 <= y -> x + y <= INT64_MAX -> safeSum x y = (true, x + y).
Proof.
  intros. rewrite safeSum_spec by word_lia. rewrite u64_small by word_lia.
  by rewrite (proj2 (Z.leb_le _ _)) by word_lia.
Qed.

(** [unlock] does the same for an amount that is locked, and nothing else. *)
Lemma unlock_spec b n : inRange b -> 0 <= n <= INT64_MAX ->
  BF.unlock amountType n b =
    if n <=? locked b then (true, BF.with_ b (amount b + n) (locked b - n)) else (false, b).
Proof.
  intros (Ha & Hl & Hf) Hn. unfold funds in *. unfold BF.unlock. rewrite u64_small by word_lia.
  destruct (Z.leb_spec n (locked b)).
  - rewrite (proj2 (Z.ltb_ge _ _)) by lia. rewrite (conv_small (locked b - n)) by lia.
    unfold BF.tryFundAccount. cbn [BF.setLocked BF.with_ amount locked]. rewrite !u64_small by word_lia.
    rewrite (safeSum_small (amount b) n) by lia. cbn [negb]. rewrite safeSum_small by lia. cbn [negb].
    unfold BF.setAmount, BF.with_. cbn. by rewrite conv_small by lia.
  - by rewrite (proj2 (Z.ltb_lt _ _)) by lia.
Qed.

Lemma tryLock_spec b n : inRange b -> 0 <= n <= INT64_MAX ->
  BF.tryLock amountType n b =
    if n <=? amount b then (BF.SUCCESS, BF.with_ b (amount b - n) (locked b + n)) else (BF.UNDERFUNDED, b).
Proof.
  intros (Ha & Hl & Hf) Hn. unfold funds in *. unfold BF.tryLock. rewrite u64_small by word_lia.
  destruct (Z.leb_spec n (amount b)).
  - rewrite (proj2 (Z.ltb_ge _ _)) by lia. rewrite (conv_small (amount b - n)) by lia.
    cbn [BF.setAmount BF.with_ amount locked]. rewrite u64_small by word_lia.
    rewrite safeSum_small by lia. cbn [negb]. unfold BF.setLocked, BF.with_. cbn. by rewrite conv_small by lia.
  - by rewrite (proj2 (Z.ltb_lt _ _)) by lia.
Qed.

(** Funding succeeds exactly if the funds fit the 64 bits of the sum. *)
Lemma tryFundAccount_spec b n : 0 <= amount b <= INT64_MAX -> 0 <= locked b <= INT64_MAX -> 0 <= n <= INT64_MAX ->
  BF.tryFundAccount amountType n b =
    if amount b + n + locked b <=? UINT64_MAX then (true, BF.setAmount b (BF.conv amountType (amount b + n))) else (false, b).
Proof.
  intros Ha Hl Hn. unfold BF.tryFundAccount. rewrite !(u64_small (amount b)), !(u64_small (locked b)) by word_lia.
  rewrite safeSum_spec by word_lia. rewrite (proj2 (Z.leb_le (amount b + n) _)) by word_lia. cbn [negb].
  rewrite u64_small by word_lia. rewrite safeSum_spec by word_lia. by destruct (_ <=? _).
Qed.

End BalanceFacts.
