(* ===== verification/Assets.v ===== *)
(** * Assets and reviewable requests ([ledger/AssetFrame.cpp],
      [ledger/ReviewableRequestFrame.cpp])

    An asset counts what was issued of it, what may still be issued, and what
    is set aside for issuances to come.  A request waits for its reviewer; of
    the kinds of requests those that move money or change assets are modelled,
    the others are opaque.  JSON and the hash of a request are parameters. *)

From S2P Require Import Prelude BigMath Signatures Balance.

Record AssetEntry := {
  assetCode : AssetCode;
  assetOwner : PublicKey;
  preissuedAssetSigner : PublicKey;
  assetDetails : list Z;
  maxIssuanceAmount : Z;
  availableForIssueance : Z;
  issued : Z;
  pendingIssuance : Z;
  assetPolicies : Z;
}.

Global Instance AssetEntry_eq_dec : EqDecision AssetEntry.
Proof. solve_decision. Defined.

Record AssetCreationRequest := {
  acCode : AssetCode;
  acPreissuedAssetSigner : PublicKey;
  acMaxIssuanceAmount : Z;
  acPolicies : Z;
  acInitialPreissuedAmount : Z;
  acDetails : list Z;
}.

Record AssetUpdateRequest := { auCode : AssetCode; auDetails : list Z; auPolicies : Z }.

(** [isValidXDRFlag] of [util/types.h], given the flags of the type *)
Definition isValidXDRFlag (flags : list Z) (value : Z) : bool := foldl (fun v flag => Z.land v (Z.lnot flag)) value flags =? 0.

(** [isSetFlag] of [util/types.h] *)
Definition isSetFlag (value flag : Z) : bool := Z.land flag value =? flag.

Module AF.
Section AF.
Context (isValidJson : list Z -> bool).
Implicit Types (a : AssetEntry) (amt : Z).

Definition checkPolicy a (policy : Z) : bool := isSetFlag (assetPolicies a) policy.

(** Assignments to the counters. *)
Definition with_ a (available issued_ pending : Z) : AssetEntry :=
  {| assetCode := assetCode a; assetOwner := assetOwner a; preissuedAssetSigner := preissuedAssetSigner a; assetDetails := assetDetails a;
     maxIssuanceAmount := maxIssuanceAmount a; availableForIssueance := available; issued := issued_; pendingIssuance := pending;
     assetPolicies := assetPolicies a |}.

Definition create (q : AssetCreationRequest) (owner : PublicKey) : AssetEntry :=
  {| assetCode := acCode q; assetOwner := owner; preissuedAssetSigner := acPreissuedAssetSigner q; assetDetails := acDetails q;
     maxIssuanceAmount := acMaxIssuanceAmount q; availableForIssueance := acInitialPreissuedAmount q; issued := 0; pendingIssuance := 0;
     assetPolicies := acPolicies q |}.

(** The assignments of the approval of an update. *)
Definition update a (q : AssetUpdateRequest) : AssetEntry :=
  {| assetCode := assetCode a; assetOwner := assetOwner a; preissuedAssetSigner := preissuedAssetSigner a; assetDetails := auDetails q;
     maxIssuanceAmount := maxIssuanceAmount a; availableForIssueance := availableForIssueance a; issued := issued a;
     pendingIssuance := pendingIssuance a; assetPolicies := auPolicies q |}.

Definition willExceedMaxIssuanceAmount amt a : bool :=
  let '(ok, n) := safeSum_all [issued a; amt; pendingIssuance a] in
  if negb ok then true else n >? maxIssuanceAmount a.

Definition isAvailableForIssuanceAmountSufficient amt a : bool := availableForIssueance a >=? amt.

Definition tryIssue amt a : bool * AssetEntry :=
  if willExceedMaxIssuanceAmount amt a then (false, a) else
  if negb (isAvailableForIssuanceAmountSufficient amt a) then (false, a) else
  (true, with_ a (u64 (availableForIssueance a - amt)) (u64 (issued a + amt)) (pendingIssuance a)).

Definition canAddAvailableForIssuance amt a : bool :=
  let '(ok, available) := safeSum (availableForIssueance a) amt in
  if negb ok then false else
  let '(ok, n) := safeSum (issued a) available in
  if negb ok then false else n <? maxIssuanceAmount a.

Definition tryAddAvailableForIssuance amt a : bool * AssetEntry :=
  if negb (canAddAvailableForIssuance amt a) then (false, a) else
  (true, with_ a (u64 (availableForIssueance a + amt)) (issued a) (pendingIssuance a)).

Definition tryWithdraw amt a : bool * AssetEntry :=
  if issued a <? amt then (false, a) else
  (true, with_ a (availableForIssueance a) (u64 (issued a - amt)) (pendingIssuance a)).

Definition lockIssuedAmount amt a : bool * AssetEntry :=
  if willExceedMaxIssuanceAmount amt a then (false, a) else
  if negb (isAvailableForIssuanceAmountSufficient amt a) then (false, a) else
  (true, with_ a (u64 (availableForIssueance a - amt)) (issued a) (u64 (pendingIssuance a + amt))).

Definition mustUnlockIssuedAmount {S} amt a : M S AssetEntry :=
  if pendingIssuance a <? amt then throw (RuntimeError "Expected amount to be less then pending issuance") else
  let '(ok, available) := safeSum amt (availableForIssueance a) in
  if negb ok then throw (RuntimeError "Overflow on unlock issued amount. Failed to add availableForIssueance") else
  mret (with_ a available (issued a) (u64 (pendingIssuance a - amt))).

(** [ensureValid] does not throw. *)
Definition isValid a : bool :=
  let '(ok, total) := safeSum_all [issued a; pendingIssuance a] in
  if negb ok then false else
  if maxIssuanceAmount a <? total then false else
  isAssetCodeValid (assetCode a) && isValidJson (assetDetails a).

End AF.
End AF.

(** ** Requests *)

Record Fee := { fixed : Z; percent : Z }.

(** The other types of withdrawals have no details that are used. *)
Inductive WithdrawalDetails := AUTO_CONVERSION (destAsset : AssetCode) (expectedAmount : Z) | OTHER_WITHDRAWAL.

Record WithdrawalRequest := {
  wBalance : BalanceID;
  wAmount : Z;
  wUniversalAmount : Z;
  wFee : Fee;
  wExternalDetails : list Z;
  wDetails : WithdrawalDetails;
  wPreConfirmationDetails : list Z;
}.

Record IssuanceRequest := {
  iAsset : AssetCode;
  iAmount : Z;
  iReceiver : BalanceID;
  iExternalDetails : list Z;
  iFee : Fee;
}.

Record PreIssuanceRequest := {
  pAsset : AssetCode;
  pAmount : Z;
  pSignature : DecoratedSignature (list Z);
  pReference : list Z;
}.

Inductive ReviewableRequestType := T_ISSUANCE_CREATE | T_PRE_ISSUANCE_CREATE | T_WITHDRAW | T_TWO_STEP_WITHDRAWAL | T_ASSET_CREATE | T_ASSET_UPDATE | T_OTHER (n : Z).

Inductive RequestBody :=
| ISSUANCE_CREATE (r : IssuanceRequest)
| WITHDRAW (r : WithdrawalRequest)
| TWO_STEP_WITHDRAWAL (r : WithdrawalRequest)
| PRE_ISSUANCE_CREATE (r : PreIssuanceRequest)
| ASSET_CREATE (r : AssetCreationRequest)
| ASSET_UPDATE (r : AssetUpdateRequest)
| OTHER_REQUEST (n : Z) (bytes : list Z).

Record ReviewableRequestEntry := {
  requestID : Z;
  requestHash : list Z;
  requestBody : RequestBody;
  requestor : PublicKey;
  reviewer : PublicKey;
  reference : option (list Z);
  rejectReason : list Z;
  requestCreatedAt : Z;
}.

Global Instance ReviewableRequestType_eq_dec : EqDecision ReviewableRequestType.
Proof. solve_decision. Defined.
Global Instance Fee_eq_dec : EqDecision Fee.
Proof. solve_decision. Defined.
Global Instance WithdrawalDetails_eq_dec : EqDecision WithdrawalDetails.
Proof. solve_decision. Defined.
Global Instance WithdrawalRequest_eq_dec : EqDecision WithdrawalRequest.
Proof. solve_decision. Defined.
Global Instance IssuanceRequest_eq_dec : EqDecision IssuanceRequest.
Proof. solve_decision. Defined.
Global Instance DecoratedSignature_eq_dec Sig `{EqDecision Sig} : EqDecision (DecoratedSignature Sig).
Proof. solve_decision. Defined.
Global Instance PreIssuanceRequest_eq_dec : EqDecision PreIssuanceRequest.
Proof. solve_decision. Defined.
Global Instance AssetCreationRequest_eq_dec : EqDecision AssetCreationRequest.
Proof. solve_decision. Defined.
Global Instance AssetUpdateRequest_eq_dec : EqDecision AssetUpdateRequest.
Proof. solve_decision. Defined.
Global Instance RequestBody_eq_dec : EqDecision RequestBody.
Proof. solve_decision. Defined.
Global Instance ReviewableRequestEntry_eq_dec : EqDecision ReviewableRequestEntry.
Proof. solve_decision. Defined.

(** What the protocol and JSON libraries compute. *)
Record RequestParams := {
  isValidJson : list Z -> bool;
  calculateHash : RequestBody -> list Z;           (** [sha256(xdr_to_opaque(body))] *)
  otherRequestValid : Z -> list Z -> bool;         (** [ensureValid] of the other kinds *)
}.

Module RQ.
Section RQ.
Context (rp : RequestParams).
Implicit Types (r : ReviewableRequestEntry).

Definition getRequestType r : ReviewableRequestType :=
  match requestBody r with
  | ISSUANCE_CREATE _ => T_ISSUANCE_CREATE
  | WITHDRAW _ => T_WITHDRAW
  | TWO_STEP_WITHDRAWAL _ => T_TWO_STEP_WITHDRAWAL
  | PRE_ISSUANCE_CREATE _ => T_PRE_ISSUANCE_CREATE
  | ASSET_CREATE _ => T_ASSET_CREATE
  | ASSET_UPDATE _ => T_ASSET_UPDATE
  | OTHER_REQUEST n _ => T_OTHER n
  end.

(** [createNew(requestID, ...)], with the body, the hash and the reason as
    they are set afterwards by [recalculateHashRejectReason]. *)
Definition createNewWithHash (id : Z) (requestor_ reviewer_ : PublicKey) (reference_ : option (list Z)) (b : RequestBody) (createdAt_ : Z) : ReviewableRequestEntry :=
  {| requestID := id; requestHash := calculateHash rp b; requestBody := b; requestor := requestor_; reviewer := reviewer_; reference := reference_;
     rejectReason := []; requestCreatedAt := createdAt_ |}.

(** A new body, and [recalculateHashRejectReason]. *)
Definition setBody r (b : RequestBody) : ReviewableRequestEntry :=
  {| requestID := requestID r; requestHash := calculateHash rp b; requestBody := b; requestor := requestor r; reviewer := reviewer r; reference := reference r;
     rejectReason := []; requestCreatedAt := requestCreatedAt r |}.

Definition setRejectReason r (reason : list Z) : ReviewableRequestEntry :=
  {| requestID := requestID r; requestHash := requestHash r; requestBody := requestBody r; requestor := requestor r; reviewer := reviewer r; reference := reference r;
     rejectReason := reason; requestCreatedAt := requestCreatedAt r |}.

Definition issuanceValid (q : IssuanceRequest) : bool :=
  isAssetCodeValid (iAsset q) && negb (iAmount q =? 0) && isValidJson rp (iExternalDetails q).

Definition preIssuanceValid (q : PreIssuanceRequest) : bool := isAssetCodeValid (pAsset q) && negb (pAmount q =? 0).

Definition assetCreateValid (q : AssetCreationRequest) : bool := AF.isValid (isValidJson rp) (AF.create q []).

Definition assetUpdateValid (q : AssetUpdateRequest) : bool := isAssetCodeValid (auCode q) && isValidJson rp (auDetails q).

Definition withdrawalValid (q : WithdrawalRequest) : bool :=
  negb (wAmount q =? 0) && isValidJson rp (wExternalDetails q) &&
  match wDetails q with
  | AUTO_CONVERSION dest expected => isAssetCodeValid dest && negb (expected =? 0)
  | OTHER_WITHDRAWAL => true
  end.

(** [ensureValid] does not throw. *)
Definition isValid r : bool :=
  bool_decide (requestHash r = calculateHash rp (requestBody r)) &&
  match requestBody r with
  | ISSUANCE_CREATE q => issuanceValid q
  | WITHDRAW q | TWO_STEP_WITHDRAWAL q => withdrawalValid q
  | PRE_ISSUANCE_CREATE q => preIssuanceValid q
  | ASSET_CREATE q => assetCreateValid q
  | ASSET_UPDATE q => assetUpdateValid q
  | OTHER_REQUEST n bytes => otherRequestValid rp n bytes
  end.

(** [getTotalFee], [getTotalAmountToCharge] of [ReviewTwoStepWithdrawalRequestOpFrame] *)
Definition getTotalFee {S} (f : Fee) : M S Z :=
  let '(ok, totalFee) := safeSum (percent f) (fixed f) in
  if ok then mret totalFee else throw (RuntimeError "Failed to calculate total fee for withdrawal request").

Definition getTotalAmountToCharge {S} (q : WithdrawalRequest) : M S Z :=
  totalFee ← getTotalFee (wFee q);
  let '(ok, total) := safeSum (wAmount q) totalFee in
  if ok then mret total else throw (RuntimeError "Failed to calculate total amount to be charged for withdrawal request").

End RQ.
End RQ.
