(* ===== verification/OfferExchange.v ===== *)
(** * Matching two offers ([transactions/dex/OfferExchange.cpp],
      [transactions/dex/OfferManager.cpp], [ledger/OfferFrame.cpp])

    The arithmetic of a trade: the price, the amounts exchanged, the fees, and
    what they do to the offers and to the balances behind them.  The frames
    are passed as values; an exception leaves the operation, which discards
    them. *)

From S2P Require Import Prelude OrdContainers BigMath Signatures Balance.

Record OfferEntry := {
  offerID : Z;
  ownerID : PublicKey;
  orderBookID : Z;
  isBuy : bool;
  base : AssetCode;
  quote : AssetCode;
  baseBalance : BalanceID;
  quoteBalance : BalanceID;
  baseAmount : Z;
  quoteAmount : Z;
  createdAt : Z;
  fee : Z;
  percentFee : Z;
  price : Z;
}.

Global Instance OfferEntry_eq_dec : EqDecision OfferEntry.
Proof. solve_decision. Defined.

Inductive ExchangeResultType := NORMAL | RESULT_OVERFLOW.

Record ExchangeResult := {
  baseDelta : Z;
  quoteDelta : Z;
  buyerFee : Z;
  sellerFee : Z;
  matchPrice : Z;
  type : ExchangeResultType;
}.

Record ClaimOfferAtom := {
  bAccountID : PublicKey;
  claimOfferID : Z;
  claimBaseAmount : Z;
  claimQuoteAmount : Z;
  bFeePaid : Z;
  aFeePaid : Z;
  claimBaseBalance : BalanceID;
  claimQuoteBalance : BalanceID;
  currentPrice : Z;
}.

(** ** Offers *)

Module OF.

(** Assignments to the amounts of an offer. *)
Definition withAmounts (o : OfferEntry) (ba qa f : Z) : OfferEntry :=
  {| offerID := offerID o; ownerID := ownerID o; orderBookID := orderBookID o; isBuy := isBuy o; base := base o;
     quote := quote o; baseBalance := baseBalance o; quoteBalance := quoteBalance o; baseAmount := ba;
     quoteAmount := qa; createdAt := createdAt o; fee := f; percentFee := percentFee o; price := price o |}.

Definition isValid (o : OfferEntry) : bool :=
  isAssetCodeValid (base o) && isAssetCodeValid (quote o) && (baseAmount o >? 0) && (quoteAmount o >? 0) &&
  (price o >? 0) && (fee o >=? 0).

Definition getLockedAmount {S} (o : OfferEntry) : M S Z :=
  if negb (isBuy o) then mret (u64 (baseAmount o)) else
  let '(ok, result) := safeSum (u64 (quoteAmount o)) (u64 (fee o)) in
  if negb ok then throw (RuntimeError "Overflow on locked amount canculation") else mret result.

Definition getLockedBalance (o : OfferEntry) : BalanceID := if isBuy o then quoteBalance o else baseBalance o.

End OF.

Module OM.

Record ManageOfferOp := {
  opBaseBalance : BalanceID;
  opQuoteBalance : BalanceID;
  opIsBuy : bool;
  opAmount : Z;
  opPrice : Z;
  opFee : Z;
  opOfferID : Z;
  opOrderBookID : Z;
}.

Definition buildManageOfferOp (bb qb : BalanceID) (buy : bool) (amt p f id book : Z) : ManageOfferOp :=
  {| opBaseBalance := bb; opQuoteBalance := qb; opIsBuy := buy; opAmount := amt; opPrice := p; opFee := f;
     opOfferID := id; opOrderBookID := book |}.

(** [bigDivide] with its assertion. *)
Definition bigDivide {S} (old A B C : Z) (r : Rounding) : M S (bool * Z) :=
  match bigDivide_i64 old A B C r with Some p => mret p | None => throw Aborted end.

Definition calculateQuoteAmount {S} (baseAmount price : Z) : M S Z :=
  '(ok, result) ← bigDivide 0 baseAmount price ONE ROUND_DOWN;
  if negb ok then mret 0 else
  if result =? 0 then mret 0 else
  '(ok, result) ← bigDivide result baseAmount price ONE ROUND_UP;
  if negb ok then mret 0 else mret result.

(** The fields that are not assigned are zero. *)
Definition buildOffer {S} (sourceID : PublicKey) (op : ManageOfferOp) (b q : AssetCode) : M S (option OfferEntry) :=
  qa ← calculateQuoteAmount (opAmount op) (opPrice op);
  if qa =? 0 then mret None else
  mret (Some {| offerID := opOfferID op; ownerID := sourceID; orderBookID := opOrderBookID op; isBuy := opIsBuy op;
                base := b; quote := q; baseBalance := opBaseBalance op; quoteBalance := opQuoteBalance op;
                baseAmount := opAmount op; quoteAmount := qa; createdAt := 0; fee := 0; percentFee := 0;
                price := opPrice op |}).

End OM.

(** ** The trade *)

Module OE.

Definition getQuoteAmountBasedOnFee {S} (offer : OfferEntry) : M S (bool * Z) :=
  if percentFee offer =? 0 then mret (true, INT64_MAX)
  else OM.bigDivide 0 (fee offer) (100 * ONE) (percentFee offer) ROUND_DOWN.

Definition getMatchPrice (buy sell : OfferEntry) : Z :=
  if baseAmount buy =? baseAmount sell then price buy
  else if baseAmount buy >? baseAmount sell then price buy
  else price sell.

Definition setFeeToPay {S} (feeToPay quoteAmount percentFee : Z) : M S (bool * Z) :=
  OM.bigDivide feeToPay quoteAmount percentFee (100 * ONE) ROUND_UP.

Definition result_ (bd qd p : Z) (t : ExchangeResultType) : ExchangeResult :=
  {| baseDelta := bd; quoteDelta := qd; buyerFee := 0; sellerFee := 0; matchPrice := p; type := t |}.

(** [exchange(buyerBase, buyerQuote, sellerBase, sellerQuote, matchPrice)] *)
Definition exchangeAmounts {S} (buyerBase buyerQuote sellerBase sellerQuote matchPrice : Z) : M S ExchangeResult :=
  let bd := Z.min buyerBase sellerBase in
  '(ok, qd) ← OM.bigDivide 0 bd matchPrice ONE ROUND_UP;
  if negb ok then mret (result_ bd qd matchPrice RESULT_OVERFLOW) else
  if qd <=? buyerQuote then mret (result_ bd qd matchPrice NORMAL) else
  let qd := buyerQuote in
  '(ok, bd) ← OM.bigDivide bd qd ONE matchPrice ROUND_DOWN;
  if negb ok then mret (result_ bd qd matchPrice RESULT_OVERFLOW) else
  '(ok, quoteDeltaCandiate) ← OM.bigDivide 0 bd matchPrice ONE ROUND_UP;
  if negb ok then mret (result_ bd qd matchPrice RESULT_OVERFLOW) else
  let qd := if quoteDeltaCandiate <? qd then quoteDeltaCandiate else qd in
  mret (result_ bd qd matchPrice NORMAL).

Definition overflow : ExchangeResult := result_ 0 0 0 RESULT_OVERFLOW.

Definition withFees (m : ExchangeResult) (bf sf : Z) : ExchangeResult :=
  {| baseDelta := baseDelta m; quoteDelta := quoteDelta m; buyerFee := bf; sellerFee := sf;
     matchPrice := matchPrice m; type := type m |}.

(** [exchange(offerA, offerB)]: the second fee is only computed if the first
    one was. *)
Definition exchange {S} (offerA offerB : OfferEntry) : M S ExchangeResult :=
  let buyingOffer := if isBuy offerA then offerA else offerB in
  let sellingOffer := if isBuy offerA then offerB else offerA in
  let p := getMatchPrice buyingOffer sellingOffer in
  '(ok, quoteAmountBasedOnLockedFee) ← getQuoteAmountBasedOnFee buyingOffer;
  if negb ok then mret overflow else
  let buyingOfferQuoteAmount := Z.min quoteAmountBasedOnLockedFee (quoteAmount buyingOffer) in
  m ← exchangeAmounts (baseAmount buyingOffer) buyingOfferQuoteAmount (baseAmount sellingOffer)
        (quoteAmount sellingOffer) p;
  '(ok, bf) ← setFeeToPay 0 (quoteDelta m) (percentFee buyingOffer);
  if negb ok then mret overflow else
  '(ok, sf) ← setFeeToPay 0 (quoteDelta m) (percentFee sellingOffer);
  if negb ok then mret overflow else
  if sf >=? quoteDelta m then throw (RuntimeError "Fee to be charged can't be >= quote delta")
  else mret (withFees m bf sf).

Definition offerNeedsMore {S} (offer : OfferEntry) : M S bool :=
  let rest := (baseAmount offer >? 0) && (quoteAmount offer >? 0) in
  if isBuy offer then
    '(ok, quoteAmountBasedOnFee) ← getQuoteAmountBasedOnFee offer;
    if negb ok then mret false else
    let availableQuoteAmount := Z.min quoteAmountBasedOnFee (quoteAmount offer) in
    '(ok, canBuy) ← OM.bigDivide 0 availableQuoteAmount ONE (price offer) ROUND_DOWN;
    if negb ok || (canBuy =? 0) then mret false else mret rest
  else mret rest.

Definition createOfferClaim (offerB : OfferEntry) (m : ExchangeResult) : ClaimOfferAtom :=
  {| bAccountID := ownerID offerB; claimOfferID := offerID offerB; claimBaseAmount := baseDelta m;
     claimQuoteAmount := quoteDelta m; bFeePaid := if isBuy offerB then buyerFee m else sellerFee m;
     aFeePaid := if negb (isBuy offerB) then buyerFee m else sellerFee m; claimBaseBalance := baseBalance offerB;
     claimQuoteBalance := quoteBalance offerB; currentPrice := matchPrice m |}.

Section Balances.
Context (amountType : AmountType).

(** The balance operations used in sequence: the second is only run if the
    first succeeds. *)
Definition offerMatched {S} (offer : OfferEntry) (bb qb : BalanceEntry) (m : ExchangeResult)
    : M S (OfferEntry * BalanceEntry * BalanceEntry) :=
  let offer := OF.withAmounts offer (i64 (baseAmount offer - baseDelta m)) (i64 (quoteAmount offer - quoteDelta m)) (fee offer) in
  '(isBalanceValid, offer, bb, qb) ←
    (if isBuy offer then
       if buyerFee m <? 0 then throw Aborted else
       let amountToCharge := i64 (quoteDelta m + buyerFee m) in
       let '(ok, bb) := BF.addBalance amountType (baseDelta m) bb in
       let '(ok, qb) := if ok then BF.addLocked amountType (i64 (- amountToCharge)) qb else (false, qb) in
       mret (ok, OF.withAmounts offer (baseAmount offer) (quoteAmount offer) (i64 (fee offer - buyerFee m)), bb, qb)
     else
       let offer := OF.withAmounts offer (baseAmount offer) (Z.max (quoteAmount offer) 0) (fee offer) in
       if sellerFee m <? 0 then throw Aborted else
       let amountToAdd := i64 (quoteDelta m - sellerFee m) in
       if amountToAdd <=? 0 then throw Aborted else
       let '(ok, bb) := BF.addLocked amountType (i64 (- baseDelta m)) bb in
       let '(ok, qb) := if ok then BF.addBalance amountType amountToAdd qb else (false, qb) in
       mret (ok, offer, bb, qb));
  if negb isBalanceValid then throw (RuntimeError "Failed to handel offer match - unable to unlock balace") else
  if (baseAmount offer <? 0) || (quoteAmount offer <? 0) || (fee offer <? 0)
  then throw (RuntimeError "Failed to handel offer match - unable to update base or quote amount for offer")
  else mret (offer, bb, qb).

Definition unlockBalancesForTakenOffer {S} (offer : OfferEntry) (bb qb : BalanceEntry) : M S (BalanceEntry * BalanceEntry) :=
  let '(result, bb, qb) :=
    if isBuy offer then
      let lockedAmount := i64 (quoteAmount offer + fee offer) in
      let '(r, qb) := BF.lockBalance amountType (i64 (- lockedAmount)) qb in (r, bb, qb)
    else
      let '(r, bb) := BF.lockBalance amountType (i64 (- baseAmount offer)) bb in (r, bb, qb) in
  match result with
  | BF.SUCCESS => mret (bb, qb)
  | _ => throw (RuntimeError "Failed to mark offer as taken")
  end.

End Balances.
End OE.
