(* ===== verification/ExchangeFacts.v ===== *)
(** * Lemmas on matching two offers

    A match trades as much of the base asset as both offers have and the
    buyer can pay, at a price rounded up to the next unit of the quote asset;
    the fee the buyer has locked covers the fee of the match. *)

From S2P Require Import Prelude OrdContainers BigMath Signatures Balance OfferExchange.

Local Arguments Z.mul : simpl never.
Local Arguments Z.add : simpl never.

(** ** Rounded quotients *)

Lemma div_up_le n d q : 0 < d -> (div_round ROUND_UP n d <= q <-> n <= q * d).
Proof. intros Hd. cbn [div_round]. pose proof (Z.div_mod (n + d - 1) d). pose proof (Z.mod_pos_bound (n + d - 1) d). nia. Qed.

Lemma div_down_le n d q : 0 < d -> (q <= div_round ROUND_DOWN n d <-> q * d <= n).
Proof. intros Hd. cbn [div_round]. pose proof (Z.div_mod n d). pose proof (Z.mod_pos_bound n d). nia. Qed.

Lemma div_up_pos n d : 0 < n -> 0 < d -> 0 < div_round ROUND_UP n d.
Proof. intros Hn Hd. apply Z.lt_nge. intros Hle. apply div_up_le in Hle; lia. Qed.

Lemma bigDivide_ret {S} old A B C r (s : S) :
  0 <= A <= INT64_MAX -> 0 <= B <= INT64_MAX -> 0 < C <= INT64_MAX -> div_round r (A * B) C <= INT64_MAX ->
  OM.bigDivide old A B C r s = Ret (true, div_round r (A * B) C) s.
Proof.
  intros HA HB HC Hq. unfold OM.bigDivide. by rewrite (proj1 (bigDivide_i64_exact old A B C r HA HB HC) Hq).
Qed.

Lemma bigDivide_over {S} old A B C r (s : S) :
  0 <= A <= INT64_MAX -> 0 <= B <= INT64_MAX -> 0 < C <= INT64_MAX -> INT64_MAX < div_round r (A * B) C ->
  exists v, OM.bigDivide old A B C r s = Ret (false, v) s.
Proof.
  intros HA HB HC Hq. unfold OM.bigDivide.
  destruct (proj2 (bigDivide_i64_exact old A B C r HA HB HC) Hq) as [v ->]. by exists v.
Qed.

(** ** Offers *)

(** What [b] units of the base asset cost at a price. *)
Definition cost (p b : Z) : Z := div_round ROUND_UP (b * p) ONE.

(** A fee on an amount of the quote asset. *)
Definition feeOn (pf q : Z) : Z := div_round ROUND_UP (q * pf) (100 * ONE).

(** An offer whose amounts, and the cost of whose base amount, are in range. *)
Record tradable (o : OfferEntry) : Prop := {
  tr_base : 0 <= baseAmount o <= INT64_MAX;
  tr_quote : 0 <= quoteAmount o <= INT64_MAX;
  tr_price : 0 < price o <= INT64_MAX;
  tr_fee : 0 <= fee o <= INT64_MAX;
  tr_percent : 0 <= percentFee o <= 100 * ONE;
  tr_cost : cost (price o) (baseAmount o) <= INT64_MAX;
}.

(** How much of the quote asset the locked fee allows to spend; [None] if
    the quotient does not fit. *)
Definition feeLimit (o : OfferEntry) : option Z :=
  if percentFee o =? 0 then Some INT64_MAX else
  let l := fee o * (100 * ONE) / percentFee o in if l <=? INT64_MAX then Some l else None.

Definition spendable (o : OfferEntry) : option Z := option_map (fun l => Z.min l (quoteAmount o)) (feeLimit o).

Definition needsMore (o : OfferEntry) : bool :=
  (if isBuy o then
     match spendable o with
     | Some a => let canBuy := a * ONE / price o in (canBuy <=? INT64_MAX) && negb (canBuy =? 0)
     | None => false
     end
   else true) && (0 <? baseAmount o) && (0 <? quoteAmount o).

Lemma cost_mono p b b' : 0 <= p -> b <= b' -> cost p b <= cost p b'.
Proof. intros Hp Hb. unfold cost. apply div_up_le; [done|]. pose proof (proj1 (div_up_le (b' * p) ONE _ eq_refl) (Z.le_refl _)). nia. Qed.

Lemma cost_le p b q : cost p b <= q <-> b * p <= q * ONE.
Proof. by apply div_up_le. Qed.

Lemma cost_nonneg p b : 0 <= p -> 0 <= b -> 0 <= cost p b.
Proof. intros. apply div_round_nonneg; [nia|done]. Qed.

Lemma feeOn_nonneg pf q : 0 <= pf -> 0 <= q -> 0 <= feeOn pf q.
Proof. intros. apply div_round_nonneg; [nia|done]. Qed.

Lemma feeOn_le pf q : 0 <= pf <= 100 * ONE -> 0 <= q -> feeOn pf q <= q.
Proof. intros. apply div_up_le; [done|]. nia. Qed.

Section Facts.
Context {S : Type}.
Implicit Types (s : S) (o buy sell : OfferEntry).

Lemma feeLimit_bounds o l : tradable o -> feeLimit o = Some l -> 0 <= l <= INT64_MAX.
Proof.
  intros [_ _ _ Hf Hp _]. unfold feeLimit. destruct (Z.eqb_spec (percentFee o) 0); [by intros [= <-]|]. cbv zeta.
  destruct (Z.leb_spec (fee o * (100 * ONE) / percentFee o) INT64_MAX); [|done]. intros [= <-]. split; [|done].
  apply Z.div_pos; unfold ONE; lia.
Qed.

Lemma feeBased_spec o s : tradable o ->
  match feeLimit o with
  | Some l => OE.getQuoteAmountBasedOnFee o s = Ret (true, l) s
  | None => exists v, OE.getQuoteAmountBasedOnFee o s = Ret (false, v) s
  end.
Proof.
  intros [_ _ _ Hf Hp _]. unfold feeLimit, OE.getQuoteAmountBasedOnFee.
  destruct (Z.eqb_spec (percentFee o) 0); [done|]. cbv zeta. change (fee o * (100 * ONE) / percentFee o) with
    (div_round ROUND_DOWN (fee o * (100 * ONE)) (percentFee o)).
  assert (0 < percentFee o <= INT64_MAX) by (unfold ONE, INT64_MAX in *; lia).
  destruct (Z.leb_spec (div_round ROUND_DOWN (fee o * (100 * ONE)) (percentFee o)) INT64_MAX).
  - by rewrite bigDivide_ret.
  - by apply bigDivide_over.
Qed.

(** The fee of what may be spent is covered by the locked fee. *)
Lemma feeLimit_covers o l q : tradable o -> feeLimit o = Some l -> 0 <= q <= l -> feeOn (percentFee o) q <= fee o.
Proof.
  intros [_ _ _ Hf Hp _] Hl Hq. unfold feeLimit in Hl. apply div_up_le; [done|].
  destruct (Z.eqb_spec (percentFee o) 0) as [->|]; [unfold ONE; lia|]. cbv zeta in Hl.
  destruct (_ <=? _); [|done]. injection Hl as <-.
  pose proof (proj1 (div_down_le (fee o * (100 * ONE)) (percentFee o) q ltac:(lia))) as Hd. cbn [div_round] in Hd. lia.
Qed.

Lemma spendable_bounds o a : tradable o -> spendable o = Some a -> 0 <= a <= quoteAmount o.
Proof.
  intros Ho Ha. unfold spendable in Ha. destruct (feeLimit o) as [l|] eqn:El; [|done]. injection Ha as <-.
  pose proof (feeLimit_bounds o l Ho El). pose proof (tr_quote _ Ho). lia.
Qed.

Lemma spendable_covers o a q : tradable o -> spendable o = Some a -> 0 <= q <= a -> feeOn (percentFee o) q <= fee o.
Proof.
  intros Ho Ha Hq. unfold spendable in Ha. destruct (feeLimit o) as [l|] eqn:El; [|done]. injection Ha as <-.
  apply (feeLimit_covers o l); [done|done|lia].
Qed.

Lemma needsMore_spec o s : tradable o -> OE.offerNeedsMore o s = Ret (needsMore o) s.
Proof.
  intros Ho. unfold OE.offerNeedsMore, needsMore. rewrite !Z.gtb_ltb. destruct (isBuy o); [|done].
  unfold mbind, M_bind. pose proof (feeBased_spec o s Ho) as Hl. unfold spendable.
  destruct (feeLimit o) as [l|] eqn:El; [|destruct Hl as [v ->]; done]. rewrite Hl. clear Hl.
  pose proof (feeLimit_bounds o l Ho El) as Hl. cbn [negb option_map]. destruct Ho as [_ Hq Hp _ _ _].
  assert (0 <= Z.min l (quoteAmount o) <= INT64_MAX) as Ha by lia. assert (0 <= ONE <= INT64_MAX) as H1 by done.
  change (Z.min l (quoteAmount o) * ONE / price o) with (div_round ROUND_DOWN (Z.min l (quoteAmount o) * ONE) (price o)).
  destruct (Z.leb_spec (div_round ROUND_DOWN (Z.min l (quoteAmount o) * ONE) (price o)) INT64_MAX) as [Hd|Hd]; cbn [andb].
  - rewrite bigDivide_ret by done. cbn [negb orb]. by destruct (_ =? 0).
  - destruct (bigDivide_over 0 _ _ _ _ s Ha H1 Hp Hd) as [v ->]. done.
Qed.

(** ** The amounts of a match *)

(** Nothing larger could be traded. *)
Definition largest (p most a bd : Z) : Prop := 0 <= bd <= most /\ cost p bd <= a /\
  forall b, b <= most -> cost p b <= a -> b <= bd.

Lemma exchangeAmounts_spec bb bq sb sq p s : 0 <= bb <= INT64_MAX -> 0 <= sb <= INT64_MAX -> 0 <= bq <= INT64_MAX ->
  0 < p <= INT64_MAX -> cost p (Z.min bb sb) <= INT64_MAX ->
  exists bd, OE.exchangeAmounts bb bq sb sq p s = Ret (OE.result_ bd (cost p bd) p NORMAL) s /\ largest p (Z.min bb sb) bq bd.
Proof.
  intros Hb Hs Hq Hp Hc. unfold OE.exchangeAmounts, mbind, M_bind. set (most := Z.min bb sb) in *.
  assert (0 <= most <= INT64_MAX) as Hm by lia. assert (0 < ONE <= INT64_MAX) as H1 by done.
  rewrite bigDivide_ret by (done || lia). cbn [negb]. fold (cost p most).
  destruct (Z.leb_spec (cost p most) bq) as [Hle|Hgt].
  - exists most. split; [done|]. split_and!; lia || done.
  - assert (div_round ROUND_DOWN (bq * ONE) p <= most) as Hlt.
    { apply Z.le_ngt. intros Hlt. apply Z.lt_nge in Hgt. apply Hgt. apply cost_le.
      pose proof (proj1 (div_down_le (bq * ONE) p (most + 1) ltac:(lia)) ltac:(lia)). nia. }
    pose proof (div_round_nonneg ROUND_DOWN (bq * ONE) p ltac:(lia) ltac:(lia)) as H0.
    rewrite bigDivide_ret by (done || lia). cbn [negb]. set (bd := div_round ROUND_DOWN (bq * ONE) p) in *.
    assert (cost p bd <= bq) as Hcb.
    { apply cost_le. apply (proj1 (div_down_le (bq * ONE) p bd ltac:(lia))). lia. }
    fold (cost p bd). unfold cost in Hcb. rewrite bigDivide_ret by (done || lia). cbn [negb]. fold (cost p bd) in Hcb |- *.
    exists bd. split.
    { unfold mret, M_ret. do 2 f_equal. destruct (Z.ltb_spec (cost p bd) bq); lia. }
    split_and!; [lia|lia|done|]. intros b _ Hcost. apply cost_le in Hcost. by apply div_down_le; [lia|].
Qed.

(** The match of a buy and a sell offer. *)
Record matches buy sell (m : ExchangeResult) : Prop := {
  ma_type : type m = NORMAL;
  ma_price : matchPrice m = OE.getMatchPrice buy sell;
  ma_quote : quoteDelta m = cost (matchPrice m) (baseDelta m);
  ma_largest : exists a, spendable buy = Some a /\
    largest (matchPrice m) (Z.min (baseAmount buy) (baseAmount sell)) a (baseDelta m);
  ma_buyerFee : buyerFee m = feeOn (percentFee buy) (quoteDelta m);
  ma_sellerFee : sellerFee m = feeOn (percentFee sell) (quoteDelta m);
}.

Lemma matchPrice_in buy sell : OE.getMatchPrice buy sell = price buy \/ OE.getMatchPrice buy sell = price sell.
Proof. unfold OE.getMatchPrice. repeat destruct (_ : bool); auto. Qed.

Lemma matchPrice_cost buy sell : tradable buy -> tradable sell ->
  0 < OE.getMatchPrice buy sell <= INT64_MAX /\
  cost (OE.getMatchPrice buy sell) (Z.min (baseAmount buy) (baseAmount sell)) <= INT64_MAX.
Proof.
  intros [_ _ Hp1 _ _ Hc1] [_ _ Hp2 _ _ Hc2].
  destruct (matchPrice_in buy sell) as [-> | ->]; (split; [done|]).
  - etransitivity; [apply cost_mono|exact Hc1]; lia.
  - etransitivity; [apply cost_mono|exact Hc2]; lia.
Qed.

Lemma matches_bounds buy sell m : tradable buy -> tradable sell -> matches buy sell m ->
  0 <= baseDelta m <= Z.min (baseAmount buy) (baseAmount sell) /\ 0 <= quoteDelta m <= quoteAmount buy /\
  0 <= buyerFee m <= fee buy /\ 0 <= sellerFee m <= quoteDelta m.
Proof.
  intros Hb Hs [_ Hp Hq (a & Ha & Hd & Hc & _) Hbf Hsf].
  destruct (matchPrice_cost buy sell Hb Hs) as [Hpp _]. rewrite <- Hp in Hpp.
  pose proof (spendable_bounds buy a Hb Ha) as Ha'. pose proof (tr_percent _ Hb). pose proof (tr_percent _ Hs).
  assert (0 <= quoteDelta m) by (rewrite Hq; apply cost_nonneg; lia).
  assert (quoteDelta m <= a) by lia. split; [done|]. split; [lia|]. rewrite Hbf, Hsf. split.
  - split; [apply feeOn_nonneg; lia|]. by apply (spendable_covers buy a).
  - split; [apply feeOn_nonneg; lia|]. apply feeOn_le; lia.
Qed.

(** Buying and selling sides of two offers of opposite kinds. *)
Definition buySide (a b : OfferEntry) : OfferEntry := if isBuy a then a else b.
Definition sellSide (a b : OfferEntry) : OfferEntry := if isBuy a then b else a.

(** [exchange] gives the match, unless the seller's fee is all of it. *)
Lemma exchange_spec a b s : tradable a -> tradable b -> spendable (buySide a b) <> None ->
  exists m, matches (buySide a b) (sellSide a b) m /\
    OE.exchange a b s = if sellerFee m >=? quoteDelta m
                        then Throw (RuntimeError "Fee to be charged can't be >= quote delta") s else Ret m s.
Proof.
  intros Ha Hb. unfold OE.exchange. fold (buySide a b) (sellSide a b).
  assert (tradable (buySide a b)) as Hbuy by (unfold buySide; by destruct (isBuy a)).
  assert (tradable (sellSide a b)) as Hsell by (unfold sellSide; by destruct (isBuy a)).
  set (buy := buySide a b) in *. set (sell := sellSide a b) in *. clearbody buy sell. clear a b Ha Hb.
  intros Hsp. unfold mbind, M_bind. unfold spendable in Hsp.
  pose proof (feeBased_spec buy s Hbuy) as Hl. destruct (feeLimit buy) as [l|] eqn:El; [|done].
  rewrite Hl. cbn [negb]. clear Hl. pose proof (feeLimit_bounds buy l Hbuy El) as Hl. set (q := Z.min l (quoteAmount buy)).
  destruct (matchPrice_cost buy sell Hbuy Hsell) as [Hp Hc].
  assert (spendable buy = Some q) as Hq by (unfold spendable; by rewrite El).
  pose proof (spendable_bounds buy q Hbuy Hq) as Hqb. pose proof (tr_quote _ Hbuy) as Hqm.
  destruct (exchangeAmounts_spec (baseAmount buy) q (baseAmount sell) (quoteAmount sell) (OE.getMatchPrice buy sell) s
    (tr_base _ Hbuy) (tr_base _ Hsell) ltac:(lia) Hp Hc) as (bd & -> & Hlarge).
  cbn [OE.result_ quoteDelta]. set (p := OE.getMatchPrice buy sell) in *.
  assert (0 <= cost p bd <= q) as Hcost by (split; [apply cost_nonneg; destruct Hlarge; lia|apply Hlarge]).
  assert (forall o, tradable o -> feeOn (percentFee o) (cost p bd) <= INT64_MAX) as Hfee.
  { intros o Ho. pose proof (feeOn_le _ (cost p bd) (tr_percent _ Ho)). lia. }
  assert (forall o, tradable o -> OE.setFeeToPay 0 (cost p bd) (percentFee o) s = Ret (true, feeOn (percentFee o) (cost p bd)) s) as Hset.
  { intros o Ho. pose proof (tr_percent _ Ho). apply bigDivide_ret; [lia|unfold ONE, INT64_MAX in *; lia|done|by apply Hfee]. }
  rewrite (Hset buy Hbuy). cbn [negb]. rewrite (Hset sell Hsell). cbn [negb].
  exists (OE.withFees (OE.result_ bd (cost p bd) p NORMAL) (feeOn (percentFee buy) (cost p bd)) (feeOn (percentFee sell) (cost p bd))).
  split; [|cbn [OE.withFees OE.result_ sellerFee quoteDelta]; by destruct (_ >=? _)].
  split; cbn; try done. by exists q.
Qed.

Lemma matches_unique buy sell m m' : matches buy sell m -> matches buy sell m' -> m' = m.
Proof.
  intros [T1 P1 Q1 (a & A1 & L1) B1 S1] [T2 P2 Q2 (a' & A2 & L2) B2 S2]. assert (a' = a) as -> by congruence.
  assert (baseDelta m' = baseDelta m) as Hb.
  { destruct L1 as (? & ? & M1), L2 as (? & ? & M2). rewrite P1, P2 in *.
    assert (baseDelta m' <= baseDelta m) by (apply M1; lia). assert (baseDelta m <= baseDelta m') by (apply M2; lia). lia. }
  destruct m, m'; cbn in *. subst. done.
Qed.

(** Crossing offers trade something. *)
Lemma matches_positive buy sell m : tradable buy -> tradable sell -> isBuy buy = true -> needsMore buy = true ->
  needsMore sell = true -> price sell <= price buy -> matches buy sell m -> 0 < baseDelta m /\ 0 < quoteDelta m.
Proof.
  intros Hb Hs Hbuy Hn Hns Hcross Hm. pose proof (ma_quote _ _ _ Hm) as Hq. destruct (ma_largest _ _ _ Hm) as (a & Ha & _ & _ & Hmax).
  destruct (matchPrice_cost buy sell Hb Hs) as [Hp _]. rewrite <- (ma_price _ _ _ Hm) in Hp.
  assert (matchPrice m <= price buy) as Hle by (rewrite (ma_price _ _ _ Hm); destruct (matchPrice_in buy sell) as [-> | ->]; lia).
  assert (price buy <= a * ONE) as Hafford.
  { unfold needsMore in Hn. rewrite Hbuy, Ha in Hn. cbv zeta in Hn. zify_bool.
    pose proof (tr_price _ Hb). pose proof (spendable_bounds _ _ Hb Ha).
    pose proof (proj1 (div_down_le (a * ONE) (price buy) 1 ltac:(lia))) as Hd. cbn [div_round] in Hd.
    pose proof (Z.div_pos (a * ONE) (price buy) ltac:(unfold ONE; lia) ltac:(lia)). lia. }
  assert (0 < baseDelta m) as Hbd.
  { specialize (Hmax 1). unfold needsMore in Hn, Hns. zify_bool.
    assert (1 <= baseDelta m); [|lia]. apply Hmax; [lia|]. apply cost_le. lia. }
  split; [done|]. rewrite Hq. apply div_up_pos; [nia|done].
Qed.

End Facts.

(** ** What a match does to an offer and its balances *)

(** What an offer has locked. *)
Definition lockOf (o : OfferEntry) : Z := if isBuy o then quoteAmount o + fee o else baseAmount o.

Definition matched (o : OfferEntry) (m : ExchangeResult) : OfferEntry :=
  if isBuy o then OF.withAmounts o (baseAmount o - baseDelta m) (quoteAmount o - quoteDelta m) (fee o - buyerFee m)
  else OF.withAmounts o (baseAmount o - baseDelta m) (Z.max (quoteAmount o - quoteDelta m) 0) (fee o).

Definition baseAfter (o : OfferEntry) (m : ExchangeResult) (bb : BalanceEntry) : BalanceEntry :=
  if isBuy o then BF.setAmount bb (amount bb + baseDelta m) else BF.setLocked bb (locked bb - baseDelta m).

Definition quoteAfter (o : OfferEntry) (m : ExchangeResult) (qb : BalanceEntry) : BalanceEntry :=
  if isBuy o then BF.setLocked qb (locked qb - (quoteDelta m + buyerFee m))
  else BF.setAmount qb (amount qb + (quoteDelta m - sellerFee m)).

(** A match within what the offer and its balances have. *)
Record fits (o : OfferEntry) (m : ExchangeResult) (bb qb : BalanceEntry) : Prop := {
  fi_bb : inRange bb;
  fi_qb : inRange qb;
  fi_base : 0 <= baseDelta m <= baseAmount o;
  fi_quote : 0 < quoteDelta m <= INT64_MAX;
  fi_buyerFee : 0 <= buyerFee m;
  fi_sellerFee : 0 <= sellerFee m < quoteDelta m;
  fi_side : if isBuy o
    then quoteDelta m <= quoteAmount o /\ buyerFee m <= fee o /\ lockOf o <= locked qb /\ funds bb + baseDelta m <= INT64_MAX
    else lockOf o <= locked bb /\ funds qb + (quoteDelta m - sellerFee m) <= INT64_MAX;
}.

Section MatchFacts.
Context (amountType : AmountType) {S : Type}.
Implicit Types (s : S) (o : OfferEntry) (m : ExchangeResult) (bb qb : BalanceEntry).

Lemma offerMatched_spec o m bb qb s : tradable o -> fits o m bb qb ->
  OE.offerMatched amountType o bb qb m s = Ret (matched o m, baseAfter o m bb, quoteAfter o m qb) s.
Proof.
  intros Ho [Hbb Hqb Hbd Hqd Hbf Hsf Hside].
  pose proof (tr_base _ Ho) as Hb. pose proof (tr_quote _ Ho) as Hq. pose proof (tr_fee _ Ho) as Hf.
  destruct Hbb as (Hba & Hbl & Hbfu) eqn:EB. destruct Hqb as (Hqa & Hql & Hqfu) eqn:EQ. clear EB EQ. unfold lockOf, funds in *.
  unfold OE.offerMatched, matched, baseAfter, quoteAfter, mbind, M_bind.
  rewrite (i64_small (baseAmount o - baseDelta m)), (i64_small (quoteAmount o - quoteDelta m)) by word_lia.
  cbn [OF.withAmounts isBuy baseAmount quoteAmount fee].
  destruct (isBuy o) eqn:Eb.
  - destruct Hside as (H1 & H2 & H3 & H4). rewrite (proj2 (Z.ltb_ge (buyerFee m) 0)) by lia.
    pose proof (addBalance_spec amountType bb (baseDelta m) (conj Hba (conj Hbl Hbfu)) ltac:(word_lia)) as Ha.
    rewrite (proj2 (Z.leb_le 0 (amount bb + baseDelta m))), (proj2 (Z.leb_le (funds bb + baseDelta m) INT64_MAX)) in Ha by (unfold funds; lia).
    cbn [andb] in Ha. rewrite Ha. rewrite (i64_small (quoteDelta m + buyerFee m)), (i64_small (- _)) by word_lia.
    rewrite (addLocked_charge amountType qb (quoteDelta m + buyerFee m)) by (unfold inRange, funds; lia).
    unfold mret, M_ret, OF.withAmounts. cbn. rewrite !(proj2 (Z.ltb_ge _ 0)) by word_lia.
    cbn. by rewrite i64_small by word_lia.
  - destruct Hside as (H1 & H2). rewrite (proj2 (Z.ltb_ge (sellerFee m) 0)) by lia.
    rewrite (i64_small (quoteDelta m - sellerFee m)) by word_lia. rewrite (proj2 (Z.leb_gt _ 0)) by lia.
    rewrite (i64_small (- _)) by word_lia.
    rewrite (addLocked_charge amountType bb (baseDelta m)) by (unfold inRange, funds; lia).
    pose proof (addBalance_spec amountType qb (quoteDelta m - sellerFee m) (conj Hqa (conj Hql Hqfu)) ltac:(word_lia)) as Ha.
    rewrite (proj2 (Z.leb_le 0 (amount qb + _))), (proj2 (Z.leb_le (funds qb + _) INT64_MAX)) in Ha by (unfold funds; lia).
    cbn [andb] in Ha. rewrite Ha. unfold mret, M_ret, OF.withAmounts. cbn.
    by rewrite !(proj2 (Z.ltb_ge _ 0)) by lia.
Qed.

Lemma matched_tradable o m bb qb : tradable o -> fits o m bb qb -> tradable (matched o m).
Proof.
  intros [Hb Hq Hp Hf Hpf Hc] [_ _ Hbd Hqd Hbf Hsf Hside]. unfold matched. destruct (isBuy o);
    (split; cbn [OF.withAmounts baseAmount quoteAmount price fee percentFee]; [lia|lia|done|lia|done|]);
    (etransitivity; [apply cost_mono|exact Hc]; lia).
Qed.

(** What is given back when an offer is gone. *)
Definition releasedBase o bb : BalanceEntry :=
  if isBuy o then bb else BF.with_ bb (amount bb + baseAmount o) (locked bb - baseAmount o).
Definition releasedQuote o qb : BalanceEntry :=
  if isBuy o then BF.with_ qb (amount qb + (quoteAmount o + fee o)) (locked qb - (quoteAmount o + fee o)) else qb.

Lemma unlockTaken_spec o bb qb s : inRange bb -> inRange qb -> 0 <= baseAmount o -> 0 <= quoteAmount o -> 0 <= fee o ->
  lockOf o <= (if isBuy o then locked qb else locked bb) ->
  OE.unlockBalancesForTakenOffer amountType o bb qb s = Ret (releasedBase o bb, releasedQuote o qb) s.
Proof.
  intros Hbb Hqb Hb Hq Hf Hl. unfold OE.unlockBalancesForTakenOffer, releasedBase, releasedQuote, lockOf in *.
  pose proof Hbb as (Hba & Hbl & Hbfu). pose proof Hqb as (Hqa & Hql & Hqfu). unfold funds in *. destruct (isBuy o).
  - rewrite (i64_small (quoteAmount o + fee o)), (i64_small (- _)) by word_lia. by rewrite lockBalance_unlock by (done || lia).
  - rewrite (i64_small (- _)) by word_lia. by rewrite lockBalance_unlock by (done || lia).
Qed.

End MatchFacts.
