(* ===== verification/DexStore.v ===== *)
(** * The entries the exchange works on ([ledger/BalanceHelper.cpp],
      [ledger/OfferHelper.cpp], [ledger/AssetPairFrame.cpp],
      [ledger/AssetPairHelper.cpp], [ledger/FeeHelper.cpp],
      [ledger/FeeFrame.cpp], [ledger/AssetHelper.cpp],
      [transactions/FeesManager.cpp], [transactions/AccountManager.cpp])

    A frame is an entry of a known type: its data and the ledger that last
    modified it.  [EntryData] is the union of [LedgerEntry] seen from one of
    its types.  The queries select rows of the store; [orderBy] is the
    [ORDER BY] of a statement.  What the protocol definitions fix (the numbers
    of enumerators) and the cryptographic encodings are parameters. *)

From S2P Require Import Prelude OrdContainers BigMath LedgerDelta EntryStore Signatures LedgerHeader TxSet Statistics Balance Assets OfferExchange.

Record Frame {T : Type} := { lastModified : Z; data : T }.
Arguments Frame : clear implicits.

Definition withData {T} (f : Frame T) (d : T) : Frame T := {| lastModified := lastModified f; data := d |}.

Global Instance Frame_eq_dec T `{EqDecision T} : EqDecision (Frame T).
Proof. solve_decision. Defined.

Record AssetPairEntry := {
  pairBase : AssetCode;
  pairQuote : AssetCode;
  pairCurrentPrice : Z;
  physicalPrice : Z;
  physicalPriceCorrection : Z;
  maxPriceStep : Z;
  pairPolicies : Z;
}.

(** What is read of a fee; its helper checked the rest when it stored it. *)
Record FeeEntry := {
  feeType : Z;
  feeAsset : AssetCode;
  fixedFee : Z;
  entryPercentFee : Z;
  feeSubtype : Z;
  lowerBound : Z;
  upperBound : Z;
  feeHash : list Z;
}.

(** What an account may spend per day, week, month and year. *)
Record Limits := { dailyOut : Z; weeklyOut : Z; monthlyOut : Z; annualOut : Z }.

(** The type of a ledger key, as far as operations on money write entries of
    the type. *)
Inductive EntryKind := KIND_BALANCE | KIND_OFFER | KIND_PAIR | KIND_ASSET | KIND_REQUEST | KIND_STATISTICS | KIND_REFERENCE | KIND_OTHER.

(** A type of entries in the union. *)
Class EntryData (Entry T : Type) := {
  fromEntry : Entry -> option (Frame T);
  toEntry : Frame T -> Entry;
}.

Class DexEntries (Key Entry : Type) := {
  balanceData :: EntryData Entry BalanceEntry;
  offerData :: EntryData Entry OfferEntry;
  pairData :: EntryData Entry AssetPairEntry;
  assetData :: EntryData Entry AssetEntry;
  requestData :: EntryData Entry ReviewableRequestEntry;
  statData :: EntryData Entry StatisticsEntry;
  referenceData :: EntryData Entry (PublicKey * list Z);       (** sender and reference *)
  requestParams : RequestParams;
  asFee : Entry -> option FeeEntry;
  dexAsAccount : Entry -> option AccountEntry;
  balanceKey : BalanceID -> Key;
  offerKey : Z -> PublicKey -> Key;
  pairKey : AssetCode -> AssetCode -> Key;
  assetKey : AssetCode -> Key;
  dexAccountKey : PublicKey -> Key;
  asLimits : Entry -> option Limits;
  requestKey : Z -> Key;
  statKey : PublicKey -> Key;
  referenceKey : PublicKey -> list Z -> Key;
  limitsKey : PublicKey -> Key;
  typeLimitsKey : AccountType -> Key;
  keyKind : Key -> EntryKind;
}.

(** Enumerators and encodings that the exchange uses. *)
Record DexParams := {
  amountType : AmountType;
  PHYSICAL_PRICE_RESTRICTION : Z;
  TRADEABLE_SECONDARY_MARKET : Z;
  REQUIRES_KYC : Z;
  OFFER_FEE : Z;
  BALANCE_TYPE : Z;
  OFFER_TYPE : Z;
  isFeeTypeValid : Z -> bool;
  balanceToStrKey : BalanceID -> list Z;                 (** [BalanceKeyUtils::toStrKey] *)
  forAccount : PublicKey -> Z -> BalanceID;              (** [BalanceKeyUtils::forAccount] *)
  calcHash : Z -> AssetCode -> option PublicKey -> option AccountType -> Z -> list Z;   (** [FeeFrame::calcHash] *)
}.

Definition SECONDARY_MARKET_ORDER_BOOK_ID : Z := 0.
Definition SUBTYPE_ANY : Z := 0.

(** ** Asset pairs *)

Module AP.

Definition setCurrentPrice (p : AssetPairEntry) (price : Z) : AssetPairEntry :=
  {| pairBase := pairBase p; pairQuote := pairQuote p; pairCurrentPrice := price; physicalPrice := physicalPrice p;
     physicalPriceCorrection := physicalPriceCorrection p; maxPriceStep := maxPriceStep p; pairPolicies := pairPolicies p |}.

Definition isValid (p : AssetPairEntry) : bool :=
  isAssetCodeValid (pairBase p) && isAssetCodeValid (pairQuote p) && (pairCurrentPrice p >=? 0) &&
  (maxPriceStep p >=? 0) && (physicalPrice p >=? 0) && (physicalPriceCorrection p >=? 0).

Definition checkPolicy (p : AssetPairEntry) (policy : Z) : bool := Z.land (pairPolicies p) policy =? policy.

Definition getPhysicalPriceWithCorrection {S} (p : AssetPairEntry) : M S (bool * Z) :=
  OM.bigDivide 0 (physicalPrice p) (physicalPriceCorrection p) (100 * ONE) ROUND_UP.

Definition getMinPriceInTermsOfPhysical {S} (dp : DexParams) (p : AssetPairEntry) : M S Z :=
  if checkPolicy p (PHYSICAL_PRICE_RESTRICTION dp) then
    '(ok, r) ← getPhysicalPriceWithCorrection p;
    if negb ok then throw (RuntimeError "Physical price calculation overflow") else mret r
  else mret 0.

Definition getMinAllowedPrice {S} (dp : DexParams) (p : AssetPairEntry) : M S Z := getMinPriceInTermsOfPhysical dp p.

End AP.

(** ** The helpers *)

Module DS.
Section DS.
Context {Key Entry : Type} `{Ord Key} `{EqDecision Entry}.
Context {helper : EntryHelper Key Entry LedgerHeader} {dex : DexEntries Key Entry} (dp : DexParams) (max_size : nat).
Context (orderBy : (Frame OfferEntry -> Frame OfferEntry -> bool) -> list (Frame OfferEntry) -> list (Frame OfferEntry)).
Local Abbreviation St := (Store Key Entry LedgerHeader).

(** The rows of a type. *)
Definition rowsOf {T} `{EntryData Entry T} (s : St) : list (Frame T) := omap fromEntry (sRows s).

Definition record {T} `{EntryData Entry T} (f : Frame T) : M St unit := ES.onDelta (LD.recordEntry getLedgerKey (toEntry f)).

(** [EntryHelperProvider::storeChangeEntry], [storeAddEntry], [storeDeleteEntry] on a frame *)
Definition storeChangeEntry {T} `{EntryData Entry T} (f : Frame T) : M St unit := ES.storeChange (toEntry f).
Definition storeAddEntry {T} `{EntryData Entry T} (f : Frame T) : M St unit := ES.storeAdd (toEntry f).
Definition storeDeleteEntry {T} `{EntryData Entry T} (f : Frame T) : M St unit := ES.storeDelete (getLedgerKey (toEntry f)).

(** *** Balances *)

(** [loadBalances(prep, ...)]: the rows a statement gives, the last of which
    is kept by the callers. *)
Definition checkedBalances (rows : list (Frame BalanceEntry)) : M St (option (Frame BalanceEntry)) :=
  if forallb (fun f => BF.isValid (data f)) rows then mret (last rows) else throw (RuntimeError "Invalid Recovery request").

Definition recorded {T} `{EntryData Entry T} (withDelta : bool) (r : option (Frame T)) : M St (option (Frame T)) :=
  match r with Some f => when withDelta (record f);; mret (Some f) | None => mret None end.

(** [loadBalance(balanceID, db, delta)] *)
Definition loadBalance (withDelta : bool) (id : BalanceID) : M St (option (Frame BalanceEntry)) :=
  s ← get;
  r ← checkedBalances (match ES.selectRow s (balanceKey id) with Some e => option_list (fromEntry e) | None => [] end);
  recorded withDelta r.

(** The row that [ORDER BY balance_id DESC LIMIT 1] gives. *)
Fixpoint greatestBalance (l : list (Frame BalanceEntry)) : option (Frame BalanceEntry) :=
  match l with
  | [] => None
  | f :: r =>
      match greatestBalance r with
      | Some g => if ltb (balanceToStrKey dp (balanceID (data f))) (balanceToStrKey dp (balanceID (data g))) then Some g else Some f
      | None => Some f
      end
  end.

(** [loadBalance(account, asset, db, delta)] *)
Definition loadBalanceFor (withDelta : bool) (account : PublicKey) (asset : AssetCode) : M St (option (Frame BalanceEntry)) :=
  s ← get;
  r ← checkedBalances (option_list (greatestBalance (List.filter
        (fun f => bool_decide (balAccountID (data f) = account) && bool_decide (balAsset (data f) = asset)) (rowsOf s))));
  recorded withDelta r.

(** *** Offers *)

Definition checkedOffers (rows : list (Frame OfferEntry)) : M St (list (Frame OfferEntry)) :=
  if forallb (fun f => OF.isValid (data f)) rows then mret rows else throw (RuntimeError "Unexpected state - offer is invalid").

(** [loadOffer(accountID, offerID, orderBookID, db, delta)], with the
    overload it calls *)
Definition loadOffer (withDelta : bool) (account : PublicKey) (id book : Z) : M St (option (Frame OfferEntry)) :=
  s ← get;
  rows ← checkedOffers (match ES.selectRow s (offerKey id account) with Some e => option_list (fromEntry e) | None => [] end);
  offer ← recorded withDelta (last rows);
  match offer with
  | Some o => if negb (orderBookID (data o) =? book) then mret None else mret (Some o)
  | None => mret None
  end.

Definition betterOffer (buy : bool) (f g : Frame OfferEntry) : bool :=
  if price (data f) =? price (data g) then offerID (data f) <? offerID (data g)
  else if buy then price (data g) <? price (data f) else price (data f) <? price (data g).

Definition inBook (b q : AssetCode) (book : Z) (buy : bool) (f : Frame OfferEntry) : bool :=
  bool_decide (base (data f) = b) && bool_decide (quote (data f) = q) && (orderBookID (data f) =? book) &&
  Bool.eqb (isBuy (data f)) buy.

Definition loadBestOffers (numOffers offset : nat) (b q : AssetCode) (book : Z) (buy : bool) : M St (list (Frame OfferEntry)) :=
  s ← get;
  checkedOffers (take numOffers (drop offset (orderBy (betterOffer buy) (List.filter (inBook b q book buy) (rowsOf s))))).

(** [loadOffersWithFilters], with both or only the first of the filters *)
Definition loadOffersWithFilters (b q : AssetCode) (book : Z) (priceUpperBound : option Z) : M St (list (Frame OfferEntry)) :=
  s ← get;
  checkedOffers (List.filter (fun f => bool_decide (base (data f) = b) && bool_decide (quote (data f) = q) && (orderBookID (data f) =? book) &&
    match priceUpperBound with Some p => price (data f) <? p | None => true end) (rowsOf s)).

(** *** Asset pairs, assets, accounts *)

(** [AssetPairHelper::exists] *)
Definition assetPairExists (b q : AssetCode) : M St bool :=
  s ← get; mret (match ES.selectRow s (pairKey b q) with Some _ => true | None => false end).

(** [AssetPairHelper::loadAssetPair]: recorded only when it comes from the
    table. *)
Definition loadAssetPair (withDelta : bool) (b q : AssetCode) : M St (option (Frame AssetPairEntry)) :=
  s ← get;
  let k := pairKey b q in
  c ← ES.cachedEntryExists k;
  if (c : bool) then (r ← ES.getCachedEntry k; mret (r ≫= fromEntry)) else
  match ES.selectRow s k ≫= fromEntry with
  | None => ES.putCachedEntry max_size k None;; mret None
  | Some f =>
      if negb (AP.isValid (data f)) then throw (RuntimeError "Invalid asset pair") else
      when withDelta (record f);; ES.putCachedEntry max_size k (Some (toEntry f));; mret (Some f)
  end.

Definition assetExists (code : AssetCode) : M St bool :=
  s ← get; mret (match ES.selectRow s (assetKey code) with Some _ => true | None => false end).

(** [loadAccount(delta, accountID, db)] *)
Definition loadAccount (id : PublicKey) : M St (option AccountEntry) :=
  r ← ES.storeLoad max_size (dexAccountKey id);
  match r with
  | Some e => ES.onDelta (LD.recordEntry getLedgerKey e);; mret (dexAsAccount e)
  | None => mret None
  end.

(** [loadAsset(code, db, delta)]: the cached entry is recorded and not used. *)
Definition loadAsset (withDelta : bool) (code : AssetCode) : M St (option (Frame AssetEntry)) :=
  s ← get;
  let k := assetKey code in
  c ← ES.cachedEntryExists k;
  (if (c : bool) then (r ← ES.getCachedEntry k; match r ≫= fromEntry (T := AssetEntry) with Some f => when withDelta (record f) | None => mret tt end) else mret tt);;
  match ES.selectRow s k ≫= fromEntry with
  | None => ES.putCachedEntry max_size k None;; mret None
  | Some f =>
      if negb (AF.isValid (isValidJson requestParams) (data f)) then throw (RuntimeError "Asset entry is invalid") else
      when withDelta (record f);; ES.putCachedEntry max_size k (Some (toEntry f));; mret (Some f)
  end.

(** [loadAsset(code, owner, db, delta)] *)
Definition loadAssetOf (withDelta : bool) (code : AssetCode) (owner : PublicKey) : M St (option (Frame AssetEntry)) :=
  r ← loadAsset withDelta code;
  match r with
  | Some f => mret (if bool_decide (assetOwner (data f) = owner) then Some f else None)
  | None => mret None
  end.

Definition mustLoadAsset (withDelta : bool) (code : AssetCode) : M St (Frame AssetEntry) :=
  r ← loadAsset withDelta code;
  match r with
  | Some f => mret f
  | None => throw (RuntimeError "Expected asset to exist")
  end.

(** Throws a pointer to the exception, which no handler of
    [std::exception] catches. *)
Definition mustLoadAccount (id : PublicKey) : M St AccountEntry :=
  r ← ES.storeLoad max_size (dexAccountKey id);
  match r ≫= dexAsAccount with
  | Some a => mret a
  | None => throw (RuntimeErrorPtr "Expect account to exist")
  end.

(** [AccountManager::isAllowedToReceive] *)
Definition isAllowedToReceive (receivingBalance : BalanceID) : M St bool :=
  b ← loadBalance false receivingBalance;
  match b with
  | None => mret false
  | Some f =>
      receiver ← mustLoadAccount (balAccountID (data f));
      receivingAsset ← mustLoadAsset false (balAsset (data f));
      mret (negb (bool_decide (accountType receiver = NOT_VERIFIED) && AF.checkPolicy (data receivingAsset) (REQUIRES_KYC dp)))
  end.

(** [delta.getHeaderFrame().generateID(type)] *)
Definition generateID (type : Z) : M St Z := fun s =>
  let '(h, id) := LH.generateID type (mCurrentHeader (sDelta s)) in
  Ret id (ES.setDelta s (LD.setCurrentHeader (sDelta s) h)).

(** [AccountManager::loadOrCreateBalanceFrameForAsset] *)
Definition loadOrCreateBalanceFrameForAsset (account : PublicKey) (asset : AssetCode) : M St (Frame BalanceEntry) :=
  b ← loadBalanceFor true account asset;
  match b with
  | Some f => mret f
  | None =>
      e ← assetExists asset;
      if negb e then throw (RuntimeError "Unexpected db state: expected asset to exist") else
      id ← generateID (BALANCE_TYPE dp);
      let f := {| lastModified := 0; data := BF.createNew (forAccount dp account id) account asset |} in
      storeAddEntry f;; mret f
  end.

(** *** Fees *)

Definition feeIsValid (f : FeeEntry) : bool :=
  (fixedFee f >=? 0) && (entryPercentFee f >=? 0) && (entryPercentFee f <=? 100 * ONE) &&
  isFeeTypeValid dp (feeType f) && (lowerBound f <=? upperBound f).

(** [FeeHelper::loadForAccount]: a fee of the account, else of its type, else
    of everybody. *)
Definition loadForAccount (ftype : Z) (asset : AssetCode) (subtype : Z) (account : AccountEntry) (amt : Z) : M St (option FeeEntry) :=
  s ← get;
  let covers (h : list Z) (f : FeeEntry) :=
    bool_decide (feeHash f = h) && (lowerBound f <=? amt) && (amt <=? upperBound f) in
  let find_ h := List.find (covers h) (omap asFee (sRows s)) in
  let r := match find_ (calcHash dp ftype asset (Some (accountID account)) None subtype) with
           | Some f => Some f
           | None => match find_ (calcHash dp ftype asset None (Some (accountType account)) subtype) with
                     | Some f => Some f
                     | None => find_ (calcHash dp ftype asset None None subtype)
                     end
           end in
  match r with
  | Some f => if feeIsValid f then mret (Some f) else throw (RuntimeError "Invalid fee")
  | None => mret None
  end.

(** [FeeManager::FeeResult] *)
Record FeeResult := { resFixedFee : Z; resPercentFee : Z; calculatedPercentFee : Z; isOverflow : bool }.

(** [FeeFrame::calculatePercentFee(amount, result, rounding)] *)
Definition calculatePercentFee (f : FeeEntry) (amt : Z) (r : Rounding) : M St (bool * Z) :=
  if entryPercentFee f =? 0 then mret (true, 0) else
  match bigDivide_u64 amt (u64 (entryPercentFee f)) (100 * ONE) r with
  | Some p => mret p
  | None => throw Aborted
  end.

Definition calcualteFeeForAccount (account : AccountEntry) (ftype : Z) (asset : AssetCode) (subtype amt : Z) : M St FeeResult :=
  r ← loadForAccount ftype asset subtype account (i64 amt);
  match r with
  | None => mret {| resFixedFee := 0; resPercentFee := 0; calculatedPercentFee := 0; isOverflow := false |}
  | Some f =>
      '(ok, v) ← calculatePercentFee f amt ROUND_UP;
      mret {| resFixedFee := u64 (fixedFee f); resPercentFee := u64 (entryPercentFee f); calculatedPercentFee := v;
              isOverflow := negb ok |}
  end.

Definition calculateOfferFeeForAccount (account : AccountEntry) (quoteAsset : AssetCode) (amt : Z) : M St FeeResult :=
  calcualteFeeForAccount account (OFFER_FEE dp) quoteAsset SUBTYPE_ANY amt.

End DS.
End DS.
