(* ===== verification/AccountManager.v ===== *)
(** * What operations on money share ([transactions/AccountManager.cpp])

    Fees, statistics and limits of an account, with the loads they need of
    [ledger/AssetHelper.cpp], [ledger/AssetPairHelper.cpp],
    [ledger/AssetPairFrame.cpp], [ledger/StatisticsHelper.cpp],
    [ledger/AccountLimitsHelper.cpp], [ledger/AccountTypeLimitsHelper.cpp] and
    [ledger/ReviewableRequestHelper.cpp]. *)

From S2P Require Import Prelude OrdContainers BigMath LedgerDelta EntryStore Signatures LedgerHeader TxSet Statistics Balance Assets OfferExchange DexStore.

(** Enumerators of the protocol, and the configuration of the application. *)
Record MoneyParams := {
  STATS_QUOTE_ASSET : Z;
  WITHDRAWABLE : Z;
  TWO_STEP_POLICY : Z;                  (** [AssetPolicy::TWO_STEP_WITHDRAWAL] *)
  WITHDRAWAL_FEE : Z;
  ISSUANCE_FEE : Z;
  BASE_ASSET : Z;
  assetPolicyFlags : list Z;            (** the values of [AssetPolicy] *)
  systemAccounts : list PublicKey;      (** [Application::getSystemAccounts] *)
  REQUEST_TYPE : Z;                     (** [LedgerEntryType::REVIEWABLE_REQUEST] *)
  withdrawalDetailsMaxLength : nat;
  issuanceDetailsMaxLength : nat;
  masterID : PublicKey;
  signatureData : list Z -> Z -> AssetCode -> list Z;             (** the hash of [reference:amount:asset] *)
  verifySig : list Z -> PublicKey -> list Z -> bool;              (** [PubKeyUtils::verifySig], the hash first *)
}.

(** [AccountLimitsFrame::isValid], and the same of the limits of a type *)
Definition limitsValid (l : Limits) : bool :=
  negb (dailyOut l >? weeklyOut l) && negb (weeklyOut l >? monthlyOut l) && negb (monthlyOut l >? annualOut l).

Module AM.
Section AM.
Context {Key Entry : Type} `{Ord Key} `{EqDecision Entry}.
Context {helper : EntryHelper Key Entry LedgerHeader} {dex : DexEntries Key Entry} (dp : DexParams) (mp : MoneyParams) (max_size : nat).
Context (commissionID : PublicKey) (closeTime : Z).
Local Abbreviation St := (Store Key Entry LedgerHeader).

Inductive Result := SUCCESS | LINE_FULL | UNDERFUNDED | STATS_OVERFLOW | LIMITS_EXCEEDED.

(** ** Loads *)

(** [AssetHelper::loadStatsAsset]: the last row of the statement. *)
Definition loadStatsAsset : M St (option (Frame AssetEntry)) :=
  s ← get;
  let rows := List.filter (fun f => isSetFlag (assetPolicies (data f)) (STATS_QUOTE_ASSET mp)) (DS.rowsOf s) in
  if forallb (fun f => AF.isValid (isValidJson requestParams) (data f)) rows then mret (last rows)
  else throw (RuntimeError "Asset entry is invalid").

(** [AssetPairHelper::tryLoadAssetPairForAssets], without a delta *)
Definition tryLoadAssetPairForAssets (code1 code2 : AssetCode) : M St (option (Frame AssetPairEntry)) :=
  r ← DS.loadAssetPair max_size false code1 code2;
  match r with
  | Some p => mret (Some p)
  | None => DS.loadAssetPair max_size false code2 code1
  end.

(** [AssetPairFrame::convertAmount]; a price of zero only divides. *)
Definition convertAmount (p : AssetPairEntry) (code : AssetCode) (amt : Z) (r : Rounding) : M St (bool * Z) :=
  let currentPrice := u64 (pairCurrentPrice p) in
  match (if bool_decide (pairQuote p = code) then bigDivide_u64 amt currentPrice ONE r else bigDivide_u64 amt ONE currentPrice r) with
  | Some res => mret res
  | None => throw (RuntimeError "division or modulus by zero")
  end.

(** [StatisticsHelper::mustLoadStatistics] *)
Definition mustLoadStatistics (withDelta : bool) (account : PublicKey) : M St (Frame StatisticsEntry) :=
  s ← get;
  match ES.selectRow s (statKey account) ≫= fromEntry with
  | Some f =>
      if SF.isValid (data f) then when withDelta (DS.record f);; mret f else throw (RuntimeError "Unexpected state - statistics is invalid")
  | None => throw (RuntimeError "Unexpected db state. Expected statistics to exist")
  end.

(** [AccountLimitsHelper::loadLimits] and [AccountTypeLimitsHelper::loadLimits],
    without a delta *)
Definition loadLimits (k : Key) : M St (option Limits) :=
  s ← get;
  c ← ES.cachedEntryExists k;
  if (c : bool) then (r ← ES.getCachedEntry k; mret (r ≫= asLimits)) else
  match ES.selectRow s k with
  | None => ES.putCachedEntry max_size k None;; mret None
  | Some e =>
      match asLimits e with
      | Some l => if negb (limitsValid l) then throw Aborted else ES.putCachedEntry max_size k (Some e);; mret (Some l)
      | None => mret None
      end
  end.

(** ** Statistics and limits *)

Definition createStats (account : PublicKey) : M St unit :=
  DS.storeAddEntry {| lastModified := 0; data := {| statAccountID := account; dailyOutcome := 0; weeklyOutcome := 0; monthlyOutcome := 0;
                                                    annualOutcome := 0; updatedAt := 0 |} |}.

Definition getDefaultLimits (t : AccountType) : M St Limits :=
  r ← loadLimits (typeLimitsKey t);
  match r with
  | Some l => mret l
  | None => mret {| dailyOut := INT64_MAX; weeklyOut := INT64_MAX; monthlyOut := INT64_MAX; annualOut := INT64_MAX |}
  end.

(** The sums are unsigned and the limits are compared as such. *)
Definition withinLimits (l : Limits) (se : StatisticsEntry) : bool :=
  if dailyOutcome se >? u64 (dailyOut l) then false else
  if weeklyOutcome se >? u64 (weeklyOut l) then false else
  if monthlyOutcome se >? u64 (monthlyOut l) then false else
  if annualOutcome se >? u64 (annualOut l) then false else true.

Definition validateStats (account : AccountEntry) (balance : BalanceEntry) (stats : StatisticsEntry) : M St bool :=
  r ← loadLimits (limitsKey (balAccountID balance));
  limits ← match r with Some l => mret l | None => getDefaultLimits (accountType account) end;
  mret (withinLimits limits stats).

(** The result, and [universalAmount]. *)
Definition addStats (account : AccountEntry) (balance : BalanceEntry) (amountToAdd : Z) : M St (Result * Z) :=
  a ← loadStatsAsset;
  match a with
  | None => mret (SUCCESS, 0)
  | Some statsAsset =>
      p ← tryLoadAssetPairForAssets (balAsset balance) (assetCode (data statsAsset));
      match p with
      | None => mret (SUCCESS, 0)
      | Some statsAssetPair =>
          '(ok, universalAmount) ← convertAmount (data statsAssetPair) (assetCode (data statsAsset)) amountToAdd ROUND_UP;
          if negb ok then mret (STATS_OVERFLOW, universalAmount) else
          statsFrame ← mustLoadStatistics false (accountID account);
          '(ok, se) ← SF.add universalAmount closeTime (data statsFrame);
          if negb ok then mret (STATS_OVERFLOW, universalAmount) else
          v ← validateStats account balance se;
          if negb v then mret (LIMITS_EXCEEDED, universalAmount) else
          DS.storeChangeEntry (withData statsFrame se);; mret (SUCCESS, universalAmount)
      end
  end.

Definition revertStats (account : PublicKey) (universalAmount timePerformed : Z) : M St unit :=
  statsFrame ← mustLoadStatistics false account;
  se ← SF.revert universalAmount closeTime timePerformed (data statsFrame);
  DS.storeChangeEntry (withData statsFrame se).

(** The result, [universalAmount], and the balance, which the caller stores. *)
Definition processTransfer (account : AccountEntry) (balance : BalanceEntry) (amt universalAmount : Z) (requireReview ignoreLimits : bool) : M St (Result * Z * BalanceEntry) :=
  let '(moved, balance) :=
    if requireReview then
      match BF.lockBalance (amountType dp) amt balance with
      | (BF.SUCCESS, b) => (SUCCESS, b)
      | (BF.LINE_FULL, b) => (LINE_FULL, b)
      | (BF.UNDERFUNDED, b) => (UNDERFUNDED, b)
      end
    else let '(ok, b) := BF.addBalance (amountType dp) (- amt) balance in (if ok then SUCCESS else UNDERFUNDED, b) in
  match moved with
  | SUCCESS =>
      a ← loadStatsAsset;
      match a with
      | None => mret (SUCCESS, universalAmount, balance)
      | Some statsAssetFrame =>
          p ← DS.loadAssetPair max_size true (balAsset balance) (assetCode (data statsAssetFrame));
          match p with
          | None => mret (SUCCESS, universalAmount, balance)
          | Some assetPairFrame =>
              match bigDivide_i64 universalAmount amt (pairCurrentPrice (data assetPairFrame)) ONE ROUND_UP with
              | None => throw Aborted
              | Some (false, universalAmount) => mret (STATS_OVERFLOW, universalAmount, balance)
              | Some (true, universalAmount) =>
                  stats ← mustLoadStatistics true (balAccountID balance);
                  '(ok, se) ← SF.add (u64 universalAmount) closeTime (data stats);
                  if negb ok then mret (STATS_OVERFLOW, universalAmount, balance) else
                  v ← (if ignoreLimits then mret true else validateStats account balance se);
                  if negb v then mret (LIMITS_EXCEEDED, universalAmount, balance) else
                  DS.storeChangeEntry (withData stats se);; mret (SUCCESS, universalAmount, balance)
              end
          end
      end
  | _ => mret (moved, universalAmount, balance)
  end.

Definition revertRequest (balance : BalanceEntry) (amt universalAmount timePerformed : Z) : M St (bool * BalanceEntry) :=
  match BF.lockBalance (amountType dp) (- amt) balance with
  | (BF.SUCCESS, balance) =>
      stats ← mustLoadStatistics true (balAccountID balance);
      se ← SF.revert (u64 universalAmount) closeTime timePerformed (data stats);
      DS.storeChangeEntry (withData stats se);; mret (true, balance)
  | (_, balance) => mret (false, balance)
  end.

(** ** Fees *)

Definition isFeeMatches (account : AccountEntry) (f : Fee) (ftype subtype : Z) (asset : AssetCode) (amt : Z) : M St bool :=
  if isSystemAccountType (accountType account) then mret ((fixed f =? 0) && (percent f =? 0)) else
  r ← DS.loadForAccount dp ftype asset subtype account (i64 amt);
  match r with
  | None => mret ((fixed f =? 0) && (percent f =? 0))
  | Some entry =>
      if negb (u64 (fixedFee entry) =? fixed f) then mret false else
      '(ok, expectedPercentFee) ← DS.calculatePercentFee entry amt ROUND_UP;
      if negb ok then mret false else mret (percent f =? expectedPercentFee)
  end.

Definition transferFee (asset : AssetCode) (totalFee : Z) : M St unit :=
  if totalFee =? 0 then mret tt else
  r ← DS.loadBalanceFor dp false commissionID asset;
  match r with
  | None => throw (RuntimeError "Unexpected state. Commission balance not found.")
  | Some f =>
      let '(ok, b) := BF.tryFundAccount (amountType dp) totalFee (data f) in
      if negb ok then throw (RuntimeError "Failed to fund commission balance with fee") else
      DS.storeChangeEntry (withData f b)
  end.

(** [transferFee(asset, fee)] *)
Definition transferWholeFee (asset : AssetCode) (f : Fee) : M St unit :=
  let '(ok, totalFee) := safeSum (fixed f) (percent f) in
  if negb ok then throw (RuntimeError "totalFee overflows uin64") else transferFee asset totalFee.

Definition loadOrCreateBalanceForAsset (account : PublicKey) (asset : AssetCode) : M St BalanceID :=
  balance ← DS.loadOrCreateBalanceFrameForAsset dp account asset; mret (balanceID (data balance)).

(** ** Requests *)

(** [ReviewableRequestHelper::loadRequest]: recorded only when it comes from
    the table. *)
Definition loadRequest (withDelta : bool) (id : Z) : M St (option (Frame ReviewableRequestEntry)) :=
  s ← get;
  let k := requestKey id in
  c ← ES.cachedEntryExists k;
  if (c : bool) then (r ← ES.getCachedEntry k; mret (r ≫= fromEntry)) else
  match ES.selectRow s k ≫= fromEntry with
  | None => ES.putCachedEntry max_size k None;; mret None
  | Some f =>
      if negb (RQ.isValid requestParams (data f)) then throw (RuntimeError "Reviewable request is invalid") else
      when withDelta (DS.record f);; ES.putCachedEntry max_size k (Some (toEntry f));; mret (Some f)
  end.

(** [loadRequest(requestID, requestor, db, delta)] *)
Definition loadRequestOf (withDelta : bool) (id : Z) (requestor_ : PublicKey) : M St (option (Frame ReviewableRequestEntry)) :=
  r ← loadRequest withDelta id;
  match r with
  | Some f => mret (if bool_decide (requestor (data f) = requestor_) then Some f else None)
  | None => mret None
  end.

(** [loadRequest(requestID, requestor, requestType, db, delta)] *)
Definition loadRequestOfType (withDelta : bool) (id : Z) (requestor_ : PublicKey) (t : ReviewableRequestType) : M St (option (Frame ReviewableRequestEntry)) :=
  r ← loadRequestOf withDelta id requestor_;
  match r with
  | Some f => mret (if bool_decide (RQ.getRequestType (data f) = t) then Some f else None)
  | None => mret None
  end.

(** [exists(db, requestor, reference, 0)] *)
Definition requestExists (requestor_ : PublicKey) (reference_ : list Z) : M St bool :=
  s ← get;
  mret (existsb (fun f => bool_decide (requestor (data f) = requestor_) && bool_decide (reference (data f) = Some reference_) &&
                          negb (requestID (data f) =? 0)) (DS.rowsOf s)).

(** [isReferenceExist], with the request id 0 *)
Definition isReferenceExist (requestor_ : PublicKey) (reference_ : list Z) : M St bool :=
  e ← requestExists requestor_ reference_;
  if (e : bool) then mret true else
  s ← get;
  mret (match ES.selectRow s (referenceKey requestor_ reference_) with Some _ => true | None => false end).

(** [BalanceHelper::mustLoadBalance], with a delta *)
Definition mustLoadBalance (withDelta : bool) (id : BalanceID) : M St (Frame BalanceEntry) :=
  r ← DS.loadBalance withDelta id;
  match r with
  | Some f => mret f
  | None => throw (RuntimeError "expected balance to exist")
  end.

End AM.
End AM.
