(* ===== verification/Requests.v ===== *)
(** * Withdrawals and issuance ([transactions/CreateWithdrawalRequestOpFrame.cpp],
      [transactions/issuance/], [transactions/review_request/])

    Money leaves and enters the ledger through requests.  A withdrawal locks
    the amount and its fee until the owner of the asset approves or rejects
    it; an issuance is reviewed at once by the operation that asks for it, in
    a nested delta, and waits if too little is available.  [ReviewHandlers]
    is the class [ReviewRequestOpFrame] with its virtual methods; the kinds of
    requests that are not modelled are a parameter.  An operation gives its
    inner result code, [inl] with [return false]. *)

From S2P Require Import Prelude OrdContainers BigMath LedgerDelta EntryStore Signatures LedgerHeader TxSet Statistics Balance Assets OfferExchange DexStore AccountManager.

Module WR.
Section WR.
Context {Key Entry : Type} `{Ord Key} `{EqDecision Entry}.
Context {helper : EntryHelper Key Entry LedgerHeader} {dex : DexEntries Key Entry} (dp : DexParams) (mp : MoneyParams) (max_size : nat).
Context (commissionID : PublicKey) (closeTime : Z) (source : AccountEntry).
Local Abbreviation St := (Store Key Entry LedgerHeader).
Implicit Types (q : WithdrawalRequest).

Inductive Code := INVALID_AMOUNT | INVALID_EXTERNAL_DETAILS | BALANCE_NOT_FOUND | ASSET_IS_NOT_WITHDRAWABLE | CONVERSION_PRICE_IS_NOT_AVAILABLE
  | FEE_MISMATCHED | CONVERSION_OVERFLOW | CONVERTED_AMOUNT_MISMATCHED | BALANCE_LOCK_OVERFLOW | UNDERFUNDED | INVALID_UNIVERSAL_AMOUNT
  | STATS_OVERFLOW | LIMITS_EXCEEDED | INVALID_PRE_CONFIRMATION_DETAILS.

Definition tryLoadBalance q : M St (option (Frame BalanceEntry)) :=
  r ← DS.loadBalance true (wBalance q);
  match r with
  | Some f => mret (if bool_decide (balAccountID (data f) = accountID source) then Some f else None)
  | None => mret None
  end.

Definition isFeeMatches q (balance : BalanceEntry) : M St bool :=
  AM.isFeeMatches dp source (wFee q) (WITHDRAWAL_FEE mp) SUBTYPE_ANY (balAsset balance) (wAmount q).

(** [None] is [true]. Details of another type make the union throw. *)
Definition isConvertedAmountMatches q (balance : BalanceEntry) : M St (option Code) :=
  match wDetails q with
  | OTHER_WITHDRAWAL => throw (RuntimeError "WithdrawalRequest::details: accessed with wrong type")
  | AUTO_CONVERSION destAsset expectedAmount =>
      if bool_decide (balAsset balance = destAsset) then
        if negb (wAmount q =? expectedAmount) then mret (Some CONVERTED_AMOUNT_MISMATCHED) else mret None
      else
      p ← AM.tryLoadAssetPairForAssets max_size (balAsset balance) destAsset;
      match p with
      | None => mret (Some CONVERSION_PRICE_IS_NOT_AVAILABLE)
      | Some assetPair =>
          '(ok, expectedConvertedAmount) ← AM.convertAmount (data assetPair) destAsset (wAmount q) ROUND_DOWN;
          if negb ok then mret (Some CONVERSION_OVERFLOW) else
          if negb (expectedConvertedAmount =? expectedAmount) then mret (Some CONVERTED_AMOUNT_MISMATCHED) else mret None
      end
  end.

Definition tryLockBalance q (balance : BalanceEntry) : Code + BalanceEntry :=
  let '(ok, totalAmountToBeLocked) := safeSum_all [wAmount q; fixed (wFee q); percent (wFee q)] in
  if negb ok then inl BALANCE_LOCK_OVERFLOW else
  match BF.tryLock (amountType dp) totalAmountToBeLocked balance with
  | (BF.SUCCESS, b) => inr b
  | (BF.LINE_FULL, _) => inl BALANCE_LOCK_OVERFLOW
  | (BF.UNDERFUNDED, _) => inl UNDERFUNDED
  end.

Definition withUniversal q (u : Z) : WithdrawalRequest :=
  {| wBalance := wBalance q; wAmount := wAmount q; wUniversalAmount := u; wFee := wFee q; wExternalDetails := wExternalDetails q;
     wDetails := wDetails q; wPreConfirmationDetails := wPreConfirmationDetails q |}.

Definition createRequest q (asset : AssetEntry) (universalAmount : Z) : M St (Frame ReviewableRequestEntry) :=
  id ← DS.generateID (REQUEST_TYPE mp);
  let body := if AF.checkPolicy asset (TWO_STEP_POLICY mp) then TWO_STEP_WITHDRAWAL (withUniversal q universalAmount)
              else WITHDRAW (withUniversal q universalAmount) in
  let request := {| lastModified := 0;
                    data := RQ.createNewWithHash requestParams id (accountID source) (assetOwner asset) None body closeTime |} in
  DS.storeAddEntry request;; mret request.

Definition tryAddStats (balance : BalanceEntry) (amountToAdd : Z) : M St (Code + Z) :=
  '(r, universalAmount) ← AM.addStats mp max_size closeTime source balance amountToAdd;
  match r with
  | AM.SUCCESS => mret (inr universalAmount)
  | AM.STATS_OVERFLOW => mret (inl STATS_OVERFLOW)
  | AM.LIMITS_EXCEEDED => mret (inl LIMITS_EXCEEDED)
  | _ => throw (RuntimeError "Unexpected state from accountManager when updating stats")
  end.

(** The id of the request. *)
Definition doApply q : M St (Code + Z) :=
  r ← tryLoadBalance q;
  match r with
  | None => mret (inl BALANCE_NOT_FOUND)
  | Some balanceFrame =>
      assetFrame ← DS.mustLoadAsset max_size false (balAsset (data balanceFrame));
      if negb (AF.checkPolicy (data assetFrame) (WITHDRAWABLE mp)) then mret (inl ASSET_IS_NOT_WITHDRAWABLE) else
      f ← isFeeMatches q (data balanceFrame);
      if negb f then mret (inl FEE_MISMATCHED) else
      c ← isConvertedAmountMatches q (data balanceFrame);
      match c with
      | Some code => mret (inl code)
      | None =>
          match tryLockBalance q (data balanceFrame) with
          | inl code => mret (inl code)
          | inr balance =>
              st ← tryAddStats balance (wAmount q);
              match st with
              | inl code => mret (inl code)
              | inr universalAmount =>
                  DS.storeChangeEntry (withData balanceFrame balance);;
                  request ← createRequest q (data assetFrame) universalAmount;
                  mret (inr (requestID (data request)))
              end
          end
      end
  end.

(** [None] is [true]. *)
Definition doCheckValid q : option Code :=
  if wAmount q =? 0 then Some INVALID_AMOUNT else
  if (withdrawalDetailsMaxLength mp <? length (wExternalDetails q))%nat || negb (isValidJson requestParams (wExternalDetails q))
  then Some INVALID_EXTERNAL_DETAILS else
  if negb (wUniversalAmount q =? 0) then Some INVALID_UNIVERSAL_AMOUNT else
  if negb (bool_decide (wPreConfirmationDetails q = [])) then Some INVALID_PRE_CONFIRMATION_DETAILS else None.

End WR.
End WR.

(** ** Reviews *)

Inductive ReviewRequestOpAction := APPROVE | REJECT | PERMANENT_REJECT | OTHER_ACTION (n : Z).

(** The details that a review gives for a type of requests. *)
Inductive ReviewDetails := WITHDRAWAL_DETAILS (externalDetails : list Z) | TWO_STEP_DETAILS (externalDetails : list Z)
  | ISSUANCE_DETAILS | PRE_ISSUANCE_DETAILS | ASSET_CREATE_DETAILS | ASSET_UPDATE_DETAILS | OTHER_DETAILS (n : Z).

Record ReviewRequestOp := {
  rrRequestID : Z;
  rrRequestHash : list Z;
  rrDetails : ReviewDetails;
  rrAction : ReviewRequestOpAction;
  rrReason : list Z;
}.

Inductive ReviewRequestResultCode := REVIEW_SUCCESS | NOT_FOUND | HASH_MISMATCHED | TYPE_MISMATCHED | INVALID_ACTION | INVALID_REASON
  | REJECT_NOT_ALLOWED | REVIEW_INVALID_EXTERNAL_DETAILS | MAX_ISSUANCE_AMOUNT_EXCEEDED | INSUFFICIENT_AVAILABLE_FOR_ISSUANCE_AMOUNT
  | FULL_LINE | ASSET_ALREADY_EXISTS | ASSET_DOES_NOT_EXISTS | OTHER_CODE (n : Z).

Module RR.
Section RR.
Context {Key Entry : Type} `{Ord Key} `{EqDecision Entry}.
Context {helper : EntryHelper Key Entry LedgerHeader} {dex : DexEntries Key Entry} (dp : DexParams) (mp : MoneyParams) (max_size : nat).
Context (commissionID : PublicKey) (closeTime : Z).
Local Abbreviation St := (Store Key Entry LedgerHeader).
Local Abbreviation Handler := (ReviewRequestOp -> Frame ReviewableRequestEntry -> M St (bool * ReviewRequestResultCode)).

Definition requestType (d : ReviewDetails) : ReviewableRequestType :=
  match d with
  | WITHDRAWAL_DETAILS _ => T_WITHDRAW
  | TWO_STEP_DETAILS _ => T_TWO_STEP_WITHDRAWAL
  | ISSUANCE_DETAILS => T_ISSUANCE_CREATE
  | PRE_ISSUANCE_DETAILS => T_PRE_ISSUANCE_CREATE
  | ASSET_CREATE_DETAILS => T_ASSET_CREATE
  | ASSET_UPDATE_DETAILS => T_ASSET_UPDATE
  | OTHER_DETAILS n => T_OTHER n
  end.

(** The virtual methods; [doCheckValid] gives [None] for [true]. *)
Record ReviewHandlers := {
  handleApprove : Handler;
  handleReject : Handler;
  handlePermanentReject : Handler;
  doCheckValid : ReviewRequestOp -> option ReviewRequestResultCode;
}.

(** *** [ReviewRequestOpFrame] *)

Definition default_handleReject : Handler := fun op request =>
  DS.storeChangeEntry (withData request (RQ.setRejectReason (data request) (rrReason op)));; mret (true, REVIEW_SUCCESS).

Definition default_handlePermanentReject : Handler := fun op request =>
  DS.storeDeleteEntry request;; mret (true, REVIEW_SUCCESS).

Definition isRejectReasonValid (op : ReviewRequestOp) : bool :=
  match rrAction op with APPROVE => bool_decide (rrReason op = []) | _ => negb (bool_decide (rrReason op = [])) end.

Definition default_doCheckValid (op : ReviewRequestOp) : option ReviewRequestResultCode :=
  match rrAction op with
  | OTHER_ACTION _ => Some INVALID_ACTION
  | _ => if negb (isRejectReasonValid op) then Some INVALID_REASON else None
  end.

Definition createReference (requestor_ : PublicKey) (reference_ : option (list Z)) : M St unit :=
  match reference_ with
  | None => throw (RuntimeError "Expected reference not to be nullptr")
  | Some r =>
      s ← get;
      match ES.selectRow s (referenceKey requestor_ r) with
      | Some _ => throw (RuntimeError "Reference already exists")
      | None => DS.storeAddEntry {| lastModified := 0; data := (requestor_, r) |}
      end
  end.

Definition doApply (h : ReviewHandlers) (sourceID : PublicKey) (op : ReviewRequestOp) : M St (bool * ReviewRequestResultCode) :=
  r ← AM.loadRequest max_size true (rrRequestID op);
  match r with
  | None => mret (false, NOT_FOUND)
  | Some request =>
      if negb (bool_decide (reviewer (data request) = sourceID)) then mret (false, NOT_FOUND) else
      if negb (bool_decide (requestHash (data request) = rrRequestHash op)) then mret (false, HASH_MISMATCHED) else
      if negb (bool_decide (RQ.getRequestType (data request) = requestType (rrDetails op))) then mret (false, TYPE_MISMATCHED) else
      match rrAction op with
      | APPROVE => handleApprove h op request
      | REJECT => handleReject h op request
      | PERMANENT_REJECT => handlePermanentReject h op request
      | OTHER_ACTION _ => throw (RuntimeError "Unexpected action for review request op")
      end
  end.

(** *** Withdrawals *)

Definition refuseReject : Handler := fun op request => mret (false, REJECT_NOT_ALLOWED).

Definition rejectWithdrawalRequest (q : WithdrawalRequest) : Handler := fun op request =>
  balance ← AM.mustLoadBalance true (wBalance q);
  totalAmountToCharge ← RQ.getTotalAmountToCharge q;
  let '(ok, b) := BF.unlock (amountType dp) totalAmountToCharge (data balance) in
  if negb ok then throw (RuntimeError "Unexected db state. Failed to unlock locked amount") else
  when (wUniversalAmount q >? 0) (AM.revertStats closeTime (requestor (data request)) (wUniversalAmount q) (requestCreatedAt (data request)));;
  DS.storeChangeEntry (withData balance b);;
  default_handlePermanentReject op request.

Definition withPreConfirmation (q : WithdrawalRequest) (d : list Z) : WithdrawalRequest :=
  {| wBalance := wBalance q; wAmount := wAmount q; wUniversalAmount := wUniversalAmount q; wFee := wFee q; wExternalDetails := wExternalDetails q;
     wDetails := wDetails q; wPreConfirmationDetails := d |}.

(** [ReviewTwoStepWithdrawalRequestOpFrame] *)
Definition twoStep_handleApprove : Handler := fun op request =>
  match requestBody (data request) with
  | TWO_STEP_WITHDRAWAL q =>
      match rrDetails op with
      | TWO_STEP_DETAILS d =>
          DS.storeChangeEntry (withData request (RQ.setBody requestParams (data request) (WITHDRAW (withPreConfirmation q d))));;
          mret (true, REVIEW_SUCCESS)
      | _ => throw (RuntimeError "requestDetails: accessed with wrong type")
      end
  | _ => throw (RuntimeError "Unexpected request type for review two step withdraw request")
  end.

Definition twoStep_handlePermanentReject : Handler := fun op request =>
  match requestBody (data request) with
  | TWO_STEP_WITHDRAWAL q => rejectWithdrawalRequest q op request
  | _ => throw (RuntimeError "Unexpected request type for review withdraw request")
  end.

(** [ReviewWithdrawalRequestOpFrame] *)
Definition withdraw_handleApprove : Handler := fun op request =>
  match requestBody (data request) with
  | WITHDRAW q =>
      DS.storeDeleteEntry request;;
      balance ← AM.mustLoadBalance true (wBalance q);
      totalAmountToCharge ← RQ.getTotalAmountToCharge q;
      let '(ok, b) := BF.tryChargeFromLocked (amountType dp) totalAmountToCharge (data balance) in
      if negb ok then throw (RuntimeError "Unexected db state. Failed to charge from locked") else
      DS.storeChangeEntry (withData balance b);;
      totalFee ← RQ.getTotalFee (wFee q);
      AM.transferFee dp commissionID (balAsset (data balance)) totalFee;;
      a ← DS.loadAsset max_size true (balAsset (data balance));
      match a with
      | None => throw (RuntimeError "Failed to load asset for withdrawal request")
      | Some assetFrame =>
          let '(ok, asset) := AF.tryWithdraw (wAmount q) (data assetFrame) in
          if negb ok then throw (RuntimeError "Failed to withdraw from asset") else
          DS.storeChangeEntry (withData assetFrame asset);; mret (true, REVIEW_SUCCESS)
      end
  | _ => throw (RuntimeError "Unexpected request type for review withdraw request")
  end.

Definition withdraw_handlePermanentReject : Handler := fun op request =>
  match requestBody (data request) with
  | WITHDRAW q => rejectWithdrawalRequest q op request
  | _ => throw (RuntimeError "Unexpected request type for review withdraw request")
  end.

(** Details of another type make the union throw; the operation has those of
    its type. *)
Definition withdraw_doCheckValid (op : ReviewRequestOp) : option ReviewRequestResultCode :=
  let externalDetails := match rrDetails op with WITHDRAWAL_DETAILS d => d | _ => [] end in
  if (withdrawalDetailsMaxLength mp <? length externalDetails)%nat || negb (isValidJson requestParams externalDetails)
  then Some REVIEW_INVALID_EXTERNAL_DETAILS else default_doCheckValid op.

(** *** Issuance *)

Definition issuance_handleApprove : Handler := fun op request =>
  match requestBody (data request) with
  | ISSUANCE_CREATE q =>
      createReference (requestor (data request)) (reference (data request));;
      a ← DS.loadAsset max_size true (iAsset q);
      match a with
      | None => throw (RuntimeError "Expected asset for  issuance request to exist")
      | Some assetFrame =>
          if AF.willExceedMaxIssuanceAmount (iAmount q) (data assetFrame) then mret (false, MAX_ISSUANCE_AMOUNT_EXCEEDED) else
          if negb (AF.isAvailableForIssuanceAmountSufficient (iAmount q) (data assetFrame))
          then mret (false, INSUFFICIENT_AVAILABLE_FOR_ISSUANCE_AMOUNT) else
          let '(ok, asset) := AF.tryIssue (iAmount q) (data assetFrame) in
          if negb ok then throw (RuntimeError "Unexcpted issuance result. Expected to be able to issue") else
          DS.storeChangeEntry (withData assetFrame asset);;
          r ← DS.loadBalance true (iReceiver q);
          match r with
          | None => throw (RuntimeError "Expected receiver to exist")
          | Some receiver =>
              let '(ok, totalFee) := safeSum (fixed (iFee q)) (percent (iFee q)) in
              if negb ok then throw (RuntimeError "totalFee overflows uint64") else
              if totalFee >=? iAmount q then throw (RuntimeError "Unexpected state. totalFee exceeds amount") else
              DS.mustLoadAccount max_size (balAccountID (data receiver));;
              allowed ← DS.isAllowedToReceive dp max_size (balanceID (data receiver));
              if negb allowed then throw (RuntimeError "Unexpeced state. Asset requires KYC but account is NOT_VERIFIED") else
              AM.transferFee dp commissionID (iAsset q) totalFee;;
              let '(ok, b) := BF.tryFundAccount (amountType dp) (u64 (iAmount q - totalFee)) (data receiver) in
              if negb ok then mret (false, FULL_LINE) else
              DS.storeChangeEntry (withData receiver b);;
              DS.storeDeleteEntry request;;
              mret (true, REVIEW_SUCCESS)
          end
      end
  | _ => throw (RuntimeError "Unexpected request type for review issuance creation request")
  end.

Definition preIssuance_handleApprove : Handler := fun op request =>
  match requestBody (data request) with
  | PRE_ISSUANCE_CREATE q =>
      createReference (requestor (data request)) (reference (data request));;
      a ← DS.loadAsset max_size true (pAsset q);
      match a with
      | None => throw (RuntimeError "Expected asset for pre issuance request to exist")
      | Some assetFrame =>
          let '(ok, asset) := AF.tryAddAvailableForIssuance (pAmount q) (data assetFrame) in
          if negb ok then throw (RuntimeError "Can not add availalbe for issuance amount") else
          DS.storeChangeEntry (withData assetFrame asset);;
          DS.storeDeleteEntry request;;
          mret (true, REVIEW_SUCCESS)
      end
  | _ => throw (RuntimeError "Unexpected request type for review preIssuance creation request")
  end.

(** *** Assets *)

(** [ManageAssetHelper::createSystemBalances] *)
Fixpoint createBalances (accounts : list PublicKey) (code : AssetCode) : M St unit :=
  match accounts with
  | [] => mret tt
  | systemAccount :: rest => AM.loadOrCreateBalanceForAsset dp systemAccount code;; createBalances rest code
  end.
Definition createSystemBalances (code : AssetCode) : M St unit := createBalances (systemAccounts mp) code.

Definition assetCreation_handleApprove : Handler := fun op request =>
  match requestBody (data request) with
  | ASSET_CREATE q =>
      isAssetExist ← DS.assetExists (acCode q);
      if (isAssetExist : bool) then mret (false, ASSET_ALREADY_EXISTS) else
      let asset := AF.create q (requestor (data request)) in
      DS.storeAddEntry {| lastModified := 0; data := asset |};;
      (if AF.checkPolicy asset (BASE_ASSET mp) then createSystemBalances (assetCode asset)
       else AM.loadOrCreateBalanceForAsset dp (assetOwner asset) (assetCode asset);; mret tt);;
      DS.storeDeleteEntry request;;
      mret (true, REVIEW_SUCCESS)
  | _ => throw (RuntimeError "Unexpected request type for review asset creation request")
  end.

Definition assetUpdate_handleApprove : Handler := fun op request =>
  match requestBody (data request) with
  | ASSET_UPDATE q =>
      a ← DS.loadAsset max_size true (auCode q);
      match a with
      | None => mret (false, ASSET_DOES_NOT_EXISTS)
      | Some assetFrame =>
          if negb (bool_decide (assetOwner (data assetFrame) = requestor (data request)))
          then throw (RuntimeError "Received approval for update request not initiated by owner of asset.") else
          let wasBase := AF.checkPolicy (data assetFrame) (BASE_ASSET mp) in
          let asset := AF.update (data assetFrame) q in
          DS.storeChangeEntry (withData assetFrame asset);;
          let isBase := AF.checkPolicy asset (BASE_ASSET mp) in
          when (negb wasBase && isBase) (createSystemBalances (assetCode asset));;
          DS.storeDeleteEntry request;;
          mret (true, REVIEW_SUCCESS)
      end
  | _ => throw (RuntimeError "Unexpected request type for review asset update request")
  end.

(** *** [makeHelper], and the review of a request by the operation that made it *)

Context (otherHelper : Z -> ReviewHandlers).

Definition makeHelper (d : ReviewDetails) : ReviewHandlers :=
  match d with
  | WITHDRAWAL_DETAILS _ => {| handleApprove := withdraw_handleApprove; handleReject := refuseReject;
      handlePermanentReject := withdraw_handlePermanentReject; doCheckValid := withdraw_doCheckValid |}
  | TWO_STEP_DETAILS _ => {| handleApprove := twoStep_handleApprove; handleReject := refuseReject;
      handlePermanentReject := twoStep_handlePermanentReject; doCheckValid := default_doCheckValid |}
  | ISSUANCE_DETAILS => {| handleApprove := issuance_handleApprove; handleReject := refuseReject;
      handlePermanentReject := default_handlePermanentReject; doCheckValid := default_doCheckValid |}
  | PRE_ISSUANCE_DETAILS => {| handleApprove := preIssuance_handleApprove; handleReject := refuseReject;
      handlePermanentReject := default_handlePermanentReject; doCheckValid := default_doCheckValid |}
  | ASSET_CREATE_DETAILS => {| handleApprove := assetCreation_handleApprove; handleReject := default_handleReject;
      handlePermanentReject := default_handlePermanentReject; doCheckValid := default_doCheckValid |}
  | ASSET_UPDATE_DETAILS => {| handleApprove := assetUpdate_handleApprove; handleReject := default_handleReject;
      handlePermanentReject := default_handlePermanentReject; doCheckValid := default_doCheckValid |}
  | OTHER_DETAILS n => otherHelper n
  end.

(** The details of a type, as default-constructed. *)
Definition emptyDetails (t : ReviewableRequestType) : ReviewDetails :=
  match t with
  | T_WITHDRAW => WITHDRAWAL_DETAILS []
  | T_TWO_STEP_WITHDRAWAL => TWO_STEP_DETAILS []
  | T_ISSUANCE_CREATE => ISSUANCE_DETAILS
  | T_PRE_ISSUANCE_CREATE => PRE_ISSUANCE_DETAILS
  | T_ASSET_CREATE => ASSET_CREATE_DETAILS
  | T_ASSET_UPDATE => ASSET_UPDATE_DETAILS
  | T_OTHER n => OTHER_DETAILS n
  end.

(** [ReviewRequestHelper::tryReviewRequest] *)
Definition tryReviewRequest (request : ReviewableRequestEntry) : M St (bool * ReviewRequestResultCode) :=
  let op := {| rrRequestID := requestID request; rrRequestHash := requestHash request; rrDetails := emptyDetails (RQ.getRequestType request);
               rrAction := APPROVE; rrReason := [] |} in
  r ← ES.storeLoad max_size (dexAccountKey (reviewer request));
  match r ≫= dexAsAccount with
  | None => throw (RuntimeError "Unexpected state expected reviewer to exist")
  | Some reviewerFrame =>
      let h := makeHelper (rrDetails op) in
      match doCheckValid h op with
      | Some code => mret (false, code)
      | None => doApply h (accountID reviewerFrame) op
      end
  end.

(** [tryApproveRequest(parentTx)] *)
Definition approveRequest (request : ReviewableRequestEntry) : M St ReviewRequestResultCode :=
  '(isApplied, code) ← tryReviewRequest request;
  if negb isApplied then mret code else
  match code with
  | REVIEW_SUCCESS => mret code
  | _ => throw (RuntimeError "Unexpected state: doApply returned true, but result code is not success.")
  end.

(** [tryApproveRequest(parentTx, app, ledgerManager, delta, request)]: a SQL
    transaction and a nested delta, committed if the request is approved;
    otherwise the destructors roll the delta back and restore the rows. *)
Definition tryApproveRequest (request : ReviewableRequestEntry) : M St ReviewRequestResultCode := fun s =>
  let outer := sDelta s in
  let dropped (s' : St) : St := ES.setRows (ES.dropNested outer s') (sRows s) in
  match approveRequest request (ES.setDelta s (LD.nestedDelta outer)) with
  | Ret REVIEW_SUCCESS s' => (ES.commitInto outer;; mret REVIEW_SUCCESS) s'
  | Ret code s' => Ret code (dropped s')
  | Throw x s' => Throw x (dropped s')
  end.

End RR.
End RR.

(** ** Asking for an issuance *)

Module IR.
Section IR.
Context {Key Entry : Type} `{Ord Key} `{EqDecision Entry}.
Context {helper : EntryHelper Key Entry LedgerHeader} {dex : DexEntries Key Entry} (dp : DexParams) (mp : MoneyParams) (max_size : nat).
Context (commissionID : PublicKey) (closeTime : Z) (source : AccountEntry) (otherHelper : Z -> RR.ReviewHandlers (Key := Key) (Entry := Entry)).
Local Abbreviation St := (Store Key Entry LedgerHeader).
Implicit Types (q : IssuanceRequest).

Inductive Code := ASSET_NOT_FOUND | INVALID_AMOUNT | REFERENCE_DUPLICATION | NO_COUNTERPARTY | NOT_AUTHORIZED | EXCEEDS_MAX_ISSUANCE_AMOUNT
  | RECEIVER_FULL_LINE | INVALID_EXTERNAL_DETAILS | FEE_EXCEEDS_AMOUNT | REQUIRES_KYC.

Record Success := { requestID_ : Z; fulfilled : bool; paidFee : Fee; receiverID : PublicKey }.

Definition noFee : Fee := {| fixed := 0; percent := 0 |}.

(** Whether the fee is below the amount, and the fee; [mIsFeeRequired] is set
    by the constructor and can be cleared. *)
Definition calculateFee (mIsFeeRequired : bool) q (receiver : PublicKey) : M St (bool * Fee) :=
  if negb mIsFeeRequired then mret (true, noFee) else
  receiverFrame ← DS.mustLoadAccount max_size receiver;
  if isSystemAccountType (accountType receiverFrame) then mret (true, noFee) else
  r ← DS.loadForAccount dp (ISSUANCE_FEE mp) (iAsset q) SUBTYPE_ANY receiverFrame (i64 (iAmount q));
  fee ← match r with
        | None => mret noFee
        | Some entry =>
            '(_, p) ← DS.calculatePercentFee entry (iAmount q) ROUND_UP;
            mret {| fixed := u64 (fixedFee entry); percent := p |}
        end;
  let '(ok, totalFee) := safeSum (fixed fee) (percent fee) in
  if negb ok then throw (RuntimeError "totalFee overflows uint64") else
  mret (totalFee <? iAmount q, fee).

Definition withFee q (f : Fee) : IssuanceRequest :=
  {| iAsset := iAsset q; iAmount := iAmount q; iReceiver := iReceiver q; iExternalDetails := iExternalDetails q; iFee := f |}.

Definition tryCreateIssuanceRequest (mIsFeeRequired : bool) q (reference_ : list Z) : M St (Code + Frame ReviewableRequestEntry) :=
  e ← AM.isReferenceExist (accountID source) reference_;
  if (e : bool) then mret (inl REFERENCE_DUPLICATION) else
  a ← DS.loadAsset max_size false (iAsset q);
  match a with
  | None => mret (inl ASSET_NOT_FOUND)
  | Some asset =>
      if negb (bool_decide (assetOwner (data asset) = accountID source)) then mret (inl NOT_AUTHORIZED) else
      if AF.willExceedMaxIssuanceAmount (iAmount q) (data asset) then mret (inl EXCEEDS_MAX_ISSUANCE_AMOUNT) else
      b ← DS.loadBalance false (iReceiver q);
      match b with
      | None => mret (inl NO_COUNTERPARTY)
      | Some balance =>
          if negb (bool_decide (balAsset (data balance) = assetCode (data asset))) then mret (inl NO_COUNTERPARTY) else
          allowed ← DS.isAllowedToReceive dp max_size (balanceID (data balance));
          if negb allowed then mret (inl REQUIRES_KYC) else
          '(below, feeToPay) ← calculateFee mIsFeeRequired q (balAccountID (data balance));
          if negb below then mret (inl FEE_EXCEEDS_AMOUNT) else
          id ← DS.generateID (REQUEST_TYPE mp);
          let request := {| lastModified := 0;
                            data := RQ.createNewWithHash requestParams id (accountID source) (assetOwner (data asset)) (Some reference_)
                                      (ISSUANCE_CREATE (withFee q feeToPay)) closeTime |} in
          DS.storeAddEntry request;; mret (inr request)
      end
  end.

Definition feeOf (r : ReviewableRequestEntry) : Fee := match requestBody r with ISSUANCE_CREATE q => iFee q | _ => noFee end.

Definition doApply (mIsFeeRequired : bool) q (reference_ : list Z) : M St (Code + Success) :=
  r ← tryCreateIssuanceRequest mIsFeeRequired q reference_;
  match r with
  | inl code => mret (inl code)
  | inr request =>
      reviewResultCode ← RR.tryApproveRequest dp mp max_size commissionID closeTime otherHelper (data request);
      let finish (isFulfilled : bool) : M St (Code + Success) :=
        receiver ← AM.mustLoadBalance false (iReceiver q);
        mret (inr {| requestID_ := requestID (data request); fulfilled := isFulfilled; paidFee := feeOf (data request);
                     receiverID := balAccountID (data receiver) |}) in
      match reviewResultCode with
      | REVIEW_SUCCESS => finish true
      | INSUFFICIENT_AVAILABLE_FOR_ISSUANCE_AMOUNT => finish false
      | FULL_LINE => mret (inl RECEIVER_FULL_LINE)
      | _ => throw (RuntimeError "Unexpected result received on review of just created issuance request")
      end
  end.

Definition doCheckValid q (reference_ : list Z) : option Code :=
  if negb (isAssetCodeValid (iAsset q)) then Some ASSET_NOT_FOUND else
  if iAmount q =? 0 then Some INVALID_AMOUNT else
  if bool_decide (reference_ = []) then Some REFERENCE_DUPLICATION else
  if (issuanceDetailsMaxLength mp <? length (iExternalDetails q))%nat || negb (isValidJson requestParams (iExternalDetails q))
  then Some INVALID_EXTERNAL_DETAILS else None.

End IR.
End IR.

(** ** Asking for a pre-issuance: what may be issued later *)

Module PR.
Section PR.
Context {Key Entry : Type} `{Ord Key} `{EqDecision Entry}.
Context {helper : EntryHelper Key Entry LedgerHeader} {dex : DexEntries Key Entry} (dp : DexParams) (mp : MoneyParams) (max_size : nat).
Context (commissionID : PublicKey) (closeTime : Z) (source : AccountEntry) (otherHelper : Z -> RR.ReviewHandlers (Key := Key) (Entry := Entry)).
Local Abbreviation St := (Store Key Entry LedgerHeader).
Implicit Types (q : PreIssuanceRequest).

Inductive Code := ASSET_NOT_FOUND | REFERENCE_DUPLICATION | NOT_AUTHORIZED_UPLOAD | INVALID_SIGNATURE | EXCEEDED_MAX_AMOUNT
  | INVALID_AMOUNT | INVALID_REFERENCE.

Definition isSignatureValid (asset : AssetEntry) q : bool :=
  let signatureData_ := signatureData mp (pReference q) (pAmount q) (pAsset q) in
  match SV.checkKeys (verifySig mp signatureData_) [pSignature q] [preissuedAssetSigner asset] 1 with
  | SV.SUCCESS => true
  | _ => false
  end.

(** The id of the request, and whether it is fulfilled. *)
Definition doApply q : M St (Code + (Z * bool)) :=
  e ← AM.isReferenceExist (accountID source) (pReference q);
  if (e : bool) then mret (inl REFERENCE_DUPLICATION) else
  a ← DS.loadAsset max_size false (pAsset q);
  match a with
  | None => mret (inl ASSET_NOT_FOUND)
  | Some asset =>
      if negb (bool_decide (assetOwner (data asset) = accountID source)) then mret (inl NOT_AUTHORIZED_UPLOAD) else
      if negb (isSignatureValid (data asset) q) then mret (inl INVALID_SIGNATURE) else
      if negb (AF.canAddAvailableForIssuance (pAmount q) (data asset)) then mret (inl EXCEEDED_MAX_AMOUNT) else
      id ← DS.generateID (REQUEST_TYPE mp);
      let request := RQ.createNewWithHash requestParams id (accountID source) (masterID mp) (Some (pReference q)) (PRE_ISSUANCE_CREATE q) closeTime in
      DS.storeAddEntry {| lastModified := 0; data := request |};;
      if bool_decide (accountType source = MASTER) then
        result ← RR.tryApproveRequest dp mp max_size commissionID closeTime otherHelper request;
        match result with
        | REVIEW_SUCCESS => mret (inr (id, true))
        | _ => throw (RuntimeError "Failed to approve request")
        end
      else mret (inr (id, false))
  end.

Definition doCheckValid q : option Code :=
  if negb (isAssetCodeValid (pAsset q)) then Some ASSET_NOT_FOUND else
  if pAmount q =? 0 then Some INVALID_AMOUNT else
  if bool_decide (pReference q = []) then Some INVALID_REFERENCE else None.

End PR.
End PR.
