(* ===== verification/CreateOffer.v ===== *)
(** * Offers on the exchange ([transactions/dex/OfferExchange.cpp],
      [transactions/dex/CreateOfferOpFrame.cpp],
      [transactions/dex/DeleteOfferOpFrame.cpp],
      [transactions/dex/OfferManager.cpp])

    An offer is matched with the best offers of the other side of the order
    book until it is filled or no offer crosses its price, and what is left is
    added to the book.  [Taker] holds the frames of the new offer and of the
    balances in memory: they are stored when the matching is over.  The
    offers of the book and their balances are stored after each match. *)

From S2P Require Import Prelude OrdContainers BigMath LedgerDelta EntryStore Signatures Transaction LedgerHeader TxSet Balance OfferExchange DexStore.

Inductive ManageOfferResultCode :=
| OFFER_SUCCESS | MALFORMED | ASSET_PAIR_NOT_TRADABLE | BALANCE_NOT_FOUND | UNDERFUNDED | CROSS_SELF | OFFER_OVERFLOW
| REQUIRES_KYC_CODE | OFFER_NOT_FOUND | INVALID_PERCENT_FEE | INVALID_AMOUNT | PRICE_IS_INVALID.

Inductive ManageOfferEffect := CREATED | DELETED.

Inductive CrossOfferResult := eOfferPartial | eOfferTaken | eOfferCantConvert.
Inductive OfferFilterResult := eKeep | eStop | eSkip.
Inductive ConvertResult := eOK | ePartial | eFilterStop.

(** The inner result of the operation. *)
Record ManageOfferResult := {
  code : ManageOfferResultCode;
  offersClaimed : list ClaimOfferAtom;
  effect : option ManageOfferEffect;
  createdOffer : option OfferEntry;
}.

Record Taker := {
  offerA : OfferEntry;
  baseBalanceA : Frame BalanceEntry;
  quoteBalanceA : Frame BalanceEntry;
  mCommissionBalance : Frame BalanceEntry;
  mOfferTrail : list ClaimOfferAtom;
  mFeePaidByA : Z;
  takerCode : ManageOfferResultCode;
}.

Definition failure (c : ManageOfferResultCode) : ManageOfferResult :=
  {| code := c; offersClaimed := []; effect := None; createdOffer := None |}.

Module CO.
Section CO.
Context {Key Entry : Type} `{Ord Key} `{EqDecision Entry}.
Context {helper : EntryHelper Key Entry LedgerHeader} {dex : DexEntries Key Entry} (dp : DexParams) (max_size : nat).
Context (orderBy : (Frame OfferEntry -> Frame OfferEntry -> bool) -> list (Frame OfferEntry) -> list (Frame OfferEntry)).
Local Abbreviation St := (Store Key Entry LedgerHeader).
Implicit Types (tk : Taker).

(** ** One crossing *)

(** [OfferExchange::loadBalance] *)
Definition loadBalance (id : BalanceID) : M St (Frame BalanceEntry) :=
  b ← DS.loadBalance true id;
  match b with
  | Some f => mret f
  | None => throw (RuntimeError "invalid database state: offer must have matching balance")
  end.

Definition isOfferPriceMeetAssetPairRestrictions (assetPair : AssetPairEntry) (offerPrice : Z) : M St bool :=
  minAllowedPrice ← AP.getMinAllowedPrice dp assetPair;
  mret (offerPrice >=? minAllowedPrice).

Definition markOfferAsTaken (offer : Frame OfferEntry) (bb qb : Frame BalanceEntry)
    : M St (Frame BalanceEntry * Frame BalanceEntry) :=
  DS.storeDeleteEntry offer;;
  '(b, q) ← OE.unlockBalancesForTakenOffer (amountType dp) (data offer) (data bb) (data qb);
  mret (withData bb b, withData qb q).

Definition setTaker tk (o : OfferEntry) (bb qb cb : Frame BalanceEntry) (trail : list ClaimOfferAtom) (paid : Z) : Taker :=
  {| offerA := o; baseBalanceA := bb; quoteBalanceA := qb; mCommissionBalance := cb; mOfferTrail := trail;
     mFeePaidByA := paid; takerCode := takerCode tk |}.

(** [assert(balance->addBalance(delta))] *)
Definition assertAddBalance (delta : Z) (b : BalanceEntry) : M St BalanceEntry :=
  let '(ok, b') := BF.addBalance (amountType dp) delta b in if ok then mret b' else throw Aborted.

Definition crossOffer (assetPair : AssetPairEntry) tk (offerFrameB : Frame OfferEntry) : M St (CrossOfferResult * Taker) :=
  DS.record offerFrameB;;
  baseBalanceB ← loadBalance (baseBalance (data offerFrameB));
  quoteBalanceB ← loadBalance (quoteBalance (data offerFrameB));
  isOfferValid ← isOfferPriceMeetAssetPairRestrictions assetPair (price (data offerFrameB));
  if negb isOfferValid then
    '(bb, qb) ← markOfferAsTaken offerFrameB baseBalanceB quoteBalanceB;
    DS.storeChangeEntry bb;;
    DS.storeChangeEntry bb;;
    mret (eOfferTaken, tk)
  else
  m ← OE.exchange (offerA tk) (data offerFrameB);
  match type m with
  | RESULT_OVERFLOW => mret (eOfferCantConvert, tk)
  | NORMAL =>
      if (baseDelta m =? 0) || (quoteDelta m =? 0)
      then throw (RuntimeError "After match baseDelta or quoteDelta is zero") else
      '(oA, bA, qA) ← OE.offerMatched (amountType dp) (offerA tk) (data (baseBalanceA tk)) (data (quoteBalanceA tk)) m;
      '(oB, bB, qB) ← OE.offerMatched (amountType dp) (data offerFrameB) (data baseBalanceB) (data quoteBalanceB) m;
      let trail := mOfferTrail tk ++ [OE.createOfferClaim oB m] in
      let paid := i64 (mFeePaidByA tk + (if isBuy oA then buyerFee m else sellerFee m)) in
      cb ← assertAddBalance (buyerFee m) (data (mCommissionBalance tk));
      cb ← assertAddBalance (sellerFee m) cb;
      let tk := setTaker tk oA (withData (baseBalanceA tk) bA) (withData (quoteBalanceA tk) qA)
                  (withData (mCommissionBalance tk) cb) trail paid in
      let offerFrameB := withData offerFrameB oB in
      let baseBalanceB := withData baseBalanceB bB in
      let quoteBalanceB := withData quoteBalanceB qB in
      more ← OE.offerNeedsMore oB;
      if negb more then
        '(bb, qb) ← markOfferAsTaken offerFrameB baseBalanceB quoteBalanceB;
        DS.storeChangeEntry bb;;
        DS.storeChangeEntry qb;;
        mret (eOfferTaken, tk)
      else
        DS.storeChangeEntry offerFrameB;;
        DS.storeChangeEntry baseBalanceB;;
        DS.storeChangeEntry quoteBalanceB;;
        mret (eOfferPartial, tk)
  end.

(** ** All crossings *)

Definition OFFERS_TO_TAKE : nat := 5.

(** The body of the [for] loop: [None] when it ends without a [return]. *)
Fixpoint crossAll (filter : Frame OfferEntry -> Taker -> OfferFilterResult * Taker) (assetPair : AssetPairEntry)
    (retList : list (Frame OfferEntry)) tk (offerOffset : nat) : M St (option ConvertResult * Taker * nat) :=
  match retList with
  | [] => mret (None, tk, offerOffset)
  | offerB :: rest =>
      let '(r, tk) := filter offerB tk in
      match r with
      | eStop => mret (Some eFilterStop, tk, offerOffset)
      | eSkip => crossAll filter assetPair rest tk offerOffset
      | eKeep =>
          '(cor, tk) ← crossOffer assetPair tk offerB;
          match cor with
          | eOfferCantConvert => mret (Some ePartial, tk, offerOffset)
          | eOfferTaken =>
              if (offerOffset =? 0)%nat then throw Aborted else
              more ← OE.offerNeedsMore (offerA tk);
              if negb more then mret (Some eOK, tk, pred offerOffset) else
              crossAll filter assetPair rest tk (pred offerOffset)
          | eOfferPartial =>
              more ← OE.offerNeedsMore (offerA tk);
              if negb more then mret (Some eOK, tk, offerOffset) else mret (Some ePartial, tk, offerOffset)
          end
      end
  end.

Fixpoint convertWithOffers (fuel : nat) (filter : Frame OfferEntry -> Taker -> OfferFilterResult * Taker)
    (assetPair : AssetPairEntry) (book : Z) tk (offerOffset : nat) : M St (ConvertResult * Taker) :=
  match fuel with
  | O => throw OutOfFuel
  | S fuel =>
      more ← OE.offerNeedsMore (offerA tk);
      if negb more then mret (eOK, tk) else
      retList ← DS.loadBestOffers orderBy OFFERS_TO_TAKE offerOffset (pairBase assetPair) (pairQuote assetPair) book (negb (isBuy (offerA tk)));
      '(r, tk, offerOffset) ← crossAll filter assetPair retList tk (offerOffset + length retList);
      match r with
      | Some c => mret (c, tk)
      | None =>
          more ← OE.offerNeedsMore (offerA tk);
          if (more : bool) && (length retList <? OFFERS_TO_TAKE)%nat then mret (eOK, tk)
          else convertWithOffers fuel filter assetPair book tk offerOffset
      end
  end.

(** ** The operation that creates an offer *)

Section Operation.
Context (source : AccountEntry) (op : OM.ManageOfferOp) (commissionID : PublicKey) (fuel : nat).

Definition getSourceID : PublicKey := accountID source.

Definition loadBalanceValidForTrading (id : BalanceID) : M St (option (Frame BalanceEntry)) :=
  b ← DS.loadBalance true id;
  match b with
  | Some f => if bool_decide (balAccountID (data f) = getSourceID) then mret (Some f) else mret None
  | None => mret None
  end.

Definition loadTradableAssetPair (bb qb : BalanceEntry) : M St (option (Frame AssetPairEntry)) :=
  assetPair ← DS.loadAssetPair max_size true (balAsset bb) (balAsset qb);
  match assetPair with
  | None => mret None
  | Some p =>
      if negb (OM.opOrderBookID op =? SECONDARY_MARKET_ORDER_BOOK_ID) then mret (Some p) else
      if AP.checkPolicy (data p) (TRADEABLE_SECONDARY_MARKET dp) then mret (Some p) else mret None
  end.

(** [checkOfferValid]: the code of the failure, or the frames it sets. *)
Definition checkOfferValid : M St (ManageOfferResultCode + Frame BalanceEntry * Frame BalanceEntry * Frame AssetPairEntry) :=
  if OM.opAmount op =? 0 then throw Aborted else
  bb ← loadBalanceValidForTrading (OM.opBaseBalance op);
  match bb with None => mret (inl BALANCE_NOT_FOUND) | Some bb =>
  qb ← loadBalanceValidForTrading (OM.opQuoteBalance op);
  match qb with None => mret (inl BALANCE_NOT_FOUND) | Some qb =>
  if bool_decide (balAsset (data bb) = balAsset (data qb)) then mret (inl ASSET_PAIR_NOT_TRADABLE) else
  let receivingBalance := if OM.opIsBuy op then OM.opBaseBalance op else OM.opQuoteBalance op in
  allowed ← DS.isAllowedToReceive dp max_size receivingBalance;
  if negb allowed then mret (inl REQUIRES_KYC_CODE) else
  assetPair ← loadTradableAssetPair (data bb) (data qb);
  match assetPair with
  | None => mret (inl ASSET_PAIR_NOT_TRADABLE)
  | Some p => mret (inr (bb, qb, p))
  end end end.

(** The price is passed as a [uint64_t]. *)
Definition filterOffer (p : Z) (o : Frame OfferEntry) tk : OfferFilterResult * Taker :=
  let isPriceBetter := if isBuy (data o) then u64 (price (data o)) >=? u64 p else u64 (price (data o)) <=? u64 p in
  if negb isPriceBetter then (eStop, tk) else
  if bool_decide (ownerID (data o) = getSourceID)
  then (eStop, {| offerA := offerA tk; baseBalanceA := baseBalanceA tk; quoteBalanceA := quoteBalanceA tk;
                  mCommissionBalance := mCommissionBalance tk; mOfferTrail := mOfferTrail tk;
                  mFeePaidByA := mFeePaidByA tk; takerCode := CROSS_SELF |})
  else (eKeep, tk).

(** [lockSellingAmount]: the balances afterwards, or none. *)
Definition lockSellingAmount (offer : OfferEntry) (bb qb : Frame BalanceEntry) : option (Frame BalanceEntry * Frame BalanceEntry) :=
  let sellingAmount := if isBuy offer then i64 (quoteAmount offer + fee offer) else baseAmount offer in
  if sellingAmount <=? 0 then None else
  let '(r, b) := BF.lockBalance (amountType dp) sellingAmount (data (if isBuy offer then qb else bb)) in
  match r with
  | BF.SUCCESS => Some (if isBuy offer then (bb, withData qb b) else (withData bb b, qb))
  | _ => None
  end.

(** Assignments to a new offer. *)
Definition setNewOffer (o : OfferEntry) (id time f pf : Z) : OfferEntry :=
  {| offerID := id; ownerID := ownerID o; orderBookID := orderBookID o; isBuy := isBuy o; base := base o;
     quote := quote o; baseBalance := baseBalance o; quoteBalance := quoteBalance o; baseAmount := baseAmount o;
     quoteAmount := quoteAmount o; createdAt := time; fee := f; percentFee := pf; price := price o |}.

(** After the matching: the frames are stored, and the rest of the offer. *)
Definition finishOffer (assetPair : Frame AssetPairEntry) tk : M St (bool * ManageOfferResult) :=
  (match last (mOfferTrail tk) with
   | Some atom =>
       DS.storeChangeEntry (withData assetPair (AP.setCurrentPrice (data assetPair) (currentPrice atom)));;
       DS.storeChangeEntry (mCommissionBalance tk)
   | None => mret tt
   end);;
  more ← OE.offerNeedsMore (offerA tk);
  '(eff, created, bb, qb) ←
    (if (more : bool) then
       id ← DS.generateID (OFFER_TYPE dp);
       let o := offerA tk in
       let o := setNewOffer o id (createdAt o) (fee o) (percentFee o) in
       DS.storeAddEntry {| lastModified := 0; data := o |};;
       mret (CREATED, Some o, baseBalanceA tk, quoteBalanceA tk)
     else
       '(b, q) ← OE.unlockBalancesForTakenOffer (amountType dp) (offerA tk) (data (baseBalanceA tk)) (data (quoteBalanceA tk));
       mret (DELETED, None, withData (baseBalanceA tk) b, withData (quoteBalanceA tk) q));
  DS.storeChangeEntry (bb : Frame BalanceEntry);;
  DS.storeChangeEntry (qb : Frame BalanceEntry);;
  mret (true, {| code := takerCode tk; offersClaimed := mOfferTrail tk; effect := Some eff; createdOffer := created |}).

Definition doApply (closeTime : Z) : M St (bool * ManageOfferResult) :=
  v ← checkOfferValid;
  match v with
  | inl c => mret (false, failure c)
  | inr (bb, qb, assetPair) =>
      offer ← OM.buildOffer getSourceID op (balAsset (data bb)) (balAsset (data qb));
      match offer with
      | None => throw (RuntimeError "Unexpected state: quote amount overflows")
      | Some offer =>
          feeResult ← DS.calculateOfferFeeForAccount dp source (balAsset (data qb)) (u64 (quoteAmount offer));
          if DS.isOverflow feeResult then mret (false, failure OFFER_OVERFLOW) else
          if i64 (DS.calculatedPercentFee feeResult) >? OM.opFee op then mret (false, failure MALFORMED) else
          let offer := setNewOffer offer (offerID offer) closeTime (OM.opFee op) (i64 (DS.resPercentFee feeResult)) in
          if quoteAmount offer <=? fee offer then mret (false, failure MALFORMED) else
          match lockSellingAmount offer bb qb with
          | None => mret (false, failure UNDERFUNDED)
          | Some (bb, qb) =>
              cb ← DS.loadOrCreateBalanceFrameForAsset dp commissionID (pairQuote (data assetPair));
              let tk := {| offerA := offer; baseBalanceA := bb; quoteBalanceA := qb; mCommissionBalance := cb;
                           mOfferTrail := []; mFeePaidByA := 0; takerCode := OFFER_SUCCESS |} in
              '(r, tk) ← convertWithOffers fuel (filterOffer (price offer)) (data assetPair) (OM.opOrderBookID op) tk 0;
              match r, takerCode tk with
              | eOK, _ | ePartial, _ | eFilterStop, OFFER_SUCCESS => finishOffer assetPair tk
              | eFilterStop, c => mret (false, failure c)
              end
          end
      end
  end.

Definition doCheckValid : M St (bool * ManageOfferResultCode) :=
  if OM.opAmount op <=? 0 then mret (false, INVALID_AMOUNT) else
  if OM.opPrice op <=? 0 then mret (false, PRICE_IS_INVALID) else
  qa ← OM.calculateQuoteAmount (OM.opAmount op) (OM.opPrice op);
  if negb (qa >? 0) then mret (false, OFFER_OVERFLOW) else
  if OM.opFee op <? 0 then mret (false, INVALID_PERCENT_FEE) else
  if bool_decide (OM.opBaseBalance op = OM.opQuoteBalance op) then mret (false, ASSET_PAIR_NOT_TRADABLE) else
  mret (true, OFFER_SUCCESS).

End Operation.

(** ** Deleting offers *)

(** [OfferManager::deleteOffer] *)
Definition deleteOffer (offerFrame : Frame OfferEntry) : M St unit :=
  b ← DS.loadBalance true (OF.getLockedBalance (data offerFrame));
  match b with
  | None => throw (RuntimeError "Invalid database state: failed to load balance to cancel order")
  | Some balanceFrame =>
      amountToUnlock ← OF.getLockedAmount (data offerFrame);
      let '(ok, b') := BF.unlock (amountType dp) amountToUnlock (data balanceFrame) in
      if negb ok then throw (RuntimeError "Invalid database state: failed to unlocked locked amount for offer") else
      DS.storeDeleteEntry offerFrame;;
      DS.storeChangeEntry (withData balanceFrame b')
  end.

Fixpoint deleteOffers (offers : list (Frame OfferEntry)) : M St unit :=
  match offers with
  | [] => mret tt
  | offer :: rest => DS.record offer;; deleteOffer offer;; deleteOffers rest
  end.

(** [DeleteOfferOpFrame::doApply] *)
Definition delete_doApply (sourceID : PublicKey) (op : OM.ManageOfferOp) : M St (bool * ManageOfferResult) :=
  offer ← DS.loadOffer true sourceID (OM.opOfferID op) (OM.opOrderBookID op);
  match offer with
  | None => mret (false, failure OFFER_NOT_FOUND)
  | Some o =>
      deleteOffer o;;
      mret (true, {| code := OFFER_SUCCESS; offersClaimed := []; effect := Some DELETED; createdOffer := None |})
  end.

Definition delete_doCheckValid (op : OM.ManageOfferOp) : M St (bool * ManageOfferResultCode) :=
  if negb (OM.opAmount op =? 0) then throw (RuntimeError "DeleteOffer: expected amount to be 0") else
  if OM.opOfferID op =? 0 then mret (false, OFFER_NOT_FOUND) else mret (true, OFFER_SUCCESS).

End CO.
End CO.
