(* ===== verification/Manage.v ===== *)
(** * Managing balances, asset pairs and assets

    The operations of [transactions/ManageBalanceOpFrame.cpp] (Module [MB]),
    [transactions/ManageAssetPairOpFrame.cpp] (Module [MP]) and
    [transactions/manage_asset] (Module [MA]). *)

From S2P Require Import Prelude OrdContainers BigMath LedgerDelta EntryStore Signatures LedgerHeader TxSet Statistics Balance Assets OfferExchange DexStore AccountManager Requests CreateOffer.

(** ** Balances *)

Inductive ManageBalanceAction := CREATE_BALANCE | DELETE_BALANCE.

Record ManageBalanceOp := { mbAction : ManageBalanceAction; mbDestination : PublicKey; mbAsset : AssetCode }.

Module MB.
Section MB.
Context {Key Entry : Type} `{Ord Key} `{EqDecision Entry}.
Context {helper : EntryHelper Key Entry LedgerHeader} {dex : DexEntries Key Entry} (dp : DexParams) (max_size : nat).
Local Abbreviation St := (Store Key Entry LedgerHeader).

Inductive Code := MALFORMED | ASSET_NOT_FOUND | DESTINATION_NOT_FOUND | INVALID_ASSET.

(** The id of the balance; one that the account already has in the asset is
    loaded and not used. *)
Definition doApply (op : ManageBalanceOp) : M St (Code + BalanceID) :=
  destAccountFrame ← DS.loadAccount max_size (mbDestination op);
  match destAccountFrame with
  | None => mret (inl DESTINATION_NOT_FOUND)
  | Some _ =>
      DS.loadBalanceFor dp true (mbDestination op) (mbAsset op);;
      assetFrame ← DS.loadAsset max_size false (mbAsset op);
      match assetFrame with
      | None => mret (inl ASSET_NOT_FOUND)
      | Some _ =>
          id ← DS.generateID (BALANCE_TYPE dp);
          let newBalanceID := forAccount dp (mbDestination op) id in
          DS.storeAddEntry {| lastModified := 0; data := BF.createNew newBalanceID (mbDestination op) (mbAsset op) |};;
          mret (inr newBalanceID)
      end
  end.

(** [None] is [true]. *)
Definition doCheckValid (op : ManageBalanceOp) : option Code :=
  match mbAction op with
  | DELETE_BALANCE => Some MALFORMED
  | CREATE_BALANCE => if negb (isAssetCodeValid (mbAsset op)) then Some INVALID_ASSET else None
  end.

End MB.
End MB.

(** ** Asset pairs *)

Inductive ManageAssetPairAction := CREATE_PAIR | UPDATE_PRICE | UPDATE_POLICIES | OTHER_PAIR_ACTION (n : Z).

Record ManageAssetPairOp := {
  mpAction : ManageAssetPairAction;
  mpBase : AssetCode;
  mpQuote : AssetCode;
  mpPhysicalPrice : Z;
  mpPhysicalPriceCorrection : Z;
  mpMaxPriceStep : Z;
  mpPolicies : Z;
}.

Module MP.
Section MP.
Context {Key Entry : Type} `{Ord Key} `{EqDecision Entry}.
Context {helper : EntryHelper Key Entry LedgerHeader} {dex : DexEntries Key Entry} (dp : DexParams) (max_size : nat) (commissionID : PublicKey).
Local Abbreviation St := (Store Key Entry LedgerHeader).
Implicit Types (op : ManageAssetPairOp) (p : AssetPairEntry).

Inductive Code := NOT_FOUND | ALREADY_EXISTS | MALFORMED | INVALID_ASSET | INVALID_ACTION | INVALID_POLICIES | ASSET_NOT_FOUND.

(** [AssetPairFrame::create] *)
Definition create op : AssetPairEntry :=
  {| pairBase := mpBase op; pairQuote := mpQuote op; pairCurrentPrice := mpPhysicalPrice op; physicalPrice := mpPhysicalPrice op;
     physicalPriceCorrection := mpPhysicalPriceCorrection op; maxPriceStep := mpMaxPriceStep op; pairPolicies := mpPolicies op |}.

(** The current price. *)
Definition createNewAssetPair op (assetPair : option (Frame AssetPairEntry)) : M St (Code + Z) :=
  reverse ← (match assetPair with Some _ => mret true | None => DS.assetPairExists (mpQuote op) (mpBase op) end);
  if (reverse : bool) then mret (inl ALREADY_EXISTS) else
  baseExists ← DS.assetExists (mpBase op);
  assetsExist ← (if (baseExists : bool) then DS.assetExists (mpQuote op) else mret false);
  if negb assetsExist then mret (inl ASSET_NOT_FOUND) else
  let pair := create op in
  DS.storeAddEntry {| lastModified := 0; data := pair |};;
  AM.loadOrCreateBalanceForAsset dp commissionID (pairQuote pair);;
  mret (inr (pairCurrentPrice pair)).

Definition setPolicies p op : AssetPairEntry :=
  {| pairBase := pairBase p; pairQuote := pairQuote p; pairCurrentPrice := pairCurrentPrice p; physicalPrice := physicalPrice p;
     physicalPriceCorrection := mpPhysicalPriceCorrection op; maxPriceStep := mpMaxPriceStep op; pairPolicies := mpPolicies op |}.

(** The premium over the physical price is kept. *)
Definition setPrice p op : AssetPairEntry :=
  let premium := i64 (pairCurrentPrice p - physicalPrice p) in
  let premium := if premium <? 0 then 0 else premium in
  {| pairBase := pairBase p; pairQuote := pairQuote p; pairCurrentPrice := i64 (mpPhysicalPrice op + premium); physicalPrice := mpPhysicalPrice op;
     physicalPriceCorrection := physicalPriceCorrection p; maxPriceStep := maxPriceStep p; pairPolicies := pairPolicies p |}.

Definition removeOffers p (priceUpperBound : option Z) : M St unit :=
  offersToRemove ← DS.loadOffersWithFilters (pairBase p) (pairQuote p) SECONDARY_MARKET_ORDER_BOOK_ID priceUpperBound;
  CO.deleteOffers dp offersToRemove.

(** The new entry of a pair that exists. *)
Definition updatedPair op p : M St AssetPairEntry :=
  match mpAction op with
  | UPDATE_POLICIES =>
      let pair := setPolicies p op in
      when (negb (AP.checkPolicy pair (TRADEABLE_SECONDARY_MARKET dp))) (removeOffers pair None);; mret pair
  | _ =>
      let pair := setPrice p op in
      minAllowedPrice ← AP.getMinAllowedPrice dp pair;
      removeOffers pair (Some (u64 minAllowedPrice));; mret pair
  end.

Definition doApply op : M St (Code + Z) :=
  assetPair ← DS.loadAssetPair max_size true (mpBase op) (mpQuote op);
  match mpAction op, assetPair with
  | CREATE_PAIR, _ => createNewAssetPair op assetPair
  | _, None => mret (inl NOT_FOUND)
  | _, Some f =>
      pair ← updatedPair op (data f);
      DS.storeChangeEntry (withData f pair);;
      mret (inr (pairCurrentPrice pair))
  end.

Definition doCheckValid op : option Code :=
  if negb (isAssetCodeValid (mpBase op)) || negb (isAssetCodeValid (mpQuote op)) then Some INVALID_ASSET else
  match mpAction op with
  | OTHER_PAIR_ACTION _ => Some INVALID_ACTION
  | a =>
      if (mpPhysicalPrice op <? 0) || (match a with UPDATE_PRICE => mpPhysicalPrice op =? 0 | _ => false end) then Some MALFORMED else
      if mpPolicies op <? 0 then Some INVALID_POLICIES else
      if mpPhysicalPriceCorrection op <? 0 then Some MALFORMED else
      if (mpMaxPriceStep op <? 0) || (mpMaxPriceStep op >? 100 * ONE) then Some MALFORMED else None
  end.

End MP.
End MP.

(** ** Assets *)

Module MA.
Section MA.
Context {Key Entry : Type} `{Ord Key} `{EqDecision Entry}.
Context {helper : EntryHelper Key Entry LedgerHeader} {dex : DexEntries Key Entry} (dp : DexParams) (mp : MoneyParams) (max_size : nat).
Context (commissionID : PublicKey) (closeTime : Z) (source : AccountEntry) (otherHelper : Z -> RR.ReviewHandlers (Key := Key) (Entry := Entry)).
Local Abbreviation St := (Store Key Entry LedgerHeader).

Inductive Code := REQUEST_NOT_FOUND | ASSET_ALREADY_EXISTS | REQUEST_ALREADY_EXISTS | STATS_ASSET_ALREADY_EXISTS | ASSET_NOT_FOUND
  | INVALID_CODE | INVALID_POLICIES | INITIAL_PREISSUED_EXCEEDS_MAX_ISSUANCE | INVALID_DETAILS.

(** [getOrCreateReviewableRequest], and the body that the callers set: a new
    request if the id is 0. *)
Definition getUpdatedOrCreateReviewableRequest (id : Z) (code : AssetCode) (t : ReviewableRequestType) (body : RequestBody) : M St (option (Frame ReviewableRequestEntry)) :=
  if id =? 0 then
    newID ← DS.generateID (REQUEST_TYPE mp);
    mret (Some {| lastModified := 0; data := RQ.createNewWithHash requestParams newID (accountID source) (masterID mp) (Some code) body closeTime |})
  else
    r ← AM.loadRequestOfType max_size true id (accountID source) t;
    match r with
    | Some f => mret (Some (withData f (RQ.setBody requestParams (data f) body)))
    | None => mret None
    end.

(** The last steps of both operations: the request is stored, and approved if
    the source is the master account. *)
Definition submit (failed : string) (id : Z) (request : Frame ReviewableRequestEntry) : M St (Code + (Z * bool)) :=
  (if id =? 0 then DS.storeAddEntry request else DS.storeChangeEntry request);;
  if bool_decide (accountType source = MASTER) then
    resultCode ← RR.tryApproveRequest dp mp max_size commissionID closeTime otherHelper (data request);
    match resultCode with
    | REVIEW_SUCCESS => mret (inr (requestID (data request), true))
    | _ => throw (RuntimeError failed)
    end
  else mret (inr (requestID (data request), false)).

(** [CreateAssetOpFrame] *)
Definition create_doApply (id : Z) (q : AssetCreationRequest) : M St (Code + (Z * bool)) :=
  e ← (if id =? 0 then AM.requestExists (accountID source) (acCode q) else mret false);
  if (e : bool) then mret (inl REQUEST_ALREADY_EXISTS) else
  isAssetExist ← DS.assetExists (acCode q);
  if (isAssetExist : bool) then mret (inl ASSET_ALREADY_EXISTS) else
  stats ← (if isSetFlag (acPolicies q) (STATS_QUOTE_ASSET mp) then AM.loadStatsAsset mp else mret None);
  match stats with
  | Some _ => mret (inl STATS_ASSET_ALREADY_EXISTS)
  | None =>
      r ← getUpdatedOrCreateReviewableRequest id (acCode q) T_ASSET_CREATE (ASSET_CREATE q);
      match r with
      | None => mret (inl REQUEST_NOT_FOUND)
      | Some request => submit "Failed to review create asset request" id request
      end
  end.

Definition create_doCheckValid (q : AssetCreationRequest) : option Code :=
  if negb (isAssetCodeValid (acCode q)) then Some INVALID_CODE else
  if negb (isValidXDRFlag (assetPolicyFlags mp) (i32 (acPolicies q))) then Some INVALID_POLICIES else
  if acMaxIssuanceAmount q <? acInitialPreissuedAmount q then Some INITIAL_PREISSUED_EXCEEDS_MAX_ISSUANCE else
  if negb (isValidJson requestParams (acDetails q)) then Some INVALID_DETAILS else None.

(** [UpdateAssetOpFrame] *)
Definition update_doApply (id : Z) (q : AssetUpdateRequest) : M St (Code + (Z * bool)) :=
  r ← getUpdatedOrCreateReviewableRequest id (auCode q) T_ASSET_UPDATE (ASSET_UPDATE q);
  match r with
  | None => mret (inl REQUEST_NOT_FOUND)
  | Some request =>
      a ← DS.loadAssetOf max_size true (auCode q) (accountID source);
      match a with
      | None => mret (inl ASSET_NOT_FOUND)
      | Some _ =>
          stats ← (if isSetFlag (auPolicies q) (STATS_QUOTE_ASSET mp) then AM.loadStatsAsset mp else mret None);
          let other := match stats with Some statsAsset => negb (bool_decide (auCode q = assetCode (data statsAsset))) | None => false end in
          if other then mret (inl STATS_ASSET_ALREADY_EXISTS) else submit "Failed to approve review request" id request
      end
  end.

Definition update_doCheckValid (q : AssetUpdateRequest) : option Code :=
  if negb (isAssetCodeValid (auCode q)) then Some INVALID_CODE else
  if negb (isValidXDRFlag (assetPolicyFlags mp) (i32 (auPolicies q))) then Some INVALID_POLICIES else
  if negb (isValidJson requestParams (auDetails q)) then Some INVALID_DETAILS else None.

(** [CancelAssetRequestOpFrame] *)
Definition cancel_doApply (id : Z) : M St (Code + Z) :=
  r ← AM.loadRequestOf max_size true id (accountID source);
  match r with
  | None => mret (inl REQUEST_NOT_FOUND)
  | Some request =>
      match requestBody (data request) with
      | ASSET_CREATE _ | ASSET_UPDATE _ => DS.storeDeleteEntry request;; mret (inr (requestID (data request)))
      | _ => mret (inl REQUEST_NOT_FOUND)
      end
  end.

Definition cancel_doCheckValid (id : Z) : option Code := if id =? 0 then Some REQUEST_NOT_FOUND else None.

End MA.
End MA.
