(* ===== verification/DexFacts.v ===== *)
(** * The order book and the money behind it

    [bookInv R extra]: in the rows [R], every balance holds at least what the
    offers and the withdrawal requests on it have locked (and [extra], what an
    offer that is not stored yet has), every offer can be matched and has its
    two balances, every request can be carried out, and the funds in each asset
    fit 63 bits. *)

From S2P Require Import Prelude OrdContainers BigMath LedgerDelta LedgerDeltaFacts EntryStore EntryStoreFacts Signatures LedgerHeader TxSet Statistics Balance Assets OfferExchange ExchangeFacts DexStore.

(** What the exchange needs of the union of entries. *)
Class EntryDataOk {Entry T} (d : EntryData Entry T) : Prop := {
  from_to : forall f : Frame T, fromEntry (toEntry f) = Some f;
  from_inv : forall e (f : Frame T), fromEntry e = Some f -> e = toEntry f;
}.

Lemma toEntry_inj {Entry T} (d : EntryData Entry T) `{!EntryDataOk d} (f g : Frame T) : toEntry f = toEntry g -> f = g.
Proof. intros E. apply (f_equal fromEntry) in E. rewrite !from_to in E. by injection E. Qed.

Class DexEntriesOk {Key Entry} (helper : EntryHelper Key Entry LedgerHeader) (dex : DexEntries Key Entry) : Prop := {
  balanceDataOk :: EntryDataOk (balanceData (Key := Key));
  offerDataOk :: EntryDataOk (offerData (Key := Key));
  pairDataOk :: EntryDataOk (pairData (Key := Key));
  assetDataOk :: EntryDataOk (assetData (Key := Key));
  requestDataOk :: EntryDataOk (requestData (Key := Key));
  statDataOk :: EntryDataOk (statData (Key := Key));
  referenceDataOk :: EntryDataOk (referenceData (Key := Key));
  key_balance : forall f : Frame BalanceEntry, getLedgerKey (toEntry f) = balanceKey (balanceID (data f));
  key_offer : forall f : Frame OfferEntry, getLedgerKey (toEntry f) = offerKey (offerID (data f)) (ownerID (data f));
  key_pair : forall f : Frame AssetPairEntry, getLedgerKey (toEntry f) = pairKey (pairBase (data f)) (pairQuote (data f));
  key_asset : forall f : Frame AssetEntry, getLedgerKey (toEntry f) = assetKey (assetCode (data f));
  key_request : forall f : Frame ReviewableRequestEntry, getLedgerKey (toEntry f) = requestKey (requestID (data f));
  key_stat : forall f : Frame StatisticsEntry, getLedgerKey (toEntry f) = statKey (statAccountID (data f));
  key_reference : forall f : Frame (PublicKey * list Z), getLedgerKey (toEntry f) = referenceKey (data f).1 (data f).2;
  balanceKey_inj : forall i j, balanceKey i = balanceKey j -> i = j;
  offerKey_inj : forall i o i' o', offerKey i o = offerKey i' o' -> i = i' /\ o = o';
  pairKey_inj : forall b q b' q', pairKey b q = pairKey b' q' -> b = b' /\ q = q';
  assetKey_inj : forall c c', assetKey c = assetKey c' -> c = c';
  requestKey_inj : forall i j, requestKey i = requestKey j -> i = j;
  statKey_inj : forall a b, statKey a = statKey b -> a = b;
  dexAccountKey_inj : forall a b, dexAccountKey a = dexAccountKey b -> a = b;
  (** the types of the keys *)
  kind_balance : forall i, keyKind (balanceKey i) = KIND_BALANCE;
  kind_offer : forall i o, keyKind (offerKey i o) = KIND_OFFER;
  kind_pair : forall b q, keyKind (pairKey b q) = KIND_PAIR;
  kind_asset : forall c, keyKind (assetKey c) = KIND_ASSET;
  kind_request : forall i, keyKind (requestKey i) = KIND_REQUEST;
  kind_stat : forall a, keyKind (statKey a) = KIND_STATISTICS;
  kind_reference : forall a r, keyKind (referenceKey a r) = KIND_REFERENCE;
  kind_account : forall a, keyKind (dexAccountKey a) = KIND_OTHER;
  (** [storeDelete] of offers and requests deletes the row *)
  deletes_offer : forall i o, deletion (offerKey i o) = DeletesRow;
  deletes_request : forall i, deletion (requestKey i) = DeletesRow;
  balance_of_key : forall e i, getLedgerKey e = balanceKey i -> exists f : Frame BalanceEntry, e = toEntry f;
  pair_of_key : forall e b q, getLedgerKey e = pairKey b q -> exists f : Frame AssetPairEntry, e = toEntry f;
  asset_of_key : forall e c, getLedgerKey e = assetKey c -> exists f : Frame AssetEntry, e = toEntry f;
  request_of_key : forall e i, getLedgerKey e = requestKey i -> exists f : Frame ReviewableRequestEntry, e = toEntry f;
  touch_balance : forall n (f : Frame BalanceEntry), setLastModified n (toEntry f) = toEntry {| lastModified := n; data := data f |};
  touch_offer : forall n (f : Frame OfferEntry), setLastModified n (toEntry f) = toEntry {| lastModified := n; data := data f |};
  touch_pair : forall n (f : Frame AssetPairEntry), setLastModified n (toEntry f) = toEntry {| lastModified := n; data := data f |};
  touch_asset : forall n (f : Frame AssetEntry), setLastModified n (toEntry f) = toEntry {| lastModified := n; data := data f |};
  touch_request : forall n (f : Frame ReviewableRequestEntry), setLastModified n (toEntry f) = toEntry {| lastModified := n; data := data f |};
  touch_stat : forall n (f : Frame StatisticsEntry), setLastModified n (toEntry f) = toEntry {| lastModified := n; data := data f |};
  touch_reference : forall n (f : Frame (PublicKey * list Z)), setLastModified n (toEntry f) = toEntry {| lastModified := n; data := data f |};
  (** a balance out of the range of its columns is rejected *)
  valid_balance : forall f : Frame BalanceEntry, inRange (data f) -> isValid (toEntry f) = isAssetCodeValid (balAsset (data f));
  valid_offer : forall f : Frame OfferEntry, isValid (toEntry f) = OF.isValid (data f);
  valid_pair : forall f : Frame AssetPairEntry, isValid (toEntry f) = AP.isValid (data f);
  valid_asset : forall f : Frame AssetEntry, isValid (toEntry f) = AF.isValid (isValidJson requestParams) (data f);
  valid_request : forall f : Frame ReviewableRequestEntry, isValid (toEntry f) = RQ.isValid requestParams (data f);
  valid_stat : forall f : Frame StatisticsEntry, isValid (toEntry f) = SF.isValid (data f);
  pair_cached : forall b q, usesCache (pairKey b q) = true;
  asset_cached : forall c, usesCache (assetKey c) = true;
  request_cached : forall i, usesCache (requestKey i) = true;
  limits_cached : forall a, usesCache (limitsKey a) = true;
  typeLimits_cached : forall t, usesCache (typeLimitsKey t) = true;
}.

(** Keys of different types differ. *)
Ltac kinds E := apply (f_equal keyKind) in E; rewrite ?kind_balance, ?kind_offer, ?kind_pair, ?kind_asset, ?kind_request, ?kind_stat, ?kind_reference, ?kind_account in E; discriminate E.

Section Kinds.
Context {Key Entry : Type} {helper : EntryHelper Key Entry LedgerHeader} {dex : DexEntries Key Entry} {dexOk : DexEntriesOk helper dex}.

Lemma balanceKey_offer i j o : balanceKey i <> offerKey j o.
Proof. intros E. kinds E. Qed.
Lemma balanceKey_pair i b q : balanceKey i <> pairKey b q.
Proof. intros E. kinds E. Qed.
Lemma offerKey_pair i o b q : offerKey i o <> pairKey b q.
Proof. intros E. kinds E. Qed.

(** An entry of one type is not of another. *)
Lemma other_kind {T T'} (d : EntryData Entry T) (d' : EntryData Entry T') `{!EntryDataOk d'} k k' (f : Frame T) :
  keyKind (getLedgerKey (toEntry f)) = k -> (forall g : Frame T', keyKind (getLedgerKey (toEntry g)) = k') -> k <> k' ->
  fromEntry (toEntry f) = None (A := Frame T').
Proof.
  intros Hf Hg Hne. destruct (fromEntry (toEntry f)) as [g|] eqn:E; [|done]. apply from_inv in E. destruct Hne. by rewrite <- Hf, E.
Qed.

End Kinds.

(** ** Sums *)

Definition sumOf {A} (f : A -> Z) (l : list A) : Z := foldr (fun a n => f a + n) 0 l.

Lemma sumOf_cons {A} (f : A -> Z) a l : sumOf f (a :: l) = f a + sumOf f l.
Proof. done. Qed.

Lemma sumOf_nil {A} (f : A -> Z) : sumOf f [] = 0.
Proof. done. Qed.

Lemma sumOf_app {A} (f : A -> Z) l l' : sumOf f (l ++ l') = sumOf f l + sumOf f l'.
Proof. induction l as [|a l IH]; [done|]. cbn [app]. rewrite !sumOf_cons. lia. Qed.

Global Instance sumOf_perm {A} (f : A -> Z) : Proper ((≡ₚ) ==> (=)) (sumOf f).
Proof. induction 1; rewrite ?sumOf_cons in *; lia. Qed.

Lemma sumOf_nonneg {A} (f : A -> Z) l : (forall a, a ∈ l -> 0 <= f a) -> 0 <= sumOf f l.
Proof. induction l as [|a l IH]; intros Hn; [done|]. rewrite sumOf_cons. specialize (Hn a ltac:(set_solver)) as H0. specialize (IH ltac:(set_solver)). lia. Qed.

Lemma sumOf_zero {A} (w : A -> Z) l : (forall a, a ∈ l -> w a = 0) -> sumOf w l = 0.
Proof.
  induction l as [|a l IH]; intros Hw; [done|]. rewrite sumOf_cons, IH, (Hw a) by set_solver. done.
Qed.

Section Rows.
Context {Key Entry Header : Type} `{Ord Key} {helper : EntryHelper Key Entry Header} {helperOk : EntryHelperOk helper}.
Implicit Types (R : list Entry) (k : Key) (e : Entry).

Definition distinctRows R : Prop := NoDup (map getLedgerKey R).

Definition ofRow (f : Entry -> Z) (o : option Entry) : Z := match o with Some e => f e | None => 0 end.

Lemma rowsFind_elem R e : distinctRows R -> e ∈ R <-> rowsFind R (getLedgerKey e) = Some e.
Proof.
  intros Hd. split; [|by intros [_ ?]%rowsFind_Some]. unfold distinctRows in Hd.
  induction R as [|r R IH]; intros Hin; [set_solver|]. cbn [map] in Hd. apply NoDup_cons in Hd as [Hn Hd].
  rewrite rowsFind_cons. apply elem_of_cons in Hin as [-> |Hin]; [by rewrite eqvb_refl|].
  rewrite eqvb_neq; [by apply IH|]. intros Hk. apply Hn. rewrite Hk. apply list_elem_of_In. by apply in_map, list_elem_of_In.
Qed.

(** Tables with the same rows by key have the same rows. *)
Lemma rows_perm R R' : distinctRows R -> distinctRows R' -> (forall k, rowsFind R k = rowsFind R' k) -> R ≡ₚ R'.
Proof.
  intros Hd Hd' He. apply NoDup_Permutation; [by eapply NoDup_fmap_1|by eapply NoDup_fmap_1|].
  intros e. by rewrite !rowsFind_elem, He by done.
Qed.

Definition write k (v : option Entry) R : list Entry := delRows k R ++ option_list v.

Definition keyOf k (v : option Entry) : Prop := match v with Some e => getLedgerKey e = k | None => True end.

Lemma rowsFind_write k v R k' : keyOf k v -> rowsFind (write k v R) k' = update k v (rowsFind R) k'.
Proof.
  intros Hk. unfold write. destruct v as [e|]; cbn [option_list option_rect]; [|rewrite app_nil_r; apply rowsFind_del].
  cbn [keyOf] in Hk. subst k. rewrite rowsFind_app; unfold update; rewrite ?rowsFind_del; unfold update; [|by rewrite eqvb_refl].
  by destruct (eqvb (getLedgerKey e) k').
Qed.

Lemma write_distinct k v R : keyOf k v -> distinctRows R -> distinctRows (write k v R).
Proof.
  intros Hk Hd. unfold write. destruct v as [e|]; cbn [option_list option_rect]; [|rewrite app_nil_r; by apply delRows_NoDup].
  apply rows_app_NoDup; [by apply delRows_NoDup|]. cbn [keyOf] in Hk. subst k. rewrite rowsFind_del. unfold update. by rewrite eqvb_refl.
Qed.

Lemma sumOf_del f k R : distinctRows R -> sumOf f (delRows k R) = sumOf f R - ofRow f (rowsFind R k).
Proof.
  unfold distinctRows, delRows. induction R as [|r R IH]; [done|]. cbn [map List.filter]. intros [Hn Hd]%NoDup_cons.
  rewrite rowsFind_cons. destruct (whereKey k r) eqn:E; cbn [negb].
  - apply whereKey_key in E. subst k. rewrite eqvb_refl, IH, sumOf_cons by done. apply rowsFind_None in Hn. rewrite Hn. cbn [ofRow]. lia.
  - rewrite eqvb_neq; [rewrite !sumOf_cons, IH by done; lia|]. intros Hk. by rewrite (proj2 (whereKey_key k r) Hk) in E.
Qed.

Lemma sumOf_write f k v R : distinctRows R -> sumOf f (write k v R) = sumOf f R - ofRow f (rowsFind R k) + ofRow f v.
Proof. intros Hd. unfold write. rewrite sumOf_app, sumOf_del by done. destruct v; cbn [option_list option_rect ofRow]; rewrite ?sumOf_cons, sumOf_nil; lia. Qed.

Lemma delRows_sub k R e : e ∈ delRows k R -> e ∈ R.
Proof. unfold delRows. rewrite !list_elem_of_In. by intros [? _]%filter_In. Qed.

(** Two different rows. *)
Lemma sumOf_two f R e e' : distinctRows R -> (forall a, a ∈ R -> 0 <= f a) -> rowsFind R (getLedgerKey e) = Some e ->
  rowsFind R (getLedgerKey e') = Some e' -> getLedgerKey e <> getLedgerKey e' -> f e + f e' <= sumOf f R.
Proof.
  intros Hd Hn He He' Hne. pose proof (sumOf_del f (getLedgerKey e) R Hd) as H1. rewrite He in H1.
  pose proof (sumOf_del f (getLedgerKey e') (delRows (getLedgerKey e) R) (delRows_NoDup _ _ Hd)) as H2.
  rewrite rowsFind_del in H2. unfold update in H2. rewrite eqvb_neq, He' in H2 by done. cbn [ofRow] in *.
  pose proof (sumOf_nonneg f (delRows (getLedgerKey e') (delRows (getLedgerKey e) R))) as H3.
  specialize (H3 (fun a Ha => Hn a (delRows_sub _ _ _ (delRows_sub _ _ _ Ha)))). lia.
Qed.

Lemma sumOf_one f R e : distinctRows R -> (forall a, a ∈ R -> 0 <= f a) -> rowsFind R (getLedgerKey e) = Some e -> f e <= sumOf f R.
Proof.
  intros Hd Hn He. pose proof (sumOf_del f (getLedgerKey e) R Hd) as H1. rewrite He in H1. cbn [ofRow] in H1.
  pose proof (sumOf_nonneg f (delRows (getLedgerKey e) R) (fun a Ha => Hn a (delRows_sub _ _ _ Ha))). lia.
Qed.

(** Entries in memory written over the rows. *)
Definition overlay (es : list Entry) R : list Entry := foldr (fun e R => write (getLedgerKey e) (Some e) R) R es.

Lemma overlay_distinct es R : distinctRows R -> distinctRows (overlay es R).
Proof. intros Hd. induction es as [|e es IH]; [done|]. by apply write_distinct. Qed.

Lemma rowsFind_overlay es R k : rowsFind (overlay es R) k =
  match List.find (fun e => eqvb (getLedgerKey e) k) es with Some e => Some e | None => rowsFind R k end.
Proof.
  induction es as [|e es IH]; [done|]. cbn [overlay foldr List.find]. rewrite rowsFind_write by done. unfold update.
  destruct (eqvb (getLedgerKey e) k); [done|]. exact IH.
Qed.

Lemma rowsFind_overlay_in es R e : NoDup (map getLedgerKey es) -> e ∈ es -> rowsFind (overlay es R) (getLedgerKey e) = Some e.
Proof.
  intros Hn Hin. rewrite rowsFind_overlay. induction es as [|e' es IH]; [set_solver|]. cbn [map] in Hn. apply NoDup_cons in Hn as [Hne Hn].
  cbn [List.find]. apply elem_of_cons in Hin as [-> |Hin]; [by rewrite eqvb_refl|]. rewrite eqvb_neq; [by apply IH|].
  intros Hk. apply Hne. rewrite Hk. apply list_elem_of_In, in_map, list_elem_of_In, Hin.
Qed.

Lemma rowsFind_overlay_out es R k : k ∉ map getLedgerKey es -> rowsFind (overlay es R) k = rowsFind R k.
Proof.
  intros Hk. rewrite rowsFind_overlay. destruct (List.find _ es) as [e|] eqn:E; [|done].
  apply List.find_some in E as [Hin Heq]. apply eqvb_eq in Heq. subst k. destruct Hk. apply list_elem_of_In, in_map, Hin.
Qed.

Lemma sumOf_overlay f es R : distinctRows R -> NoDup (map getLedgerKey es) ->
  sumOf f (overlay es R) = sumOf f R + sumOf (fun e => f e - ofRow f (rowsFind R (getLedgerKey e))) es.
Proof.
  intros Hd. induction es as [|e es IH]; [rewrite sumOf_nil; cbn [overlay foldr]; lia|]. cbn [map overlay foldr]. intros [Hn Hnd]%NoDup_cons.
  rewrite sumOf_write by (by apply overlay_distinct). fold (overlay es R). rewrite IH, sumOf_cons, rowsFind_overlay_out by done. cbn [ofRow]. lia.
Qed.

End Rows.

(** ** The book *)

Section Book.
Context {Key Entry : Type} `{Ord Key}.
Context {helper : EntryHelper Key Entry LedgerHeader} {helperOk : EntryHelperOk helper}.
Context {dex : DexEntries Key Entry} {dexOk : DexEntriesOk helper dex}.
Context (commissionID : PublicKey).
Implicit Types (R : list Entry) (f : Frame BalanceEntry) (o : OfferEntry) (extra : BalanceID -> Z).

Definition asBalance (e : Entry) : option (Frame BalanceEntry) := fromEntry e.
Definition asOffer (e : Entry) : option (Frame OfferEntry) := fromEntry e.
Definition asRequest (e : Entry) : option (Frame ReviewableRequestEntry) := fromEntry e.

Definition assetFunds (a : AssetCode) f : Z := if bool_decide (balAsset (data f) = a) then funds (data f) else 0.
Definition fundsOf (a : AssetCode) (e : Entry) : Z := match asBalance e with Some f => assetFunds a f | None => 0 end.

Definition offerLock (id : BalanceID) o : Z := if bool_decide (OF.getLockedBalance o = id) then lockOf o else 0.

(** What a withdrawal has locked. *)
Definition withdrawLock (w : WithdrawalRequest) : Z := wAmount w + fixed (wFee w) + percent (wFee w).
Definition requestLock (id : BalanceID) (r : ReviewableRequestEntry) : Z :=
  match requestBody r with
  | WITHDRAW w | TWO_STEP_WITHDRAWAL w => if bool_decide (wBalance w = id) then withdrawLock w else 0
  | _ => 0
  end.

Definition lockOn (id : BalanceID) (e : Entry) : Z :=
  match asOffer e with
  | Some f => offerLock id (data f)
  | None => match asRequest e with Some r => requestLock id (data r) | None => 0 end
  end.

Definition hasBalance R f : Prop := rowsFind R (balanceKey (balanceID (data f))) = Some (toEntry f).
Definition hasOffer R (f : Frame OfferEntry) : Prop := rowsFind R (offerKey (offerID (data f)) (ownerID (data f))) = Some (toEntry f).
Definition hasPair R (p : Frame AssetPairEntry) : Prop := rowsFind R (pairKey (pairBase (data p)) (pairQuote (data p))) = Some (toEntry p).

Definition hasRequest R (r : Frame ReviewableRequestEntry) : Prop := rowsFind R (requestKey (requestID (data r))) = Some (toEntry r).

Definition hasAsset R (f : Frame AssetEntry) : Prop := rowsFind R (assetKey (assetCode (data f))) = Some (toEntry f).

Definition ownBalance R (id : BalanceID) (owner : PublicKey) (asset : AssetCode) : Prop :=
  exists f, hasBalance R f /\ balanceID (data f) = id /\ balAccountID (data f) = owner /\ balAsset (data f) = asset.

Record offerOk R o : Prop := {
  oo_tradable : tradable o;
  oo_more : needsMore o = true;
  oo_valid : OF.isValid o = true;
  oo_assets : base o <> quote o;
  oo_owner : ownerID o <> commissionID;
  oo_base : ownBalance R (baseBalance o) (ownerID o) (base o);
  oo_quote : ownBalance R (quoteBalance o) (ownerID o) (quote o);
}.

Definition feeOk (f : Fee) : Prop := 0 <= fixed f /\ 0 <= percent f.

(** A request can be carried out: its balance is there, and an issuance to
    the commission account pays no fee. *)
Definition requestOk R (r : ReviewableRequestEntry) : Prop :=
  match requestBody r with
  | WITHDRAW w | TWO_STEP_WITHDRAWAL w => 0 <= wAmount w /\ feeOk (wFee w) /\ exists a, ownBalance R (wBalance w) (requestor r) a
  | ISSUANCE_CREATE i => is_u64 (iAmount i) /\ feeOk (iFee i) /\
      exists w, ownBalance R (iReceiver i) w (iAsset i) /\ (w = commissionID -> fixed (iFee i) = 0 /\ percent (iFee i) = 0)
  | ASSET_CREATE q => 0 <= acMaxIssuanceAmount q <= INT64_MAX /\ is_u64 (acInitialPreissuedAmount q)
  | PRE_ISSUANCE_CREATE _ | ASSET_UPDATE _ | OTHER_REQUEST _ _ => True
  end.

Lemma requestOk_mono R R' r : (forall id w a, ownBalance R id w a -> ownBalance R' id w a) -> requestOk R r -> requestOk R' r.
Proof.
  unfold requestOk. intros Hm. destruct (requestBody r); [| | |done..]; intros (? & ? & b & Ho); split_and!; try done; exists b; [|by apply Hm..].
  destruct Ho as [Ho Hc]. split; [by apply Hm|done].
Qed.

Definition pairOk (p : AssetPairEntry) : Prop :=
  AP.isValid p = true /\ physicalPrice p <= INT64_MAX /\ physicalPriceCorrection p <= INT64_MAX.

Record bookInv R extra : Prop := {
  bi_distinct : distinctRows R;
  bi_balance : forall f, hasBalance R f -> 0 <= amount (data f) /\ 0 <= locked (data f) /\
    isAssetCodeValid (balAsset (data f)) = true /\
    sumOf (lockOn (balanceID (data f))) R + extra (balanceID (data f)) <= locked (data f);
  bi_offer : forall g, hasOffer R g -> offerOk R (data g);
  bi_pair : forall p, hasPair R p -> pairOk (data p);
  bi_request : forall r, hasRequest R r -> requestOk R (data r);
  bi_total : forall a, sumOf (fundsOf a) R <= INT64_MAX;
}.

(** The funds in every asset are the same, and the entries that are no
    balances, offers or asset pairs. *)
Definition otherKey (k : Key) : Prop := keyKind k <> KIND_BALANCE /\ keyKind k <> KIND_OFFER /\ keyKind k <> KIND_PAIR.

Definition sameTotals R R' : Prop := (forall a, sumOf (fundsOf a) R' = sumOf (fundsOf a) R) /\ forall k, otherKey k -> rowsFind R' k = rowsFind R k.

Lemma sameTotals_refl R : sameTotals R R.
Proof. by split. Qed.

Lemma sameTotals_trans R1 R2 R3 : sameTotals R1 R2 -> sameTotals R2 R3 -> sameTotals R1 R3.
Proof. intros [A1 A2] [B1 B2]. split; [intros a; by rewrite B1|intros k Hk; by rewrite B2, A2]. Qed.

Lemma otherKey_balance k id : otherKey k -> balanceKey id <> k.
Proof. intros (Hk & _) <-. by rewrite kind_balance in Hk. Qed.
Lemma otherKey_offer k i w : otherKey k -> offerKey i w <> k.
Proof. intros (_ & Hk & _) <-. by rewrite kind_offer in Hk. Qed.
Lemma otherKey_pair k b q : otherKey k -> pairKey b q <> k.
Proof. intros (_ & _ & Hk) <-. by rewrite kind_pair in Hk. Qed.
Lemma otherKey_request id : otherKey (requestKey id).
Proof. unfold otherKey. by rewrite kind_request. Qed.

(** *** Entries of different types *)

Lemma asBalance_to f : asBalance (toEntry f) = Some f.
Proof. apply from_to. Qed.
Lemma asOffer_to (g : Frame OfferEntry) : asOffer (toEntry g) = Some g.
Proof. apply from_to. Qed.

Lemma asOffer_balance f : asOffer (toEntry f) = None.
Proof.
  destruct (asOffer (toEntry f)) as [g|] eqn:E; [|done]. apply from_inv in E. apply (f_equal getLedgerKey) in E.
  rewrite key_balance, key_offer in E. by apply balanceKey_offer in E.
Qed.
Lemma asBalance_offer (g : Frame OfferEntry) : asBalance (toEntry g) = None.
Proof.
  destruct (asBalance (toEntry g)) as [f|] eqn:E; [|done]. apply from_inv in E. apply (f_equal getLedgerKey) in E.
  rewrite key_balance, key_offer in E. by symmetry in E; apply balanceKey_offer in E.
Qed.

Lemma fundsOf_balance a f : fundsOf a (toEntry f) = assetFunds a f.
Proof. unfold fundsOf. by rewrite asBalance_to. Qed.
Lemma fundsOf_offer a (g : Frame OfferEntry) : fundsOf a (toEntry g) = 0.
Proof. unfold fundsOf. by rewrite asBalance_offer. Qed.
Lemma asRequest_to (r : Frame ReviewableRequestEntry) : asRequest (toEntry r) = Some r.
Proof. apply from_to. Qed.
Lemma asRequest_balance f : asRequest (toEntry f) = None.
Proof.
  apply (other_kind _ _ KIND_BALANCE KIND_REQUEST); [by rewrite key_balance, kind_balance|intros g; by rewrite key_request, kind_request|done].
Qed.
Lemma asBalance_request (r : Frame ReviewableRequestEntry) : asBalance (toEntry r) = None.
Proof.
  apply (other_kind _ _ KIND_REQUEST KIND_BALANCE); [by rewrite key_request, kind_request|intros g; by rewrite key_balance, kind_balance|done].
Qed.
Lemma asOffer_request (r : Frame ReviewableRequestEntry) : asOffer (toEntry r) = None.
Proof.
  apply (other_kind _ _ KIND_REQUEST KIND_OFFER); [by rewrite key_request, kind_request|intros g; by rewrite key_offer, kind_offer|done].
Qed.
Lemma lockOn_request id (r : Frame ReviewableRequestEntry) : lockOn id (toEntry r) = requestLock id (data r).
Proof. unfold lockOn. by rewrite asOffer_request, asRequest_to. Qed.
Lemma lockOn_balance id f : lockOn id (toEntry f) = 0.
Proof. unfold lockOn. by rewrite asOffer_balance, asRequest_balance. Qed.
Lemma lockOn_offer id (g : Frame OfferEntry) : lockOn id (toEntry g) = offerLock id (data g).
Proof. unfold lockOn. by rewrite asOffer_to. Qed.

Lemma hasBalance_inj R f f' : hasBalance R f -> hasBalance R f' -> balanceID (data f) = balanceID (data f') -> f = f'.
Proof.
  unfold hasBalance. intros H1 H2 E. rewrite E, H2 in H1. injection H1 as Heq. symmetry. exact (toEntry_inj _ _ _ Heq).
Qed.

Lemma hasBalance_elem R f : distinctRows R -> hasBalance R f <-> toEntry f ∈ R.
Proof. intros Hd. unfold hasBalance. by rewrite rowsFind_elem, key_balance by done. Qed.

Lemma offerLock_nonneg R id o : offerOk R o -> 0 <= offerLock id o.
Proof.
  intros [[Hb Hq _ Hf _ _] _ _ _ _ _ _]. unfold offerLock, lockOf. case_bool_decide; [|done]. destruct (isBuy o); lia.
Qed.

Lemma requestLock_nonneg R id r : requestOk R r -> 0 <= requestLock id r.
Proof.
  unfold requestOk, requestLock, withdrawLock, feeOk. destruct (requestBody r) as [i|w|w|p|q|q|n b]; [done| | |done..]; intros (H1 & (H2 & H3) & _); case_bool_decide; lia.
Qed.

(** Within an invariant, everything is non-negative and in range. *)
Lemma bookInv_lockOn R extra id e : bookInv R extra -> e ∈ R -> 0 <= lockOn id e.
Proof.
  intros Hi Hin. unfold lockOn. destruct (asOffer e) as [g|] eqn:E.
  { apply from_inv in E. subst e. apply (offerLock_nonneg R). apply Hi. unfold hasOffer. rewrite <- key_offer. by apply rowsFind_elem; [apply Hi|]. }
  destruct (asRequest e) as [r|] eqn:Er; [|done]. apply from_inv in Er. subst e. apply (requestLock_nonneg R). apply Hi.
  unfold hasRequest. rewrite <- key_request. by apply rowsFind_elem; [apply Hi|].
Qed.

Lemma bookInv_fundsOf R extra a e : bookInv R extra -> e ∈ R -> 0 <= fundsOf a e.
Proof.
  intros Hi Hin. unfold fundsOf. destruct (asBalance e) as [f|] eqn:E; [|done]. apply from_inv in E. subst e.
  apply hasBalance_elem in Hin; [|apply Hi]. destruct (bi_balance _ _ Hi f Hin) as (H1 & H2 & _).
  unfold assetFunds, funds. case_bool_decide; lia.
Qed.

Lemma bookInv_inRange R extra f : bookInv R extra -> hasBalance R f -> inRange (data f).
Proof.
  intros Hi Hf. destruct (bi_balance _ _ Hi f Hf) as (H1 & H2 & _). split_and!; [done|done|].
  pose proof (sumOf_one (fundsOf (balAsset (data f))) R (toEntry f) (bi_distinct _ _ Hi)) as H3.
  rewrite key_balance, fundsOf_balance in H3. unfold assetFunds in H3. rewrite bool_decide_true in H3 by done.
  etransitivity; [apply H3; [intros; by eapply bookInv_fundsOf|done]|apply Hi].
Qed.

(** Two balances of the same asset. *)
Lemma bookInv_two R extra f f' : bookInv R extra -> hasBalance R f -> hasBalance R f' ->
  balanceID (data f) <> balanceID (data f') -> balAsset (data f) = balAsset (data f') -> funds (data f) + funds (data f') <= INT64_MAX.
Proof.
  intros Hi Hf Hf' Hne Ha.
  pose proof (sumOf_two (fundsOf (balAsset (data f))) R (toEntry f) (toEntry f') (bi_distinct _ _ Hi)) as H3.
  rewrite !key_balance, !fundsOf_balance in H3. unfold assetFunds in H3. rewrite !bool_decide_true in H3 by done.
  etransitivity; [apply H3; [intros; by eapply bookInv_fundsOf|done|done|]|apply Hi].
  intros Hk. by apply balanceKey_inj in Hk.
Qed.

(** An offer's lock is within the balance it is on. *)
Lemma bookInv_lock R extra (g : Frame OfferEntry) f : bookInv R extra -> hasOffer R g -> hasBalance R f ->
  balanceID (data f) = OF.getLockedBalance (data g) -> lockOf (data g) + extra (balanceID (data f)) <= locked (data f).
Proof.
  intros Hi Hg Hf Hid. destruct (bi_balance _ _ Hi f Hf) as (_ & _ & _ & Hl).
  pose proof (sumOf_one (lockOn (balanceID (data f))) R (toEntry g) (bi_distinct _ _ Hi)) as H3.
  rewrite key_offer, lockOn_offer in H3. unfold offerLock in H3. rewrite bool_decide_true in H3 by done.
  specialize (H3 (fun a Ha => bookInv_lockOn R extra _ a Hi Ha) Hg). lia.
Qed.

End Book.
