(* ===== verification/BookFacts.v ===== *)
(** * Steps of the order book

    A step changes some balances, each within its asset, and at most one
    offer.  If no balance gives up more of its locked part than the offers on
    it do, and no money appears, the invariant of the book is kept; if no money
    disappears either, the funds in every asset stay what they were. *)

From S2P Require Import Prelude OrdContainers BigMath LedgerDelta LedgerDeltaFacts EntryStore EntryStoreFacts Signatures LedgerHeader Statistics Balance Assets OfferExchange ExchangeFacts DexStore DexFacts.

Section BookStep.
Context {Key Entry : Type} `{Ord Key}.
Context {helper : EntryHelper Key Entry LedgerHeader} {helperOk : EntryHelperOk helper}.
Context {dex : DexEntries Key Entry} {dexOk : DexEntriesOk helper dex}.
Context (commissionID : PublicKey).
Implicit Types (R : list Entry) (f : Frame BalanceEntry) (o : OfferEntry) (extra : BalanceID -> Z).
Local Abbreviation Change := (Frame BalanceEntry * Frame BalanceEntry)%type.
Local Abbreviation Slot := (option (Z * PublicKey * option (Frame OfferEntry))).

(** The offer that changes: its key, and the new offer if it stays. *)
Definition inSlot (sl : Slot) R : list Entry :=
  match sl with Some (i, w, v) => write (offerKey i w) (toEntry <$> v) R | None => R end.

Definition slotKeyOk (sl : Slot) : Prop :=
  match sl with Some (i, w, Some g) => offerID (data g) = i /\ ownerID (data g) = w | _ => True end.

Definition slotLock (sl : Slot) R (id : BalanceID) : Z :=
  match sl with
  | Some (i, w, v) => ofRow (lockOn id) (toEntry <$> v) - ofRow (lockOn id) (rowsFind R (offerKey i w))
  | None => 0
  end.

Definition news (ps : list Change) : list Entry := map (fun p => toEntry p.2) ps.
Definition ids (ps : list Change) : list BalanceID := map (fun p => balanceID (data p.1)) ps.

Definition sameBalance f f' : Prop := balanceID (data f') = balanceID (data f) /\
  balAccountID (data f') = balAccountID (data f) /\ balAsset (data f') = balAsset (data f).

(** The rows after the step. *)
Definition stepped R (sl : Slot) (ps : list Change) R' : Prop := distinctRows R' /\
  forall k, rowsFind R' k = rowsFind (overlay (news ps) (inSlot sl R)) k.

Record changeOk R (sl : Slot) extra extra' (p : Change) : Prop := {
  co_has : hasBalance R p.1;
  co_same : sameBalance p.1 p.2;
  co_amount : 0 <= amount (data p.2);
  co_locked : 0 <= locked (data p.2);
  co_slack : let id := balanceID (data p.1) in
    slotLock sl R id + (extra' id - extra id) <= locked (data p.2) - locked (data p.1);
}.

Definition gain (a : AssetCode) (ps : list Change) : Z := sumOf (fun p => assetFunds a p.2 - assetFunds a p.1) ps.

Record stepOk R (sl : Slot) (ps : list Change) extra extra' : Prop := {
  so_key : slotKeyOk sl;
  so_ids : NoDup (ids ps);
  so_changes : Forall (changeOk R sl extra extra') ps;
  so_others : forall id, id ∉ ids ps -> slotLock sl R id + (extra' id - extra id) <= 0;
  so_offer : forall i w g, sl = Some (i, w, Some g) -> offerOk commissionID R (data g);
}.

Lemma inSlot_keyOf i w v : slotKeyOk (Some (i, w, v)) -> keyOf (offerKey i w) (toEntry <$> v).
Proof. destruct v as [g|]; [|done]. cbn. intros [<- <-]. apply key_offer. Qed.

Lemma inSlot_distinct sl R : slotKeyOk sl -> distinctRows R -> distinctRows (inSlot sl R).
Proof. destruct sl as [[[i w] v]|]; [|done]. intros Hk. by apply write_distinct, inSlot_keyOf. Qed.

Lemma rowsFind_inSlot sl R k : slotKeyOk sl -> rowsFind (inSlot sl R) k =
  match sl with Some (i, w, v) => if eqvb (offerKey i w) k then toEntry <$> v else rowsFind R k | None => rowsFind R k end.
Proof.
  destruct sl as [[[i w] v]|]; [|done]. intros Hk. unfold inSlot. rewrite rowsFind_write by (by apply inSlot_keyOf). done.
Qed.

Lemma rowsFind_inSlot_balance sl R id : slotKeyOk sl -> rowsFind (inSlot sl R) (balanceKey id) = rowsFind R (balanceKey id).
Proof.
  intros Hk. rewrite rowsFind_inSlot by done. destruct sl as [[[i w] v]|]; [|done].
  rewrite eqvb_neq; [done|]. intros E. symmetry in E. by apply balanceKey_offer in E.
Qed.

Lemma news_keys R sl extra extra' ps : Forall (changeOk R sl extra extra') ps ->
  map getLedgerKey (news ps) = map balanceKey (ids ps).
Proof.
  induction 1 as [|p ps Hp _ IH]; [done|]. cbn. rewrite key_balance. destruct (co_same _ _ _ _ _ Hp) as [-> _]. by f_equal.
Qed.

Lemma balanceKeys_NoDup (l : list BalanceID) : NoDup l -> NoDup (map balanceKey l).
Proof.
  induction 1 as [|id l Hn _ IH]; [constructor|]. cbn. constructor; [|done]. intros Hin. apply Hn.
  apply list_elem_of_In, in_map_iff in Hin as (id' & E & Hin). apply balanceKey_inj in E as ->. by apply list_elem_of_In.
Qed.

Section Step.
Context (R R' : list Entry) (sl : Slot) (ps : list Change) (extra extra' : BalanceID -> Z).
Context (Hi : bookInv commissionID R extra) (Hs : stepOk R sl ps extra extra') (Hst : stepped R sl ps R').

Lemma news_distinct : NoDup (map getLedgerKey (news ps)).
Proof. rewrite (news_keys R sl extra extra') by apply Hs. apply balanceKeys_NoDup, Hs. Qed.

Lemma news_key k : k ∈ map getLedgerKey (news ps) -> exists id, k = balanceKey id /\ id ∈ ids ps.
Proof.
  rewrite (news_keys R sl extra extra') by apply Hs. intros Hk.
  apply list_elem_of_In, in_map_iff in Hk as (id & <- & Hin). exists id. split; [done|by apply list_elem_of_In].
Qed.

(** A balance after the step: a changed one, or one from before. *)
Lemma stepped_balance f : hasBalance R' f ->
  (exists p, p ∈ ps /\ f = p.2) \/ (hasBalance R f /\ balanceID (data f) ∉ ids ps).
Proof.
  unfold hasBalance. rewrite (proj2 Hst), rowsFind_overlay.
  destruct (List.find _ (news ps)) as [e|] eqn:E.
  - intros [= ->]. apply List.find_some in E as [Hin _]. left. apply in_map_iff in Hin as (p & Hp & Hin).
    exists p. split; [by apply list_elem_of_In|]. symmetry. exact (toEntry_inj _ _ _ Hp).
  - rewrite rowsFind_inSlot_balance by apply Hs. intros Hf. right. split; [done|]. intros Hin.
    assert (balanceKey (balanceID (data f)) ∈ map getLedgerKey (news ps)) as Hk.
    { rewrite (news_keys R sl extra extra') by apply Hs. by apply list_elem_of_In, in_map, list_elem_of_In. }
    apply list_elem_of_In, in_map_iff in Hk as (e & He & Hine). pose proof (List.find_none _ _ E e Hine) as Hno.
    cbn beta in Hno. by rewrite He, eqvb_refl in Hno.
Qed.

Lemma stepped_keeps_balance f : hasBalance R f -> exists f', hasBalance R' f' /\ sameBalance f f'.
Proof.
  intros Hf. unfold hasBalance. destruct (decide (balanceID (data f) ∈ ids ps)) as [Hin|Hout].
  - apply list_elem_of_In, in_map_iff in Hin as (p & Hp & Hin). apply list_elem_of_In in Hin.
    pose proof (proj1 (List.Forall_forall _ _) (so_changes _ _ _ _ _ Hs) p (proj1 (list_elem_of_In _ _) Hin)) as Hc.
    assert (p.1 = f) as <- by (eapply hasBalance_inj; [apply Hc|exact Hf|exact Hp]).
    exists p.2. split; [|apply Hc]. rewrite (proj2 Hst), <- key_balance.
    apply rowsFind_overlay_in; [apply news_distinct|]. apply list_elem_of_In, in_map_iff. exists p. split; [done|by apply list_elem_of_In].
  - exists f. split; [|done]. rewrite (proj2 Hst), rowsFind_overlay_out, rowsFind_inSlot_balance; [done|apply Hs|].
    intros (id & E & Hin)%news_key. apply balanceKey_inj in E as <-. done.
Qed.

Lemma stepped_own id w a : ownBalance R id w a -> ownBalance R' id w a.
Proof.
  intros (f & Hf & <- & <- & <-). destruct (stepped_keeps_balance f Hf) as (f' & Hf' & H1 & H2 & H3).
  by exists f'.
Qed.

Lemma stepped_offerOk o : offerOk commissionID R o -> offerOk commissionID R' o.
Proof. intros []. split; try done; by apply stepped_own. Qed.

(** Sums over the rows. *)
Lemma stepped_sum (w : Entry -> Z) : sumOf w R' = sumOf w R +
  (match sl with Some (i, o, v) => ofRow w (toEntry <$> v) - ofRow w (rowsFind R (offerKey i o)) | None => 0 end) +
  sumOf (fun p => w (toEntry p.2) - w (toEntry p.1)) ps.
Proof.
  assert (distinctRows (inSlot sl R)) as Hd by (apply inSlot_distinct; [apply Hs|apply Hi]).
  rewrite (rows_perm R' (overlay (news ps) (inSlot sl R))); [|apply Hst|by apply overlay_distinct|apply Hst].
  rewrite sumOf_overlay; [|done|apply news_distinct]. f_equal.
  - destruct sl as [[[i o] v]|]; [|cbn [inSlot]; lia]. cbn [inSlot]. rewrite sumOf_write by apply Hi. lia.
  - pose proof (so_changes _ _ _ _ _ Hs) as Hc. pose proof (so_key _ _ _ _ _ Hs) as Hk. clear Hs Hst. unfold news.
    induction Hc as [|p ps' Hp _ IH]; [done|]. cbn [map]. rewrite !sumOf_cons, IH. f_equal. f_equal.
    rewrite key_balance. destruct (co_same _ _ _ _ _ Hp) as [-> _]. rewrite rowsFind_inSlot_balance by done.
    by rewrite (co_has _ _ _ _ _ Hp : rowsFind R _ = _).
Qed.

Lemma stepped_locks id : sumOf (lockOn id) R' = sumOf (lockOn id) R + slotLock sl R id.
Proof.
  rewrite stepped_sum. assert (sumOf (fun p : Change => lockOn id (toEntry p.2) - lockOn id (toEntry p.1)) ps = 0) as ->.
  { clear Hs Hst. induction ps as [|p ps' IH]; [done|]. rewrite sumOf_cons, IH, !lockOn_balance. done. }
  unfold slotLock. destruct sl as [[[i o] v]|]; lia.
Qed.

(** The offers have no funds of their own. *)
Lemma fundsOf_slotRow a i w : ofRow (fundsOf a) (rowsFind R (offerKey i w)) = 0.
Proof.
  destruct (rowsFind R (offerKey i w)) as [e|] eqn:E; [|done]. cbn [ofRow]. unfold fundsOf.
  destruct (asBalance e) as [f|] eqn:Ef; [|done]. apply from_inv in Ef. subst e. apply rowsFind_Some in E as [E _].
  rewrite key_balance in E. by apply balanceKey_offer in E.
Qed.

Lemma stepped_total a : sumOf (fundsOf a) R' = sumOf (fundsOf a) R + gain a ps.
Proof.
  rewrite stepped_sum. assert (sumOf (fun p : Change => fundsOf a (toEntry p.2) - fundsOf a (toEntry p.1)) ps = gain a ps) as ->.
  { clear Hs Hst. unfold gain. induction ps as [|p ps' IH]; [done|]. by rewrite !sumOf_cons, IH, !fundsOf_balance. }
  destruct sl as [[[i w] v]|]; [|lia]. rewrite fundsOf_slotRow. destruct v as [g|]; cbn [fmap option_fmap option_map ofRow]; [|lia].
  rewrite fundsOf_offer. lia.
Qed.

(** The other entries stay. *)
Lemma stepped_other k : otherKey k -> rowsFind R' k = rowsFind R k.
Proof.
  intros Hk. rewrite (proj2 Hst), rowsFind_overlay_out, rowsFind_inSlot; [|apply Hs|].
  - destruct sl as [[[i w] v]|]; [|done]. rewrite eqvb_neq; [done|by apply otherKey_offer].
  - intros (id & E & _)%news_key. by apply (otherKey_balance k id Hk).
Qed.

Lemma stepped_same : (forall a, gain a ps = 0) -> sameTotals R R'.
Proof. intros Hg. split; [|exact stepped_other]. intros a. rewrite stepped_total, Hg. lia. Qed.

Lemma stepped_requestOk r : requestOk commissionID R r -> requestOk commissionID R' r.
Proof. apply requestOk_mono. exact stepped_own. Qed.

Lemma stepped_offer g : hasOffer R' g -> offerOk commissionID R (data g).
Proof.
  unfold hasOffer. rewrite (proj2 Hst), rowsFind_overlay_out, rowsFind_inSlot; [|apply Hs|].
  - destruct sl as [[[i w] v]|] eqn:Esl; [|apply Hi]. destruct (eqvb _ _) eqn:E; [|apply Hi].
    destruct v as [g'|]; [|done]. cbn. intros [= Heq]. apply toEntry_inj in Heq as ->; [|tc_solve]. by eapply (so_offer _ _ _ _ _ Hs).
  - intros (id & E & _)%news_key. symmetry in E. by apply balanceKey_offer in E.
Qed.

Lemma bookInv_stepped : (forall a, sumOf (fundsOf a) R + gain a ps <= INT64_MAX) -> bookInv commissionID R' extra'.
Proof.
  intros Hg. split.
  - apply Hst.
  - intros f Hf. rewrite stepped_locks. destruct (stepped_balance f Hf) as [(p & Hin & ->)|[Hold Hout]].
    + pose proof (proj1 (List.Forall_forall _ _) (so_changes _ _ _ _ _ Hs) p (proj1 (list_elem_of_In _ _) Hin)) as Hc.
      destruct (co_same _ _ _ _ _ Hc) as (-> & _ & ->). destruct (bi_balance _ _ _ Hi _ (co_has _ _ _ _ _ Hc)) as (_ & _ & Hv & Hl).
      pose proof (co_slack _ _ _ _ _ Hc) as Hsl. cbv zeta in Hsl. split_and!; [apply Hc|apply Hc|done|lia].
    + destruct (bi_balance _ _ _ Hi f Hold) as (H1 & H2 & H3 & H4). pose proof (so_others _ _ _ _ _ Hs _ Hout). split_and!; done || lia.
  - intros g Hg'. by apply stepped_offerOk, stepped_offer.
  - intros p. unfold hasPair. rewrite (proj2 Hst), rowsFind_overlay_out, rowsFind_inSlot; [|apply Hs|].
    + destruct sl as [[[i w] v]|]; [|apply Hi]. rewrite eqvb_neq; [apply Hi|apply offerKey_pair].
    + intros (id & E & _)%news_key. symmetry in E. by apply balanceKey_pair in E.
  - intros r Hr. apply stepped_requestOk, (bi_request _ _ _ Hi). unfold hasRequest in *. by rewrite <- stepped_other by apply otherKey_request.
  - intros a. rewrite stepped_total. apply Hg.
Qed.

Lemma bookInv_step : (forall a, gain a ps <= 0) -> bookInv commissionID R' extra'.
Proof. intros Hg. apply bookInv_stepped. intros a. specialize (Hg a). pose proof (bi_total _ _ _ Hi a). lia. Qed.

End Step.
End BookStep.

(** * One crossing, in the book

    [party R o b q]: the offer [o] with its balances [b] and [q] in the rows.
    A match of a buyer and a seller is within what both have; what it takes
    from a locked part is what the offer on it gives up, and the two assets
    only change hands. *)

Section Parties.
Context {Key Entry : Type} `{Ord Key}.
Context {helper : EntryHelper Key Entry LedgerHeader} {helperOk : EntryHelperOk helper}.
Context {dex : DexEntries Key Entry} {dexOk : DexEntriesOk helper dex}.
Context (commissionID : PublicKey).
Implicit Types (R : list Entry) (b q c : Frame BalanceEntry) (o x y : OfferEntry) (m : ExchangeResult) (extra : BalanceID -> Z).

Record party R o b q : Prop := {
  pa_base : hasBalance R b;
  pa_quote : hasBalance R q;
  pa_baseID : balanceID (data b) = baseBalance o;
  pa_quoteID : balanceID (data q) = quoteBalance o;
  pa_baseAsset : balAsset (data b) = base o;
  pa_quoteAsset : balAsset (data q) = quote o;
  pa_distinct : baseBalance o <> quoteBalance o;
  pa_lock : lockOf o <= locked (data (if isBuy o then q else b));
  pa_tradable : tradable o;
}.

Lemma lockOf_nonneg o : tradable o -> 0 <= lockOf o.
Proof. intros [? ? _ ? _ _]. unfold lockOf. destruct (isBuy o); lia. Qed.

(** The balances of an offer with different assets differ. *)
Lemma balances_distinct R o : offerOk commissionID R o -> baseBalance o <> quoteBalance o.
Proof.
  intros [_ _ _ Ha _ (b & Hb & Hbi & _ & Hba) (q & Hq & Hqi & _ & Hqa)] E. apply Ha. rewrite <- Hba, <- Hqa.
  by rewrite (hasBalance_inj R b q Hb Hq) by congruence.
Qed.

(** An offer of the book is a party. *)
Lemma offer_party R extra g : bookInv commissionID R extra -> (forall id, 0 <= extra id) -> hasOffer R g ->
  exists b q, party R (data g) b q /\ balAccountID (data b) = ownerID (data g) /\ balAccountID (data q) = ownerID (data g).
Proof.
  intros Hi He Hg. pose proof (bi_offer _ _ _ Hi g Hg) as Ho. pose proof (balances_distinct R _ Ho) as Hne.
  destruct (oo_base _ _ _ Ho) as (b & Hb & Hbi & Hbo & Hba). destruct (oo_quote _ _ _ Ho) as (q & Hq & Hqi & Hqo & Hqa).
  exists b, q. split; [|done]. split; try done; [|apply Ho].
  pose proof (bookInv_lock commissionID R extra g) as Hl. unfold OF.getLockedBalance in Hl. destruct (isBuy (data g)).
  - specialize (Hl q Hi Hg Hq Hqi). specialize (He (balanceID (data q))). lia.
  - specialize (Hl b Hi Hg Hb Hbi). specialize (He (balanceID (data b))). lia.
Qed.

(** The match of a buyer and a seller fits both. *)
Lemma fits_both R extra x bx qx y by_ qy m : bookInv commissionID R extra -> party R x bx qx -> party R y by_ qy ->
  isBuy x = true -> isBuy y = false -> base x = base y -> quote x = quote y ->
  baseBalance x <> baseBalance y -> quoteBalance x <> quoteBalance y ->
  matches x y m -> 0 < baseDelta m -> 0 < quoteDelta m -> sellerFee m < quoteDelta m ->
  fits x m (data bx) (data qx) /\ fits y m (data by_) (data qy).
Proof.
  intros Hi Hx Hy Hbx Hby Hb Hq Hbb Hqq Hm Hbd Hqd Hsf.
  destruct (matches_bounds x y m (pa_tradable _ _ _ _ Hx) (pa_tradable _ _ _ _ Hy) Hm) as (H1 & H2 & H3 & H4).
  pose proof (bookInv_inRange _ R extra _ Hi (pa_base _ _ _ _ Hx)) as Rbx. pose proof (bookInv_inRange _ R extra _ Hi (pa_quote _ _ _ _ Hx)) as Rqx.
  pose proof (bookInv_inRange _ R extra _ Hi (pa_base _ _ _ _ Hy)) as Rby. pose proof (bookInv_inRange _ R extra _ Hi (pa_quote _ _ _ _ Hy)) as Rqy.
  pose proof (pa_lock _ _ _ _ Hx) as Lx. rewrite Hbx in Lx. pose proof (pa_lock _ _ _ _ Hy) as Ly. rewrite Hby in Ly.
  pose proof (tr_quote _ (pa_tradable _ _ _ _ Hx)) as Tq. pose proof (tr_fee _ (pa_tradable _ _ _ _ Hx)) as Tf.
  assert (funds (data bx) + funds (data by_) <= INT64_MAX) as Fb.
  { apply (bookInv_two commissionID R extra); [done|apply Hx|apply Hy| |].
    - by rewrite (pa_baseID _ _ _ _ Hx), (pa_baseID _ _ _ _ Hy).
    - by rewrite (pa_baseAsset _ _ _ _ Hx), (pa_baseAsset _ _ _ _ Hy). }
  assert (funds (data qx) + funds (data qy) <= INT64_MAX) as Fq.
  { apply (bookInv_two commissionID R extra); [done|apply Hx|apply Hy| |].
    - by rewrite (pa_quoteID _ _ _ _ Hx), (pa_quoteID _ _ _ _ Hy).
    - by rewrite (pa_quoteAsset _ _ _ _ Hx), (pa_quoteAsset _ _ _ _ Hy). }
  destruct Rbx as (? & ? & ?), Rqx as (? & ? & ?), Rby as (? & ? & ?), Rqy as (? & ? & ?).
  unfold lockOf, funds in *. rewrite Hbx in Lx. rewrite Hby in Ly.
  split; (split; [unfold inRange, funds; lia|unfold inRange, funds; lia|lia|lia|lia|lia|]).
  - rewrite Hbx. unfold lockOf, funds. rewrite Hbx. lia.
  - rewrite Hby. unfold lockOf, funds. rewrite Hby. lia.
Qed.

(** The commission account has room for the fees. *)
Lemma fees_fit R extra x bx qx y m c : bookInv commissionID R extra -> party R x bx qx -> tradable y -> isBuy x = true ->
  matches x y m -> hasBalance R c -> balAsset (data c) = quote x -> balanceID (data c) <> quoteBalance x ->
  0 <= buyerFee m /\ 0 <= sellerFee m /\ funds (data c) + (buyerFee m + sellerFee m) <= INT64_MAX.
Proof.
  intros Hi Hx Hy Hbx Hm Hc Ha Hne. destruct (matches_bounds x y m (pa_tradable _ _ _ _ Hx) Hy Hm) as (_ & H2 & H3 & H4).
  pose proof (pa_lock _ _ _ _ Hx) as Lx. rewrite Hbx in Lx.
  assert (funds (data c) + funds (data qx) <= INT64_MAX) as Fq.
  { apply (bookInv_two commissionID R extra); [done|done|apply Hx| |].
    - by rewrite (pa_quoteID _ _ _ _ Hx).
    - by rewrite (pa_quoteAsset _ _ _ _ Hx). }
  pose proof (bookInv_inRange _ R extra _ Hi (pa_quote _ _ _ _ Hx)) as (? & ? & ?). unfold lockOf, funds in *. rewrite Hbx in Lx. lia.
Qed.

(** ** Locks *)

Section Locks.
Context (o : OfferEntry) (m : ExchangeResult) (b q : BalanceEntry) (Hne : baseBalance o <> quoteBalance o).

Lemma getLockedBalance_matched : OF.getLockedBalance (matched o m) = OF.getLockedBalance o.
Proof. unfold OF.getLockedBalance, matched. destruct (isBuy o) eqn:E; cbn; by rewrite E. Qed.

Lemma isBuy_matched : isBuy (matched o m) = isBuy o.
Proof. unfold matched. destruct (isBuy o) eqn:E; cbn; by rewrite E. Qed.

Lemma offerLock_base : offerLock (baseBalance o) o = if isBuy o then 0 else baseAmount o.
Proof.
  unfold offerLock, OF.getLockedBalance, lockOf. destruct (isBuy o); [by rewrite bool_decide_false|by rewrite bool_decide_true].
Qed.

Lemma offerLock_quote : offerLock (quoteBalance o) o = if isBuy o then quoteAmount o + fee o else 0.
Proof.
  unfold offerLock, OF.getLockedBalance, lockOf. destruct (isBuy o); [by rewrite bool_decide_true|by rewrite bool_decide_false].
Qed.

Lemma offerLock_other id : id <> baseBalance o -> id <> quoteBalance o -> offerLock id o = 0.
Proof.
  intros H1 H2. unfold offerLock, OF.getLockedBalance. rewrite bool_decide_false; [done|]. destruct (isBuy o); congruence.
Qed.

Lemma baseAfter_lock : locked (baseAfter o m b) - locked b = offerLock (baseBalance o) (matched o m) - offerLock (baseBalance o) o.
Proof.
  rewrite offerLock_base. unfold offerLock. rewrite getLockedBalance_matched. unfold OF.getLockedBalance, lockOf, baseAfter, matched.
  destruct (isBuy o) eqn:E; cbn; rewrite E; [rewrite bool_decide_false by done|rewrite bool_decide_true by done]; lia.
Qed.

Lemma quoteAfter_lock : locked (quoteAfter o m q) - locked q = offerLock (quoteBalance o) (matched o m) - offerLock (quoteBalance o) o.
Proof.
  rewrite offerLock_quote. unfold offerLock. rewrite getLockedBalance_matched. unfold OF.getLockedBalance, lockOf, quoteAfter, matched.
  destruct (isBuy o) eqn:E; cbn; rewrite E; [rewrite bool_decide_true by done|rewrite bool_decide_false by done]; lia.
Qed.

Lemma releasedBase_lock : locked (releasedBase o b) - locked b = - offerLock (baseBalance o) o.
Proof. rewrite offerLock_base. unfold releasedBase. destruct (isBuy o); cbn; lia. Qed.

Lemma releasedQuote_lock : locked (releasedQuote o q) - locked q = - offerLock (quoteBalance o) o.
Proof. rewrite offerLock_quote. unfold releasedQuote. destruct (isBuy o); cbn; lia. Qed.

Lemma released_funds : funds (releasedBase o b) = funds b /\ funds (releasedQuote o q) = funds q.
Proof. unfold funds, releasedBase, releasedQuote. destruct (isBuy o); cbn; lia. Qed.

Lemma after_funds : funds (baseAfter o m b) = funds b + (if isBuy o then baseDelta m else - baseDelta m) /\
  funds (quoteAfter o m q) = funds q + (if isBuy o then - (quoteDelta m + buyerFee m) else quoteDelta m - sellerFee m).
Proof. unfold funds, baseAfter, quoteAfter. destruct (isBuy o); cbn; lia. Qed.

Lemma after_same : sameBalance {| lastModified := 0; data := b |} {| lastModified := 0; data := baseAfter o m b |} /\
  sameBalance {| lastModified := 0; data := q |} {| lastModified := 0; data := quoteAfter o m q |}.
Proof. unfold sameBalance, baseAfter, quoteAfter. by destruct (isBuy o). Qed.

(** The parts stay non-negative. *)
Lemma after_nonneg : tradable o -> fits o m b q ->
  inRange (baseAfter o m b) /\ inRange (quoteAfter o m q) /\
  lockOf (matched o m) <= locked (if isBuy o then quoteAfter o m q else baseAfter o m b).
Proof.
  intros Ho Hf. pose proof (fi_bb _ _ _ _ Hf) as (? & ? & ?). pose proof (fi_qb _ _ _ _ Hf) as (? & ? & ?).
  pose proof (fi_base _ _ _ _ Hf). pose proof (fi_quote _ _ _ _ Hf). pose proof (fi_buyerFee _ _ _ _ Hf).
  pose proof (fi_sellerFee _ _ _ _ Hf). pose proof (fi_side _ _ _ _ Hf) as Hs. pose proof (tr_fee _ Ho). pose proof (tr_quote _ Ho).
  unfold inRange, funds, baseAfter, quoteAfter, matched, lockOf in *. destruct (isBuy o) eqn:E; cbn; rewrite E; lia.
Qed.

End Locks.
End Parties.
