(* ===== verification/CrossStore.v ===== *)
(** * Offers being matched, and the store

    [ready]: the invariant of the store, with the stamp that [touch] puts on
    entries.  [takerInv s tk]: the rows with the frames in memory written over
    them are a good book, in which the new offer is a party whose lock is not
    yet in the rows. *)

From S2P Require Import Prelude OrdContainers BigMath LedgerDelta LedgerDeltaFacts EntryStore EntryStoreFacts Signatures LedgerHeader TxSet Statistics Balance Assets OfferExchange ExchangeFacts DexStore CreateOffer DexFacts BookFacts.

Lemma bind_ret {S A B} (m : M S A) (g : A -> M S B) s a s' : m s = Ret a s' -> (m ≫= g) s = g a s'.
Proof. intros Hm. unfold mbind, M_bind. by rewrite Hm. Qed.

(** An exception that [applyTransactions] turns into a result code: a
    [std::runtime_error] or a pointer to one, which [catch (...)] receives. *)
Definition thrown (x : Exn) : Prop := exists msg, x = RuntimeError msg \/ x = RuntimeErrorPtr msg.

Lemma thrown_error msg : thrown (RuntimeError msg).
Proof. exists msg. by left. Qed.

Section StoreSpecs.
Context {Key Entry : Type} `{Ord Key} `{EqDecision Entry}.
Context {helper : EntryHelper Key Entry LedgerHeader} {helperOk : EntryHelperOk helper}.
Context {dex : DexEntries Key Entry} {dexOk : DexEntriesOk helper dex} (dp : DexParams).
Context (seq : Z) (flag : bool) (Hseq : seq <> 0).
Local Abbreviation St := (Store Key Entry LedgerHeader).
Implicit Types (s : St) (L : Key -> option Entry).

Definition stamp {T} (f : Frame T) : Frame T := {| lastModified := if flag then seq else lastModified f; data := data f |}.

Record ready L s : Prop := {
  re_ok : storeOk L s;
  re_seq : headerSeq (mCurrentHeader (sDelta s)) = seq;
  re_flag : mUpdateLastModified (sDelta s) = flag;
}.

Definition wrote L s k v s' : Prop := ready L s' /\ forall k', rowsFind (sRows s') k' = update k v (rowsFind (sRows s)) k'.

(** A type whose entries [touch] stamps. *)
Definition stampable (T : Type) `{EntryData Entry T} : Prop :=
  forall n (f : Frame T), setLastModified n (toEntry f) = toEntry {| lastModified := n; data := data f |}.

Lemma touched_stamp {T} `{EntryData Entry T} L s (f : Frame T) : stampable T -> ready L s ->
  touched (mCurrentHeader (sDelta s)) (mUpdateLastModified (sDelta s)) (toEntry f) = toEntry (stamp f).
Proof.
  intros Ht [_ Hs Hf]. unfold touched, stamp. rewrite Hs, Hf. destruct flag; [by rewrite Ht|]. by destruct f.
Qed.

Lemma stored_wrote L s k v s' : ready L s -> stored L s k v s' -> wrote L s k v s'.
Proof.
  intros [_ Hs Hf] (Hok & (_ & Hh & Hfl) & Hr). split; [|done]. split; [done|by rewrite Hh|by rewrite Hfl].
Qed.

(** Adding and changing an entry. *)
Lemma update_ret {T} `{EntryData Entry T} L s (f : Frame T) insert : stampable T -> ready L s ->
  isValid (toEntry (stamp f)) = true -> Bool.eqb insert (LD.isNone (rowsFind (sRows s) (getLedgerKey (toEntry f)))) = true ->
  exists s', ES.storeUpdateHelper insert (toEntry f) s = Ret tt s' /\
    wrote L s (getLedgerKey (toEntry f)) (Some (toEntry (stamp f))) s'.
Proof.
  intros Ht Hr Hv Hi. pose proof (storeUpdate_spec L s insert (toEntry f) (re_ok _ _ Hr)) as Hu. cbn zeta in Hu.
  rewrite (touched_stamp L s f Ht Hr), Hv, Hi in Hu. cbn [andb] in Hu.
  destruct Hu as (s' & He & Hs); [by rewrite (re_seq _ _ Hr)|]. exists s'. split; [done|by apply stored_wrote].
Qed.

Lemma change_ret {T} `{EntryData Entry T} L s (f : Frame T) : stampable T -> ready L s ->
  isValid (toEntry (stamp f)) = true -> is_Some (rowsFind (sRows s) (getLedgerKey (toEntry f))) ->
  exists s', DS.storeChangeEntry f s = Ret tt s' /\ wrote L s (getLedgerKey (toEntry f)) (Some (toEntry (stamp f))) s'.
Proof. intros Ht Hr Hv [e He]. apply update_ret; [done|done|done|]. by rewrite He. Qed.

(** Adding one fails if it is there already. *)
Lemma add_wp {T} `{EntryData Entry T} L s (f : Frame T) : stampable T -> ready L s ->
  wp (DS.storeAddEntry f) (fun _ s' => rowsFind (sRows s) (getLedgerKey (toEntry f)) = None /\ isValid (toEntry (stamp f)) = true /\
    wrote L s (getLedgerKey (toEntry f)) (Some (toEntry (stamp f))) s') (fun x _ => thrown x) s.
Proof.
  intros Ht Hr. destruct (isValid (toEntry (stamp f)) && LD.isNone (rowsFind (sRows s) (getLedgerKey (toEntry f)))) eqn:E.
  - apply andb_true_iff in E as [Hv Hn]. destruct (update_ret L s f true Ht Hr Hv) as (s' & He & Hw); [by rewrite Hn|].
    unfold wp. unfold DS.storeAddEntry, ES.storeAdd. rewrite He. split; [|by split].
    by destruct (rowsFind (sRows s) (getLedgerKey (toEntry f))).
  - unfold wp, DS.storeAddEntry, ES.storeAdd, ES.storeUpdateHelper. unfold mbind, M_bind.
    rewrite touch_ret by (by rewrite (re_seq _ _ Hr)). rewrite (touched_stamp L s f Ht Hr).
    unfold ES.storeTouched. destruct (isValid (toEntry (stamp f))); cbn [negb andb] in *; [|by apply thrown_error].
    unfold mbind, M_bind. rewrite when_flush. unfold ES.sqlInsert, get, mbind, M_bind.
    destruct (flushed_ok L s (getLedgerKey (toEntry (stamp f))) (re_ok _ _ Hr)) as (_ & _ & ->).
    assert (getLedgerKey (toEntry (stamp f)) = getLedgerKey (toEntry f)) as Hk.
    { rewrite <- (touched_stamp L s f Ht Hr). apply touched_key. }
    rewrite (proj2 (existsb_samePK (toEntry (stamp f)) (sRows s))); [unfold throw, ES.sqlConstraintError; by apply thrown_error|].
    rewrite Hk. destruct (rowsFind (sRows s) (getLedgerKey (toEntry f))); [eauto|done].
Qed.

Lemma delete_ret {T} `{EntryData Entry T} L s (f : Frame T) : deletion (getLedgerKey (toEntry f)) = DeletesRow -> ready L s ->
  is_Some (rowsFind (sRows s) (getLedgerKey (toEntry f))) ->
  exists s', DS.storeDeleteEntry f s = Ret tt s' /\ wrote L s (getLedgerKey (toEntry f)) None s'.
Proof.
  intros Hdel Hr Hk. destruct (storeDelete_spec _ L s Hdel (re_ok _ _ Hr) Hk) as (s' & He & Hs). exists s'. split; [done|by apply stored_wrote].
Qed.

(** Recording leaves the rows alone. *)
Lemma recordEntry_ret L s (e : Entry) : ready L s ->
  exists s', ES.onDelta (LD.recordEntry getLedgerKey e) s = Ret tt s' /\ ready L s' /\ sRows s' = sRows s.
Proof.
  intros [Hok Hs Hf]. pose proof (keeps_record e L s Hok) as Hk. unfold keepsAt, wp in Hk.
  destruct (runOp_step getLedgerKey L (sDelta s) (OpRecord e) (so_delta _ _ Hok) I) as (d' & Hr & _ & Hcur & _).
  pose proof (runOp_flag getLedgerKey (sDelta s) (OpRecord e) d' Hr) as Hfl.
  unfold ES.onDelta in *. cbn [runOp] in Hr. rewrite Hr in *. eexists. split; [done|]. split; [|done].
  split; [apply Hk|cbn; by rewrite Hcur|cbn; by rewrite Hfl].
Qed.

Lemma record_ret {T} `{EntryData Entry T} L s (f : Frame T) : ready L s ->
  exists s', DS.record f s = Ret tt s' /\ ready L s' /\ sRows s' = sRows s.
Proof. apply recordEntry_ret. Qed.

Lemma recorded_ret {T} `{EntryData Entry T} L s b (f : Frame T) : ready L s ->
  exists s', DS.recorded b (Some f) s = Ret (Some f) s' /\ ready L s' /\ sRows s' = sRows s.
Proof.
  intros Hr. unfold DS.recorded. destruct b; cbn [when]; [|by exists s].
  destruct (record_ret L s f Hr) as (s' & He & ? & ?). exists s'. by rewrite (bind_ret _ _ _ _ _ He).
Qed.

Lemma loadBalance_ret L s b (f : Frame BalanceEntry) : ready L s -> hasBalance (sRows s) f -> BF.isValid (data f) = true ->
  exists s', DS.loadBalance b (balanceID (data f)) s = Ret (Some f) s' /\ ready L s' /\ sRows s' = sRows s.
Proof.
  intros Hr Hf Hv. unfold DS.loadBalance. rewrite (bind_ret _ _ s s s) by done.
  unfold hasBalance, rowsFind in Hf. unfold ES.selectRow. rewrite Hf.
  change (fromEntry (toEntry f)) with (asBalance (toEntry f)). rewrite asBalance_to.
  unfold DS.checkedBalances. cbn [option_list option_rect forallb]. rewrite Hv. cbn [andb].
  rewrite (bind_ret _ _ s (Some f) s) by done. by apply recorded_ret.
Qed.

Lemma wrote_sum L s k v s' (w : Entry -> Z) : distinctRows (sRows s) -> keyOf k v -> wrote L s k v s' ->
  sumOf w (sRows s') = sumOf w (sRows s) - ofRow w (rowsFind (sRows s) k) + ofRow w v.
Proof.
  intros Hd Hk [Hr Hv]. rewrite <- sumOf_write by done. apply sumOf_perm, rows_perm; [apply Hr|by apply write_distinct|].
  intros k'. by rewrite rowsFind_write, Hv.
Qed.

End StoreSpecs.

(** * One crossing, in the store

    What [crossOffer] does to the rows and to the frames in memory: it keeps
    the invariant of the taker, and no money appears or disappears. *)

Section CrossStore.
Context {Key Entry : Type} `{Ord Key} `{EqDecision Entry}.
Context {helper : EntryHelper Key Entry LedgerHeader} {helperOk : EntryHelperOk helper}.
Context {dex : DexEntries Key Entry} {dexOk : DexEntriesOk helper dex} (dp : DexParams).
Context (seq : Z) (flag : bool) (commissionID source : PublicKey).
Local Abbreviation St := (Store Key Entry LedgerHeader).
Local Abbreviation stamp := (stamp seq flag).
Local Abbreviation ready := (ready seq flag).
Local Abbreviation wrote := (wrote seq flag).
Implicit Types (s : St) (L : Key -> option Entry) (tk : Taker) (B : Frame OfferEntry) (b q f : Frame BalanceEntry) (m : ExchangeResult).

Definition memory tk : list Entry :=
  [toEntry (baseBalanceA tk); toEntry (quoteBalanceA tk); toEntry (mCommissionBalance tk)].

(** The rows as they will be when the frames in memory are stored. *)
Definition bookOf s tk : list Entry := overlay (memory tk) (sRows s).

Record takerInv s tk : Prop := {
  ti_book : bookInv commissionID (bookOf s tk) (fun id => offerLock id (offerA tk));
  ti_party : party (bookOf s tk) (offerA tk) (baseBalanceA tk) (quoteBalanceA tk);
  ti_owner : ownerID (offerA tk) = source;
  ti_baseOwner : balAccountID (data (baseBalanceA tk)) = source;
  ti_quoteOwner : balAccountID (data (quoteBalanceA tk)) = source;
  ti_commission : hasBalance (bookOf s tk) (mCommissionBalance tk);
  ti_commissionOwner : balAccountID (data (mCommissionBalance tk)) = commissionID;
  ti_commissionAsset : balAsset (data (mCommissionBalance tk)) = quote (offerA tk);
  ti_source : source <> commissionID;
  ti_assets : base (offerA tk) <> quote (offerA tk);
  ti_stored : Forall (fun e => is_Some (rowsFind (sRows s) (getLedgerKey e))) (memory tk);
  ti_rows : distinctRows (sRows s);
}.

Definition memoryIds tk : list BalanceID :=
  [balanceID (data (baseBalanceA tk)); balanceID (data (quoteBalanceA tk)); balanceID (data (mCommissionBalance tk))].

Lemma memory_keys tk : map getLedgerKey (memory tk) = map balanceKey (memoryIds tk).
Proof. cbn. by rewrite !key_balance. Qed.

(** Balances of different owners differ. *)
Lemma ids_differ R f f' : hasBalance R f -> hasBalance R f' -> balAccountID (data f) <> balAccountID (data f') ->
  balanceID (data f) <> balanceID (data f').
Proof. intros Hf Hf' Hne E. apply Hne. by rewrite (hasBalance_inj R f f' Hf Hf' E). Qed.

Lemma memoryIds_distinct s tk : takerInv s tk -> NoDup (memoryIds tk).
Proof.
  intros Hi. pose proof (ti_party _ _ Hi) as Hp.
  assert (balanceID (data (baseBalanceA tk)) <> balanceID (data (quoteBalanceA tk))) as H1.
  { rewrite (pa_baseID _ _ _ _ Hp), (pa_quoteID _ _ _ _ Hp). apply Hp. }
  assert (balanceID (data (baseBalanceA tk)) <> balanceID (data (mCommissionBalance tk))) as H2.
  { eapply ids_differ; [apply Hp|apply Hi|]. rewrite (ti_baseOwner _ _ Hi), (ti_commissionOwner _ _ Hi). apply Hi. }
  assert (balanceID (data (quoteBalanceA tk)) <> balanceID (data (mCommissionBalance tk))) as H3.
  { eapply ids_differ; [apply Hp|apply Hi|]. rewrite (ti_quoteOwner _ _ Hi), (ti_commissionOwner _ _ Hi). apply Hi. }
  unfold memoryIds. repeat (apply NoDup_cons; split; [set_solver|]). constructor.
Qed.

Lemma memory_distinct s tk : takerInv s tk -> NoDup (map getLedgerKey (memory tk)).
Proof. intros Hi. rewrite memory_keys. by eapply balanceKeys_NoDup, memoryIds_distinct. Qed.

(** A balance of somebody else is in the rows. *)
Lemma other_balance s tk f : takerInv s tk -> hasBalance (bookOf s tk) f -> balAccountID (data f) <> source ->
  balAccountID (data f) <> commissionID -> (balanceID (data f) ∉ memoryIds tk) /\ hasBalance (sRows s) f.
Proof.
  intros Hi Hf H1 H2. pose proof (ti_party _ _ Hi) as Hp.
  assert (balanceID (data f) ∉ memoryIds tk) as Hn.
  { unfold memoryIds. rewrite !not_elem_of_cons. split_and!; [..|apply not_elem_of_nil]; (eapply ids_differ; [exact Hf| |]).
    - apply Hp.
    - by rewrite (ti_baseOwner _ _ Hi).
    - apply Hp.
    - by rewrite (ti_quoteOwner _ _ Hi).
    - apply Hi.
    - by rewrite (ti_commissionOwner _ _ Hi). }
  split; [done|]. unfold hasBalance in *. unfold bookOf in Hf. rewrite rowsFind_overlay_out in Hf; [done|].
  rewrite memory_keys. intros Hin. apply list_elem_of_In, in_map_iff in Hin as (id & E & Hin).
  apply balanceKey_inj in E as ->. apply Hn. by apply list_elem_of_In.
Qed.

Lemma book_other s tk k : (forall id, k <> balanceKey id) -> rowsFind (bookOf s tk) k = rowsFind (sRows s) k.
Proof.
  intros Hk. apply rowsFind_overlay_out. rewrite memory_keys. intros Hin.
  apply list_elem_of_In, in_map_iff in Hin as (id & E & _). by apply (Hk id).
Qed.

Lemma book_offer s tk i w : rowsFind (bookOf s tk) (offerKey i w) = rowsFind (sRows s) (offerKey i w).
Proof. apply book_other. intros id E. symmetry in E. by apply balanceKey_offer in E. Qed.

Lemma book_hasOffer s tk B : hasOffer (bookOf s tk) B <-> hasOffer (sRows s) B.
Proof. unfold hasOffer. by rewrite book_offer. Qed.

Lemma takerLock_nonneg s tk id : takerInv s tk -> 0 <= offerLock id (offerA tk).
Proof.
  intros Hi. pose proof (lockOf_nonneg _ (pa_tradable _ _ _ _ (ti_party _ _ Hi))). unfold offerLock. case_bool_decide; lia.
Qed.

(** ** Settling a match *)

(** The frames of the other side when the crossing is over. *)
Definition baseB B b m (taken : bool) : BalanceEntry :=
  if taken then releasedBase (matched (data B) m) (baseAfter (data B) m (data b)) else baseAfter (data B) m (data b).
Definition quoteB B q m (taken : bool) : BalanceEntry :=
  if taken then releasedQuote (matched (data B) m) (quoteAfter (data B) m (data q)) else quoteAfter (data B) m (data q).
Definition offerB B m (taken : bool) : option (Frame OfferEntry) :=
  if taken then None else Some (stamp (withData B (matched (data B) m))).

Definition takerAfter tk m (trail : list ClaimOfferAtom) (paid : Z) : Taker :=
  CO.setTaker tk (matched (offerA tk) m) (withData (baseBalanceA tk) (baseAfter (offerA tk) m (data (baseBalanceA tk))))
    (withData (quoteBalanceA tk) (quoteAfter (offerA tk) m (data (quoteBalanceA tk))))
    (withData (mCommissionBalance tk) (BF.setAmount (data (mCommissionBalance tk))
       (amount (data (mCommissionBalance tk)) + buyerFee m + sellerFee m))) trail paid.

(** Everything that holds when a match is settled. *)
Record settling s tk B b q m : Prop := {
  se_inv : takerInv s tk;
  se_offer : hasOffer (sRows s) B;
  se_party : party (bookOf s tk) (data B) b q;
  se_baseID : balanceID (data b) ∉ memoryIds tk;
  se_quoteID : balanceID (data q) ∉ memoryIds tk;
  se_side : isBuy (data B) = negb (isBuy (offerA tk));
  se_base : base (data B) = base (offerA tk);
  se_quote : quote (data B) = quote (offerA tk);
  se_fitsA : fits (offerA tk) m (data (baseBalanceA tk)) (data (quoteBalanceA tk));
  se_fitsB : fits (data B) m (data b) (data q);
  se_fees : 0 <= buyerFee m /\ 0 <= sellerFee m;
}.

(** The rows: the offer and its balances are written. *)
Definition settledRows s B b q m taken s' : Prop := forall k, rowsFind (sRows s') k =
  update (balanceKey (balanceID (data q))) (Some (toEntry (stamp (withData q (quoteB B q m taken)))))
   (update (balanceKey (balanceID (data b))) (Some (toEntry (stamp (withData b (baseB B b m taken)))))
     (update (offerKey (offerID (data B)) (ownerID (data B))) (toEntry <$> offerB B m taken) (rowsFind (sRows s)))) k.

Definition changes tk tk' B b q m taken : list (Frame BalanceEntry * Frame BalanceEntry) :=
  [(baseBalanceA tk, baseBalanceA tk'); (quoteBalanceA tk, quoteBalanceA tk'); (mCommissionBalance tk, mCommissionBalance tk');
   (q, stamp (withData q (quoteB B q m taken))); (b, stamp (withData b (baseB B b m taken)))].

Definition slotB B m taken : option (Z * PublicKey * option (Frame OfferEntry)) :=
  Some (offerID (data B), ownerID (data B), offerB B m taken).

Lemma matched_ids o m : baseBalance (matched o m) = baseBalance o /\ quoteBalance (matched o m) = quoteBalance o /\
  offerID (matched o m) = offerID o /\ ownerID (matched o m) = ownerID o /\ base (matched o m) = base o /\ quote (matched o m) = quote o.
Proof. unfold matched. by destruct (isBuy o). Qed.

Lemma after_fields o m (x y : BalanceEntry) :
  balanceID (baseAfter o m x) = balanceID x /\ balAccountID (baseAfter o m x) = balAccountID x /\ balAsset (baseAfter o m x) = balAsset x /\
  balanceID (quoteAfter o m y) = balanceID y /\ balAccountID (quoteAfter o m y) = balAccountID y /\ balAsset (quoteAfter o m y) = balAsset y.
Proof. unfold baseAfter, quoteAfter. by destruct (isBuy o). Qed.

Lemma released_fields o (x y : BalanceEntry) :
  balanceID (releasedBase o x) = balanceID x /\ balAccountID (releasedBase o x) = balAccountID x /\ balAsset (releasedBase o x) = balAsset x /\
  balanceID (releasedQuote o y) = balanceID y /\ balAccountID (releasedQuote o y) = balAccountID y /\ balAsset (releasedQuote o y) = balAsset y.
Proof. unfold releasedBase, releasedQuote. by destruct (isBuy o). Qed.

Lemma baseB_same B b m taken : sameBalance b (stamp (withData b (baseB B b m taken))).
Proof.
  unfold sameBalance, baseB. cbn. destruct (after_fields (data B) m (data b) (data b)) as (? & ? & ? & _).
  destruct taken; [|by split_and!]. destruct (released_fields (matched (data B) m) (baseAfter (data B) m (data b)) (data b)) as (-> & -> & -> & _).
  by split_and!.
Qed.

Lemma quoteB_same B q m taken : sameBalance q (stamp (withData q (quoteB B q m taken))).
Proof.
  unfold sameBalance, quoteB. cbn. destruct (after_fields (data B) m (data q) (data q)) as (_ & _ & _ & ? & ? & ?).
  destruct taken; [|by split_and!]. destruct (released_fields (matched (data B) m) (data q) (quoteAfter (data B) m (data q))) as (_ & _ & _ & -> & -> & ->).
  by split_and!.
Qed.

Lemma takerAfter_ids tk m trail paid : memoryIds (takerAfter tk m trail paid) = memoryIds tk.
Proof.
  unfold memoryIds, takerAfter. cbn.
  destruct (after_fields (offerA tk) m (data (baseBalanceA tk)) (data (quoteBalanceA tk))) as (-> & _ & _ & -> & _). done.
Qed.

Section Settle.
Context (s s' : St) (tk : Taker) (B : Frame OfferEntry) (b q : Frame BalanceEntry) (m : ExchangeResult) (taken : bool).
Context (trail : list ClaimOfferAtom) (paid : Z).
Let tk' := takerAfter tk m trail paid.
Context (Hse : settling s tk B b q m) (Hd' : distinctRows (sRows s')) (Hrows : settledRows s B b q m taken s').
Context (Hmore : taken = negb (needsMore (matched (data B) m))).

Lemma slotB_ok : slotKeyOk (slotB B m taken).
Proof. unfold slotB, offerB. destruct taken; [done|]. cbn. destruct (matched_ids (data B) m) as (_ & _ & -> & -> & _). done. Qed.

Lemma settle_stepped : stepped (bookOf s tk) (slotB B m taken) (changes tk tk' B b q m taken) (bookOf s' tk').
Proof.
  split; [by apply overlay_distinct|]. intros k. unfold bookOf. rewrite !rowsFind_overlay.
  rewrite (rowsFind_inSlot (slotB B m taken)) by apply slotB_ok. rewrite rowsFind_overlay, Hrows. unfold update.
  assert (balanceID (data (baseBalanceA tk')) = balanceID (data (baseBalanceA tk))) as I1 by apply (after_fields (offerA tk) m _ (data b)).
  assert (balanceID (data (quoteBalanceA tk')) = balanceID (data (quoteBalanceA tk))) as I2 by apply (after_fields (offerA tk) m (data b)).
  assert (balanceID (data (mCommissionBalance tk')) = balanceID (data (mCommissionBalance tk))) as I3 by done.
  cbn [memory news changes map List.find fst snd slotB]. rewrite !key_balance, I1, I2, I3.
  rewrite (proj1 (baseB_same B b m taken)), (proj1 (quoteB_same B q m taken)).
  repeat (destruct (eqvb (balanceKey _) k); [done|]). by destruct (eqvb (offerKey _ _) k).
Qed.

Lemma slotB_lock id : slotLock (slotB B m taken) (bookOf s tk) id =
  (if taken then 0 else offerLock id (matched (data B) m)) - offerLock id (data B).
Proof.
  unfold slotLock, slotB. rewrite book_offer, (se_offer _ _ _ _ _ _ Hse : rowsFind _ _ = _). cbn [ofRow]. rewrite lockOn_offer.
  unfold offerB. destruct taken; cbn [fmap option_fmap option_map ofRow]; [lia|]. by rewrite lockOn_offer.
Qed.

Lemma settle_ids : ids (changes tk tk' B b q m taken) = memoryIds tk ++ [balanceID (data q); balanceID (data b)].
Proof. done. Qed.

Lemma settle_distinct : NoDup (ids (changes tk tk' B b q m taken)).
Proof.
  rewrite settle_ids. apply NoDup_app. split_and!.
  - eapply memoryIds_distinct, Hse.
  - intros id Hin. rewrite !not_elem_of_cons. split_and!; [| |apply not_elem_of_nil]; intros ->.
    + by apply (se_quoteID _ _ _ _ _ _ Hse).
    + by apply (se_baseID _ _ _ _ _ _ Hse).
  - pose proof (se_party _ _ _ _ _ _ Hse) as Hp. apply NoDup_cons. split; [|apply NoDup_singleton].
    rewrite list_elem_of_singleton, (pa_quoteID _ _ _ _ Hp), (pa_baseID _ _ _ _ Hp). pose proof (pa_distinct _ _ _ _ Hp). congruence.
Qed.

(** The balances of the two sides differ. *)
Lemma settle_apart :
  let A := offerA tk in let O := data B in
  baseBalance O <> baseBalance A /\ baseBalance O <> quoteBalance A /\ quoteBalance O <> baseBalance A /\
  quoteBalance O <> quoteBalance A /\ baseBalance A <> quoteBalance A /\ baseBalance O <> quoteBalance O /\
  balanceID (data (mCommissionBalance tk)) <> baseBalance A /\ balanceID (data (mCommissionBalance tk)) <> quoteBalance A /\
  balanceID (data (mCommissionBalance tk)) <> baseBalance O /\ balanceID (data (mCommissionBalance tk)) <> quoteBalance O.
Proof.
  cbv zeta. pose proof (se_party _ _ _ _ _ _ Hse) as HpB. pose proof (ti_party _ _ (se_inv _ _ _ _ _ _ Hse)) as HpA.
  pose proof (se_baseID _ _ _ _ _ _ Hse) as H1. pose proof (se_quoteID _ _ _ _ _ _ Hse) as H2.
  pose proof (memoryIds_distinct _ _ (se_inv _ _ _ _ _ _ Hse)) as H3. unfold memoryIds in *.
  rewrite (pa_baseID _ _ _ _ HpA), (pa_quoteID _ _ _ _ HpA) in *. rewrite (pa_baseID _ _ _ _ HpB) in H1. rewrite (pa_quoteID _ _ _ _ HpB) in H2.
  rewrite !NoDup_cons, !not_elem_of_cons in H3. rewrite !not_elem_of_cons in H1, H2.
  pose proof (pa_distinct _ _ _ _ HpA). pose proof (pa_distinct _ _ _ _ HpB). split_and!; naive_solver.
Qed.

Lemma slotB_zero id : id <> baseBalance (data B) -> id <> quoteBalance (data B) -> slotLock (slotB B m taken) (bookOf s tk) id = 0.
Proof.
  intros H1 H2. rewrite slotB_lock. destruct (matched_ids (data B) m) as (E1 & E2 & _).
  rewrite !offerLock_other by congruence. by destruct taken.
Qed.

Lemma takerLock_zero id : id <> baseBalance (offerA tk) -> id <> quoteBalance (offerA tk) ->
  offerLock id (offerA tk') - offerLock id (offerA tk) = 0.
Proof.
  intros H1 H2. destruct (matched_ids (offerA tk) m) as (E1 & E2 & _). unfold tk', takerAfter. cbn [CO.setTaker offerA].
  rewrite !offerLock_other by congruence. done.
Qed.

Local Abbreviation extra := (fun id => offerLock id (offerA tk)).
Local Abbreviation extra' := (fun id => offerLock id (offerA tk')).

Lemma settle_nonneg :
  inRange (data (baseBalanceA tk')) /\ inRange (data (quoteBalanceA tk')) /\
  inRange (baseB B b m taken) /\ inRange (quoteB B q m taken).
Proof.
  pose proof (se_fitsA _ _ _ _ _ _ Hse) as FA. pose proof (se_fitsB _ _ _ _ _ _ Hse) as FB.
  pose proof (pa_tradable _ _ _ _ (ti_party _ _ (se_inv _ _ _ _ _ _ Hse))) as TA.
  pose proof (pa_tradable _ _ _ _ (se_party _ _ _ _ _ _ Hse)) as TB.
  destruct (after_nonneg _ _ _ _ TA FA) as (? & ? & _). destruct (after_nonneg _ _ _ _ TB FB) as ((?&?&?) & (?&?&?) & Hl).
  split; [done|]. split; [done|]. unfold baseB, quoteB. clear Hrows Hmore. destruct taken; [|by split_and!].
  pose proof (tr_base _ (matched_tradable _ _ _ _ TB FB)). pose proof (tr_quote _ (matched_tradable _ _ _ _ TB FB)).
  pose proof (tr_fee _ (matched_tradable _ _ _ _ TB FB)). unfold inRange, funds, releasedBase, releasedQuote, lockOf in *. rewrite isBuy_matched in *.
  destruct (isBuy (data B)); cbn; lia.
Qed.

Lemma lockB_base : locked (baseB B b m taken) - locked (data b) =
  (if taken then 0 else offerLock (baseBalance (data B)) (matched (data B) m)) - offerLock (baseBalance (data B)) (data B).
Proof.
  pose proof settle_apart as Hap. cbv zeta in Hap. pose proof (baseAfter_lock (data B) m (data b) ltac:(tauto)) as H1.
  unfold baseB. destruct taken; [|lia]. destruct (matched_ids (data B) m) as (E1 & E2 & _).
  pose proof (releasedBase_lock (matched (data B) m) (baseAfter (data B) m (data b)) ltac:(rewrite E1, E2; tauto)) as H2. rewrite E1 in H2. lia.
Qed.

Lemma lockB_quote : locked (quoteB B q m taken) - locked (data q) =
  (if taken then 0 else offerLock (quoteBalance (data B)) (matched (data B) m)) - offerLock (quoteBalance (data B)) (data B).
Proof.
  pose proof settle_apart as Hap. cbv zeta in Hap. pose proof (quoteAfter_lock (data B) m (data q) ltac:(tauto)) as H1.
  unfold quoteB. destruct taken; [|lia]. destruct (matched_ids (data B) m) as (E1 & E2 & _).
  pose proof (releasedQuote_lock (matched (data B) m) (quoteAfter (data B) m (data q)) ltac:(rewrite E1, E2; tauto)) as H2. rewrite E2 in H2. lia.
Qed.

Lemma settle_changes : Forall (changeOk (bookOf s tk) (slotB B m taken) extra extra') (changes tk tk' B b q m taken).
Proof.
  pose proof settle_apart as Hap. cbv zeta in Hap. destruct Hap as (D1 & D2 & D3 & D4 & D5 & D6 & D7 & D8 & D9 & D10).
  pose proof (se_party _ _ _ _ _ _ Hse) as HpB. pose proof (ti_party _ _ (se_inv _ _ _ _ _ _ Hse)) as HpA.
  pose proof (ti_commission _ _ (se_inv _ _ _ _ _ _ Hse)) as Hc. pose proof (ti_book _ _ (se_inv _ _ _ _ _ _ Hse)) as Hbk.
  destruct settle_nonneg as ((N1 & N2 & _) & (N3 & N4 & _) & (N5 & N6 & _) & (N7 & N8 & _)).
  destruct (bi_balance _ _ _ Hbk _ Hc) as (C1 & C2 & _). pose proof (se_fees _ _ _ _ _ _ Hse) as [F1 F2].
  repeat (apply Forall_cons; split); [..|apply Forall_nil; done].
  - split; cbn [fst snd]; [apply HpA|split_and!; apply (after_fields (offerA tk) m _ (data b))|done|done|]. cbv zeta.
    rewrite (pa_baseID _ _ _ _ HpA), slotB_zero by congruence.
    pose proof (baseAfter_lock (offerA tk) m (data (baseBalanceA tk)) D5) as E. cbn. lia.
  - split; cbn [fst snd]; [apply HpA|split_and!; apply (after_fields (offerA tk) m (data b))|done|done|]. cbv zeta.
    rewrite (pa_quoteID _ _ _ _ HpA), slotB_zero by congruence.
    pose proof (quoteAfter_lock (offerA tk) m (data (quoteBalanceA tk)) D5) as E. cbn. lia.
  - split; cbn [fst snd]; [done|by split_and!|cbn; lia|done|]. cbv zeta. rewrite slotB_zero, takerLock_zero by done. cbn. lia.
  - split; cbn [fst snd]; [apply HpB|apply quoteB_same|exact N7|exact N8|]. cbv zeta.
    rewrite (pa_quoteID _ _ _ _ HpB), slotB_lock, takerLock_zero by done. pose proof lockB_quote. cbn. lia.
  - split; cbn [fst snd]; [apply HpB|apply baseB_same|exact N5|exact N6|]. cbv zeta.
    rewrite (pa_baseID _ _ _ _ HpB), slotB_lock, takerLock_zero by done. pose proof lockB_base. cbn. lia.
Qed.

(** The offer that stays in the book. *)
Lemma settle_offer : taken = false -> offerOk commissionID (bookOf s tk) (matched (data B) m).
Proof.
  intros Ht. rewrite Ht in Hmore. symmetry in Hmore. apply negb_false_iff in Hmore.
  pose proof (bi_offer _ _ _ (ti_book _ _ (se_inv _ _ _ _ _ _ Hse)) B (proj2 (book_hasOffer s tk B) (se_offer _ _ _ _ _ _ Hse))) as [T _ V A W Ob Oq].
  pose proof (matched_tradable _ _ _ _ T (se_fitsB _ _ _ _ _ _ Hse)) as T'. destruct (matched_ids (data B) m) as (E1 & E2 & E3 & E4 & E5 & E6).
  split; [done|done| |by rewrite E5, E6|by rewrite E4|by rewrite E1, E4, E5|by rewrite E2, E4, E6].
  unfold OF.isValid in *. rewrite E5, E6. zify_bool. pose proof (tr_fee _ T'). pose proof (tr_price _ T').
  pose proof Hmore as Hn. unfold needsMore in Hn. zify_bool.
  rewrite !andb_true_iff, !Z.gtb_ltb, Z.geb_leb, !Z.ltb_lt, Z.leb_le. split_and!; done || lia.
Qed.

Lemma settle_stepOk : stepOk commissionID (bookOf s tk) (slotB B m taken) (changes tk tk' B b q m taken) extra extra'.
Proof.
  split; [apply slotB_ok|apply settle_distinct|apply settle_changes| |].
  - intros id Hid. rewrite settle_ids, not_elem_of_app in Hid. destruct Hid as [Hm Hb].
    unfold memoryIds in Hm. rewrite !not_elem_of_cons in Hm, Hb.
    pose proof (se_party _ _ _ _ _ _ Hse) as HpB. pose proof (ti_party _ _ (se_inv _ _ _ _ _ _ Hse)) as HpA.
    rewrite (pa_baseID _ _ _ _ HpB), (pa_quoteID _ _ _ _ HpB) in Hb. rewrite (pa_baseID _ _ _ _ HpA), (pa_quoteID _ _ _ _ HpA) in Hm.
    rewrite slotB_zero by tauto. rewrite takerLock_zero by tauto. lia.
  - intros i w g E. pose proof settle_offer as Ho. unfold slotB, offerB in E. clear - Ho E.
    destruct taken; [done|]. injection E as <- <- <-. by apply Ho.
Qed.

Lemma funds_diff a f f' d : sameBalance f f' -> funds (data f') = funds (data f) + d ->
  assetFunds a f' - assetFunds a f = if bool_decide (balAsset (data f) = a) then d else 0.
Proof. intros (_ & _ & E) Hd. unfold assetFunds. rewrite E. case_bool_decide; lia. Qed.

(** Nothing is gained: the assets change hands. *)
Lemma settle_gain a : gain a (changes tk tk' B b q m taken) = 0.
Proof.
  pose proof (se_party _ _ _ _ _ _ Hse) as HpB. pose proof (se_inv _ _ _ _ _ _ Hse) as Hi. pose proof (ti_party _ _ Hi) as HpA.
  destruct (after_funds (offerA tk) m (data (baseBalanceA tk)) (data (quoteBalanceA tk))) as [FA1 FA2].
  destruct (after_funds (data B) m (data b) (data q)) as [FB1 FB2].
  destruct (released_funds (matched (data B) m) (baseAfter (data B) m (data b)) (quoteAfter (data B) m (data q))) as [FR1 FR2].
  rewrite (se_side _ _ _ _ _ _ Hse) in FB1, FB2. unfold gain, changes. rewrite !sumOf_cons, sumOf_nil. cbn [fst snd].
  assert (sameBalance (baseBalanceA tk) (baseBalanceA tk')) as S1 by (split_and!; apply (after_fields (offerA tk) m _ (data b))).
  assert (sameBalance (quoteBalanceA tk) (quoteBalanceA tk')) as S2 by (split_and!; apply (after_fields (offerA tk) m (data b))).
  assert (sameBalance (mCommissionBalance tk) (mCommissionBalance tk')) as S3 by done.
  rewrite (funds_diff a _ _ _ S1 FA1), (funds_diff a _ _ _ S2 FA2), (funds_diff a _ _ (buyerFee m + sellerFee m) S3) by (unfold funds; cbn; lia).
  rewrite (funds_diff a _ _ (if negb (isBuy (offerA tk)) then baseDelta m else - baseDelta m) (baseB_same B b m taken))
    by (unfold baseB; cbn; destruct taken; lia).
  rewrite (funds_diff a _ _ (if negb (isBuy (offerA tk)) then - (quoteDelta m + buyerFee m) else quoteDelta m - sellerFee m) (quoteB_same B q m taken))
    by (unfold quoteB; cbn; destruct taken; lia).
  rewrite (pa_baseAsset _ _ _ _ HpA), (pa_quoteAsset _ _ _ _ HpA), (pa_baseAsset _ _ _ _ HpB), (pa_quoteAsset _ _ _ _ HpB),
    (se_base _ _ _ _ _ _ Hse), (se_quote _ _ _ _ _ _ Hse), (ti_commissionAsset _ _ Hi).
  destruct (isBuy (offerA tk)); cbn [negb]; repeat case_bool_decide; lia.
Qed.

Lemma settle_has f : f ∈ [baseBalanceA tk'; quoteBalanceA tk'; mCommissionBalance tk'] -> hasBalance (bookOf s' tk') f.
Proof.
  intros Hin. unfold hasBalance. rewrite <- key_balance. apply rowsFind_overlay_in.
  - rewrite memory_keys. apply balanceKeys_NoDup. unfold tk'. rewrite takerAfter_ids. eapply memoryIds_distinct, Hse.
  - rewrite !elem_of_cons in Hin. unfold memory. rewrite !elem_of_cons.
    destruct Hin as [-> |[-> |[-> |Hin]]]; [by left|by right; left|by right; right; left|by apply not_elem_of_nil in Hin].
Qed.

Lemma settle_inv : takerInv s' tk' /\ sameTotals (bookOf s tk) (bookOf s' tk').
Proof.
  pose proof settle_stepped as Hst. pose proof settle_stepOk as Hok. pose proof (ti_book _ _ (se_inv _ _ _ _ _ _ Hse)) as Hbk.
  split.
  2:{ apply (stepped_same commissionID _ _ _ _ _ _ Hbk Hok Hst settle_gain). }
  pose proof (se_inv _ _ _ _ _ _ Hse) as Hi. pose proof (ti_party _ _ Hi) as HpA. destruct (matched_ids (offerA tk) m) as (E1 & E2 & E3 & E4 & E5 & E6).
  destruct (after_fields (offerA tk) m (data (baseBalanceA tk)) (data (quoteBalanceA tk))) as (A1 & A2 & A3 & A4 & A5 & A6).
  split.
  - apply (bookInv_step commissionID _ _ _ _ _ _ Hbk Hok Hst). intros a. by rewrite settle_gain.
  - pose proof (after_nonneg _ _ _ _ (pa_tradable _ _ _ _ HpA) (se_fitsA _ _ _ _ _ _ Hse)) as (_ & _ & Hl).
    split; [apply settle_has; set_solver|apply settle_has; set_solver| | | | | | |].
    + cbn. by rewrite A1, E1, (pa_baseID _ _ _ _ HpA).
    + cbn. by rewrite A4, E2, (pa_quoteID _ _ _ _ HpA).
    + cbn. by rewrite A3, E5, (pa_baseAsset _ _ _ _ HpA).
    + cbn. by rewrite A6, E6, (pa_quoteAsset _ _ _ _ HpA).
    + cbn. rewrite E1, E2. apply HpA.
    + unfold tk', takerAfter. cbn [CO.setTaker offerA baseBalanceA quoteBalanceA]. rewrite isBuy_matched. by destruct (isBuy (offerA tk)).
    + eapply matched_tradable, Hse. apply HpA.
  - cbn. rewrite E4. apply Hi.
  - cbn. rewrite A2. apply Hi.
  - cbn. rewrite A5. apply Hi.
  - apply settle_has. set_solver.
  - apply Hi.
  - cbn. rewrite E6. apply Hi.
  - apply Hi.
  - cbn. rewrite E5, E6. apply Hi.
  - pose proof (ti_stored _ _ Hi) as Hs. rewrite Forall_forall in *. intros e He.
    assert (getLedgerKey e ∈ map getLedgerKey (memory tk)) as Hk.
    { rewrite memory_keys, <- (takerAfter_ids tk m trail paid), <- memory_keys. by apply list_elem_of_In, in_map, list_elem_of_In. }
    apply list_elem_of_In, in_map_iff in Hk as (e' & Ek & Hin'). apply list_elem_of_In in Hin'. rewrite <- Ek.
    specialize (Hs e' Hin'). rewrite Hrows. unfold update. repeat (destruct (eqvb (balanceKey _) _); [by eexists|]).
    destruct (eqvb (offerKey _ _) (getLedgerKey e')) eqn:Eo; [|done]. apply eqvb_eq in Eo.
    assert (getLedgerKey e' ∈ map getLedgerKey (memory tk)) as Hk by (by apply list_elem_of_In, in_map, list_elem_of_In).
    rewrite memory_keys in Hk. apply list_elem_of_In, in_map_iff in Hk as (id & Eid & _). rewrite <- Eid in Eo.
    symmetry in Eo. by apply balanceKey_offer in Eo.
  - done.
Qed.

End Settle.
End CrossStore.
