(* ===== verification/CrossOffer.v ===== *)
(** * What a crossing does

    [crossOffer] takes an offer of the book, or a part of it: the invariants of
    the store and of the taker hold afterwards, the funds in every asset are
    what they were, and the other offers are untouched.  It may throw, but no
    assertion fails.  The second part is the loop that crosses the offers of
    the book one after the other. *)

From S2P Require Import Prelude OrdContainers BigMath LedgerDelta LedgerDeltaFacts EntryStore EntryStoreFacts Signatures LedgerHeader TxSet Statistics Balance Assets OfferExchange ExchangeFacts DexStore CreateOffer DexFacts BookFacts CrossStore.

Section CrossOffer.
Context {Key Entry : Type} `{Ord Key} `{EqDecision Entry}.
Context {helper : EntryHelper Key Entry LedgerHeader} {helperOk : EntryHelperOk helper}.
Context {dex : DexEntries Key Entry} {dexOk : DexEntriesOk helper dex} (dp : DexParams).
Context (seq : Z) (flag : bool) (Hseq : seq <> 0) (commissionID source : PublicKey).
Local Abbreviation St := (Store Key Entry LedgerHeader).
Local Abbreviation stamp := (stamp seq flag).
Local Abbreviation ready := (ready seq flag).
Local Abbreviation wrote := (wrote seq flag).
Local Abbreviation takerInv := (takerInv commissionID source).
Implicit Types (s : St) (L : Key -> option Entry) (tk : Taker) (B : Frame OfferEntry) (b q f : Frame BalanceEntry) (m : ExchangeResult).

Lemma changeBalance_ret L s f : ready L s -> inRange (data f) -> isAssetCodeValid (balAsset (data f)) = true ->
  is_Some (rowsFind (sRows s) (balanceKey (balanceID (data f)))) ->
  exists s', DS.storeChangeEntry f s = Ret tt s' /\ wrote L s (balanceKey (balanceID (data f))) (Some (toEntry (stamp f))) s'.
Proof.
  intros Hr Hf Hv Hs. rewrite <- key_balance in *. apply change_ret; [done|exact touch_balance|done| |done].
  by rewrite valid_balance.
Qed.

Lemma wrote_other L s k v s' k' : wrote L s k v s' -> k <> k' -> rowsFind (sRows s') k' = rowsFind (sRows s) k'.
Proof. intros [_ Hr] Hne. rewrite Hr. unfold update. by rewrite eqvb_neq. Qed.

Lemma wrote_same L s k v s' : wrote L s k v s' -> rowsFind (sRows s') k = v.
Proof. intros [_ Hr]. rewrite Hr. unfold update. by rewrite eqvb_refl. Qed.

(** The frames in memory stay, the rows below them change. *)
Lemma takerInv_rows s s' tk : takerInv s tk -> bookInv commissionID (bookOf s' tk) (fun id => offerLock id (offerA tk)) ->
  distinctRows (sRows s') -> (forall e, e ∈ memory tk -> is_Some (rowsFind (sRows s') (getLedgerKey e))) -> takerInv s' tk.
Proof.
  intros Hi Hb Hd Hs. pose proof (ti_party _ _ _ _ Hi) as Hp.
  assert (forall f, f ∈ [baseBalanceA tk; quoteBalanceA tk; mCommissionBalance tk] -> hasBalance (bookOf s' tk) f) as Hhas.
  { intros f Hin. unfold hasBalance. rewrite <- key_balance. apply rowsFind_overlay_in; [by eapply memory_distinct|].
    rewrite !elem_of_cons in Hin. unfold memory. rewrite !elem_of_cons.
    destruct Hin as [-> |[-> |[-> |Hin]]]; [by left|by right; left|by right; right; left|by apply not_elem_of_nil in Hin]. }
  split; try apply Hi; try done.
  - split; try apply Hp; apply Hhas; set_solver.
  - apply Hhas. set_solver.
  - apply Forall_forall. exact Hs.
Qed.

(** ** Loading the other side *)

Lemma isValid_of R extra f : bookInv commissionID R extra -> hasBalance R f -> BF.isValid (data f) = true.
Proof.
  intros Hi Hf. destruct (bi_balance _ _ _ Hi f Hf) as (H1 & H2 & H3 & _). unfold BF.isValid. rewrite H3.
  rewrite !(proj2 (Z.geb_ge _ _)) by lia. done.
Qed.

Lemma loadBalance_book L s tk f : ready L s -> takerInv s tk -> hasBalance (sRows s) f -> BF.isValid (data f) = true ->
  exists s', CO.loadBalance (balanceID (data f)) s = Ret f s' /\ ready L s' /\ sRows s' = sRows s.
Proof.
  intros Hr Hi Hf Hv. destruct (loadBalance_ret seq flag L s true f Hr Hf Hv) as (s' & He & Hr' & Hrow).
  exists s'. split; [|done]. unfold CO.loadBalance. by rewrite (bind_ret _ _ _ _ _ He).
Qed.

(** The restriction of the price: decided, or an overflow is reported. *)
Lemma restriction_cases (p : AssetPairEntry) n s : pairOk p ->
  (exists v, CO.isOfferPriceMeetAssetPairRestrictions (Entry := Entry) (Key := Key) dp p n s = Ret v s) \/
  (exists msg, CO.isOfferPriceMeetAssetPairRestrictions (Entry := Entry) (Key := Key) dp p n s = Throw (RuntimeError msg) s).
Proof.
  intros (Hv & H1 & H2). unfold AP.isValid in Hv. zify_bool.
  unfold CO.isOfferPriceMeetAssetPairRestrictions, AP.getMinAllowedPrice, AP.getMinPriceInTermsOfPhysical, AP.getPhysicalPriceWithCorrection.
  destruct (AP.checkPolicy _ _); [|left; by eexists]. unfold mbind, M_bind.
  destruct (Z.le_gt_cases (div_round ROUND_UP (physicalPrice p * physicalPriceCorrection p) (100 * ONE)) INT64_MAX) as [Hle|Hgt].
  - rewrite bigDivide_ret by (done || lia). left. by eexists.
  - destruct (bigDivide_over 0 (physicalPrice p) (physicalPriceCorrection p) (100 * ONE) ROUND_UP s ltac:(lia) ltac:(lia) ltac:(done) Hgt) as [v ->].
    right. by eexists.
Qed.

(** Adding both fees to the commission balance. *)
Lemma assertAdd_ret (c : BalanceEntry) n s : inRange c -> 0 <= n -> funds c + n <= INT64_MAX ->
  CO.assertAddBalance dp n c s = Ret (BF.setAmount c (amount c + n)) s.
Proof.
  intros Hc Hn Hf. unfold CO.assertAddBalance. pose proof Hc as (? & ? & ?).
  pose proof (addBalance_spec (amountType dp) c n Hc ltac:(unfold funds in *; word_lia)) as Ha.
  rewrite (proj2 (Z.leb_le 0 _)), (proj2 (Z.leb_le _ INT64_MAX)) in Ha by lia. cbn [andb] in Ha. by rewrite Ha.
Qed.

Lemma fees_ret (c : BalanceEntry) bf sf s : inRange c -> 0 <= bf -> 0 <= sf -> funds c + (bf + sf) <= INT64_MAX ->
  exists c1, CO.assertAddBalance dp bf c s = Ret c1 s /\
    CO.assertAddBalance dp sf c1 s = Ret (BF.setAmount c (amount c + bf + sf)) s.
Proof.
  intros Hc H1 H2 H3. exists (BF.setAmount c (amount c + bf)). split; [apply assertAdd_ret; [done|done|lia]|].
  destruct Hc as (? & ? & ?). unfold funds in *. rewrite assertAdd_ret; [done| |done|]; unfold inRange, funds; cbn; lia.
Qed.

(** ** The result *)

Definition sameOrder tk tk' : Prop := isBuy (offerA tk') = isBuy (offerA tk) /\ price (offerA tk') = price (offerA tk) /\
  base (offerA tk') = base (offerA tk) /\ quote (offerA tk') = quote (offerA tk) /\ takerCode tk' = takerCode tk.

(** Nothing was traded, so the commission balance has not moved. *)
Definition commissionStays s tk tk' s' : Prop := mOfferTrail tk = [] /\ mCommissionBalance tk' = mCommissionBalance tk /\
  let k := balanceKey (balanceID (data (mCommissionBalance tk))) in rowsFind (sRows s') k = rowsFind (sRows s) k.

Record crossed L s tk B (r : CrossOfferResult) tk' s' : Prop := {
  cr_ready : ready L s';
  cr_inv : takerInv s' tk';
  cr_total : sameTotals (bookOf s tk) (bookOf s' tk');
  cr_others : forall i w, offerKey i w <> offerKey (offerID (data B)) (ownerID (data B)) ->
    rowsFind (sRows s') (offerKey i w) = rowsFind (sRows s) (offerKey i w);
  cr_pairs : forall x y, rowsFind (sRows s') (pairKey x y) = rowsFind (sRows s) (pairKey x y);
  cr_result : r = eOfferTaken /\ rowsFind (sRows s') (offerKey (offerID (data B)) (ownerID (data B))) = None \/ r = eOfferPartial;
  cr_order : sameOrder tk tk';
  cr_commission : mOfferTrail tk' = [] -> commissionStays s tk tk' s';
}.

Record crossable s tk B : Prop := {
  cx_offer : hasOffer (sRows s) B;
  cx_owner : ownerID (data B) <> source;
  cx_side : isBuy (data B) = negb (isBuy (offerA tk));
  cx_base : base (data B) = base (offerA tk);
  cx_quote : quote (data B) = quote (offerA tk);
  cx_price : if isBuy (data B) then price (offerA tk) <= price (data B) else price (data B) <= price (offerA tk);
}.

Lemma takerInv_eq s s' tk : sRows s' = sRows s -> takerInv s tk -> takerInv s' tk.
Proof. intros E Hi. apply (takerInv_rows s); [done|..]; unfold bookOf; rewrite E; try apply Hi. apply Forall_forall, Hi. Qed.

Lemma bookOf_eq s s' tk : sRows s' = sRows s -> bookOf s' tk = bookOf s tk.
Proof. unfold bookOf. by intros ->. Qed.

Record otherSide s tk B b q : Prop := {
  os_party : party (bookOf s tk) (data B) b q;
  os_baseID : balanceID (data b) ∉ memoryIds tk;
  os_quoteID : balanceID (data q) ∉ memoryIds tk;
  os_base : hasBalance (sRows s) b;
  os_quote : hasBalance (sRows s) q;
}.

Lemma otherSide_ex s tk B : takerInv s tk -> crossable s tk B -> exists b q, otherSide s tk B b q.
Proof.
  intros Hi Hc. pose proof (proj2 (book_hasOffer s tk B) (cx_offer _ _ _ Hc)) as Ho.
  destruct (offer_party commissionID _ _ B (ti_book _ _ _ _ Hi) (fun id => takerLock_nonneg _ _ s tk id Hi) Ho) as (b & q & Hp & Wb & Wq).
  pose proof (oo_owner _ _ _ (bi_offer _ _ _ (ti_book _ _ _ _ Hi) B Ho)) as Hw. pose proof (cx_owner _ _ _ Hc) as Hs.
  destruct (other_balance commissionID source s tk b Hi (pa_base _ _ _ _ Hp)) as [H1 H2]; [congruence|congruence|].
  destruct (other_balance commissionID source s tk q Hi (pa_quote _ _ _ _ Hp)) as [H3 H4]; [congruence|congruence|].
  exists b, q. by split.
Qed.

Lemma memory_notin tk f : balanceID (data f) ∉ memoryIds tk -> balanceKey (balanceID (data f)) ∉ map getLedgerKey (memory tk).
Proof.
  intros Hn. rewrite memory_keys. intros Hin. apply list_elem_of_In, in_map_iff in Hin as (id & E & Hin).
  apply balanceKey_inj in E as ->. apply Hn. by apply list_elem_of_In.
Qed.

Lemma offerKey_memory i w tk : offerKey i w ∉ map getLedgerKey (memory tk).
Proof.
  rewrite memory_keys. intros Hin. apply list_elem_of_In, in_map_iff in Hin as (id & E & _). by apply balanceKey_offer in E.
Qed.

(** A row of a frame in memory survives writes elsewhere. *)
Lemma memory_stays s tk k v (V : Key -> option Entry) : takerInv s tk -> k ∉ map getLedgerKey (memory tk) ->
  (forall e, e ∈ memory tk -> is_Some (V (getLedgerKey e))) -> forall e, e ∈ memory tk -> is_Some (update k v V (getLedgerKey e)).
Proof.
  intros Hi Hk HV e He. unfold update. rewrite eqvb_neq; [by apply HV|]. intros ->. apply Hk.
  by apply list_elem_of_In, in_map, list_elem_of_In.
Qed.

(** ** An offer that is cancelled *)

Section Cancel.
Context (s s' : St) (tk : Taker) (B : Frame OfferEntry) (b q : Frame BalanceEntry).
Context (Hi : takerInv s tk) (HB : hasOffer (sRows s) B) (Ho : otherSide s tk B b q) (Hd' : distinctRows (sRows s')).
Let fb := stamp (withData b (releasedBase (data B) (data b))).
Let slot : option (Z * PublicKey * option (Frame OfferEntry)) := Some (offerID (data B), ownerID (data B), None).
Context (Hrows : forall k, rowsFind (sRows s') k = update (balanceKey (balanceID (data b))) (Some (toEntry fb))
  (update (offerKey (offerID (data B)) (ownerID (data B))) None (rowsFind (sRows s))) k).

Lemma cancel_same : sameBalance b fb.
Proof. destruct (released_fields (data B) (data b) (data b)) as (? & ? & ? & _). by split_and!. Qed.

Lemma cancel_stepped : stepped (bookOf s tk) slot [(b, fb)] (bookOf s' tk).
Proof.
  split; [by apply overlay_distinct|]. intros k. pose proof (memory_notin tk b (os_baseID _ _ _ _ _ Ho)) as Hn.
  rewrite (rowsFind_overlay (news [(b, fb)])). cbn [news map List.find snd]. rewrite key_balance, (proj1 cancel_same).
  rewrite rowsFind_inSlot by done. cbn [slot].
  destruct (eqvb (balanceKey (balanceID (data b))) k) eqn:E1.
  { apply eqvb_eq in E1 as <-. unfold bookOf. rewrite rowsFind_overlay_out, Hrows by done. unfold update. by rewrite eqvb_refl. }
  destruct (eqvb (offerKey (offerID (data B)) (ownerID (data B))) k) eqn:E2.
  { apply eqvb_eq in E2 as <-. rewrite book_offer, Hrows. unfold update. by rewrite E1, eqvb_refl. }
  unfold bookOf. rewrite !rowsFind_overlay, Hrows. unfold update. by rewrite E1, E2.
Qed.

Lemma cancel_lock id : slotLock slot (bookOf s tk) id = - offerLock id (data B).
Proof.
  unfold slotLock, slot. rewrite book_offer, (HB : rowsFind _ _ = _). cbn [fmap option_fmap option_map ofRow]. rewrite lockOn_offer. lia.
Qed.

Lemma cancel_inRange : inRange (data fb).
Proof.
  clear Hrows Hd'.
  pose proof (os_party _ _ _ _ _ Ho) as Hp. pose proof (bookInv_inRange _ _ _ _ (ti_book _ _ _ _ Hi) (pa_base _ _ _ _ Hp)) as (? & ? & ?).
  pose proof (pa_lock _ _ _ _ Hp) as Hl. pose proof (tr_base _ (pa_tradable _ _ _ _ Hp)).
  unfold inRange, funds, fb, releasedBase, lockOf in *. destruct (isBuy (data B)); cbn; lia.
Qed.

Lemma cancel_stepOk : stepOk commissionID (bookOf s tk) slot [(b, fb)] (fun id => offerLock id (offerA tk)) (fun id => offerLock id (offerA tk)).
Proof.
  pose proof (os_party _ _ _ _ _ Ho) as Hp. pose proof cancel_inRange as (? & ? & _).
  split; [done|apply NoDup_singleton| | |done].
  - apply Forall_singleton. split; cbn [fst snd]; [apply Hp|apply cancel_same|done|done|]. cbv zeta. rewrite cancel_lock, (pa_baseID _ _ _ _ Hp).
    pose proof (releasedBase_lock (data B) (data b) (pa_distinct _ _ _ _ Hp)) as E. cbn. lia.
  - intros id _. rewrite cancel_lock. pose proof (lockOf_nonneg _ (pa_tradable _ _ _ _ Hp)). unfold offerLock. repeat case_bool_decide; lia.
Qed.

Lemma cancel_gain a : gain a [(b, fb)] = 0.
Proof.
  unfold gain. rewrite sumOf_cons, sumOf_nil. cbn [fst snd]. rewrite (funds_diff a b fb 0 cancel_same).
  - case_bool_decide; lia.
  - cbn. destruct (released_funds (data B) (data b) (data b)) as [-> _]. lia.
Qed.

Lemma cancel_crossed L : ready L s' -> crossed L s tk B eOfferTaken tk s'.
Proof.
  intros Hr. pose proof (ti_book _ _ _ _ Hi) as Hbk. split; [done| | | | | |done|].
  - apply (takerInv_rows s); [done| |done|].
    + apply (bookInv_step commissionID _ _ _ _ _ _ Hbk cancel_stepOk cancel_stepped). intros a. by rewrite cancel_gain.
    + intros e He. rewrite Hrows. revert e He. apply (memory_stays s); [done|apply memory_notin, Ho|].
      apply (memory_stays s); [done|apply offerKey_memory|]. apply Forall_forall, Hi.
  - apply (stepped_same commissionID _ _ _ _ _ _ Hbk cancel_stepOk cancel_stepped cancel_gain).
  - intros i w Hne. rewrite Hrows. unfold update. rewrite !eqvb_neq; [done|congruence|apply balanceKey_offer].
  - intros x y. rewrite Hrows. unfold update. rewrite !eqvb_neq; [done|apply offerKey_pair|apply balanceKey_pair].
  - left. split; [done|]. rewrite Hrows. unfold update. rewrite eqvb_neq by apply balanceKey_offer. by rewrite eqvb_refl.
  - intros Ht. split_and!; [done|done|]. cbv zeta. rewrite Hrows. unfold update. rewrite !eqvb_neq; [done| |].
    + intros E. symmetry in E. by apply balanceKey_offer in E.
    + intros E%balanceKey_inj. apply (os_baseID _ _ _ _ _ Ho). rewrite E. unfold memoryIds. set_solver.
Qed.

End Cancel.

(** ** An offer that is matched *)

Lemma settle_crossed L s s' tk B b q m taken trail paid : settling commissionID source s tk B b q m -> ready L s' ->
  settledRows seq flag s B b q m taken s' -> taken = negb (needsMore (matched (data B) m)) -> trail <> [] ->
  crossed L s tk B (if taken then eOfferTaken else eOfferPartial) (takerAfter tk m trail paid) s'.
Proof.
  intros Hse Hr Hrows Hmore Htr. assert (distinctRows (sRows s')) as Hd' by apply Hr.
  destruct (settle_inv seq flag commissionID source s s' tk B b q m taken trail paid Hse Hd' Hrows Hmore) as [Hinv Htot].
  split; [done|done|done| | | | |].
  - intros i w Hne. rewrite Hrows. unfold update. rewrite !eqvb_neq; [done|congruence|apply balanceKey_offer|apply balanceKey_offer].
  - intros x y. rewrite Hrows. unfold update. rewrite !eqvb_neq; [done|apply offerKey_pair|apply balanceKey_pair|apply balanceKey_pair].
  - destruct taken; [left|by right]. split; [done|]. rewrite Hrows. unfold update.
    rewrite !eqvb_neq by apply balanceKey_offer. by rewrite eqvb_refl.
  - destruct (matched_ids (offerA tk) m) as (_ & _ & _ & _ & E1 & E2). unfold sameOrder, takerAfter. cbn [CO.setTaker offerA takerCode].
    rewrite isBuy_matched. split_and!; try done. unfold matched. by destruct (isBuy (offerA tk)).
  - done.
Qed.

(** Storing the balances of the other side, after its offer. *)
Lemma storeBalances_ret {A} L s0 s1 k v b q b' q' (a : A) : ready L s0 -> wrote L s0 k v s1 ->
  k <> balanceKey (balanceID (data b)) -> k <> balanceKey (balanceID (data q)) -> balanceID (data b) <> balanceID (data q) ->
  hasBalance (sRows s0) b -> hasBalance (sRows s0) q -> sameBalance b b' -> sameBalance q q' -> inRange (data b') -> inRange (data q') ->
  isAssetCodeValid (balAsset (data b)) = true -> isAssetCodeValid (balAsset (data q)) = true ->
  exists s', (DS.storeChangeEntry b';; DS.storeChangeEntry q';; mret a) s1 = Ret a s' /\ ready L s' /\
    forall k', rowsFind (sRows s') k' = update (balanceKey (balanceID (data q))) (Some (toEntry (stamp q')))
      (update (balanceKey (balanceID (data b))) (Some (toEntry (stamp b'))) (update k v (rowsFind (sRows s0)))) k'.
Proof.
  intros Hr Hw N1 N2 N3 Hb Hq (Ib & _ & Ab) (Iq & _ & Aq) Rb Rq Vb Vq.
  destruct (changeBalance_ret L s1 b') as (s2 & E2 & W2); [apply Hw|done|by rewrite Ab| |].
  { rewrite Ib, (wrote_other L s0 k v s1) by done. rewrite (Hb : rowsFind _ _ = _). by eexists. }
  destruct (changeBalance_ret L s2 q') as (s3 & E3 & W3); [apply W2|done|by rewrite Aq| |].
  { rewrite Iq, (wrote_other L s1 _ _ s2 _ W2), (wrote_other L s0 k v s1), (Hq : rowsFind _ _ = _); [by eexists|done|done|].
    rewrite Ib. intros E. by apply balanceKey_inj in E. }
  exists s3. rewrite (bind_ret _ _ _ _ _ E2), (bind_ret _ _ _ _ _ E3). split; [done|]. split; [apply W3|].
  intros k'. rewrite (proj2 W3), Iq. unfold update. rewrite (proj2 W2), Ib. unfold update. by rewrite (proj2 Hw).
Qed.

Lemma crossed_eq L s s0 tk B r tk' s' : sRows s0 = sRows s -> crossed L s0 tk B r tk' s' -> crossed L s tk B r tk' s'.
Proof.
  intros E [? ? ? ? ? ? ? Hc]. split; try done; [by rewrite <- (bookOf_eq s s0 tk E)|by rewrite <- E|by rewrite <- E|].
  unfold commissionStays in *. by rewrite <- E.
Qed.

(** The match of crossing offers trades something, and fits both. *)
Lemma cross_fits s tk B b q : takerInv s tk -> crossable s tk B -> otherSide s tk B b q -> needsMore (offerA tk) = true ->
  exists m, (forall s0 : St, OE.exchange (offerA tk) (data B) s0 =
      if sellerFee m >=? quoteDelta m then Throw (RuntimeError "Fee to be charged can't be >= quote delta") s0 else Ret m s0) /\
    type m = NORMAL /\ 0 < baseDelta m /\ 0 < quoteDelta m /\
    (sellerFee m < quoteDelta m -> settling commissionID source s tk B b q m /\
     funds (data (mCommissionBalance tk)) + (buyerFee m + sellerFee m) <= INT64_MAX).
Proof.
  intros Hi Hc Ho Hn. pose proof (ti_party _ _ _ _ Hi) as HpA. pose proof (os_party _ _ _ _ _ Ho) as HpB.
  pose proof (ti_book _ _ _ _ Hi) as Hbk. pose proof (proj2 (book_hasOffer s tk B) (cx_offer _ _ _ Hc)) as HoB.
  pose proof (oo_more _ _ _ (bi_offer _ _ _ Hbk B HoB)) as HnB. pose proof (cx_side _ _ _ Hc) as Hside. pose proof (cx_price _ _ _ Hc) as Hpr.
  assert (forall o, isBuy o = true -> needsMore o = true -> spendable o <> None) as Hsp.
  { intros o Hb Hno. unfold needsMore in Hno. rewrite Hb in Hno. by destruct (spendable o). }
  assert (balanceID (data b) <> balanceID (data (baseBalanceA tk)) /\ balanceID (data q) <> balanceID (data (quoteBalanceA tk)) /\
    balanceID (data (mCommissionBalance tk)) <> balanceID (data (quoteBalanceA tk)) /\
    balanceID (data (mCommissionBalance tk)) <> balanceID (data q)) as (N1 & N2 & N3 & N4).
  { pose proof (os_baseID _ _ _ _ _ Ho) as I1. pose proof (os_quoteID _ _ _ _ _ Ho) as I2.
    pose proof (memoryIds_distinct _ _ s tk Hi) as I3. unfold memoryIds in *.
    rewrite !NoDup_cons, !not_elem_of_cons in I3. rewrite !not_elem_of_cons in I1, I2. split_and!; naive_solver. }
  rewrite (pa_baseID _ _ _ _ HpA), (pa_baseID _ _ _ _ HpB) in N1. rewrite (pa_quoteID _ _ _ _ HpA), (pa_quoteID _ _ _ _ HpB) in N2.
  rewrite (pa_quoteID _ _ _ _ HpA) in N3. rewrite (pa_quoteID _ _ _ _ HpB) in N4.
  assert (exists m, matches (buySide (offerA tk) (data B)) (sellSide (offerA tk) (data B)) m /\ forall s0 : St, OE.exchange (offerA tk) (data B) s0 =
      if sellerFee m >=? quoteDelta m then Throw (RuntimeError "Fee to be charged can't be >= quote delta") s0 else Ret m s0) as (m & Hm & He).
  { destruct (exchange_spec (offerA tk) (data B) s (pa_tradable _ _ _ _ HpA) (pa_tradable _ _ _ _ HpB)) as (m & Hm & He).
    { unfold buySide. destruct (isBuy (offerA tk)) eqn:E; apply Hsp; by rewrite ?Hside, ?E. }
    exists m. split; [done|]. intros s0. destruct (exchange_spec (offerA tk) (data B) s0 (pa_tradable _ _ _ _ HpA) (pa_tradable _ _ _ _ HpB)) as (m' & Hm' & He').
    { unfold buySide. destruct (isBuy (offerA tk)) eqn:E; apply Hsp; by rewrite ?Hside, ?E. }
    by rewrite He', (matches_unique _ _ _ _ Hm Hm'). }
  exists m. split; [done|]. split; [apply Hm|].
  assert (0 < baseDelta m /\ 0 < quoteDelta m) as [Hbd Hqd].
  { unfold buySide, sellSide in Hm. destruct (isBuy (offerA tk)) eqn:E; rewrite Hside in Hpr; cbn [negb] in Hpr;
      (eapply matches_positive; [| | | | | |exact Hm]); done || apply HpA || apply HpB || (by rewrite Hside). }
  split; [done|]. split; [done|]. intros Hsf.
  pose proof (ti_commission _ _ _ _ Hi) as HcB. pose proof (ti_commissionAsset _ _ _ _ Hi) as HcA.
  assert (fits (offerA tk) m (data (baseBalanceA tk)) (data (quoteBalanceA tk)) /\ fits (data B) m (data b) (data q) /\
    0 <= buyerFee m /\ 0 <= sellerFee m /\ funds (data (mCommissionBalance tk)) + (buyerFee m + sellerFee m) <= INT64_MAX) as (FA & FB & F1 & F2 & F3).
  { unfold buySide, sellSide in Hm. destruct (isBuy (offerA tk)) eqn:E.
    - destruct (fits_both commissionID _ _ _ _ _ _ _ _ m Hbk HpA HpB E Hside) as [? ?]; try done; try (symmetry; apply Hc); try congruence.
      destruct (fees_fit commissionID _ _ _ _ _ (data B) m _ Hbk HpA (pa_tradable _ _ _ _ HpB) E Hm HcB) as (? & ? & ?); [done|done|by split_and!].
    - destruct (fits_both commissionID _ _ _ _ _ _ _ _ m Hbk HpB HpA Hside E) as [? ?]; try done; try apply Hc; try congruence.
      destruct (fees_fit commissionID _ _ _ _ _ (offerA tk) m _ Hbk HpB (pa_tradable _ _ _ _ HpA) Hside Hm HcB) as (? & ? & ?);
        [by rewrite (cx_quote _ _ _ Hc)|done|by split_and!]. }
  split; [|done]. split; try done; try apply Ho; apply Hc.
Qed.

(** The part of [crossOffer] after the trade. *)
Lemma finish_ret L s tk B b q m trail paid : ready L s -> settling commissionID source s tk B b q m ->
  hasBalance (sRows s) b -> hasBalance (sRows s) q -> trail <> [] ->
  let oB := matched (data B) m in
  let fB := withData B oB in let fb := withData b (baseAfter (data B) m (data b)) in let fq := withData q (quoteAfter (data B) m (data q)) in
  let tk' := takerAfter tk m trail paid in
  exists r s', (if negb (needsMore oB) then
      '(bb, qb) ← CO.markOfferAsTaken dp fB fb fq; DS.storeChangeEntry bb;; DS.storeChangeEntry qb;; mret (eOfferTaken, tk')
    else DS.storeChangeEntry fB;; DS.storeChangeEntry fb;; DS.storeChangeEntry fq;; mret (eOfferPartial, tk')) s = Ret (r, tk') s' /\
    crossed L s tk B r tk' s'.
Proof.
  intros Hr Hse Hb Hq Htr oB fB fb fq tk'. set (taken := negb (needsMore oB)).
  pose proof (se_party _ _ _ _ _ _ _ _ Hse) as Hp. pose proof (se_inv _ _ _ _ _ _ _ _ Hse) as Hi.
  pose proof (se_offer _ _ _ _ _ _ _ _ Hse) as HB. destruct (matched_ids (data B) m) as (_ & _ & Eo & Ew & _).
  assert (getLedgerKey (toEntry fB) = offerKey (offerID (data B)) (ownerID (data B))) as Hk.
  { rewrite key_offer. unfold fB. cbn. fold oB in Eo, Ew. by rewrite Eo, Ew. }
  destruct (bi_balance _ _ _ (ti_book _ _ _ _ Hi) _ (pa_base _ _ _ _ Hp)) as (_ & _ & Vb & _).
  destruct (bi_balance _ _ _ (ti_book _ _ _ _ Hi) _ (pa_quote _ _ _ _ Hp)) as (_ & _ & Vq & _).
  pose proof (pa_tradable _ _ _ _ Hp) as T. pose proof (se_fitsB _ _ _ _ _ _ _ _ Hse) as FB.
  pose proof (matched_tradable _ _ _ _ T FB) as T'. pose proof (after_nonneg _ _ _ _ T FB) as (Rb & Rq & Hl).
  destruct (settle_nonneg commissionID source s tk B b q m taken trail paid Hse) as (_ & _ & Rb' & Rq').
  assert (balanceID (data b) <> balanceID (data q)) as Nbq by (rewrite (pa_baseID _ _ _ _ Hp), (pa_quoteID _ _ _ _ Hp); apply Hp).
  assert (forall s1 v, wrote L s (offerKey (offerID (data B)) (ownerID (data B))) v s1 -> v = (toEntry <$> offerB seq flag B m taken) ->
    exists s', (DS.storeChangeEntry (withData b (baseB B b m taken));; DS.storeChangeEntry (withData q (quoteB B q m taken));;
      mret (if taken then eOfferTaken else eOfferPartial, tk')) s1 = Ret (if taken then eOfferTaken else eOfferPartial, tk') s' /\
      crossed L s tk B (if taken then eOfferTaken else eOfferPartial) tk' s') as Hstore.
  { intros s1 v Hw ->. destruct (storeBalances_ret L s s1 _ _ b q (withData b (baseB B b m taken)) (withData q (quoteB B q m taken))
      (if taken then eOfferTaken else eOfferPartial, tk') Hr Hw) as (s' & E & Hr' & Hrows); try done.
    - intros E. symmetry in E. by apply balanceKey_offer in E.
    - intros E. symmetry in E. by apply balanceKey_offer in E.
    - apply (baseB_same seq flag).
    - apply (quoteB_same seq flag).
    - exists s'. split; [done|]. by apply (settle_crossed L s s' tk B b q m taken). }
  destruct (needsMore oB) eqn:En; cbn [negb] in *; subst taken.
  - exists eOfferPartial. destruct (change_ret seq flag Hseq L s fB touch_offer Hr) as (s1 & E1 & W1).
    + rewrite valid_offer. apply (oo_valid commissionID (bookOf s tk)). apply (settle_offer commissionID source s tk B b q m false Hse); [|done]. fold oB. by rewrite En.
    + rewrite Hk, (HB : rowsFind _ _ = _). by eexists.
    + rewrite Hk in W1. destruct (Hstore s1 _ W1 eq_refl) as (s' & E & Hc). exists s'. by rewrite (bind_ret _ _ _ _ _ E1).
  - exists eOfferTaken. destruct (delete_ret seq flag L s fB ltac:(by rewrite key_offer, deletes_offer) Hr) as (s1 & E1 & W1).
    + rewrite Hk, (HB : rowsFind _ _ = _). by eexists.
    + rewrite Hk in W1. destruct (Hstore s1 _ W1 eq_refl) as (s' & E & Hc). exists s'. split; [|done]. rewrite <- E.
      pose proof (unlockTaken_spec (amountType dp) oB (baseAfter (data B) m (data b)) (quoteAfter (data B) m (data q)) s1 Rb Rq
        (proj1 (tr_base _ T')) (proj1 (tr_quote _ T')) (proj1 (tr_fee _ T'))) as Hu.
      unfold CO.markOfferAsTaken. unfold mbind at 1, M_bind at 1. rewrite (bind_ret _ _ _ _ _ E1).
      rewrite (bind_ret _ _ _ _ _ (Hu ltac:(unfold oB; rewrite isBuy_matched; by destruct (isBuy (data B))))). done.
Qed.

Lemma match_wp L s tk B b q : ready L s -> takerInv s tk -> crossable s tk B -> otherSide s tk B b q -> needsMore (offerA tk) = true ->
  forall rest, rest = (fun (m : ExchangeResult) =>
    match type m with
    | RESULT_OVERFLOW => mret (eOfferCantConvert, tk)
    | NORMAL =>
        if (baseDelta m =? 0) || (quoteDelta m =? 0)
        then throw (RuntimeError "After match baseDelta or quoteDelta is zero") else
        '(oA, bA, qA) ← OE.offerMatched (amountType dp) (offerA tk) (data (baseBalanceA tk)) (data (quoteBalanceA tk)) m;
        '(oB, bB, qB) ← OE.offerMatched (amountType dp) (data B) (data b) (data q) m;
        cb ← CO.assertAddBalance dp (buyerFee m) (data (mCommissionBalance tk));
        cb ← CO.assertAddBalance dp (sellerFee m) cb;
        let tk' := CO.setTaker tk oA (withData (baseBalanceA tk) bA) (withData (quoteBalanceA tk) qA)
                  (withData (mCommissionBalance tk) cb) (mOfferTrail tk ++ [OE.createOfferClaim oB m])
                  (i64 (mFeePaidByA tk + (if isBuy oA then buyerFee m else sellerFee m))) in
        more ← OE.offerNeedsMore oB;
        if negb more then
          '(bb, qb) ← CO.markOfferAsTaken dp (withData B oB) (withData b bB) (withData q qB);
          DS.storeChangeEntry bb;; DS.storeChangeEntry qb;; mret (eOfferTaken, tk')
        else DS.storeChangeEntry (withData B oB);; DS.storeChangeEntry (withData b bB);; DS.storeChangeEntry (withData q qB);;
          mret (eOfferPartial, tk')
    end : M St (CrossOfferResult * Taker)) ->
  wp (OE.exchange (offerA tk) (data B) ≫= rest) (fun r s' => crossed L s tk B r.1 r.2 s') (fun x _ => thrown x) s.
Proof.
  intros Hr Hi Hc Ho Hn rest ->. destruct (cross_fits s tk B b q Hi Hc Ho Hn) as (m & He & Hty & Hbd & Hqd & Hset).
  apply wp_bind. unfold wp at 1. rewrite He. rewrite Z.geb_leb. destruct (Z.leb_spec (quoteDelta m) (sellerFee m)) as [Hsf|Hsf]; [by apply thrown_error|].
  destruct (Hset Hsf) as [Hse Hroom]. rewrite Hty.
  rewrite (proj2 (Z.eqb_neq (baseDelta m) 0)), (proj2 (Z.eqb_neq (quoteDelta m) 0)) by lia. cbn [orb].
  pose proof (ti_party _ _ _ _ Hi) as HpA. pose proof (os_party _ _ _ _ _ Ho) as HpB.
  unfold wp. rewrite (bind_ret _ _ _ _ _ (offerMatched_spec (amountType dp) _ _ _ _ s (pa_tradable _ _ _ _ HpA) (se_fitsA _ _ _ _ _ _ _ _ Hse))).
  rewrite (bind_ret _ _ _ _ _ (offerMatched_spec (amountType dp) _ _ _ _ s (pa_tradable _ _ _ _ HpB) (se_fitsB _ _ _ _ _ _ _ _ Hse))).
  destruct (fees_ret (data (mCommissionBalance tk)) (buyerFee m) (sellerFee m) s) as (c1 & E1 & E2).
  { by eapply bookInv_inRange; [apply Hi|apply Hi]. }
  { apply Hse. } { apply Hse. } { done. }
  rewrite (bind_ret _ _ _ _ _ E1), (bind_ret _ _ _ _ _ E2). cbv zeta.
  pose proof (matched_tradable _ _ _ _ (pa_tradable _ _ _ _ HpB) (se_fitsB _ _ _ _ _ _ _ _ Hse)) as T'.
  rewrite (bind_ret _ _ _ _ _ (needsMore_spec _ s T')).
  destruct (finish_ret L s tk B b q m (mOfferTrail tk ++ [OE.createOfferClaim (matched (data B) m) m])
    (i64 (mFeePaidByA tk + (if isBuy (matched (offerA tk) m) then buyerFee m else sellerFee m))) Hr Hse (os_base _ _ _ _ _ Ho) (os_quote _ _ _ _ _ Ho)
    ltac:(by destruct (mOfferTrail tk)))
    as (r & s' & E & Hcr).
  unfold takerAfter in E. cbv zeta in E. rewrite E. exact Hcr.
Qed.

(** Cancelling an offer below the price the pair allows. *)
Lemma cancel_ret L s tk B b q : ready L s -> takerInv s tk -> crossable s tk B -> otherSide s tk B b q ->
  exists s', ('(bb, qb) ← CO.markOfferAsTaken dp B b q; DS.storeChangeEntry bb;; DS.storeChangeEntry bb;; mret (eOfferTaken, tk)) s
    = Ret (eOfferTaken, tk) s' /\ crossed L s tk B eOfferTaken tk s' /\
    forall k, rowsFind (sRows s') k = update (balanceKey (balanceID (data b))) (Some (toEntry (stamp (withData b (releasedBase (data B) (data b))))))
      (update (offerKey (offerID (data B)) (ownerID (data B))) None (rowsFind (sRows s))) k.
Proof.
  intros Hr Hi Hc Ho. pose proof (os_party _ _ _ _ _ Ho) as Hp. pose proof (pa_tradable _ _ _ _ Hp) as T.
  pose proof (bookInv_inRange _ _ _ _ (ti_book _ _ _ _ Hi) (pa_base _ _ _ _ Hp)) as Rb.
  pose proof (bookInv_inRange _ _ _ _ (ti_book _ _ _ _ Hi) (pa_quote _ _ _ _ Hp)) as Rq.
  destruct (bi_balance _ _ _ (ti_book _ _ _ _ Hi) _ (pa_base _ _ _ _ Hp)) as (_ & _ & Vb & _).
  pose proof (cancel_inRange s tk B b q Hi Ho) as Rf. cbn in Rf. destruct (released_fields (data B) (data b) (data b)) as (Fi & _ & Fa & _).
  set (fb := withData b (releasedBase (data B) (data b))).
  destruct (delete_ret seq flag L s B ltac:(by rewrite key_offer, deletes_offer) Hr) as (s1 & E1 & W1); [rewrite key_offer, (cx_offer _ _ _ Hc : rowsFind _ _ = _); by eexists|].
  rewrite key_offer in W1.
  pose proof (unlockTaken_spec (amountType dp) (data B) (data b) (data q) s1 Rb Rq (proj1 (tr_base _ T)) (proj1 (tr_quote _ T)) (proj1 (tr_fee _ T))) as Hu.
  destruct (changeBalance_ret L s1 fb) as (s2 & E2 & W2); [apply W1|exact Rf|cbn; by rewrite Fa| |].
  { cbn. rewrite Fi, (wrote_other L s _ _ s1 _ W1), (os_base _ _ _ _ _ Ho : rowsFind _ _ = _); [by eexists|].
    intros E. symmetry in E. by apply balanceKey_offer in E. }
  destruct (changeBalance_ret L s2 fb) as (s3 & E3 & W3); [apply W2|exact Rf|cbn; by rewrite Fa| |].
  { rewrite (wrote_same L s1 _ _ s2 W2). by eexists. }
  exists s3. unfold CO.markOfferAsTaken. unfold mbind at 1, M_bind at 1. rewrite (bind_ret _ _ _ _ _ E1).
  rewrite (bind_ret _ _ _ _ _ (Hu ltac:(pose proof (pa_lock _ _ _ _ Hp); by destruct (isBuy (data B))))). cbn [mret M_ret].
  fold fb. rewrite (bind_ret _ _ _ _ _ E2), (bind_ret _ _ _ _ _ E3).
  assert (forall k, rowsFind (sRows s3) k = update (balanceKey (balanceID (data b))) (Some (toEntry (stamp fb)))
    (update (offerKey (offerID (data B)) (ownerID (data B))) None (rowsFind (sRows s))) k) as Hrows.
  { intros k. rewrite (proj2 W3). unfold update. rewrite (proj2 W2). unfold update. rewrite (proj2 W1). cbn. rewrite Fi. unfold update.
    by destruct (eqvb _ k). }
  split_and!; [done| |done]. apply (cancel_crossed s s3 tk B b q); [done|apply Hc|done|apply W3|exact Hrows|apply W3].
Qed.

(** What [crossOffer] loads before it looks at the price. *)
Lemma crossing_loads L s tk B : ready L s -> takerInv s tk -> crossable s tk B ->
  exists b q s1 s2 s3, DS.record B s = Ret tt s1 /\ CO.loadBalance (baseBalance (data B)) s1 = Ret b s2 /\
    CO.loadBalance (quoteBalance (data B)) s2 = Ret q s3 /\ ready L s3 /\ sRows s3 = sRows s /\
    takerInv s3 tk /\ crossable s3 tk B /\ otherSide s3 tk B b q.
Proof.
  intros Hr Hi Hc. destruct (otherSide_ex s tk B Hi Hc) as (b & q & Ho). pose proof (os_party _ _ _ _ _ Ho) as Hp.
  pose proof (isValid_of _ _ b (ti_book _ _ _ _ Hi) (pa_base _ _ _ _ Hp)) as Vb.
  pose proof (isValid_of _ _ q (ti_book _ _ _ _ Hi) (pa_quote _ _ _ _ Hp)) as Vq.
  destruct (record_ret seq flag L s B Hr) as (s1 & E1 & R1 & W1).
  destruct (loadBalance_book L s1 tk b R1 (takerInv_eq s s1 tk W1 Hi)) as (s2 & E2 & R2 & W2); [rewrite W1; apply Ho|done|].
  assert (sRows s2 = sRows s) as W2' by congruence.
  destruct (loadBalance_book L s2 tk q R2 (takerInv_eq s s2 tk W2' Hi)) as (s3 & E3 & R3 & W3); [rewrite W2'; apply Ho|done|].
  assert (sRows s3 = sRows s) as W3' by congruence.
  rewrite (pa_baseID _ _ _ _ Hp) in E2. rewrite (pa_quoteID _ _ _ _ Hp) in E3.
  exists b, q, s1, s2, s3. split_and!; [done|done|done|done|done|by apply (takerInv_eq s)| |].
  - destruct Hc; split; try done; by rewrite W3'.
  - destruct Ho; split; rewrite ?(bookOf_eq s s3 tk W3'), ?W3'; done.
Qed.

Lemma crossOffer_wp L s tk B p : ready L s -> takerInv s tk -> crossable s tk B -> needsMore (offerA tk) = true -> pairOk p ->
  wp (CO.crossOffer dp p tk B) (fun r s' => crossed L s tk B r.1 r.2 s') (fun x _ => thrown x) s.
Proof.
  intros Hr Hi Hc Hn Hpo. destruct (crossing_loads L s tk B Hr Hi Hc) as (b & q & s1 & s2 & s3 & E1 & E2 & E3 & R3 & W3' & Hi3 & Hc3 & Ho3).
  unfold wp. unfold CO.crossOffer. rewrite (bind_ret _ _ _ _ _ E1), (bind_ret _ _ _ _ _ E2), (bind_ret _ _ _ _ _ E3).
  destruct (restriction_cases p (price (data B)) s3 Hpo) as [[v E4]|[msg E4]].
  2:{ unfold mbind at 1, M_bind at 1. rewrite E4. by apply thrown_error. }
  rewrite (bind_ret _ _ _ _ _ E4). destruct v; cbn [negb].
  - pose proof (match_wp L s3 tk B b q R3 Hi3 Hc3 Ho3 Hn _ eq_refl) as Hm. unfold wp in Hm.
    match goal with |- match ?X with _ => _ end => match type of Hm with match ?Y with _ => _ end => change Y with X in Hm; destruct X end end.
    + by eapply crossed_eq.
    + done.
  - destruct (cancel_ret L s3 tk B b q R3 Hi3 Hc3 Ho3) as (s' & E & Hcr & _). rewrite E. by eapply crossed_eq.
Qed.

(** ** An offer below the price its pair allows *)

(** The pair restricts the price, and [n] is below the least price allowed. *)
Definition belowAllowed p (n : Z) : Prop :=
  let least := div_round ROUND_UP (physicalPrice p * physicalPriceCorrection p) (100 * ONE) in
  AP.checkPolicy p (PHYSICAL_PRICE_RESTRICTION dp) = true /\ n < least <= INT64_MAX.

Lemma belowAllowed_ret p n s : pairOk p -> belowAllowed p n ->
  CO.isOfferPriceMeetAssetPairRestrictions (Entry := Entry) (Key := Key) dp p n s = Ret false s.
Proof.
  intros (Hv & H1 & H2) (Hpol & Hlt & Hle). unfold AP.isValid in Hv. zify_bool.
  unfold CO.isOfferPriceMeetAssetPairRestrictions, AP.getMinAllowedPrice, AP.getMinPriceInTermsOfPhysical, AP.getPhysicalPriceWithCorrection.
  rewrite Hpol. unfold mbind, M_bind. rewrite bigDivide_ret by (done || lia). cbn [negb mret M_ret]. unfold mret, M_ret.
  by rewrite Z.geb_leb, (proj2 (Z.leb_gt _ _)).
Qed.

(** The locks of the book on every balance are less by what the cancelled
    offer had locked. *)
Lemma cancelled_locks s s' B b : distinctRows (sRows s) -> distinctRows (sRows s') -> hasOffer (sRows s) B -> hasBalance (sRows s) b ->
  (forall k, rowsFind (sRows s') k = update (balanceKey (balanceID (data b))) (Some (toEntry (stamp (withData b (releasedBase (data B) (data b))))))
      (update (offerKey (offerID (data B)) (ownerID (data B))) None (rowsFind (sRows s))) k) ->
  forall id, sumOf (lockOn id) (sRows s') = sumOf (lockOn id) (sRows s) - offerLock id (data B).
Proof.
  unfold hasOffer, hasBalance. intros Hd Hd' Ho Hb Hrows id. set (kb := balanceKey (balanceID (data b))) in *. set (ko := offerKey _ _) in *.
  set (v := toEntry (stamp _)) in *.
  assert (getLedgerKey v = kb) as Hk.
  { unfold v. rewrite key_balance. unfold stamp. destruct flag; cbn; by rewrite (proj1 (released_fields (data B) (data b) (data b))). }
  assert (distinctRows (write ko None (sRows s))) as Hd1 by (by apply write_distinct).
  rewrite (sumOf_perm _ _ (write kb (Some v) (write ko None (sRows s)))).
  2:{ apply rows_perm; [done|by apply write_distinct|]. intros k. rewrite Hrows, rowsFind_write by done. unfold update. by rewrite rowsFind_write. }
  rewrite !sumOf_write by done. rewrite rowsFind_write by done. unfold update. rewrite eqvb_neq by (intros E; symmetry in E; by apply balanceKey_offer in E).
  rewrite Ho, Hb. unfold v. cbn [ofRow]. rewrite !lockOn_balance, lockOn_offer. lia.
Qed.

Lemma crossing_cancels L s tk B p : ready L s -> takerInv s tk -> crossable s tk B -> pairOk p -> belowAllowed p (price (data B)) ->
  exists b q s', CO.crossOffer dp p tk B s = Ret (eOfferTaken, tk) s' /\ crossed L s tk B eOfferTaken tk s' /\
    otherSide s tk B b q /\ hasBalance (sRows s') q /\
    hasBalance (sRows s') (stamp (withData b (releasedBase (data B) (data b)))) /\
    forall id, sumOf (lockOn id) (sRows s') = sumOf (lockOn id) (sRows s) - offerLock id (data B).
Proof.
  intros Hr Hi Hc Hpo Hlow. destruct (crossing_loads L s tk B Hr Hi Hc) as (b & q & s1 & s2 & s3 & E1 & E2 & E3 & R3 & W3' & Hi3 & Hc3 & Ho3).
  destruct (cancel_ret L s3 tk B b q R3 Hi3 Hc3 Ho3) as (s' & E & Hcr & Hrows). exists b, q, s'.
  assert (otherSide s tk B b q) as Ho by (destruct Ho3; split; rewrite <- ?(bookOf_eq s s3 tk W3'), <- ?W3'; done).
  pose proof (pa_distinct _ _ _ _ (os_party _ _ _ _ _ Ho)) as Hne. rewrite <- (pa_baseID _ _ _ _ (os_party _ _ _ _ _ Ho)), <- (pa_quoteID _ _ _ _ (os_party _ _ _ _ _ Ho)) in Hne.
  split_and!; [|by eapply crossed_eq|done| | |].
  - unfold CO.crossOffer. rewrite (bind_ret _ _ _ _ _ E1), (bind_ret _ _ _ _ _ E2), (bind_ret _ _ _ _ _ E3).
    rewrite (bind_ret _ _ _ _ _ (belowAllowed_ret p _ s3 Hpo Hlow)). exact E.
  - unfold hasBalance. rewrite Hrows. unfold update. rewrite !eqvb_neq; [rewrite W3'; apply Ho| |].
    + intros E'. symmetry in E'. by apply balanceKey_offer in E'.
    + by intros E'%balanceKey_inj.
  - unfold hasBalance. rewrite Hrows. unfold update. set (f := stamp _). assert (balanceID (data f) = balanceID (data b)) as ->; [|by rewrite eqvb_refl].
    unfold f, stamp. destruct flag; cbn; by rewrite (proj1 (released_fields (data B) (data b) (data b))).
  - rewrite <- W3'. apply (cancelled_locks s3 s' B b); [apply R3|apply (cr_ready _ _ _ _ _ _ _ Hcr)|apply Hc3|apply Ho3|done].
Qed.

End CrossOffer.

(** * Matching an offer with the book

    The loops of [convertWithOffers]: they end, since every round that goes on
    has removed the offers it loaded from the book, and they keep what a
    crossing keeps. *)

Lemma betterOffer_strictWeak buy : strictWeak (DS.betterOffer buy).
Proof.
  unfold DS.betterOffer. split; intros; repeat case_match; zify_bool; try done; try lia;
    repeat match goal with
    | |- (_ <? _) = true => apply Z.ltb_lt | |- (_ <? _) = false => apply Z.ltb_ge end; lia.
Qed.

Section ConvertFacts.
Context {Key Entry : Type} `{Ord Key} `{EqDecision Entry}.
Context {helper : EntryHelper Key Entry LedgerHeader} {helperOk : EntryHelperOk helper}.
Context {dex : DexEntries Key Entry} {dexOk : DexEntriesOk helper dex} (dp : DexParams) (max_size : nat).
Context (orderBy : (Frame OfferEntry -> Frame OfferEntry -> bool) -> list (Frame OfferEntry) -> list (Frame OfferEntry)) `{SortOk _ orderBy}.
Context (seq : Z) (flag : bool) (Hseq : seq <> 0) (commissionID : PublicKey) (source : AccountEntry).
Local Abbreviation St := (Store Key Entry LedgerHeader).
Local Abbreviation ready := (ready seq flag).
Local Abbreviation takerInv := (takerInv commissionID (accountID source)).
Local Abbreviation crossed := (crossed seq flag commissionID (accountID source)).
Implicit Types (s : St) (L : Key -> option Entry) (tk : Taker) (B g : Frame OfferEntry) (p : AssetPairEntry).

Definition keyB B : Key := offerKey (offerID (data B)) (ownerID (data B)).

Lemma keyB_inj B g R : hasOffer R B -> hasOffer R g -> keyB B = keyB g -> B = g.
Proof.
  unfold hasOffer, keyB. intros H1 H2 E. rewrite E, H2 in H1. injection H1 as Heq. symmetry. exact (toEntry_inj _ _ _ Heq).
Qed.

(** What a part of the matching does. *)
Record converted L s tk tk' s' : Prop := {
  cv_ready : ready L s';
  cv_inv : takerInv s' tk';
  cv_total : sameTotals (bookOf s tk) (bookOf s' tk');
  cv_pairs : forall x y, rowsFind (sRows s') (pairKey x y) = rowsFind (sRows s) (pairKey x y);
  cv_order : isBuy (offerA tk') = isBuy (offerA tk) /\ price (offerA tk') = price (offerA tk) /\
    base (offerA tk') = base (offerA tk) /\ quote (offerA tk') = quote (offerA tk);
  cv_commission : mOfferTrail tk' = [] -> commissionStays s tk tk' s';
}.

Lemma converted_refl L s tk : ready L s -> takerInv s tk -> converted L s tk tk s.
Proof. by split. Qed.

Lemma converted_trans L s0 tk0 s1 tk1 s2 tk2 : converted L s0 tk0 tk1 s1 -> converted L s1 tk1 tk2 s2 -> converted L s0 tk0 tk2 s2.
Proof.
  intros [R1 I1 T1 P1 (A1 & A2 & A3 & A4) C1] [R2 I2 T2 P2 (B1 & B2 & B3 & B4) C2]. split; [done|done|..].
  - by eapply sameTotals_trans.
  - intros x y. by rewrite P2.
  - split_and!; congruence.
  - intros Ht. destruct (C2 Ht) as (D1 & D2 & D3). destruct (C1 D1) as (D4 & D5 & D6). split_and!; [done|congruence|].
    cbv zeta in *. rewrite D5 in D3. by rewrite D3, D6.
Qed.

Lemma crossed_converted L s tk B r tk' s' : crossed L s tk B r tk' s' -> converted L s tk tk' s'.
Proof. intros [? ? ? ? ? ? (? & ? & ? & ? & _) ?]. by split. Qed.

Definition withCode tk (c : ManageOfferResultCode) : Taker :=
  {| offerA := offerA tk; baseBalanceA := baseBalanceA tk; quoteBalanceA := quoteBalanceA tk;
     mCommissionBalance := mCommissionBalance tk; mOfferTrail := mOfferTrail tk; mFeePaidByA := mFeePaidByA tk; takerCode := c |}.

Lemma withCode_converted L s tk c : ready L s -> takerInv s tk -> converted L s tk (withCode tk c) s.
Proof. intros Hr Hi. split; [done| |done|done|done|done]. destruct Hi. by split. Qed.

(** ** The offers of one side of the book *)

Definition offersIn s (b q : AssetCode) (book : Z) (buy : bool) : list (Frame OfferEntry) :=
  List.filter (DS.inBook b q book buy) (DS.rowsOf s).

Lemma rowsOf_elem s g : distinctRows (sRows s) -> g ∈ DS.rowsOf s <-> hasOffer (sRows s) g.
Proof.
  intros Hd. unfold DS.rowsOf, hasOffer. rewrite <- key_offer, <- rowsFind_elem by done. rewrite list_elem_of_omap. split.
  - intros (e & Hin & He). by apply from_inv in He as ->.
  - intros Hin. exists (toEntry g). split; [done|apply from_to].
Qed.

Lemma rowsOf_NoDup s : distinctRows (sRows s) -> NoDup (DS.rowsOf s : list (Frame OfferEntry)).
Proof.
  unfold DS.rowsOf, distinctRows. induction (sRows s) as [|e R IH]; [constructor|]. cbn [map omap list_omap]. intros [Hn Hd]%NoDup_cons.
  destruct (fromEntry e) as [g|] eqn:E; [|by apply IH]. apply NoDup_cons. split; [|by apply IH]. intros Hin. apply Hn.
  apply list_elem_of_omap in Hin as (e' & Hin & He'). apply from_inv in E as ->. apply from_inv in He' as <-.
  by apply list_elem_of_In, in_map, list_elem_of_In.
Qed.

Lemma offersIn_elem s b q book buy g : distinctRows (sRows s) ->
  g ∈ offersIn s b q book buy <-> hasOffer (sRows s) g /\ DS.inBook b q book buy g = true.
Proof. intros Hd. unfold offersIn. by rewrite list_elem_of_In, filter_In, <- list_elem_of_In, rowsOf_elem. Qed.

Lemma offersIn_NoDup s b q book buy : distinctRows (sRows s) -> NoDup (offersIn s b q book buy).
Proof. intros Hd. apply NoDup_ListNoDup, List.NoDup_filter, NoDup_ListNoDup. by apply rowsOf_NoDup. Qed.

Lemma inBook_spec b q book buy g : DS.inBook b q book buy g = true ->
  base (data g) = b /\ quote (data g) = q /\ isBuy (data g) = buy.
Proof.
  unfold DS.inBook. rewrite !andb_true_iff. intros [[[H1 H2] _] H3]. apply bool_decide_eq_true in H1, H2.
  by apply Bool.eqb_prop in H3.
Qed.

(** The best offers, loaded. *)
Lemma loadBestOffers_ret L s tk n b q book buy : ready L s -> takerInv s tk ->
  exists l, DS.loadBestOffers orderBy n 0 b q book buy s = Ret l s /\ NoDup l /\
    (forall g, g ∈ l -> hasOffer (sRows s) g /\ DS.inBook b q book buy g = true) /\ length l = Nat.min n (length (offersIn s b q book buy)).
Proof.
  intros Hr Hi. assert (distinctRows (sRows s)) as Hd by apply Hr.
  set (l := take n (orderBy (DS.betterOffer buy) (offersIn s b q book buy))).
  pose proof (sort_permutation (DS.betterOffer buy) (offersIn s b q book buy) (betterOffer_strictWeak buy)) as Hp.
  assert (forall g, g ∈ l -> hasOffer (sRows s) g /\ DS.inBook b q book buy g = true) as Hl.
  { intros g Hin. apply offersIn_elem; [done|]. rewrite <- Hp, <- (take_drop n (orderBy _ _)). apply elem_of_app. by left. }
  exists l. split_and!; [|unfold l|done|].
  - unfold DS.loadBestOffers. rewrite (bind_ret _ _ s s s) by done. rewrite drop_0. fold (offersIn s b q book buy). fold l.
    unfold DS.checkedOffers. rewrite (proj2 (forallb_forall _ l)); [done|]. intros g Hin. apply list_elem_of_In, Hl in Hin as [Hg _].
    apply (oo_valid commissionID (bookOf s tk)). apply (bi_offer _ _ _ (ti_book _ _ _ _ Hi)). by apply book_hasOffer.
  - eapply sublist_NoDup; [|apply sublist_take]. rewrite Hp. by apply offersIn_NoDup.
  - unfold l. by rewrite length_take, Hp.
Qed.

(** ** The loops *)

Lemma filterOffer_cases pr g tk : 0 < pr <= INT64_MAX -> tradable (data g) ->
  CO.filterOffer source pr g tk = (eStop, tk) \/ CO.filterOffer source pr g tk = (eStop, withCode tk CROSS_SELF) \/
  CO.filterOffer source pr g tk = (eKeep, tk) /\ ownerID (data g) <> accountID source /\
    (if isBuy (data g) then pr <= price (data g) else price (data g) <= pr).
Proof.
  intros Hpr Hg. pose proof (tr_price _ Hg). unfold CO.filterOffer, CO.getSourceID. rewrite !u64_small by word_lia.
  destruct (isBuy (data g)); (destruct (negb _) eqn:E; [by left|]); (case_bool_decide; [by right; left|]); right; right; zify_bool; by split_and!.
Qed.

(** The body: what is left to do if it ends by itself. *)
Definition body L s tk (retList : list (Frame OfferEntry)) (offset : nat) (r : option ConvertResult * Taker * nat) s' : Prop :=
  let '(c, tk', offset') := r in
  converted L s tk tk' s' /\
  (c = None -> needsMore (offerA tk') = true /\ offset' = (offset - length retList)%nat /\
    (forall i w, (forall B, B ∈ retList -> offerKey i w <> keyB B) -> rowsFind (sRows s') (offerKey i w) = rowsFind (sRows s) (offerKey i w)) /\
    (forall B, B ∈ retList -> rowsFind (sRows s') (keyB B) = None)).

Lemma crossAll_wp L p retList : pairOk p -> forall s tk offset, ready L s -> takerInv s tk -> needsMore (offerA tk) = true ->
  (length retList <= offset)%nat -> NoDup retList ->
  (forall g, g ∈ retList -> hasOffer (sRows s) g /\ base (data g) = base (offerA tk) /\ quote (data g) = quote (offerA tk) /\
     isBuy (data g) = negb (isBuy (offerA tk))) ->
  wp (CO.crossAll dp (CO.filterOffer source (price (offerA tk))) p retList tk offset) (body L s tk retList offset) (fun x _ => thrown x) s.
Proof.
  intros Hp. induction retList as [|B rest IH]; intros s tk offset Hr Hi Hn Hlen Hnd Hall.
  { split; [by apply converted_refl|]. intros _. cbn. split_and!; [done|lia|done|]. intros B Hin. by apply not_elem_of_nil in Hin. }
  destruct (Hall B ltac:(set_solver)) as (HB & Hb & Hq & Hs). cbn [CO.crossAll].
  pose proof (pa_tradable _ _ _ _ (ti_party _ _ _ _ Hi)) as TA.
  pose proof (oo_tradable _ _ _ (bi_offer _ _ _ (ti_book _ _ _ _ Hi) B (proj2 (book_hasOffer s tk B) HB))) as TB.
  destruct (filterOffer_cases (price (offerA tk)) B tk (tr_price _ TA) TB) as [-> |[-> |(-> & How & Hpr)]].
  { split; [by apply converted_refl|done]. }
  { split; [by apply withCode_converted|done]. }
  apply wp_bind. eapply wp_mono; [apply (crossOffer_wp dp seq flag Hseq commissionID (accountID source) L s tk B p); try done; by split| |done].
  intros [r tk1] s1 Hc. cbn [fst snd] in Hc. pose proof (crossed_converted L s tk B r tk1 s1 Hc) as Hcv.
  pose proof (pa_tradable _ _ _ _ (ti_party _ _ _ _ (cr_inv _ _ _ _ _ _ _ _ _ _ _ Hc))) as T1.
  destruct (cr_result _ _ _ _ _ _ _ _ _ _ _ Hc) as [[-> Hgone]| ->].
  2:{ apply wp_bind. unfold wp at 1. rewrite (needsMore_spec _ s1 T1). destruct (needsMore (offerA tk1)); by split. }
  cbn [length] in Hlen. rewrite (proj2 (Nat.eqb_neq offset 0)) by lia. apply wp_bind. unfold wp at 1. rewrite (needsMore_spec _ s1 T1).
  destruct (needsMore (offerA tk1)) eqn:En; cbn [negb]; [|by split].
  apply NoDup_cons in Hnd as [HnB Hnd].
  assert (forall g, g ∈ rest -> offerKey (offerID (data g)) (ownerID (data g)) <> keyB B) as Hkeys.
  { intros g Hin E. apply HnB. destruct (Hall g ltac:(set_solver)) as [Hg _]. by rewrite (keyB_inj B g (sRows s) HB Hg (eq_sym E)). }
  destruct (cv_order _ _ _ _ _ Hcv) as (O1 & O2 & O3 & O4). rewrite <- O2.
  eapply wp_mono; [apply IH; [apply Hcv|apply Hcv|done|lia|done|]| |done].
  { intros g Hin. destruct (Hall g ltac:(set_solver)) as (Hg & Gb & Gq & Gs). split_and!; [|congruence|congruence|by rewrite O1].
    unfold hasOffer. rewrite (cr_others _ _ _ _ _ _ _ _ _ _ _ Hc); [done|by apply Hkeys]. }
  intros [[c tk2] off2] s2 [Hcv2 Hnone]. split; [by eapply converted_trans|]. intros Hc0.
  destruct (Hnone Hc0) as (N1 & N2 & N3 & N4). split_and!; [done|cbn [length]; lia| |].
  - intros i w Hk. rewrite N3 by set_solver. apply (cr_others _ _ _ _ _ _ _ _ _ _ _ Hc). apply Hk. set_solver.
  - intros g [-> |Hin]%elem_of_cons; [|by apply N4]. unfold keyB. rewrite N3; [exact Hgone|].
    intros g' Hin'. intros E. by apply (Hkeys g' Hin').
Qed.

(** A round that goes on has emptied the book of what it loaded. *)
Lemma round_shrinks L s s' tk tk' b q book buy retList : converted L s tk tk' s' -> distinctRows (sRows s) ->
  NoDup retList -> (forall g, g ∈ retList -> hasOffer (sRows s) g /\ DS.inBook b q book buy g = true) ->
  (forall i w, (forall B, B ∈ retList -> offerKey i w <> keyB B) -> rowsFind (sRows s') (offerKey i w) = rowsFind (sRows s) (offerKey i w)) ->
  (forall B, B ∈ retList -> rowsFind (sRows s') (keyB B) = None) ->
  length (offersIn s b q book buy) = (length retList + length (offersIn s' b q book buy))%nat.
Proof.
  intros Hcv Hd Hnd Hin Hout Hgone. assert (distinctRows (sRows s')) as Hd' by apply Hcv. rewrite <- length_app. apply Permutation_length.
  assert (forall g, g ∈ retList -> ~ hasOffer (sRows s') g) as Hno.
  { intros g Hg Hg'. unfold hasOffer in Hg'. specialize (Hgone g Hg). unfold keyB in Hgone. congruence. }
  apply NoDup_Permutation; [by apply offersIn_NoDup| |].
  - apply NoDup_app. split_and!; [done| |by apply offersIn_NoDup].
    intros g Hg Hg'. apply offersIn_elem in Hg' as [Hg' _]; [|done]. by apply (Hno g).
  - intros g. rewrite elem_of_app, !offersIn_elem by done. split.
    + intros [Hg Hb]. destruct (decide (g ∈ retList)) as [Hr|Hr]; [by left|]. right. split; [|done]. unfold hasOffer. rewrite Hout; [done|].
      intros B HB E. apply Hr. by rewrite (keyB_inj g B (sRows s) Hg (proj1 (Hin B HB)) E).
    + intros [Hg|[Hg Hb]]; [by apply Hin|]. split; [|done]. unfold hasOffer. rewrite <- Hout; [done|].
      intros B HB E. unfold hasOffer in Hg. rewrite E in Hg. rewrite (Hgone B HB) in Hg. done.
Qed.

Lemma convert_wp L p book fuel : pairOk p -> forall s tk, ready L s -> takerInv s tk -> pairBase p = base (offerA tk) ->
  pairQuote p = quote (offerA tk) ->
  (length (offersIn s (pairBase p) (pairQuote p) book (negb (isBuy (offerA tk)))) < fuel)%nat ->
  wp (CO.convertWithOffers dp orderBy fuel (CO.filterOffer source (price (offerA tk))) p book tk 0)
    (fun r s' => converted L s tk r.2 s') (fun x _ => thrown x) s.
Proof.
  intros Hp. induction fuel as [|fuel IH]; intros s tk Hr Hi Hb Hq Hf; [lia|]. cbn [CO.convertWithOffers].
  pose proof (pa_tradable _ _ _ _ (ti_party _ _ _ _ Hi)) as TA. apply wp_bind. unfold wp at 1. rewrite (needsMore_spec _ s TA).
  destruct (needsMore (offerA tk)) eqn:En; cbn [negb]; [|by apply converted_refl].
  destruct (loadBestOffers_ret L s tk CO.OFFERS_TO_TAKE (pairBase p) (pairQuote p) book (negb (isBuy (offerA tk))) Hr Hi) as (l & El & Hnd & Hl & Hlen).
  apply wp_bind. unfold wp at 1. rewrite El. cbn [Nat.add].
  assert (forall g, g ∈ l -> hasOffer (sRows s) g /\ base (data g) = base (offerA tk) /\ quote (data g) = quote (offerA tk) /\
    isBuy (data g) = negb (isBuy (offerA tk))) as Hall.
  { intros g Hin. destruct (Hl g Hin) as [Hg (-> & -> & ->)%inBook_spec]. by split_and!. }
  apply wp_bind. eapply wp_mono; [apply (crossAll_wp L p l Hp s tk (length l)); try done; lia| |done].
  intros [[c tk1] off] s1 [Hcv Hnone]. destruct c as [c|]; [done|]. destruct (Hnone eq_refl) as (Hn1 & Hoff & Hout & Hgone).
  pose proof (pa_tradable _ _ _ _ (ti_party _ _ _ _ (cv_inv _ _ _ _ _ Hcv))) as T1. apply wp_bind. unfold wp at 1. rewrite (needsMore_spec _ s1 T1), Hn1.
  destruct (length l <? CO.OFFERS_TO_TAKE)%nat eqn:El5; cbn [andb]; [done|]. apply Nat.ltb_ge in El5.
  destruct (cv_order _ _ _ _ _ Hcv) as (O1 & O2 & O3 & O4). rewrite Hoff, Nat.sub_diag, <- O2.
  pose proof (round_shrinks L s s1 tk tk1 (pairBase p) (pairQuote p) book (negb (isBuy (offerA tk))) l Hcv ltac:(apply Hr) Hnd Hl Hout Hgone) as Hsh.
  eapply wp_mono; [apply IH; [apply Hcv|apply Hcv|by rewrite O3|by rewrite O4|]| |done].
  - rewrite O1. unfold CO.OFFERS_TO_TAKE in El5. lia.
  - intros [c tk2] s2 Hcv2. by eapply converted_trans.
Qed.

End ConvertFacts.
