(* ===== verification/OfferFacts.v ===== *)
(** * What creating an offer reads

    The loads of [CreateOfferOpFrame] leave the rows and the header alone and
    give entries of the rows; they may only throw exceptions that the
    transaction handles.  The other parts are about the checks and locks of
    the operation, and about creating and deleting offers as a whole. *)

From S2P Require Import Prelude OrdContainers BigMath LedgerDelta LedgerDeltaFacts EntryStore EntryStoreFacts Signatures LedgerHeader TxSet Statistics Balance Assets OfferExchange ExchangeFacts DexStore CreateOffer DexFacts BookFacts CrossStore CrossOffer.

Section OfferReads.
Context {Key Entry : Type} `{Ord Key} `{EqDecision Entry}.
Context {helper : EntryHelper Key Entry LedgerHeader} {helperOk : EntryHelperOk helper}.
Context {dex : DexEntries Key Entry} {dexOk : DexEntriesOk helper dex} (dp : DexParams) (max_size : nat).
Context (seq : Z) (flag : bool).
Local Abbreviation St := (Store Key Entry LedgerHeader).
Local Abbreviation ready := (ready seq flag).
Implicit Types (s : St) (L : Key -> option Entry).

(** A computation that only reads. *)
Definition reads {A} (R : list Entry) (m : M St A) (P : A -> Prop) : Prop := forall L s, ready L s -> sRows s = R ->
  wp m (fun a s' => ready L s' /\ sRows s' = R /\ P a) (fun x _ => thrown x) s.

Lemma reads_bind {A B} R (m : M St A) (g : A -> M St B) P Q : reads R m P -> (forall a, P a -> reads R (g a) Q) -> reads R (m ≫= g) Q.
Proof.
  intros Hm Hg L s Hr Hs. apply wp_bind. eapply wp_mono; [by apply Hm| |done]. intros a s1 (Hr1 & Hs1 & Ha). by apply Hg.
Qed.

Lemma reads_ret {A} R (a : A) (P : A -> Prop) : P a -> reads R (mret a) P.
Proof. intros Ha L s Hr Hs. by split_and!. Qed.

Lemma reads_throw {A} R msg (P : A -> Prop) : reads R (throw (RuntimeError msg)) P.
Proof. intros L s Hr Hs. by apply thrown_error. Qed.

(** Looking at the rows. *)
Lemma reads_rows {B} R (g : St -> M St B) g' Q : (forall s, sRows s = R -> g s = g') -> reads R g' Q -> reads R (get ≫= g) Q.
Proof. intros Hg Hr L s Hs HR. apply wp_bind. cbn. rewrite Hg by done. by apply Hr. Qed.

Lemma reads_mono {A} R (m : M St A) (P Q : A -> Prop) : (forall a, P a -> Q a) -> reads R m P -> reads R m Q.
Proof. intros Hpq Hm L s Hr Hs. eapply wp_mono; [by apply Hm| |done]. intros a s' (? & ? & ?). split_and!; auto. Qed.

Lemma ready_cache L s c : ready L s -> cacheAgrees (deltaView (sDelta s) L) (ES.setCache s c) -> ready L (ES.setCache s c).
Proof. intros [Hok Hq Hf] Hc. split; [by apply storeOk_cache|done|done]. Qed.

Lemma ready_rows L s k : ready L s -> deltaView (sDelta s) L k = rowsFind (sRows s) k.
Proof. intros Hr. symmetry. apply Hr. Qed.

Lemma put_ready L s k : ready L s -> usesCache k = true -> ready L (ES.setCache s (LruCache.put max_size k (rowsFind (sRows s) k) (sCache s))).
Proof.
  intros Hr Hu. apply ready_cache; [done|]. intros k' v Hp%lru_find_put. destruct (eqvb k k') eqn:E; [|by apply Hr].
  apply eqvb_eq in E as <-. by rewrite Hp, (ready_rows L s k Hr).
Qed.

Lemma getCached_ret L s k v : ready L s -> LruCache.find (sCache s) k = Some v ->
  exists c, ES.getCachedEntry k s = Ret (rowsFind (sRows s) k) (ES.setCache s c) /\ ready L (ES.setCache s c).
Proof.
  intros Hr Hf. destruct (LruCache.get k (sCache s)) as [[v' c]|] eqn:E.
  2:{ unfold LruCache.get in E. by rewrite Hf in E. }
  destruct (lru_get_spec k _ _ _ E) as [Hf' Hc]. exists c. unfold ES.getCachedEntry. rewrite E.
  destruct (so_cache _ _ (re_ok _ _ _ _ Hr) k v' Hf') as [_ ->]. rewrite (ready_rows L s k Hr). split; [done|].
  apply ready_cache; [done|]. intros k' w Hw. cbn in Hw. rewrite Hc in Hw. by apply Hr.
Qed.

(** ** The loads *)

Lemma reads_ext {A} R (m m' : M St A) P : (forall s, m s = m' s) -> reads R m' P -> reads R m P.
Proof. intros He Hm L s Hr Hs. unfold wp. rewrite He. by apply (Hm L s Hr Hs). Qed.

Lemma bind_assoc_ret {S A B C} (m : M S A) (g : A -> M S B) (h : B -> M S C) (s : S) : (x ← m; y ← g x; h y) s = (y ← (x ← m; g x); h y) s.
Proof. unfold mbind, M_bind. by destruct (m s). Qed.

Lemma reads_recorded {T} `{EntryData Entry T} R b (r : option (Frame T)) : reads R (DS.recorded b r) (fun r' => r' = r).
Proof.
  intros L s Hr Hs. destruct r as [f|]; [|by split_and!]. destruct (recorded_ret seq flag L s b f Hr) as (s' & E & Hr' & Hs').
  unfold wp. rewrite E. split_and!; [done|congruence|done].
Qed.

Lemma reads_checked R (rows : list (Frame BalanceEntry)) : reads R (DS.checkedBalances rows) (fun r => r = last rows).
Proof. unfold DS.checkedBalances. destruct (forallb _ rows); [by apply reads_ret|apply reads_throw]. Qed.

Lemma reads_loadBalance R b id : reads R (DS.loadBalance b id)
  (fun r => match r with Some f => hasBalance R f /\ balanceID (data f) = id | None => True end).
Proof.
  eapply reads_rows; [intros s Hs; unfold ES.selectRow; rewrite Hs; reflexivity|].
  eapply reads_bind; [apply reads_checked|]. intros r ->. eapply reads_mono; [|apply reads_recorded]. intros r' ->.
  destruct (List.find (whereKey (balanceKey id)) R) as [e|] eqn:E; [|done].
  destruct (fromEntry e) as [f|] eqn:Ef; [|done]. cbn. apply from_inv in Ef as ->.
  pose proof (proj1 (rowsFind_Some R _ _ E)) as Hk. rewrite key_balance in Hk. apply balanceKey_inj in Hk. unfold hasBalance. by rewrite Hk.
Qed.

Lemma greatest_elem (l : list (Frame BalanceEntry)) f : DS.greatestBalance dp l = Some f -> f ∈ l.
Proof.
  revert f. induction l as [|g l IH]; [done|]. cbn [DS.greatestBalance]. intros f.
  destruct (DS.greatestBalance dp l) as [h|]; [|intros [= ->]; set_solver].
  destruct (ltb _ _); intros [= ->]; [apply elem_of_cons; right; by apply IH|set_solver].
Qed.

Lemma reads_loadBalanceFor R b account asset : distinctRows R -> reads R (DS.loadBalanceFor dp b account asset)
  (fun r => match r with Some f => hasBalance R f /\ balAccountID (data f) = account /\ balAsset (data f) = asset | None => True end).
Proof.
  intros Hd. eapply reads_rows; [intros s Hs; unfold DS.rowsOf; rewrite Hs; reflexivity|].
  eapply reads_bind; [apply reads_checked|]. intros r ->. eapply reads_mono; [|apply reads_recorded]. intros r' ->.
  destruct (DS.greatestBalance _ _) as [f|] eqn:E; [|done]. cbn. apply greatest_elem in E.
  apply list_elem_of_In, filter_In in E as [Hin Hb]. apply andb_true_iff in Hb as [H1%bool_decide_eq_true H2%bool_decide_eq_true].
  split_and!; [|done|done]. apply list_elem_of_In, list_elem_of_omap in Hin as (e & Hin & He). apply from_inv in He as ->.
  by apply hasBalance_elem.
Qed.

Lemma reads_mustLoadAccount R id : reads R (DS.mustLoadAccount max_size id) (fun _ => True).
Proof.
  intros L s Hr Hs. unfold DS.mustLoadAccount. apply wp_bind. unfold wp at 1.
  destruct (storeLoad_row max_size L s (dexAccountKey id) (re_ok _ _ _ _ Hr)) as (c & -> & Hok).
  assert (ready L (ES.setCache s c)) as Hr' by (split; [done|apply Hr|apply Hr]).
  destruct (_ ≫= _); [by split_and!|by eexists; right].
Qed.

(** The cached entry may be recorded; it is the row. *)
Lemma reads_cachedAsset R b k : reads R (c ← ES.cachedEntryExists k;
  if (c : bool) then (r ← ES.getCachedEntry k; match r ≫= fromEntry (T := AssetEntry) with Some f => when b (DS.record f) | None => mret tt end) else mret tt) (fun _ => True).
Proof.
  intros L s Hr Hs. unfold wp, ES.cachedEntryExists, LruCache.exists_, get, mbind, M_bind, mret, M_ret.
  destruct (LruCache.find (sCache s) k) as [v|] eqn:E; [|by split_and!].
  destruct (getCached_ret L s k v Hr E) as (c & -> & Hr'). destruct (option_bind _ _ _ _) as [f|]; [|by split_and!].
  destruct b; cbn [when]; [|by split_and!]. destruct (record_ret seq flag L _ f Hr') as (s' & -> & ? & Hs'). split_and!; [done|by rewrite Hs'|done].
Qed.

Lemma reads_loadAsset R b code : reads R (DS.loadAsset max_size b code)
  (fun r => match r with Some f => hasAsset R f /\ assetCode (data f) = code | None => True end).
Proof.
  eapply reads_rows; [intros s Hs; unfold ES.selectRow; rewrite Hs; reflexivity|]. fold (rowsFind R (assetKey code)). cbv zeta.
  eapply reads_ext; [intros s; apply bind_assoc_ret|]. apply (reads_bind R _ _ (fun _ => True)); [apply (reads_cachedAsset R b (assetKey code))|]. intros _ _ L s Hr Hs.
  pose proof (put_ready L s (assetKey code) Hr (asset_cached _)) as Hput. rewrite Hs in Hput.
  destruct (rowsFind R (assetKey code)) as [e|] eqn:Ee; cbn [mbind option_bind]; [|by split_and!].
  destruct (asset_of_key e code (proj1 (rowsFind_Some R _ _ Ee))) as (f & ->). rewrite from_to.
  pose proof (proj1 (rowsFind_Some R _ _ Ee)) as Hk. rewrite key_asset in Hk. apply assetKey_inj in Hk.
  destruct (negb _); [by apply thrown_error|]. destruct b; cbn [when].
  - destruct (record_ret seq flag L s f Hr) as (s1 & E1 & Hr1 & Hs1). unfold wp. rewrite (bind_ret _ _ _ _ _ E1).
    unfold ES.putCachedEntry, modify, mbind, M_bind. split; [|split; [cbn; congruence|]].
    + rewrite <- Ee, <- Hs, <- Hs1. apply put_ready; [done|apply asset_cached].
    + unfold hasAsset. by rewrite Hk.
  - split; [exact Hput|]. split; [exact Hs|]. unfold hasAsset. by rewrite Hk.
Qed.

Lemma reads_mustLoadAsset R b code : reads R (DS.mustLoadAsset max_size b code) (fun f => hasAsset R f /\ assetCode (data f) = code).
Proof.
  eapply reads_bind; [apply reads_loadAsset|]. intros [f|] Hf; [by apply reads_ret|apply reads_throw].
Qed.

(** ** Composites *)

Lemma reads_isAllowedToReceive R id : reads R (DS.isAllowedToReceive dp max_size id) (fun _ => True).
Proof.
  eapply reads_bind; [apply reads_loadBalance|]. intros [f|] _; [|by apply reads_ret].
  eapply reads_bind; [apply reads_mustLoadAccount|]. intros a _. eapply reads_bind; [apply reads_mustLoadAsset|]. intros b _. by apply reads_ret.
Qed.

(** The pair of two assets, as it is in the table. *)
Lemma reads_loadAssetPair R wd b q : reads R (DS.loadAssetPair max_size wd b q)
  (fun r => match r with Some p => hasPair R p /\ pairBase (data p) = b /\ pairQuote (data p) = q | None => True end).
Proof.
  eapply reads_rows; [intros s Hs; unfold ES.selectRow; rewrite Hs; reflexivity|]. fold (rowsFind R (pairKey b q)). cbv zeta.
  assert (forall e (p : Frame AssetPairEntry), rowsFind R (pairKey b q) = Some e -> fromEntry e = Some p ->
    hasPair R p /\ pairBase (data p) = b /\ pairQuote (data p) = q) as Hrow.
  { intros e p He Hp. apply from_inv in Hp as ->. pose proof (proj1 (rowsFind_Some R _ _ He)) as Hk. rewrite key_pair in Hk.
    apply pairKey_inj in Hk as [<- <-]. by split_and!. }
  intros L s Hr Hs. unfold wp, ES.cachedEntryExists, LruCache.exists_, get, mbind at 1, M_bind at 1, mbind at 1, M_bind at 1, mret, M_ret.
  destruct (LruCache.find (sCache s) (pairKey b q)) as [v|] eqn:Ef.
  - destruct (getCached_ret L s (pairKey b q) v Hr Ef) as (c & E & Hr'). unfold mbind at 1, M_bind at 1. rewrite E. split_and!; [done|done|].
    rewrite Hs. destruct (rowsFind R (pairKey b q)) as [e|] eqn:Ee; [|done]. cbn. destruct (fromEntry e) as [p|] eqn:Ep; [by apply (Hrow e)|done].
  - pose proof (put_ready L s (pairKey b q) Hr (pair_cached b q)) as Hput. rewrite Hs in Hput.
    destruct (rowsFind R (pairKey b q)) as [e|] eqn:Ee; cbn [mbind option_bind]; [|by split_and!].
    destruct (fromEntry e) as [p|] eqn:Ep.
    + destruct (negb _); [by apply thrown_error|]. assert (exists s1, when wd (DS.record p) s = Ret tt s1 /\ ready L s1 /\ sRows s1 = sRows s) as (s1 & E1 & Hr1 & Hs1).
      { destruct wd; [by apply record_ret|by exists s]. }
      rewrite (bind_ret _ _ _ _ _ E1). unfold ES.putCachedEntry, modify, mbind, M_bind. split; [|split; [cbn; congruence|by apply (Hrow e)]].
      apply from_inv in Ep as <-. rewrite <- Ee, <- Hs, <- Hs1. apply put_ready; [done|apply pair_cached].
    + destruct (pair_of_key e b q (proj1 (rowsFind_Some R _ _ Ee))) as (p & ->). by rewrite from_to in Ep.
Qed.

Lemma reads_fee R account ftype asset subtype amt : reads R (DS.calcualteFeeForAccount dp account ftype asset subtype amt)
  (fun r => 0 <= DS.resPercentFee r <= 100 * ONE).
Proof.
  eapply reads_bind with (P := fun r => match r with Some f => 0 <= entryPercentFee f <= 100 * ONE | None => True end).
  - eapply reads_rows; [intros s Hs; rewrite Hs; reflexivity|]. cbv zeta. 
    match goal with |- reads R (match ?X with _ => _ end) _ => destruct X as [f|]; [|by apply reads_ret] end.
    destruct (DS.feeIsValid dp f) eqn:E; [|apply reads_throw]. apply reads_ret. unfold DS.feeIsValid in E. zify_bool. lia.
  - intros [f|] Hf; [|apply reads_ret; cbn; unfold ONE; lia].
    eapply reads_bind with (P := fun _ => True).
    + unfold DS.calculatePercentFee. destruct (_ =? 0); [by apply reads_ret|]. unfold bigDivide_u64. cbn. by apply reads_ret.
    + intros [ok v] _. apply reads_ret. cbn. rewrite u64_small; [done|]. unfold ONE in *. word_lia.
Qed.

End OfferReads.

(** * Creating an offer

    [doApply] of [CreateOfferOpFrame]: from a good book it either fails, or
    leaves a good book in which the funds in every asset are what they were. *)

Section OfferFacts.
Context {Key Entry : Type} `{Ord Key} `{EqDecision Entry}.
Context {helper : EntryHelper Key Entry LedgerHeader} {helperOk : EntryHelperOk helper} {headerOk : HeaderOk helper}.
Context {dex : DexEntries Key Entry} {dexOk : DexEntriesOk helper dex} (dp : DexParams) (max_size : nat).
Context (orderBy : (Frame OfferEntry -> Frame OfferEntry -> bool) -> list (Frame OfferEntry) -> list (Frame OfferEntry)) `{SortOk _ orderBy}.
Context (seq : Z) (flag : bool) (Hseq : seq <> 0) (commissionID : PublicKey) (source : AccountEntry).
Local Abbreviation St := (Store Key Entry LedgerHeader).
Local Abbreviation ready := (ready seq flag).
Local Abbreviation wrote := (wrote seq flag).
Local Abbreviation stamp := (stamp seq flag).
Local Abbreviation takerInv := (takerInv commissionID (accountID source)).
Local Abbreviation reads := (reads seq flag).
Implicit Types (s : St) (L : Key -> option Entry) (tk : Taker) (R : list Entry) (f : Frame BalanceEntry) (op : OM.ManageOfferOp).

(** ** The checks *)

Record checked R op (bb qb : Frame BalanceEntry) (p : Frame AssetPairEntry) : Prop := {
  ck_base : hasBalance R bb;
  ck_quote : hasBalance R qb;
  ck_baseID : balanceID (data bb) = OM.opBaseBalance op;
  ck_quoteID : balanceID (data qb) = OM.opQuoteBalance op;
  ck_baseOwner : balAccountID (data bb) = accountID source;
  ck_quoteOwner : balAccountID (data qb) = accountID source;
  ck_assets : balAsset (data bb) <> balAsset (data qb);
  ck_pair : hasPair R p;
  ck_pairBase : pairBase (data p) = balAsset (data bb);
  ck_pairQuote : pairQuote (data p) = balAsset (data qb);
}.

Lemma reads_loadValid R id : reads R (CO.loadBalanceValidForTrading source id)
  (fun r => match r with Some f => hasBalance R f /\ balanceID (data f) = id /\ balAccountID (data f) = accountID source | None => True end).
Proof.
  eapply reads_bind; [apply reads_loadBalance|]. intros [f|] Hf; [|by apply reads_ret].
  case_bool_decide as E; apply reads_ret; [|done]. destruct Hf. by split_and!.
Qed.

Lemma reads_checkOfferValid R op : OM.opAmount op <> 0 -> reads R (CO.checkOfferValid dp max_size source op)
  (fun v => match v with inr (bb, qb, p) => checked R op bb qb p | inl _ => True end).
Proof.
  intros Ha. unfold CO.checkOfferValid. rewrite (proj2 (Z.eqb_neq _ _) Ha).
  eapply reads_bind; [apply reads_loadValid|]. intros [bb|] Hbb; [|by apply reads_ret].
  eapply reads_bind; [apply reads_loadValid|]. intros [qb|] Hqb; [|by apply reads_ret].
  case_bool_decide as Eas; [by apply reads_ret|]. eapply reads_bind; [apply reads_isAllowedToReceive|]. intros [] _; [|by apply reads_ret].
  cbn [negb]. eapply reads_bind with (P := fun r => match r with Some p => hasPair R p /\ pairBase (data p) = balAsset (data bb) /\
    pairQuote (data p) = balAsset (data qb) | None => True end).
  - eapply reads_bind; [apply reads_loadAssetPair|]. intros [p|] Hp; [|by apply reads_ret].
    repeat (match goal with |- context [if ?b then _ else _] => destruct b end); by apply reads_ret.
  - intros [p|] Hp; apply reads_ret; [|done]. destruct Hbb as (? & ? & ?), Hqb as (? & ? & ?), Hp as (? & ? & ?). by split.
Qed.

(** ** The new offer *)

Record goodOp op : Prop := {
  go_amount : 0 < OM.opAmount op <= INT64_MAX;
  go_price : 0 < OM.opPrice op <= INT64_MAX;
  go_fee : 0 <= OM.opFee op <= INT64_MAX;
}.

(** The fields of an operation are signed 64-bit numbers. *)
Definition wideOp op : Prop := OM.opAmount op <= INT64_MAX /\ OM.opPrice op <= INT64_MAX /\ OM.opFee op <= INT64_MAX.

Lemma doCheckValid_good op c s s' : wideOp op -> CO.doCheckValid op s = Ret (true, c) s' -> goodOp op.
Proof.
  intros (W1 & W2 & W3). unfold CO.doCheckValid. destruct (Z.leb_spec (OM.opAmount op) 0); [done|]. destruct (Z.leb_spec (OM.opPrice op) 0); [done|].
  unfold mbind, M_bind. destruct (OM.calculateQuoteAmount _ _ _) as [qa s1|]; [|done]. destruct (negb (qa >? 0)); [done|].
  destruct (Z.ltb_spec (OM.opFee op) 0); [done|]. intros _. split; lia.
Qed.

Lemma calculateQuoteAmount_ret {S} ba p (s : S) : 0 < ba <= INT64_MAX -> 0 < p <= INT64_MAX ->
  exists q, OM.calculateQuoteAmount ba p s = Ret q s /\ (q = 0 \/ q = cost p ba /\ 0 < q <= INT64_MAX).
Proof.
  intros Hb Hp. unfold OM.calculateQuoteAmount, mbind, M_bind. assert (0 < ONE <= INT64_MAX) as H1 by done.
  destruct (Z.le_gt_cases (div_round ROUND_DOWN (ba * p) ONE) INT64_MAX) as [Hd|Hd].
  2:{ destruct (bigDivide_over 0 ba p ONE ROUND_DOWN s ltac:(lia) ltac:(lia) H1 Hd) as [v ->]. exists 0. split; [done|by left]. }
  rewrite bigDivide_ret by (done || lia). cbn [negb]. destruct (_ =? 0) eqn:E0; [exists 0; split; [done|by left]|].
  destruct (Z.le_gt_cases (div_round ROUND_UP (ba * p) ONE) INT64_MAX) as [Hu|Hu].
  - rewrite bigDivide_ret by (done || lia). cbn [negb]. exists (cost p ba). split; [done|]. right. split; [done|].
    split; [apply div_up_pos; [nia|done]|done].
  - destruct (bigDivide_over (div_round ROUND_DOWN (ba * p) ONE) ba p ONE ROUND_UP s ltac:(lia) ltac:(lia) H1 Hu) as [v ->].
    exists 0. split; [done|by left].
Qed.

Lemma buildOffer_ret {S} op b q (s : S) : goodOp op ->
  exists r, OM.buildOffer (accountID source) op b q s = Ret r s /\
    match r with
    | Some o => ownerID o = accountID source /\ isBuy o = OM.opIsBuy op /\ base o = b /\ quote o = q /\ baseBalance o = OM.opBaseBalance op /\
        quoteBalance o = OM.opQuoteBalance op /\ baseAmount o = OM.opAmount op /\ price o = OM.opPrice op /\
        quoteAmount o = cost (price o) (baseAmount o) /\ 0 < quoteAmount o <= INT64_MAX
    | None => True
    end.
Proof.
  intros [Ha Hp _]. unfold OM.buildOffer. destruct (calculateQuoteAmount_ret (OM.opAmount op) (OM.opPrice op) s Ha Hp) as (qa & E & Hq).
  rewrite (bind_ret _ _ _ _ _ E). destruct (Z.eqb_spec qa 0); [by eexists|]. destruct Hq as [?|[? ?]]; [done|].
  eexists. split; [done|]. split_and!; try done; cbn [quoteAmount price baseAmount]; lia.
Qed.

(** ** The lock *)

Definition lockedFrames (o : OfferEntry) (bb qb : Frame BalanceEntry) : Frame BalanceEntry * Frame BalanceEntry :=
  let lock f := withData f (BF.with_ (data f) (amount (data f) - lockOf o) (locked (data f) + lockOf o)) in
  if isBuy o then (bb, lock qb) else (lock bb, qb).

Lemma lockSelling_spec o bb qb bb' qb' : tradable o -> inRange (data bb) -> inRange (data qb) ->
  CO.lockSellingAmount dp o bb qb = Some (bb', qb') ->
  (bb', qb') = lockedFrames o bb qb /\ 0 < lockOf o <= amount (data (if isBuy o then qb else bb)).
Proof.
  intros [Hb Hq _ Hf _ _] Rb Rq. unfold CO.lockSellingAmount, lockedFrames, lockOf.
  set (n := if isBuy o then i64 (quoteAmount o + fee o) else baseAmount o).
  destruct (Z.leb_spec n 0) as [Hn|Hn]; [done|].
  assert (n = (if isBuy o then quoteAmount o + fee o else baseAmount o) /\ n <= INT64_MAX) as [En Hm].
  { unfold n in *. destruct (isBuy o); [|lia]. word_lia. }
  rewrite lockBalance_spec; [|by destruct (isBuy o)|lia]. destruct (Z.leb_spec n (amount (data (if isBuy o then qb else bb)))) as [Hle|]; [|done].
  rewrite <- En. destruct (isBuy o); intros [= <- <-]; (split; [done|lia]).
Qed.

(** ** The commission balance *)

Lemma generateID_ret L s ty : ready L s -> exists id s', DS.generateID ty s = Ret id s' /\ ready L s' /\ sRows s' = sRows s.
Proof.
  intros [Hok Hq Hf]. unfold DS.generateID. destruct (LH.generateID ty (mCurrentHeader (sDelta s))) as [h id] eqn:E.
  exists id. eexists. split; [done|]. split; [|done].
  assert (headerSeq h = headerSeq (mCurrentHeader (sDelta s)) /\ headerTime h = headerTime (mCurrentHeader (sDelta s))) as [E1 E2].
  { unfold LH.generateID in E. destruct (LH.bumpGenerator _ _) in E. injection E as <- _. rewrite !headerSeq_ok, !headerTime_ok. done. }
  destruct Hok as [[Hs Hre] Hnd Hrow Hc [Hsq1 Hsq2]]. split; [|cbn; congruence|done].
  split; [|done|exact Hrow|exact Hc|split; cbn; congruence]. split; [|exact Hre]. by destruct Hs.
Qed.

Lemma asOffer_lock R extra id : bookInv commissionID R extra -> rowsFind R (balanceKey id) = None -> sumOf (lockOn id) R = 0.
Proof.
  intros Hi Hn. apply sumOf_zero. intros e Hin. unfold lockOn. destruct (asOffer e) as [g|] eqn:E.
  2:{ destruct (asRequest e) as [r|] eqn:Er; [|done]. apply from_inv in Er as ->.
      assert (hasRequest R r) as Hr. { unfold hasRequest. rewrite <- key_request. by apply rowsFind_elem; [apply Hi|]. }
      pose proof (bi_request _ _ _ Hi r Hr) as Ho. unfold requestOk, requestLock in *. destruct (requestBody (data r)); [done| | |done..];
        destruct Ho as (_ & _ & a & f & Hf & If & _); (case_bool_decide as Eid; [|done]); rewrite <- Eid, <- If, (Hf : rowsFind _ _ = _) in Hn; done. }
  apply from_inv in E as ->.
  assert (hasOffer R g) as Hg. { unfold hasOffer. rewrite <- key_offer. by apply rowsFind_elem; [apply Hi|]. }
  pose proof (bi_offer _ _ _ Hi g Hg) as [_ _ _ _ _ (b & Hb & Ib & _) (q & Hq & Iq & _)]. apply offerLock_other; intros ->.
  - rewrite <- Ib, (Hb : rowsFind _ _ = _) in Hn. done.
  - rewrite <- Iq, (Hq : rowsFind _ _ = _) in Hn. done.
Qed.

(** A row of no balance and no offer, or an empty balance, changes no sum. *)
Lemma bookInv_newBalance R R' f : bookInv commissionID R (fun _ => 0) -> distinctRows R' ->
  (forall k, rowsFind R' k = update (balanceKey (balanceID (data f))) (Some (toEntry f)) (rowsFind R) k) ->
  rowsFind R (balanceKey (balanceID (data f))) = None -> amount (data f) = 0 -> locked (data f) = 0 ->
  isAssetCodeValid (balAsset (data f)) = true ->
  bookInv commissionID R' (fun _ => 0) /\ sameTotals R R'.
Proof.
  intros Hi Hd' Hv Hn Ha Hl Hc. pose proof (bi_distinct _ _ _ Hi) as Hd.
  assert (forall w : Entry -> Z, sumOf w R' = sumOf w R + w (toEntry f)) as Hsum.
  { intros w. rewrite (rows_perm R' (write (balanceKey (balanceID (data f))) (Some (toEntry f)) R)); [|done|apply write_distinct; [apply key_balance|done]|].
    - rewrite sumOf_write, Hn by done. cbn [ofRow]. lia.
    - intros k. by rewrite Hv, rowsFind_write by apply key_balance. }
  assert (forall a, fundsOf a (toEntry f) = 0) as Hf0.
  { intros a. rewrite fundsOf_balance. unfold assetFunds, funds. case_bool_decide; lia. }
  assert (forall g, hasBalance R g -> hasBalance R' g) as Hkeep.
  { intros g Hg. unfold hasBalance in *. rewrite Hv. unfold update. rewrite eqvb_neq; [done|]. intros E. congruence. }
  assert (forall k, otherKey k -> rowsFind R' k = rowsFind R k) as Hoth.
  { intros k Hk. rewrite Hv. unfold update. rewrite eqvb_neq; [done|by apply otherKey_balance]. }
  split; [|split; [intros a; rewrite Hsum, Hf0; lia|done]]. split; [done|..].
  - intros g Hg. unfold hasBalance in Hg. rewrite Hv in Hg. unfold update in Hg. rewrite Hsum, lockOn_balance.
    destruct (eqvb _ _) eqn:E.
    + injection Hg as Hg. apply toEntry_inj in Hg as <-; [|tc_solve].
      rewrite (asOffer_lock R (fun _ => 0)) by done. cbv beta. split_and!; done || lia.
    + destruct (bi_balance _ _ _ Hi g Hg) as (? & ? & ? & ?). cbv beta in *. split_and!; done || lia.
  - intros g Hg. unfold hasOffer in Hg. rewrite Hv in Hg. unfold update in Hg. rewrite eqvb_neq in Hg by apply balanceKey_offer.
    destruct (bi_offer _ _ _ Hi g Hg) as [? ? ? ? ? (b & ? & ?) (q & ? & ?)]. split; try done; [exists b|exists q]; split; auto.
  - intros p Hp. unfold hasPair in Hp. rewrite Hv in Hp. unfold update in Hp. rewrite eqvb_neq in Hp by apply balanceKey_pair. by apply Hi.
  - intros r Hr. unfold hasRequest in Hr. rewrite Hoth in Hr by apply otherKey_request. apply (requestOk_mono commissionID R); [|by apply Hi].
    intros id w a (g & Hg & Hs'). exists g. split; [by apply Hkeep|done].
  - intros a. rewrite Hsum, Hf0. pose proof (bi_total _ _ _ Hi a). lia.
Qed.

Definition kept R R' : Prop := (forall f, hasBalance R f -> hasBalance R' f) /\ (forall p, hasPair R p -> hasPair R' p) /\
  (length R' <= S (length R))%nat /\ sameTotals R R'.

Lemma length_sum {A} (l : list A) : Z.of_nat (length l) = sumOf (fun _ => 1) l.
Proof. induction l as [|a l IH]; [done|]. rewrite sumOf_cons, <- IH. cbn [length]. lia. Qed.

Lemma ensureBalance_wp L s w asset : ready L s -> bookInv commissionID (sRows s) (fun _ => 0) ->
  wp (DS.loadOrCreateBalanceFrameForAsset dp w asset) (fun cb s' => ready L s' /\ bookInv commissionID (sRows s') (fun _ => 0) /\
    kept (sRows s) (sRows s') /\ balAccountID (data cb) = w /\ balAsset (data cb) = asset /\
    exists row, hasBalance (sRows s') row /\ data row = data cb) (fun x _ => thrown x) s.
Proof.
  intros Hr Hi. unfold DS.loadOrCreateBalanceFrameForAsset. apply wp_bind.
  eapply wp_mono; [apply (reads_loadBalanceFor dp seq flag (sRows s) true w asset (bi_distinct _ _ _ Hi) L s Hr eq_refl)| |done].
  intros [cb|] s1 (Hr1 & Hs1 & Hcb).
  { destruct Hcb as (Hh & Hw & Ha). cbn. rewrite Hs1. split_and!; try done; [split_and!; done || lia|]. by exists cb. }
  apply wp_bind. unfold DS.assetExists. apply wp_bind. cbn [wp get]. destruct (match ES.selectRow _ _ with Some _ => true | None => false end); [|by apply thrown_error].
  cbn [negb]. apply wp_bind. destruct (generateID_ret L s1 (BALANCE_TYPE dp) Hr1) as (id & s2 & E2 & Hr2 & Hs2). unfold wp at 1. rewrite E2. cbv zeta.
  set (f := {| lastModified := 0; data := BF.createNew (forAccount dp w id) w asset |}).
  apply wp_bind. eapply wp_mono; [apply (add_wp seq flag Hseq L s2 f touch_balance Hr2)| |done].
  intros _ s3 (Hn & Hv & Hr3 & Hrow). rewrite key_balance in Hn, Hrow. rewrite valid_balance in Hv by done.
  assert (sRows s2 = sRows s) as Es by congruence. rewrite Es in *.
  destruct (bookInv_newBalance (sRows s) (sRows s3) (stamp f) Hi) as [Hb Ht]; try done; [apply Hr3|].
  assert (kept (sRows s) (sRows s3)) as Hk.
  2:{ split_and!; try done. exists (stamp f). split; [|done]. unfold hasBalance. rewrite Hrow. unfold update. by rewrite eqvb_refl. }
  split_and!; [| | |done].
  - intros g Hg. unfold hasBalance in *. rewrite Hrow. unfold update. rewrite eqvb_neq; [done|]. intros E. congruence.
  - intros p Hp. unfold hasPair in *. rewrite Hrow. unfold update. by rewrite eqvb_neq by apply balanceKey_pair.
  - apply Nat2Z.inj_le. rewrite Nat2Z.inj_succ, !length_sum.
    rewrite (wrote_sum seq flag L s2 (balanceKey (balanceID (data f))) (Some (toEntry (stamp f))) s3 (fun _ => 1));
      [|rewrite Es; apply Hi|exact (key_balance (stamp f))|split; [done|by rewrite Es]]. rewrite Es, Hn. cbn [ofRow]. lia.
Qed.

(** What locking does to the two balances. *)
Lemma lockedFrames_facts (o : OfferEntry) bb qb bb' qb' : baseBalance o <> quoteBalance o -> (bb', qb') = lockedFrames o bb qb ->
  inRange (data bb) -> inRange (data qb) -> 0 < lockOf o <= amount (data (if isBuy o then qb else bb)) ->
  sameBalance bb bb' /\ sameBalance qb qb' /\ inRange (data bb') /\ inRange (data qb') /\
  locked (data bb') - locked (data bb) = offerLock (baseBalance o) o /\ locked (data qb') - locked (data qb) = offerLock (quoteBalance o) o /\
  funds (data bb') = funds (data bb) /\ funds (data qb') = funds (data qb) /\ lockOf o <= locked (data (if isBuy o then qb' else bb')).
Proof.
  intros Hne Hlk (B1 & B2 & B3) (Q1 & Q2 & Q3) Hn. rewrite offerLock_base, offerLock_quote by done.
  unfold lockedFrames, lockOf, funds, inRange in *. destruct (isBuy o); injection Hlk as -> ->; cbn in *; unfold funds in *; cbn; repeat split; lia || done.
Qed.

(** ** Before the matching *)

Lemma start_inv L s (o : OfferEntry) bb qb bb' qb' cb row c trail paid :
  ready L s -> bookInv commissionID (sRows s) (fun _ => 0) -> hasBalance (sRows s) bb -> hasBalance (sRows s) qb ->
  balanceID (data bb) = baseBalance o -> balanceID (data qb) = quoteBalance o -> balAccountID (data bb) = accountID source ->
  balAccountID (data qb) = accountID source -> balAsset (data bb) = base o -> balAsset (data qb) = quote o -> base o <> quote o ->
  ownerID o = accountID source -> accountID source <> commissionID -> tradable o ->
  hasBalance (sRows s) row -> data row = data cb -> balAccountID (data cb) = commissionID -> balAsset (data cb) = quote o ->
  (bb', qb') = lockedFrames o bb qb -> 0 < lockOf o <= amount (data (if isBuy o then qb else bb)) ->
  let tk := {| offerA := o; baseBalanceA := bb'; quoteBalanceA := qb'; mCommissionBalance := cb; mOfferTrail := trail;
               mFeePaidByA := paid; takerCode := c |} in
  takerInv s tk /\ sameTotals (sRows s) (bookOf s tk).
Proof.
  intros Hr Hi Hb Hq Ib Iq Wb Wq Ab Aq Hne How Hsc T Hrow Hd Wc Ac Hlk Hn tk.
  destruct (bi_balance _ _ _ Hi _ Hrow) as (C1 & C2 & _). rewrite Hd in C1, C2.
  assert (baseBalance o <> quoteBalance o) as Nbq.
  { intros E. apply Hne. rewrite <- Ab, <- Aq. by rewrite (hasBalance_inj _ bb qb Hb Hq) by congruence. }
  assert (balanceID (data cb) <> baseBalance o /\ balanceID (data cb) <> quoteBalance o) as [Ncb Ncq].
  { rewrite <- Ib, <- Iq, <- Hd. split; eapply ids_differ; try done; rewrite Hd; congruence. }
  destruct (lockedFrames_facts o bb qb bb' qb' Nbq Hlk) as (Sb & Sq & (N1 & N2 & _) & (N3 & N4 & _) & E1 & E2 & F1 & F2 & Hl); try done;
    [by eapply bookInv_inRange|by eapply bookInv_inRange|].
  set (ps := [(bb, bb'); (qb, qb'); (row, cb)]).
  assert (stepped (sRows s) None ps (bookOf s tk)) as Hst by (split; [apply overlay_distinct, Hi|done]).
  assert (stepOk commissionID (sRows s) None ps (fun _ => 0) (fun id => offerLock id o)) as Hok.
  { split; [done| | | |done].
    - unfold ids. cbn. rewrite Ib, Iq, Hd. repeat (apply NoDup_cons; split; [set_solver|]). constructor.
    - repeat (apply Forall_cons; split); [..|by apply Forall_nil]; (split; cbn [fst snd slotLock]; [done|try done|try done|try done|]); try rewrite Hd; try done.
      + cbv zeta. rewrite Ib. lia.
      + cbv zeta. rewrite Iq. lia.
      + unfold sameBalance. by rewrite Hd.
      + cbv zeta. rewrite offerLock_other by done. lia.
    - intros id Hid. unfold ids in Hid. cbn in Hid. rewrite Ib, Iq in Hid. cbn [slotLock]. rewrite offerLock_other by set_solver. lia. }
  assert (forall a, gain a ps = 0) as Hg.
  { intros a. unfold gain, ps. rewrite !sumOf_cons, sumOf_nil. cbn [fst snd].
    rewrite (funds_diff a bb bb' 0 Sb), (funds_diff a qb qb' 0 Sq), (funds_diff a row cb 0); [repeat case_bool_decide; lia|unfold sameBalance; by rewrite Hd|rewrite Hd; lia|lia|lia]. }
  split; [|apply (stepped_same commissionID _ _ _ _ _ _ Hi Hok Hst Hg)].
  destruct Sb as (Sb1 & Sb2 & Sb3), Sq as (Sq1 & Sq2 & Sq3).
  assert (memoryIds tk = [baseBalance o; quoteBalance o; balanceID (data cb)]) as Hids.
  { unfold memoryIds, tk. cbn. by rewrite Sb1, Sq1, Ib, Iq. }
  assert (NoDup (map getLedgerKey (memory tk))) as Hmd.
  { rewrite memory_keys, Hids. apply balanceKeys_NoDup. repeat (apply NoDup_cons; split; [set_solver|]). constructor. }
  assert (forall f, toEntry f ∈ memory tk -> hasBalance (bookOf s tk) f) as Hhas.
  { intros f Hin. unfold hasBalance. rewrite <- key_balance. by apply rowsFind_overlay_in. }
  split; cbn [offerA baseBalanceA quoteBalanceA mCommissionBalance tk]; try done; try congruence.
  - apply (bookInv_step commissionID _ _ _ _ _ _ Hi Hok Hst). intros a. by rewrite Hg.
  - split; try done; try congruence; apply Hhas; unfold memory; cbn; set_solver.
  - apply Hhas. unfold memory. cbn. set_solver.
  - apply Forall_forall. unfold memory. cbn [tk baseBalanceA quoteBalanceA mCommissionBalance]. intros e He. rewrite !elem_of_cons in He.
    destruct He as [-> |[-> |[-> |He]]]; [| | |by apply not_elem_of_nil in He]; rewrite key_balance.
    + rewrite Sb1, (Hb : rowsFind _ _ = _). by eexists.
    + rewrite Sq1, (Hq : rowsFind _ _ = _). by eexists.
    + rewrite <- Hd, (Hrow : rowsFind _ _ = _). by eexists.
  - apply Hi.
Qed.

(** ** After the matching *)

(** A row that is no balance, offer or request holds no money. *)
Definition plainKind (k : Key) : Prop := keyKind k <> KIND_BALANCE /\ keyKind k <> KIND_OFFER /\ keyKind k <> KIND_REQUEST.

Lemma plain_entry k e : plainKind k -> getLedgerKey e = k -> asBalance e = None /\ asOffer e = None /\ asRequest e = None.
Proof.
  intros (K1 & K2 & K3) <-. split_and!; [destruct (asBalance e) as [f|] eqn:E|destruct (asOffer e) as [f|] eqn:E|destruct (asRequest e) as [f|] eqn:E];
    try done; apply from_inv in E as ->; by rewrite ?key_balance, ?key_offer, ?key_request, ?kind_balance, ?kind_offer, ?kind_request in *.
Qed.

Lemma bookInv_row R R' extra k v : bookInv commissionID R extra -> distinctRows R' -> (forall k', rowsFind R' k' = update k v (rowsFind R) k') ->
  keyOf k v -> plainKind k -> (forall p : Frame AssetPairEntry, v = Some (toEntry p) -> pairOk (data p)) ->
  bookInv commissionID R' extra /\ (forall a, sumOf (fundsOf a) R' = sumOf (fundsOf a) R) /\ forall k', k <> k' -> rowsFind R' k' = rowsFind R k'.
Proof.
  intros Hi Hd' Hv Hkv Hk Hp. pose proof (bi_distinct _ _ _ Hi) as Hd.
  assert (forall w : Entry -> Z, (forall e, asBalance e = None -> asOffer e = None -> asRequest e = None -> w e = 0) -> sumOf w R' = sumOf w R) as Hsum.
  { intros w Hw. assert (forall o, keyOf k o -> ofRow w o = 0) as Hz.
    { intros [e|] He; [|done]. destruct (plain_entry k e Hk He) as (E1 & E2 & E3). by apply Hw. }
    rewrite (rows_perm R' (write k v R)); [|done|by apply write_distinct|intros k'; by rewrite Hv, rowsFind_write].
    rewrite sumOf_write by done. rewrite (Hz v Hkv), Hz; [lia|]. destruct (rowsFind R k) as [e|] eqn:E; [|done]. by apply rowsFind_Some in E as [E _]. }
  assert (forall a, sumOf (fundsOf a) R' = sumOf (fundsOf a) R) as Hf by (intros a; apply Hsum; intros e E _ _; unfold fundsOf; by rewrite E).
  assert (forall id, sumOf (lockOn id) R' = sumOf (lockOn id) R) as Hl by (intros id; apply Hsum; intros e _ E Er; unfold lockOn; by rewrite E, Er).
  assert (forall k', k <> k' -> rowsFind R' k' = rowsFind R k') as Hoth by (intros k' Hne; rewrite Hv; unfold update; by rewrite eqvb_neq).
  destruct Hk as (K1 & K2 & K3).
  assert (forall id, rowsFind R' (balanceKey id) = rowsFind R (balanceKey id)) as Hb by (intros id; apply Hoth; intros ->; by rewrite kind_balance in K1).
  assert (forall id w a, ownBalance R id w a -> ownBalance R' id w a) as Hown.
  { intros id w a (f & Hf' & Hs'). exists f. split; [|done]. unfold hasBalance. by rewrite Hb. }
  split; [|split; [done|done]]. split; [done|..].
  - intros f Hf'. unfold hasBalance in Hf'. rewrite Hb in Hf'. rewrite Hl. by apply Hi.
  - intros g Hg. unfold hasOffer in Hg. rewrite Hoth in Hg by (intros ->; by rewrite kind_offer in K2).
    destruct (bi_offer _ _ _ Hi g Hg) as [? ? ? ? ? ? ?]. split; auto.
  - intros p' Hp'. unfold hasPair in Hp'. rewrite Hv in Hp'. unfold update in Hp'. destruct (eqvb _ _); [by apply Hp|by apply Hi].
  - intros r Hr. unfold hasRequest in Hr. rewrite Hoth in Hr by (intros ->; by rewrite kind_request in K3). apply (requestOk_mono commissionID R); [done|by apply Hi].
  - intros a. rewrite Hf. apply Hi.
Qed.

(** A row of an asset pair. *)
Lemma bookInv_pairRow R R' extra (p : Frame AssetPairEntry) : bookInv commissionID R extra -> distinctRows R' ->
  (forall k, rowsFind R' k = update (pairKey (pairBase (data p)) (pairQuote (data p))) (Some (toEntry p)) (rowsFind R) k) -> pairOk (data p) ->
  bookInv commissionID R' extra /\ sameTotals R R'.
Proof.
  intros Hi Hd' Hv Hp. destruct (bookInv_row R R' extra _ _ Hi Hd' Hv) as (H1 & H2 & H3).
  - exact (key_pair p).
  - unfold plainKind. by rewrite kind_pair.
  - intros p' [= E]. apply toEntry_inj in E as <-; [done|tc_solve].
  - split; [done|]. split; [done|]. intros k Hk. apply H3. by apply otherKey_pair.
Qed.

(** Storing a pair may find it invalid. *)
Lemma change_wp {T} `{EntryData Entry T} L s (f : Frame T) : stampable T -> ready L s -> is_Some (rowsFind (sRows s) (getLedgerKey (toEntry f))) ->
  wp (DS.storeChangeEntry f) (fun _ s' => isValid (toEntry (stamp f)) = true /\
    wrote L s (getLedgerKey (toEntry f)) (Some (toEntry (stamp f))) s') (fun x _ => thrown x) s.
Proof.
  intros Ht Hr Hs. destruct (isValid (toEntry (stamp f))) eqn:Hv.
  - destruct (change_ret seq flag Hseq L s f Ht Hr Hv Hs) as (s' & E & Hw). unfold wp. by rewrite E.
  - unfold wp, DS.storeChangeEntry, ES.storeChange, ES.storeUpdateHelper. unfold mbind at 1, M_bind at 1.
    rewrite touch_ret by (by rewrite (re_seq _ _ _ _ Hr)). rewrite (touched_stamp seq flag L s f Ht Hr).
    unfold ES.storeTouched. rewrite Hv. by apply thrown_error.
Qed.

End OfferFacts.

(** * Creating and deleting offers, as whole operations *)

Section OfferApply.
Context {Key Entry : Type} `{Ord Key} `{EqDecision Entry}.
Context {helper : EntryHelper Key Entry LedgerHeader} {helperOk : EntryHelperOk helper} {headerOk : HeaderOk helper}.
Context {dex : DexEntries Key Entry} {dexOk : DexEntriesOk helper dex} (dp : DexParams) (max_size : nat).
Context (orderBy : (Frame OfferEntry -> Frame OfferEntry -> bool) -> list (Frame OfferEntry) -> list (Frame OfferEntry)) {sortOk : SortOk orderBy}.
Context (seq : Z) (flag : bool) (Hseq : seq <> 0) (commissionID : PublicKey) (source : AccountEntry).
Local Abbreviation St := (Store Key Entry LedgerHeader).
Local Abbreviation ready := (ready seq flag).
Local Abbreviation wrote := (wrote seq flag).
Local Abbreviation stamp := (stamp seq flag).
Local Abbreviation takerInv := (takerInv commissionID (accountID source)).
Implicit Types (s : St) (L : Key -> option Entry) (tk : Taker) (R : list Entry) (f : Frame BalanceEntry) (op : OM.ManageOfferOp).

(** The commission balance is in the rows. *)
Definition commissionRow s tk : Prop := exists row, hasBalance (sRows s) row /\ data row = data (mCommissionBalance tk).

Lemma pairKey_memory b q tk : pairKey b q ∉ map getLedgerKey (memory tk).
Proof. rewrite memory_keys. intros Hin. apply list_elem_of_In, in_map_iff in Hin as (id & E & _). by apply balanceKey_pair in E. Qed.

Lemma storeTraded_wp L s tk (p : Frame AssetPairEntry) : ready L s -> takerInv s tk -> hasPair (sRows s) p -> pairOk (data p) ->
  (mOfferTrail tk = [] -> commissionRow s tk) ->
  wp (match last (mOfferTrail tk) with
      | Some atom =>
          DS.storeChangeEntry (withData p (AP.setCurrentPrice (data p) (currentPrice atom)));; DS.storeChangeEntry (mCommissionBalance tk)
      | None => mret tt
      end) (fun _ s' => ready L s' /\ takerInv s' tk /\ sameTotals (bookOf s tk) (bookOf s' tk) /\ commissionRow s' tk) (fun x _ => thrown x) s.
Proof.
  intros Hr Hi Hp Hok Htr. destruct (last (mOfferTrail tk)) as [atom|] eqn:El.
  2:{ apply last_None in El. cbn. split_and!; try done. by apply Htr. }
  set (p' := withData p (AP.setCurrentPrice (data p) (currentPrice atom))). set (cb := mCommissionBalance tk).
  apply wp_bind. eapply wp_mono; [apply (change_wp seq flag Hseq L s p' touch_pair Hr)| |done].
  { rewrite key_pair. cbn. rewrite (Hp : rowsFind _ _ = _). by eexists. }
  intros _ s1 [Hv W1]. rewrite key_pair in W1. rewrite valid_pair in Hv.
  pose proof (ti_commission _ _ _ _ Hi) as Hc. pose proof (bookInv_inRange _ _ _ _ (ti_book _ _ _ _ Hi) Hc) as Rc.
  destruct (bi_balance _ _ _ (ti_book _ _ _ _ Hi) _ Hc) as (_ & _ & Vc & _).
  assert (toEntry cb ∈ memory tk) as Hin by (unfold memory, cb; set_solver).
  pose proof (proj1 (Forall_forall _ _) (ti_stored _ _ _ _ Hi)) as Hst.
  destruct (changeBalance_ret seq flag Hseq L s1 cb) as (s2 & E2 & W2); [apply W1|done|done| |].
  { rewrite (wrote_other seq flag L s _ _ s1 _ W1); [|intros E; symmetry in E; by apply balanceKey_pair in E].
    rewrite <- key_balance. by apply Hst. }
  unfold wp. rewrite E2.
  assert (forall k, rowsFind (bookOf s2 tk) k = update (pairKey (pairBase (data (stamp p'))) (pairQuote (data (stamp p')))) (Some (toEntry (stamp p'))) (rowsFind (bookOf s tk)) k) as Hview.
  { intros k. unfold update. cbn [stamp data]. destruct (eqvb (pairKey _ _) k) eqn:Ek.
    - apply eqvb_eq in Ek as <-. unfold bookOf. rewrite rowsFind_overlay_out by apply pairKey_memory.
      rewrite (wrote_other seq flag L s1 _ _ s2 _ W2) by apply balanceKey_pair. apply (wrote_same seq flag L s _ _ s1 W1).
    - unfold bookOf. rewrite !rowsFind_overlay. destruct (List.find _ (memory tk)) eqn:Ef; [done|].
      rewrite (proj2 W2). unfold update. destruct (eqvb (balanceKey _) k) eqn:Ec.
      + pose proof (List.find_none _ _ Ef (toEntry cb) (proj1 (list_elem_of_In _ _) Hin)) as Hno. cbn beta in Hno. by rewrite key_balance, Ec in Hno.
      + rewrite (proj2 W1). unfold update. cbn [p' withData data AP.setCurrentPrice pairBase pairQuote] in Ek |- *. by rewrite Ek. }
  destruct (bookInv_pairRow commissionID (bookOf s tk) (bookOf s2 tk) _ (stamp p') (ti_book _ _ _ _ Hi)) as [Hb Ht];
    [apply overlay_distinct, W2|done|split; [done|apply Hok]|].
  split_and!; [apply W2| |done|].
  - eapply takerInv_rows; [done|exact Hi|done|apply W2|]. intros e He. rewrite (proj2 W2). unfold update. destruct (eqvb _ _); [by eexists|].
    rewrite (proj2 W1). revert e He. apply (memory_stays commissionID (accountID source) s); [done|apply pairKey_memory|done].
  - exists (stamp cb). split; [|done]. apply (wrote_same seq flag L s1 _ _ s2 W2).
Qed.

(** ** Storing what is left *)

(** The new offer when it is stored. *)
Definition storedOffer tk (id : Z) : OfferEntry :=
  CO.setNewOffer (offerA tk) id (createdAt (offerA tk)) (fee (offerA tk)) (percentFee (offerA tk)).

Lemma storedOffer_lock tk id b : offerLock b (storedOffer tk id) = offerLock b (offerA tk).
Proof. done. Qed.

Lemma storedOffer_ok s tk id : takerInv s tk -> needsMore (offerA tk) = true -> offerOk commissionID (bookOf s tk) (storedOffer tk id).
Proof.
  intros Hi Hn. pose proof (ti_party _ _ _ _ Hi) as Hp. pose proof (ti_book _ _ _ _ Hi) as Hb.
  destruct (bi_balance _ _ _ Hb _ (pa_base _ _ _ _ Hp)) as (_ & _ & V1 & _). destruct (bi_balance _ _ _ Hb _ (pa_quote _ _ _ _ Hp)) as (_ & _ & V2 & _).
  rewrite (pa_baseAsset _ _ _ _ Hp) in V1. rewrite (pa_quoteAsset _ _ _ _ Hp) in V2. pose proof (pa_tradable _ _ _ _ Hp) as T.
  split.
  - destruct T. by split.
  - exact Hn.
  - unfold OF.isValid. cbn [storedOffer CO.setNewOffer base quote baseAmount quoteAmount price fee]. rewrite V1, V2.
    pose proof Hn as Hn'. unfold needsMore in Hn'. zify_bool. pose proof (tr_price _ T). pose proof (tr_fee _ T).
    rewrite !andb_true_iff, !Z.gtb_ltb, Z.geb_leb, !Z.ltb_lt, Z.leb_le. split_and!; done || lia.
  - apply Hi.
  - cbn. rewrite (ti_owner _ _ _ _ Hi). apply Hi.
  - exists (baseBalanceA tk). cbn. rewrite (ti_owner _ _ _ _ Hi). split_and!; apply Hp || apply Hi.
  - exists (quoteBalanceA tk). cbn. rewrite (ti_owner _ _ _ _ Hi). split_and!; apply Hp || apply Hi.
Qed.

(** The last step: the frames reach the rows, with the offer or without. *)
Lemma final_step s s' tk sl (bF qF row : Frame BalanceEntry) : takerInv s tk -> distinctRows (sRows s') ->
  hasBalance (sRows s) row -> data row = data (mCommissionBalance tk) -> slotKeyOk sl ->
  (forall k, rowsFind (sRows s') k = update (balanceKey (balanceID (data (quoteBalanceA tk)))) (Some (toEntry qF))
     (update (balanceKey (balanceID (data (baseBalanceA tk)))) (Some (toEntry bF)) (rowsFind (inSlot sl (sRows s)))) k) ->
  (forall i w v, sl = Some (i, w, v) -> rowsFind (sRows s) (offerKey i w) = None /\ exists g, v = Some g /\
     offerOk commissionID (bookOf s tk) (data g)) ->
  sameBalance (baseBalanceA tk) bF -> sameBalance (quoteBalanceA tk) qF -> inRange (data bF) -> inRange (data qF) ->
  funds (data bF) = funds (data (baseBalanceA tk)) -> funds (data qF) = funds (data (quoteBalanceA tk)) ->
  (forall id, slotLock sl (bookOf s tk) id - offerLock id (offerA tk) <= 0) ->
  slotLock sl (bookOf s tk) (baseBalance (offerA tk)) - offerLock (baseBalance (offerA tk)) (offerA tk) <= locked (data bF) - locked (data (baseBalanceA tk)) ->
  slotLock sl (bookOf s tk) (quoteBalance (offerA tk)) - offerLock (quoteBalance (offerA tk)) (offerA tk) <= locked (data qF) - locked (data (quoteBalanceA tk)) ->
  bookInv commissionID (sRows s') (fun _ => 0) /\ sameTotals (bookOf s tk) (sRows s').
Proof.
  intros Hi Hd' Hrow Hd Hsk Hview Hsl Sb Sq (N1 & N2 & _) (N3 & N4 & _) F1 F2 L0 L1 L2. pose proof (ti_party _ _ _ _ Hi) as Hp.
  pose proof (memoryIds_distinct _ _ s tk Hi) as Hnd. unfold memoryIds in Hnd.
  set (ps := [(quoteBalanceA tk, qF); (baseBalanceA tk, bF); (mCommissionBalance tk, row)]).
  destruct (bi_balance _ _ _ (ti_book _ _ _ _ Hi) _ (ti_commission _ _ _ _ Hi)) as (C1 & C2 & _).
  assert (sameBalance (mCommissionBalance tk) row) as Sc by (unfold sameBalance; by rewrite Hd).
  assert (stepped (bookOf s tk) sl ps (sRows s')) as Hst.
  { split; [done|]. intros k. rewrite Hview, (rowsFind_overlay (news ps)). cbn [ps news map List.find snd]. unfold update.
    rewrite !key_balance, (proj1 Sb), (proj1 Sq), (proj1 Sc).
    destruct (eqvb (balanceKey (balanceID (data (quoteBalanceA tk)))) k) eqn:E1; [done|].
    destruct (eqvb (balanceKey (balanceID (data (baseBalanceA tk)))) k) eqn:E2; [done|].
    destruct (eqvb (balanceKey (balanceID (data (mCommissionBalance tk)))) k) eqn:E3.
    - apply eqvb_eq in E3 as <-. rewrite rowsFind_inSlot_balance by done. rewrite <- (proj1 Sc). exact Hrow.
    - rewrite !rowsFind_inSlot by done. unfold bookOf. rewrite rowsFind_overlay. cbn [memory List.find]. rewrite !key_balance, E1, E2, E3. done. }
  assert (stepOk commissionID (bookOf s tk) sl ps (fun id => offerLock id (offerA tk)) (fun _ => 0)) as Hok.
  { split; [done| | | |].
    - unfold ids. cbn. rewrite !NoDup_cons, !not_elem_of_cons in *. repeat split; try apply not_elem_of_nil; try apply NoDup_nil_2; intuition congruence.
    - repeat (apply Forall_cons; split); [..|by apply Forall_nil]; (split; cbn [fst snd]; [apply Hp || apply Hi|done|try done|try done|]).
      + rewrite (pa_quoteID _ _ _ _ Hp). cbv zeta. lia.
      + rewrite (pa_baseID _ _ _ _ Hp). cbv zeta. lia.
      + by rewrite Hd.
      + by rewrite Hd.
      + cbv zeta. rewrite Hd. specialize (L0 (balanceID (data (mCommissionBalance tk)))). lia.
    - intros id _. specialize (L0 id). lia.
    - intros i w g E. destruct (Hsl i w (Some g) E) as (_ & g' & [= ->] & Hg). done. }
  assert (forall a, gain a ps = 0) as Hg.
  { intros a. unfold gain, ps. rewrite !sumOf_cons, sumOf_nil. cbn [fst snd].
    rewrite (funds_diff a _ qF 0 Sq), (funds_diff a _ bF 0 Sb), (funds_diff a _ row 0 Sc); [repeat case_bool_decide; lia|rewrite Hd; lia|lia|lia]. }
  split; [apply (bookInv_step commissionID _ _ _ _ _ _ (ti_book _ _ _ _ Hi) Hok Hst); intros a; by rewrite Hg|].
  apply (stepped_same commissionID _ _ _ _ _ _ (ti_book _ _ _ _ Hi) Hok Hst Hg).
Qed.

(** Storing the two balances of the offer ends the operation. *)
Record leaves tk sl s (bF qF : Frame BalanceEntry) : Prop := {
  lv_base : sameBalance (baseBalanceA tk) bF;
  lv_quote : sameBalance (quoteBalanceA tk) qF;
  lv_baseRange : inRange (data bF);
  lv_quoteRange : inRange (data qF);
  lv_baseFunds : funds (data bF) = funds (data (baseBalanceA tk));
  lv_quoteFunds : funds (data qF) = funds (data (quoteBalanceA tk));
  lv_others : forall id, slotLock sl (bookOf s tk) id - offerLock id (offerA tk) <= 0;
  lv_baseLock : slotLock sl (bookOf s tk) (baseBalance (offerA tk)) - offerLock (baseBalance (offerA tk)) (offerA tk) <=
    locked (data bF) - locked (data (baseBalanceA tk));
  lv_quoteLock : slotLock sl (bookOf s tk) (quoteBalance (offerA tk)) - offerLock (quoteBalance (offerA tk)) (offerA tk) <=
    locked (data qF) - locked (data (quoteBalanceA tk));
}.

Lemma final_ret {A} L s s1 tk sl bF qF (r : A) : ready L s1 -> takerInv s tk -> commissionRow s tk -> slotKeyOk sl ->
  (forall k, rowsFind (sRows s1) k = rowsFind (inSlot sl (sRows s)) k) ->
  (forall i w v, sl = Some (i, w, v) -> rowsFind (sRows s) (offerKey i w) = None /\ exists g, v = Some g /\
     offerOk commissionID (bookOf s tk) (data g)) ->
  leaves tk sl s bF qF ->
  exists s', (DS.storeChangeEntry bF;; DS.storeChangeEntry qF;; mret r) s1 = Ret r s' /\
    ready L s' /\ bookInv commissionID (sRows s') (fun _ => 0) /\ sameTotals (bookOf s tk) (sRows s').
Proof.
  intros Hr Hi (row & Hrow & Hd) Hsk Hs1 Hsl Hl. pose proof (ti_party _ _ _ _ Hi) as Hp. pose proof (ti_book _ _ _ _ Hi) as Hb.
  destruct (lv_base _ _ _ _ _ Hl) as (Ib & Wb & Ab). destruct (lv_quote _ _ _ _ _ Hl) as (Iq & Wq & Aq).
  assert (forall f, f ∈ [baseBalanceA tk; quoteBalanceA tk] -> hasBalance (bookOf s tk) f ->
    isAssetCodeValid (balAsset (data f)) = true /\ is_Some (rowsFind (sRows s1) (balanceKey (balanceID (data f))))) as Hst.
  { intros f Hin Hf. split; [apply (bi_balance _ _ _ Hb f Hf)|]. rewrite Hs1, rowsFind_inSlot_balance, <- key_balance by done.
    apply (proj1 (Forall_forall _ _) (ti_stored _ _ _ _ Hi)). unfold memory. clear - Hin. set_solver. }
  destruct (Hst (baseBalanceA tk)) as [Vb Sb]; [clear; set_solver|apply Hp|]. destruct (Hst (quoteBalanceA tk)) as [Vq Sq]; [clear; set_solver|apply Hp|].
  destruct (changeBalance_ret seq flag Hseq L s1 bF) as (s2 & E2 & W2); [done|apply Hl|by rewrite Ab|by rewrite Ib|].
  destruct (changeBalance_ret seq flag Hseq L s2 qF) as (s3 & E3 & W3); [apply W2|apply Hl|by rewrite Aq| |].
  { rewrite (proj2 W2), Iq. unfold update. destruct (eqvb _ _); [by eexists|done]. }
  exists s3. rewrite (bind_ret _ _ _ _ _ E2), (bind_ret _ _ _ _ _ E3). split; [done|]. split; [apply W3|].
  apply (final_step s s3 tk sl (stamp bF) (stamp qF) row); try done; try apply Hl; [apply W3|].
  intros k. rewrite (proj2 W3), Iq. unfold update. destruct (eqvb _ _); [done|]. rewrite (proj2 W2), Ib. unfold update.
  destruct (eqvb _ _); [done|]. apply Hs1.
Qed.

(** The offer stays: its lock is now in the rows. *)
Lemma leaves_created s tk id (g : Frame OfferEntry) : takerInv s tk -> data g = storedOffer tk id ->
  rowsFind (sRows s) (offerKey id (accountID source)) = None ->
  leaves tk (Some (id, accountID source, Some g)) s (baseBalanceA tk) (quoteBalanceA tk).
Proof.
  intros Hi Hg Hn. pose proof (ti_party _ _ _ _ Hi) as Hp. pose proof (ti_book _ _ _ _ Hi) as Hb.
  assert (forall b, slotLock (Some (id, accountID source, Some g)) (bookOf s tk) b = offerLock b (offerA tk)) as E.
  { intros b. cbn [slotLock fmap option_fmap option_map ofRow]. rewrite book_offer, Hn, lockOn_offer, Hg, storedOffer_lock. cbn [ofRow]. lia. }
  split; try done; try (eapply bookInv_inRange; [exact Hb|apply Hp]); intros; rewrite ?E; lia.
Qed.

(** The offer is gone: what it had locked is given back. *)
Lemma leaves_deleted s tk : takerInv s tk ->
  leaves tk None s (withData (baseBalanceA tk) (releasedBase (offerA tk) (data (baseBalanceA tk))))
    (withData (quoteBalanceA tk) (releasedQuote (offerA tk) (data (quoteBalanceA tk)))).
Proof.
  intros Hi. pose proof (ti_party _ _ _ _ Hi) as Hp. pose proof (ti_book _ _ _ _ Hi) as Hb.
  pose proof (bookInv_inRange _ _ _ _ Hb (pa_base _ _ _ _ Hp)) as (B1 & B2 & B3). pose proof (bookInv_inRange _ _ _ _ Hb (pa_quote _ _ _ _ Hp)) as (Q1 & Q2 & Q3).
  destruct (released_fields (offerA tk) (data (baseBalanceA tk)) (data (quoteBalanceA tk))) as (F1 & F2 & F3 & F4 & F5 & F6).
  pose proof (pa_tradable _ _ _ _ Hp) as [T1 T2 _ T4 _ _]. pose proof (pa_lock _ _ _ _ Hp) as Hl. unfold lockOf in Hl.
  split; cbn [withData data]; try done; try lia.
  - unfold inRange, releasedBase, funds in *. destruct (isBuy (offerA tk)); cbn; lia.
  - unfold inRange, releasedQuote, funds in *. destruct (isBuy (offerA tk)); cbn; lia.
  - apply (released_funds (offerA tk) _ (data (quoteBalanceA tk))).
  - apply (released_funds (offerA tk) (data (baseBalanceA tk))).
  - intros id. cbn [slotLock]. pose proof (takerLock_nonneg _ _ s tk id Hi). lia.
  - cbn [slotLock]. rewrite releasedBase_lock by apply Hp. lia.
  - cbn [slotLock]. rewrite releasedQuote_lock by apply Hp. lia.
Qed.

Lemma finishOffer_wp L s tk (p : Frame AssetPairEntry) : ready L s -> takerInv s tk -> hasPair (sRows s) p -> pairOk (data p) ->
  (mOfferTrail tk = [] -> commissionRow s tk) ->
  wp (CO.finishOffer dp p tk) (fun r s' => ready L s' /\ bookInv commissionID (sRows s') (fun _ => 0) /\ sameTotals (bookOf s tk) (sRows s'))
    (fun x _ => thrown x) s.
Proof.
  intros Hr Hi Hp Hok Htr. unfold CO.finishOffer. apply wp_bind.
  eapply wp_mono; [by apply (storeTraded_wp L s tk p)| |done]. intros _ s1 (Hr1 & Hi1 & Ht1 & Hc1).
  pose proof (ti_party _ _ _ _ Hi1) as Hpa. pose proof (pa_tradable _ _ _ _ Hpa) as T.
  assert (forall R', sameTotals (bookOf s1 tk) R' -> sameTotals (bookOf s tk) R') as Htot by (intros R' HR; by eapply sameTotals_trans).
  apply wp_bind. unfold wp at 1. rewrite (needsMore_spec _ s1 T). destruct (needsMore (offerA tk)) eqn:En.
  - apply wp_bind, wp_bind. destruct (generateID_ret seq flag L s1 (OFFER_TYPE dp) Hr1) as (id & s2 & E2 & Hr2 & Hs2). unfold wp at 1. rewrite E2.
    fold (storedOffer tk id). set (g := {| lastModified := 0; data := storedOffer tk id |}).
    apply wp_bind. eapply wp_mono; [apply (add_wp seq flag Hseq L s2 g touch_offer Hr2)| |done].
    intros _ s3 (Hn & _ & Hr3 & Hrow). rewrite key_offer in Hn, Hrow. cbn [g data storedOffer CO.setNewOffer offerID ownerID] in Hn, Hrow.
    rewrite Hs2 in Hn, Hrow. rewrite (ti_owner _ _ _ _ Hi1) in Hn, Hrow.
    destruct (final_ret L s1 s3 tk (Some (id, accountID source, Some (stamp g))) (baseBalanceA tk) (quoteBalanceA tk)
      (true, {| code := takerCode tk; offersClaimed := mOfferTrail tk; effect := Some CREATED; createdOffer := Some (storedOffer tk id) |}))
      as (s4 & E4 & Hr4 & Hb4 & Ht4); try done.
    + split; [done|apply Hi1].
    + intros k. rewrite Hrow, rowsFind_inSlot by (split; [done|apply Hi1]). done.
    + intros i w v [= <- <- <-]. split; [done|]. exists (stamp g). split; [done|]. by apply storedOffer_ok.
    + by apply leaves_created.
    + cbn [wp mret M_ret]. unfold wp. rewrite E4. split_and!; try done. by apply Htot.
  - pose proof (ti_book _ _ _ _ Hi1) as Hb. pose proof (pa_lock _ _ _ _ Hpa) as Hlk. destruct T as [T1 T2 _ T4 _ _].
    apply wp_bind, wp_bind. unfold wp at 1. rewrite (unlockTaken_spec _ _ _ _ s1); try lia;
      [|eapply bookInv_inRange; [exact Hb|apply Hpa]|eapply bookInv_inRange; [exact Hb|apply Hpa]|by destruct (isBuy (offerA tk))].
    destruct (final_ret L s1 s1 tk None (withData (baseBalanceA tk) (releasedBase (offerA tk) (data (baseBalanceA tk))))
      (withData (quoteBalanceA tk) (releasedQuote (offerA tk) (data (quoteBalanceA tk))))
      (true, {| code := takerCode tk; offersClaimed := mOfferTrail tk; effect := Some DELETED; createdOffer := None |}))
      as (s4 & E4 & Hr4 & Hb4 & Ht4); try done; [by apply leaves_deleted|].
    cbn [wp mret M_ret]. unfold wp. rewrite E4. split_and!; try done. by apply Htot.
Qed.

(** ** The operation *)

Lemma offersIn_length s b q book buy : (length (offersIn s b q book buy) <= length (sRows s))%nat.
Proof.
  unfold offersIn. etrans; [apply filter_length_le|]. unfold DS.rowsOf. induction (sRows s) as [|e R IH]; [done|].
  cbn [omap list_omap length]. destruct (fromEntry e); cbn [length]; lia.
Qed.

(** The offer that is matched. *)
Lemma newOffer_tradable o time (f pf : Z) : 0 < baseAmount o <= INT64_MAX -> 0 < price o <= INT64_MAX ->
  quoteAmount o = cost (price o) (baseAmount o) -> 0 < quoteAmount o <= INT64_MAX -> 0 <= f <= INT64_MAX -> 0 <= pf <= 100 * ONE ->
  tradable (CO.setNewOffer o (offerID o) time f (i64 pf)).
Proof.
  intros Ha Hp Hq Hq' Hf Hpf. assert (i64 pf = pf) as -> by (apply i64_small; unfold ONE in Hpf; word_lia).
  split; cbn [CO.setNewOffer baseAmount quoteAmount price fee percentFee]; try lia.
Qed.

(** From the lock to the end. *)
Lemma matching_wp L s op o bb qb bb' qb' (p : Frame AssetPairEntry) fuel : ready L s -> bookInv commissionID (sRows s) (fun _ => 0) ->
  checked source (sRows s) op bb qb p -> tradable o -> ownerID o = accountID source -> base o = balAsset (data bb) -> quote o = balAsset (data qb) ->
  baseBalance o = OM.opBaseBalance op -> quoteBalance o = OM.opQuoteBalance op -> accountID source <> commissionID ->
  (S (length (sRows s)) < fuel)%nat -> CO.lockSellingAmount dp o bb qb = Some (bb', qb') ->
  wp (cb ← DS.loadOrCreateBalanceFrameForAsset dp commissionID (pairQuote (data p));
      let tk := {| offerA := o; baseBalanceA := bb'; quoteBalanceA := qb'; mCommissionBalance := cb;
                   mOfferTrail := []; mFeePaidByA := 0; takerCode := OFFER_SUCCESS |} in
      '(r, tk) ← CO.convertWithOffers dp orderBy fuel (CO.filterOffer source (price o)) (data p) (OM.opOrderBookID op) tk 0;
      match r, takerCode tk with
      | eOK, _ | ePartial, _ | eFilterStop, OFFER_SUCCESS => CO.finishOffer dp p tk
      | eFilterStop, c => mret (false, failure c)
      end)
    (fun r s' => r.1 = true -> ready L s' /\ bookInv commissionID (sRows s') (fun _ => 0) /\ sameTotals (sRows s) (sRows s'))
    (fun x _ => thrown x) s.
Proof.
  intros Hr Hi Hck T How Hb Hq Ib Iq Hsc Hfuel Hlock. destruct Hck as [Kb Kq KIb KIq KWb KWq KA Kp Kpb Kpq].
  destruct (lockSelling_spec dp o bb qb bb' qb' T) as [Hlf Hlo]; [by eapply bookInv_inRange|by eapply bookInv_inRange|done|].
  apply wp_bind. eapply wp_mono; [by apply (ensureBalance_wp dp seq flag Hseq commissionID L s)| |done].
  intros cb s1 (Hr1 & Hi1 & (Hkb & Hkp & Hlen & Htot) & Wc & Ac & row & Hrow & Hd). cbv zeta.
  set (tk := {| offerA := o; baseBalanceA := bb'; quoteBalanceA := qb'; mCommissionBalance := cb;
                mOfferTrail := []; mFeePaidByA := 0; takerCode := OFFER_SUCCESS |}).
  destruct (start_inv orderBy seq flag Hseq commissionID source L s1 o bb qb bb' qb' cb row OFFER_SUCCESS [] 0) as [Hti Htt]; try done; try congruence; [by apply Hkb|by apply Hkb|].
  fold tk in Hti, Htt. apply wp_bind. pose proof (Hkp p Kp) as Hp1. pose proof (bi_pair _ _ _ Hi1 p Hp1) as Hpok.
  change o with (offerA tk) at 1.
  eapply wp_mono; [apply (convert_wp dp orderBy seq flag Hseq commissionID source L (data p) (OM.opOrderBookID op) fuel Hpok s1 tk); try done|..|done].
  { cbn. congruence. }
  { cbn. congruence. }
  { pose proof (offersIn_length s1 (pairBase (data p)) (pairQuote (data p)) (OM.opOrderBookID op) (negb (isBuy (offerA tk)))). lia. }
  intros [r tk'] s2 Hcv. cbn [snd] in Hcv.
  assert (wp (CO.finishOffer dp p tk') (fun r s' => r.1 = true -> ready L s' /\ bookInv commissionID (sRows s') (fun _ => 0) /\ sameTotals (sRows s) (sRows s'))
    (fun x _ => thrown x) s2) as Hfin.
  { eapply wp_mono; [apply (finishOffer_wp L s2 tk' p); [apply Hcv|apply Hcv| |done|]| |done].
    - unfold hasPair in *. by rewrite (cv_pairs _ _ _ _ _ _ _ _ _ Hcv).
    - intros Ht. destruct (cv_commission _ _ _ _ _ _ _ _ _ Hcv Ht) as (_ & E1 & E2). exists row. cbv zeta in E2. rewrite E1. split; [|done].
      unfold hasBalance in *. rewrite Hd in *. cbn in E2. by rewrite E2.
    - intros r' s3 (H1 & H2 & H3) _. split_and!; [done|done|]. eapply sameTotals_trans; [exact Htot|]. eapply sameTotals_trans; [exact Htt|].
      eapply sameTotals_trans; [apply Hcv|done]. }
  destruct r, (takerCode tk'); try exact Hfin; cbn; done.
Qed.

Lemma doApply_wp L s op fuel closeTime : ready L s -> bookInv commissionID (sRows s) (fun _ => 0) -> goodOp op ->
  accountID source <> commissionID -> (S (length (sRows s)) < fuel)%nat ->
  wp (CO.doApply dp max_size orderBy source op commissionID fuel closeTime)
    (fun r s' => r.1 = true -> ready L s' /\ bookInv commissionID (sRows s') (fun _ => 0) /\ sameTotals (sRows s) (sRows s'))
    (fun x _ => thrown x) s.
Proof.
  intros Hr Hi Hop Hsc Hfuel. unfold CO.doApply, CO.getSourceID. apply wp_bind.
  eapply wp_mono; [apply (reads_checkOfferValid dp max_size seq flag source (sRows s) op); [pose proof (go_amount _ Hop); lia|exact Hr|done]| |done].
  intros [c|[[bb qb] p]] s1 (Hr1 & Hs1 & Hck); [done|]. apply wp_bind. unfold wp at 1.
  destruct (buildOffer_ret source op (balAsset (data bb)) (balAsset (data qb)) s1 Hop) as ([o|] & -> & Ho); [|by apply thrown_error].
  destruct Ho as (O1 & O2 & O3 & O4 & O5 & O6 & O7 & O8 & O9 & O10). apply wp_bind.
  eapply wp_mono; [apply (reads_fee dp seq flag (sRows s1)); [exact Hr1|done]| |done]. intros fr s2 (Hr2 & Hs2 & Hpf).
  destruct (DS.isOverflow fr); [done|]. destruct (_ >? _); [done|]. cbv zeta.
  set (o' := CO.setNewOffer o (offerID o) closeTime (OM.opFee op) (i64 (DS.resPercentFee fr))).
  assert (tradable o') as T.
  { apply newOffer_tradable; try done; [rewrite O7; apply Hop|rewrite O8; apply Hop|apply Hop]. }
  destruct (_ <=? _); [done|]. destruct (CO.lockSellingAmount dp o' bb qb) as [[bb' qb']|] eqn:El; [|done].
  assert (sRows s2 = sRows s) as Es by congruence. rewrite <- Es in *.
  by apply (matching_wp L s2 op o' bb qb bb' qb' p fuel).
Qed.

End OfferApply.

(** * Deleting offers

    [OfferManager::deleteOffer] gives the owner back exactly what the offer
    had locked; it cannot fail on an offer of a good book. *)

Section OfferDelete.
Context {Key Entry : Type} `{Ord Key} `{EqDecision Entry}.
Context {helper : EntryHelper Key Entry LedgerHeader} {helperOk : EntryHelperOk helper}.
Context {dex : DexEntries Key Entry} {dexOk : DexEntriesOk helper dex} (dp : DexParams).
Context (seq : Z) (flag : bool) (Hseq : seq <> 0) (commissionID : PublicKey).
Local Abbreviation St := (Store Key Entry LedgerHeader).
Local Abbreviation ready := (ready seq flag).
Local Abbreviation stamp := (stamp seq flag).
Implicit Types (s : St) (L : Key -> option Entry) (R : list Entry) (f : Frame BalanceEntry) (g : Frame OfferEntry).

(** The balance that the offer has locked, with the lock given back. *)
Definition unlocked g f : Frame BalanceEntry :=
  withData f (BF.with_ (data f) (amount (data f) + lockOf (data g)) (locked (data f) - lockOf (data g))).

Definition slotGone g : option (Z * PublicKey * option (Frame OfferEntry)) := Some (offerID (data g), ownerID (data g), None).

(** The rows without the offer. *)
Record deleted R g f R' : Prop := {
  dl_balance : hasBalance R f;
  dl_id : balanceID (data f) = OF.getLockedBalance (data g);
  dl_owner : balAccountID (data f) = ownerID (data g);
  dl_rows : forall k, rowsFind R' k = update (balanceKey (balanceID (data f))) (Some (toEntry (stamp (unlocked g f))))
    (update (offerKey (offerID (data g)) (ownerID (data g))) None (rowsFind R)) k;
}.

Lemma lockedBalance R g : offerOk commissionID R (data g) -> exists f, hasBalance R f /\
  balanceID (data f) = OF.getLockedBalance (data g) /\ balAccountID (data f) = ownerID (data g).
Proof.
  intros [_ _ _ _ _ (b & Hb & Ib & Wb & _) (q & Hq & Iq & Wq & _)]. unfold OF.getLockedBalance.
  destruct (isBuy (data g)); [exists q|exists b]; by split_and!.
Qed.

Lemma lock_covered R g f : bookInv commissionID R (fun _ => 0) -> hasOffer R g -> hasBalance R f ->
  balanceID (data f) = OF.getLockedBalance (data g) -> 0 <= lockOf (data g) <= locked (data f).
Proof.
  intros Hi Hg Hf Hid. pose proof (bookInv_lock commissionID R (fun _ => 0) g f Hi Hg Hf Hid) as Hl. cbv beta in Hl.
  pose proof (lockOf_nonneg _ (oo_tradable _ _ _ (bi_offer _ _ _ Hi g Hg))). lia.
Qed.

Lemma getLockedAmount_ret {S} o (s : S) : tradable o -> OF.getLockedAmount o s = Ret (lockOf o) s.
Proof.
  intros [Hb Hq _ Hf _ _]. unfold OF.getLockedAmount, lockOf. destruct (isBuy o); cbn [negb].
  - rewrite !u64_small by word_lia. rewrite safeSum_spec, (proj2 (Z.leb_le _ _)), u64_small by word_lia. done.
  - by rewrite u64_small by word_lia.
Qed.

(** What deleting does to a good book. *)
Lemma deleted_book R g f R' : bookInv commissionID R (fun _ => 0) -> hasOffer R g -> distinctRows R' -> deleted R g f R' ->
  bookInv commissionID R' (fun _ => 0) /\ sameTotals R R'.
Proof.
  intros Hi Hg Hd' [Hf Hid How Hrows]. destruct (lock_covered R g f Hi Hg Hf Hid) as [Hl0 Hl].
  destruct (bi_balance _ _ _ Hi f Hf) as (A1 & A2 & _).
  set (ps := [(f, stamp (unlocked g f))]).
  assert (stepped R (slotGone g) ps R') as Hst.
  { split; [done|]. intros k. rewrite Hrows, rowsFind_overlay, rowsFind_inSlot by done. cbn [ps news map List.find snd slotGone].
    rewrite key_balance. cbn [stamp unlocked withData data BF.with_ balanceID]. unfold update. by destruct (eqvb _ _). }
  assert (forall id, slotLock (slotGone g) R id = - offerLock id (data g)) as Hsl.
  { intros id. cbn [slotLock slotGone]. rewrite (Hg : rowsFind _ _ = _). cbn [fmap option_fmap option_map ofRow]. rewrite lockOn_offer. lia. }
  assert (stepOk commissionID R (slotGone g) ps (fun _ => 0) (fun _ => 0)) as Hok.
  { split; [done|apply NoDup_singleton| | |done].
    - apply Forall_singleton. split; cbn [fst snd]; [done|done|cbn; lia|cbn; lia|]. cbv zeta. rewrite Hsl, Hid. unfold offerLock.
      rewrite bool_decide_true by done. cbn. lia.
    - intros id _. rewrite Hsl. pose proof (offerLock_nonneg _ _ id _ (bi_offer _ _ _ Hi g Hg)). lia. }
  assert (forall a, gain a ps = 0) as Hgain.
  { intros a. unfold gain, ps. rewrite sumOf_cons, sumOf_nil. cbn [fst snd]. rewrite (funds_diff a f _ 0); [case_bool_decide; lia|done|].
    unfold funds. cbn. lia. }
  split; [apply (bookInv_step commissionID _ _ _ _ _ _ Hi Hok Hst); intros a; by rewrite Hgain|].
  apply (stepped_same commissionID _ _ _ _ _ _ Hi Hok Hst Hgain).
Qed.

Lemma deleteOffer_ret L s g : ready L s -> bookInv commissionID (sRows s) (fun _ => 0) -> hasOffer (sRows s) g ->
  exists f s', CO.deleteOffer dp g s = Ret tt s' /\ ready L s' /\ deleted (sRows s) g f (sRows s').
Proof.
  intros Hr Hi Hg. pose proof (bi_offer _ _ _ Hi g Hg) as Ho. destruct (lockedBalance _ g Ho) as (f & Hf & Hid & How).
  destruct (bi_balance _ _ _ Hi f Hf) as (A1 & A2 & Hv & _). pose proof (bookInv_inRange _ _ _ _ Hi Hf) as (R1 & R2 & R3).
  destruct (lock_covered _ g f Hi Hg Hf Hid) as [Hl0 Hl].
  destruct (loadBalance_ret seq flag L s true f Hr Hf) as (s1 & E1 & Hr1 & Hs1); [by eapply isValid_of|].
  destruct (delete_ret seq flag L s1 g ltac:(by rewrite key_offer, deletes_offer) Hr1) as (s2 & E2 & W2); [rewrite key_offer, Hs1, (Hg : rowsFind _ _ = _); by eexists|].
  assert (inRange (data (unlocked g f))) as Hin by (unfold inRange, funds in *; cbn; lia).
  destruct (changeBalance_ret seq flag Hseq L s2 (unlocked g f)) as (s3 & E3 & W3); [apply W2|done|exact Hv| |].
  { change (balanceID (data (unlocked g f))) with (balanceID (data f)).
    rewrite (wrote_other seq flag L s1 _ _ s2 _ W2), Hs1; [rewrite (Hf : rowsFind _ _ = _); by eexists|].
    rewrite key_offer. intros E. symmetry in E. by apply balanceKey_offer in E. }
  exists f, s3. split; [|split; [apply W3|]].
  - unfold CO.deleteOffer. rewrite <- Hid, (bind_ret _ _ _ _ _ E1). rewrite (bind_ret _ _ _ _ _ (getLockedAmount_ret _ s1 (oo_tradable _ _ _ Ho))).
    rewrite (unlock_spec (amountType dp) (data f)), (proj2 (Z.leb_le _ _)); [|lia|done|unfold funds in R3; lia]. cbn [negb].
    rewrite (bind_ret _ _ _ _ _ E2). exact E3.
  - split; try done. intros k. rewrite (proj2 W3). cbn [unlocked withData data BF.with_ balanceID].
    unfold update. destruct (eqvb _ _); [done|]. rewrite (proj2 W2), Hs1, key_offer. done.
Qed.

(** ** The operation *)

Lemma reads_loadOffer R b w id book : reads seq flag R (DS.loadOffer b w id book) (fun r =>
  match r with Some g => hasOffer R g /\ offerID (data g) = id /\ ownerID (data g) = w /\ orderBookID (data g) = book | None => True end).
Proof.
  eapply reads_rows; [intros s Hs; unfold ES.selectRow; rewrite Hs; reflexivity|]. fold (rowsFind R (offerKey id w)).
  set (rows := match rowsFind R (offerKey id w) with Some e => _ | None => _ end).
  eapply reads_bind with (P := fun r => r = rows).
  { unfold DS.checkedOffers. destruct (forallb _ _); [by apply reads_ret|apply reads_throw]. }
  intros r ->. eapply reads_bind; [apply reads_recorded|]. intros r ->.
  destruct (last rows) as [g|] eqn:El; [|by apply reads_ret]. destruct (Z.eqb_spec (orderBookID (data g)) book) as [Hbk|]; cbn [negb]; apply reads_ret; [|done].
  unfold rows in El. destruct (rowsFind R (offerKey id w)) as [e|] eqn:Er; [|done]. destruct (fromEntry e) as [h|] eqn:Ee; [|done].
  injection El as ->. apply from_inv in Ee as ->. pose proof (proj1 (rowsFind_Some R _ _ Er)) as Hk. rewrite key_offer in Hk.
  apply offerKey_inj in Hk as [<- <-]. by split_and!.
Qed.

(** An offer of the book is found. *)
Lemma loadOffer_ret L s g : ready L s -> bookInv commissionID (sRows s) (fun _ => 0) -> hasOffer (sRows s) g ->
  exists s', DS.loadOffer true (ownerID (data g)) (offerID (data g)) (orderBookID (data g)) s = Ret (Some g) s' /\ ready L s' /\ sRows s' = sRows s.
Proof.
  intros Hr Hi Hg. unfold DS.loadOffer. rewrite (bind_ret _ _ s s s) by done.
  unfold ES.selectRow. fold (rowsFind (sRows s) (offerKey (offerID (data g)) (ownerID (data g)))). rewrite (Hg : rowsFind _ _ = _), from_to.
  unfold DS.checkedOffers. cbn [option_list option_rect forallb]. rewrite (oo_valid _ _ _ (bi_offer _ _ _ Hi g Hg)). cbn [andb].
  rewrite (bind_ret _ _ s [g] s) by done. destruct (recorded_ret seq flag L s true g Hr) as (s' & E & Hr' & Hs').
  exists s'. change (last [g]) with (Some g). rewrite (bind_ret _ _ _ _ _ E), Z.eqb_refl. done.
Qed.

(** Deleting an offer of the book succeeds. *)
Lemma delete_doApply_ret L s op g : ready L s -> bookInv commissionID (sRows s) (fun _ => 0) -> hasOffer (sRows s) g ->
  offerID (data g) = OM.opOfferID op -> orderBookID (data g) = OM.opOrderBookID op ->
  exists r f s', CO.delete_doApply dp (ownerID (data g)) op s = Ret (true, r) s' /\ ready L s' /\ deleted (sRows s) g f (sRows s').
Proof.
  intros Hr Hi Hg Hid Hbk. unfold CO.delete_doApply. rewrite <- Hid, <- Hbk.
  destruct (loadOffer_ret L s g Hr Hi Hg) as (s1 & E1 & Hr1 & Hs1). rewrite (bind_ret _ _ _ _ _ E1). rewrite <- Hs1 in *.
  destruct (deleteOffer_ret L s1 g Hr1 Hi Hg) as (f & s2 & E2 & Hr2 & Hd). rewrite (bind_ret _ _ _ _ _ E2). by eexists _, f, s2.
Qed.

(** It fails only if there is no such offer. *)
Lemma delete_doApply_wp L s w op : ready L s -> bookInv commissionID (sRows s) (fun _ => 0) ->
  wp (CO.delete_doApply dp w op) (fun r s' => ready L s' /\
    if r.1 then exists g f, hasOffer (sRows s) g /\ offerID (data g) = OM.opOfferID op /\ ownerID (data g) = w /\ deleted (sRows s) g f (sRows s')
    else sRows s' = sRows s) (fun x _ => thrown x) s.
Proof.
  intros Hr Hi. unfold CO.delete_doApply. apply wp_bind.
  eapply wp_mono; [apply (reads_loadOffer (sRows s)); [exact Hr|done]| |done]. intros [g|] s1 (Hr1 & Hs1 & Hg); [|done].
  destruct Hg as (Hg & Hid & How & _). rewrite <- Hs1 in *. destruct (deleteOffer_ret L s1 g Hr1 Hi Hg) as (f & s2 & E & Hr2 & Hd).
  apply wp_bind. unfold wp at 1. rewrite E. cbn. split; [done|]. by exists g, f.
Qed.

End OfferDelete.
