(* ===== verification/Supply.v ===== *)
(** * The money supply

    [supplyInv R extra d]: the rows [R] are a good book, and the funds of all
    balances in an asset, with [d] that is on its way, are what the asset says
    was issued.  [extra] is what is locked, or no longer locked, for a
    withdrawal request that is not in the rows yet, or still is.  Every write
    of the operations on money keeps it, with other [extra] and [d].  The
    second part is what the operations read, and how they use the account
    manager. *)

From S2P Require Import Prelude OrdContainers BigMath LedgerDelta LedgerDeltaFacts EntryStore EntryStoreFacts Signatures LedgerHeader TxSet Calendar Statistics Balance Assets OfferExchange ExchangeFacts DexStore AccountManager DexFacts BookFacts CrossStore CrossOffer OfferFacts.

(** [n] at one key, and nothing elsewhere. *)
Definition at_ (k : list Z) (n : Z) : list Z -> Z := fun k' => if bool_decide (k = k') then n else 0.

(** Goals about functions that are zero but at one key. *)
Ltac at_lia := intros; unfold at_ in *; repeat case_bool_decide; subst; try congruence; try lia.

Section Supply.
Context {Key Entry : Type} `{Ord Key} `{EqDecision Entry}.
Context {helper : EntryHelper Key Entry LedgerHeader} {helperOk : EntryHelperOk helper}.
Context {dex : DexEntries Key Entry} {dexOk : DexEntriesOk helper dex}.
Context (commissionID : PublicKey).
Implicit Types (R : list Entry) (f : Frame BalanceEntry) (extra d : list Z -> Z).
Local Abbreviation bookInv := (bookInv commissionID).

Definition asAsset (e : Entry) : option (Frame AssetEntry) := fromEntry e.
Definition issuedOf (a : AssetCode) (e : Entry) : Z :=
  match asAsset e with Some f => if bool_decide (assetCode (data f) = a) then issued (data f) else 0 | None => 0 end.

(** The counters of an asset are in order, and what may be issued fits 63
    bits. *)
Record assetOk (a : AssetEntry) : Prop := {
  ao_issued : 0 <= issued a;
  ao_pending : 0 <= pendingIssuance a;
  ao_available : is_u64 (availableForIssueance a);
  ao_max : issued a + pendingIssuance a <= maxIssuanceAmount a <= INT64_MAX;
  ao_code : isAssetCodeValid (assetCode a) = true;
  ao_details : isValidJson requestParams (assetDetails a) = true;
}.

Record supplyInv R extra d : Prop := {
  si_book : bookInv R extra;
  si_supply : forall a, sumOf (fundsOf a) R + d a = sumOf (issuedOf a) R;
  si_asset : forall f : Frame AssetEntry, hasAsset R f -> assetOk (data f);
  si_account : forall e acc, rowsFind R (dexAccountKey commissionID) = Some e -> dexAsAccount e = Some acc -> isSystemAccountType (accountType acc) = true;
}.

Lemma assetOk_valid a : assetOk a -> AF.isValid (isValidJson requestParams) a = true.
Proof.
  intros [H1 H2 _ H3 H4 H5]. unfold AF.isValid. pose proof (safeSum_all_spec [issued a; pendingIssuance a]) as Hs. cbn [foldr] in Hs.
  rewrite (proj2 (Z.leb_le _ _)) in Hs by word_lia. rewrite Hs by (repeat constructor; word_lia). cbn [negb].
  rewrite (proj2 (Z.ltb_ge _ _)) by lia. by rewrite H4, H5.
Qed.

(** ** One row *)

Definition rewrote R (k : Key) (v : option Entry) R' : Prop := distinctRows R' /\ forall k', rowsFind R' k' = update k v (rowsFind R) k'.

Lemma rewrote_sum R k v R' (w : Entry -> Z) : distinctRows R -> keyOf k v -> rewrote R k v R' ->
  sumOf w R' = sumOf w R - ofRow w (rowsFind R k) + ofRow w v.
Proof.
  intros Hd Hk [Hd' Hv]. rewrite <- sumOf_write by done. apply sumOf_perm, rows_perm; [done|by apply write_distinct|].
  intros k'. by rewrite rowsFind_write, Hv.
Qed.

Lemma rewrote_other R k v R' k' : rewrote R k v R' -> k <> k' -> rowsFind R' k' = rowsFind R k'.
Proof. intros [_ Hv] Hne. rewrite Hv. unfold update. by rewrite eqvb_neq. Qed.

Lemma rewrote_same R k v R' : rewrote R k v R' -> rowsFind R' k = v.
Proof. intros [_ Hv]. rewrite Hv. unfold update. by rewrite eqvb_refl. Qed.

(** A sum that only one row is in. *)
Lemma sumOf_single R (w : Entry -> Z) k : distinctRows R -> (forall e, e ∈ R -> getLedgerKey e <> k -> w e = 0) -> sumOf w R = ofRow w (rowsFind R k).
Proof.
  intros Hd Hz. pose proof (sumOf_del w k R Hd) as Hs. rewrite (sumOf_zero w (delRows k R)) in Hs; [lia|].
  intros e He. apply Hz; [by eapply delRows_sub|]. intros <-. unfold delRows in He. apply list_elem_of_In, filter_In in He as [_ He].
  by rewrite (proj2 (whereKey_key _ e) eq_refl) in He.
Qed.

(** The row of an asset, if there is one. *)
Lemma asset_row R a : match rowsFind R (assetKey a) with
  | Some e => exists f : Frame AssetEntry, e = toEntry f /\ hasAsset R f /\ assetCode (data f) = a
  | None => True
  end.
Proof.
  destruct (rowsFind R (assetKey a)) as [e|] eqn:E; [|done]. pose proof (proj1 (rowsFind_Some R _ _ E)) as Hk.
  destruct (asset_of_key e a Hk) as (f & ->). rewrite key_asset in Hk. apply assetKey_inj in Hk. exists f. split_and!; [done| |done].
  unfold hasAsset. by rewrite Hk.
Qed.

Lemma asAsset_to (f : Frame AssetEntry) : asAsset (toEntry f) = Some f.
Proof. apply from_to. Qed.

Lemma issued_sum R a : distinctRows R -> sumOf (issuedOf a) R = ofRow (issuedOf a) (rowsFind R (assetKey a)).
Proof.
  intros Hd. apply sumOf_single; [done|]. intros e _ Hne. unfold issuedOf. destruct (asAsset e) as [f|] eqn:E; [|done].
  apply from_inv in E as ->. rewrite key_asset in Hne. case_bool_decide; [|done]. congruence.
Qed.

Lemma issued_of R (f : Frame AssetEntry) : distinctRows R -> hasAsset R f -> sumOf (issuedOf (assetCode (data f))) R = issued (data f).
Proof.
  intros Hd Hf. rewrite issued_sum, (Hf : rowsFind _ _ = _) by done. cbn [ofRow]. unfold issuedOf. by rewrite asAsset_to, bool_decide_true.
Qed.

Lemma issued_bound R a : distinctRows R -> (forall f : Frame AssetEntry, hasAsset R f -> assetOk (data f)) -> 0 <= sumOf (issuedOf a) R <= INT64_MAX.
Proof.
  intros Hd Ha. rewrite issued_sum by done. pose proof (asset_row R a) as Hr. destruct (rowsFind R (assetKey a)) as [e|]; [|done].
  destruct Hr as (f & -> & Hf & Hc). cbn [ofRow]. unfold issuedOf. rewrite asAsset_to. rewrite bool_decide_true by done.
  destruct (Ha f Hf). lia.
Qed.

(** Entries that are no assets. *)
Lemma issuedOf_kind a e : keyKind (getLedgerKey e) <> KIND_ASSET -> issuedOf a e = 0.
Proof.
  intros Hk. unfold issuedOf. destruct (asAsset e) as [f|] eqn:E; [|done]. apply from_inv in E as ->. by rewrite key_asset, kind_asset in Hk.
Qed.

Lemma rewrote_issued R k v R' a : distinctRows R -> keyOf k v -> rewrote R k v R' -> keyKind k <> KIND_ASSET ->
  sumOf (issuedOf a) R' = sumOf (issuedOf a) R.
Proof.
  intros Hd Hk Hw Hn. rewrite (rewrote_sum R k v R') by done. assert (forall o, keyOf k o -> ofRow (issuedOf a) o = 0) as Hz.
  { intros [e|] He; [|done]. cbn in *. apply issuedOf_kind. by rewrite He. }
  rewrite (Hz v Hk), Hz; [lia|]. destruct (rowsFind R k) as [e|] eqn:E; [|done]. by apply rowsFind_Some in E as [? _].
Qed.

(** The rest of the invariant only looks at assets and one account. *)
Lemma supplyInv_rest R k v R' extra d : supplyInv R extra d -> rewrote R k v R' -> keyKind k <> KIND_ASSET -> keyKind k <> KIND_OTHER ->
  (forall f : Frame AssetEntry, hasAsset R' f -> assetOk (data f)) /\
  (forall e acc, rowsFind R' (dexAccountKey commissionID) = Some e -> dexAsAccount e = Some acc -> isSystemAccountType (accountType acc) = true).
Proof.
  intros Hi Hw Ha Ho. split.
  - intros f Hf. apply (si_asset _ _ _ Hi). unfold hasAsset in *. rewrite <- (rewrote_other R k v R'); [done|done|]. intros ->. by rewrite kind_asset in Ha.
  - intros e acc. rewrite (rewrote_other R k v R'); [apply Hi|done|]. intros ->. by rewrite kind_account in Ho.
Qed.

(** ** A balance *)

Section Balance.
Context (R R' : list Entry) (f f' : Frame BalanceEntry) (extra extra' d d' : list Z -> Z).
Context (Hi : supplyInv R extra d) (Hf : hasBalance R f) (Hs : sameBalance f f').
Context (Hw : rewrote R (balanceKey (balanceID (data f))) (Some (toEntry f')) R').
Context (Ha : 0 <= amount (data f')) (Hl : 0 <= locked (data f')).
Context (He : forall id, extra' id <= extra id + at_ (balanceID (data f)) (locked (data f') - locked (data f)) id).
Context (Hd : forall a, d' a = d a - at_ (balAsset (data f)) (funds (data f') - funds (data f)) a).
Context (Hd0 : forall a, 0 <= d' a).

Lemma balance_key : keyOf (balanceKey (balanceID (data f))) (Some (toEntry f')).
Proof. cbn. rewrite key_balance. f_equal. apply Hs. Qed.

Lemma balance_funds a : sumOf (fundsOf a) R' = sumOf (fundsOf a) R + at_ (balAsset (data f)) (funds (data f') - funds (data f)) a.
Proof.
  rewrite (rewrote_sum R _ _ R' (fundsOf a) (bi_distinct _ _ _ (si_book _ _ _ Hi)) balance_key Hw).
  rewrite (Hf : rowsFind _ _ = _). cbn [ofRow]. rewrite !fundsOf_balance. unfold assetFunds. rewrite (proj2 (proj2 Hs)). at_lia.
Qed.

Lemma supplyInv_balance : supplyInv R' extra' d'.
Proof.
  pose proof (bi_distinct _ _ _ (si_book _ _ _ Hi)) as HdR.
  assert (forall a, sumOf (issuedOf a) R' = sumOf (issuedOf a) R) as Hiss.
  { intros a. apply (rewrote_issued R _ _ R' a HdR balance_key Hw). by rewrite kind_balance. }
  destruct (supplyInv_rest R _ _ R' extra d Hi Hw) as [H1 H2]; [by rewrite kind_balance..|].
  split; [|intros a; rewrite balance_funds, Hiss, Hd; pose proof (si_supply _ _ _ Hi a); lia|done|done].
  set (ps := [(f, f')]).
  assert (stepped R None ps R') as Hst.
  { split; [apply Hw|]. intros k. rewrite (proj2 Hw), rowsFind_overlay. cbn [ps news map List.find snd inSlot]. rewrite key_balance, (proj1 Hs). by unfold update; destruct (eqvb _ _). }
  assert (stepOk commissionID R None ps extra extra') as Hok.
  { split; [done|apply NoDup_singleton| | |done].
    - apply Forall_singleton. split; try done. cbv zeta. cbn [fst snd slotLock]. specialize (He (balanceID (data f))). unfold at_ in He. rewrite bool_decide_true in He by done. lia.
    - intros id Hid. cbn [slotLock]. specialize (He id). unfold at_ in He. rewrite bool_decide_false in He; [lia|]. intros E. apply Hid. cbn. rewrite E. set_solver. }
  apply (bookInv_stepped commissionID _ _ _ _ _ _ (si_book _ _ _ Hi) Hok Hst). intros a. rewrite <- (stepped_total commissionID _ _ _ _ _ _ (si_book _ _ _ Hi) Hok Hst).
  rewrite balance_funds. pose proof (si_supply _ _ _ Hi a). pose proof (Hd0 a). rewrite Hd in *. pose proof (issued_bound R a HdR (si_asset _ _ _ Hi)). lia.
Qed.

End Balance.

(** ** A request *)

Definition lockOfRequest (o : option (Frame ReviewableRequestEntry)) (id : BalanceID) : Z :=
  match o with Some r => requestLock id (data r) | None => 0 end.

Section Request.
Context (R R' : list Entry) (id : Z) (v v' : option (Frame ReviewableRequestEntry)) (extra extra' d : list Z -> Z).
Context (Hv : rowsFind R (requestKey id) = toEntry <$> v) (Hv' : forall r, v' = Some r -> requestID (data r) = id /\ requestOk commissionID R (data r)).
Context (Hw : rewrote R (requestKey id) (toEntry <$> v') R').
Context (He : forall b, extra' b + lockOfRequest v' b <= extra b + lockOfRequest v b).

Lemma request_key : keyOf (requestKey id) (toEntry <$> v').
Proof. destruct v' as [r|]; [|done]. cbn. rewrite key_request. f_equal. by apply Hv'. Qed.

Lemma request_sum (w : Entry -> Z) : distinctRows R -> sumOf w R' = sumOf w R - ofRow w (toEntry <$> v) + ofRow w (toEntry <$> v').
Proof. intros Hd. rewrite <- Hv. apply rewrote_sum; [done|apply request_key|done]. Qed.

Lemma request_own b w a : ownBalance R b w a -> ownBalance R' b w a.
Proof.
  intros (f & Hf & Hrest). exists f. split; [|done]. unfold hasBalance in *. rewrite (rewrote_other R _ _ R' _ Hw); [done|]. intros E. kinds E.
Qed.

Lemma bookInv_request : bookInv R extra -> bookInv R' extra'.
Proof.
  intros Hi. pose proof (bi_distinct _ _ _ Hi) as Hd.
  assert (forall a, sumOf (fundsOf a) R' = sumOf (fundsOf a) R) as Hf.
  { intros a. rewrite request_sum by done. destruct v, v'; cbn; unfold fundsOf; rewrite ?asBalance_request; lia. }
  assert (forall b, sumOf (lockOn b) R' = sumOf (lockOn b) R - lockOfRequest v b + lockOfRequest v' b) as Hl.
  { intros b. rewrite request_sum by done. destruct v, v'; cbn; rewrite ?lockOn_request; lia. }
  assert (forall k, keyKind k <> KIND_REQUEST -> rowsFind R' k = rowsFind R k) as Ho.
  { intros k Hk. apply (rewrote_other R _ _ R' _ Hw). intros <-. by rewrite kind_request in Hk. }
  split; [apply Hw|..].
  - intros f Hb. unfold hasBalance in Hb. rewrite Ho in Hb by (by rewrite kind_balance). destruct (bi_balance _ _ _ Hi f Hb) as (? & ? & ? & Hle).
    rewrite Hl. specialize (He (balanceID (data f))). split_and!; try done. lia.
  - intros g Hg. unfold hasOffer in Hg. rewrite Ho in Hg by (by rewrite kind_offer). destruct (bi_offer _ _ _ Hi g Hg). split; try done; by apply request_own.
  - intros p Hp. unfold hasPair in Hp. rewrite Ho in Hp by (by rewrite kind_pair). by apply Hi.
  - intros r Hr. apply (requestOk_mono commissionID R); [exact request_own|]. unfold hasRequest in Hr. rewrite (proj2 Hw) in Hr. unfold update in Hr.
    destruct (eqvb _ _); [|by apply Hi]. destruct v' as [r'|]; [|done]. cbn in Hr. injection Hr as Hr. apply toEntry_inj in Hr as <-; [|tc_solve].
    by apply Hv'.
  - intros a. rewrite Hf. apply Hi.
Qed.

Lemma supplyInv_request : supplyInv R extra d -> supplyInv R' extra' d.
Proof.
  intros Hi. pose proof (bi_distinct _ _ _ (si_book _ _ _ Hi)) as HdR.
  destruct (supplyInv_rest R _ _ R' extra d Hi Hw) as [H1 H2]; [by rewrite kind_request..|].
  split; [by apply bookInv_request, Hi| |done|done]. intros a. rewrite (rewrote_issued R _ _ R' a HdR request_key Hw) by (by rewrite kind_request).
  rewrite request_sum by done. rewrite <- (si_supply _ _ _ Hi a). destruct v, v'; cbn; unfold fundsOf; rewrite ?asBalance_request; lia.
Qed.

End Request.

(** ** An asset, and the entries that hold no money *)

Definition issuedBefore (v : option (Frame AssetEntry)) : Z := match v with Some f => issued (data f) | None => 0 end.

(** The row of an asset, new or not. *)
Lemma supplyInv_assetRow R R' (v : option (Frame AssetEntry)) (f' : Frame AssetEntry) extra d d' : supplyInv R extra d ->
  rowsFind R (assetKey (assetCode (data f'))) = toEntry <$> v -> (forall f : Frame AssetEntry, v = Some f -> assetCode (data f) = assetCode (data f')) ->
  rewrote R (assetKey (assetCode (data f'))) (Some (toEntry f')) R' -> assetOk (data f') ->
  (forall a, d' a = d a + at_ (assetCode (data f')) (issued (data f') - issuedBefore v) a) -> supplyInv R' extra d'.
Proof.
  intros Hi Hf Hc Hw Hok Hd. pose proof (bi_distinct _ _ _ (si_book _ _ _ Hi)) as HdR.
  assert (keyOf (assetKey (assetCode (data f'))) (Some (toEntry f'))) as Hk by (cbn; by rewrite key_asset).
  destruct (bookInv_row commissionID R R' extra _ _ (si_book _ _ _ Hi) (proj1 Hw) (proj2 Hw) Hk) as (H1 & H2 & H3).
  { unfold plainKind. by rewrite kind_asset. }
  { intros p [= E]. apply (f_equal getLedgerKey) in E. rewrite key_asset, key_pair in E. kinds E. }
  split; [done| | |].
  - intros a. rewrite H2, Hd, (rewrote_sum R _ _ R' (issuedOf a) HdR Hk Hw), Hf. pose proof (si_supply _ _ _ Hi a) as Hs.
    destruct v as [f|]; cbn [ofRow fmap option_fmap option_map issuedBefore]; unfold issuedOf in *; rewrite !asAsset_to; [rewrite (Hc f) by done|]; at_lia.
  - intros g Hg. unfold hasAsset in Hg. rewrite (proj2 Hw) in Hg. unfold update in Hg. destruct (eqvb _ _); [|by apply Hi].
    injection Hg as Hg. apply toEntry_inj in Hg as <-; [done|tc_solve].
  - intros e acc. rewrite (rewrote_other R _ _ R' _ Hw); [apply Hi|]. intros E. kinds E.
Qed.

Lemma supplyInv_asset R R' (f f' : Frame AssetEntry) extra d d' : supplyInv R extra d -> hasAsset R f -> assetCode (data f') = assetCode (data f) ->
  rewrote R (assetKey (assetCode (data f))) (Some (toEntry f')) R' -> assetOk (data f') ->
  (forall a, d' a = d a + at_ (assetCode (data f)) (issued (data f') - issued (data f)) a) -> supplyInv R' extra d'.
Proof.
  intros Hi Hf Hc Hw Hok Hd. apply (supplyInv_assetRow R R' (Some f) f' extra d d' Hi); rewrite ?Hc; try done. intros g [= <-]. done.
Qed.

Definition dataKind (k : Key) : Prop := keyKind k = KIND_STATISTICS \/ keyKind k = KIND_REFERENCE.

Lemma supplyInv_data R R' k v extra d : supplyInv R extra d -> keyOf k v -> rewrote R k v R' -> dataKind k -> supplyInv R' extra d.
Proof.
  intros Hi Hk Hw Hkind. pose proof (bi_distinct _ _ _ (si_book _ _ _ Hi)) as HdR.
  assert (plainKind k /\ keyKind k <> KIND_ASSET /\ keyKind k <> KIND_OTHER /\ keyKind k <> KIND_PAIR) as (Hp & Ha & Ho & Hpr).
  { unfold plainKind. destruct Hkind as [-> | ->]; by split_and!. }
  destruct (bookInv_row commissionID R R' extra _ _ (si_book _ _ _ Hi) (proj1 Hw) (proj2 Hw) Hk Hp) as (H1 & H2 & H3).
  { intros p ->. cbn in Hk. subst k. by rewrite key_pair, kind_pair in Hpr. }
  destruct (supplyInv_rest R _ _ R' extra d Hi Hw Ha Ho) as [H4 H5]. split; [done| |done|done].
  intros a. rewrite H2, (rewrote_issued R _ _ R' a HdR Hk Hw Ha). apply Hi.
Qed.

(** Operations on offers. *)
Lemma supplyInv_offers R R' : supplyInv R (fun _ => 0) (fun _ => 0) -> bookInv R' (fun _ => 0) -> sameTotals R R' -> supplyInv R' (fun _ => 0) (fun _ => 0).
Proof.
  intros Hi Hb [Hf Ho]. split; [done| | |].
  - intros a. rewrite Hf, (si_supply _ _ _ Hi a). rewrite !issued_sum by (apply Hi || apply Hb). rewrite Ho; [done|]. unfold otherKey. by rewrite kind_asset.
  - intros f Hf'. apply (si_asset _ _ _ Hi). unfold hasAsset in *. rewrite <- Ho; [done|]. unfold otherKey. by rewrite kind_asset.
  - intros e acc. rewrite Ho; [apply Hi|]. unfold otherKey. by rewrite kind_account.
Qed.

End Supply.

(** * What the operations on money read and write

    [looks R m P]: [m] leaves the rows alone and gives a result with [P], or
    throws.  The writes of balances, assets, fees and statistics keep the
    money supply. *)

(** Computations that do not look at the state. *)
Definition stays {S A} (m : M S A) : Prop := forall s, match m s with Ret _ s' | Throw _ s' => s' = s end.

Lemma stays_bind {S A B} (m : M S A) (g : A -> M S B) : stays m -> (forall a, stays (g a)) -> stays (m ≫= g).
Proof. intros Hm Hg s. unfold mbind, M_bind. specialize (Hm s). destruct (m s) as [a s1|x s1]; [|done]. subst. apply Hg. Qed.

Lemma stays_ret {S A} (a : A) : stays (mret (M := M S) a).
Proof. done. Qed.
Lemma stays_throw {S A} x : stays (@throw S A x).
Proof. done. Qed.
#[export] Hint Resolve stays_bind stays_ret stays_throw : core.

Lemma stays_weekPassed {S} a b : stays (S := S) (VC.weekPassed a b).
Proof.
  unfold VC.weekPassed, VC.getDaysPassed. apply stays_bind.
  - repeat (case_match; auto).
  - intros [n x]. case_match; auto.
Qed.

Lemma stays_clearObsolete {S} t se : stays (S := S) (SF.clearObsolete t se).
Proof. unfold SF.clearObsolete. cbv zeta. apply stays_bind; [apply stays_weekPassed|]. intros [w x]. auto. Qed.

Lemma stays_add {S} n t se : stays (S := S) (SF.add n t se).
Proof.
  unfold SF.add. apply stays_bind; [apply stays_clearObsolete|]. intros se'. cbv zeta. repeat (case_match; auto).
Qed.

Lemma stays_revert {S} n t p se : stays (S := S) (SF.revert n t p se).
Proof.
  unfold SF.revert. apply stays_bind; [apply stays_clearObsolete|]. intros se'. cbv zeta. do 4 (case_match; auto).
  apply stays_bind; [apply stays_weekPassed|]. intros [w x]. repeat (case_match; auto).
Qed.

(** The account of a statistics entry stays. *)
Lemma add_account {S} n t se (s : S) ok se' s' : SF.add n t se s = Ret (ok, se') s' -> statAccountID se' = statAccountID se.
Proof.
  unfold SF.add, mbind, M_bind. destruct (SF.clearObsolete t se s) as [se1 s1|] eqn:E; [|done].
  assert (statAccountID se1 = statAccountID se) as <-.
  { unfold SF.clearObsolete, mbind, M_bind in E. cbv zeta in E. destruct (VC.weekPassed _ _ s) as [[w x] s2|]; [|done]. by injection E as <- _. }
  cbv zeta. repeat case_match; intros [= <- <- <-]; done.
Qed.

Lemma revert_account {S} n t p se (s : S) se' s' : SF.revert n t p se s = Ret se' s' -> statAccountID se' = statAccountID se.
Proof.
  unfold SF.revert, mbind, M_bind. destruct (SF.clearObsolete t se s) as [se1 s1|] eqn:E; [|done].
  assert (statAccountID se1 = statAccountID se) as <-.
  { unfold SF.clearObsolete, mbind, M_bind in E. cbv zeta in E. destruct (VC.weekPassed _ _ s) as [[w x] s2|]; [|done]. by injection E as <- _. }
  cbv zeta. do 4 (case_match; [by try injection 1 as <- <-|]); destruct (VC.weekPassed _ _ s1) as [[w x] s2|]; [|done];
    repeat (case_match; try done); by injection 1 as <- <-.
Qed.

Section SupplyStore.
Context {Key Entry : Type} `{Ord Key} `{EqDecision Entry}.
Context {helper : EntryHelper Key Entry LedgerHeader} {helperOk : EntryHelperOk helper} {headerOk : HeaderOk helper}.
Context {dex : DexEntries Key Entry} {dexOk : DexEntriesOk helper dex} (dp : DexParams) (mp : MoneyParams) (max_size : nat).
Context (seq : Z) (flag : bool) (Hseq : seq <> 0) (commissionID : PublicKey) (closeTime : Z).
Local Abbreviation St := (Store Key Entry LedgerHeader).
Local Abbreviation ready := (ready seq flag).
Local Abbreviation wrote := (wrote seq flag).
Local Abbreviation stamp := (stamp seq flag).
Local Abbreviation supplyInv := (supplyInv commissionID).
Local Abbreviation reads := (reads seq flag).
Implicit Types (s : St) (L : Key -> option Entry) (R : list Entry) (f : Frame BalanceEntry) (extra d : list Z -> Z).

(** ** Reading *)

Definition looks {A} R (m : M St A) (P : A -> Prop) : Prop := forall L s, ready L s -> sRows s = R ->
  wp m (fun a s' => ready L s' /\ sRows s' = R /\ P a) (fun _ _ => True) s.

Lemma looks_reads {A} R (m : M St A) P : reads R m P -> looks R m P.
Proof. intros Hm L s Hr Hs. eapply wp_mono; [by apply Hm|done|done]. Qed.

Lemma looks_bind {A B} R (m : M St A) (g : A -> M St B) P Q : looks R m P -> (forall a, P a -> looks R (g a) Q) -> looks R (m ≫= g) Q.
Proof.
  intros Hm Hg L s Hr Hs. apply wp_bind. eapply wp_mono; [by apply Hm| |done]. intros a s1 (Hr1 & Hs1 & Ha). by apply Hg.
Qed.

Lemma looks_ret {A} R (a : A) (P : A -> Prop) : P a -> looks R (mret a) P.
Proof. intros Ha L s Hr Hs. by split_and!. Qed.

Lemma looks_throw {A} R x (P : A -> Prop) : looks R (throw x) P.
Proof. by intros L s Hr Hs. Qed.

Lemma looks_rows {B} R (g : St -> M St B) g' Q : (forall s, sRows s = R -> g s = g') -> looks R g' Q -> looks R (get ≫= g) Q.
Proof. intros Hg Hr L s Hs HR. apply wp_bind. cbn. rewrite Hg by done. by apply Hr. Qed.

Lemma looks_stays {A} R (m : M St A) : stays m -> looks R m (fun _ => True).
Proof. intros Hm L s Hr Hs. specialize (Hm s). unfold wp. destruct (m s); by subst. Qed.

Lemma looks_mono {A} R (m : M St A) (P Q : A -> Prop) : (forall a, P a -> Q a) -> looks R m P -> looks R m Q.
Proof. intros Hpq Hm L s Hr Hs. eapply wp_mono; [by apply Hm| |done]. intros a s' (? & ? & ?). split_and!; auto. Qed.

Lemma looks_any {A} R (m : M St A) P : looks R m P -> looks R m (fun _ => True).
Proof. by apply looks_mono. Qed.

Lemma looks_use {A} (m : M St A) P L s : looks (sRows s) m P -> ready L s ->
  wp m (fun a s' => ready L s' /\ sRows s' = sRows s /\ P a) (fun _ _ => True) s.
Proof. intros Hm Hr. by apply Hm. Qed.

Lemma looks_loadStatsAsset R : looks R (AM.loadStatsAsset mp) (fun _ => True).
Proof.
  eapply looks_rows; [intros s Hs; unfold DS.rowsOf; rewrite Hs; reflexivity|]. cbv zeta. destruct (forallb _ _); [by apply looks_ret|apply looks_throw].
Qed.

Lemma looks_tryLoadPair R a b : looks R (AM.tryLoadAssetPairForAssets max_size a b) (fun _ => True).
Proof.
  apply (looks_bind R _ _ (fun _ => True)); [eapply looks_any, looks_reads, reads_loadAssetPair|]. intros [p|] _; [by apply looks_ret|].
  eapply looks_any, looks_reads, reads_loadAssetPair.
Qed.

Lemma looks_convertAmount R p c n r : looks R (AM.convertAmount p c n r) (fun _ => True).
Proof. unfold AM.convertAmount. cbv zeta. case_match; [by apply looks_ret|apply looks_throw]. Qed.

Lemma looks_mustLoadStatistics R a : looks R (AM.mustLoadStatistics false a) (fun g => rowsFind R (statKey a) = Some (toEntry g)).
Proof.
  eapply looks_rows; [intros s Hs; unfold ES.selectRow; rewrite Hs; reflexivity|]. fold (rowsFind R (statKey a)).
  destruct (rowsFind R (statKey a)) as [e|]; cbn [mbind option_bind]; [|apply looks_throw].
  destruct (fromEntry e) as [g|] eqn:E; [|apply looks_throw]. apply from_inv in E as ->. destruct (SF.isValid _); [by apply looks_ret|apply looks_throw].
Qed.

Lemma looks_loadLimits R k : usesCache k = true -> looks R (AM.loadLimits max_size k) (fun r => r = rowsFind R k ≫= asLimits).
Proof.
  intros Hu. eapply looks_rows; [intros s Hs; unfold ES.selectRow; rewrite Hs; reflexivity|]. fold (rowsFind R k). intros L s Hr Hs.
  unfold wp, ES.cachedEntryExists, LruCache.exists_, get, mbind, M_bind, mret, M_ret.
  destruct (LruCache.find (sCache s) k) as [v|] eqn:Ef.
  - destruct (getCached_ret seq flag L s k v Hr Ef) as (c & -> & Hr'). split_and!; [done|done|]. by rewrite Hs.
  - pose proof (put_ready max_size seq flag L s k Hr Hu) as Hput. rewrite Hs in Hput. destruct (rowsFind R k) as [e|] eqn:Ee; [|by split_and!].
    cbn [option_bind]. destruct (asLimits e); [|by split_and!]. destruct (negb _); [done|]. by split_and!.
Qed.

(** The limits of an account: its own, else those of its type, else none. *)
Definition limitsFor R (owner : PublicKey) (t : AccountType) : Limits :=
  match rowsFind R (limitsKey owner) ≫= asLimits with
  | Some l => l
  | None => match rowsFind R (typeLimitsKey t) ≫= asLimits with
            | Some l => l
            | None => {| dailyOut := INT64_MAX; weeklyOut := INT64_MAX; monthlyOut := INT64_MAX; annualOut := INT64_MAX |}
            end
  end.

Lemma looks_validateStats R a b se : looks R (AM.validateStats max_size a b se)
  (fun v => v = AM.withinLimits (limitsFor R (balAccountID b) (accountType a)) se).
Proof.
  eapply looks_bind; [apply looks_loadLimits, limits_cached|]. intros r ->.
  eapply (looks_bind R _ _ (fun l => l = limitsFor R (balAccountID b) (accountType a))); [|intros l ->; by apply looks_ret]. unfold limitsFor.
  destruct (rowsFind R (limitsKey _) ≫= asLimits); [by apply looks_ret|].
  eapply looks_bind; [apply looks_loadLimits, typeLimits_cached|]. intros r ->. destruct (rowsFind R (typeLimitsKey _) ≫= asLimits); by apply looks_ret.
Qed.

Lemma looks_loadForAccount R t a sub acc n : looks R (DS.loadForAccount dp t a sub acc n)
  (fun r => match r with Some e => DS.feeIsValid dp e = true | None => True end).
Proof.
  eapply looks_rows; [intros s Hs; rewrite Hs; reflexivity|]. cbv zeta. 
  match goal with |- looks R (match ?X with _ => _ end) _ => destruct X as [e|]; [|by apply looks_ret] end.
  destruct (DS.feeIsValid dp e) eqn:E; [by apply looks_ret|apply looks_throw].
Qed.

Lemma looks_percentFee R e n r : looks R (DS.calculatePercentFee e n r) (fun p => 0 <= p.2).
Proof.
  unfold DS.calculatePercentFee. destruct (_ =? 0); [by apply looks_ret|]. unfold bigDivide_u64. cbn. apply looks_ret. cbn. word_lia.
Qed.

Lemma looks_isFeeMatches R acc fe t sub a n : looks R (AM.isFeeMatches dp acc fe t sub a n) (fun _ => True).
Proof.
  unfold AM.isFeeMatches. destruct (isSystemAccountType _); [by apply looks_ret|].
  apply (looks_bind R _ _ (fun _ => True)); [eapply looks_any, looks_loadForAccount|]. intros [e|] _; [|by apply looks_ret].
  destruct (negb _); [by apply looks_ret|]. apply (looks_bind R _ _ (fun _ => True)); [eapply looks_any, looks_percentFee|].
  intros [ok v] _. destruct (negb ok); by apply looks_ret.
Qed.

(** A request, as it is in the table. *)
Lemma reads_loadRequest R wd id : reads R (AM.loadRequest max_size wd id)
  (fun r => match r with Some q => hasRequest R q /\ requestID (data q) = id | None => True end).
Proof.
  eapply reads_rows; [intros s Hs; unfold ES.selectRow; rewrite Hs; reflexivity|]. fold (rowsFind R (requestKey id)). cbv zeta.
  assert (forall e (q : Frame ReviewableRequestEntry), rowsFind R (requestKey id) = Some e -> fromEntry e = Some q -> hasRequest R q /\ requestID (data q) = id) as Hrow.
  { intros e q He Hq. apply from_inv in Hq as ->. pose proof (proj1 (rowsFind_Some R _ _ He)) as Hk. rewrite key_request in Hk.
    apply requestKey_inj in Hk as <-. by split. }
  intros L s Hr Hs. unfold wp, ES.cachedEntryExists, LruCache.exists_, get, mbind at 1, M_bind at 1, mbind at 1, M_bind at 1, mret, M_ret.
  destruct (LruCache.find (sCache s) (requestKey id)) as [v|] eqn:Ef.
  - destruct (getCached_ret seq flag L s (requestKey id) v Hr Ef) as (c & E & Hr'). unfold mbind at 1, M_bind at 1. rewrite E. split_and!; [done|done|].
    rewrite Hs. destruct (rowsFind R (requestKey id)) as [e|] eqn:Ee; [|done]. cbn. destruct (fromEntry e) as [q|] eqn:Eq; [by apply (Hrow e)|done].
  - pose proof (put_ready max_size seq flag L s (requestKey id) Hr (request_cached id)) as Hput. rewrite Hs in Hput.
    destruct (rowsFind R (requestKey id)) as [e|] eqn:Ee; cbn [mbind option_bind]; [|by split_and!].
    destruct (request_of_key e id (proj1 (rowsFind_Some R _ _ Ee))) as (q & ->). rewrite from_to.
    destruct (negb _); [by apply thrown_error|]. assert (exists s1, when wd (DS.record q) s = Ret tt s1 /\ ready L s1 /\ sRows s1 = sRows s) as (s1 & E1 & Hr1 & Hs1).
    { destruct wd; [by apply record_ret|by exists s]. }
    rewrite (bind_ret _ _ _ _ _ E1). unfold ES.putCachedEntry, modify, mbind, M_bind. split; [|split; [cbn; congruence|apply (Hrow _ q eq_refl), from_to]].
    rewrite <- Ee, <- Hs, <- Hs1. apply put_ready; [done|apply request_cached].
Qed.

(** Loads that cannot fail on a good ledger. *)
Lemma mustLoadBalance_ret L s wd f extra d : ready L s -> supplyInv (sRows s) extra d -> hasBalance (sRows s) f ->
  exists s', AM.mustLoadBalance wd (balanceID (data f)) s = Ret f s' /\ ready L s' /\ sRows s' = sRows s.
Proof.
  intros Hr Hi Hf. destruct (loadBalance_ret seq flag L s wd f Hr Hf) as (s' & E & Hr' & Hs'); [eapply isValid_of; [apply Hi|done]|].
  exists s'. unfold AM.mustLoadBalance. by rewrite (bind_ret _ _ _ _ _ E).
Qed.

Lemma cachedAsset_ret L s wd k : ready L s -> exists s', (c ← ES.cachedEntryExists k;
  if (c : bool) then (r ← ES.getCachedEntry k; match r ≫= fromEntry (T := AssetEntry) with Some f => when wd (DS.record f) | None => mret tt end) else mret tt) s
    = Ret tt s' /\ ready L s' /\ sRows s' = sRows s.
Proof.
  intros Hr. pose proof (reads_cachedAsset seq flag (sRows s) wd k L s Hr eq_refl) as Hw. unfold wp in Hw.
  unfold ES.cachedEntryExists, LruCache.exists_, get, mbind, M_bind, mret, M_ret in *. destruct (LruCache.find (sCache s) k) as [v|] eqn:E; [|by exists s].
  destruct (getCached_ret seq flag L s k v Hr E) as (c & -> & Hr'). destruct (option_bind _ _ _ _) as [f|]; [|by eexists].
  destruct wd; cbn [when] in *; [|by eexists]. destruct (record_ret seq flag L _ f Hr') as (s' & -> & ? & Hs'). by exists s'.
Qed.

Lemma loadAsset_ret L s wd code extra d : ready L s -> supplyInv (sRows s) extra d ->
  exists r s', DS.loadAsset max_size wd code s = Ret r s' /\ ready L s' /\ sRows s' = sRows s /\
    match r with Some f => hasAsset (sRows s) f /\ assetCode (data f) = code | None => rowsFind (sRows s) (assetKey code) = None end.
Proof.
  intros Hr Hi. unfold DS.loadAsset. rewrite (bind_ret _ _ s s s) by done. cbv zeta. rewrite bind_assoc_ret.
  destruct (cachedAsset_ret L s wd (assetKey code) Hr) as (s1 & E1 & Hr1 & Hs1). rewrite (bind_ret _ _ _ _ _ E1).
  unfold ES.selectRow. fold (rowsFind (sRows s) (assetKey code)). pose proof (asset_row (sRows s) code) as Hrow.
  pose proof (put_ready max_size seq flag L s1 (assetKey code) Hr1 (asset_cached _)) as Hput. rewrite Hs1 in Hput.
  destruct (rowsFind (sRows s) (assetKey code)) as [e|] eqn:Ee; cbn [mbind option_bind]; [|by eexists _, _].
  destruct Hrow as (f & -> & Hf & Hc). rewrite from_to. rewrite assetOk_valid by (by apply Hi). cbn [negb].
  assert (exists s2, when wd (DS.record f) s1 = Ret tt s2 /\ ready L s2 /\ sRows s2 = sRows s1) as (s2 & E2 & Hr2 & Hs2).
  { destruct wd; [by apply record_ret|by exists s1]. }
  rewrite (bind_ret _ _ _ _ _ E2). eexists _, _. split; [reflexivity|]. split; [|split; [cbn; congruence|done]].
  rewrite <- Ee, <- Hs1, <- Hs2. apply put_ready; [done|apply asset_cached].
Qed.

(** ** Writing *)

Lemma wrote_rows L s k v s' : wrote L s k v s' -> rewrote (sRows s) k v (sRows s').
Proof. intros [Hr Hv]. split; [apply Hr|done]. Qed.

Lemma supply_room R extra d f : supplyInv R extra d -> hasBalance R f -> funds (data f) + d (balAsset (data f)) <= INT64_MAX.
Proof.
  intros Hi Hf. pose proof (bi_distinct _ _ _ (si_book _ _ _ _ Hi)) as Hd.
  pose proof (sumOf_one (fundsOf (balAsset (data f))) R (toEntry f) Hd) as H1. rewrite key_balance, fundsOf_balance in H1.
  unfold assetFunds in H1. rewrite bool_decide_true in H1 by done. specialize (H1 (fun a Ha => bookInv_fundsOf commissionID R extra _ a (si_book _ _ _ _ Hi) Ha) Hf).
  pose proof (si_supply _ _ _ _ Hi (balAsset (data f))). pose proof (issued_bound R (balAsset (data f)) Hd (si_asset _ _ _ _ Hi)). lia.
Qed.

Lemma changeBalance_supply L s f a l extra extra' d d' : ready L s -> supplyInv (sRows s) extra d -> hasBalance (sRows s) f ->
  0 <= a -> 0 <= l -> (forall id, extra' id <= extra id + at_ (balanceID (data f)) (l - locked (data f)) id) ->
  (forall c, d' c = d c - at_ (balAsset (data f)) (a + l - funds (data f)) c) -> (forall c, 0 <= d' c) ->
  let f' := withData f (BF.with_ (data f) a l) in
  exists s', DS.storeChangeEntry f' s = Ret tt s' /\ wrote L s (balanceKey (balanceID (data f))) (Some (toEntry (stamp f'))) s' /\
    supplyInv (sRows s') extra' d'.
Proof.
  intros Hr Hi Hf Ha Hl He Hd Hd0 f'. destruct (bi_balance _ _ _ (si_book _ _ _ _ Hi) f Hf) as (_ & _ & Hv & _).
  pose proof (supply_room _ _ _ _ Hi Hf) as Hroom. specialize (Hd (balAsset (data f))) as Hda. specialize (Hd0 (balAsset (data f))) as Hd0a.
  unfold at_ in Hda. rewrite bool_decide_true in Hda by done.
  destruct (changeBalance_ret seq flag Hseq L s f') as (s' & E & W); [done|unfold inRange, funds in *; cbn; lia|exact Hv|exact (mk_is_Some _ _ Hf)|].
  exists s'. split; [done|]. split; [done|]. by eapply (supplyInv_balance commissionID (sRows s) (sRows s') f (stamp f') extra extra' d d' Hi Hf); [|apply (wrote_rows L), W|..].
Qed.

Lemma changeAsset_supply L s (g : Frame AssetEntry) a extra d d' : ready L s -> supplyInv (sRows s) extra d -> hasAsset (sRows s) g ->
  assetCode a = assetCode (data g) -> assetOk a -> (forall c, d' c = d c + at_ (assetCode a) (issued a - issued (data g)) c) ->
  exists s', DS.storeChangeEntry (withData g a) s = Ret tt s' /\ wrote L s (assetKey (assetCode a)) (Some (toEntry (stamp (withData g a)))) s' /\
    supplyInv (sRows s') extra d'.
Proof.
  intros Hr Hi Hg Hc Hok Hd. destruct (change_ret seq flag Hseq L s (withData g a) touch_asset Hr) as (s' & E & W).
  - rewrite valid_asset. by apply assetOk_valid.
  - rewrite key_asset. cbn. rewrite Hc, (Hg : rowsFind _ _ = _). by eexists.
  - rewrite key_asset in W. exists s'. split; [done|]. split; [done|]. cbn [withData data] in W. rewrite Hc in W.
    eapply (supplyInv_asset commissionID (sRows s) (sRows s') g (stamp (withData g a)) extra d); [done|done|done|apply (wrote_rows L), W|done|].
    intros c. rewrite Hd, Hc. done.
Qed.

(** ** Statistics *)

(** Only statistics change, and the money supply does not. *)
Definition statsOnly L s s' : Prop := ready L s' /\ (forall k, keyKind k <> KIND_STATISTICS -> rowsFind (sRows s') k = rowsFind (sRows s) k) /\
  forall extra d, supplyInv (sRows s) extra d -> supplyInv (sRows s') extra d.

Lemma statsOnly_same L s s' : ready L s' -> sRows s' = sRows s -> statsOnly L s s'.
Proof. intros Hr Hs. split; [done|]. by rewrite Hs. Qed.

Lemma statsOnly_wrote L s s1 s' a (g : Frame StatisticsEntry) : sRows s1 = sRows s -> statAccountID (data g) = a -> wrote L s1 (statKey a) (Some (toEntry g)) s' -> statsOnly L s s'.
Proof.
  intros Hs Ha W. split; [apply W|]. rewrite <- Hs. split.
  - intros k Hk. apply (rewrote_other _ _ _ _ _ (wrote_rows L _ _ _ _ W)). intros <-. by rewrite kind_stat in Hk.
  - intros extra d Hi. apply (supplyInv_data commissionID (sRows s1) (sRows s') (statKey a) (Some (toEntry g)) extra d Hi); [|by eapply wrote_rows|left; apply kind_stat].
    cbn. by rewrite key_stat, Ha.
Qed.

Lemma changeStat_wp L s s1 a (g : Frame StatisticsEntry) se : ready L s1 -> sRows s1 = sRows s -> rowsFind (sRows s) (statKey a) = Some (toEntry g) ->
  statAccountID se = statAccountID (data g) ->
  wp (DS.storeChangeEntry (withData g se)) (fun _ s' => statsOnly L s s' /\ rowsFind (sRows s') (statKey a) = Some (toEntry (stamp (withData g se)))) (fun _ _ => True) s1.
Proof.
  intros Hr Hs Hg Hse. pose proof (proj1 (rowsFind_Some _ _ _ Hg)) as Hk. rewrite key_stat in Hk. apply statKey_inj in Hk.
  assert (getLedgerKey (toEntry (withData g se)) = statKey a) as Hkey by (rewrite key_stat; cbn; by rewrite Hse, Hk).
  eapply wp_mono; [apply (change_wp seq flag Hseq L s1 (withData g se) touch_stat Hr)| |done].
  - rewrite Hkey, Hs, Hg. by eexists.
  - intros _ s' [_ W]. rewrite Hkey in W. split; [|exact (wrote_same seq flag L s1 _ _ s' W)]. eapply (statsOnly_wrote L s s1 s' a); [done| |exact W]. cbn. by rewrite Hse.
Qed.

(** What the account spends is counted if it can be converted, and is within
    the limits. *)
Definition counted R R' (acc : AccountEntry) (owner : PublicKey) : Prop := R' = R \/
  exists g, rowsFind R' (statKey (accountID acc)) = Some (toEntry g) /\ AM.withinLimits (limitsFor R owner (accountType acc)) (data g) = true.

Lemma addStats_wp L s acc b n : ready L s -> wp (AM.addStats mp max_size closeTime acc b n)
  (fun r s' => statsOnly L s s' /\ (r.1 = AM.SUCCESS -> counted (sRows s) (sRows s') acc (balAccountID b))) (fun _ _ => True) s.
Proof.
  intros Hr. unfold AM.addStats. apply wp_bind. eapply wp_mono; [apply (looks_use _ _ L s (looks_loadStatsAsset _) Hr)| |done].
  intros [a|] s1 (Hr1 & Hs1 & _); [|split; [by apply statsOnly_same|by left]].
  apply wp_bind. eapply wp_mono; [apply (looks_use _ _ L s1 (looks_tryLoadPair _ _ _) Hr1)| |done]. intros [p|] s2 (Hr2 & Hs2 & _); [|split; [apply statsOnly_same; [done|congruence]|intros _; left; cbn; congruence]].
  apply wp_bind. eapply wp_mono; [apply (looks_use _ _ L s2 (looks_convertAmount _ _ _ _ _) Hr2)| |done]. intros [ok u] s3 (Hr3 & Hs3 & _).
  destruct (negb ok); [split; [apply statsOnly_same; [done|congruence]|done]|].
  apply wp_bind. eapply wp_mono; [apply (looks_use _ _ L s3 (looks_mustLoadStatistics _ _) Hr3)| |done]. intros g s4 (Hr4 & Hs4 & Hg).
  apply wp_bind. unfold wp at 1. pose proof (stays_add u closeTime (data g) s4) as Hst. destruct (SF.add u closeTime (data g) s4) as [[ok' se] s4'|] eqn:Ea; [|done]. subst s4'.
  apply add_account in Ea. destruct (negb ok'); [split; [apply statsOnly_same; [done|congruence]|done]|].
  apply wp_bind. eapply wp_mono; [apply (looks_use _ _ L s4 (looks_validateStats _ _ _ _) Hr4)| |done]. intros v s5 (Hr5 & Hs5 & Hv).
  destruct v; cbn [negb]; [|split; [apply statsOnly_same; [done|congruence]|done]].
  apply wp_bind. eapply wp_mono; [apply (changeStat_wp L s s5 (accountID acc) g se Hr5); [congruence|congruence|done]| |done].
  intros _ s6 [Hst6 Hg6]. split; [done|]. intros _. right. eexists. split; [exact Hg6|]. replace (sRows s) with (sRows s4) by congruence. by symmetry.
Qed.

Lemma revertStats_wp L s a n t : ready L s -> wp (AM.revertStats closeTime a n t) (fun _ s' => statsOnly L s s') (fun _ _ => True) s.
Proof.
  intros Hr. unfold AM.revertStats. apply wp_bind. eapply wp_mono; [apply (looks_use _ _ L s (looks_mustLoadStatistics _ _) Hr)| |done].
  intros g s1 (Hr1 & Hs1 & Hg). apply wp_bind. unfold wp at 1. pose proof (stays_revert n closeTime t (data g) s1) as Hst.
  destruct (SF.revert n closeTime t (data g) s1) as [se s1'|] eqn:Ea; [|done]. subst s1'. apply revert_account in Ea.
  eapply wp_mono; [by apply (changeStat_wp L s s1 a g se Hr1)| |done]. by intros _ s2 [? _].
Qed.

(** ** Fees *)

(** The balance that the commission account gets its fees on. *)
Definition commissionBalance R (asset : AssetCode) f : Prop := hasBalance R f /\ balAccountID (data f) = commissionID /\ balAsset (data f) = asset.

Lemma greatest_none (l : list (Frame BalanceEntry)) : DS.greatestBalance dp l = None -> l = [].
Proof. destruct l as [|g l]; [done|]. cbn [DS.greatestBalance]. repeat case_match; done. Qed.

Lemma loadCommission_ret L s asset extra d : ready L s -> supplyInv (sRows s) extra d ->
  exists r s', DS.loadBalanceFor dp false commissionID asset s = Ret r s' /\ ready L s' /\ sRows s' = sRows s /\
    match r with Some f => commissionBalance (sRows s) asset f | None => forall f, ~ commissionBalance (sRows s) asset f end.
Proof.
  intros Hr Hi. pose proof (reads_loadBalanceFor dp seq flag (sRows s) false commissionID asset (bi_distinct _ _ _ (si_book _ _ _ _ Hi)) L s Hr eq_refl) as Hw.
  unfold DS.loadBalanceFor in *. rewrite (bind_ret _ _ s s s) in * by done. unfold wp in Hw. rewrite (bind_ret _ _ s s s) in Hw by done.
  set (l := List.filter _ _) in *. destruct (DS.greatestBalance dp l) as [f|] eqn:E.
  - pose proof (greatest_elem dp l f E) as Hin. apply list_elem_of_In, filter_In in Hin as [Hin _]. apply list_elem_of_In, list_elem_of_omap in Hin as (e & Hin & He).
    apply from_inv in He as ->. apply hasBalance_elem in Hin; [|apply Hi].
    assert (DS.checkedBalances (option_list (Some f)) s = Ret (Some f) s) as Ec.
    { unfold DS.checkedBalances. cbn [option_list option_rect forallb]. by rewrite (isValid_of commissionID _ _ f (si_book _ _ _ _ Hi) Hin). }
    rewrite (bind_ret _ _ _ _ _ Ec) in *. cbn in *. eexists _, _. split; [reflexivity|]. destruct Hw as (H1 & H2 & H3). by split_and!.
  - eexists _, _. split; [reflexivity|]. split; [done|]. split; [done|]. intros f (Hf & Hw1 & Hw2). apply greatest_none in E.
    assert (In f l) as Hin; [|by rewrite E in Hin]. apply filter_In. split; [|by rewrite !bool_decide_true].
    apply list_elem_of_In, list_elem_of_omap. exists (toEntry f). split; [by apply hasBalance_elem; [apply Hi|]|apply from_to].
Qed.

Lemma tryFund_spec R extra d f n : supplyInv R extra d -> hasBalance R f -> 0 <= n <= d (balAsset (data f)) ->
  BF.tryFundAccount (amountType dp) n (data f) = (true, BF.with_ (data f) (amount (data f) + n) (locked (data f))).
Proof.
  intros Hi Hf Hn. pose proof (supply_room _ _ _ _ Hi Hf) as Hroom. destruct (bi_balance _ _ _ (si_book _ _ _ _ Hi) f Hf) as (H1 & H2 & _). unfold funds in Hroom.
  rewrite tryFundAccount_spec by lia. rewrite (proj2 (Z.leb_le _ _)) by word_lia. rewrite conv_small by lia. done.
Qed.

(** The fee arrives, or there is no balance for it. *)
Definition feeTaken L s (asset : AssetCode) n s' : Prop := (n = 0 /\ s' = s) \/ n <> 0 /\ exists c, commissionBalance (sRows s) asset c /\
  wrote L s (balanceKey (balanceID (data c))) (Some (toEntry (stamp (withData c (BF.with_ (data c) (amount (data c) + n) (locked (data c))))))) s'.

Lemma transferFee_wp L s asset n extra d : ready L s -> supplyInv (sRows s) extra d -> (forall c, 0 <= d c) -> 0 <= n <= d asset ->
  wp (AM.transferFee dp commissionID asset n) (fun _ s' => ready L s' /\ supplyInv (sRows s') extra (fun c => d c - at_ asset n c) /\
      exists s1, sRows s1 = sRows s /\ feeTaken L s1 asset n s')
    (fun _ _ => n <> 0 /\ forall f, ~ commissionBalance (sRows s) asset f) s.
Proof.
  intros Hr Hi Hd0 Hn. unfold AM.transferFee. destruct (Z.eqb_spec n 0) as [-> |Hn0].
  { split; [done|]. split; [|exists s; split; [done|by left]]. destruct Hi as [Hb Hs Ha Hc]. split; try done. intros c. rewrite <- Hs. at_lia. }
  destruct (loadCommission_ret L s asset extra d Hr Hi) as (r & s1 & E1 & Hr1 & Hs1 & Hc). apply wp_bind. unfold wp at 1. rewrite E1.
  destruct r as [f|]; [|by split]. destruct Hc as (Hf & Hw & Ha). subst asset. rewrite <- Hs1 in Hi, Hf.
  rewrite (tryFund_spec _ _ _ _ _ Hi Hf Hn). cbn [negb]. destruct (bi_balance _ _ _ (si_book _ _ _ _ Hi) f Hf) as (A1 & A2 & _).
  destruct (changeBalance_supply L s1 f (amount (data f) + n) (locked (data f)) extra extra d (fun c => d c - at_ (balAsset (data f)) n c)) as (s2 & E2 & W2 & Hi2);
    [done|done|done|lia|lia|intros id; at_lia|intros c; unfold funds; at_lia|intros c; pose proof (Hd0 c); at_lia|].
  unfold wp. rewrite E2. split; [apply W2|]. split; [done|]. exists s1. split; [done|]. right. split; [done|]. by exists f.
Qed.

End SupplyStore.
