(* ===== verification/Withdrawals.v ===== *)
(** * Withdrawals and issuance keep the money supply

    Asking for a withdrawal locks its amount and fee; approving it takes both
    from the locked part, gives the fee to the commission account and the
    amount back to the issuer; rejecting it unlocks them.  The second part is
    the approval of issuances and pre-issuances. *)

From S2P Require Import Prelude OrdContainers BigMath LedgerDelta LedgerDeltaFacts EntryStore EntryStoreFacts Signatures LedgerHeader TxSet Statistics Balance Assets OfferExchange ExchangeFacts DexStore AccountManager Requests DexFacts BookFacts CrossStore CrossOffer OfferFacts Supply.

Definition nothing : list Z -> Z := fun _ => 0.

(** The amounts of an operation are unsigned 64-bit numbers. *)
Definition wideWithdrawal (q : WithdrawalRequest) : Prop := is_u64 (wAmount q) /\ is_u64 (fixed (wFee q)) /\ is_u64 (percent (wFee q)).

Section Withdrawals.
Context {Key Entry : Type} `{Ord Key} `{EqDecision Entry}.
Context {helper : EntryHelper Key Entry LedgerHeader} {helperOk : EntryHelperOk helper} {headerOk : HeaderOk helper}.
Context {dex : DexEntries Key Entry} {dexOk : DexEntriesOk helper dex} (dp : DexParams) (mp : MoneyParams) (max_size : nat).
Context (seq : Z) (flag : bool) (Hseq : seq <> 0) (commissionID : PublicKey) (closeTime : Z).
Local Abbreviation St := (Store Key Entry LedgerHeader).
Local Abbreviation ready := (ready seq flag).
Local Abbreviation wrote := (wrote seq flag).
Local Abbreviation stamp := (stamp seq flag).
Local Abbreviation supplyInv := (supplyInv commissionID).
Local Abbreviation looks := (looks seq flag).
Implicit Types (s : St) (L : Key -> option Entry) (R : list Entry) (f : Frame BalanceEntry) (extra d : list Z -> Z).
Implicit Types (r : Frame ReviewableRequestEntry) (q : WithdrawalRequest) (op : ReviewRequestOp).

(** A balance with [n] more available and [l] more locked. *)
Definition moved f n l : Frame BalanceEntry := withData f (BF.with_ (data f) (amount (data f) + n) (locked (data f) + l)).

(** ** Asking *)

Section Ask.
Context (source : AccountEntry).

Lemma tryLock_inr R extra d f q b : supplyInv R extra d -> hasBalance R f -> wideWithdrawal q -> WR.tryLockBalance dp q (data f) = inr b ->
  b = BF.with_ (data f) (amount (data f) - withdrawLock q) (locked (data f) + withdrawLock q) /\ 0 <= withdrawLock q <= amount (data f).
Proof.
  intros Hi Hf (H1 & H2 & H3). pose proof (bookInv_inRange _ _ _ _ (si_book _ _ _ _ Hi) Hf) as Hr. unfold WR.tryLockBalance.
  pose proof (safeSum_all_spec [wAmount q; fixed (wFee q); percent (wFee q)] ltac:(auto using List.Forall_cons, List.Forall_nil)) as Hs. cbn [foldr] in Hs. cbv zeta in Hs.
  replace (wAmount q + (fixed (wFee q) + (percent (wFee q) + 0))) with (withdrawLock q) in Hs by (unfold withdrawLock; lia).
  assert (0 <= withdrawLock q) as H0 by (unfold withdrawLock; word_lia).
  destruct (Z.leb_spec (withdrawLock q) UINT64_MAX).
  - rewrite Hs. cbn [negb]. destruct (Z.leb_spec (withdrawLock q) INT64_MAX) as [Hn|Hn].
    + rewrite tryLock_spec by done. destruct (Z.leb_spec (withdrawLock q) (amount (data f))); intros [= <-]. done.
    + unfold BF.tryLock. destruct Hr as (R1 & R2 & R3). unfold funds in R3. rewrite u64_small by word_lia. rewrite (proj2 (Z.ltb_lt _ _)) by lia. done.
  - destruct (safeSum_all _) as [ok n]. cbn [fst] in Hs. by subst ok.
Qed.

Lemma looks_tryLoadBalance R q : looks R (WR.tryLoadBalance source q)
  (fun o => match o with Some f => hasBalance R f /\ balanceID (data f) = wBalance q /\ balAccountID (data f) = accountID source | None => True end).
Proof.
  eapply looks_bind; [apply looks_reads, reads_loadBalance|]. intros [f|] Hf; [|by apply looks_ret]. apply looks_ret. case_bool_decide; [|done].
  destruct Hf. by split_and!.
Qed.

Lemma looks_isConverted R q b : looks R (WR.isConvertedAmountMatches max_size q b) (fun _ => True).
Proof.
  unfold WR.isConvertedAmountMatches. destruct (wDetails q); [|apply looks_throw]. case_bool_decide.
  - destruct (negb _); by apply looks_ret.
  - apply (looks_bind seq flag R _ _ (fun _ => True)); [apply looks_tryLoadPair|]. intros [p|] _; [|by apply looks_ret].
    apply (looks_bind seq flag R _ _ (fun _ => True)); [apply looks_convertAmount|]. intros [ok n] _. repeat case_match; by apply looks_ret.
Qed.

(** The request that was made, and what it locked. *)
Record asked R q (id : Z) f r R' : Prop := {
  as_balance : hasBalance R f;
  as_balanceID : balanceID (data f) = wBalance q;
  as_owner : balAccountID (data f) = accountID source;
  as_lock : 0 <= withdrawLock q <= amount (data f);
  as_new : rowsFind R (requestKey id) = None;
  as_request : hasRequest R' r;
  as_id : requestID (data r) = id;
  as_requestor : requestor (data r) = accountID source;
  as_created : requestCreatedAt (data r) = closeTime;
  as_body : exists u, requestBody (data r) = WITHDRAW (WR.withUniversal q u) \/ requestBody (data r) = TWO_STEP_WITHDRAWAL (WR.withUniversal q u);
  as_locked : rowsFind R' (balanceKey (wBalance q)) = Some (toEntry (stamp (moved f (- withdrawLock q) (withdrawLock q))));
  as_others : forall k, k <> balanceKey (wBalance q) -> k <> requestKey id -> keyKind k <> KIND_STATISTICS -> rowsFind R' k = rowsFind R k;
  as_limits : rowsFind R' (statKey (accountID source)) = rowsFind R (statKey (accountID source)) \/
    exists g, rowsFind R' (statKey (accountID source)) = Some (toEntry g) /\ AM.withinLimits (limitsFor R (accountID source) (accountType source)) (data g) = true;
}.

(** [createRequest], the lock being in place. *)
Lemma createRequest_wp L s q f (a : AssetEntry) u : ready L s -> supplyInv (sRows s) (at_ (wBalance q) (withdrawLock q)) nothing -> wideWithdrawal q ->
  hasBalance (sRows s) f -> balanceID (data f) = wBalance q -> balAccountID (data f) = accountID source ->
  wp (WR.createRequest mp closeTime source q a u) (fun r0 s' => exists r, data r = data r0 /\ ready L s' /\ supplyInv (sRows s') nothing nothing /\
    rowsFind (sRows s) (requestKey (requestID (data r))) = None /\ rewrote (sRows s) (requestKey (requestID (data r))) (Some (toEntry r)) (sRows s') /\
    requestor (data r) = accountID source /\ requestCreatedAt (data r) = closeTime /\
    (requestBody (data r) = WITHDRAW (WR.withUniversal q u) \/ requestBody (data r) = TWO_STEP_WITHDRAWAL (WR.withUniversal q u)))
  (fun _ _ => True) s.
Proof.
  intros Hr Hi Hwq Hf Hid How. unfold WR.createRequest. apply wp_bind. destruct (generateID_ret seq flag L s (REQUEST_TYPE mp) Hr) as (id & s1 & E1 & Hr1 & Hs1).
  unfold wp at 1. rewrite E1. cbv zeta.
  match goal with |- context [RQ.createNewWithHash _ _ _ _ _ ?b _] => set (body := b) end.
  assert (body = WITHDRAW (WR.withUniversal q u) \/ body = TWO_STEP_WITHDRAWAL (WR.withUniversal q u)) as Hb by (unfold body; destruct (AF.checkPolicy _ _); auto).
  set (r0 := {| lastModified := 0; data := RQ.createNewWithHash _ _ _ _ _ _ _ |}). apply wp_bind.
  eapply wp_mono; [apply (add_wp seq flag Hseq L s1 r0 touch_request Hr1)| |done]. intros _ s2 (Hn & _ & W). rewrite key_request in Hn, W. rewrite Hs1 in Hn.
  pose proof (wrote_rows seq flag L _ _ _ _ W) as Hrw. rewrite Hs1 in Hrw.
  exists (stamp r0). split; [done|]. split; [apply W|]. split; [|by split_and!].
  apply (supplyInv_request commissionID (sRows s) (sRows s2) (requestID (data r0)) None (Some (stamp r0)) (at_ (wBalance q) (withdrawLock q)) nothing nothing); [exact Hn| |done| |done].
  - intros r [= <-]. split; [done|]. destruct Hwq as (W1 & W2 & W3). unfold requestOk, feeOk. cbn [stamp r0 data RQ.createNewWithHash requestBody requestor].
    destruct Hb as [-> | ->]; cbn; (split; [word_lia|]; split; [word_lia|]; exists (balAsset (data f)), f; by split_and!).
  - intros b. cbn [lockOfRequest]. unfold requestLock. cbn [stamp r0 data RQ.createNewWithHash requestBody]. destruct Hb as [-> | ->]; unfold nothing, at_, withdrawLock; cbn; destruct (bool_decide _); lia.
Qed.

Lemma ask_wp L s q : ready L s -> supplyInv (sRows s) nothing nothing -> wideWithdrawal q ->
  wp (WR.doApply dp mp max_size closeTime source q) (fun v s' =>
      match v with
      | inl _ => True
      | inr id => ready L s' /\ supplyInv (sRows s') nothing nothing /\ exists f r, asked (sRows s) q id f r (sRows s')
      end) (fun _ _ => True) s.
Proof.
  intros Hr Hi Hwq. unfold WR.doApply. apply wp_bind. eapply wp_mono; [apply (looks_use seq flag _ _ L s (looks_tryLoadBalance _ q) Hr)| |done].
  intros [f|] s1 (Hr1 & Hs1 & Hf); [|done]. destruct Hf as (Hf & Hid & How).
  apply wp_bind. eapply wp_mono; [apply (looks_use seq flag _ _ L s1 (looks_reads seq flag _ _ _ (reads_mustLoadAsset max_size seq flag _ false (balAsset (data f)))) Hr1)| |done].
  intros a s2 (Hr2 & Hs2 & _). destruct (negb _); [done|].
  apply wp_bind. eapply wp_mono; [apply (looks_use seq flag _ _ L s2 (looks_isFeeMatches dp seq flag _ _ _ _ _ _ _) Hr2)| |done]. intros fm s3 (Hr3 & Hs3 & _).
  destruct (negb fm); [done|].
  apply wp_bind. eapply wp_mono; [apply (looks_use seq flag _ _ L s3 (looks_isConverted _ q (data f)) Hr3)| |done]. intros [c|] s4 (Hr4 & Hs4 & _); [done|].
  destruct (WR.tryLockBalance dp q (data f)) as [c|b] eqn:El; [done|]. apply (tryLock_inr _ _ _ _ _ _ Hi Hf Hwq) in El as [-> Hl].
  unfold WR.tryAddStats. apply wp_bind. apply wp_bind. eapply wp_mono; [apply (addStats_wp mp max_size seq flag Hseq commissionID closeTime L s4 source _ (wAmount q) Hr4)| |done].
  intros [res u] s5 ((Hr5 & Ho5 & Hk5) & Hlim). destruct res; try done. specialize (Hlim eq_refl). cbn in Hlim. rewrite How in Hlim. cbn [wp mret M_ret]. unfold wp at 1.
  assert (sRows s4 = sRows s) as Es by congruence. rewrite Es in *. specialize (Hk5 _ _ Hi).
  assert (hasBalance (sRows s5) f) as Hf5 by (unfold hasBalance; rewrite Ho5; [done|by rewrite kind_balance]).
  destruct (bi_balance _ _ _ (si_book _ _ _ _ Hi) f Hf) as (A1 & A2 & _).
  destruct (changeBalance_supply seq flag Hseq commissionID L s5 f (amount (data f) - withdrawLock q) (locked (data f) + withdrawLock q)
    nothing (at_ (wBalance q) (withdrawLock q)) nothing nothing) as (s6 & E6 & W6 & Hi6); [done|done|done|lia|lia|rewrite Hid; intros id; unfold nothing; at_lia|unfold nothing, funds; at_lia|done|].
  apply wp_bind. unfold wp at 1. change (M_ret _ _ _ s5) with (Ret (inr (A := WR.Code) u) s5). rewrite E6.
  set (f' := withData f _) in *. 
  apply wp_bind. eapply wp_mono; [apply (createRequest_wp L s6 q (stamp f') (data a) u); try done; [apply W6|]| |done].
  { exact (wrote_same seq flag L s5 _ _ s6 W6). }
  intros r0 s7 (r & Er & Hr7 & Hi7 & Hn & Hrw & Hq1 & Hq2 & Hq3). rewrite <- Er. cbn [wp mret M_ret]. split; [done|]. split; [done|]. exists f, r.
  assert (forall k, k <> balanceKey (wBalance q) -> keyKind k <> KIND_STATISTICS -> rowsFind (sRows s6) k = rowsFind (sRows s) k) as H6.
  { intros k Hk1 Hk2. rewrite (wrote_other seq flag L s5 _ _ s6 k W6), Ho5; [done|done|]. rewrite Hid. congruence. }
  assert (rowsFind (sRows s7) (statKey (accountID source)) = rowsFind (sRows s5) (statKey (accountID source))) as Est.
  { rewrite (rewrote_other _ _ _ _ _ Hrw), (wrote_other seq flag L s5 _ _ s6 _ W6); [done|intros E; kinds E|intros E; kinds E]. }
  split; try done; [| |by exists u| | |].
  - rewrite <- Hn. symmetry. apply H6; [intros E; kinds E|by rewrite kind_request].
  - unfold hasRequest. by rewrite (rewrote_same _ _ _ _ Hrw).
  - rewrite (rewrote_other _ _ _ _ _ Hrw); [|intros E; kinds E]. rewrite <- Hid. by rewrite (wrote_same seq flag L s5 _ _ s6 W6).
  - intros k Hk1 Hk2 Hk3. rewrite (rewrote_other _ _ _ _ _ Hrw) by congruence. by apply H6.
  - rewrite Est. destruct Hlim as [-> |Hlim]; [by left|by right].
Qed.

End Ask.
(** ** Reviewing *)

Definition withdrawalOf (b : RequestBody) : option WithdrawalRequest :=
  match b with WITHDRAW q | TWO_STEP_WITHDRAWAL q => Some q | _ => None end.

Lemma lock_of_withdrawal r q b : withdrawalOf (requestBody (data r)) = Some q -> requestLock b (data r) = at_ (wBalance q) (withdrawLock q) b.
Proof. unfold requestLock, at_. by destruct (requestBody (data r)); intros [= <-]. Qed.

(** The balance of a withdrawal has what it locked. *)
Lemma withdrawal_balance R r q : supplyInv R nothing nothing -> hasRequest R r -> withdrawalOf (requestBody (data r)) = Some q ->
  exists f, hasBalance R f /\ balanceID (data f) = wBalance q /\ balAccountID (data f) = requestor (data r) /\
    0 <= wAmount q /\ feeOk (wFee q) /\ withdrawLock q <= locked (data f) /\ locked (data f) <= INT64_MAX.
Proof.
  intros Hi Hr Hq. pose proof (bi_request _ _ _ (si_book _ _ _ _ Hi) r Hr) as Ho.
  assert (0 <= wAmount q /\ feeOk (wFee q) /\ exists a, ownBalance R (wBalance q) (requestor (data r)) a) as (H1 & H2 & a & f & Hf & Hid & How & _).
  { unfold requestOk in Ho. destruct (requestBody (data r)); cbn in Hq; simplify_eq; done. }
  exists f. split_and!; try done.
  - destruct (bi_balance _ _ _ (si_book _ _ _ _ Hi) f Hf) as (_ & _ & _ & Hl). unfold nothing in Hl.
    pose proof (sumOf_one (lockOn (balanceID (data f))) R (toEntry r) (bi_distinct _ _ _ (si_book _ _ _ _ Hi))) as H3.
    rewrite key_request, lockOn_request, (lock_of_withdrawal r q) in H3 by done. unfold at_ in H3. rewrite bool_decide_true in H3 by done.
    specialize (H3 (fun e He => bookInv_lockOn commissionID R _ _ e (si_book _ _ _ _ Hi) He) Hr). lia.
  - pose proof (bookInv_inRange _ _ _ _ (si_book _ _ _ _ Hi) Hf) as (? & ? & ?). unfold funds in *. lia.
Qed.

Lemma totals_ret {S} q (s : S) : 0 <= wAmount q -> feeOk (wFee q) -> withdrawLock q <= INT64_MAX ->
  RQ.getTotalFee (wFee q) s = Ret (fixed (wFee q) + percent (wFee q)) s /\ RQ.getTotalAmountToCharge q s = Ret (withdrawLock q) s.
Proof.
  intros H1 [H2 H3] Hl. unfold withdrawLock in *. assert (RQ.getTotalFee (wFee q) s = Ret (fixed (wFee q) + percent (wFee q)) s) as E.
  { unfold RQ.getTotalFee. rewrite safeSum_small by lia. cbn. by rewrite Z.add_comm. }
  split; [done|]. unfold RQ.getTotalAmountToCharge. rewrite (bind_ret _ _ _ _ _ E), safeSum_small by lia. cbn. f_equal. lia.
Qed.

(** Deleting a request that has nothing locked any more. *)
Lemma deleteRequest_supply L s r extra extra' d : ready L s -> supplyInv (sRows s) extra d -> hasRequest (sRows s) r ->
  (forall b, extra' b <= extra b + requestLock b (data r)) ->
  exists s', DS.storeDeleteEntry r s = Ret tt s' /\ wrote L s (requestKey (requestID (data r))) None s' /\ supplyInv (sRows s') extra' d.
Proof.
  intros Hr Hi Hq He. destruct (delete_ret seq flag L s r ltac:(by rewrite key_request, deletes_request) Hr) as (s' & E & W); [rewrite key_request, (Hq : rowsFind _ _ = _); by eexists|].
  rewrite key_request in W. exists s'. split; [done|]. split; [done|].
  apply (supplyInv_request commissionID (sRows s) (sRows s') (requestID (data r)) (Some r) None extra extra' d); [exact Hq|done|by eapply wrote_rows| |done].
  intros b. specialize (He b). cbn [lockOfRequest]. lia.
Qed.

(** *** Rejecting *)

Record rejected R q r f R' : Prop := {
  rj_balance : hasBalance R f;
  rj_balanceID : balanceID (data f) = wBalance q;
  rj_owner : balAccountID (data f) = requestor (data r);
  rj_unlocked : rowsFind R' (balanceKey (wBalance q)) = Some (toEntry (stamp (moved f (withdrawLock q) (- withdrawLock q))));
  rj_gone : rowsFind R' (requestKey (requestID (data r))) = None;
  rj_others : forall k, k <> balanceKey (wBalance q) -> k <> requestKey (requestID (data r)) -> keyKind k <> KIND_STATISTICS -> rowsFind R' k = rowsFind R k;
}.

Lemma reject_wp L s q op r : ready L s -> supplyInv (sRows s) nothing nothing -> hasRequest (sRows s) r -> withdrawalOf (requestBody (data r)) = Some q ->
  wp (RR.rejectWithdrawalRequest dp closeTime q op r) (fun res s' => res = (true, REVIEW_SUCCESS) /\ ready L s' /\ supplyInv (sRows s') nothing nothing /\
    exists f, rejected (sRows s) q r f (sRows s')) (fun _ _ => True) s.
Proof.
  intros Hr Hi Hrq Hq. destruct (withdrawal_balance _ r q Hi Hrq Hq) as (f & Hf & Hid & How & H1 & H2 & Hl & Hm).
  destruct (mustLoadBalance_ret seq flag commissionID L s true f nothing nothing Hr Hi Hf) as (s1 & E1 & Hr1 & Hs1).
  destruct (totals_ret q s1 H1 H2 ltac:(lia)) as [_ Et]. assert (0 <= withdrawLock q) as H0 by (destruct H2; unfold withdrawLock; lia).
  destruct (bi_balance _ _ _ (si_book _ _ _ _ Hi) f Hf) as (A1 & A2 & _). pose proof (bookInv_inRange _ _ _ _ (si_book _ _ _ _ Hi) Hf) as Hin.
  unfold RR.rejectWithdrawalRequest. apply wp_bind. rewrite <- Hid. unfold wp at 1. rewrite E1. apply wp_bind. unfold wp at 1. rewrite Et.
  rewrite (unlock_spec (amountType dp) (data f)), (proj2 (Z.leb_le _ _)) by (done || lia). cbn [negb]. apply wp_bind.
  apply (wp_mono _ (fun _ s2 => statsOnly seq flag commissionID L s s2) _ (fun _ _ => True)); [|intros _ s2 (Hr2 & Ho2 & Hk2)|done].
  { apply wp_when; intros _; [|by apply statsOnly_same]. eapply wp_mono; [exact (revertStats_wp seq flag Hseq commissionID closeTime L s1 _ _ _ Hr1)| |done].
    intros [] s2 Hst. unfold statsOnly in *. by rewrite Hs1 in Hst. }
  specialize (Hk2 _ _ Hi). assert (hasBalance (sRows s2) f) as Hf2 by (unfold hasBalance; rewrite Ho2; [done|by rewrite kind_balance]).
  destruct (changeBalance_supply seq flag Hseq commissionID L s2 f (amount (data f) + withdrawLock q) (locked (data f) - withdrawLock q)
    nothing (at_ (wBalance q) (- withdrawLock q)) nothing nothing) as (s3 & E3 & W3 & Hi3); [done|done|done|lia|lia|rewrite Hid; intros id; unfold nothing; at_lia|unfold nothing, funds; at_lia|done|].
  apply wp_bind. unfold wp at 1. rewrite E3.
  assert (hasRequest (sRows s3) r) as Hrq3.
  { unfold hasRequest. rewrite (wrote_other seq flag L s2 _ _ s3 _ W3), Ho2; [done|by rewrite kind_request|intros E; kinds E]. }
  destruct (deleteRequest_supply L s3 r (at_ (wBalance q) (- withdrawLock q)) nothing nothing) as (s4 & E4 & W4 & Hi4); [apply W3|done|done| |].
  { intros b. rewrite (lock_of_withdrawal r q) by done. unfold nothing. at_lia. }
  unfold RR.default_handlePermanentReject. apply wp_bind. unfold wp at 1. rewrite E4. cbn [wp mret M_ret]. split; [done|]. split; [apply W4|]. split; [done|]. exists f.
  split; try done.
  - rewrite (wrote_other seq flag L s3 _ _ s4 _ W4), <- Hid; [exact (wrote_same seq flag L s2 _ _ s3 W3)|]. intros E. kinds E.
  - exact (wrote_same seq flag L s3 _ _ s4 W4).
  - intros k Hk1 Hk2' Hk3. rewrite (wrote_other seq flag L s3 _ _ s4 _ W4), (wrote_other seq flag L s2 _ _ s3 _ W3), Ho2 by congruence. done.
Qed.

(** *** Approving *)

(** The asset is there, and a balance for the fee. *)
Definition payable R q (asset : AssetCode) : Prop := is_Some (rowsFind R (assetKey asset)) /\
  (fixed (wFee q) + percent (wFee q) <> 0 -> exists c, commissionBalance commissionID R asset c).

Record approved R q r f (a : Frame AssetEntry) R' : Prop := {
  ap_balance : hasBalance R f;
  ap_balanceID : balanceID (data f) = wBalance q;
  ap_owner : balAccountID (data f) = requestor (data r);
  ap_asset : hasAsset R a;
  ap_code : assetCode (data a) = balAsset (data f);
  ap_charged : requestor (data r) <> commissionID ->
    rowsFind R' (balanceKey (wBalance q)) = Some (toEntry (stamp (moved f 0 (- withdrawLock q))));
  ap_withdrawn : exists a', hasAsset R' a' /\ data a' = AF.with_ (data a) (availableForIssueance (data a)) (issued (data a) - wAmount q) (pendingIssuance (data a));
  ap_gone : rowsFind R' (requestKey (requestID (data r))) = None;
}.

Lemma tryWithdraw_spec a n : assetOk a -> 0 <= n <= issued a ->
  AF.tryWithdraw n a = (true, AF.with_ a (availableForIssueance a) (issued a - n) (pendingIssuance a)) /\
  assetOk (AF.with_ a (availableForIssueance a) (issued a - n) (pendingIssuance a)).
Proof.
  intros [H1 H2 H3 H4 H5 H6] Hn. unfold AF.tryWithdraw. rewrite (proj2 (Z.ltb_ge _ _)), u64_small by word_lia. split; [done|]. split; cbn; done || lia.
Qed.

(** The end of the review: the fee, and the asset. *)
Lemma payWithdrawal_wp L s q (a0 : AssetCode) : ready L s -> supplyInv (sRows s) nothing (at_ a0 (withdrawLock q)) -> 0 <= wAmount q -> feeOk (wFee q) -> withdrawLock q <= INT64_MAX ->
  wp (totalFee ← RQ.getTotalFee (wFee q);
      AM.transferFee dp commissionID a0 totalFee;;
      a ← DS.loadAsset max_size true a0;
      match a with
      | None => throw (RuntimeError "Failed to load asset for withdrawal request")
      | Some assetFrame =>
          let '(ok, asset) := AF.tryWithdraw (wAmount q) (data assetFrame) in
          if negb ok then throw (RuntimeError "Failed to withdraw from asset") else
          DS.storeChangeEntry (withData assetFrame asset);; mret (true, REVIEW_SUCCESS)
      end)
    (fun res s' => res = (true, REVIEW_SUCCESS) /\ ready L s' /\ supplyInv (sRows s') nothing nothing /\
      (exists a a', hasAsset (sRows s) a /\ assetCode (data a) = a0 /\ hasAsset (sRows s') a' /\
        data a' = AF.with_ (data a) (availableForIssueance (data a)) (issued (data a) - wAmount q) (pendingIssuance (data a))) /\
      forall k, keyKind k <> KIND_ASSET -> (forall c, commissionBalance commissionID (sRows s) a0 c -> k <> balanceKey (balanceID (data c))) ->
        rowsFind (sRows s') k = rowsFind (sRows s) k)
    (fun _ _ => ~ payable (sRows s) q a0) s.
Proof.
  intros Hr Hi H1 H2 Hm. destruct (totals_ret q s H1 H2 Hm) as [Ef _]. apply wp_bind. unfold wp at 1. rewrite Ef. assert (H2' := H2). destruct H2' as [F1 F2].
  apply wp_bind. eapply wp_mono.
  { apply (transferFee_wp dp seq flag Hseq commissionID L s a0 (fixed (wFee q) + percent (wFee q)) nothing (at_ a0 (withdrawLock q)) Hr Hi); unfold withdrawLock; [at_lia|].
    unfold at_. rewrite bool_decide_true by done. lia. }
  2:{ intros x s1 [Hn Hno] [_ Hp]. destruct (Hp Hn) as (c & Hc). by apply (Hno c). }
  intros _ s1 (Hr1 & Hi1 & s1' & Hs1' & Hfee).
  assert (forall k, (forall c, commissionBalance commissionID (sRows s) a0 c -> k <> balanceKey (balanceID (data c))) -> rowsFind (sRows s1) k = rowsFind (sRows s) k) as Ho1.
  { intros k Hk. rewrite <- Hs1'. destruct Hfee as [[_ ->] |(_ & c & Hc & W)]; [done|]. rewrite Hs1' in Hc. apply (wrote_other seq flag L s1' _ _ s1 _ W), not_eq_sym, Hk, Hc. }
  assert (forall c, rowsFind (sRows s1) (assetKey c) = rowsFind (sRows s) (assetKey c)) as Hka by (intros c; apply Ho1; intros g _ E; kinds E).
  destruct (loadAsset_ret max_size seq flag commissionID L s1 true a0 _ _ Hr1 Hi1) as (ra & s2 & E2 & Hr2 & Hs2 & Hra). apply wp_bind. unfold wp at 1. rewrite E2.
  destruct ra as [a|]; [|intros [[e He] _]; rewrite Hka in Hra; congruence].
  destruct Hra as [Ha Hac]. rewrite <- Hs2 in Hi1, Ha. pose proof (si_asset _ _ _ _ Hi1 a Ha) as Hok.
  assert (wAmount q <= issued (data a)) as Hle.
  { rewrite <- (issued_of (sRows s2) a (bi_distinct _ _ _ (si_book _ _ _ _ Hi1)) Ha), <- (si_supply _ _ _ _ Hi1), Hac. unfold at_. rewrite bool_decide_true by done.
    pose proof (sumOf_nonneg (fundsOf a0) (sRows s2) (fun e He => bookInv_fundsOf commissionID _ _ a0 e (si_book _ _ _ _ Hi1) He)). unfold withdrawLock. lia. }
  destruct (tryWithdraw_spec (data a) (wAmount q) Hok ltac:(lia)) as [Ew Hok']. rewrite Ew. cbn [negb]. set (a' := AF.with_ _ _ _ _) in *.
  destruct (changeAsset_supply seq flag Hseq commissionID L s2 a a' nothing _ nothing Hr2 Hi1 Ha eq_refl Hok') as (s3 & E3 & W3 & Hi3).
  { intros c. change (assetCode a') with (assetCode (data a)). change (issued a') with (issued (data a) - wAmount q). rewrite Hac. unfold nothing, withdrawLock. at_lia. }
  apply wp_bind. unfold wp at 1. rewrite E3. cbn [wp mret M_ret]. split; [done|]. split; [apply W3|]. split; [done|]. split.
  - exists a, (stamp (withData a a')). split_and!; try done; [|exact (wrote_same seq flag L s2 _ _ s3 W3)]. unfold hasAsset. by rewrite <- Hka, <- Hs2.
  - intros k Hk1 Hk2. rewrite (wrote_other seq flag L s2 _ _ s3 _ W3), Hs2; [by apply Ho1|]. intros <-. by rewrite kind_asset in Hk1.
Qed.

(** The beginning: the request is gone, and the lock is charged. *)
Lemma chargeWithdrawal_ret L s r q f : ready L s -> supplyInv (sRows s) nothing nothing -> hasRequest (sRows s) r -> withdrawalOf (requestBody (data r)) = Some q ->
  hasBalance (sRows s) f -> balanceID (data f) = wBalance q -> 0 <= withdrawLock q <= locked (data f) -> locked (data f) <= INT64_MAX ->
  let b := BF.with_ (data f) (amount (data f)) (locked (data f) - withdrawLock q) in
  exists s1 s2 s3, DS.storeDeleteEntry r s = Ret tt s1 /\ AM.mustLoadBalance true (wBalance q) s1 = Ret f s2 /\
    BF.tryChargeFromLocked (amountType dp) (withdrawLock q) (data f) = (true, b) /\ DS.storeChangeEntry (withData f b) s2 = Ret tt s3 /\
    ready L s3 /\ supplyInv (sRows s3) nothing (at_ (balAsset (data f)) (withdrawLock q)) /\
    forall k, rowsFind (sRows s3) k = update (balanceKey (wBalance q)) (Some (toEntry (stamp (withData f b)))) (update (requestKey (requestID (data r))) None (rowsFind (sRows s))) k.
Proof.
  intros Hr Hi Hrq Hq Hf Hid [H0 Hl] Hm b. destruct (bi_balance _ _ _ (si_book _ _ _ _ Hi) f Hf) as (A1 & A2 & _).
  destruct (deleteRequest_supply L s r nothing (at_ (wBalance q) (withdrawLock q)) nothing Hr Hi Hrq) as (s1 & E1 & W1 & Hi1).
  { intros c. rewrite (lock_of_withdrawal r q) by done. unfold nothing. lia. }
  assert (hasBalance (sRows s1) f) as Hf1 by (unfold hasBalance; rewrite (wrote_other seq flag L s _ _ s1 _ W1); [done|intros E; kinds E]).
  destruct (mustLoadBalance_ret seq flag commissionID L s1 true f _ _ ltac:(apply W1) Hi1 Hf1) as (s2 & E2 & Hr2 & Hs2). rewrite <- Hs2 in Hi1, Hf1.
  destruct (changeBalance_supply seq flag Hseq commissionID L s2 f (amount (data f)) (locked (data f) - withdrawLock q)
    (at_ (wBalance q) (withdrawLock q)) nothing nothing (at_ (balAsset (data f)) (withdrawLock q))) as (s3 & E3 & W3 & Hi3);
    [done|done|done|lia|lia|rewrite Hid; intros id; unfold nothing; at_lia|intros c; unfold nothing, funds; at_lia|intros c; at_lia|].
  exists s1, s2, s3. rewrite <- Hid at 1. split_and!; try done; [|apply W3|].
  - unfold BF.tryChargeFromLocked. rewrite u64_small by word_lia. rewrite (proj2 (Z.ltb_ge _ _)) by lia. unfold BF.setLocked. by rewrite conv_small by lia.
  - intros k. rewrite (proj2 W3), Hid. unfold update at 1 2. destruct (eqvb _ _); [done|]. by rewrite Hs2, (proj2 W1).
Qed.

Lemma approve_wp L s op r q : ready L s -> supplyInv (sRows s) nothing nothing -> hasRequest (sRows s) r -> requestBody (data r) = WITHDRAW q ->
  wp (RR.withdraw_handleApprove dp max_size commissionID op r) (fun res s' => res = (true, REVIEW_SUCCESS) /\ ready L s' /\ supplyInv (sRows s') nothing nothing /\
      exists f a, approved (sRows s) q r f a (sRows s'))
    (fun _ _ => forall asset, ownBalance (sRows s) (wBalance q) (requestor (data r)) asset -> ~ payable (sRows s) q asset) s.
Proof.
  intros Hr Hi Hrq Hb. assert (withdrawalOf (requestBody (data r)) = Some q) as Hq by (by rewrite Hb).
  destruct (withdrawal_balance _ r q Hi Hrq Hq) as (f & Hf & Hid & How & H1 & H2 & Hl & Hm). assert (H2' := H2). destruct H2' as [F1 F2].
  destruct (chargeWithdrawal_ret L s r q f Hr Hi Hrq Hq Hf Hid) as (s1 & s2 & s3 & E1 & E2 & Ec & E3 & Hr3 & Hi3 & Ho3); [unfold withdrawLock in *; lia|done|].
  destruct (totals_ret q s2 H1 H2 ltac:(lia)) as [_ Et]. unfold RR.withdraw_handleApprove. rewrite Hb.
  apply wp_bind. unfold wp at 1. rewrite E1. apply wp_bind. unfold wp at 1. rewrite E2. apply wp_bind. unfold wp at 1. rewrite Et, Ec. cbn [negb].
  apply wp_bind. unfold wp at 1. rewrite E3.
  set (f' := stamp (withData f _)) in *. set (rk := requestKey (requestID (data r))) in *.
  assert (hasBalance (sRows s3) f') as Hf3 by (unfold hasBalance; rewrite Ho3, <- Hid; unfold update; change (balanceID (data f')) with (balanceID (data f)); by rewrite eqvb_refl).
  assert (forall k, k <> balanceKey (wBalance q) -> k <> rk -> rowsFind (sRows s3) k = rowsFind (sRows s) k) as Hok.
  { intros k Hk1 Hk2. rewrite Ho3. unfold update. by rewrite !eqvb_neq by congruence. }
  assert (forall c, rowsFind (sRows s3) (assetKey c) = rowsFind (sRows s) (assetKey c)) as Hka by (intros c; apply Hok; unfold rk; intros E; kinds E).
  eapply wp_mono; [apply (payWithdrawal_wp L s3 q (balAsset (data f)) Hr3 Hi3 H1 H2); lia|..].
  - intros res s' (-> & Hr' & Hi' & (a & a' & Ha & Hac & Ha' & Hda) & Hoth). split; [done|]. split; [done|]. split; [done|]. exists f, a. split; try done.
    + unfold hasAsset. by rewrite <- Hka.
    + intros Hne. rewrite Hoth; [|by rewrite kind_balance|].
      * rewrite Ho3. unfold update. rewrite eqvb_refl. do 4 f_equal. unfold moved. do 2 f_equal; lia.
      * intros c (Hc & Hcw & _) E. apply balanceKey_inj in E. rewrite (hasBalance_inj _ c f' Hc Hf3) in Hcw; [|cbn; congruence]. cbn in Hcw. congruence.
    + by exists a'.
    + rewrite Hoth; [|unfold rk; by rewrite kind_request|intros c _ E; unfold rk in E; kinds E]. rewrite Ho3. unfold update. fold rk. rewrite eqvb_refl.
      rewrite eqvb_neq; [done|]. intros E. unfold rk in E. kinds E.
  - intros x s' Hno asset (f2 & Hf2 & Hid2 & _ & <-) [Hp1 Hp2]. rewrite (hasBalance_inj _ f2 f Hf2 Hf) in Hp1, Hp2 by congruence. apply Hno. split; [by rewrite Hka|].
    intros Hn. destruct (Hp2 Hn) as (c & Hc & Hcw & Hca). destruct (decide (balanceID (data c) = balanceID (data f))) as [E|E].
    + exists f'. rewrite (hasBalance_inj _ c f Hc Hf E) in Hcw. by split_and!.
    + exists c. split_and!; try done. unfold hasBalance. rewrite Hok; [done| |intros Ek; unfold rk in Ek; kinds Ek]. intros Ek. apply balanceKey_inj in Ek. congruence.
Qed.

End Withdrawals.

(** * Issuance keeps the money supply

    An issuance raises what the asset says was issued by what the receiver
    and the commission account get.  The review in a nested delta either does
    all of it or nothing. *)

Lemma safeSum_true a b n : 0 <= a -> 0 <= b -> safeSum a b = (true, n) -> n = a + b.
Proof.
  intros Ha Hb Hs. assert (n = u64 (a + b)) as -> by (by injection Hs). assert (is_u64 a /\ is_u64 b) as [Ua Ub].
  { injection Hs as Ht. apply andb_true_iff in Ht as [H1 H2]. rewrite Z.geb_le in H1, H2. word_lia. }
  rewrite safeSum_spec in Hs by done. injection Hs as Hle. apply Z.leb_le in Hle. apply u64_small. word_lia.
Qed.

Lemma runOps_flag {Key Entry Header} `{Ord Key} (keyOf : Entry -> Key) os (d d' : LedgerDelta Key Entry Header) :
  runOps keyOf os d = Ret tt d' -> mUpdateLastModified d' = mUpdateLastModified d.
Proof.
  revert d. induction os as [|o os IH]; intros d; [by intros [= <-]|]. cbn [runOps]. unfold mbind, M_bind.
  destruct (runOp keyOf o d) as [[] d1|] eqn:E; [|done]. intros Hr. rewrite (IH d1 Hr). by apply runOp_flag in E.
Qed.

Section Issuance.
Context {Key Entry : Type} `{Ord Key} `{EqDecision Entry}.
Context {helper : EntryHelper Key Entry LedgerHeader} {helperOk : EntryHelperOk helper} {headerOk : HeaderOk helper}.
Context {dex : DexEntries Key Entry} {dexOk : DexEntriesOk helper dex} (dp : DexParams) (mp : MoneyParams) (max_size : nat).
Context (seq : Z) (flag : bool) (Hseq : seq <> 0) (commissionID : PublicKey) (closeTime : Z).
Local Abbreviation St := (Store Key Entry LedgerHeader).
Local Abbreviation ready := (ready seq flag).
Local Abbreviation wrote := (wrote seq flag).
Local Abbreviation stamp := (stamp seq flag).
Local Abbreviation supplyInv := (supplyInv commissionID).
Local Abbreviation looks := (looks seq flag).
Implicit Types (s : St) (L : Key -> option Entry) (R : list Entry) (f : Frame BalanceEntry) (extra d : list Z -> Z).
Implicit Types (r : Frame ReviewableRequestEntry) (q : IssuanceRequest) (op : ReviewRequestOp).

(** ** References *)

Definition refsOnly L s s' : Prop := ready L s' /\ (forall k, keyKind k <> KIND_REFERENCE -> rowsFind (sRows s') k = rowsFind (sRows s) k) /\
  forall extra d, supplyInv (sRows s) extra d -> supplyInv (sRows s') extra d.

Lemma createReference_wp L s w ref : ready L s -> wp (RR.createReference w ref) (fun _ s' => refsOnly L s s') (fun _ _ => True) s.
Proof.
  intros Hr. unfold RR.createReference. destruct ref as [t|]; [|done]. apply wp_bind, wp_get. destruct (ES.selectRow s (referenceKey w t)); [done|].
  set (g := {| lastModified := 0; data := (w, t) |}). eapply wp_mono; [apply (add_wp seq flag Hseq L s g touch_reference Hr)| |done].
  intros _ s' (_ & _ & W). rewrite key_reference in W. cbn in W. split; [apply W|]. split.
  - intros k Hk. apply (wrote_other seq flag L s _ _ s' k W). intros <-. by rewrite kind_reference in Hk.
  - intros extra d Hi. apply (supplyInv_data commissionID (sRows s) (sRows s') _ _ extra d Hi) with (2 := wrote_rows seq flag L _ _ _ _ W).
    + exact (key_reference (stamp g)).
    + right. apply kind_reference.
Qed.

(** ** Issuing *)

Definition issuedAsset (a : AssetEntry) n : AssetEntry := AF.with_ a (availableForIssueance a - n) (issued a + n) (pendingIssuance a).

Lemma tryIssue_spec a n : assetOk a -> is_u64 n -> AF.willExceedMaxIssuanceAmount n a = false -> AF.isAvailableForIssuanceAmountSufficient n a = true ->
  AF.tryIssue n a = (true, issuedAsset a n) /\ assetOk (issuedAsset a n) /\ n <= INT64_MAX.
Proof.
  intros [H1 H2 H3 H4 H5 H6] Hn Hw Ha. unfold AF.tryIssue. rewrite Hw, Ha. cbn [negb].
  assert (issued a + n + pendingIssuance a <= maxIssuanceAmount a) as Hm.
  { unfold AF.willExceedMaxIssuanceAmount in Hw. pose proof (safeSum_all_spec [issued a; n; pendingIssuance a]) as Hs. cbn [foldr] in Hs. cbv zeta in Hs.
    specialize (Hs ltac:(repeat apply List.Forall_cons; [word_lia|done|word_lia|apply List.Forall_nil])).
    destruct (_ <=? _).
    - rewrite Hs in Hw. cbn [negb] in Hw. rewrite Z.gtb_ltb in Hw. apply Z.ltb_ge in Hw. lia.
    - destruct (safeSum_all _) as [ok m]. cbn in Hs. subst ok. done. }
  unfold AF.isAvailableForIssuanceAmountSufficient in Ha. apply Z.geb_le in Ha. rewrite !u64_small by word_lia. split; [done|].
  split; [|word_lia]. split; cbn; try done; word_lia.
Qed.

(** What a request for an issuance gives, and to whom. *)
Record issuedTo R q r f (a : Frame AssetEntry) R' : Prop := {
  it_receiver : hasBalance R f;
  it_receiverID : balanceID (data f) = iReceiver q;
  it_asset : hasAsset R a;
  it_code : assetCode (data a) = iAsset q /\ balAsset (data f) = iAsset q;
  it_fee : fixed (iFee q) + percent (iFee q) < iAmount q;
  it_funded : rowsFind R' (balanceKey (iReceiver q)) = Some (toEntry (stamp (moved f (iAmount q - (fixed (iFee q) + percent (iFee q))) 0)));
  it_issued : exists a', hasAsset R' a' /\ data a' = issuedAsset (data a) (iAmount q);
  it_gone : rowsFind R' (requestKey (requestID (data r))) = None;
}.

(** The end of the review: the fee and the rest. *)
Lemma payIssuance_wp L s q r f : ready L s -> supplyInv (sRows s) nothing (at_ (iAsset q) (iAmount q)) -> hasRequest (sRows s) r -> requestBody (data r) = ISSUANCE_CREATE q ->
  hasBalance (sRows s) f -> balanceID (data f) = iReceiver q -> iAmount q <= INT64_MAX -> fixed (iFee q) + percent (iFee q) < iAmount q ->
  wp (AM.transferFee dp commissionID (iAsset q) (fixed (iFee q) + percent (iFee q));;
      let '(ok, b) := BF.tryFundAccount (amountType dp) (u64 (iAmount q - (fixed (iFee q) + percent (iFee q)))) (data f) in
      if negb ok then mret (false, FULL_LINE) else
      DS.storeChangeEntry (withData f b);; DS.storeDeleteEntry r;; mret (true, REVIEW_SUCCESS))
    (fun res s' => res = (true, REVIEW_SUCCESS) /\ ready L s' /\ supplyInv (sRows s') nothing nothing /\ balAsset (data f) = iAsset q /\
      rowsFind (sRows s') (balanceKey (iReceiver q)) = Some (toEntry (stamp (moved f (iAmount q - (fixed (iFee q) + percent (iFee q))) 0))) /\
      rowsFind (sRows s') (requestKey (requestID (data r))) = None /\
      forall c, rowsFind (sRows s') (assetKey c) = rowsFind (sRows s) (assetKey c)) (fun _ _ => True) s.
Proof.
  intros Hr Hi Hrq Hb Hf Hid Hmax Hfee. pose proof (bi_request _ _ _ (si_book _ _ _ _ Hi) r Hrq) as Ho. unfold requestOk in Ho. rewrite Hb in Ho.
  destruct Ho as (Hu & (Hf1 & Hf2) & w & (f2 & Hf2' & Hid2 & How & Ha) & Hc). rewrite (hasBalance_inj _ f2 f Hf2' Hf) in How, Ha by congruence. clear f2 Hf2' Hid2.
  set (fee := fixed (iFee q) + percent (iFee q)) in *. apply wp_bind. eapply wp_mono.
  { apply (transferFee_wp dp seq flag Hseq commissionID L s (iAsset q) fee nothing (at_ (iAsset q) (iAmount q)) Hr Hi); [intros c; unfold at_; case_bool_decide; word_lia|].
    unfold at_. rewrite bool_decide_true by done. unfold fee. lia. }
  2: done. intros _ s1 (Hr1 & Hi1 & s1' & Hs1' & Hfe).
  (* the receiver does not get the fee *)
  assert (hasBalance (sRows s1) f /\ (forall k, (forall id, k <> balanceKey id) -> rowsFind (sRows s1) k = rowsFind (sRows s) k)) as [Hf1' Ho1].
  { destruct Hfe as [[_ ->] |(Hn & c & (Hcb & Hcw & _) & W)]; [by rewrite Hs1'|]. rewrite Hs1' in Hcb. split.
    - unfold hasBalance. rewrite (wrote_other seq flag L s1' _ _ s1 _ W), Hs1'; [done|]. intros E. apply balanceKey_inj in E.
      rewrite (hasBalance_inj _ c f Hcb Hf E) in Hcw. destruct (Hc ltac:(congruence)). unfold fee in Hn. lia.
    - intros k Hk. rewrite (wrote_other seq flag L s1' _ _ s1 _ W), Hs1'; [done|apply not_eq_sym, Hk]. }
  set (d1 := fun c => at_ (iAsset q) (iAmount q) c - at_ (iAsset q) fee c) in *.
  rewrite u64_small by word_lia. rewrite (tryFund_spec dp commissionID _ nothing d1 f (iAmount q - fee) Hi1 Hf1').
  2:{ rewrite Ha. unfold d1, at_. rewrite !bool_decide_true by done. lia. }
  cbn [negb]. destruct (bi_balance _ _ _ (si_book _ _ _ _ Hi1) f Hf1') as (A1 & A2 & _).
  destruct (changeBalance_supply seq flag Hseq commissionID L s1 f (amount (data f) + (iAmount q - fee)) (locked (data f)) nothing nothing d1 nothing) as (s2 & E2 & W2 & Hi2);
    [done|done|done|lia|lia|intros id; unfold nothing; at_lia|intros c; unfold d1, nothing, funds; rewrite Ha; at_lia|done|].
  apply wp_bind. unfold wp at 1. rewrite E2. assert (forall id k, requestKey id <> balanceKey k) as Hkb by (intros id k E; kinds E).
  destruct (deleteRequest_supply seq flag commissionID L s2 r nothing nothing nothing) as (s3 & E3 & W3 & Hi3); [apply W2|done| | |].
  { unfold hasRequest. rewrite (wrote_other seq flag L s1 _ _ s2 _ W2), Ho1; [done|apply Hkb|apply not_eq_sym, Hkb]. }
  { intros b. unfold nothing, requestLock. by rewrite Hb. }
  apply wp_bind. unfold wp at 1. rewrite E3. cbn [wp mret M_ret]. split; [done|]. split; [apply W3|]. split; [done|]. split; [congruence|]. split_and!.
  - rewrite (wrote_other seq flag L s2 _ _ s3 _ W3), <- Hid by apply Hkb. rewrite (wrote_same seq flag L s1 _ _ s2 W2). do 4 f_equal. unfold moved. do 2 f_equal; lia.
  - exact (wrote_same seq flag L s2 _ _ s3 W3).
  - intros c. rewrite (wrote_other seq flag L s2 _ _ s3 _ W3), (wrote_other seq flag L s1 _ _ s2 _ W2), Ho1; [done|intros id E; kinds E..|intros E; kinds E|intros E; kinds E].
Qed.
Lemma approveIssuance_wp L s op r q : ready L s -> supplyInv (sRows s) nothing nothing -> hasRequest (sRows s) r -> requestBody (data r) = ISSUANCE_CREATE q ->
  wp (RR.issuance_handleApprove dp max_size commissionID op r) (fun res s' => ready L s' /\ (res.1 = false -> res.2 <> REVIEW_SUCCESS) /\
      (res.1 = true -> supplyInv (sRows s') nothing nothing /\ exists f a, issuedTo (sRows s) q r f a (sRows s'))) (fun _ _ => True) s.
Proof.
  intros Hr Hi Hrq Hb. unfold RR.issuance_handleApprove. rewrite Hb. apply wp_bind. eapply wp_mono; [exact (createReference_wp L s _ _ Hr)| |done].
  intros _ s1 (Hr1 & Ho1 & Hk1). specialize (Hk1 _ _ Hi).
  apply wp_bind. eapply wp_mono; [apply (looks_use seq flag _ _ L s1 (looks_reads seq flag _ _ _ (reads_loadAsset max_size seq flag _ true (iAsset q))) Hr1)| |done].
  intros [a|] s2 (Hr2 & Hs2 & Ha); [|done]. destruct Ha as [Ha Hac]. rewrite <- Hs2 in Hk1, Ha.
  destruct (AF.willExceedMaxIssuanceAmount _ _) eqn:Ew; [by split|]. destruct (AF.isAvailableForIssuanceAmountSufficient _ _) eqn:Ev; cbn [negb]; [|by split].
  pose proof (bi_request _ _ _ (si_book _ _ _ _ Hi) r Hrq) as Hrok. unfold requestOk in Hrok. rewrite Hb in Hrok. destruct Hrok as (Hu & (Hfee1 & Hfee2) & _).
  destruct (tryIssue_spec (data a) (iAmount q) (si_asset _ _ _ _ Hk1 a Ha) Hu Ew Ev) as (Et & Hok & Hmax). rewrite Et. cbn [negb].
  destruct (changeAsset_supply seq flag Hseq commissionID L s2 a (issuedAsset (data a) (iAmount q)) nothing nothing (at_ (iAsset q) (iAmount q))) as (s3 & E3 & W3 & Hi3); [done|done|done|done|done| |].
  { intros c. cbn [issuedAsset AF.with_ assetCode issued]. rewrite Hac. unfold nothing. at_lia. }
  apply wp_bind. unfold wp at 1. rewrite E3.
  assert (forall k, (forall c, k <> assetKey c) -> keyKind k <> KIND_REFERENCE -> rowsFind (sRows s3) k = rowsFind (sRows s) k) as Ho3.
  { intros k Hk1' Hk2. rewrite (wrote_other seq flag L s2 _ _ s3 _ W3), Hs2, Ho1; [done|done|apply not_eq_sym, Hk1']. }
  apply wp_bind. eapply wp_mono; [apply (looks_use seq flag _ _ L s3 (looks_reads seq flag _ _ _ (reads_loadBalance seq flag _ true (iReceiver q))) ltac:(apply W3))| |done].
  intros [f|] s4 (Hr4 & Hs4 & Hf); [|done]. destruct Hf as [Hf Hid].
  destruct (safeSum (fixed (iFee q)) (percent (iFee q))) as [ok fee] eqn:Es. destruct ok; cbn [negb]; [|done]. apply safeSum_true in Es as ->; [|done|done].
  rewrite Z.geb_leb. destruct (Z.leb_spec (iAmount q) (fixed (iFee q) + percent (iFee q))) as [|Hlt]; [done|].
  apply wp_bind. eapply wp_mono; [apply (looks_use seq flag _ _ L s4 (looks_reads seq flag _ _ _ (reads_mustLoadAccount max_size seq flag _ (balAccountID (data f)))) Hr4)| |done].
  intros _ s5 (Hr5 & Hs5 & _).
  apply wp_bind. eapply wp_mono; [apply (looks_use seq flag _ _ L s5 (looks_reads seq flag _ _ _ (reads_isAllowedToReceive dp max_size seq flag _ (balanceID (data f)))) Hr5)| |done].
  intros al s6 (Hr6 & Hs6 & _). destruct (negb al); [done|]. assert (sRows s6 = sRows s3) as E6 by congruence.
  eapply wp_mono; [apply (payIssuance_wp L s6 q r f Hr6); rewrite ?E6; try done| |done].
  { unfold hasRequest. rewrite Ho3; [done|intros c E; kinds E|by rewrite kind_request]. }
  intros res s7 (-> & Hr7 & Hi7 & Hba & Hbal & Hgone & Hass). split; [done|]. split; [done|]. intros _. split; [done|]. rewrite E6 in Hass. exists f, a. split; try done.
  - unfold hasBalance. rewrite <- Ho3; [done|intros c E; kinds E|by rewrite kind_balance].
  - unfold hasAsset. rewrite <- Ho1, <- Hs2 by (by rewrite kind_asset). done.
  - exists (stamp (withData a (issuedAsset (data a) (iAmount q)))). split; [|done]. unfold hasAsset. rewrite Hass. exact (wrote_same seq flag L s2 _ _ s3 W3).
Qed.

(** ** Pre-issuance *)

Lemma approvePreIssuance_wp L s op r (q : PreIssuanceRequest) : ready L s -> supplyInv (sRows s) nothing nothing -> hasRequest (sRows s) r ->
  requestBody (data r) = PRE_ISSUANCE_CREATE q ->
  wp (RR.preIssuance_handleApprove max_size op r) (fun res s' => res = (true, REVIEW_SUCCESS) /\ ready L s' /\ supplyInv (sRows s') nothing nothing) (fun _ _ => True) s.
Proof.
  intros Hr Hi Hrq Hb. unfold RR.preIssuance_handleApprove. rewrite Hb. apply wp_bind. eapply wp_mono; [exact (createReference_wp L s _ _ Hr)| |done].
  intros _ s1 (Hr1 & Ho1 & Hk1). specialize (Hk1 _ _ Hi).
  apply wp_bind. eapply wp_mono; [apply (looks_use seq flag _ _ L s1 (looks_reads seq flag _ _ _ (reads_loadAsset max_size seq flag _ true (pAsset q))) Hr1)| |done].
  intros [a|] s2 (Hr2 & Hs2 & Ha); [|done]. destruct Ha as [Ha Hac]. rewrite <- Hs2 in Hk1, Ha.
  unfold AF.tryAddAvailableForIssuance. destruct (negb _); [done|]. cbn [negb]. set (a' := AF.with_ _ _ _ _).
  destruct (changeAsset_supply seq flag Hseq commissionID L s2 a a' nothing nothing nothing) as (s3 & E3 & W3 & Hi3); [done|done|done|done| |intros c; unfold nothing; at_lia|].
  { destruct (si_asset _ _ _ _ Hk1 a Ha) as [? ? ? ? ? ?]. split; cbn; try done. word_lia. }
  { cbn. lia. }
  apply wp_bind. unfold wp at 1. rewrite E3.
  destruct (deleteRequest_supply seq flag commissionID L s3 r nothing nothing nothing) as (s4 & E4 & W4 & Hi4); [apply W3|done| | |].
  { unfold hasRequest. rewrite (wrote_other seq flag L s2 _ _ s3 _ W3), Hs2, Ho1; [done|by rewrite kind_request|intros E; kinds E]. }
  { intros b. unfold nothing, requestLock. by rewrite Hb. }
  apply wp_bind. unfold wp at 1. rewrite E4. cbn. split; [done|]. split; [apply W4|done].
Qed.

End Issuance.
