(* ===== verification/ManageFacts.v ===== *)
(** * Managing balances, asset pairs and assets keeps the money supply

    New balances are empty, new assets are not issued, and offers that are
    removed with a pair give their locks back. *)

From S2P Require Import Prelude OrdContainers BigMath LedgerDelta LedgerDeltaFacts EntryStore EntryStoreFacts Signatures LedgerHeader TxSet Statistics Balance Assets OfferExchange ExchangeFacts DexStore AccountManager Requests CreateOffer Manage DexFacts BookFacts CrossStore CrossOffer OfferFacts Supply Withdrawals.

Section ManageFacts.
Context {Key Entry : Type} `{Ord Key} `{EqDecision Entry}.
Context {helper : EntryHelper Key Entry LedgerHeader} {helperOk : EntryHelperOk helper} {headerOk : HeaderOk helper}.
Context {dex : DexEntries Key Entry} {dexOk : DexEntriesOk helper dex} (dp : DexParams) (mp : MoneyParams) (max_size : nat).
Context (seq : Z) (flag : bool) (Hseq : seq <> 0) (commissionID : PublicKey).
Local Abbreviation St := (Store Key Entry LedgerHeader).
Local Abbreviation ready := (ready seq flag).
Local Abbreviation wrote := (wrote seq flag).
Local Abbreviation stamp := (stamp seq flag).
Local Abbreviation supplyInv := (supplyInv commissionID).
Implicit Types (s : St) (L : Key -> option Entry) (R : list Entry) (f : Frame BalanceEntry).
Implicit Types (r : Frame ReviewableRequestEntry) (op : ReviewRequestOp).

(** ** Balances on demand *)

(** A good ledger with the same funds, and the same entries but for balances,
    offers and pairs. *)
Definition goodMove L s s' : Prop := ready L s' /\ supplyInv (sRows s') nothing nothing /\ sameTotals (sRows s) (sRows s').

Lemma goodMove_trans L s1 s2 s3 : goodMove L s1 s2 -> goodMove L s2 s3 -> goodMove L s1 s3.
Proof. intros (_ & _ & H1) (H2 & H3 & H4). split; [done|]. split; [done|]. by eapply sameTotals_trans. Qed.

Lemma goodMove_book L s s' : supplyInv (sRows s) nothing nothing -> ready L s' -> bookInv commissionID (sRows s') (fun _ => 0) -> sameTotals (sRows s) (sRows s') -> goodMove L s s'.
Proof. intros Hi Hr Hb Ht. split; [done|]. split; [|done]. by apply (supplyInv_offers commissionID (sRows s)). Qed.

Lemma goodMove_rows L s s' : supplyInv (sRows s) nothing nothing -> ready L s' -> sRows s' = sRows s -> goodMove L s s'.
Proof. intros Hi Hr E. unfold goodMove. rewrite E. split; [done|]. split; [done|apply sameTotals_refl]. Qed.

Lemma goodMove_request L s s' r : goodMove L s s' -> hasRequest (sRows s) r -> hasRequest (sRows s') r.
Proof. intros (_ & _ & Ht) Hr. unfold hasRequest in *. rewrite (proj2 Ht); [done|apply otherKey_request]. Qed.

Lemma loadOrCreate_wp L s w asset : ready L s -> supplyInv (sRows s) nothing nothing ->
  wp (AM.loadOrCreateBalanceForAsset dp w asset) (fun _ s' => goodMove L s s') (fun _ _ => True) s.
Proof.
  intros Hr Hi. apply wp_bind. eapply wp_mono; [apply (ensureBalance_wp dp seq flag Hseq commissionID L s w asset Hr (si_book _ _ _ _ Hi))| |done].
  intros f s' (H1 & H2 & (_ & _ & _ & H3) & _). by apply goodMove_book.
Qed.

Lemma createBalances_wp l L s code : ready L s -> supplyInv (sRows s) nothing nothing ->
  wp (RR.createBalances dp l code) (fun _ s' => goodMove L s s') (fun _ _ => True) s.
Proof.
  revert s. induction l as [|w l IH]; intros s Hr Hi; cbn [RR.createBalances]; [by apply goodMove_rows|].
  apply wp_bind. eapply wp_mono; [by apply (loadOrCreate_wp L s w code)| |done]. intros i s1 Hm.
  eapply wp_mono; [apply IH; apply Hm| |done]. intros i2 s2 Hm2. by apply (goodMove_trans L s s1 s2).
Qed.

(** ** The approval of asset requests *)

(** Dropping a request that locks nothing. *)
Lemma dropRequest_wp L s op r : ready L s -> supplyInv (sRows s) nothing nothing -> hasRequest (sRows s) r -> (forall b, requestLock b (data r) = 0) ->
  wp (RR.default_handlePermanentReject op r) (fun res s' => res = (true, REVIEW_SUCCESS) /\ ready L s' /\ supplyInv (sRows s') nothing nothing) (fun _ _ => True) s.
Proof.
  intros Hr Hi Hrq Hl. destruct (deleteRequest_supply seq flag commissionID L s r nothing nothing nothing Hr Hi Hrq) as (s' & E & W & Hi').
  { intros b. unfold nothing. by rewrite Hl. }
  unfold RR.default_handlePermanentReject. apply wp_bind. unfold wp at 1. rewrite E. cbn. split; [done|]. split; [apply W|done].
Qed.

Lemma approveCreation_wp L s op r (q : AssetCreationRequest) : ready L s -> supplyInv (sRows s) nothing nothing -> hasRequest (sRows s) r -> requestBody (data r) = ASSET_CREATE q ->
  wp (RR.assetCreation_handleApprove dp mp op r) (fun res s' => ready L s' /\ (res.1 = false -> res.2 <> REVIEW_SUCCESS) /\ (res.1 = true -> supplyInv (sRows s') nothing nothing)) (fun _ _ => True) s.
Proof.
  intros Hr Hi Hrq Hb. unfold RR.assetCreation_handleApprove. rewrite Hb. apply wp_bind. unfold DS.assetExists. apply wp_bind. cbn [wp get mret M_ret].
  unfold wp at 1. destruct (ES.selectRow s (assetKey (acCode q))) eqn:Ee; [by split|]. cbv zeta. set (a := AF.create q _).
  apply wp_bind. set (f := {| lastModified := 0; data := a |}). eapply wp_mono; [apply (add_wp seq flag Hseq L s f touch_asset Hr)| |done].
  intros _ s1 (Hn & Hv & W). rewrite key_asset in Hn, W. rewrite valid_asset in Hv.
  pose proof (bi_request _ _ _ (si_book _ _ _ _ Hi) r Hrq) as Ho. unfold requestOk in Ho. rewrite Hb in Ho. destruct Ho as [Hmax Hini].
  assert (supplyInv (sRows s1) nothing nothing) as Hi1.
  { apply (supplyInv_assetRow commissionID (sRows s) (sRows s1) None (stamp f) nothing nothing nothing Hi); [done|done|by eapply wrote_rows| |].
    - unfold AF.isValid in Hv. destruct (safeSum_all _) as [ok n]. repeat (case_match; [done|]). apply andb_true_iff in Hv as [Hc Hj]. by split; cbn; try done; lia.
    - intros c. unfold nothing, at_. cbn. by destruct (bool_decide _). }
  assert (hasRequest (sRows s1) r) as Hrq1.
  { unfold hasRequest in *. rewrite (wrote_other seq flag L s _ _ s1 _ W); [done|]. intros E. kinds E. }
  assert (wp (if AF.checkPolicy a (BASE_ASSET mp) then RR.createSystemBalances dp mp (assetCode a)
    else AM.loadOrCreateBalanceForAsset dp (assetOwner a) (assetCode a);; mret tt) (fun _ s' => goodMove L s1 s') (fun _ _ => True) s1) as Hbal.
  { destruct (AF.checkPolicy _ _); [apply createBalances_wp; [apply W|done]|]. apply wp_bind. eapply wp_mono; [apply loadOrCreate_wp; [apply W|done]| |done]. done. }
  apply wp_bind. eapply wp_mono; [exact Hbal| |done]. intros i s2 Hm.
  eapply wp_mono; [apply (dropRequest_wp L s2 op r)| |done]; [apply Hm|apply Hm|exact (goodMove_request L s1 s2 r Hm Hrq1)|intros b; unfold requestLock; by rewrite Hb|].
  by intros res s' (-> & H1 & H2).
Qed.

Lemma approveUpdate_wp L s op r (q : AssetUpdateRequest) : ready L s -> supplyInv (sRows s) nothing nothing -> hasRequest (sRows s) r -> requestBody (data r) = ASSET_UPDATE q ->
  wp (RR.assetUpdate_handleApprove dp mp max_size op r) (fun res s' => ready L s' /\ (res.1 = false -> res.2 <> REVIEW_SUCCESS) /\ (res.1 = true -> supplyInv (sRows s') nothing nothing)) (fun _ _ => True) s.
Proof.
  intros Hr Hi Hrq Hb. unfold RR.assetUpdate_handleApprove. rewrite Hb. apply wp_bind.
  eapply wp_mono; [apply (looks_use seq flag _ _ L s (looks_reads seq flag _ _ _ (reads_loadAsset max_size seq flag _ true (auCode q))) Hr)| |done].
  intros [a|] s0 (Hr0 & Hs0 & Ha); [|by split]. destruct Ha as [Ha Hac]. rewrite <- Hs0 in *. destruct (negb _); [done|]. cbv zeta.
  set (f := withData a (AF.update (data a) q)). apply wp_bind. eapply wp_mono; [apply (change_wp seq flag Hseq L s0 f touch_asset Hr0)| |done].
  { rewrite key_asset. cbn. rewrite (Ha : rowsFind _ _ = _). by eexists. }
  intros _ s1 (Hv & W). rewrite key_asset in W. rewrite valid_asset in Hv. cbn [f withData data AF.update assetCode] in W. pose proof (si_asset _ _ _ _ Hi a Ha) as Hok.
  assert (supplyInv (sRows s1) nothing nothing) as Hi1.
  { apply (supplyInv_asset commissionID (sRows s0) (sRows s1) a (stamp f) nothing nothing nothing Hi); [done|done|by eapply wrote_rows| |].
    - unfold AF.isValid in Hv. destruct (safeSum_all _) as [ok n]. repeat (case_match; [done|]). apply andb_true_iff in Hv as [Hc Hj]. destruct Hok. by split.
    - intros c. unfold nothing, at_. cbn. destruct (bool_decide _); lia. }
  assert (hasRequest (sRows s1) r) as Hrq1.
  { unfold hasRequest in *. rewrite (wrote_other seq flag L s0 _ _ s1 _ W); [done|]. intros E. kinds E. }
  assert (wp (when (negb (AF.checkPolicy (data a) (BASE_ASSET mp)) && AF.checkPolicy (AF.update (data a) q) (BASE_ASSET mp)) (RR.createSystemBalances dp mp (assetCode (data a))))
    (fun _ s' => goodMove L s1 s') (fun _ _ => True) s1) as Hbal.
  { apply wp_when; intros _; [apply createBalances_wp; [apply W|done]|apply goodMove_rows; [done|apply W|done]]. }
  apply wp_bind. eapply wp_mono; [exact Hbal| |done]. intros i s2 Hm.
  eapply wp_mono; [apply (dropRequest_wp L s2 op r)| |done]; [apply Hm|apply Hm|exact (goodMove_request L s1 s2 r Hm Hrq1)|intros b; unfold requestLock; by rewrite Hb|].
  by intros res s' (-> & H1 & H2).
Qed.

(** A rejection that only notes the reason. *)
Lemma noteReason_wp L s op r : ready L s -> supplyInv (sRows s) nothing nothing -> hasRequest (sRows s) r ->
  wp (RR.default_handleReject op r) (fun res s' => res = (true, REVIEW_SUCCESS) /\ ready L s' /\ supplyInv (sRows s') nothing nothing) (fun _ _ => True) s.
Proof.
  intros Hr Hi Hrq. unfold RR.default_handleReject. set (r' := withData r _). apply wp_bind. eapply wp_mono; [apply (change_wp seq flag Hseq L s r' touch_request Hr)| |done].
  { rewrite key_request. cbn. rewrite (Hrq : rowsFind _ _ = _). by eexists. }
  intros _ s' (_ & W). rewrite key_request in W. cbn. split; [done|]. split; [apply W|].
  apply (supplyInv_request commissionID (sRows s) (sRows s') (requestID (data r)) (Some r) (Some (stamp r')) nothing nothing nothing); [exact Hrq| |by eapply wrote_rows| |done].
  - intros r2 [= <-]. split; [done|]. exact (bi_request _ _ _ (si_book _ _ _ _ Hi) r Hrq).
  - intros b. unfold nothing. cbn [lockOfRequest]. unfold requestLock. cbn. lia.
Qed.

(** ** Offers that are removed with their pair *)

Implicit Types (g : Frame OfferEntry) (l : list (Frame OfferEntry)).

Lemma update_other (k k' : Key) (v : option Entry) V : k <> k' -> update k v V k' = V k'.
Proof. intros Hn. unfold update. by rewrite eqvb_neq. Qed.

(** The offers of [l] are gone, and their locks are back on the balances. *)
Record offersGone R l R' : Prop := {
  og_offers : forall g, hasOffer R' g <-> hasOffer R g /\ g ∉ l;
  og_balances : forall f, hasBalance R f -> exists f', hasBalance R' f' /\ sameBalance f f' /\
    let n := sumOf (fun g => offerLock (balanceID (data f)) (data g)) l in locked (data f') = locked (data f) - n /\ amount (data f') = amount (data f) + n;
  og_pairs : forall p, hasPair R p -> hasPair R' p;
}.

Lemma offersGone_nil R : offersGone R [] R.
Proof. split; [set_solver| |done]. intros f Hf. exists f. cbn. split_and!; try done; lia. Qed.

Lemma offersGone_cons R g l R1 R2 : offersGone R [g] R1 -> offersGone R1 l R2 -> offersGone R (g :: l) R2.
Proof.
  intros [A1 A2 A3] [B1 B2 B3]. split.
  - intros g'. rewrite B1, A1. set_solver.
  - intros f Hf. destruct (A2 f Hf) as (f1 & Hf1 & Hs1 & Hl1 & Ha1). destruct (B2 f1 Hf1) as (f2 & Hf2 & Hs2 & Hl2 & Ha2). exists f2. split; [done|].
    unfold sameBalance in *. destruct Hs1 as (E1 & E2 & E3), Hs2 as (E4 & E5 & E6). rewrite E1 in *. cbv zeta in *. rewrite sumOf_cons in *.
    rewrite sumOf_nil in *. split_and!; congruence || lia.
  - intros p Hp. by apply B3, A3.
Qed.

Lemma deleted_gone R g f R' : hasOffer R g -> deleted seq flag R g f R' -> offersGone R [g] R'.
Proof.
  intros Hg [Hf Hid How Hrows]. split.
  - intros g'. unfold hasOffer in *. rewrite Hrows, update_other; [|intros E; kinds E]. unfold update.
    destruct (eqvb (offerKey (offerID (data g)) (ownerID (data g))) (offerKey (offerID (data g')) (ownerID (data g')))) eqn:E.
    + split; [done|]. intros [Hg' Hn]. apply eqvb_eq in E. rewrite <- E, Hg in Hg'. injection Hg' as Hg'. apply toEntry_inj in Hg' as <-; [|tc_solve]. set_solver.
    + split; [|by intros [? _]]. intros Hg'. split; [done|]. intros ->%list_elem_of_singleton. by rewrite eqvb_refl in E.
  - intros f' Hf'. cbn. unfold hasBalance in *. destruct (bool_decide_reflect (balanceID (data f') = balanceID (data f))) as [E|Hn].
    + rewrite E, Hf in Hf'. injection Hf' as Hf'. apply toEntry_inj in Hf' as <-; [|tc_solve]. exists (stamp (unlocked g f)). unfold offerLock. rewrite bool_decide_true by done.
      split_and!; cbn; [|done|lia|lia]. rewrite Hrows. unfold update. by rewrite eqvb_refl.
    + exists f'. unfold offerLock. rewrite bool_decide_false by congruence. split_and!; [|done|lia|lia].
      rewrite Hrows, !update_other; [done|intros E; kinds E|]. intros E%balanceKey_inj. congruence.
  - intros p Hp. unfold hasPair in *. rewrite Hrows, !update_other; [done|intros E; kinds E..].
Qed.

(** All of them can be removed. *)
Lemma deleteOffers_ret l L s : ready L s -> bookInv commissionID (sRows s) (fun _ => 0) -> NoDup l -> (forall g, g ∈ l -> hasOffer (sRows s) g) ->
  exists s', CO.deleteOffers dp l s = Ret tt s' /\ ready L s' /\ bookInv commissionID (sRows s') (fun _ => 0) /\ sameTotals (sRows s) (sRows s') /\ offersGone (sRows s) l (sRows s').
Proof.
  revert s. induction l as [|g l IH]; intros s Hr Hi Hnd Hall.
  { exists s. split_and!; try done. apply offersGone_nil. }
  apply NoDup_cons in Hnd as [Hn Hnd]. cbn [CO.deleteOffers]. destruct (record_ret seq flag L s g Hr) as (s1 & E1 & Hr1 & Hs1). rewrite (bind_ret _ _ _ _ _ E1).
  assert (hasOffer (sRows s1) g) as Hg by (rewrite Hs1; apply Hall; set_solver). assert (bookInv commissionID (sRows s1) (fun _ => 0)) as Hi1 by (by rewrite Hs1).
  destruct (deleteOffer_ret dp seq flag Hseq commissionID L s1 g Hr1 Hi1 Hg) as (f & s2 & E2 & Hr2 & Hd). rewrite (bind_ret _ _ _ _ _ E2).
  destruct (deleted_book seq flag commissionID _ _ _ _ Hi1 Hg (so_nodup _ _ (re_ok _ _ _ _ Hr2)) Hd) as [Hi2 Ht2]. pose proof (deleted_gone _ _ _ _ Hg Hd) as Hgone.
  destruct (IH s2 Hr2 Hi2 Hnd) as (s3 & E3 & Hr3 & Hi3 & Ht3 & Hgone3).
  { intros g' Hin. apply Hgone. rewrite Hs1. split; [apply Hall; set_solver|]. set_solver. }
  rewrite Hs1 in *. exists s3. split_and!; try done; [by eapply sameTotals_trans|by eapply offersGone_cons].
Qed.

(** Which offers leave the book. *)
Definition leaves (p : AssetPairEntry) (priceUpperBound : option Z) g : bool :=
  bool_decide (base (data g) = pairBase p) && bool_decide (quote (data g) = pairQuote p) && (orderBookID (data g) =? SECONDARY_MARKET_ORDER_BOOK_ID) &&
  match priceUpperBound with Some n => price (data g) <? n | None => true end.

Definition leaving R (p : AssetPairEntry) (bound : option Z) : list (Frame OfferEntry) := List.filter (leaves p bound) (omap fromEntry R).

Lemma leaving_elem s p bound g : distinctRows (sRows s) -> g ∈ leaving (sRows s) p bound <-> hasOffer (sRows s) g /\ leaves p bound g = true.
Proof. intros Hd. unfold leaving. fold (DS.rowsOf (T := OfferEntry) s). by rewrite list_elem_of_In, filter_In, <- list_elem_of_In, rowsOf_elem. Qed.

Lemma removeOffers_ret L s p bound : ready L s -> bookInv commissionID (sRows s) (fun _ => 0) ->
  exists s', MP.removeOffers dp p bound s = Ret tt s' /\ ready L s' /\ bookInv commissionID (sRows s') (fun _ => 0) /\ sameTotals (sRows s) (sRows s') /\
    offersGone (sRows s) (leaving (sRows s) p bound) (sRows s').
Proof.
  intros Hr Hi. pose proof (bi_distinct _ _ _ Hi) as Hd. unfold MP.removeOffers, DS.loadOffersWithFilters, DS.checkedOffers. cbn [mbind M_bind get]. unfold mbind, M_bind, get.
  change (List.filter _ (DS.rowsOf s)) with (leaving (sRows s) p bound).
  rewrite (proj2 (forallb_forall _ _)).
  2:{ intros g Hin. apply list_elem_of_In, (leaving_elem s) in Hin as [Hg _]; [|done]. exact (oo_valid _ _ _ (bi_offer _ _ _ Hi g Hg)). }
  apply (deleteOffers_ret _ L s Hr Hi).
  - apply NoDup_ListNoDup, List.NoDup_filter, NoDup_ListNoDup. by apply (rowsOf_NoDup s).
  - intros g Hin. by apply (leaving_elem s) in Hin as [Hg _].
Qed.

(** ** Managing a pair *)

Lemma stays_minPrice (p : AssetPairEntry) : stays (S := St) (AP.getMinAllowedPrice dp p).
Proof.
  unfold AP.getMinAllowedPrice, AP.getMinPriceInTermsOfPhysical, AP.getPhysicalPriceWithCorrection. destruct (AP.checkPolicy _ _); [|done].
  apply stays_bind; [|intros [ok r]; by destruct (negb ok)]. unfold OM.bigDivide. by destruct (bigDivide_i64 _ _ _ _ _).
Qed.

Implicit Types (p : Frame AssetPairEntry) (mo : ManageAssetPairOp).

Lemma loadPair_ret L s wd p : ready L s -> hasPair (sRows s) p -> AP.isValid (data p) = true ->
  exists s', DS.loadAssetPair max_size wd (pairBase (data p)) (pairQuote (data p)) s = Ret (Some p) s' /\ ready L s' /\ sRows s' = sRows s.
Proof.
  intros Hr Hp Hv. unfold hasPair in Hp. set (k := pairKey _ _) in Hp. unfold DS.loadAssetPair. cbn [mbind M_bind get]. unfold get, mbind at 1, M_bind at 1. cbv zeta. fold k.
  unfold ES.cachedEntryExists, LruCache.exists_, get, mbind at 1, M_bind at 1, mbind at 1, M_bind at 1, mret, M_ret.
  destruct (LruCache.find (sCache s) k) as [v|] eqn:Ef.
  - destruct (getCached_ret seq flag L s k v Hr Ef) as (c & E & Hr'). unfold mbind at 1, M_bind at 1. rewrite E, Hp. cbn. rewrite from_to. by eexists.
  - unfold ES.selectRow. fold (rowsFind (sRows s) k). rewrite Hp. cbn [mbind option_bind]. rewrite from_to, Hv. cbn [negb].
    assert (exists s1, when wd (DS.record p) s = Ret tt s1 /\ ready L s1 /\ sRows s1 = sRows s) as (s1 & E1 & Hr1 & Hs1).
    { destruct wd; [by apply record_ret|by exists s]. }
    rewrite (bind_ret _ _ _ _ _ E1). unfold ES.putCachedEntry, modify, mbind, M_bind. eexists. split; [done|]. split; [|done].
    rewrite <- Hp, <- Hs1. apply put_ready; [done|apply pair_cached].
Qed.

(** Writing a pair. *)
Lemma pairWritten L s p s' : supplyInv (sRows s) nothing nothing -> isValid (toEntry (stamp p)) = true -> physicalPrice (data p) <= INT64_MAX -> physicalPriceCorrection (data p) <= INT64_MAX ->
  wrote L s (getLedgerKey (toEntry p)) (Some (toEntry (stamp p))) s' -> goodMove L s s'.
Proof.
  intros Hi Hv H1 H2 W. rewrite valid_pair in Hv. rewrite key_pair in W.
  destruct (bookInv_pairRow commissionID (sRows s) (sRows s') (fun _ => 0) (stamp p) (si_book _ _ _ _ Hi)) as [Hb Ht]; [apply (proj1 W)|apply W|done|].
  apply goodMove_book; [done|apply W|done|done].
Qed.

(** The fields are signed in the operation. *)
Definition widePair mo : Prop := mpPhysicalPrice mo <= INT64_MAX /\ mpPhysicalPriceCorrection mo <= INT64_MAX.

Lemma createPair_wp L s mo o : ready L s -> supplyInv (sRows s) nothing nothing -> widePair mo ->
  wp (MP.createNewAssetPair dp commissionID mo o) (fun v s' => match v with inl _ => True | inr _ => goodMove L s s' end) (fun _ _ => True) s.
Proof.
  intros Hr Hi [H1 H2]. unfold MP.createNewAssetPair. apply wp_bind.
  assert (wp (match o with Some _ => mret true | None => DS.assetPairExists (mpQuote mo) (mpBase mo) end) (fun _ s' => s' = s) (fun _ _ => True) s) as Hrev by (by destruct o).
  eapply wp_mono; [exact Hrev| |done]. intros b s0 ->. destruct b; [done|]. apply wp_bind. unfold DS.assetExists. apply wp_bind. cbn [wp get mret M_ret]. unfold wp at 1.
  apply wp_bind. assert (forall c : bool, wp (if c then (s ← get; mret (match ES.selectRow s (assetKey (mpQuote mo)) with Some _ => true | None => false end)) else mret false)
    (fun _ s' => s' = s) (fun _ _ => True) s) as He by (by intros []).
  eapply wp_mono; [apply He| |done]. intros b s0 ->. destruct (negb b); [done|]. cbv zeta. set (p := {| lastModified := 0; data := MP.create mo |}).
  apply wp_bind. eapply wp_mono; [apply (add_wp seq flag Hseq L s p touch_pair Hr)| |done]. intros i s1 (_ & Hv & W).
  pose proof (pairWritten L s p s1 Hi Hv H1 H2 W) as Hm.
  apply wp_bind. eapply wp_mono; [apply loadOrCreate_wp; [apply W|apply Hm]| |done]. intros j s2 Hm2. cbn. by apply (goodMove_trans L s s1 s2).
Qed.

Lemma removeOffers_wp L s q bound : ready L s -> supplyInv (sRows s) nothing nothing ->
  wp (MP.removeOffers dp q bound) (fun _ s' => goodMove L s s' /\ offersGone (sRows s) (leaving (sRows s) q bound) (sRows s')) (fun _ _ => True) s.
Proof.
  intros Hr Hi. destruct (removeOffers_ret L s q bound Hr (si_book _ _ _ _ Hi)) as (s' & E & Hr' & Hb & Ht & Hg). unfold wp. rewrite E. split; [|done]. by apply goodMove_book.
Qed.

(** The new pair, after the removal of the offers. *)
Definition newPair p q : Prop :=
  pairBase q = pairBase (data p) /\ pairQuote q = pairQuote (data p) /\ physicalPrice q <= INT64_MAX /\ physicalPriceCorrection q <= INT64_MAX.

Lemma updatedPair_wp L s mo p : ready L s -> supplyInv (sRows s) nothing nothing -> hasPair (sRows s) p -> widePair mo ->
  wp (MP.updatedPair dp mo (data p)) (fun q s' => goodMove L s s' /\ hasPair (sRows s') p /\ newPair p q) (fun _ _ => True) s.
Proof.
  intros Hr Hi Hp [Hw1 Hw2]. destruct (bi_pair _ _ _ (si_book _ _ _ _ Hi) p Hp) as (_ & Hk1 & Hk2).
  assert (forall q bound, newPair p q -> wp (MP.removeOffers dp q bound;; mret (M := M St) q)
    (fun q s' => goodMove L s s' /\ hasPair (sRows s') p /\ newPair p q) (fun _ _ => True) s) as Hrem.
  { intros q bound Hq. apply wp_bind. eapply wp_mono; [by apply removeOffers_wp| |done]. intros i s2 [Hm Hg]. cbn. split_and!; try apply Hq; [done|]. by apply Hg. }
  unfold MP.updatedPair. destruct (mpAction mo) as [| | |z].
  1,2,4: (cbv zeta; apply wp_bind; pose proof (stays_minPrice (MP.setPrice (data p) mo) s) as Hst; unfold wp at 1;
          destruct (AP.getMinAllowedPrice _ _ s) as [n s2|]; [|done]; subst s2; by apply Hrem).
  cbv zeta. destruct (negb _); cbn [when]; [by apply Hrem|]. apply wp_bind. cbn. split; [by apply goodMove_rows|]. by split.
Qed.

Lemma managePair_wp L s mo : ready L s -> supplyInv (sRows s) nothing nothing -> widePair mo ->
  wp (MP.doApply dp max_size commissionID mo) (fun v s' => match v with inl _ => True | inr _ => ready L s' /\ supplyInv (sRows s') nothing nothing end) (fun _ _ => True) s.
Proof.
  intros Hr Hi Hw. unfold MP.doApply. apply wp_bind. eapply wp_mono; [apply (reads_loadAssetPair max_size seq flag (sRows s) true (mpBase mo) (mpQuote mo) L s Hr eq_refl)| |done].
  intros o s1 (Hr1 & Hs1 & Ho). rewrite <- Hs1 in Hi, Ho. clear s Hr Hs1. rename s1 into s, Hr1 into Hr.
  assert (match o with None => True | Some p => wp (pair ← MP.updatedPair dp mo (data p); DS.storeChangeEntry (withData p pair);; mret (inr (A := MP.Code) (pairCurrentPrice pair)))
    (fun v s' => match v with inl _ => True | inr _ => ready L s' /\ supplyInv (sRows s') nothing nothing end) (fun _ _ => True) s end) as Hupd.
  { destruct o as [p|]; [|done]. destruct Ho as (Hp & _ & _). apply wp_bind. eapply wp_mono; [by apply (updatedPair_wp L s mo p)| |done]. intros q s1 (H1 & H2 & H3 & H4 & H5 & H6).
    apply wp_bind. eapply wp_mono; [apply (change_wp seq flag Hseq L s1 (withData p q) touch_pair (proj1 H1))| |done].
    { rewrite key_pair. cbn. rewrite H3, H4, (H2 : rowsFind _ _ = _). by eexists. }
    intros i s2 (Hv & W). cbn. destruct (pairWritten L s1 (withData p q) s2 (proj1 (proj2 H1)) Hv H5 H6 W) as (A & B & _). by split. }
  destruct (mpAction mo) as [| | |z]; [|by destruct o..]. eapply wp_mono; [by apply (createPair_wp L s)| |done]. intros [c|n] s' Hm; [done|]. by split; apply Hm.
Qed.

(** ** Taking a pair off the secondary market *)

Record delisted R p R' : Prop := {
  de_pair : hasPair R' p;
  de_offers : forall g, hasOffer R' g <-> hasOffer R g /\ leaves (data p) None g = false;
  de_balances : forall f, hasBalance R f -> exists f', hasBalance R' f' /\ sameBalance f f' /\
    let n := sumOf (fun g => offerLock (balanceID (data f)) (data g)) (leaving R (data p) None) in locked (data f') = locked (data f) - n /\ amount (data f') = amount (data f) + n;
}.

Lemma delist_ret L s mo p : ready L s -> supplyInv (sRows s) nothing nothing -> hasPair (sRows s) p -> pairBase (data p) = mpBase mo -> pairQuote (data p) = mpQuote mo ->
  mpAction mo = UPDATE_POLICIES -> MP.doCheckValid mo = None -> widePair mo -> AP.checkPolicy (MP.setPolicies (data p) mo) (TRADEABLE_SECONDARY_MARKET dp) = false ->
  exists s', MP.doApply dp max_size commissionID mo s = Ret (inr (pairCurrentPrice (data p))) s' /\ ready L s' /\ supplyInv (sRows s') nothing nothing /\
    delisted (sRows s) (stamp (withData p (MP.setPolicies (data p) mo))) (sRows s').
Proof.
  intros Hr Hi Hp Eb Eq Ea Hcv [Hw1 Hw2] Hno. destruct (bi_pair _ _ _ (si_book _ _ _ _ Hi) p Hp) as (Hv & Hk1 & Hk2).
  set (q := MP.setPolicies (data p) mo) in *. assert (AP.isValid q = true) as Hvq.
  { unfold MP.doCheckValid in Hcv. rewrite Ea in Hcv. unfold AP.isValid in *. cbn [q MP.setPolicies pairBase pairQuote pairCurrentPrice maxPriceStep physicalPrice physicalPriceCorrection].
    repeat case_match; try done. zify_bool. rewrite !andb_true_iff. split_and!; try done; lia. }
  unfold MP.doApply. rewrite <- Eb, <- Eq. destruct (loadPair_ret L s true p Hr Hp Hv) as (s1 & E1 & Hr1 & Hs1). rewrite (bind_ret _ _ _ _ _ E1), Ea. rewrite <- Hs1 in *.
  unfold MP.updatedPair. rewrite Ea. fold q. cbv zeta. rewrite Hno. cbn [negb when].
  destruct (removeOffers_ret L s1 q None Hr1 (si_book _ _ _ _ Hi)) as (s2 & E2 & Hr2 & Hb2 & Ht2 & Hg2).
  assert ((MP.removeOffers dp q None;; mret q) s1 = Ret q s2) as E2' by (by rewrite (bind_ret _ _ _ _ _ E2)). rewrite (bind_ret _ _ _ _ _ E2').
  destruct (change_ret seq flag Hseq L s2 (withData p q) touch_pair Hr2) as (s3 & E3 & W3).
  { by rewrite valid_pair. }
  { rewrite key_pair. cbn. rewrite (og_pairs _ _ _ Hg2 p Hp : rowsFind _ _ = _). by eexists. }
  rewrite (bind_ret _ _ _ _ _ E3). exists s3. pose proof (goodMove_book L s1 s2 Hi Hr2 Hb2 Ht2) as Hm2.
  assert (isValid (toEntry (stamp (withData p q))) = true) as Hvs by (by rewrite valid_pair).
  pose proof (pairWritten L s2 (withData p q) s3 (proj1 (proj2 Hm2)) Hvs ltac:(done) ltac:(done) W3) as (Hr3 & Hi3 & _). split_and!; try done.
  rewrite key_pair in W3. assert (forall k, keyKind k <> KIND_PAIR -> rowsFind (sRows s3) k = rowsFind (sRows s2) k) as Hoth.
  { intros k Hk. apply (wrote_other seq flag L s2 _ _ s3 _ W3). intros <-. by rewrite kind_pair in Hk. }
  split.
  - unfold hasPair. cbn. rewrite (proj2 W3). unfold update. by rewrite eqvb_refl.
  - intros g. unfold hasOffer. rewrite Hoth by (by rewrite kind_offer). rewrite (og_offers _ _ _ Hg2 g : rowsFind _ _ = _ <-> _).
    rewrite (leaving_elem s1) by apply (si_book _ _ _ _ Hi). change (leaves (data (stamp (withData p q))) None g) with (leaves q None g). unfold hasOffer. destruct (leaves q None g); naive_solver.
  - intros f Hf. destruct (og_balances _ _ _ Hg2 f Hf) as (f' & Hf' & Hs). exists f'. split; [|exact Hs]. unfold hasBalance. by rewrite Hoth by (by rewrite kind_balance).
Qed.

(** ** A new balance *)

Lemma looks_loadAccount R id : looks seq flag R (DS.loadAccount max_size id) (fun _ => True).
Proof.
  intros L s Hr Hs. unfold DS.loadAccount. apply wp_bind. unfold wp at 1. destruct (storeLoad_row max_size L s (dexAccountKey id) (re_ok _ _ _ _ Hr)) as (c & -> & Hok).
  assert (ready L (ES.setCache s c)) as Hr' by (split; [done|apply Hr|apply Hr]). destruct (rowsFind (sRows s) (dexAccountKey id)) as [e|]; [|split; [done|]; by split].
  destruct (recordEntry_ret seq flag L (ES.setCache s c) e Hr') as (s2 & E2 & Hr2 & Hs2). apply wp_bind. unfold wp at 1. rewrite E2. cbn. split; [done|]. split; [|done]. by rewrite Hs2.
Qed.

Lemma manageBalance_wp L s (mo : ManageBalanceOp) : ready L s -> supplyInv (sRows s) nothing nothing ->
  wp (MB.doApply dp max_size mo) (fun v s' => match v with inl _ => True | inr _ => ready L s' /\ supplyInv (sRows s') nothing nothing end) (fun _ _ => True) s.
Proof.
  intros Hr Hi. unfold MB.doApply. apply wp_bind. eapply wp_mono; [apply (looks_use seq flag _ _ L s (looks_loadAccount _ _) Hr)| |done]. intros [acc|] s1 (Hr1 & Hs1 & _); [|done].
  apply wp_bind. eapply wp_mono; [apply (looks_use seq flag _ _ L s1 (looks_reads seq flag _ _ _ (reads_loadBalanceFor dp seq flag _ true (mbDestination mo) (mbAsset mo) (so_nodup _ _ (re_ok _ _ _ _ Hr1)))) Hr1)| |done].
  intros o s2 (Hr2 & Hs2 & _).
  apply wp_bind. eapply wp_mono; [apply (looks_use seq flag _ _ L s2 (looks_reads seq flag _ _ _ (reads_loadAsset max_size seq flag _ false (mbAsset mo))) Hr2)| |done].
  intros [a|] s3 (Hr3 & Hs3 & _); [|done]. apply wp_bind. destruct (generateID_ret seq flag L s3 (BALANCE_TYPE dp) Hr3) as (id & s4 & E4 & Hr4 & Hs4). unfold wp at 1. rewrite E4. cbv zeta.
  assert (sRows s4 = sRows s) as Es by congruence. rewrite <- Es in Hi. set (f := {| lastModified := 0; data := _ |}).
  apply wp_bind. eapply wp_mono; [apply (add_wp seq flag Hseq L s4 f touch_balance Hr4)| |done]. intros i s5 (Hn & Hv & W). rewrite key_balance in Hn, W. rewrite valid_balance in Hv by done.
  destruct (bookInv_newBalance commissionID (sRows s4) (sRows s5) (stamp f) (si_book _ _ _ _ Hi)) as [Hb Ht]; try done; [apply (proj1 W)|apply W|].
  cbn. destruct (goodMove_book L s4 s5 Hi (proj1 W) Hb Ht) as (A & B & _). by split.
Qed.

End ManageFacts.
