(* ===== verification/MoneyOps.v ===== *)
(** * Reviews and requests, as whole operations

    From a ledger in which the money supply adds up, every operation on
    requests that succeeds ends in such a ledger.  The second part is the
    review in a nested delta. *)

From S2P Require Import Prelude OrdContainers BigMath LedgerDelta LedgerDeltaFacts EntryStore EntryStoreFacts Signatures LedgerHeader TxSet Statistics Balance Assets OfferExchange ExchangeFacts DexStore AccountManager Requests CreateOffer Manage DexFacts BookFacts CrossStore CrossOffer OfferFacts Supply Withdrawals ManageFacts.

Section MoneyOps.
Context {Key Entry : Type} `{Ord Key} `{EqDecision Entry}.
Context {helper : EntryHelper Key Entry LedgerHeader} {helperOk : EntryHelperOk helper} {headerOk : HeaderOk helper}.
Context {dex : DexEntries Key Entry} {dexOk : DexEntriesOk helper dex} (dp : DexParams) (mp : MoneyParams) (max_size : nat).
Context (seq : Z) (flag : bool) (Hseq : seq <> 0) (commissionID : PublicKey) (closeTime : Z) (otherHelper : Z -> RR.ReviewHandlers (Key := Key) (Entry := Entry)).
Local Abbreviation St := (Store Key Entry LedgerHeader).
Local Abbreviation ready := (ready seq flag).
Local Abbreviation wrote := (wrote seq flag).
Local Abbreviation stamp := (stamp seq flag).
Local Abbreviation supplyInv := (supplyInv commissionID).
Local Abbreviation looks := (looks seq flag).
Local Abbreviation makeHelper := (RR.makeHelper dp mp max_size commissionID closeTime otherHelper).
Implicit Types (s : St) (L : Key -> option Entry) (R : list Entry) (f : Frame BalanceEntry) (extra d : list Z -> Z).
Implicit Types (r : Frame ReviewableRequestEntry) (q : IssuanceRequest) (op : ReviewRequestOp).

(** The first step of a withdrawal in two steps: the request becomes a
    withdrawal. *)
Lemma approveTwoStep_wp L s op r : ready L s -> supplyInv (sRows s) nothing nothing -> hasRequest (sRows s) r ->
  wp (RR.twoStep_handleApprove op r) (fun res s' => res = (true, REVIEW_SUCCESS) /\ ready L s' /\ supplyInv (sRows s') nothing nothing) (fun _ _ => True) s.
Proof.
  intros Hr Hi Hrq. unfold RR.twoStep_handleApprove. destruct (requestBody (data r)) as [| |q| | | |] eqn:Hb; try done. destruct (rrDetails op) as [|dt| | | | |]; try done.
  set (r' := withData r _). apply wp_bind. eapply wp_mono; [apply (change_wp seq flag Hseq L s r' touch_request Hr)| |done].
  { rewrite key_request. cbn. rewrite (Hrq : rowsFind _ _ = _). by eexists. }
  intros _ s' (_ & W). rewrite key_request in W. cbn. split; [done|]. split; [apply W|].
  apply (supplyInv_request commissionID (sRows s) (sRows s') (requestID (data r)) (Some r) (Some (stamp r')) nothing nothing nothing); [exact Hrq| |by eapply wrote_rows| |done].
  - intros r2 [= <-]. split; [done|]. pose proof (bi_request _ _ _ (si_book _ _ _ _ Hi) r Hrq) as Ho. unfold requestOk in *. rewrite Hb in Ho. exact Ho.
  - intros b. unfold nothing. cbn [lockOfRequest]. unfold requestLock. rewrite Hb. cbn. unfold withdrawLock. cbn. lia.
Qed.

(** ** A review *)

Definition modelled (dt : ReviewDetails) : Prop := match dt with OTHER_DETAILS _ => False | _ => True end.

(** An approved issuance. *)
Definition issuedBy R op R' : Prop := exists r q f a, hasRequest R r /\ requestID (data r) = rrRequestID op /\ requestHash (data r) = rrRequestHash op /\
  requestBody (data r) = ISSUANCE_CREATE q /\ issuedTo seq flag R q r f a R'.

Lemma review_wp L s op w : ready L s -> supplyInv (sRows s) nothing nothing -> modelled (rrDetails op) ->
  wp (RR.doApply max_size (makeHelper (rrDetails op)) w op) (fun res s' => ready L s' /\ (res.1 = false -> res.2 <> REVIEW_SUCCESS) /\
      (res.1 = true -> supplyInv (sRows s') nothing nothing /\ (rrDetails op = ISSUANCE_DETAILS -> rrAction op = APPROVE -> issuedBy (sRows s) op (sRows s')))) (fun _ _ => True) s.
Proof.
  intros Hr Hi Hm. unfold RR.doApply. apply wp_bind.
  eapply wp_mono; [apply (looks_use seq flag _ _ L s (looks_reads seq flag _ _ _ (reads_loadRequest max_size seq flag _ true (rrRequestID op))) Hr)| |done].
  intros [r|] s1 (Hr1 & Hs1 & Hrq); [|by split]. destruct Hrq as [Hrq Hid]. destruct (negb (bool_decide (reviewer _ = _))); [by split|].
  destruct (bool_decide_reflect (requestHash (data r) = rrRequestHash op)) as [Hh|]; cbn [negb]; [|by split].
  destruct (bool_decide_reflect (RQ.getRequestType (data r) = RR.requestType (rrDetails op))) as [Ht|]; cbn [negb]; [|by split].
  rewrite <- Hs1 in *. clear s Hr Hs1. rename s1 into s, Hr1 into Hr.
  assert (rrDetails op = ISSUANCE_DETAILS -> rrAction op = APPROVE ->
    wp (RR.issuance_handleApprove dp max_size commissionID op r) (fun res s' => ready L s' /\ (res.1 = false -> res.2 <> REVIEW_SUCCESS) /\
      (res.1 = true -> supplyInv (sRows s') nothing nothing /\ (ISSUANCE_DETAILS = ISSUANCE_DETAILS -> APPROVE = APPROVE -> issuedBy (sRows s) op (sRows s')))) (fun _ _ => True) s) as Hiss.
  { intros _ _. destruct (requestBody (data r)) as [q| | | | | |] eqn:Hb; try (unfold RR.issuance_handleApprove; rewrite Hb; done).
    eapply wp_mono; [by apply (approveIssuance_wp dp max_size seq flag Hseq commissionID L s op r q)| |done]. intros res s' (H1 & H0 & H2). split; [done|]. split; [done|].
    intros Hres. destruct (H2 Hres) as (H3 & f & a & H4). split; [done|]. intros _ _. by exists r, q, f, a. }
  destruct (rrAction op) eqn:Ea; [| |unfold RQ.getRequestType in Ht|done].
  - destruct (rrDetails op) as [dt|dt| | | | |n] eqn:Ed; cbn [RR.makeHelper RR.handleApprove] in *; [| |by apply Hiss| | | |done].
    + destruct (requestBody (data r)) as [|q| | | | |] eqn:Hb; try (unfold RR.withdraw_handleApprove; rewrite Hb; done).
      eapply wp_mono; [by apply (approve_wp dp max_size seq flag Hseq commissionID L s op r q)| |done]. by intros res s' (-> & H1 & H2 & _).
    + eapply wp_mono; [by apply (approveTwoStep_wp L s op r)| |done]. by intros res s' (-> & H1 & H2).
    + destruct (requestBody (data r)) as [| | |q| | |] eqn:Hb; try (unfold RR.preIssuance_handleApprove; rewrite Hb; done).
      eapply wp_mono; [by apply (approvePreIssuance_wp max_size seq flag Hseq commissionID L s op r q)| |done]. by intros res s' (-> & H1 & H2).
    + destruct (requestBody (data r)) as [| | | |q| |] eqn:Hb; try (unfold RR.assetCreation_handleApprove; rewrite Hb; done).
      eapply wp_mono; [by apply (approveCreation_wp dp mp seq flag Hseq commissionID L s op r q)| |done]. intros res s' (H1 & H2 & H3). split; [done|]. split; [done|]. by split; [apply H3|].
    + destruct (requestBody (data r)) as [| | | | |q|] eqn:Hb; try (unfold RR.assetUpdate_handleApprove; rewrite Hb; done).
      eapply wp_mono; [by apply (approveUpdate_wp dp mp max_size seq flag Hseq commissionID L s op r q)| |done]. intros res s' (H1 & H2 & H3). split; [done|]. split; [done|]. by split; [apply H3|].
  - destruct (rrDetails op) as [dt|dt| | | | |n]; try done; try by split.
    all: eapply wp_mono; [by apply (noteReason_wp seq flag Hseq commissionID L s op r)| |done]; by intros res s' (-> & H1 & H2).
  - destruct (rrDetails op) as [dt|dt| | | | |n] eqn:Ed; cbn [RR.makeHelper RR.handlePermanentReject RR.requestType] in *; [| | | | | |done].
    3-6: eapply wp_mono; [apply (dropRequest_wp seq flag commissionID L s op r Hr Hi Hrq)| |done]; [|by intros res s' (-> & H1 & H2)]; intros b; unfold requestLock; by destruct (requestBody (data r)).
    + unfold RR.withdraw_handlePermanentReject. destruct (requestBody (data r)) as [|q| | | | |] eqn:Hb; try done.
      eapply wp_mono; [apply (reject_wp dp seq flag Hseq commissionID closeTime L s q op r Hr Hi Hrq); by rewrite Hb| |done]. by intros res s' (-> & H1 & H2 & _).
    + unfold RR.twoStep_handlePermanentReject. destruct (requestBody (data r)) as [| |q| | | |] eqn:Hb; try done.
      eapply wp_mono; [apply (reject_wp dp seq flag Hseq commissionID closeTime L s q op r Hr Hi Hrq); by rewrite Hb| |done]. by intros res s' (-> & H1 & H2 & _).
Qed.

(** The review that rejects a withdrawal for good. *)
Lemma reviewReject_wp L s op (w : PublicKey) r (q : WithdrawalRequest) : ready L s -> supplyInv (sRows s) nothing nothing -> modelled (rrDetails op) -> rrAction op = PERMANENT_REJECT ->
  hasRequest (sRows s) r -> requestID (data r) = rrRequestID op -> withdrawalOf (requestBody (data r)) = Some q ->
  wp (RR.doApply max_size (makeHelper (rrDetails op)) w op) (fun res s' => res.1 = true -> exists f, rejected seq flag (sRows s) q r f (sRows s')) (fun _ _ => True) s.
Proof.
  intros Hr Hi Hm Ha Hrq Hid Hq. unfold RR.doApply. apply wp_bind.
  eapply wp_mono; [apply (looks_use seq flag _ _ L s (looks_reads seq flag _ _ _ (reads_loadRequest max_size seq flag _ true (rrRequestID op))) Hr)| |done].
  intros [r2|] s1 (Hr1 & Hs1 & Hr2); [|done]. destruct Hr2 as [Hr2 Hid2].
  assert (r2 = r) as ->.
  { unfold hasRequest in Hr2, Hrq. rewrite Hid2, <- Hid, Hrq in Hr2. injection Hr2 as E. symmetry. exact (toEntry_inj _ _ _ E). }
  destruct (negb (bool_decide (reviewer _ = _))); [done|]. destruct (negb (bool_decide (requestHash _ = _))); [done|].
  destruct (bool_decide_reflect (RQ.getRequestType (data r) = RR.requestType (rrDetails op))) as [Ht|]; cbn [negb]; [|done]. rewrite Ha.
  assert (wp (RR.rejectWithdrawalRequest dp closeTime q op r) (fun res s' => res.1 = true -> exists f, rejected seq flag (sRows s) q r f (sRows s')) (fun _ _ => True) s1) as Hw.
  { rewrite <- Hs1 in *. eapply wp_mono; [by apply (reject_wp dp seq flag Hseq commissionID closeTime L s1 q op r)| |done]. by intros res s' (-> & _ & _ & Hf). }
  destruct (rrDetails op) as [dt|dt| | | | |n]; try done; cbn [RR.makeHelper RR.handlePermanentReject].
  3-6: unfold RQ.getRequestType in Ht; by destruct (requestBody (data r)).
  - unfold RR.withdraw_handlePermanentReject. destruct (requestBody (data r)); cbn in Hq; try done. by injection Hq as ->.
  - unfold RR.twoStep_handlePermanentReject. destruct (requestBody (data r)); cbn in Hq; try done. by injection Hq as ->.
Qed.

(** ** The review in a nested delta *)

Lemma commit_ready L s inner s' : ready L s -> ready (deltaView (sDelta s) L) inner -> ES.commitInto (sDelta s) inner = Ret tt s' ->
  ready L s' /\ sRows s' = sRows inner.
Proof.
  intros [Hok Hq Hf] [Hin _ _] Hc. assert (mPreviousHeaderValue (sDelta inner) = mCurrentHeader (sDelta s)) as Hh.
  { unfold ES.commitInto, LD.commitNested in Hc. rewrite (ds_open _ _ _ (do_sets _ _ _ (so_delta _ _ Hin))) in Hc. cbn [negb] in Hc.
    destruct (bool_decide_reflect (mPreviousHeaderValue (sDelta inner) = mCurrentHeader (sDelta s))); [done|]. cbn in Hc. done. }
  destruct (commit_step L s inner Hok Hin Hh) as (s2 & E & Hok' & Hrows & Hprev). rewrite Hc in E. injection E as <-. split; [|done].
  split; [done| |].
  - destruct (so_seq _ _ Hok') as [H1 _]. rewrite H1, Hprev. destruct (so_seq _ _ Hok) as [H2 _]. by rewrite <- H2.
  - rewrite <- Hf. unfold ES.commitInto, LD.commitNested in Hc. rewrite (ds_open _ _ _ (do_sets _ _ _ (so_delta _ _ Hin))), bool_decide_true in Hc by done. cbn [negb] in Hc.
    rewrite mergeEntries_ops in Hc by apply (so_delta _ _ Hok). destruct (runOps getLedgerKey (mergeOps (sDelta inner)) (sDelta s)) as [[] o'|] eqn:Er; [|done].
    injection Hc as <-. cbn. by apply runOps_flag in Er.
Qed.

Lemma dropped_ready L s inner : ready L s -> ready (deltaView (sDelta s) L) inner -> ready L (ES.setRows (ES.dropNested (sDelta s) inner) (sRows s)).
Proof.
  intros [Hok Hq Hf] [Hin _ _]. destruct (dropNested_unwound L (sDelta s) inner (so_delta _ _ Hok) (storeOk_unwound _ _ Hin)) as [[Hd Hc] He].
  destruct Hok as [H1 H2 H3 H4 H5]. split; cbn; rewrite ?He; [|done|done]. split; cbn; rewrite ?He; try done. rewrite He in Hc. exact Hc.
Qed.

Lemma nested_ready L s : ready L s -> ready (deltaView (sDelta s) L) (ES.setDelta s (LD.nestedDelta (sDelta s))).
Proof. intros [Hok Hq Hf]. split; [by apply nested_start|done|done]. Qed.

Definition approval (r : ReviewableRequestEntry) : ReviewRequestOp :=
  {| rrRequestID := requestID r; rrRequestHash := requestHash r; rrDetails := RR.emptyDetails (RQ.getRequestType r); rrAction := APPROVE; rrReason := [] |}.

Lemma tryApprove_wp L s (r : ReviewableRequestEntry) : ready L s -> supplyInv (sRows s) nothing nothing -> modelled (rrDetails (approval r)) ->
  wp (RR.tryApproveRequest dp mp max_size commissionID closeTime otherHelper r) (fun c s' => ready L s' /\
    match c with
    | REVIEW_SUCCESS => supplyInv (sRows s') nothing nothing /\ (rrDetails (approval r) = ISSUANCE_DETAILS -> issuedBy (sRows s) (approval r) (sRows s'))
    | _ => sRows s' = sRows s
    end) (fun _ _ => True) s.
Proof.
  intros Hr Hi Hm. set (inner := ES.setDelta s (LD.nestedDelta (sDelta s))). set (L' := deltaView (sDelta s) L). pose proof (nested_ready L s Hr) as Hr0. fold L' inner in Hr0.
  assert (wp (RR.approveRequest dp mp max_size commissionID closeTime otherHelper r) (fun c s' => ready L' s' /\ (c = REVIEW_SUCCESS ->
    supplyInv (sRows s') nothing nothing /\ (rrDetails (approval r) = ISSUANCE_DETAILS -> issuedBy (sRows s) (approval r) (sRows s')))) (fun _ _ => True) inner) as Hw.
  { unfold RR.approveRequest, RR.tryReviewRequest. cbv zeta. fold (approval r). apply wp_bind, wp_bind. unfold wp at 1.
    destruct (storeLoad_row max_size L' inner (dexAccountKey (reviewer r)) (re_ok _ _ _ _ Hr0)) as (c & -> & Hok).
    assert (ready L' (ES.setCache inner c)) as Hr1 by (split; [done|apply Hr0|apply Hr0]). destruct (_ ≫= dexAsAccount) as [acc|]; [|done].
    destruct (RR.doCheckValid _ _) as [code|] eqn:Ecv; [cbn; split; [done|]|].
    - intros ->. exfalso. destruct (rrDetails (approval r)); cbn in Ecv; try done; unfold RR.withdraw_doCheckValid, RR.default_doCheckValid in Ecv; repeat case_match; done.
    - eapply wp_mono; [apply (review_wp L' (ES.setCache inner c) (approval r) (accountID acc) Hr1 Hi Hm)| |done].
      intros [ok code] s' (H1 & H0 & H2). cbn [fst snd] in H0, H2. destruct ok; cbn [negb]; [|split; [done|]].
      + destruct (H2 eq_refl) as [H3 H4]. destruct code; try done. cbn. split; [done|]. intros _. split; [done|]. intros Hd. by apply H4.
      + intros ->. by destruct (H0 eq_refl). }
  unfold RR.tryApproveRequest. unfold wp in *. unfold inner in Hw. destruct (RR.approveRequest _ _ _ _ _ _ r _) as [c s'|]; [|done]. destruct Hw as [Hrs Hc].
  destruct c; try (split; [by apply dropped_ready|done]). destruct (Hc eq_refl) as [H1 H2]. unfold mbind, M_bind.
  destruct (ES.commitInto (sDelta s) s') as [[] s2|] eqn:E; [|done]. destruct (commit_ready L s s' s2 Hr Hrs E) as [Hr2 Hs2].
  cbn. by rewrite Hs2.
Qed.

(** ** Asking for an issuance *)

Section Ask.
Context (source : AccountEntry).

Lemma looks_mustLoadAccount R id : looks R (DS.mustLoadAccount max_size id) (fun a => exists e, rowsFind R (dexAccountKey id) = Some e /\ dexAsAccount e = Some a).
Proof.
  intros L s Hr Hs. unfold DS.mustLoadAccount. apply wp_bind. unfold wp at 1.
  destruct (storeLoad_row max_size L s (dexAccountKey id) (re_ok _ _ _ _ Hr)) as (c & -> & Hok).
  assert (ready L (ES.setCache s c)) as Hr' by (split; [done|apply Hr|apply Hr]). rewrite Hs. unfold ES.selectRow.
  destruct (rowsFind R (dexAccountKey id)) as [e|] eqn:E; cbn [mbind option_bind]; [|done]. destruct (dexAsAccount e) as [a|] eqn:Ea; [|done].
  split_and!; [done|done|]. by exists e.
Qed.

(** The fee, which the commission account does not pay. *)
Lemma looks_calculateFee R extra d feeRequired q w : supplyInv R extra d -> looks R (IR.calculateFee dp mp max_size feeRequired q w)
  (fun p => feeOk p.2 /\ (w = commissionID -> fixed p.2 = 0 /\ percent p.2 = 0)).
Proof.
  intros Hi. unfold IR.calculateFee. destruct (negb feeRequired); [by apply looks_ret|].
  eapply looks_bind; [apply looks_mustLoadAccount|]. intros a (e & He & Hea). destruct (isSystemAccountType (accountType a)) eqn:Es; [by apply looks_ret|].
  assert (w <> commissionID) as Hw. { intros ->. by rewrite (si_account _ _ _ _ Hi e a He Hea) in Es. }
  apply (looks_bind seq flag R _ _ (fun _ => True)); [eapply looks_any, looks_loadForAccount|]. intros o _.
  apply (looks_bind seq flag R _ _ feeOk).
  - destruct o as [fe|]; [|by apply looks_ret]. eapply looks_bind; [apply looks_percentFee|]. intros [ok p] Hp. apply looks_ret. split; cbn in *; [word_lia|done].
  - intros fe Hfe. destruct (safeSum _ _) as [ok n]. destruct (negb ok); [apply looks_throw|]. by apply looks_ret.
Qed.

(** A new request that locks nothing. *)
Lemma addRequest_wp L s (r : Frame ReviewableRequestEntry) : ready L s -> supplyInv (sRows s) nothing nothing -> requestOk commissionID (sRows s) (data r) ->
  (forall b, requestLock b (data r) = 0) ->
  wp (DS.storeAddEntry r) (fun _ s' => ready L s' /\ supplyInv (sRows s') nothing nothing /\ rewrote (sRows s) (requestKey (requestID (data r))) (Some (toEntry (stamp r))) (sRows s'))
    (fun _ _ => True) s.
Proof.
  intros Hr Hi Hok Hl. eapply wp_mono; [apply (add_wp seq flag Hseq L s r touch_request Hr)| |done]. intros _ s' (Hn & _ & W). rewrite key_request in Hn, W.
  split; [apply W|]. split; [|by eapply wrote_rows].
  apply (supplyInv_request commissionID (sRows s) (sRows s') (requestID (data r)) None (Some (stamp r)) nothing nothing nothing); [exact Hn| |by eapply wrote_rows| |done].
  - intros r2 [= <-]. done.
  - intros b. cbn [lockOfRequest]. change (data (stamp r)) with (data r). rewrite Hl. done.
Qed.

Lemma looks_isReferenceExist R w ref : looks R (AM.isReferenceExist w ref) (fun _ => True).
Proof.
  eapply (looks_bind seq flag R _ _ (fun _ => True)); [eapply looks_rows; [intros s Hs; unfold DS.rowsOf; rewrite Hs; reflexivity|]; by apply looks_ret|].
  intros [] _; [by apply looks_ret|]. eapply looks_rows; [intros s Hs; unfold ES.selectRow; rewrite Hs; reflexivity|]. by apply looks_ret.
Qed.

Lemma createIssuance_wp L s feeRequired q ref : ready L s -> supplyInv (sRows s) nothing nothing -> is_u64 (iAmount q) ->
  wp (IR.tryCreateIssuanceRequest dp mp max_size closeTime source feeRequired q ref) (fun v s' =>
    match v with
    | inl _ => True
    | inr r => ready L s' /\ supplyInv (sRows s') nothing nothing /\ requestor (data r) = accountID source /\
        (exists fee, requestBody (data r) = ISSUANCE_CREATE (IR.withFee q fee)) /\
        (exists a, hasAsset (sRows s) a /\ assetCode (data a) = iAsset q /\ assetOwner (data a) = accountID source) /\
        rewrote (sRows s) (requestKey (requestID (data r))) (Some (toEntry (stamp r))) (sRows s')
    end) (fun _ _ => True) s.
Proof.
  intros Hr Hi Hu. unfold IR.tryCreateIssuanceRequest. apply wp_bind. eapply wp_mono; [apply (looks_use seq flag _ _ L s (looks_isReferenceExist _ _ _) Hr)| |done].
  intros b s1 (Hr1 & Hs1 & _). destruct b; [done|].
  apply wp_bind. eapply wp_mono; [apply (looks_use seq flag _ _ L s1 (looks_reads seq flag _ _ _ (reads_loadAsset max_size seq flag _ false (iAsset q))) Hr1)| |done].
  intros [a|] s2 (Hr2 & Hs2 & Ha); [|done]. destruct Ha as [Ha Hac]. destruct (bool_decide_reflect (assetOwner (data a) = accountID source)) as [How|]; cbn [negb]; [|done].
  destruct (AF.willExceedMaxIssuanceAmount _ _); [done|].
  apply wp_bind. eapply wp_mono; [apply (looks_use seq flag _ _ L s2 (looks_reads seq flag _ _ _ (reads_loadBalance seq flag _ false (iReceiver q))) Hr2)| |done].
  intros [f|] s3 (Hr3 & Hs3 & Hf); [|done]. destruct Hf as [Hf Hid]. destruct (bool_decide_reflect (balAsset (data f) = assetCode (data a))) as [Hfa|]; cbn [negb]; [|done].
  apply wp_bind. eapply wp_mono; [apply (looks_use seq flag _ _ L s3 (looks_reads seq flag _ _ _ (reads_isAllowedToReceive dp max_size seq flag _ (balanceID (data f)))) Hr3)| |done].
  intros al s4 (Hr4 & Hs4 & _). destruct (negb al); [done|]. assert (sRows s4 = sRows s) as Es by congruence. rewrite <- Es in Hi.
  apply wp_bind. eapply wp_mono; [apply (looks_use seq flag _ _ L s4 (looks_calculateFee _ _ _ feeRequired q _ Hi) Hr4)| |done].
  intros [below fee] s5 (Hr5 & Hs5 & Hfee & Hfc). cbn [snd] in *. destruct (negb below); [done|].
  apply wp_bind. destruct (generateID_ret seq flag L s5 (REQUEST_TYPE mp) Hr5) as (id & s6 & E6 & Hr6 & Hs6). unfold wp at 1. rewrite E6. cbv zeta.
  set (r := {| lastModified := 0; data := RQ.createNewWithHash _ _ _ _ _ _ _ |}). assert (sRows s6 = sRows s) as Es6 by congruence.
  apply wp_bind. eapply wp_mono; [apply (addRequest_wp L s6 r Hr6)| |done].
  - rewrite Hs6, Hs5. exact Hi.
  - unfold requestOk. cbn. split; [done|]. split; [done|]. exists (balAccountID (data f)). split; [|done]. exists f. split_and!; try done; [|congruence].
    unfold hasBalance. rewrite Es6. replace (sRows s) with (sRows s2) by congruence. exact Hf.
  - done.
  - intros _ s7 (Hr7 & Hi7 & Hw7). cbn. rewrite Es6 in Hw7. split_and!; try done; [by exists fee|]. exists a. split_and!; try done. congruence.
Qed.

(** [doApply] of an issuance: either fulfilled, or the request waits. *)
Lemma askIssuance_wp L s feeRequired q ref : ready L s -> supplyInv (sRows s) nothing nothing -> is_u64 (iAmount q) ->
  wp (IR.doApply dp mp max_size commissionID closeTime source otherHelper feeRequired q ref) (fun v s' =>
    match v with
    | inl _ => True
    | inr ok => ready L s' /\ supplyInv (sRows s') nothing nothing /\ exists r R1, requestID (data r) = IR.requestID_ ok /\
        requestBody (data r) = ISSUANCE_CREATE (IR.withFee q (IR.paidFee ok)) /\
        (exists a, hasAsset (sRows s) a /\ assetCode (data a) = iAsset q /\ assetOwner (data a) = accountID source) /\
        rewrote (sRows s) (requestKey (requestID (data r))) (Some (toEntry (stamp r))) R1 /\
        (if IR.fulfilled ok then exists f a, issuedTo seq flag R1 (IR.withFee q (IR.paidFee ok)) (stamp r) f a (sRows s') else sRows s' = R1)
    end) (fun _ _ => True) s.
Proof.
  intros Hr Hi Hu. unfold IR.doApply. apply wp_bind. eapply wp_mono; [apply (createIssuance_wp L s feeRequired q ref Hr Hi Hu)| |done].
  intros [c|r] s1; [done|]. intros (Hr1 & Hi1 & Hq1 & (fee & Hb) & Hown & Hrw).
  assert (rrDetails (approval (data r)) = ISSUANCE_DETAILS) as Hd by (cbn; unfold RQ.getRequestType; by rewrite Hb).
  apply wp_bind. eapply wp_mono; [apply (tryApprove_wp L s1 (data r) Hr1 Hi1); by rewrite Hd| |done]. intros c s2 [Hr2 Hc]. cbv zeta.
  assert (forall isF, (c = REVIEW_SUCCESS /\ isF = true \/ c = INSUFFICIENT_AVAILABLE_FOR_ISSUANCE_AMOUNT /\ isF = false) ->
    exists r2 R1, requestID (data r2) = requestID (data r) /\ requestBody (data r2) = ISSUANCE_CREATE (IR.withFee q (IR.feeOf (data r))) /\
      rewrote (sRows s) (requestKey (requestID (data r2))) (Some (toEntry (stamp r2))) R1 /\ supplyInv (sRows s2) nothing nothing /\
      (if (isF : bool) then exists f a, issuedTo seq flag R1 (IR.withFee q (IR.feeOf (data r))) (stamp r2) f a (sRows s2) else sRows s2 = R1)) as Hfin.
  { intros isF Hcases. assert (IR.feeOf (data r) = fee) as -> by (unfold IR.feeOf; by rewrite Hb). exists r, (sRows s1). split_and!; try done.
    - destruct Hcases as [[-> _] |[-> _]]; [apply Hc|]. by rewrite Hc.
    - destruct Hcases as [[-> ->] |[-> ->]]; [|done]. destruct Hc as [_ Hc]. destruct (Hc Hd) as (r2 & q2 & f & a & Hr2' & Hid2 & _ & Hb2 & Hiss).
      assert (r2 = stamp r) as ->.
      { unfold hasRequest in Hr2'. rewrite Hid2 in Hr2'. cbn in Hr2'. rewrite (rewrote_same _ _ _ _ Hrw) in Hr2'. injection Hr2' as E. symmetry. exact (toEntry_inj _ _ _ E). }
      cbn in Hb2. rewrite Hb in Hb2. injection Hb2 as <-. by exists f, a. }
  assert (looks (sRows s2) (AM.mustLoadBalance false (iReceiver q)) (fun _ => True)) as Hlook.
  { apply (looks_bind seq flag _ _ _ (fun _ => True)); [eapply looks_any, looks_reads, reads_loadBalance|]. intros [f|] _; [by apply looks_ret|apply looks_throw]. }
  destruct c; try done; [destruct (Hfin true) as (r2 & R1 & H1 & H2 & H3 & H4 & H5); [by left|]|destruct (Hfin false) as (r2 & R1 & H1 & H2 & H3 & H4 & H5); [by right|]];
    (apply wp_bind; eapply wp_mono; [apply (looks_use seq flag _ _ L s2 Hlook Hr2)| |done]; intros f s3 (Hr3 & Hs3 & _); cbn; rewrite Hs3;
     split; [done|]; split; [done|]; exists r2, R1; by split_and!).
Qed.

(** [doApply] of a pre-issuance. *)
Lemma askPreIssuance_wp L s (q : PreIssuanceRequest) : ready L s -> supplyInv (sRows s) nothing nothing ->
  wp (PR.doApply dp mp max_size commissionID closeTime source otherHelper q) (fun v s' =>
    match v with inl _ => True | inr _ => ready L s' /\ supplyInv (sRows s') nothing nothing end) (fun _ _ => True) s.
Proof.
  intros Hr Hi. unfold PR.doApply. apply wp_bind. eapply wp_mono; [apply (looks_use seq flag _ _ L s (looks_isReferenceExist _ _ _) Hr)| |done].
  intros b s1 (Hr1 & Hs1 & _). destruct b; [done|].
  apply wp_bind. eapply wp_mono; [apply (looks_use seq flag _ _ L s1 (looks_reads seq flag _ _ _ (reads_loadAsset max_size seq flag _ false (pAsset q))) Hr1)| |done].
  intros [a|] s2 (Hr2 & Hs2 & Ha); [|done]. destruct (negb (bool_decide _)); [done|]. destruct (negb (PR.isSignatureValid _ _ _)); [done|]. destruct (negb (AF.canAddAvailableForIssuance _ _)); [done|].
  apply wp_bind. destruct (generateID_ret seq flag L s2 (REQUEST_TYPE mp) Hr2) as (id & s3 & E3 & Hr3 & Hs3). unfold wp at 1. rewrite E3. cbv zeta.
  assert (sRows s3 = sRows s) as Es by congruence. rewrite <- Es in Hi.
  apply wp_bind. eapply wp_mono; [apply (addRequest_wp L s3 _ Hr3 Hi); done| |done]. intros _ s4 (Hr4 & Hi4 & _). case_bool_decide; [|by split].
  apply wp_bind. eapply wp_mono; [by apply (tryApprove_wp L s4 _ Hr4 Hi4)| |done]. intros c s5 [Hr5 Hc]. destruct c; try done. cbn. split; [done|apply Hc].
Qed.

(** ** Creating, updating and cancelling assets *)

Definition assetRequest (body : RequestBody) : Prop := match body with ASSET_CREATE _ | ASSET_UPDATE _ => True | _ => False end.

Lemma assetRequest_lock r b : assetRequest (requestBody (data r)) -> requestLock b (data r) = 0.
Proof. unfold requestLock. by destruct (requestBody (data r)). Qed.

Lemma changeRequest_wp L s r r' : ready L s -> supplyInv (sRows s) nothing nothing -> hasRequest (sRows s) r -> requestID (data r') = requestID (data r) ->
  requestOk commissionID (sRows s) (data r') -> assetRequest (requestBody (data r)) -> assetRequest (requestBody (data r')) ->
  wp (DS.storeChangeEntry r') (fun _ s' => ready L s' /\ supplyInv (sRows s') nothing nothing) (fun _ _ => True) s.
Proof.
  intros Hr Hi Hrq Hid Hok Ha Ha'. eapply wp_mono; [apply (change_wp seq flag Hseq L s r' touch_request Hr)| |done].
  { rewrite key_request, Hid, (Hrq : rowsFind _ _ = _). by eexists. }
  intros _ s' (_ & W). rewrite key_request, Hid in W. split; [apply W|].
  apply (supplyInv_request commissionID (sRows s) (sRows s') (requestID (data r)) (Some r) (Some (stamp r')) nothing nothing nothing); [exact Hrq| |by eapply wrote_rows| |done].
  - intros r2 [= <-]. done.
  - intros b. cbn [lockOfRequest]. rewrite !assetRequest_lock by done. done.
Qed.

Lemma reads_loadRequestOf R wd id w : looks R (AM.loadRequestOf max_size wd id w) (fun v => forall r, v = Some r -> hasRequest R r /\ requestID (data r) = id).
Proof.
  eapply looks_bind; [apply looks_reads, reads_loadRequest|]. intros [r|] Hr; apply looks_ret; [|done]. intros r2. case_bool_decide; [|done]. by intros [= <-].
Qed.

(** The request to store: a new one, or one of the same type that waits. *)
Definition storable R (id : Z) (body : RequestBody) (r : Frame ReviewableRequestEntry) : Prop :=
  requestBody (data r) = body /\ (id <> 0 -> exists r0, hasRequest R r0 /\ requestID (data r) = requestID (data r0) /\ assetRequest (requestBody (data r0))).

Lemma getRequest_wp L s id code t body : ready L s -> t = T_ASSET_CREATE \/ t = T_ASSET_UPDATE ->
  wp (MA.getUpdatedOrCreateReviewableRequest mp max_size closeTime source id code t body) (fun v s' => ready L s' /\ sRows s' = sRows s /\
    forall r, v = Some r -> storable (sRows s) id body r) (fun _ _ => True) s.
Proof.
  intros Hr Ht. unfold MA.getUpdatedOrCreateReviewableRequest. destruct (Z.eqb_spec id 0) as [->|Hn].
  - apply wp_bind. destruct (generateID_ret seq flag L s (REQUEST_TYPE mp) Hr) as (n & s1 & E1 & Hr1 & Hs1). unfold wp at 1. rewrite E1. cbn.
    split; [done|]. split; [done|]. by intros r [= <-].
  - apply wp_bind. eapply wp_mono; [apply (looks_use seq flag _ (fun v => forall r, v = Some r -> hasRequest (sRows s) r /\ RQ.getRequestType (data r) = t) L s)| |done]; [|done|].
    + eapply looks_bind; [apply reads_loadRequestOf|]. intros [r|] Hv; apply looks_ret; [|done]. intros r2. case_bool_decide as E; [|done]. intros [= <-]. by split; [apply Hv|].
    + intros v s1 (Hr1 & Hs1 & Hv). destruct v as [r|]; cbn; split_and!; try done. intros r2 [= <-]. destruct (Hv r eq_refl) as [Hq E]. split; [done|].
      intros _. exists r. split; [done|]. split; [done|]. unfold RQ.getRequestType in E. destruct (requestBody (data r)), Ht; by simplify_eq.
Qed.

Lemma submit_wp L s failed id (r : Frame ReviewableRequestEntry) : ready L s -> supplyInv (sRows s) nothing nothing -> assetRequest (requestBody (data r)) ->
  storable (sRows s) id (requestBody (data r)) r -> requestOk commissionID (sRows s) (data r) ->
  wp (MA.submit dp mp max_size commissionID closeTime source otherHelper failed id r) (fun v s' =>
    match v with inl _ => True | inr _ => ready L s' /\ supplyInv (sRows s') nothing nothing end) (fun _ _ => True) s.
Proof.
  intros Hr Hi Ha [_ Hold] Hok. unfold MA.submit. apply wp_bind.
  assert (wp (if id =? 0 then DS.storeAddEntry r else DS.storeChangeEntry r) (fun _ s' => ready L s' /\ supplyInv (sRows s') nothing nothing) (fun _ _ => True) s) as Hst.
  { destruct (Z.eqb_spec id 0) as [->|Hn].
    - eapply wp_mono; [apply (addRequest_wp L s r Hr Hi Hok); intros b; by apply assetRequest_lock| |done]. by intros i s' (H1 & H2 & _).
    - destruct (Hold Hn) as (r0 & H1 & H2 & H3). by apply (changeRequest_wp L s r0 r). }
  eapply wp_mono; [exact Hst| |done]. intros i s1 [Hr1 Hi1]. case_bool_decide; [|by split].
  apply wp_bind. eapply wp_mono; [apply (tryApprove_wp L s1 (data r) Hr1 Hi1)| |done].
  - unfold approval, RQ.getRequestType. cbn. by destruct (requestBody (data r)).
  - intros c s2 [Hr2 Hc]. destruct c; try done. cbn. split; [done|apply Hc].
Qed.

Lemma looks_exists R w ref : looks R (AM.requestExists w ref) (fun _ => True).
Proof. eapply looks_rows; [intros s Hs; unfold DS.rowsOf; rewrite Hs; reflexivity|]. by apply looks_ret. Qed.

Lemma looks_assetExists R code : looks R (DS.assetExists code) (fun _ => True).
Proof. eapply looks_rows; [intros s Hs; unfold ES.selectRow; rewrite Hs; reflexivity|]. by apply looks_ret. Qed.

Lemma looks_if {A} R (b : bool) (m1 m2 : M St A) P : looks R m1 P -> looks R m2 P -> looks R (if b then m1 else m2) P.
Proof. by destruct b. Qed.

Lemma createAsset_wp L s id (q : AssetCreationRequest) : ready L s -> supplyInv (sRows s) nothing nothing ->
  0 <= acMaxIssuanceAmount q <= INT64_MAX -> is_u64 (acInitialPreissuedAmount q) ->
  wp (MA.create_doApply dp mp max_size commissionID closeTime source otherHelper id q) (fun v s' =>
    match v with inl _ => True | inr _ => ready L s' /\ supplyInv (sRows s') nothing nothing end) (fun _ _ => True) s.
Proof.
  intros Hr Hi Hmax Hini. unfold MA.create_doApply. apply wp_bind.
  eapply wp_mono; [apply (looks_use seq flag _ _ L s (looks_if _ _ _ _ _ (looks_exists _ _ _) (looks_ret seq flag _ _ _ I)) Hr)| |done].
  intros e s1 (Hr1 & Hs1 & _). destruct e; [done|].
  apply wp_bind. eapply wp_mono; [apply (looks_use seq flag _ _ L s1 (looks_assetExists _ _) Hr1)| |done]. intros e s2 (Hr2 & Hs2 & _). destruct e; [done|].
  apply wp_bind. eapply wp_mono; [apply (looks_use seq flag _ _ L s2 (looks_if _ _ _ _ _ (looks_loadStatsAsset mp seq flag _) (looks_ret seq flag _ _ _ I)) Hr2)| |done].
  intros v s3 (Hr3 & Hs3 & _). destruct v; [done|]. assert (sRows s3 = sRows s) as Es by congruence. rewrite <- Es in Hi.
  apply wp_bind. eapply wp_mono; [apply (getRequest_wp L s3 id (acCode q) T_ASSET_CREATE (ASSET_CREATE q) Hr3); by left| |done].
  intros [r|] s4 (Hr4 & Hs4 & Hst); [|done]. specialize (Hst r eq_refl). pose proof (proj1 Hst) as Hb. rewrite <- Hs4 in *.
  apply (submit_wp L s4); try done; [by rewrite Hb|by rewrite Hb|]. unfold requestOk. by rewrite Hb.
Qed.

Lemma updateAsset_wp L s id (q : AssetUpdateRequest) : ready L s -> supplyInv (sRows s) nothing nothing ->
  wp (MA.update_doApply dp mp max_size commissionID closeTime source otherHelper id q) (fun v s' =>
    match v with inl _ => True | inr _ => ready L s' /\ supplyInv (sRows s') nothing nothing end) (fun _ _ => True) s.
Proof.
  intros Hr Hi. unfold MA.update_doApply. apply wp_bind. eapply wp_mono; [apply (getRequest_wp L s id (auCode q) T_ASSET_UPDATE (ASSET_UPDATE q) Hr); by right| |done].
  intros [r|] s1 (Hr1 & Hs1 & Hst); [|done]. specialize (Hst r eq_refl). pose proof (proj1 Hst) as Hb.
  assert (looks (sRows s1) (DS.loadAssetOf max_size true (auCode q) (accountID source)) (fun _ => True)) as Hl.
  { eapply looks_bind; [apply looks_reads, reads_loadAsset|]. intros [a|] _; by apply looks_ret. }
  apply wp_bind. eapply wp_mono; [apply (looks_use seq flag _ _ L s1 Hl Hr1)| |done]. intros [a|] s2 (Hr2 & Hs2 & _); [|done].
  apply wp_bind. eapply wp_mono; [apply (looks_use seq flag _ _ L s2 (looks_if _ _ _ _ _ (looks_loadStatsAsset mp seq flag _) (looks_ret seq flag _ _ _ I)) Hr2)| |done].
  intros v s3 (Hr3 & Hs3 & _). cbv zeta. destruct (match v with Some _ => _ | None => _ end); [done|].
  assert (sRows s3 = sRows s) as Es by congruence. rewrite <- Es in *. apply (submit_wp L s3); try done; [by rewrite Hb|by rewrite Hb|]. unfold requestOk. by rewrite Hb.
Qed.

Lemma cancelAsset_wp L s id : ready L s -> supplyInv (sRows s) nothing nothing ->
  wp (MA.cancel_doApply max_size source id) (fun v s' =>
    match v with inl _ => True | inr _ => ready L s' /\ supplyInv (sRows s') nothing nothing end) (fun _ _ => True) s.
Proof.
  intros Hr Hi. unfold MA.cancel_doApply. apply wp_bind. eapply wp_mono; [apply (looks_use seq flag _ _ L s (reads_loadRequestOf _ _ _ _) Hr)| |done].
  intros [r|] s1 (Hr1 & Hs1 & Hv); [|done]. destruct (Hv r eq_refl) as [Hrq _]. rewrite <- Hs1 in *.
  assert (assetRequest (requestBody (data r)) -> wp (DS.storeDeleteEntry r;; mret (M := M St) (inr (A := MA.Code) (requestID (data r)))) (fun v s' =>
    match v with inl _ => True | inr _ => ready L s' /\ supplyInv (sRows s') nothing nothing end) (fun _ _ => True) s1) as Hdel.
  { intros Ha. destruct (deleteRequest_supply seq flag commissionID L s1 r nothing nothing nothing Hr1 Hi Hrq) as (s2 & E & W & Hi2).
    - intros b. by rewrite assetRequest_lock.
    - apply wp_bind. unfold wp at 1. rewrite E. cbn. by split; [apply W|]. }
  destruct (requestBody (data r)); try done; by apply Hdel.
Qed.

End Ask.

End MoneyOps.
