(* ===== verification/DexExample.v ===== *)
(** * A small exchange for the witnesses of the theorems on money

    Two assets, three accounts and the commission account; account 1 sells,
    account 2 buys, account 3 has a buy offer in the book.  Keys are lists of
    numbers, rows are a union of entries. *)

From S2P Require Import Prelude OrdContainers BigMath LedgerDelta LedgerDeltaFacts EntryStore EntryStoreFacts Signatures LedgerHeader TxSet LedgerExample Statistics Balance Assets OfferExchange ExchangeFacts DexStore CreateOffer DexFacts BookFacts CrossStore OfferFacts.

Global Instance AssetPairEntry_eq_dec : EqDecision AssetPairEntry.
Proof. solve_decision. Defined.
Global Instance StatisticsEntry_eq_dec : EqDecision StatisticsEntry.
Proof. solve_decision. Defined.
Global Instance Limits_eq_dec : EqDecision Limits.
Proof. solve_decision. Defined.
Global Instance FeeEntry_eq_dec : EqDecision FeeEntry.
Proof. solve_decision. Defined.

Inductive DEntry :=
| DBalance (f : Frame BalanceEntry)
| DOffer (f : Frame OfferEntry)
| DPair (f : Frame AssetPairEntry)
| DAsset (f : Frame AssetEntry)
| DRequest (f : Frame ReviewableRequestEntry)
| DStat (f : Frame StatisticsEntry)
| DReference (f : Frame (PublicKey * list Z))
| DLimits (a : PublicKey) (l : Limits) (modified : Z)
| DFee (a : FeeEntry) (modified : Z)
| DAccount (a : AccountEntry) (modified : Z).

Global Instance DEntry_eq_dec : EqDecision DEntry.
Proof. solve_decision. Defined.

Definition dBalanceKey (i : BalanceID) : list Z := 0 :: i.
Definition dOfferKey (i : Z) (o : PublicKey) : list Z := 1 :: i :: o.
Definition dPairKey (b q : AssetCode) : list Z := 2 :: Z.of_nat (length b) :: b ++ q.
Definition dAssetKey (c : AssetCode) : list Z := 3 :: c.
Definition dAccountKey (a : PublicKey) : list Z := 5 :: a.
Definition dRequestKey (i : Z) : list Z := [6; i].
Definition dStatKey (a : PublicKey) : list Z := 7 :: a.
Definition dReferenceKey (a : PublicKey) (r : list Z) : list Z := 8 :: Z.of_nat (length a) :: a ++ r.
Definition dLimitsKey (a : PublicKey) : list Z := 9 :: a.
Definition dTypeLimitsKey (t : AccountType) : list Z := [10].

Definition dKind (k : list Z) : EntryKind :=
  match k with
  | 0 :: _ => KIND_BALANCE | 1 :: _ => KIND_OFFER | 2 :: _ => KIND_PAIR | 3 :: _ => KIND_ASSET | 6 :: _ => KIND_REQUEST
  | 7 :: _ => KIND_STATISTICS | 8 :: _ => KIND_REFERENCE | _ => KIND_OTHER
  end.

Definition dKey (e : DEntry) : list Z :=
  match e with
  | DBalance f => dBalanceKey (balanceID (data f))
  | DOffer f => dOfferKey (offerID (data f)) (ownerID (data f))
  | DPair f => dPairKey (pairBase (data f)) (pairQuote (data f))
  | DAsset f => dAssetKey (assetCode (data f))
  | DRequest f => dRequestKey (requestID (data f))
  | DStat f => dStatKey (statAccountID (data f))
  | DReference f => dReferenceKey (data f).1 (data f).2
  | DLimits a _ _ => dLimitsKey a
  | DFee a _ => [4; lowerBound a; upperBound a] ++ feeHash a
  | DAccount a _ => dAccountKey (accountID a)
  end.

Definition dTouch (n : Z) (e : DEntry) : DEntry :=
  match e with
  | DBalance f => DBalance {| lastModified := n; data := data f |}
  | DOffer f => DOffer {| lastModified := n; data := data f |}
  | DPair f => DPair {| lastModified := n; data := data f |}
  | DAsset f => DAsset {| lastModified := n; data := data f |}
  | DRequest f => DRequest {| lastModified := n; data := data f |}
  | DStat f => DStat {| lastModified := n; data := data f |}
  | DReference f => DReference {| lastModified := n; data := data f |}
  | DLimits a l _ => DLimits a l n
  | DFee a _ => DFee a n
  | DAccount a _ => DAccount a n
  end.

(** JSON is any text, and the hash of a request its amounts. *)
Definition dRequests : RequestParams := {|
  isValidJson := fun _ => true;
  calculateHash := fun b => match b with
    | ISSUANCE_CREATE i => [1; iAmount i] | WITHDRAW w => [2; wAmount w] | TWO_STEP_WITHDRAWAL w => [3; wAmount w] | PRE_ISSUANCE_CREATE p => [4; pAmount p]
    | ASSET_CREATE q => 5 :: acMaxIssuanceAmount q :: acCode q | ASSET_UPDATE q => 6 :: auPolicies q :: auCode q | OTHER_REQUEST n l => n :: l end;
  otherRequestValid := fun _ _ => true |}.

Global Instance dHelper : EntryHelper (list Z) DEntry LedgerHeader := {|
  getLedgerKey := dKey;
  isValid := fun e => match e with
    | DBalance f => BF.isValid (data f) | DOffer f => OF.isValid (data f) | DPair f => AP.isValid (data f)
    | DAsset f => AF.isValid (isValidJson dRequests) (data f) | DRequest f => RQ.isValid dRequests (data f) | DStat f => SF.isValid (data f) | _ => true end;
  invalidMessage := fun _ => "invalid";
  lastModifiedLedgerSeq := fun e => match e with
    | DBalance f => lastModified f | DOffer f => lastModified f | DPair f => lastModified f
    | DAsset f => lastModified f | DRequest f => lastModified f | DStat f => lastModified f | DReference f => lastModified f
    | DLimits _ _ m | DFee _ m | DAccount _ m => m end;
  setLastModified := dTouch;
  headerSeq := ledgerSeq;
  headerTime := fun h => closeTime (scpValue h);
  samePK := fun e r => bool_decide (dKey e = dKey r);
  updateRow := fun _ e => e;
  whereKey := fun k r => bool_decide (dKey r = k);
  deletion := fun _ => DeletesRow;
  usesCache := fun k => match k with 2 :: _ | 3 :: _ | 5 :: _ | 6 :: _ | 9 :: _ | 10 :: _ => true | _ => false end;
  looksExists := fun _ => true;
  existsInCache := fun _ v => Some (match v with Some _ => true | None => false end);
|}.

Global Instance dHelper_ok : EntryHelperOk dHelper.
Proof.
  split; cbn.
  - intros. apply bool_decide_eq_true.
  - intros. apply bool_decide_eq_true.
  - by intros n [].
  - done.
Defined.

Global Instance dHeader_ok : HeaderOk dHelper.
Proof. by split. Defined.

Global Instance dDex : DexEntries (list Z) DEntry := {|
  balanceData := {| fromEntry := fun e => match e with DBalance f => Some f | _ => None end; toEntry := DBalance |};
  offerData := {| fromEntry := fun e => match e with DOffer f => Some f | _ => None end; toEntry := DOffer |};
  pairData := {| fromEntry := fun e => match e with DPair f => Some f | _ => None end; toEntry := DPair |};
  assetData := {| fromEntry := fun e => match e with DAsset f => Some f | _ => None end; toEntry := DAsset |};
  requestData := {| fromEntry := fun e => match e with DRequest f => Some f | _ => None end; toEntry := DRequest |};
  statData := {| fromEntry := fun e => match e with DStat f => Some f | _ => None end; toEntry := DStat |};
  referenceData := {| fromEntry := fun e => match e with DReference f => Some f | _ => None end; toEntry := DReference |};
  requestParams := dRequests;
  asLimits := fun e => match e with DLimits _ l _ => Some l | _ => None end;
  requestKey := dRequestKey; statKey := dStatKey; referenceKey := dReferenceKey; limitsKey := dLimitsKey; typeLimitsKey := dTypeLimitsKey;
  keyKind := dKind;
  asFee := fun e => match e with DFee a _ => Some a | _ => None end;
  dexAsAccount := fun e => match e with DAccount a _ => Some a | _ => None end;
  balanceKey := dBalanceKey; offerKey := dOfferKey; pairKey := dPairKey; assetKey := dAssetKey; dexAccountKey := dAccountKey;
|}.

Lemma dPairKey_inj b q b' q' : dPairKey b q = dPairKey b' q' -> b = b' /\ q = q'.
Proof. intros [= Hl Ha]. apply Nat2Z.inj in Hl. by apply app_inj_1. Qed.

Global Instance dDex_ok : DexEntriesOk dHelper dDex.
Proof.
  split; try done; try (split; [done|]; intros [] g Hg; by inversion Hg).
  - by intros i j [= ->].
  - by intros i o i' o' [= -> ->].
  - exact dPairKey_inj.
  - by intros c c' [= ->].
  - by intros i j [= ->].
  - by intros a b [= ->].
  - by intros a b [= ->].
  - intros [] i Hk; try discriminate Hk; by eexists.
  - intros [] b q Hk; try discriminate Hk; by eexists.
  - intros [] b Hk; try discriminate Hk; by eexists.
  - intros [] b Hk; try discriminate Hk; by eexists.
  - intros f (H1 & H2 & _). cbn. unfold BF.isValid. rewrite (proj2 (Z.geb_le _ _)), (proj2 (Z.geb_le _ _)) by done. by rewrite !andb_true_r.
Defined.

(** ** The ledger *)

Definition dParams : DexParams := {|
  amountType := Unsigned64; PHYSICAL_PRICE_RESTRICTION := 2; TRADEABLE_SECONDARY_MARKET := 1; REQUIRES_KYC := 8; OFFER_FEE := 1;
  BALANCE_TYPE := 3; OFFER_TYPE := 7; isFeeTypeValid := fun t => (0 <=? t) && (t <=? 5);
  balanceToStrKey := fun b => b; forAccount := fun a n => a ++ [n];
  calcHash := fun t a acc at_ st => t :: st :: match acc with Some i => i | None => [] end ++ a |}.

Definition GLD : AssetCode := [71; 76; 68].
Definition USD : AssetCode := [85; 83; 68].
Definition dCommission : PublicKey := [9].

Definition dBalance (id owner : Z) (asset : AssetCode) (a l : Z) : DEntry :=
  DBalance {| lastModified := 1; data := {| balanceID := [id]; balAccountID := [owner]; balAsset := asset; amount := a; locked := l |} |}.

Definition dOfferFrame (id owner : Z) (buy : bool) (bb qb ba qa f pf p : Z) : Frame OfferEntry :=
  {| lastModified := 1; data := {| offerID := id; ownerID := [owner]; orderBookID := 0; isBuy := buy; base := GLD; quote := USD;
     baseBalance := [bb]; quoteBalance := [qb]; baseAmount := ba; quoteAmount := qa; createdAt := 5; fee := f; percentFee := pf; price := p |} |}.

(** Account 1 sells 10 at the price 2 and 5 at the price 3, account 3 buys 4
    at the price 1; a fee of one percent is paid. *)
Definition dSell1 : Frame OfferEntry := dOfferFrame 1 1 false 11 12 (10 * ONE) (20 * ONE) ONE ONE (2 * ONE).
Definition dSell2 : Frame OfferEntry := dOfferFrame 2 1 false 11 12 (5 * ONE) (15 * ONE) ONE ONE (3 * ONE).
Definition dBuy : Frame OfferEntry := dOfferFrame 3 3 true 31 32 (4 * ONE) (4 * ONE) 40000 ONE ONE.

Definition dPair : Frame AssetPairEntry :=
  {| lastModified := 1; data := {| pairBase := GLD; pairQuote := USD; pairCurrentPrice := ONE; physicalPrice := ONE;
     physicalPriceCorrection := 100 * ONE; maxPriceStep := 0; pairPolicies := 1 |} |}.

(** An asset of account 9, of which a billion may be issued. *)
Definition dAsset (c : AssetCode) (n policies : Z) : DEntry :=
  DAsset {| lastModified := 1; data := {| assetCode := c; assetOwner := [9]; preissuedAssetSigner := [9]; assetDetails := [];
     maxIssuanceAmount := 1000000000 * ONE; availableForIssueance := 1000 * ONE; issued := n; pendingIssuance := 0; assetPolicies := policies |} |}.

Definition dRows : list DEntry :=
  [DAccount (xAccount 1) 1; DAccount (xAccount 2) 1; DAccount (xAccount 3) 1;
   dAsset GLD (15 * ONE) 0; dAsset USD 104040000 0; DPair dPair;
   DFee {| feeType := 1; feeAsset := USD; fixedFee := 0; entryPercentFee := ONE; feeSubtype := 0; lowerBound := 0;
           upperBound := INT64_MAX; feeHash := calcHash dParams 1 USD None None 0 |} 1;
   dBalance 11 1 GLD 0 (15 * ONE); dBalance 12 1 USD 0 0;
   dBalance 21 2 GLD 0 0; dBalance 22 2 USD (100 * ONE) 0;
   dBalance 31 3 GLD 0 0; dBalance 32 3 USD 0 (4040000);
   DOffer dSell1; DOffer dSell2; DOffer dBuy].

Definition dStore : Store (list Z) DEntry LedgerHeader :=
  {| sRows := dRows; sCache := []; sDelta := LD.newDelta (xHeader 2 20 []) true |}.

Lemma dRows_distinct : distinctRows dRows.
Proof. apply (bool_decide_unpack (NoDup (map dKey dRows))). vm_compute. exact I. Qed.

Lemma dStore_ready : ready 2 true (rowsFind dRows) dStore.
Proof.
  split; [|done|done]. split; [apply deltaOk_new|exact dRows_distinct|done| |done].
  intros k v Hf. discriminate Hf.
Qed.

(** ** A check of the invariant *)

Lemma sumOf_le {A} (f g : A -> Z) l : (forall a, a ∈ l -> f a <= g a) -> sumOf f l <= sumOf g l.
Proof.
  induction l as [|a l IH]; intros Hle; [done|]. rewrite !sumOf_cons. pose proof (Hle a ltac:(set_solver)).
  specialize (IH ltac:(set_solver)). lia.
Qed.

Definition ownb (R : list DEntry) (id : BalanceID) (w : PublicKey) (a : AssetCode) : bool :=
  match rowsFind R (dBalanceKey id) with
  | Some (DBalance f) => bool_decide (balanceID (data f) = id) && bool_decide (balAccountID (data f) = w) && bool_decide (balAsset (data f) = a)
  | _ => false
  end.

Definition inb (lo x hi : Z) : bool := (lo <=? x) && (x <=? hi).

Definition tradableb (o : OfferEntry) : bool :=
  inb 0 (baseAmount o) INT64_MAX && inb 0 (quoteAmount o) INT64_MAX && inb 1 (price o) INT64_MAX && inb 0 (fee o) INT64_MAX &&
  inb 0 (percentFee o) (100 * ONE) && (cost (price o) (baseAmount o) <=? INT64_MAX).

(** The balance [id] with its owner and asset. *)
Definition balanceb (R : list DEntry) (id : BalanceID) : option BalanceEntry :=
  match rowsFind R (dBalanceKey id) with
  | Some (DBalance f) => if bool_decide (balanceID (data f) = id) then Some (data f) else None
  | _ => None
  end.

Definition requestb (R : list DEntry) (r : ReviewableRequestEntry) : bool :=
  match requestBody r with
  | WITHDRAW w | TWO_STEP_WITHDRAWAL w => (0 <=? wAmount w) && (0 <=? fixed (wFee w)) && (0 <=? percent (wFee w)) &&
      match balanceb R (wBalance w) with Some b => bool_decide (balAccountID b = requestor r) | None => false end
  | ISSUANCE_CREATE i => inb 0 (iAmount i) UINT64_MAX && (0 <=? fixed (iFee i)) && (0 <=? percent (iFee i)) &&
      match balanceb R (iReceiver i) with
      | Some b => bool_decide (balAsset b = iAsset i) && (negb (bool_decide (balAccountID b = dCommission)) || (fixed (iFee i) =? 0) && (percent (iFee i) =? 0))
      | None => false
      end
  | ASSET_CREATE q => inb 0 (acMaxIssuanceAmount q) INT64_MAX && inb 0 (acInitialPreissuedAmount q) UINT64_MAX
  | PRE_ISSUANCE_CREATE _ | ASSET_UPDATE _ | OTHER_REQUEST _ _ => true
  end.

Definition rowb (R : list DEntry) (e : DEntry) : bool :=
  match e with
  | DBalance f => (0 <=? amount (data f)) && (0 <=? locked (data f)) && isAssetCodeValid (balAsset (data f)) &&
      (sumOf (lockOn (balanceID (data f))) R <=? locked (data f))
  | DOffer g => let o := data g in tradableb o && needsMore o && OF.isValid o && negb (bool_decide (base o = quote o)) &&
      negb (bool_decide (ownerID o = dCommission)) && ownb R (baseBalance o) (ownerID o) (base o) && ownb R (quoteBalance o) (ownerID o) (quote o)
  | DPair p => AP.isValid (data p) && (physicalPrice (data p) <=? INT64_MAX) && (physicalPriceCorrection (data p) <=? INT64_MAX)
  | DRequest r => requestb R (data r)
  | _ => true
  end.

Definition allFunds (e : DEntry) : Z := match e with DBalance f => funds (data f) | _ => 0 end.

Definition bookb (R : list DEntry) : bool :=
  bool_decide (NoDup (map dKey R)) && forallb (rowb R) R && (sumOf allFunds R <=? INT64_MAX).

Lemma balanceb_own R id b : balanceb R id = Some b -> ownBalance R id (balAccountID b) (balAsset b).
Proof.
  unfold balanceb. destruct (rowsFind R (dBalanceKey id)) as [[f| | | | | | | | |]|] eqn:E; try done. case_bool_decide as Hid; [|done].
  intros [= <-]. exists f. split_and!; try done. unfold hasBalance. cbn. by rewrite Hid.
Qed.

Lemma requestb_ok R r : requestb R r = true -> requestOk dCommission R r.
Proof.
  unfold requestb, requestOk, feeOk, inb. destruct (requestBody r) as [i|w|w|p|q|q|n l]; [| | |done| |done|done].
  - destruct (balanceb R (iReceiver i)) as [b|] eqn:Eb; [|by rewrite andb_false_r]. apply balanceb_own in Eb. intros H. zify_bool.
    apply bool_decide_eq_true in H0. subst. split; [word_lia|]. split; [lia|]. exists (balAccountID b). rewrite <- H0. split; [done|].
    intros Hc. rewrite bool_decide_true in * by done. break; zify_bool; [done|lia].
  - destruct (balanceb R (wBalance w)) as [b|] eqn:Eb; [|by rewrite andb_false_r]. apply balanceb_own in Eb. intros H. zify_bool.
    apply bool_decide_eq_true in H0. split; [lia|]. split; [lia|]. exists (balAsset b). by rewrite <- H0.
  - destruct (balanceb R (wBalance w)) as [b|] eqn:Eb; [|by rewrite andb_false_r]. apply balanceb_own in Eb. intros H. zify_bool.
    apply bool_decide_eq_true in H0. split; [lia|]. split; [lia|]. exists (balAsset b). by rewrite <- H0.
  - intros Hq. zify_bool. split; [lia|word_lia].
Qed.

Lemma ownb_own R id w a : ownb R id w a = true -> ownBalance R id w a.
Proof.
  unfold ownb. destruct (rowsFind R (dBalanceKey id)) as [[f| | | | | | | | |]|] eqn:E; try done.
  rewrite !andb_true_iff, !bool_decide_eq_true. intros [[<- <-] <-]. by exists f.
Qed.

Lemma tradableb_ok o : tradableb o = true -> tradable o.
Proof. unfold tradableb, inb. rewrite !andb_true_iff, !Z.leb_le. intros H. split; lia. Qed.

Lemma bookb_inv R : bookb R = true -> bookInv dCommission R (fun _ => 0).
Proof.
  unfold bookb. rewrite !andb_true_iff, bool_decide_eq_true, forallb_forall, Z.leb_le. intros [[Hd Hrow] Ht].
  assert (forall k e, rowsFind R k = Some e -> rowb R e = true) as Hr.
  { intros k e He. apply Hrow, list_elem_of_In. by apply (rowsFind_Some R) in He as [_ He]. }
  split; [done|..].
  - intros f Hf. specialize (Hr _ _ Hf). cbn in Hr. rewrite !andb_true_iff, !Z.leb_le in Hr.
    destruct Hr as [[[? ?] ?] ?]. cbv beta. split_and!; [done|done|done|lia].
  - intros g Hg. specialize (Hr _ _ Hg). cbn in Hr. rewrite !andb_true_iff, !negb_true_iff, !bool_decide_eq_false in Hr.
    destruct Hr as [[[[[[? ?] ?] ?] ?] ?] ?]. split; auto using tradableb_ok, ownb_own.
  - intros p Hp. specialize (Hr _ _ Hp). cbn in Hr. rewrite !andb_true_iff, !Z.leb_le in Hr. destruct Hr as [[? ?] ?]. by split_and!.
  - intros r Hq. specialize (Hr _ _ Hq). by apply requestb_ok.
  - intros a. etrans; [|exact Ht]. apply sumOf_le. intros e He. specialize (Hrow e (proj1 (list_elem_of_In _ _) He)).
    unfold fundsOf, assetFunds, funds. destruct e as [f| | | | | | | | |]; cbn in *; try done. rewrite !andb_true_iff, !Z.leb_le in Hrow.
    destruct Hrow as [[[? ?] _] _]. case_bool_decide; unfold funds; lia.
Qed.

(** With the lock of an offer [o] that is in memory only. *)
Lemma bookb_extra R o : bookb R = true ->
  forallb (fun e => match e with
    | DBalance f => sumOf (lockOn (balanceID (data f))) R + offerLock (balanceID (data f)) o <=? locked (data f)
    | _ => true
    end) R = true -> bookInv dCommission R (fun id => offerLock id o).
Proof.
  rewrite forallb_forall. intros Hb Hx. destruct (bookb_inv R Hb) as [Hd Hbal Ho Hp Hr Ht]. split; try done.
  intros f Hf. destruct (Hbal f Hf) as (? & ? & ? & _). split_and!; [done|done|done|].
  apply (rowsFind_Some R) in Hf as [_ Hin]. apply Z.leb_le. exact (Hx _ (proj1 (list_elem_of_In _ _) Hin)).
Qed.

Lemma dBook : bookInv dCommission dRows (fun _ => 0).
Proof. apply bookb_inv. vm_compute. reflexivity. Qed.

(** ** Operations of account 2 *)

Definition dOp (buy : bool) (amt p f : Z) : OM.ManageOfferOp := OM.buildManageOfferOp [21] [22] buy amt p f 0 0.

Definition dApply (op : OM.ManageOfferOp) :=
  CO.doApply dParams 100 isort (xAccount 2) op dCommission 20 20 dStore.

(** The balance [id] of the rows. *)
Definition dBalanceOf (R : list DEntry) (id : Z) : option (Z * Z) :=
  match rowsFind R (dBalanceKey [id]) with Some (DBalance f) => Some (amount (data f), locked (data f)) | _ => None end.
