(* ===== verification/MoneyTheorems.v ===== *)
(** * Theorems on balances and on the exchange *)

From S2P Require Import Prelude OrdContainers BigMath LedgerDelta LedgerDeltaFacts EntryStore EntryStoreFacts Signatures LedgerHeader TxSet LedgerExample Statistics Balance Assets OfferExchange ExchangeFacts DexStore CreateOffer DexFacts BookFacts CrossStore CrossOffer OfferFacts DexExample.

(** ** Balances *)

(** Locking part of a balance and unlocking it again gives the balance
    back, and neither changes what is held in total; locking fails exactly if
    less is available. *)
Theorem lock_then_unlock t b n : inRange b -> 0 <= n <= INT64_MAX ->
  match BF.tryLock t n b with
  | (BF.SUCCESS, b') => n <= amount b /\ funds b' = funds b /\ BF.unlock t n b' = (true, b)
  | (r, b') => amount b < n /\ r = BF.UNDERFUNDED /\ b' = b
  end.
Proof.
  intros Hb Hn. rewrite tryLock_spec by done. destruct Hb as (H1 & H2 & H3). unfold funds in *. destruct (Z.leb_spec n (amount b)); [|by split_and!].
  split; [done|]. split; [cbn; lia|]. rewrite unlock_spec by (unfold inRange, funds; cbn; lia). cbn. rewrite (proj2 (Z.leb_le _ _)) by lia.
  do 2 f_equal. destruct b; unfold BF.with_; cbn. f_equal; lia.
Qed.

(** ** Matching *)

Section Matching.
Implicit Types (a b buy sell : OfferEntry) (m : ExchangeResult).

(** C27. Matching two offers gives the largest amount of the base asset that
    both have and that the buyer can pay at the match price, paid at that
    price rounded up; each side's fee is its percentage of it, rounded up; the
    buyer pays no more than it has locked, the seller's fee leaves it
    something, and the match is the only one with these properties. *)
Theorem match_is_largest {S} a b (s : S) : tradable a -> tradable b -> spendable (buySide a b) <> None ->
  match OE.exchange a b s with
  | Ret m _ => (forall m', matches (buySide a b) (sellSide a b) m' <-> m' = m) /\
      baseDelta m <= Z.min (baseAmount (buySide a b)) (baseAmount (sellSide a b)) /\
      quoteDelta m + buyerFee m <= quoteAmount (buySide a b) + fee (buySide a b) /\ sellerFee m < quoteDelta m
  | Throw _ _ => forall m, matches (buySide a b) (sellSide a b) m -> quoteDelta m <= sellerFee m
  end.
Proof.
  intros Ha Hb Hs. destruct (exchange_spec a b s Ha Hb Hs) as (m & Hm & ->).
  assert (tradable (buySide a b)) as Tb by (unfold buySide; by destruct (isBuy a)).
  assert (tradable (sellSide a b)) as Ts by (unfold sellSide; by destruct (isBuy a)).
  destruct (matches_bounds _ _ m Tb Ts Hm) as (H1 & H2 & H3 & H4). rewrite Z.geb_leb. destruct (Z.leb_spec (quoteDelta m) (sellerFee m)).
  - intros m' Hm'. by rewrite (matches_unique _ _ m m' Hm Hm').
  - split_and!; [|lia|lia|lia]. intros m'. split; [by apply matches_unique|]. by intros ->.
Qed.

(** A match for the smallest amount of the quote asset fails if the seller
    pays any fee: the fee is rounded up to all of it, and the operation that
    ran into the offer is undone. *)
Theorem smallest_match_throws {S} a b m (s : S) : tradable a -> tradable b -> matches (buySide a b) (sellSide a b) m ->
  quoteDelta m = 1 -> 0 < percentFee (sellSide a b) ->
  OE.exchange a b s = Throw (RuntimeError "Fee to be charged can't be >= quote delta") s.
Proof.
  intros Ha Hb Hm Hq Hp. destruct (exchange_spec a b s Ha Hb) as (m' & Hm' & ->).
  { destruct (ma_largest _ _ _ Hm) as (x & -> & _). done. }
  rewrite (matches_unique _ _ m m' Hm Hm'), (ma_sellerFee _ _ _ Hm), Hq. unfold feeOn.
  pose proof (div_up_pos (1 * percentFee (sellSide a b)) (100 * ONE) ltac:(lia) ltac:(done)). rewrite Z.geb_leb, (proj2 (Z.leb_le _ _)) by lia. done.
Qed.

End Matching.

(** ** Operations *)

Section Operations.
Context {Key Entry : Type} `{Ord Key} `{EqDecision Entry}.
Context {helper : EntryHelper Key Entry LedgerHeader} {helperOk : EntryHelperOk helper} {headerOk : HeaderOk helper}.
Context {dex : DexEntries Key Entry} {dexOk : DexEntriesOk helper dex} (dp : DexParams) (max_size : nat).
Context (orderBy : (Frame OfferEntry -> Frame OfferEntry -> bool) -> list (Frame OfferEntry) -> list (Frame OfferEntry)) {sortOk : SortOk orderBy}.
Context (seq : Z) (flag : bool) (commissionID : PublicKey).
Implicit Types (s : Store Key Entry LedgerHeader) (L : Key -> option Entry) (op : OM.ManageOfferOp) (g : Frame OfferEntry).

(** C4. Creating an offer neither makes nor destroys money: from an order
    book in which every balance covers the locks of its offers, a checked
    operation of an account other than the commission account, whatever offers
    it crosses and however many, either ends in such a book with the same
    funds in every asset, or is refused, or throws an error that undoes it.
    No assertion on the way fails, and the matching ends: it needs no more
    rounds than there are rows. *)
Theorem offers_conserve_money L s source op c s0 s1 fuel closeTime : seq <> 0 -> ready seq flag L s ->
  bookInv commissionID (sRows s) (fun _ => 0) -> wideOp op -> CO.doCheckValid op s0 = Ret (true, c) s1 ->
  accountID source <> commissionID -> (S (length (sRows s)) < fuel)%nat ->
  match CO.doApply dp max_size orderBy source op commissionID fuel closeTime s with
  | Ret (true, _) s' => storeOk L s' /\ bookInv commissionID (sRows s') (fun _ => 0) /\
      forall a, sumOf (fundsOf a) (sRows s') = sumOf (fundsOf a) (sRows s)
  | Ret (false, _) _ => True
  | Throw x _ => exists msg, x = RuntimeError msg \/ x = RuntimeErrorPtr msg
  end.
Proof.
  intros Hseq Hr Hi Hwd Hop%doCheckValid_good Hsc Hf; [|done].
  pose proof (doApply_wp dp max_size orderBy seq flag Hseq commissionID source L s op fuel closeTime Hr Hi Hop Hsc Hf) as Hw.
  unfold wp in Hw. destruct (CO.doApply _ _ _ _ _ _ _ _ s) as [[[] r] s'|x s']; [|done|done].
  destruct (Hw eq_refl) as (H1 & H2 & H3 & _). split_and!; [apply H1|done|done].
Qed.

(** Deleting an offer of the book by its owner succeeds: the offer is
    gone, exactly what it had locked is available again on the owner's
    balance, no other row changes, and the book stays good with the same funds
    in every asset. *)
Theorem deleting_returns_lock L s op g : seq <> 0 -> ready seq flag L s -> bookInv commissionID (sRows s) (fun _ => 0) ->
  hasOffer (sRows s) g -> offerID (data g) = OM.opOfferID op -> orderBookID (data g) = OM.opOrderBookID op ->
  exists r f s', CO.delete_doApply dp (ownerID (data g)) op s = Ret (true, r) s' /\ storeOk L s' /\
    deleted seq flag (sRows s) g f (sRows s') /\ bookInv commissionID (sRows s') (fun _ => 0) /\
    forall a, sumOf (fundsOf a) (sRows s') = sumOf (fundsOf a) (sRows s).
Proof.
  intros Hseq Hr Hi Hg Hid Hbk. destruct (delete_doApply_ret dp seq flag Hseq commissionID L s op g Hr Hi Hg Hid Hbk) as (r & f & s' & E & Hr' & Hd).
  destruct (deleted_book seq flag commissionID (sRows s) g f (sRows s') Hi Hg ltac:(apply Hr') Hd) as (Hb & Ht & _).
  exists r, f, s'. split_and!; [done|apply Hr'|done|done|done].
Qed.

(** C39. A buy offer that is cancelled because the asset pair no longer allows
    its price leaves its owner's money locked: from a good book, whatever
    offer of another account meets it, [crossOffer] succeeds and the offer is
    gone, the quote balance of its owner has the row it had before, with all
    that the offer had locked still locked, while the locks that the book has
    on that balance are less by exactly this amount, so that no offer stands
    for it any more. *)
Theorem cancelled_buy_keeps_lock L s source tk B p : seq <> 0 -> ready seq flag L s -> takerInv commissionID source s tk ->
  crossable source s tk B -> pairOk p -> belowAllowed dp p (price (data B)) -> isBuy (data B) = true ->
  exists q s', CO.crossOffer dp p tk B s = Ret (eOfferTaken, tk) s' /\ takerInv commissionID source s' tk /\
    rowsFind (sRows s') (offerKey (offerID (data B)) (ownerID (data B))) = None /\
    balanceID (data q) = quoteBalance (data B) /\ balAccountID (data q) = ownerID (data B) /\
    hasBalance (sRows s) q /\ hasBalance (sRows s') q /\ quoteAmount (data B) + fee (data B) <= locked (data q) /\
    sumOf (lockOn (quoteBalance (data B))) (sRows s') = sumOf (lockOn (quoteBalance (data B))) (sRows s) - (quoteAmount (data B) + fee (data B)).
Proof.
  intros Hseq Hr Hi Hc Hpo Hlow Hbuy.
  destruct (crossing_cancels dp seq flag Hseq commissionID source L s tk B p Hr Hi Hc Hpo Hlow) as (b & q & s' & E & Hcr & Ho & Hq & _ & Hl).
  pose proof (os_party _ _ _ _ _ Ho) as Hp. exists q, s'. split_and!; [done|apply Hcr| | | |apply Ho|done| |].
  - by destruct (cr_result _ _ _ _ _ _ _ _ _ _ _ Hcr) as [[]|].
  - apply Hp.
  - destruct (oo_quote _ _ _ (bi_offer _ _ _ (ti_book _ _ _ _ Hi) B (proj2 (book_hasOffer s tk B) (cx_offer _ _ _ _ Hc)))) as (q' & Hq' & Hid & <- & _).
    by rewrite (hasBalance_inj _ _ _ (pa_quote _ _ _ _ Hp) Hq' ltac:(by rewrite Hid, (pa_quoteID _ _ _ _ Hp))).
  - pose proof (pa_lock _ _ _ _ Hp) as Hk. unfold lockOf in Hk. by rewrite Hbuy in Hk.
  - rewrite Hl. unfold offerLock, OF.getLockedBalance, lockOf. rewrite Hbuy. by rewrite bool_decide_eq_true_2.
Qed.

End Operations.

(** ** An offer below the allowed price *)

Definition dRestrictedPair : AssetPairEntry :=
  {| pairBase := GLD; pairQuote := USD; pairCurrentPrice := ONE; physicalPrice := 1500000;
     physicalPriceCorrection := 100 * ONE; maxPriceStep := 0; pairPolicies := 3 |}.

(** Account 2 has 10 of the base asset; pairs are not traded below the
    physical price of 1.5, and account 3 still has its offer to buy at 1. *)
Definition dRestricted : list DEntry :=
  map (fun e => match e with
    | DPair p => DPair (withData p dRestrictedPair)
    | DBalance f => if bool_decide (balanceID (data f) = [21]) then DBalance (withData f (BF.setAmount (data f) (10 * ONE))) else e
    | _ => e
    end) dRows ++ [dBalance 92 9 USD 0 0].

Definition dRestrictedStore : Store (list Z) DEntry LedgerHeader :=
  {| sRows := dRestricted; sCache := []; sDelta := LD.newDelta (xHeader 2 20 []) true |}.

(** The whole operation that meets the offer: it succeeds and removes it, and
    the 4.04 of the quote asset stay locked although the book has no lock on
    the balance. *)
Example cancelled_buy_run : bookb dRestricted = true /\ hasOffer dRestricted dBuy /\
  match CO.doApply dParams 100 isort (xAccount 2) (dOp false ONE ONE 10000) dCommission 20 20 dRestrictedStore with
  | Ret (ok, _) s' => ok = true /\ rowsFind (sRows s') (dOfferKey 3 [3]) = None /\
      dBalanceOf (sRows s') 32 = Some (0, 4040000) /\ sumOf (lockOn [32]) (sRows s') = 0
  | Throw _ _ => False
  end.
Proof. vm_compute. done. Qed.

(** ** Witnesses *)

Lemma lock_then_unlock_witness :
  let b := {| balanceID := [1]; balAccountID := [1]; balAsset := GLD; amount := 10; locked := 5 |} in
  snd (BF.tryLock Signed64 4 b) <> b /\
  match BF.tryLock Signed64 4 b with
  | (BF.SUCCESS, b') => 4 <= amount b /\ funds b' = funds b /\ BF.unlock Signed64 4 b' = (true, b)
  | (r, b') => amount b < 4 /\ r = BF.UNDERFUNDED /\ b' = b
  end.
Proof. split; [done|]. apply (lock_then_unlock Signed64); unfold inRange, funds, INT64_MAX; cbn; lia. Defined.

Definition dTaker : OfferEntry := data (dOfferFrame 0 2 true 21 22 (12 * ONE) (36 * ONE) ONE ONE (3 * ONE)).

Lemma match_is_largest_witness :
  tradable dTaker /\
  match OE.exchange dTaker (data dSell1) tt with
  | Ret m _ => (forall m', matches dTaker (data dSell1) m' <-> m' = m) /\ baseDelta m <= 10 * ONE /\
      quoteDelta m + buyerFee m <= 37 * ONE /\ sellerFee m < quoteDelta m
  | Throw _ _ => False
  end.
Proof.
  assert (tradable dTaker) as T by (by apply tradableb_ok). split; [done|].
  exact (match_is_largest dTaker (data dSell1) tt T ltac:(by apply tradableb_ok) ltac:(done)).
Defined.

(** A sale of a millionth at the price 1. *)
Definition dTiny : OfferEntry := data (dOfferFrame 5 1 false 11 12 1 1 0 ONE ONE).
Definition dTinyBuy : OfferEntry := data (dOfferFrame 6 2 true 21 22 ONE ONE ONE ONE ONE).
Definition dTinyMatch : ExchangeResult :=
  {| baseDelta := 1; quoteDelta := 1; buyerFee := 1; sellerFee := 1; matchPrice := ONE; type := NORMAL |}.

Lemma smallest_match_throws_witness :
  OE.exchange dTinyBuy dTiny tt = Throw (RuntimeError "Fee to be charged can't be >= quote delta") tt.
Proof.
  apply (smallest_match_throws dTinyBuy dTiny dTinyMatch tt); try done; try (by apply tradableb_ok).
  split; try done. exists ONE. split; [done|]. split_and!; [done|done|done|]. intros b Hb _. exact Hb.
Defined.

Lemma offers_conserve_money_witness :
  fst <$> (match dApply (dOp true (12 * ONE) (3 * ONE) ONE) with Ret (ok, r) s' => Some (ok, s') | Throw _ _ => None end) = Some true /\
  match dApply (dOp true (12 * ONE) (3 * ONE) ONE) with
  | Ret (true, _) s' => storeOk (rowsFind dRows) s' /\ bookInv dCommission (sRows s') (fun _ => 0) /\
      forall a, sumOf (fundsOf a) (sRows s') = sumOf (fundsOf a) dRows
  | Ret (false, _) _ => True
  | Throw x _ => exists msg, x = RuntimeError msg \/ x = RuntimeErrorPtr msg
  end.
Proof.
  split; [vm_compute; reflexivity|].
  apply (offers_conserve_money dParams 100 isort 2 true dCommission (rowsFind dRows) dStore (xAccount 2) _ OFFER_SUCCESS dStore dStore 20 20);
    [done|exact dStore_ready|exact dBook|done|done|done|cbn; lia].
Defined.

(** Account 2 offers 1 of its base asset at the price 0.01. *)
Definition dSeller : Taker :=
  {| offerA := data (dOfferFrame 0 2 false 21 22 ONE 10000 0 ONE 10000);
     baseBalanceA := {| lastModified := 1; data := {| balanceID := [21]; balAccountID := [2]; balAsset := GLD; amount := 9 * ONE; locked := ONE |} |};
     quoteBalanceA := {| lastModified := 1; data := {| balanceID := [22]; balAccountID := [2]; balAsset := USD; amount := 100 * ONE; locked := 0 |} |};
     mCommissionBalance := {| lastModified := 1; data := {| balanceID := [92]; balAccountID := dCommission; balAsset := USD; amount := 0; locked := 0 |} |};
     mOfferTrail := []; mFeePaidByA := 0; takerCode := OFFER_SUCCESS |}.

Lemma dSeller_inv : takerInv dCommission [2] dRestrictedStore dSeller.
Proof.
  split; try done.
  - apply bookb_extra; vm_compute; reflexivity.
  - repeat constructor; vm_compute; by eexists.
  - apply (bool_decide_unpack (NoDup _)). vm_compute. done.
Qed.

Lemma dRestricted_ready : ready 2 true (rowsFind dRestricted) dRestrictedStore.
Proof.
  split; [|done|done]. split; [apply deltaOk_new|apply dSeller_inv|done| |done].
  intros k v Hf. discriminate Hf.
Qed.

Lemma cancelled_buy_keeps_lock_witness :
  exists q s', CO.crossOffer dParams dRestrictedPair dSeller dBuy dRestrictedStore = Ret (eOfferTaken, dSeller) s' /\
    takerInv dCommission [2] s' dSeller /\
    rowsFind (sRows s') (dOfferKey 3 [3]) = None /\ balanceID (data q) = [32] /\ balAccountID (data q) = [3] /\
    hasBalance dRestricted q /\ hasBalance (sRows s') q /\ quoteAmount (data dBuy) + fee (data dBuy) <= locked (data q) /\
    sumOf (lockOn [32]) (sRows s') = sumOf (lockOn [32]) dRestricted - (quoteAmount (data dBuy) + fee (data dBuy)).
Proof.
  destruct (cancelled_buy_keeps_lock dParams 2 true dCommission (rowsFind dRestricted) dRestrictedStore [2] dSeller dBuy dRestrictedPair)
    as (q & s' & E & H1 & H2 & H3 & H4 & H5 & H6 & H7 & H8);
    [done|exact dRestricted_ready|exact dSeller_inv|by split|by split_and!|by split_and!|done|].
  exists q, s'. split_and!; [exact E|exact H1|exact H2|exact H3|exact H4|exact H5|exact H6|exact H7|exact H8].
Defined.

Lemma deleting_returns_lock_witness :
  exists r f s', CO.delete_doApply dParams [1] (OM.buildManageOfferOp [11] [12] false 0 0 0 2 0) dStore = Ret (true, r) s' /\
    storeOk (rowsFind dRows) s' /\ deleted 2 true dRows dSell2 f (sRows s') /\ bookInv dCommission (sRows s') (fun _ => 0) /\
    forall a, sumOf (fundsOf a) (sRows s') = sumOf (fundsOf a) dRows.
Proof. apply (deleting_returns_lock dParams 2 true dCommission (rowsFind dRows) dStore _ dSell2); try done; [exact dStore_ready|exact dBook]. Defined.
