(* ===== verification/SupplyTheorems.v ===== *)
(** * Theorems on withdrawals, issuance and the money supply *)

From S2P Require Import Prelude OrdContainers BigMath LedgerDelta LedgerDeltaFacts EntryStore EntryStoreFacts Signatures LedgerHeader TxSet LedgerExample Statistics Balance Assets OfferExchange ExchangeFacts DexStore AccountManager Requests CreateOffer Manage DexFacts BookFacts CrossStore CrossOffer OfferFacts Supply Withdrawals ManageFacts MoneyOps DexExample.

Section SupplyTheorems.
Context {Key Entry : Type} `{Ord Key} `{EqDecision Entry}.
Context {helper : EntryHelper Key Entry LedgerHeader} {helperOk : EntryHelperOk helper} {headerOk : HeaderOk helper}.
Context {dex : DexEntries Key Entry} {dexOk : DexEntriesOk helper dex} (dp : DexParams) (mp : MoneyParams) (max_size : nat).
Context (orderBy : (Frame OfferEntry -> Frame OfferEntry -> bool) -> list (Frame OfferEntry) -> list (Frame OfferEntry)) {sortOk : SortOk orderBy}.
Context (seq : Z) (flag : bool) (commissionID : PublicKey) (closeTime : Z) (otherHelper : Z -> RR.ReviewHandlers (Key := Key) (Entry := Entry)).
Local Abbreviation St := (Store Key Entry LedgerHeader).
Local Abbreviation makeHelper := (RR.makeHelper dp mp max_size commissionID closeTime otherHelper).
Local Abbreviation supplyInv := (supplyInv commissionID).
Implicit Types (s : St) (L : Key -> option Entry) (source : AccountEntry) (op : ReviewRequestOp) (r : Frame ReviewableRequestEntry).

(** ** The operations on money, as steps *)

Inductive MoneyOp :=
| OpOffer source (op : OM.ManageOfferOp)
| OpDelete (w : PublicKey) (op : OM.ManageOfferOp)
| OpWithdrawal source (q : WithdrawalRequest)
| OpReview (w : PublicKey) (op : ReviewRequestOp)
| OpIssuance source (feeRequired : bool) (q : IssuanceRequest) (ref : list Z)
| OpPreIssuance source (q : PreIssuanceRequest)
| OpBalance (op : ManageBalanceOp)
| OpPair (op : ManageAssetPairOp)
| OpCreateAsset source (id : Z) (q : AssetCreationRequest)
| OpUpdateAsset source (id : Z) (q : AssetUpdateRequest)
| OpCancelAsset source (id : Z).

(** One operation that succeeds; its fields have the width of their types. *)
Inductive moneyStep : MoneyOp -> St -> St -> Prop :=
| step_offer s s' source (op : OM.ManageOfferOp) c s0 s1 fuel res :
    wideOp op -> CO.doCheckValid op s0 = Ret (true, c) s1 -> accountID source <> commissionID -> (S (length (sRows s)) < fuel)%nat ->
    CO.doApply dp max_size orderBy source op commissionID fuel closeTime s = Ret (true, res) s' -> moneyStep (OpOffer source op) s s'
| step_delete s s' w (op : OM.ManageOfferOp) res : CO.delete_doApply dp w op s = Ret (true, res) s' -> moneyStep (OpDelete w op) s s'
| step_withdrawal s s' source q id : wideWithdrawal q -> WR.doApply dp mp max_size closeTime source q s = Ret (inr id) s' ->
    moneyStep (OpWithdrawal source q) s s'
| step_review s s' w op c : modelled (rrDetails op) -> RR.doApply max_size (makeHelper (rrDetails op)) w op s = Ret (true, c) s' ->
    moneyStep (OpReview w op) s s'
| step_issuance s s' source feeRequired q ref ok : is_u64 (iAmount q) ->
    IR.doApply dp mp max_size commissionID closeTime source otherHelper feeRequired q ref s = Ret (inr ok) s' ->
    moneyStep (OpIssuance source feeRequired q ref) s s'
| step_preIssuance s s' source q ok : PR.doApply dp mp max_size commissionID closeTime source otherHelper q s = Ret (inr ok) s' ->
    moneyStep (OpPreIssuance source q) s s'
| step_balance s s' (op : ManageBalanceOp) id : MB.doApply dp max_size op s = Ret (inr id) s' -> moneyStep (OpBalance op) s s'
| step_pair s s' (op : ManageAssetPairOp) n : widePair op -> MP.doApply dp max_size commissionID op s = Ret (inr n) s' -> moneyStep (OpPair op) s s'
| step_createAsset s s' source id q ok : is_u64 (acMaxIssuanceAmount q) -> is_u64 (acInitialPreissuedAmount q) ->
    MA.create_doApply dp mp max_size commissionID closeTime source otherHelper id q s = Ret (inr ok) s' -> moneyStep (OpCreateAsset source id q) s s'
| step_updateAsset s s' source id q ok : MA.update_doApply dp mp max_size commissionID closeTime source otherHelper id q s = Ret (inr ok) s' ->
    moneyStep (OpUpdateAsset source id q) s s'
| step_cancelAsset s s' source id n : MA.cancel_doApply max_size source id s = Ret (inr n) s' -> moneyStep (OpCancelAsset source id) s s'.

(** Operations one after another. *)
Inductive moneySteps : list MoneyOp -> St -> St -> Prop :=
| steps_nil s : moneySteps [] s s
| steps_cons o ops s s1 s' : moneyStep o s s1 -> moneySteps ops s1 s' -> moneySteps (o :: ops) s s'.

(** The maximum of an asset that is to be created fits in 63 bits; the code
    takes any maximum of 64 bits. *)
Definition fits63 (o : MoneyOp) : Prop :=
  match o with OpCreateAsset _ _ q => acMaxIssuanceAmount q <= INT64_MAX | _ => True end.

Lemma moneyStep_ok L o s s' : seq <> 0 -> ready seq flag L s -> supplyInv (sRows s) nothing nothing -> moneyStep o s s' -> fits63 o ->
  ready seq flag L s' /\ supplyInv (sRows s') nothing nothing.
Proof.
  intros Hseq Hr Hi Hst. revert Hr Hi. destruct Hst as [s s' source op c s0 s1 fuel res Hw Hc Hs Hf E|s s' w op res E|s s' source q id Hq E|s s' w op c Hm E
    |s s' source fr q ref ok Hq E|s s' source q ok E|s s' op id E|s s' op n Hw E|s s' source id q ok Hmax Hini E
    |s s' source id q ok E|s s' source id n E]; intros Hr Hi Hfit.
  - pose proof (doApply_wp dp max_size orderBy seq flag Hseq commissionID source L s op fuel closeTime Hr (si_book _ _ _ _ Hi) (doCheckValid_good _ _ _ _ Hw Hc) Hs Hf) as W.
    unfold wp in W. rewrite E in W. destruct (W eq_refl) as (H1 & H2 & H3). split; [done|]. by apply (supplyInv_offers commissionID (sRows s)).
  - pose proof (delete_doApply_wp dp seq flag Hseq commissionID L s w op Hr (si_book _ _ _ _ Hi)) as W.
    unfold wp in W. rewrite E in W. destruct W as [H1 (g & f & Hg & _ & _ & Hd)]. split; [done|].
    destruct (deleted_book seq flag commissionID (sRows s) g f (sRows s') (si_book _ _ _ _ Hi) Hg ltac:(apply H1) Hd) as [Hb Ht].
    by apply (supplyInv_offers commissionID (sRows s)).
  - pose proof (ask_wp dp mp max_size seq flag Hseq commissionID closeTime source L s q Hr Hi Hq) as W. unfold wp in W. rewrite E in W. split; apply W.
  - pose proof (review_wp dp mp max_size seq flag Hseq commissionID closeTime otherHelper L s op w Hr Hi Hm) as W. unfold wp in W. rewrite E in W.
    destruct W as (H1 & _ & H2). split; [done|]. by apply H2.
  - pose proof (askIssuance_wp dp mp max_size seq flag Hseq commissionID closeTime otherHelper source L s fr q ref Hr Hi Hq) as W. unfold wp in W. rewrite E in W. split; apply W.
  - pose proof (askPreIssuance_wp dp mp max_size seq flag Hseq commissionID closeTime otherHelper source L s q Hr Hi) as W. unfold wp in W. by rewrite E in W.
  - pose proof (manageBalance_wp dp max_size seq flag Hseq commissionID L s op Hr Hi) as W. unfold wp in W. by rewrite E in W.
  - pose proof (managePair_wp dp max_size seq flag Hseq commissionID L s op Hr Hi Hw) as W. unfold wp in W. by rewrite E in W.
  - pose proof (createAsset_wp dp mp max_size seq flag Hseq commissionID closeTime otherHelper source L s id q Hr Hi ltac:(split; [apply Hmax|exact Hfit]) Hini) as W. unfold wp in W. by rewrite E in W.
  - pose proof (updateAsset_wp dp mp max_size seq flag Hseq commissionID closeTime otherHelper source L s id q Hr Hi) as W. unfold wp in W. by rewrite E in W.
  - pose proof (cancelAsset_wp max_size seq flag commissionID source L s id Hr Hi) as W. unfold wp in W. by rewrite E in W.
Qed.

Lemma moneySteps_ok L ops s s' : seq <> 0 -> ready seq flag L s -> supplyInv (sRows s) nothing nothing -> moneySteps ops s s' -> Forall fits63 ops ->
  ready seq flag L s' /\ supplyInv (sRows s') nothing nothing.
Proof.
  intros Hseq Hr Hi Hs. induction Hs as [s|o ops s s1 s' H1 _ IH]; [done|]. intros [Ho Hf]%Forall_cons.
  destruct (moneyStep_ok L o s s1 Hseq Hr Hi H1 Ho). by apply IH.
Qed.

(** C3. The money supply is what the assets say: after any sequence of
    successful operations on money (offers created, crossed and deleted,
    withdrawals asked for, issuances and pre-issuances, assets created, updated
    and cancelled, reviews that approve or reject these requests, balances
    opened, pairs created, repriced or taken off the market), the funds of all balances in an
    asset add up to what the asset records as issued, which with what is
    pending stays within the asset's maximum and within 63 bits; nobody holds an
    asset that there is no entry of; and every balance still covers the locks
    of its offers and of its withdrawal requests.  Assumed is that no operation
    creates an asset with a maximum above 2^63 - 1 ([fits63]): the code does
    not check this, and beyond it the sums of this book need not fit. *)
Theorem money_is_issued L ops s s' : seq <> 0 -> ready seq flag L s -> supplyInv (sRows s) nothing nothing ->
  moneySteps ops s s' -> Forall fits63 ops ->
  storeOk L s' /\ supplyInv (sRows s') nothing nothing /\
  (forall f : Frame AssetEntry, hasAsset (sRows s') f -> sumOf (fundsOf (assetCode (data f))) (sRows s') = issued (data f) /\
    0 <= issued (data f) /\ issued (data f) + pendingIssuance (data f) <= maxIssuanceAmount (data f) <= INT64_MAX) /\
  (forall a, rowsFind (sRows s') (assetKey a) = None -> sumOf (fundsOf a) (sRows s') = 0) /\
  (forall f : Frame BalanceEntry, hasBalance (sRows s') f -> 0 <= amount (data f) /\ sumOf (lockOn (balanceID (data f))) (sRows s') <= locked (data f)).
Proof.
  intros Hseq Hr Hi Hs Hfit. destruct (moneySteps_ok L ops s s' Hseq Hr Hi Hs Hfit) as [Hr' Hi']. split; [apply Hr'|]. split; [done|].
  assert (distinctRows (sRows s')) as Hd by apply (si_book _ _ _ _ Hi'). pose proof (si_supply _ _ _ _ Hi') as Hsum. unfold nothing in Hsum. split_and!.
  - intros f Hf. specialize (Hsum (assetCode (data f))). rewrite (issued_of _ f Hd Hf) in Hsum. destruct (si_asset _ _ _ _ Hi' f Hf). split_and!; lia.
  - intros a Ha. specialize (Hsum a). rewrite issued_sum, Ha in Hsum by done. cbn in Hsum. lia.
  - intros f Hf. destruct (bi_balance _ _ _ (si_book _ _ _ _ Hi') f Hf) as (H1 & _ & _ & H2). unfold nothing in H2. split; [done|lia].
Qed.

(** ** Withdrawals *)

(** C25. A withdrawal that is accepted is of the owner's balance and locks its
    amount and both parts of its fee, which were available; a new request of
    the owner is made with it, only statistics change besides, and if they do
    they are within the limits of the account. *)
Theorem withdrawal_locks L s source q id s' : seq <> 0 -> ready seq flag L s -> supplyInv (sRows s) nothing nothing -> wideWithdrawal q ->
  WR.doApply dp mp max_size closeTime source q s = Ret (inr id) s' ->
  exists f r, asked seq flag closeTime source (sRows s) q id f r (sRows s').
Proof.
  intros Hseq Hr Hi Hq E. pose proof (ask_wp dp mp max_size seq flag Hseq commissionID closeTime source L s q Hr Hi Hq) as W. unfold wp in W. rewrite E in W. apply W.
Qed.

(** C22. Asking for a withdrawal and having it rejected for good gives the
    balance back as it was, and leaves every other row as it was but for
    statistics; there is no request any more. *)
Theorem rejected_withdrawal_returns L s source q id s1 op (w : PublicKey) c s2 : seq <> 0 -> ready seq flag L s -> supplyInv (sRows s) nothing nothing -> wideWithdrawal q ->
  WR.doApply dp mp max_size closeTime source q s = Ret (inr id) s1 ->
  modelled (rrDetails op) -> rrAction op = PERMANENT_REJECT -> rrRequestID op = id ->
  RR.doApply max_size (makeHelper (rrDetails op)) w op s1 = Ret (true, c) s2 ->
  exists f, hasBalance (sRows s) f /\ balanceID (data f) = wBalance q /\ balAccountID (data f) = accountID source /\
    rowsFind (sRows s2) (balanceKey (wBalance q)) = Some (toEntry (stamp seq flag f)) /\
    rowsFind (sRows s2) (requestKey id) = None /\
    forall k, k <> balanceKey (wBalance q) -> keyKind k <> KIND_STATISTICS -> rowsFind (sRows s2) k = rowsFind (sRows s) k.
Proof.
  intros Hseq Hr Hi Hq E1 Hm Ha Hid E2. pose proof (ask_wp dp mp max_size seq flag Hseq commissionID closeTime source L s q Hr Hi Hq) as W. unfold wp in W. rewrite E1 in W.
  destruct W as (Hr1 & Hi1 & f & r & A). destruct (as_body _ _ _ _ _ _ _ _ _ _ A) as [u Hb].
  assert (withdrawalOf (requestBody (data r)) = Some (WR.withUniversal q u)) as Hw by (by destruct Hb as [-> | ->]).
  pose proof (reviewReject_wp dp mp max_size seq flag Hseq commissionID closeTime otherHelper L s1 op w r (WR.withUniversal q u) Hr1 Hi1 Hm Ha (as_request _ _ _ _ _ _ _ _ _ _ A)) as W.
  rewrite (as_id _ _ _ _ _ _ _ _ _ _ A) in W. specialize (W (eq_sym Hid) Hw). unfold wp in W. rewrite E2 in W. destruct (W eq_refl) as [f1 [B1 B2 B3 B4 B5 B6]].
  destruct A as [A1 A2 A3 A4 A5 A6 A7 A8 A9 A10 A11 A12 A13]. change (wBalance (WR.withUniversal q u)) with (wBalance q) in *. rewrite A7 in B5, B6.
  change (withdrawLock (WR.withUniversal q u)) with (withdrawLock q) in *.
  assert (f1 = stamp seq flag (moved f (- withdrawLock q) (withdrawLock q))) as ->.
  { unfold hasBalance in B1. rewrite B2, A11 in B1. injection B1 as E. symmetry. exact (toEntry_inj _ _ _ E). }
  exists f. split_and!; try done.
  - rewrite B4. do 2 f_equal. clear. destruct f as [m [i w a am l]], flag; unfold stamp, moved, withData, BF.with_; cbn; do 2 f_equal; lia.
  - intros k Hk Hks. destruct (eqvb k (requestKey id)) eqn:Ek; [apply eqvb_eq in Ek as ->; by rewrite B5, A5|].
    assert (k <> requestKey id) by (intros ->; by rewrite eqvb_refl in Ek). by rewrite B6, A12.
Qed.

(** C23. The approval of a withdrawal cannot fail if there are an asset and,
    for a fee, a balance of the commission account: the request is removed,
    what it locked is taken from the locked part of the balance, and what is
    issued of the asset shrinks by exactly the amount. *)
Theorem approval_pays L s op r q dt asset : seq <> 0 -> ready seq flag L s -> supplyInv (sRows s) nothing nothing -> hasRequest (sRows s) r ->
  requestBody (data r) = WITHDRAW q -> ownBalance (sRows s) (wBalance q) (requestor (data r)) asset -> payable commissionID (sRows s) q asset ->
  exists f a s', RR.handleApprove (makeHelper (WITHDRAWAL_DETAILS dt)) op r s = Ret (true, REVIEW_SUCCESS) s' /\
    storeOk L s' /\ supplyInv (sRows s') nothing nothing /\ approved seq flag commissionID (sRows s) q r f a (sRows s').
Proof.
  intros Hseq Hr Hi Hrq Hb Ho Hp. pose proof (approve_wp dp max_size seq flag Hseq commissionID L s op r q Hr Hi Hrq Hb) as W. unfold wp in W. cbn [RR.makeHelper RR.handleApprove].
  destruct (RR.withdraw_handleApprove _ _ _ _ _ s) as [res s'|]; [|by destruct (W asset)]. destruct W as (-> & H1 & H2 & f & a & H3).
  exists f, a, s'. split_and!; try done. apply H1.
Qed.

(** ** Issuance *)

Lemma rewrote_kind (R R' : list Entry) k v k' : rewrote R k v R' -> keyKind k <> keyKind k' -> rowsFind R' k' = rowsFind R k'.
Proof. intros Hw Hk. apply (rewrote_other _ _ _ _ _ Hw). by intros ->. Qed.

(** C24. Only the owner of an asset issues it: a successful issuance either is
    fulfilled, and the receiver has the amount less the fee, the fee being
    smaller, the asset counts the amount as issued and as no longer available,
    and no request is left; or it only adds the request. *)
Theorem issuance_funds L s source feeRequired q ref ok s' : seq <> 0 -> ready seq flag L s -> supplyInv (sRows s) nothing nothing -> is_u64 (iAmount q) ->
  IR.doApply dp mp max_size commissionID closeTime source otherHelper feeRequired q ref s = Ret (inr ok) s' ->
  let total := fixed (IR.paidFee ok) + percent (IR.paidFee ok) in
  exists a : Frame AssetEntry, hasAsset (sRows s) a /\ assetCode (data a) = iAsset q /\ assetOwner (data a) = accountID source /\
    if IR.fulfilled ok then
      total < iAmount q /\ rowsFind (sRows s') (requestKey (IR.requestID_ ok)) = None /\
      (exists f, hasBalance (sRows s) f /\ balanceID (data f) = iReceiver q /\ balAsset (data f) = iAsset q /\
        rowsFind (sRows s') (balanceKey (iReceiver q)) = Some (toEntry (stamp seq flag (moved f (iAmount q - total) 0)))) /\
      exists a', hasAsset (sRows s') a' /\ data a' = issuedAsset (data a) (iAmount q)
    else exists r, requestBody (data r) = ISSUANCE_CREATE (IR.withFee q (IR.paidFee ok)) /\
      rewrote (sRows s) (requestKey (IR.requestID_ ok)) (Some (toEntry r)) (sRows s').
Proof.
  intros Hseq Hr Hi Hq E total. pose proof (askIssuance_wp dp mp max_size seq flag Hseq commissionID closeTime otherHelper source L s feeRequired q ref Hr Hi Hq) as W.
  unfold wp in W. rewrite E in W. destruct W as (_ & _ & r & R1 & Hid & Hb & (a & Ha & Hac & How) & Hw & Hres). exists a. split_and!; try done.
  rewrite Hid in Hw. destruct (IR.fulfilled ok); [|by exists (stamp seq flag r); rewrite Hres].
  destruct Hres as (f & a2 & [B1 B2 B3 [B4 B5] B6 B7 B8 B9]). cbn in *. rewrite Hid in B9.
  assert (hasAsset (sRows s) a2) as Ha2 by (unfold hasAsset in *; rewrite <- (rewrote_kind _ _ _ _ _ Hw); [done|by rewrite kind_request, kind_asset]).
  assert (a2 = a) as ->.
  { unfold hasAsset in Ha, Ha2. rewrite B4, <- Hac, Ha in Ha2. injection Ha2 as Ee. symmetry. exact (toEntry_inj _ _ _ Ee). }
  split_and!; try done. exists f. split_and!; try done. unfold hasBalance in *. rewrite <- (rewrote_kind _ _ _ _ _ Hw); [done|by rewrite kind_request, kind_balance].
Qed.

(** ** Pairs *)

(** C26. Taking a pair off the secondary market never fails: the pair has the
    new policies, its offers of that market are gone and no other offer is,
    and every balance gets back exactly what its offers had locked; the money
    supply is as it was. *)
Theorem delisting_returns_locks L s (op : ManageAssetPairOp) (p : Frame AssetPairEntry) : seq <> 0 -> ready seq flag L s -> supplyInv (sRows s) nothing nothing ->
  hasPair (sRows s) p -> pairBase (data p) = mpBase op -> pairQuote (data p) = mpQuote op -> mpAction op = UPDATE_POLICIES -> MP.doCheckValid op = None -> widePair op ->
  Z.land (mpPolicies op) (TRADEABLE_SECONDARY_MARKET dp) <> TRADEABLE_SECONDARY_MARKET dp ->
  exists s', MP.doApply dp max_size commissionID op s = Ret (inr (pairCurrentPrice (data p))) s' /\ storeOk L s' /\ supplyInv (sRows s') nothing nothing /\
    delisted (sRows s) (stamp seq flag (withData p (MP.setPolicies (data p) op))) (sRows s').
Proof.
  intros Hseq Hr Hi Hp Eb Eq Ea Hcv Hw Hno.
  destruct (delist_ret dp max_size seq flag Hseq commissionID L s op p Hr Hi Hp Eb Eq Ea Hcv Hw) as (s' & E & H1 & H2 & H3); [by apply Z.eqb_neq|].
  exists s'. split_and!; try done. apply H1.
Qed.

End SupplyTheorems.

(** ** A ledger for the witnesses *)

(** The dollar can be withdrawn, gold is the asset of the statistics, the
    commission account owns both assets, and a withdrawal costs one percent;
    account 2 may spend 50 a day. *)
Definition mParams : MoneyParams := {|
  STATS_QUOTE_ASSET := 1; WITHDRAWABLE := 2; TWO_STEP_POLICY := 4; WITHDRAWAL_FEE := 2; ISSUANCE_FEE := 3; REQUEST_TYPE := 9;
  withdrawalDetailsMaxLength := 10; issuanceDetailsMaxLength := 10; masterID := [8];
  BASE_ASSET := 16; assetPolicyFlags := [1; 2; 4; 8; 16]; systemAccounts := [[8]; [9]];
  signatureData := fun r n a => r ++ n :: a; verifySig := fun h k sig => bool_decide (sig = k ++ h) |}.

Definition mOwner : AccountEntry :=
  {| accountID := [9]; recoveryID := [109]; accountType := COMMISSION; masterWeight := 1; lowThreshold := 1; mediumThreshold := 1; highThreshold := 1;
     blockReasons := 0; signers := [] |}.

Definition mFee (t : Z) : DEntry :=
  DFee {| feeType := t; feeAsset := USD; fixedFee := 0; entryPercentFee := ONE; feeSubtype := 0; lowerBound := 0; upperBound := INT64_MAX;
          feeHash := calcHash dParams t USD None None 0 |} 1.

Definition mRows : list DEntry :=
  [DAccount (xAccount 1) 1; DAccount (xAccount 2) 1; DAccount (xAccount 3) 1; DAccount mOwner 1;
   dAsset GLD (15 * ONE) 1; dAsset USD 104040000 2; DPair dPair; mFee 1; mFee 2; mFee 3;
   DStat {| lastModified := 1; data := {| statAccountID := [2]; dailyOutcome := 0; weeklyOutcome := 0; monthlyOutcome := 0; annualOutcome := 0; updatedAt := 10 |} |};
   DLimits [2] {| dailyOut := 50 * ONE; weeklyOut := 50 * ONE; monthlyOut := 50 * ONE; annualOut := 50 * ONE |} 1;
   dBalance 11 1 GLD 0 (15 * ONE); dBalance 12 1 USD 0 0; dBalance 21 2 GLD 0 0; dBalance 22 2 USD (100 * ONE) 0;
   dBalance 31 3 GLD 0 0; dBalance 32 3 USD 0 (4040000); dBalance 91 9 USD 0 0;
   DOffer dSell1; DOffer dSell2; DOffer dBuy].

(** An operation of ledger 2 that starts from the rows [R]. *)
Definition mStart (R : list DEntry) : Store (list Z) DEntry LedgerHeader := {| sRows := R; sCache := []; sDelta := LD.newDelta (xHeader 2 20 []) true |}.

Definition mStore := mStart mRows.

Definition mOther (n : Z) : RR.ReviewHandlers (Key := list Z) (Entry := DEntry) :=
  {| RR.handleApprove := fun _ _ => throw Aborted; RR.handleReject := fun _ _ => throw Aborted; RR.handlePermanentReject := fun _ _ => throw Aborted;
     RR.doCheckValid := fun _ => None |}.

Definition stateOf {S A} (r : outcome S A) : S := match r with Ret _ s => s | Throw _ s => s end.

(** Account 2 takes 10 dollars out. *)
Definition mWithdrawal : WithdrawalRequest :=
  {| wBalance := [22]; wAmount := 10 * ONE; wUniversalAmount := 0; wFee := {| fixed := 0; percent := 100000 |}; wExternalDetails := [];
     wDetails := AUTO_CONVERSION USD (10 * ONE); wPreConfirmationDetails := [] |}.

Definition mReview (a : ReviewRequestOpAction) : ReviewRequestOp :=
  {| rrRequestID := 1; rrRequestHash := [2; 10 * ONE]; rrDetails := WITHDRAWAL_DETAILS []; rrAction := a; rrReason := [] |}.

(** The owner issues 20 dollars to account 2, and asks for more to issue. *)
Definition mIssuance : IssuanceRequest :=
  {| iAsset := USD; iAmount := 20 * ONE; iReceiver := [22]; iExternalDetails := []; iFee := {| fixed := 0; percent := 0 |} |}.

Definition mPreIssuance : PreIssuanceRequest :=
  {| pAsset := USD; pAmount := 500 * ONE; pSignature := {| hint := [9]; signature := [9] ++ [1] ++ (500 * ONE) :: USD |}; pReference := [1] |}.

Definition mOffer (s : Store (list Z) DEntry LedgerHeader) := CO.doApply dParams 100 isort (xAccount 2) (dOp true (12 * ONE) (3 * ONE) ONE) dCommission 40 20 s.
Definition mAsk (s : Store (list Z) DEntry LedgerHeader) := WR.doApply dParams mParams 100 20 (xAccount 2) mWithdrawal s.
Definition mDecide (a : ReviewRequestOpAction) (s : Store (list Z) DEntry LedgerHeader) :=
  RR.doApply 100 (RR.makeHelper dParams mParams 100 dCommission 20 mOther (rrDetails (mReview a))) [9] (mReview a) s.
Definition mIssue (s : Store (list Z) DEntry LedgerHeader) := IR.doApply dParams mParams 100 dCommission 20 mOwner mOther true mIssuance [7] s.
Definition mPreIssue (s : Store (list Z) DEntry LedgerHeader) := PR.doApply dParams mParams 100 dCommission 20 mOwner mOther mPreIssuance s.

(** Account 2 asks for an asset, which the master account approves, opens one
    more balance in it, asks for other policies, and cancels that; the pair of
    gold and dollars is taken off the market. *)
Definition EUR : AssetCode := [69; 85; 82].

Definition mCreation : AssetCreationRequest :=
  {| acCode := EUR; acPreissuedAssetSigner := [2]; acDetails := []; acMaxIssuanceAmount := 1000 * ONE; acInitialPreissuedAmount := 10 * ONE; acPolicies := 16 |}.

Definition mApproval : ReviewRequestOp :=
  {| rrRequestID := 4; rrRequestHash := calculateHash dRequests (ASSET_CREATE mCreation); rrDetails := ASSET_CREATE_DETAILS; rrAction := APPROVE; rrReason := [] |}.

Definition mOpening : ManageBalanceOp := {| mbAction := CREATE_BALANCE; mbDestination := [2]; mbAsset := EUR |}.

Definition mUpdate : AssetUpdateRequest := {| auCode := EUR; auDetails := []; auPolicies := 2 |}.

Definition mDelisting : ManageAssetPairOp :=
  {| mpAction := UPDATE_POLICIES; mpBase := GLD; mpQuote := USD; mpPhysicalPrice := 0; mpPhysicalPriceCorrection := 100 * ONE; mpMaxPriceStep := 0; mpPolicies := 2 |}.

Definition mCreate (s : Store (list Z) DEntry LedgerHeader) := MA.create_doApply dParams mParams 100 dCommission 20 (xAccount 2) mOther 0 mCreation s.
Definition mConfirm (s : Store (list Z) DEntry LedgerHeader) :=
  RR.doApply 100 (RR.makeHelper dParams mParams 100 dCommission 20 mOther (rrDetails mApproval)) [8] mApproval s.
Definition mOpen (s : Store (list Z) DEntry LedgerHeader) := MB.doApply dParams 100 mOpening s.
Definition mChange (s : Store (list Z) DEntry LedgerHeader) := MA.update_doApply dParams mParams 100 dCommission 20 (xAccount 2) mOther 0 mUpdate s.
Definition mCancel (s : Store (list Z) DEntry LedgerHeader) := MA.cancel_doApply 100 (xAccount 2) 5 s.
Definition mDelist (s : Store (list Z) DEntry LedgerHeader) := MP.doApply dParams 100 dCommission mDelisting s.

(** ** A check of the invariant *)

Definition codesOf (R : list DEntry) : list AssetCode :=
  omap (fun e => match e with DBalance f => Some (balAsset (data f)) | DAsset f => Some (assetCode (data f)) | _ => None end) R.

Definition assetb (a : AssetEntry) : bool :=
  (0 <=? issued a) && (0 <=? pendingIssuance a) && inb 0 (availableForIssueance a) UINT64_MAX && (issued a + pendingIssuance a <=? maxIssuanceAmount a) &&
  (maxIssuanceAmount a <=? INT64_MAX) && isAssetCodeValid (assetCode a).

Definition supplyb (R : list DEntry) : bool :=
  bookb R && forallb (fun a => sumOf (fundsOf a) R =? sumOf (issuedOf a) R) (codesOf R) &&
  forallb (fun e => match e with DAsset f => assetb (data f) | _ => true end) R &&
  match rowsFind R (dAccountKey dCommission) with Some (DAccount a _) => isSystemAccountType (accountType a) | _ => true end.

Lemma supplyb_inv R : supplyb R = true -> supplyInv dCommission R nothing nothing.
Proof.
  unfold supplyb. rewrite !andb_true_iff, !forallb_forall. intros [[[Hb Hs] Ha] Hc]. split.
  - by apply bookb_inv.
  - intros a. unfold nothing. destruct (decide (a ∈ codesOf R)) as [Hin|Hout].
    + apply list_elem_of_In in Hin. specialize (Hs a Hin). lia.
    + rewrite !sumOf_zero; [done|..]; intros e He; unfold issuedOf, fundsOf, assetFunds; destruct e as [f| | |f| | | | | |]; cbn; try done; case_bool_decide; try done;
        destruct Hout; apply list_elem_of_omap; eexists; (split; [exact He|cbn; congruence]).
  - intros f Hf. apply (rowsFind_Some R) in Hf as [_ Hf]. apply list_elem_of_In in Hf. specialize (Ha _ Hf). cbn in Ha. unfold assetb, inb in Ha.
    rewrite !andb_true_iff, !Z.leb_le in Ha. destruct Ha as [[[[[? ?] [? ?]] ?] ?] ?]. by split; try done; word_lia.
  - intros e acc E. cbn in E. rewrite E in Hc. destruct e; try done. by intros [= <-].
Qed.

Lemma mStart_ready R : bool_decide (NoDup (map dKey R)) = true -> ready 2 true (rowsFind R) (mStart R).
Proof.
  intros Hd%bool_decide_eq_true. split; [|done|done]. split; [apply deltaOk_new|exact Hd|done| |done]. intros k v Hf. discriminate Hf.
Qed.

Lemma mStore_ready : ready 2 true (rowsFind mRows) mStore.
Proof. apply (mStart_ready mRows). vm_compute. reflexivity. Qed.

Lemma mSeq : 2 <> 0.
Proof. done. Qed.

Lemma mWide : wideWithdrawal mWithdrawal /\ is_u64 (iAmount mIssuance).
Proof. done. Qed.

Lemma mSupply : supplyInv dCommission mRows nothing nothing.
Proof. apply supplyb_inv. vm_compute. reflexivity. Qed.

(** ** Witnesses *)

Definition m1 := stateOf (mOffer mStore).
Definition m2 := stateOf (mAsk m1).
Definition m3 := stateOf (mDecide APPROVE m2).
Definition m4 := stateOf (mIssue m3).
Definition m5 := stateOf (mPreIssue m4).
Definition m6 := stateOf (mCreate m5).
Definition m7 := stateOf (mConfirm m6).
Definition m8 := stateOf (mOpen m7).
Definition m9 := stateOf (mChange m8).
Definition m10 := stateOf (mCancel m9).
Definition m11 := stateOf (mDelist m10).

Definition mOk : IR.Success := {| IR.requestID_ := 2; IR.fulfilled := true; IR.paidFee := {| fixed := 0; percent := 200000 |}; IR.receiverID := [2] |}.

Definition mOps : list MoneyOp :=
  [OpOffer (xAccount 2) (dOp true (12 * ONE) (3 * ONE) ONE); OpWithdrawal (xAccount 2) mWithdrawal; OpReview [9] (mReview APPROVE);
   OpIssuance mOwner true mIssuance [7]; OpPreIssuance mOwner mPreIssuance; OpCreateAsset (xAccount 2) 0 mCreation; OpReview [8] mApproval;
   OpBalance mOpening; OpUpdateAsset (xAccount 2) 0 mUpdate; OpCancelAsset (xAccount 2) 5; OpPair mDelisting].

Lemma mSteps : moneySteps dParams mParams 100 isort dCommission 20 mOther mOps mStore m11.
Proof.
  repeat (eapply steps_cons); [..|apply steps_nil].
  - eapply (step_offer _ _ _ _ _ _ _ mStore m1 (xAccount 2) (dOp true (12 * ONE) (3 * ONE) ONE) OFFER_SUCCESS mStore mStore 40); [done|done|done|cbn; lia|].
    vm_compute. reflexivity.
  - apply (step_withdrawal _ _ _ _ _ _ _ m1 m2 (xAccount 2) mWithdrawal 1); [done|]. vm_compute. reflexivity.
  - apply (step_review _ _ _ _ _ _ _ m2 m3 [9] (mReview APPROVE) REVIEW_SUCCESS); [done|]. vm_compute. reflexivity.
  - apply (step_issuance _ _ _ _ _ _ _ m3 m4 mOwner true mIssuance [7] mOk); [done|]. vm_compute. reflexivity.
  - apply (step_preIssuance _ _ _ _ _ _ _ m4 m5 mOwner mPreIssuance (3, false)). vm_compute. reflexivity.
  - apply (step_createAsset _ _ _ _ _ _ _ m5 m6 (xAccount 2) 0 mCreation (4, false)); [done|done|]. vm_compute. reflexivity.
  - apply (step_review _ _ _ _ _ _ _ m6 m7 [8] mApproval REVIEW_SUCCESS); [done|]. vm_compute. reflexivity.
  - apply (step_balance _ _ _ _ _ _ _ m7 m8 mOpening [2; 3]). vm_compute. reflexivity.
  - apply (step_updateAsset _ _ _ _ _ _ _ m8 m9 (xAccount 2) 0 mUpdate (5, false)). vm_compute. reflexivity.
  - apply (step_cancelAsset _ _ _ _ _ _ _ m9 m10 (xAccount 2) 5 5). vm_compute. reflexivity.
  - apply (step_pair _ _ _ _ _ _ _ m10 m11 mDelisting (3 * ONE)); [done|]. vm_compute. reflexivity.
Qed.

Lemma money_is_issued_witness :
  dBalanceOf (sRows m11) 22 = Some (73340000, 0) /\
    supplyInv dCommission (sRows m11) nothing nothing /\
    forall f : Frame AssetEntry, hasAsset (sRows m11) f -> sumOf (fundsOf (assetCode (data f))) (sRows m11) = issued (data f).
Proof.
  split; [vm_compute; reflexivity|].
  destruct (money_is_issued dParams mParams 100 isort 2 true dCommission 20 mOther (rowsFind mRows) mOps mStore m11 ltac:(done) mStore_ready mSupply mSteps ltac:(by repeat constructor)) as (_ & H1 & H2 & _).
  split; [exact H1|]. intros f Hf. exact (proj1 (H2 f Hf)).
Defined.

Lemma withdrawal_locks_witness : exists f r, asked 2 true 20 (xAccount 2) mRows mWithdrawal 1 f r (sRows (stateOf (mAsk mStore))).
Proof.
  apply (withdrawal_locks dParams mParams 100 2 true dCommission 20 (rowsFind mRows) mStore (xAccount 2) mWithdrawal 1); [done|exact mStore_ready|exact mSupply|done|].
  vm_compute. reflexivity.
Defined.

Definition mWaiting := stateOf (mAsk mStore).
Definition mRejected := stateOf (mDecide PERMANENT_REJECT mWaiting).

Lemma mAsked_ret : WR.doApply dParams mParams 100 20 (xAccount 2) mWithdrawal mStore = Ret (inr 1) mWaiting.
Proof. vm_compute. reflexivity. Qed.

Lemma mRejected_ret :
  RR.doApply 100 (RR.makeHelper dParams mParams 100 dCommission 20 mOther (rrDetails (mReview PERMANENT_REJECT))) [9] (mReview PERMANENT_REJECT) mWaiting =
  Ret (true, REVIEW_SUCCESS) mRejected.
Proof. vm_compute. reflexivity. Qed.

Lemma rejected_withdrawal_returns_witness : exists f : Frame BalanceEntry,
  hasBalance (sRows mStore) f /\ balanceID (data f) = wBalance mWithdrawal /\ balAccountID (data f) = accountID (xAccount 2) /\
  rowsFind (sRows mRejected) (balanceKey (wBalance mWithdrawal)) = Some (toEntry (stamp 2 true f)) /\ rowsFind (sRows mRejected) (requestKey 1) = None /\
  forall k, k <> balanceKey (wBalance mWithdrawal) -> keyKind k <> KIND_STATISTICS -> rowsFind (sRows mRejected) k = rowsFind (sRows mStore) k.
Proof.
  exact (rejected_withdrawal_returns dParams mParams 100 2 true dCommission 20 mOther (rowsFind mRows) mStore (xAccount 2) mWithdrawal 1 mWaiting
    (mReview PERMANENT_REJECT) [9] REVIEW_SUCCESS mRejected mSeq mStore_ready mSupply (proj1 mWide) mAsked_ret I eq_refl eq_refl mRejected_ret).
Defined.

Definition mRequest (R : list DEntry) : Frame ReviewableRequestEntry :=
  match rowsFind R (dRequestKey 1) with Some (DRequest r) => r | _ => {| lastModified := 0; data := RQ.createNewWithHash dRequests 0 [] [] None (OTHER_REQUEST 0 []) 0 |} end.

(** The ledger with the request, at the start of an operation. *)
Definition mAsked := mStart (sRows mWaiting).

Lemma mAsked_ready : ready 2 true (rowsFind (sRows mWaiting)) mAsked.
Proof. apply (mStart_ready (sRows mWaiting)). vm_compute. reflexivity. Qed.

Lemma mAsked_supply : supplyInv dCommission (sRows mAsked) nothing nothing.
Proof. apply supplyb_inv. vm_compute. reflexivity. Qed.

Lemma approval_pays_witness : let r := mRequest (sRows mAsked) in let q := WR.withUniversal mWithdrawal (10 * ONE) in
  exists f a s', RR.handleApprove (RR.makeHelper dParams mParams 100 dCommission 20 mOther (WITHDRAWAL_DETAILS [])) (mReview APPROVE) r mAsked = Ret (true, REVIEW_SUCCESS) s' /\
    storeOk (rowsFind (sRows mAsked)) s' /\ supplyInv dCommission (sRows s') nothing nothing /\ approved 2 true dCommission (sRows mAsked) q r f a (sRows s').
Proof.
  apply (approval_pays dParams mParams 100 2 true dCommission 20 mOther (rowsFind (sRows mAsked)) mAsked (mReview APPROVE) _ _ [] USD);
    [done|exact mAsked_ready|exact mAsked_supply|vm_compute; reflexivity|vm_compute; reflexivity| |].
  - apply ownb_own. vm_compute. reflexivity.
  - split; [vm_compute; by eexists|]. intros _. eexists {| lastModified := 1; data := {| balanceID := [91]; balAccountID := [9]; balAsset := USD; amount := 0; locked := 0 |} |}.
    split_and!; [vm_compute; reflexivity|done|done].
Defined.

Definition mPaid : IR.Success := {| IR.requestID_ := 1; IR.fulfilled := true; IR.paidFee := {| fixed := 0; percent := 200000 |}; IR.receiverID := [2] |}.
Definition mIssued := stateOf (mIssue mStore).

Lemma mIssued_ret : IR.doApply dParams mParams 100 dCommission 20 mOwner mOther true mIssuance [7] mStore = Ret (inr mPaid) mIssued.
Proof. vm_compute. reflexivity. Qed.

Lemma issuance_funds_witness : exists a : Frame AssetEntry, hasAsset (sRows mStore) a /\ assetCode (data a) = iAsset mIssuance /\ assetOwner (data a) = accountID mOwner /\
  0 + 200000 < iAmount mIssuance /\ rowsFind (sRows mIssued) (requestKey 1) = None /\
  (exists f, hasBalance (sRows mStore) f /\ balanceID (data f) = iReceiver mIssuance /\ balAsset (data f) = iAsset mIssuance /\
    rowsFind (sRows mIssued) (balanceKey (iReceiver mIssuance)) = Some (toEntry (stamp 2 true (moved f (iAmount mIssuance - (0 + 200000)) 0)))) /\
  exists a', hasAsset (sRows mIssued) a' /\ data a' = issuedAsset (data a) (iAmount mIssuance).
Proof.
  exact (issuance_funds dParams mParams 100 2 true dCommission 20 mOther (rowsFind mRows) mStore mOwner true mIssuance [7] mPaid mIssued mSeq mStore_ready mSupply (proj2 mWide) mIssued_ret).
Defined.

(** All three offers are of the pair: account 1 gets its 15 of gold back, and
    account 3 its dollars. *)
Lemma delisting_returns_locks_witness : exists s', MP.doApply dParams 100 dCommission mDelisting mStore = Ret (inr ONE) s' /\
  storeOk (rowsFind mRows) s' /\ supplyInv dCommission (sRows s') nothing nothing /\
  delisted mRows (stamp 2 true (withData dPair (MP.setPolicies (data dPair) mDelisting))) (sRows s').
Proof.
  apply (delisting_returns_locks dParams 100 2 true dCommission (rowsFind mRows) mStore mDelisting dPair);
    [done|exact mStore_ready|exact mSupply|vm_compute; reflexivity|done|done|done|vm_compute; reflexivity|done|done].
Defined.

Lemma delisted_balances : dBalanceOf (sRows (stateOf (mDelist mStore))) 11 = Some (15 * ONE, 0) /\ dBalanceOf (sRows (stateOf (mDelist mStore))) 32 = Some (4040000, 0).
Proof. vm_compute. done. Qed.
