(* ===== verification/StorageTheorems.v ===== *)
(** * Theorems on ledger deltas and buckets *)

From stdpp Require Import sorting.
From S2P Require Import Prelude OrdContainers LedgerKeys LedgerDelta LedgerDeltaFacts Bucket BucketFacts FutureBucket BucketList BucketListFacts LedgerCloseFacts.
Import BL.

(** ** The instance used by the witnesses

    Keys are numbers, an entry is a key and a value.  The hash of a bucket
    is an encoding of its content, so that buckets can be found by hash. *)

Definition exKeyOf (e : Z * Z) : Z := e.1.
Definition exBE : Type := BucketEntry Z (Z * Z).

Definition exEncode (b : list exBE) : list Z :=
  0 :: concat (map (fun e => match e with LIVEENTRY (k, v) => [1; k; v] | DEADENTRY k => [2; k] end) b).

Fixpoint exDecode (l : list Z) : option (list exBE) :=
  match l with
  | [] => Some []
  | 1 :: k :: v :: r => b ← exDecode r; Some (LIVEENTRY (k, v) :: b)
  | 2 :: k :: r => b ← exDecode r; Some (DEADENTRY k :: b)
  | _ => None
  end.

Definition exSv : BucketServices (list exBE) := {|
  getHash := exEncode; binToHex := fun h => h; hexToBin256 := fun h => Some h;
  getBucketByHash := fun h => match h with _ :: r => exDecode r | [] => None end;
  mergeReady := fun _ _ => false |}.

Global Instance exSv_ok : BucketServicesOk exSv.
Proof. by split. Defined.

Definition exLe (a b : exBE) : Prop := BucketEntryIdCmp exKeyOf b a = false.
Global Instance exLe_dec : RelDecision exLe.
Proof. intros a b. unfold exLe. apply _. Defined.

Definition exSort (l : list exBE) : list exBE := merge_sort exLe l.

Global Instance exSort_ok : StdSort exKeyOf exSort.
Proof.
  assert (Transitive exLe) by (intros a b c; unfold exLe; rewrite !cmp_key; cbn; rewrite !Z.ltb_ge; lia).
  assert (Total exLe) by (intros a b; unfold exLe; rewrite !cmp_key; cbn; rewrite !Z.ltb_ge; lia).
  split; intros l; [apply merge_sort_Permutation|apply (StronglySorted_merge_sort exLe)].
Qed.

Definition exBatches : list (list (Z * Z) * list Z) :=
  [([(1, 10); (2, 20)], []); ([(3, 30)], [1]); ([(2, 21)], []); ([], [3])].

Lemma exBatches_distinct : Forall (fun b => NoDup (map exKeyOf b.1) /\ NoDup b.2) exBatches.
Proof. repeat constructor; cbn; set_solver. Qed.

Section Theorems.
Context {Key Entry Header : Type} `{Ord Key} `{EqDecision Header} (keyOf : Entry -> Key).

(** ** The bucket list *)

(** C8. After any sequence of ledgers from the first on, with the entries each
    of them created, changed and deleted, no assertion of [addBatch] has
    failed and a lookup through the buckets finds for every key what the
    last ledger that wrote it left there. *)
Theorem bucket_list_is_the_ledger (sv : BucketServices (list (BucketEntry Key Entry))) sort g batches :
  BucketServicesOk sv -> StdSort keyOf sort ->
  Z.of_nat (length batches) <= UINT32_MAX - 524288 ->
  Forall (fun b => NoDup (map keyOf b.1) /\ NoDup b.2) batches ->
  exists bl, addBatches keyOf sv sort 0 batches (newBucketList g) = Some bl /\
    forall k, view keyOf bl k = ledgerAfter keyOf batches (fun _ => None) k.
Proof.
  intros Hsv Hsort Hlen Hnd.
  destruct (addBatches_view keyOf sv sort 0 batches (newBucketList g)) as (bl & Hrun & _ & Hv);
    [lia|lia|by apply listInv_new|done|].
  exists bl. split; [done|]. intros k. by rewrite Hv.
Qed.

(** Closing a ledger: operations on the entries, legal for the ledger the
    buckets stand for, are collected in a delta; the batch of live and dead
    entries taken from the delta leaves buckets that stand for the ledger
    after the operations. *)
Theorem closed_ledger_reaches_buckets (sv : BucketServices (list (BucketEntry Key Entry))) sort g batches bl
    (h : Header) u ops :
  BucketServicesOk sv -> StdSort keyOf sort ->
  Z.of_nat (length batches) < UINT32_MAX - 524288 ->
  Forall (fun b => NoDup (map keyOf b.1) /\ NoDup b.2) batches ->
  addBatches keyOf sv sort 0 batches (newBucketList g) = Some bl ->
  legalAll keyOf (view keyOf bl) ops ->
  exists d bl', runOps keyOf ops (LD.newDelta h u) = Ret tt d /\
    addBatch keyOf sv sort (Z.of_nat (length batches) + 1) (LD.getLiveEntries d) (LD.getDeadEntries d) bl = Some bl' /\
    forall k, view keyOf bl' k = applyOps keyOf ops (view keyOf bl) k.
Proof.
  intros Hsv Hsort Hlen Hnd Hbl Hlegal.
  destruct (addBatches_view keyOf sv sort 0 batches (newBucketList g)) as (bl0 & Hrun & Hinv & _);
    [lia|lia|by apply listInv_new|done|]. rewrite Hbl in Hrun. injection Hrun as <-.
  destruct (runOps_step keyOf (view keyOf bl) (LD.newDelta h u) ops) as (d & Hd & [Hsets _] & _ & _ & Hv);
    [apply deltaOk_new|done|].
  destruct (delta_batch keyOf sv sort (view keyOf bl) (Z.of_nat (length batches)) bl d) as (bl' & Hb & _ & Hvb); [lia|done..|].
  exists d, bl'. split; [done|]. split; [done|]. intros k. by rewrite Hvb, Hv.
Qed.

(** [Bucket::merge] of sorted buckets succeeds and gives a sorted bucket in
    which a key has the entry of the new bucket, or else that of the old one,
    unless it occurs in a shadow, or is dead and dead entries are dropped. *)
Theorem merge_finds_newest (old new : list (BucketEntry Key Entry)) shadows keepDead :
  bsorted keyOf old -> bsorted keyOf new -> Forall (bsorted keyOf) shadows ->
  exists b, merge keyOf old new shadows keepDead = Some b /\ bsorted keyOf b /\
    forall k, blookup keyOf k b =
      if existsb (holds keyOf k) shadows then None else
      match orElse (blookup keyOf k new) (blookup keyOf k old) with
      | Some e => if keeps keepDead e then Some e else None
      | None => None
      end.
Proof.
  intros Ho Hn Hs. destruct (merge_spec keyOf old new shadows keepDead Ho Hn Hs) as (b & Hm & Hb & Hv).
  exists b. split; [done|]. split; [done|]. intros k. rewrite Hv. unfold mergeView.
  by destruct (blookup keyOf k new).
Qed.

(** A merge that was saved while running and restarted from the saved
    hashes resolves to the bucket the original merge would have given,
    provided [mKeepDeadEntries] has the same value again. *)
Theorem restarted_merge_same (sv : BucketServices (list (BucketEntry Key Entry))) curr snap shadows keepDead :
  BucketServicesOk sv ->
  bsorted keyOf curr -> bsorted keyOf snap -> Forall (bsorted keyOf) shadows ->
  stored sv curr -> stored sv snap -> Forall (stored sv) shadows ->
  exists f f' b after after', FB.startFuture keyOf sv curr snap shadows keepDead = Some f /\
    FB.resolve sv f = Some (b, after) /\
    (saved ← FB.save sv f; g ← FB.load sv (FB.newFuture keepDead) saved; FB.makeLive keyOf sv g) = Some f' /\
    FB.resolve sv f' = Some (b, after').
Proof.
  intros Hsv Hc Hsn Hsh Sc Ss Ssh.
  destruct (merge_spec keyOf curr snap shadows keepDead Hc Hsn Hsh) as (b & Hm & _).
  do 5 eexists. split; [by apply startFuture_merging|]. split; [apply resolve_merging, _|].
  split; [by apply restart_merging|apply resolve_merging, _].
Qed.

(** ** Ledger deltas *)

(** Operations that are legal on a ledger never fail an assertion of the
    delta that collects them, and the sets of the delta, the list of all
    changes and the collapsed changes each turn the ledger into the one
    after the operations. *)
Theorem delta_collects_changes (lastModified : Entry -> Z) (ledgerSeq : Header -> Z) L (h : Header) u ops :
  legalAll keyOf L ops ->
  exists d, runOps keyOf ops (LD.newDelta h u) = Ret tt d /\
    forall k, deltaView d L k = applyOps keyOf ops L k /\
      replay keyOf (LD.getAllChanges d) L k = applyOps keyOf ops L k /\
      replay keyOf (LD.getChanges lastModified ledgerSeq d) L k = applyOps keyOf ops L k.
Proof.
  intros Hl. destruct (runOps_step keyOf L (LD.newDelta h u) ops) as (d & Hd & Hok & _ & _ & Hv);
    [apply deltaOk_new|done|].
  exists d. split; [done|]. intros k. specialize (Hv k).
  split; [exact Hv|]. split; [by rewrite (do_replay _ _ _ Hok)|].
  by rewrite (getChanges_replay keyOf lastModified ledgerSeq L d (do_sets _ _ _ Hok)).
Qed.

(** C32. Committing a nested delta into the outer one always succeeds and has
    the effect of performing its operations in the outer delta; the outer
    delta takes over the header, and the nested one is closed. *)
Theorem delta_commit_composes L (h h' : Header) u ops1 ops2 :
  legalAll keyOf L ops1 -> legalAll keyOf (applyOps keyOf ops1 L) ops2 ->
  exists outer inner outer', runOps keyOf ops1 (LD.newDelta h u) = Ret tt outer /\
    runOps keyOf ops2 (LD.nestedDelta outer) = Ret tt inner /\
    LD.commitNested keyOf (LD.setCurrentHeader inner h', outer) =
      Ret tt (LD.dropHeader (LD.setCurrentHeader inner h'), outer') /\
    mCurrentHeader outer' = h' /\
    forall k, deltaView outer' L k = applyOps keyOf (ops1 ++ ops2) L k.
Proof.
  intros H1 H2.
  destruct (runOps_step keyOf L (LD.newDelta h u) ops1) as (outer & Ho & Hok & Hh & _ & Hv);
    [apply deltaOk_new|done|].
  destruct (runOps_step keyOf (deltaView outer L) (LD.nestedDelta outer) ops2) as (inner & Hi & Hoki & _ & Hp & Hvi);
    [apply deltaOk_new|eapply legalAll_ext; [|exact H2]; intros k; symmetry; exact (Hv k)|].
  assert (deltaOk keyOf (deltaView outer L) (LD.setCurrentHeader inner h')) as Hok2.
  { destruct Hoki as [[] Hr]. split; [by split|exact Hr]. }
  destruct (commitNested_step keyOf L (LD.setCurrentHeader inner h') outer Hok Hok2) as (outer' & Hc & _ & Hh' & _ & Hv');
    [exact Hp|].
  exists outer, inner, outer'. split_and!; try done. intros k. rewrite Hv'.
  change (deltaView (LD.setCurrentHeader inner h') (deltaView outer L) k) with (deltaView inner (deltaView outer L) k).
  rewrite Hvi, applyOps_app. by apply applyOps_ext.
Qed.

End Theorems.

(** ** Instances *)

Lemma bucket_list_is_the_ledger_witness :
  exists bl, addBatches exKeyOf exSv exSort 0 exBatches (newBucketList false) = Some bl /\
    map (view exKeyOf bl) [1; 2; 3; 4] = [None; Some (2, 21); None; None].
Proof.
  destruct (bucket_list_is_the_ledger exKeyOf exSv exSort false exBatches exSv_ok exSort_ok) as (bl & Hbl & Hv).
  - vm_compute. discriminate.
  - apply exBatches_distinct.
  - exists bl. split; [exact Hbl|]. cbn [map]. rewrite !Hv. vm_compute. reflexivity.
Defined.

Definition exOps : list (DeltaOp (Key := Z) (Entry := Z * Z)) :=
  [OpAdd (1, 11); OpRecord (2, 21); OpMod (2, 22); OpDel 2; OpAdd (5, 50); OpDel 5; OpAdd (2, 23)].

Definition exBl : list (BucketLevel (list exBE)) := 
  match addBatches exKeyOf exSv exSort 0 exBatches (newBucketList false) with Some bl => bl | None => [] end.

Lemma exBuckets_run : addBatches exKeyOf exSv exSort 0 exBatches (newBucketList false) = Some exBl.
Proof. vm_compute. reflexivity. Qed.

Lemma closed_ledger_reaches_buckets_witness :
  exists d bl', runOps exKeyOf exOps (LD.newDelta 7 true) = Ret tt d /\
    addBatch exKeyOf exSv exSort 5 (LD.getLiveEntries d) (LD.getDeadEntries d) exBl = Some bl' /\
    forall k, view exKeyOf bl' k = applyOps exKeyOf exOps (view exKeyOf exBl) k.
Proof.
  apply (closed_ledger_reaches_buckets exKeyOf exSv exSort false exBatches exBl 7 true exOps exSv_ok exSort_ok).
  - vm_compute. reflexivity.
  - apply exBatches_distinct.
  - exact exBuckets_run.
  - vm_compute. repeat split; eexists; reflexivity.
Defined.

Definition exOld : list exBE := [LIVEENTRY (1, 10); LIVEENTRY (2, 20); DEADENTRY 4].
Definition exNew : list exBE := [DEADENTRY 2; LIVEENTRY (3, 30)].

Ltac sorted_bucket :=
  cbn; repeat split; intros y; rewrite ?elem_of_cons, ?elem_of_nil; intros Hy; break; subst; done.

Lemma merge_finds_newest_witness :
  merge exKeyOf exOld exNew [[LIVEENTRY (3, 31)]] false = Some [LIVEENTRY (1, 10)] /\
  exists b, merge exKeyOf exOld exNew [[LIVEENTRY (3, 31)]] false = Some b /\ blookup exKeyOf 3 b = None.
Proof.
  split; [reflexivity|].
  destruct (merge_finds_newest exKeyOf exOld exNew [[LIVEENTRY (3, 31)]] false) as (b & Hb & _ & Hv).
  - sorted_bucket.
  - sorted_bucket.
  - repeat constructor; sorted_bucket.
  - exists b. split; [exact Hb|]. rewrite Hv. reflexivity.
Defined.

Lemma restarted_merge_same_witness :
  exists f f' b after after', FB.startFuture exKeyOf exSv exOld exNew [] true = Some f /\
    FB.resolve exSv f = Some (b, after) /\
    (saved ← FB.save exSv f; g ← FB.load exSv (FB.newFuture true) saved; FB.makeLive exKeyOf exSv g) = Some f' /\
    FB.resolve exSv f' = Some (b, after').
Proof.
  apply (restarted_merge_same exKeyOf exSv exOld exNew [] true exSv_ok).
  - sorted_bucket.
  - sorted_bucket.
  - constructor.
  - reflexivity.
  - reflexivity.
  - constructor.
Defined.

Lemma delta_collects_changes_witness :
  exists d, runOps exKeyOf exOps (LD.newDelta 7 true) = Ret tt d /\
    forall k, deltaView d (fun k => if k =? 2 then Some (2, 20) else None) k =
      applyOps exKeyOf exOps (fun k => if k =? 2 then Some (2, 20) else None) k.
Proof.
  destruct (delta_collects_changes exKeyOf (fun _ => 0) (fun h => h)
    (fun k => if k =? 2 then Some (2, 20) else None) 7 true exOps) as (d & Hd & Hv).
  - vm_compute. repeat split; eexists; reflexivity.
  - exists d. split; [exact Hd|]. intros k. apply Hv.
Defined.

Lemma delta_commit_composes_witness :
  exists outer inner outer', runOps exKeyOf [OpAdd (1, 10)] (LD.newDelta 7 true) = Ret tt outer /\
    runOps exKeyOf [OpMod (1, 11); OpAdd (2, 20)] (LD.nestedDelta outer) = Ret tt inner /\
    LD.commitNested exKeyOf (LD.setCurrentHeader inner 8, outer) =
      Ret tt (LD.dropHeader (LD.setCurrentHeader inner 8), outer') /\
    mCurrentHeader outer' = 8 /\
    forall k, deltaView outer' (fun _ => None) k =
      applyOps exKeyOf ([OpAdd (1, 10)] ++ [OpMod (1, 11); OpAdd (2, 20)]) (fun _ => None) k.
Proof.
  apply (delta_commit_composes exKeyOf (fun _ => None) 7 8 true [OpAdd (1, 10)] [OpMod (1, 11); OpAdd (2, 20)]).
  - vm_compute. repeat split.
  - vm_compute. repeat split. eexists. reflexivity.
Defined.

(** ** Keys and schedule *)

(** [LedgerEntryIdCmp] is a strict weak order on ledger keys.  Two keys
    are tied exactly when they are the same key, or references that differ
    only in their sender. *)
Theorem LedgerEntryIdCmp_order typeRank binToHex (a b c : LedgerKey) :
  (forall x y, typeRank x = typeRank y -> x = y) ->
  (forall x y, binToHex x = binToHex y -> x = y) ->
  let lt := LedgerEntryIdCmp typeRank binToHex in
  lt a a = false /\ (lt a b = true -> lt b c = true -> lt a c = true) /\
  (lt a b = true -> lt a c = true \/ lt c b = true) /\
  ((lt a b = false /\ lt b a = false) <->
     a = b \/ exists r s1 s2, a = REFERENCE_ENTRY r s1 /\ b = REFERENCE_ENTRY r s2).
Proof.
  intros Hr Hh lt. unfold lt. rewrite LedgerEntryIdCmp_tie by done.
  rewrite !LedgerEntryIdCmp_fields by done. split_and!.
  - apply ltb_irrefl.
  - apply ltb_trans.
  - intros Hab. destruct (ltb (keyFields _ _ a) (keyFields _ _ c)) eqn:E; [by left|right].
    by eapply leb_ltb_trans.
  - split.
    + destruct a, b; cbn; intros E; try discriminate E; injection E; intros; subst; try by left.
      right. by repeat eexists.
    + by intros [->|(r & s1 & s2 & -> & ->)].
Qed.

Definition exRank (t : LedgerEntryType) : Z :=
  match t with
  | T_ACCOUNT => 0 | T_FEE => 5 | T_BALANCE => 7 | T_PAYMENT_REQUEST => 8 | T_ASSET => 9
  | T_ACCOUNT_TYPE_LIMITS => 11 | T_STATISTICS => 12 | T_REFERENCE_ENTRY => 10 | T_TRUST => 13
  | T_ACCOUNT_LIMITS => 14 | T_ASSET_PAIR => 15 | T_OFFER_ENTRY => 16 | T_INVOICE => 17
  | T_REVIEWABLE_REQUEST => 18 | T_EXTERNAL_SYSTEM_ACCOUNT_ID => 19 | T_SALE => 20
  end.

Lemma LedgerEntryIdCmp_order_witness :
  LedgerEntryIdCmp exRank (fun h => h) (FEE [1] 0 5) (FEE [1] 0 7) = true /\
  LedgerEntryIdCmp exRank (fun h => h) (REFERENCE_ENTRY [7] 1) (REFERENCE_ENTRY [7] 2) = false /\
  LedgerEntryIdCmp exRank (fun h => h) (REFERENCE_ENTRY [7] 2) (REFERENCE_ENTRY [7] 1) = false.
Proof.
  split; [reflexivity|].
  apply (LedgerEntryIdCmp_order exRank (fun h => h) (REFERENCE_ENTRY [7] 1) (REFERENCE_ENTRY [7] 2) (FEE [1] 0 5)).
  - intros x y. destruct x, y; vm_compute; intros E; reflexivity || discriminate E.
  - intros x y E. exact E.
  - right. exists [7], 1, 2. split; reflexivity.
Defined.

(** A level spills exactly at the ledgers that are multiples of half its
    size, which is 2 * 4^i for level [i]; the last level never does. *)
Theorem level_spills_at_half t i : is_u32 t -> (i < kNumLevels)%nat ->
  levelShouldSpill t i = Some (bool_decide (i < 10)%nat && (t mod (2 * 4 ^ Z.of_nat i) =? 0)).
Proof. intros Ht Hi. rewrite levelShouldSpill_spills by (done || (unfold kNumLevels in Hi; lia)). done. Qed.

Lemma level_spills_at_half_witness :
  levelShouldSpill 2 0 = Some true /\ levelShouldSpill 8 1 = Some true /\ levelShouldSpill 4 1 = Some false.
Proof.
  rewrite (level_spills_at_half 2 0), (level_spills_at_half 8 1), (level_spills_at_half 4 1)
    by (unfold is_u32, UINT32_MAX, kNumLevels; lia).
  vm_compute. repeat split.
Defined.

(** [mKeepDeadEntries] is not part of the saved state, and the object it
    is loaded into does not initialize it: a merge that keeps its dead
    entries can be restarted as one that drops them. *)
Theorem restarted_merge_can_drop_dead :
  match FB.startFuture exKeyOf exSv exOld exNew [] true with
  | Some f =>
      match FB.resolve exSv f,
            (saved ← FB.save exSv f; g ← FB.load exSv (FB.newFuture false) saved;
             FB.makeLive exKeyOf exSv g) with
      | Some (b, _), Some f' =>
          b = [LIVEENTRY (1, 10); DEADENTRY 2; LIVEENTRY (3, 30); DEADENTRY 4] /\
          match FB.resolve exSv f' with
          | Some (b', _) => b' = [LIVEENTRY (1, 10); LIVEENTRY (3, 30)]
          | None => False
          end
      | _, _ => False
      end
  | None => False
  end.
Proof. vm_compute. split; reflexivity. Qed.
